(* ===== verification/_CoqProject ===== *)
-Q . S2P
Prelude.v
FloatModel.v
FloatTheory.v
SizeModel.v
KmvHash.v
Plr.v
Kmv.v
KmvEstimate.v
KmvMerge.v
Merge.v
Split.v
Materialize.v
Registry.v
Version.v
Coding.v
WalEdit.v
FileCodec.v
Progress.v
EditCodec.v
Storage.v
Builder.v
BuilderSpec.v
BuilderSave.v
Build.v
Priority.v
LevelStats.v
Window.v
Commit.v
System.v
RunVirtual.v
Install.v
Bitmap.v
Crc.v
LogWriter.v
LogReader.v
Log.v
Recover.v
Replay.v
LogApply.v
GroupCommit.v
Crash.v
ManifestSpec.v
StoredEdit.v
CommitSpec.v
GroupSpec.v
Snapshot.v
Durable.v
Lifecycle.v
Reservation.v
Membership.v
Stream.v
TraceGen.v
TraceFile.v
Radix.v
Flush.v
Load.v
Writer.v
Calibrate.v
Tasks.v
Worker.v
Phase2.v
Interleave.v
Replace.v
Setup.v
