(* ===== verification/Prelude.v ===== *)
(** * Virtual compaction: a verification of the virtual load

    The program is a fork of RocksDB that loads a database without writing its
    tables until the tree has its final shape.  During the load a table file is
    _virtual_: a descriptor with a piecewise linear model of its keys (PLR), samples of
    the hashed keys (KMV sketches), a key range, an entry count and a size.  The load
    has the following parts, each of which is modelled by the files named.

    - _Input._  [tools/generate_load_trace_fast.cc] writes a trace of key ids
      ([TraceGen]), [tools/verify_load_trace.cc] checks such a file ([TraceFile]), and
      [FillVirtual] of [tools/db_bench_tool.cc] reads its header ([TraceFile]); without
      a trace, [BaselineKeyStream] draws keys in one thread for several consumers
      ([Stream]).
    - _Setup._  The flags, the bitmaps of the two exact key modes and the calibration
      of the size model ([Setup], [Calibrate], [SizeModel]).
    - _Phase 1._  Key ids are collected to batches of the size of a memtable, sorted
      ([Radix]), fitted and sketched into one virtual file each ([Plr], [KmvHash],
      [Kmv], [Flush]) by one thread or by several shards ([Load]), and handed to the
      virtual L0 window ([Window]), which registers them in the registry of
      descriptors ([Registry]) and in the version ([Version]).
    - _Background compactions._  A compaction of virtual files merges their models
      ([KmvEstimate], [KmvMerge], [Merge]), splits the result ([Split]), and commits an
      edit through a queue with a leader ([RunVirtual], [Commit]); compaction threads,
      feeder and leader share the state of the database ([System]).
    - _Phase 2._  Every virtual file becomes a task with a file number and a range
      ([Tasks]); workers write the tables ([Writer], [Materialize], [Worker]), with keys
      from the model, from the model and a reservation of globally unique keys
      ([Bitmap], [Reservation]), or from the bitmap of the ingested keys
      ([Membership]); groups of tasks run between barriers ([Phase2], [Interleave]); and
      one edit replaces the virtual files by the tables ([Install], [Replace]).
    - _Versions._  Every commit of these phases goes through the version set of RocksDB,
      parts of which the fork changes.  [VersionBuilder] of [db/version_builder.cc]
      applies edits to the storage of a version ([Storage], [Builder], with the
      specification in [BuilderSpec], saving in [BuilderSave] and the whole in
      [Build]); the new version gets the lists of files by compaction priority, of
      which only those of changed levels are rebuilt ([Priority], from
      [db/version_set.cc] and [db/compaction/file_pri.h]), and the sums compaction
      scores start from ([LevelStats]).
    - _The MANIFEST._  Edits are encoded as records ([Coding], [WalEdit], [FileCodec],
      [Progress], [EditCodec], from [util/coding.*], [db/wal_edit.*],
      [db/version_edit.*]) and appended to a log of blocks with checksums ([Crc] from
      [util/crc32c.*], [LogWriter] and [LogReader] from [db/log_writer.cc] and
      [db/log_reader.cc], with their composition in [Log]).
    - _Commits and recovery._  [NewDB] writes the first MANIFEST; a group of writers is
      applied to builders, written as records, after a snapshot if a new MANIFEST is
      started, and installed ([LogApply], from [ProcessManifestWrites] and
      [WriteCurrentStateToManifest] of [db/version_set.cc] and from
      [db/db_impl/db_impl_open.cc]); when the database is opened, the records are read
      and replayed ([Recover], from [db/version_edit_handler.cc]).  [Replay],
      [GroupCommit] and [Crash] treat atomic groups; [ManifestSpec] says what a
      MANIFEST means, [StoredEdit], [CommitSpec], [GroupSpec] and [Snapshot] relate
      edits, versions, groups and snapshots to it, [Durable] the commit as a whole, and
      [Lifecycle] the sequence of creation, opening and commits of a database.

    ** State and operations

    Each file models the class or function its header names, with the names of the
    source: a record per class or struct, a definition per method, lambda or loop, in
    the order the code composes them.  [uint64_t] and [unsigned __int128] are [Z] with
    the reductions written out ([+%], [-%], [*%], [u64], [u128] below); [double] and the
    x87 [long double] are the executable floats of [SpecFloat], with every C++ operation
    rounding once, to nearest even, and no contraction to fused operations
    ([FloatModel], with its theory in [FloatTheory]).  Bytes are integers from 0 to 255.
    Maps and sets are [gmap] and [gset]; vectors are lists.  A [Status] is a value; the
    functions that leave early return sums.  A result [None] of a model is undefined
    behaviour in C++ (a float outside the range of the integer type, an index past
    the end of a bitmap, a remainder by zero), and theorems that a function returns
    exclude it.

    Inputs that the code does not determine are arguments: the outcome of I/O, the file
    sizes the file system reports, the order [std::sort] gives to equal elements (every
    permutation that satisfies [is_task_order] or [is_install_order]), what other
    threads queue while a mutex is released, the environment variables, the generator
    behind [Random64], and [exp], [log] and [pow].  [std::push_heap] and [std::pop_heap]
    are the class [HeapOps] with the contract of the standard as [HeapLaws], and an
    implementation that satisfies it; the sorts of [Priority] are the class [Algorithms]
    with [AlgorithmLaws]; user comparators are the class [Comparator] with
    [ComparatorLaws], of which the bytewise comparator is an instance; the file a log is
    written to is the class [FileWriter] with [FileWriterLaws]; decompression is an
    argument of the log reader.

    Concurrency is modelled as step relations: [System] steps from one release of the
    DB mutex to the next, and a [LogAndApply] takes effect and returns in one step;
    [Stream] steps at the critical sections of the stream's mutex; [Interleave] steps at
    the iterations of the workers' loops.

    ** What the theorems show

    - [System]: in every reachable state of feeder, compactions and commit leader the
      registry holds descriptors for exactly the virtual files of the version and of
      the batches being written, every request finishes once, and the window's counters
      are the files and bytes of level 0.  [Commit], [Window]: the leader serves every
      request and terminates; the window keeps order, bytes and limits.
    - [RunVirtual], [Merge], [Split], [KmvMerge], [KmvEstimate]: a compaction of
      registered inputs reaches its commit; its outputs hold at least one and at most
      the entries of its inputs, with ordered ranges and sketches of exactly the input
      keys in their range; its edit deletes the inputs and adds the outputs.
    - [Plr], [Kmv], [SizeModel], [Materialize]: the fit partitions the keys in
      order and predicts every key within the error bound (before rounding, over the
      rationals); sketches are exactly the smallest fingerprints; [MaxEntries] inverts
      [Estimate].
    - [TraceGen], [TraceFile]: a generated trace has exactly the promised records and
      distinct keys, and verifier and loader read back what was written.
    - [Stream], [Radix], [Flush], [Load]: the stream delivers all keys in order and does
      not deadlock; the sort is the sorted permutation; a load loses no record, and the
      number of shards and their schedule change neither the files nor the bitmap.
    - [Bitmap], [Reservation], [Membership]: the word-level scans are queries of a set of
      keys; a cursor spreads its keys evenly.
    - [Tasks], [Worker], [Phase2], [Interleave]: ranges of a level become disjoint; a file
      is always written, with ascending keys of its range; with a reservation no key is
      written twice, under any schedule of the workers; with the exact membership only
      ingested keys are written, and claimed once.
    - [Install], [Replace]: sequences follow the order in which lookups search the
      files, errors change nothing, and Phase 2 ends with a version of real files and an
      empty registry.  [Setup]: from a generated trace to the keys of the files.
    - [Calibrate]: the calibrated model covers every measured table.
    - [Build]: the builder implements the edits that the components above apply to a
      version, never reads out of range, drops a blob file only when no table file
      refers to it, and saves levels in order; the check of the consistency of a version
      is characterised.  [Priority]: rebuilding the marked levels gives the lists of a
      full rebuild.  [LevelStats]: the cached sums are those of the version, unless a
      file is marked while the mutex is released.
    - [EditCodec]: every edit in the ranges of its types is encoded and read back, and
      whatever bytes are decoded, the members are in the ranges of their types.
      [Crc]: the table-driven checksum is CRC-32C, and checksums combine.  [LogReader]:
      reading a log returns.  [Log]: the records that were added are read back, a log
      that is cut off gives its complete records, and every record whose addition
      succeeded survives I/O errors.
    - [GroupCommit]: dropped column families leave the atomic groups of the others
      complete.  [Crash]: a MANIFEST that is cut off anywhere is recovered as its
      complete groups.  [Lifecycle]: commits that succeed keep the MANIFEST in step with
      the version set, commits that fail install nothing, and a database whose last
      commit succeeded is recovered as it was, whatever came before.  The theorems on
      commits cover databases without blob files, user-defined timestamps and tracked
      write-ahead logs, which are off by default.

    Where code and documentation differ, or a computation wraps, the difference is
    stated as a theorem about a concrete input in the component's file
    ([affine_overflow], [Create_wraps], [boundary_file_fails],
    [MaterializeKeys_repeats_last], [adjacent_outputs_share_key],
    [refill_failure_drops_batch], [refill_error_reported_for_committed_edit],
    [reader_hangs], [recycled_log_number], [stale_stats], [unmarked_lists_stale],
    [negative_level], [garbage_wraps], [unsaved_version_ignored],
    [dropped_writer_loses_max]).

    ** Bounds and fuel

    Loops over lists are structural.  The other loops take fuel, and lemmas show that
    the fuel their callers pass is enough: the walks over segments take the number of
    segments, the write loop of a file its number of planned entries, the replay of a
    trace one more than its records, the search for a multiplier of [TraceGen] two more
    than the domain (a hypothesis of its theorem), the leader and the refill one turn
    per input of their turn lists, which the theorems take long enough; the decoders of
    the MANIFEST take the length of the input, every turn consuming a byte; the log
    reader takes fuel by the length of the file, which [ReadRecord_total] shows to be
    enough, and recovery takes the fuel of the reader and one turn per record; its
    theorems are stated for all fuel from some bound on.  Hypotheses of
    the form [... <= u64_max] exclude wrap-around where the code does not handle it;
    the domain of a bitmap is at most [u64_max - 63], since [Create] wraps beyond.
    Keys are encoded in at least eight bytes and without prefixes in the theorems on
    files; the encoder is modelled with prefixes too.

    ** Not modelled

    - The RocksDB code that the fork only calls: compaction picking, the write path,
      block-based tables, table and blob caches, [WaitForCompact].  Its outcomes are
      inputs.  For the phases of the load a version is the level of each file
      ([Version]); [Build] relates it to the storage of the builder.
    - In the builder, the tracking of found and missing files for point-in-time recovery,
      the loading of table handlers and the reference counts; in the log writer,
      compression; the variants of CRC-32C for special instructions.
    - Around the MANIFEST: the queue of its writers (the group is an argument), edits that
      skip the write, the quarantine of files, the search for the MANIFEST through CURRENT,
      the handlers of point-in-time recovery and those that follow or dump a MANIFEST; the
      opening of tables is an argument.
    - The wait for the background compactions and the drain loop between the phases:
      they only call [RefillVirtualL0Window] and [WaitForCompact] until the window is
      empty.
    - Reports, timing counters, the memory profiler, the parsing of arguments and the
      tracing of compaction jobs, which change no state of the load; the baseline load
      [WriteFromLoadTrace], which goes through the ordinary write path.
    - The interleaving of the workers within one word of a bitmap, and of files with the
      exact membership: an iteration of the loop is a step, and the claims of a file are
      applied when it is closed.
    - The Python generator and the scripts of the experiments. *)

From Stdlib Require Import ZArith Lia.
From stdpp Require Import base list numbers sorting gmap.

Local Open Scope Z_scope.

(** ** Machine integers *)

(** Value of [std::numeric_limits<uint64_t>::max()]. *)
Definition u64_max : Z := 2 ^ 64 - 1.

(** Reduction of an integer to [uint64_t]. *)
Definition u64 (z : Z) : Z := z mod 2 ^ 64.

(** [z] is a value of type [uint64_t]. *)
Definition is_u64 (z : Z) : Prop := 0 <= z <= u64_max.

(** Reduction to [unsigned __int128]. *)
Definition u128 (z : Z) : Z := z mod 2 ^ 128.

Declare Scope u64_scope.
Delimit Scope u64_scope with u64.
Notation "x +% y" := (u64 (x + y)) (at level 50, left associativity) : u64_scope.
Notation "x -% y" := (u64 (x - y)) (at level 50, left associativity) : u64_scope.
Notation "x *% y" := (u64 (x * y)) (at level 40, left associativity) : u64_scope.
Open Scope u64_scope.

Lemma u64_small z : is_u64 z -> u64 z = z.
Proof. unfold is_u64, u64, u64_max. intros H. apply Z.mod_small. lia. Qed.

Lemma u64_range z : is_u64 (u64 z).
Proof.
  unfold is_u64, u64, u64_max.
  pose proof (Z.mod_pos_bound z (2 ^ 64) ltac:(lia)). lia.
Qed.

Lemma u128_small z : 0 <= z < 2 ^ 128 -> u128 z = z.
Proof. unfold u128. intros H. by apply Z.mod_small. Qed.

(** A value that is in the range of [uint64_t] by linear arithmetic. *)
Ltac solve_u64 := first [unfold is_u64; lia | unfold is_u64, u64_max in *; lia].

Create HintDb u64db.
#[export] Hint Resolve u64_range u64_small : u64db.

Lemma half_le n : (n / 2 <= n)%nat.
Proof. apply Nat.Div0.div_le_upper_bound. lia. Qed.

(** ** Sorted lists *)

Lemma StronglySorted_lookup {A} (R : relation A) l i j a b :
  StronglySorted R l -> (i < j)%nat -> l !! i = Some a -> l !! j = Some b -> R a b.
Proof.
  intros Hs. revert i j. induction Hs as [|s l Hs IH Hall]; intros i j Hij Ha Hb; [done|].
  destruct i as [|i], j as [|j]; cbn in *; try lia.
  - simplify_eq. rewrite Forall_lookup in Hall. by eapply Hall.
  - eapply IH; [|done..]. lia.
Qed.

Lemma StronglySorted_of_lookup {A} (R : relation A) l :
  (forall i j a b, (i < j)%nat -> l !! i = Some a -> l !! j = Some b -> R a b) ->
  StronglySorted R l.
Proof.
  induction l as [|x l IH]; intros Hl; constructor.
  - apply IH. intros i j a b Hij Ha Hb. apply (Hl (S i) (S j)); [lia|done|done].
  - apply Forall_lookup_2. intros i y Hy. by apply (Hl 0%nat (S i)); [lia|..].
Qed.

(** Indices of a strictly increasing list are ordered as its elements. *)
Lemma sorted_lookup_le l i j a b :
  StronglySorted Z.lt l -> (i <= j)%nat -> l !! i = Some a -> l !! j = Some b -> a <= b.
Proof.
  intros Hs Hij Ha Hb. destruct (decide (i = j)) as [->|]; [simplify_eq; lia|].
  pose proof (StronglySorted_lookup _ _ i j _ _ Hs ltac:(lia) Ha Hb). lia.
Qed.

(** ** Filters *)

Lemma list_filter_all {A} (P : A -> Prop) `{forall x, Decision (P x)} l :
  Forall P l -> filter P l = l.
Proof. induction 1 as [|x l Hx _ IH]; [done|]. by rewrite filter_cons_True, IH. Qed.

#[export] Instance remove_dups_Permutation {A} `{EqDecision A} :
  Proper ((≡ₚ) ==> (≡ₚ)) (@remove_dups A _).
Proof.
  intros l l' Hp. apply NoDup_Permutation; [apply NoDup_remove_dups..|].
  intros x. by rewrite !elem_of_remove_dups, Hp.
Qed.

Lemma list_filter_ext_in {A} (P Q : A -> Prop) `{forall x, Decision (P x)} `{forall x, Decision (Q x)} (l : list A) :
  (forall x, x ∈ l -> P x <-> Q x) -> filter P l = filter Q l.
Proof.
  induction l as [|x l IH]; intros Heq; [done|]. rewrite !filter_cons.
  rewrite (decide_ext (P x) (Q x)) by (apply Heq; by left).
  rewrite IH; [done|]. intros y Hy. apply Heq. by right.
Qed.

Lemma list_fmap_id_on {A} (f : A -> A) l : Forall (fun x => f x = x) l -> f <$> l = l.
Proof. induction 1 as [|x l Hx _ IH]; [done|]. cbn. by rewrite Hx, IH. Qed.

Lemma StronglySorted_filter {A} (R : relation A) (P : A -> Prop) `{forall x, Decision (P x)} l :
  StronglySorted R l -> StronglySorted R (filter P l).
Proof.
  induction 1 as [|x l Hs IH Hall]; [constructor|]. rewrite filter_cons. case_decide; [|done].
  constructor; [done|]. rewrite Forall_forall in Hall |- *. intros y [_ Hy]%list_elem_of_filter. auto.
Qed.

Lemma StronglySorted_reverse {A} (R : relation A) l :
  StronglySorted R l -> StronglySorted (fun a b => R b a) (reverse l).
Proof.
  induction 1 as [|x l Hs IH Hall]; [constructor|]. rewrite reverse_cons.
  apply StronglySorted_app_2; [|done|repeat constructor].
  intros a b Ha ->%list_elem_of_singleton. rewrite elem_of_reverse in Ha.
  rewrite Forall_forall in Hall. auto.
Qed.

Lemma NoDup_sublist {A} (l k : list A) : NoDup k -> l ⊆+ k -> NoDup l.
Proof. intros Hk [m Hm]%submseteq_Permutation. rewrite Hm in Hk. by apply NoDup_app in Hk as [? _]. Qed.

(** ** Status codes *)

(** The codes of [Status] the virtual compaction returns. *)
Inductive Status := OK | Corruption | NotSupported | InvalidArgument | IOError.

#[export] Instance status_eq_dec : EqDecision Status.
Proof. solve_decision. Defined.

(** A list with as many distinct elements as elements has no duplicates. *)
Lemma NoDup_of_size (l : list Z) : size (list_to_set l : gset Z) = length l -> NoDup l.
Proof.
  intros Hs. assert (l ≡ₚ elements (list_to_set l : gset Z)) as Hp; [|rewrite Hp; apply NoDup_elements].
  symmetry. apply submseteq_length_Permutation; [|unfold size, set_size in Hs; cbn in Hs; lia].
  apply NoDup_submseteq; [apply NoDup_elements|]. intros x Hx. by rewrite elem_of_elements, elem_of_list_to_set in Hx.
Qed.
