(* ===== verification/FloatModel.v ===== *)
(** * Floating-point arithmetic of the source

    [double] is IEEE binary64 and [long double] the x87 extended format of the
    x86-64 ABI; both are instances of the executable specification [SpecFloat]
    of the standard library with round-to-nearest-even, every C++ operation
    rounding once.  The file gives the library functions the source calls
    ([std::max], [std::min], [std::abs], [std::round], [std::ceil],
    [std::llround]) and the conversions between integers and floats.  A
    conversion of a float to an integer type that cannot hold the truncated
    value is undefined behaviour in C++ and is modelled as [None]. *)

From Stdlib Require Import ZArith Lia SpecFloat.
From stdpp Require Import base option numbers.
From S2P Require Import Prelude.

Local Open Scope Z_scope.

(** ** Operations that do not depend on the format *)

(** [a < b], [a <= b], [a > b], [a >= b] of C++ (false on NaN). *)
Definition flt (a b : spec_float) : bool := SFltb a b.
Definition fle (a b : spec_float) : bool := SFleb a b.

(** [std::max(a, b)] is [(a < b) ? b : a]; [std::min(a, b)] is
    [(b < a) ? b : a]. *)
Definition fmax (a b : spec_float) : spec_float := if flt a b then b else a.
Definition fmin (a b : spec_float) : spec_float := if flt b a then b else a.

Definition fabs (a : spec_float) : spec_float := SFabs a.

Definition is_inf (a : spec_float) : bool :=
  match a with S754_infinity _ => true | _ => false end.

Definition pos_inf : spec_float := S754_infinity false.
Definition neg_inf : spec_float := S754_infinity true.
Definition fzero : spec_float := S754_zero false.

(** Magnitude of [m * 2^e] truncated, rounded half away from zero, and rounded
    up. *)
Definition mag_trunc (m : positive) (e : Z) : Z :=
  if decide (0 <= e) then Z.pos m * 2 ^ e else Z.pos m / 2 ^ (- e).
Definition mag_round (m : positive) (e : Z) : Z :=
  if decide (0 <= e) then Z.pos m * 2 ^ e
  else (2 * Z.pos m + 2 ^ (- e)) / (2 * 2 ^ (- e)).
Definition mag_up (m : positive) (e : Z) : Z :=
  if decide (0 <= e) then Z.pos m * 2 ^ e
  else - ((- Z.pos m) / 2 ^ (- e)).

Definition signed (s : bool) (z : Z) : Z := if s then - z else z.

(** The integral value of [std::trunc], [std::round] and [std::ceil]; [None]
    for infinities and NaN. *)
Definition trunc_Z (a : spec_float) : option Z :=
  match a with
  | S754_zero _ => Some 0
  | S754_finite s m e => Some (signed s (mag_trunc m e))
  | _ => None
  end.
Definition round_Z (a : spec_float) : option Z :=
  match a with
  | S754_zero _ => Some 0
  | S754_finite s m e => Some (signed s (mag_round m e))
  | _ => None
  end.
Definition ceil_Z (a : spec_float) : option Z :=
  match a with
  | S754_zero _ => Some 0
  | S754_finite false m e => Some (mag_up m e)
  | S754_finite true m e => Some (- mag_trunc m e)
  | _ => None
  end.

(** Range check of a conversion to [uint64_t] and to [long long]. *)
Definition as_u64 (z : Z) : option Z :=
  if decide (0 <= z <= u64_max) then Some z else None.
Definition as_i64 (z : Z) : option Z :=
  if decide (- 2 ^ 63 <= z < 2 ^ 63) then Some z else None.

(** [static_cast<uint64_t>(std::round(a))], [static_cast<uint64_t>(std::ceil(a))]
    and [static_cast<uint64_t>(std::llround(a))]. *)
Definition round_u64 (a : spec_float) : option Z := round_Z a ≫= as_u64.
Definition ceil_u64 (a : spec_float) : option Z := ceil_Z a ≫= as_u64.
Definition llround_u64 (a : spec_float) : option Z :=
  z ← round_Z a; z ← as_i64 z; Some (u64 z).

(** Conversion of a float to the format [prec], [emax]. *)
Definition convert (prec emax : Z) (a : spec_float) : spec_float :=
  match a with
  | S754_finite s m e => binary_round prec emax s m e
  | _ => a
  end.

(** ** [double] *)
Module F64.

Definition prec : Z := 53.
Definition emax : Z := 1024.

Definition add : spec_float -> spec_float -> spec_float := SFadd prec emax.
Definition sub : spec_float -> spec_float -> spec_float := SFsub prec emax.
Definition mul : spec_float -> spec_float -> spec_float := SFmul prec emax.
Definition div : spec_float -> spec_float -> spec_float := SFdiv prec emax.

(** [static_cast<double>(z)] of an integer. *)
Definition of_Z (z : Z) : spec_float := binary_normalize prec emax z 0 false.

(** [static_cast<double>(x)] of a [long double]. *)
Definition of_f80 (x : spec_float) : spec_float := convert prec emax x.

(** The literals [1e-15], [1e-12] and [1e-9]: correctly rounded quotients of
    exactly represented integers. *)
Definition lit_1em15 : spec_float := div (of_Z 1) (of_Z (10 ^ 15)).
Definition lit_1em12 : spec_float := div (of_Z 1) (of_Z (10 ^ 12)).
Definition lit_1em9 : spec_float := div (of_Z 1) (of_Z (10 ^ 9)).

End F64.

(** ** [long double] *)
Module F80.

Definition prec : Z := 64.
Definition emax : Z := 16384.

Definition add : spec_float -> spec_float -> spec_float := SFadd prec emax.
Definition mul : spec_float -> spec_float -> spec_float := SFmul prec emax.
Definition div : spec_float -> spec_float -> spec_float := SFdiv prec emax.

(** [static_cast<long double>(z)] of an integer. *)
Definition of_Z (z : Z) : spec_float := binary_normalize prec emax z 0 false.

(** [static_cast<long double>(x)] of a [double]. *)
Definition of_f64 (x : spec_float) : spec_float := convert prec emax x.

End F80.

(** ** Tests on concrete values *)

Example of_Z_5 : F64.of_Z 5 = S754_finite false 5629499534213120 (-50).
Proof. reflexivity. Qed.

Example max_u64_rounds_up : trunc_Z (F64.of_Z u64_max) = Some (2 ^ 64).
Proof. reflexivity. Qed.

Example max_u64_extended : trunc_Z (F80.of_Z u64_max) = Some u64_max.
Proof. reflexivity. Qed.

Example round_half_away : round_u64 (F64.div (F64.of_Z 5) (F64.of_Z 2)) = Some 3.
Proof. reflexivity. Qed.

Example lit_1em15_bits : F64.lit_1em15 = S754_finite false 5070602400912918 (-102).
Proof. reflexivity. Qed.
