(* ===== verification/FloatTheory.v ===== *)
(** * Correct rounding of the floating-point model

    Facts about [SpecFloat] that the components rely on, proved for every
    format: the result of an operation is canonical, it never crosses a
    representable number ([round_aux_spec]), comparison of canonical floats is
    comparison of their values, and conversions of small integers are exact.
    Values are compared as integers after scaling by a common power of two. *)

From Stdlib Require Import ZArith Lia SpecFloat.
From stdpp Require Import base option numbers.
From S2P Require Import Prelude FloatModel.

Local Open Scope Z_scope.

(** ** Digits and rounding to nearest *)

(** [m] and [l] locate the rational [X / D]: [m] is its floor and [l] says
    where the fraction lies. *)
Definition loc_ok (m : Z) (l : location) (X D : Z) : Prop :=
  m = X / D /\
  match l with
  | loc_Exact => X mod D = 0
  | loc_Inexact c => X mod D <> 0 /\ (2 * (X mod D) ?= D) = c
  end.

Definition rec_ok (mrs : shr_record) (X D : Z) : Prop :=
  loc_ok (shr_m mrs) (loc_of_shr_record mrs) X D.

(** Round [X / D] to the nearest integer, ties to even. *)
Definition rne (X D : Z) : Z :=
  match 2 * (X mod D) ?= D with
  | Lt => X / D
  | Gt => X / D + 1
  | Eq => if Z.even (X / D) then X / D else X / D + 1
  end.

Lemma pow2_pos k : 0 <= k -> 0 < 2 ^ k.
Proof. intros. apply Z.pow_pos_nonneg; lia. Qed.

Lemma pow2_split a b : 0 <= a <= b -> 2 ^ b = 2 ^ a * 2 ^ (b - a).
Proof. intros. rewrite <- Z.pow_add_r by lia. f_equal. lia. Qed.

Lemma digits2_bounds m :
  2 ^ (Z.pos (digits2_pos m) - 1) <= Z.pos m < 2 ^ Z.pos (digits2_pos m).
Proof.
  induction m as [m IH | m IH |]; simpl digits2_pos; [| | simpl; lia].
  - rewrite Pos2Z.inj_succ. replace (Z.succ _ - 1) with (Z.pos (digits2_pos m) - 1 + 1) by lia.
    unfold Z.succ. rewrite !Z.pow_add_r, Z.pow_1_r by lia. lia.
  - rewrite Pos2Z.inj_succ. replace (Z.succ _ - 1) with (Z.pos (digits2_pos m) - 1 + 1) by lia.
    unfold Z.succ. rewrite !Z.pow_add_r, Z.pow_1_r by lia. lia.
Qed.

Lemma digits2_unique m d :
  0 < d -> 2 ^ (d - 1) <= Z.pos m < 2 ^ d -> Z.pos (digits2_pos m) = d.
Proof.
  intros Hd Hm. pose proof (digits2_bounds m) as Hb.
  destruct (Z.lt_trichotomy (Z.pos (digits2_pos m)) d) as [H | [H | H]]; [| done |].
  - pose proof (Z.pow_le_mono_r 2 (Z.pos (digits2_pos m)) (d - 1) ltac:(lia) ltac:(lia)). lia.
  - pose proof (Z.pow_le_mono_r 2 d (Z.pos (digits2_pos m) - 1) ltac:(lia) ltac:(lia)). lia.
Qed.

Lemma digits2_le m d : 0 <= d -> Z.pos m < 2 ^ d -> Z.pos (digits2_pos m) <= d.
Proof.
  intros Hd Hm. pose proof (digits2_bounds m) as Hb.
  destruct (Z.le_gt_cases (Z.pos (digits2_pos m)) d) as [| H]; [done |].
  pose proof (Z.pow_le_mono_r 2 d (Z.pos (digits2_pos m) - 1) ltac:(lia) ltac:(lia)). lia.
Qed.

Lemma iter_pos_ind {A} (f : A -> A) (P : Z -> A -> Prop) :
  (forall k x, P k x -> P (k + 1) (f x)) ->
  forall n k x, P k x -> P (k + Z.pos n) (@SpecFloat.iter_pos A f n x).
Proof.
  intros Hf n. induction n as [n IH | n IH |]; intros k x Hx; simpl.
  - replace (k + Z.pos n~1) with (k + 1 + Z.pos n + Z.pos n) by lia. auto.
  - replace (k + Z.pos n~0) with (k + Z.pos n + Z.pos n) by lia. auto.
  - auto.
Qed.

Lemma shr_1_eq m r s :
  0 <= m -> shr_1 (Build_shr_record m r s) = Build_shr_record (m / 2) (Z.odd m) (orb r s).
Proof.
  intros Hm. destruct m as [| [p | p |] | p]; try lia; simpl; try done; f_equal.
  - apply Z.div_unique with 1; lia.
  - apply Z.div_unique with 0; lia.
Qed.

Lemma shr_1_ok mrs X D :
  0 <= X -> 0 < D -> rec_ok mrs X D -> rec_ok (shr_1 mrs) X (2 * D).
Proof.
  intros HX HD. destruct mrs as [m r s]. unfold rec_ok, loc_ok.
  intros [Hm Hl]. cbn [shr_m] in Hm.
  assert (0 <= m) as Hm0 by (rewrite Hm; apply Z.div_pos; lia).
  rewrite shr_1_eq by done. cbn [shr_m].
  assert (X / (2 * D) = m / 2) as Hq.
  { rewrite Hm, Z.div_div by lia. f_equal; lia. }
  pose proof (Z.div_mod X D ltac:(lia)) as Hdm. rewrite <- Hm in Hdm.
  pose proof (Z.mod_pos_bound X D HD) as Hrb.
  pose proof (Z.div_mod X (2 * D) ltac:(lia)) as Hdm2. rewrite Hq in Hdm2.
  assert (X mod (2 * D) = X mod D + D * (m mod 2)) as Hr.
  { pose proof (Z.div_mod m 2 ltac:(lia)). nia. }
  rewrite Hq, Hr, Zmod_odd. split; [done |]. clear Hq Hr Hdm2 Hdm Hm.
  generalize dependent (X mod D). intros R Hl Hrb.
  destruct (Z.odd m), r, s; cbn [orb loc_of_shr_record] in *;
    rewrite ?Z.compare_eq_iff, ?Z.compare_lt_iff, ?Z.compare_gt_iff in *; lia.
Qed.

Lemma rec_of_loc m l : loc_of_shr_record (shr_record_of_loc m l) = l /\ shr_m (shr_record_of_loc m l) = m.
Proof. by destruct l as [| []]. Qed.

Lemma shr_ok mrs e n X D :
  0 <= X -> 0 < D -> 0 <= n -> rec_ok mrs X D ->
  rec_ok (fst (shr mrs e n)) X (2 ^ n * D) /\ snd (shr mrs e n) = e + n.
Proof.
  intros HX HD Hn Hok. destruct n as [| n | n]; simpl; try lia.
  - rewrite Z.mul_1_l. split; [done | lia].
  - split; [| done]. change (Z.pow_pos 2 n) with (2 ^ Z.pos n).
    apply (iter_pos_ind shr_1 (fun k x => 0 <= k /\ rec_ok x X (2 ^ k * D))) with (k := 0).
    + intros k x [Hk IH]. split; [lia |]. rewrite Z.pow_add_r, Z.pow_1_r by lia.
      replace (2 ^ k * 2 * D) with (2 * (2 ^ k * D)) by lia.
      apply shr_1_ok; [done | | done]. pose proof (pow2_pos k). nia.
    + split; [lia |]. by rewrite Z.mul_1_l.
Qed.

(** ** Rounding to nearest even *)

Lemma round_nearest_even_rne m l X D :
  0 < D -> loc_ok m l X D -> round_nearest_even m l = rne X D.
Proof.
  intros HD [-> Hl]. unfold rne, round_nearest_even.
  destruct l as [| c].
  - rewrite Hl, Z.mul_0_r. by rewrite (proj2 (Z.compare_lt_iff 0 D) HD).
  - destruct Hl as [_ ->]. by destruct c.
Qed.

Lemma rne_le X D k : 0 < D -> X <= k * D -> rne X D <= k.
Proof.
  intros HD Hle. unfold rne. pose proof (Z.div_mod X D ltac:(lia)).
  pose proof (Z.mod_pos_bound X D HD).
  assert (X / D <= k) by nia.
  destruct (Z.compare_spec (2 * (X mod D)) D); [destruct (Z.even _) | |]; nia.
Qed.

Lemma rne_ge X D k : 0 < D -> k * D <= X -> k <= rne X D.
Proof.
  intros HD Hle. unfold rne.
  assert (k <= X / D) by (apply Z.div_le_lower_bound; lia).
  destruct (_ ?= _); [destruct (Z.even _) | |]; lia.
Qed.

Lemma abs_scale a b c : 0 <= c -> Z.abs (a * c - b * c) = Z.abs (a - b) * c.
Proof. intros. rewrite <- Z.mul_sub_distr_r, Z.abs_mul, (Z.abs_eq c) by done. done. Qed.

Lemma rne_nearest X D k : 0 < D -> Z.abs (rne X D * D - X) <= Z.abs (k * D - X).
Proof.
  intros HD. unfold rne. pose proof (Z.div_mod X D ltac:(lia)).
  pose proof (Z.mod_pos_bound X D HD).
  assert (k <= X / D \/ X / D + 1 <= k) by lia.
  destruct (Z.compare_spec (2 * (X mod D)) D); [destruct (Z.even _) | |]; nia.
Qed.

(** ** The rounding step of a format *)

Section Format.
Context (prec emax : Z) (Hprec : 1 < prec) (Hemax : prec < emax).

Abbreviation emin := (SpecFloat.emin prec emax).
Abbreviation fexp := (SpecFloat.fexp prec emax).

(** [m * 2^e] is a canonical pair: the exponent is the one [fexp] chooses. *)
Definition canon (m e : Z) : Prop :=
  0 < m /\ canonical_mantissa prec emax (Z.to_pos m) e = true.

(** [m * 2^e] is a representable magnitude, up to overflow. *)
Definition rep (m e : Z) : Prop := 0 <= m < 2 ^ prec /\ emin <= e.

Lemma canon_bounds m e :
  canon m e -> emin <= e /\ m < 2 ^ prec /\ (emin < e -> 2 ^ (prec - 1) <= m).
Proof.
  intros [Hm Hc]. destruct m as [| p | p]; try lia. simpl in Hc.
  unfold canonical_mantissa in Hc. apply Z.eqb_eq in Hc.
  pose proof (digits2_bounds p) as Hd. unfold SpecFloat.fexp in Hc.
  split; [lia |]. split.
  - apply Z.lt_le_trans with (1 := proj2 Hd). apply Z.pow_le_mono_r; lia.
  - intros He. apply Z.le_trans with (2 := proj1 Hd). apply Z.pow_le_mono_r; lia.
Qed.

Lemma canon_intro m e :
  emin <= e -> 0 < m < 2 ^ prec -> (emin < e -> 2 ^ (prec - 1) <= m) -> canon m e.
Proof.
  intros He Hm Hn. split; [lia |]. destruct m as [| p | p]; try lia. simpl.
  apply Z.eqb_eq. unfold SpecFloat.fexp.
  pose proof (digits2_le p prec ltac:(lia) ltac:(lia)).
  destruct (Z.eq_dec e emin) as [-> |]; [lia |].
  assert (Z.pos (digits2_pos p) = prec) by (apply digits2_unique; [lia |]; lia). lia.
Qed.

(** Result of [binary_round_aux] from a rounded mantissa and exponent. *)
Definition pack (sx : bool) (M E : Z) : spec_float :=
  match M with
  | Z0 => S754_zero sx
  | Zpos m => if Z.leb E (emax - prec) then S754_finite sx m E else S754_infinity sx
  | Zneg _ => S754_nan
  end.

(** The second normalisation after rounding: only a carry to [2^prec] shifts. *)
Lemma renormalise M e :
  emin <= e -> 0 <= M <= 2 ^ prec -> (emin < e -> 2 ^ (prec - 1) <= M) ->
  exists M' e', shr_fexp prec emax M e loc_Exact = (Build_shr_record M' false false, e') /\
    e <= e' <= e + 1 /\ M = M' * 2 ^ (e' - e) /\ (0 < M' -> canon M' e') /\ 0 <= M'.
Proof.
  intros He HM Hn. unfold shr_fexp. simpl shr_record_of_loc.
  destruct (Z.eq_dec M (2 ^ prec)) as [-> | Hne].
  - assert (Zdigits2 (2 ^ prec) = prec + 1) as ->.
    { pose proof (pow2_pos prec). destruct (2 ^ prec) as [| p | p] eqn:E; try lia. simpl.
      apply digits2_unique; [lia |]. rewrite <- E. replace (prec + 1 - 1) with prec by lia.
      rewrite Z.pow_add_r by lia. lia. }
    assert (fexp (prec + 1 + e) - e = 1) as -> by (unfold SpecFloat.fexp; lia).
    exists (2 ^ (prec - 1)), (e + 1). cbn [shr SpecFloat.iter_pos].
    pose proof (pow2_pos (prec - 1)).
    assert (2 ^ prec = 2 ^ (prec - 1) * 2) as Hp2.
    { rewrite (pow2_split (prec - 1) prec) by lia. by replace (prec - (prec - 1)) with 1 by lia. }
    rewrite shr_1_eq by lia.
    assert (Z.odd (2 ^ prec) = false) as ->.
    { rewrite Hp2, Z.odd_mul. apply andb_false_r. }
    rewrite Hp2, Z.div_mul by lia. split_and!; try done; try lia.
    + replace (e + 1 - e) with 1 by lia. lia.
    + intros _. apply canon_intro; lia.
  - assert (fexp (Zdigits2 M + e) - e <= 0) as Hle.
    { unfold SpecFloat.fexp. destruct M as [| p | p]; simpl; try lia.
      pose proof (digits2_le p prec). lia. }
    exists M, e. split_and!; try lia.
    + unfold shr. by destruct (fexp (Zdigits2 M + e) - e); try lia.
    + replace (e - e) with 0 by lia. lia.
    + intros. apply canon_intro; lia.
Qed.

(** The mantissa after the first shift, rounded: a multiple of [2^e'] that
    fits the precision. *)
Lemma round_step mx ex lx X D :
  0 <= X -> 0 < D -> loc_ok mx lx X D -> ex <= fexp (Zdigits2 mx + ex) ->
  exists n mrs, let e' := ex + n in
    0 <= n /\ shr_fexp prec emax mx ex lx = (mrs, e') /\ emin <= e' /\
    round_nearest_even (shr_m mrs) (loc_of_shr_record mrs) = rne X (2 ^ n * D) /\
    X <= 2 ^ prec * (2 ^ n * D) /\
    (emin < e' -> 2 ^ (prec - 1) * (2 ^ n * D) <= X).
Proof.
  intros HX HD Hl He. pose proof Hl as [Hm _].
  set (n := fexp (Zdigits2 mx + ex) - ex). exists n.
  destruct (rec_of_loc mx lx) as [Hr1 Hr2].
  destruct (shr_ok (shr_record_of_loc mx lx) ex n X D HX HD ltac:(lia)) as [Hok He'].
  { unfold rec_ok. by rewrite Hr1, Hr2. }
  assert (0 < 2 ^ n) by (apply pow2_pos; lia).
  exists (fst (shr (shr_record_of_loc mx lx) ex n)). simpl. split_and!; [lia | | | | |].
  - unfold shr_fexp. fold n. rewrite <- He'. by destruct (shr _ _ _).
  - unfold n, SpecFloat.fexp. lia.
  - apply round_nearest_even_rne; [nia | done].
  - assert (mx < 2 ^ Zdigits2 mx) as Hlt.
    { destruct mx as [| p | p]; simpl; [lia | apply digits2_bounds |].
      pose proof (pow2_pos (Z.pos (digits2_pos p))). lia. }
    assert (0 <= Zdigits2 mx) by (destruct mx; simpl; lia).
    assert (X < 2 ^ Zdigits2 mx * D).
    { pose proof (Z.div_mod X D ltac:(lia)). pose proof (Z.mod_pos_bound X D HD). nia. }
    assert (2 ^ Zdigits2 mx <= 2 ^ prec * 2 ^ n); [| nia].
    rewrite <- Z.pow_add_r by lia. apply Z.pow_le_mono_r; [lia |].
    unfold n, SpecFloat.fexp. lia.
  - intros Hgt. assert (n = Zdigits2 mx - prec) as Hn by (unfold n, SpecFloat.fexp in *; lia).
    assert (0 <= mx) by (rewrite Hm; apply Z.div_pos; lia).
    destruct mx as [| p | p]; simpl in Hn; try lia.
    pose proof (digits2_bounds p) as [Hd _].
    rewrite Z.mul_assoc, <- Z.pow_add_r by lia.
    replace (prec - 1 + n) with (Z.pos (digits2_pos p) - 1) by lia.
    pose proof (Z.mul_div_le X D HD). nia.
Qed.

(** The rounding never crosses a representable number: with [x = X / D * 2^ex],
    a representable [k * 2^j] above (below) [x] stays above (below) the rounded
    value.  [B] is any common scale below the exponents. *)
Lemma round_aux_spec sx mx ex lx X D :
  0 <= X -> 0 < D -> loc_ok mx lx X D -> ex <= fexp (Zdigits2 mx + ex) ->
  exists M E,
    binary_round_aux prec emax sx mx ex lx = pack sx M E /\
    0 <= M /\ emin <= E /\ (0 < M -> canon M E) /\
    (forall k j B, rep k j -> B <= ex -> B <= j ->
       X * 2 ^ (ex - B) <= k * D * 2 ^ (j - B) ->
       M * 2 ^ (E - B) <= k * 2 ^ (j - B)) /\
    (forall k j B, rep k j -> B <= ex -> B <= j ->
       k * D * 2 ^ (j - B) <= X * 2 ^ (ex - B) ->
       k * 2 ^ (j - B) <= M * 2 ^ (E - B)) /\
    (forall k j B, rep k j -> B <= ex -> B <= j ->
       Z.abs (M * D * 2 ^ (E - B) - X * 2 ^ (ex - B)) <=
       Z.abs (k * D * 2 ^ (j - B) - X * 2 ^ (ex - B))).
Proof.
  intros HX HD Hl He.
  destruct (round_step mx ex lx X D HX HD Hl He) as (n & mrs & Hn & Hshr & Hemin & Hrne & Hup & Hlo).
  set (e' := ex + n) in *. set (D' := 2 ^ n * D) in *.
  assert (0 < 2 ^ n) by (apply pow2_pos; lia). assert (0 < D') as HD' by (unfold D'; nia).
  assert (0 <= rne X D') by (apply rne_ge; lia).
  assert (rne X D' <= 2 ^ prec) by (apply rne_le; lia).
  assert (emin < e' -> 2 ^ (prec - 1) <= rne X D') as Hlow by (intros; apply rne_ge; auto).
  destruct (renormalise (rne X D') e') as (M & E & Hre & HE & HM & Hcan & HM0); [lia | lia | done |].
  exists M, E.
  assert (forall B, B <= ex -> M * 2 ^ (E - B) = rne X D' * 2 ^ (e' - B)) as Hval.
  { intros B HB. rewrite HM, <- Z.mul_assoc, <- Z.pow_add_r by lia. do 2 f_equal. lia. }
  assert (forall k j B, B <= ex -> e' <= j ->
     k * D * 2 ^ (j - B) = k * 2 ^ (j - e') * D' * 2 ^ (ex - B)) as Hshift.
  { intros k j B HB Hj. rewrite (pow2_split (e' - B) (j - B)) by lia.
    replace (j - B - (e' - B)) with (j - e') by lia.
    rewrite (pow2_split n (e' - B)) by lia. replace (e' - B - n) with (ex - B) by lia.
    unfold D'. ring. }
  assert (forall k j B, rep k j -> B <= ex -> B <= j -> j < e' ->
     k * 2 ^ (j - B) < 2 ^ (prec - 1) * 2 ^ (e' - B)) as Hsmall.
  { intros k j B Hc HB HBj Hj. destruct Hc as [Hk Hj1].
    rewrite (pow2_split (j - B) (e' - B)) by lia.
    replace (e' - B - (j - B)) with (e' - j) by lia.
    assert (2 ^ prec <= 2 ^ (prec - 1) * 2 ^ (e' - j)).
    { rewrite <- Z.pow_add_r by lia. apply Z.pow_le_mono_r; lia. }
    pose proof (pow2_pos (j - B)). nia. }
  split_and!; [| done | lia | done | | |].
  - unfold binary_round_aux. rewrite Hshr, Hrne, Hre. simpl. unfold pack. by destruct M.
  - intros k j B Hc HB HBj Hle. rewrite Hval by done.
    pose proof (pow2_pos (ex - B) ltac:(lia)) as Hpe.
    destruct (Z.le_gt_cases e' j) as [Hj | Hj].
    + rewrite Hshift in Hle by done.
      rewrite (pow2_split (e' - B) (j - B)) by lia.
      replace (j - B - (e' - B)) with (j - e') by lia.
      assert (rne X D' <= k * 2 ^ (j - e')) by (apply rne_le; [done |]; nia).
      pose proof (pow2_pos (e' - B)). nia.
    + exfalso. pose proof (proj2 Hc) as Hj1.
      pose proof (Hsmall k j B Hc HB HBj Hj) as Hs. specialize (Hlo ltac:(lia)).
      rewrite (pow2_split n (e' - B)) in Hs by lia.
      replace (e' - B - n) with (ex - B) in Hs by lia. unfold D' in Hlo. nia.
  - intros k j B Hc HB HBj Hle. rewrite Hval by done.
    pose proof (pow2_pos (ex - B) ltac:(lia)) as Hpe.
    destruct (Z.le_gt_cases e' j) as [Hj | Hj].
    + rewrite Hshift in Hle by done.
      rewrite (pow2_split (e' - B) (j - B)) by lia.
      replace (j - B - (e' - B)) with (j - e') by lia.
      assert (k * 2 ^ (j - e') <= rne X D') by (apply rne_ge; [done |]; nia).
      pose proof (pow2_pos (e' - B)). nia.
    + pose proof (proj2 Hc) as Hj1.
      pose proof (Hsmall k j B Hc HB HBj Hj) as Hs. specialize (Hlow ltac:(lia)).
      pose proof (pow2_pos (e' - B)). nia.
  - intros k j B Hc HB HBj.
    pose proof (pow2_pos (ex - B) ltac:(lia)) as Hpe.
    assert (M * D * 2 ^ (E - B) = rne X D' * D' * 2 ^ (ex - B)) as ->.
    { replace (M * D * 2 ^ (E - B)) with (D * (M * 2 ^ (E - B))) by ring.
      rewrite Hval by done. rewrite (pow2_split n (e' - B)) by lia.
      replace (e' - B - n) with (ex - B) by lia. unfold D'. ring. }
    destruct (Z.le_gt_cases e' j) as [Hj | Hj].
    + rewrite Hshift, !abs_scale by (done || lia).
      apply Z.mul_le_mono_nonneg_r; [lia |]. by apply rne_nearest.
    + pose proof (proj2 Hc) as Hj1.
      pose proof (Hsmall k j B Hc HB HBj Hj) as Hs. specialize (Hlo ltac:(lia)).
      pose proof (rne_nearest X D' (2 ^ (prec - 1)) HD').
      rewrite (pow2_split n (e' - B)) in Hs by lia.
      replace (e' - B - n) with (ex - B) in Hs by lia.
      assert (k * D * 2 ^ (j - B) < 2 ^ (prec - 1) * D' * 2 ^ (ex - B)).
      { replace (2 ^ (prec - 1) * D' * 2 ^ (ex - B))
          with (D * (2 ^ (prec - 1) * (2 ^ n * 2 ^ (ex - B)))) by (unfold D'; ring).
        replace (k * D * 2 ^ (j - B)) with (D * (k * 2 ^ (j - B))) by ring.
        by apply Z.mul_lt_mono_pos_l. }
      assert (2 ^ (prec - 1) * D' * 2 ^ (ex - B) <= X * 2 ^ (ex - B))
        by (apply Z.mul_le_mono_nonneg_r; lia).
      assert (Z.abs (rne X D' * D' * 2 ^ (ex - B) - X * 2 ^ (ex - B)) <=
              Z.abs (2 ^ (prec - 1) * D' * 2 ^ (ex - B) - X * 2 ^ (ex - B))).
      { rewrite !abs_scale by lia. apply Z.mul_le_mono_nonneg_r; lia. }
      lia.
Qed.

(** [r] is the rounding of the magnitude [N / D * 2^B] with sign [sx]. *)
Definition rounds_to (sx : bool) (N D B : Z) (r : spec_float) : Prop :=
  exists M E, r = pack sx M E /\ 0 <= M /\ emin <= E /\ (0 < M -> canon M E) /\
    (forall k j, rep k j -> N <= k * D * 2 ^ (j - B) -> M * 2 ^ (E - B) <= k * 2 ^ (j - B)) /\
    (forall k j, rep k j -> k * D * 2 ^ (j - B) <= N -> k * 2 ^ (j - B) <= M * 2 ^ (E - B)) /\
    (forall k j, rep k j ->
       Z.abs (M * D * 2 ^ (E - B) - N) <= Z.abs (k * D * 2 ^ (j - B) - N)).

Lemma canon_rep m e : canon m e -> rep m e.
Proof. intros H. destruct (canon_bounds m e H) as (? & ? & _). destruct H. split; lia. Qed.

Lemma round_aux_rounds sx mx ex lx X D B :
  0 <= X -> 0 < D -> loc_ok mx lx X D -> ex <= fexp (Zdigits2 mx + ex) ->
  B <= ex -> B <= emin ->
  rounds_to sx (X * 2 ^ (ex - B)) D B (binary_round_aux prec emax sx mx ex lx).
Proof.
  intros HX HD Hl He HB HBm.
  destruct (round_aux_spec sx mx ex lx X D HX HD Hl He) as (M & E & H1 & H2 & H3 & H4 & H5 & H6 & H7).
  exists M, E. split_and!; auto; intros k j Hk; pose proof (proj2 Hk) as Hj; intros.
  - apply H5; auto; lia.
  - apply H6; auto; lia.
  - apply H7; auto; lia.
Qed.

Lemma iter_xO m d : Z.pos (Pos.iter xO m d) = Z.pos m * 2 ^ Z.pos d.
Proof.
  induction d as [| d IH] using Pos.peano_ind; [simpl; lia |].
  rewrite Pos.iter_succ, Pos2Z.inj_xO, IH, Pos2Z.inj_succ, Z.pow_succ_r by lia. lia.
Qed.

Lemma digits2_shift m d : Z.pos (digits2_pos (Pos.iter xO m d)) = Z.pos (digits2_pos m) + Z.pos d.
Proof.
  apply digits2_unique; [lia |]. rewrite iter_xO. pose proof (digits2_bounds m).
  pose proof (pow2_pos (Z.pos d) ltac:(lia)).
  replace (Z.pos (digits2_pos m) + Z.pos d - 1) with ((Z.pos (digits2_pos m) - 1) + Z.pos d) by lia.
  rewrite !Z.pow_add_r by lia. nia.
Qed.

Lemma loc_exact_1 m : loc_ok m loc_Exact m 1.
Proof. split; [by rewrite Z.div_1_r | by rewrite Z.mod_1_r]. Qed.

Lemma binary_round_rounds sx mx ex B :
  B <= ex -> B <= emin ->
  rounds_to sx (Z.pos mx * 2 ^ (ex - B)) 1 B (binary_round prec emax sx mx ex).
Proof.
  intros HB HBm. unfold binary_round, shl_align.
  set (f := fexp (Z.pos (digits2_pos mx) + ex)).
  assert (emin <= f) by (unfold f, SpecFloat.fexp; lia).
  destruct (f - ex) as [| d | d] eqn:Ed.
  - apply round_aux_rounds; auto using loc_exact_1; simpl; fold f; lia.
  - apply round_aux_rounds; auto using loc_exact_1; simpl; fold f; lia.
  - replace (Z.pos mx * 2 ^ (ex - B)) with (Z.pos (Pos.iter xO mx d) * 2 ^ (f - B)).
    + apply round_aux_rounds; auto using loc_exact_1; try lia.
      cbn [Zdigits2]. rewrite digits2_shift.
      replace (Z.pos (digits2_pos mx) + Z.pos d + f) with (Z.pos (digits2_pos mx) + ex) by lia.
      fold f. lia.
    + rewrite iter_xO, <- Z.mul_assoc, <- Z.pow_add_r by lia. do 2 f_equal. lia.
Qed.

Lemma mul_rounds sx mx ex sy my ey B :
  canon (Z.pos mx) ex -> canon (Z.pos my) ey -> B <= ex + ey -> B <= emin ->
  rounds_to (xorb sx sy) (Z.pos (mx * my) * 2 ^ (ex + ey - B)) 1 B
    (SFmul prec emax (S754_finite sx mx ex) (S754_finite sy my ey)).
Proof.
  intros Hx Hy HB HBm. simpl. apply round_aux_rounds; auto using loc_exact_1; try lia.
  cbn [Zdigits2]. unfold SpecFloat.fexp.
  destruct (canon_bounds _ _ Hx) as (Hex & _ & Hnx).
  destruct (canon_bounds _ _ Hy) as (Hey & _ & Hny).
  destruct (Z.le_gt_cases (ex + ey) emin) as [| Hgt]; [lia |].
  assert (emin < 0) by (unfold SpecFloat.emin; lia).
  assert (2 ^ (prec - 1) <= Z.pos (mx * my)) as Hbig.
  { rewrite Pos2Z.inj_mul. assert (emin < ex \/ emin < ey) as [He | He] by lia.
    - specialize (Hnx He). nia.
    - specialize (Hny He). nia. }
  assert (prec <= Z.pos (digits2_pos (mx * my))); [| lia].
  pose proof (digits2_bounds (mx * my)) as [_ Hd].
  destruct (Z.le_gt_cases prec (Z.pos (digits2_pos (mx * my)))) as [| Hlt]; [done |].
  pose proof (Z.pow_le_mono_r 2 (Z.pos (digits2_pos (mx * my))) (prec - 1) ltac:(lia) ltac:(lia)). lia.
Qed.

Lemma new_location_ok X D : 0 <= X -> 0 < D -> loc_ok (X / D) (new_location D (X mod D)) X D.
Proof.
  intros HX HD. split; [done |]. pose proof (Z.mod_pos_bound X D HD) as Hr.
  unfold new_location, new_location_even, new_location_odd.
  destruct (Z.even D) eqn:Ev; destruct (Z.eqb_spec (X mod D) 0); try done.
  split; [done |].
  assert (2 * (X mod D) <> D).
  { intros E. rewrite <- E, Z.even_mul in Ev. done. }
  destruct (Z.compare_spec (2 * (X mod D) + 1) D);
    rewrite ?Z.compare_lt_iff, ?Z.compare_gt_iff; lia.
Qed.

Lemma div_rounds sx mx ex sy my ey B :
  B <= ex - ey -> B <= emin ->
  rounds_to (xorb sx sy) (Z.pos mx * 2 ^ (ex - ey - B)) (Z.pos my) B
    (SFdiv prec emax (S754_finite sx mx ex) (S754_finite sy my ey)).
Proof.
  intros HB HBm. simpl. unfold SFdiv_core_binary. cbn [Zdigits2].
  set (g := fexp (Z.pos (digits2_pos mx) + ex - (Z.pos (digits2_pos my) + ey))).
  set (e' := Z.min g (ex - ey)). set (s := ex - ey - e').
  assert (0 <= s) by lia. assert (emin <= g) by (unfold g, SpecFloat.fexp; lia).
  set (X := Z.pos mx * 2 ^ s). pose proof (pow2_pos s ltac:(lia)).
  assert (0 < X) as HX by (unfold X; apply Z.mul_pos_pos; lia).
  assert (match s with | 0 => Z.pos mx | Z.pos _ => Z.shiftl (Z.pos mx) s | Z.neg _ => 0 end = X) as ->.
  { unfold X. clearbody s. destruct s as [| q | q]; [simpl; lia | | lia].
    rewrite Z.shiftl_mul_pow2 by lia. done. }
  assert (Z.div_eucl X (Z.pos my) = (X / Z.pos my, X mod Z.pos my)) as ->.
  { unfold Z.div, Z.modulo. by destruct (Z.div_eucl _ _). }
  replace (Z.pos mx * 2 ^ (ex - ey - B)) with (X * 2 ^ (e' - B)).
  2:{ unfold X. rewrite <- Z.mul_assoc, <- Z.pow_add_r by lia. do 2 f_equal. lia. }
  apply round_aux_rounds; try lia.
  - apply new_location_ok; lia.
  - assert (Z.pos (digits2_pos mx) + s - Z.pos (digits2_pos my) <= Zdigits2 (X / Z.pos my)) as Hd.
    2:{ unfold e', g, s, SpecFloat.fexp in *. lia. }
    set (t := Z.pos (digits2_pos mx) + s - Z.pos (digits2_pos my)).
    pose proof (digits2_bounds mx) as [Hmx _]. pose proof (digits2_bounds my) as [_ Hmy].
    assert (0 <= X / Z.pos my) by (apply Z.div_pos; lia).
    destruct (Z.le_gt_cases t 0) as [| Ht]; [destruct (X / Z.pos my); simpl; lia |].
    assert (2 ^ (t - 1) <= X / Z.pos my) as Hq.
    { apply Z.div_le_lower_bound; [lia |].
      assert (2 ^ (t - 1) * 2 ^ Z.pos (digits2_pos my) <= X); [| pose proof (pow2_pos (t - 1)); nia].
      rewrite <- Z.pow_add_r by lia. unfold X.
      replace (t - 1 + Z.pos (digits2_pos my)) with (Z.pos (digits2_pos mx) - 1 + s) by lia.
      rewrite Z.pow_add_r by lia. nia. }
    pose proof (pow2_pos (t - 1) ltac:(lia)).
    destruct (X / Z.pos my) as [| q | q]; try lia. simpl.
    pose proof (digits2_bounds q) as [_ Hqd].
    destruct (Z.le_gt_cases t (Z.pos (digits2_pos q))) as [| Hlt]; [done |].
    pose proof (Z.pow_le_mono_r 2 (Z.pos (digits2_pos q)) (t - 1) ltac:(lia) ltac:(lia)). lia.
Qed.

(** ** Validity and values *)

(** Canonical and in the exponent range, or zero, infinity, NaN. *)
Definition valid (f : spec_float) : Prop := valid_binary prec emax f = true.

(** Zero or finite. *)
Definition is_fin (f : spec_float) : bool :=
  match f with S754_zero _ | S754_finite _ _ _ => true | _ => false end.

Definition is_nan (f : spec_float) : bool :=
  match f with S754_nan => true | _ => false end.

(** The value of a finite float, scaled by [2^(-emin)]. *)
Definition V (f : spec_float) : Z :=
  match f with
  | S754_finite s m e => signed s (Z.pos m * 2 ^ (e - emin))
  | _ => 0
  end.

Lemma valid_finite s m e :
  valid (S754_finite s m e) <-> canon (Z.pos m) e /\ e <= emax - prec.
Proof.
  unfold valid, canon; simpl. unfold bounded. rewrite andb_true_iff, Z.leb_le.
  split; [intros [? ?]; split_and!; [lia | done..] | tauto].
Qed.

Lemma rounds_to_valid sx N D B r : rounds_to sx N D B r -> valid r /\ is_nan r = false.
Proof.
  intros (M & E & -> & HM & HE & Hc & _). unfold pack.
  destruct M as [| m | m]; [done | | lia].
  destruct (Z.leb_spec E (emax - prec)); [| done].
  split; [| done]. apply valid_finite. split; [apply Hc; lia | lia].
Qed.

(** The order of canonical magnitudes is lexicographic. *)
Lemma canon_lt m1 e1 m2 e2 :
  canon m1 e1 -> canon m2 e2 -> e1 < e2 -> m1 * 2 ^ (e1 - emin) < m2 * 2 ^ (e2 - emin).
Proof.
  intros H1 H2 Hlt. destruct (canon_bounds _ _ H1) as (He1 & Hm1 & _).
  destruct (canon_bounds _ _ H2) as (_ & _ & Hm2). specialize (Hm2 ltac:(lia)).
  rewrite (pow2_split (e1 - emin) (e2 - emin)) by lia.
  replace (e2 - emin - (e1 - emin)) with (e2 - e1) by lia.
  assert (2 ^ prec <= 2 ^ (prec - 1) * 2 ^ (e2 - e1)).
  { rewrite <- Z.pow_add_r by lia. apply Z.pow_le_mono_r; lia. }
  pose proof (pow2_pos (e1 - emin) ltac:(lia)). pose proof (pow2_pos (e2 - e1) ltac:(lia)).
  assert (2 ^ (prec - 1) * 2 ^ (e2 - e1) <= m2 * 2 ^ (e2 - e1)) by (apply Z.mul_le_mono_nonneg_r; lia).
  replace (m2 * (2 ^ (e1 - emin) * 2 ^ (e2 - e1)))
    with (m2 * 2 ^ (e2 - e1) * 2 ^ (e1 - emin)) by ring.
  apply Z.mul_lt_mono_pos_r; lia.
Qed.

Lemma canon_compare m1 e1 m2 e2 :
  canon (Z.pos m1) e1 -> canon (Z.pos m2) e2 ->
  match e1 ?= e2 with Lt => Lt | Gt => Gt | Eq => Pos.compare_cont Eq m1 m2 end =
  (Z.pos m1 * 2 ^ (e1 - emin) ?= Z.pos m2 * 2 ^ (e2 - emin)).
Proof.
  intros H1 H2. symmetry. destruct (Z.compare_spec e1 e2) as [-> | Hlt | Hgt].
  - destruct (canon_bounds _ _ H2) as (He & _). pose proof (pow2_pos (e2 - emin) ltac:(lia)).
    by rewrite <- (Zmult_compare_compat_r (Z.pos m1) (Z.pos m2) (2 ^ (e2 - emin))) by lia.
  - apply Z.compare_lt_iff. by apply canon_lt.
  - apply Z.compare_gt_iff. by apply canon_lt.
Qed.

Lemma V_pos_finite m e : emin <= e -> 0 < Z.pos m * 2 ^ (e - emin).
Proof. intros. pose proof (pow2_pos (e - emin) ltac:(lia)). nia. Qed.

Lemma SFcompare_V a b :
  valid a -> valid b -> is_fin a = true -> is_fin b = true ->
  SFcompare a b = Some (V a ?= V b).
Proof.
  intros Ha Hb Hfa Hfb. destruct a as [sa | | | sa ma ea], b as [sb | | | sb mb eb]; try done.
  - apply valid_finite in Hb as [Hb _]. destruct (canon_bounds _ _ Hb) as (He & _).
    pose proof (V_pos_finite mb eb He). cbn [SFcompare V signed]. unfold signed. f_equal. symmetry.
    destruct sb; [apply Z.compare_gt_iff | apply Z.compare_lt_iff]; lia.
  - apply valid_finite in Ha as [Ha _]. destruct (canon_bounds _ _ Ha) as (He & _).
    pose proof (V_pos_finite ma ea He). cbn [SFcompare V signed]. unfold signed. f_equal. symmetry.
    destruct sa; [apply Z.compare_lt_iff | apply Z.compare_gt_iff]; lia.
  - apply valid_finite in Ha as [Ha _]. apply valid_finite in Hb as [Hb _].
    destruct (canon_bounds _ _ Ha) as (Hea & _). destruct (canon_bounds _ _ Hb) as (Heb & _).
    pose proof (V_pos_finite ma ea Hea). pose proof (V_pos_finite mb eb Heb).
    cbn [SFcompare V signed]. unfold signed. f_equal. destruct sa, sb.
    + rewrite Z.compare_opp, <- canon_compare by done.
      rewrite (Z.compare_antisym ea eb). destruct (ea ?= eb) eqn:E; cbn [CompOpp]; try done.
      symmetry. apply Pos.compare_antisym.
    + symmetry. apply Z.compare_lt_iff. lia.
    + symmetry. apply Z.compare_gt_iff. lia.
    + by apply canon_compare.
Qed.

Lemma fle_V a b :
  valid a -> valid b -> is_fin a = true -> is_fin b = true ->
  fle a b = true <-> V a <= V b.
Proof.
  intros. unfold fle, SFleb. rewrite SFcompare_V by done.
  destruct (Z.compare_spec (V a) (V b)); split; try done; lia.
Qed.

Lemma flt_V a b :
  valid a -> valid b -> is_fin a = true -> is_fin b = true ->
  flt a b = true <-> V a < V b.
Proof.
  intros. unfold flt, SFltb. rewrite SFcompare_V by done.
  destruct (Z.compare_spec (V a) (V b)); split; try done; lia.
Qed.

(** ** Bounds of a rounded magnitude *)

(** A nonnegative result bounded above by a representable number in range is
    finite and keeps the bound. *)
Lemma rounds_to_upper N D B r k j :
  B <= emin -> rounds_to false N D B r -> rep k j -> j <= emax - prec ->
  N <= k * D * 2 ^ (j - B) -> is_fin r = true /\ 0 <= V r <= k * 2 ^ (j - emin).
Proof.
  intros HB (M & E & -> & HM & HE & Hc & Hup & _) Hk Hj Hle.
  specialize (Hup k j Hk Hle). destruct Hk as [Hk Hj0].
  assert (M * 2 ^ (E - emin) <= k * 2 ^ (j - emin)) as Hv.
  { rewrite (pow2_split (emin - B) (E - B)), (pow2_split (emin - B) (j - B)) in Hup by lia.
    replace (E - B - (emin - B)) with (E - emin) in Hup by lia.
    replace (j - B - (emin - B)) with (j - emin) in Hup by lia.
    pose proof (pow2_pos (emin - B) ltac:(lia)).
    apply Z.mul_le_mono_pos_r with (2 ^ (emin - B)); [done |]. lia. }
  unfold pack. destruct M as [| m | m]; [| | lia].
  - simpl. split; [done | lia].
  - destruct (Z.leb_spec E (emax - prec)).
    + simpl. pose proof (V_pos_finite m E HE). split; [done | lia].
    + exfalso. specialize (Hc ltac:(lia)). destruct (canon_bounds _ _ Hc) as (_ & _ & Hn).
      assert (emin <= emax - prec) by (unfold SpecFloat.emin; lia).
      specialize (Hn ltac:(lia)).
      rewrite (pow2_split (j - emin) (E - emin)) in Hv by lia.
      replace (E - emin - (j - emin)) with (E - j) in Hv by lia.
      pose proof (pow2_pos (j - emin) ltac:(lia)).
      assert (2 ^ prec <= Z.pos m * 2 ^ (E - j)).
      { replace prec with ((prec - 1) + 1) at 1 by lia. rewrite Z.pow_add_r by lia.
        assert (2 ^ 1 <= 2 ^ (E - j)) by (apply Z.pow_le_mono_r; lia).
        apply Z.mul_le_mono_nonneg; try lia. }
      assert (k < Z.pos m * 2 ^ (E - j)) as Hlt by lia.
      apply (Z.mul_lt_mono_pos_r (2 ^ (j - emin))) in Hlt; [| done].
      replace (Z.pos m * 2 ^ (E - j) * 2 ^ (j - emin))
        with (Z.pos m * (2 ^ (j - emin) * 2 ^ (E - j))) in Hlt by ring. lia.
Qed.

Lemma rounds_to_lower N D B r k j :
  B <= emin -> rounds_to false N D B r -> rep k j ->
  k * D * 2 ^ (j - B) <= N -> is_fin r = true -> k * 2 ^ (j - emin) <= V r.
Proof.
  intros HB (M & E & -> & HM & HE & _ & _ & Hlo & _) Hk Hle Hfin.
  specialize (Hlo k j Hk Hle). destruct Hk as [Hk Hj0].
  assert (k * 2 ^ (j - emin) <= M * 2 ^ (E - emin)) as Hv.
  { rewrite (pow2_split (emin - B) (E - B)), (pow2_split (emin - B) (j - B)) in Hlo by lia.
    replace (E - B - (emin - B)) with (E - emin) in Hlo by lia.
    replace (j - B - (emin - B)) with (j - emin) in Hlo by lia.
    pose proof (pow2_pos (emin - B) ltac:(lia)).
    apply Z.mul_le_mono_pos_r with (2 ^ (emin - B)); [done |]. lia. }
  unfold pack in *. destruct M as [| m | m]; simpl in *; [lia | | lia].
  destruct (E <=? emax - prec); simpl in *; [lia | done].
Qed.

(** ** Conversions of integers *)

(** Conversion of an integer to the format. *)
Definition ofz (z : Z) : spec_float := binary_normalize prec emax z 0 false.

(** One unit in the scale of [V]. *)
Definition one : Z := 2 ^ (- emin).

(** The integer [w] is representable. *)
Definition rep_int (w : Z) : Prop :=
  exists k j, rep k j /\ j <= emax - prec /\ w * one = k * 2 ^ (j - emin).

Lemma emin_neg : emin < 0.
Proof. unfold SpecFloat.emin. lia. Qed.

Lemma one_pos : 0 < one.
Proof. pose proof emin_neg. apply pow2_pos. lia. Qed.

Lemma rep_int_shift z a : 0 <= z < 2 ^ prec -> 0 <= a <= emax - prec -> rep_int (z * 2 ^ a).
Proof.
  intros Hz Ha. pose proof emin_neg. exists z, a. split_and!; [split; lia | lia |].
  unfold one. rewrite <- Z.mul_assoc, <- Z.pow_add_r by lia. do 2 f_equal.
Qed.

Lemma rep_int_small z : 0 <= z <= 2 ^ prec -> rep_int z.
Proof.
  intros Hz. destruct (Z.eq_dec z (2 ^ prec)) as [-> |].
  - replace prec with ((prec - 1) + 1) by lia. rewrite Z.pow_add_r by lia.
    apply rep_int_shift; [| lia]. split; [pose proof (pow2_pos (prec - 1)); lia |].
    apply Z.pow_lt_mono_r; lia.
  - replace z with (z * 2 ^ 0) by lia. apply rep_int_shift; lia.
Qed.

Lemma ofz_rounds z : 0 < z -> rounds_to false (z * one) 1 emin (ofz z).
Proof.
  intros Hz. pose proof emin_neg. unfold ofz. destruct z as [| p | p]; try lia.
  unfold one. replace (- emin) with (0 - emin) by lia. apply binary_round_rounds; lia.
Qed.

Lemma ofz_valid z : 0 <= z -> valid (ofz z) /\ is_nan (ofz z) = false.
Proof.
  intros Hz. destruct (Z.eq_dec z 0) as [-> |]; [done |].
  eapply rounds_to_valid, ofz_rounds. lia.
Qed.

Lemma ofz_upper z w :
  0 <= z <= w -> rep_int w -> is_fin (ofz z) = true /\ 0 <= V (ofz z) <= w * one.
Proof.
  intros Hz (k & j & Hk & Hj & Hw). pose proof one_pos.
  destruct (Z.eq_dec z 0) as [-> |]; [simpl; split; [done | nia] |].
  rewrite Hw. eapply rounds_to_upper with (B := emin); [lia | apply ofz_rounds; lia | done | done |].
  rewrite Z.mul_1_r, <- Hw. nia.
Qed.

Lemma ofz_lower z w w' :
  0 <= w <= z -> z <= w' -> rep_int w -> rep_int w' -> w * one <= V (ofz z).
Proof.
  intros Hz Hz' (k & j & Hk & Hj & Hw) Hw'. pose proof one_pos.
  destruct (ofz_upper z w' ltac:(lia) Hw') as [Hfin _].
  destruct (Z.eq_dec z 0) as [-> |]; [replace w with 0 by lia; simpl; lia |].
  rewrite Hw. eapply rounds_to_lower with (B := emin); [lia | apply ofz_rounds; lia | done | | done].
  rewrite Z.mul_1_r, <- Hw. nia.
Qed.

Lemma ofz_exact z : 0 <= z -> rep_int z -> is_fin (ofz z) = true /\ V (ofz z) = z * one.
Proof.
  intros Hz Hr. destruct (ofz_upper z z ltac:(lia) Hr) as [Hf Hu].
  pose proof (ofz_lower z z z ltac:(lia) ltac:(lia) Hr Hr). split; [done | lia].
Qed.

Lemma V_pack M E :
  0 <= M -> is_fin (pack false M E) = true -> V (pack false M E) = M * 2 ^ (E - emin).
Proof.
  intros HM Hf. unfold pack in *. destruct M as [| m | m]; [done | | lia].
  by destruct (E <=? emax - prec).
Qed.

(** Rounding is monotone: a strictly smaller magnitude never rounds higher. *)
Lemma rounds_to_mono N1 D1 N2 D2 B r1 r2 :
  B <= emin -> 0 < D1 -> 0 < D2 ->
  rounds_to false N1 D1 B r1 -> rounds_to false N2 D2 B r2 -> N1 * D2 < N2 * D1 ->
  is_fin r1 = true -> is_fin r2 = true -> V r1 <= V r2.
Proof.
  intros HB HD1 HD2 (M1 & E1 & -> & HM1 & HE1 & Hc1 & Hu1 & Hl1 & Hn1)
    (M2 & E2 & -> & HM2 & HE2 & Hc2 & Hu2 & Hl2 & Hn2) Hlt Hf1 Hf2.
  assert (rep M1 E1) as Hr1.
  { destruct (Z.eq_dec M1 0) as [-> |]; [split; [pose proof (pow2_pos prec); lia | lia] |].
    apply canon_rep, Hc1. lia. }
  assert (rep M2 E2) as Hr2.
  { destruct (Z.eq_dec M2 0) as [-> |]; [split; [pose proof (pow2_pos prec); lia | lia] |].
    apply canon_rep, Hc2. lia. }
  set (A1 := M1 * 2 ^ (E1 - B)). set (A2 := M2 * 2 ^ (E2 - B)).
  assert (A1 <= A2) as Hle.
  { destruct (Z.le_gt_cases A1 A2) as [| Hgt]; [done | exfalso].
    specialize (Hu1 M2 E2 Hr2). specialize (Hl2 M1 E1 Hr1).
    specialize (Hn1 M2 E2 Hr2). specialize (Hn2 M1 E1 Hr1).
    replace (M1 * D1 * 2 ^ (E1 - B)) with (A1 * D1) in * by (unfold A1; ring).
    replace (M2 * D1 * 2 ^ (E2 - B)) with (A2 * D1) in * by (unfold A2; ring).
    replace (M1 * D2 * 2 ^ (E1 - B)) with (A1 * D2) in * by (unfold A1; ring).
    replace (M2 * D2 * 2 ^ (E2 - B)) with (A2 * D2) in * by (unfold A2; ring).
    fold A1 A2 in Hu1, Hl2. clearbody A1 A2.
    assert (A2 * D1 < N1) by (destruct (Z.le_gt_cases N1 (A2 * D1)); [specialize (Hu1 H); lia | lia]).
    assert (N2 < A1 * D2) by (destruct (Z.le_gt_cases (A1 * D2) N2); [specialize (Hl2 H0); lia | lia]).
    assert (N2 * D1 < A1 * D1 * D2) by nia.
    assert (A2 * D1 * D2 < N1 * D2) by nia.
    assert (N1 < A1 * D1) by nia. assert (A2 * D2 < N2) by nia.
    assert ((A1 * D1 - N1) * D2 <= (N1 - A2 * D1) * D2) by (apply Z.mul_le_mono_nonneg_r; lia).
    assert ((N2 - A2 * D2) * D1 <= (A1 * D2 - N2) * D1) by (apply Z.mul_le_mono_nonneg_r; lia).
    lia. }
  assert (M1 * 2 ^ (E1 - emin) <= M2 * 2 ^ (E2 - emin)) as Hv.
  { unfold A1, A2 in Hle.
    rewrite (pow2_split (emin - B) (E1 - B)), (pow2_split (emin - B) (E2 - B)) in Hle by lia.
    replace (E1 - B - (emin - B)) with (E1 - emin) in Hle by lia.
    replace (E2 - B - (emin - B)) with (E2 - emin) in Hle by lia.
    pose proof (pow2_pos (emin - B) ltac:(lia)).
    apply Z.mul_le_mono_pos_r with (2 ^ (emin - B)); [done |]. lia. }
  by rewrite !V_pack by done.
Qed.

Lemma ofz_mono z1 z2 w :
  0 <= z1 <= z2 -> z2 <= w -> rep_int w -> V (ofz z1) <= V (ofz z2).
Proof.
  intros Hz Hw Hr. pose proof one_pos.
  destruct (ofz_upper z1 w ltac:(lia) Hr) as [Hf1 _].
  destruct (ofz_upper z2 w ltac:(lia) Hr) as [Hf2 Hv2].
  destruct (Z.eq_dec z1 z2) as [-> |]; [lia |].
  destruct (Z.eq_dec z1 0) as [-> |]; [simpl; lia |].
  eapply rounds_to_mono with (B := emin) (D1 := 1) (D2 := 1);
    [lia | lia | lia | apply ofz_rounds; lia | apply ofz_rounds; lia | nia | done | done].
Qed.

(** ** Rounding a float to an integer *)

Lemma mag_bounds m e lo hi :
  emin <= e -> lo * one <= Z.pos m * 2 ^ (e - emin) <= hi * one ->
  lo <= mag_round m e <= hi /\ lo <= mag_up m e <= hi /\ lo <= mag_trunc m e <= hi.
Proof.
  intros He [Hlo Hhi]. pose proof emin_neg. pose proof one_pos as Hone.
  unfold mag_round, mag_up, mag_trunc, one in *. case_decide as Hs.
  - rewrite (pow2_split (- emin) (e - emin)) in Hlo, Hhi by lia.
    replace (e - emin - - emin) with e in Hlo, Hhi by lia.
    replace (Z.pos m * (2 ^ (- emin) * 2 ^ e)) with (Z.pos m * 2 ^ e * 2 ^ (- emin)) in Hlo, Hhi by ring.
    rewrite <- Z.mul_le_mono_pos_r in Hlo, Hhi by lia. lia.
  - rewrite (pow2_split (e - emin) (- emin)) in Hlo, Hhi by lia.
    replace (- emin - (e - emin)) with (- e) in Hlo, Hhi by lia.
    replace (lo * (2 ^ (e - emin) * 2 ^ (- e))) with (lo * 2 ^ (- e) * 2 ^ (e - emin)) in Hlo by ring.
    replace (hi * (2 ^ (e - emin) * 2 ^ (- e))) with (hi * 2 ^ (- e) * 2 ^ (e - emin)) in Hhi by ring.
    pose proof (pow2_pos (e - emin) ltac:(lia)).
    rewrite <- Z.mul_le_mono_pos_r in Hlo, Hhi by lia.
    set (P := 2 ^ (- e)) in *. assert (0 < P) by (apply pow2_pos; lia).
    split_and!.
    + apply Z.div_le_lower_bound; lia.
    + apply Z.lt_succ_r, Z.div_lt_upper_bound; lia.
    + enough ((- Z.pos m) / P <= - lo) by lia. apply Z.div_le_upper_bound; lia.
    + enough (- hi <= (- Z.pos m) / P) by lia. apply Z.div_le_lower_bound; lia.
    + apply Z.div_le_lower_bound; lia.
    + apply Z.lt_succ_r, Z.div_lt_upper_bound; lia.
Qed.

Lemma round_ceil_between f lo hi :
  valid f -> is_fin f = true -> 0 <= lo -> lo * one <= V f <= hi * one ->
  (exists r, round_Z f = Some r /\ lo <= r <= hi) /\
  (exists r, ceil_Z f = Some r /\ lo <= r <= hi).
Proof.
  intros Hval Hfin Hlo Hv. pose proof one_pos.
  destruct f as [s | | | s m e]; try done; simpl in Hv.
  - simpl. assert (lo <= 0 <= hi) by nia. split; exists 0; split; lia || done.
  - apply valid_finite in Hval as [Hc _]. destruct (canon_bounds _ _ Hc) as (He & _).
    pose proof (V_pos_finite m e He). destruct s; simpl in Hv; [nia |].
    destruct (mag_bounds m e lo hi He Hv) as (H1 & H2 & _). simpl.
    split; eexists; split; [reflexivity | done | reflexivity | done].
Qed.

(** ** Operations on finite operands *)

Lemma neg_valid s m e : valid (S754_finite s m e) -> valid (S754_finite (negb s) m e).
Proof. done. Qed.

Lemma normalize_valid m e sz : valid (binary_normalize prec emax m e sz) /\ is_nan (binary_normalize prec emax m e sz) = false.
Proof.
  destruct m as [| p | p]; simpl; [done | |];
    (eapply rounds_to_valid, (binary_round_rounds _ _ _ (Z.min e emin)); lia).
Qed.

Lemma sub_valid a b :
  valid a -> valid b -> is_fin a = true -> is_fin b = true ->
  valid (SFsub prec emax a b) /\ is_nan (SFsub prec emax a b) = false.
Proof.
  intros Ha Hb Hfa Hfb. destruct a as [sa | | | sa ma ea], b as [sb | | | sb mb eb]; try done.
  - by destruct sa, sb.
  - apply normalize_valid.
Qed.

Lemma add_valid a b :
  valid a -> valid b -> is_fin a = true -> is_fin b = true ->
  valid (SFadd prec emax a b) /\ is_nan (SFadd prec emax a b) = false.
Proof.
  intros Ha Hb Hfa Hfb. destruct a as [sa | | | sa ma ea], b as [sb | | | sb mb eb]; try done.
  - by destruct sa, sb.
  - apply normalize_valid.
Qed.

Lemma mul_valid a b :
  valid a -> valid b -> is_fin a = true -> is_fin b = true ->
  valid (SFmul prec emax a b) /\ is_nan (SFmul prec emax a b) = false.
Proof.
  intros Ha Hb Hfa Hfb. destruct a as [sa | | | sa ma ea], b as [sb | | | sb mb eb]; try done.
  apply valid_finite in Ha as [Ha _]. apply valid_finite in Hb as [Hb _].
  eapply rounds_to_valid, (mul_rounds _ _ _ _ _ _ (Z.min (ea + eb) emin)); done || lia.
Qed.

Lemma div_valid a s m e :
  valid a -> is_nan a = false ->
  valid (SFdiv prec emax a (S754_finite s m e)) /\
  is_nan (SFdiv prec emax a (S754_finite s m e)) = false.
Proof.
  intros Ha Hn. destruct a as [sa | | | sa ma ea]; try done.
  eapply rounds_to_valid, (div_rounds _ _ _ _ _ _ (Z.min (ea - e) emin)); lia.
Qed.

(** ** Clamping *)

Lemma fmax_fin x y :
  valid x -> is_nan x = false -> valid y -> is_fin y = true ->
  valid (fmax x y) /\ is_nan (fmax x y) = false /\
  (fmax x y = S754_infinity false \/ is_fin (fmax x y) = true /\ V y <= V (fmax x y)).
Proof.
  intros Hx Hn Hy Hf. assert (is_nan y = false) as Hyn by (by destruct y).
  unfold fmax. destruct x as [s | s | | s m e]; try done.
  - destruct (flt (S754_zero s) y) eqn:E; [split_and!; auto with lia |].
    split_and!; [done | done |]. right. split; [done |].
    destruct (Z.le_gt_cases (V y) (V (S754_zero s))) as [| H]; [done |].
    apply flt_V in H; auto. congruence.
  - destruct s, y; try done; unfold flt, SFltb; simpl; auto with lia.
  - destruct (flt (S754_finite s m e) y) eqn:E; [split_and!; auto with lia |].
    split_and!; [done | done |]. right. split; [done |].
    destruct (Z.le_gt_cases (V y) (V (S754_finite s m e))) as [| H]; [done |].
    apply flt_V in H; auto. congruence.
Qed.

Lemma clamp_between x lo hi w :
  valid x -> is_nan x = false -> 0 <= lo <= hi -> hi <= w -> rep_int w ->
  let f := fmin (fmax x (ofz lo)) (ofz hi) in
  valid f /\ is_fin f = true /\ V (ofz lo) <= V f <= V (ofz hi).
Proof.
  intros Hx Hn Hlo Hhi Hw f.
  destruct (ofz_valid lo ltac:(lia)) as [Hvl _]. destruct (ofz_valid hi ltac:(lia)) as [Hvh _].
  destruct (ofz_upper lo w ltac:(lia) Hw) as [Hfl _].
  destruct (ofz_upper hi w ltac:(lia) Hw) as [Hfh _].
  pose proof (ofz_mono lo hi w Hlo Hhi Hw) as Hm.
  destruct (fmax_fin x (ofz lo) Hx Hn Hvl Hfl) as (Hv & Hnn & [E | [Hf HV]]);
    unfold f, fmin; clear f.
  - rewrite E. unfold flt, SFltb. destruct (ofz hi); try done; simpl; split_and!; done || lia.
  - destruct (flt (ofz hi) (fmax x (ofz lo))) eqn:E; [split_and!; auto; lia |].
    split_and!; auto.
    destruct (Z.le_gt_cases (V (fmax x (ofz lo))) (V (ofz hi))) as [| H]; [done |].
    apply flt_V in H; auto. congruence.
Qed.

(** Clamping to an integer range and rounding to [uint64_t]: defined, and
    between every pair of representable integers enclosing the range. *)
Lemma clamp_round x lo hi a b :
  valid x -> is_nan x = false -> 0 <= a <= lo -> lo <= hi -> hi <= b <= u64_max ->
  rep_int a -> rep_int b ->
  exists r, round_u64 (fmin (fmax x (ofz lo)) (ofz hi)) = Some r /\ a <= r <= b.
Proof.
  intros Hx Hn Ha Hlh Hb Hra Hrb.
  destruct (clamp_between x lo hi b Hx Hn ltac:(lia) ltac:(lia) Hrb) as (Hv & Hf & HV).
  pose proof (ofz_lower lo a b ltac:(lia) ltac:(lia) Hra Hrb).
  destruct (ofz_upper hi b ltac:(lia) Hrb) as [_ Hub].
  destruct (round_ceil_between _ a b Hv Hf ltac:(lia) ltac:(lia)) as [(r & Hr & Hrr) _].
  exists r. unfold round_u64. rewrite Hr. simpl. unfold as_u64.
  rewrite decide_True by lia. split; [done | lia].
Qed.

(** ** Products and quotients of nonnegative values *)

Lemma V_nonneg_cases a : valid a -> is_fin a = true -> 0 <= V a ->
  (V a = 0 /\ exists s, a = S754_zero s) \/
  (exists m e, a = S754_finite false m e /\ V a = Z.pos m * 2 ^ (e - emin) /\
     canon (Z.pos m) e /\ emin <= e).
Proof.
  intros Hv Hf H0. destruct a as [s | | | s m e]; try done; [left; eauto |].
  apply valid_finite in Hv as [Hc _]. destruct (canon_bounds _ _ Hc) as (He & _ & _).
  pose proof (V_pos_finite m e He). destruct s; [simpl in H0; lia |].
  right. exists m, e. auto.
Qed.

Lemma rep_int_scale w : rep_int w -> exists k j, rep k j /\ j <= emax - prec /\
  forall i, 0 <= i -> w * one * 2 ^ i = k * 2 ^ (j - emin + i).
Proof.
  intros (k & j & Hr & Hj & E). exists k, j. split_and!; auto.
  intros i Hi. destruct Hr as [_ Hr]. rewrite E, Z.pow_add_r by lia. lia.
Qed.

(** Product of the scaled values, as the magnitude [mul_rounds] rounds. *)
Lemma mul_magnitude ma ea mb eb : emin <= ea -> emin <= eb ->
  Z.pos (ma * mb) * 2 ^ (ea + eb - 2 * emin) =
  (Z.pos ma * 2 ^ (ea - emin)) * (Z.pos mb * 2 ^ (eb - emin)).
Proof.
  intros Ha Hb. replace (ea + eb - 2 * emin) with ((ea - emin) + (eb - emin)) by lia.
  rewrite Z.pow_add_r, Pos2Z.inj_mul by lia. ring.
Qed.

Lemma mul_zero_l s b : is_fin b = true -> exists s', SFmul prec emax (S754_zero s) b = S754_zero s'.
Proof. destruct b; try done; simpl; eauto. Qed.

Lemma mul_zero_r s a : is_fin a = true -> exists s', SFmul prec emax a (S754_zero s) = S754_zero s'.
Proof. destruct a; try done; simpl; eauto. Qed.

Lemma mul_upper a b w :
  valid a -> valid b -> is_fin a = true -> is_fin b = true -> 0 <= V a -> 0 <= V b ->
  rep_int w -> 0 <= w -> V a * V b <= w * one * one ->
  let r := SFmul prec emax a b in valid r /\ is_fin r = true /\ 0 <= V r <= w * one.
Proof.
  intros Ha Hb Hfa Hfb H0a H0b Hw Hw0 Hle r. pose proof one_pos. pose proof emin_neg.
  split; [by apply mul_valid |].
  destruct (V_nonneg_cases a Ha Hfa H0a) as [[_ [s Es]] | (ma & ea & Ea & Va & Hca & Hea)].
  { unfold r. rewrite Es. destruct (mul_zero_l s b Hfb) as [s' ->]. simpl. split; [done | nia]. }
  destruct (V_nonneg_cases b Hb Hfb H0b) as [[_ [s Es]] | (mb & eb & Eb & Vb & Hcb & Heb)].
  { unfold r. rewrite Es. destruct (mul_zero_r s a Hfa) as [s' ->]. simpl. split; [done | nia]. }
  destruct (rep_int_scale w Hw) as (k & j & Hr & Hj & Hk).
  pose proof (mul_rounds false ma ea false mb eb (2 * emin) Hca Hcb ltac:(lia) ltac:(lia)) as HR.
  simpl xorb in HR. rewrite <- Ea, <- Eb, mul_magnitude, <- Va, <- Vb in HR by done. fold r in HR.
  destruct (rounds_to_upper _ _ (2 * emin) _ k j ltac:(lia) HR Hr Hj) as [Hf HV].
  { rewrite Z.mul_1_r. replace (j - 2 * emin) with (j - emin + - emin) by lia.
    rewrite <- Hk by lia. done. }
  split; [done |]. specialize (Hk 0 ltac:(lia)). rewrite Z.add_0_r, Z.mul_1_r in Hk. lia.
Qed.

Lemma mul_lower a b w :
  valid a -> valid b -> is_fin a = true -> is_fin b = true -> 0 <= V a -> 0 <= V b ->
  rep_int w -> 0 < w -> w * one * one <= V a * V b ->
  is_fin (SFmul prec emax a b) = true -> w * one <= V (SFmul prec emax a b).
Proof.
  intros Ha Hb Hfa Hfb H0a H0b Hw Hw0 Hle Hf. pose proof one_pos. pose proof emin_neg.
  assert (0 < w * one * one) by nia.
  destruct (V_nonneg_cases a Ha Hfa H0a) as [[E _] | (ma & ea & Ea & Va & Hca & Hea)]; [nia |].
  destruct (V_nonneg_cases b Hb Hfb H0b) as [[E _] | (mb & eb & Eb & Vb & Hcb & Heb)]; [nia |].
  destruct (rep_int_scale w Hw) as (k & j & Hr & Hj & Hk).
  pose proof (mul_rounds false ma ea false mb eb (2 * emin) Hca Hcb ltac:(lia) ltac:(lia)) as HR.
  simpl xorb in HR. rewrite <- Ea, <- Eb, mul_magnitude, <- Va, <- Vb in HR by done.
  pose proof (rounds_to_lower _ _ (2 * emin) _ k j ltac:(lia) HR Hr) as HL.
  specialize (Hk 0 ltac:(lia)) as Hk0. rewrite Z.add_0_r, Z.mul_1_r in Hk0. rewrite Hk0.
  apply HL; [| done]. rewrite Z.mul_1_r. replace (j - 2 * emin) with (j - emin + - emin) by lia.
  rewrite <- Hk by lia. done.
Qed.

(** A base of the exponents that turns a comparison of scaled values into one
    of the magnitudes [div_rounds] rounds. *)
Lemma div_magnitude ma ea mb eb k j B : emin <= ea -> emin <= eb -> emin <= j ->
  B <= ea - eb -> B <= emin -> B <= 2 * emin - eb ->
  exists c, 0 < c /\
    Z.pos ma * 2 ^ (ea - eb - B) = Z.pos ma * 2 ^ (ea - emin) * one * c /\
    k * Z.pos mb * 2 ^ (j - B) = k * 2 ^ (j - emin) * (Z.pos mb * 2 ^ (eb - emin)) * c.
Proof.
  intros Ha Hb Hj H1 H2 H3. pose proof emin_neg.
  exists (2 ^ (2 * emin - eb - B)). unfold one. split; [apply pow2_pos; lia |].
  replace (ea - eb - B) with ((ea - emin) + (- emin) + (2 * emin - eb - B)) by lia.
  replace (j - B) with ((j - emin) + (eb - emin) + (2 * emin - eb - B)) by lia.
  rewrite !Z.pow_add_r by lia. split; ring.
Qed.

Lemma div_upper a b w :
  valid a -> valid b -> is_fin a = true -> is_fin b = true -> 0 <= V a -> 0 < V b ->
  rep_int w -> 0 <= w -> V a <= w * V b ->
  let r := SFdiv prec emax a b in valid r /\ is_fin r = true /\ 0 <= V r <= w * one.
Proof.
  intros Ha Hb Hfa Hfb H0a H0b Hw Hw0 Hle r. pose proof one_pos.
  destruct (V_nonneg_cases b Hb Hfb ltac:(lia)) as [[E _] | (mb & eb & Eb & Vb & Hcb & Heb)]; [lia |].
  split; [unfold r; rewrite Eb; apply div_valid; by destruct a |].
  destruct (V_nonneg_cases a Ha Hfa H0a) as [[_ [s Es]] | (ma & ea & Ea & Va & Hca & Hea)].
  { unfold r. rewrite Es, Eb. simpl. split; [done | nia]. }
  destruct Hw as (k & j & Hr & Hj & Hk).
  set (B := Z.min (Z.min (ea - eb) emin) (2 * emin - eb)).
  pose proof (div_rounds false ma ea false mb eb B ltac:(lia) ltac:(lia)) as HR.
  simpl xorb in HR. rewrite <- Ea, <- Eb in HR. fold r in HR.
  destruct (div_magnitude ma ea mb eb k j B Hea Heb (proj2 Hr)) as (c & Hc & E1 & E2); [lia.. |].
  destruct (rounds_to_upper _ _ B _ k j ltac:(lia) HR Hr Hj) as [Hf HV].
  { rewrite E1, E2, <- Va, <- Vb, <- Hk. apply Z.mul_le_mono_nonneg_r; [lia |].
    replace (w * one * V b) with (w * V b * one) by ring. apply Z.mul_le_mono_nonneg_r; lia. }
  split; [done | lia].
Qed.

Lemma div_lower a b w :
  valid a -> valid b -> is_fin a = true -> is_fin b = true -> 0 <= V a -> 0 < V b ->
  rep_int w -> 0 < w -> w * V b <= V a ->
  is_fin (SFdiv prec emax a b) = true -> w * one <= V (SFdiv prec emax a b).
Proof.
  intros Ha Hb Hfa Hfb H0a H0b Hw Hw0 Hle Hf. pose proof one_pos.
  destruct (V_nonneg_cases b Hb Hfb ltac:(lia)) as [[E _] | (mb & eb & Eb & Vb & Hcb & Heb)]; [lia |].
  destruct (V_nonneg_cases a Ha Hfa H0a) as [[E _] | (ma & ea & Ea & Va & Hca & Hea)]; [nia |].
  destruct Hw as (k & j & Hr & Hj & Hk). rewrite Hk.
  set (B := Z.min (Z.min (ea - eb) emin) (2 * emin - eb)).
  pose proof (div_rounds false ma ea false mb eb B ltac:(lia) ltac:(lia)) as HR.
  simpl xorb in HR. rewrite <- Ea, <- Eb in HR.
  destruct (div_magnitude ma ea mb eb k j B Hea Heb (proj2 Hr)) as (c & Hc & E1 & E2); [lia.. |].
  apply (rounds_to_lower _ _ B _ k j ltac:(lia) HR Hr); [| done].
  rewrite E1, E2, <- Va, <- Vb, <- Hk. apply Z.mul_le_mono_nonneg_r; [lia |].
  replace (w * one * V b) with (w * V b * one) by ring. apply Z.mul_le_mono_nonneg_r; lia.
Qed.

(** ** Scaling by a ratio below one *)

Lemma rep_int_shift_le z a : 0 <= z <= 2 ^ prec -> 0 <= a < emax - prec -> rep_int (z * 2 ^ a).
Proof.
  intros Hz Ha. destruct (Z.eq_dec z (2 ^ prec)) as [-> |]; [| apply rep_int_shift; lia].
  replace (2 ^ prec * 2 ^ a) with (2 ^ (prec - 1) * 2 ^ (a + 1)).
  - apply rep_int_shift; [| lia]. split; [pose proof (pow2_pos (prec - 1)); lia |].
    apply Z.pow_lt_mono_r; lia.
  - rewrite <- !Z.pow_add_r by lia. f_equal. lia.
Qed.

(** Multiples [cap * u] and [cap * (u + 1)] enclose a representable integer. *)
Lemma rep_between cap u : 0 < cap -> 0 <= u <= 2 ^ (prec - 1) -> cap * u < 2 ^ (emax - 2) ->
  exists w, rep_int w /\ cap * u <= w <= cap * (u + 1).
Proof.
  intros Hcap Hu Hmax. set (X := cap * u).
  destruct (Z.le_gt_cases X (2 ^ prec)) as [Hs | Hb].
  { exists X. split; [apply rep_int_small; nia | nia]. }
  assert (Hpp : 0 < 2 ^ prec) by (apply pow2_pos; lia).
  destruct (Z.log2_spec X ltac:(lia)) as [Hl1 Hl2]. set (L := Z.log2 X) in *.
  assert (prec <= L < emax - 2).
  { split; [apply Z.log2_le_pow2; lia |]. apply Z.log2_lt_pow2; lia. }
  set (j := L - (prec - 1)). assert (Hj : 0 < 2 ^ j) by (apply pow2_pos; lia).
  assert (HXj : 2 ^ (prec - 1) * 2 ^ j <= X < 2 ^ prec * 2 ^ j).
  { rewrite <- !Z.pow_add_r by lia. unfold j.
    replace (prec - 1 + (L - (prec - 1))) with L by lia.
    replace (prec + (L - (prec - 1))) with (Z.succ L) by lia. done. }
  assert (Hjc : 2 ^ j <= cap).
  { assert (0 < 2 ^ (prec - 1)) by (apply pow2_pos; lia). unfold X in HXj.
    apply (Z.mul_le_mono_pos_l _ _ (2 ^ (prec - 1))); [done | nia]. }
  set (c := - ((- X) / 2 ^ j)).
  pose proof (Z.mul_div_le (- X) (2 ^ j) Hj) as Hd1.
  pose proof (Z.mul_succ_div_gt (- X) (2 ^ j) Hj) as Hd2.
  exists (c * 2 ^ j). split; [| unfold c, X in *; lia].
  apply rep_int_shift_le; [| lia].
  assert (- 2 ^ prec <= (- X) / 2 ^ j) by (apply Z.div_le_lower_bound; lia).
  assert ((- X) / 2 ^ j <= 0) by (apply Z.div_le_upper_bound; lia).
  unfold c. lia.
Qed.

Lemma ofz_small_exact z : 0 <= z <= 2 ^ prec ->
  valid (ofz z) /\ is_fin (ofz z) = true /\ V (ofz z) = z * one.
Proof.
  intros Hz. destruct (ofz_valid z ltac:(lia)) as [Hv _].
  destruct (ofz_exact z ltac:(lia) (rep_int_small z Hz)). auto.
Qed.

(** Scaling a value of at most [cap] by [u / e] with [u < e], the product and
    the quotient both rounded, does not exceed [cap]. *)
Lemma ratio_upper a cap u e :
  valid a -> is_fin a = true -> 0 <= V a <= cap * one ->
  0 <= cap <= 2 ^ prec -> 0 <= u < e -> e <= 2 ^ (prec - 1) -> 2 * prec + 2 <= emax ->
  let r := SFdiv prec emax (SFmul prec emax a (ofz u)) (ofz e) in
  valid r /\ is_fin r = true /\ 0 <= V r <= cap * one.
Proof.
  intros Ha Hf HV Hcap Hu He Hem r. pose proof one_pos.
  assert (Hp : 2 ^ (prec - 1) <= 2 ^ prec) by (apply Z.pow_le_mono_r; lia).
  destruct (ofz_small_exact u ltac:(lia)) as (Hvu & Hfu & Eu).
  destruct (ofz_small_exact e ltac:(lia)) as (Hve & Hfe & Ee).
  destruct (Z.eq_dec cap 0) as [-> |].
  { destruct (mul_upper a (ofz u) 0) as (Hv & Hf' & HV'); auto; try nia.
    { apply rep_int_small; lia. }
    apply div_upper; auto; try nia. apply rep_int_small; lia. }
  destruct (rep_between cap u) as (w & Hw & Hw1); [lia | lia | |].
  { apply Z.lt_le_trans with (2 ^ prec * 2 ^ prec); [nia |].
    rewrite <- Z.pow_add_r by lia. apply Z.pow_le_mono_r; lia. }
  destruct (mul_upper a (ofz u) w) as (Hv & Hf' & HV'); auto; try nia.
  apply div_upper; auto; try nia. by apply rep_int_small.
Qed.

(** The ratio is exact when the product is representable and divisible. *)
Lemma ratio_exact n u e :
  0 < n -> 0 < u -> n * u <= 2 ^ prec -> n * u mod e = 0 -> 0 < e <= 2 ^ prec ->
  let r := SFdiv prec emax (SFmul prec emax (ofz n) (ofz u)) (ofz e) in
  valid r /\ is_fin r = true /\ V r = n * u / e * one.
Proof.
  intros Hn Hu Hnu Hmod He r. pose proof one_pos.
  assert (Hq : n * u = e * (n * u / e)) by (apply Z_div_exact_full_2; lia).
  set (q := n * u / e) in *. assert (0 < q <= 2 ^ prec) by nia.
  destruct (ofz_small_exact n ltac:(nia)) as (Hvn & Hfn & En).
  destruct (ofz_small_exact u ltac:(nia)) as (Hvu & Hfu & Eu).
  destruct (ofz_small_exact e ltac:(lia)) as (Hve & Hfe & Ee).
  assert (Hrp : rep_int (n * u)) by (apply rep_int_small; nia).
  destruct (mul_upper (ofz n) (ofz u) (n * u)) as (Hvp & Hfp & HVp); auto; try nia.
  pose proof (mul_lower (ofz n) (ofz u) (n * u) Hvn Hvu Hfn Hfu ltac:(nia) ltac:(nia) Hrp
                ltac:(nia) ltac:(nia) Hfp) as HLp.
  assert (Hrq : rep_int q) by (apply rep_int_small; lia).
  set (p := SFmul prec emax (ofz n) (ofz u)) in *. assert (Ep : V p = n * u * one) by lia.
  destruct (div_upper p (ofz e) q) as (Hvr & Hfr & HVr); auto; try nia.
  pose proof (div_lower p (ofz e) q Hvp Hve Hfp Hfe ltac:(nia) ltac:(nia) Hrq ltac:(lia)
                ltac:(nia) Hfr). fold r in Hvr, Hfr, HVr. split_and!; auto. unfold r in *. lia.
Qed.

(** ** Sums of nonnegative values *)

Lemma shl_align_le m e ez : ez <= e -> Z.pos (fst (shl_align m e ez)) = Z.pos m * 2 ^ (e - ez).
Proof.
  intros He. unfold shl_align. destruct (ez - e) as [| p | p] eqn:E; [| lia |].
  - simpl. replace (e - ez) with 0 by lia. lia.
  - simpl fst. unfold shift_pos. rewrite iter_xO. do 2 f_equal. lia.
Qed.

Lemma add_rounds ma ea mb eb : emin <= ea -> emin <= eb ->
  rounds_to false (Z.pos ma * 2 ^ (ea - emin) + Z.pos mb * 2 ^ (eb - emin)) 1 emin
    (SFadd prec emax (S754_finite false ma ea) (S754_finite false mb eb)).
Proof.
  intros Ha Hb.
  change (SFadd prec emax _ _) with
    (binary_normalize prec emax (Z.pos (fst (shl_align ma ea (Z.min ea eb))) +
       Z.pos (fst (shl_align mb eb (Z.min ea eb)))) (Z.min ea eb) false).
  rewrite !shl_align_le by lia.
  set (ez := Z.min ea eb). set (S := Z.pos ma * 2 ^ (ea - ez) + Z.pos mb * 2 ^ (eb - ez)).
  pose proof (pow2_pos (ea - ez) ltac:(lia)). pose proof (pow2_pos (eb - ez) ltac:(lia)).
  assert (0 < S) by (unfold S; nia).
  replace (Z.pos ma * 2 ^ (ea - emin) + Z.pos mb * 2 ^ (eb - emin)) with (S * 2 ^ (ez - emin)).
  - destruct S as [| p | p]; [lia | | lia]. apply binary_round_rounds; lia.
  - unfold S. rewrite Z.mul_add_distr_r, <- !Z.mul_assoc, <- !Z.pow_add_r by lia.
    do 2 f_equal; f_equal; lia.
Qed.

(** Nonnegative, possibly infinite. *)
Definition nonneg (f : spec_float) : Prop :=
  valid f /\ (f = S754_infinity false \/ is_fin f = true /\ 0 <= V f).

(** A sum is not below its terms. *)
Lemma add_nonneg a b : nonneg a -> valid b -> is_fin b = true -> 0 <= V b ->
  let r := SFadd prec emax a b in
  nonneg r /\ (r = S754_infinity false \/ V a <= V r /\ V b <= V r).
Proof.
  intros [Ha Hca] Hb Hfb H0b r. destruct Hca as [-> | [Hfa H0a]].
  { unfold r. destruct b; try done; simpl; unfold nonneg; auto. }
  destruct (add_valid a b Ha Hb Hfa Hfb) as [Hvr Hnr]. fold r in Hvr, Hnr.
  destruct (V_nonneg_cases a Ha Hfa H0a) as [[Va0 [sa Ea]] | (ma & ea & Ea & Va & Hca & Hea)];
    destruct (V_nonneg_cases b Hb Hfb H0b) as [[Vb0 [sb Eb]] | (mb & eb & Eb & Vb & Hcb & Heb)].
  - assert (exists s, r = S754_zero s) as [s ->]
      by (unfold r; rewrite Ea, Eb; destruct sa, sb; simpl; eauto).
    unfold nonneg, valid. simpl. split; [split; [done |] |]; right; lia || (split; [done | lia]).
  - unfold r, nonneg in *. rewrite Ea, Eb in *. simpl SFadd in *. rewrite <- Eb in *. split; [auto |].
    right. simpl V. lia.
  - unfold r, nonneg in *. rewrite Ea, Eb in *. simpl SFadd in *. rewrite <- Ea in *. split; [auto |].
    right. simpl V. lia.
  - pose proof (add_rounds ma ea mb eb Hea Heb) as HR.
    rewrite <- Ea, <- Eb, <- Va, <- Vb in HR. fold r in HR.
    destruct HR as (M & E & Er & HM & HE & Hc & Hup & Hlo & Hn).
    destruct (canon_rep _ _ Hca) as [Hra _]. destruct (canon_rep _ _ Hcb) as [Hrb _].
    specialize (Hlo (Z.pos ma) ea (conj Hra Hea)) as HLa.
    specialize (Hlo (Z.pos mb) eb (conj Hrb Heb)) as HLb. rewrite !Z.mul_1_r in *.
    rewrite <- Va in HLa. rewrite <- Vb in HLb. specialize (HLa ltac:(lia)). specialize (HLb ltac:(lia)).
    destruct (is_fin r) eqn:Hf.
    + assert (V r = M * 2 ^ (E - emin)) as Vr by (rewrite Er in *; by apply V_pack).
      unfold nonneg. rewrite Hf. split; [split; [done | right; lia] | right; lia].
    + assert (r = S754_infinity false) as ->; [| unfold nonneg; auto].
      rewrite Er in *. unfold pack in *. destruct M; try done. by destruct (E <=? emax - prec).
Qed.

(** A quotient of a value of at least one by a value of at most [2^n] is
    positive. *)
Lemma div_positive a b n :
  valid a -> valid b -> is_fin a = true -> is_fin b = true -> one <= V a ->
  0 < V b <= 2 ^ n * one -> 0 <= n <= - emin -> is_fin (SFdiv prec emax a b) = true ->
  0 < V (SFdiv prec emax a b).
Proof.
  intros Ha Hb Hfa Hfb H1a H0b Hn Hf. pose proof one_pos. pose proof (pow2_pos prec ltac:(lia)).
  destruct (V_nonneg_cases b Hb Hfb ltac:(lia)) as [[E _] | (mb & eb & Eb & Vb & Hcb & Heb)]; [lia |].
  destruct (V_nonneg_cases a Ha Hfa ltac:(lia)) as [[E _] | (ma & ea & Ea & Va & Hca & Hea)]; [lia |].
  set (B := Z.min (Z.min (ea - eb) emin) (2 * emin - eb)).
  pose proof (div_rounds false ma ea false mb eb B ltac:(lia) ltac:(lia)) as HR.
  simpl xorb in HR. rewrite <- Ea, <- Eb in HR.
  assert (Hr : rep 1 (- n)).
  { split; [| lia]. pose proof (Z.pow_gt_1 2 prec ltac:(lia)). lia. }
  destruct (div_magnitude ma ea mb eb 1 (- n) B Hea Heb (proj2 Hr)) as (c & Hc & E1 & E2); [lia.. |].
  pose proof (rounds_to_lower _ _ B _ 1 (- n) ltac:(lia) HR Hr) as HL.
  pose proof (pow2_pos (- n - emin) ltac:(lia)) as Hpos.
  enough (1 * 2 ^ (- n - emin) <= V (SFdiv prec emax a b)) by lia.
  apply HL; [| done]. rewrite E1, E2, <- Va, <- Vb. apply Z.mul_le_mono_nonneg_r; [lia |].
  assert (Hone : 2 ^ (- n - emin) * 2 ^ n = one).
  { rewrite <- Z.pow_add_r by lia. unfold one. f_equal. lia. }
  nia.
Qed.

End Format.
