(* ===== verification/SizeModel.v ===== *)
(** * SST size model

    The upper envelope of affine size estimates of
    [db/virtual_compaction/sst_size_model.h] (class [SSTSizeModel]).  Integers
    are [Z] with the 64-bit and 128-bit reductions of the source written out;
    the theorems show that none of them loses bits on [uint64_t] inputs, that
    [MaxEntries] is the exact inverse of [Estimate] and that a calibration
    covers its two samples. *)

From Stdlib Require Import ZArith Lia.
From stdpp Require Import base list numbers.
From S2P Require Import Prelude.

Local Open Scope Z_scope.

Module SSTSizeModel.

(** struct [Line]. *)
Record Line := mkLine { numerator : Z; denominator : Z; fixed_bytes : Z }.

(** The member [lines_]; the class has no other state. *)
Record t := mkModel { lines_ : list Line }.

(** [SSTSizeModel()]. *)
Definition empty : t := mkModel [].

Definition Max : Z := u64_max.

(** Ceiling division as the source writes it: quotient plus a carry bit. *)
Definition div_up (product den : Z) : Z :=
  u128 (product / den + (if decide (product mod den <> 0) then 1 else 0)).

Definition Logical (bytes_per_entry : Z) : t :=
  if decide (bytes_per_entry <> 0) then mkModel [mkLine bytes_per_entry 1 0]
  else empty.

(** [AddCalibration]: the returned flag and the model after the call. *)
Definition AddCalibration (m : t) (n1 bytes1 n2 bytes2 : Z) : bool * t :=
  if bool_decide (n1 = 0 \/ n2 <= n1 \/ bytes2 <= bytes1) then (false, m)
  else
    let num := bytes2 -% bytes1 in
    let den := n2 -% n1 in
    let intercept_left := u128 (bytes1 * den) in
    let intercept_right := u128 (n1 * num) in
    let fixed :=
      if decide (intercept_right < intercept_left)
      then u64 (div_up (u128 (intercept_left - intercept_right)) den)
      else 0 in
    (true, mkModel (lines_ m ++ [mkLine num den fixed])).

Definition Valid (m : t) : bool :=
  match lines_ m with [] => false | _ => true end.

(** One iteration of the loop of [Estimate]: the estimate of one line. *)
Definition line_estimate (l : Line) (entries : Z) : Z :=
  let product := u128 (entries * numerator l) in
  let variable_bytes := div_up product (denominator l) in
  let available := Max -% fixed_bytes l in
  if decide (available < variable_bytes) then Max
  else u64 variable_bytes +% fixed_bytes l.

Definition Estimate (m : t) (entries : Z) : Z :=
  if decide (entries = 0) then 0
  else fold_left (fun result l => Z.max result (line_estimate l entries))
                 (lines_ m) 0.

(** The loop of [MaxEntries]; the early [return 0] leaves the recursion. *)
Fixpoint max_entries_loop (ls : list Line) (target_bytes result : Z) : Z :=
  match ls with
  | [] => result
  | l :: ls' =>
      if decide (target_bytes < fixed_bytes l) then 0
      else
        let product := u128 ((target_bytes -% fixed_bytes l) * denominator l) in
        let capacity := product / numerator l in
        let bounded := if decide (Max < capacity) then Max else u64 capacity in
        max_entries_loop ls' target_bytes (Z.min result bounded)
  end.

Definition MaxEntries (m : t) (target_bytes : Z) : Z :=
  if negb (Valid m) then 0
  else if decide (target_bytes = Max) then Max
  else max_entries_loop (lines_ m) target_bytes Max.

(** ** Well-formed models *)

(** A line has a positive slope and fits its fields. *)
Definition line_wf (l : Line) : Prop :=
  1 <= numerator l <= Max /\ 1 <= denominator l <= Max /\ is_u64 (fixed_bytes l).

Definition wf (m : t) : Prop := Forall line_wf (lines_ m).

(** The exact rational ceiling, without widths. *)
Definition ceil_div (a b : Z) : Z := - ((- a) / b).

(** The estimate of one line without widths. *)
Definition exact_line (l : Line) (n : Z) : Z :=
  ceil_div (n * numerator l) (denominator l) + fixed_bytes l.

(** ** Arithmetic of the ceiling *)

Lemma ceil_div_le a b q : 0 < b -> (ceil_div a b <= q <-> a <= q * b).
Proof.
  unfold ceil_div. intros Hb. split; intros H.
  - assert (- q <= (- a) / b) by lia.
    pose proof (Z.mul_div_le (- a) b Hb). nia.
  - assert (- q <= (- a) / b); [| lia].
    apply Z.div_le_lower_bound; nia.
Qed.

Lemma ceil_div_nonneg a b : 0 <= a -> 0 < b -> 0 <= ceil_div a b.
Proof.
  intros Ha Hb. unfold ceil_div.
  assert ((- a) / b <= 0); [| lia].
  apply Z.div_le_upper_bound; lia.
Qed.

Lemma ceil_div_carry a b :
  0 <= a -> 0 < b ->
  a / b + (if decide (a mod b <> 0) then 1 else 0) = ceil_div a b.
Proof.
  intros Ha Hb. unfold ceil_div.
  pose proof (Z.div_mod a b ltac:(lia)). pose proof (Z.mod_pos_bound a b Hb).
  case_decide as Hm.
  - enough ((- a) / b = - (a / b) - 1) by lia.
    symmetry. apply Z.div_unique with (r := b - a mod b); [left; lia | lia].
  - enough ((- a) / b = - (a / b)) by lia.
    symmetry. apply Z.div_unique with (r := 0); [left; lia |].
    assert (a mod b = 0) by (destruct (Z.eq_dec (a mod b) 0); tauto). lia.
Qed.

Lemma div_up_exact a b :
  0 <= a <= Max * Max -> 1 <= b -> div_up a b = ceil_div a b.
Proof.
  intros Ha Hb. unfold div_up. rewrite ceil_div_carry by lia.
  apply u128_small. split; [apply ceil_div_nonneg; lia|].
  enough (ceil_div a b <= Max * Max) by (unfold Max, u64_max in *; lia).
  apply ceil_div_le; nia.
Qed.

Lemma product_fits a b : is_u64 a -> is_u64 b -> u128 (a * b) = a * b /\ 0 <= a * b <= Max * Max.
Proof.
  unfold is_u64, Max. intros Ha Hb.
  assert (0 <= a * b <= u64_max * u64_max) by nia.
  split; [| lia]. apply u128_small. unfold u64_max in *. lia.
Qed.

Lemma line_estimate_exact l n :
  line_wf l -> is_u64 n -> line_estimate l n = Z.min Max (exact_line l n).
Proof.
  intros (Hn & Hd & Hf) Hu. unfold line_estimate, exact_line.
  destruct (product_fits n (numerator l)) as [-> Hp]; [done | unfold is_u64, Max in *; lia |].
  rewrite div_up_exact by lia.
  pose proof (ceil_div_nonneg (n * numerator l) (denominator l) ltac:(lia) ltac:(lia)).
  rewrite (u64_small (Max - _)) by (unfold is_u64, Max in *; lia).
  case_decide.
  - lia.
  - rewrite (u64_small (ceil_div _ _)) by (unfold is_u64, Max in *; lia).
    rewrite u64_small by (unfold is_u64, Max in *; lia). lia.
Qed.

Lemma exact_line_le l n q :
  line_wf l ->
  (exact_line l n <= q <-> n * numerator l <= (q - fixed_bytes l) * denominator l).
Proof.
  intros (Hn & Hd & Hf). unfold exact_line.
  rewrite <- (ceil_div_le _ _ (q - fixed_bytes l)) by lia. lia.
Qed.

Lemma fold_max_acc (f : Line -> Z) ls a q :
  fold_left (fun r l => Z.max r (f l)) ls a <= q <->
  a <= q /\ Forall (fun l => f l <= q) ls.
Proof.
  revert a. induction ls as [| l ls IH]; intros a; simpl.
  - split; [auto | tauto].
  - rewrite IH, Forall_cons_iff, Z.max_lub_iff. tauto.
Qed.

Lemma Estimate_le m n q :
  wf m -> is_u64 n -> n <> 0 -> 0 <= q < Max ->
  (Estimate m n <= q <->
   Forall (fun l => n * numerator l <= (q - fixed_bytes l) * denominator l) (lines_ m)).
Proof.
  intros Hwf Hn H0 Hq. unfold Estimate. rewrite decide_False by done.
  rewrite (fold_max_acc (fun l => line_estimate l n)).
  unfold wf in Hwf. rewrite !Forall_forall in *.
  split.
  - intros [_ H] l Hl. apply exact_line_le; [by apply Hwf|].
    specialize (H l Hl). simpl in H. rewrite line_estimate_exact in H by auto. lia.
  - intros H. split; [lia|]. intros l Hl. rewrite line_estimate_exact by auto.
    apply Z.min_le_iff. right. apply exact_line_le; auto.
Qed.

Lemma max_entries_loop_ge ls tb result n :
  Forall line_wf ls -> is_u64 n -> is_u64 tb -> 1 <= n ->
  (n <= max_entries_loop ls tb result <->
   n <= result /\
   Forall (fun l => n * numerator l <= (tb - fixed_bytes l) * denominator l) ls) .
Proof.
  intros Hwf Hn Ht H1. revert result.
  induction Hwf as [| l ls (Hnum & Hden & Hf) Hwf IH]; intros result; simpl.
  - split; [auto | tauto].
  - rewrite Forall_cons_iff. case_decide as Hlt.
    + split; [lia |]. intros (_ & H & _). nia.
    + rewrite (u64_small (tb - _)) by (unfold is_u64 in *; lia).
      destruct (product_fits (tb - fixed_bytes l) (denominator l)) as [-> Hp];
        [unfold is_u64 in *; lia | unfold is_u64, Max in *; lia |].
      rewrite IH, Z.min_glb_iff.
      assert (n <= (tb - fixed_bytes l) * denominator l / numerator l <->
              n * numerator l <= (tb - fixed_bytes l) * denominator l) as Hq.
      { split; intros H.
        - pose proof (Z.mul_div_le ((tb - fixed_bytes l) * denominator l) (numerator l) ltac:(lia)). nia.
        - apply Z.div_le_lower_bound; lia. }
      rewrite <- Hq. case_decide.
      * unfold is_u64, Max in *. intuition lia.
      * rewrite u64_small; [tauto |]. split; [apply Z.div_pos; lia | unfold Max in *; lia].
Qed.

Lemma Estimate_bounds m n : wf m -> is_u64 n -> is_u64 (Estimate m n).
Proof.
  intros Hwf Hn. unfold Estimate. case_decide; [unfold is_u64, u64_max; lia|].
  assert (forall ls a, Forall line_wf ls -> is_u64 a ->
    is_u64 (fold_left (fun r l => Z.max r (line_estimate l n)) ls a)) as Hf.
  { induction ls as [| l ls IH]; intros a Hls Ha; simpl; [done |].
    inversion Hls as [|?? Hl Hls']; subst. apply IH; [done |].
    rewrite line_estimate_exact by done. unfold exact_line.
    destruct Hl as (H1 & H2 & H3).
    pose proof (ceil_div_nonneg (n * numerator l) (denominator l)).
    unfold is_u64, Max in *. nia. }
  apply Hf; [done | unfold is_u64, u64_max; lia].
Qed.

Lemma Estimate_app m l n :
  wf m -> is_u64 n -> n <> 0 ->
  Estimate (mkModel (lines_ m ++ [l])) n = Z.max (Estimate m n) (line_estimate l n).
Proof.
  intros Hwf Hn H0. unfold Estimate. rewrite !decide_False by done. simpl.
  by rewrite fold_left_app.
Qed.

(** The new line of a successful calibration, without widths. *)
Lemma AddCalibration_ok m n1 b1 n2 b2 :
  is_u64 n1 -> is_u64 b1 -> is_u64 n2 -> is_u64 b2 ->
  0 < n1 < n2 -> b1 < b2 ->
  exists fixed,
    AddCalibration m n1 b1 n2 b2 =
      (true, mkModel (lines_ m ++ [mkLine (b2 - b1) (n2 - n1) fixed])) /\
    fixed = Z.max 0 (ceil_div (b1 * (n2 - n1) - n1 * (b2 - b1)) (n2 - n1)) /\
    fixed <= b1 /\ line_wf (mkLine (b2 - b1) (n2 - n1) fixed).
Proof.
  intros H1 H2 H3 H4 Hn Hb. unfold AddCalibration.
  rewrite bool_decide_eq_false_2 by lia.
  rewrite (u64_small (b2 - b1)), (u64_small (n2 - n1)) by (unfold is_u64 in *; lia).
  destruct (product_fits b1 (n2 - n1)) as [-> Hl]; [done | unfold is_u64 in *; lia |].
  destruct (product_fits n1 (b2 - b1)) as [-> Hr]; [done | unfold is_u64 in *; lia |].
  eexists; split; [reflexivity |].
  set (d := b1 * (n2 - n1) - n1 * (b2 - b1)).
  assert (ceil_div d (n2 - n1) <= b1) as Hle.
  { apply ceil_div_le; [lia |]. unfold d. nia. }
  case_decide as Hd.
  - assert (0 <= d <= Max * Max) as Hdr by (unfold d; lia).
    rewrite u128_small by (fold d; unfold Max, u64_max in *; lia).
    fold d. rewrite div_up_exact by lia.
    pose proof (ceil_div_nonneg d (n2 - n1) ltac:(lia) ltac:(lia)).
    rewrite u64_small by solve_u64.
    unfold line_wf, is_u64, Max in *; simpl. lia.
  - assert (ceil_div d (n2 - n1) <= 0) by (apply ceil_div_le; [lia | unfold d; lia]).
    unfold line_wf, is_u64, Max in *; simpl. lia.
Qed.

(** ** Properties *)

Lemma MaxEntries_iff m n tb :
  wf m -> Valid m = true -> is_u64 n -> is_u64 tb ->
  (Estimate m n <= tb <-> n <= MaxEntries m tb).
Proof.
  intros Hwf Hv Hn Ht. unfold MaxEntries. rewrite Hv; simpl.
  pose proof (Estimate_bounds m n Hwf Hn).
  case_decide as Hmax; [unfold is_u64, Max in *; lia |].
  destruct (decide (n = 0)) as [-> | H0].
  - unfold Estimate; simpl. split; [intros _ | unfold is_u64 in Ht; lia].
    assert (forall ls r, Forall line_wf ls -> 0 <= r -> 0 <= max_entries_loop ls tb r) as Hnn.
    { induction ls as [| l ls IH]; intros r Hls Hr; simpl; [lia |].
      inversion Hls as [| ?? Hl Hls']; subst. case_decide; [lia |].
      apply IH; [done |]. apply Z.min_glb; [lia |].
      case_decide; [unfold Max, u64_max; lia | apply u64_range]. }
    apply Hnn; [done | unfold Max, u64_max; lia].
  - unfold is_u64 in *. rewrite Estimate_le, max_entries_loop_ge by (unfold is_u64, Max in *; auto; lia).
    unfold Max. intuition lia.
Qed.

(** [MaxEntries] is the exact inverse of [Estimate]: for every valid model,
    every count and every byte target of type [uint64_t], the (saturating)
    estimate of the count fits the target exactly when the count is at most
    [MaxEntries]. *)
Theorem MaxEntries_exact_inverse m n tb :
  wf m -> Valid m = true -> is_u64 n -> is_u64 tb ->
  (Estimate m n <= tb <-> n <= MaxEntries m tb).
Proof. apply MaxEntries_iff. Qed.

(** a calibration accepted by [AddCalibration] keeps the model well formed,
    covers both of its samples and only raises earlier estimates. *)
Theorem AddCalibration_covers m n1 b1 n2 b2 m' :
  wf m -> is_u64 n1 -> is_u64 b1 -> is_u64 n2 -> is_u64 b2 ->
  AddCalibration m n1 b1 n2 b2 = (true, m') ->
  wf m' /\ Valid m' = true /\
  b1 <= Estimate m' n1 /\ b2 <= Estimate m' n2 /\
  (forall n, is_u64 n -> Estimate m n <= Estimate m' n).
Proof.
  intros Hwf H1 H2 H3 H4 Hadd.
  assert (0 < n1 < n2 /\ b1 < b2) as [Hn Hb].
  { unfold AddCalibration in Hadd. case_bool_decide; [congruence |].
    unfold is_u64 in *. lia. }
  destruct (AddCalibration_ok m n1 b1 n2 b2) as (fixed & Heq & Hfix & Hfb & Hlwf); auto.
  rewrite Heq in Hadd. injection Hadd as <-.
  assert (wf (mkModel (lines_ m ++ [mkLine (b2 - b1) (n2 - n1) fixed]))) as Hwf'.
  { apply Forall_app. split; [done | by apply List.Forall_cons]. }
  assert (b1 * (n2 - n1) - n1 * (b2 - b1) <= fixed * (n2 - n1)) as Hcov.
  { apply ceil_div_le; lia. }
  assert (forall n b, is_u64 n -> n <> 0 -> b <= Max ->
            ~ (n * (b2 - b1) <= (b - 1 - fixed) * (n2 - n1)) ->
            b <= line_estimate (mkLine (b2 - b1) (n2 - n1) fixed) n) as Hline.
  { intros n b Hnu Hn0 Hbm Hno. rewrite line_estimate_exact by done.
    pose proof (exact_line_le _ n (b - 1) Hlwf) as Hiff. simpl in Hiff.
    apply Z.min_glb; lia. }
  split_and!; [done | unfold Valid; simpl; by destruct (lines_ m) | | |].
  - rewrite Estimate_app by (auto; lia). apply Z.max_le_iff; right.
    apply Hline; [done | lia | unfold is_u64, Max in *; lia | nia].
  - rewrite Estimate_app by (auto; lia). apply Z.max_le_iff; right.
    apply Hline; [done | lia | unfold is_u64, Max in *; lia | nia].
  - intros n Hnu. destruct (decide (n = 0)) as [-> |]; [reflexivity |].
    rewrite Estimate_app by auto. lia.
Qed.

(** estimates are monotone in the entry count, stay in [uint64_t], and an
    estimate reaches the saturation value only when some exact line does, so
    the saturation never hides a smaller exact size. *)
Theorem Estimate_monotone_saturating m n1 n2 :
  wf m -> is_u64 n1 -> is_u64 n2 -> n1 <= n2 ->
  Estimate m n1 <= Estimate m n2 /\ is_u64 (Estimate m n2) /\
  (Estimate m n2 < Max -> n2 <> 0 ->
   Forall (fun l => exact_line l n2 <= Estimate m n2) (lines_ m)).
Proof.
  intros Hwf H1 H2 Hle. pose proof (Estimate_bounds m n2 Hwf H2) as Hb.
  assert (Estimate m n2 < Max -> n2 <> 0 ->
    Forall (fun l => exact_line l n2 <= Estimate m n2) (lines_ m)) as Hex.
  { intros Hlt H0.
    pose proof (proj1 (Estimate_le m n2 (Estimate m n2) Hwf H2 H0 ltac:(unfold is_u64 in *; lia)) ltac:(lia)) as Hall.
    unfold wf in Hwf. rewrite !Forall_forall in *. intros l Hl.
    apply exact_line_le; auto. }
  split_and!; [| done | done].
  destruct (decide (n1 = 0)) as [-> | Hn1]; [unfold Estimate at 1; simpl; unfold is_u64 in Hb; lia |].
  destruct (decide (Estimate m n2 = Max)) as [E | E].
  - rewrite E. apply Estimate_bounds; auto.
  - apply Estimate_le; try done; [unfold is_u64, Max in *; lia |].
    assert (n2 <> 0) as Hn2 by (unfold is_u64 in *; lia).
    specialize (Hex ltac:(unfold is_u64, Max in *; lia) Hn2).
    unfold wf in Hwf. rewrite Forall_forall in *. intros l Hl.
    specialize (Hex l Hl). apply exact_line_le in Hex; [| auto].
    destruct (Hwf l Hl) as (Hnum & _). nia.
Qed.

(** ** Witnesses *)

(** Model of the unit test: samples (10, 1100) and (20, 2100). *)
Definition test_model : t := snd (AddCalibration empty 10 1100 20 2100).

Lemma MaxEntries_exact_inverse_witness :
  Estimate test_model 9 <= 1000 <-> 9 <= MaxEntries test_model 1000.
Proof.
  apply (MaxEntries_exact_inverse test_model 9 1000);
    [repeat constructor; vm_compute; discriminate | reflexivity
    | split; vm_compute; discriminate | split; vm_compute; discriminate].
Defined.

Lemma AddCalibration_covers_witness : 1100 <= Estimate test_model 10.
Proof.
  refine (proj1 (proj2 (proj2 (AddCalibration_covers empty 10 1100 20 2100 test_model _ _ _ _ _ _))));
    [constructor | split; vm_compute; discriminate.. | reflexivity].
Defined.

Lemma Estimate_monotone_saturating_witness : Estimate test_model 5 <= Estimate test_model 9.
Proof.
  refine (proj1 (Estimate_monotone_saturating test_model 5 9 _ _ _ _));
    [repeat constructor; vm_compute; discriminate
    | split; vm_compute; discriminate.. | vm_compute; discriminate].
Defined.

End SSTSizeModel.
