(* ===== verification/KmvHash.v ===== *)
(** * KMV fingerprints

    SplitMix64's finalizer [KMVHash], its inverse [KMVUnhash] and the xor-shift
    inversion loop of [db/virtual_compaction/virtual_sst.cc].  The theorems show
    that the two functions are mutually inverse bijections of [uint64_t], which
    is what lets a sketch keep fingerprints only. *)

From Stdlib Require Import ZArith Lia.
From stdpp Require Import base list numbers.
From S2P Require Import Prelude.

Local Open Scope Z_scope.

Module KmvHash.

(** The loop of [InvertXorShift]: [for (s = shift; s < 64; s <<= 1)].  The
    shift doubles every turn, so the fuel of 64 turns is never used up for a
    positive shift ([invert_loop_terminates]). *)
Fixpoint invert_loop (fuel : nat) (x s : Z) : option Z :=
  if decide (s < 64) then
    match fuel with
    | O => None
    | S fuel' => invert_loop fuel' (Z.lxor x (Z.shiftr x s)) (2 * s)
    end
  else Some x.

Definition InvertXorShift (y shift : Z) : Z :=
  default y (invert_loop 64 y shift).

Definition KMVHash (x : Z) : Z :=
  let x := x +% 0x9e3779b97f4a7c15 in
  let x := Z.lxor x (Z.shiftr x 30) *% 0xbf58476d1ce4e5b9 in
  let x := Z.lxor x (Z.shiftr x 27) *% 0x94d049bb133111eb in
  Z.lxor x (Z.shiftr x 31).

Definition KMVUnhash (x : Z) : Z :=
  let x := InvertXorShift x 31 in
  let x := x *% 0x319642b2d24d8ec3 in
  let x := InvertXorShift x 27 in
  let x := x *% 0x96de1b173f119089 in
  let x := InvertXorShift x 30 in
  x -% 0x9e3779b97f4a7c15.

(** One xor-shift step, [I + R^s] over GF(2). *)
Definition xorshift (s x : Z) : Z := Z.lxor x (Z.shiftr x s).

(** ** Xor-shift algebra *)

Lemma xorshift_twice s x : 0 <= s -> xorshift s (xorshift s x) = xorshift (2 * s) x.
Proof.
  intros Hs. unfold xorshift. apply Z.bits_inj'. intros i Hi.
  rewrite !Z.lxor_spec, !Z.shiftr_spec, !Z.lxor_spec, !Z.shiftr_spec by lia.
  replace (i + s + s) with (i + 2 * s) by lia.
  destruct (Z.testbit x i), (Z.testbit x (i + s)), (Z.testbit x (i + 2 * s)); done.
Qed.

Lemma u64_testbit_high x i : is_u64 x -> 64 <= i -> Z.testbit x i = false.
Proof.
  unfold is_u64, u64_max. intros Hx Hi.
  rewrite <- (Z.mod_small x (2 ^ 64)) by lia. by apply Z.mod_pow2_bits_high.
Qed.

Lemma u64_of_bits x :
  0 <= x -> (forall i, 64 <= i -> Z.testbit x i = false) -> is_u64 x.
Proof.
  intros Hx Hb. enough (x mod 2 ^ 64 = x) as <- by apply u64_range.
  apply Z.bits_inj'. intros i Hi. destruct (Z.lt_ge_cases i 64).
  - by rewrite Z.mod_pow2_bits_low.
  - rewrite Z.mod_pow2_bits_high by lia. by rewrite Hb.
Qed.

Lemma xorshift_u64 s x : 0 <= s -> is_u64 x -> is_u64 (xorshift s x).
Proof.
  intros Hs Hx. pose proof Hx as [Hx0 _]. apply u64_of_bits.
  - unfold xorshift. apply Z.lxor_nonneg. rewrite Z.shiftr_nonneg. tauto.
  - intros i Hi. unfold xorshift. rewrite Z.lxor_spec, Z.shiftr_spec by lia.
    by rewrite !u64_testbit_high by (done || lia).
Qed.

Lemma xorshift_wide s x : 64 <= s -> is_u64 x -> xorshift s x = x.
Proof.
  intros Hs Hx. unfold xorshift. rewrite Z.shiftr_div_pow2 by lia.
  rewrite Z.div_small; [by rewrite Z.lxor_0_r |].
  unfold is_u64, u64_max in Hx. split; [lia |].
  apply Z.lt_le_trans with (2 ^ 64); [lia | apply Z.pow_le_mono_r; lia].
Qed.

Lemma invert_loop_terminates fuel y s :
  1 <= s -> 64 - s <= Z.of_nat fuel -> is_Some (invert_loop fuel y s).
Proof.
  revert y s. induction fuel as [| fuel IH]; intros y s Hs Hf; simpl; case_decide; try lia; eauto.
  apply IH; lia.
Qed.

(** Loop invariant: the running value is [xorshift s x] for the value [x]
    being recovered. *)
Lemma invert_loop_left fuel x s r :
  1 <= s -> is_u64 x -> invert_loop fuel (xorshift s x) s = Some r -> r = x.
Proof.
  revert s. induction fuel as [| fuel IH]; intros s Hs Hx; simpl; case_decide; try done.
  - intros [= <-]. by apply xorshift_wide; [lia |].
  - change (Z.lxor ?a (Z.shiftr ?a s)) with (xorshift s a).
    rewrite xorshift_twice by lia. apply IH; [lia | done].
  - intros [= <-]. by apply xorshift_wide; [lia |].
Qed.

Lemma invert_loop_u64 fuel y s r :
  0 <= s -> is_u64 y -> invert_loop fuel y s = Some r -> is_u64 r.
Proof.
  revert y s. induction fuel as [| fuel IH]; intros y s Hs Hy; simpl; case_decide; try done.
  - congruence.
  - apply IH; [lia |]. by apply xorshift_u64.
  - congruence.
Qed.

Lemma InvertXorShift_u64 y s : 0 <= s -> is_u64 y -> is_u64 (InvertXorShift y s).
Proof.
  intros Hs Hy. unfold InvertXorShift.
  destruct (invert_loop 64 y s) eqn:E; simpl; [by eapply invert_loop_u64 | done].
Qed.

Lemma InvertXorShift_left x s :
  1 <= s -> is_u64 x -> InvertXorShift (xorshift s x) s = x.
Proof.
  intros Hs Hx. unfold InvertXorShift.
  destruct (invert_loop_terminates 64 (xorshift s x) s) as [r Hr]; [lia | lia |].
  rewrite Hr; simpl. by eapply invert_loop_left.
Qed.

Lemma xorshift_inj s x y :
  1 <= s -> is_u64 x -> is_u64 y -> xorshift s x = xorshift s y -> x = y.
Proof.
  intros Hs Hx Hy E. rewrite <- (InvertXorShift_left x s), <- (InvertXorShift_left y s); auto.
  by rewrite E.
Qed.

Lemma invert_loop_right fuel y s r :
  1 <= s -> is_u64 y -> invert_loop fuel y s = Some r -> xorshift s r = y.
Proof.
  revert y s. induction fuel as [| fuel IH]; intros y s Hs Hy E.
  - simpl in E. case_decide; [done |]. injection E as <-. apply xorshift_wide; [lia | done].
  - pose proof E as E0. simpl in E. case_decide.
    + change (Z.lxor ?a (Z.shiftr ?a s)) with (xorshift s a) in E.
      assert (is_u64 r) by (eapply invert_loop_u64; [| | exact E0]; [lia | done]).
      apply IH in E; [| lia | by apply xorshift_u64; [lia |]].
      rewrite <- xorshift_twice in E by lia.
      apply (xorshift_inj s) in E; auto using xorshift_u64 with lia; apply xorshift_u64; auto; lia.
    + injection E as <-. apply xorshift_wide; [lia | done].
Qed.

Lemma InvertXorShift_right y s :
  1 <= s -> is_u64 y -> xorshift s (InvertXorShift y s) = y.
Proof.
  intros Hs Hy. unfold InvertXorShift.
  destruct (invert_loop_terminates 64 y s) as [r Hr]; [lia | lia |].
  rewrite Hr; simpl. by eapply invert_loop_right.
Qed.

(** Multiplication by a unit modulo [2^64]. *)
Lemma mul_inverse a b x :
  (a * b) mod 2 ^ 64 = 1 -> is_u64 x -> (x *% a) *% b = x.
Proof.
  intros Hab Hx. unfold u64. rewrite Z.mul_mod_idemp_l by lia.
  rewrite <- Z.mul_assoc, <- Z.mul_mod_idemp_r by lia.
  rewrite Hab, Z.mul_1_r. by apply u64_small.
Qed.

Lemma add_sub_inverse c x : is_u64 x -> (x +% c) -% c = x.
Proof.
  intros Hx. unfold u64. rewrite Zminus_mod_idemp_l.
  replace (x + c - c) with x by lia. by apply u64_small.
Qed.

Lemma sub_add_inverse c x : is_u64 x -> (x -% c) +% c = x.
Proof.
  intros Hx. unfold u64. rewrite Zplus_mod_idemp_l.
  replace (x - c + c) with x by lia. by apply u64_small.
Qed.

(** [KMVHash] and [KMVUnhash] as compositions of invertible steps. *)
Lemma KMVHash_steps x :
  KMVHash x = xorshift 31 (xorshift 27 (xorshift 30 (x +% 0x9e3779b97f4a7c15)
                *% 0xbf58476d1ce4e5b9) *% 0x94d049bb133111eb).
Proof. reflexivity. Qed.

Lemma KMVHash_u64 x : is_u64 (KMVHash x).
Proof. rewrite KMVHash_steps. apply xorshift_u64; [lia | apply u64_range]. Qed.

Lemma KMVUnhash_u64 x : is_u64 (KMVUnhash x).
Proof. apply u64_range. Qed.

Lemma KMVUnhash_KMVHash x : is_u64 x -> KMVUnhash (KMVHash x) = x.
Proof.
  intros Hx. rewrite KMVHash_steps. unfold KMVUnhash.
  rewrite InvertXorShift_left by (lia || apply u64_range).
  rewrite mul_inverse by (done || (apply xorshift_u64; [lia | apply u64_range])).
  rewrite InvertXorShift_left by (lia || apply u64_range).
  rewrite mul_inverse by (done || (apply xorshift_u64; [lia | apply u64_range])).
  rewrite InvertXorShift_left by (lia || apply u64_range).
  by apply add_sub_inverse.
Qed.

Lemma KMVHash_KMVUnhash h : is_u64 h -> KMVHash (KMVUnhash h) = h.
Proof.
  intros Hh. rewrite KMVHash_steps. unfold KMVUnhash.
  rewrite sub_add_inverse by (apply InvertXorShift_u64; [lia | apply u64_range]).
  rewrite InvertXorShift_right by (lia || apply u64_range).
  rewrite mul_inverse by (done || (apply InvertXorShift_u64; [lia | apply u64_range])).
  rewrite InvertXorShift_right by (lia || apply u64_range).
  rewrite mul_inverse by (done || (apply InvertXorShift_u64; [lia | done])).
  by apply InvertXorShift_right; [lia |].
Qed.

Lemma KMVHash_inj x y : is_u64 x -> is_u64 y -> KMVHash x = KMVHash y -> x = y.
Proof.
  intros Hx Hy E. rewrite <- (KMVUnhash_KMVHash x), <- (KMVUnhash_KMVHash y) by done.
  by rewrite E.
Qed.

(** ** Properties *)

(** [KMVHash] is a bijection of [uint64_t] with inverse [KMVUnhash], so a
    fingerprint identifies its key exactly and the key can be recovered from
    it. *)
Theorem KMVHash_bijection :
  (forall key, is_u64 key -> is_u64 (KMVHash key) /\ KMVUnhash (KMVHash key) = key) /\
  (forall hash, is_u64 hash -> is_u64 (KMVUnhash hash) /\ KMVHash (KMVUnhash hash) = hash).
Proof.
  split; intros x Hx; split; auto using KMVHash_u64, KMVUnhash_u64,
    KMVUnhash_KMVHash, KMVHash_KMVUnhash.
Qed.

(** the xor-shift inversion loop terminates for every positive shift and
    inverts the step [x ^ (x >> shift)] from both sides on 64-bit values. *)
Theorem InvertXorShift_inverts y shift :
  1 <= shift -> is_u64 y ->
  is_Some (invert_loop 64 y shift) /\
  InvertXorShift (xorshift shift y) shift = y /\
  xorshift shift (InvertXorShift y shift) = y.
Proof.
  intros Hs Hy. split_and!.
  - apply invert_loop_terminates; lia.
  - by apply InvertXorShift_left.
  - by apply InvertXorShift_right.
Qed.

Lemma InvertXorShift_inverts_witness :
  InvertXorShift (xorshift 27 12345678901234567) 27 = 12345678901234567.
Proof.
  refine (proj1 (proj2 (InvertXorShift_inverts 12345678901234567 27 _ _)));
    [lia | split; vm_compute; discriminate].
Defined.

End KmvHash.
