(* ===== verification/Plr.v ===== *)
(** * Piecewise linear regression model

    [db/virtual_compaction/plr_model.h] and [plr_model.cc]: the segments, the
    CDF evaluation [Predict], the inverse walk [Inverse] and the shrinking-cone
    fit [GreedyPLRFit].  [Predict] and [GreedyPLRFit] are written over an
    interface [Arith] of the arithmetic they use; the source is the instance
    [double_arith], and the instance [exact_arith] (rationals with infinities)
    states what the algorithm guarantees before rounding. *)

From Stdlib Require Import ZArith Lia SpecFloat QArith Qabs Lqa Sorted.
From stdpp Require Import base numbers list.
From S2P Require Import Prelude FloatModel FloatTheory.

Local Open Scope Z_scope.

(** ** Arithmetic interface *)

(** The operations [GreedyPLRFit] and [Predict] apply to [double]. *)
Class Arith (F : Type) := {
  a_zero : F;
  a_pinf : F;
  a_ninf : F;
  a_two : F;
  a_of_Z : Z -> F;
  a_add : F -> F -> F;
  a_sub : F -> F -> F;
  a_mul : F -> F -> F;
  a_div : F -> F -> F;
  a_lt : F -> F -> bool;
  a_le : F -> F -> bool;
  a_isinf : F -> bool;
}.

(** [std::max] and [std::min] over the interface. *)
Definition a_max {F} `{Arith F} (a b : F) : F := if a_lt a b then b else a.
Definition a_min {F} `{Arith F} (a b : F) : F := if a_lt b a then b else a.

#[export] Instance double_arith : Arith spec_float := {|
  a_zero := fzero;
  a_pinf := pos_inf;
  a_ninf := neg_inf;
  a_two := F64.of_Z 2;
  a_of_Z := F64.of_Z;
  a_add := F64.add;
  a_sub := F64.sub;
  a_mul := F64.mul;
  a_div := F64.div;
  a_lt := flt;
  a_le := fle;
  a_isinf := is_inf;
|}.

(** Rationals with the two infinities the fit starts its cone from.  The fit
    only compares infinities; arithmetic on them is never reached. *)
Inductive QX := QX_ninf | QX_fin (q : Q) | QX_pinf.

Definition QX_lift (f : Q -> Q -> Q) (a b : QX) : QX :=
  match a, b with QX_fin p, QX_fin q => QX_fin (f p q) | _, _ => QX_pinf end.

Definition QX_le (a b : QX) : bool :=
  match a, b with
  | QX_ninf, _ | _, QX_pinf => true
  | QX_fin p, QX_fin q => Qle_bool p q
  | _, _ => false
  end.

Definition QX_lt (a b : QX) : bool := negb (QX_le b a).

Definition QX_isinf (a : QX) : bool :=
  match a with QX_fin _ => false | _ => true end.

#[export] Instance exact_arith : Arith QX := {|
  a_zero := QX_fin 0;
  a_pinf := QX_pinf;
  a_ninf := QX_ninf;
  a_two := QX_fin 2;
  a_of_Z := fun z => QX_fin (inject_Z z);
  a_add := QX_lift Qplus;
  a_sub := QX_lift Qminus;
  a_mul := QX_lift Qmult;
  a_div := QX_lift Qdiv;
  a_lt := QX_lt;
  a_le := QX_le;
  a_isinf := QX_isinf;
|}.

(** ** Model *)

(** struct [PLRSegment]. *)
Record PLRSegment (F : Type) := mkSeg {
  key_start : Z;
  key_end : Z;
  slope : F;
  intercept : F;
}.
Arguments mkSeg {F} _ _ _ _.
Arguments key_start {F} _.
Arguments key_end {F} _.
Arguments slope {F} _.
Arguments intercept {F} _.

(** class [PLRModel]. *)
Record PLRModel (F : Type) := mkPLR { segments_ : list (PLRSegment F) }.
Arguments mkPLR {F} _.
Arguments segments_ {F} _.

Section Model.
Context {F : Type} `{Arith F}.

#[local] Instance seg_inhabited : Inhabited (PLRSegment F) :=
  populate (mkSeg 0 0 a_zero a_zero).

(** The lambda [eval] of [Predict]. *)
Definition eval (seg : PLRSegment F) (k : Z) : F :=
  a_add (a_mul (slope seg) (a_of_Z k)) (intercept seg).

(** The binary search of [Predict]; [hi - lo] shrinks every turn. *)
Fixpoint predict_search (fuel : nat) (segs : list (PLRSegment F)) (key : Z)
    (lo hi : nat) : nat :=
  match fuel with
  | O => lo
  | S fuel' =>
      if decide (lo < hi)%nat then
        let mid := (lo + (hi - lo) / 2)%nat in
        if decide (key_end (segs !!! mid) < key)
        then predict_search fuel' segs key (mid + 1) hi
        else predict_search fuel' segs key lo mid
      else lo
  end.

Definition Predict (m : PLRModel F) (key : Z) : F :=
  let segs := segments_ m in
  match last segs with
  | None => a_zero
  | Some back =>
      let n := length segs in
      let lo := predict_search n segs key 0 n in
      if decide (n <= lo)%nat then eval back (key_end back)
      else
        let seg := segs !!! lo in
        if decide (key < key_start seg) then
          match lo with
          | O => a_zero
          | S lo' => let prev := segs !!! lo' in eval prev (key_end prev)
          end
        else eval seg key
  end.

Definition NumSegments (m : PLRModel F) : nat := length (segments_ m).

Definition Empty (m : PLRModel F) : bool :=
  match segments_ m with [] => true | _ => false end.

Definition KeyMin (m : PLRModel F) : Z :=
  match segments_ m with [] => 0 | seg :: _ => key_start seg end.

Definition KeyMax (m : PLRModel F) : Z :=
  match last (segments_ m) with None => 0 | Some seg => key_end seg end.

(** The inner [for] of [GreedyPLRFit]: extends the segment while the cone
    [s_lo, s_hi] of feasible slopes is not empty.  [rest] are the keys from
    index [i] on. *)
Fixpoint cone_scan (rest : list Z) (i : nat) (x0 y0 error_bound s_lo s_hi : F)
    (seg_end : nat) : F * F * nat :=
  match rest with
  | [] => (s_lo, s_hi, seg_end)
  | key :: rest' =>
      let dx := a_sub (a_of_Z key) x0 in
      let dy := a_sub (a_of_Z (Z.of_nat i)) y0 in
      if a_le dx a_zero then cone_scan rest' (i + 1) x0 y0 error_bound s_lo s_hi i
      else
        let new_s_lo := a_div (a_sub dy error_bound) dx in
        let new_s_hi := a_div (a_add dy error_bound) dx in
        if a_lt s_hi new_s_lo || a_lt new_s_hi s_lo then (s_lo, s_hi, seg_end)
        else cone_scan rest' (i + 1) x0 y0 error_bound
               (a_max s_lo new_s_lo) (a_min s_hi new_s_hi) i
  end.

(** The slope taken from the cone. *)
Definition cone_slope (s_lo s_hi : F) : F :=
  if a_isinf s_lo && a_isinf s_hi then a_zero
  else if a_isinf s_lo then s_hi
  else if a_isinf s_hi then s_lo
  else a_div (a_add s_lo s_hi) a_two.

(** The outer [while] of [GreedyPLRFit]; every turn consumes a key. *)
Fixpoint fit_loop (fuel : nat) (keys : list Z) (error_bound : F) (seg_start : nat)
    (segments : list (PLRSegment F)) : list (PLRSegment F) :=
  match fuel with
  | O => segments
  | S fuel' =>
      let n := length keys in
      if decide (seg_start < n)%nat then
        let k0 := keys !!! seg_start in
        if decide (seg_start = n - 1)%nat then
          segments ++ [mkSeg k0 k0 a_zero (a_of_Z (Z.of_nat seg_start))]
        else
          let x0 := a_of_Z k0 in
          let y0 := a_of_Z (Z.of_nat seg_start) in
          let '(s_lo, s_hi, seg_end) :=
            cone_scan (drop (seg_start + 1) keys) (seg_start + 1) x0 y0
              error_bound a_ninf a_pinf seg_start in
          let sl := cone_slope s_lo s_hi in
          let seg := mkSeg k0 (keys !!! seg_end) sl (a_sub y0 (a_mul sl x0)) in
          fit_loop fuel' keys error_bound (seg_end + 1) (segments ++ [seg])
      else segments
  end.

Definition GreedyPLRFit (sorted_keys : list Z) (error_bound : F) : PLRModel F :=
  mkPLR (fit_loop (length sorted_keys) sorted_keys error_bound 0 []).

End Model.

Abbreviation segment := (PLRSegment spec_float).
Abbreviation model := (PLRModel spec_float).

#[export] Instance segment_inhabited : Inhabited segment :=
  populate (mkSeg 0 0 fzero fzero).

(** Positions of a segment's end points. *)
Definition seg_pos (seg : segment) (k : Z) : spec_float :=
  F64.add (F64.mul (slope seg) (F64.of_Z k)) (intercept seg).

(** The loop of [Inverse] over the segments: the index of the first segment
    whose position range contains [position], else of the closest one. *)
Fixpoint inverse_loop (segs : list segment) (i : nat) (position : spec_float)
    (best_seg : nat) (best_dist : spec_float) : nat :=
  match segs with
  | [] => best_seg
  | seg :: segs' =>
      let pos_start := seg_pos seg (key_start seg) in
      let pos_end := seg_pos seg (key_end seg) in
      let lo := fmin pos_start pos_end in
      let hi := fmax pos_start pos_end in
      if fle lo position && fle position hi then i
      else
        let dist := if flt position lo then F64.sub lo position
                    else F64.sub position hi in
        if flt dist best_dist then inverse_loop segs' (i + 1) position i dist
        else inverse_loop segs' (i + 1) position best_seg best_dist
  end.

(** The key of a position inside one segment, shared by [Inverse] and the
    materialization loops: midpoint of a flat segment, else the inverse line
    clamped to the segment and rounded. *)
Definition segment_key (seg : segment) (position : spec_float) : option Z :=
  if flt (fabs (slope seg)) F64.lit_1em15
  then Some ((key_start seg +% key_end seg) / 2)
  else
    let key_d := F64.div (F64.sub position (intercept seg)) (slope seg) in
    let key_d := fmax key_d (F64.of_Z (key_start seg)) in
    let key_d := fmin key_d (F64.of_Z (key_end seg)) in
    round_u64 key_d.

(** [None] is undefined behaviour of the final conversion. *)
Definition Inverse (m : model) (position : spec_float) : option Z :=
  match segments_ m with
  | [] => Some 0
  | segs => segment_key (segs !!! inverse_loop segs 0 position 0 pos_inf) position
  end.

(** ** The fit partitions the keys *)

Section Tiling.
Context {F : Type} `{Arith F}.

(** The segments cover the key indices from [i] on by consecutive intervals
    [i, e] with the segment's boundary keys at the ends; [P] is a property of
    every segment and its interval. *)
Fixpoint tiles (P : PLRSegment F -> nat -> nat -> Prop) (keys : list Z)
    (segs : list (PLRSegment F)) (i : nat) : Prop :=
  match segs with
  | [] => i = length keys
  | seg :: segs' =>
      exists e, (i <= e < length keys)%nat /\
        keys !! i = Some (key_start seg) /\ keys !! e = Some (key_end seg) /\
        P seg i e /\ tiles P keys segs' (e + 1)
  end.

Lemma cone_scan_end rest : forall i x0 y0 eb s_lo s_hi seg_end lo hi e,
  cone_scan rest i x0 y0 eb s_lo s_hi seg_end = (lo, hi, e) ->
  (seg_end < i)%nat -> (seg_end <= e < i + length rest)%nat.
Proof.
  induction rest as [|k rest IH]; intros i x0 y0 eb s_lo s_hi seg_end lo hi e; cbn [cone_scan length].
  - intros [= <- <- <-]. lia.
  - intros Hs Hlt. destruct (a_le _ _); [apply IH in Hs; lia|].
    destruct (_ || _); [injection Hs as <- <- <-; lia|apply IH in Hs; lia].
Qed.

Lemma fit_loop_tiles (P : PLRSegment F -> nat -> nat -> Prop) keys eb :
  (forall i k, keys !! i = Some k ->
     P (mkSeg k k a_zero (a_of_Z (Z.of_nat i))) i i) ->
  (forall i k lo hi e k', keys !! i = Some k -> keys !! e = Some k' ->
     cone_scan (drop (i + 1) keys) (i + 1) (a_of_Z k) (a_of_Z (Z.of_nat i)) eb
       a_ninf a_pinf i = (lo, hi, e) ->
     P (mkSeg k k' (cone_slope lo hi)
          (a_sub (a_of_Z (Z.of_nat i)) (a_mul (cone_slope lo hi) (a_of_Z k)))) i e) ->
  forall fuel i acc, (i <= length keys)%nat -> (length keys - i <= fuel)%nat ->
  exists segs, fit_loop fuel keys eb i acc = acc ++ segs /\ tiles P keys segs i.
Proof.
  intros Hone Hcone. induction fuel as [|fuel IH]; intros i acc Hi Hf; cbn [fit_loop].
  - exists []. rewrite app_nil_r. cbn. split; [done|lia].
  - destruct (decide (i < length keys)%nat) as [Hlt|]; cycle 1.
    { exists []. rewrite app_nil_r. cbn. split; [done|lia]. }
    destruct (lookup_lt_is_Some_2 keys i Hlt) as [k Hk].
    rewrite (list_lookup_total_correct _ _ _ Hk).
    destruct (decide (i = length keys - 1)%nat) as [->|Hne].
    + eexists. split; [reflexivity|]. exists (length keys - 1)%nat.
      cbn. repeat split; try lia; auto.
    + destruct (cone_scan _ _ _ _ _ _ _ _) as [[lo hi] e] eqn:Hs.
      pose proof (cone_scan_end _ _ _ _ _ _ _ _ _ _ _ Hs ltac:(lia)) as He.
      rewrite length_drop in He.
      destruct (lookup_lt_is_Some_2 keys e ltac:(lia)) as [k' Hk'].
      rewrite (list_lookup_total_correct _ _ _ Hk').
      edestruct (IH (e + 1)%nat) as (segs & -> & Ht); [lia..|].
      rewrite <- app_assoc. eexists. split; [reflexivity|].
      exists e. cbn. repeat split; try lia; eauto.
Qed.

Lemma tiles_weaken (P Q : PLRSegment F -> nat -> nat -> Prop) keys segs :
  (forall seg i e, P seg i e -> Q seg i e) ->
  forall i, tiles P keys segs i -> tiles Q keys segs i.
Proof.
  intros HPQ. induction segs as [|seg segs IH]; intros i; cbn; [auto|].
  intros (e & ? & ? & ? & ? & ?). exists e. auto 10.
Qed.

Lemma tiles_with_start P keys segs : forall i,
  tiles P keys segs i ->
  tiles (fun seg s e => P seg s e /\ keys !! s = Some (key_start seg)) keys segs i.
Proof.
  induction segs as [|seg segs IH]; intros i; cbn; [auto|].
  intros (e & ? & ? & ? & ? & ?). exists e. auto 10.
Qed.

(** Segment number [j] of a tiling is an interval of key indices, after all
    intervals of smaller numbers. *)
Lemma tiles_lookup P keys segs : forall i j seg,
  tiles P keys segs i -> segs !! j = Some seg ->
  exists s e, (i <= s <= e)%nat /\ (e < length keys)%nat /\
    keys !! s = Some (key_start seg) /\ keys !! e = Some (key_end seg) /\ P seg s e /\
    tiles P keys (drop (S j) segs) (e + 1) /\ (i + j <= s)%nat.
Proof.
  induction segs as [|seg segs IH]; intros i j seg0 Ht Hj; [done|].
  destruct Ht as (e & He & Hs & Hke & HP & Ht). destruct j as [|j]; cbn in Hj.
  - injection Hj as ->. exists i, e. repeat split; auto; lia.
  - destruct (IH _ _ _ Ht Hj) as (s' & e' & ? & ? & ? & ? & ? & ? & ?).
    exists s', e'. repeat split; auto; lia.
Qed.

(** Every key index belongs to a segment of the tiling. *)
Lemma tiles_find P keys segs : forall i x,
  tiles P keys segs i -> (i <= x < length keys)%nat ->
  exists j seg s e, segs !! j = Some seg /\ (s <= x <= e)%nat /\
    keys !! s = Some (key_start seg) /\ keys !! e = Some (key_end seg) /\ P seg s e.
Proof.
  induction segs as [|seg segs IH]; intros i x Ht Hx; cbn in Ht; [lia|].
  destruct Ht as (e & He & Hs & Hke & HP & Ht).
  destruct (decide (x <= e)%nat).
  - exists 0%nat, seg, i, e. repeat split; auto; lia.
  - destruct (IH _ x Ht ltac:(lia)) as (j & seg' & s' & e' & ? & ? & ? & ? & ?).
    exists (S j), seg', s', e'. repeat split; auto; lia.
Qed.

End Tiling.

(** ** Predict is the left-to-right reading of the segments *)

Section PredictSpec.
Context {F : Type} `{Arith F}.

#[local] Instance seg_inhabited' : Inhabited (PLRSegment F) :=
  populate (mkSeg 0 0 a_zero a_zero).

(** Reference definition: walk the segments from the left, [flat] the rank
    reached before the current one; inside a segment evaluate its line, in a
    gap keep [flat]. *)
Fixpoint predict_linear (flat : F) (segs : list (PLRSegment F)) (key : Z) : F :=
  match segs with
  | [] => flat
  | seg :: segs' =>
      if decide (key_end seg < key)
      then predict_linear (eval seg (key_end seg)) segs' key
      else if decide (key < key_start seg) then flat else eval seg key
  end.

Definition ends_sorted (segs : list (PLRSegment F)) : Prop :=
  StronglySorted (fun a b => key_end a <= key_end b) segs.

Lemma ends_sorted_lookup segs i j a b :
  ends_sorted segs -> (i <= j)%nat -> segs !! i = Some a -> segs !! j = Some b ->
  key_end a <= key_end b.
Proof.
  intros Hs Hij Ha Hb. destruct (decide (i = j)) as [->|]; [simplify_eq; lia|].
  exact (StronglySorted_lookup _ segs i j a b Hs ltac:(lia) Ha Hb).
Qed.

Lemma predict_search_spec segs key : ends_sorted segs ->
  forall fuel lo hi, (lo <= hi <= length segs)%nat -> (hi - lo <= fuel)%nat ->
  (forall i s, (i < lo)%nat -> segs !! i = Some s -> key_end s < key) ->
  (forall i s, (hi <= i)%nat -> segs !! i = Some s -> key <= key_end s) ->
  let r := predict_search fuel segs key lo hi in
  (lo <= r <= hi)%nat /\
  (forall i s, (i < r)%nat -> segs !! i = Some s -> key_end s < key) /\
  (forall i s, (r <= i)%nat -> segs !! i = Some s -> key <= key_end s).
Proof.
  intros Hs. induction fuel as [|fuel IH]; intros lo hi Hlh Hf Hlo Hhi; cbn [predict_search].
  { replace hi with lo in * by lia. auto. }
  destruct (decide (lo < hi)%nat); cycle 1.
  { replace hi with lo in * by lia. auto. }
  set (mid := (lo + (hi - lo) / 2)%nat).
  assert (Hm : (lo <= mid < hi)%nat).
  { pose proof (Nat.div_lt (hi - lo) 2 ltac:(lia) ltac:(lia)). unfold mid. lia. }
  destruct (lookup_lt_is_Some_2 segs mid ltac:(lia)) as [sm Hsm].
  rewrite (list_lookup_total_correct _ _ _ Hsm).
  destruct (decide (key_end sm < key)) as [Hk|Hk].
  - destruct (IH (mid + 1)%nat hi) as (? & ? & ?); [lia|lia| |done|split; [lia|auto]].
    intros i s Hi Hsi.
    pose proof (ends_sorted_lookup segs i mid s sm Hs ltac:(lia) Hsi Hsm). lia.
  - destruct (IH lo mid) as (? & ? & ?); [lia|lia|done| |split; [lia|auto]].
    intros i s Hi Hsi.
    pose proof (ends_sorted_lookup segs mid i sm s Hs ltac:(lia) Hsm Hsi). lia.
Qed.

(** [predict_linear] stops at the first segment that does not end before the
    key. *)
Lemma predict_linear_at segs key : forall r flat,
  (forall i s, (i < r)%nat -> segs !! i = Some s -> key_end s < key) ->
  (forall s, segs !! r = Some s -> key <= key_end s) -> (r <= length segs)%nat ->
  predict_linear flat segs key =
    let before := match r with O => flat | S r' => let p := segs !!! r' in eval p (key_end p) end in
    match segs !! r with
    | None => before
    | Some s => if decide (key < key_start s) then before else eval s key
    end.
Proof.
  induction segs as [|s segs IH]; intros r flat Hlt Hge Hr; cbn in Hr.
  - by replace r with O by lia.
  - cbn [predict_linear]. destruct r as [|r]; cbn [lookup list_lookup].
    + specialize (Hge s eq_refl). by rewrite decide_False by lia.
    + rewrite decide_True by (apply (Hlt 0%nat); [lia|done]).
      rewrite (IH r); [|intros i s' ??; apply (Hlt (S i)); [lia|done]|apply Hge|lia].
      by destruct r.
Qed.

Lemma Predict_linear_gen segs key : ends_sorted segs ->
  Predict (mkPLR segs) key = predict_linear a_zero segs key.
Proof.
  intros Hs. unfold Predict. cbn [segments_].
  destruct (predict_search_spec segs key Hs (length segs) 0 (length segs)) as (Hr & Hlo & Hhi);
    [lia|lia|intros; lia|intros i s ? ?%lookup_lt_Some; lia|].
  rewrite (predict_linear_at segs key _ a_zero Hlo); [|eauto|apply Hr].
  rewrite last_lookup.
  set (r := predict_search _ _ _ _ _) in *. clearbody r.
  destruct segs as [|s0 segs']; [by replace r with O by (cbn in Hr; lia)|].
  set (segs := s0 :: segs') in *.
  destruct (lookup_lt_is_Some_2 segs (pred (length segs))) as [back Hback]; [cbn; lia|].
  rewrite Hback. destruct (decide (length segs <= r)%nat).
  - replace r with (length segs) by lia. rewrite (lookup_ge_None_2 segs (length segs)) by lia.
    cbn [length segs]. by rewrite (list_lookup_total_correct _ _ _ Hback).
  - destruct (lookup_lt_is_Some_2 segs r) as [sr Hsr]; [lia|].
    by rewrite Hsr, (list_lookup_total_correct _ _ _ Hsr).
Qed.

End PredictSpec.

(** ** Correctness of the fit *)

Section FitOnSortedKeys.
Context {F : Type} `{Arith F}.

(** Well-formed segment lists: non-empty key ranges in increasing order without
    overlap. *)
Definition seg_lt (a b : PLRSegment F) : Prop := key_end a < key_start b.
Definition seg_wf (segs : list (PLRSegment F)) : Prop :=
  StronglySorted seg_lt segs /\ Forall (fun s => key_start s <= key_end s) segs.

Lemma seg_wf_ends_sorted segs : seg_wf segs -> ends_sorted segs.
Proof.
  intros [Hs Hall]. unfold ends_sorted.
  induction Hs as [|s segs Hs IH Hlt]; [constructor|].
  apply Forall_cons_iff in Hall as [? Hall]. constructor; [auto|].
  rewrite Forall_forall in Hall, Hlt |- *. intros b Hb.
  specialize (Hall b Hb). specialize (Hlt b Hb). unfold seg_lt in Hlt. lia.
Qed.

Lemma tiles_seg_wf P keys segs i :
  StronglySorted Z.lt keys -> tiles P keys segs i -> seg_wf segs.
Proof.
  intros Hk. revert i. induction segs as [|s segs IH]; intros i Ht; [split; constructor|].
  destruct Ht as (e & He & Hs & Hke & _ & Ht). destruct (IH _ Ht) as [Hss Hall].
  split; constructor; auto.
  - apply Forall_lookup_2. intros j s' Hj.
    destruct (tiles_lookup _ _ _ _ _ _ Ht Hj) as (s0 & e0 & ? & _ & Hks & _).
    unfold seg_lt. eapply (StronglySorted_lookup _ keys e s0); eauto. lia.
  - eapply (sorted_lookup_le keys i e); eauto. lia.
Qed.

(** On a key of the fitted list, prediction evaluates the segment the key was
    fitted with. *)
Lemma predict_linear_tiles P keys segs : StronglySorted Z.lt keys ->
  forall i flat x k, tiles P keys segs i -> (i <= x)%nat -> keys !! x = Some k ->
  exists seg s e, seg ∈ segs /\ (s <= x <= e)%nat /\ P seg s e /\
    predict_linear flat segs k = eval seg k.
Proof.
  intros Hk. induction segs as [|seg segs IH]; intros i flat x k Ht Hx Hkx.
  - apply lookup_lt_Some in Hkx. cbn in Ht. lia.
  - destruct Ht as (e & He & Hs & Hke & HP & Ht). cbn [predict_linear].
    destruct (decide (x <= e)%nat) as [Hle|Hgt].
    + exists seg, i, e.
      pose proof (sorted_lookup_le keys x e _ _ Hk Hle Hkx Hke).
      pose proof (sorted_lookup_le keys i x _ _ Hk Hx Hs Hkx).
      rewrite !decide_False by lia. repeat split; auto. left.
    + pose proof (StronglySorted_lookup _ keys e x _ _ Hk ltac:(lia) Hke Hkx).
      rewrite decide_True by lia.
      destruct (IH _ (eval seg (key_end seg)) x k Ht ltac:(lia) Hkx)
        as (seg' & s' & e' & ? & ? & ? & ?).
      exists seg', s', e'. repeat split; auto; [by right|lia..].
Qed.

(** What [fit_loop] records of a segment fitted over the indices [i .. e]. *)
Definition fitted (keys : list Z) (eb : F) (seg : PLRSegment F) (i e : nat) : Prop :=
  (e = i /\ slope seg = a_zero /\ intercept seg = a_of_Z (Z.of_nat i)) \/
  exists k lo hi, keys !! i = Some k /\
    cone_scan (drop (i + 1) keys) (i + 1) (a_of_Z k) (a_of_Z (Z.of_nat i)) eb
      a_ninf a_pinf i = (lo, hi, e) /\
    slope seg = cone_slope lo hi /\
    intercept seg = a_sub (a_of_Z (Z.of_nat i)) (a_mul (cone_slope lo hi) (a_of_Z k)).

Lemma GreedyPLRFit_fitted keys eb :
  tiles (fitted keys eb) keys (segments_ (GreedyPLRFit keys eb)) 0.
Proof.
  destruct (fit_loop_tiles (fitted keys eb) keys eb) with (fuel := length keys) (i := 0%nat)
    (acc := @nil (PLRSegment F)) as (segs & Heq & Ht).
  - intros i k Hi. left. auto.
  - intros i k lo hi e k' Hi He Hs. right. exists k, lo, hi. auto.
  - lia.
  - lia.
  - unfold GreedyPLRFit. cbn [segments_]. by rewrite Heq.
Qed.

End FitOnSortedKeys.

(** ** The cone keeps the error bound, before rounding *)

Section ExactCone.
Local Open Scope Q_scope.

(** Both sides of the cone are infinite, or both are finite and ordered. *)
Definition cone_ok (lo hi : QX) : Prop :=
  match lo, hi with
  | QX_ninf, QX_pinf => True
  | QX_fin a, QX_fin b => a <= b
  | _, _ => False
  end.

Definition in_cone (lo hi : QX) (s : Q) : Prop :=
  QX_le lo (QX_fin s) = true /\ QX_le (QX_fin s) hi = true.

Lemma cone_slope_in lo hi : cone_ok lo hi ->
  exists s, cone_slope lo hi = QX_fin s /\ in_cone lo hi s.
Proof.
  destruct lo as [|a|], hi as [|b|]; cbn; try done.
  - intros _. exists 0. done.
  - intros Hab. exists ((a + b) / 2). split; [done|].
    assert (a <= (a + b) / 2) by (apply Qle_shift_div_l; lra).
    assert ((a + b) / 2 <= b) by (apply Qle_shift_div_r; lra).
    split; cbn; by apply Qle_bool_iff.
Qed.

(** The bounds computed from one point say that the line meets its error bar. *)
Lemma slope_bounds dx dy d s : 0 < dx ->
  (dy - d) / dx <= s -> s <= (dy + d) / dx -> - d <= s * dx - dy <= d.
Proof.
  intros Hdx H1 H2.
  apply (Qmult_le_compat_r _ _ dx) in H1, H2; [|lra..].
  assert (E1 : (dy - d) / dx * dx == dy - d) by (field; lra).
  assert (E2 : (dy + d) / dx * dx == dy + d) by (field; lra).
  rewrite E1 in H1. rewrite E2 in H2. lra.
Qed.

Lemma Qle_bool_spec p q : reflect (p <= q) (Qle_bool p q).
Proof. apply iff_reflect. by rewrite Qle_bool_iff. Qed.

(** Narrowing a cone by the bounds [nl <= nh] of a point that does not break it
    gives a cone, inside both. *)
Lemma narrow_cone lo hi nl nh : cone_ok lo hi -> nl <= nh ->
  a_lt hi (QX_fin nl) || a_lt (QX_fin nh) lo = false ->
  cone_ok (a_max lo (QX_fin nl)) (a_min hi (QX_fin nh)) /\
  forall s, in_cone (a_max lo (QX_fin nl)) (a_min hi (QX_fin nh)) s ->
    in_cone lo hi s /\ nl <= s <= nh.
Proof.
  unfold a_max, a_min, in_cone. cbn [a_lt exact_arith]. unfold QX_lt.
  rewrite orb_false_iff, !negb_false_iff.
  destruct lo as [|a|], hi as [|b|]; cbn; try done; intros Hok Hn [H1 H2].
  - split; [done|]. intros s. rewrite !Qle_bool_iff. auto.
  - apply Qle_bool_iff in H1, H2.
    destruct (Qle_bool_spec nl a), (Qle_bool_spec b nh); cbn;
      (split; [lra|]); intros s; rewrite !Qle_bool_iff; intros []; lra.
Qed.

Lemma dx_pos k0 k : (k0 < k)%Z -> 0 < inject_Z k - inject_Z k0.
Proof. intros Hk. rewrite Zlt_Qlt in Hk. lra. Qed.

(** The scan over keys above [k0]: every slope of the resulting cone meets the
    error bar of every key taken into the segment. *)
Lemma cone_scan_exact k0 (i0 : nat) d : 0 <= d ->
  forall rest i lo hi seg_end lo' hi' e,
  Forall (fun k => (k0 < k)%Z) rest -> cone_ok lo hi -> (seg_end < i)%nat ->
  cone_scan rest i (QX_fin (inject_Z k0)) (QX_fin (inject_Z (Z.of_nat i0)))
    (QX_fin d) lo hi seg_end = (lo', hi', e) ->
  cone_ok lo' hi' /\
  forall s, in_cone lo' hi' s -> in_cone lo hi s /\
    forall j k, (i <= j <= e)%nat -> rest !! (j - i)%nat = Some k ->
      let err := s * (inject_Z k - inject_Z k0) -
                 (inject_Z (Z.of_nat j) - inject_Z (Z.of_nat i0)) in
      - d <= err <= d.
Proof.
  intros Hd. induction rest as [|k rest IH];
    intros i lo hi seg_end lo' hi' e Hall Hok Hlt; cbn [cone_scan].
  { intros [= <- <- <-]. split; [done|]. intros s Hs. split; [done|]. intros. lia. }
  apply Forall_cons_iff in Hall as [Hk Hall].
  cbn [a_sub a_add a_div a_of_Z a_le a_zero exact_arith QX_lift QX_le].
  pose proof (dx_pos k0 k Hk) as Hdx.
  set (dx := inject_Z k - inject_Z k0) in *.
  set (dy := inject_Z (Z.of_nat i) - inject_Z (Z.of_nat i0)).
  destruct (Qle_bool dx 0) eqn:Ele; [apply Qle_bool_iff in Ele; lra|].
  destruct (_ || _) eqn:Ebr.
  { intros [= <- <- <-]. split; [done|]. intros s Hs. split; [done|]. intros. lia. }
  assert (Hn : (dy - d) / dx <= (dy + d) / dx).
  { unfold Qdiv. apply Qmult_le_compat_r; [lra|]. apply Qlt_le_weak, Qinv_lt_0_compat, Hdx. }
  destruct (narrow_cone lo hi _ _ Hok Hn Ebr) as [Hok' Hin].
  intros Hs. destruct (IH (i + 1)%nat _ _ i _ _ _ Hall Hok' ltac:(lia) Hs) as [Hres Hall'].
  split; [done|]. intros s Hss. destruct (Hall' s Hss) as [Hin1 Hj].
  destruct (Hin s Hin1) as [Hin2 [Hl Hh]]. split; [done|].
  intros j k' Hji Hjk. destruct (decide (j = i)) as [->|].
  - rewrite Nat.sub_diag in Hjk. injection Hjk as <-. by apply slope_bounds.
  - apply Hj; [lia|]. replace (j - i)%nat with (S (j - (i + 1))) in Hjk by lia. done.
Qed.

End ExactCone.

Lemma fitted_exact keys d seg i e x k : (0 <= d)%Q -> StronglySorted Z.lt keys ->
  fitted keys (QX_fin d) seg i e -> (i <= x <= e)%nat ->
  keys !! x = Some k -> keys !! i = Some (key_start seg) ->
  exists p, eval seg k = QX_fin p /\ (Qabs (p - inject_Z (Z.of_nat x)) <= d)%Q.
Proof.
  intros Hd Hsort Hfit Hx Hkx Hki. unfold eval.
  destruct Hfit as [(-> & -> & ->) | (k0 & lo & hi & Hk0 & Hs & -> & ->)].
  - replace x with i by lia. eexists. split; [reflexivity|].
    apply Qabs_Qle_condition. split; lra.
  - assert (Habove : Forall (fun k' => k0 < k') (drop (i + 1) keys)).
    { apply Forall_lookup_2. intros j k' Hj. rewrite lookup_drop in Hj.
      eapply (StronglySorted_lookup _ keys i (i + 1 + j)); eauto. lia. }
    destruct (cone_scan_exact k0 i d Hd _ (i + 1) QX_ninf QX_pinf i _ _ _ Habove I
                ltac:(lia) Hs) as [Hok Hin].
    destruct (cone_slope_in lo hi Hok) as (s & -> & Hss).
    destruct (Hin s Hss) as [_ Hj]. eexists. split; [reflexivity|].
    apply Qabs_Qle_condition.
    destruct (decide (x = i)) as [->|].
    + assert (k = k0) as -> by congruence. cbn. lra.
    + specialize (Hj x k ltac:(lia)). rewrite lookup_drop in Hj.
      replace (i + 1 + (x - (i + 1)))%nat with x in Hj by lia.
      specialize (Hj Hkx). cbn in Hj |- *. lra.
Qed.

(** ** Inverse stays inside a segment *)

Abbreviation valid64 := (FloatTheory.valid F64.prec F64.emax).

(** A finite [double]. *)
Definition finite64 (f : spec_float) : Prop := valid64 f /\ is_fin f = true.

(** Keys of a segment are exact in [double] and its line is finite. *)
Definition seg_fin (seg : segment) : Prop :=
  finite64 (slope seg) /\ finite64 (intercept seg) /\
  0 <= key_start seg <= key_end seg /\ key_end seg <= 2 ^ 53.

#[export] Instance finite64_dec f : Decision (finite64 f).
Proof. unfold finite64, FloatTheory.valid. apply _. Defined.

#[export] Instance seg_fin_dec seg : Decision (seg_fin seg).
Proof. unfold seg_fin. apply _. Defined.

Lemma prec64 : 1 < F64.prec < F64.emax.
Proof. by vm_compute. Qed.

Lemma rep64_small z : 0 <= z <= 2 ^ 53 -> rep_int F64.prec F64.emax z.
Proof. apply rep_int_small; apply prec64. Qed.

Lemma key_quotient_valid seg position :
  finite64 (slope seg) -> finite64 (intercept seg) -> finite64 position ->
  flt (fabs (slope seg)) F64.lit_1em15 = false ->
  let q := F64.div (F64.sub position (intercept seg)) (slope seg) in
  valid64 q /\ is_nan q = false.
Proof.
  intros [Hs1 Hs2] [Hi1 Hi2] [Hp1 Hp2] Hflat q. unfold q, F64.div, F64.sub.
  destruct prec64 as [Hpr He].
  destruct (sub_valid F64.prec F64.emax Hpr position (intercept seg)) as [Hv Hn]; auto.
  rewrite lit_1em15_bits in Hflat.
  destruct (slope seg) as [s | | | s m e]; [discriminate..|].
  by apply div_valid.
Qed.

Lemma segment_key_bounds seg position : seg_fin seg -> finite64 position ->
  exists k, segment_key seg position = Some k /\ key_start seg <= k <= key_end seg.
Proof.
  intros (Hs & Hi & Hk & Hke) Hp. unfold segment_key.
  destruct (flt (fabs (slope seg)) F64.lit_1em15) eqn:Hflat.
  - eexists. split; [reflexivity|]. rewrite u64_small by solve_u64.
    split; [apply Z.div_le_lower_bound|apply Z.div_le_upper_bound]; lia.
  - destruct (key_quotient_valid seg position Hs Hi Hp Hflat) as [Hv Hn].
    destruct prec64 as [Hpr He].
    apply (clamp_round F64.prec F64.emax Hpr He _ (key_start seg) (key_end seg));
      try done; unfold u64_max; try lia; apply rep64_small; lia.
Qed.

Lemma inverse_loop_range segs : forall i position best dist,
  let r := inverse_loop segs i position best dist in
  r = best \/ (i <= r < i + length segs)%nat.
Proof.
  induction segs as [|seg segs IH]; intros i position best dist; cbn; [auto|].
  destruct (_ && _); [lia|].
  destruct (flt _ dist);
    match goal with |- context [inverse_loop _ _ _ ?b ?d] => destruct (IH (i + 1)%nat position b d) end; lia.
Qed.

Lemma Inverse_gen m position :
  segments_ m <> [] -> Forall seg_fin (segments_ m) -> finite64 position ->
  exists seg k, seg ∈ segments_ m /\ Inverse m position = Some k /\
    key_start seg <= k <= key_end seg.
Proof.
  intros Hne Hfin Hpos.
  destruct m as [[|seg0 segs]]; [done|]. unfold Inverse. cbn [segments_] in *.
  set (all := seg0 :: segs) in *. set (r := inverse_loop _ _ _ _ _).
  assert (Hr : (r < length all)%nat).
  { pose proof (inverse_loop_range all 0 position 0 pos_inf) as Hr.
    cbn zeta in Hr. fold r in Hr. cbn [length all] in Hr |- *. lia. }
  destruct (lookup_lt_is_Some_2 all r Hr) as [seg Hseg].
  rewrite (list_lookup_total_correct _ _ _ Hseg).
  rewrite Forall_lookup in Hfin.
  destruct (segment_key_bounds seg position (Hfin _ _ Hseg) Hpos) as (k & Hk & Hb).
  exists seg, k. split; [by eapply list_elem_of_lookup_2|done].
Qed.

(** Integers of 64 bits convert to finite [double]s. *)
Lemma of_Z_finite64 z : is_u64 z -> finite64 (F64.of_Z z).
Proof.
  intros Hz. unfold is_u64, u64_max in Hz. destruct prec64 as [Hp He].
  assert (Hr : rep_int F64.prec F64.emax (2 ^ 64)).
  { change (2 ^ 64) with (1 * 2 ^ 64). apply rep_int_shift_le; (done || by vm_compute). }
  split; [|by apply (ofz_upper F64.prec F64.emax Hp He z (2 ^ 64)); [lia|]].
  refine (proj1 (ofz_valid F64.prec F64.emax _ _ z _)); (done || lia).
Qed.

(** ** Properties *)

(** the segments of [GreedyPLRFit], run in [double] arithmetic on any strictly
    increasing keys and any error bound, cut the key indices [0 .. n-1] into
    consecutive intervals: segment [seg] over the indices [s .. e] starts at
    key number [s] and ends at key number [e], so no key is lost or covered twice,
    segments are in increasing order and do not overlap. *)
Theorem GreedyPLRFit_partitions (keys : list Z) (error_bound : spec_float)
    (Hsorted : StronglySorted Z.lt keys) :
  tiles (fun _ _ _ => True) keys (segments_ (GreedyPLRFit keys error_bound)) 0 /\
  seg_wf (segments_ (GreedyPLRFit keys error_bound)).
Proof.
  split.
  - eapply tiles_weaken; [|apply GreedyPLRFit_fitted]. auto.
  - eapply tiles_seg_wf; [done|apply GreedyPLRFit_fitted].
Qed.


(** the binary search of [Predict] is the left-to-right reading of the
    segments: inside a segment its line, in a gap and after the last segment
    the rank at the end of the previous segment, before the first one [0]. *)
Theorem Predict_is_linear_scan (segs : list segment) (key : Z)
    (Hsorted : ends_sorted segs) :
  Predict (mkPLR segs) key = predict_linear fzero segs key.
Proof. exact (Predict_linear_gen segs key Hsorted). Qed.

(** on a model whose segments have finite lines and keys up to 2^53,
    [Inverse] of any finite position has no undefined conversion and returns a
    key inside one of the segments. *)
Theorem Inverse_in_segment (m : model) (position : spec_float)
    (Hne : segments_ m <> []) (Hfin : Forall seg_fin (segments_ m))
    (Hpos : finite64 position) :
  exists seg k, seg ∈ segments_ m /\ Inverse m position = Some k /\
    key_start seg <= k <= key_end seg.
Proof. by apply Inverse_gen. Qed.

(** ** Instances *)

Definition demo_keys : list Z := [3; 5; 9; 20; 21; 22; 23; 60].

Lemma demo_keys_sorted : StronglySorted Z.lt demo_keys.
Proof. repeat constructor. Qed.

Lemma GreedyPLRFit_partitions_witness :
  StronglySorted Z.lt demo_keys /\
  seg_wf (segments_ (GreedyPLRFit demo_keys (F64.of_Z 1))).
Proof.
  split; [apply demo_keys_sorted|].
  apply (GreedyPLRFit_partitions demo_keys (F64.of_Z 1) demo_keys_sorted).
Defined.


Lemma Predict_is_linear_scan_witness :
  let segs := segments_ (GreedyPLRFit demo_keys (F64.of_Z 1)) in
  ends_sorted segs /\ Predict (mkPLR segs) 30 = predict_linear fzero segs 30.
Proof.
  cbn zeta. match goal with |- ?A /\ _ => assert A as Hs end.
  { vm_compute. repeat constructor; vm_compute; discriminate. }
  split; [exact Hs|]. apply (Predict_is_linear_scan _ 30 Hs).
Defined.

Lemma Inverse_in_segment_witness :
  let m := GreedyPLRFit demo_keys (F64.of_Z 1) in
  exists seg k, seg ∈ segments_ m /\ Inverse m (F64.of_Z 4) = Some k /\
    key_start seg <= k <= key_end seg.
Proof.
  cbn zeta. apply (Inverse_in_segment (GreedyPLRFit demo_keys (F64.of_Z 1)) (F64.of_Z 4)).
  - vm_compute. discriminate.
  - apply (bool_decide_unpack _). by vm_compute.
  - by vm_compute.
Defined.

(** ** Keys above 2^53 *)

Definition wide_keys : list Z := (fun i => 2 ^ 60 + Z.of_nat i) <$> seq 0 100.

(** Consecutive keys at 2^60 convert to one [double]: the fit takes them for
    duplicates, returns one flat segment and predicts rank 0 for the last key,
    whose rank is 99, although the error bound is 8. *)
Example GreedyPLRFit_wide_keys :
  let m := GreedyPLRFit wide_keys (F64.of_Z 8) in
  NumSegments m = 1%nat /\ Predict m (2 ^ 60 + 99) = fzero /\
  wide_keys !! 99%nat = Some (2 ^ 60 + 99).
Proof. vm_compute. auto. Qed.

(** The midpoint of a flat segment adds two keys in 64 bits: for a key of at
    least 2^63 it is not in the segment. *)
Example Inverse_midpoint_wraps :
  Inverse (GreedyPLRFit [2 ^ 63 + 6] (F64.of_Z 8)) fzero = Some 6.
Proof. by vm_compute. Qed.

(** A segment ending at the largest key: its end converts to 2^64, which does
    not fit the result type. *)
Example Inverse_largest_key :
  Inverse (mkPLR [mkSeg 0 u64_max (F64.of_Z 1) fzero]) (F64.of_Z (2 ^ 65)) = None.
Proof. by vm_compute. Qed.
