(* ===== verification/Kmv.v ===== *)
(** * KMV sketches

    The sample sketches of [db/virtual_compaction/virtual_sst.h] and
    [virtual_sst.cc]: building range sketches from sorted keys, assembling and
    merging them, and the two union-size estimators.  A [KMVSample] is its only
    field, the fingerprint.  [std::push_heap] and [std::pop_heap] are an
    interface with the contract of the C++ standard.  The environment variables
    of the process are an argument. *)

From Stdlib Require Import ZArith Lia SpecFloat String Ascii Sorted.
From stdpp Require Import base numbers list sorting.
From S2P Require Import Prelude FloatModel FloatTheory KmvHash Plr.

Local Open Scope Z_scope.

(** ** Data *)

(** struct [KMVSketch]; a sample is its fingerprint. *)
Record KMVSketch := mkSketch {
  samples : list Z;
  theta_hash : Z;
  complete : bool;
}.

(** struct [KMVRangeSketch]. *)
Record KMVRangeSketch := mkRange {
  r_key_min : Z;
  r_key_max : Z;
  r_num_entries : Z;
  r_sketch : KMVSketch;
}.

(** struct [VirtualSST]. *)
Record VirtualSST := mkVSST {
  plr_model : model;
  kmv_ranges : list KMVRangeSketch;
  key_min : Z;
  key_max : Z;
  num_entries : Z;
  size_bytes : Z;
}.

Definition MaxHash : Z := u64_max.

(** The default-constructed [KMVSketch]. *)
Definition empty_sketch : KMVSketch := mkSketch [] MaxHash false.

(** [KMVSample::key]. *)
Definition sample_key (s : Z) : Z := KmvHash.KMVUnhash s.

(** ** Configuration from the environment *)

(** What [std::getenv] returns for the two variables ([None]: not set). *)
Record Env := mkEnv {
  VCOMP_KMV_SAMPLES : option string;
  VCOMP_KMV_RANGE_BUCKETS : option string;
}.

Definition kDefaultKMVSamples : Z := 512.
Definition kDefaultKMVRangeBuckets : Z := 8.

(** The digit loop of both functions; [None] is the early return of the
    default. *)
Fixpoint parse_size (p : string) (parsed : Z) : option Z :=
  match p with
  | EmptyString => Some parsed
  | String c p' =>
      let d := Z.of_nat (nat_of_ascii c) - 48 in
      if decide (d < 0) then None
      else if decide (9 < d) then None
      else if decide ((u64_max - d) / 10 < parsed) then None
      else parse_size p' (parsed *% 10 +% d)
  end.

Definition VirtualSSTKMVSamples (env : Env) : Z :=
  match VCOMP_KMV_SAMPLES env with
  | None | Some EmptyString => kDefaultKMVSamples
  | Some value =>
      match parse_size value 0 with
      | None => kDefaultKMVSamples
      | Some parsed => if decide (parsed = 0) then kDefaultKMVSamples else parsed
      end
  end.

Definition VirtualSSTKMVRangeBuckets (env : Env) : Z :=
  match VCOMP_KMV_RANGE_BUCKETS env with
  | None | Some EmptyString => kDefaultKMVRangeBuckets
  | Some value =>
      match parse_size value 0 with
      | None => kDefaultKMVRangeBuckets
      | Some parsed => if decide (parsed = 0) then kDefaultKMVRangeBuckets else parsed
      end
  end.

(** ** Sorting samples *)

(** [std::sort] by fingerprint; equal samples are identical, so the result does
    not depend on the algorithm. *)
Definition sort_by_hash (l : list Z) : list Z := merge_sort Z.le l.

(** [std::unique]: drop every element equal to its predecessor. *)
Fixpoint unique (l : list Z) : list Z :=
  match l with
  | [] => []
  | a :: l' =>
      match l' with
      | [] => [a]
      | b :: _ => if decide (a = b) then unique l' else a :: unique l'
      end
  end.

Definition SortUniqueByHash (l : list Z) : list Z :=
  match l with [] => [] | _ => unique (sort_by_hash l) end.

Definition SortByHashAndTrim (l : list Z) (max_samples : Z) : list Z :=
  match l with
  | [] => []
  | _ =>
      let s := sort_by_hash l in
      if decide (0 < max_samples) then
        if decide (max_samples < Z.of_nat (length s))
        then take (Z.to_nat max_samples) s else s
      else s
  end.

(** ** Heaps *)

(** [std::is_heap]: no element exceeds its parent. *)
Definition is_heap (h : list Z) : Prop :=
  forall i x p, (0 < i)%nat -> h !! i = Some x -> h !! ((i - 1) / 2)%nat = Some p -> x <= p.

Class HeapOps := {
  push_heap : list Z -> list Z;
  pop_heap : list Z -> list Z;
}.

(** The contract of the two algorithms: [push_heap] takes a heap followed by
    one element and makes a heap of all; [pop_heap] moves the front of a heap
    to the back and makes a heap of the rest. *)
Class HeapLaws `{HeapOps} := {
  push_heap_spec h x : is_heap h ->
    is_heap (push_heap (h ++ [x])) /\ push_heap (h ++ [x]) ≡ₚ x :: h;
  pop_heap_spec m h : is_heap (m :: h) ->
    exists h', pop_heap (m :: h) = h' ++ [m] /\ is_heap h' /\ h' ≡ₚ h;
}.

Section Build.
Context `{HeapOps}.

(** [samples.back() = sample]. *)
Definition set_back (l : list Z) (x : Z) : list Z :=
  <[(length l - 1)%nat := x]> l.

(** One key of the loop of [BuildKMVSketchFromSortedKeyRange]: the heap, the
    number of distinct keys so far and the last key ([have_last] is [Some]). *)
Definition build_step (max_samples : Z) (st : list Z * Z * option Z) (key : Z)
    : list Z * Z * option Z :=
  let '(heap, unique_count, last_key) := st in
  if decide (last_key = Some key) then st
  else
    let sample := KmvHash.KMVHash key in
    let heap' :=
      if decide (Z.of_nat (length heap) < max_samples)
      then push_heap (heap ++ [sample])
      else match heap with
           | [] => heap (* front() of an empty vector; needs max_samples = 0 *)
           | front :: _ =>
               if decide (sample < front)
               then push_heap (set_back (pop_heap heap) sample)
               else heap
           end in
    (heap', unique_count + 1, Some key).

Definition BuildKMVSketchFromSortedKeyRange (keys : list Z) (max_samples : Z) : KMVSketch :=
  match keys with
  | [] => empty_sketch
  | _ =>
      let '(heap, unique_count, _) :=
        fold_left (build_step max_samples) keys ([], 0, None) in
      let compl := bool_decide (unique_count <= max_samples) in
      let s := SortByHashAndTrim heap max_samples in
      let theta :=
        match compl, last s with
        | true, _ | _, None => MaxHash
        | false, Some back => back
        end in
      mkSketch s theta compl
  end.

(** Bucket [i] of [BuildKMVRangeSketchesFromSortedKeys]. *)
Definition build_range (sorted_keys : list Z) (range_count samples_per_range : Z) (i : nat)
    : option KMVRangeSketch :=
  let n := Z.of_nat (length sorted_keys) in
  let begin_idx := (n *% Z.of_nat i) / range_count in
  let end_idx := (n *% (Z.of_nat i + 1)) / range_count in
  if decide (end_idx <= begin_idx) then None
  else
    let b := Z.to_nat begin_idx in
    let e := Z.to_nat end_idx in
    Some (mkRange (sorted_keys !!! b) (sorted_keys !!! (e - 1)%nat)
      (end_idx - begin_idx)
      (BuildKMVSketchFromSortedKeyRange (take (e - b) (drop b sorted_keys))
         samples_per_range)).

Definition BuildKMVRangeSketchesFromSortedKeys (env : Env) (sorted_keys : list Z)
    (max_samples max_ranges : Z) : list KMVRangeSketch :=
  match sorted_keys with
  | [] => []
  | _ =>
      let max_samples := if decide (max_samples = 0) then VirtualSSTKMVSamples env else max_samples in
      let max_ranges := if decide (max_ranges = 0) then VirtualSSTKMVRangeBuckets env else max_ranges in
      let range_count := Z.min max_ranges (Z.of_nat (length sorted_keys)) in
      if decide (range_count = 0) then []
      else
        let samples_per_range := Z.max 1 (max_samples / range_count) in
        omap (build_range sorted_keys range_count samples_per_range)
          (seq 0 (Z.to_nat range_count))
  end.

End Build.

(** ** Sorting lemmas *)

Lemma sort_perm l : sort_by_hash l ≡ₚ l.
Proof. apply merge_sort_Permutation. Qed.

Lemma sort_sorted l : StronglySorted Z.le (sort_by_hash l).
Proof. apply StronglySorted_merge_sort; apply _. Qed.

Lemma sort_length l : length (sort_by_hash l) = length l.
Proof. apply Permutation_length, sort_perm. Qed.

Lemma sort_unique l l' : StronglySorted Z.le l' -> l' ≡ₚ l -> sort_by_hash l = l'.
Proof.
  intros Hs Hp. apply (StronglySorted_unique Z.le); [apply sort_sorted|done|].
  rewrite sort_perm. by symmetry.
Qed.

Lemma sort_proper l l' : l ≡ₚ l' -> sort_by_hash l = sort_by_hash l'.
Proof. intros Hp. apply sort_unique; [apply sort_sorted|]. by rewrite sort_perm. Qed.

Lemma sorted_app_iff (l1 l2 : list Z) :
  StronglySorted Z.le (l1 ++ l2) <->
  StronglySorted Z.le l1 /\ StronglySorted Z.le l2 /\
  (forall x y, x ∈ l1 -> y ∈ l2 -> x <= y).
Proof. rewrite StronglySorted_app. tauto. Qed.

(** A list followed by elements that are not smaller sorts to its sorted form
    followed by theirs. *)
Lemma sort_app l1 l2 : (forall x y, x ∈ l1 -> y ∈ l2 -> x <= y) ->
  sort_by_hash (l1 ++ l2) = sort_by_hash l1 ++ sort_by_hash l2.
Proof.
  intros Hle. apply sort_unique; [|by rewrite !sort_perm].
  apply sorted_app_iff. repeat split; try apply sort_sorted.
  intros x y Hx Hy. rewrite sort_perm in Hx, Hy. auto.
Qed.

Lemma sort_id l : StronglySorted Z.le l -> sort_by_hash l = l.
Proof. intros. by apply sort_unique. Qed.

(** The [k] smallest of a list, sorted. *)
Definition kmin (k : nat) (l : list Z) : list Z := take k (sort_by_hash l).

Lemma kmin_short k l : (length l <= k)%nat -> kmin k l = sort_by_hash l.
Proof. intros Hl. apply take_ge. by rewrite sort_length. Qed.

(** The [k] smallest can be computed keeping only the [k] smallest so far. *)
Lemma kmin_cons k x l : kmin k (x :: l) = kmin k (x :: kmin k l).
Proof.
  unfold kmin. set (T := take k (sort_by_hash l)). set (U := drop k (sort_by_hash l)).
  assert (Hl : l ≡ₚ T ++ U) by (unfold T, U; by rewrite take_drop, sort_perm).
  pose proof (sort_sorted l) as Hs. rewrite <- (take_drop k (sort_by_hash l)) in Hs.
  fold T U in Hs. apply sorted_app_iff in Hs as (HT & HU & HTU).
  rewrite (sort_proper (x :: l) ((x :: T) ++ U)) by (cbn; by rewrite Hl).
  destruct (decide (U = [])) as [->|Hne]; [by rewrite app_nil_r|].
  assert (Hlen : length T = k).
  { unfold T. apply length_take_le. unfold U in Hne.
    destruct (decide (k <= length (sort_by_hash l))%nat); [done|].
    rewrite drop_ge in Hne by lia. done. }
  destruct (decide (Forall (fun u => x <= u) U)) as [Hx|Hx].
  - rewrite sort_app, take_app_le; [done|rewrite sort_length; cbn; lia|].
    rewrite Forall_forall in Hx. intros a u [->|Ha]%elem_of_cons Hu; auto.
  - assert (HxT : forall t, t ∈ T -> t <= x).
    { intros t Ht. apply not_Forall_Exists in Hx; [|apply _].
      apply Exists_exists in Hx as (u & Hu & Hux). specialize (HTU t u Ht Hu). cbn in Hux. lia. }
    rewrite (sort_proper _ (T ++ x :: U)) by (cbn; apply Permutation_middle).
    rewrite (sort_proper (x :: T) (T ++ [x])) by (apply Permutation_cons_append).
    rewrite (sort_app T (x :: U)), (sort_app T [x]), (sort_id T HT).
    + by rewrite !take_app_le, !take_ge by lia.
    + intros t y Ht ->%list_elem_of_singleton. auto.
    + intros t y Ht [->|Hy]%elem_of_cons; auto.
Qed.

(** ** Heap lemmas *)

Lemma heap_front_max h m x : is_heap (m :: h) -> x ∈ h -> x <= m.
Proof.
  intros Hh Hx. apply list_elem_of_lookup in Hx as [i Hi].
  assert (Hall : forall j y, (m :: h) !! j = Some y -> y <= m); [|apply (Hall (S i) x Hi)].
  clear i x Hi. intros j. induction (lt_wf j) as [j _ IH]. intros y Hy.
  destruct j as [|j]; [cbn in Hy; injection Hy as ->; lia|].
  destruct (lookup_lt_is_Some_2 (m :: h) (j / 2)%nat) as [p Hp].
  { apply lookup_lt_Some in Hy. pose proof (half_le j). cbn in *. lia. }
  pose proof (half_le j).
  assert (y <= p) by (apply (Hh (S j)); [lia|done|by replace (S j - 1)%nat with j by lia]).
  specialize (IH (j / 2)%nat ltac:(lia) p Hp). lia.
Qed.

Lemma nil_heap : is_heap [].
Proof. intros i x p _ Hx. done. Qed.

(** Sorting in descending order satisfies the contract. *)
Definition sort_desc (l : list Z) : list Z := reverse (sort_by_hash l).

Lemma sort_desc_perm l : sort_desc l ≡ₚ l.
Proof. unfold sort_desc. by rewrite reverse_Permutation, sort_perm. Qed.

Lemma sort_desc_heap l : is_heap (sort_desc l).
Proof.
  intros i x p Hi Hx Hp. pose proof (lookup_lt_Some _ _ _ Hx) as Hlt.
  unfold sort_desc in *. rewrite length_reverse in Hlt.
  assert ((i - 1) / 2 < i)%nat by (pose proof (half_le (i - 1)); lia).
  rewrite reverse_lookup in Hx, Hp by lia.
  refine (StronglySorted_lookup Z.le _ _ _ x p (sort_sorted l) _ Hx Hp). lia.
Qed.

#[export] Instance sorting_heap : HeapOps := {|
  push_heap := sort_desc;
  pop_heap l := match l with [] => [] | m :: h => sort_desc h ++ [m] end;
|}.

#[export] Instance sorting_heap_laws : @HeapLaws sorting_heap.
Proof.
  split.
  - intros h x _. split; [apply sort_desc_heap|]. cbn. rewrite sort_desc_perm.
    symmetry. apply Permutation_cons_append.
  - intros m h _. exists (sort_desc h). repeat split; [apply sort_desc_heap|apply sort_desc_perm].
Qed.

(** ** What a sketch represents *)

(** The sketch of a key set [K]: its samples are, in increasing order, exactly
    the fingerprints of keys of [K] up to [theta_hash]; a complete sketch has
    all of them. *)
Definition sketch_sound (K : Z -> Prop) (sk : KMVSketch) : Prop :=
  StronglySorted Z.lt (samples sk) /\
  (forall h, h ∈ samples sk <-> is_u64 h /\ h <= theta_hash sk /\ K (sample_key h)) /\
  (complete sk = true -> theta_hash sk = MaxHash).

Lemma sketch_sound_ext K K' sk :
  (forall k, is_u64 k -> K k <-> K' k) -> sketch_sound K sk -> sketch_sound K' sk.
Proof.
  intros HK (Hs & Hin & Hc). split; [done|]. split; [|done]. intros h. rewrite Hin.
  split; intros (Hu & Ht & Hk); split_and!; try done; eapply HK; try done;
    apply KmvHash.KMVUnhash_u64; done.
Qed.

Lemma strict_sorted_nodup l : StronglySorted Z.le l -> NoDup l -> StronglySorted Z.lt l.
Proof.
  induction 1 as [|x l Hs IH Hall]; [constructor|]. rewrite NoDup_cons. intros [Hx Hnd].
  constructor; [auto|]. rewrite Forall_forall in Hall |- *. intros y Hy.
  specialize (Hall y Hy). assert (x <> y) by (intros ->; done). lia.
Qed.

Lemma lt_sorted_le l : StronglySorted Z.lt l -> StronglySorted Z.le l.
Proof.
  induction 1 as [|x l Hs IH Hall]; constructor; [done|].
  eapply Forall_impl; [done|]. cbn. lia.
Qed.

Lemma lt_sorted_nodup l : StronglySorted Z.lt l -> NoDup l.
Proof.
  induction 1 as [|x l Hs IH Hall]; constructor; [|done].
  rewrite Forall_forall in Hall. intros Hx. specialize (Hall x Hx). lia.
Qed.

Lemma sort_nodup_strict l : NoDup l -> StronglySorted Z.lt (sort_by_hash l).
Proof. intros Hnd. apply strict_sorted_nodup; [apply sort_sorted|by rewrite sort_perm]. Qed.

(** Cutting a strictly increasing list keeps the elements up to the last kept
    one. *)
Lemma take_threshold k l t h : StronglySorted Z.lt l -> last (take k l) = Some t ->
  h ∈ take k l <-> h ∈ l /\ h <= t.
Proof.
  intros Hs Hlast. rewrite <- (take_drop k l) in Hs.
  assert (Hin : h ∈ l <-> h ∈ take k l \/ h ∈ drop k l)
    by (rewrite <- elem_of_app; by rewrite take_drop).
  apply last_Some in Hlast as [T HT]. rewrite HT in *.
  apply StronglySorted_app in Hs as (Hcross & Hs1 & Hs2).
  apply StronglySorted_app in Hs1 as (Hl & _ & _).
  rewrite elem_of_app, list_elem_of_singleton in *. split.
  - intros Hh. split; [tauto|]. destruct Hh as [Hh| ->]; [|lia].
    specialize (Hl h t Hh ltac:(by left)). lia.
  - intros [Hh Hle]. apply Hin in Hh as [Hh|Hh]; [done|].
    specialize (Hcross t h). rewrite elem_of_app, list_elem_of_singleton in Hcross.
    specialize (Hcross ltac:(tauto) Hh). lia.
Qed.

Lemma take_sorted (R : relation Z) k l : StronglySorted R l -> StronglySorted R (take k l).
Proof.
  intros Hs. rewrite <- (take_drop k l) in Hs. by apply StronglySorted_app in Hs as (_ & ? & _).
Qed.

(** ** Building a sketch *)

Section BuildProofs.
Context `{HeapLaws}.

(** The keys that the loop counts: those different from their predecessor. *)
Fixpoint skip_repeats (last_key : option Z) (keys : list Z) : list Z :=
  match keys with
  | [] => []
  | key :: keys' =>
      if decide (last_key = Some key) then skip_repeats last_key keys'
      else key :: skip_repeats (Some key) keys'
  end.

Lemma heap_step max_samples h l x : 1 <= max_samples ->
  let k := Z.to_nat max_samples in
  is_heap h -> sort_by_hash h = kmin k l ->
  let h' := if decide (Z.of_nat (length h) < max_samples)
            then push_heap (h ++ [x])
            else match h with
                 | [] => h
                 | front :: _ =>
                     if decide (x < front) then push_heap (set_back (pop_heap h) x) else h
                 end in
  is_heap h' /\ sort_by_hash h' = kmin k (x :: l).
Proof.
  intros Hms k Hh Hsort h'.
  assert (Hgoal : kmin k (x :: l) = kmin k (x :: h)).
  { rewrite kmin_cons, <- Hsort. unfold kmin. f_equal. apply sort_proper. by rewrite sort_perm. }
  assert (Hlen : (length h <= k)%nat).
  { rewrite <- (sort_length h), Hsort. unfold kmin. rewrite length_take. lia. }
  rewrite Hgoal. unfold h'. clear h' Hgoal.
  destruct (decide (Z.of_nat (length h) < max_samples)) as [Hlt|Hge].
  - destruct (push_heap_spec h x Hh) as [Hp Hperm]. split; [done|].
    rewrite (sort_proper _ _ Hperm), kmin_short; [done|]. cbn. lia.
  - destruct h as [|m h]; [cbn in Hge; lia|].
    assert (Hk : k = S (length h)) by (cbn in *; lia).
    pose proof (fun y => heap_front_max h m y Hh) as Hmax.
    destruct (decide (x < m)) as [Hxm|Hxm].
    + destruct (pop_heap_spec m h Hh) as (h' & -> & Hh' & Hp).
      unfold set_back. rewrite length_app. cbn [length].
      replace (length h' + 1 - 1)%nat with (length h' + 0)%nat by lia.
      rewrite insert_app_r. cbn [insert list_insert].
      destruct (push_heap_spec h' x Hh') as [Hp2 Hperm]. split; [done|].
      rewrite (sort_proper _ _ Hperm). unfold kmin.
      rewrite (sort_proper (x :: m :: h) ((x :: h) ++ [m])) by
        (rewrite Permutation_swap; apply Permutation_cons_append).
      rewrite sort_app, take_app_le, take_ge; rewrite ?sort_length; cbn [length]; try lia.
      * apply sort_proper. by rewrite Hp.
      * intros a b Ha ->%list_elem_of_singleton. apply elem_of_cons in Ha as [->|Ha]; [lia|auto].
    + split; [done|]. unfold kmin.
      rewrite (sort_proper (x :: m :: h) ((m :: h) ++ [x])) by apply Permutation_cons_append.
      rewrite sort_app, take_app_le, take_ge; rewrite ?sort_length; cbn [length]; try lia; [done|].
      intros a b Ha ->%list_elem_of_singleton. apply elem_of_cons in Ha as [->|Ha]; [lia|].
      specialize (Hmax a Ha). lia.
Qed.

Lemma build_loop max_samples : 1 <= max_samples -> forall keys h cnt lk l,
  is_heap h -> sort_by_hash h = kmin (Z.to_nat max_samples) l -> cnt = Z.of_nat (length l) ->
  let new := KmvHash.KMVHash <$> skip_repeats lk keys in
  let '(h', cnt', _) := fold_left (build_step max_samples) keys (h, cnt, lk) in
  sort_by_hash h' = kmin (Z.to_nat max_samples) (reverse new ++ l) /\
  cnt' = Z.of_nat (length (reverse new ++ l)).
Proof.
  intros Hms. induction keys as [|key keys IH]; intros h cnt lk l Hh Hs Hcnt; cbn [fold_left skip_repeats].
  { cbn. done. }
  unfold build_step at 2. destruct (decide (lk = Some key)) as [Hlk|Hlk]; [by apply IH|].
  destruct (heap_step max_samples h l (KmvHash.KMVHash key) Hms Hh Hs) as [Hh' Hs'].
  specialize (IH _ (cnt + 1) (Some key) (KmvHash.KMVHash key :: l) Hh' Hs' ltac:(cbn; lia)).
  rewrite fmap_cons, reverse_cons, <- app_assoc. exact IH.
Qed.

Lemma skip_repeats_elem keys : forall lk k,
  (k ∈ skip_repeats lk keys -> k ∈ keys) /\
  (k ∈ keys -> k ∈ skip_repeats lk keys \/ lk = Some k).
Proof.
  induction keys as [|key keys IH]; intros lk k; cbn [skip_repeats]; [split; [done|by intros ?%not_elem_of_nil]|].
  rewrite elem_of_cons. destruct (decide (lk = Some key)) as [->|Hne].
  - specialize (IH (Some key) k). split; [tauto|]. intros [->|Hk]; [by right|tauto].
  - specialize (IH (Some key) k). rewrite elem_of_cons. split; [tauto|].
    intros [->|Hk]; [tauto|]. destruct IH as [_ IH]. destruct (IH Hk) as [|[= ->]]; tauto.
Qed.

Lemma skip_repeats_sorted keys : StronglySorted Z.le keys -> forall lk,
  (forall a, lk = Some a -> Forall (fun k => a <= k) keys) ->
  StronglySorted Z.lt (skip_repeats lk keys) /\
  (forall a, lk = Some a -> Forall (fun k => a < k) (skip_repeats lk keys)).
Proof.
  induction 1 as [|key keys Hs IH Hall]; intros lk Hlk; cbn [skip_repeats].
  { split; [constructor|]. constructor. }
  assert (HSome : forall a, Some key = Some a -> Forall (fun k => a <= k) keys)
    by (intros a [= <-]; exact Hall).
  destruct (IH (Some key) HSome) as [Hss Hgt].
  destruct (decide (lk = Some key)) as [->|Hne]; [done|].
  specialize (Hgt key eq_refl). split; [by constructor|].
  intros a Ha. specialize (Hlk a Ha). apply Forall_cons_iff in Hlk as [Hak _].
  assert (a <> key) by (intros ->; done).
  constructor; [lia|]. eapply Forall_impl; [exact Hgt|]. cbn. lia.
Qed.

Lemma fmap_hash_nodup l : Forall is_u64 l -> NoDup l -> NoDup (KmvHash.KMVHash <$> l).
Proof.
  intros Hu Hnd. apply NoDup_fmap_2_strong; [|done].
  rewrite Forall_forall in Hu. intros x y Hx Hy Heq. apply KmvHash.KMVHash_inj; auto.
Qed.

Lemma elem_hash_iff (l : list Z) h : Forall is_u64 l ->
  h ∈ KmvHash.KMVHash <$> l <-> is_u64 h /\ sample_key h ∈ l.
Proof.
  intros Hu. rewrite Forall_forall in Hu. rewrite list_elem_of_fmap. split.
  - intros (k & -> & Hk). split; [apply KmvHash.KMVHash_u64|].
    unfold sample_key. by rewrite KmvHash.KMVUnhash_KMVHash by auto.
  - intros [Hh Hk]. exists (sample_key h). split; [|done].
    unfold sample_key. by rewrite KmvHash.KMVHash_KMVUnhash.
Qed.

(** The distinct fingerprints of the keys, smallest first, cut to the budget. *)
Lemma Build_reference keys max_samples : 1 <= max_samples -> keys <> [] ->
  let hs := KmvHash.KMVHash <$> skip_repeats None keys in
  let s := kmin (Z.to_nat max_samples) hs in
  let c := bool_decide (Z.of_nat (length hs) <= max_samples) in
  BuildKMVSketchFromSortedKeyRange keys max_samples =
    mkSketch s (match c, last s with true, _ | _, None => MaxHash | _, Some b => b end) c.
Proof.
  intros Hms Hne. cbn zeta. unfold BuildKMVSketchFromSortedKeyRange.
  destruct keys as [|key keys]; [done|].
  pose proof (build_loop max_samples Hms (key :: keys) [] 0 None [] nil_heap) as Hb.
  cbn zeta in Hb. destruct (fold_left _ _ _) as [[h cnt] lk].
  destruct Hb as [Hs Hcnt]; [by rewrite kmin_short by (cbn; lia)|done|].
  rewrite app_nil_r in Hs, Hcnt. rewrite length_reverse in Hcnt. subst cnt.
  set (hs := KmvHash.KMVHash <$> skip_repeats None (key :: keys)) in *.
  assert (Hk : sort_by_hash h = kmin (Z.to_nat max_samples) hs).
  { rewrite Hs. unfold kmin. f_equal. apply sort_proper, reverse_Permutation. }
  assert (Ht : SortByHashAndTrim h max_samples = kmin (Z.to_nat max_samples) hs).
  { rewrite <- Hk. unfold SortByHashAndTrim. destruct h as [|x h]; [done|].
    rewrite decide_True by lia. rewrite decide_False; [done|].
    rewrite Hk. unfold kmin. rewrite length_take. lia. }
  by rewrite Ht.
Qed.

Lemma Build_sound_gen keys max_samples : 1 <= max_samples ->
  StronglySorted Z.le keys -> Forall is_u64 keys ->
  sketch_sound (fun k => k ∈ keys) (BuildKMVSketchFromSortedKeyRange keys max_samples).
Proof.
  intros Hms Hs Hu. destruct (decide (keys = [])) as [->|Hne].
  { split; [constructor|]. split; [|done]. cbn. intros h. split; [by intros ?%not_elem_of_nil|].
    by intros (_ & _ & ?%not_elem_of_nil). }
  rewrite Build_reference by done. set (ks := skip_repeats None keys).
  destruct (skip_repeats_sorted keys Hs None) as [Hss _]; [done|]. fold ks in Hss.
  assert (Hel : forall k, k ∈ ks <-> k ∈ keys).
  { intros k. destruct (skip_repeats_elem keys None k) as [H1 H2]. fold ks in H1, H2.
    split; [done|]. intros Hk. by destruct (H2 Hk). }
  assert (Huk : Forall is_u64 ks).
  { rewrite Forall_forall in Hu |- *. intros k Hk. by apply Hu, Hel. }
  set (hs := KmvHash.KMVHash <$> ks).
  assert (Hnd : NoDup hs) by (apply fmap_hash_nodup; [done|by apply lt_sorted_nodup]).
  pose proof (sort_nodup_strict hs Hnd) as Hst.
  assert (Hin : forall h, h ∈ sort_by_hash hs <-> is_u64 h /\ sample_key h ∈ keys).
  { intros h. rewrite sort_perm. unfold hs. by rewrite elem_hash_iff, Hel. }
  unfold sketch_sound, kmin. cbn [samples theta_hash complete].
  split; [by apply take_sorted|]. case_bool_decide as Hc.
  - rewrite take_ge by (rewrite sort_length; lia). split; [|done].
    intros h. rewrite Hin. unfold MaxHash, is_u64. tauto.
  - split; [|done]. destruct (last _) as [t|] eqn:Hlast.
    + intros h. rewrite (take_threshold _ _ t) by done. rewrite Hin. tauto.
    + apply last_None in Hlast. apply (f_equal length) in Hlast.
      rewrite length_take, sort_length in Hlast. cbn in Hlast. lia.
Qed.

(** A sketch is complete exactly when it dropped no key. *)
Lemma Build_complete_iff keys max_samples : 1 <= max_samples ->
  StronglySorted Z.le keys -> Forall is_u64 keys -> keys <> [] ->
  let sk := BuildKMVSketchFromSortedKeyRange keys max_samples in
  complete sk = true <-> forall k, k ∈ keys -> KmvHash.KMVHash k ∈ samples sk.
Proof.
  intros Hms Hs Hu Hne. cbn zeta. rewrite Build_reference by done.
  cbn [samples complete]. rewrite bool_decide_eq_true, length_fmap.
  set (ks := skip_repeats None keys). set (hs := KmvHash.KMVHash <$> ks).
  pose proof (skip_repeats_elem keys None) as Hel. fold ks in Hel.
  destruct (skip_repeats_sorted keys Hs None) as [Hss _]; [done|]. fold ks in Hss.
  split.
  - intros Hle k Hk. rewrite kmin_short by (unfold hs; rewrite length_fmap; lia).
    rewrite sort_perm. apply list_elem_of_fmap_2. by destruct (Hel k) as [_ [|]].
  - intros Hall.
    assert (Hsub : hs ⊆ kmin (Z.to_nat max_samples) hs).
    { intros h (k & -> & Hk)%list_elem_of_fmap. apply Hall. by apply (Hel k). }
    assert (Hnd : NoDup hs).
    { apply fmap_hash_nodup; [|by apply lt_sorted_nodup].
      rewrite Forall_forall in Hu |- *. intros k Hk. by apply Hu, (Hel k). }
    pose proof (submseteq_length _ _ (NoDup_submseteq _ _ Hnd Hsub)) as Hlen.
    unfold kmin in Hlen. rewrite length_take in Hlen. unfold hs in Hlen.
    rewrite length_fmap in Hlen. lia.
Qed.

End BuildProofs.

(** ** Range sketches *)

(** A list of range sketches represents the key set [K]: every bucket is the
    sketch of the keys in its range, a bucket with keys counts at least one
    entry, and every key is in some bucket. *)
Definition in_range (r : KMVRangeSketch) (k : Z) : Prop := r_key_min r <= k <= r_key_max r.

Definition range_sound (K : Z -> Prop) (r : KMVRangeSketch) : Prop :=
  sketch_sound (fun k => K k /\ in_range r k) (r_sketch r) /\
  (forall k, K k -> in_range r k -> 1 <= r_num_entries r) /\
  r_key_min r <= r_key_max r /\ is_u64 (r_key_min r) /\ is_u64 (r_key_max r) /\
  is_u64 (r_num_entries r).

Definition ranges_sound (K : Z -> Prop) (ranges : list KMVRangeSketch) : Prop :=
  Forall (range_sound K) ranges /\
  forall k, K k -> exists r, r ∈ ranges /\ in_range r k.

(** Elements from index [b] to index [e]. *)
Definition slice {A} (b e : nat) (l : list A) : list A := take (e - b) (drop b l).

Lemma slice_lookup {A} b e (l : list A) i :
  slice b e l !! i = if decide (i < e - b)%nat then l !! (b + i)%nat else None.
Proof.
  unfold slice. destruct (decide (i < e - b)%nat).
  - by rewrite lookup_take_lt, lookup_drop by lia.
  - apply lookup_take_ge. lia.
Qed.

Lemma take_slice {A} b e (l : list A) : (b <= e)%nat -> take b l ++ slice b e l = take e l.
Proof.
  intros Hbe. unfold slice. rewrite <- (take_drop b (take e l)).
  rewrite take_take. replace (b `min` e)%nat with b by lia.
  by rewrite <- skipn_firstn_comm.
Qed.

Lemma sorted_slice (R : relation Z) b e l : StronglySorted R l -> StronglySorted R (slice b e l).
Proof.
  intros Hs. unfold slice. apply take_sorted.
  rewrite <- (take_drop b l) in Hs. by apply StronglySorted_app in Hs as (_ & _ & ?).
Qed.

(** The elements of a slice of increasing keys are the keys between its ends. *)
Lemma slice_range keys b e lo hi k : StronglySorted Z.lt keys ->
  (b < e)%nat -> keys !! b = Some lo -> keys !! (e - 1)%nat = Some hi ->
  k ∈ slice b e keys <-> k ∈ keys /\ lo <= k <= hi.
Proof.
  intros Hs Hbe Hlo Hhi. rewrite !list_elem_of_lookup. split.
  - intros [i Hi]. rewrite slice_lookup in Hi. case_decide; [|done].
    split; [by eexists|]. split.
    + eapply (sorted_lookup_le keys b (b + i)); eauto. lia.
    + eapply (sorted_lookup_le keys (b + i) (e - 1)); eauto. lia.
  - intros [[i Hi] [H1 H2]].
    assert (b <= i)%nat.
    { destruct (decide (i < b)%nat); [|lia].
      pose proof (StronglySorted_lookup _ _ _ _ _ _ Hs l Hi Hlo). lia. }
    assert (i <= e - 1)%nat.
    { destruct (decide (e - 1 < i)%nat); [|lia].
      pose proof (StronglySorted_lookup _ _ _ _ _ _ Hs l Hhi Hi). lia. }
    exists (i - b)%nat. rewrite slice_lookup, decide_True by lia.
    by replace (b + (i - b))%nat with i by lia.
Qed.

(** Equal-count bucket boundaries. *)
Lemma bucket_idx_strict n rc i : 0 < rc <= n -> 0 <= i ->
  n * i / rc < n * (i + 1) / rc.
Proof.
  intros Hrc Hi. apply Z.le_succ_l, Z.div_le_lower_bound; [lia|].
  pose proof (Z.mul_div_le (n * i) rc ltac:(lia)). lia.
Qed.

Lemma bucket_idx_le n rc i : 0 < rc -> 0 <= i <= rc -> 0 <= n -> 0 <= n * i / rc <= n.
Proof.
  intros Hrc Hi Hn. split; [apply Z.div_pos; nia|].
  apply Z.div_le_upper_bound; nia.
Qed.

Section BuildRanges.
Context `{HeapLaws}.
Context (keys : list Z) (rc spr : Z).
Context (Hkeys : StronglySorted Z.lt keys) (Hu64 : Forall is_u64 keys).
Context (Hn : Z.of_nat (length keys) < 2 ^ 32) (Hrc : 0 < rc <= Z.of_nat (length keys)).
Context (Hspr : 1 <= spr).

(** First index of bucket [i]. *)
Definition bidx (i : nat) : nat := Z.to_nat (Z.of_nat (length keys) * Z.of_nat i / rc).

Definition bucket (i : nat) : list Z := slice (bidx i) (bidx (i + 1)) keys.

Lemma bidx_bounds i : (i < Z.to_nat rc)%nat -> (bidx i < bidx (i + 1) <= length keys)%nat.
Proof.
  intros Hi. unfold bidx.
  pose proof (bucket_idx_strict (Z.of_nat (length keys)) rc (Z.of_nat i) Hrc ltac:(lia)).
  pose proof (bucket_idx_le (Z.of_nat (length keys)) rc (Z.of_nat i) ltac:(lia) ltac:(lia) ltac:(lia)).
  pose proof (bucket_idx_le (Z.of_nat (length keys)) rc (Z.of_nat i + 1) ltac:(lia) ltac:(lia) ltac:(lia)).
  replace (Z.of_nat (i + 1)) with (Z.of_nat i + 1) by lia. lia.
Qed.

Lemma bidx_last : bidx (Z.to_nat rc) = length keys.
Proof. unfold bidx. rewrite Z2Nat.id, Z.div_mul by lia. lia. Qed.

Lemma bucket_concat m : (m <= Z.to_nat rc)%nat ->
  concat (bucket <$> seq 0 m) = take (bidx m) keys.
Proof.
  induction m as [|m IH]; intros Hm.
  { unfold bidx. rewrite Z.mul_0_r, Z.div_0_l by lia. done. }
  rewrite seq_S, fmap_app, concat_app, IH by lia. cbn. rewrite app_nil_r.
  unfold bucket. rewrite take_slice; [by rewrite Nat.add_1_r|].
  pose proof (bidx_bounds m). lia.
Qed.

Lemma build_range_some i : (i < Z.to_nat rc)%nat ->
  exists r lo hi, build_range keys rc spr i = Some r /\
    keys !! bidx i = Some lo /\ keys !! (bidx (i + 1) - 1)%nat = Some hi /\
    r = mkRange lo hi (Z.of_nat (length (bucket i)))
          (BuildKMVSketchFromSortedKeyRange (bucket i) spr).
Proof.
  intros Hi. pose proof (bidx_bounds i Hi) as Hb.
  destruct (lookup_lt_is_Some_2 keys (bidx i)) as [lo Hlo]; [lia|].
  destruct (lookup_lt_is_Some_2 keys (bidx (i + 1) - 1)) as [hi Hhi]; [lia|].
  assert (Hlen : length (bucket i) = (bidx (i + 1) - bidx i)%nat).
  { unfold bucket, slice. rewrite length_take, length_drop. lia. }
  eexists _, lo, hi. split; [|split; [done|split; [done|reflexivity]]].
  unfold build_range. rewrite !u64_small by (unfold is_u64, u64_max; nia).
  replace (Z.of_nat i + 1) with (Z.of_nat (i + 1)) by lia.
  fold (bidx i). fold (bidx (i + 1)). rewrite decide_False by (unfold bidx in Hb; lia).
  fold (slice (bidx i) (bidx (i + 1)) keys). fold (bucket i).
  rewrite (list_lookup_total_correct _ _ _ Hlo), (list_lookup_total_correct _ _ _ Hhi).
  do 2 f_equal. rewrite Hlen. unfold bidx in Hb |- *.
  pose proof (bucket_idx_le (Z.of_nat (length keys)) rc (Z.of_nat i) ltac:(lia) ltac:(lia) ltac:(lia)).
  lia.
Qed.

Lemma bucket_elem i lo hi k : (i < Z.to_nat rc)%nat ->
  keys !! bidx i = Some lo -> keys !! (bidx (i + 1) - 1)%nat = Some hi ->
  k ∈ bucket i <-> k ∈ keys /\ lo <= k <= hi.
Proof. intros Hi Hlo Hhi. apply slice_range; auto. apply (bidx_bounds i Hi). Qed.

Lemma build_range_sound i r : (i < Z.to_nat rc)%nat -> build_range keys rc spr i = Some r ->
  range_sound (fun k => k ∈ keys) r.
Proof.
  intros Hi Hr. destruct (build_range_some i Hi) as (r' & lo & hi & Hr' & Hlo & Hhi & ->).
  rewrite Hr in Hr'. injection Hr' as ->.
  pose proof (fun k => bucket_elem i lo hi k Hi Hlo Hhi) as Hel.
  assert (Hbu : Forall is_u64 (bucket i)).
  { rewrite Forall_forall in Hu64 |- *. intros k Hk. by apply Hu64, Hel. }
  assert (Hlen : (length (bucket i) <= length keys)%nat).
  { unfold bucket, slice. rewrite length_take, length_drop. lia. }
  rewrite Forall_lookup in Hu64.
  unfold range_sound, in_range. cbn. split_and!.
  - eapply sketch_sound_ext; [|apply Build_sound_gen; [done| |done]].
    + intros k _. cbn. apply Hel.
    + apply lt_sorted_le. by apply sorted_slice.
  - intros k Hk Hin. assert (Hkb : k ∈ bucket i) by (by apply Hel).
    destruct (bucket i); [by apply not_elem_of_nil in Hkb|]. cbn. lia.
  - eapply (sorted_lookup_le keys (bidx i) (bidx (i + 1) - 1)); eauto.
    pose proof (bidx_bounds i Hi). lia.
  - by eapply Hu64.
  - by eapply Hu64.
  - unfold is_u64, u64_max. lia.
Qed.

End BuildRanges.

Lemma omap_Forall2 {A B} (P : A -> Prop) (g : A -> option B) l :
  (forall x, x ∈ l -> P x /\ is_Some (g x)) ->
  Forall2 (fun x y => P x /\ g x = Some y) l (omap g l).
Proof.
  induction l as [|x l IH]; intros Hall; [constructor|].
  destruct (Hall x ltac:(by left)) as [HP [y Hy]]. cbn. rewrite Hy.
  constructor; [done|]. apply IH. intros z Hz. apply Hall. by right.
Qed.

Lemma parse_size_nonneg p : forall acc r, 0 <= acc -> parse_size p acc = Some r -> 0 <= r <= u64_max \/ r = acc.
Proof.
  induction p as [|c p IH]; intros acc r Hacc; cbn [parse_size]; [intros [= ->]; by right|].
  repeat case_decide; try done. intros Hr.
  destruct (IH (acc *% 10 +% (Z.of_nat (nat_of_ascii c) - 48)) r) as [| ->];
    [apply (u64_range _)|done|by left|left; apply (u64_range _)].
Qed.

Lemma VirtualSSTKMVSamples_pos env : 1 <= VirtualSSTKMVSamples env.
Proof.
  unfold VirtualSSTKMVSamples, kDefaultKMVSamples. destruct (VCOMP_KMV_SAMPLES env) as [ [|c p] |]; try lia.
  destruct (parse_size _ _) as [r|] eqn:Hp; [|lia].
  apply parse_size_nonneg in Hp; [|lia]. case_decide; lia.
Qed.

Lemma VirtualSSTKMVRangeBuckets_pos env : 1 <= VirtualSSTKMVRangeBuckets env.
Proof.
  unfold VirtualSSTKMVRangeBuckets, kDefaultKMVRangeBuckets.
  destruct (VCOMP_KMV_RANGE_BUCKETS env) as [ [|c p] |]; try lia.
  destruct (parse_size _ _) as [r|] eqn:Hp; [|lia].
  apply parse_size_nonneg in Hp; [|lia]. case_decide; lia.
Qed.

(** The budgets in force: an argument of 0 means the configured default. *)
Definition eff_samples (env : Env) (n : Z) : Z :=
  if decide (n = 0) then VirtualSSTKMVSamples env else n.
Definition eff_ranges (env : Env) (n : Z) : Z :=
  if decide (n = 0) then VirtualSSTKMVRangeBuckets env else n.

Definition sum_entries (ranges : list KMVRangeSketch) : Z :=
  foldr (fun r acc => r_num_entries r + acc) 0 ranges.
Definition sum_samples (ranges : list KMVRangeSketch) : Z :=
  foldr (fun r acc => Z.of_nat (length (samples (r_sketch r))) + acc) 0 ranges.

Lemma Build_samples_length `{HeapLaws} keys ms : 1 <= ms ->
  Z.of_nat (length (samples (BuildKMVSketchFromSortedKeyRange keys ms))) <= ms.
Proof.
  intros Hms. destruct (decide (keys = [])) as [->|]; [cbn; lia|].
  rewrite Build_reference by done. cbn [samples]. unfold kmin. rewrite length_take. lia.
Qed.

Section BuildRangesResult.
Context `{HeapLaws}.

Lemma build_ranges_Forall2 keys rc spr :
  StronglySorted Z.lt keys -> Forall is_u64 keys -> Z.of_nat (length keys) < 2 ^ 32 ->
  0 < rc <= Z.of_nat (length keys) -> 1 <= spr ->
  Forall2 (fun i r => (i < Z.to_nat rc)%nat /\ build_range keys rc spr i = Some r)
    (seq 0 (Z.to_nat rc)) (omap (build_range keys rc spr) (seq 0 (Z.to_nat rc))).
Proof.
  intros Hk Hu Hn Hrc Hspr.
  apply omap_Forall2. intros i Hi%elem_of_seq. split; [lia|].
  destruct (build_range_some keys rc spr Hn Hrc i ltac:(lia)) as (r & _ & _ & -> & _). by eexists.
Qed.

Lemma build_ranges_sums keys rc spr m rs :
  Z.of_nat (length keys) < 2 ^ 32 -> 0 < rc <= Z.of_nat (length keys) -> 1 <= spr ->
  Forall2 (fun i r => (i < Z.to_nat rc)%nat /\ build_range keys rc spr i = Some r) m rs ->
  sum_entries rs = Z.of_nat (length (concat (bucket keys rc <$> m))) /\
  sum_samples rs <= spr * Z.of_nat (length m).
Proof.
  intros Hn Hrc Hspr. induction 1 as [|i r m rs [Hi Hr] _ [IH1 IH2]]; [cbn; lia|].
  destruct (build_range_some keys rc spr Hn Hrc i Hi) as (r' & lo & hi & Hr' & _ & _ & ->).
  rewrite Hr in Hr'. injection Hr' as ->.
  pose proof (Build_samples_length (bucket keys rc i) spr Hspr).
  unfold sum_entries, sum_samples in *.
  cbn [foldr fmap list_fmap concat length r_num_entries r_sketch].
  rewrite length_app, Nat2Z.inj_succ, Z.mul_succ_r. lia.
Qed.

Lemma build_ranges_cover keys rc spr k :
  StronglySorted Z.lt keys -> Z.of_nat (length keys) < 2 ^ 32 ->
  0 < rc <= Z.of_nat (length keys) ->
  Forall2 (fun i r => (i < Z.to_nat rc)%nat /\ build_range keys rc spr i = Some r)
    (seq 0 (Z.to_nat rc)) (omap (build_range keys rc spr) (seq 0 (Z.to_nat rc))) ->
  k ∈ keys ->
  exists r, r ∈ omap (build_range keys rc spr) (seq 0 (Z.to_nat rc)) /\ in_range r k.
Proof.
  intros Hk Hn Hrc HF Hin.
  rewrite <- (take_ge keys (bidx keys rc (Z.to_nat rc))) in Hin by (rewrite bidx_last; lia).
  rewrite <- (bucket_concat keys rc Hrc) in Hin by lia.
  apply list_elem_of_In, in_concat in Hin as (l & Hl & Hkl).
  rewrite <- list_elem_of_In in Hl. rewrite <- list_elem_of_In in Hkl.
  apply list_elem_of_fmap in Hl as (i & -> & Hi). apply list_elem_of_lookup in Hi as [j Hj].
  destruct (Forall2_lookup_l _ _ _ _ _ HF Hj) as (r & Hr & Hi & Hbr).
  destruct (build_range_some keys rc spr Hn Hrc i Hi) as (r' & lo & hi & Hr' & Hlo & Hhi & ->).
  rewrite Hbr in Hr'. injection Hr' as ->.
  eexists. split; [by eapply list_elem_of_lookup_2|].
  exact (proj2 (proj1 (bucket_elem keys rc Hk Hrc i lo hi k Hi Hlo Hhi) Hkl)).
Qed.

Lemma bidx_mono keys rc i j : 0 < rc -> (i <= j)%nat -> (bidx keys rc i <= bidx keys rc j)%nat.
Proof.
  intros Hrc Hij. unfold bidx. apply Z2Nat.inj_le; try (apply Z.div_pos; lia).
  apply Z.div_le_mono; [lia|nia].
Qed.

Lemma build_ranges_disjoint keys rc spr : StronglySorted Z.lt keys ->
  Z.of_nat (length keys) < 2 ^ 32 -> 0 < rc <= Z.of_nat (length keys) ->
  Forall2 (fun i r => (i < Z.to_nat rc)%nat /\ build_range keys rc spr i = Some r)
    (seq 0 (Z.to_nat rc)) (omap (build_range keys rc spr) (seq 0 (Z.to_nat rc))) ->
  StronglySorted (fun a b => r_key_max a < r_key_min b)
    (omap (build_range keys rc spr) (seq 0 (Z.to_nat rc))).
Proof.
  intros Hk Hn Hrc HF. apply StronglySorted_of_lookup. intros i j a b Hij Ha Hb.
  destruct (Forall2_lookup_r _ _ _ _ _ HF Ha) as (i' & Hi' & Hi & Hra).
  destruct (Forall2_lookup_r _ _ _ _ _ HF Hb) as (j' & Hj' & Hj & Hrb).
  apply lookup_seq in Hi' as [-> _]. apply lookup_seq in Hj' as [-> _]. cbn [Nat.add] in *.
  destruct (build_range_some keys rc spr Hn Hrc i Hi) as (r & lo & hi & Hr & _ & Hhi & ->).
  destruct (build_range_some keys rc spr Hn Hrc j Hj) as (r' & lo' & hi' & Hr' & Hlo' & _ & ->).
  rewrite Hra in Hr. rewrite Hrb in Hr'. injection Hr as ->. injection Hr' as ->. cbn.
  eapply (StronglySorted_lookup _ keys); [done| |exact Hhi|exact Hlo'].
  pose proof (bidx_bounds keys rc Hrc i Hi). pose proof (bidx_mono keys rc (i + 1) j). lia.
Qed.

Lemma BuildKMVRangeSketches_disjoint env keys max_samples max_ranges :
  StronglySorted Z.lt keys -> Forall is_u64 keys -> Z.of_nat (length keys) < 2 ^ 32 ->
  0 <= max_samples -> 0 <= max_ranges ->
  StronglySorted (fun a b => r_key_max a < r_key_min b)
    (BuildKMVRangeSketchesFromSortedKeys env keys max_samples max_ranges).
Proof.
  intros Hk Hu Hn Hms Hmr. unfold BuildKMVRangeSketchesFromSortedKeys.
  destruct keys as [|key keys']; [constructor|]. set (keys := key :: keys') in *.
  set (mr := if decide (max_ranges = 0) then _ else _).
  assert (1 <= mr) by (unfold mr; pose proof (VirtualSSTKMVRangeBuckets_pos env); case_decide; lia).
  assert (Hrc : 0 < Z.min mr (Z.of_nat (length keys)) <= Z.of_nat (length keys)) by (cbn; lia).
  rewrite decide_False by lia. apply build_ranges_disjoint; auto.
  apply build_ranges_Forall2; auto. lia.
Qed.

Lemma BuildKMVRangeSketches_gen env keys max_samples max_ranges :
  StronglySorted Z.lt keys -> Forall is_u64 keys -> Z.of_nat (length keys) < 2 ^ 32 ->
  0 <= max_samples -> 0 <= max_ranges ->
  let ranges := BuildKMVRangeSketchesFromSortedKeys env keys max_samples max_ranges in
  ranges_sound (fun k => k ∈ keys) ranges /\
  sum_entries ranges = Z.of_nat (length keys) /\
  sum_samples ranges <= Z.max (eff_samples env max_samples) (eff_ranges env max_ranges) /\
  Z.of_nat (length ranges) <= eff_ranges env max_ranges.
Proof.
  intros Hk Hu Hn Hms Hmr ranges. unfold ranges, BuildKMVRangeSketchesFromSortedKeys.
  fold (eff_samples env max_samples). fold (eff_ranges env max_ranges).
  set (ms := eff_samples env max_samples). set (mr := eff_ranges env max_ranges).
  assert (1 <= ms) by (unfold ms, eff_samples; pose proof (VirtualSSTKMVSamples_pos env); case_decide; lia).
  assert (1 <= mr) by (unfold mr, eff_ranges; pose proof (VirtualSSTKMVRangeBuckets_pos env); case_decide; lia).
  destruct keys as [|key keys']; [cbn; repeat split; try lia; [constructor|by intros ? ?%not_elem_of_nil]|].
  set (keys := key :: keys') in *. set (rc := Z.min mr (Z.of_nat (length keys))).
  assert (Hrc : 0 < rc <= Z.of_nat (length keys)) by (unfold rc; cbn; lia).
  rewrite decide_False by lia. set (spr := Z.max 1 (ms / rc)). assert (1 <= spr) by lia.
  pose proof (build_ranges_Forall2 keys rc spr Hk Hu Hn Hrc ltac:(done)) as HF.
  destruct (build_ranges_sums keys rc spr _ _ Hn Hrc ltac:(done) HF) as [Hsum Hsamp].
  rewrite bucket_concat in Hsum by (done || lia).
  rewrite bidx_last, take_ge in Hsum by (done || lia). rewrite length_seq in Hsamp.
  split; [|split; [done|split]].
  - split.
    + apply Forall_forall. intros r Hr. apply list_elem_of_lookup in Hr as [j Hj].
      destruct (Forall2_lookup_r _ _ _ _ _ HF Hj) as (i & _ & Hi & Hbr).
      by eapply (build_range_sound keys rc spr).
    + intros k Hin. by apply build_ranges_cover.
  - pose proof (Z.mul_div_le ms rc ltac:(lia)). nia.
  - rewrite <- (Forall2_length _ _ _ HF), length_seq. lia.
Qed.

End BuildRangesResult.

(** ** Properties *)

(** for every conforming implementation of the heap algorithms, the sketch of
    a non-decreasing key range holds, in increasing order, exactly the
    fingerprints of its keys up to [theta_hash]; it has at most [max_samples]
    of them, and it is complete exactly when no fingerprint was dropped. *)
Theorem BuildKMVSketch_sound (HO : HeapOps) (HL : HeapLaws) (keys : list Z) (max_samples : Z)
    (Hmax : 1 <= max_samples) (Hsorted : StronglySorted Z.le keys)
    (Hu64 : Forall is_u64 keys) (Hne : keys <> []) :
  let sk := BuildKMVSketchFromSortedKeyRange keys max_samples in
  sketch_sound (fun k => k ∈ keys) sk /\
  Z.of_nat (length (samples sk)) <= max_samples /\
  (complete sk = true <-> forall k, k ∈ keys -> KmvHash.KMVHash k ∈ samples sk).
Proof.
  intros sk. pose proof (Build_sound_gen keys max_samples Hmax Hsorted Hu64) as Hsound.
  fold sk in Hsound. split; [done|]. split; [by apply Build_samples_length|].
  by apply Build_complete_iff.
Qed.

(** [BuildKMVRangeSketchesFromSortedKeys] of strictly increasing keys: every
    bucket is the sketch of the keys in its range, every key is in a bucket, the
    entry counts add up to the number of keys, and the number of samples and of
    buckets stays within the configured budget. *)
Theorem BuildKMVRangeSketches_sound (HO : HeapOps) (HL : HeapLaws) (env : Env)
    (keys : list Z) (max_samples max_ranges : Z)
    (Hsorted : StronglySorted Z.lt keys) (Hu64 : Forall is_u64 keys)
    (Hlen : Z.of_nat (length keys) < 2 ^ 32)
    (Hms : 0 <= max_samples) (Hmr : 0 <= max_ranges) :
  let ranges := BuildKMVRangeSketchesFromSortedKeys env keys max_samples max_ranges in
  ranges_sound (fun k => k ∈ keys) ranges /\
  sum_entries ranges = Z.of_nat (length keys) /\
  sum_samples ranges <= Z.max (eff_samples env max_samples) (eff_ranges env max_ranges) /\
  Z.of_nat (length ranges) <= eff_ranges env max_ranges.
Proof. by apply BuildKMVRangeSketches_gen. Qed.

(** ** Instances *)

Definition demo_env : Env := mkEnv None (Some "3"%string).

Lemma BuildKMVSketch_sound_witness :
  let sk := BuildKMVSketchFromSortedKeyRange [1; 1; 4; 9; 12] 3 in
  length (samples sk) = 3%nat /\ sketch_sound (fun k => k ∈ [1; 1; 4; 9; 12]) sk.
Proof.
  split; [by vm_compute|].
  apply (BuildKMVSketch_sound sorting_heap sorting_heap_laws [1; 1; 4; 9; 12] 3); [lia|..].
  - repeat constructor; lia.
  - apply (bool_decide_unpack _). by vm_compute.
  - done.
Defined.

Lemma BuildKMVRangeSketches_sound_witness :
  let ranges := BuildKMVRangeSketchesFromSortedKeys demo_env [1; 4; 9; 12] 0 0 in
  length ranges = 3%nat /\ sum_entries ranges = 4.
Proof.
  split; [by vm_compute|].
  apply (BuildKMVRangeSketches_sound sorting_heap sorting_heap_laws demo_env [1; 4; 9; 12] 0 0);
    [repeat constructor; lia|apply (bool_decide_unpack _); by vm_compute|cbn; lia|lia|lia].
Defined.
