(* ===== verification/KmvEstimate.v ===== *)
(** * Union-size estimators

    [EstimateKMVUnionEntries] and [EstimateKMVUnionEntriesForRange] of
    [db/virtual_compaction/virtual_sst.cc]: how many distinct keys a merge of
    virtual SSTs has, from the KMV samples of the inputs.  An input pointer is
    an [option]; [None] results are undefined conversions of a [long double]. *)

From Stdlib Require Import ZArith Lia SpecFloat Sorted.
From stdpp Require Import base numbers list sorting.
From S2P Require Import Prelude FloatModel FloatTheory KmvHash Plr Kmv.

Local Open Scope Z_scope.

(** ** Definitions *)

(** The first loop of [EstimateKMVUnionEntries] over the buckets of an input:
    the conjunction of the [complete] flags and the smallest threshold; [None]
    is the early return of [naive_entries]. *)
Fixpoint union_scan_ranges (ranges : list KMVRangeSketch) (compl : bool) (theta : Z)
    : option (bool * Z) :=
  match ranges with
  | [] => Some (compl, theta)
  | range :: ranges' =>
      match samples (r_sketch range), complete (r_sketch range) with
      | [], false => None
      | _, c => union_scan_ranges ranges' (compl && c) (Z.min theta (theta_hash (r_sketch range)))
      end
  end.

Fixpoint union_scan (inputs : list (option VirtualSST)) (compl : bool) (theta : Z)
    : option (bool * Z) :=
  match inputs with
  | [] => Some (compl, theta)
  | None :: _ => None
  | Some input :: inputs' =>
      match kmv_ranges input with
      | [] => None
      | ranges =>
          '(compl', theta') ← union_scan_ranges ranges compl theta;
          union_scan inputs' compl' theta'
      end
  end.

(** The buckets of all inputs, in order. *)
Definition input_ranges (inputs : list (option VirtualSST)) : list KMVRangeSketch :=
  inputs ≫= (fun input => match input with None => [] | Some v => kmv_ranges v end).

(** The second loop: samples up to the common threshold. *)
Definition union_samples (inputs : list (option VirtualSST)) (theta : Z) : list Z :=
  input_ranges inputs ≫=
    (fun range => filter (fun h => h <= theta) (samples (r_sketch range))).

(** [a * u / e] in [long double]. *)
Definition kmv_ratio (a : spec_float) (u e : Z) : spec_float :=
  F80.div (F80.mul a (F80.of_Z u)) (F80.of_Z e).

Definition EstimateKMVUnionEntries (inputs : list (option VirtualSST)) (naive_entries : Z)
    : option Z :=
  if decide (inputs = [] \/ naive_entries = 0) then Some naive_entries
  else
    match union_scan inputs true MaxHash with
    | None => Some naive_entries
    | Some (compl, theta) =>
        let merged := union_samples inputs theta in
        let sampled_entries := Z.of_nat (length merged) in
        let sampled_unique := Z.of_nat (length (SortUniqueByHash merged)) in
        if decide (sampled_entries = 0) then Some naive_entries
        else if decide (sampled_entries <= sampled_unique) then Some naive_entries
        else
          let estimate := kmv_ratio (F80.of_Z naive_entries) sampled_unique sampled_entries in
          if compl then Z.max 1 <$> llround_u64 estimate
          else Z.max 1 <$> ceil_u64 estimate
    end.

(** Buckets that overlap a key range, of inputs that overlap it: the [pieces]
    of [EstimateKMVUnionEntriesForRange] and [MergeKMVSketchesForRange]. *)
Definition overlapping (kmin kmax : Z) (ranges : list KMVRangeSketch) : list KMVRangeSketch :=
  filter (fun r => ~ (r_key_max r < kmin \/ kmax < r_key_min r)) ranges.

Definition pieces (inputs : list (option VirtualSST)) (kmin kmax : Z) : list KMVRangeSketch :=
  inputs ≫= (fun input =>
    match input with
    | None => []
    | Some v => if decide (key_max v < kmin \/ kmax < key_min v) then []
                else overlapping kmin kmax (kmv_ranges v)
    end).

(** The share of one piece in [density_estimate]. *)
Definition density_step (kmin kmax : Z) (density : spec_float) (piece : KMVRangeSketch)
    : spec_float :=
  let overlap_min := Z.max (r_key_min piece) kmin in
  let overlap_max := Z.min (r_key_max piece) kmax in
  if decide (overlap_min <= overlap_max /\ 0 < r_num_entries piece) then
    let piece_span := u128 (r_key_max piece - r_key_min piece + 1) in
    let overlap_span := u128 (overlap_max - overlap_min + 1) in
    if decide (0 < piece_span) then
      F80.add density
        (F80.div (F80.mul (F80.of_Z (r_num_entries piece)) (F80.of_Z overlap_span))
           (F80.of_Z piece_span))
    else density
  else density.

(** Smallest threshold and sum of the entry counts over the pieces. *)
Definition pieces_theta (ps : list KMVRangeSketch) : Z :=
  fold_left (fun theta p => Z.min theta (theta_hash (r_sketch p))) ps MaxHash.
Definition pieces_cap (ps : list KMVRangeSketch) : Z :=
  fold_left (fun cap p => cap +% r_num_entries p) ps 0.

(** Samples of the pieces up to [theta] whose key is in the range. *)
Definition range_samples (ps : list KMVRangeSketch) (theta kmin kmax : Z) : list Z :=
  ps ≫= (fun p => filter (fun h => h <= theta /\ kmin <= sample_key h <= kmax)
                    (samples (r_sketch p))).

Definition EstimateKMVUnionEntriesForRange (inputs : list (option VirtualSST))
    (kmin kmax : Z) : option Z :=
  if decide (inputs = [] \/ kmax < kmin) then Some 0
  else
    let ps := pieces inputs kmin kmax in
    if decide (ps = []) then Some 0
    else
      let theta := pieces_theta ps in
      let input_entries_cap := pieces_cap ps in
      let density := fold_left (density_step kmin kmax) ps fzero in
      if decide (input_entries_cap = 0) then Some 0
      else
        let merged := range_samples ps theta kmin kmax in
        let sampled_entries := Z.of_nat (length merged) in
        let sampled_unique := Z.of_nat (length (SortUniqueByHash merged)) in
        let in_range := fmin density (F80.of_Z input_entries_cap) in
        if decide (sampled_entries = 0 \/ sampled_entries <= sampled_unique)
        then Z.min input_entries_cap <$> ceil_u64 in_range
        else
          (fun z => Z.min input_entries_cap (Z.max 1 z)) <$>
            ceil_u64 (kmv_ratio in_range sampled_unique sampled_entries).

(** ** Conversions of bounded values *)

Abbreviation valid80 := (FloatTheory.valid F80.prec F80.emax).
Abbreviation V80 := (FloatTheory.V F80.prec F80.emax).
Abbreviation one80 := (FloatTheory.one F80.prec F80.emax).

Lemma prec80 : 1 < F80.prec < F80.emax.
Proof. by vm_compute. Qed.

Lemma one80_pos : 0 < one80.
Proof. apply one_pos; apply prec80. Qed.

(** A finite extended float between two integers. *)
Definition between80 (f : spec_float) (lo hi : Z) : Prop :=
  valid80 f /\ is_fin f = true /\ lo * one80 <= V80 f <= hi * one80.

Lemma of_Z_80 z : 0 <= z <= 2 ^ 64 -> between80 (F80.of_Z z) z z.
Proof.
  intros Hz. destruct prec80 as [Hp He].
  destruct (ofz_small_exact F80.prec F80.emax Hp He z Hz) as (Hv & Hf & HV).
  split; [done|]. split; [done|]. change (F80.of_Z z) with (ofz F80.prec F80.emax z). lia.
Qed.

Lemma ceil_u64_between f lo hi : between80 f lo hi -> 0 <= lo -> hi <= u64_max ->
  exists r, ceil_u64 f = Some r /\ lo <= r <= hi.
Proof.
  intros (Hv & Hf & HV) Hlo Hhi. destruct prec80 as [Hp He].
  destruct (round_ceil_between F80.prec F80.emax Hp He f lo hi Hv Hf Hlo HV) as [_ (r & Hr & Hb)].
  exists r. unfold ceil_u64. rewrite Hr. cbn. unfold as_u64. by rewrite decide_True by lia.
Qed.

Lemma llround_u64_between f lo hi : between80 f lo hi -> 0 <= lo -> hi < 2 ^ 63 ->
  exists r, llround_u64 f = Some r /\ lo <= r <= hi.
Proof.
  intros (Hv & Hf & HV) Hlo Hhi. destruct prec80 as [Hp He].
  destruct (round_ceil_between F80.prec F80.emax Hp He f lo hi Hv Hf Hlo HV) as [(r & Hr & Hb) _].
  exists r. unfold llround_u64. rewrite Hr. cbn. unfold as_i64. rewrite decide_True by lia.
  cbn. rewrite u64_small; [done|]. unfold is_u64, u64_max. lia.
Qed.

Lemma kmv_ratio_between a cap u e : between80 a 0 cap -> 0 <= cap <= 2 ^ 64 ->
  0 <= u < e -> e <= 2 ^ 63 -> between80 (kmv_ratio a u e) 0 cap.
Proof.
  intros (Hv & Hf & HV) Hcap Hu He. destruct prec80 as [Hp Hem].
  by apply (ratio_upper F80.prec F80.emax Hp Hem a cap u e Hv Hf).
Qed.

Lemma kmv_ratio_exact n u : 0 < n -> 0 < u -> n * u <= 2 ^ 64 ->
  between80 (kmv_ratio (F80.of_Z n) u n) u u.
Proof.
  intros Hn Hu Hnu. destruct prec80 as [Hp Hem].
  destruct (ratio_exact F80.prec F80.emax Hp Hem n u n Hn Hu) as (Hv & Hf & HV).
  - done.
  - rewrite Z.mul_comm. apply Z.mod_mul. lia.
  - change (2 ^ F80.prec) with (2 ^ 64). nia.
  - rewrite (Z.mul_comm n u), Z.div_mul in HV by lia.
    split; [done|]. split; [done|]. unfold kmv_ratio. split; apply Z.eq_le_incl; [by symmetry|done].
Qed.

(** ** Sorting and deduplicating *)

Lemma unique_spec l : StronglySorted Z.le l ->
  StronglySorted Z.lt (unique l) /\ forall x, x ∈ unique l <-> x ∈ l.
Proof.
  induction l as [|a l IH]; intros Hs; [split; [constructor|done]|].
  apply StronglySorted_inv in Hs as [Hs Hall]. destruct (IH Hs) as [Hlt Hel].
  destruct l as [|b l']; [split; [repeat constructor|done]|].
  change (unique (a :: b :: l')) with
    (if decide (a = b) then unique (b :: l') else a :: unique (b :: l')).
  destruct (decide (a = b)) as [->|Hab].
  - split; [done|]. intros x. rewrite Hel, !elem_of_cons. tauto.
  - split; [|intros x; by rewrite elem_of_cons, Hel, (elem_of_cons (b :: l'))].
    constructor; [done|]. rewrite Forall_forall in Hall |- *. intros x Hx.
    apply Hel in Hx. apply StronglySorted_inv in Hs as [_ Hbl].
    pose proof (Hall b ltac:(by left)). apply elem_of_cons in Hx as [->|Hx]; [lia|].
    rewrite Forall_forall in Hbl. specialize (Hbl x Hx). lia.
Qed.

Lemma SortUniqueByHash_spec l :
  StronglySorted Z.lt (SortUniqueByHash l) /\ forall x, x ∈ SortUniqueByHash l <-> x ∈ l.
Proof.
  unfold SortUniqueByHash. destruct l as [|a l]; [split; [constructor|done]|].
  destruct (unique_spec (sort_by_hash (a :: l)) (sort_sorted _)) as [Hs Hel].
  split; [done|]. intros x. by rewrite Hel, sort_perm.
Qed.

Lemma SortUnique_remove_dups l : SortUniqueByHash l ≡ₚ remove_dups l.
Proof.
  destruct (SortUniqueByHash_spec l) as [Hs Hel].
  apply NoDup_Permutation; [by apply lt_sorted_nodup|apply NoDup_remove_dups|].
  intros x. by rewrite Hel, elem_of_remove_dups.
Qed.

Lemma SortUnique_length_le l : (length (SortUniqueByHash l) <= length l)%nat.
Proof.
  destruct (SortUniqueByHash_spec l) as [Hs Hel].
  apply submseteq_length, NoDup_submseteq; [by apply lt_sorted_nodup|].
  intros x. by rewrite Hel.
Qed.

Lemma SortUnique_length_nodup l : NoDup l -> length (SortUniqueByHash l) = length l.
Proof.
  intros Hnd. destruct (SortUniqueByHash_spec l) as [Hs Hel].
  apply Permutation_length, NoDup_Permutation; [by apply lt_sorted_nodup|done|done].
Qed.

Lemma SortUnique_nonempty l : l <> [] -> (0 < length (SortUniqueByHash l))%nat.
Proof.
  intros Hne. destruct (SortUniqueByHash_spec l) as [_ Hel].
  destruct l as [|x l]; [done|]. specialize (Hel x).
  destruct (SortUniqueByHash _); [|cbn; lia].
  exfalso. apply (not_elem_of_nil x), Hel. by left.
Qed.

(** ** Samples of sound descriptors *)

(** Buckets in increasing order without overlap. *)
Definition ranges_disjoint (rs : list KMVRangeSketch) : Prop :=
  StronglySorted (fun a b => r_key_max a < r_key_min b) rs.

(** The descriptor [v] describes the key set [K]. *)
Definition vsst_sound (K : Z -> Prop) (v : VirtualSST) : Prop :=
  ranges_sound K (kmv_ranges v) /\ ranges_disjoint (kmv_ranges v) /\
  forall k, K k -> is_u64 k /\ key_min v <= k <= key_max v.

(** Samples of a list of buckets that satisfy [Q]. *)
Definition collect (Q : Z -> Prop) `{forall h, Decision (Q h)} (rs : list KMVRangeSketch) : list Z :=
  rs ≫= (fun r => filter Q (samples (r_sketch r))).

Section Collect.
Context (K Q : Z -> Prop) `{forall h, Decision (Q h)}.

Lemma collect_in rs h : h ∈ collect Q rs <-> Q h /\ exists r, r ∈ rs /\ h ∈ samples (r_sketch r).
Proof.
  unfold collect. rewrite list_elem_of_bind. split.
  - intros (r & Hh & Hr). apply list_elem_of_filter in Hh as [? ?]. eauto.
  - intros (HQ & r & Hr & Hh). exists r. split; [by apply list_elem_of_filter|done].
Qed.

(** The collected samples are the fingerprints of the represented keys. *)
Lemma collect_elem rs h : Forall (range_sound K) rs ->
  (forall r h', r ∈ rs -> Q h' -> h' <= theta_hash (r_sketch r)) ->
  (forall k, K k -> is_u64 k -> Q (KmvHash.KMVHash k) -> exists r, r ∈ rs /\ in_range r k) ->
  h ∈ collect Q rs <-> is_u64 h /\ Q h /\ K (sample_key h).
Proof.
  intros Hs Hth Hcov. rewrite Forall_forall in Hs. rewrite collect_in. split.
  - intros (HQ & r & Hr & Hh). destruct (Hs r Hr) as [(_ & Hin & _) _].
    apply Hin in Hh as (? & _ & ? & _). done.
  - intros (Hu & HQ & HK). split; [done|].
    pose proof (KmvHash.KMVHash_KMVUnhash h Hu) as Eh.
    destruct (Hcov (sample_key h) HK) as (r & Hr & Hrk).
    { by apply KmvHash.KMVUnhash_u64. }
    { unfold sample_key. by rewrite Eh. }
    exists r. split; [done|]. destruct (Hs r Hr) as [(_ & Hin & _) _]. apply Hin.
    split; [done|]. split; [by apply Hth|done].
Qed.

Lemma collect_nodup rs : Forall (range_sound K) rs -> ranges_disjoint rs -> NoDup (collect Q rs).
Proof.
  intros Hs Hd. induction Hd as [|r rs Hd IH Hall]; [constructor|].
  apply Forall_cons_iff in Hs as [Hr Hs]. cbn. apply NoDup_app.
  destruct Hr as [(Hsort & Hin & _) _]. split_and!.
  - apply NoDup_filter, lt_sorted_nodup, Hsort.
  - intros h [_ Hh]%list_elem_of_filter Hc. apply collect_in in Hc as (_ & r' & Hr' & Hh').
    apply Hin in Hh as (_ & _ & _ & Hrk). unfold in_range in Hrk.
    rewrite Forall_forall in Hs, Hall. destruct (Hs r' Hr') as [(_ & Hin' & _) _].
    apply Hin' in Hh' as (_ & _ & _ & Hrk'). unfold in_range in Hrk'.
    specialize (Hall r' Hr'). cbn in Hall. lia.
  - by apply IH.
Qed.

End Collect.

Lemma collect_keys (Q : Z -> Prop) `{forall h, Decision (Q h)} ks rs :
  NoDup ks -> Forall is_u64 ks -> ranges_sound (fun k => k ∈ ks) rs -> ranges_disjoint rs ->
  (forall r h', r ∈ rs -> Q h' -> h' <= theta_hash (r_sketch r)) ->
  collect Q rs ≡ₚ filter Q (KmvHash.KMVHash <$> ks).
Proof.
  intros Hnd Hu [Hs Hc] Hd Hth. apply NoDup_Permutation.
  - by eapply collect_nodup.
  - apply NoDup_filter, fmap_hash_nodup; done.
  - intros h. rewrite (collect_elem (fun k => k ∈ ks)), list_elem_of_filter, elem_hash_iff by auto. tauto.
Qed.

(** Inputs whose descriptors represent the key lists [keyss]. *)
Definition represents (keyss : list (list Z)) (inputs : list (option VirtualSST)) : Prop :=
  Forall2 (fun ks input => exists v, input = Some v /\ NoDup ks /\ vsst_sound (fun k => k ∈ ks) v)
    keyss inputs.

Lemma vsst_sound_u64 ks v : vsst_sound (fun k => k ∈ ks) v -> Forall is_u64 ks.
Proof. intros (_ & _ & Hk). apply Forall_forall. intros k Hin. by apply Hk. Qed.

Lemma represents_u64 keyss inputs : represents keyss inputs -> Forall is_u64 (concat keyss).
Proof.
  induction 1 as [|ks input keyss inputs (v & _ & _ & Hv) _ IH]; [constructor|].
  cbn. apply Forall_app. split; [by eapply vsst_sound_u64|done].
Qed.

Lemma union_samples_keys keyss inputs theta : represents keyss inputs ->
  (forall r, r ∈ input_ranges inputs -> theta <= theta_hash (r_sketch r)) ->
  union_samples inputs theta ≡ₚ
    filter (fun h => h <= theta) (KmvHash.KMVHash <$> concat keyss).
Proof.
  unfold union_samples, input_ranges.
  induction 1 as [|ks input keyss inputs (v & -> & Hnd & Hv) _ IH]; intros Hth; [done|].
  cbn [mbind list_bind concat] in *. rewrite fmap_app, filter_app.
  fold (input_ranges inputs) in *. setoid_rewrite elem_of_app in Hth.
  rewrite bind_app, IH by auto. f_equiv.
  pose proof (vsst_sound_u64 _ _ Hv) as Hu. destruct Hv as (Hr & Hd & _).
  apply (collect_keys (fun h => h <= theta)); auto.
  intros r h' Hin Hle. specialize (Hth r (or_introl Hin)). lia.
Qed.

(** ** The scan over the inputs *)

Lemma union_scan_ranges_min rs : forall c th c' th',
  union_scan_ranges rs c th = Some (c', th') ->
  th' <= th /\ (forall r, r ∈ rs -> th' <= theta_hash (r_sketch r)) /\
  (c' = true -> c = true /\ forall r, r ∈ rs -> complete (r_sketch r) = true).
Proof.
  induction rs as [|r rs IH]; intros c th c' th'; cbn [union_scan_ranges].
  { intros [= <- <-]. split; [lia|]. split; [by intros ? ?%not_elem_of_nil|].
    intros ->. split; [done|]. by intros ? ?%not_elem_of_nil. }
  intros Hr.
  assert (Hrec : union_scan_ranges rs (c && complete (r_sketch r))
                   (Z.min th (theta_hash (r_sketch r))) = Some (c', th')).
  { by destruct (samples (r_sketch r)), (complete (r_sketch r)). }
  destruct (IH _ _ _ _ Hrec) as (H1 & H2 & H3). split; [lia|]. split.
  - intros r' [->|Hr']%elem_of_cons; [lia|auto].
  - intros Hc. destruct (H3 Hc) as [Hb Hall]. apply andb_true_iff in Hb as [-> Hb].
    split; [done|]. intros r' [->|Hr']%elem_of_cons; auto.
Qed.

Lemma union_scan_min inputs : forall c th c' th',
  union_scan inputs c th = Some (c', th') ->
  th' <= th /\ (forall r, r ∈ input_ranges inputs -> th' <= theta_hash (r_sketch r)) /\
  (c' = true -> c = true /\ forall r, r ∈ input_ranges inputs -> complete (r_sketch r) = true).
Proof.
  unfold input_ranges. induction inputs as [|[v|] inputs IH]; intros c th c' th'; cbn [union_scan].
  { intros [= <- <-]. split; [lia|]. split; [by intros ? ?%not_elem_of_nil|].
    intros ->. split; [done|]. by intros ? ?%not_elem_of_nil. }
  - cbn [mbind list_bind] in *. fold (input_ranges inputs) in *. intros Hs.
    assert (exists c1 th1, union_scan_ranges (kmv_ranges v) c th = Some (c1, th1) /\
              union_scan inputs c1 th1 = Some (c', th')) as (c1 & th1 & Hs1 & Hs2).
    { destruct (kmv_ranges v) as [|r rs]; [done|]. destruct (union_scan_ranges _ _ _) as [[c1 th1]|]; [|done].
      eauto. }
    destruct (union_scan_ranges_min _ _ _ _ _ Hs1) as (A1 & A2 & A3).
    destruct (IH _ _ _ _ Hs2) as (B1 & B2 & B3).
    split; [lia|]. split.
    + intros r [Hr|Hr]%elem_of_app; [specialize (A2 r Hr); lia|auto].
    + intros Hc. destruct (B3 Hc) as [Hc1 HB]. destruct (A3 Hc1) as [-> HA].
      split; [done|]. intros r [Hr|Hr]%elem_of_app; auto.
  - done.
Qed.

Lemma union_scan_ranges_complete rs : forall th,
  Forall (fun r => complete (r_sketch r) = true /\ theta_hash (r_sketch r) = MaxHash) rs ->
  th = MaxHash -> union_scan_ranges rs true th = Some (true, MaxHash).
Proof.
  induction rs as [|r rs IH]; intros th Hall ->; [done|].
  apply Forall_cons_iff in Hall as [[Hc Ht] Hall]. cbn [union_scan_ranges].
  rewrite Hc, Ht. destruct (samples (r_sketch r)); apply IH; auto using Z.min_id.
Qed.

(** Complete, sound descriptors of non-empty inputs pass the scan. *)
Lemma union_scan_complete keyss inputs : represents keyss inputs ->
  Forall (fun ks => ks <> []) keyss ->
  (forall r, r ∈ input_ranges inputs -> complete (r_sketch r) = true) ->
  union_scan inputs true MaxHash = Some (true, MaxHash).
Proof.
  unfold input_ranges.
  induction 1 as [|ks input keyss inputs (v & -> & _ & Hv) _ IH]; intros Hne Hc; [done|].
  apply Forall_cons_iff in Hne as [Hks Hne]. destruct Hv as ([Hs Hcov] & _ & _).
  cbn [mbind list_bind] in Hc. fold (input_ranges inputs) in *. setoid_rewrite elem_of_app in Hc.
  cbn [union_scan]. destruct (kmv_ranges v) as [|r0 rs] eqn:Ers.
  { destruct ks as [|k ks]; [done|].
    destruct (Hcov k ltac:(by left)) as (r & Hr & _). by apply not_elem_of_nil in Hr. }
  rewrite union_scan_ranges_complete; [cbn; by apply IH; [|auto]| |done].
  rewrite Forall_forall in Hs |- *. intros r Hr. split; [by apply Hc; left|].
  destruct (Hs r Hr) as [(_ & _ & Hth) _]. apply Hth, Hc. by left.
Qed.

Lemma collect_length_le (Q : Z -> Prop) `{forall h, Decision (Q h)} rs :
  Z.of_nat (length (collect Q rs)) <= sum_samples rs.
Proof.
  induction rs as [|r rs IH]; [done|]. unfold sum_samples in *. cbn [foldr].
  change (collect Q (r :: rs)) with (filter Q (samples (r_sketch r)) ++ collect Q rs).
  rewrite length_app. pose proof (length_filter Q (samples (r_sketch r))). lia.
Qed.

Lemma hash_remove_dups ks : Forall is_u64 ks ->
  remove_dups (KmvHash.KMVHash <$> ks) ≡ₚ KmvHash.KMVHash <$> remove_dups ks.
Proof.
  intros Hu. apply NoDup_Permutation.
  - apply NoDup_remove_dups.
  - apply fmap_hash_nodup; [|apply NoDup_remove_dups].
    rewrite Forall_forall in Hu |- *. intros k Hk. by apply Hu, elem_of_remove_dups.
  - intros h. rewrite elem_of_remove_dups, !list_elem_of_fmap.
    by setoid_rewrite elem_of_remove_dups.
Qed.

Lemma filter_MaxHash (ks : list Z) :
  filter (fun h => h <= MaxHash) (KmvHash.KMVHash <$> ks) = KmvHash.KMVHash <$> ks.
Proof.
  apply list_filter_all, Forall_forall. intros h (k & -> & _)%list_elem_of_fmap.
  apply (KmvHash.KMVHash_u64 k).
Qed.

Lemma EstimateUnion_gen inputs naive_entries : 1 <= naive_entries < 2 ^ 63 ->
  sum_samples (input_ranges inputs) <= 2 ^ 63 ->
  exists r, EstimateKMVUnionEntries inputs naive_entries = Some r /\ 1 <= r <= naive_entries.
Proof.
  intros Hnaive Hsamples.
  unfold EstimateKMVUnionEntries. case_decide; [eexists; split; [done|lia]|].
  destruct (union_scan _ _ _) as [[c th]|]; [|eexists; split; [done|lia]].
  pose proof (collect_length_le (fun h => h <= th) (input_ranges inputs)) as Hlen.
  change (collect _ _) with (union_samples inputs th) in Hlen.
  pose proof (SortUnique_length_le (union_samples inputs th)).
  case_decide; [eexists; split; [done|lia]|]. case_decide; [eexists; split; [done|lia]|].
  set (u := Z.of_nat (length (SortUniqueByHash _))) in *.
  set (e := Z.of_nat (length (union_samples inputs th))) in *.
  assert (Hb : between80 (kmv_ratio (F80.of_Z naive_entries) u e) 0 naive_entries).
  { apply kmv_ratio_between; try lia.
    destruct (of_Z_80 naive_entries) as (Hv & Hf & HV); [lia|]. split; [done|]. split; [done|].
    pose proof one80_pos. nia. }
  destruct c.
  - destruct (llround_u64_between _ _ _ Hb) as (r & -> & Hr); [lia|lia|].
    eexists. split; [reflexivity|]. lia.
  - destruct (ceil_u64_between _ _ _ Hb) as (r & -> & Hr); [lia|unfold u64_max; lia|].
    eexists. split; [reflexivity|]. lia.
Qed.

(** ** Properties of the union estimate *)

(** the estimate is always defined, never exceeds the sum of the input entry
    counts and is at least one entry. *)
Theorem EstimateKMVUnionEntries_bounds (inputs : list (option VirtualSST)) (naive_entries : Z)
    (Hnaive : 1 <= naive_entries < 2 ^ 63)
    (Hsamples : sum_samples (input_ranges inputs) <= 2 ^ 63) :
  exists r, EstimateKMVUnionEntries inputs naive_entries = Some r /\ 1 <= r <= naive_entries.
Proof. by apply EstimateUnion_gen. Qed.

(** inputs with disjoint key sets have no sampling noise: the estimate is the
    sum of the entry counts. *)
Theorem EstimateKMVUnionEntries_disjoint (keyss : list (list Z))
    (inputs : list (option VirtualSST)) (naive_entries : Z)
    (Hrep : represents keyss inputs) (Hdisj : NoDup (concat keyss)) :
  EstimateKMVUnionEntries inputs naive_entries = Some naive_entries.
Proof.
  unfold EstimateKMVUnionEntries. case_decide; [done|].
  destruct (union_scan _ _ _) as [[c th]|] eqn:Hs; [|done].
  apply union_scan_min in Hs as (_ & Hth & _).
  pose proof (union_samples_keys keyss inputs th Hrep Hth) as Hp.
  rewrite SortUnique_length_nodup.
  - repeat case_decide; done || lia.
  - rewrite Hp. apply NoDup_filter, fmap_hash_nodup; [by eapply represents_u64|done].
Qed.

(** complete sketches make the estimate exact: it is the number of distinct
    keys of the inputs. *)
Theorem EstimateKMVUnionEntries_exact (keyss : list (list Z)) (inputs : list (option VirtualSST))
    (Hrep : represents keyss inputs) (Hne : Forall (fun ks => ks <> []) keyss)
    (Hcompl : forall r, r ∈ input_ranges inputs -> complete (r_sketch r) = true)
    (Hsmall : Z.of_nat (length (concat keyss)) <= 2 ^ 32) :
  EstimateKMVUnionEntries inputs (Z.of_nat (length (concat keyss))) =
    Some (Z.of_nat (length (remove_dups (concat keyss)))).
Proof.
  pose proof (represents_u64 _ _ Hrep) as Hu. unfold EstimateKMVUnionEntries.
  destruct (decide _) as [[->|H0]|Hn].
  { inversion Hrep. done. }
  { destruct (concat keyss); [done|]. cbn in H0. lia. }
  rewrite (union_scan_complete keyss) by done.
  assert (Hm : union_samples inputs MaxHash ≡ₚ KmvHash.KMVHash <$> concat keyss).
  { rewrite (union_samples_keys keyss), filter_MaxHash; [done|done|].
    intros r Hr. pose proof (union_scan_complete keyss inputs Hrep Hne Hcompl) as Hsc.
    apply union_scan_min in Hsc as (_ & Hth & _). auto. }
  assert (Hlen : length (union_samples inputs MaxHash) = length (concat keyss))
    by (by rewrite Hm, length_fmap).
  assert (Hun : length (SortUniqueByHash (union_samples inputs MaxHash)) =
                length (remove_dups (concat keyss))).
  { rewrite SortUnique_remove_dups, Hm, hash_remove_dups by done. apply length_fmap. }
  pose proof (SortUnique_length_le (union_samples inputs MaxHash)) as Hle.
  rewrite Hlen, Hun in *. case_decide; [tauto|]. case_decide as Heq; [f_equal; lia|].
  assert (0 < length (remove_dups (concat keyss)))%nat.
  { rewrite <- Hun. apply SortUnique_nonempty. intros E. rewrite E in Hlen. cbn in Hlen. lia. }
  set (n := Z.of_nat (length (concat keyss))) in *.
  set (u := Z.of_nat (length (remove_dups (concat keyss)))) in *.
  destruct (llround_u64_between _ u u (kmv_ratio_exact n u ltac:(lia) ltac:(lia) ltac:(nia)))
    as (r & -> & Hr); [lia|lia|]. cbn. f_equal. lia.
Qed.

(** ** The range estimate *)

(** Buckets with well-formed ranges and counts. *)
Definition range_wf (r : KMVRangeSketch) : Prop :=
  0 <= r_key_min r <= r_key_max r /\ r_key_max r <= u64_max /\ is_u64 (r_num_entries r).

Lemma range_sound_wf K r : range_sound K r -> range_wf r.
Proof. unfold range_sound, range_wf, is_u64. intros (_ & _ & ? & ? & ? & ?). lia. Qed.

Definition overlaps (kmin kmax : Z) (r : KMVRangeSketch) : Prop :=
  r_key_min r <= kmax /\ kmin <= r_key_max r.

Lemma pieces_elem inputs kmin kmax r : r ∈ pieces inputs kmin kmax <->
  exists v, Some v ∈ inputs /\ key_min v <= kmax /\ kmin <= key_max v /\
    r ∈ kmv_ranges v /\ overlaps kmin kmax r.
Proof.
  unfold pieces, overlaps. rewrite list_elem_of_bind. split.
  - intros ([v|] & Hr & Hv); [|by apply not_elem_of_nil in Hr].
    case_decide; [by apply not_elem_of_nil in Hr|].
    apply list_elem_of_filter in Hr as [? ?]. exists v. split; [done|]. split_and!; (done || lia).
  - intros (v & Hv & ? & ? & Hr & ?). exists (Some v). split; [|done].
    rewrite decide_False by lia. apply list_elem_of_filter. split; [lia|done].
Qed.

Abbreviation nonneg80 := (FloatTheory.nonneg F80.prec F80.emax).

(** The share of a piece: positive and finite. *)
Lemma share_positive n o s : 1 <= n <= 2 ^ 64 -> 1 <= o <= 2 ^ 64 -> 1 <= s <= 2 ^ 64 ->
  let f := F80.div (F80.mul (F80.of_Z n) (F80.of_Z o)) (F80.of_Z s) in
  valid80 f /\ is_fin f = true /\ 0 < V80 f.
Proof.
  intros Hn Ho Hs f. destruct prec80 as [Hp He]. pose proof one80_pos as H1.
  destruct (of_Z_80 n ltac:(lia)) as (Hvn & Hfn & HVn).
  destruct (of_Z_80 o ltac:(lia)) as (Hvo & Hfo & HVo).
  destruct (of_Z_80 s ltac:(lia)) as (Hvs & Hfs & HVs).
  assert (Hw : rep_int F80.prec F80.emax (2 ^ 128)).
  { change (2 ^ 128) with (2 ^ 64 * 2 ^ 64). apply rep_int_shift_le; (done || by vm_compute). }
  assert (Hw1 : rep_int F80.prec F80.emax 1) by (apply rep_int_small; (done || by vm_compute)).
  assert (Hle : V80 (F80.of_Z n) * V80 (F80.of_Z o) <= 2 ^ 128 * one80 * one80).
  { replace (2 ^ 128 * one80 * one80) with ((2 ^ 64 * one80) * (2 ^ 64 * one80)) by ring.
    apply Z.mul_le_mono_nonneg; nia. }
  destruct (mul_upper F80.prec F80.emax Hp He (F80.of_Z n) (F80.of_Z o) (2 ^ 128))
    as (Hvp & Hfp & HVp); auto; try nia.
  assert (Hge : 1 * one80 * one80 <= V80 (F80.of_Z n) * V80 (F80.of_Z o))
    by (apply Z.mul_le_mono_nonneg; nia).
  pose proof (mul_lower F80.prec F80.emax Hp He (F80.of_Z n) (F80.of_Z o) 1 Hvn Hvo Hfn Hfo
    ltac:(nia) ltac:(nia) Hw1 ltac:(lia) Hge Hfp) as HLp.
  assert (Hdle : V80 (F80.mul (F80.of_Z n) (F80.of_Z o)) <= 2 ^ 128 * V80 (F80.of_Z s)).
  { etransitivity; [apply HVp|]. apply Z.mul_le_mono_nonneg_l; nia. }
  destruct (div_upper F80.prec F80.emax Hp He (F80.mul (F80.of_Z n) (F80.of_Z o)) (F80.of_Z s) (2 ^ 128))
    as (Hvq & Hfq & HVq); auto; try nia; [apply HVp|].
  split; [done|]. split; [done|].
  rewrite Z.mul_1_l in HLp.
  refine (div_positive F80.prec F80.emax Hp He _ _ 64 Hvp Hvs Hfp Hfs HLp _ _ Hfq); [nia|].
  unfold SpecFloat.emin, F80.prec, F80.emax. lia.
Qed.

(** Positive, possibly infinite. *)
Definition pos80 (f : spec_float) : Prop := f = pos_inf \/ 0 < V80 f.

Lemma density_step_spec kmin kmax d r : 0 <= kmin <= kmax -> kmax <= u64_max -> range_wf r ->
  overlaps kmin kmax r -> nonneg80 d ->
  let d' := density_step kmin kmax d r in
  nonneg80 d' /\ (pos80 d \/ 0 < r_num_entries r -> pos80 d').
Proof.
  intros Hk Hku (Hr & Hru & Hn) Ho Hd. unfold is_u64, overlaps, u64_max in *. cbn zeta.
  unfold density_step. rewrite !u128_small by lia.
  case_decide as Hc; [|split; [done|intros [|]; [done|lia]]].
  rewrite decide_True by lia.
  destruct (share_positive (r_num_entries r)
    (Z.min (r_key_max r) kmax - Z.max (r_key_min r) kmin + 1) (r_key_max r - r_key_min r + 1))
    as (Hv & Hf & HV); [lia..|].
  destruct prec80 as [Hp He].
  destruct (add_nonneg F80.prec F80.emax Hp d _ Hd Hv Hf ltac:(lia)) as [Hnn Hge].
  split; [done|]. intros _. destruct Hge as [E|[_ H2]]; [left; exact E|right].
  eapply Z.lt_le_trans; [exact HV|exact H2].
Qed.

Lemma density_fold kmin kmax ps : 0 <= kmin <= kmax -> kmax <= u64_max ->
  Forall range_wf ps -> Forall (overlaps kmin kmax) ps -> forall d, nonneg80 d ->
  let d' := fold_left (density_step kmin kmax) ps d in
  nonneg80 d' /\ (pos80 d \/ Exists (fun r => 0 < r_num_entries r) ps -> pos80 d').
Proof.
  intros Hk Hku. induction ps as [|r ps IH]; intros Hwf Hov d Hd; cbn [fold_left].
  { split; [done|]. intros [|?%Exists_nil]; done. }
  apply Forall_cons_iff in Hwf as [Hr Hwf]. apply Forall_cons_iff in Hov as [Ho Hov].
  destruct (density_step_spec kmin kmax d r Hk Hku Hr Ho Hd) as [Hn Hs].
  destruct (IH Hwf Hov _ Hn) as [Hn' Hs']. split; [done|].
  rewrite Exists_cons. tauto.
Qed.

Lemma nonneg80_zero : nonneg80 fzero.
Proof. split; [done|]. right. done. Qed.

Lemma fmin_cap d cap : nonneg80 d -> 1 <= cap <= 2 ^ 64 ->
  let f := fmin d (F80.of_Z cap) in between80 f 0 cap /\ (pos80 d -> 0 < V80 f).
Proof.
  intros [Hv Hd] Hcap f. pose proof one80_pos as H1. destruct prec80 as [Hp He].
  destruct (of_Z_80 cap ltac:(lia)) as (Hvc & Hfc & HVc).
  assert (Hcapf : between80 (F80.of_Z cap) 0 cap) by (split; [done|split; [done|nia]]).
  assert (0 < V80 (F80.of_Z cap)) by nia.
  destruct Hd as [->|[Hf H0]].
  { assert (f = F80.of_Z cap) as ->; [|auto].
    unfold f, fmin. destruct (F80.of_Z cap) as [| | |[] m e]; done. }
  unfold f, fmin. destruct (flt (F80.of_Z cap) d) eqn:E; [auto|].
  split; [|intros [->|]; done]. split; [done|]. split; [done|]. split; [lia|].
  destruct (Z.le_gt_cases (V80 d) (V80 (F80.of_Z cap))) as [|Hgt]; [lia|].
  apply (flt_V F80.prec F80.emax Hp) in Hgt; [congruence|done..].
Qed.

Lemma pieces_cap_sum ps : Forall range_wf ps -> sum_entries ps <= u64_max ->
  pieces_cap ps = sum_entries ps.
Proof.
  intros Hwf Hle. unfold pieces_cap.
  enough (H : forall acc, 0 <= acc -> acc + sum_entries ps <= u64_max ->
    fold_left (fun cap p => cap +% r_num_entries p) ps acc = acc + sum_entries ps)
    by (rewrite H; lia).
  clear Hle. induction ps as [|p ps IH]; intros acc Hacc Hle; cbn [fold_left]; [cbn; lia|].
  apply Forall_cons_iff in Hwf as [(_ & _ & Hp) Hwf]. unfold sum_entries, is_u64 in *.
  cbn [foldr] in *. assert (0 <= foldr (fun r a => r_num_entries r + a) 0 ps).
  { clear -Hwf. induction Hwf as [|r ps (_ & _ & Hr) _ IH]; cbn; unfold is_u64 in *; lia. }
  rewrite u64_small by solve_u64. rewrite IH by (done || lia). lia.
Qed.

Lemma pieces_theta_min ps r : r ∈ ps -> pieces_theta ps <= theta_hash (r_sketch r).
Proof.
  unfold pieces_theta. generalize MaxHash as th. intros th Hr.
  assert (Hmono : forall ps th, fold_left (fun t p => Z.min t (theta_hash (r_sketch p))) ps th <= th).
  { clear. induction ps as [|p ps IH]; intros th; cbn; [lia|]. specialize (IH (Z.min th (theta_hash (r_sketch p)))). lia. }
  revert th. induction Hr as [p ps|p q ps Hr IH]; intros th; cbn; [|apply IH].
  specialize (Hmono ps (Z.min th (theta_hash (r_sketch p)))). lia.
Qed.

Lemma ceil_positive f hi : between80 f 0 hi -> 0 < V80 f -> hi <= u64_max ->
  exists r, ceil_u64 f = Some r /\ 1 <= r <= hi.
Proof.
  intros Hb Hpos Hhi. destruct (ceil_u64_between f 0 hi Hb ltac:(lia) Hhi) as (r & Hr & Hr').
  exists r. split; [done|]. enough (r <> 0) by lia. intros ->.
  destruct f as [| | |[] m e]; try done; [cbn in Hpos; lia|].
  unfold ceil_u64, ceil_Z in Hr. cbn in Hr. unfold as_u64 in Hr. case_decide; [|done].
  injection Hr as Hr. unfold mag_up in Hr. case_decide.
  - pose proof (Z.pow_pos_nonneg 2 e ltac:(lia) ltac:(lia)). nia.
  - pose proof (Z.pow_pos_nonneg 2 (- e) ltac:(lia) ltac:(lia)).
    pose proof (Z.mul_div_le (- Z.pos m) (2 ^ (- e)) ltac:(lia)). nia.
Qed.

Lemma pieces_wf inputs kmin kmax :
  (forall v r, Some v ∈ inputs -> r ∈ kmv_ranges v -> range_wf r) ->
  Forall range_wf (pieces inputs kmin kmax) /\
  Forall (overlaps kmin kmax) (pieces inputs kmin kmax).
Proof.
  intros Hwf. split; apply Forall_forall; intros r (v & Hv & _ & _ & Hr & Ho)%pieces_elem; eauto.
Qed.

Lemma sum_entries_pos ps : Forall range_wf ps -> 0 < sum_entries ps ->
  Exists (fun r => 0 < r_num_entries r) ps.
Proof.
  intros Hwf. induction Hwf as [|r ps Hr _ IH]; unfold sum_entries in *; cbn [foldr]; [lia|].
  intros Hpos. rewrite Exists_cons. destruct (decide (0 < r_num_entries r)); [by left|right].
  apply IH. lia.
Qed.

Lemma sum_entries_nonneg ps : Forall range_wf ps -> 0 <= sum_entries ps.
Proof.
  induction 1 as [|r ps (_ & _ & Hr) _ IH]; unfold sum_entries, is_u64 in *; cbn [foldr]; lia.
Qed.

Lemma EstimateForRange_gen inputs kmin kmax :
  is_u64 kmin -> is_u64 kmax ->
  (forall v r, Some v ∈ inputs -> r ∈ kmv_ranges v -> range_wf r) ->
  let ps := pieces inputs kmin kmax in
  sum_entries ps <= u64_max -> sum_samples ps <= 2 ^ 63 ->
  exists n, EstimateKMVUnionEntriesForRange inputs kmin kmax = Some n /\
    0 <= n <= sum_entries ps /\ (kmin <= kmax -> 0 < sum_entries ps -> 1 <= n).
Proof.
  intros Hk1 Hk2 Hwf ps Hcap Hsamp.
  destruct (pieces_wf inputs kmin kmax Hwf) as [Hw Ho]. fold ps in Hw, Ho.
  pose proof (sum_entries_nonneg ps Hw) as H0. unfold is_u64, u64_max in *.
  unfold EstimateKMVUnionEntriesForRange. fold ps.
  destruct (decide _) as [Hd|Hd].
  { exists 0. split; [done|]. split; [lia|]. destruct Hd as [->|]; [|lia].
    intros _ Hpos. cbn in Hpos. lia. }
  destruct (decide (ps = [])) as [E|_].
  { exists 0. split; [done|]. split; [lia|]. intros _ Hpos. rewrite E in Hpos. cbn in Hpos. lia. }
  rewrite (pieces_cap_sum ps Hw Hcap). set (cap := sum_entries ps) in *.
  destruct (decide (cap = 0)) as [|Hc0]; [exists 0; split; [done|lia]|].
  destruct (density_fold kmin kmax ps) with (d := fzero) as [Hnn Hpos];
    [lia|unfold u64_max; lia|done|done|apply nonneg80_zero|].
  specialize (Hpos (or_intror (sum_entries_pos ps Hw ltac:(lia)))).
  destruct (fmin_cap _ cap Hnn ltac:(lia)) as [Hb Hfpos]. specialize (Hfpos Hpos).
  set (inr := fmin _ (F80.of_Z cap)) in *.
  set (merged := range_samples ps (pieces_theta ps) kmin kmax).
  pose proof (SortUnique_length_le merged) as Hle.
  assert (Hml : Z.of_nat (length merged) <= sum_samples ps) by apply collect_length_le.
  case_decide as Hs.
  - destruct (ceil_positive inr cap Hb Hfpos) as (n & -> & Hn); [unfold u64_max; lia|].
    eexists. split; [reflexivity|]. lia.
  - set (u := Z.of_nat (length (SortUniqueByHash merged))) in *.
    set (e := Z.of_nat (length merged)) in *.
    destruct (ceil_u64_between _ 0 cap
      (kmv_ratio_between inr cap u e Hb ltac:(lia) ltac:(lia) ltac:(lia)))
      as (n & -> & Hn); [lia|unfold u64_max; lia|].
    eexists. split; [reflexivity|]. lia.
Qed.

(** the estimate for a key range is always defined and at most the entry
    count of the buckets that overlap the range; it is zero only when they
    hold no entry. *)
Theorem EstimateKMVUnionEntriesForRange_bounds (inputs : list (option VirtualSST)) (kmin kmax : Z)
    (Hk1 : is_u64 kmin) (Hk2 : is_u64 kmax)
    (Hwf : forall v r, Some v ∈ inputs -> r ∈ kmv_ranges v -> range_wf r)
    (Hcap : sum_entries (pieces inputs kmin kmax) <= u64_max)
    (Hsamples : sum_samples (pieces inputs kmin kmax) <= 2 ^ 63) :
  exists n, EstimateKMVUnionEntriesForRange inputs kmin kmax = Some n /\
    0 <= n <= sum_entries (pieces inputs kmin kmax) /\
    (kmin <= kmax -> 0 < sum_entries (pieces inputs kmin kmax) -> 1 <= n).
Proof. by apply EstimateForRange_gen. Qed.

(** ** Descriptors built from keys *)

(** The descriptor of a sorted key list, with the model and the sketches the
    flush path computes from it. *)
Definition vsst_of_keys `{HeapOps} (env : Env) (keys : list Z) (error_bound : spec_float)
    (bytes : Z) : VirtualSST :=
  mkVSST (GreedyPLRFit keys error_bound)
    (BuildKMVRangeSketchesFromSortedKeys env keys 0 0)
    (hd 0 keys) (List.last keys 0) (Z.of_nat (length keys)) bytes.

Lemma hd_last_bounds keys k : StronglySorted Z.lt keys -> k ∈ keys ->
  hd 0 keys <= k <= List.last keys 0.
Proof.
  intros Hs. revert k. induction Hs as [|x l Hs IH Hall]; intros k; [by intros ?%not_elem_of_nil|].
  rewrite Forall_forall in Hall. intros [->|Hk]%elem_of_cons; cbn [hd].
  - split; [lia|]. destruct l as [|y l]; [done|].
    specialize (IH y ltac:(by left)). specialize (Hall y ltac:(by left)).
    change (List.last (x :: y :: l) 0) with (List.last (y :: l) 0). cbn [hd] in IH. lia.
  - specialize (IH k Hk). specialize (Hall k Hk). split; [lia|].
    destruct l; [by apply not_elem_of_nil in Hk|apply IH].
Qed.

Lemma vsst_of_keys_sound `{HeapLaws} env keys eb bytes :
  StronglySorted Z.lt keys -> Forall is_u64 keys -> Z.of_nat (length keys) < 2 ^ 32 ->
  vsst_sound (fun k => k ∈ keys) (vsst_of_keys env keys eb bytes).
Proof.
  intros Hs Hu Hn. split; [|split].
  - by apply BuildKMVRangeSketches_gen.
  - by apply BuildKMVRangeSketches_disjoint.
  - intros k Hk. rewrite Forall_forall in Hu. split; [auto|by apply hd_last_bounds].
Qed.

(** ** Instances *)

Definition demo_a : list Z := [2; 5; 9; 14; 20].
Definition demo_b : list Z := [5; 7; 9; 30].
Definition demo_c : list Z := [1; 3; 4].

Definition demo_vsst (keys : list Z) : VirtualSST :=
  vsst_of_keys (mkEnv None None) keys (F64.of_Z 1) 0.

Lemma demo_represents keyss : Forall (fun ks => StronglySorted Z.lt ks) keyss ->
  Forall (Forall is_u64) keyss -> Forall (fun ks => Z.of_nat (length ks) < 2 ^ 32) keyss ->
  represents keyss ((fun ks => Some (demo_vsst ks)) <$> keyss).
Proof.
  intros Hs Hu Hn. induction keyss as [|ks keyss IH]; [constructor|].
  apply Forall_cons_iff in Hs as [Hs1 Hs]. apply Forall_cons_iff in Hu as [Hu1 Hu].
  apply Forall_cons_iff in Hn as [Hn1 Hn]. constructor; [|by apply IH].
  exists (demo_vsst ks). split; [done|]. split; [by apply lt_sorted_nodup|].
  by apply vsst_of_keys_sound.
Qed.

Lemma EstimateKMVUnionEntries_bounds_witness :
  exists r, EstimateKMVUnionEntries [Some (demo_vsst demo_a); Some (demo_vsst demo_b)] 9 = Some r /\
    1 <= r <= 9.
Proof.
  apply (EstimateKMVUnionEntries_bounds [Some (demo_vsst demo_a); Some (demo_vsst demo_b)] 9);
    [lia|by vm_compute].
Defined.

Lemma EstimateKMVUnionEntries_disjoint_witness :
  EstimateKMVUnionEntries [Some (demo_vsst demo_a); Some (demo_vsst demo_c)] 8 = Some 8.
Proof.
  apply (EstimateKMVUnionEntries_disjoint [demo_a; demo_c]).
  - apply demo_represents; repeat constructor; by vm_compute.
  - apply (bool_decide_unpack _). by vm_compute.
Defined.

Lemma EstimateKMVUnionEntries_exact_witness :
  EstimateKMVUnionEntries [Some (demo_vsst demo_a); Some (demo_vsst demo_b)] 9 = Some 7.
Proof.
  apply (EstimateKMVUnionEntries_exact [demo_a; demo_b]
    [Some (demo_vsst demo_a); Some (demo_vsst demo_b)]).
  - apply demo_represents; repeat constructor; by vm_compute.
  - repeat constructor; discriminate.
  - apply Forall_forall, (bool_decide_unpack _). by vm_compute.
  - by vm_compute.
Defined.

Lemma EstimateKMVUnionEntriesForRange_bounds_witness :
  exists n, EstimateKMVUnionEntriesForRange [Some (demo_vsst demo_a)] 4 15 = Some n /\
    0 <= n <= 3 /\ (4 <= 15 -> 0 < 3 -> 1 <= n).
Proof.
  apply (EstimateKMVUnionEntriesForRange_bounds [Some (demo_vsst demo_a)] 4 15).
  - by vm_compute.
  - by vm_compute.
  - intros v r [= ->]%list_elem_of_singleton. revert r. apply Forall_forall.
    apply (bool_decide_unpack _). by vm_compute.
  - by vm_compute.
  - by vm_compute.
Defined.
