(* ===== verification/KmvMerge.v ===== *)
(** * Merging sketches

    [DescriptorSketch], [MergeKMVSketchesForRange] and
    [MergeKMVRangeSketchesForOutput] of [db/virtual_compaction/virtual_sst.cc]:
    the whole-file sketch of a descriptor and the range sketches of a merge
    output.  The theorems show that a merged sketch represents exactly the union
    of what its inputs represent, restricted to its key range. *)

From Stdlib Require Import ZArith Lia SpecFloat Sorted.
From stdpp Require Import base numbers list sorting.
From S2P Require Import Prelude FloatModel FloatTheory KmvHash Plr Kmv KmvEstimate.

Local Open Scope Z_scope.

(** ** Definitions *)

Definition all_complete (rs : list KMVRangeSketch) : bool :=
  forallb (fun r => complete (r_sketch r)) rs.

Definition DescriptorSketch (env : Env) (vsst : VirtualSST) (max_samples : Z) : KMVSketch :=
  let ranges := kmv_ranges vsst in
  if decide (ranges = []) then empty_sketch
  else
    let max_samples := if decide (max_samples = 0) then VirtualSSTKMVSamples env else max_samples in
    let compl := all_complete ranges in
    let theta := pieces_theta ranges in
    let s := ranges ≫= (fun r => filter (fun h => h <= theta) (samples (r_sketch r))) in
    let s := SortUniqueByHash s in
    let trimmed := bool_decide (max_samples < Z.of_nat (length s)) in
    let s := SortByHashAndTrim s max_samples in
    let compl := compl && negb trimmed in
    mkSketch s
      (match compl, last s with
       | true, _ | _, None => MaxHash
       | false, Some back => Z.min theta back
       end) compl.

Definition MergeKMVSketchesForRange (env : Env) (inputs : list (option VirtualSST))
    (kmin kmax max_samples : Z) : KMVSketch :=
  if decide (inputs = [] \/ kmax < kmin) then empty_sketch
  else
    let max_samples := if decide (max_samples = 0) then VirtualSSTKMVSamples env else max_samples in
    let ps := pieces inputs kmin kmax in
    if decide (ps = []) then empty_sketch
    else
      let compl := all_complete ps in
      let theta := pieces_theta ps in
      let s := SortUniqueByHash (range_samples ps theta kmin kmax) in
      let theta := if compl then MaxHash else theta in
      let trimmed := bool_decide (0 < max_samples /\ max_samples < Z.of_nat (length s)) in
      let compl := if compl && trimmed then false else compl in
      let s := SortByHashAndTrim s max_samples in
      let theta :=
        if compl then MaxHash
        else match trimmed, last s with true, Some back => back | _, _ => theta end in
      mkSketch s theta compl.

(** Bucket [i] of an output; [None] where the bucket is dropped, the outer
    [option] for an undefined conversion in the estimate. *)
Definition output_range (env : Env) (inputs : list (option VirtualSST)) (kmin kmax : Z)
    (span range_count samples_per_range : Z) (i : nat) : option (option KMVRangeSketch) :=
  let start_off := u128 (span * Z.of_nat i) / range_count in
  let end_off := u128 (span * (Z.of_nat i + 1)) / range_count in
  let range_min := kmin +% u64 start_off in
  let range_max := kmin +% u64 (if decide (end_off = 0) then 0 else end_off - 1) in
  let range_max := if decide (range_max < range_min) then range_min else range_max in
  n ← EstimateKMVUnionEntriesForRange inputs range_min range_max;
  let sk := MergeKMVSketchesForRange env inputs range_min range_max samples_per_range in
  Some (if decide (0 < n \/ samples sk <> [])
        then Some (mkRange range_min range_max n sk) else None).

Definition MergeKMVRangeSketchesForOutput (env : Env) (inputs : list (option VirtualSST))
    (kmin kmax num_entries max_samples max_ranges : Z) : option (list KMVRangeSketch) :=
  if decide (inputs = [] \/ num_entries = 0 \/ kmax < kmin) then Some []
  else
    let max_samples := if decide (max_samples = 0) then VirtualSSTKMVSamples env else max_samples in
    let max_ranges := if decide (max_ranges = 0) then VirtualSSTKMVRangeBuckets env else max_ranges in
    let range_count := Z.min max_ranges num_entries in
    if decide (range_count = 0) then Some []
    else
      let span := u128 (kmax - kmin + 1) in
      let range_count := Z.min range_count span in
      let samples_per_range := Z.max 1 (max_samples / range_count) in
      rs ← mapM (output_range env inputs kmin kmax span range_count samples_per_range)
             (seq 0 (Z.to_nat range_count));
      Some (omap id rs).

(** ** Trimming a sketch *)

(** Cutting strictly increasing samples to the budget and lowering the
    threshold to the last kept one. *)
Lemma trim_strict s ms : StronglySorted Z.lt s -> 1 <= ms ->
  SortByHashAndTrim s ms = take (Z.to_nat ms) s.
Proof.
  intros Hs Hms. unfold SortByHashAndTrim. destruct s as [|x s]; [by rewrite take_nil|].
  rewrite sort_id by (by apply lt_sorted_le). rewrite decide_True by lia.
  case_decide; [done|]. rewrite take_ge; [done|lia].
Qed.

Lemma trim_threshold (K : Z -> Prop) s theta ms t : StronglySorted Z.lt s ->
  (forall h, h ∈ s <-> is_u64 h /\ h <= theta /\ K (sample_key h)) ->
  last (take (Z.to_nat ms) s) = Some t ->
  t <= theta /\ forall h, h ∈ take (Z.to_nat ms) s <-> is_u64 h /\ h <= t /\ K (sample_key h).
Proof.
  intros Hs Hin Hl.
  assert (Ht : t <= theta).
  { assert (Hts : t ∈ take (Z.to_nat ms) s) by (apply last_Some_elem_of; done).
    apply (take_threshold _ _ t t Hs Hl) in Hts as [Hts _]. by apply Hin in Hts as (_ & ? & _). }
  split; [done|]. intros h. rewrite (take_threshold _ _ t h Hs Hl), Hin.
  split; [tauto|]. intros (? & ? & ?). split; [|done]. split; [done|]. split; [lia|done].
Qed.

Lemma last_take_none (s : list Z) ms : 1 <= ms -> last (take (Z.to_nat ms) s) = None -> s = [].
Proof.
  intros Hms Hl%last_None. destruct s; [done|]. destruct (Z.to_nat ms) eqn:E; [lia|done].
Qed.

Lemma all_complete_true rs :
  (forall r, r ∈ rs -> complete (r_sketch r) = true -> theta_hash (r_sketch r) = MaxHash) ->
  all_complete rs = true -> pieces_theta rs = MaxHash.
Proof.
  intros Hs Hc. unfold all_complete in Hc. rewrite forallb_forall in Hc. unfold pieces_theta.
  assert (Hall : Forall (fun r => theta_hash (r_sketch r) = MaxHash) rs).
  { rewrite Forall_forall. intros r Hr. apply Hs; [done|]. apply Hc. by apply list_elem_of_In. }
  clear Hc Hs. induction Hall as [|r rs Hr _ IH]; [done|]. cbn. rewrite Hr, Z.min_id. exact IH.
Qed.

(** Restricting the buckets only lowers the sums. *)
Lemma filter_sums (P : KMVRangeSketch -> Prop) `{forall r, Decision (P r)} rs : Forall range_wf rs ->
  sum_entries (filter P rs) <= sum_entries rs /\ sum_samples (filter P rs) <= sum_samples rs.
Proof.
  induction 1 as [|r rs (_ & _ & Hr) _ [IH1 IH2]]; [done|]. rewrite filter_cons.
  unfold sum_entries, sum_samples, is_u64 in *. case_decide; cbn [foldr]; lia.
Qed.

Lemma sums_app rs1 rs2 :
  sum_entries (rs1 ++ rs2) = sum_entries rs1 + sum_entries rs2 /\
  sum_samples (rs1 ++ rs2) = sum_samples rs1 + sum_samples rs2.
Proof.
  unfold sum_entries, sum_samples. induction rs1 as [|r rs1 [IH1 IH2]]; cbn [app foldr]; lia.
Qed.

Lemma sum_samples_nonneg rs : 0 <= sum_samples rs.
Proof. unfold sum_samples. induction rs; cbn [foldr]; lia. Qed.

Lemma pieces_sums_le inputs a b :
  (forall v r, Some v ∈ inputs -> r ∈ kmv_ranges v -> range_wf r) ->
  sum_entries (pieces inputs a b) <= sum_entries (input_ranges inputs) /\
  sum_samples (pieces inputs a b) <= sum_samples (input_ranges inputs).
Proof.
  unfold pieces, input_ranges. induction inputs as [|i inputs IH]; intros Hwf; [done|].
  cbn [mbind list_bind]. fold (pieces inputs a b) (input_ranges inputs) in *.
  destruct IH as [IH1 IH2]; [intros v r Hv; apply Hwf; by right|].
  destruct i as [v|]; [|done].
  assert (Hv : Forall range_wf (kmv_ranges v)).
  { apply Forall_forall. intros r. apply (Hwf v r). by left. }
  destruct (sums_app (kmv_ranges v) (input_ranges inputs)) as [-> ->].
  case_decide.
  - pose proof (sum_entries_nonneg _ Hv). pose proof (sum_samples_nonneg (kmv_ranges v)). cbn [app]. lia.
  - destruct (sums_app (overlapping a b (kmv_ranges v)) (pieces inputs a b)) as [-> ->].
    destruct (filter_sums (fun r => ~ (r_key_max r < a \/ b < r_key_min r)) _ Hv).
    unfold overlapping. lia.
Qed.

(** ** Soundness of merged sketches *)

Section MergeSound.
Context (env : Env) (inputs : list (option VirtualSST)).

(** The key set each input describes, and their union. *)
Context (Kof : VirtualSST -> Z -> Prop).
Context (Hinputs : forall v, Some v ∈ inputs -> vsst_sound (Kof v) v).

Definition union_keys (k : Z) : Prop := exists v, Some v ∈ inputs /\ Kof v k.

Lemma piece_sound kmin kmax r : r ∈ pieces inputs kmin kmax ->
  exists v, Some v ∈ inputs /\ range_sound (Kof v) r.
Proof.
  intros (v & Hv & _ & _ & Hr & _)%pieces_elem. exists v. split; [done|].
  destruct (Hinputs v Hv) as ([Hs _] & _ & _). rewrite Forall_forall in Hs. auto.
Qed.

Lemma range_samples_elem kmin kmax theta h :
  (forall r, r ∈ pieces inputs kmin kmax -> theta <= theta_hash (r_sketch r)) ->
  h ∈ range_samples (pieces inputs kmin kmax) theta kmin kmax <->
  is_u64 h /\ h <= theta /\ union_keys (sample_key h) /\ kmin <= sample_key h <= kmax.
Proof.
  intros Hth. unfold range_samples. rewrite list_elem_of_bind.
  setoid_rewrite list_elem_of_filter. split.
  - intros (r & [[Hle Hk] Hh] & Hr). destruct (piece_sound _ _ _ Hr) as (v & Hv & (_ & Hin & _) & _).
    apply Hin in Hh as (Hu & _ & HK & _).
    split; [done|]. split; [done|]. split; [by exists v|done].
  - intros (Hu & Hle & (v & Hv & HK) & Hk). destruct (Hinputs v Hv) as ([Hs Hcov] & _ & Hkv).
    destruct (Hcov _ HK) as (r & Hr & Hrk). destruct (Hkv _ HK) as [_ Hb]. unfold in_range in Hrk.
    assert (Hp : r ∈ pieces inputs kmin kmax).
    { apply pieces_elem. exists v. unfold overlaps. split_and!; try done; lia. }
    exists r. split; [|done]. split; [done|]. rewrite Forall_forall in Hs.
    destruct (Hs r Hr) as [(_ & Hin & _) _]. apply Hin. specialize (Hth r Hp).
    split; [done|]. split; [lia|]. split; [done|exact Hrk].
Qed.

Lemma pieces_nil_no_keys kmin kmax k : pieces inputs kmin kmax = [] ->
  union_keys k -> kmin <= k <= kmax -> False.
Proof.
  intros Hp (v & Hv & HK) Hk. destruct (Hinputs v Hv) as ([_ Hcov] & _ & Hkv).
  destruct (Hcov _ HK) as (r & Hr & Hrk). destruct (Hkv _ HK) as [_ Hb]. unfold in_range in Hrk.
  assert (r ∈ pieces inputs kmin kmax) as Hin.
  { apply pieces_elem. exists v. unfold overlaps. split_and!; try done; lia. }
  rewrite Hp in Hin. by apply not_elem_of_nil in Hin.
Qed.

Lemma sum_entries_elem rs r : Forall range_wf rs -> r ∈ rs -> r_num_entries r <= sum_entries rs.
Proof.
  intros Hwf Hr. revert Hwf. unfold sum_entries.
  induction Hr as [r rs|r r' rs Hr IH]; intros [(_ & _ & H) Hwf]%Forall_cons_iff; cbn [foldr].
  - pose proof (sum_entries_nonneg rs Hwf). unfold sum_entries, is_u64 in *. lia.
  - specialize (IH Hwf). unfold is_u64 in *. lia.
Qed.

(** A range with a key has a bucket that counts it. *)
Lemma pieces_entries_pos kmin kmax k : union_keys k -> kmin <= k <= kmax ->
  0 < sum_entries (pieces inputs kmin kmax).
Proof.
  intros (v & Hv & HK) Hk. destruct (Hinputs v Hv) as ([Hs Hcov] & _ & Hkv).
  destruct (Hcov _ HK) as (r & Hr & Hrk). destruct (Hkv _ HK) as [_ Hb].
  rewrite Forall_forall in Hs. destruct (Hs r Hr) as (_ & Hn & _). specialize (Hn k HK Hrk).
  unfold in_range in Hrk.
  assert (Hin : r ∈ pieces inputs kmin kmax).
  { apply pieces_elem. exists v. unfold overlaps. split_and!; try done; lia. }
  apply sum_entries_elem in Hin; [lia|]. apply Forall_forall.
  intros r' (v' & _ & Hr')%piece_sound. by eapply range_sound_wf.
Qed.

Lemma empty_sketch_sound (K : Z -> Prop) : (forall k, is_u64 k -> ~ K k) -> sketch_sound K empty_sketch.
Proof.
  intros HK. split; [constructor|]. split; [|done]. intros h. cbn. split.
  - by intros ?%not_elem_of_nil.
  - intros (Hu & _ & Hk). destruct (HK (sample_key h)); [by apply KmvHash.KMVUnhash_u64|done].
Qed.

Lemma eff_pos n : 0 <= n -> 1 <= (if decide (n = 0) then VirtualSSTKMVSamples env else n).
Proof. intros Hn. pose proof (VirtualSSTKMVSamples_pos env). case_decide; lia. Qed.

Lemma MergeKMVSketches_sound_gen kmin kmax max_samples : 0 <= max_samples ->
  sketch_sound (fun k => union_keys k /\ kmin <= k <= kmax)
    (MergeKMVSketchesForRange env inputs kmin kmax max_samples).
Proof.
  intros Hms. unfold MergeKMVSketchesForRange. case_decide as Hd.
  { apply empty_sketch_sound. intros k _ [(v & Hv & _) Hk]. destruct Hd as [->|Hd]; [|lia].
    by apply not_elem_of_nil in Hv. }
  pose proof (eff_pos max_samples Hms) as Hpos. set (ms := if decide _ then _ else _) in *.
  case_decide as Hp.
  { apply empty_sketch_sound. intros k _ [Hk Hr]. by eapply pieces_nil_no_keys. }
  set (ps := pieces inputs kmin kmax). set (theta := pieces_theta ps).
  set (s := SortUniqueByHash (range_samples ps theta kmin kmax)).
  destruct (SortUniqueByHash_spec (range_samples ps theta kmin kmax)) as [Hs Hel]. fold s in Hs, Hel.
  assert (Hin : forall h, h ∈ s <-> is_u64 h /\ h <= theta /\
            (union_keys (sample_key h) /\ kmin <= sample_key h <= kmax)).
  { intros h. rewrite Hel. apply range_samples_elem. intros r Hr. by apply pieces_theta_min. }
  assert (Hc : all_complete ps = true -> theta = MaxHash).
  { apply all_complete_true. intros r Hr. by destruct (piece_sound _ _ _ Hr) as (v & _ & (_ & _ & ?) & _). }
  assert (Htr : SortByHashAndTrim s ms = take (Z.to_nat ms) s) by (by apply trim_strict).
  unfold sketch_sound. cbn [samples theta_hash complete]. rewrite Htr.
  split; [by apply take_sorted|].
  case_bool_decide as Ht.
  - rewrite andb_true_r. replace (if all_complete ps then false else all_complete ps) with false
      by (by destruct (all_complete ps)).
    split; [|done]. destruct (last (take (Z.to_nat ms) s)) as [t|] eqn:Hl.
    + exact (proj2 (trim_threshold (fun k => union_keys k /\ kmin <= k <= kmax)
               s theta ms t Hs Hin Hl)).
    + apply last_take_none in Hl; [|done]. rewrite Hl in Ht. cbn in Ht. lia.
  - rewrite andb_false_r. rewrite take_ge by lia.
    destruct (all_complete ps); [rewrite Hc in Hin by done|]; split; done.
Qed.

(** ** Buckets of an output *)

Context (kmin kmax rc spr : Z).
Context (Hkmin : is_u64 kmin) (Hkmax : is_u64 kmax) (Hk : kmin <= kmax).
Let span := kmax - kmin + 1.
Context (Hrc : 0 < rc <= span) (Hrc64 : rc <= u64_max) (Hspr : 1 <= spr).
Context (Hcap : sum_entries (input_ranges inputs) <= u64_max).
Context (Hsamp : sum_samples (input_ranges inputs) <= 2 ^ 63).

Definition off (i : nat) : Z := span * Z.of_nat i / rc.

Lemma off_bounds i : (i < Z.to_nat rc)%nat -> 0 <= off i < off (i + 1) /\ off (i + 1) <= span.
Proof.
  intros Hi. unfold off.
  pose proof (bucket_idx_strict span rc (Z.of_nat i) Hrc ltac:(lia)).
  pose proof (bucket_idx_le span rc (Z.of_nat i) ltac:(lia) ltac:(lia) ltac:(lia)).
  pose proof (bucket_idx_le span rc (Z.of_nat i + 1) ltac:(lia) ltac:(lia) ltac:(lia)).
  replace (Z.of_nat (i + 1)) with (Z.of_nat i + 1) by lia. lia.
Qed.

Lemma off_mono i j : (i <= j)%nat -> off i <= off j.
Proof. intros Hij. unfold off. apply Z.div_le_mono; [lia|]. apply Z.mul_le_mono_nonneg_l; lia. Qed.

Lemma inputs_wf v r : Some v ∈ inputs -> r ∈ kmv_ranges v -> range_wf r.
Proof.
  intros Hv Hr. destruct (Hinputs v Hv) as ([Hs _] & _). rewrite Forall_forall in Hs.
  by eapply range_sound_wf, Hs.
Qed.

Lemma pieces_sums a b :
  sum_entries (pieces inputs a b) <= sum_entries (input_ranges inputs) /\
  sum_samples (pieces inputs a b) <= sum_samples (input_ranges inputs).
Proof. apply pieces_sums_le, inputs_wf. Qed.

(** Bucket [i]: its range, its sketch, and an entry count of at least one when
    it has keys. *)
Lemma output_range_spec i : (i < Z.to_nat rc)%nat ->
  exists o n, output_range env inputs kmin kmax span rc spr i = Some o /\
    let lo := kmin + off i in let hi := kmin + off (i + 1) - 1 in
    let r := mkRange lo hi n (MergeKMVSketchesForRange env inputs lo hi spr) in
    kmin <= lo <= hi /\ hi <= kmax /\ is_u64 n /\
    (forall k, union_keys k -> lo <= k <= hi -> 1 <= n) /\
    (o = Some r \/ o = None /\ n = 0).
Proof.
  intros Hi. pose proof (off_bounds i Hi) as Ho. unfold is_u64, u64_max in *.
  unfold output_range. replace (Z.of_nat i + 1) with (Z.of_nat (i + 1)) by lia.
  assert (0 <= span * Z.of_nat i <= span * Z.of_nat (i + 1)) by nia.
  assert (span * Z.of_nat (i + 1) < 2 ^ 128) by (unfold span in *; nia).
  rewrite !u128_small by lia. fold (off i) (off (i + 1)).
  rewrite (decide_False (P := off (i + 1) = 0)) by lia.
  rewrite !u64_small by (unfold is_u64, u64_max, span in *; rewrite ?u64_small by solve_u64; lia).
  rewrite decide_False by lia. replace (kmin + (off (i + 1) - 1)) with (kmin + off (i + 1) - 1) by lia.
  set (lo := kmin + off i). set (hi := kmin + off (i + 1) - 1).
  destruct (pieces_sums lo hi) as [Hs1 Hs2].
  destruct (EstimateForRange_gen inputs lo hi) as (n & -> & Hn & Hpos);
    [unfold is_u64, u64_max, lo, span in *; lia|unfold is_u64, u64_max, hi, span in *; lia
    |apply inputs_wf|unfold u64_max; lia|lia|].
  cbn [mbind option_bind]. eexists _, n. split; [reflexivity|]. cbn zeta.
  split; [unfold lo, hi, span in *; lia|]. split; [unfold hi, span in *; lia|].
  split; [lia|]. split.
  - intros k HK Hin. apply Hpos; [lia|]. by eapply pieces_entries_pos.
  - case_decide; [by left|right]. split; [done|]. lia.
Qed.

End MergeSound.

Lemma interval_find (f : nat -> Z) m x : f 0%nat <= x < f m ->
  exists i, (i < m)%nat /\ f i <= x < f (i + 1)%nat.
Proof.
  induction m as [|m IH]; intros Hx; [lia|].
  destruct (decide (x < f m)) as [Hlt|Hge].
  - destruct (IH ltac:(lia)) as (i & ? & ?). exists i. split; [lia|done].
  - exists m. rewrite Nat.add_1_r. split; lia.
Qed.

Lemma StronglySorted_omap_id {A} (R : relation A) (os : list (option A)) :
  (forall i j a b, (i < j)%nat -> os !! i = Some (Some a) -> os !! j = Some (Some b) -> R a b) ->
  StronglySorted R (omap id os).
Proof.
  induction os as [|o os IH]; intros Hl; [constructor|].
  assert (Hrec : StronglySorted R (omap id os)).
  { apply IH. intros i j a b Hij Ha Hb. apply (Hl (S i) (S j)); [lia|done|done]. }
  destruct o as [a|]; cbn; [|done]. constructor; [done|].
  apply Forall_forall. intros b (o & Ho & Eo)%list_elem_of_omap. cbn in Eo. subst o.
  apply list_elem_of_lookup in Ho as [j Hj]. by apply (Hl 0%nat (S j)); [lia|..].
Qed.

Section OutputSound.
Context (env : Env) (inputs : list (option VirtualSST)) (Kof : VirtualSST -> Z -> Prop).
Context (Hinputs : forall v, Some v ∈ inputs -> vsst_sound (Kof v) v).
Context (kmin kmax : Z) (Hkmin : is_u64 kmin) (Hkmax : is_u64 kmax).
Context (Hcap : sum_entries (input_ranges inputs) <= u64_max).
Context (Hsamp : sum_samples (input_ranges inputs) <= 2 ^ 63).

Abbreviation K := (fun k => union_keys inputs Kof k /\ kmin <= k <= kmax).

Context (rc spr : Z) (Hk : kmin <= kmax) (Hrc : 0 < rc <= kmax - kmin + 1).
Context (Hrc64 : rc <= u64_max) (Hspr : 1 <= spr).

Abbreviation lo i := (kmin + off kmin kmax rc i).
Abbreviation hi i := (kmin + off kmin kmax rc (i + 1) - 1).
Abbreviation out_range := (output_range env inputs kmin kmax (kmax - kmin + 1) rc spr).

(** [os] are the results of the bucket loop. *)
Context (os : list (option KMVRangeSketch)).
Context (Hos : mapM out_range (seq 0 (Z.to_nat rc)) = Some os).

Lemma out_index j : (j < Z.to_nat rc)%nat <-> exists o, os !! j = Some o /\ out_range j = Some o.
Proof.
  pose proof Hos as HF. apply mapM_Some in HF. split.
  - intros Hj. assert (Hs : seq 0 (Z.to_nat rc) !! j = Some j) by (apply lookup_seq; lia).
    destruct (Forall2_lookup_l _ _ _ _ _ HF Hs) as (o & ? & ?). by exists o.
  - intros (o & Ho & _). destruct (Forall2_lookup_r _ _ _ _ _ HF Ho) as (i & Hi & _).
    apply lookup_seq in Hi as [-> ?]. done.
Qed.

Lemma out_elem j r : os !! j = Some (Some r) ->
  range_sound K r /\ r_key_min r = lo j /\ r_key_max r = hi j /\
  kmin <= r_key_min r /\ r_key_max r <= kmax /\ (j < Z.to_nat rc)%nat.
Proof.
  intros Hj. assert (Hlt : (j < Z.to_nat rc)%nat).
  { apply out_index. exists (Some r). split; [done|]. pose proof Hos as HF. apply mapM_Some in HF.
    destruct (Forall2_lookup_r _ _ _ _ _ HF Hj) as (i & Hi & Hf). by apply lookup_seq in Hi as [-> _]. }
  destruct (proj1 (out_index j) Hlt) as (o & Ho & Hf). rewrite Hj in Ho. injection Ho as <-.
  destruct (output_range_spec env inputs Kof Hinputs kmin kmax rc spr Hkmin Hkmax Hk Hrc Hrc64
    Hcap Hsamp j Hlt) as (o & n & Hf' & H1 & H2 & H3 & H4 & H5).
  rewrite Hf in Hf'. injection Hf' as <-. destruct H5 as [[= ->]|[? _]]; [|done].
  cbn [r_key_min r_key_max]. split; [|split_and!; (done || lia)].
  unfold range_sound, in_range, is_u64 in *. cbn [r_key_min r_key_max r_sketch r_num_entries].
  split_and!; try lia.
  - eapply sketch_sound_ext; [|apply (MergeKMVSketches_sound_gen env inputs Kof Hinputs); lia].
    intros k _. cbn. split.
    + intros [? ?]. split; [split; [done|lia]|done].
    + intros [[? _] ?]. done.
  - intros k [HK _] Hin. by apply (H4 k).
Qed.

Lemma out_cover k : K k -> exists r, r ∈ omap id os /\ in_range r k.
Proof.
  intros [HK Hkk]. destruct (interval_find (off kmin kmax rc) (Z.to_nat rc) (k - kmin)) as (i & Hi & Hoff).
  { unfold off. cbn zeta. change (Z.of_nat 0) with 0.
    rewrite Z.mul_0_r, Z.div_0_l, Z2Nat.id by lia. rewrite Z.div_mul by lia. lia. }
  destruct (proj1 (out_index i) Hi) as (o & Ho & Hf).
  destruct (output_range_spec env inputs Kof Hinputs kmin kmax rc spr Hkmin Hkmax Hk Hrc Hrc64
    Hcap Hsamp i Hi) as (o' & n & Hf' & H1 & H2 & H3 & H4 & H5).
  rewrite Hf in Hf'. injection Hf' as <-. specialize (H4 k HK ltac:(lia)).
  destruct H5 as [->|[_ ->]]; [|lia]. set (r := mkRange _ _ _ _) in *.
  exists r. split; [|unfold in_range, r; cbn [r_key_min r_key_max]; lia].
  apply list_elem_of_omap. exists (Some r). split; [by eapply list_elem_of_lookup_2|done].
Qed.

Lemma out_sound : ranges_sound K (omap id os) /\ ranges_disjoint (omap id os) /\
  Forall (fun r => kmin <= r_key_min r /\ r_key_max r <= kmax) (omap id os).
Proof.
  assert (Hel : forall r, r ∈ omap id os -> exists j, os !! j = Some (Some r)).
  { intros r (o & Ho & Eo)%list_elem_of_omap. cbn in Eo. subst o. by apply list_elem_of_lookup. }
  split; [split|split].
  - apply Forall_forall. intros r [j Hj]%Hel. by apply out_elem in Hj as [? _].
  - apply out_cover.
  - apply StronglySorted_omap_id. intros i j a b Hij Ha Hb.
    apply out_elem in Ha as (_ & _ & -> & _). apply out_elem in Hb as (_ & -> & _).
    pose proof (off_mono kmin kmax rc Hk Hrc (i + 1) j). lia.
  - apply Forall_forall. intros r [j Hj]%Hel. apply out_elem in Hj as (_ & _ & _ & ? & ? & _). done.
Qed.

End OutputSound.

Lemma MergeKMVRangeSketches_gen env inputs Kof kmin kmax num_entries max_samples max_ranges :
  (forall v, Some v ∈ inputs -> vsst_sound (Kof v) v) ->
  is_u64 kmin -> is_u64 kmax -> kmin <= kmax -> 1 <= num_entries <= u64_max ->
  0 <= max_samples -> 0 <= max_ranges ->
  sum_entries (input_ranges inputs) <= u64_max -> sum_samples (input_ranges inputs) <= 2 ^ 63 ->
  exists rs, MergeKMVRangeSketchesForOutput env inputs kmin kmax num_entries max_samples max_ranges
      = Some rs /\
    ranges_sound (fun k => union_keys inputs Kof k /\ kmin <= k <= kmax) rs /\
    ranges_disjoint rs /\
    Forall (fun r => kmin <= r_key_min r /\ r_key_max r <= kmax) rs.
Proof.
  intros Hinputs Hkmin Hkmax Hk Hn Hms Hmr Hcap Hsamp. unfold MergeKMVRangeSketchesForOutput.
  destruct (decide _) as [Hd|_].
  { assert (inputs = []) as -> by (destruct Hd as [|[|]]; [done|lia|lia]).
    exists []. split; [done|]. split; [split; [constructor|]|split; constructor].
    intros k [(v & Hv & _) _]. by apply not_elem_of_nil in Hv. }
  set (ms := if decide (max_samples = 0) then _ else _).
  set (mr := if decide (max_ranges = 0) then _ else _).
  assert (1 <= mr) by (unfold mr; pose proof (VirtualSSTKMVRangeBuckets_pos env); case_decide; lia).
  rewrite decide_False by lia.
  rewrite u128_small by (unfold is_u64, u64_max in Hkmin, Hkmax; lia). set (rc := Z.min (Z.min mr num_entries) (kmax - kmin + 1)).
  set (spr := Z.max 1 (ms / rc)).
  assert (Hm : is_Some (mapM (output_range env inputs kmin kmax (kmax - kmin + 1) rc spr)
                          (seq 0 (Z.to_nat rc)))).
  { apply mapM_is_Some, Forall_forall. intros i Hi%elem_of_seq.
    destruct (output_range_spec env inputs Kof Hinputs kmin kmax rc spr) with (i := i)
      as (o & n & Hf & _); auto; lia || by exists o. }
  destruct Hm as [os Hos]. rewrite Hos. exists (omap id os). split; [done|].
  eapply (out_sound env inputs Kof Hinputs kmin kmax) with (rc := rc) (spr := spr); auto; lia.
Qed.

Lemma DescriptorSketch_gen env K v max_samples : vsst_sound K v -> 0 <= max_samples ->
  let sk := DescriptorSketch env v max_samples in
  complete sk = true \/ samples sk <> [] -> sketch_sound K sk.
Proof.
  intros ([Hs Hcov] & _ & _) Hms sk. unfold sk, DescriptorSketch. clear sk.
  pose proof (eff_pos env max_samples Hms) as Hpos.
  set (rs := kmv_ranges v) in *. set (ms := if decide _ then _ else _) in *.
  set (theta := pieces_theta rs).
  set (l := rs ≫= (fun r => filter (fun h => h <= theta) (samples (r_sketch r)))).
  set (s := SortUniqueByHash l).
  destruct (SortUniqueByHash_spec l) as [Hss Hel]. fold s in Hss, Hel.
  assert (Hin : forall h, h ∈ s <-> is_u64 h /\ h <= theta /\ K (sample_key h)).
  { intros h. rewrite Hel. apply (collect_elem K (fun h => h <= theta)); [done| |].
    - intros r h' Hr Hle. pose proof (pieces_theta_min rs r Hr). fold theta in H. lia.
    - intros k HK _ _. by apply Hcov. }
  assert (Hc : all_complete rs = true -> theta = MaxHash).
  { apply all_complete_true. intros r Hr. rewrite Forall_forall in Hs.
    by destruct (Hs r Hr) as [(_ & _ & ?) _]. }
  clearbody s theta. clear Hel l. case_decide; [by intros [|]|].
  rewrite (trim_strict s ms Hss Hpos). unfold sketch_sound. cbn [samples theta_hash complete].
  intros Hsk. split; [by apply take_sorted|].
  case_bool_decide as Ht; cbn [negb] in *.
  - rewrite andb_false_r in *. split; [|done].
    destruct (last (take (Z.to_nat ms) s)) as [t|] eqn:Hl.
    + destruct (trim_threshold K s theta ms t Hss Hin Hl) as [Hle Hel]. by rewrite Z.min_r.
    + apply last_take_none in Hl; [|done]. rewrite Hl in Ht. cbn in Ht. lia.
  - rewrite andb_true_r in *. rewrite take_ge in * by lia.
    destruct (all_complete rs); [rewrite Hc in Hin by done; split; done|].
    split; [|done]. destruct (last s) as [t|] eqn:Hl.
    + rewrite <- (take_ge s (Z.to_nat ms)) in Hl by lia.
      destruct (trim_threshold K s theta ms t Hss Hin Hl) as [Hle Hel].
      rewrite take_ge in Hel by lia. by rewrite Z.min_r.
    + apply last_None in Hl. destruct Hsk; done.
Qed.

(** ** Properties *)

(** the merged sketch of a key range holds exactly the fingerprints, up to
    its threshold, of the keys of that range that occur in some input. *)
Theorem MergeKMVSketchesForRange_sound (env : Env) (inputs : list (option VirtualSST))
    (Kof : VirtualSST -> Z -> Prop) (kmin kmax max_samples : Z)
    (Hinputs : forall v, Some v ∈ inputs -> vsst_sound (Kof v) v)
    (Hms : 0 <= max_samples) :
  sketch_sound (fun k => union_keys inputs Kof k /\ kmin <= k <= kmax)
    (MergeKMVSketchesForRange env inputs kmin kmax max_samples).
Proof. by apply MergeKMVSketches_sound_gen. Qed.

(** the range sketches of a merge output are always defined and describe
    exactly the keys of the inputs in the output's key range: sound buckets,
    ordered without overlap, inside the range, with every key in a bucket. *)
Theorem MergeKMVRangeSketchesForOutput_sound (env : Env) (inputs : list (option VirtualSST))
    (Kof : VirtualSST -> Z -> Prop) (kmin kmax num_entries max_samples max_ranges : Z)
    (Hinputs : forall v, Some v ∈ inputs -> vsst_sound (Kof v) v)
    (Hkmin : is_u64 kmin) (Hkmax : is_u64 kmax) (Hk : kmin <= kmax)
    (Hn : 1 <= num_entries <= u64_max) (Hms : 0 <= max_samples) (Hmr : 0 <= max_ranges)
    (Hcap : sum_entries (input_ranges inputs) <= u64_max)
    (Hsamp : sum_samples (input_ranges inputs) <= 2 ^ 63) :
  exists rs, MergeKMVRangeSketchesForOutput env inputs kmin kmax num_entries max_samples max_ranges
      = Some rs /\
    ranges_sound (fun k => union_keys inputs Kof k /\ kmin <= k <= kmax) rs /\
    ranges_disjoint rs /\
    Forall (fun r => kmin <= r_key_min r /\ r_key_max r <= kmax) rs.
Proof. by apply MergeKMVRangeSketches_gen. Qed.

(** the whole-file sketch assembled from a descriptor's buckets, whenever it
    carries information, holds exactly the fingerprints of the described keys up
    to its threshold, within the sample budget. *)
Theorem DescriptorSketch_sound (env : Env) (K : Z -> Prop) (v : VirtualSST) (max_samples : Z)
    (Hv : vsst_sound K v) (Hms : 0 <= max_samples)
    (Hinfo : complete (DescriptorSketch env v max_samples) = true \/
             samples (DescriptorSketch env v max_samples) <> []) :
  sketch_sound K (DescriptorSketch env v max_samples).
Proof. by apply DescriptorSketch_gen. Qed.

(** ** Instances *)

Definition demo_K (v : VirtualSST) (k : Z) : Prop :=
  k ∈ (if decide (num_entries v = 5) then demo_a else demo_b).

Definition demo_merge_inputs : list (option VirtualSST) :=
  [Some (demo_vsst demo_a); Some (demo_vsst demo_b)].

Lemma demo_inputs_sound v : Some v ∈ demo_merge_inputs -> vsst_sound (demo_K v) v.
Proof.
  intros [[= ->]|[[= ->]|[]%not_elem_of_nil]%elem_of_cons]%elem_of_cons;
    apply vsst_of_keys_sound; [|apply (bool_decide_unpack _); by vm_compute|done
                              | |apply (bool_decide_unpack _); by vm_compute|done];
    repeat constructor.
Qed.

Lemma MergeKMVSketchesForRange_sound_witness :
  sketch_sound (fun k => union_keys demo_merge_inputs demo_K k /\ 5 <= k <= 14)
    (MergeKMVSketchesForRange (mkEnv None None) demo_merge_inputs 5 14 2).
Proof.
  apply (MergeKMVSketchesForRange_sound (mkEnv None None) demo_merge_inputs demo_K 5 14 2);
    [apply demo_inputs_sound|lia].
Defined.

Lemma MergeKMVRangeSketchesForOutput_sound_witness :
  exists rs, MergeKMVRangeSketchesForOutput (mkEnv None None) demo_merge_inputs 5 14 4 0 2 = Some rs /\
    ranges_sound (fun k => union_keys demo_merge_inputs demo_K k /\ 5 <= k <= 14) rs /\
    ranges_disjoint rs /\ Forall (fun r => 5 <= r_key_min r /\ r_key_max r <= 14) rs.
Proof.
  apply (MergeKMVRangeSketchesForOutput_sound (mkEnv None None) demo_merge_inputs demo_K 5 14 4 0 2);
    [apply demo_inputs_sound|by vm_compute|by vm_compute|lia|by vm_compute|lia|lia
    |by vm_compute|by vm_compute].
Defined.

Lemma DescriptorSketch_sound_witness :
  sketch_sound (fun k => k ∈ demo_a) (DescriptorSketch (mkEnv None None) (demo_vsst demo_a) 3).
Proof.
  apply (DescriptorSketch_sound (mkEnv None None) (fun k => k ∈ demo_a) (demo_vsst demo_a) 3).
  - apply (demo_inputs_sound (demo_vsst demo_a)). by left.
  - lia.
  - right. by vm_compute.
Defined.
