(* ===== verification/Merge.v ===== *)
(** * N-way merge of virtual SSTs

    [NWayMergeKMVRangeAware] and [ScalePLRPositions] of
    [db/virtual_compaction/virtual_sst.cc]: the union of the inputs' CDFs over
    the intervals between all segment boundaries, with interval masses from the
    KMV range estimate.  [std::sort] of the model indices leaves the order of
    equal keys open, so the order is an argument; the theorems hold for every
    order the sort may produce. *)

From Stdlib Require Import ZArith Lia SpecFloat Sorted.
From stdpp Require Import base numbers list sorting.
From S2P Require Import Prelude FloatModel FloatTheory KmvHash Plr Kmv KmvEstimate KmvMerge.

Local Open Scope Z_scope.

Module Merge.

(** ** Definitions *)

(** The first loop: the sum of the entry counts, [None] on overflow. *)
Fixpoint naive_sum (inputs : list (option VirtualSST)) (naive_entries : Z) : option Z :=
  match inputs with
  | [] => Some naive_entries
  | None :: inputs' => naive_sum inputs' naive_entries
  | Some input :: inputs' =>
      if decide (u64_max - naive_entries < num_entries input) then None
      else naive_sum inputs' (naive_entries + num_entries input)
  end.

(** The sorted distinct boundaries of all inputs and segments. *)
Definition input_breakpoints (input : option VirtualSST) : list Z :=
  match input with
  | None => []
  | Some v => key_min v :: key_max v ::
      (segments_ (plr_model v) ≫= (fun seg => [key_start seg; key_end seg]))
  end.

Definition breakpoints (inputs : list (option VirtualSST)) : list Z :=
  unique (merge_sort Z.le (inputs ≫= input_breakpoints)).

(** The order of [std::sort] on model indices: null inputs last, then by
    [key_min]. *)
Definition model_less (inputs : list (option VirtualSST)) (a b : nat) : bool :=
  match mjoin (inputs !! a), mjoin (inputs !! b) with
  | None, _ => false
  | _, None => true
  | Some va, Some vb => bool_decide (key_min va < key_min vb)
  end.

(** The results the sort may have. *)
Definition is_model_order (inputs : list (option VirtualSST)) (order : list nat) : Prop :=
  order ≡ₚ seq 0 (length inputs) /\
  StronglySorted (fun a b => model_less inputs b a = false) order.

(** The inner [while]: activate the models that start up to [k_mid].  [order]
    is the rest of [model_order] from [next_model] on. *)
Fixpoint activate (inputs : list (option VirtualSST)) (k_mid : Z) (order active : list nat)
    : list nat * list nat :=
  match order with
  | [] => ([], active)
  | j :: order' =>
      match mjoin (inputs !! j) with
      | None => activate inputs k_mid order' active
      | Some v =>
          if decide (k_mid < key_min v) then (order, active)
          else activate inputs k_mid order' (active ++ [j])
      end
  end.

(** Drop the models that end before [k_mid]. *)
Definition reaches (inputs : list (option VirtualSST)) (k_mid : Z) (j : nat) : bool :=
  match mjoin (inputs !! j) with
  | None => false
  | Some v => bool_decide (k_mid <= key_max v)
  end.

Definition still_active (inputs : list (option VirtualSST)) (k_mid : Z) (active : list nat)
    : list nat := filter (fun j => reaches inputs k_mid j = true) active.

(** Advance a segment cursor to the segment that does not end before [k_mid],
    or to the last one; [fuel] is the number of segments. *)
Fixpoint advance (fuel : nat) (segs : list segment) (k_mid : Z) (idx : nat) : nat :=
  match fuel with
  | O => idx
  | S fuel' =>
      if decide (idx + 1 < length segs)%nat then
        if decide (key_end (segs !!! idx) < k_mid)
        then advance fuel' segs k_mid (idx + 1) else idx
      else idx
  end.

(** One active model of an interval: its cursor, the slope sum and the inputs
    whose segment covers [k_mid]. *)
Definition visit (inputs : list (option VirtualSST)) (k_mid : Z)
    (st : list nat * spec_float * list (option VirtualSST)) (j : nat)
    : list nat * spec_float * list (option VirtualSST) :=
  let '(seg_idx, slope_sum, interval_inputs) := st in
  match mjoin (inputs !! j) with
  | None => st
  | Some v =>
      let segs := segments_ (plr_model v) in
      let idx := advance (length segs) segs k_mid (seg_idx !!! j) in
      let seg_idx := <[j := idx]> seg_idx in
      if decide (segs = []) then (seg_idx, slope_sum, interval_inputs)
      else
        let seg := segs !!! idx in
        if decide (k_mid < key_start seg \/ key_end seg < k_mid)
        then (seg_idx, slope_sum, interval_inputs)
        else (seg_idx, F64.add slope_sum (fmax (slope seg) fzero), interval_inputs ++ [Some v])
  end.

(** The slope of an interval from its mass and the slopes of its inputs. *)
Definition interval_slope (slope_sum : spec_float) (k_start k_end interval_entries : Z) : spec_float :=
  let width := fmax (F80.of_Z 1) (F80.of_Z (k_end -% k_start)) in
  let naive_mass := fmax fzero (F80.mul (F80.of_f64 slope_sum) width) in
  if decide (0 < interval_entries) then
    if flt fzero slope_sum && flt fzero naive_mass
    then F64.mul slope_sum (F64.of_f80 (F80.div (F80.of_Z interval_entries) naive_mass))
    else F64.of_f80 (F80.div (F80.of_Z interval_entries) width)
  else fzero.

(** State of the interval loop. *)
Record MState := mkMState {
  rest_order : list nat;
  active : list nat;
  seg_idx : list nat;
  merged : list segment;
  raw_total_entries : spec_float;
}.

(** One interval [k_start, k_end]. *)
Definition interval_step (inputs : list (option VirtualSST)) (st : MState) (k_start k_end : Z)
    : option MState :=
  let k_mid := k_start +% (k_end -% k_start) / 2 in
  let '(order', act) := activate inputs k_mid (rest_order st) (active st) in
  let act := still_active inputs k_mid act in
  let '(seg_idx', slope_sum, interval_inputs) :=
    fold_left (visit inputs k_mid) act (seg_idx st, fzero, []) in
  interval_entries ← EstimateKMVUnionEntriesForRange interval_inputs k_start k_end;
  let raw := F80.add (raw_total_entries st) (F80.of_Z interval_entries) in
  let sl := interval_slope slope_sum k_start k_end interval_entries in
  Some (mkMState order' act seg_idx' (merged st ++ [mkSeg k_start k_end sl fzero]) raw).

Fixpoint interval_loop (inputs : list (option VirtualSST)) (st : MState) (bps : list Z)
    : option MState :=
  match bps with
  | k_start :: (k_end :: _) as bps' =>
      st' ← interval_step inputs st k_start k_end;
      interval_loop inputs st' bps'
  | _ => Some st
  end.

Definition set_slope (sl : spec_float) (seg : segment) : segment :=
  mkSeg (key_start seg) (key_end seg) sl (intercept seg).

(** Scale the masses to the estimated total, or spread it evenly when no
    interval has mass. *)
Definition normalize (kmv_total : Z) (raw_total : spec_float) (bps : list Z)
    (segs : list segment) : list segment :=
  if decide (0 < kmv_total) then
    if flt fzero raw_total then
      let scale := F64.of_f80 (F80.div (F80.of_Z kmv_total) raw_total) in
      (fun seg => set_slope (F64.mul (slope seg) scale) seg) <$> segs
    else if decide (segs = []) then segs
    else
      let width := fmax (F80.of_Z 1) (F80.of_Z (List.last bps 0 -% hd 0 bps)) in
      let sl := F64.of_f80 (F80.div (F80.of_Z kmv_total) width) in
      set_slope sl <$> segs
  else segs.

(** The cumulative pass that makes the segments one continuous CDF. *)
Fixpoint set_intercepts (cumulative_pos : spec_float) (segs : list segment) : list segment :=
  match segs with
  | [] => []
  | seg :: segs' =>
      let ic := F64.sub cumulative_pos (F64.mul (slope seg) (F64.of_Z (key_start seg))) in
      let pos := F64.add cumulative_pos
                   (F64.mul (slope seg) (F64.of_Z (key_end seg -% key_start seg))) in
      mkSeg (key_start seg) (key_end seg) (slope seg) ic :: set_intercepts pos segs'
  end.

(** Joining of neighbours on one line; [prev] is [compacted.back()]. *)
Fixpoint compact (prev : segment) (segs : list segment) : list segment :=
  match segs with
  | [] => [prev]
  | cur :: segs' =>
      if flt (fabs (F64.sub (slope prev) (slope cur))) F64.lit_1em12 &&
         flt (fabs (F64.sub (intercept prev) (intercept cur))) F64.lit_1em9
      then compact (mkSeg (key_start prev) (key_end cur) (slope prev) (intercept prev)) segs'
      else prev :: compact cur segs'
  end.

Definition compact_all (segs : list segment) : list segment :=
  match segs with [] => [] | seg :: segs' => compact seg segs' end.

(** Result: the status, [*adjusted_total] and the model; [None] is an undefined
    conversion in an estimate. *)
Definition NWayMergeKMVRangeAware (inputs : list (option VirtualSST)) (order : list nat)
    : option (Status * Z * model) :=
  if decide (inputs = []) then Some (OK, 0, mkPLR [])
  else
    match naive_sum inputs 0 with
    | None => Some (InvalidArgument, 0, mkPLR [])
    | Some naive_entries =>
        kmv_total ← EstimateKMVUnionEntries inputs naive_entries;
        match breakpoints inputs with
        | [] => Some (OK, 0, mkPLR [])
        | [b] => Some (OK, kmv_total, mkPLR [mkSeg b b fzero (F64.div (F64.of_Z kmv_total) (F64.of_Z 2))])
        | bps =>
            st ← interval_loop inputs
                   (mkMState order [] (replicate (length inputs) 0%nat) [] fzero) bps;
            let segs := normalize kmv_total (raw_total_entries st) bps (merged st) in
            Some (OK, kmv_total, mkPLR (compact_all (set_intercepts fzero segs)))
        end
    end.

Definition scale_segment (scale : spec_float) (seg : segment) : segment :=
  mkSeg (key_start seg) (key_end seg) (F64.mul (slope seg) scale) (F64.mul (intercept seg) scale).

Definition ScalePLRPositions (plr : model) (scale : spec_float) : model :=
  if Empty plr || flt (fabs (F64.sub scale (F64.of_Z 1))) F64.lit_1em15 then plr
  else mkPLR (scale_segment scale <$> segments_ plr).

(** ** Key ranges of the merged segments *)

(** Consecutive segments from [a] to [b], each ending where the next starts. *)
Fixpoint chain (a : Z) (segs : list segment) (b : Z) : Prop :=
  match segs with
  | [] => a = b
  | seg :: segs' => key_start seg = a /\ key_start seg < key_end seg /\ chain (key_end seg) segs' b
  end.

Definition seg_keys (seg : segment) : Z * Z := (key_start seg, key_end seg).

Lemma chain_ext segs segs' : seg_keys <$> segs = seg_keys <$> segs' ->
  forall a b, chain a segs b -> chain a segs' b.
Proof.
  revert segs'. induction segs as [|s segs IH]; intros [|s' segs'] Heq a b; try done; cbn in *.
  injection Heq as H1 H2 H3. rewrite H1, H2. intros (? & ? & ?). split_and!; auto.
Qed.

Lemma chain_app segs1 segs2 a b c : chain a segs1 b -> chain b segs2 c -> chain a (segs1 ++ segs2) c.
Proof.
  revert a. induction segs1 as [|s segs1 IH]; intros a; cbn; [by intros ->|].
  intros (? & ? & ?) ?. auto.
Qed.

Lemma compact_chain segs : forall prev a b, chain a (prev :: segs) b -> chain a (compact prev segs) b.
Proof.
  induction segs as [|cur segs IH]; intros prev a b (Ha & Hlt & Hc); [done|].
  cbn [compact]. destruct Hc as (Hcur & Hlt' & Hc). destruct (_ && _).
  - apply IH. cbn. split_and!; [done|lia|done].
  - cbn. split_and!; try done. apply IH. cbn. done.
Qed.

Lemma set_intercepts_keys segs : forall p, seg_keys <$> set_intercepts p segs = seg_keys <$> segs.
Proof. induction segs as [|s segs IH]; intros p; [done|]. cbn. by rewrite IH. Qed.

Lemma normalize_keys t r bps segs : seg_keys <$> normalize t r bps segs = seg_keys <$> segs.
Proof.
  unfold normalize. repeat case_decide; try done; destruct (flt _ _); try done;
    rewrite <- list_fmap_compose; done.
Qed.

Lemma compact_all_chain segs a b : chain a segs b -> chain a (compact_all segs) b.
Proof. destruct segs; [done|]. apply compact_chain. Qed.

(** ** Sums over the inputs of an interval *)

#[export] Instance sum_entries_perm : Proper ((≡ₚ) ==> (=)) sum_entries.
Proof. unfold sum_entries. induction 1; cbn [foldr] in *; lia. Qed.

#[export] Instance sum_samples_perm : Proper ((≡ₚ) ==> (=)) sum_samples.
Proof. unfold sum_samples. induction 1; cbn [foldr] in *; lia. Qed.

#[export] Instance input_ranges_perm : Proper ((≡ₚ) ==> (≡ₚ)) input_ranges.
Proof.
  unfold input_ranges. induction 1 as [|x l l' _ IH|x y l|l1 l2 l3 _ IH1 _ IH2]; cbn [mbind list_bind].
  - done.
  - by rewrite IH.
  - rewrite !app_assoc. f_equiv. apply Permutation_app_comm.
  - by rewrite IH1.
Qed.

Definition inputs_wf (inputs : list (option VirtualSST)) : Prop :=
  forall v r, Some v ∈ inputs -> r ∈ kmv_ranges v -> range_wf r.

Lemma input_ranges_wf inputs : inputs_wf inputs -> Forall range_wf (input_ranges inputs).
Proof.
  intros Hwf. apply Forall_forall. intros r (i & Hr & Hi)%list_elem_of_bind.
  destruct i as [v|]; [eauto|by apply not_elem_of_nil in Hr].
Qed.

(** Fewer inputs have no more entries and samples. *)
Lemma sums_submseteq l1 l2 : l1 ⊆+ l2 -> inputs_wf l2 ->
  sum_entries (input_ranges l1) <= sum_entries (input_ranges l2) /\
  sum_samples (input_ranges l1) <= sum_samples (input_ranges l2) /\ inputs_wf l1.
Proof.
  intros [k Hk]%submseteq_Permutation Hwf. rewrite Hk.
  unfold input_ranges at 2 4. rewrite bind_app. fold (input_ranges l1) (input_ranges k).
  destruct (sums_app (input_ranges l1) (input_ranges k)) as [-> ->].
  assert (Hwk : inputs_wf k) by (intros v r Hv; apply Hwf; rewrite Hk; apply elem_of_app; by right).
  pose proof (sum_entries_nonneg _ (input_ranges_wf k Hwk)).
  pose proof (sum_samples_nonneg (input_ranges k)). split; [lia|]. split; [lia|].
  intros v r Hv. apply Hwf. rewrite Hk. apply elem_of_app. by left.
Qed.

Lemma inputs_by_index (inputs : list (option VirtualSST)) :
  (fun j => mjoin (inputs !! j)) <$> seq 0 (length inputs) = inputs.
Proof.
  apply list_eq. intros i. rewrite list_lookup_fmap.
  destruct (decide (i < length inputs)%nat) as [Hi|Hi].
  - rewrite lookup_seq_lt by done. cbn. destruct (lookup_lt_is_Some_2 inputs i Hi) as [v ->]. done.
  - rewrite lookup_seq_ge by lia. cbn. by rewrite lookup_ge_None_2 by lia.
Qed.

(** ** The models active in an interval *)

Lemma activate_sub inputs k_mid order : forall act order' act',
  activate inputs k_mid order act = (order', act') -> act' ++ order' ⊆+ act ++ order.
Proof.
  induction order as [|j order IH]; intros act order' act'; cbn [activate].
  { intros [= <- <-]. done. }
  destruct (mjoin (inputs !! j)) as [v|].
  - case_decide; [intros [= <- <-]; done|]. intros Ha. rewrite (IH _ _ _ Ha).
    rewrite <- app_assoc. done.
  - intros Ha. rewrite (IH _ _ _ Ha). apply submseteq_skips_l. by apply submseteq_cons.
Qed.

Lemma visit_fold inputs k_mid act : forall st si ss ii,
  fold_left (visit inputs k_mid) act st = (si, ss, ii) ->
  ii ⊆+ st.2 ++ ((fun j => mjoin (inputs !! j)) <$> act).
Proof.
  induction act as [|j act IH]; intros [[si0 ss0] ii0] si ss ii; cbn [fold_left].
  { intros [= <- <- <-]. cbn. by rewrite app_nil_r. }
  intros Hf. apply IH in Hf. rewrite Hf. clear Hf IH. cbn [visit fmap list_fmap].
  destruct (mjoin (inputs !! j)) as [v|] eqn:Ej; cbn [snd].
  - repeat case_decide; cbn [snd]; try (apply submseteq_skips_l; by apply submseteq_cons).
    by rewrite <- app_assoc.
  - apply submseteq_skips_l. by apply submseteq_cons.
Qed.

(** ** The interval loop *)

Section Loop.
Context (inputs : list (option VirtualSST)).
Context (Hwf : inputs_wf inputs).
Context (Hcap : sum_entries (input_ranges inputs) <= u64_max).
Context (Hsamp : sum_samples (input_ranges inputs) <= 2 ^ 63).

(** Every model index is active or waiting at most once. *)
Definition cursor_ok (st : MState) : Prop :=
  active st ++ rest_order st ⊆+ seq 0 (length inputs).

Lemma interval_step_spec st k_start k_end : cursor_ok st -> is_u64 k_start -> is_u64 k_end ->
  exists st' sl, interval_step inputs st k_start k_end = Some st' /\ cursor_ok st' /\
    merged st' = merged st ++ [mkSeg k_start k_end sl fzero].
Proof.
  intros Hok Hs He. unfold interval_step. set (k_mid := k_start +% _).
  destruct (activate inputs k_mid (rest_order st) (active st)) as [order' act] eqn:Ea.
  pose proof (activate_sub _ _ _ _ _ _ Ea) as Hsub.
  unfold cursor_ok in Hok. rewrite Hok in Hsub.
  assert (Hact : still_active inputs k_mid act ⊆+ act).
  { apply sublist_submseteq, sublist_filter. }
  destruct (fold_left _ _ _) as [[si ss] ii] eqn:Ef.
  apply visit_fold in Ef. cbn [snd app] in Ef.
  assert (Hii : ii ⊆+ inputs).
  { rewrite Ef. rewrite <- (inputs_by_index inputs) at 2. apply fmap_submseteq.
    rewrite Hact. rewrite <- Hsub. apply submseteq_inserts_r. done. }
  destruct (sums_submseteq ii inputs Hii Hwf) as (H1 & H2 & Hwf').
  destruct (pieces_sums_le ii k_start k_end Hwf') as [H3 H4].
  destruct (EstimateForRange_gen ii k_start k_end Hs He Hwf') as (n & -> & _); [lia|lia|].
  cbn [mbind option_bind]. eexists _, _. split; [reflexivity|]. split; [|reflexivity].
  unfold cursor_ok. cbn [active rest_order]. rewrite <- Hsub. by apply submseteq_app.
Qed.

Lemma interval_loop_spec bps : StronglySorted Z.lt bps -> Forall is_u64 bps -> bps <> [] ->
  forall st, cursor_ok st ->
  exists st' segs, interval_loop inputs st bps = Some st' /\ merged st' = merged st ++ segs /\
    chain (hd 0 bps) segs (List.last bps 0).
Proof.
  induction bps as [|a bps IH]; intros Hs Hu Hne st Hok; [done|].
  destruct bps as [|b bps].
  { exists st, []. cbn. by rewrite app_nil_r. }
  apply StronglySorted_inv in Hs as [Hs Hall]. apply Forall_cons_iff in Hu as [Ha Hu].
  apply Forall_cons_iff in Hu as [Hb Hu].
  destruct (interval_step_spec st a b Hok Ha Hb) as (st1 & sl & Hst & Hok1 & Hm1).
  destruct (IH Hs ltac:(by constructor) ltac:(done) st1 Hok1) as (st2 & segs & Hst2 & Hm2 & Hc).
  exists st2, (mkSeg a b sl fzero :: segs). cbn [interval_loop]. rewrite Hst. cbn [mbind option_bind].
  split; [done|]. rewrite Hm2, Hm1, <- app_assoc. split; [done|].
  apply Forall_cons_iff in Hall as [Hab _]. cbn [chain key_start key_end hd].
  split; [done|]. split; [done|]. exact Hc.
Qed.

End Loop.

(** ** The boundaries *)

Lemma breakpoints_spec inputs :
  StronglySorted Z.lt (breakpoints inputs) /\
  forall k, k ∈ breakpoints inputs <-> exists v, Some v ∈ inputs /\
    (k = key_min v \/ k = key_max v \/
     exists seg, seg ∈ segments_ (plr_model v) /\ (k = key_start seg \/ k = key_end seg)).
Proof.
  unfold breakpoints. destruct (unique_spec (sort_by_hash (inputs ≫= input_breakpoints)) (sort_sorted _))
    as [Hs Hel]. split; [exact Hs|]. intros k. unfold sort_by_hash in *. rewrite Hel.
  rewrite merge_sort_Permutation, list_elem_of_bind. split.
  - intros ([v|] & Hk & Hv); [|by apply not_elem_of_nil in Hk]. exists v. split; [done|].
    cbn in Hk. rewrite !elem_of_cons, list_elem_of_bind in Hk.
    destruct Hk as [->|[->|(seg & Hk & Hseg)]]; auto. right; right. exists seg. split; [done|].
    rewrite !elem_of_cons in Hk. destruct Hk as [->|[->|[]%not_elem_of_nil]]; auto.
  - intros (v & Hv & Hk). exists (Some v). split; [|done]. cbn.
    rewrite !elem_of_cons, list_elem_of_bind. destruct Hk as [->|[->|(seg & Hseg & Hk)]]; auto.
    right; right. exists seg. split; [|done]. rewrite !elem_of_cons. tauto.
Qed.

(** Keys of an input are [uint64_t]. *)
Definition keys_u64 (inputs : list (option VirtualSST)) : Prop :=
  forall v, Some v ∈ inputs -> is_u64 (key_min v) /\ is_u64 (key_max v) /\
    Forall (fun s => is_u64 (key_start s) /\ is_u64 (key_end s)) (segments_ (plr_model v)).

Lemma breakpoints_u64 inputs : keys_u64 inputs -> Forall is_u64 (breakpoints inputs).
Proof.
  intros Hu. apply Forall_forall. intros k Hk.
  apply breakpoints_spec in Hk as (v & Hv & Hk). destruct (Hu v Hv) as (H1 & H2 & H3).
  rewrite Forall_forall in H3.
  destruct Hk as [->|[->|(seg & Hseg & [-> | ->])]]; [done|done|by apply H3|by apply H3].
Qed.

(** The sum of the entry counts as a number. *)
Definition total_entries (inputs : list (option VirtualSST)) : Z :=
  foldr (fun i acc => match i with None => acc | Some v => num_entries v + acc end) 0 inputs.

Lemma total_entries_nonneg inputs : (forall v, Some v ∈ inputs -> 0 <= num_entries v) ->
  0 <= total_entries inputs.
Proof.
  unfold total_entries. induction inputs as [|[v|] inputs IH]; intros Hn; cbn [foldr]; [lia| |].
  - specialize (Hn v ltac:(by left)) as Hv. assert (0 <= foldr (fun i acc =>
      match i with None => acc | Some v => num_entries v + acc end) 0 inputs); [|lia].
    apply IH. intros v' Hv'. apply Hn. by right.
  - apply IH. intros v' Hv'. apply Hn. by right.
Qed.

Lemma naive_sum_spec inputs : (forall v, Some v ∈ inputs -> 0 <= num_entries v) ->
  forall acc, acc <= u64_max ->
  naive_sum inputs acc =
    if decide (acc + total_entries inputs <= u64_max) then Some (acc + total_entries inputs) else None.
Proof.
  induction inputs as [|[v|] inputs IH]; intros Hn acc Hacc; cbn [naive_sum].
  - unfold total_entries. cbn [foldr]. rewrite decide_True by lia. f_equal. lia.
  - assert (Hrest : forall v', Some v' ∈ inputs -> 0 <= num_entries v')
      by (intros v' Hv'; apply Hn; by right).
    pose proof (total_entries_nonneg inputs Hrest).
    change (total_entries (Some v :: inputs)) with (num_entries v + total_entries inputs).
    case_decide; [by rewrite decide_False by lia|]. rewrite IH by (done || lia).
    rewrite Z.add_assoc. done.
  - apply IH; [|done]. intros v' Hv'. apply Hn. by right.
Qed.

Lemma breakpoints_bounds inputs k : k ∈ breakpoints inputs ->
  hd 0 (breakpoints inputs) <= k <= List.last (breakpoints inputs) 0.
Proof. apply hd_last_bounds, breakpoints_spec. Qed.

Lemma breakpoints_enclose inputs v : Some v ∈ inputs ->
  let lo := hd 0 (breakpoints inputs) in let hi := List.last (breakpoints inputs) 0 in
  lo <= key_min v /\ key_max v <= hi /\
  Forall (fun s => lo <= key_start s /\ key_end s <= hi) (segments_ (plr_model v)).
Proof.
  intros Hv. cbn zeta.
  assert (Hin : forall k, (k = key_min v \/ k = key_max v \/ exists seg,
    seg ∈ segments_ (plr_model v) /\ (k = key_start seg \/ k = key_end seg)) ->
    hd 0 (breakpoints inputs) <= k <= List.last (breakpoints inputs) 0).
  { intros k Hk. apply breakpoints_bounds, breakpoints_spec. eauto. }
  split; [apply Hin; auto|]. split; [apply Hin; auto|].
  apply Forall_forall. intros s Hs. split; apply Hin; eauto 6.
Qed.

Lemma total_entries_some inputs : total_entries inputs <> 0 -> exists v, Some v ∈ inputs.
Proof.
  induction inputs as [|[v|] inputs IH]; intros Ht; [done|exists v; by left|].
  destruct (IH Ht) as [v Hv]. exists v. by right.
Qed.

Lemma NWayMerge_gen inputs order :
  is_model_order inputs order -> inputs_wf inputs -> keys_u64 inputs ->
  (forall v, Some v ∈ inputs -> 0 <= num_entries v) ->
  1 <= total_entries inputs < 2 ^ 63 ->
  sum_entries (input_ranges inputs) <= u64_max -> sum_samples (input_ranges inputs) <= 2 ^ 63 ->
  exists total segs, NWayMergeKMVRangeAware inputs order = Some (OK, total, mkPLR segs) /\
    1 <= total <= total_entries inputs /\
    let lo := hd 0 (breakpoints inputs) in let hi := List.last (breakpoints inputs) 0 in
    (lo = hi /\ (exists sl ic, segs = [mkSeg lo hi sl ic]) \/ lo < hi /\ chain lo segs hi) /\
    forall v, Some v ∈ inputs -> lo <= key_min v /\ key_max v <= hi /\
      Forall (fun s => lo <= key_start s /\ key_end s <= hi) (segments_ (plr_model v)).
Proof.
  intros [Hperm _] Hwf Hkeys Hn Htot Hcap Hsamp. unfold NWayMergeKMVRangeAware.
  rewrite decide_False by (intros ->; cbn in Htot; lia).
  rewrite (naive_sum_spec inputs Hn 0), decide_True by (unfold u64_max; lia). rewrite ?Z.add_0_l.
  destruct (EstimateUnion_gen inputs (total_entries inputs) Htot Hsamp) as (total & -> & Htb).
  cbn [mbind option_bind].
  pose proof (breakpoints_spec inputs) as [Hs Hel]. pose proof (breakpoints_u64 inputs Hkeys) as Hu.
  pose proof (breakpoints_enclose inputs) as Henc. cbn zeta in *.
  destruct (breakpoints inputs) as [|b [|b' bps]] eqn:Eb.
  - exfalso. destruct (total_entries_some inputs) as [v Hv]; [lia|].
    specialize (Hel (key_min v)). destruct Hel as [_ Hel].
    destruct (not_elem_of_nil (key_min v)). apply Hel. eauto.
  - eexists _, _. split; [reflexivity|]. split; [done|]. split; [|done]. left. split; [done|]. eauto.
  - destruct (interval_loop_spec inputs Hwf Hcap Hsamp (b :: b' :: bps) Hs Hu ltac:(done)
      (mkMState order [] (replicate (length inputs) 0%nat) [] fzero)) as (st & segs & -> & Hm & Hc).
    { unfold cursor_ok. cbn. by rewrite Hperm. }
    cbn [mbind option_bind]. eexists _, _. split; [reflexivity|]. split; [done|]. split; [|done].
    right. split.
    + apply StronglySorted_inv in Hs as [Hs Hall].
      pose proof (hd_last_bounds (b' :: bps) b' Hs ltac:(by left)).
      apply Forall_cons_iff in Hall as [? _].
      change (List.last (b :: b' :: bps) 0) with (List.last (b' :: bps) 0). cbn [hd]. lia.
    + apply compact_all_chain. cbn [app] in Hm. rewrite Hm. eapply chain_ext; [|exact Hc].
      by rewrite set_intercepts_keys, normalize_keys.
Qed.

(** ** Properties *)

(** when the entry counts of the inputs do not fit 64 bits the merge reports
    [InvalidArgument] with an empty model and a zero total, and it reports it in
    no other case. *)
Theorem NWayMerge_overflow (inputs : list (option VirtualSST)) (order : list nat)
    (Hne : inputs <> []) (Hn : forall v, Some v ∈ inputs -> 0 <= num_entries v) :
  (u64_max < total_entries inputs ->
     NWayMergeKMVRangeAware inputs order = Some (InvalidArgument, 0, mkPLR [])) /\
  (total_entries inputs <= u64_max ->
     forall t m, NWayMergeKMVRangeAware inputs order <> Some (InvalidArgument, t, m)).
Proof.
  unfold NWayMergeKMVRangeAware. rewrite decide_False by done.
  rewrite (naive_sum_spec inputs Hn 0) by (unfold u64_max; lia). rewrite ?Z.add_0_l.
  split; intros Hs; [by rewrite decide_False by lia|]. rewrite decide_True by lia.
  intros t m. destruct (EstimateKMVUnionEntries _ _); [|done]. cbn [mbind option_bind].
  destruct (breakpoints inputs) as [|b [|b' bps]]; [done|done|].
  by destruct (interval_loop _ _ _).
Qed.

(** C32: for well-formed inputs and every order the sort may produce, the merge is
    defined: it succeeds with a total of at least one and at most the sum of the
    entry counts, and its segments cover the key space from the smallest to the
    largest boundary of the inputs without gap or overlap. *)
Theorem NWayMerge_covers (inputs : list (option VirtualSST)) (order : list nat)
    (Horder : is_model_order inputs order) (Hwf : inputs_wf inputs) (Hkeys : keys_u64 inputs)
    (Hn : forall v, Some v ∈ inputs -> 0 <= num_entries v)
    (Htotal : 1 <= total_entries inputs < 2 ^ 63)
    (Hcap : sum_entries (input_ranges inputs) <= u64_max)
    (Hsamp : sum_samples (input_ranges inputs) <= 2 ^ 63) :
  exists total segs, NWayMergeKMVRangeAware inputs order = Some (OK, total, mkPLR segs) /\
    1 <= total <= total_entries inputs /\
    let lo := hd 0 (breakpoints inputs) in let hi := List.last (breakpoints inputs) 0 in
    (lo = hi /\ (exists sl ic, segs = [mkSeg lo hi sl ic]) \/ lo < hi /\ chain lo segs hi) /\
    forall v, Some v ∈ inputs -> lo <= key_min v /\ key_max v <= hi /\
      Forall (fun s => lo <= key_start s /\ key_end s <= hi) (segments_ (plr_model v)).
Proof. by apply NWayMerge_gen. Qed.

(** ** Instances *)

Lemma NWayMerge_overflow_witness :
  let v n := mkVSST (mkPLR []) [] 1 2 n 0 in
  NWayMergeKMVRangeAware [Some (v u64_max); Some (v 1)] [0; 1]%nat =
    Some (InvalidArgument, 0, mkPLR []).
Proof.
  cbn zeta. apply NWayMerge_overflow; [done| |by vm_compute].
  intros v [[= ->]|[[= ->]|[]%not_elem_of_nil]%elem_of_cons]%elem_of_cons; by vm_compute.
Defined.

Lemma demo_inputs_wf : inputs_wf demo_merge_inputs.
Proof.
  intros v r Hv Hr. destruct (demo_inputs_sound v Hv) as ([Hs _] & _).
  rewrite Forall_forall in Hs. by eapply range_sound_wf, Hs.
Qed.

Lemma NWayMerge_covers_witness :
  exists total segs,
    NWayMergeKMVRangeAware demo_merge_inputs [0; 1]%nat = Some (OK, total, mkPLR segs) /\
    1 <= total <= 9 /\ chain 2 segs 30.
Proof.
  destruct (NWayMerge_covers demo_merge_inputs [0; 1]%nat) as (total & segs & H1 & H2 & H3).
  - split; [done|]. repeat constructor.
  - apply demo_inputs_wf.
  - intros v [[= ->]|[[= ->]|[]%not_elem_of_nil]%elem_of_cons]%elem_of_cons;
      (split; [by vm_compute|]; split; [by vm_compute|]; apply (bool_decide_unpack _); by vm_compute).
  - intros v [[= ->]|[[= ->]|[]%not_elem_of_nil]%elem_of_cons]%elem_of_cons; by vm_compute.
  - by vm_compute.
  - by vm_compute.
  - by vm_compute.
  - exists total, segs. split; [exact H1|]. split; [exact H2|].
    destruct H3 as [[[Heq _]|[_ Hc]] _]; [by vm_compute in Heq|exact Hc].
Defined.

End Merge.
