(* ===== verification/Split.v ===== *)
(** * Splitting a merged model into virtual SSTs

    [SplitIntoSSTs] of [db/virtual_compaction/virtual_sst.cc]: the split
    positions from the size limit and the grandparent boundaries, and the output
    descriptors between them. *)

From Stdlib Require Import ZArith Lia SpecFloat Sorted.
From stdpp Require Import base numbers list sorting.
From S2P Require Import Prelude FloatModel FloatTheory SizeModel KmvHash Plr Kmv KmvEstimate KmvMerge.

Local Open Scope Z_scope.

Module Split.

Abbreviation bytes_model := SSTSizeModel.t.

(** ** Definitions *)

(** Positions of the grandparent boundaries inside the output, sorted but not
    deduplicated. *)
Definition gp_position (plr : model) (total_entries gmin gmax bkey : Z) : option (option Z) :=
  if decide (bkey <= gmin \/ gmax <= bkey) then Some None
  else
    let pos_d := Predict plr bkey in
    if flt fzero pos_d && flt pos_d (F64.of_Z total_entries)
    then Some <$> round_u64 pos_d else Some None.

Definition gp_positions (plr : model) (total_entries gmin gmax target_level : Z)
    (boundaries : list Z) : option (list Z) :=
  if decide (boundaries <> [] /\ 0 < target_level) then
    ps ← mapM (gp_position plr total_entries gmin gmax) boundaries;
    Some (merge_sort Z.le (omap id ps))
  else Some [].

(** Loop state: [split_positions] so far, [last_split], [next_size_split],
    [switched] and the grandparent positions from [gp_idx] on. *)
Record SState := mkSState {
  split_positions : list Z;
  last_split : Z;
  next_size_split : Z;
  switched : Z;
  gp_rest : list Z;
}.

Fixpoint skip_passed (last : Z) (gps : list Z) : list Z :=
  match gps with
  | [] => []
  | p :: gps' => if decide (p <= last) then skip_passed last gps' else gps
  end.

(** A cut at [pos]: the next size-based cut and the reset of [switched]. *)
Definition cut (total_entries keys_per_sst pos : Z) (splits gps : list Z) : SState :=
  mkSState (splits ++ [pos]) pos
    (if decide (total_entries - pos < keys_per_sst) then total_entries else pos + keys_per_sst)
    0 gps.

(** One turn of the loop; [None] is the [break]. *)
Definition split_step (bytes : bytes_model) (total_entries target_sst_size keys_per_sst : Z)
    (st : SState) : option SState :=
  let next_gp := hd total_entries (gp_rest st) in
  if decide (next_size_split st <= next_gp /\ next_size_split st < total_entries) then
    Some (cut total_entries keys_per_sst (next_size_split st) (split_positions st)
            (skip_passed (next_size_split st) (gp_rest st)))
  else if decide (next_gp < total_entries) then
    let switched := switched st +% 1 in
    let cur_bytes := SSTSizeModel.Estimate bytes (next_gp -% last_split st) in
    let pct := 50 + Z.min (switched *% 5) 40 in
    let threshold_bytes := u128 (target_sst_size * pct) / 100 in
    if decide (last_split st < next_gp /\ threshold_bytes <= cur_bytes)
    then Some (cut total_entries keys_per_sst next_gp (split_positions st) (tl (gp_rest st)))
    else Some (mkSState (split_positions st) (last_split st) (next_size_split st) switched
                 (tl (gp_rest st)))
  else None.

(** The [while]; [None] when the fuel is used up, which [split_loop_total]
    excludes. *)
Fixpoint split_loop (fuel : nat) (bytes : bytes_model)
    (total_entries target_sst_size keys_per_sst : Z) (st : SState) : option SState :=
  if decide (next_size_split st < total_entries \/ gp_rest st <> []) then
    match fuel with
    | O => None
    | S fuel' =>
        match split_step bytes total_entries target_sst_size keys_per_sst st with
        | None => Some st
        | Some st' => split_loop fuel' bytes total_entries target_sst_size keys_per_sst st'
        end
    end
  else Some st.

Definition find_splits (bytes : bytes_model) (total_entries target_sst_size keys_per_sst : Z)
    (gps : list Z) : option (list Z) :=
  st ← split_loop (Z.to_nat total_entries + length gps)%nat bytes total_entries target_sst_size
         keys_per_sst (mkSState [] 0 keys_per_sst 0 gps);
  Some (split_positions st).

(** The loop over the segments of the merged model: clip to [ks, ke] and move
    the ranks to start at [pos_start]. *)
Fixpoint sub_segments (ks ke pos_start : Z) (segs : list segment) : list segment :=
  match segs with
  | [] => []
  | seg :: segs' =>
      if decide (key_end seg < ks) then sub_segments ks ke pos_start segs'
      else if decide (ke < key_start seg) then []
      else mkSeg (Z.max (key_start seg) ks) (Z.min (key_end seg) ke) (slope seg)
             (F64.sub (intercept seg) (F64.of_Z pos_start))
           :: sub_segments ks ke pos_start segs'
  end.

(** [vsst.kmv_ranges] of an output, when inputs are given. *)
Definition output_kmv (env : Env) (kmv_inputs : option (list (option VirtualSST)))
    (kmv_samples kmin kmax n : Z) : option (list KMVRangeSketch) :=
  match kmv_inputs with
  | None => Some []
  | Some inputs => MergeKMVRangeSketchesForOutput env inputs kmin kmax n kmv_samples 0
  end.

Section Outputs.
Context (env : Env) (plr : model) (bytes : bytes_model) (total_entries gmin gmax : Z).
Context (kmv_inputs : option (list (option VirtualSST))) (kmv_samples : Z).

(** Output [i] of [num_ssts], between two split positions; the inner [None] is
    the [continue]. *)
Definition build_output (is_first is_last : bool) (pos_start pos_end : Z)
    : option (option VirtualSST) :=
  if decide (total_entries <= pos_start \/ pos_end <= pos_start) then Some None
  else
    ks ← (if is_first then Some gmin else Inverse plr (F64.of_Z pos_start));
    ke ← (if is_last then Some gmax else Inverse plr (F64.of_Z (pos_end -% 1)));
    let ke := if decide (ke < ks) then ks else ke in
    let n_entries := pos_end -% pos_start in
    kmv ← output_kmv env kmv_inputs kmv_samples ks ke n_entries;
    Some (Some (mkVSST (mkPLR (sub_segments ks ke pos_start (segments_ plr))) kmv ks ke n_entries
                  (SSTSizeModel.Estimate bytes n_entries))).

(** The outputs from [pos_start] on; [splits] are the remaining positions. *)
Fixpoint build_outputs (is_first : bool) (pos_start : Z) (splits : list Z)
    : option (list VirtualSST) :=
  match splits with
  | [] =>
      o ← build_output is_first true pos_start total_entries;
      Some (match o with None => [] | Some v => [v] end)
  | p :: splits' =>
      o ← build_output is_first false pos_start p;
      rest ← build_outputs false p splits';
      Some (match o with None => rest | Some v => v :: rest end)
  end.

End Outputs.

(** The byte model in force. *)
Definition choose_model (avg_entry_size : Z) (size_model : option bytes_model) : bytes_model :=
  match size_model with None => SSTSizeModel.Logical avg_entry_size | Some m => m end.

(** The size-based limit of one output. *)
Definition max_output_size (target_sst_size target_level : Z) (boundaries : list Z) : Z :=
  if decide (boundaries <> [] /\ 0 < target_level)
  then if decide (u64_max / 2 < target_sst_size) then u64_max else 2 *% target_sst_size
  else target_sst_size.

Definition keys_per_output (bytes : bytes_model) (max_sst_size : Z) : Z :=
  let k := SSTSizeModel.MaxEntries bytes max_sst_size in
  if decide (k = 0) then 1 else k.

Definition SplitIntoSSTs (env : Env) (plr : model)
    (total_entries target_sst_size avg_entry_size gmin gmax target_level : Z)
    (grandparent_boundaries : list Z) (kmv_inputs : option (list (option VirtualSST)))
    (kmv_samples : Z) (size_model : option bytes_model) : option (list VirtualSST) :=
  if decide (total_entries = 0 \/ Empty plr = true) then Some []
  else if decide (avg_entry_size = 0) then Some []
  else
    let bytes := choose_model avg_entry_size size_model in
    if negb (SSTSizeModel.Valid bytes) then Some []
    else if decide (target_level = 0) then
      kmv ← output_kmv env kmv_inputs kmv_samples gmin gmax total_entries;
      Some [mkVSST plr kmv gmin gmax total_entries (SSTSizeModel.Estimate bytes total_entries)]
    else
      let max_sst_size := max_output_size target_sst_size target_level grandparent_boundaries in
      let keys_per_sst := keys_per_output bytes max_sst_size in
      gps ← gp_positions plr total_entries gmin gmax target_level grandparent_boundaries;
      splits ← find_splits bytes total_entries target_sst_size keys_per_sst gps;
      build_outputs env plr bytes total_entries gmin gmax kmv_inputs kmv_samples true 0 splits.

(** ** The split positions *)

(** Positions after [a] that advance by at least one and at most [k]. *)
Fixpoint gaps_ok (k a : Z) (l : list Z) : Prop :=
  match l with [] => True | p :: l' => a < p <= a + k /\ gaps_ok k p l' end.

(** The last position, [a] if there is none. *)
Fixpoint end_pos (a : Z) (l : list Z) : Z :=
  match l with [] => a | p :: l' => end_pos p l' end.

Lemma gaps_ok_snoc k l p : forall a,
  gaps_ok k a l -> end_pos a l < p <= end_pos a l + k -> gaps_ok k a (l ++ [p]).
Proof.
  induction l as [|q l IH]; intros a; [cbn; auto|].
  intros [Hq Hl] Hp. cbn [app gaps_ok]. split; [done|]. by apply IH.
Qed.

Lemma end_pos_snoc (l : list Z) p : forall a, end_pos a (l ++ [p]) = p.
Proof. induction l as [|q l IH]; intros a; [done|]. apply IH. Qed.

Section SplitLoop.
Context (bytes : bytes_model) (total target keys_per : Z).
Context (Hkeys : 1 <= keys_per).

(** Invariant of the loop. *)
Definition split_inv (st : SState) : Prop :=
  gaps_ok keys_per 0 (split_positions st) /\
  last_split st = end_pos 0 (split_positions st) /\
  0 <= last_split st < total /\
  last_split st < next_size_split st <= last_split st + keys_per /\
  (next_size_split st < total -> next_size_split st = last_split st + keys_per) /\
  Forall (fun p => p < total) (split_positions st).

Definition split_measure (st : SState) : nat :=
  (Z.to_nat (total - last_split st) + length (gp_rest st))%nat.

Lemma skip_passed_length last gps : (length (skip_passed last gps) <= length gps)%nat.
Proof. induction gps as [|p gps IH]; [done|]. cbn [skip_passed]. case_decide; cbn [length]; lia. Qed.

Lemma cut_inv st pos gps : split_inv st -> last_split st < pos <= last_split st + keys_per ->
  pos < total -> split_inv (cut total keys_per pos (split_positions st) gps).
Proof.
  intros (Hg & Hl & Hr & _ & _ & Hall) Hp Hpt. unfold split_inv, cut.
  cbn [split_positions last_split next_size_split]. split_and!.
  - apply gaps_ok_snoc; [done|]. by rewrite <- Hl.
  - by rewrite end_pos_snoc.
  - lia.
  - lia.
  - case_decide; lia.
  - case_decide; lia.
  - case_decide; lia.
  - apply Forall_app. split; [done|by repeat constructor].
Qed.

Lemma split_step_inv st : split_inv st ->
  match split_step bytes total target keys_per st with
  | None => total <= next_size_split st
  | Some st' => split_inv st' /\ (split_measure st' < split_measure st)%nat
  end.
Proof.
  intros Hinv. pose proof Hinv as (Hg & Hl & Hr & Hn & Hn2 & Hall). unfold split_step.
  set (next_gp := hd total (gp_rest st)). case_decide as Hsize.
  - split; [apply cut_inv; [done|lia|lia]|].
    unfold split_measure, cut. cbn [last_split gp_rest].
    pose proof (skip_passed_length (next_size_split st) (gp_rest st)). lia.
  - case_decide as Hgp; [|lia].
    destruct (gp_rest st) as [|p gps] eqn:Egp; [unfold next_gp in Hgp; cbn in Hgp; lia|].
    unfold next_gp in *. cbn [hd tl] in *. case_decide as Hcut.
    + split; [apply cut_inv; [done|lia|lia]|]. unfold split_measure, cut.
      cbn [last_split gp_rest]. rewrite Egp. cbn [length]. lia.
    + split; [exact Hinv|]. unfold split_measure. cbn [last_split gp_rest]. rewrite Egp. cbn [length]. lia.
Qed.

(** The loop ends, and the rest after the last cut fits one output. *)
Lemma split_loop_spec : forall fuel st, split_inv st -> (split_measure st <= fuel)%nat ->
  exists st', split_loop fuel bytes total target keys_per st = Some st' /\ split_inv st' /\
    total - last_split st' <= keys_per.
Proof.
  induction fuel as [|fuel IH]; intros st Hinv Hf.
  - destruct Hinv as (_ & _ & Hr & _). unfold split_measure in Hf. lia.
  - cbn [split_loop]. pose proof (split_step_inv st Hinv) as Hstep.
    pose proof Hinv as (_ & _ & Hr & Hn & _).
    case_decide as Hc; [|exists st; split; [done|]; split; [done|lia]].
    destruct (split_step bytes total target keys_per st) as [st'|].
    + destruct Hstep as [Hinv' Hm]. apply IH; [done|lia].
    + exists st. split; [done|]. split; [done|lia].
Qed.

Lemma find_splits_spec gps : 0 < total ->
  exists l, find_splits bytes total target keys_per gps = Some l /\
    gaps_ok keys_per 0 l /\ Forall (fun p => p < total) l /\
    total - end_pos 0 l <= keys_per.
Proof.
  intros Ht. unfold find_splits.
  destruct (split_loop_spec (Z.to_nat total + length gps) (mkSState [] 0 keys_per 0 gps))
    as (st & -> & (Hg & Hl & _ & _ & _ & Hall) & Hrest).
  - unfold split_inv. cbn. split_and!; (done || lia || constructor).
  - unfold split_measure. cbn [last_split gp_rest]. lia.
  - exists (split_positions st). rewrite <- Hl. done.
Qed.

End SplitLoop.

(** ** The outputs *)

(** Entry counts between consecutive positions. *)
Fixpoint gap_list (a : Z) (l : list Z) (total : Z) : list Z :=
  match l with [] => [total - a] | p :: l' => (p - a) :: gap_list p l' total end.

Lemma gap_list_sum l total : forall a, foldr Z.add 0 (gap_list a l total) = total - a.
Proof. induction l as [|p l IH]; intros a; cbn [gap_list foldr]; [lia|]. rewrite IH. lia. Qed.

Lemma gap_list_bounds k total l : forall a, gaps_ok k a l -> Forall (fun p => p < total) l ->
  a < total -> total - end_pos a l <= k ->
  Forall (fun n => 1 <= n <= k /\ n <= total - a) (gap_list a l total).
Proof.
  induction l as [|p l IH]; intros a; cbn [gaps_ok gap_list end_pos].
  - intros _ _ Ha Hk. repeat constructor; lia.
  - intros [Hp Hg] [Hpt Hall]%Forall_cons_iff Ha Hk. constructor; [lia|].
    eapply Forall_impl; [by apply IH|]. cbn. lia.
Qed.

Lemma sub_segments_clip ks ke pos segs : ks <= ke ->
  Forall (fun s => key_start s <= key_end s) segs ->
  Forall (fun s => ks <= key_start s <= key_end s /\ key_end s <= ke) (sub_segments ks ke pos segs).
Proof.
  intros Hk. induction 1 as [|s segs Hs _ IH]; cbn [sub_segments]; [constructor|].
  repeat case_decide; try done. constructor; [|done]. cbn. lia.
Qed.

Section OutputsSpec.
Context (env : Env) (plr : model) (bytes : bytes_model) (total gmin gmax : Z).
Context (kmv_inputs : option (list (option VirtualSST))) (kmv_samples : Z).
Context (Hplr : segments_ plr <> []) (Hfin : Forall seg_fin (segments_ plr)).
Context (Htotal : 1 <= total <= u64_max).
Context (Hgmin : is_u64 gmin) (Hgmax : is_u64 gmax) (Hg : gmin <= gmax) (Hks : 0 <= kmv_samples).

(** The inputs whose sketches are merged, and the keys they describe. *)
Context (Kof : VirtualSST -> Z -> Prop).
Definition kmv_inputs_ok : Prop :=
  match kmv_inputs with
  | None => True
  | Some inputs =>
      (forall v, Some v ∈ inputs -> vsst_sound (Kof v) v) /\
      sum_entries (input_ranges inputs) <= u64_max /\ sum_samples (input_ranges inputs) <= 2 ^ 63
  end.
Context (Hkmv : kmv_inputs_ok).

(** What an output promises: an ordered key range around its segments, the size
    estimate of its entries, and sketches of exactly the input keys in the
    range. *)
Definition output_ok (v : VirtualSST) : Prop :=
  is_u64 (key_min v) /\ is_u64 (key_max v) /\ key_min v <= key_max v /\
  size_bytes v = SSTSizeModel.Estimate bytes (num_entries v) /\
  match kmv_inputs with
  | None => kmv_ranges v = []
  | Some inputs =>
      vsst_sound (fun k => union_keys inputs Kof k /\ key_min v <= k <= key_max v) v
  end.

Lemma output_kmv_spec ks ke n : is_u64 ks -> is_u64 ke -> ks <= ke -> 1 <= n <= u64_max ->
  exists rs, output_kmv env kmv_inputs kmv_samples ks ke n = Some rs /\
    forall plr' bytes', size_bytes (mkVSST plr' rs ks ke n bytes') = SSTSizeModel.Estimate bytes n ->
      output_ok (mkVSST plr' rs ks ke n bytes').
Proof.
  intros Hu1 Hu2 Hle Hn. unfold output_kmv, output_ok, kmv_inputs_ok in *.
  destruct kmv_inputs as [inputs|]; cbn; [|eexists; split; [done|]; done].
  destruct Hkmv as (Hs & Hc & Hsm).
  destruct (MergeKMVRangeSketches_gen env inputs Kof ks ke n kmv_samples 0) as (rs & Hrs & H1 & H2 & _);
    try done. exists rs. split; [done|]. intros plr' bytes' Hb. split_and!; try done.
  split; [done|]. split; [done|]. intros k [(v & Hv & HK) Hk]. split; [|done].
  destruct (Hs v Hv) as (_ & _ & Hku). by apply Hku.
Qed.

Lemma Inverse_u64 p : is_u64 p -> exists k, Inverse plr (F64.of_Z p) = Some k /\ is_u64 k.
Proof.
  intros Hp. destruct (Inverse_gen plr (F64.of_Z p) Hplr Hfin) as (seg & k & Hseg & Hk & Hb).
  { by apply of_Z_finite64. }
  exists k. split; [done|]. rewrite Forall_forall in Hfin.
  destruct (Hfin seg Hseg) as (_ & _ & Hs & He). unfold is_u64, u64_max. lia.
Qed.

Lemma build_output_spec is_first is_last a p : 0 <= a < p -> p <= total ->
  exists v, build_output env plr bytes total gmin gmax kmv_inputs kmv_samples is_first is_last a p
      = Some (Some v) /\ output_ok v /\ num_entries v = p - a.
Proof.
  intros Ha Hp. unfold build_output. rewrite decide_False by lia.
  assert (Hu : is_u64 a /\ is_u64 (p -% 1) /\ p -% a = p - a).
  { unfold is_u64, u64_max in *. rewrite !u64_small by solve_u64. lia. }
  destruct Hu as (Hua & Hup & ->).
  assert (exists ks, (if is_first then Some gmin else Inverse plr (F64.of_Z a)) = Some ks /\ is_u64 ks)
    as (ks & -> & Hks1) by (destruct is_first; [by exists gmin|by apply Inverse_u64]).
  assert (exists ke, (if is_last then Some gmax else Inverse plr (F64.of_Z (p -% 1))) = Some ke /\ is_u64 ke)
    as (ke & -> & Hke1) by (destruct is_last; [by exists gmax|by apply Inverse_u64]).
  cbn [mbind option_bind]. set (ke' := if decide (ke < ks) then ks else ke).
  assert (is_u64 ke' /\ ks <= ke') as [Hke' Hle] by (unfold ke'; case_decide; split; (done || lia)).
  destruct (output_kmv_spec ks ke' (p - a)) as (rs & -> & Hok); [done|done|done|lia|].
  cbn [mbind option_bind]. eexists. split; [reflexivity|]. split; [by apply Hok|done].
Qed.

Lemma build_outputs_spec splits k : forall is_first a, 0 <= a < total -> gaps_ok k a splits ->
  Forall (fun p => p < total) splits ->
  exists outs, build_outputs env plr bytes total gmin gmax kmv_inputs kmv_samples is_first a splits
      = Some outs /\ Forall output_ok outs /\ num_entries <$> outs = gap_list a splits total.
Proof.
  induction splits as [|p splits IH]; intros is_first a Ha; cbn [build_outputs gaps_ok gap_list].
  - intros _ _. destruct (build_output_spec is_first true a total) as (v & -> & Hv & Hn); [lia|lia|].
    cbn. eexists. split; [reflexivity|]. split; [by constructor|]. cbn. by rewrite Hn.
  - intros [Hp Hgaps] [Hpt Hall]%Forall_cons_iff.
    destruct (build_output_spec is_first false a p) as (v & -> & Hv & Hn); [lia|lia|].
    destruct (IH false p ltac:(lia) Hgaps Hall) as (outs & Ho & Hok & Hgl).
    cbn [mbind option_bind]. rewrite Ho. cbn. eexists. split; [reflexivity|].
    split; [by constructor|]. cbn. by rewrite Hn, Hgl.
Qed.

End OutputsSpec.

(** ** The grandparent positions are defined *)

Abbreviation V64 := (FloatTheory.V F64.prec F64.emax).
Abbreviation one64 := (FloatTheory.one F64.prec F64.emax).

(** A finite [double] below 2^64 is at most 2^64 - 1: above 2^53 it is an
    integer. *)
Lemma below_2_64 s m e : valid64 (S754_finite s m e) -> V64 (S754_finite s m e) < 2 ^ 64 * one64 ->
  V64 (S754_finite s m e) <= (2 ^ 64 - 1) * one64.
Proof.
  intros Hv. destruct prec64 as [Hp He].
  apply (valid_finite F64.prec F64.emax) in Hv as [Hc _].
  destruct (canon_bounds F64.prec F64.emax _ _ Hc) as (Hem & Hm & _).
  cbn [FloatTheory.V]. unfold FloatTheory.one, signed in *.
  change (SpecFloat.emin F64.prec F64.emax) with (-1074) in *.
  change (2 ^ F64.prec) with (2 ^ 53) in Hm. change (- (-1074)) with 1074.
  assert (H1 : 0 < 2 ^ 1074) by lia. destruct s; [nia|].
  destruct (Z.le_gt_cases 0 e) as [He0|He0].
  - replace (e - -1074) with (e + 1074) by lia. rewrite Z.pow_add_r by lia.
    intros Hlt. assert (Z.pos m * 2 ^ e < 2 ^ 64) by nia. nia.
  - intros _. assert (2 ^ (e - -1074) <= 2 ^ 1074) by (apply Z.pow_le_mono_r; lia). nia.
Qed.

(** A position strictly between zero and a 64-bit count rounds to 64 bits. *)
Lemma round_below_total pos n : valid64 pos -> is_u64 n ->
  flt fzero pos = true -> flt pos (F64.of_Z n) = true -> exists p, round_u64 pos = Some p.
Proof.
  intros Hv Hn H0 Ht. destruct prec64 as [Hp He]. unfold is_u64, u64_max in Hn.
  destruct (of_Z_finite64 n ltac:(unfold is_u64, u64_max; lia)) as [Hvn Hfn].
  assert (Hf : is_fin pos = true).
  { destruct pos as [| [] | | ]; try done. destruct (F64.of_Z n) as [| [] | | []]; done. }
  assert (Hpos : 0 < V64 pos) by (by apply (flt_V F64.prec F64.emax Hp fzero pos) in H0).
  assert (Hlt : V64 pos < 2 ^ 64 * one64).
  { apply (flt_V F64.prec F64.emax Hp pos (F64.of_Z n)) in Ht; [|done..].
    assert (Hr : rep_int F64.prec F64.emax (2 ^ 64)).
    { change (2 ^ 64) with (1 * 2 ^ 64). apply rep_int_shift_le; (done || by vm_compute). }
    destruct (ofz_upper F64.prec F64.emax Hp He n (2 ^ 64) ltac:(lia) Hr) as [_ Hu].
    change (F64.of_Z n) with (ofz F64.prec F64.emax n) in Ht. lia. }
  assert (Hle : V64 pos <= (2 ^ 64 - 1) * one64).
  { destruct pos as [| | |s m e]; try done. by apply below_2_64. }
  destruct (round_ceil_between F64.prec F64.emax Hp He pos 0 (2 ^ 64 - 1) Hv Hf ltac:(lia))
    as [(r & Hr & Hb) _]; [lia|].
  exists r. unfold round_u64. rewrite Hr. cbn. unfold as_u64, u64_max. by rewrite decide_True by lia.
Qed.

Lemma mul_finite_valid a b : finite64 a -> finite64 b -> valid64 (F64.mul a b) /\ is_nan (F64.mul a b) = false.
Proof. intros [? ?] [? ?]. destruct prec64. by apply mul_valid. Qed.

Lemma add_finite_valid a b : valid64 a -> is_nan a = false -> finite64 b -> valid64 (F64.add a b).
Proof.
  intros Ha Hn [Hb Hfb]. destruct prec64. destruct a as [s|s| |s m e]; try done.
  - by apply add_valid.
  - by destruct b.
  - by apply add_valid.
Qed.

Lemma eval_valid seg k : seg_fin seg -> is_u64 k -> valid64 (eval seg k).
Proof.
  intros (Hs & Hi & _) Hk. unfold eval.
  destruct (mul_finite_valid (slope seg) (F64.of_Z k) Hs (of_Z_finite64 k Hk)) as [Hv Hn].
  by apply add_finite_valid.
Qed.

Lemma Predict_valid plr k : Forall seg_fin (segments_ plr) -> is_u64 k -> valid64 (Predict plr k).
Proof.
  intros Hfin Hk. unfold Predict. destruct (last (segments_ plr)) as [back|] eqn:Hl; [|done].
  rewrite Forall_forall in Hfin.
  assert (Hend : forall seg, seg ∈ segments_ plr -> valid64 (eval seg (key_end seg))).
  { intros seg Hseg. apply eval_valid; [auto|]. destruct (Hfin seg Hseg) as (_ & _ & H1 & H2).
    unfold is_u64, u64_max. lia. }
  destruct (decide _) as [|Hlt]; [apply Hend; by apply last_Some_elem_of|].
  set (lo := predict_search _ _ _ _ _) in *.
  assert (Hin : forall i, (i <= lo)%nat -> segments_ plr !!! i ∈ segments_ plr).
  { intros i Hi. apply list_elem_of_lookup_total_2. lia. }
  destruct (decide _); [|apply eval_valid; [by apply Hfin, Hin|done]].
  destruct lo as [|lo']; [done|]. apply Hend, Hin. lia.
Qed.

Lemma gp_positions_defined plr total gmin gmax level boundaries :
  Forall seg_fin (segments_ plr) -> is_u64 total -> Forall is_u64 boundaries ->
  exists gps, gp_positions plr total gmin gmax level boundaries = Some gps.
Proof.
  intros Hfin Ht Hb. unfold gp_positions. case_decide; [|by eexists].
  destruct (mapM (gp_position plr total gmin gmax) boundaries) as [ps|] eqn:Hm; [by eexists|].
  apply mapM_None, Exists_exists in Hm as (b & Hin & Hn). rewrite Forall_forall in Hb.
  unfold gp_position in Hn. case_decide; [done|].
  destruct (flt fzero (Predict plr b)) eqn:E1, (flt (Predict plr b) (F64.of_Z total)) eqn:E2; try done.
  destruct (round_below_total (Predict plr b) total) as [p Hp]; auto using Predict_valid.
  cbn in Hn. by rewrite Hp in Hn.
Qed.

Lemma keys_per_output_spec bytes size : SSTSizeModel.wf bytes -> SSTSizeModel.Valid bytes = true ->
  is_u64 size -> 1 <= keys_per_output bytes size /\
  (SSTSizeModel.Estimate bytes 1 <= size -> forall n, is_u64 n -> n <= keys_per_output bytes size ->
     SSTSizeModel.Estimate bytes n <= size).
Proof.
  intros Hwf Hv Hs. pose proof (fun n Hn => SSTSizeModel.MaxEntries_iff bytes n size Hwf Hv Hn Hs) as Hiff.
  unfold keys_per_output. set (m := SSTSizeModel.MaxEntries bytes size) in *.
  assert (0 <= m).
  { apply Hiff; [unfold is_u64, u64_max; lia|]. unfold SSTSizeModel.Estimate. cbn. apply Hs. }
  case_decide as Hm; split; try lia; intros H1 n Hn Hle.
  - apply Hiff in H1; [lia|unfold is_u64, u64_max; lia].
  - by apply Hiff.
Qed.

Lemma choose_model_wf avg size_model : 1 <= avg <= u64_max ->
  (forall m, size_model = Some m -> SSTSizeModel.wf m /\ SSTSizeModel.Valid m = true) ->
  SSTSizeModel.wf (choose_model avg size_model) /\ SSTSizeModel.Valid (choose_model avg size_model) = true.
Proof.
  intros Havg Hm. destruct size_model as [m|]; [by apply Hm|]. cbn [choose_model].
  unfold SSTSizeModel.Logical. rewrite decide_True by lia. split; [|done].
  repeat constructor; unfold SSTSizeModel.Max, u64_max in *; cbn; lia.
Qed.

Lemma max_output_size_u64 target level boundaries : is_u64 target ->
  is_u64 (max_output_size target level boundaries).
Proof.
  intros Ht. unfold max_output_size. repeat case_decide; [unfold is_u64, u64_max; lia|apply u64_range|done].
Qed.

Lemma nonempty_total (plr : model) total : segments_ plr <> [] -> 1 <= total ->
  ~ (total = 0 \/ Empty plr = true).
Proof. intros Hp Ht [?|He]; [lia|]. unfold Empty in He. by destruct (segments_ plr). Qed.

(** ** Properties *)

Lemma SplitIntoSSTs_below_gen (env : Env) (plr : model)
    (total_entries target_sst_size avg_entry_size gmin gmax target_level : Z)
    (boundaries : list Z) (kmv_inputs : option (list (option VirtualSST))) (kmv_samples : Z)
    (size_model : option bytes_model) (Kof : VirtualSST -> Z -> Prop)
    (Hplr : segments_ plr <> []) (Hfin : Forall seg_fin (segments_ plr))
    (Htotal : 1 <= total_entries <= u64_max) (Htarget : is_u64 target_sst_size)
    (Havg : 1 <= avg_entry_size <= u64_max) (Hlevel : 0 < target_level)
    (Hgmin : is_u64 gmin) (Hgmax : is_u64 gmax) (Hg : gmin <= gmax)
    (Hb : Forall is_u64 boundaries) (Hks : 0 <= kmv_samples)
    (Hmodel : forall m, size_model = Some m -> SSTSizeModel.wf m /\ SSTSizeModel.Valid m = true)
    (Hkmv : kmv_inputs_ok kmv_inputs Kof) :
  let bytes := choose_model avg_entry_size size_model in
  let limit := max_output_size target_sst_size target_level boundaries in
  exists outs,
    SplitIntoSSTs env plr total_entries target_sst_size avg_entry_size gmin gmax target_level
      boundaries kmv_inputs kmv_samples size_model = Some outs /\
    foldr Z.add 0 (num_entries <$> outs) = total_entries /\
    Forall (fun v => 1 <= num_entries v) outs /\
    (SSTSizeModel.Estimate bytes 1 <= limit -> Forall (fun v => size_bytes v <= limit) outs) /\
    Forall (output_ok bytes kmv_inputs Kof) outs.
Proof.
  intros bytes limit.
  assert (Hbytes : SSTSizeModel.wf bytes /\ SSTSizeModel.Valid bytes = true)
    by (by apply choose_model_wf).
  destruct Hbytes as [Hwf Hv]. assert (Hlimit : is_u64 limit) by (by apply max_output_size_u64).
  destruct (keys_per_output_spec bytes limit Hwf Hv Hlimit) as [Hk1 Hk2].
  unfold SplitIntoSSTs. rewrite (decide_False (P := total_entries = 0 \/ Empty plr = true))
    by (apply nonempty_total; (done || lia)).
  rewrite !decide_False by lia. fold bytes. rewrite Hv. cbn [negb]. fold limit.
  destruct (gp_positions_defined plr total_entries gmin gmax target_level boundaries) as [gps ->];
    [done|unfold is_u64; lia|done|]. cbn [mbind option_bind].
  destruct (find_splits_spec bytes total_entries target_sst_size (keys_per_output bytes limit) Hk1 gps)
    as (splits & -> & Hgaps & Hall & Hrest); [lia|]. cbn [mbind option_bind].
  destruct (build_outputs_spec env plr bytes total_entries gmin gmax kmv_inputs kmv_samples Hplr Hfin
    Htotal Hgmin Hgmax Hks Kof Hkmv splits _ true 0 ltac:(lia) Hgaps Hall) as (outs & -> & Hok & Hn).
  pose proof (gap_list_bounds _ total_entries splits 0 Hgaps Hall ltac:(lia) Hrest) as Hgb.
  rewrite <- Hn, Forall_fmap in Hgb. exists outs. split; [done|].
  split; [rewrite Hn, gap_list_sum; lia|]. rewrite Forall_forall in Hgb, Hok.
  split; [|split]; [..|by apply Forall_forall]; [|intros H1]; apply Forall_forall; intros v Hvin.
  - by apply Hgb.
  - destruct (Hok v Hvin) as (_ & _ & _ & -> & _). specialize (Hgb v Hvin). cbn in Hgb.
    apply Hk2; [done|unfold is_u64|]; lia.
Qed.

(** C33: splitting a merged model below level 0: the result is defined, its entry
    counts are positive and add up to the total, every output stays within the
    size limit (when one entry does), covers an ordered key range with the size
    estimate of its entries, and carries the sketch of exactly the input keys in
    its range. *)
Theorem SplitIntoSSTs_correct (env : Env) (plr : model)
    (total_entries target_sst_size avg_entry_size gmin gmax target_level : Z)
    (boundaries : list Z) (kmv_inputs : option (list (option VirtualSST))) (kmv_samples : Z)
    (size_model : option bytes_model) (Kof : VirtualSST -> Z -> Prop)
    (Hplr : segments_ plr <> []) (Hfin : Forall seg_fin (segments_ plr))
    (Htotal : 1 <= total_entries <= u64_max) (Htarget : is_u64 target_sst_size)
    (Havg : 1 <= avg_entry_size <= u64_max) (Hlevel : 0 < target_level)
    (Hgmin : is_u64 gmin) (Hgmax : is_u64 gmax) (Hg : gmin <= gmax)
    (Hb : Forall is_u64 boundaries) (Hks : 0 <= kmv_samples)
    (Hmodel : forall m, size_model = Some m -> SSTSizeModel.wf m /\ SSTSizeModel.Valid m = true)
    (Hkmv : kmv_inputs_ok kmv_inputs Kof) :
  let bytes := choose_model avg_entry_size size_model in
  let limit := max_output_size target_sst_size target_level boundaries in
  exists outs,
    SplitIntoSSTs env plr total_entries target_sst_size avg_entry_size gmin gmax target_level
      boundaries kmv_inputs kmv_samples size_model = Some outs /\
    foldr Z.add 0 (num_entries <$> outs) = total_entries /\
    Forall (fun v => 1 <= num_entries v) outs /\
    (SSTSizeModel.Estimate bytes 1 <= limit -> Forall (fun v => size_bytes v <= limit) outs) /\
    Forall (output_ok bytes kmv_inputs Kof) outs.
Proof. by eapply SplitIntoSSTs_below_gen. Qed.

Lemma SplitIntoSSTs_level0_gen (env : Env) (plr : model)
    (total_entries target_sst_size avg_entry_size gmin gmax : Z) (boundaries : list Z)
    (kmv_inputs : option (list (option VirtualSST))) (kmv_samples : Z)
    (size_model : option bytes_model) (Kof : VirtualSST -> Z -> Prop)
    (Hplr : segments_ plr <> []) (Htotal : 1 <= total_entries <= u64_max)
    (Havg : 1 <= avg_entry_size <= u64_max)
    (Hgmin : is_u64 gmin) (Hgmax : is_u64 gmax) (Hg : gmin <= gmax) (Hks : 0 <= kmv_samples)
    (Hmodel : forall m, size_model = Some m -> SSTSizeModel.wf m /\ SSTSizeModel.Valid m = true)
    (Hkmv : kmv_inputs_ok kmv_inputs Kof) :
  exists v, SplitIntoSSTs env plr total_entries target_sst_size avg_entry_size gmin gmax 0
      boundaries kmv_inputs kmv_samples size_model = Some [v] /\
    plr_model v = plr /\ key_min v = gmin /\ key_max v = gmax /\ num_entries v = total_entries /\
    output_ok (choose_model avg_entry_size size_model) kmv_inputs Kof v.
Proof.
  destruct (choose_model_wf avg_entry_size size_model Havg Hmodel) as [Hwf Hv].
  unfold SplitIntoSSTs. rewrite (decide_False (P := total_entries = 0 \/ Empty plr = true))
    by (apply nonempty_total; (done || lia)).
  rewrite decide_False by lia. rewrite Hv. cbn [negb]. rewrite decide_True by done.
  destruct (output_kmv_spec env (choose_model avg_entry_size size_model) kmv_inputs kmv_samples Hks
    Kof Hkmv gmin gmax total_entries) as (rs & -> & Hok); [done|done|done|lia|].
  cbn [mbind option_bind]. eexists. split; [reflexivity|]. split_and!; try done. by apply Hok.
Qed.

(** an output to level 0 is never split: one descriptor with the whole model,
    key range and entry count, and the sketch of all inputs. *)
Theorem SplitIntoSSTs_level0 (env : Env) (plr : model)
    (total_entries target_sst_size avg_entry_size gmin gmax : Z) (boundaries : list Z)
    (kmv_inputs : option (list (option VirtualSST))) (kmv_samples : Z)
    (size_model : option bytes_model) (Kof : VirtualSST -> Z -> Prop)
    (Hplr : segments_ plr <> []) (Htotal : 1 <= total_entries <= u64_max)
    (Havg : 1 <= avg_entry_size <= u64_max)
    (Hgmin : is_u64 gmin) (Hgmax : is_u64 gmax) (Hg : gmin <= gmax) (Hks : 0 <= kmv_samples)
    (Hmodel : forall m, size_model = Some m -> SSTSizeModel.wf m /\ SSTSizeModel.Valid m = true)
    (Hkmv : kmv_inputs_ok kmv_inputs Kof) :
  exists v, SplitIntoSSTs env plr total_entries target_sst_size avg_entry_size gmin gmax 0
      boundaries kmv_inputs kmv_samples size_model = Some [v] /\
    plr_model v = plr /\ key_min v = gmin /\ key_max v = gmax /\ num_entries v = total_entries /\
    output_ok (choose_model avg_entry_size size_model) kmv_inputs Kof v.
Proof. by eapply SplitIntoSSTs_level0_gen. Qed.

(** ** Instances *)

Definition demo_plr : model := GreedyPLRFit demo_keys (F64.of_Z 1).

Lemma demo_kmv_ok : kmv_inputs_ok (Some demo_merge_inputs) demo_K.
Proof. split; [apply demo_inputs_sound|]. split; by vm_compute. Qed.

Lemma SplitIntoSSTs_correct_witness :
  exists outs, SplitIntoSSTs (mkEnv None None) demo_plr 8 20 10 3 60 1 [9; 20] (Some demo_merge_inputs)
      0 None = Some outs /\
    foldr Z.add 0 (num_entries <$> outs) = 8 /\ Forall (fun v => size_bytes v <= 40) outs.
Proof.
  destruct (SplitIntoSSTs_correct (mkEnv None None) demo_plr 8 20 10 3 60 1 [9; 20]
    (Some demo_merge_inputs) 0 None demo_K) as (outs & H1 & H2 & _ & H3 & _);
    [by vm_compute|apply (bool_decide_unpack _); by vm_compute|by vm_compute|by vm_compute
    |by vm_compute|lia|by vm_compute|by vm_compute|lia|apply (bool_decide_unpack _); by vm_compute
    |lia|done|apply demo_kmv_ok|].
  exists outs. split; [exact H1|]. split; [exact H2|]. apply H3. by vm_compute.
Defined.

Lemma SplitIntoSSTs_level0_witness :
  exists v, SplitIntoSSTs (mkEnv None None) demo_plr 8 20 10 3 60 0 [9; 20] (Some demo_merge_inputs)
      0 None = Some [v] /\ num_entries v = 8.
Proof.
  destruct (SplitIntoSSTs_level0 (mkEnv None None) demo_plr 8 20 10 3 60 [9; 20]
    (Some demo_merge_inputs) 0 None demo_K) as (v & H1 & _ & _ & _ & H2 & _);
    [by vm_compute|by vm_compute|by vm_compute|by vm_compute|by vm_compute|lia|lia|done
    |apply demo_kmv_ok|].
  exists v. split; [exact H1|exact H2].
Defined.

(** Two outputs of a dense model share their boundary key: with two entries per
    key, the last key of one output is the first key of the next. *)
Example adjacent_outputs_share_key :
  let plr := mkPLR [mkSeg 0 10 (F64.of_Z 2) fzero] in
  (option_map (List.map (fun v => (key_min v, key_max v)))
    (SplitIntoSSTs (mkEnv None None) plr 20 80 10 0 10 1 [] None 0 None)) =
  Some [(0, 4); (4, 8); (8, 10)].
Proof. by vm_compute. Qed.

End Split.
