(* ===== verification/Materialize.v ===== *)
(** * Materializing keys from a descriptor

    [MaterializeKeys] of [db/virtual_compaction/virtual_sst.cc]: the walk over
    the positions, the pass that makes the keys increase and the pass that caps
    them at the largest key. *)

From Stdlib Require Import ZArith Lia SpecFloat Sorted.
From stdpp Require Import base numbers list sorting.
From S2P Require Import Prelude FloatModel FloatTheory KmvHash Plr Kmv.

Local Open Scope Z_scope.

Module Materialize.

(** ** Definitions *)

(** The inner [while]: advance to the segment that reaches [position]. *)
Fixpoint mat_advance (fuel : nat) (segs : list segment) (position : spec_float) (idx : nat) : nat :=
  match fuel with
  | O => idx
  | S fuel' =>
      if decide (idx + 1 < length segs)%nat then
        let seg := segs !!! idx in
        if fle position (seg_pos seg (key_end seg)) then idx
        else mat_advance fuel' segs position (idx + 1)
      else idx
  end.

(** The loop over positions [pos, pos + 1, ...], [n] of them. *)
Fixpoint mat_loop (n : nat) (segs : list segment) (kmin kmax : Z) (pos : Z) (idx : nat)
    : option (list Z) :=
  match n with
  | O => Some []
  | S n' =>
      let position := F64.of_Z pos in
      let idx := mat_advance (length segs) segs position idx in
      key ← segment_key (segs !!! idx) position;
      let key := Z.min (Z.max key kmin) kmax in
      keys ← mat_loop n' segs kmin kmax (pos + 1) idx;
      Some (key :: keys)
  end.

(** The pass [if (keys[i] <= keys[i - 1]) keys[i] = keys[i - 1] + 1]. *)
Fixpoint increase_from (prev : Z) (keys : list Z) : list Z :=
  match keys with
  | [] => []
  | k :: keys' =>
      let k := if decide (k <= prev) then prev +% 1 else k in
      k :: increase_from k keys'
  end.

Definition make_increasing (keys : list Z) : list Z :=
  match keys with [] => [] | k :: keys' => k :: increase_from k keys' end.

(** The cap, walking from the back while keys exceed [kmax]; the list is
    given reversed. *)
Fixpoint cap_back (kmax : Z) (rkeys : list Z) : list Z :=
  match rkeys with
  | [] => []
  | k :: rkeys' => if decide (kmax < k) then kmax :: cap_back kmax rkeys' else rkeys
  end.

Definition cap_keys (kmax : Z) (keys : list Z) : list Z :=
  reverse (cap_back kmax (reverse keys)).

Definition MaterializeKeys (vsst : VirtualSST) : option (list Z) :=
  if decide (num_entries vsst = 0 \/ Empty (plr_model vsst) = true) then Some []
  else
    keys ← mat_loop (Z.to_nat (num_entries vsst)) (segments_ (plr_model vsst))
             (key_min vsst) (key_max vsst) 0 0;
    Some (cap_keys (key_max vsst) (make_increasing keys)).

(** ** The position walk *)

Lemma mat_advance_lt fuel segs position : forall idx, (idx < length segs)%nat ->
  (mat_advance fuel segs position idx < length segs)%nat.
Proof.
  induction fuel as [|fuel IH]; intros idx Hi; cbn [mat_advance]; [done|].
  case_decide; [|done]. destruct (fle _ _); [done|]. apply IH. lia.
Qed.

Lemma mat_loop_spec segs kmin kmax : Forall seg_fin segs -> kmin <= kmax ->
  forall n pos idx, (idx < length segs)%nat -> 0 <= pos -> pos + Z.of_nat n <= 2 ^ 64 ->
  exists keys, mat_loop n segs kmin kmax pos idx = Some keys /\ length keys = n /\
    Forall (fun k => kmin <= k <= kmax) keys.
Proof.
  intros Hfin Hk. induction n as [|n IH]; intros pos idx Hi Hp Hn; cbn [mat_loop].
  { exists []. split; [done|]. split; [done|constructor]. }
  set (idx' := mat_advance _ _ _ _).
  assert (Hi' : (idx' < length segs)%nat) by (by apply mat_advance_lt).
  assert (Hseg : seg_fin (segs !!! idx')).
  { rewrite Forall_forall in Hfin. apply Hfin, list_elem_of_lookup_total_2. done. }
  destruct (segment_key_bounds _ (F64.of_Z pos) Hseg) as (k & -> & _).
  { apply of_Z_finite64. unfold is_u64, u64_max. lia. }
  cbn [mbind option_bind]. destruct (IH (pos + 1) idx' Hi') as (keys & -> & Hl & Hall); [lia|lia|].
  cbn [mbind option_bind]. eexists. split; [reflexivity|]. split; [cbn; lia|].
  constructor; [lia|done].
Qed.

(** ** Increasing and capping *)

Lemma increase_from_sorted keys : forall prev kmin, kmin <= prev ->
  prev + Z.of_nat (length keys) <= u64_max -> 0 <= prev ->
  Forall (fun k => kmin <= k /\ k + Z.of_nat (length keys) <= u64_max) keys ->
  StronglySorted Z.lt (prev :: increase_from prev keys) /\
  length (increase_from prev keys) = length keys /\
  Forall (fun k => kmin <= k) (increase_from prev keys).
Proof.
  induction keys as [|k keys IH]; intros prev kmin Hkp Hp H0 Hall; cbn [increase_from].
  { split; [repeat constructor|]. split; [done|constructor]. }
  apply Forall_cons_iff in Hall as [[Hk Hkb] Hall]. cbn [length] in *.
  set (k' := if decide (k <= prev) then prev +% 1 else k).
  assert (Hk' : prev < k' /\ k' + Z.of_nat (length keys) <= u64_max /\ kmin <= k').
  { unfold k'. case_decide; [rewrite u64_small by solve_u64|]; lia. }
  destruct (IH k' kmin) as (Hs & Hl & Hge); [lia|lia|lia| |].
  { eapply Forall_impl; [exact Hall|]. cbn. lia. }
  split; [|split; [cbn; lia|by constructor; [lia|]]].
  constructor; [done|]. apply StronglySorted_inv in Hs as [_ Hall'].
  constructor; [lia|]. eapply Forall_impl; [exact Hall'|]. cbn. lia.
Qed.

Lemma cap_back_sorted kmax rkeys : StronglySorted (fun a b => b < a) rkeys ->
  cap_back kmax rkeys = Z.min kmax <$> rkeys.
Proof.
  induction 1 as [|k rkeys Hs IH Hall]; [done|]. cbn [cap_back]. case_decide.
  - rewrite IH. cbn. by rewrite Z.min_l by lia.
  - symmetry. apply list_fmap_id_on. constructor; [lia|].
    eapply Forall_impl; [done|]. cbn. lia.
Qed.

Lemma cap_keys_sorted kmax keys : StronglySorted Z.lt keys ->
  cap_keys kmax keys = Z.min kmax <$> keys.
Proof.
  intros Hs. unfold cap_keys. rewrite cap_back_sorted by (by apply StronglySorted_reverse).
  by rewrite <- fmap_reverse, reverse_involutive.
Qed.

Lemma make_increasing_sorted keys kmin kmax : 0 <= kmin ->
  kmax + Z.of_nat (length keys) <= u64_max -> Forall (fun k => kmin <= k <= kmax) keys ->
  StronglySorted Z.lt (make_increasing keys) /\ length (make_increasing keys) = length keys /\
  Forall (fun k => kmin <= k) (make_increasing keys).
Proof.
  intros H0 Hb Hall. destruct keys as [|k keys]; [split; [constructor|]; split; [done|constructor]|].
  apply Forall_cons_iff in Hall as [Hk Hall]. cbn [length make_increasing] in *.
  destruct (increase_from_sorted keys k kmin) as (Hs & Hl & Hge); [lia|lia|lia| |].
  { eapply Forall_impl; [exact Hall|]. cbn. lia. }
  split; [done|]. split; [cbn; lia|]. constructor; [lia|done].
Qed.

(** Strictly increasing, except that the largest key may repeat at the end. *)
Definition increasing_to (kmax a b : Z) : Prop := a < b \/ a = kmax /\ b = kmax.

Lemma min_sorted kmax keys : StronglySorted Z.lt keys ->
  StronglySorted (increasing_to kmax) (Z.min kmax <$> keys).
Proof.
  induction 1 as [|k keys Hs IH Hall]; [constructor|]. cbn. constructor; [done|].
  apply Forall_fmap. eapply Forall_impl; [exact Hall|]. unfold increasing_to. cbn. lia.
Qed.

(** ** Properties *)

(** materializing a descriptor with finite segments over keys up to 2^53 is
    defined and returns exactly [num_entries] keys, all inside the descriptor's
    key range, strictly increasing except for repetitions of the largest key. *)
Theorem MaterializeKeys_correct (vsst : VirtualSST)
    (Hfin : Forall seg_fin (segments_ (plr_model vsst))) (Hne : segments_ (plr_model vsst) <> [])
    (Hk0 : 0 <= key_min vsst) (Hk : key_min vsst <= key_max vsst)
    (Hn : 0 <= num_entries vsst) (Hb : key_max vsst + num_entries vsst <= u64_max) :
  exists keys, MaterializeKeys vsst = Some keys /\
    Z.of_nat (length keys) = num_entries vsst /\
    Forall (fun k => key_min vsst <= k <= key_max vsst) keys /\
    StronglySorted (increasing_to (key_max vsst)) keys.
Proof.
  unfold MaterializeKeys. case_decide as Hz.
  { exists []. split; [done|]. destruct Hz as [->|Hz].
    - split; [done|]. split; constructor.
    - unfold Empty in Hz. by destruct (segments_ (plr_model vsst)). }
  destruct (mat_loop_spec (segments_ (plr_model vsst)) (key_min vsst) (key_max vsst) Hfin Hk
    (Z.to_nat (num_entries vsst)) 0 0) as (keys & -> & Hl & Hall).
  { destruct (segments_ (plr_model vsst)); [done|cbn; lia]. }
  { lia. }
  { unfold u64_max in Hb. lia. }
  cbn [mbind option_bind]. eexists. split; [reflexivity|].
  destruct (make_increasing_sorted keys (key_min vsst) (key_max vsst) Hk0) as (Hs & Hl2 & Hge);
    [lia|done|]. rewrite cap_keys_sorted by done.
  split; [rewrite length_fmap; lia|]. split; [|by apply min_sorted].
  apply Forall_fmap. eapply Forall_impl; [exact Hge|]. cbn. lia.
Qed.

(** ** Instances *)

Definition demo_desc : VirtualSST :=
  mkVSST (GreedyPLRFit demo_keys (F64.of_Z 1)) [] 3 60 8 0.

Lemma MaterializeKeys_correct_witness :
  exists keys, MaterializeKeys demo_desc = Some keys /\ Z.of_nat (length keys) = 8 /\
    Forall (fun k => 3 <= k <= 60) keys /\ StronglySorted (increasing_to 60) keys.
Proof.
  apply (MaterializeKeys_correct demo_desc);
    [apply (bool_decide_unpack _); by vm_compute|by vm_compute..].
Defined.

(** A descriptor with more entries than keys in its range: the cap repeats the
    largest key. *)
Example MaterializeKeys_repeats_last :
  MaterializeKeys (mkVSST (mkPLR [mkSeg 1 3 fzero fzero]) [] 1 3 4 0) = Some [2; 3; 3; 3].
Proof. by vm_compute. Qed.

End Materialize.
