(* ===== verification/Registry.v ===== *)
(** * Registry of virtual SSTs and key encoding

    [db/virtual_compaction/virtual_sst_registry.h] (class [VirtualSSTRegistry])
    and the key extraction of [RunVirtualCompaction] in
    [db/db_impl/db_impl_compaction_flush.cc].  Every operation holds the
    registry's mutex, so concurrent calls are sequences of operations; a handle
    is the immutable descriptor itself.  Bytes are integers from 0 to 255. *)

From Stdlib Require Import ZArith Lia SpecFloat Sorted.
From stdpp Require Import base numbers list gmap.
From S2P Require Import Prelude SizeModel Plr Kmv.

Local Open Scope Z_scope.

Module Registry.

(** ** State *)

Record t := mkReg {
  registry_ : gmap Z VirtualSST;
  retired_ : gset Z;
  key_size_ : nat;
  avg_entry_size_ : Z;
  size_model_ : SSTSizeModel.t;
  target_sst_size_ : Z;
}.

(** The default-constructed registry. *)
Definition init : t :=
  mkReg ∅ ∅ 16 1048 (SSTSizeModel.Logical 1048) (64 * 1024 * 1024).

Definition SetKeySize (ks : nat) (r : t) : t :=
  mkReg (registry_ r) (retired_ r) ks (avg_entry_size_ r) (size_model_ r) (target_sst_size_ r).

Definition SetAvgEntrySize (s : Z) (r : t) : t :=
  mkReg (registry_ r) (retired_ r) (key_size_ r) s (SSTSizeModel.Logical s) (target_sst_size_ r).

Definition SetSSTSizeModel (m : SSTSizeModel.t) (r : t) : t :=
  mkReg (registry_ r) (retired_ r) (key_size_ r) (avg_entry_size_ r) m (target_sst_size_ r).

Definition SetTargetSSTSize (s : Z) (r : t) : t :=
  mkReg (registry_ r) (retired_ r) (key_size_ r) (avg_entry_size_ r) (size_model_ r) s.

Definition with_files (reg : gmap Z VirtualSST) (ret : gset Z) (r : t) : t :=
  mkReg reg ret (key_size_ r) (avg_entry_size_ r) (size_model_ r) (target_sst_size_ r).

(** ** Operations *)

Definition Register (file_number : Z) (vsst : VirtualSST) (r : t) : t :=
  with_files (<[file_number := vsst]> (registry_ r)) (retired_ r ∖ {[file_number]}) r.

Definition Lookup (file_number : Z) (r : t) : option VirtualSST := registry_ r !! file_number.

Definition LookupMany (file_numbers : list Z) (r : t) : list (option VirtualSST) :=
  (fun f => registry_ r !! f) <$> file_numbers.

Definition Remove (file_number : Z) (r : t) : t :=
  match registry_ r !! file_number with
  | None => r
  | Some _ => with_files (delete file_number (registry_ r)) (retired_ r ∪ {[file_number]}) r
  end.

Definition ConsumeVirtualOrRetired (file_number : Z) (r : t) : bool * t :=
  match registry_ r !! file_number with
  | Some _ => (true, with_files (delete file_number (registry_ r)) (retired_ r) r)
  | None => (bool_decide (file_number ∈ retired_ r),
             with_files (registry_ r) (retired_ r ∖ {[file_number]}) r)
  end.

Definition IsVirtual (file_number : Z) (r : t) : bool :=
  bool_decide (is_Some (registry_ r !! file_number)).

(** The snapshot in some order of the hash map. *)
Definition is_snapshot (r : t) (l : list (Z * VirtualSST)) : Prop :=
  l ≡ₚ map_to_list (registry_ r).

Definition Size (r : t) : nat := size (registry_ r).

(** Capacities of the vectors of a descriptor and of the hash tables, chosen
    by the allocator. *)
Record Allocation := mkAlloc {
  segments_capacity : VirtualSST -> Z;
  ranges_capacity : VirtualSST -> Z;
  samples_capacity : KMVRangeSketch -> Z;
  registry_buckets : Z;
  retired_buckets : Z;
}.

Record HeapUsage := mkHeap {
  files : Z;
  plr_segment_bytes : Z;
  kmv_sample_bytes : Z;
  kmv_bucket_bytes : Z;
  descriptor_bytes : Z;
  index_bytes : Z;
}.

Definition Total (u : HeapUsage) : Z :=
  plr_segment_bytes u + kmv_sample_bytes u + kmv_bucket_bytes u + descriptor_bytes u + index_bytes u.

(** Sizes of the 64-bit ABI: [PLRSegment], [KMVSample], [KMVRangeSketch],
    [VirtualSST], the control block and the hash-table nodes. *)
Definition sizeof_PLRSegment : Z := 32.
Definition sizeof_KMVSample : Z := 8.
Definition sizeof_KMVRangeSketch : Z := 64.
Definition sizeof_VirtualSST : Z := 80.
Definition kControlBlock : Z := 16.
Definition kMapNode : Z := 8 + 8 + 16.
Definition kSetNode : Z := 8 + 8.

Definition heap_step (a : Allocation) (u : HeapUsage) (v : VirtualSST) : HeapUsage :=
  mkHeap (files u + 1)
    (plr_segment_bytes u + segments_capacity a v * sizeof_PLRSegment)
    (fold_left (fun s r => s + samples_capacity a r * sizeof_KMVSample) (kmv_ranges v)
       (kmv_sample_bytes u))
    (kmv_bucket_bytes u + ranges_capacity a v * sizeof_KMVRangeSketch)
    (descriptor_bytes u + (sizeof_VirtualSST + kControlBlock))
    (index_bytes u).

Definition GetHeapUsage (a : Allocation) (r : t) : HeapUsage :=
  let u := fold_left (heap_step a) (map_to_list (registry_ r)).*2 (mkHeap 0 0 0 0 0 0) in
  mkHeap (files u) (plr_segment_bytes u) (kmv_sample_bytes u) (kmv_bucket_bytes u)
    (descriptor_bytes u)
    (registry_buckets a * 8 + Z.of_nat (size (registry_ r)) * kMapNode +
     retired_buckets a * 8 + Z.of_nat (size (retired_ r)) * kSetNode).

(** ** Keys *)

(** [EncodeUserKey]: big-endian bytes, padded with the digit zero. *)
Definition encode_user_key (key_size : nat) (v : Z) : list Z :=
  let bytes_to_fill := Nat.min key_size 8 in
  ((fun i => Z.land (Z.shiftr v (8 * (Z.of_nat bytes_to_fill - Z.of_nat i - 1))) 0xFF)
     <$> seq 0 bytes_to_fill) ++ replicate (key_size - bytes_to_fill) 48.

Definition EncodeUserKey (v : Z) (r : t) : list Z := encode_user_key (key_size_ r) v.

(** The lambda [extract_key] of [RunVirtualCompaction] on a user key. *)
Definition extract_key (user_key : list Z) : Z :=
  if decide (8 <= length user_key)%nat
  then fold_left (fun k b => Z.lor (u64 (Z.shiftl k 8)) b) (take 8 user_key) 0
  else 0.

(** [Slice::compare]: bytewise, a proper prefix is smaller. *)
Fixpoint slice_compare (a b : list Z) : comparison :=
  match a, b with
  | [], [] => Eq
  | [], _ => Lt
  | _, [] => Gt
  | x :: a', y :: b' => match x ?= y with Eq => slice_compare a' b' | c => c end
  end.

(** ** Invariant *)

(** No file is both live and retired. *)
Definition inv (r : t) : Prop := dom (registry_ r) ## retired_ r.

Inductive op :=
  | OpRegister (f : Z) (v : VirtualSST)
  | OpRemove (f : Z)
  | OpConsume (f : Z)
  | OpSetKeySize (ks : nat)
  | OpSetAvgEntrySize (s : Z)
  | OpSetSSTSizeModel (m : SSTSizeModel.t)
  | OpSetTargetSSTSize (s : Z).

Definition apply (o : op) (r : t) : t :=
  match o with
  | OpRegister f v => Register f v r
  | OpRemove f => Remove f r
  | OpConsume f => (ConsumeVirtualOrRetired f r).2
  | OpSetKeySize ks => SetKeySize ks r
  | OpSetAvgEntrySize s => SetAvgEntrySize s r
  | OpSetSSTSizeModel m => SetSSTSizeModel m r
  | OpSetTargetSSTSize s => SetTargetSSTSize s r
  end.

(** A history of operations, oldest first. *)
Definition run (ops : list op) : t := fold_left (fun r o => apply o r) ops init.

(** What the history says about a file: the descriptor it is live with, and
    whether it was registered and not consumed since. *)
Definition live_step (f : Z) (live : option VirtualSST) (o : op) : option VirtualSST :=
  match o with
  | OpRegister g v => if decide (g = f) then Some v else live
  | OpRemove g | OpConsume g => if decide (g = f) then None else live
  | _ => live
  end.
Definition live (f : Z) (ops : list op) : option VirtualSST := fold_left (live_step f) ops None.

Definition outstanding_step (f : Z) (b : bool) (o : op) : bool :=
  match o with
  | OpRegister g _ => if decide (g = f) then true else b
  | OpConsume g => if decide (g = f) then false else b
  | _ => b
  end.
Definition outstanding (f : Z) (ops : list op) : bool := fold_left (outstanding_step f) ops false.

(** The concrete state agrees with a file's history. *)
Definition agrees (f : Z) (l : option VirtualSST) (b : bool) (r : t) : Prop :=
  registry_ r !! f = l /\ (b = true <-> is_Some l \/ f ∈ retired_ r).

Lemma apply_inv o r : inv r -> inv (apply o r).
Proof.
  unfold inv. destruct o as [f v|f|f| | | |]; cbn; try done; intros Hd.
  - unfold Register. cbn. rewrite dom_insert_L. set_solver.
  - unfold Remove. destruct (registry_ r !! f); [|done]. cbn. rewrite dom_delete_L. set_solver.
  - unfold ConsumeVirtualOrRetired. destruct (registry_ r !! f); cbn; rewrite ?dom_delete_L; set_solver.
Qed.

Lemma apply_agrees f o l b r : inv r -> agrees f l b r ->
  agrees f (live_step f l o) (outstanding_step f b o) (apply o r).
Proof.
  intros Hinv [Hl Hb]. unfold agrees.
  destruct o as [g v|g|g| | | |]; cbn [apply live_step outstanding_step]; try done.
  - unfold Register. cbn. case_decide as Hg; subst.
    + rewrite lookup_insert_eq. split; [done|]. split; [|done]. intros _. left. by eexists.
    + rewrite lookup_insert_ne by done. split; [done|]. set_solver.
  - unfold Remove. case_decide as Hg; subst.
    + destruct (registry_ r !! f) as [v|] eqn:E; cbn; rewrite ?lookup_delete_eq, ?E.
      * split; [done|]. rewrite Hb. set_solver.
      * split; [done|]. done.
    + destruct (registry_ r !! g) eqn:E; cbn; [|done]. rewrite lookup_delete_ne by done.
      split; [done|]. set_solver.
  - unfold ConsumeVirtualOrRetired. case_decide as Hg; subst.
    + destruct (registry_ r !! f) as [v|] eqn:E; cbn; rewrite ?lookup_delete_eq, ?E.
      * split; [done|]. split; [done|]. intros [[]%is_Some_None|Hr].
        unfold inv in Hinv. apply elem_of_dom_2 in E. set_solver.
      * split; [done|]. split; [done|]. intros [[]%is_Some_None|Hr]. set_solver.
    + destruct (registry_ r !! g) eqn:E; cbn; [rewrite lookup_delete_ne by done|];
        (split; [done|]); set_solver.
Qed.

Lemma run_agrees f ops : inv (run ops) /\ agrees f (live f ops) (outstanding f ops) (run ops).
Proof.
  unfold run, live, outstanding.
  assert (H : inv init /\ agrees f None false init).
  { split; [unfold inv; cbn; set_solver|]. split; [done|]. cbn. split; [done|].
    intros [[]%is_Some_None|?]; set_solver. }
  revert H. generalize init as r, (@None VirtualSST) as l, false as b.
  induction ops as [|o ops IH]; intros r l b [Hi Ha]; [done|]. cbn [fold_left]. apply IH.
  split; [by apply apply_inv|by apply apply_agrees].
Qed.

(** ** Big-endian keys *)

(** The last [n] bytes of [v], most significant first. *)
Fixpoint be (n : nat) (v : Z) : list Z :=
  match n with O => [] | S n' => v / 2 ^ (8 * Z.of_nat n') mod 256 :: be n' v end.

Lemma byte_at v k : 0 <= k -> Z.land (Z.shiftr v k) 0xFF = v / 2 ^ k mod 256.
Proof.
  intros Hk. change 0xFF with (Z.ones 8). rewrite Z.land_ones by lia.
  by rewrite Z.shiftr_div_pow2 by lia.
Qed.

Lemma encode_be key_size v :
  encode_user_key key_size v =
    be (Nat.min key_size 8) v ++ replicate (key_size - Nat.min key_size 8) 48.
Proof.
  unfold encode_user_key. f_equal. set (n := Nat.min key_size 8). clearbody n.
  assert (H : forall m, (m <= n)%nat ->
    (fun i => Z.land (Z.shiftr v (8 * (Z.of_nat n - Z.of_nat i - 1))) 0xFF) <$> seq (n - m) m = be m v);
    [|by rewrite <- (H n), Nat.sub_diag by lia].
  induction m as [|m IH]; intros Hm; [done|]. cbn [seq fmap list_fmap be]. f_equal.
  - rewrite byte_at by lia. do 3 f_equal. lia.
  - replace (S (n - S m)) with (n - m)%nat by lia. apply IH. lia.
Qed.

Lemma be_length n v : length (be n v) = n.
Proof. induction n; cbn; congruence. Qed.

Lemma mod_split v m : 0 <= m -> v mod 2 ^ (8 + m) = (v / 2 ^ m mod 256) * 2 ^ m + v mod 2 ^ m.
Proof.
  intros Hm. change 256 with (2 ^ 8). rewrite Z.pow_add_r, (Z.mul_comm (2 ^ 8)) by lia.
  rewrite Z.rem_mul_r by lia. lia.
Qed.

(** Comparing equal-length big-endian keys compares the numbers. *)
Lemma be_compare n v w t : slice_compare (be n v ++ t) (be n w ++ t) =
  (v mod 2 ^ (8 * Z.of_nat n) ?= w mod 2 ^ (8 * Z.of_nat n)).
Proof.
  induction n as [|n IH].
  - cbn. rewrite !Z.mod_1_r. induction t as [|x t IHt]; cbn; [done|]. by rewrite Z.compare_refl.
  - cbn [be app slice_compare]. rewrite IH. clear IH.
    replace (8 * Z.of_nat (S n)) with (8 + 8 * Z.of_nat n) by lia. set (m := 8 * Z.of_nat n).
    rewrite !mod_split by lia. assert (Hp : 0 < 2 ^ m) by (apply Z.pow_pos_nonneg; lia).
    pose proof (Z.mod_pos_bound v (2 ^ m) Hp). pose proof (Z.mod_pos_bound w (2 ^ m) Hp).
    destruct (Z.compare_spec (v / 2 ^ m mod 256) (w / 2 ^ m mod 256)) as [E|E|E]; symmetry.
    + rewrite E. destruct (Z.compare_spec (v mod 2 ^ m) (w mod 2 ^ m));
        [apply Z.compare_eq_iff|apply Z.compare_lt_iff|apply Z.compare_gt_iff]; lia.
    + apply Z.compare_lt_iff. nia.
    + apply Z.compare_gt_iff. nia.
Qed.

Lemma extract_step k b : 0 <= k < 2 ^ 56 -> 0 <= b < 256 -> Z.lor (u64 (Z.shiftl k 8)) b = 256 * k + b.
Proof.
  intros Hk Hb. rewrite Z.shiftl_mul_pow2 by lia.
  rewrite u64_small by solve_u64.
  pose proof (Z.add_lor_land (k * 2 ^ 8) b) as Hsum.
  assert (Hz : Z.land (k * 2 ^ 8) b = 0); [|lia].
  apply Z.bits_inj'. intros i Hi. rewrite Z.land_spec, Z.bits_0.
  destruct (Z.lt_ge_cases i 8).
  - by rewrite Z.mul_pow2_bits_low.
  - rewrite (Z.bits_above_log2 b); [apply andb_false_r|lia|].
    destruct (Z.eq_dec b 0) as [->|]; [cbn; lia|].
    apply Z.log2_lt_pow2; [lia|]. pose proof (Z.pow_le_mono_r 2 8 i). lia.
Qed.

Lemma extract_be n v : (n <= 8)%nat -> forall k, 0 <= k < 2 ^ (64 - 8 * Z.of_nat n) ->
  fold_left (fun k b => Z.lor (u64 (Z.shiftl k 8)) b) (be n v) k =
    k * 2 ^ (8 * Z.of_nat n) + v mod 2 ^ (8 * Z.of_nat n).
Proof.
  induction n as [|n IH]; intros Hn k Hk; [cbn; rewrite Z.mod_1_r; lia|].
  cbn [be fold_left]. set (m := 8 * Z.of_nat n) in *.
  replace (8 * Z.of_nat (S n)) with (8 + m) in * by lia.
  set (b := v / 2 ^ m mod 256). assert (0 <= b < 256) by (apply Z.mod_pos_bound; lia).
  assert (2 ^ (64 - (8 + m)) <= 2 ^ 56) by (apply Z.pow_le_mono_r; lia).
  assert (Hq : 2 ^ (64 - m) = 256 * 2 ^ (64 - (8 + m))).
  { change 256 with (2 ^ 8). rewrite <- Z.pow_add_r by lia. f_equal. lia. }
  rewrite extract_step by lia. rewrite IH by lia. fold m. rewrite mod_split by lia. fold b.
  rewrite Z.pow_add_r by lia. change (2 ^ 8) with 256. ring.
Qed.

(** ** Properties *)

(** over every history of operations, however concurrent calls interleave,
    a lookup returns the descriptor the file was last registered with and not
    removed or consumed since, [IsVirtual] says whether there is one, and
    [ConsumeVirtualOrRetired] succeeds exactly when the file was registered and
    not consumed since, also after a [Remove].  No file is ever both live and
    retired. *)
Theorem registry_refines_history (ops : list op) (f : Z) :
  Lookup f (run ops) = live f ops /\
  IsVirtual f (run ops) = bool_decide (is_Some (live f ops)) /\
  (ConsumeVirtualOrRetired f (run ops)).1 = outstanding f ops /\
  inv (run ops).
Proof.
  destruct (run_agrees f ops) as [Hinv [Hl Hb]].
  split; [done|]. split; [unfold IsVirtual; by rewrite Hl|]. split; [|done].
  unfold ConsumeVirtualOrRetired. rewrite Hl. destruct (live f ops) as [v|]; cbn.
  - symmetry. apply Hb. left. by eexists.
  - destruct (outstanding f ops).
    + apply bool_decide_eq_true. destruct Hb as [Hb _]. by destruct (Hb eq_refl) as [[]%is_Some_None|].
    + apply bool_decide_eq_false. intros Hr. destruct Hb as [_ Hb]. by discriminate Hb; right.
Qed.

Lemma encode_user_key_compare n v w : (8 <= n)%nat -> is_u64 v -> is_u64 w ->
  slice_compare (encode_user_key n v) (encode_user_key n w) = (v ?= w).
Proof.
  intros Hn Hv Hw. rewrite !encode_be. replace (Nat.min n 8) with 8%nat by lia. rewrite be_compare.
  change (8 * Z.of_nat 8) with 64. unfold is_u64, u64_max in *. by rewrite !Z.mod_small by lia.
Qed.

Lemma encode_user_key_length n v : length (encode_user_key n v) = n.
Proof. rewrite encode_be, length_app, be_length, length_replicate. lia. Qed.

(** keys of at least eight bytes round trip: [extract_key] of an encoded key
    is the number, and the bytewise order of encoded keys is the order of the
    numbers, so that files sorted by user key are sorted by key number. *)
Theorem EncodeUserKey_faithful (r : t) (v w : Z)
    (Hsize : (8 <= key_size_ r)%nat) (Hv : is_u64 v) (Hw : is_u64 w) :
  extract_key (EncodeUserKey v r) = v /\
  length (EncodeUserKey v r) = key_size_ r /\
  slice_compare (EncodeUserKey v r) (EncodeUserKey w r) = (v ?= w).
Proof.
  unfold EncodeUserKey. split; [|split; [apply encode_user_key_length|by apply encode_user_key_compare]].
  rewrite encode_be. replace (Nat.min (key_size_ r) 8) with 8%nat by lia. unfold is_u64, u64_max in *.
  unfold extract_key. rewrite length_app, be_length, length_replicate, decide_True by lia.
  rewrite take_app_length' by (by rewrite be_length). rewrite extract_be by lia.
  change (8 * Z.of_nat 8) with 64. rewrite Z.mod_small by lia. lia.
Qed.

Lemma EncodeUserKey_faithful_witness :
  slice_compare (EncodeUserKey 255 init) (EncodeUserKey 256 init) = Lt /\
  extract_key (EncodeUserKey 255 init) = 255.
Proof.
  destruct (EncodeUserKey_faithful init 255 256) as (H1 & _ & H3); [cbn; lia|by vm_compute..|].
  split; [exact H3|exact H1].
Defined.

End Registry.
