(* ===== verification/Version.v ===== *)
(** * Internal keys, version edits and versions

    The part of RocksDB's metadata layer the virtual compaction writes to:
    internal keys of [db/dbformat.h], [VersionEdit] of [db/version_edit.h] and
    the file additions and deletions of [VersionBuilder::Rep] in
    [db/version_builder.cc].  A version is the map from the number of a live
    table file to its level and metadata.  Blob files, compact cursors and the
    file metadata the program sets to constants are left out; the consistency
    checks of the builder are off in a database with virtual compaction
    ([CheckConsistency]); whether the MANIFEST write of [LogAndApply] succeeds
    is an input.  Bytes are integers from 0 to 255. *)

From Stdlib Require Import ZArith Lia.
From stdpp Require Import base numbers list gmap.
From S2P Require Import Prelude.

Local Open Scope Z_scope.

Module Version.

(** ** Internal keys *)

Definition kTypeValue : Z := 0x1.
Definition kMaxSequenceNumber : Z := 2 ^ 56 - 1.
Definition kNumInternalBytes : nat := 8.

Definition IsValueType (t : Z) : bool :=
  (t <=? 2) || (t =? 0x7) || (t =? 0x11) || (t =? 0x14) || (t =? 0x16) || (t =? 0x18).

Definition IsExtendedValueType (t : Z) : bool :=
  IsValueType t || (t =? 0xF) || (t =? 0x1A).

Definition PackSequenceAndType (seq t : Z) : Z := Z.lor (u64 (Z.shiftl seq 8)) t.

(** Little-endian bytes of the low [8 * n] bits. *)
Fixpoint encode_fixed (n : nat) (v : Z) : list Z :=
  match n with O => [] | S n' => Z.land v 0xFF :: encode_fixed n' (Z.shiftr v 8) end.

Fixpoint decode_fixed (l : list Z) : Z :=
  match l with [] => 0 | b :: l' => Z.lor b (Z.shiftl (decode_fixed l') 8) end.

Definition EncodeFixed64 (v : Z) : list Z := encode_fixed 8 v.
Definition DecodeFixed64 (l : list Z) : Z := decode_fixed (take 8 l).

(** The encoded form [InternalKey::rep_]. *)
Definition InternalKey (user_key : list Z) (s t : Z) : list Z :=
  user_key ++ EncodeFixed64 (PackSequenceAndType s t).

Record ParsedInternalKey := mkParsed {
  user_key : list Z;
  sequence : Z;
  type : Z;
}.

(** [ParseInternalKey]; [None] is [Status::Corruption]. *)
Definition ParseInternalKey (internal_key : list Z) : option ParsedInternalKey :=
  let n := length internal_key in
  if decide (n < kNumInternalBytes)%nat then None
  else
    let num := DecodeFixed64 (drop (n - kNumInternalBytes) internal_key) in
    let c := Z.land num 0xFF in
    if IsExtendedValueType c
    then Some (mkParsed (take (n - kNumInternalBytes) internal_key) (Z.shiftr num 8) c)
    else None.

Definition UpdateInternalKey (ikey : list Z) (seq t : Z) : list Z :=
  take (length ikey - kNumInternalBytes) ikey ++ EncodeFixed64 (Z.lor (u64 (Z.shiftl seq 8)) t).

(** ** Files and edits *)

Record FileMetaData := mkMeta {
  fd_number : Z;
  fd_size : Z;
  smallest : list Z;
  largest : list Z;
  smallest_seqno : Z;
  largest_seqno : Z;
  meta_epoch : Z;
}.

Record VersionEdit := mkEdit {
  deleted_files : list (Z * Z);
  new_files : list (Z * FileMetaData);
  last_sequence : option Z;
}.

Definition empty_edit : VersionEdit := mkEdit [] [] None.

Definition DeleteFile (level file : Z) (e : VersionEdit) : VersionEdit :=
  mkEdit (if decide ((level, file) ∈ deleted_files e) then deleted_files e
          else deleted_files e ++ [(level, file)])
    (new_files e) (last_sequence e).

Definition AddFile (level : Z) (f : FileMetaData) (e : VersionEdit) : VersionEdit :=
  mkEdit (deleted_files e) (new_files e ++ [(level, f)])
    (match last_sequence e with
     | Some s => if decide (s < largest_seqno f) then Some (largest_seqno f) else Some s
     | None => Some (largest_seqno f)
     end).

(** ** Versions *)

Abbreviation t := (gmap Z (Z * FileMetaData)).

Definition GetFileLocation (n : Z) (v : t) : option Z := fst <$> v !! n.

Definition ApplyFileDeletion (level n : Z) (v : t) : option t :=
  if decide (GetFileLocation n v = Some level) then Some (delete n v) else None.

Definition ApplyFileAddition (level : Z) (f : FileMetaData) (v : t) : option t :=
  match GetFileLocation (fd_number f) v with
  | Some _ => None
  | None => Some (<[fd_number f := (level, f)]> v)
  end.

Fixpoint apply_deletions (l : list (Z * Z)) (v : t) : option t :=
  match l with
  | [] => Some v
  | (level, n) :: l' => ApplyFileDeletion level n v ≫= apply_deletions l'
  end.

Fixpoint apply_additions (l : list (Z * FileMetaData)) (v : t) : option t :=
  match l with
  | [] => Some v
  | (level, f) :: l' => ApplyFileAddition level f v ≫= apply_additions l'
  end.

Definition Apply (e : VersionEdit) (v : t) : option t :=
  apply_deletions (deleted_files e) v ≫= apply_additions (new_files e).

(** [VersionSet::LogAndApply] of a list of edits; [io_ok] is the outcome of the
    MANIFEST write. *)
Fixpoint apply_edits (es : list VersionEdit) (v : t) : option t :=
  match es with [] => Some v | e :: es' => Apply e v ≫= apply_edits es' end.

Definition LogAndApply (io_ok : bool) (es : list VersionEdit) (v : t) : option t :=
  if io_ok then apply_edits es v else None.

(** The [Status] of the same call: the builder reports corruption before
    anything is written. *)
Definition log_status (io_ok : bool) (es : list VersionEdit) (v : t) : Status :=
  match apply_edits es v with
  | None => Corruption
  | Some _ => if io_ok then OK else IOError
  end.

Lemma log_status_OK io_ok es v : log_status io_ok es v = OK <-> is_Some (LogAndApply io_ok es v).
Proof.
  unfold log_status, LogAndApply. destruct (apply_edits es v), io_ok; split; try done; by intros [].
Qed.

(** ** Lemmas *)

Definition added (e : VersionEdit) : list Z := (fun lf => fd_number lf.2) <$> new_files e.
Definition removed (e : VersionEdit) : list Z := snd <$> deleted_files e.

Lemma GetFileLocation_None n v : GetFileLocation n v = None <-> n ∉ dom v.
Proof. unfold GetFileLocation. rewrite not_elem_of_dom. by destruct (v !! n). Qed.

Lemma GetFileLocation_Some n v l : GetFileLocation n v = Some l -> n ∈ dom v.
Proof. intros H. apply elem_of_dom. unfold GetFileLocation in H. destruct (v !! n); [done|discriminate]. Qed.

Lemma apply_deletions_dom l v v' : apply_deletions l v = Some v' ->
  (forall n, n ∈ snd <$> l -> n ∈ dom v) /\
  dom v' = dom v ∖ list_to_set (snd <$> l) /\ NoDup (snd <$> l) /\
  (forall n, n ∉ snd <$> l -> v' !! n = v !! n).
Proof.
  revert v. induction l as [|[level n] l IH]; intros v; cbn [apply_deletions].
  - intros [= <-]. set_solver by constructor.
  - unfold ApplyFileDeletion. destruct (decide _) as [Hl|]; cbn [mbind option_bind]; [|done].
    intros (Hin & Hdom & Hnd & Hother)%IH. apply GetFileLocation_Some in Hl.
    cbn [fmap list_fmap snd]. rewrite dom_delete_L in *.
    split; [|split; [|split]].
    + intros m. rewrite elem_of_cons. intros [-> | Hm]; [done|]. specialize (Hin m Hm). set_solver.
    + rewrite Hdom. cbn [list_to_set]. set_solver.
    + constructor; [|done]. intros Hm. specialize (Hin n Hm). set_solver.
    + intros m [Hm Hm']%not_elem_of_cons. rewrite Hother by done. by apply lookup_delete_ne.
Qed.

Lemma apply_additions_lookup l v v' : apply_additions l v = Some v' ->
  (forall n, n ∈ (fun lf => fd_number lf.2) <$> l -> n ∉ dom v) /\
  NoDup ((fun lf => fd_number lf.2) <$> l) /\
  (forall level f, (level, f) ∈ l -> v' !! fd_number f = Some (level, f)) /\
  (forall n, n ∉ (fun lf => fd_number lf.2) <$> l -> v' !! n = v !! n).
Proof.
  revert v. induction l as [|[level f] l IH]; intros v; cbn [apply_additions].
  - intros [= <-]. set_solver by constructor.
  - unfold ApplyFileAddition. destruct (GetFileLocation _ v) eqn:Hl; cbn [mbind option_bind]; [done|].
    apply GetFileLocation_None in Hl. intros (Hin & Hnd & Hnew & Hold)%IH.
    cbn [fmap list_fmap snd] in *. rewrite dom_insert_L in Hin.
    assert (Hf : fd_number f ∉ (fun lf : Z * FileMetaData => fd_number lf.2) <$> l)
      by (intros Hm; specialize (Hin _ Hm); set_solver).
    split; [|split; [|split]].
    + intros m [-> | Hm]%elem_of_cons; [done|]. specialize (Hin m Hm). set_solver.
    + by constructor.
    + intros level' f' [[= -> ->] | H]%elem_of_cons; [|by apply Hnew].
      rewrite Hold by done. by rewrite lookup_insert_eq.
    + intros m [Hm Hm']%not_elem_of_cons. rewrite Hold by done. by apply lookup_insert_ne.
Qed.

(** When they succeed. *)
Lemma apply_deletions_ok l : forall v, (forall level n, (level, n) ∈ l -> GetFileLocation n v = Some level) -> NoDup (snd <$> l) ->
  is_Some (apply_deletions l v).
Proof.
  induction l as [|[level n] l IH]; intros v Hl Hnd; cbn [apply_deletions]; [done|].
  cbn [fmap list_fmap snd] in Hnd. apply NoDup_cons in Hnd as [Hn Hnd].
  unfold ApplyFileDeletion. rewrite decide_True by (apply Hl; by left). cbn [mbind option_bind]. apply IH; [|done].
  intros level' n' Hin. unfold GetFileLocation. rewrite lookup_delete_ne; [by apply Hl; right|].
  intros <-. apply Hn, list_elem_of_fmap. by exists (level', n).
Qed.

Lemma apply_additions_ok l : forall v, (forall n, n ∈ (fun lf => fd_number lf.2) <$> l -> n ∉ dom v) ->
  NoDup ((fun lf => fd_number lf.2) <$> l) -> is_Some (apply_additions l v).
Proof.
  induction l as [|[level f] l IH]; intros v Hl Hnd; cbn [apply_additions]; [done|].
  cbn [fmap list_fmap snd] in Hnd, Hl. apply NoDup_cons in Hnd as [Hn Hnd].
  unfold ApplyFileAddition. rewrite (proj2 (GetFileLocation_None _ v)) by (apply Hl; by left). cbn [mbind option_bind].
  apply IH; [|done]. intros n Hin. rewrite dom_insert_L, not_elem_of_union, not_elem_of_singleton. split; [|apply Hl; by right].
  intros ->. done.
Qed.

(** An edit that replaces all the files by files of distinct numbers applies. *)
Lemma Apply_ok e v : (forall level n, (level, n) ∈ deleted_files e <-> GetFileLocation n v = Some level) ->
  NoDup (removed e) -> NoDup (added e) -> is_Some (Apply e v).
Proof.
  intros Hdel Hr Ha. destruct (apply_deletions_ok (deleted_files e) v) as [w Hw]; [by intros ?? ?%Hdel|done|].
  unfold Apply. rewrite Hw. cbn [mbind option_bind]. apply apply_additions_ok; [|done]. intros n _ Hn.
  apply apply_deletions_dom in Hw as (_ & Hw & _). rewrite Hw in Hn. apply elem_of_difference in Hn as [Hv Hn]. apply Hn, elem_of_list_to_set.
  apply elem_of_dom in Hv as [[level f] Hv]. apply list_elem_of_fmap. exists (level, n). split; [done|]. apply Hdel.
  unfold GetFileLocation. by rewrite Hv.
Qed.

(** What a successful edit does to the set of live files. *)
Lemma Apply_spec e v v' : Apply e v = Some v' ->
  (forall n, n ∈ removed e -> n ∈ dom v) /\ NoDup (removed e) /\ NoDup (added e) /\
  (forall n, n ∈ added e -> n ∉ dom v \/ n ∈ removed e) /\
  (forall level f, (level, f) ∈ new_files e -> v' !! fd_number f = Some (level, f)) /\
  (forall n, n ∈ removed e -> n ∉ added e -> v' !! n = None) /\
  (forall n, n ∉ removed e -> n ∉ added e -> v' !! n = v !! n).
Proof.
  unfold Apply. destruct (apply_deletions _ v) as [w|] eqn:Hd; cbn [mbind option_bind]; [|done].
  apply apply_deletions_dom in Hd as (D1 & D2 & D3 & D4).
  intros (A1 & A2 & A3 & A4)%apply_additions_lookup.
  repeat split; try done.
  - intros n Hn. specialize (A1 n Hn). rewrite D2 in A1.
    destruct (decide (n ∈ removed e)); [by right|left]. unfold removed in *. set_solver.
  - intros n Hr Ha. rewrite A4 by done. apply not_elem_of_dom. rewrite D2. unfold removed in *. set_solver.
  - intros n Hr Ha. by rewrite A4, D4 by done.
Qed.

Lemma Apply_dom e v v' : Apply e v = Some v' ->
  dom v' = dom v ∖ list_to_set (removed e) ∪ list_to_set (added e).
Proof.
  intros (_ & _ & _ & Ha & Hnew & Hgone & Hold)%Apply_spec. apply set_eq. intros n.
  rewrite elem_of_union, elem_of_difference, !elem_of_list_to_set.
  destruct (decide (n ∈ added e)) as [Hn|Hn].
  - split; [by right|]. intros _. unfold added in Hn. apply list_elem_of_fmap in Hn as ([l f] & -> & H).
    apply elem_of_dom. cbn [snd]. by rewrite (Hnew l f H).
  - destruct (decide (n ∈ removed e)) as [Hr|Hr].
    + split; [|tauto]. intros H. apply elem_of_dom in H. rewrite Hgone in H by done. by destruct H.
    + rewrite !elem_of_dom, Hold by done. tauto.
Qed.

(** *** Encoding of the key footer *)

Lemma encode_fixed_length n v : length (encode_fixed n v) = n.
Proof. revert v. induction n as [|n IH]; intros v; cbn [encode_fixed length]; [done|by rewrite IH]. Qed.

Lemma lor_low_high b w : 0 <= b < 256 -> Z.lor b (Z.shiftl w 8) = b + 256 * w.
Proof.
  intros Hb. assert (Hd : Z.land b (Z.shiftl w 8) = 0).
  { apply Z.bits_inj'. intros i Hi. rewrite Z.land_spec, Z.bits_0.
    destruct (decide (i < 8)).
    - by rewrite Z.shiftl_spec_low, andb_false_r by lia.
    - rewrite <- (Z.mod_small b (2 ^ 8)) by lia. by rewrite Z.mod_pow2_bits_high by lia. }
  rewrite <- Z.lxor_lor, <- Z.add_nocarry_lxor by done. rewrite Z.shiftl_mul_pow2 by lia. lia.
Qed.

Lemma decode_encode n v : 0 <= v < 2 ^ (8 * Z.of_nat n) -> decode_fixed (encode_fixed n v) = v.
Proof.
  revert v. induction n as [|n IH]; intros v Hv; cbn [encode_fixed decode_fixed].
  - change (8 * Z.of_nat 0) with 0 in Hv. lia.
  - change 0xFF with (Z.ones 8). rewrite Z.land_ones, Z.shiftr_div_pow2 by lia.
    replace (8 * Z.of_nat (S n)) with (8 + 8 * Z.of_nat n) in Hv by lia.
    rewrite Z.pow_add_r in Hv by lia.
    rewrite IH by (split; [apply Z.div_pos; lia|apply Z.div_lt_upper_bound; lia]).
    rewrite lor_low_high by (apply Z.mod_pos_bound; lia).
    pose proof (Z.div_mod v (2 ^ 8)). lia.
Qed.

Lemma pack_value seq t : 0 <= seq <= kMaxSequenceNumber -> 0 <= t < 256 ->
  PackSequenceAndType seq t = t + 256 * seq.
Proof.
  unfold PackSequenceAndType, kMaxSequenceNumber. intros Hs Ht. unfold u64.
  rewrite Z.mod_small by (rewrite Z.shiftl_mul_pow2 by lia; lia).
  rewrite Z.lor_comm. by apply lor_low_high.
Qed.

(** Parsing a built internal key gives back its parts. *)
Lemma Parse_InternalKey k seq t : 0 <= seq <= kMaxSequenceNumber -> 0 <= t < 256 ->
  IsExtendedValueType t = true ->
  ParseInternalKey (InternalKey k seq t) = Some (mkParsed k seq t).
Proof.
  intros Hs Ht He. unfold ParseInternalKey, InternalKey, EncodeFixed64, kNumInternalBytes.
  rewrite length_app, encode_fixed_length, decide_False by lia.
  replace (length k + 8 - 8)%nat with (length k) by lia.
  rewrite take_app_length, drop_app_length. unfold DecodeFixed64.
  rewrite take_ge by (rewrite encode_fixed_length; lia).
  unfold kMaxSequenceNumber in Hs.
  rewrite decode_encode by (rewrite pack_value by (unfold kMaxSequenceNumber; lia); lia).
  rewrite pack_value by (unfold kMaxSequenceNumber; lia).
  change 0xFF with (Z.ones 8). rewrite Z.land_ones, Z.shiftr_div_pow2 by lia.
  change (2 ^ 8) with 256. rewrite (Z.mul_comm 256), Z.mod_add, Z.div_add, Z.mod_small, Z.div_small by lia.
  by rewrite He.
Qed.

Lemma Update_InternalKey k s0 t0 seq t :
  UpdateInternalKey (InternalKey k s0 t0) seq t = InternalKey k seq t.
Proof.
  unfold UpdateInternalKey, InternalKey, EncodeFixed64, kNumInternalBytes.
  rewrite length_app, encode_fixed_length. replace (length k + 8 - 8)%nat with (length k) by lia.
  by rewrite take_app_length.
Qed.

End Version.
