(* ===== verification/Coding.v ===== *)
(** * Variable-length integers and length-prefixed slices

    The encodings of [util/coding.h] and [util/coding.cc] the MANIFEST is written in:
    fixed and variable-length integers, zigzag-coded signed integers and slices behind
    their length.  A [Put] function is the list of bytes it appends to [dst]; a [Get]
    function takes the bytes of the [Slice] it reads and returns the value with the
    bytes that remain, or [None] where the code returns [false] and leaves its
    arguments alone.

    A pair of a writer and a reader is an instance of [Codec]: reading what was
    written, in front of any other bytes, gives the value and those bytes.  A reader
    that consumes input is an instance of [Progress], which bounds the loops of the
    decoders. *)

From Stdlib Require Import ZArith Lia.
From stdpp Require Import base numbers list.
From S2P Require Import Prelude Version.

Local Open Scope Z_scope.

Module Coding.

(** ** Machine integers *)

(** Reductions to [unsigned char], [uint32_t] and [int], and the value of a [char]. *)
Definition u8 (z : Z) : Z := z mod 2 ^ 8.
Definition u32 (z : Z) : Z := z mod 2 ^ 32.
Definition i32 (z : Z) : Z := if u32 z <? 2 ^ 31 then u32 z else u32 z - 2 ^ 32.
Definition i64 (z : Z) : Z := if u64 z <? 2 ^ 63 then u64 z else u64 z - 2 ^ 64.
Definition char_of (b : Z) : Z := if b <? 128 then b else b - 256.

Definition is_u32 (z : Z) : Prop := 0 <= z < 2 ^ 32.
Definition is_i32 (z : Z) : Prop := - 2 ^ 31 <= z < 2 ^ 31.
Definition is_i64 (z : Z) : Prop := - 2 ^ 63 <= z < 2 ^ 63.

(** ** Writers *)

Definition EncodeVarint32 (v : Z) : list Z :=
  let B := 128 in
  if v <? Z.shiftl 1 7 then [u8 v]
  else if v <? Z.shiftl 1 14 then [u8 (Z.lor v B); u8 (Z.shiftr v 7)]
  else if v <? Z.shiftl 1 21 then
    [u8 (Z.lor v B); u8 (Z.lor (Z.shiftr v 7) B); u8 (Z.shiftr v 14)]
  else if v <? Z.shiftl 1 28 then
    [u8 (Z.lor v B); u8 (Z.lor (Z.shiftr v 7) B); u8 (Z.lor (Z.shiftr v 14) B); u8 (Z.shiftr v 21)]
  else
    [u8 (Z.lor v B); u8 (Z.lor (Z.shiftr v 7) B); u8 (Z.lor (Z.shiftr v 14) B);
     u8 (Z.lor (Z.shiftr v 21) B); u8 (Z.shiftr v 28)].

(** The loop of [EncodeVarint64]; ten turns are enough for 64 bits. *)
Fixpoint varint64_loop (fuel : nat) (v : Z) : list Z :=
  match fuel with
  | O => []
  | S fuel' =>
      if 128 <=? v then u8 (Z.lor (Z.land v 127) 128) :: varint64_loop fuel' (Z.shiftr v 7)
      else [u8 v]
  end.

Definition EncodeVarint64 (v : Z) : list Z := varint64_loop 10 v.

Definition PutVarint32 (v : Z) : list Z := EncodeVarint32 v.
Definition PutVarint64 (v : Z) : list Z := EncodeVarint64 v.
Definition PutVarint32Varint32 (v1 v2 : Z) : list Z := EncodeVarint32 v1 ++ EncodeVarint32 v2.
Definition PutVarint32Varint64 (v1 v2 : Z) : list Z := EncodeVarint32 v1 ++ EncodeVarint64 v2.
Definition PutVarint64Varint64 (v1 v2 : Z) : list Z := EncodeVarint64 v1 ++ EncodeVarint64 v2.
Definition PutVarint32Varint32Varint64 (v1 v2 v3 : Z) : list Z :=
  EncodeVarint32 v1 ++ EncodeVarint32 v2 ++ EncodeVarint64 v3.
Definition PutFixed64 (v : Z) : list Z := Version.encode_fixed 8 v.

Definition PutLengthPrefixedSlice (value : list Z) : list Z :=
  PutVarint32 (u32 (Z.of_nat (length value))) ++ value.

Definition i64ToZigzag (l : Z) : Z :=
  Z.lxor (u64 (Z.shiftl (u64 l) 1)) (u64 (Z.shiftr l 63)).

Definition zigzagToI64 (n : Z) : Z := i64 (Z.lxor (Z.shiftr n 1) (u64 (- Z.land n 1))).

Definition PutVarsignedint64 (v : Z) : list Z := EncodeVarint64 (i64ToZigzag v).

Fixpoint varint_length_loop (fuel : nat) (v len : Z) : Z :=
  match fuel with
  | O => len
  | S fuel' => if 128 <=? v then varint_length_loop fuel' (Z.shiftr v 7) (len + 1) else len
  end.

Definition VarintLength (v : Z) : Z := varint_length_loop 10 v 1.

(** ** Readers *)

(** The loop of [GetVarint32PtrFallback] (32 bits, last shift 28) and of
    [GetVarint64Ptr] (64 bits, last shift 63). *)
Fixpoint varint_loop (width last shift result : Z) (p : list Z) : option (Z * list Z) :=
  if last <? shift then None
  else match p with
       | [] => None
       | byte :: p' =>
           if negb (Z.land byte 128 =? 0)
           then varint_loop width last (shift + 7)
                  (Z.lor result (Z.shiftl (Z.land byte 127) shift mod 2 ^ width)) p'
           else Some (Z.lor result (Z.shiftl byte shift mod 2 ^ width), p')
       end.

Definition GetVarint32PtrFallback (p : list Z) : option (Z * list Z) := varint_loop 32 28 0 0 p.
Definition GetVarint64Ptr (p : list Z) : option (Z * list Z) := varint_loop 64 63 0 0 p.

Definition GetVarint32Ptr (p : list Z) : option (Z * list Z) :=
  match p with
  | result :: p' => if Z.land result 128 =? 0 then Some (result, p') else GetVarint32PtrFallback p
  | [] => GetVarint32PtrFallback p
  end.

Definition GetVarint32 (input : list Z) : option (Z * list Z) := GetVarint32Ptr input.
Definition GetVarint64 (input : list Z) : option (Z * list Z) := GetVarint64Ptr input.

Definition GetVarsignedint64 (input : list Z) : option (Z * list Z) :=
  match GetVarint64Ptr input with
  | Some (u, rest) => Some (zigzagToI64 u, rest)
  | None => None
  end.

Definition GetFixed64 (input : list Z) : option (Z * list Z) :=
  if decide (length input < 8)%nat then None
  else Some (Version.DecodeFixed64 input, drop 8 input).

Definition GetLengthPrefixedSlice (input : list Z) : option (list Z * list Z) :=
  match GetVarint32 input with
  | Some (len, rest) =>
      if len <=? Z.of_nat (length rest)
      then Some (take (Z.to_nat len) rest, drop (Z.to_nat len) rest)
      else None
  | None => None
  end.

(** ** The interface of a field *)

(** What a writer and a reader of a field promise each other, for the values [ok]. *)
Class Codec {A} (put : A -> list Z) (get : list Z -> option (A * list Z)) (ok : A -> Prop) :=
  get_put : forall a rest, ok a -> get (put a ++ rest) = Some (a, rest).

(** A reader that takes at least one byte. *)
Class Progress {A} (get : list Z -> option (A * list Z)) :=
  get_shorter : forall input a rest, get input = Some (a, rest) -> (length rest < length input)%nat.

(** ** Bits and bytes *)

Lemma lor_add b w n : 0 <= n -> 0 <= b < 2 ^ n -> Z.lor b (Z.shiftl w n) = b + w * 2 ^ n.
Proof.
  intros Hn Hb. assert (Z.land b (Z.shiftl w n) = 0) as Hd.
  { apply Z.bits_inj'. intros i Hi. rewrite Z.land_spec, Z.bits_0. destruct (decide (i < n)).
    - by rewrite Z.shiftl_spec_low, andb_false_r by lia.
    - rewrite <- (Z.mod_small b (2 ^ n)) by lia. by rewrite Z.mod_pow2_bits_high by lia. }
  rewrite <- Z.lxor_lor, <- Z.add_nocarry_lxor by done. by rewrite Z.shiftl_mul_pow2.
Qed.

Lemma u8_small v : 0 <= v < 256 -> u8 v = v.
Proof. intros. by apply Z.mod_small. Qed.

Lemma u32_small v : is_u32 v -> u32 v = v.
Proof. intros. by apply Z.mod_small. Qed.

Lemma i32_u32 v : is_i32 v -> i32 (u32 v) = v.
Proof.
  unfold is_i32, i32, u32. intros Hv. rewrite Z.mod_mod by lia. destruct (decide (0 <= v)).
  - rewrite Z.mod_small by lia. by rewrite (proj2 (Z.ltb_lt v _)) by lia.
  - rewrite <- (Z.mod_unique_pos v (2 ^ 32) (-1) (v + 2 ^ 32)) by lia.
    rewrite (proj2 (Z.ltb_ge _ _)); lia.
Qed.

Lemma u32_range v : is_u32 (u32 v).
Proof. apply Z.mod_pos_bound. lia. Qed.

(** A byte with the continuation bit. *)
Lemma u8_continue v : 0 <= v -> u8 (Z.lor v 128) = 128 + v mod 128.
Proof.
  intros Hv. pose proof (Z.mod_pos_bound v 128 ltac:(lia)).
  assert (Z.lor (v mod 2 ^ 7) (Z.shiftl 1 7) = 128 + v mod 128) as <-.
  { change (2 ^ 7) with 128. rewrite lor_add by lia. change (2 ^ 7) with 128. lia. }
  unfold u8. apply Z.bits_inj'. intros i Hi. destruct (decide (i < 8)) as [H8|H8].
  - rewrite Z.mod_pow2_bits_low, !Z.lor_spec by lia. change 128 with (Z.shiftl 1 7).
    destruct (decide (i < 7)); [by rewrite Z.mod_pow2_bits_low by lia|].
    assert (i = 7) as -> by lia. by rewrite (Z.shiftl_spec 1 7 7), !orb_true_r by lia.
  - rewrite Z.mod_pow2_bits_high, Z.lor_spec, Z.mod_pow2_bits_high, Z.shiftl_spec by lia.
    symmetry. cbn [orb]. apply Z.bits_above_log2; [lia|]. change (Z.log2 1) with 0. lia.
Qed.

Lemma land_127 v : Z.land v 127 = v mod 128.
Proof. change 127 with (Z.ones 7). by rewrite Z.land_ones by lia. Qed.

Lemma continue_bit b : 0 <= b < 128 -> Z.land b 128 = 0 /\ Z.land (128 + b) 128 <> 0 /\ Z.land (128 + b) 127 = b.
Proof.
  intros Hb. assert (forall v, Z.land v 128 = 0 <-> Z.testbit v 7 = false) as Hbit.
  { intros v. rewrite <- not_true_iff_false. change 128 with (Z.shiftl 1 7). split.
    - intros Hz Ht. assert (Z.testbit (Z.land v (Z.shiftl 1 7)) 7 = true) as H by (by rewrite Z.land_spec, Ht).
      rewrite Hz in H. by rewrite Z.bits_0 in H.
    - intros Ht. apply Z.bits_inj'. intros i Hi. rewrite Z.land_spec, Z.bits_0, Z.shiftl_spec by lia.
      destruct (decide (i = 7)) as [->|]; [by destruct (Z.testbit v 7)|].
      destruct (decide (i < 7)); [rewrite (Z.testbit_neg_r 1) by lia|rewrite (Z.bits_above_log2 1) by (cbn; lia)]; apply andb_false_r. }
  rewrite !Hbit, !Z.testbit_eqb, land_127 by lia. change (2 ^ 7) with 128.
  replace (128 + b) with (b + 1 * 128) by lia. rewrite Z.div_add, Z.mod_add, Z.div_small, Z.mod_small by lia.
  split_and!; [done..|apply Z.mod_small; lia].
Qed.

(** ** Variable-length integers *)

(** The reference encoding: [n] bytes with the continuation bit, then the rest. *)
Fixpoint varint (n : nat) (v : Z) : list Z :=
  match n with O => [v] | S n' => 128 + v mod 128 :: varint n' (v / 128) end.

Lemma varint_unfold v : 0 <= v ->
  varint 1 v = [128 + v mod 128; v / 2 ^ 7] /\
  varint 2 v = [128 + v mod 128; 128 + v / 2 ^ 7 mod 128; v / 2 ^ 14] /\
  varint 3 v = [128 + v mod 128; 128 + v / 2 ^ 7 mod 128; 128 + v / 2 ^ 14 mod 128; v / 2 ^ 21] /\
  varint 4 v = [128 + v mod 128; 128 + v / 2 ^ 7 mod 128; 128 + v / 2 ^ 14 mod 128; 128 + v / 2 ^ 21 mod 128; v / 2 ^ 28].
Proof. intros Hv. cbn [varint]. rewrite !Z.div_div by lia. done. Qed.

Lemma EncodeVarint32_varint v : is_u32 v ->
  exists n, (n <= 4)%nat /\ EncodeVarint32 v = varint n v /\ v < 128 ^ Z.of_nat (S n).
Proof.
  intros Hv. unfold is_u32 in Hv. unfold EncodeVarint32. rewrite !Z.shiftl_mul_pow2, !Z.shiftr_div_pow2 by lia.
  destruct (varint_unfold v ltac:(lia)) as (H1 & H2 & H3 & H4).
  assert (forall k, 0 < 2 ^ k -> 0 <= v / 2 ^ k) as Hpos by (intros; apply Z.div_pos; lia).
  assert (forall k b, 0 < 2 ^ k -> v < 2 ^ k * b -> b <= 256 -> u8 (v / 2 ^ k) = v / 2 ^ k) as Hlast.
  { intros k b Hk Hb ?. apply u8_small. split; [by apply Hpos|]. apply Z.div_lt_upper_bound; [lia|nia]. }
  rewrite !u8_continue by first [lia|by apply Hpos].
  destruct (Z.ltb_spec v (1 * 2 ^ 7)); [exists 0%nat; rewrite u8_small by lia; split_and!; [lia|done|cbn; lia]|].
  destruct (Z.ltb_spec v (1 * 2 ^ 14)); [exists 1%nat; rewrite H1, (Hlast 7 128) by lia; split_and!; [lia|done|cbn; lia]|].
  destruct (Z.ltb_spec v (1 * 2 ^ 21)); [exists 2%nat; rewrite H2, (Hlast 14 128) by lia; split_and!; [lia|done|cbn; lia]|].
  destruct (Z.ltb_spec v (1 * 2 ^ 28)); [exists 3%nat; rewrite H3, (Hlast 21 128) by lia; split_and!; [lia|done|cbn; lia]|].
  exists 4%nat. rewrite H4, (Hlast 28 128) by lia. split_and!; [lia|done|cbn; lia].
Qed.

Lemma varint64_loop_S fuel v : varint64_loop (S fuel) v =
  if 128 <=? v then u8 (Z.lor (Z.land v 127) 128) :: varint64_loop fuel (Z.shiftr v 7) else [u8 v].
Proof. done. Qed.

Lemma varint64_loop_varint fuel : forall v, 0 <= v < 128 ^ Z.of_nat (S fuel) ->
  exists n, (n <= fuel)%nat /\ varint64_loop (S fuel) v = varint n v /\ v < 128 ^ Z.of_nat (S n).
Proof.
  induction fuel as [|fuel IH]; intros v Hv; rewrite varint64_loop_S; destruct (Z.leb_spec 128 v) as [Hb|Hb];
    try (exists 0%nat; rewrite u8_small by lia; split_and!; [lia|done|cbn; lia]); [cbn in Hv; lia|].
  rewrite Nat2Z.inj_succ, Z.pow_succ_r in Hv by lia.
  rewrite Z.shiftr_div_pow2 by lia. change (2 ^ 7) with 128.
  destruct (IH (v / 128)) as (n & Hn & Heq & Hlt); [split; [apply Z.div_pos; lia|apply Z.div_lt_upper_bound; lia]|].
  exists (S n). split; [lia|]. rewrite Heq, land_127, u8_continue by (apply Z.mod_pos_bound; lia).
  cbn [varint]. rewrite Z.mod_mod by lia. split; [done|].
  rewrite Nat2Z.inj_succ, Z.pow_succ_r by lia. pose proof (Z.mul_succ_div_gt v 128). lia.
Qed.

(** The loop of the readers on a reference encoding. *)
Lemma varint_loop_varint width last n : forall v shift result rest,
  0 <= v < 128 ^ Z.of_nat (S n) -> 0 <= shift -> shift + 7 * Z.of_nat n <= last -> 0 <= width ->
  0 <= result < 2 ^ shift -> v * 2 ^ shift < 2 ^ width ->
  varint_loop width last shift result (varint n v ++ rest) = Some (result + v * 2 ^ shift, rest).
Proof.
  induction n as [|n IH]; intros v shift result rest Hv Hs Hlast Hw Hr Hfit; cbn [varint app varint_loop];
    rewrite (proj2 (Z.ltb_ge last shift)) by lia.
  - change (128 ^ Z.of_nat 1) with 128 in Hv. destruct (continue_bit v) as (-> & _); [lia|].
    cbn [negb Z.eqb]. rewrite Z.mod_small by (rewrite Z.shiftl_mul_pow2; nia). by rewrite lor_add.
  - rewrite Nat2Z.inj_succ, Z.pow_succ_r in Hv by lia. pose proof (Z.mod_pos_bound v 128 ltac:(lia)) as Hm.
    pose proof (Z.div_mod v 128 ltac:(lia)) as Hdm. assert (0 <= v / 128) by (apply Z.div_pos; lia).
    assert (0 < 2 ^ shift) by lia. assert (2 ^ (shift + 7) = 128 * 2 ^ shift) as Hp by (rewrite Z.pow_add_r by lia; lia).
    destruct (continue_bit (v mod 128)) as (_ & Hc & ->); [lia|]. rewrite (proj2 (Z.eqb_neq _ _) Hc). cbn [negb].
    rewrite Z.mod_small by (rewrite Z.shiftl_mul_pow2; nia). rewrite lor_add by done.
    rewrite IH; [f_equal; f_equal; nia|split; [done|apply Z.div_lt_upper_bound; lia]|lia|lia|lia|nia|nia].
Qed.

#[export] Instance Varint32_codec : Codec PutVarint32 GetVarint32 is_u32.
Proof.
  intros v rest Hv. destruct (EncodeVarint32_varint v Hv) as (n & Hn & Heq & Hlt). unfold is_u32 in Hv.
  unfold PutVarint32, GetVarint32. rewrite Heq.
  assert (GetVarint32PtrFallback (varint n v ++ rest) = Some (v, rest)) as Hfb.
  { unfold GetVarint32PtrFallback. rewrite varint_loop_varint by (try lia; rewrite ?Z.pow_0_r; lia). f_equal. f_equal. lia. }
  unfold GetVarint32Ptr. destruct n as [|n]; cbn [varint app] in *.
  - destruct (continue_bit v) as (-> & _); [cbn in Hlt; lia|]. done.
  - destruct (continue_bit (v mod 128)) as (_ & Hc & _); [apply Z.mod_pos_bound; lia|].
    by rewrite (proj2 (Z.eqb_neq _ _) Hc).
Qed.

Lemma EncodeVarint64_varint v : is_u64 v ->
  exists n, (n <= 9)%nat /\ EncodeVarint64 v = varint n v /\ v < 128 ^ Z.of_nat (S n).
Proof.
  unfold is_u64, u64_max. intros Hv. by destruct (varint64_loop_varint 9 v) as (n & ? & ? & ?); [cbn; lia|exists n].
Qed.

#[export] Instance Varint64_codec : Codec PutVarint64 GetVarint64 is_u64.
Proof.
  intros v rest Hv. destruct (EncodeVarint64_varint v Hv) as (n & Hn & Heq & Hlt). unfold is_u64, u64_max in Hv.
  unfold PutVarint64, GetVarint64, GetVarint64Ptr. rewrite Heq, varint_loop_varint by (try lia; rewrite ?Z.pow_0_r; lia).
  f_equal. f_equal. lia.
Qed.

(** ** Fixed-length integers and slices *)

#[export] Instance Fixed64_codec : Codec PutFixed64 GetFixed64 is_u64.
Proof.
  intros v rest Hv. unfold is_u64, u64_max in Hv. unfold PutFixed64, GetFixed64.
  rewrite decide_False by (rewrite length_app, Version.encode_fixed_length; lia).
  unfold Version.DecodeFixed64.
  rewrite take_app_length', drop_app_length' by (by rewrite Version.encode_fixed_length).
  by rewrite Version.decode_encode by (cbn; lia).
Qed.

(** A slice whose length fits its prefix. *)
Definition is_slice (value : list Z) : Prop := Z.of_nat (length value) < 2 ^ 32.

#[export] Instance Slice_codec : Codec PutLengthPrefixedSlice GetLengthPrefixedSlice is_slice.
Proof.
  intros value rest Hv. unfold is_slice in Hv. unfold PutLengthPrefixedSlice, GetLengthPrefixedSlice.
  rewrite <- app_assoc, u32_small by (unfold is_u32; lia).
  rewrite (get_put (put := PutVarint32)) by (unfold is_u32; lia).
  rewrite (proj2 (Z.leb_le _ _)) by (rewrite length_app; lia).
  by rewrite Nat2Z.id, take_app_length, drop_app_length.
Qed.

(** A slice without other bytes after it, as the decoders of single fields see it. *)
Lemma get_put_nil {A} (put : A -> list Z) get ok `{!Codec put get ok} a : ok a -> get (put a) = Some (a, []).
Proof. intros Ha. rewrite <- (app_nil_r (put a)). by apply (get_put (put := put)). Qed.

(** ** Readers consume input *)

Lemma varint_loop_shorter width last : forall p shift result v rest,
  varint_loop width last shift result p = Some (v, rest) -> (length rest < length p)%nat.
Proof.
  induction p as [|b p IH]; intros shift result v rest; cbn [varint_loop]; destruct (last <? shift); try done.
  destruct (negb _); [intros H%IH; cbn; lia|intros [= <- <-]; cbn; lia].
Qed.

#[export] Instance Varint64_progress : Progress GetVarint64.
Proof. intros input v rest H. by eapply varint_loop_shorter. Qed.

#[export] Instance Varint32_progress : Progress GetVarint32.
Proof.
  intros input v rest. unfold GetVarint32, GetVarint32Ptr. destruct input as [|b input]; [by intros ?%varint_loop_shorter|].
  destruct (_ =? _); [intros [= <- <-]; cbn; lia|by intros ?%varint_loop_shorter].
Qed.

#[export] Instance Slice_progress : Progress GetLengthPrefixedSlice.
Proof.
  intros input v rest. unfold GetLengthPrefixedSlice. destruct (GetVarint32 input) as [[len r]|] eqn:H; [|done].
  apply get_shorter in H. destruct (_ <=? _); [|done]. intros [= <- <-]. rewrite length_drop. lia.
Qed.

#[export] Instance Fixed64_progress : Progress GetFixed64.
Proof. intros input v rest. unfold GetFixed64. case_decide; [done|]. intros [= <- <-]. rewrite length_drop. lia. Qed.

(** ** Ranges and rejected encodings *)

Lemma lor_range a b n : 0 <= n -> 0 <= a < 2 ^ n -> 0 <= b < 2 ^ n -> 0 <= Z.lor a b < 2 ^ n.
Proof.
  intros Hn Ha Hb. assert (Z.lor a b = Z.lor a b mod 2 ^ n) as ->; [|apply Z.mod_pos_bound; lia].
  apply Z.bits_inj'. intros i Hi. destruct (decide (i < n)); [by rewrite Z.mod_pow2_bits_low by lia|].
  rewrite Z.mod_pow2_bits_high, Z.lor_spec by lia.
  rewrite <- (Z.mod_small a (2 ^ n)), <- (Z.mod_small b (2 ^ n)), !Z.mod_pow2_bits_high by lia. done.
Qed.

Lemma varint_loop_range width last : 0 <= width -> forall p shift result v rest, 0 <= result < 2 ^ width ->
  varint_loop width last shift result p = Some (v, rest) -> 0 <= v < 2 ^ width.
Proof.
  intros Hw. assert (forall z, 0 <= z mod 2 ^ width < 2 ^ width) as Hm by (intros; apply Z.mod_pos_bound; lia).
  induction p as [|b p IH]; intros shift result v rest Hr; cbn [varint_loop]; destruct (last <? shift); try done.
  destruct (negb _); [apply IH; by apply lor_range|]. intros [= <- <-]. by apply lor_range.
Qed.

Definition is_bytes (p : list Z) : Prop := Forall (fun b => 0 <= b < 256) p.

(** What the readers return is a value of its type, whatever the bytes are. *)
Lemma GetVarint64_range p v rest : GetVarint64 p = Some (v, rest) -> is_u64 v.
Proof. intros H. apply (varint_loop_range 64) in H; [unfold is_u64, u64_max; lia|lia|lia]. Qed.

Lemma GetVarint32_range p v rest : is_bytes p -> GetVarint32 p = Some (v, rest) -> is_u32 v.
Proof.
  intros Hp. unfold GetVarint32, GetVarint32Ptr, is_u32. destruct Hp as [|b p Hb Hp]; [done|].
  destruct (_ =? _); [intros [= <- <-]; lia|]. intros H. apply (varint_loop_range 32) in H; lia.
Qed.

(** Bytes that all have the continuation bit are no integer, however many they are. *)
Lemma varint_loop_unterminated width last : forall p shift result, Forall (fun b => Z.land b 128 <> 0) p ->
  varint_loop width last shift result p = None.
Proof.
  induction p as [|b p IH]; intros shift result Hp; cbn [varint_loop]; destruct (last <? shift); try done.
  apply Forall_cons in Hp as [Hb Hp]. rewrite (proj2 (Z.eqb_neq _ _) Hb). by apply IH.
Qed.

(** ** Lengths and signed integers *)

Lemma VarintLength_correct v : is_u64 v -> VarintLength v = Z.of_nat (length (EncodeVarint64 v)).
Proof.
  unfold is_u64, u64_max, VarintLength, EncodeVarint64. intros Hv.
  assert (forall fuel v len, 0 <= v < 128 ^ Z.of_nat (S fuel) ->
    varint_length_loop (S fuel) v len = len - 1 + Z.of_nat (length (varint64_loop (S fuel) v))) as Hl.
  { clear v Hv. intros fuel. induction fuel as [|fuel IH]; intros v len Hv; rewrite varint64_loop_S;
      change (varint_length_loop (S ?n) v len) with (if 128 <=? v then varint_length_loop n (Z.shiftr v 7) (len + 1) else len);
      destruct (Z.leb_spec 128 v); try (cbn [length]; lia).
    rewrite Nat2Z.inj_succ, Z.pow_succ_r in Hv by lia. cbn [length].
    rewrite Z.shiftr_div_pow2, IH; [lia|change (2 ^ 7) with 128|lia].
    split; [apply Z.div_pos; lia|apply Z.div_lt_upper_bound; lia]. }
  rewrite Hl by (cbn; lia). lia.
Qed.

Lemma lxor_ones a n : 0 <= n -> 0 <= a < 2 ^ n -> Z.lxor a (Z.ones n) = 2 ^ n - 1 - a.
Proof.
  intros Hn Ha. assert (a + Z.lxor a (Z.ones n) = Z.ones n) as H; [|pose proof (Z.ones_equiv n); lia].
  rewrite Z.add_nocarry_lxor; [by rewrite <- Z.lxor_assoc, Z.lxor_nilpotent, Z.lxor_0_l|].
  apply Z.bits_inj'. intros i Hi. rewrite Z.land_spec, Z.lxor_spec, Z.bits_0. destruct (decide (i < n)).
  - rewrite Z.ones_spec_low by lia. by destruct (Z.testbit a i).
  - rewrite <- (Z.mod_small a (2 ^ n)), Z.mod_pow2_bits_high by lia. done.
Qed.

Lemma zigzag_value v : is_i64 v -> i64ToZigzag v = if decide (0 <= v) then 2 * v else - 2 * v - 1.
Proof.
  unfold is_i64, i64ToZigzag, u64. intros Hv. rewrite Z.shiftl_mul_pow2, Z.shiftr_div_pow2 by lia. case_decide.
  - rewrite (Z.div_small v), (Z.mod_small v) by lia. rewrite Z.lxor_0_r, Z.mod_small; lia.
  - assert (v / 2 ^ 63 = -1) as -> by (symmetry; apply (Z.div_unique_pos _ _ _ (v + 2 ^ 63)); lia).
    change (-1 mod 2 ^ 64) with (Z.ones 64).
    rewrite <- (Z.mod_unique_pos v (2 ^ 64) (-1) (v + 2 ^ 64)) by lia.
    rewrite <- (Z.mod_unique_pos _ (2 ^ 64) 1 (2 * v + 2 ^ 64)) by lia. rewrite lxor_ones by lia. lia.
Qed.

Lemma zigzag_inverse v : is_i64 v -> zigzagToI64 (i64ToZigzag v) = v.
Proof.
  intros Hv. rewrite zigzag_value by done. unfold is_i64 in Hv. unfold zigzagToI64.
  assert (forall n, Z.land n 1 = n mod 2) as -> by (intros n; exact (Z.land_ones n 1 ltac:(lia))).
  rewrite Z.shiftr_div_pow2 by lia. change (2 ^ 1) with 2.
  unfold i64, u64. case_decide.
  - rewrite (Z.mul_comm 2), Z.div_mul, Z.mod_mul by lia. rewrite Z.lxor_0_r, Z.mod_small by lia.
    rewrite (proj2 (Z.ltb_lt _ _)); lia.
  - replace (-2 * v - 1) with (1 + (- v - 1) * 2) by lia. rewrite Z.div_add, Z.mod_add by lia.
    change (- (1 mod 2) mod 2 ^ 64) with (Z.ones 64). change (1 `div` 2) with 0. rewrite lxor_ones by lia.
    rewrite Z.mod_small by lia. rewrite (proj2 (Z.ltb_ge _ _)); lia.
Qed.

#[export] Instance Varsignedint64_codec : Codec PutVarsignedint64 GetVarsignedint64 is_i64.
Proof.
  intros v rest Hv. unfold PutVarsignedint64, GetVarsignedint64.
  change (GetVarint64Ptr ?p) with (GetVarint64 p). change (EncodeVarint64 ?z) with (PutVarint64 z).
  rewrite (get_put (put := PutVarint64)); [by rewrite zigzag_inverse|].
  rewrite zigzag_value by done. unfold is_i64 in Hv. unfold is_u64, u64_max. case_decide; lia.
Qed.

(** ** Tagged fields

    Several entries of the MANIFEST end with a list of fields, each a tag and a slice,
    up to a terminating tag. *)

(** A field under the condition it is written. *)
Definition put_field (c : bool) (tag : Z) (field : list Z) : list Z :=
  if c then PutVarint32 tag ++ PutLengthPrefixedSlice field else [].

(** The loop that reads them, with an error for a missing tag, an error for a missing
    slice, and [apply] for the [switch] over the tag. *)
Fixpoint tagged_loop {E A} (terminate : Z) (no_tag no_slice : E) (apply : Z -> list Z -> A -> E + A)
    (fuel : nat) (input : list Z) (s : A) : E + (A * list Z) :=
  match fuel with
  | O => inl no_tag
  | S fuel' =>
      match GetVarint32 input with
      | None => inl no_tag
      | Some (tag, input1) =>
          if tag =? terminate then inr (s, input1)
          else match GetLengthPrefixedSlice input1 with
               | None => inl no_slice
               | Some (field, input2) =>
                   match apply tag field s with
                   | inl e => inl e
                   | inr s' => tagged_loop terminate no_tag no_slice apply fuel' input2 s'
                   end
               end
      end
  end.

(** A turn takes at least one byte. *)
Definition read_tagged {E A} (terminate : Z) (no_tag no_slice : E) (apply : Z -> list Z -> A -> E + A)
    (input : list Z) (s : A) : E + (A * list Z) :=
  tagged_loop terminate no_tag no_slice apply (S (length input)) input s.

Section tagged.
Context {E A : Type} (terminate : Z) (no_tag no_slice : E) (apply : Z -> list Z -> A -> E + A).
Hypothesis Hterminate : is_u32 terminate.

Lemma tagged_loop_fuel fuel : forall fuel' input s, (length input < fuel)%nat -> (length input < fuel')%nat ->
  tagged_loop terminate no_tag no_slice apply fuel input s = tagged_loop terminate no_tag no_slice apply fuel' input s.
Proof using Type.
  induction fuel as [|fuel IH]; intros [|fuel'] input s Hf Hf'; try lia. cbn [tagged_loop].
  destruct (GetVarint32 input) as [[tag i1]|] eqn:H1; [|done]. apply get_shorter in H1.
  destruct (_ =? _); [done|]. destruct (GetLengthPrefixedSlice i1) as [[field i2]|] eqn:H2; [|done]. apply get_shorter in H2.
  destruct (apply tag field s); [done|]. apply IH; lia.
Qed.

Lemma read_tagged_terminate rest s :
  read_tagged terminate no_tag no_slice apply (PutVarint32 terminate ++ rest) s = inr (s, rest).
Proof using Hterminate.
  unfold read_tagged. cbn [tagged_loop]. rewrite (get_put (put := PutVarint32)) by done. by rewrite Z.eqb_refl.
Qed.

(** One field, written or not. *)
Lemma read_tagged_field b tag field rest s s' : is_u32 tag -> tag <> terminate -> (b = true -> is_slice field) ->
  (b = true -> apply tag field s = inr s') -> (b = false -> s' = s) ->
  read_tagged terminate no_tag no_slice apply (put_field b tag field ++ rest) s =
  read_tagged terminate no_tag no_slice apply rest s'.
Proof using Type.
  intros Htag Hterm Hfield Hset Hskip. unfold put_field. destruct b; [|by rewrite Hskip].
  unfold read_tagged at 1. cbn [tagged_loop]. rewrite <- !app_assoc, (get_put (put := PutVarint32)) by done.
  rewrite (proj2 (Z.eqb_neq _ _) Hterm), (get_put (put := PutLengthPrefixedSlice)), Hset by auto.
  unfold read_tagged. apply tagged_loop_fuel; [|lia]. rewrite !length_app. unfold PutVarint32.
  destruct (EncodeVarint32_varint tag Htag) as (n & _ & -> & _). destruct n; cbn; lia.
Qed.
End tagged.

(** What the fields of an entry preserve. *)
Lemma tagged_loop_invariant {E A} terminate (no_tag no_slice : E) apply (P : A -> Prop) (Q R : list Z -> Prop) fuel :
  (forall input tag rest, Q input -> GetVarint32 input = Some (tag, rest) -> Q rest) ->
  (forall input field rest, Q input -> GetLengthPrefixedSlice input = Some (field, rest) -> R field /\ Q rest) ->
  (forall tag field s s', P s -> R field -> apply tag field s = inr s' -> P s') ->
  forall input s s' rest, P s -> Q input ->
    tagged_loop terminate no_tag no_slice apply fuel input s = inr (s', rest) -> P s' /\ Q rest.
Proof.
  intros Hv Hsl Ha. induction fuel as [|fuel IH]; intros input s s' rest HP HQ; cbn [tagged_loop]; [done|].
  destruct (GetVarint32 input) as [[tag i1]|] eqn:H1; [|done]. pose proof (Hv _ _ _ HQ H1) as HQ1.
  destruct (_ =? _); [by intros [= <- <-]|]. destruct (GetLengthPrefixedSlice i1) as [[field i2]|] eqn:H2; [|done].
  destruct (Hsl _ _ _ HQ1 H2) as [HQf HQ2].
  destruct (apply tag field s) as [|s1] eqn:H3; [done|]. intros H. exact (IH i2 s1 s' rest (Ha tag field s s1 HP HQf H3) HQ2 H).
Qed.

(** Readers of bytes leave bytes. *)
Lemma is_bytes_suffix p q : is_bytes (p ++ q) -> is_bytes p /\ is_bytes q.
Proof. apply Forall_app. Qed.

Lemma varint_loop_suffix width last : forall p shift result v rest,
  varint_loop width last shift result p = Some (v, rest) -> is_bytes p -> is_bytes rest.
Proof.
  induction p as [|b p IH]; intros shift result v rest; cbn [varint_loop]; destruct (last <? shift); try done.
  intros H [_ Hp]%Forall_cons. destruct (negb _); [by eapply IH|]. by simplify_eq.
Qed.

Lemma GetVarint64_bytes p v rest : is_bytes p -> GetVarint64 p = Some (v, rest) -> is_bytes rest.
Proof. intros Hp H. by eapply varint_loop_suffix. Qed.

Lemma GetVarint32_bytes p v rest : is_bytes p -> GetVarint32 p = Some (v, rest) -> is_bytes rest.
Proof.
  intros Hp. unfold GetVarint32, GetVarint32Ptr. destruct p as [|b p]; [done|].
  destruct (_ =? _); [|intros H; by eapply varint_loop_suffix]. intros [= <- <-]. by apply Forall_cons in Hp as [_ ?].
Qed.

Lemma GetLengthPrefixedSlice_bytes p v rest : is_bytes p -> GetLengthPrefixedSlice p = Some (v, rest) -> is_bytes v /\ is_bytes rest.
Proof.
  intros Hp. unfold GetLengthPrefixedSlice. destruct (GetVarint32 p) as [[len r]|] eqn:H; [|done].
  apply GetVarint32_bytes in H; [|done]. destruct (_ <=? _); [|done]. intros [= <- <-].
  split; [by apply Forall_take|by apply Forall_drop].
Qed.

Lemma GetLengthPrefixedSlice_slice p v rest : is_bytes p -> GetLengthPrefixedSlice p = Some (v, rest) -> is_slice v.
Proof.
  intros Hp. unfold GetLengthPrefixedSlice. destruct (GetVarint32 p) as [[len r]|] eqn:H; [|done].
  apply GetVarint32_range in H; [|done]. destruct (_ <=? _); [|done]. intros [= <- <-].
  unfold is_slice, is_u32 in *. rewrite length_take. lia.
Qed.

Lemma i32_range v : is_i32 (i32 v).
Proof. unfold is_i32, i32. pose proof (u32_range v) as H. unfold is_u32 in H. destruct (Z.ltb_spec (u32 v) (2 ^ 31)); lia. Qed.

Lemma decode_fixed_range l : is_bytes l -> 0 <= Version.decode_fixed l < 2 ^ (8 * Z.of_nat (length l)).
Proof.
  induction 1 as [|b l Hb _ IH]; cbn [Version.decode_fixed length]; [cbn; lia|].
  rewrite Version.lor_low_high by done. replace (8 * Z.of_nat (S (length l))) with (8 + 8 * Z.of_nat (length l)) by lia.
  rewrite Z.pow_add_r by lia. lia.
Qed.

Lemma DecodeFixed64_range l : is_bytes l -> is_u64 (Version.DecodeFixed64 l).
Proof.
  intros Hl. unfold Version.DecodeFixed64. pose proof (decode_fixed_range (take 8 l) (Forall_take _ 8 _ Hl)) as H.
  rewrite length_take in H. assert (2 ^ (8 * Z.of_nat (8 `min` length l)) <= 2 ^ 64) by (apply Z.pow_le_mono_r; lia).
  unfold is_u64, u64_max. lia.
Qed.

Lemma GetFixed64_range p v rest : is_bytes p -> GetFixed64 p = Some (v, rest) -> is_u64 v.
Proof. intros Hp. unfold GetFixed64. case_decide; [done|]. intros [= <- <-]. by apply DecodeFixed64_range. Qed.

End Coding.
