(* ===== verification/WalEdit.v ===== *)
(** * WAL and blob file entries of a version edit

    [WalAddition], [WalDeletion] and [WalSet] of [db/wal_edit.h] and [db/wal_edit.cc],
    [BlobFileAddition] and [BlobFileGarbage] of [db/blob/blob_file_addition.cc] and
    [db/blob/blob_file_garbage.cc].  A decoder returns the entry and the bytes after it,
    or [None] for [Status::Corruption], the only error of these decoders.  [WalSet] keeps
    the map of live WALs and the number below which WALs are obsolete; for [CheckWals]
    the sizes the file system reports are an input. *)

From Stdlib Require Import ZArith Lia.
From stdpp Require Import base numbers list gmap sorting.
From S2P Require Import Prelude Coding.

Import Coding.
Local Open Scope Z_scope.

Module WalEdit.

(** ** WAL entries *)

Definition kUnknownWalSize : Z := u64_max.
Definition kWalTerminate : Z := 1.
Definition kSyncedSize : Z := 2.

(** [WalMetadata] is its only member, [synced_size_bytes_]. *)
Definition HasSyncedSize (size : Z) : bool := negb (size =? kUnknownWalSize).

Record WalAddition := mkWalAddition {
  wal_number : Z;
  wal_metadata : Z;
}.

Definition EncodeWalAddition (w : WalAddition) : list Z :=
  PutVarint64 (wal_number w) ++
  (if HasSyncedSize (wal_metadata w) then PutVarint32 kSyncedSize ++ PutVarint64 (wal_metadata w) else []) ++
  PutVarint32 kWalTerminate.

(** The loop over the tags; the fuel is one more than the bytes left. *)
Fixpoint wal_tags (fuel : nat) (w : WalAddition) (src : list Z) : option (WalAddition * list Z) :=
  match fuel with
  | O => None
  | S fuel' =>
      '(tag, src1) ← GetVarint32 src;
      if tag =? kSyncedSize then
        '(size, src2) ← GetVarint64 src1;
        wal_tags fuel' (mkWalAddition (wal_number w) size) src2
      else if tag =? kWalTerminate then Some (w, src1)
      else None
  end.

Definition DecodeWalAddition (src : list Z) : option (WalAddition * list Z) :=
  '(number, src1) ← GetVarint64 src;
  wal_tags (S (length src1)) (mkWalAddition number kUnknownWalSize) src1.

(** [WalDeletion] is its only member, [number_]. *)
Definition kEmptyWalDeletion : Z := 0.
Definition WalDeletion_IsEmpty (number : Z) : bool := number =? kEmptyWalDeletion.
Definition EncodeWalDeletion (number : Z) : list Z := PutVarint64 number.
Definition DecodeWalDeletion (src : list Z) : option (Z * list Z) := GetVarint64 src.

(** ** Blob file entries *)

Definition kEndMarker : Z := 0.
Definition kForwardIncompatibleMask : Z := Z.shiftl 1 6.

Record BlobFileAddition := mkBlobAddition {
  blob_file_number : Z;
  total_blob_count : Z;
  total_blob_bytes : Z;
  checksum_method : list Z;
  checksum_value : list Z;
}.

Record BlobFileGarbage := mkBlobGarbage {
  garbage_file_number : Z;
  garbage_blob_count : Z;
  garbage_blob_bytes : Z;
}.

Definition EncodeBlobFileAddition (b : BlobFileAddition) : list Z :=
  PutVarint64 (blob_file_number b) ++ PutVarint64 (total_blob_count b) ++
  PutVarint64 (total_blob_bytes b) ++ PutLengthPrefixedSlice (checksum_method b) ++
  PutLengthPrefixedSlice (checksum_value b) ++ PutVarint32 kEndMarker.

Definition EncodeBlobFileGarbage (b : BlobFileGarbage) : list Z :=
  PutVarint64 (garbage_file_number b) ++ PutVarint64 (garbage_blob_count b) ++
  PutVarint64 (garbage_blob_bytes b) ++ PutVarint32 kEndMarker.

(** The loop both decoders skip unknown custom fields with. *)
Fixpoint custom_fields (fuel : nat) (input : list Z) : option (list Z) :=
  match fuel with
  | O => None
  | S fuel' =>
      '(custom_field_tag, input1) ← GetVarint32 input;
      if custom_field_tag =? kEndMarker then Some input1
      else if negb (Z.land custom_field_tag kForwardIncompatibleMask =? 0) then None
      else '(_, input2) ← GetLengthPrefixedSlice input1; custom_fields fuel' input2
  end.

Definition DecodeBlobFileAddition (input : list Z) : option (BlobFileAddition * list Z) :=
  '(number, input1) ← GetVarint64 input;
  '(count, input2) ← GetVarint64 input1;
  '(total, input3) ← GetVarint64 input2;
  '(method, input4) ← GetLengthPrefixedSlice input3;
  '(value, input5) ← GetLengthPrefixedSlice input4;
  input6 ← custom_fields (S (length input5)) input5;
  Some (mkBlobAddition number count total method value, input6).

Definition DecodeBlobFileGarbage (input : list Z) : option (BlobFileGarbage * list Z) :=
  '(number, input1) ← GetVarint64 input;
  '(count, input2) ← GetVarint64 input1;
  '(total, input3) ← GetVarint64 input2;
  input4 ← custom_fields (S (length input3)) input3;
  Some (mkBlobGarbage number count total, input4).

(** ** The set of WALs *)

Record WalSet := mkWalSet {
  wals : gmap Z Z;
  min_wal_number_to_keep : Z;
}.

Definition AddWal (w : WalAddition) (s : WalSet) : Status * WalSet :=
  if wal_number w <? min_wal_number_to_keep s then (OK, s)
  else
    let insert m := mkWalSet (<[wal_number w := m]> (wals s)) (min_wal_number_to_keep s) in
    match wals s !! wal_number w with
    | None => (OK, insert (wal_metadata w))
    | Some old =>
        if negb (HasSyncedSize (wal_metadata w)) then (Corruption, s)
        else if HasSyncedSize old && (wal_metadata w <=? old) then (OK, s)
        else (OK, insert (wal_metadata w))
    end.

Fixpoint AddWals (l : list WalAddition) (s : WalSet) : Status * WalSet :=
  match l with
  | [] => (OK, s)
  | w :: l' => match AddWal w s with (OK, s') => AddWals l' s' | r => r end
  end.

Definition DeleteWalsBefore (wal : Z) (s : WalSet) : WalSet :=
  if min_wal_number_to_keep s <? wal
  then mkWalSet (filter (fun kv => wal <= kv.1) (wals s)) wal
  else s.

Definition Reset : WalSet := mkWalSet ∅ 0.

(** The numbers of the set in the order of the map. *)
Definition wal_numbers (s : WalSet) : list Z := merge_sort Z.le (elements (dom (wals s))).

(** [logs_on_disk] gives for a log number what the directory and [GetFileSize] answer:
    [None] without a file, otherwise the status and the size. *)
Definition check_wal (logs_on_disk : Z -> option (Status * Z)) (number size : Z) : Status :=
  if negb (HasSyncedSize size) then OK
  else match logs_on_disk number with
       | None => Corruption
       | Some (OK, log_file_size) => if log_file_size <? size then Corruption else OK
       | Some (e, _) => e
       end.

Fixpoint check_wals (logs_on_disk : Z -> option (Status * Z)) (m : gmap Z Z) (l : list Z) : Status :=
  match l with
  | [] => OK
  | n :: l' =>
      match check_wal logs_on_disk n (m !!! n) with
      | OK => check_wals logs_on_disk m l'
      | e => e
      end
  end.

Definition CheckWals (logs_on_disk : Z -> option (Status * Z)) (s : WalSet) : Status :=
  check_wals logs_on_disk (wals s) (wal_numbers s).

(** ** Round trips *)

Definition is_wal (w : WalAddition) : Prop := is_u64 (wal_number w) /\ is_u64 (wal_metadata w).

Definition is_blob_addition (b : BlobFileAddition) : Prop :=
  is_u64 (blob_file_number b) /\ is_u64 (total_blob_count b) /\ is_u64 (total_blob_bytes b) /\
  is_slice (checksum_method b) /\ is_slice (checksum_value b).

Definition is_blob_garbage (b : BlobFileGarbage) : Prop :=
  is_u64 (garbage_file_number b) /\ is_u64 (garbage_blob_count b) /\ is_u64 (garbage_blob_bytes b).

(** Steps a decoder over one field that was written before it. *)
Ltac read_field := rewrite <- ?app_assoc, ?(get_put (put := PutVarint32)), ?(get_put (put := PutVarint64)),
  ?(get_put (put := PutLengthPrefixedSlice)) by first [done | unfold is_u32; lia | solve_u64]; cbn [mbind option_bind].

#[global] Instance WalAddition_codec : Codec EncodeWalAddition DecodeWalAddition is_wal.
Proof.
  intros [n m] rest [Hn Hm]. cbn [wal_number wal_metadata] in *. unfold EncodeWalAddition, DecodeWalAddition. cbn [wal_number wal_metadata].
  read_field. unfold HasSyncedSize. destruct (m =? kUnknownWalSize) eqn:Hk; cbn [negb].
  - apply Z.eqb_eq in Hk as ->. cbn [app wal_tags]. read_field. done.
  - rewrite <- !app_assoc. cbn [wal_tags]. read_field. cbn [Z.eqb]. destruct (length _) eqn:Hl.
    { apply length_zero_iff_nil in Hl. by vm_compute in Hl. }
    cbn [wal_tags wal_number]. read_field. done.
Qed.

Lemma custom_fields_end fuel rest : custom_fields (S fuel) (PutVarint32 kEndMarker ++ rest) = Some rest.
Proof. cbn [custom_fields]. by read_field. Qed.

#[global] Instance BlobFileAddition_codec : Codec EncodeBlobFileAddition DecodeBlobFileAddition is_blob_addition.
Proof.
  intros [n c t m v] rest (Hn & Hc & Ht & Hm & Hv). cbn in Hn, Hc, Ht, Hm, Hv.
  unfold EncodeBlobFileAddition, DecodeBlobFileAddition.
  cbn [blob_file_number total_blob_count total_blob_bytes checksum_method checksum_value].
  rewrite <- !app_assoc. do 5 (read_field). by rewrite custom_fields_end.
Qed.

#[global] Instance BlobFileGarbage_codec : Codec EncodeBlobFileGarbage DecodeBlobFileGarbage is_blob_garbage.
Proof.
  intros [n c t] rest (Hn & Hc & Ht). cbn in Hn, Hc, Ht. unfold EncodeBlobFileGarbage, DecodeBlobFileGarbage.
  cbn [garbage_file_number garbage_blob_count garbage_blob_bytes].
  rewrite <- !app_assoc. do 3 (read_field). by rewrite custom_fields_end.
Qed.

#[global] Instance WalDeletion_codec : Codec EncodeWalDeletion DecodeWalDeletion is_u64.
Proof. exact Varint64_codec. Qed.

(** ** What is read is typed *)

Lemma wal_tags_typed fuel : forall a i a' rest, is_wal a -> is_bytes i -> wal_tags fuel a i = Some (a', rest) -> is_wal a' /\ is_bytes rest.
Proof.
  induction fuel as [|fuel IH]; intros a i a' rest Ha Hi; cbn [wal_tags]; [done|].
  destruct (GetVarint32 i) as [[t r]|] eqn:H; cbn [mbind option_bind]; [|done]. apply GetVarint32_bytes in H; [|done].
  destruct (_ =? _); [|destruct (_ =? _); [by intros [= <- <-]|done]].
  destruct (GetVarint64 r) as [[v r2]|] eqn:H2; cbn [mbind option_bind]; [|done]. pose proof (GetVarint64_range _ _ _ H2).
  apply GetVarint64_bytes in H2; [|done]. apply IH; [|done]. split; [apply Ha|done].
Qed.

Lemma DecodeWalAddition_typed i a rest : is_bytes i -> DecodeWalAddition i = Some (a, rest) -> is_wal a /\ is_bytes rest.
Proof.
  intros Hi. unfold DecodeWalAddition. destruct (GetVarint64 i) as [[n r]|] eqn:H; cbn [mbind option_bind]; [|done].
  pose proof (GetVarint64_range _ _ _ H). apply GetVarint64_bytes in H; [|done]. apply wal_tags_typed; [|done]. by split; [|vm_compute].
Qed.

Lemma custom_fields_bytes fuel : forall i rest, is_bytes i -> custom_fields fuel i = Some rest -> is_bytes rest.
Proof.
  induction fuel as [|fuel IH]; intros i rest Hi; cbn [custom_fields]; [done|].
  destruct (GetVarint32 i) as [[t r]|] eqn:H; cbn [mbind option_bind]; [|done]. apply GetVarint32_bytes in H; [|done].
  destruct (_ =? _); [by intros [= <-]|]. destruct (negb _); [done|].
  destruct (GetLengthPrefixedSlice r) as [[v r2]|] eqn:H2; cbn [mbind option_bind]; [|done].
  apply GetLengthPrefixedSlice_bytes in H2 as [_ ?]; [|done]. by apply IH.
Qed.

(** Three variable-length integers in a row. *)
Lemma three_varints {A} i (k : Z -> Z -> Z -> list Z -> option A) a : is_bytes i ->
  ('(n, i1) ← GetVarint64 i; '(c, i2) ← GetVarint64 i1; '(t, i3) ← GetVarint64 i2; k n c t i3) = Some a ->
  exists n c t i3, is_u64 n /\ is_u64 c /\ is_u64 t /\ is_bytes i3 /\ k n c t i3 = Some a.
Proof.
  intros Hi. destruct (GetVarint64 i) as [[n i1]|] eqn:H1; cbn [mbind option_bind]; [|done]. pose proof (GetVarint64_bytes _ _ _ Hi H1) as B1.
  destruct (GetVarint64 i1) as [[c i2]|] eqn:H2; cbn [mbind option_bind]; [|done]. pose proof (GetVarint64_bytes _ _ _ B1 H2) as B2.
  destruct (GetVarint64 i2) as [[t i3]|] eqn:H3; cbn [mbind option_bind]; [|done]. pose proof (GetVarint64_bytes _ _ _ B2 H3) as B3.
  intros Hk. exists n, c, t, i3. split_and!; eauto using GetVarint64_range.
Qed.

Lemma DecodeBlobFileAddition_typed i b rest : is_bytes i -> DecodeBlobFileAddition i = Some (b, rest) ->
  is_blob_addition b /\ is_bytes rest.
Proof.
  intros Hi H. apply (three_varints i) in H as (n & c & t & i3 & Hn & Hc & Ht & B3 & H); [|done].
  destruct (GetLengthPrefixedSlice i3) as [[m i4]|] eqn:H4; cbn [mbind option_bind] in H; [|done].
  destruct (GetLengthPrefixedSlice_bytes _ _ _ B3 H4) as [_ B4]. apply GetLengthPrefixedSlice_slice in H4; [|done].
  destruct (GetLengthPrefixedSlice i4) as [[v i5]|] eqn:H5; cbn [mbind option_bind] in H; [|done].
  destruct (GetLengthPrefixedSlice_bytes _ _ _ B4 H5) as [_ B5]. apply GetLengthPrefixedSlice_slice in H5; [|done].
  destruct (custom_fields _ i5) eqn:H6; cbn [mbind option_bind] in H; [|done]. apply custom_fields_bytes in H6; [|done].
  by simplify_eq.
Qed.

Lemma DecodeBlobFileGarbage_typed i b rest : is_bytes i -> DecodeBlobFileGarbage i = Some (b, rest) ->
  is_blob_garbage b /\ is_bytes rest.
Proof.
  intros Hi H. apply (three_varints i) in H as (n & c & t & i3 & Hn & Hc & Ht & B3 & H); [|done].
  destruct (custom_fields _ i3) eqn:H6; cbn [mbind option_bind] in H; [|done]. apply custom_fields_bytes in H6; [|done].
  by simplify_eq.
Qed.

(** ** The set of WALs *)

(** No obsolete WAL is in the set. *)
Definition wal_ok (s : WalSet) : Prop := map_Forall (fun n _ => min_wal_number_to_keep s <= n) (wals s).

Lemma AddWal_ok w s : wal_ok s -> wal_ok (AddWal w s).2.
Proof.
  unfold wal_ok, AddWal. intros Hs. destruct (Z.ltb_spec (wal_number w) (min_wal_number_to_keep s)); [done|].
  repeat case_match; cbn; try done; by apply map_Forall_insert_2.
Qed.

Lemma DeleteWalsBefore_ok wal s : wal_ok s -> wal_ok (DeleteWalsBefore wal s).
Proof.
  unfold wal_ok, DeleteWalsBefore. intros Hs. destruct (_ <? _); [|done]. intros n m. cbn.
  intros [_ H]%map_lookup_filter_Some. done.
Qed.

(** The size that is kept of a WAL when a synced size arrives. *)
Definition synced (old : option Z) (size : Z) : Z :=
  match old with
  | Some o => if HasSyncedSize o && (size <=? o) then o else size
  | None => size
  end.

Lemma AddWal_synced w s : HasSyncedSize (wal_metadata w) = true -> min_wal_number_to_keep s <= wal_number w ->
  AddWal w s = (OK, mkWalSet (<[wal_number w := synced (wals s !! wal_number w) (wal_metadata w)]> (wals s))
    (min_wal_number_to_keep s)).
Proof.
  intros Hw Hn. unfold AddWal. rewrite (proj2 (Z.ltb_ge _ _) Hn), Hw. cbn [negb].
  destruct (wals s !! wal_number w) as [o|] eqn:Ho; cbn [synced]; [|done].
  destruct (_ && _); [|done]. rewrite insert_id by done. by destruct s.
Qed.

Lemma synced_commute old a b : HasSyncedSize a = true -> HasSyncedSize b = true ->
  synced (Some (synced old a)) b = synced (Some (synced old b)) a.
Proof.
  intros Ha Hb. destruct old as [o|]; cbn [synced]; [|rewrite Ha, Hb; cbn [andb]; repeat case_match; lia].
  destruct (HasSyncedSize o) eqn:Ho; cbn [andb]; [|rewrite Ha, Hb; cbn [andb]; repeat case_match; lia].
  destruct (Z.leb_spec a o), (Z.leb_spec b o); rewrite ?Ha, ?Hb, ?Ho; cbn [andb]; repeat case_match; lia.
Qed.

(** Two synced sizes may be committed in either order. *)
Lemma AddWal_commute w1 w2 s : HasSyncedSize (wal_metadata w1) = true -> HasSyncedSize (wal_metadata w2) = true ->
  (AddWal w2 (AddWal w1 s).2).2 = (AddWal w1 (AddWal w2 s).2).2.
Proof.
  intros H1 H2.
  assert (forall w t, wal_number w < min_wal_number_to_keep t -> AddWal w t = (OK, t)) as Hold.
  { intros w t Hw. unfold AddWal. by rewrite (proj2 (Z.ltb_lt _ _) Hw). }
  destruct (Z_lt_le_dec (wal_number w1) (min_wal_number_to_keep s)) as [Hn1|Hn1];
    destruct (Z_lt_le_dec (wal_number w2) (min_wal_number_to_keep s)) as [Hn2|Hn2];
    rewrite ?(Hold w1 s), ?(Hold w2 s), ?(AddWal_synced w1 s), ?(AddWal_synced w2 s) by done; cbn [snd];
    rewrite ?(Hold w1), ?(Hold w2), ?AddWal_synced by (cbn [min_wal_number_to_keep]; assumption); cbn [snd wals min_wal_number_to_keep]; try done.
  f_equal. destruct (decide (wal_number w1 = wal_number w2)) as [E|E].
  - rewrite E, !lookup_insert_eq, !insert_insert_eq. f_equal. by apply synced_commute.
  - rewrite !lookup_insert_ne by done. by rewrite insert_insert_ne.
Qed.

Lemma check_wals_OK disk m l : check_wals disk m l = OK <-> Forall (fun n => check_wal disk n (m !!! n) = OK) l.
Proof.
  induction l as [|n l IH]; cbn [check_wals]; [by split|]. rewrite Forall_cons, <- IH.
  destruct (check_wal disk n (m !!! n)); intuition congruence.
Qed.

(** The check passes exactly when every WAL with a synced size is on disk with at least
    that size. *)
Lemma CheckWals_correct disk s : CheckWals disk s = OK <->
  forall n size, wals s !! n = Some size -> HasSyncedSize size = true ->
    exists fsize, disk n = Some (OK, fsize) /\ size <= fsize.
Proof.
  unfold CheckWals, wal_numbers. rewrite check_wals_OK, merge_sort_Permutation, Forall_forall. split.
  - intros Hall n size Hn Hs. specialize (Hall n). rewrite elem_of_elements, elem_of_dom, lookup_total_alt, Hn in Hall.
    specialize (Hall ltac:(done)). cbn in Hall. unfold check_wal in Hall. rewrite Hs in Hall. cbn in Hall.
    destruct (disk n) as [[[] fsize]|]; try done. exists fsize. destruct (Z.ltb_spec fsize size); [done|]. by split; [|lia].
  - intros Hall n [size Hn]%elem_of_elements%elem_of_dom. rewrite lookup_total_alt, Hn. cbn. unfold check_wal.
    destruct (HasSyncedSize size) eqn:Hs; cbn [negb]; [|done]. destruct (Hall n size Hn Hs) as (fsize & -> & Hle).
    by rewrite (proj2 (Z.ltb_ge _ _) Hle).
Qed.

End WalEdit.
