(* ===== verification/FileCodec.v ===== *)
(** * The MANIFEST entry of a table file

    [VersionEdit::EncodeToNewFile4] and [VersionEdit::DecodeNewFile4From] of
    [db/version_edit.cc], with the members of [FileMetaData] that are written to the
    MANIFEST.  The fixed part of an entry (level, number, size, boundaries, sequence
    numbers) is followed by tagged custom fields up to a terminating tag; fields with
    their default value are not written, and unknown fields are skipped unless their tag
    says that they must not be.  Strings are lists of bytes; the messages of the decoder
    are kept. *)

From Stdlib Require Import ZArith Lia String.
From stdpp Require Import base numbers list.
From S2P Require Import Prelude Version Coding WalEdit.

Import Coding.
Local Open Scope Z_scope.

Module FileCodec.

(** ** Files *)

Definition kFileNumberMask : Z := 0x3FFFFFFFFFFFFFFF.
Definition kInvalidBlobFileNumber : Z := 0.
Definition kUnknownEpochNumber : Z := 0.
Definition kUnknownFileChecksum : list Z := [].
(** The bytes of [Unknown]. *)
Definition kUnknownFileChecksumFuncName : list Z := [85; 110; 107; 110; 111; 119; 110].
Definition kUnknownTemperature : Z := 0.
Definition kLastTemperature : Z := 0x11.
Definition kNullUniqueId64x2 : Z * Z := (0, 0).

Record FileMetaData := mkFile {
  packed_number_and_path_id : Z;
  file_size : Z;
  smallest_seqno : Z;
  largest_seqno : Z;
  smallest : list Z;
  largest : list Z;
  marked_for_compaction : bool;
  temperature : Z;
  oldest_blob_file_number : Z;
  oldest_ancester_time : Z;
  file_creation_time : Z;
  epoch_number : Z;
  file_checksum : list Z;
  file_checksum_func_name : list Z;
  unique_id : Z * Z;
  compensated_range_deletion_size : Z;
  tail_size : Z;
  user_defined_timestamps_persisted : bool;
}.

Definition PackFileNumberAndPathId (number path_id : Z) : Z :=
  Z.lor number (path_id *% (kFileNumberMask + 1)).

Definition GetNumber (f : FileMetaData) : Z := Z.land (packed_number_and_path_id f) kFileNumberMask.
Definition GetPathId (f : FileMetaData) : Z := u32 (packed_number_and_path_id f / (kFileNumberMask + 1)).

(** [FileMetaData()]. *)
Definition default_file : FileMetaData :=
  mkFile (PackFileNumberAndPathId 0 0) 0 Version.kMaxSequenceNumber 0 [] [] false kUnknownTemperature
    kInvalidBlobFileNumber 0 0 kUnknownEpochNumber kUnknownFileChecksum kUnknownFileChecksumFuncName
    kNullUniqueId64x2 0 0 true.

Definition set_fd (packed size lo hi : Z) (f : FileMetaData) : FileMetaData :=
  let '(mkFile _ _ _ _ k1 k2 m t ob oa fc ep cs fn ui cr ts ud) := f in
  mkFile packed size lo hi k1 k2 m t ob oa fc ep cs fn ui cr ts ud.
Definition set_bounds (a b : list Z) (f : FileMetaData) : FileMetaData :=
  let '(mkFile p s lo hi _ _ m t ob oa fc ep cs fn ui cr ts ud) := f in
  mkFile p s lo hi a b m t ob oa fc ep cs fn ui cr ts ud.
Definition set_marked (m : bool) (f : FileMetaData) : FileMetaData :=
  let '(mkFile p s lo hi k1 k2 _ t ob oa fc ep cs fn ui cr ts ud) := f in
  mkFile p s lo hi k1 k2 m t ob oa fc ep cs fn ui cr ts ud.
Definition set_temperature (t : Z) (f : FileMetaData) : FileMetaData :=
  let '(mkFile p s lo hi k1 k2 m _ ob oa fc ep cs fn ui cr ts ud) := f in
  mkFile p s lo hi k1 k2 m t ob oa fc ep cs fn ui cr ts ud.
Definition set_oldest_blob (ob : Z) (f : FileMetaData) : FileMetaData :=
  let '(mkFile p s lo hi k1 k2 m t _ oa fc ep cs fn ui cr ts ud) := f in
  mkFile p s lo hi k1 k2 m t ob oa fc ep cs fn ui cr ts ud.
Definition set_ancester (oa : Z) (f : FileMetaData) : FileMetaData :=
  let '(mkFile p s lo hi k1 k2 m t ob _ fc ep cs fn ui cr ts ud) := f in
  mkFile p s lo hi k1 k2 m t ob oa fc ep cs fn ui cr ts ud.
Definition set_creation (fc : Z) (f : FileMetaData) : FileMetaData :=
  let '(mkFile p s lo hi k1 k2 m t ob oa _ ep cs fn ui cr ts ud) := f in
  mkFile p s lo hi k1 k2 m t ob oa fc ep cs fn ui cr ts ud.
Definition set_epoch (ep : Z) (f : FileMetaData) : FileMetaData :=
  let '(mkFile p s lo hi k1 k2 m t ob oa fc _ cs fn ui cr ts ud) := f in
  mkFile p s lo hi k1 k2 m t ob oa fc ep cs fn ui cr ts ud.
Definition set_checksum (cs : list Z) (f : FileMetaData) : FileMetaData :=
  let '(mkFile p s lo hi k1 k2 m t ob oa fc ep _ fn ui cr ts ud) := f in
  mkFile p s lo hi k1 k2 m t ob oa fc ep cs fn ui cr ts ud.
Definition set_func_name (fn : list Z) (f : FileMetaData) : FileMetaData :=
  let '(mkFile p s lo hi k1 k2 m t ob oa fc ep cs _ ui cr ts ud) := f in
  mkFile p s lo hi k1 k2 m t ob oa fc ep cs fn ui cr ts ud.
Definition set_unique_id (ui : Z * Z) (f : FileMetaData) : FileMetaData :=
  let '(mkFile p s lo hi k1 k2 m t ob oa fc ep cs fn _ cr ts ud) := f in
  mkFile p s lo hi k1 k2 m t ob oa fc ep cs fn ui cr ts ud.
Definition set_compensated (cr : Z) (f : FileMetaData) : FileMetaData :=
  let '(mkFile p s lo hi k1 k2 m t ob oa fc ep cs fn ui _ ts ud) := f in
  mkFile p s lo hi k1 k2 m t ob oa fc ep cs fn ui cr ts ud.
Definition set_tail (ts : Z) (f : FileMetaData) : FileMetaData :=
  let '(mkFile p s lo hi k1 k2 m t ob oa fc ep cs fn ui cr _ ud) := f in
  mkFile p s lo hi k1 k2 m t ob oa fc ep cs fn ui cr ts ud.
Definition set_persisted (ud : bool) (f : FileMetaData) : FileMetaData :=
  let '(mkFile p s lo hi k1 k2 m t ob oa fc ep cs fn ui cr ts _) := f in
  mkFile p s lo hi k1 k2 m t ob oa fc ep cs fn ui cr ts ud.

(** ** Tags *)

Definition kNewFile4 : Z := 103.
Definition kTerminate : Z := 1.
Definition kNeedCompaction : Z := 2.
Definition kMinLogNumberToKeepHack : Z := 3.
Definition kOldestBlobFileNumber : Z := 4.
Definition kOldestAncesterTime : Z := 5.
Definition kFileCreationTime : Z := 6.
Definition kFileChecksum : Z := 7.
Definition kFileChecksumFuncName : Z := 8.
Definition kTemperature : Z := 9.
Definition kUniqueId : Z := 12.
Definition kEpochNumber : Z := 13.
Definition kCompensatedRangeDeletionSize : Z := 14.
Definition kTailSize : Z := 15.
Definition kUserDefinedTimestampsPersisted : Z := 16.
Definition kCustomTagNonSafeIgnoreMask : Z := Z.shiftl 1 6.
Definition kPathId : Z := 65.

(** ** Writing *)

Definition EncodeUniqueIdBytes (u : Z * Z) : list Z :=
  Version.EncodeFixed64 u.1 ++ Version.EncodeFixed64 u.2.

Definition StripTimestampFromInternalKey (key : list Z) (ts_sz : nat) : list Z :=
  take (length key - Version.kNumInternalBytes - ts_sz) key ++
  drop (length key - Version.kNumInternalBytes) key.

(** The boundaries that are written: without timestamps if these are not persisted. *)
Definition boundary (f : FileMetaData) (ts_sz : nat) (key : list Z) : list Z :=
  if decide (ts_sz = 0%nat) then key
  else if user_defined_timestamps_persisted f then key
  else StripTimestampFromInternalKey key ts_sz.

Definition EncodeFileBoundaries (f : FileMetaData) (ts_sz : nat) : list Z :=
  PutLengthPrefixedSlice (boundary f ts_sz (smallest f)) ++
  PutLengthPrefixedSlice (boundary f ts_sz (largest f)).

(** The custom fields; [min_log] is the member [min_log_number_to_keep_] if it is set. *)
Definition encode_custom (f : FileMetaData) (min_log : option Z) (min_log_num_written : bool) : list Z :=
  put_field true kOldestAncesterTime (PutVarint64 (oldest_ancester_time f)) ++
  put_field true kFileCreationTime (PutVarint64 (file_creation_time f)) ++
  put_field true kEpochNumber (PutVarint64 (epoch_number f)) ++
  put_field (bool_decide (file_checksum_func_name f <> kUnknownFileChecksumFuncName))
    kFileChecksum (file_checksum f) ++
  put_field (bool_decide (file_checksum_func_name f <> kUnknownFileChecksumFuncName))
    kFileChecksumFuncName (file_checksum_func_name f) ++
  put_field (negb (GetPathId f =? 0)) kPathId [u8 (GetPathId f)] ++
  put_field (negb (temperature f =? kUnknownTemperature)) kTemperature [u8 (temperature f)] ++
  put_field (marked_for_compaction f) kNeedCompaction [1] ++
  put_field (bool_decide (is_Some min_log) && negb min_log_num_written) kMinLogNumberToKeepHack
    (PutFixed64 (default 0 min_log)) ++
  put_field (negb (oldest_blob_file_number f =? kInvalidBlobFileNumber)) kOldestBlobFileNumber
    (PutVarint64 (oldest_blob_file_number f)) ++
  put_field (bool_decide (unique_id f <> kNullUniqueId64x2)) kUniqueId (EncodeUniqueIdBytes (unique_id f)) ++
  put_field (negb (compensated_range_deletion_size f =? 0)) kCompensatedRangeDeletionSize
    (PutVarint64 (compensated_range_deletion_size f)) ++
  put_field (negb (tail_size f =? 0)) kTailSize (PutVarint64 (tail_size f)) ++
  put_field (negb (user_defined_timestamps_persisted f)) kUserDefinedTimestampsPersisted [0] ++
  PutVarint32 kTerminate.

(** The second result is [min_log_num_written] afterwards. *)
Definition EncodeToNewFile4 (f : FileMetaData) (level : Z) (ts_sz : nat) (min_log : option Z)
    (min_log_num_written : bool) : list Z * bool :=
  (PutVarint32 kNewFile4 ++
   PutVarint32Varint64 (u32 level) (GetNumber f) ++
   PutVarint64 (file_size f) ++
   EncodeFileBoundaries f ts_sz ++
   PutVarint64Varint64 (smallest_seqno f) (largest_seqno f) ++
   encode_custom f min_log min_log_num_written,
   min_log_num_written || bool_decide (is_Some min_log)).

(** ** Reading *)

Definition Valid (key : list Z) : bool :=
  match Version.ParseInternalKey key with Some _ => true | None => false end.

Definition GetInternalKey (input : list Z) : option (list Z * list Z) :=
  '(str, rest) ← GetLengthPrefixedSlice input;
  if Valid str then Some (str, rest) else None.

(** The level and the largest level seen. *)
Definition GetLevel (max_level : Z) (input : list Z) : option (Z * Z * list Z) :=
  '(v, rest) ← GetVarint32 input;
  let level := i32 v in
  Some (level, if max_level <? level then level else max_level, rest).

(** [DecodeUniqueIdBytes] for an id of two words; [None] is [Status::NotSupported]. *)
Definition DecodeUniqueIdBytes (field : list Z) : option (Z * Z) :=
  if decide (length field = 16%nat)
  then Some (Version.DecodeFixed64 field, Version.DecodeFixed64 (drop 8 field))
  else None.

(** What the custom fields set. *)
Record Custom := mkCustom {
  path_id : Z;
  file : FileMetaData;
  min_log_number_to_keep : option Z;
}.

Definition on_file (g : FileMetaData -> FileMetaData) (c : Custom) : Custom :=
  mkCustom (path_id c) (g (file c)) (min_log_number_to_keep c).

(** A field that holds one variable-length integer. *)
Definition varint_field (msg : string) (field : list Z) (set : Z -> Custom) : string + Custom :=
  match GetVarint64 field with Some (v, _) => inr (set v) | None => inl msg end.

(** A field of one byte. *)
Definition byte_field (msg : string) (field : list Z) (k : Z -> string + Custom) : string + Custom :=
  match field with [b] => k b | _ => inl msg end.

(** The [switch] over the tag of a custom field. *)
Definition apply_field (tag : Z) (field : list Z) (c : Custom) : string + Custom :=
  if tag =? kPathId then
    byte_field "path_id field wrong size" field (fun b =>
      let p := u32 (char_of b) in
      if 3 <? p then inl "path_id wrong vaue"%string else inr (mkCustom p (file c) (min_log_number_to_keep c)))
  else if tag =? kOldestAncesterTime then
    varint_field "invalid oldest ancester time" field (fun v => on_file (set_ancester v) c)
  else if tag =? kFileCreationTime then
    varint_field "invalid file creation time" field (fun v => on_file (set_creation v) c)
  else if tag =? kEpochNumber then
    varint_field "invalid epoch number" field (fun v => on_file (set_epoch v) c)
  else if tag =? kFileChecksum then inr (on_file (set_checksum field) c)
  else if tag =? kFileChecksumFuncName then inr (on_file (set_func_name field) c)
  else if tag =? kNeedCompaction then
    byte_field "need_compaction field wrong size" field (fun b => inr (on_file (set_marked (b =? 1)) c))
  else if tag =? kMinLogNumberToKeepHack then
    match GetFixed64 field with
    | Some (v, _) => inr (mkCustom (path_id c) (file c) (Some v))
    | None => inl "deleted log number malformatted"%string
    end
  else if tag =? kOldestBlobFileNumber then
    varint_field "invalid oldest blob file number" field (fun v => on_file (set_oldest_blob v) c)
  else if tag =? kTemperature then
    byte_field "temperature field wrong size" field (fun b =>
      inr (if b <? kLastTemperature then on_file (set_temperature b) c else c))
  else if tag =? kUniqueId then
    match DecodeUniqueIdBytes field with
    | Some u => inr (on_file (set_unique_id u) c)
    | None => inl "invalid unique id"%string
    end
  else if tag =? kCompensatedRangeDeletionSize then
    varint_field "Invalid compensated range deletion size" field (fun v => on_file (set_compensated v) c)
  else if tag =? kTailSize then
    varint_field "invalid tail start offset" field (fun v => on_file (set_tail v) c)
  else if tag =? kUserDefinedTimestampsPersisted then
    byte_field "user-defined timestamps persisted field wrong size" field (fun b =>
      inr (on_file (set_persisted (b =? 1)) c))
  else if negb (Z.land tag kCustomTagNonSafeIgnoreMask =? 0)
  then inl "new-file4 custom field not supported"%string
  else inr c.

Definition read_custom (input : list Z) (c : Custom) : string + (Custom * list Z) :=
  read_tagged kTerminate "new-file4 custom field"%string
    "new-file4 custom field length prefixed slice error"%string apply_field input c.

(** The fixed part of an entry: level, number, size, boundaries and sequence numbers. *)
Definition read_fixed (max_level : Z) (input : list Z) :
    option (Z * Z * (Z * Z * list Z * list Z * Z * Z) * list Z) :=
  '(level, max_level', i1) ← GetLevel max_level input;
  '(number, i2) ← GetVarint64 i1;
  '(size, i3) ← GetVarint64 i2;
  '(k1, i4) ← GetInternalKey i3;
  '(k2, i5) ← GetInternalKey i4;
  '(lo, i6) ← GetVarint64 i5;
  '(hi, i7) ← GetVarint64 i6;
  Some (level, max_level', (number, size, k1, k2, lo, hi), i7).

(** The bytes after the entry, [max_level], the log number if one was read or set
    before, and the file with its level. *)
Definition DecodeNewFile4From (input : list Z) (max_level : Z) (min_log : option Z) :
    string + (list Z * Z * option Z * (Z * FileMetaData)) :=
  match read_fixed max_level input with
  | None => inl "new-file4 entry"%string
  | Some (level, max_level', (number, size, k1, k2, lo, hi), i7) =>
      match read_custom i7 (mkCustom 0 (set_bounds k1 k2 default_file) min_log) with
      | inl msg => inl msg
      | inr (c, rest) =>
          inr (rest, max_level', min_log_number_to_keep c,
               (level, set_fd (PackFileNumberAndPathId number (path_id c)) size lo hi (file c)))
      end
  end.

(** ** Round trip *)

Definition is_key (k : list Z) : Prop := is_slice k /\ Valid k = true.

#[global] Instance InternalKey_codec : Codec PutLengthPrefixedSlice GetInternalKey is_key.
Proof.
  intros k rest [Hk Hv]. unfold GetInternalKey. rewrite (get_put (put := PutLengthPrefixedSlice)) by done.
  cbn [mbind option_bind]. by rewrite Hv.
Qed.

(** The values of the members as their types have them; the boundaries are valid keys
    with room for the timestamp; a file without checksum function has no checksum. *)
Record is_file (ts_sz : nat) (f : FileMetaData) : Prop := {
  ok_packed : is_u64 (packed_number_and_path_id f);
  ok_size : is_u64 (file_size f);
  ok_smallest_seqno : is_u64 (smallest_seqno f);
  ok_largest_seqno : is_u64 (largest_seqno f);
  ok_smallest : is_key (boundary f ts_sz (smallest f));
  ok_largest : is_key (boundary f ts_sz (largest f));
  ok_temperature : 0 <= temperature f < kLastTemperature;
  ok_blob : is_u64 (oldest_blob_file_number f);
  ok_ancester : is_u64 (oldest_ancester_time f);
  ok_creation : is_u64 (file_creation_time f);
  ok_epoch : is_u64 (epoch_number f);
  ok_checksum : is_slice (file_checksum f);
  ok_func_name : is_slice (file_checksum_func_name f);
  ok_no_checksum : file_checksum_func_name f = kUnknownFileChecksumFuncName -> file_checksum f = kUnknownFileChecksum;
  ok_unique_id : is_u64 (unique_id f).1 /\ is_u64 (unique_id f).2;
  ok_compensated : is_u64 (compensated_range_deletion_size f);
  ok_tail : is_u64 (tail_size f);
}.

(** The file as it is read back. *)
Definition reloaded (ts_sz : nat) (f : FileMetaData) : FileMetaData :=
  set_bounds (boundary f ts_sz (smallest f)) (boundary f ts_sz (largest f)) f.

Lemma GetLevel_put max_level level rest : is_i32 level ->
  GetLevel max_level (PutVarint32 (u32 level) ++ rest) = Some (level, Z.max max_level level, rest).
Proof.
  intros Hl. unfold GetLevel. rewrite (get_put (put := PutVarint32)) by apply u32_range. cbn [mbind option_bind].
  rewrite i32_u32 by done. destruct (Z.ltb_spec max_level level); repeat f_equal; lia.
Qed.

Lemma packed_bounds f : is_u64 (packed_number_and_path_id f) ->
  0 <= GetNumber f < 2 ^ 62 /\ 0 <= GetPathId f < 4 /\
  PackFileNumberAndPathId (GetNumber f) (GetPathId f) = packed_number_and_path_id f.
Proof.
  unfold is_u64, u64_max, GetNumber, GetPathId, PackFileNumberAndPathId, kFileNumberMask. intros Hp.
  set (p := packed_number_and_path_id f) in *. change 0x3FFFFFFFFFFFFFFF with (Z.ones 62). rewrite Z.land_ones by lia.
  change (Z.ones 62 + 1) with (2 ^ 62). pose proof (Z.mod_pos_bound p (2 ^ 62) ltac:(lia)).
  assert (0 <= p / 2 ^ 62 < 4) by (split; [apply Z.div_pos; lia|apply Z.div_lt_upper_bound; lia]).
  rewrite u32_small by (unfold is_u32; lia). split; [lia|]. split; [lia|].
  rewrite u64_small by solve_u64. rewrite <- Z.shiftl_mul_pow2, lor_add by lia. pose proof (Z.div_mod p (2 ^ 62)). lia.
Qed.

Lemma varint_slice v : is_u64 v -> is_slice (PutVarint64 v).
Proof.
  intros Hv. destruct (EncodeVarint64_varint v Hv) as (n & Hn & Heq & _). unfold is_slice, PutVarint64. rewrite Heq.
  assert (forall n w, length (varint n w) = S n) as -> by (intros m; induction m; intros w; cbn; auto). lia.
Qed.

Lemma varint_field_put msg v set : is_u64 v -> varint_field msg (PutVarint64 v) set = inr (set v).
Proof. intros Hv. unfold varint_field. by rewrite (get_put_nil PutVarint64 GetVarint64 is_u64). Qed.

Lemma apply_path_id p c : 0 <= p < 4 ->
  apply_field kPathId [u8 p] c = inr (mkCustom p (file c) (min_log_number_to_keep c)).
Proof.
  intros Hp. unfold apply_field. rewrite Z.eqb_refl. cbn [byte_field]. unfold char_of.
  rewrite u8_small, (proj2 (Z.ltb_lt _ 128)), u32_small by (unfold is_u32; lia). cbv zeta.
  by rewrite (proj2 (Z.ltb_ge 3 _)) by lia.
Qed.

Lemma apply_temperature t c : 0 <= t < kLastTemperature ->
  apply_field kTemperature [u8 t] c = inr (on_file (set_temperature t) c).
Proof.
  unfold kLastTemperature. intros Ht. change (apply_field kTemperature [?b] ?c) with
    (inr (A := string) (if b <? kLastTemperature then on_file (set_temperature b) c else c)).
  by rewrite u8_small, (proj2 (Z.ltb_lt _ kLastTemperature)) by (unfold kLastTemperature; lia).
Qed.

Lemma apply_min_log m c : is_u64 m ->
  apply_field kMinLogNumberToKeepHack (PutFixed64 m) c = inr (mkCustom (path_id c) (file c) (Some m)).
Proof.
  intros Hm. change (apply_field kMinLogNumberToKeepHack ?x ?c) with (match GetFixed64 x with
    | Some (v, _) => inr (mkCustom (path_id c) (file c) (Some v)) | None => inl "deleted log number malformatted"%string end).
  by rewrite (get_put_nil PutFixed64 GetFixed64 is_u64).
Qed.

Lemma apply_unique_id u c : is_u64 u.1 -> is_u64 u.2 ->
  apply_field kUniqueId (EncodeUniqueIdBytes u) c = inr (on_file (set_unique_id u) c).
Proof.
  unfold is_u64, u64_max. intros H1 H2. change (apply_field kUniqueId ?x ?c) with (match DecodeUniqueIdBytes x with
    | Some u => inr (on_file (set_unique_id u) c) | None => inl "invalid unique id"%string end).
  unfold DecodeUniqueIdBytes, EncodeUniqueIdBytes, Version.EncodeFixed64, Version.DecodeFixed64.
  rewrite decide_True by (by rewrite length_app, !Version.encode_fixed_length).
  rewrite take_app_length', drop_app_length' by (by rewrite Version.encode_fixed_length).
  rewrite take_ge by (by rewrite Version.encode_fixed_length).
  rewrite !Version.decode_encode by (cbn; lia). by destruct u.
Qed.

Lemma fixed_slice v : is_slice (PutFixed64 v).
Proof. unfold is_slice, PutFixed64. rewrite Version.encode_fixed_length. lia. Qed.

(** Reads the next field of the goal with [g] as what it does. *)
Ltac field_step g :=
  match goal with |- context [read_custom (put_field ?b ?t ?fd ++ ?r) ?c] =>
    unfold read_custom at 1; rewrite (read_tagged_field _ _ _ _ b t fd r c (g c)); fold (read_custom r (g c));
      [|unfold is_u32; vm_compute; intuition congruence|done|..] end.

(** A field that is left out has its default value. *)
Ltac skipped := let Hb := fresh in intros Hb;
  rewrite ?negb_false_iff, ?Z.eqb_eq, ?bool_decide_eq_false in Hb; try apply dec_stable in Hb; by rewrite ?Hb.

(** The custom fields of a file set everything but the descriptor and the boundaries. *)
Lemma read_custom_file ts_sz f min_log written k1 k2 min_log' rest : is_file ts_sz f ->
  (forall m, min_log = Some m -> is_u64 m) ->
  read_custom (encode_custom f min_log written ++ rest) (mkCustom 0 (set_bounds k1 k2 default_file) min_log') =
  inr (mkCustom (GetPathId f) (set_fd 0 0 Version.kMaxSequenceNumber 0 (set_bounds k1 k2 f))
    (if bool_decide (is_Some min_log) && negb written then min_log else min_log'), rest).
Proof.
  intros Hf Hm. destruct (packed_bounds f (ok_packed _ _ Hf)) as (_ & Hpath & _). destruct Hf as [].
  unfold encode_custom. rewrite <- !app_assoc.
  field_step (on_file (set_ancester (oldest_ancester_time f))); [|by intros _; apply varint_slice|by intros _; apply varint_field_put|done].
  field_step (on_file (set_creation (file_creation_time f))); [|by intros _; apply varint_slice|by intros _; apply varint_field_put|done].
  field_step (on_file (set_epoch (epoch_number f))); [|by intros _; apply varint_slice|by intros _; apply varint_field_put|done].
  field_step (on_file (set_checksum (file_checksum f))); [|done|done|].
  2: { intros Hb%bool_decide_eq_false%dec_stable. by rewrite ok_no_checksum0. }
  field_step (on_file (set_func_name (file_checksum_func_name f))); [|done|done|skipped].
  field_step (fun c => mkCustom (GetPathId f) (file c) (min_log_number_to_keep c)); [|done|by intros _; apply apply_path_id|skipped].
  field_step (on_file (set_temperature (temperature f))); [|done|by intros _; apply apply_temperature|skipped].
  field_step (on_file (set_marked (marked_for_compaction f))); [|done|by intros ->|by intros ->].
  field_step (fun c => mkCustom (path_id c) (file c) (if bool_decide (is_Some min_log) && negb written then min_log else min_log'));
    [|by intros _; apply fixed_slice| |intros Hb; by rewrite Hb].
  2: { intros Hb. rewrite Hb. apply andb_true_iff in Hb as [[m Hs]%bool_decide_eq_true _]. rewrite Hs. by apply apply_min_log, Hm. }
  field_step (on_file (set_oldest_blob (oldest_blob_file_number f))); [|by intros _; apply varint_slice|by intros _; apply varint_field_put|skipped].
  field_step (on_file (set_unique_id (unique_id f))); [| |by intros _; apply apply_unique_id; apply ok_unique_id0|skipped].
  2: { intros _. unfold is_slice, EncodeUniqueIdBytes, Version.EncodeFixed64. rewrite length_app, !Version.encode_fixed_length. lia. }
  field_step (on_file (set_compensated (compensated_range_deletion_size f))); [|by intros _; apply varint_slice|by intros _; apply varint_field_put|skipped].
  field_step (on_file (set_tail (tail_size f))); [|by intros _; apply varint_slice|by intros _; apply varint_field_put|skipped].
  field_step (on_file (set_persisted (user_defined_timestamps_persisted f))); [|done|by intros ->%negb_true_iff|by intros ->%negb_false_iff].
  unfold read_custom. rewrite read_tagged_terminate by (by vm_compute). by destruct f.
Qed.

Lemma DecodeNewFile4_encode ts_sz f level min_log written max_level min_log' rest : is_file ts_sz f -> is_i32 level ->
  (forall m, min_log = Some m -> is_u64 m) ->
  exists body, (EncodeToNewFile4 f level ts_sz min_log written).1 = PutVarint32 kNewFile4 ++ body /\
    DecodeNewFile4From (body ++ rest) max_level min_log' =
    inr (rest, Z.max max_level level, if bool_decide (is_Some min_log) && negb written then min_log else min_log',
         (level, reloaded ts_sz f)).
Proof.
  intros Hf Hl Hm. eexists. split; [reflexivity|].
  destruct (packed_bounds f (ok_packed _ _ Hf)) as (Hnum & _ & Hpack).
  assert (is_u64 (GetNumber f)) as Hnum' by solve_u64.
  unfold DecodeNewFile4From, read_fixed, EncodeFileBoundaries, PutVarint32Varint64, PutVarint64Varint64.
  change EncodeVarint32 with PutVarint32. change EncodeVarint64 with PutVarint64. rewrite <- !app_assoc.
  rewrite GetLevel_put by done. cbn [mbind option_bind]. destruct Hf as [] eqn:HF.
  do 2 (rewrite (get_put (put := PutVarint64)) by done; cbn [mbind option_bind]).
  do 2 (rewrite (get_put (get := GetInternalKey)) by done; cbn [mbind option_bind]).
  do 2 (rewrite (get_put (put := PutVarint64)) by done; cbn [mbind option_bind]).
  rewrite (read_custom_file ts_sz) by done. cbn [path_id file min_log_number_to_keep]. rewrite Hpack. by destruct f.
Qed.

(** ** What is read is typed *)

(** The values of the members as their types have them, with valid boundaries. *)
Record typed_file (f : FileMetaData) : Prop := {
  ty_packed : is_u64 (packed_number_and_path_id f);
  ty_size : is_u64 (file_size f);
  ty_smallest_seqno : is_u64 (smallest_seqno f);
  ty_largest_seqno : is_u64 (largest_seqno f);
  ty_smallest : is_key (smallest f);
  ty_largest : is_key (largest f);
  ty_temperature : 0 <= temperature f < kLastTemperature;
  ty_blob : is_u64 (oldest_blob_file_number f);
  ty_ancester : is_u64 (oldest_ancester_time f);
  ty_creation : is_u64 (file_creation_time f);
  ty_epoch : is_u64 (epoch_number f);
  ty_checksum : is_slice (file_checksum f);
  ty_func_name : is_slice (file_checksum_func_name f);
  ty_unique_id : is_u64 (unique_id f).1 /\ is_u64 (unique_id f).2;
  ty_compensated : is_u64 (compensated_range_deletion_size f);
  ty_tail : is_u64 (tail_size f);
}.

Definition typed_custom (c : Custom) : Prop :=
  0 <= path_id c <= 3 /\ typed_file (file c) /\ (forall m, min_log_number_to_keep c = Some m -> is_u64 m).

Lemma pack_range n p : is_u64 n -> is_u64 (PackFileNumberAndPathId n p).
Proof.
  intros Hn. pose proof (u64_range (p * (kFileNumberMask + 1))) as Hp. unfold PackFileNumberAndPathId, is_u64, u64_max in *.
  pose proof (lor_range n (p *% (kFileNumberMask + 1)) 64). lia.
Qed.

Lemma default_file_typed k1 k2 : is_key k1 -> is_key k2 -> typed_file (set_bounds k1 k2 default_file).
Proof. intros H1 H2. constructor; try done; by vm_compute. Qed.

Lemma varint_field_inr msg field set c : varint_field msg field set = inr c -> exists v, is_u64 v /\ c = set v.
Proof.
  unfold varint_field. destruct (GetVarint64 field) as [[v r]|] eqn:H; [|done]. apply GetVarint64_range in H.
  intros [= <-]. by exists v.
Qed.

Lemma byte_field_inr msg field k c : byte_field msg field k = inr c -> exists b, field = [b] /\ k b = inr c.
Proof. unfold byte_field. destruct field as [|b [|]]; try done. by exists b. Qed.

Lemma on_file_typed g c : typed_custom c -> (typed_file (file c) -> typed_file (g (file c))) -> typed_custom (on_file g c).
Proof. intros (Hp & Hf & Hm) Hg. split; [done|split; [auto|done]]. Qed.

(** A file with one member replaced by a typed value. *)
Ltac typed_set := apply on_file_typed; [done|]; intros [];
  match goal with |- typed_file (_ _ ?f) => destruct f end; constructor; cbn in *; done.

Lemma apply_field_typed tag field c c' : is_bytes field -> is_slice field -> typed_custom c ->
  apply_field tag field c = inr c' -> typed_custom c'.
Proof.
  intros Hb Hs Hc H. unfold apply_field in H.
  repeat match type of H with (if ?a =? ?b then _ else _) = _ => destruct (a =? b) end;
    try (apply varint_field_inr in H as (v & Hv & ->); typed_set);
    try (apply byte_field_inr in H as (b & -> & H); apply Forall_cons in Hb as [Hb _]);
    try (injection H as <-; typed_set).
  - cbv zeta in H. destruct (Z.ltb_spec 3 (u32 (char_of b))); [done|]. simplify_eq.
    pose proof (u32_range (char_of b)) as Hr. unfold is_u32 in Hr. destruct Hc as (_ & Hf & Hm). split; [cbn; lia|done].
  - destruct (GetFixed64 field) as [[v r]|] eqn:Hg; [|done]. apply GetFixed64_range in Hg; [|done]. simplify_eq.
    destruct Hc as (Hp & Hf & Hm). split; [done|]. split; [done|]. cbn. congruence.
  - injection H as <-. destruct (Z.ltb_spec b kLastTemperature); [|done].
    assert (0 <= b < kLastTemperature) by lia. typed_set.
  - unfold DecodeUniqueIdBytes in H. destruct (decide _); [|done]. injection H as <-.
    assert (is_u64 (Version.DecodeFixed64 field)) by (by apply DecodeFixed64_range).
    assert (is_u64 (Version.DecodeFixed64 (drop 8 field))) by (by apply DecodeFixed64_range, Forall_drop). typed_set.
  - destruct (negb _); [done|]. by simplify_eq.
Qed.

Lemma GetInternalKey_key i k rest : is_bytes i -> GetInternalKey i = Some (k, rest) -> is_key k /\ is_bytes rest.
Proof.
  intros Hi. unfold GetInternalKey. destruct (GetLengthPrefixedSlice i) as [[s r]|] eqn:H; cbn [mbind option_bind]; [|done].
  destruct (Valid s) eqn:Hv; [|done]. intros [= <- <-]. split; [split; [|done]|].
  - by eapply GetLengthPrefixedSlice_slice.
  - by eapply GetLengthPrefixedSlice_bytes.
Qed.

Lemma GetLevel_level ml i level ml' rest : is_bytes i -> GetLevel ml i = Some (level, ml', rest) ->
  is_i32 level /\ is_bytes rest.
Proof.
  intros Hi. unfold GetLevel. destruct (GetVarint32 i) as [[v r]|] eqn:H; cbn [mbind option_bind]; [|done].
  intros [= <- <- <-]. split; [apply i32_range|by eapply GetVarint32_bytes].
Qed.

Lemma read_fixed_typed ml i level ml' n s k1 k2 lo hi rest : is_bytes i ->
  read_fixed ml i = Some (level, ml', (n, s, k1, k2, lo, hi), rest) ->
  is_i32 level /\ is_u64 n /\ is_u64 s /\ is_key k1 /\ is_key k2 /\ is_u64 lo /\ is_u64 hi /\ is_bytes rest.
Proof.
  intros Hi. unfold read_fixed.
  destruct (GetLevel ml i) as [[[l m] i1]|] eqn:H1; cbn [mbind option_bind]; [|done]. apply GetLevel_level in H1 as [? B1]; [|done].
  destruct (GetVarint64 i1) as [[? i2]|] eqn:H2; cbn [mbind option_bind]; [|done]. pose proof (GetVarint64_bytes _ _ _ B1 H2) as B2.
  destruct (GetVarint64 i2) as [[? i3]|] eqn:H3; cbn [mbind option_bind]; [|done]. pose proof (GetVarint64_bytes _ _ _ B2 H3) as B3.
  destruct (GetInternalKey i3) as [[? i4]|] eqn:H4; cbn [mbind option_bind]; [|done]. apply GetInternalKey_key in H4 as [? B4]; [|done].
  destruct (GetInternalKey i4) as [[? i5]|] eqn:H5; cbn [mbind option_bind]; [|done]. apply GetInternalKey_key in H5 as [? B5]; [|done].
  destruct (GetVarint64 i5) as [[? i6]|] eqn:H6; cbn [mbind option_bind]; [|done]. pose proof (GetVarint64_bytes _ _ _ B5 H6) as B6.
  destruct (GetVarint64 i6) as [[? i7]|] eqn:H7; cbn [mbind option_bind]; [|done]. pose proof (GetVarint64_bytes _ _ _ B6 H7) as B7.
  intros [= <- <- <- <- <- <- <- <- <-]. split_and!; eauto using GetVarint64_range.
Qed.

Lemma set_fd_typed p s lo hi f : is_u64 p -> is_u64 s -> is_u64 lo -> is_u64 hi -> typed_file f -> typed_file (set_fd p s lo hi f).
Proof. intros ???? []. destruct f. by constructor. Qed.

(** What the decoder of an entry returns. *)
Lemma DecodeNewFile4From_typed input ml min_log rest ml' min_log' level f : is_bytes input ->
  (forall m, min_log = Some m -> is_u64 m) -> DecodeNewFile4From input ml min_log = inr (rest, ml', min_log', (level, f)) ->
  is_i32 level /\ typed_file f /\ (forall m, min_log' = Some m -> is_u64 m) /\ is_bytes rest.
Proof.
  intros Hi Hm. unfold DecodeNewFile4From.
  destruct (read_fixed ml input) as [[[[l m] [[[[[n s] k1] k2] lo] hi]] r]|] eqn:H; [|done].
  apply read_fixed_typed in H as (Hl & Hn & Hs & Hk1 & Hk2 & Hlo & Hhi & Hr); [|done].
  destruct (read_custom r _) as [|[c q]] eqn:Hc; [done|]. intros [= -> -> <- -> <-].
  apply (tagged_loop_invariant _ _ _ _ typed_custom is_bytes (fun l => is_bytes l /\ is_slice l)) in Hc as [(Hp & Hf & Hm') Hq].
  - split_and!; try done. apply set_fd_typed; try done. by apply pack_range.
  - intros i t r0 Hb Hg. by eapply GetVarint32_bytes.
  - intros i field r0 Hb Hg. destruct (GetLengthPrefixedSlice_bytes _ _ _ Hb Hg). split_and!; try done.
    exact (GetLengthPrefixedSlice_slice _ _ _ Hb Hg).
  - intros t field c0 c1 Hc0 [Hb Hs']. by apply apply_field_typed.
  - split; [done|split; [by apply default_file_typed|done]].
  - done.
Qed.

End FileCodec.
