(* ===== verification/Progress.v ===== *)
(** * Subcompaction progress

    [SubcompactionProgress], [SubcompactionProgressPerLevel] and
    [SubcompactionProgressBuilder] of [db/version_edit.h] and [db/version_edit.cc]: the
    record of a compaction that can be resumed.  A level writes only the output files
    that were not persisted before; the builder joins the deltas of successive edits.
    Decoders return the value with the remaining bytes or the code of their [Status]. *)

From Stdlib Require Import ZArith Lia.
From stdpp Require Import base numbers list.
From S2P Require Import Prelude Coding FileCodec.

Import Coding.
Local Open Scope Z_scope.

Module Progress.

Record PerLevel := mkLevel {
  num_processed_output_records : Z;
  output_files : list FileCodec.FileMetaData;
  last_persisted_output_files_count : nat;
}.

Record SubcompactionProgress := mkProgress {
  next_internal_key_to_compact : list Z;
  num_processed_input_records : Z;
  output_level_progress : PerLevel;
  proximal_output_level_progress : PerLevel;
}.

Definition empty_level : PerLevel := mkLevel 0 [] 0.
Definition empty_progress : SubcompactionProgress := mkProgress [] 0 empty_level empty_level.

Definition AddToOutputFiles (f : FileCodec.FileMetaData) (l : PerLevel) : PerLevel :=
  mkLevel (num_processed_output_records l) (output_files l ++ [f]) (last_persisted_output_files_count l).

Definition SetNumProcessedOutputRecords (n : Z) (l : PerLevel) : PerLevel :=
  mkLevel n (output_files l) (last_persisted_output_files_count l).

Definition UpdateLastPersistedOutputFilesCount (l : PerLevel) : PerLevel :=
  mkLevel (num_processed_output_records l) (output_files l) (length (output_files l)).

(** ** Tags *)

Definition kLevelTerminate : Z := 1.
Definition kOutputFilesDelta : Z := 2.
Definition kNumProcessedOutputRecords : Z := 3.
Definition kProgressTerminate : Z := 1.
Definition kNextInternalKeyToCompact : Z := 2.
Definition kNumProcessedInputRecords : Z := 3.
Definition kOutputLevelProgress : Z := 4.
Definition kProximalOutputLevelProgress : Z := 5.
(** Both safe-ignore masks. *)
Definition kProgressSafeIgnoreMask : Z := Z.shiftl 1 16.

(** ** Writing *)

(** The files that were not persisted yet. *)
Definition new_output_files (l : PerLevel) : list FileCodec.FileMetaData :=
  drop (last_persisted_output_files_count l) (output_files l).

Definition encode_output_file (f : FileCodec.FileMetaData) : list Z :=
  (FileCodec.EncodeToNewFile4 f (-1) 0 None false).1.

Definition EncodeOutputFiles (l : PerLevel) : list Z :=
  PutVarint32 (u32 (Z.of_nat (length (new_output_files l)))) ++
  (new_output_files l ≫= fun f => PutLengthPrefixedSlice (encode_output_file f)).

Definition EncodePerLevel (l : PerLevel) : list Z :=
  put_field (0 <? num_processed_output_records l) kNumProcessedOutputRecords
    (PutVarint64 (num_processed_output_records l)) ++
  put_field (bool_decide (output_files l <> [])) kOutputFilesDelta (EncodeOutputFiles l) ++
  PutVarint32 kLevelTerminate.

Definition has_new_files (l : PerLevel) : bool :=
  bool_decide (last_persisted_output_files_count l < length (output_files l))%nat.

Definition EncodeProgress (p : SubcompactionProgress) : list Z :=
  put_field (bool_decide (next_internal_key_to_compact p <> [])) kNextInternalKeyToCompact
    (next_internal_key_to_compact p) ++
  put_field true kNumProcessedInputRecords (PutVarint64 (num_processed_input_records p)) ++
  put_field (has_new_files (output_level_progress p)) kOutputLevelProgress
    (EncodePerLevel (output_level_progress p)) ++
  put_field (has_new_files (proximal_output_level_progress p)) kProximalOutputLevelProgress
    (EncodePerLevel (proximal_output_level_progress p)) ++
  PutVarint32 kProgressTerminate.

(** ** Reading *)

(** The entry of an output file: its tag and the file behind it. *)
Definition decode_output_file (file_input : list Z) : option FileCodec.FileMetaData :=
  match GetVarint32 file_input with
  | Some (tag, i1) =>
      if tag =? FileCodec.kNewFile4
      then match FileCodec.DecodeNewFile4From i1 (-1) None with
           | inr (_, _, _, (_, f)) => Some f
           | inl _ => None
           end
      else None
  | None => None
  end.

(** The loop of [DecodeOutputFiles]; [None] is [Status::Corruption]. *)
Fixpoint output_files_loop (fuel : nat) (count : Z) (input : list Z) (files : list FileCodec.FileMetaData) :
    option (list FileCodec.FileMetaData) :=
  if count <=? 0 then Some files
  else match fuel with
       | O => None
       | S fuel' =>
           '(file_input, input1) ← GetLengthPrefixedSlice input;
           f ← decode_output_file file_input;
           output_files_loop fuel' (count - 1) input1 (files ++ [f])
       end.

Definition DecodeOutputFiles (input : list Z) (files : list FileCodec.FileMetaData) :
    option (list FileCodec.FileMetaData) :=
  '(new_file_count, input1) ← GetVarint32 input;
  output_files_loop (length input1) new_file_count input1 files.

Definition apply_level_field (tag : Z) (field : list Z) (l : PerLevel) : Status + PerLevel :=
  if tag =? kNumProcessedOutputRecords then
    match GetVarint64 field with
    | Some (v, _) => inr (SetNumProcessedOutputRecords v l)
    | None => inl Corruption
    end
  else if tag =? kOutputFilesDelta then
    match DecodeOutputFiles field (output_files l) with
    | Some files => inr (mkLevel (num_processed_output_records l) files (last_persisted_output_files_count l))
    | None => inl Corruption
    end
  else if negb (Z.land tag kProgressSafeIgnoreMask =? 0) then inr l
  else inl NotSupported.

Definition DecodePerLevel (input : list Z) : Status + (PerLevel * list Z) :=
  read_tagged kLevelTerminate Corruption Corruption apply_level_field input empty_level.

Definition apply_progress_field (tag : Z) (field : list Z) (p : SubcompactionProgress) : Status + SubcompactionProgress :=
  if tag =? kNextInternalKeyToCompact then
    inr (mkProgress field (num_processed_input_records p) (output_level_progress p) (proximal_output_level_progress p))
  else if tag =? kNumProcessedInputRecords then
    match GetVarint64 field with
    | Some (v, _) => inr (mkProgress (next_internal_key_to_compact p) v (output_level_progress p) (proximal_output_level_progress p))
    | None => inl Corruption
    end
  else if tag =? kOutputLevelProgress then
    match DecodePerLevel field with
    | inr (l, _) => inr (mkProgress (next_internal_key_to_compact p) (num_processed_input_records p) l (proximal_output_level_progress p))
    | inl e => inl e
    end
  else if tag =? kProximalOutputLevelProgress then
    match DecodePerLevel field with
    | inr (l, _) => inr (mkProgress (next_internal_key_to_compact p) (num_processed_input_records p) (output_level_progress p) l)
    | inl e => inl e
    end
  else if negb (Z.land tag kProgressSafeIgnoreMask =? 0) then inr p
  else inl NotSupported.

Definition DecodeProgress (input : list Z) : Status + (SubcompactionProgress * list Z) :=
  read_tagged kProgressTerminate Corruption Corruption apply_progress_field input empty_progress.

(** ** The builder *)

Definition MaybeMergeDeltaProgressPerLevel (accumulated delta : PerLevel) : PerLevel :=
  match output_files delta with
  | [] => accumulated
  | _ => SetNumProcessedOutputRecords (num_processed_output_records delta)
           (foldl (fun l f => AddToOutputFiles f l) accumulated (output_files delta))
  end.

Definition MergeDeltaProgress (accumulated delta : SubcompactionProgress) : SubcompactionProgress :=
  mkProgress (next_internal_key_to_compact delta) (num_processed_input_records delta)
    (MaybeMergeDeltaProgressPerLevel (output_level_progress accumulated) (output_level_progress delta))
    (MaybeMergeDeltaProgressPerLevel (proximal_output_level_progress accumulated) (proximal_output_level_progress delta)).

(** ** Round trip *)

Lemma is_slice_app a b : is_slice (a ++ b) -> is_slice a /\ is_slice b.
Proof. unfold is_slice. rewrite length_app. lia. Qed.

Lemma is_slice_field c tag field : is_slice (put_field c tag field) -> c = true -> is_slice field.
Proof. intros H ->. unfold put_field, PutLengthPrefixedSlice in H. by apply is_slice_app in H as [_ [_ H]%is_slice_app]. Qed.

Record is_level (l : PerLevel) : Prop := {
  ok_records : is_u64 (num_processed_output_records l);
  ok_files : Forall (FileCodec.is_file 0) (output_files l);
}.

(** The values of the members as their types have them, and an encoding that fits its
    length prefix. *)
Record is_progress (p : SubcompactionProgress) : Prop := {
  ok_input_records : is_u64 (num_processed_input_records p);
  ok_output : is_level (output_level_progress p);
  ok_proximal : is_level (proximal_output_level_progress p);
  ok_length : is_slice (EncodeProgress p);
}.

(** What is read back of a level and of a progress: the delta since the last time. *)
Definition reloaded_level (l : PerLevel) : PerLevel :=
  if has_new_files l then mkLevel (num_processed_output_records l) (new_output_files l) 0 else empty_level.

Definition reloaded_progress (p : SubcompactionProgress) : SubcompactionProgress :=
  mkProgress (next_internal_key_to_compact p) (num_processed_input_records p)
    (reloaded_level (output_level_progress p)) (reloaded_level (proximal_output_level_progress p)).

Lemma decode_encode_output_file f : FileCodec.is_file 0 f -> decode_output_file (encode_output_file f) = Some f.
Proof.
  intros Hf. destruct (FileCodec.DecodeNewFile4_encode 0 f (-1) None false (-1) None [] Hf) as (body & Heq & Hdec); [by unfold is_i32|done|].
  unfold decode_output_file, encode_output_file. rewrite Heq, (get_put (put := PutVarint32)) by (by vm_compute).
  rewrite Z.eqb_refl. rewrite app_nil_r in Hdec. rewrite Hdec. by destruct f.
Qed.

Lemma output_files_loop_encode fs : forall fuel rest acc, Forall (FileCodec.is_file 0) fs ->
  is_slice (fs ≫= fun f => PutLengthPrefixedSlice (encode_output_file f)) -> (length fs <= fuel)%nat ->
  output_files_loop fuel (Z.of_nat (length fs)) ((fs ≫= fun f => PutLengthPrefixedSlice (encode_output_file f)) ++ rest) acc =
  Some (acc ++ fs).
Proof.
  induction fs as [|f fs IH]; intros fuel rest acc Hfs Hs Hfuel.
  - cbn. destruct fuel; cbn [output_files_loop]; by rewrite ?app_nil_r.
  - apply Forall_cons in Hfs as [Hf Hfs]. rewrite bind_cons in Hs |- *. apply is_slice_app in Hs as [Hs1 Hs2].
    unfold PutLengthPrefixedSlice in Hs1. apply is_slice_app in Hs1 as [_ Hs1].
    destruct fuel as [|fuel]; cbn [length] in Hfuel; [lia|]. cbn [output_files_loop length].
    rewrite (proj2 (Z.leb_gt _ _)) by lia. rewrite <- app_assoc, (get_put (put := PutLengthPrefixedSlice)) by done.
    cbn [mbind option_bind]. rewrite decode_encode_output_file by done. cbn [mbind option_bind].
    replace (Z.of_nat (S (length fs)) - 1) with (Z.of_nat (length fs)) by lia. rewrite IH by (done || lia).
    by rewrite <- app_assoc.
Qed.

Lemma bind_length_ge {A} (g : A -> list Z) l : (forall a, 0 < length (g a))%nat -> (length l <= length (l ≫= g))%nat.
Proof. intros Hg. induction l as [|a l IH]; [done|]. rewrite bind_cons, length_app. cbn [length]. specialize (Hg a). lia. Qed.

Lemma DecodeOutputFiles_encode l : Forall (FileCodec.is_file 0) (new_output_files l) -> is_slice (EncodeOutputFiles l) ->
  DecodeOutputFiles (EncodeOutputFiles l) [] = Some (new_output_files l).
Proof.
  intros Hf Hs. unfold EncodeOutputFiles, DecodeOutputFiles in *. apply is_slice_app in Hs as [_ Hs].
  rewrite (get_put (put := PutVarint32)) by apply u32_range. cbn [mbind option_bind].
  assert (length (new_output_files l) <= length (new_output_files l ≫= fun f => PutLengthPrefixedSlice (encode_output_file f)))%nat as Hlen.
  { apply bind_length_ge. intros f. unfold PutLengthPrefixedSlice, PutVarint32. rewrite length_app.
    destruct (EncodeVarint32_varint _ (u32_range (Z.of_nat (length (encode_output_file f))))) as (n & _ & -> & _). destruct n; cbn; lia. }
  rewrite u32_small by (unfold is_slice in Hs; unfold is_u32; lia).
  pose proof (output_files_loop_encode (new_output_files l) (length (new_output_files l ≫= fun f => PutLengthPrefixedSlice (encode_output_file f))) [] [] Hf Hs Hlen) as H.
  by rewrite app_nil_r in H.
Qed.

(** Reads the next field of the goal with [g] as what it does. *)
Ltac tagged_step g :=
  match goal with |- context [read_tagged ?t ?a ?b ?ap (put_field ?c ?tag ?fd ++ ?r) ?s] =>
    rewrite (read_tagged_field t a b ap c tag fd r s (g s)); [|unfold is_u32; vm_compute; intuition congruence|done|..] end.

Lemma DecodePerLevel_encode l : is_level l -> has_new_files l = true -> is_slice (EncodePerLevel l) ->
  DecodePerLevel (EncodePerLevel l) = inr (reloaded_level l, []).
Proof.
  intros [Hn Hf] Hnew Hs. pose proof Hnew as Hlt%bool_decide_eq_true. unfold reloaded_level. rewrite Hnew.
  assert (output_files l <> []) as Hne by (intros E; rewrite E in Hlt; cbn in Hlt; lia).
  unfold EncodePerLevel in *. rewrite (bool_decide_eq_true_2 (output_files l <> []) Hne) in Hs |- *.
  apply is_slice_app in Hs as [_ [Hs _]%is_slice_app]. apply is_slice_field in Hs; [|done]. unfold DecodePerLevel.
  rewrite <- (app_nil_r (PutVarint32 kLevelTerminate)).
  tagged_step (SetNumProcessedOutputRecords (num_processed_output_records l)); [|by intros _; apply FileCodec.varint_slice| |].
  2: { intros _. cbn [apply_level_field]. unfold apply_level_field. by rewrite (get_put_nil PutVarint64 GetVarint64 is_u64). }
  2: { intros Hb%Z.ltb_ge. unfold is_u64 in Hn. by replace (num_processed_output_records l) with 0 by lia. }
  tagged_step (fun s => mkLevel (num_processed_output_records s) (new_output_files l) 0); [|done| |done].
  2: { intros _. change (apply_level_field kOutputFilesDelta ?x ?s) with (match DecodeOutputFiles x (output_files s) with
        | Some files => inr (A := Status) (mkLevel (num_processed_output_records s) files (last_persisted_output_files_count s)) | None => inl Corruption end).
       cbn [SetNumProcessedOutputRecords output_files empty_level].
       by rewrite DecodeOutputFiles_encode by (done || by apply Forall_drop). }
  by rewrite read_tagged_terminate by (by vm_compute).
Qed.

(** The field of a level in a progress. *)
Lemma level_field l : is_level l -> (has_new_files l = true -> is_slice (EncodePerLevel l)) ->
  (has_new_files l = true -> DecodePerLevel (EncodePerLevel l) = inr (reloaded_level l, [])) /\
  (has_new_files l = false -> reloaded_level l = empty_level).
Proof. intros Hl Hs. split; [intros H; auto using DecodePerLevel_encode|]. unfold reloaded_level. by intros ->. Qed.

Lemma DecodeProgress_encode p rest : is_progress p -> DecodeProgress (EncodeProgress p ++ rest) = inr (reloaded_progress p, rest).
Proof.
  intros [Hn Ho Hp Hs]. unfold EncodeProgress in *. rewrite <- !app_assoc.
  apply is_slice_app in Hs as [Hs1 Hs]. apply is_slice_app in Hs as [_ Hs].
  apply is_slice_app in Hs as [Hs3 Hs]. apply is_slice_app in Hs as [Hs4 _].
  pose proof (is_slice_field _ _ _ Hs1) as H1.
  pose proof (is_slice_field _ _ _ Hs3) as H3. pose proof (is_slice_field _ _ _ Hs4) as H4.
  destruct (level_field _ Ho H3) as [Ho1 Ho2], (level_field _ Hp H4) as [Hp1 Hp2]. unfold DecodeProgress.
  set (nk := next_internal_key_to_compact p) in *. set (ni := num_processed_input_records p) in *.
  tagged_step (fun s => mkProgress nk (num_processed_input_records s) (output_level_progress s) (proximal_output_level_progress s));
    [|done|done|intros Hb%bool_decide_eq_false%dec_stable; by rewrite Hb].
  tagged_step (fun s => mkProgress (next_internal_key_to_compact s) ni (output_level_progress s) (proximal_output_level_progress s));
    [|by intros _; apply FileCodec.varint_slice| |done].
  2: { intros _. unfold apply_progress_field. by rewrite (get_put_nil PutVarint64 GetVarint64 is_u64). }
  tagged_step (fun s => mkProgress (next_internal_key_to_compact s) (num_processed_input_records s)
    (reloaded_level (output_level_progress p)) (proximal_output_level_progress s)); [|done| |intros Hb; by rewrite Ho2].
  2: { intros Hb. unfold apply_progress_field. by rewrite Ho1. }
  tagged_step (fun s => mkProgress (next_internal_key_to_compact s) (num_processed_input_records s)
    (output_level_progress s) (reloaded_level (proximal_output_level_progress p))); [|done| |intros Hb; by rewrite Hp2].
  2: { intros Hb. unfold apply_progress_field. by rewrite Hp1. }
  by rewrite read_tagged_terminate by (by vm_compute).
Qed.

(** ** Joining the deltas *)

Lemma foldl_AddToOutputFiles fs l :
  foldl (fun l f => AddToOutputFiles f l) l fs =
  mkLevel (num_processed_output_records l) (output_files l ++ fs) (last_persisted_output_files_count l).
Proof.
  revert l. induction fs as [|f fs IH]; intros l; cbn [foldl]; [rewrite app_nil_r; by destruct l|].
  rewrite IH. cbn. by rewrite <- app_assoc.
Qed.

(** A level as the compaction job changes it between two edits: it appends files, sets
    the number of records, and writes an edit. *)
Inductive level_event := Produced (f : FileCodec.FileMetaData) | Counted (n : Z) | Persisted.

(** The level in memory and the one the builder joins from the edits. *)
Definition level_step (e : level_event) (s : PerLevel * PerLevel) : PerLevel * PerLevel :=
  let (l, acc) := s in
  match e with
  | Produced f => (AddToOutputFiles f l, acc)
  | Counted n => (SetNumProcessedOutputRecords n l, acc)
  | Persisted => (UpdateLastPersistedOutputFilesCount l, MaybeMergeDeltaProgressPerLevel acc (reloaded_level l))
  end.

Definition level_run (es : list level_event) : PerLevel * PerLevel :=
  foldl (fun s e => level_step e s) (empty_level, empty_level) es.

(** The files of the builder are the persisted files of the level in memory. *)
Lemma level_run_files es : let s := level_run es in
  output_files s.2 = take (last_persisted_output_files_count s.1) (output_files s.1) /\
  (last_persisted_output_files_count s.1 <= length (output_files s.1))%nat.
Proof.
  cbv zeta. unfold level_run. induction es as [|e es IH] using rev_ind; [by vm_compute|].
  rewrite foldl_app. cbn [foldl]. destruct (foldl _ _ es) as [l acc]. cbn [fst snd] in IH. destruct IH as [IH Hle].
  destruct e as [f|n|]; cbn [level_step fst snd].
  - cbn. rewrite take_app_le, length_app by done. split; [done|lia].
  - done.
  - cbn [UpdateLastPersistedOutputFilesCount output_files last_persisted_output_files_count]. rewrite firstn_all. split; [|lia].
    unfold MaybeMergeDeltaProgressPerLevel, reloaded_level, has_new_files. case_bool_decide as Hlt.
    + cbn [output_files num_processed_output_records]. rewrite foldl_AddToOutputFiles. unfold new_output_files.
      destruct (drop _ _) eqn:Hd; [apply (f_equal length) in Hd; rewrite length_drop in Hd; cbn in Hd; lia|].
      cbn [SetNumProcessedOutputRecords output_files]. rewrite IH, <- Hd. apply take_drop.
    + cbn. rewrite IH. apply take_ge. lia.
Qed.

(** ** What is read is typed *)

Record typed_level (l : PerLevel) : Prop := {
  ty_records : is_u64 (num_processed_output_records l);
  ty_files : Forall FileCodec.typed_file (output_files l);
}.

Record typed_progress (p : SubcompactionProgress) : Prop := {
  ty_input_records : is_u64 (num_processed_input_records p);
  ty_output : typed_level (output_level_progress p);
  ty_proximal : typed_level (proximal_output_level_progress p);
}.

Lemma decode_output_file_typed i f : is_bytes i -> decode_output_file i = Some f -> FileCodec.typed_file f.
Proof.
  intros Hi. unfold decode_output_file. destruct (GetVarint32 i) as [[t r]|] eqn:H; [|done]. apply GetVarint32_bytes in H; [|done].
  destruct (_ =? _); [|done]. destruct (FileCodec.DecodeNewFile4From r (-1) None) as [|[[[? ?] ?] [? ?]]] eqn:H2; [done|].
  apply FileCodec.DecodeNewFile4From_typed in H2 as (_ & Hf & _); [|done|done]. by intros [= <-].
Qed.

Lemma output_files_loop_typed fuel : forall count i files files', is_bytes i -> Forall FileCodec.typed_file files ->
  output_files_loop fuel count i files = Some files' -> Forall FileCodec.typed_file files'.
Proof.
  induction fuel as [|fuel IH]; intros count i files files' Hi Hf; cbn [output_files_loop]; (destruct (count <=? 0); [by intros [= <-]|]); [done|].
  destruct (GetLengthPrefixedSlice i) as [[s r]|] eqn:H; cbn [mbind option_bind]; [|done].
  destruct (GetLengthPrefixedSlice_bytes _ _ _ Hi H) as [Bs Br].
  destruct (decode_output_file s) as [f|] eqn:H2; cbn [mbind option_bind]; [|done]. apply decode_output_file_typed in H2; [|done].
  apply IH; [done|]. apply Forall_app. split; [done|]. by constructor.
Qed.

Lemma apply_level_field_typed tag field l l' : is_bytes field -> typed_level l -> apply_level_field tag field l = inr l' -> typed_level l'.
Proof.
  intros Hb [Hn Hf]. unfold apply_level_field. destruct (_ =? _).
  { destruct (GetVarint64 field) as [[v r]|] eqn:H; [|done]. apply GetVarint64_range in H. by intros [= <-]. }
  destruct (_ =? _); [|destruct (negb _); [by intros [= <-]|done]].
  destruct (DecodeOutputFiles field _) as [fs|] eqn:H; [|done]. intros [= <-]. constructor; [done|]. cbn. unfold DecodeOutputFiles in H.
  destruct (GetVarint32 field) as [[c r]|] eqn:H1; cbn [mbind option_bind] in H; [|done]. apply GetVarint32_bytes in H1; [|done].
  by eapply output_files_loop_typed.
Qed.

(** The shape of both decoders. *)
Lemma read_tagged_typed {A} terminate apply (P : A -> Prop) i s s' rest : is_bytes i -> P s ->
  (forall tag field s s', is_bytes field -> P s -> apply tag field s = inr s' -> P s') ->
  read_tagged terminate Corruption Corruption apply i s = inr (s', rest) -> P s'.
Proof.
  intros Hi Hs Ha H. refine (proj1 (tagged_loop_invariant _ _ _ _ P is_bytes is_bytes _ _ _ _ _ _ _ _ Hs Hi H)).
  - intros ???. apply GetVarint32_bytes.
  - intros ???. apply GetLengthPrefixedSlice_bytes.
  - eauto.
Qed.

Lemma empty_level_typed : typed_level empty_level.
Proof. by constructor; [vm_compute|constructor]. Qed.

Lemma DecodePerLevel_typed i l rest : is_bytes i -> DecodePerLevel i = inr (l, rest) -> typed_level l.
Proof. intros Hi. apply read_tagged_typed; [done|apply empty_level_typed|apply apply_level_field_typed]. Qed.

Lemma DecodeProgress_typed i q rest : is_bytes i -> DecodeProgress i = inr (q, rest) -> typed_progress q.
Proof.
  intros Hi. apply read_tagged_typed; [done|by constructor; [vm_compute|apply empty_level_typed..]|].
  intros tag field s s' Hb [Hn Ho Hp]. unfold apply_progress_field.
  destruct (_ =? _); [by intros [= <-]|]. destruct (_ =? _).
  { destruct (GetVarint64 field) as [[v r]|] eqn:H; [|done]. apply GetVarint64_range in H. by intros [= <-]. }
  destruct (_ =? _); [|destruct (_ =? _); [|destruct (negb _); [by intros [= <-]|done]]];
    (destruct (DecodePerLevel field) as [|[l r]] eqn:H; [done|]; apply DecodePerLevel_typed in H; [|done]; by intros [= <-]).
Qed.

End Progress.
