(* ===== verification/EditCodec.v ===== *)
(** * Version edits in the MANIFEST

    [VersionEdit] of [db/version_edit.h] with [VersionEdit::EncodeTo] and
    [VersionEdit::DecodeFrom] of [db/version_edit.cc].  A member with a [has_] flag is an
    [option]; [max_level_] and [files_to_quarantine_] are members that are not written;
    the dummy flag, which only marks edits that are never written, is left out.  The
    deleted files are the ascending list of the [std::set].  [EncodeTo] gives [None]
    where the code returns false, and where it has new files but no timestamp size.
    [DecodeFrom] gives the code of its [Status] or the edit; the messages of the errors
    are left out. *)

From Stdlib Require Import ZArith Lia.
From stdpp Require Import base numbers list sorting sets.
From S2P Require Import Prelude Version Coding WalEdit FileCodec Progress.

Import Coding.
Local Open Scope Z_scope.

Module EditCodec.

Record VersionEdit := mkEdit {
  max_level : Z;
  db_id : option (list Z);
  comparator : option (list Z);
  log_number : option Z;
  prev_log_number : option Z;
  next_file_number : option Z;
  max_column_family : option Z;
  min_log_number_to_keep : option Z;
  last_sequence : option Z;
  compact_cursors : list (Z * list Z);
  deleted_files : list (Z * Z);
  new_files : list (Z * FileCodec.FileMetaData);
  blob_file_additions : list WalEdit.BlobFileAddition;
  blob_file_garbages : list WalEdit.BlobFileGarbage;
  wal_additions : list WalEdit.WalAddition;
  wal_deletion : Z;
  column_family : Z;
  column_family_add : option (list Z);
  column_family_drop : bool;
  atomic_group : option Z;
  full_history_ts_low : list Z;
  persist_user_defined_timestamps : option bool;
  subcompaction_progress : option Progress.SubcompactionProgress;
  files_to_quarantine : list Z;
}.

(** Assignments to single members. *)
Definition set_max_level (x : Z) (e : VersionEdit) : VersionEdit :=
  let '(mkEdit _ di co ln pl nf mc mk ls cc df fs ba bg wa wd cf ca cd ag ft pu sp fq) := e in
  mkEdit x di co ln pl nf mc mk ls cc df fs ba bg wa wd cf ca cd ag ft pu sp fq.
Definition set_db_id (x : option (list Z)) (e : VersionEdit) : VersionEdit :=
  let '(mkEdit ml _ co ln pl nf mc mk ls cc df fs ba bg wa wd cf ca cd ag ft pu sp fq) := e in
  mkEdit ml x co ln pl nf mc mk ls cc df fs ba bg wa wd cf ca cd ag ft pu sp fq.
Definition set_comparator (x : option (list Z)) (e : VersionEdit) : VersionEdit :=
  let '(mkEdit ml di _ ln pl nf mc mk ls cc df fs ba bg wa wd cf ca cd ag ft pu sp fq) := e in
  mkEdit ml di x ln pl nf mc mk ls cc df fs ba bg wa wd cf ca cd ag ft pu sp fq.
Definition set_log_number (x : option Z) (e : VersionEdit) : VersionEdit :=
  let '(mkEdit ml di co _ pl nf mc mk ls cc df fs ba bg wa wd cf ca cd ag ft pu sp fq) := e in
  mkEdit ml di co x pl nf mc mk ls cc df fs ba bg wa wd cf ca cd ag ft pu sp fq.
Definition set_prev_log_number (x : option Z) (e : VersionEdit) : VersionEdit :=
  let '(mkEdit ml di co ln _ nf mc mk ls cc df fs ba bg wa wd cf ca cd ag ft pu sp fq) := e in
  mkEdit ml di co ln x nf mc mk ls cc df fs ba bg wa wd cf ca cd ag ft pu sp fq.
Definition set_next_file_number (x : option Z) (e : VersionEdit) : VersionEdit :=
  let '(mkEdit ml di co ln pl _ mc mk ls cc df fs ba bg wa wd cf ca cd ag ft pu sp fq) := e in
  mkEdit ml di co ln pl x mc mk ls cc df fs ba bg wa wd cf ca cd ag ft pu sp fq.
Definition set_max_column_family (x : option Z) (e : VersionEdit) : VersionEdit :=
  let '(mkEdit ml di co ln pl nf _ mk ls cc df fs ba bg wa wd cf ca cd ag ft pu sp fq) := e in
  mkEdit ml di co ln pl nf x mk ls cc df fs ba bg wa wd cf ca cd ag ft pu sp fq.
Definition set_min_log_number_to_keep (x : option Z) (e : VersionEdit) : VersionEdit :=
  let '(mkEdit ml di co ln pl nf mc _ ls cc df fs ba bg wa wd cf ca cd ag ft pu sp fq) := e in
  mkEdit ml di co ln pl nf mc x ls cc df fs ba bg wa wd cf ca cd ag ft pu sp fq.
Definition set_last_sequence (x : option Z) (e : VersionEdit) : VersionEdit :=
  let '(mkEdit ml di co ln pl nf mc mk _ cc df fs ba bg wa wd cf ca cd ag ft pu sp fq) := e in
  mkEdit ml di co ln pl nf mc mk x cc df fs ba bg wa wd cf ca cd ag ft pu sp fq.
Definition set_compact_cursors (x : list (Z * list Z)) (e : VersionEdit) : VersionEdit :=
  let '(mkEdit ml di co ln pl nf mc mk ls _ df fs ba bg wa wd cf ca cd ag ft pu sp fq) := e in
  mkEdit ml di co ln pl nf mc mk ls x df fs ba bg wa wd cf ca cd ag ft pu sp fq.
Definition set_deleted_files (x : list (Z * Z)) (e : VersionEdit) : VersionEdit :=
  let '(mkEdit ml di co ln pl nf mc mk ls cc _ fs ba bg wa wd cf ca cd ag ft pu sp fq) := e in
  mkEdit ml di co ln pl nf mc mk ls cc x fs ba bg wa wd cf ca cd ag ft pu sp fq.
Definition set_new_files (x : list (Z * FileCodec.FileMetaData)) (e : VersionEdit) : VersionEdit :=
  let '(mkEdit ml di co ln pl nf mc mk ls cc df _ ba bg wa wd cf ca cd ag ft pu sp fq) := e in
  mkEdit ml di co ln pl nf mc mk ls cc df x ba bg wa wd cf ca cd ag ft pu sp fq.
Definition set_blob_file_additions (x : list WalEdit.BlobFileAddition) (e : VersionEdit) : VersionEdit :=
  let '(mkEdit ml di co ln pl nf mc mk ls cc df fs _ bg wa wd cf ca cd ag ft pu sp fq) := e in
  mkEdit ml di co ln pl nf mc mk ls cc df fs x bg wa wd cf ca cd ag ft pu sp fq.
Definition set_blob_file_garbages (x : list WalEdit.BlobFileGarbage) (e : VersionEdit) : VersionEdit :=
  let '(mkEdit ml di co ln pl nf mc mk ls cc df fs ba _ wa wd cf ca cd ag ft pu sp fq) := e in
  mkEdit ml di co ln pl nf mc mk ls cc df fs ba x wa wd cf ca cd ag ft pu sp fq.
Definition set_wal_additions (x : list WalEdit.WalAddition) (e : VersionEdit) : VersionEdit :=
  let '(mkEdit ml di co ln pl nf mc mk ls cc df fs ba bg _ wd cf ca cd ag ft pu sp fq) := e in
  mkEdit ml di co ln pl nf mc mk ls cc df fs ba bg x wd cf ca cd ag ft pu sp fq.
Definition set_wal_deletion (x : Z) (e : VersionEdit) : VersionEdit :=
  let '(mkEdit ml di co ln pl nf mc mk ls cc df fs ba bg wa _ cf ca cd ag ft pu sp fq) := e in
  mkEdit ml di co ln pl nf mc mk ls cc df fs ba bg wa x cf ca cd ag ft pu sp fq.
Definition set_column_family (x : Z) (e : VersionEdit) : VersionEdit :=
  let '(mkEdit ml di co ln pl nf mc mk ls cc df fs ba bg wa wd _ ca cd ag ft pu sp fq) := e in
  mkEdit ml di co ln pl nf mc mk ls cc df fs ba bg wa wd x ca cd ag ft pu sp fq.
Definition set_column_family_add (x : option (list Z)) (e : VersionEdit) : VersionEdit :=
  let '(mkEdit ml di co ln pl nf mc mk ls cc df fs ba bg wa wd cf _ cd ag ft pu sp fq) := e in
  mkEdit ml di co ln pl nf mc mk ls cc df fs ba bg wa wd cf x cd ag ft pu sp fq.
Definition set_column_family_drop (x : bool) (e : VersionEdit) : VersionEdit :=
  let '(mkEdit ml di co ln pl nf mc mk ls cc df fs ba bg wa wd cf ca _ ag ft pu sp fq) := e in
  mkEdit ml di co ln pl nf mc mk ls cc df fs ba bg wa wd cf ca x ag ft pu sp fq.
Definition set_atomic_group (x : option Z) (e : VersionEdit) : VersionEdit :=
  let '(mkEdit ml di co ln pl nf mc mk ls cc df fs ba bg wa wd cf ca cd _ ft pu sp fq) := e in
  mkEdit ml di co ln pl nf mc mk ls cc df fs ba bg wa wd cf ca cd x ft pu sp fq.
Definition set_full_history_ts_low (x : list Z) (e : VersionEdit) : VersionEdit :=
  let '(mkEdit ml di co ln pl nf mc mk ls cc df fs ba bg wa wd cf ca cd ag _ pu sp fq) := e in
  mkEdit ml di co ln pl nf mc mk ls cc df fs ba bg wa wd cf ca cd ag x pu sp fq.
Definition set_persist_user_defined_timestamps (x : option bool) (e : VersionEdit) : VersionEdit :=
  let '(mkEdit ml di co ln pl nf mc mk ls cc df fs ba bg wa wd cf ca cd ag ft _ sp fq) := e in
  mkEdit ml di co ln pl nf mc mk ls cc df fs ba bg wa wd cf ca cd ag ft x sp fq.
Definition set_subcompaction_progress (x : option Progress.SubcompactionProgress) (e : VersionEdit) : VersionEdit :=
  let '(mkEdit ml di co ln pl nf mc mk ls cc df fs ba bg wa wd cf ca cd ag ft pu _ fq) := e in
  mkEdit ml di co ln pl nf mc mk ls cc df fs ba bg wa wd cf ca cd ag ft pu x fq.
Definition set_files_to_quarantine (x : list Z) (e : VersionEdit) : VersionEdit :=
  let '(mkEdit ml di co ln pl nf mc mk ls cc df fs ba bg wa wd cf ca cd ag ft pu sp _) := e in
  mkEdit ml di co ln pl nf mc mk ls cc df fs ba bg wa wd cf ca cd ag ft pu sp x.

(** [VersionEdit()], which [Clear] assigns. *)
Definition empty_edit : VersionEdit :=
  mkEdit 0 None None None None None None None None [] [] [] [] [] [] WalEdit.kEmptyWalDeletion 0 None false
    None [] None None [].

(** ** Building an edit *)

Definition pair_ltb (a b : Z * Z) : bool := (a.1 <? b.1) || ((a.1 =? b.1) && (a.2 <? b.2)).

(** Insertion into [std::set<std::pair<int, uint64_t>>]. *)
Fixpoint set_insert (x : Z * Z) (l : list (Z * Z)) : list (Z * Z) :=
  match l with
  | [] => [x]
  | y :: l' => if pair_ltb x y then x :: l else if pair_ltb y x then y :: set_insert x l' else l
  end.

Definition DeleteFile (level file : Z) (e : VersionEdit) : VersionEdit :=
  set_deleted_files (set_insert (level, file) (deleted_files e)) e.

Definition AddFile (level : Z) (f : FileCodec.FileMetaData) (e : VersionEdit) : VersionEdit :=
  let e1 := set_new_files (new_files e ++ [(level, f)]) e in
  let e2 := set_files_to_quarantine (files_to_quarantine e1 ++ [FileCodec.GetNumber f]) e1 in
  match last_sequence e2 with
  | Some s => if s <? FileCodec.largest_seqno f then set_last_sequence (Some (FileCodec.largest_seqno f)) e2 else e2
  | None => set_last_sequence (Some (FileCodec.largest_seqno f)) e2
  end.

Definition AddBlobFile (b : WalEdit.BlobFileAddition) (e : VersionEdit) : VersionEdit :=
  let e1 := set_blob_file_additions (blob_file_additions e ++ [b]) e in
  set_files_to_quarantine (files_to_quarantine e1 ++ [WalEdit.blob_file_number b]) e1.

Definition AddBlobFileGarbage (b : WalEdit.BlobFileGarbage) (e : VersionEdit) : VersionEdit :=
  set_blob_file_garbages (blob_file_garbages e ++ [b]) e.

Definition AddWal (w : WalEdit.WalAddition) (e : VersionEdit) : VersionEdit :=
  set_wal_additions (wal_additions e ++ [w]) e.

(** Only valid cursors are kept. *)
Definition SetCompactCursors (by_level : list (list Z)) (e : VersionEdit) : VersionEdit :=
  set_compact_cursors
    (filter (fun c => FileCodec.Valid c.2 = true) (imap (fun i k => (Z.of_nat i, k)) by_level)) e.

(** ** Tags *)

Definition kComparator : Z := 1.
Definition kLogNumber : Z := 2.
Definition kNextFileNumber : Z := 3.
Definition kLastSequence : Z := 4.
Definition kCompactCursor : Z := 5.
Definition kDeletedFile : Z := 6.
Definition kNewFile : Z := 7.
Definition kPrevLogNumber : Z := 9.
Definition kMinLogNumberToKeep : Z := 10.
Definition kNewFile2 : Z := 100.
Definition kNewFile3 : Z := 102.
Definition kColumnFamily : Z := 200.
Definition kColumnFamilyAdd : Z := 201.
Definition kColumnFamilyDrop : Z := 202.
Definition kMaxColumnFamily : Z := 203.
Definition kInAtomicGroup : Z := 300.
Definition kBlobFileAddition : Z := 400.
Definition kBlobFileGarbage : Z := 401.
Definition kTagSafeIgnoreMask : Z := Z.shiftl 1 13.
Definition kDbId : Z := 8193.
Definition kBlobFileAddition_DEPRECATED : Z := 8194.
Definition kBlobFileGarbage_DEPRECATED : Z := 8195.
Definition kWalAddition : Z := 8196.
Definition kWalDeletion : Z := 8197.
Definition kFullHistoryTsLow : Z := 8198.
Definition kWalAddition2 : Z := 8199.
Definition kWalDeletion2 : Z := 8200.
Definition kPersistUserDefinedTimestamps : Z := 8201.
Definition kSubcompactionProgress : Z := 8202.

(** ** Writing *)

(** An entry that is written if its member is set. *)
Definition put_opt {A} (o : option A) (put : A -> list Z) : list Z :=
  match o with Some a => put a | None => [] end.

Definition put_cursor (c : Z * list Z) : list Z :=
  if FileCodec.Valid c.2
  then PutVarint32 kCompactCursor ++ PutVarint32 (u32 c.1) ++ PutLengthPrefixedSlice c.2
  else [].

Definition put_deleted (d : Z * Z) : list Z := PutVarint32Varint32Varint64 kDeletedFile (u32 d.1) d.2.

(** The loop over the new files; [None] is the early return for an invalid file. *)
Fixpoint put_new_files (ts_sz : nat) (min_log : option Z) (min_log_num_written : bool)
    (l : list (Z * FileCodec.FileMetaData)) : option (list Z) :=
  match l with
  | [] => Some []
  | (level, f) :: l' =>
      if negb (FileCodec.Valid (FileCodec.smallest f)) || negb (FileCodec.Valid (FileCodec.largest f)) ||
         (FileCodec.epoch_number f =? FileCodec.kUnknownEpochNumber)
      then None
      else
        let (bytes, written) := FileCodec.EncodeToNewFile4 f level ts_sz min_log min_log_num_written in
        rest ← put_new_files ts_sz min_log written l';
        Some (bytes ++ rest)
  end.

Definition put_blob_addition (b : WalEdit.BlobFileAddition) : list Z :=
  PutVarint32 kBlobFileAddition ++ WalEdit.EncodeBlobFileAddition b.

Definition put_blob_garbage (b : WalEdit.BlobFileGarbage) : list Z :=
  PutVarint32 kBlobFileGarbage ++ WalEdit.EncodeBlobFileGarbage b.

Definition put_wal_addition (w : WalEdit.WalAddition) : list Z :=
  PutVarint32 kWalAddition2 ++ PutLengthPrefixedSlice (WalEdit.EncodeWalAddition w).

(** The entries before the new files, and those after them. *)
Definition encode_head (e : VersionEdit) : list Z :=
  put_opt (db_id e) (fun s => PutVarint32 kDbId ++ PutLengthPrefixedSlice s) ++
  put_opt (comparator e) (fun s => PutVarint32 kComparator ++ PutLengthPrefixedSlice s) ++
  put_opt (log_number e) (PutVarint32Varint64 kLogNumber) ++
  put_opt (prev_log_number e) (PutVarint32Varint64 kPrevLogNumber) ++
  put_opt (next_file_number e) (PutVarint32Varint64 kNextFileNumber) ++
  put_opt (max_column_family e) (PutVarint32Varint32 kMaxColumnFamily) ++
  put_opt (min_log_number_to_keep e) (PutVarint32Varint64 kMinLogNumberToKeep) ++
  put_opt (last_sequence e) (PutVarint32Varint64 kLastSequence) ++
  (compact_cursors e ≫= put_cursor) ++
  (deleted_files e ≫= put_deleted).

Definition encode_tail (e : VersionEdit) : list Z :=
  (blob_file_additions e ≫= put_blob_addition) ++
  (blob_file_garbages e ≫= put_blob_garbage) ++
  (wal_additions e ≫= put_wal_addition) ++
  (if WalEdit.WalDeletion_IsEmpty (wal_deletion e) then []
   else PutVarint32 kWalDeletion2 ++ PutLengthPrefixedSlice (WalEdit.EncodeWalDeletion (wal_deletion e))) ++
  (if column_family e =? 0 then [] else PutVarint32Varint32 kColumnFamily (column_family e)) ++
  put_opt (column_family_add e) (fun s => PutVarint32 kColumnFamilyAdd ++ PutLengthPrefixedSlice s) ++
  (if column_family_drop e then PutVarint32 kColumnFamilyDrop else []) ++
  put_opt (atomic_group e) (fun n => PutVarint32 kInAtomicGroup ++ PutVarint32 n) ++
  (if bool_decide (full_history_ts_low e = []) then []
   else PutVarint32 kFullHistoryTsLow ++ PutLengthPrefixedSlice (full_history_ts_low e)) ++
  put_opt (persist_user_defined_timestamps e) (fun b =>
    PutVarint32 kPersistUserDefinedTimestamps ++ PutLengthPrefixedSlice [if b : bool then 1 else 0]) ++
  put_opt (subcompaction_progress e) (fun p =>
    PutVarint32 kSubcompactionProgress ++ PutLengthPrefixedSlice (Progress.EncodeProgress p)).

Definition EncodeTo (ts_sz : option nat) (e : VersionEdit) : option (list Z) :=
  files ← (match new_files e, ts_sz with
           | [], _ => Some []
           | l, Some n => put_new_files n (min_log_number_to_keep e) false l
           | _, None => None
           end);
  Some (encode_head e ++ files ++ encode_tail e).

(** ** Reading *)

Definition or_corrupt {A B} (o : option A) (k : A -> Status + B) : Status + B :=
  match o with Some a => k a | None => inl Corruption end.

(** What an entry leaves: the edit and the remaining input. *)
Abbreviation entry := (Status + (VersionEdit * list Z))%type.

Definition slice_entry (i : list Z) (k : list Z -> VersionEdit) : entry :=
  or_corrupt (GetLengthPrefixedSlice i) (fun '(s, i1) => inr (k s, i1)).
Definition varint64_entry (i : list Z) (k : Z -> VersionEdit) : entry :=
  or_corrupt (GetVarint64 i) (fun '(v, i1) => inr (k v, i1)).
Definition varint32_entry (i : list Z) (k : Z -> VersionEdit) : entry :=
  or_corrupt (GetVarint32 i) (fun '(v, i1) => inr (k v, i1)).

Definition cursor_entry (i : list Z) (e : VersionEdit) : entry :=
  or_corrupt (FileCodec.GetLevel (max_level e) i) (fun '(level, ml, i1) =>
  or_corrupt (FileCodec.GetInternalKey i1) (fun '(key, i2) =>
  inr (set_compact_cursors (compact_cursors e ++ [(level, key)]) (set_max_level ml e), i2))).

Definition deleted_entry (i : list Z) (e : VersionEdit) : entry :=
  or_corrupt (FileCodec.GetLevel (max_level e) i) (fun '(level, ml, i1) =>
  or_corrupt (GetVarint64 i1) (fun '(number, i2) =>
  inr (set_deleted_files (set_insert (level, number) (deleted_files e)) (set_max_level ml e), i2))).

(** The three old formats of a new file. *)
Definition new_file (packed size lo hi : Z) (k1 k2 : list Z) : FileCodec.FileMetaData :=
  FileCodec.set_fd packed size lo hi (FileCodec.set_bounds k1 k2 FileCodec.default_file).

Definition push_file (level : Z) (f : FileCodec.FileMetaData) (ml : Z) (e : VersionEdit) : VersionEdit :=
  set_new_files (new_files e ++ [(level, f)]) (set_max_level ml e).

Definition new_file_entry (i : list Z) (e : VersionEdit) : entry :=
  or_corrupt (FileCodec.GetLevel (max_level e) i) (fun '(level, ml, i1) =>
  or_corrupt (GetVarint64 i1) (fun '(number, i2) =>
  or_corrupt (GetVarint64 i2) (fun '(size, i3) =>
  or_corrupt (FileCodec.GetInternalKey i3) (fun '(k1, i4) =>
  or_corrupt (FileCodec.GetInternalKey i4) (fun '(k2, i5) =>
  inr (push_file level (new_file (FileCodec.PackFileNumberAndPathId number 0) size Version.kMaxSequenceNumber 0 k1 k2) ml e, i5)))))).

Definition new_file2_entry (i : list Z) (e : VersionEdit) : entry :=
  or_corrupt (FileCodec.read_fixed (max_level e) i) (fun '(level, ml, (number, size, k1, k2, lo, hi), i1) =>
  inr (push_file level (new_file (FileCodec.PackFileNumberAndPathId number 0) size lo hi k1 k2) ml e, i1)).

Definition new_file3_entry (i : list Z) (e : VersionEdit) : entry :=
  or_corrupt (FileCodec.GetLevel (max_level e) i) (fun '(level, ml, i1) =>
  or_corrupt (GetVarint64 i1) (fun '(number, i2) =>
  or_corrupt (GetVarint32 i2) (fun '(path_id, i3) =>
  or_corrupt (GetVarint64 i3) (fun '(size, i4) =>
  or_corrupt (FileCodec.GetInternalKey i4) (fun '(k1, i5) =>
  or_corrupt (FileCodec.GetInternalKey i5) (fun '(k2, i6) =>
  or_corrupt (GetVarint64 i6) (fun '(lo, i7) =>
  or_corrupt (GetVarint64 i7) (fun '(hi, i8) =>
  inr (push_file level (new_file (FileCodec.PackFileNumberAndPathId number path_id) size lo hi k1 k2) ml e, i8))))))))).

Definition new_file4_entry (i : list Z) (e : VersionEdit) : entry :=
  match FileCodec.DecodeNewFile4From i (max_level e) (min_log_number_to_keep e) with
  | inl _ => inl Corruption
  | inr (i1, ml, min_log, (level, f)) =>
      inr (push_file level f ml (set_min_log_number_to_keep min_log e), i1)
  end.

Definition ts_low_entry (i : list Z) (e : VersionEdit) : entry :=
  or_corrupt (GetLengthPrefixedSlice i) (fun '(s, i1) =>
  match s with [] => inl Corruption | _ => inr (set_full_history_ts_low s e, i1) end).

Definition persist_entry (i : list Z) (e : VersionEdit) : entry :=
  or_corrupt (GetLengthPrefixedSlice i) (fun '(s, i1) =>
  match s with
  | [b] => inr (set_persist_user_defined_timestamps (Some (b =? 1)) e, i1)
  | _ => inl Corruption
  end).

Definition progress_entry (i : list Z) (e : VersionEdit) : entry :=
  or_corrupt (GetLengthPrefixedSlice i) (fun '(s, i1) =>
  match Progress.DecodeProgress s with
  | inl err => inl err
  | inr (p, _) => inr (set_subcompaction_progress (Some p) e, i1)
  end).

(** A tag from the future: skipped with the bytes behind it, or refused. *)
Definition unknown_entry (tag : Z) (i : list Z) (e : VersionEdit) : entry :=
  if negb (Z.land tag kTagSafeIgnoreMask =? 0) then
    or_corrupt (GetVarint32 i) (fun '(field_len, i1) =>
    if Z.of_nat (length i1) <? field_len then inl Corruption else inr (e, drop (Z.to_nat field_len) i1))
  else inl Corruption.

(** The [switch] over the tag of an entry. *)
Definition decode_entry (tag : Z) (i : list Z) (e : VersionEdit) : entry :=
  if tag =? kDbId then slice_entry i (fun s => set_db_id (Some s) e)
  else if tag =? kComparator then slice_entry i (fun s => set_comparator (Some s) e)
  else if tag =? kLogNumber then varint64_entry i (fun v => set_log_number (Some v) e)
  else if tag =? kPrevLogNumber then varint64_entry i (fun v => set_prev_log_number (Some v) e)
  else if tag =? kNextFileNumber then varint64_entry i (fun v => set_next_file_number (Some v) e)
  else if tag =? kMaxColumnFamily then varint32_entry i (fun v => set_max_column_family (Some v) e)
  else if tag =? kMinLogNumberToKeep then varint64_entry i (fun v => set_min_log_number_to_keep (Some v) e)
  else if tag =? kLastSequence then varint64_entry i (fun v => set_last_sequence (Some v) e)
  else if tag =? kCompactCursor then cursor_entry i e
  else if tag =? kDeletedFile then deleted_entry i e
  else if tag =? kNewFile then new_file_entry i e
  else if tag =? kNewFile2 then new_file2_entry i e
  else if tag =? kNewFile3 then new_file3_entry i e
  else if tag =? FileCodec.kNewFile4 then new_file4_entry i e
  else if (tag =? kBlobFileAddition) || (tag =? kBlobFileAddition_DEPRECATED) then
    or_corrupt (WalEdit.DecodeBlobFileAddition i) (fun '(b, i1) => inr (AddBlobFile b e, i1))
  else if (tag =? kBlobFileGarbage) || (tag =? kBlobFileGarbage_DEPRECATED) then
    or_corrupt (WalEdit.DecodeBlobFileGarbage i) (fun '(b, i1) => inr (AddBlobFileGarbage b e, i1))
  else if tag =? kWalAddition then
    or_corrupt (WalEdit.DecodeWalAddition i) (fun '(w, i1) => inr (AddWal w e, i1))
  else if tag =? kWalAddition2 then
    or_corrupt (GetLengthPrefixedSlice i) (fun '(s, i1) =>
    or_corrupt (WalEdit.DecodeWalAddition s) (fun '(w, _) => inr (AddWal w e, i1)))
  else if tag =? kWalDeletion then
    or_corrupt (WalEdit.DecodeWalDeletion i) (fun '(w, i1) => inr (set_wal_deletion w e, i1))
  else if tag =? kWalDeletion2 then
    or_corrupt (GetLengthPrefixedSlice i) (fun '(s, i1) =>
    or_corrupt (WalEdit.DecodeWalDeletion s) (fun '(w, _) => inr (set_wal_deletion w e, i1)))
  else if tag =? kColumnFamily then varint32_entry i (fun v => set_column_family v e)
  else if tag =? kColumnFamilyAdd then slice_entry i (fun s => set_column_family_add (Some s) e)
  else if tag =? kColumnFamilyDrop then inr (set_column_family_drop true e, i)
  else if tag =? kInAtomicGroup then varint32_entry i (fun v => set_atomic_group (Some v) e)
  else if tag =? kFullHistoryTsLow then ts_low_entry i e
  else if tag =? kPersistUserDefinedTimestamps then persist_entry i e
  else if tag =? kSubcompactionProgress then progress_entry i e
  else unknown_entry tag i e.

(** The loop over the entries; a turn takes at least one byte. *)
Fixpoint decode_loop (fuel : nat) (input : list Z) (e : VersionEdit) : Status + VersionEdit :=
  match fuel with
  | O => inl Corruption
  | S fuel' =>
      match GetVarint32 input with
      | None => match input with [] => inr e | _ => inl Corruption end
      | Some (tag, i1) =>
          match decode_entry tag i1 e with
          | inl s => inl s
          | inr (e', i2) => decode_loop fuel' i2 e'
          end
      end
  end.

Definition decode_all (input : list Z) (e : VersionEdit) : Status + VersionEdit :=
  decode_loop (S (length input)) input e.

Definition DecodeFrom (src : list Z) : Status + VersionEdit := decode_all src empty_edit.

(** ** Every entry takes its bytes from the front *)

Lemma or_corrupt_inr {A B} (o : option A) (k : A -> Status + B) b : or_corrupt o k = inr b -> exists a, o = Some a /\ k a = inr b.
Proof. destruct o as [a|]; cbn; [eauto|done]. Qed.

Lemma GetLevel_shorter ml i level ml' i1 : FileCodec.GetLevel ml i = Some (level, ml', i1) -> (length i1 < length i)%nat.
Proof.
  unfold FileCodec.GetLevel. destruct (GetVarint32 i) as [[v r]|] eqn:H; cbn [mbind option_bind]; [|done]. apply get_shorter in H. by intros [= <- <- <-].
Qed.

Lemma GetInternalKey_shorter i k i1 : FileCodec.GetInternalKey i = Some (k, i1) -> (length i1 < length i)%nat.
Proof.
  unfold FileCodec.GetInternalKey. destruct (GetLengthPrefixedSlice i) as [[v r]|] eqn:H; cbn; [|done].
  apply get_shorter in H. destruct (FileCodec.Valid v); [by intros [= <- <-]|done].
Qed.

Lemma custom_fields_shorter fuel : forall i i1, WalEdit.custom_fields fuel i = Some i1 -> (length i1 < length i)%nat.
Proof.
  induction fuel as [|fuel IH]; intros i i1; cbn [WalEdit.custom_fields]; [done|].
  destruct (GetVarint32 i) as [[t r]|] eqn:H; cbn [mbind option_bind]; [|done]. apply get_shorter in H.
  destruct (_ =? _); [by intros [= <-]|]. destruct (negb _); [done|].
  destruct (GetLengthPrefixedSlice r) as [[v r2]|] eqn:H2; cbn [mbind option_bind]; [|done]. apply get_shorter in H2. intros ?%IH. lia.
Qed.

Lemma wal_tags_shorter fuel : forall w i w' i1, WalEdit.wal_tags fuel w i = Some (w', i1) -> (length i1 < length i)%nat.
Proof.
  induction fuel as [|fuel IH]; intros w i w' i1; cbn [WalEdit.wal_tags]; [done|].
  destruct (GetVarint32 i) as [[t r]|] eqn:H; cbn [mbind option_bind]; [|done]. apply get_shorter in H.
  destruct (_ =? _); [|destruct (_ =? _); [by intros [= <- <-]|done]].
  destruct (GetVarint64 r) as [[v r2]|] eqn:H2; cbn [mbind option_bind]; [|done]. apply get_shorter in H2. intros ?%IH. lia.
Qed.

Lemma read_custom_shorter i c c' i1 : FileCodec.read_custom i c = inr (c', i1) -> (length i1 <= length i)%nat.
Proof.
  unfold FileCodec.read_custom, read_tagged. set (n := length i). assert (length i <= n)%nat as Hn by lia.
  revert Hn. generalize (S n). intros fuel Hn H.
  refine (proj2 (tagged_loop_invariant _ _ _ _ (fun _ => True) (fun l => length l <= n)%nat (fun _ => True) _ _ _ _ _ _ _ _ I Hn H)).
  - intros j t r ? Hj%get_shorter. lia.
  - intros j fld r Hj Hg%get_shorter. split; [done|lia].
  - done.
Qed.

Ltac bind_step := match goal with
  | H : mbind _ ?o = Some _ |- _ => let E := fresh in destruct o as [[? ?]|] eqn:E; cbn [mbind option_bind] in H; [|done]
  | H : (let '(_, _) := ?p in _) = Some _ |- _ => destruct p
  | H : or_corrupt _ _ = inr _ |- _ => apply or_corrupt_inr in H as ([? ?] & ? & H)
  | H : (let '(_, _) := ?p in _) = inr _ |- _ => destruct p
  end.

(** Turns what a reader returned into the lengths. *)
Ltac shorter := repeat match goal with
  | H : GetVarint32 _ = Some _ |- _ => apply get_shorter in H
  | H : GetVarint64 _ = Some _ |- _ => apply get_shorter in H
  | H : GetLengthPrefixedSlice _ = Some _ |- _ => apply get_shorter in H
  | H : FileCodec.GetLevel _ _ = Some _ |- _ => apply GetLevel_shorter in H
  | H : FileCodec.GetInternalKey _ = Some _ |- _ => apply GetInternalKey_shorter in H
  | H : WalEdit.custom_fields _ _ = Some _ |- _ => apply custom_fields_shorter in H
  | H : WalEdit.wal_tags _ _ _ = Some _ |- _ => apply wal_tags_shorter in H
  end; lia.

Lemma read_fixed_shorter ml i l m x i1 : FileCodec.read_fixed ml i = Some (l, m, x, i1) -> (length i1 < length i)%nat.
Proof. unfold FileCodec.read_fixed. intros H. repeat bind_step. simplify_eq. shorter. Qed.

Lemma blob_addition_shorter i b i1 : WalEdit.DecodeBlobFileAddition i = Some (b, i1) -> (length i1 < length i)%nat.
Proof.
  unfold WalEdit.DecodeBlobFileAddition. intros H. do 5 bind_step.
  destruct (WalEdit.custom_fields _ _) eqn:E; cbn in H; [|done]. simplify_eq. shorter.
Qed.

Lemma blob_garbage_shorter i b i1 : WalEdit.DecodeBlobFileGarbage i = Some (b, i1) -> (length i1 < length i)%nat.
Proof.
  unfold WalEdit.DecodeBlobFileGarbage. intros H. do 3 bind_step.
  destruct (WalEdit.custom_fields _ _) eqn:E; cbn in H; [|done]. simplify_eq. shorter.
Qed.

Lemma wal_addition_shorter i w i1 : WalEdit.DecodeWalAddition i = Some (w, i1) -> (length i1 < length i)%nat.
Proof. unfold WalEdit.DecodeWalAddition. intros H. bind_step. shorter. Qed.

Lemma new_file4_shorter i e e' i1 : new_file4_entry i e = inr (e', i1) -> (length i1 <= length i)%nat.
Proof.
  unfold new_file4_entry, FileCodec.DecodeNewFile4From.
  destruct (FileCodec.read_fixed _ i) as [[[[l m] [[[[[? ?] ?] ?] ?] ?]] r]|] eqn:H; [|done].
  destruct (FileCodec.read_custom r _) as [|[c q]] eqn:H2; [done|]. intros [= <- <-].
  apply read_fixed_shorter in H. apply read_custom_shorter in H2. lia.
Qed.

Lemma decode_entry_shorter tag i e e' i1 : decode_entry tag i e = inr (e', i1) -> (length i1 <= length i)%nat.
Proof.
  unfold decode_entry, slice_entry, varint64_entry, varint32_entry, cursor_entry, deleted_entry, new_file_entry, new_file2_entry,
    new_file3_entry, ts_low_entry, persist_entry, progress_entry, unknown_entry, WalEdit.DecodeWalDeletion.
  intros H. repeat match type of H with (if ?b then _ else _) = _ => destruct b end;
    repeat bind_step; repeat case_match; simplify_eq;
    repeat match goal with
    | H : WalEdit.DecodeBlobFileAddition _ = Some _ |- _ => apply blob_addition_shorter in H
    | H : WalEdit.DecodeBlobFileGarbage _ = Some _ |- _ => apply blob_garbage_shorter in H
    | H : WalEdit.DecodeWalAddition _ = Some (_, i1) |- _ => apply wal_addition_shorter in H
    | H : FileCodec.read_fixed _ _ = Some _ |- _ => apply read_fixed_shorter in H
    | H : new_file4_entry _ _ = _ |- _ => apply new_file4_shorter in H
    end; rewrite ?length_drop; shorter.
Qed.

Lemma decode_loop_fuel fuel : forall fuel' input e, (length input < fuel)%nat -> (length input < fuel')%nat ->
  decode_loop fuel input e = decode_loop fuel' input e.
Proof.
  induction fuel as [|fuel IH]; intros [|fuel'] input e Hf Hf'; try lia. cbn [decode_loop].
  destruct (GetVarint32 input) as [[tag i1]|] eqn:H1; [|done]. apply get_shorter in H1.
  destruct (decode_entry tag i1 e) as [|[e' i2]] eqn:H2; [done|]. apply decode_entry_shorter in H2. apply IH; lia.
Qed.

(** One entry in front of others. *)
Lemma decode_all_entry tag body rest e e' : is_u32 tag -> decode_entry tag body e = inr (e', rest) ->
  decode_all (PutVarint32 tag ++ body) e = decode_all rest e'.
Proof.
  intros Htag H. unfold decode_all at 1. cbn [decode_loop]. rewrite (get_put (put := PutVarint32)), H by done.
  apply decode_entry_shorter in H. apply decode_loop_fuel; [|lia]. rewrite length_app.
  unfold PutVarint32. destruct (EncodeVarint32_varint tag Htag) as (n & _ & -> & _). destruct n; cbn; lia.
Qed.

(** ** Round trip *)

(** An entry of a member that may not be set. *)
Lemma decode_all_opt {A} tag (o : option A) put rest e e' : is_u32 tag ->
  (forall a, o = Some a -> decode_entry tag (put a ++ rest) e = inr (e', rest)) -> (o = None -> e' = e) ->
  decode_all (put_opt o (fun a => PutVarint32 tag ++ put a) ++ rest) e = decode_all rest e'.
Proof.
  intros Htag Hsome Hnone. destruct o as [a|]; cbn [put_opt]; [|by rewrite Hnone].
  rewrite <- app_assoc. by apply decode_all_entry, Hsome.
Qed.

(** An entry that is written unless a condition holds. *)
Lemma decode_all_if tag (b : bool) body rest e e' : is_u32 tag ->
  (b = false -> decode_entry tag (body ++ rest) e = inr (e', rest)) -> (b = true -> e' = e) ->
  decode_all ((if b then [] else PutVarint32 tag ++ body) ++ rest) e = decode_all rest e'.
Proof.
  intros Htag Hput Hskip. destruct b; [by rewrite Hskip|]. rewrite <- app_assoc. by apply decode_all_entry, Hput.
Qed.

(** Entries of the elements of a list. *)
Lemma decode_all_list {A} (put : A -> list Z) (step : A -> VersionEdit -> VersionEdit) (P : A -> Prop) l :
  (forall a rest e, P a -> decode_all (put a ++ rest) e = decode_all rest (step a e)) ->
  forall rest e, Forall P l -> decode_all ((l ≫= put) ++ rest) e = decode_all rest (foldl (fun e a => step a e) e l).
Proof.
  intros Hstep. induction l as [|a l IH]; intros rest e Hl; [done|]. apply Forall_cons in Hl as [Ha Hl].
  rewrite bind_cons, <- app_assoc, Hstep by done. by apply IH.
Qed.

Lemma slice_entry_put s rest k : is_slice s -> slice_entry (PutLengthPrefixedSlice s ++ rest) k = inr (k s, rest).
Proof. intros Hs. unfold slice_entry. by rewrite (get_put (put := PutLengthPrefixedSlice)). Qed.

Lemma varint64_entry_put v rest k : is_u64 v -> varint64_entry (PutVarint64 v ++ rest) k = inr (k v, rest).
Proof. intros Hv. unfold varint64_entry. by rewrite (get_put (put := PutVarint64)). Qed.

Lemma varint32_entry_put v rest k : is_u32 v -> varint32_entry (PutVarint32 v ++ rest) k = inr (k v, rest).
Proof. intros Hv. unfold varint32_entry. by rewrite (get_put (put := PutVarint32)). Qed.

(** *** Cursors, deleted files and new files *)

Definition add_cursor (c : Z * list Z) (e : VersionEdit) : VersionEdit :=
  if FileCodec.Valid c.2
  then set_compact_cursors (compact_cursors e ++ [c]) (set_max_level (Z.max (max_level e) c.1) e)
  else e.

Lemma decode_cursor c rest e : is_i32 c.1 /\ is_slice c.2 -> decode_all (put_cursor c ++ rest) e = decode_all rest (add_cursor c e).
Proof.
  destruct c as [level k]. cbn [fst snd]. intros [Hl Hk]. unfold put_cursor, add_cursor. cbn [fst snd].
  destruct (FileCodec.Valid k) eqn:Hv; [|done]. rewrite <- !app_assoc. apply decode_all_entry; [by vm_compute|].
  change (decode_entry kCompactCursor ?i ?e) with (cursor_entry i e). unfold cursor_entry.
  rewrite FileCodec.GetLevel_put by done. cbn [or_corrupt].
  by rewrite (get_put (get := FileCodec.GetInternalKey)).
Qed.

Definition add_deleted (d : Z * Z) (e : VersionEdit) : VersionEdit :=
  set_deleted_files (set_insert d (deleted_files e)) (set_max_level (Z.max (max_level e) d.1) e).

Lemma decode_deleted d rest e : is_i32 d.1 /\ is_u64 d.2 -> decode_all (put_deleted d ++ rest) e = decode_all rest (add_deleted d e).
Proof.
  destruct d as [level n]. cbn [fst snd]. intros [Hl Hn]. unfold put_deleted, add_deleted, PutVarint32Varint32Varint64. cbn [fst snd].
  change EncodeVarint32 with PutVarint32. change EncodeVarint64 with PutVarint64.
  rewrite <- !app_assoc. apply decode_all_entry; [by vm_compute|].
  change (decode_entry kDeletedFile ?i ?e) with (deleted_entry i e). unfold deleted_entry.
  rewrite FileCodec.GetLevel_put by done. cbn [or_corrupt]. by rewrite (get_put (put := PutVarint64)).
Qed.

Definition add_file (ts_sz : nat) (lf : Z * FileCodec.FileMetaData) (e : VersionEdit) : VersionEdit :=
  push_file lf.1 (FileCodec.reloaded ts_sz lf.2) (Z.max (max_level e) lf.1) e.

Definition is_new_file (ts_sz : nat) (lf : Z * FileCodec.FileMetaData) : Prop :=
  is_i32 lf.1 /\ FileCodec.is_file ts_sz lf.2 /\
  FileCodec.Valid (FileCodec.smallest lf.2) = true /\ FileCodec.Valid (FileCodec.largest lf.2) = true /\
  FileCodec.epoch_number lf.2 <> FileCodec.kUnknownEpochNumber.

Lemma set_min_log_same m e : min_log_number_to_keep e = m -> set_min_log_number_to_keep m e = e.
Proof. intros <-. by destruct e. Qed.

Lemma decode_new_files ts_sz min_log l : (forall m, min_log = Some m -> is_u64 m) -> forall written, Forall (is_new_file ts_sz) l ->
  exists bytes, put_new_files ts_sz min_log written l = Some bytes /\
    forall rest e, min_log_number_to_keep e = min_log ->
    decode_all (bytes ++ rest) e = decode_all rest (foldl (fun e lf => add_file ts_sz lf e) e l).
Proof.
  intros Hm. induction l as [|[level f] l IH]; intros written Hl; [by exists []|].
  apply Forall_cons in Hl as [(Hlev & Hf & Hv1 & Hv2 & Hep) Hl]. cbn [fst snd] in *. cbn [put_new_files].
  rewrite Hv1, Hv2, (proj2 (Z.eqb_neq _ _) Hep). cbn [negb orb].
  destruct (FileCodec.EncodeToNewFile4 f level ts_sz min_log written) as [b w] eqn:Henc.
  destruct (IH w Hl) as (bs & -> & Hbs). cbn [mbind option_bind]. exists (b ++ bs). split; [done|]. intros rest e He.
  destruct (FileCodec.DecodeNewFile4_encode ts_sz f level min_log written (max_level e) min_log (bs ++ rest) Hf Hlev Hm) as (body & Hb & Hdec).
  rewrite Henc in Hb. cbn [fst] in Hb. subst b. rewrite <- !app_assoc.
  rewrite (decode_all_entry _ _ (bs ++ rest) e (add_file ts_sz (level, f) e)); [apply Hbs; by destruct e|by vm_compute|].
  change (decode_entry FileCodec.kNewFile4 ?i ?e) with (new_file4_entry i e). unfold new_file4_entry. rewrite He, Hdec.
  replace (if bool_decide (is_Some min_log) && negb written then min_log else min_log) with min_log by (by destruct (_ && _)).
  rewrite set_min_log_same by done. done.
Qed.

(** *** Blob files, WALs and the remaining members *)

Lemma decode_blob_addition b rest e : WalEdit.is_blob_addition b ->
  decode_all (put_blob_addition b ++ rest) e = decode_all rest (AddBlobFile b e).
Proof.
  intros Hb. unfold put_blob_addition. rewrite <- app_assoc. apply decode_all_entry; [by vm_compute|].
  change (decode_entry kBlobFileAddition ?i ?e) with
    (or_corrupt (WalEdit.DecodeBlobFileAddition i) (fun '(b, i1) => inr (AddBlobFile b e, i1))).
  by rewrite (get_put (put := WalEdit.EncodeBlobFileAddition)).
Qed.

Lemma decode_blob_garbage b rest e : WalEdit.is_blob_garbage b ->
  decode_all (put_blob_garbage b ++ rest) e = decode_all rest (AddBlobFileGarbage b e).
Proof.
  intros Hb. unfold put_blob_garbage. rewrite <- app_assoc. apply decode_all_entry; [by vm_compute|].
  change (decode_entry kBlobFileGarbage ?i ?e) with
    (or_corrupt (WalEdit.DecodeBlobFileGarbage i) (fun '(b, i1) => inr (AddBlobFileGarbage b e, i1))).
  by rewrite (get_put (put := WalEdit.EncodeBlobFileGarbage)).
Qed.

Lemma varint_length n v : length (varint n v) = S n.
Proof. revert v. induction n; intros v; cbn; auto. Qed.

Lemma wal_slice w : WalEdit.is_wal w -> is_slice (WalEdit.EncodeWalAddition w).
Proof.
  intros [H1 H2]. unfold is_slice, WalEdit.EncodeWalAddition, PutVarint64.
  destruct (EncodeVarint64_varint _ H1) as (n1 & ? & -> & _), (EncodeVarint64_varint _ H2) as (n2 & ? & -> & _).
  change (PutVarint32 WalEdit.kWalTerminate) with [1]. change (PutVarint32 WalEdit.kSyncedSize) with [2].
  destruct (WalEdit.HasSyncedSize _); rewrite !length_app, ?varint_length; cbn [length]; lia.
Qed.

Lemma decode_wal_addition w rest e : WalEdit.is_wal w ->
  decode_all (put_wal_addition w ++ rest) e = decode_all rest (AddWal w e).
Proof.
  intros Hw. unfold put_wal_addition. rewrite <- app_assoc. apply decode_all_entry; [by vm_compute|].
  change (decode_entry kWalAddition2 ?i ?e) with (or_corrupt (GetLengthPrefixedSlice i) (fun '(s, i1) =>
    or_corrupt (WalEdit.DecodeWalAddition s) (fun '(w, _) => inr (A := Status) (AddWal w e, i1)))).
  rewrite (get_put (put := PutLengthPrefixedSlice)) by (by apply wal_slice). cbn [or_corrupt].
  by rewrite (get_put_nil WalEdit.EncodeWalAddition WalEdit.DecodeWalAddition WalEdit.is_wal).
Qed.

Lemma decode_wal_deletion n rest e : is_u64 n ->
  decode_entry kWalDeletion2 (PutLengthPrefixedSlice (WalEdit.EncodeWalDeletion n) ++ rest) e = inr (set_wal_deletion n e, rest).
Proof.
  intros Hn. change (decode_entry kWalDeletion2 ?i ?e) with (or_corrupt (GetLengthPrefixedSlice i) (fun '(s, i1) =>
    or_corrupt (WalEdit.DecodeWalDeletion s) (fun '(w, _) => inr (A := Status) (set_wal_deletion w e, i1)))).
  rewrite (get_put (put := PutLengthPrefixedSlice)) by (by apply FileCodec.varint_slice). cbn [or_corrupt].
  by rewrite (get_put_nil WalEdit.EncodeWalDeletion WalEdit.DecodeWalDeletion is_u64).
Qed.

Lemma decode_ts_low s rest e : is_slice s -> s <> [] ->
  decode_entry kFullHistoryTsLow (PutLengthPrefixedSlice s ++ rest) e = inr (set_full_history_ts_low s e, rest).
Proof.
  intros Hs Hne. change (decode_entry kFullHistoryTsLow ?i ?e) with (ts_low_entry i e). unfold ts_low_entry.
  rewrite (get_put (put := PutLengthPrefixedSlice)) by done. cbn [or_corrupt]. by destruct s.
Qed.

Lemma decode_persist (b : bool) rest e :
  decode_entry kPersistUserDefinedTimestamps (PutLengthPrefixedSlice [if b then 1 else 0] ++ rest) e =
  inr (set_persist_user_defined_timestamps (Some b) e, rest).
Proof.
  change (decode_entry kPersistUserDefinedTimestamps ?i ?e) with (persist_entry i e). unfold persist_entry.
  rewrite (get_put (put := PutLengthPrefixedSlice)) by done. by destruct b.
Qed.

Lemma decode_drop (b : bool) rest e : column_family_drop e = false ->
  decode_all ((if b then PutVarint32 kColumnFamilyDrop else []) ++ rest) e = decode_all rest (set_column_family_drop b e).
Proof. intros He. destruct b; [by apply decode_all_entry; [vm_compute|]|]. destruct e; cbn in He. by subst. Qed.

Lemma decode_progress p rest e : Progress.is_progress p ->
  decode_entry kSubcompactionProgress (PutLengthPrefixedSlice (Progress.EncodeProgress p) ++ rest) e =
  inr (set_subcompaction_progress (Some (Progress.reloaded_progress p)) e, rest).
Proof.
  intros Hp. change (decode_entry kSubcompactionProgress ?i ?e) with (progress_entry i e). unfold progress_entry.
  rewrite (get_put (put := PutLengthPrefixedSlice)) by apply Hp. cbn [or_corrupt].
  rewrite <- (app_nil_r (Progress.EncodeProgress p)). by rewrite Progress.DecodeProgress_encode.
Qed.

(** *** The effect of the lists *)

Abbreviation valid_cursors l := (filter (fun c : Z * list Z => FileCodec.Valid c.2 = true) l).

Lemma foldl_cursors l : forall e, foldl (fun e c => add_cursor c e) e l =
  set_compact_cursors (compact_cursors e ++ valid_cursors l)
    (set_max_level (foldl Z.max (max_level e) (fst <$> valid_cursors l)) e).
Proof.
  induction l as [|c l IH]; intros e; cbn [foldl]; [rewrite app_nil_r; by destruct e|]. rewrite IH, filter_cons. unfold add_cursor.
  destruct (FileCodec.Valid c.2); [rewrite decide_True by done|by rewrite decide_False by done].
  destruct e; cbn. by rewrite <- app_assoc.
Qed.

Definition pair_lt (a b : Z * Z) : Prop := pair_ltb a b = true.

Lemma pair_lt_asym a b : pair_lt a b -> pair_ltb b a = false.
Proof.
  unfold pair_lt, pair_ltb. rewrite orb_true_iff, andb_true_iff, orb_false_iff, andb_false_iff, !Z.ltb_lt, !Z.eqb_eq, !Z.ltb_ge, !Z.eqb_neq. lia.
Qed.

Lemma pair_lt_trans a b c : pair_lt a b -> pair_lt b c -> pair_lt a c.
Proof. unfold pair_lt, pair_ltb. rewrite !orb_true_iff, !andb_true_iff, !Z.ltb_lt, !Z.eqb_eq. lia. Qed.

Lemma set_insert_last x l : Forall (fun y => pair_lt y x) l -> set_insert x l = l ++ [x].
Proof.
  induction 1 as [|y l Hy Hl IH]; [done|]. cbn [set_insert app]. by rewrite (pair_lt_asym _ _ Hy), Hy, IH.
Qed.

Lemma foldl_deleted l : forall e, StronglySorted pair_lt (deleted_files e ++ l) ->
  foldl (fun e d => add_deleted d e) e l =
  set_deleted_files (deleted_files e ++ l) (set_max_level (foldl Z.max (max_level e) (fst <$> l)) e).
Proof.
  induction l as [|d l IH]; intros e Hs; cbn [foldl]; [rewrite app_nil_r; by destruct e|].
  assert (set_insert d (deleted_files e) = deleted_files e ++ [d]) as Hi.
  { apply set_insert_last, Forall_forall. intros y Hy. apply StronglySorted_app in Hs as (Hs & _ & _).
    apply Hs; [done|by left]. }
  rewrite IH.
  - unfold add_deleted. rewrite Hi. destruct e; cbn. by rewrite <- app_assoc.
  - unfold add_deleted. rewrite Hi. destruct e; cbn in *. by rewrite <- app_assoc.
Qed.

Lemma foldl_files ts_sz l : forall e, foldl (fun e lf => add_file ts_sz lf e) e l =
  set_new_files (new_files e ++ (prod_map id (FileCodec.reloaded ts_sz) <$> l))
    (set_max_level (foldl Z.max (max_level e) (fst <$> l)) e).
Proof.
  induction l as [|[level f] l IH]; intros e; cbn [foldl]; [rewrite app_nil_r; by destruct e|]. rewrite IH.
  unfold add_file, push_file. destruct e; cbn. by rewrite <- app_assoc.
Qed.

Lemma foldl_blob_additions l : forall e, foldl (fun e b => AddBlobFile b e) e l =
  set_files_to_quarantine (files_to_quarantine e ++ (WalEdit.blob_file_number <$> l))
    (set_blob_file_additions (blob_file_additions e ++ l) e).
Proof.
  induction l as [|b l IH]; intros e; cbn [foldl]; [cbn; rewrite !app_nil_r; by destruct e|]. rewrite IH.
  unfold AddBlobFile. destruct e; cbn. by rewrite <- !app_assoc.
Qed.

Lemma foldl_blob_garbages l : forall e, foldl (fun e b => AddBlobFileGarbage b e) e l =
  set_blob_file_garbages (blob_file_garbages e ++ l) e.
Proof.
  induction l as [|b l IH]; intros e; cbn [foldl]; [rewrite app_nil_r; by destruct e|]. rewrite IH.
  unfold AddBlobFileGarbage. destruct e; cbn. by rewrite <- app_assoc.
Qed.

Lemma foldl_wals l : forall e, foldl (fun e w => AddWal w e) e l = set_wal_additions (wal_additions e ++ l) e.
Proof.
  induction l as [|b l IH]; intros e; cbn [foldl]; [rewrite app_nil_r; by destruct e|]. rewrite IH.
  unfold AddWal. destruct e; cbn. by rewrite <- app_assoc.
Qed.

(** *** The whole edit *)

(** The values of the members as their types have them.  New files must be complete,
    and the deleted files ascend, as in the [std::set]. *)
Record is_edit (ts_sz : nat) (e : VersionEdit) : Prop := {
  ok_db_id : forall s, db_id e = Some s -> is_slice s;
  ok_comparator : forall s, comparator e = Some s -> is_slice s;
  ok_log_number : forall v, log_number e = Some v -> is_u64 v;
  ok_prev_log_number : forall v, prev_log_number e = Some v -> is_u64 v;
  ok_next_file_number : forall v, next_file_number e = Some v -> is_u64 v;
  ok_max_column_family : forall v, max_column_family e = Some v -> is_u32 v;
  ok_min_log : forall v, min_log_number_to_keep e = Some v -> is_u64 v;
  ok_last_sequence : forall v, last_sequence e = Some v -> is_u64 v;
  ok_cursors : Forall (fun c => is_i32 c.1 /\ is_slice c.2) (compact_cursors e);
  ok_deleted : Forall (fun d => is_i32 d.1 /\ is_u64 d.2) (deleted_files e);
  ok_deleted_sorted : StronglySorted pair_lt (deleted_files e);
  ok_new_files : Forall (is_new_file ts_sz) (new_files e);
  ok_blob_additions : Forall WalEdit.is_blob_addition (blob_file_additions e);
  ok_blob_garbages : Forall WalEdit.is_blob_garbage (blob_file_garbages e);
  ok_wals : Forall WalEdit.is_wal (wal_additions e);
  ok_wal_deletion : is_u64 (wal_deletion e);
  ok_column_family : is_u32 (column_family e);
  ok_column_family_add : forall s, column_family_add e = Some s -> is_slice s;
  ok_atomic_group : forall v, atomic_group e = Some v -> is_u32 v;
  ok_ts_low : is_slice (full_history_ts_low e);
  ok_progress : forall p, subcompaction_progress e = Some p -> Progress.is_progress p;
}.

Definition levels (e : VersionEdit) : list Z :=
  (fst <$> valid_cursors (compact_cursors e)) ++ (fst <$> deleted_files e) ++ (fst <$> new_files e).

(** The edit as it is read back: invalid cursors are gone, timestamps that are not
    persisted are stripped from the boundaries, the progress is its delta, and the two
    members that are not written come from the entries. *)
Definition reload (ts_sz : nat) (e : VersionEdit) : VersionEdit :=
  mkEdit (foldl Z.max 0 (levels e)) (db_id e) (comparator e) (log_number e) (prev_log_number e) (next_file_number e)
    (max_column_family e) (min_log_number_to_keep e) (last_sequence e) (valid_cursors (compact_cursors e))
    (deleted_files e) (prod_map id (FileCodec.reloaded ts_sz) <$> new_files e) (blob_file_additions e)
    (blob_file_garbages e) (wal_additions e) (wal_deletion e) (column_family e) (column_family_add e)
    (column_family_drop e) (atomic_group e) (full_history_ts_low e) (persist_user_defined_timestamps e)
    (Progress.reloaded_progress <$> subcompaction_progress e) (WalEdit.blob_file_number <$> blob_file_additions e).

(** Reads the next entry of the goal: an optional member. *)
Ltac opt_step tag put set :=
  match goal with |- decode_all (put_opt ?o _ ++ ?r) ?e = _ =>
    transitivity (decode_all r (set o e));
      [apply (decode_all_opt tag o put r e (set o e)); [by vm_compute|let Ha := fresh "Ha" in intros ? Ha; rewrite Ha|let Ha := fresh "Ha" in intros Ha; by rewrite Ha]|] end.

Lemma decode_head ts_sz e rest : is_edit ts_sz e ->
  decode_all (encode_head e ++ rest) empty_edit =
  decode_all rest
    (set_deleted_files (deleted_files e) (set_compact_cursors (valid_cursors (compact_cursors e))
    (set_max_level (foldl Z.max 0 ((fst <$> valid_cursors (compact_cursors e)) ++ (fst <$> deleted_files e)))
    (set_last_sequence (last_sequence e) (set_min_log_number_to_keep (min_log_number_to_keep e)
    (set_max_column_family (max_column_family e) (set_next_file_number (next_file_number e)
    (set_prev_log_number (prev_log_number e) (set_log_number (log_number e)
    (set_comparator (comparator e) (set_db_id (db_id e) empty_edit))))))))))).
Proof.
  intros []. unfold encode_head. rewrite <- !app_assoc.
  opt_step kDbId PutLengthPrefixedSlice set_db_id; [apply slice_entry_put; auto|].
  opt_step kComparator PutLengthPrefixedSlice set_comparator; [apply slice_entry_put; auto|].
  opt_step kLogNumber PutVarint64 set_log_number; [apply varint64_entry_put; auto|].
  opt_step kPrevLogNumber PutVarint64 set_prev_log_number; [apply varint64_entry_put; auto|].
  opt_step kNextFileNumber PutVarint64 set_next_file_number; [apply varint64_entry_put; auto|].
  opt_step kMaxColumnFamily PutVarint32 set_max_column_family; [apply varint32_entry_put; auto|].
  opt_step kMinLogNumberToKeep PutVarint64 set_min_log_number_to_keep; [apply varint64_entry_put; auto|].
  opt_step kLastSequence PutVarint64 set_last_sequence; [apply varint64_entry_put; auto|].
  rewrite (decode_all_list put_cursor add_cursor _ _ decode_cursor) by done. rewrite foldl_cursors.
  rewrite (decode_all_list put_deleted add_deleted _ _ decode_deleted) by done. rewrite foldl_deleted by done.
  f_equal. cbn. by rewrite foldl_app.
Qed.

(** Reads the next entry of the goal: one that is written unless [b]. *)
Ltac if_step tag b body e' :=
  match goal with |- decode_all (_ ++ ?r) ?e = _ =>
    transitivity (decode_all r (e' e)); [apply (decode_all_if tag b body r e (e' e)); [by vm_compute|..]|] end.

Lemma decode_tail ts_sz e d : is_edit ts_sz e ->
  blob_file_additions d = [] -> files_to_quarantine d = [] -> blob_file_garbages d = [] -> wal_additions d = [] ->
  wal_deletion d = 0 -> column_family d = 0 -> column_family_add d = None -> column_family_drop d = false ->
  atomic_group d = None -> full_history_ts_low d = [] -> persist_user_defined_timestamps d = None ->
  subcompaction_progress d = None ->
  decode_all (encode_tail e) d =
  inr (set_subcompaction_progress (Progress.reloaded_progress <$> subcompaction_progress e)
    (set_persist_user_defined_timestamps (persist_user_defined_timestamps e)
    (set_full_history_ts_low (full_history_ts_low e) (set_atomic_group (atomic_group e)
    (set_column_family_drop (column_family_drop e) (set_column_family_add (column_family_add e)
    (set_column_family (column_family e) (set_wal_deletion (wal_deletion e) (set_wal_additions (wal_additions e)
    (set_blob_file_garbages (blob_file_garbages e)
    (set_files_to_quarantine (WalEdit.blob_file_number <$> blob_file_additions e)
    (set_blob_file_additions (blob_file_additions e) d)))))))))))).
Proof.
  intros [] ????????????. unfold encode_tail. rewrite <- (app_nil_r (put_opt (subcompaction_progress e) _)).
  destruct d; cbn in * |- ; subst.
  rewrite (decode_all_list put_blob_addition AddBlobFile _ _ decode_blob_addition) by done. rewrite foldl_blob_additions.
  rewrite (decode_all_list put_blob_garbage AddBlobFileGarbage _ _ decode_blob_garbage) by done. rewrite foldl_blob_garbages.
  rewrite (decode_all_list put_wal_addition AddWal _ _ decode_wal_addition) by done. rewrite foldl_wals.
  if_step kWalDeletion2 (WalEdit.WalDeletion_IsEmpty (wal_deletion e))
    (PutLengthPrefixedSlice (WalEdit.EncodeWalDeletion (wal_deletion e))) (set_wal_deletion (wal_deletion e));
    [by intros _; apply decode_wal_deletion|intros ->%Z.eqb_eq; done|].
  if_step kColumnFamily (column_family e =? 0) (PutVarint32 (column_family e)) (set_column_family (column_family e));
    [by intros _; apply varint32_entry_put|intros ->%Z.eqb_eq; done|].
  opt_step kColumnFamilyAdd PutLengthPrefixedSlice set_column_family_add; [apply slice_entry_put; auto|].
  rewrite decode_drop by done.
  opt_step kInAtomicGroup PutVarint32 set_atomic_group; [apply varint32_entry_put; auto|].
  if_step kFullHistoryTsLow (bool_decide (full_history_ts_low e = [])) (PutLengthPrefixedSlice (full_history_ts_low e))
    (set_full_history_ts_low (full_history_ts_low e));
    [intros ?%bool_decide_eq_false; by apply decode_ts_low|intros ->%bool_decide_eq_true; done|].
  opt_step kPersistUserDefinedTimestamps (fun b : bool => PutLengthPrefixedSlice [if b then 1 else 0])
    set_persist_user_defined_timestamps; [apply decode_persist|].
  opt_step kSubcompactionProgress (fun p => PutLengthPrefixedSlice (Progress.EncodeProgress p))
    (fun o => set_subcompaction_progress (Progress.reloaded_progress <$> o)); [apply decode_progress; auto|].
  done.
Qed.

(** Reading back an edit gives the edit. *)
Lemma DecodeFrom_EncodeTo ts_sz e : is_edit ts_sz e ->
  exists bytes, EncodeTo (Some ts_sz) e = Some bytes /\ DecodeFrom bytes = inr (reload ts_sz e).
Proof.
  intros He. pose proof (ok_min_log _ _ He) as Hm. pose proof (ok_new_files _ _ He) as Hn.
  destruct (decode_new_files ts_sz (min_log_number_to_keep e) (new_files e) Hm false Hn) as (bytes & Hb & Hdec).
  exists (encode_head e ++ bytes ++ encode_tail e). split.
  - unfold EncodeTo. destruct (new_files e) eqn:Hf; [|by rewrite Hb]. cbn in Hb. by simplify_eq.
  - unfold DecodeFrom. rewrite (decode_head ts_sz) by done. rewrite Hdec by done. rewrite foldl_files.
    rewrite (decode_tail ts_sz) by done. f_equal. unfold reload, levels. cbn. by rewrite !foldl_app.
Qed.

(** ** What is read is typed *)

Record typed_edit (e : VersionEdit) : Prop := {
  ty_db_id : forall s, db_id e = Some s -> is_slice s;
  ty_comparator : forall s, comparator e = Some s -> is_slice s;
  ty_log_number : forall v, log_number e = Some v -> is_u64 v;
  ty_prev_log_number : forall v, prev_log_number e = Some v -> is_u64 v;
  ty_next_file_number : forall v, next_file_number e = Some v -> is_u64 v;
  ty_max_column_family : forall v, max_column_family e = Some v -> is_u32 v;
  ty_min_log : forall v, min_log_number_to_keep e = Some v -> is_u64 v;
  ty_last_sequence : forall v, last_sequence e = Some v -> is_u64 v;
  ty_cursors : Forall (fun c => is_i32 c.1 /\ FileCodec.is_key c.2) (compact_cursors e);
  ty_deleted : Forall (fun d => is_i32 d.1 /\ is_u64 d.2) (deleted_files e);
  ty_deleted_sorted : StronglySorted pair_lt (deleted_files e);
  ty_new_files : Forall (fun lf => is_i32 lf.1 /\ FileCodec.typed_file lf.2) (new_files e);
  ty_blob_additions : Forall WalEdit.is_blob_addition (blob_file_additions e);
  ty_blob_garbages : Forall WalEdit.is_blob_garbage (blob_file_garbages e);
  ty_wals : Forall WalEdit.is_wal (wal_additions e);
  ty_wal_deletion : is_u64 (wal_deletion e);
  ty_column_family : is_u32 (column_family e);
  ty_column_family_add : forall s, column_family_add e = Some s -> is_slice s;
  ty_atomic_group : forall v, atomic_group e = Some v -> is_u32 v;
  ty_ts_low : is_slice (full_history_ts_low e);
  ty_progress : forall p, subcompaction_progress e = Some p -> Progress.typed_progress p;
}.

Lemma set_insert_elem x y l : y ∈ set_insert x l -> y = x \/ y ∈ l.
Proof.
  induction l as [|z l IH]; cbn [set_insert]; [set_solver|].
  destruct (pair_ltb x z); [set_solver|]. destruct (pair_ltb z x); [|set_solver].
  rewrite !elem_of_cons. intros [->|?]; [tauto|]. destruct (IH ltac:(done)); tauto.
Qed.

Lemma set_insert_sorted x l : StronglySorted pair_lt l -> StronglySorted pair_lt (set_insert x l).
Proof.
  induction 1 as [|y l Hs IH Hall]; cbn [set_insert]; [repeat constructor|].
  destruct (pair_ltb x y) eqn:Hxy; [|destruct (pair_ltb y x) eqn:Hyx; [|by constructor]].
  - constructor; [by constructor|]. constructor; [done|]. eapply Forall_impl; [done|]. intros z. by apply pair_lt_trans.
  - constructor; [done|]. apply Forall_forall. intros z [->|Hz]%set_insert_elem; [done|]. rewrite Forall_forall in Hall. auto.
Qed.

Lemma set_insert_Forall (P : Z * Z -> Prop) x l : P x -> Forall P l -> Forall P (set_insert x l).
Proof. rewrite !Forall_forall. intros Hx Hl z [->|Hz]%set_insert_elem; auto. Qed.

(** An edit with one member replaced by a typed value. *)
Ltac typed_member :=
  match goal with H : typed_edit ?e |- typed_edit _ => destruct H; destruct e; constructor; cbn in * end;
  try done; try (apply Forall_app; split; [done|]; apply Forall_singleton; done); try (intros ? [= <-]; done).

Lemma push_file_typed level f ml e : typed_edit e -> is_i32 level -> FileCodec.typed_file f -> typed_edit (push_file level f ml e).
Proof. intros He Hl Hf. unfold push_file. typed_member. Qed.

Lemma slice_entry_typed i k e' i1 : is_bytes i -> (forall s, is_slice s -> typed_edit (k s)) ->
  slice_entry i k = inr (e', i1) -> typed_edit e' /\ is_bytes i1.
Proof.
  intros Hi Hk ([s r] & H & [= <- <-])%or_corrupt_inr. destruct (GetLengthPrefixedSlice_bytes _ _ _ Hi H) as [_ ?].
  split; [|done]. apply Hk. exact (GetLengthPrefixedSlice_slice _ _ _ Hi H).
Qed.

Lemma varint64_entry_typed i k e' i1 : is_bytes i -> (forall v, is_u64 v -> typed_edit (k v)) ->
  varint64_entry i k = inr (e', i1) -> typed_edit e' /\ is_bytes i1.
Proof.
  intros Hi Hk ([s r] & H & [= <- <-])%or_corrupt_inr. pose proof (GetVarint64_bytes _ _ _ Hi H).
  split; [|done]. apply Hk. exact (GetVarint64_range _ _ _ H).
Qed.

Lemma varint32_entry_typed i k e' i1 : is_bytes i -> (forall v, is_u32 v -> typed_edit (k v)) ->
  varint32_entry i k = inr (e', i1) -> typed_edit e' /\ is_bytes i1.
Proof.
  intros Hi Hk ([s r] & H & [= <- <-])%or_corrupt_inr. pose proof (GetVarint32_bytes _ _ _ Hi H).
  split; [|done]. apply Hk. exact (GetVarint32_range _ _ _ Hi H).
Qed.

(** Steps a decoder over a reader, with the facts about what was read. *)
Ltac typed_step := match goal with
  | H : or_corrupt (GetVarint64 ?i) _ = inr _, B : is_bytes ?i |- _ =>
      let G := fresh in apply or_corrupt_inr in H as ([? ?] & G & H);
      pose proof (GetVarint64_range _ _ _ G); apply GetVarint64_bytes in G; [|exact B]
  | H : or_corrupt (GetVarint32 ?i) _ = inr _, B : is_bytes ?i |- _ =>
      let G := fresh in apply or_corrupt_inr in H as ([? ?] & G & H); apply GetVarint32_bytes in G; [|exact B]
  | H : or_corrupt (FileCodec.GetLevel _ ?i) _ = inr _, B : is_bytes ?i |- _ =>
      let G := fresh in apply or_corrupt_inr in H as ([[? ?] ?] & G & H); apply FileCodec.GetLevel_level in G as [? ?]; [|exact B]
  | H : or_corrupt (FileCodec.GetInternalKey ?i) _ = inr _, B : is_bytes ?i |- _ =>
      let G := fresh in apply or_corrupt_inr in H as ([? ?] & G & H); apply FileCodec.GetInternalKey_key in G as [? ?]; [|exact B]
  | H : or_corrupt (GetLengthPrefixedSlice ?i) _ = inr _, B : is_bytes ?i |- _ =>
      let G := fresh in apply or_corrupt_inr in H as ([? ?] & G & H);
      pose proof (GetLengthPrefixedSlice_slice _ _ _ B G); apply GetLengthPrefixedSlice_bytes in G as [? ?]; [|exact B]
  end.

Lemma new_file_entries_typed i e e' i1 : is_bytes i -> typed_edit e ->
  new_file_entry i e = inr (e', i1) \/ new_file2_entry i e = inr (e', i1) \/ new_file3_entry i e = inr (e', i1) ->
  typed_edit e' /\ is_bytes i1.
Proof.
  intros Hi He [H|[H|H]].
  - unfold new_file_entry in H. repeat typed_step. simplify_eq. split; [|done].
    apply push_file_typed; [done..|]. apply FileCodec.set_fd_typed; [by apply FileCodec.pack_range|done|by vm_compute|by vm_compute|].
    by apply FileCodec.default_file_typed.
  - apply or_corrupt_inr in H as ([[[l m] [[[[[n s] k1] k2] lo] hi]] r] & H & [= <- <-]).
    apply FileCodec.read_fixed_typed in H as (? & ? & ? & ? & ? & ? & ? & ?); [|done]. split; [|done].
    apply push_file_typed; [done..|]. apply FileCodec.set_fd_typed; [by apply FileCodec.pack_range|done..|]. by apply FileCodec.default_file_typed.
  - unfold new_file3_entry in H. repeat typed_step. simplify_eq. split; [|done].
    apply push_file_typed; [done..|]. apply FileCodec.set_fd_typed; [by apply FileCodec.pack_range|done..|]. by apply FileCodec.default_file_typed.
Qed.

Lemma new_file4_entry_typed i e e' i1 : is_bytes i -> typed_edit e -> new_file4_entry i e = inr (e', i1) -> typed_edit e' /\ is_bytes i1.
Proof.
  intros Hi He. unfold new_file4_entry. destruct (FileCodec.DecodeNewFile4From _ _ _) as [|[[[r m] ml] [l f]]] eqn:H; [done|].
  apply FileCodec.DecodeNewFile4From_typed in H as (? & ? & ? & ?); [|done|apply He]. intros [= <- <-]. split; [|done].
  apply push_file_typed; [|done..]. typed_member.
Qed.

Lemma other_entries_typed i e e' i1 : is_bytes i -> typed_edit e ->
  cursor_entry i e = inr (e', i1) \/ deleted_entry i e = inr (e', i1) \/ ts_low_entry i e = inr (e', i1) \/
  persist_entry i e = inr (e', i1) \/ progress_entry i e = inr (e', i1) -> typed_edit e' /\ is_bytes i1.
Proof.
  intros Hi He [H|[H|[H|[H|H]]]].
  - unfold cursor_entry in H. repeat typed_step. simplify_eq. split; [typed_member|done].
  - unfold deleted_entry in H. repeat typed_step. simplify_eq. split; [typed_member|done].
    + by apply set_insert_Forall.
    + by apply set_insert_sorted.
  - unfold ts_low_entry in H. typed_step. repeat case_match; simplify_eq. split; [typed_member|done].
  - unfold persist_entry in H. typed_step. repeat case_match; simplify_eq. split; [typed_member|done].
  - unfold progress_entry in H. typed_step. destruct (Progress.DecodeProgress _) as [|[q r]] eqn:Hq; [done|].
    apply Progress.DecodeProgress_typed in Hq; [|done]. simplify_eq. split; [typed_member|done].
Qed.

Lemma blob_entries_typed i e : is_bytes i -> typed_edit e ->
  (forall b i1, WalEdit.DecodeBlobFileAddition i = Some (b, i1) -> typed_edit (AddBlobFile b e) /\ is_bytes i1) /\
  (forall b i1, WalEdit.DecodeBlobFileGarbage i = Some (b, i1) -> typed_edit (AddBlobFileGarbage b e) /\ is_bytes i1) /\
  (forall w i1, WalEdit.DecodeWalAddition i = Some (w, i1) -> typed_edit (AddWal w e) /\ is_bytes i1) /\
  (forall w i1, WalEdit.DecodeWalDeletion i = Some (w, i1) -> typed_edit (set_wal_deletion w e) /\ is_bytes i1).
Proof.
  intros Hi He. split_and!; intros b i1 H.
  - apply WalEdit.DecodeBlobFileAddition_typed in H as [? ?]; [|done]. split; [|done]. unfold AddBlobFile. typed_member.
  - apply WalEdit.DecodeBlobFileGarbage_typed in H as [? ?]; [|done]. split; [|done]. unfold AddBlobFileGarbage. typed_member.
  - apply WalEdit.DecodeWalAddition_typed in H as [? ?]; [|done]. split; [|done]. unfold AddWal. typed_member.
  - pose proof (GetVarint64_range _ _ _ H). apply GetVarint64_bytes in H; [|done]. split; [typed_member|done].
Qed.

Lemma decode_entry_typed tag i e e' i1 : is_bytes i -> typed_edit e -> decode_entry tag i e = inr (e', i1) -> typed_edit e' /\ is_bytes i1.
Proof.
  intros Hi He H. unfold decode_entry in H. destruct (blob_entries_typed i e Hi He) as (Hba & Hbg & Hwa & Hwd).
  repeat match type of H with (if ?b then _ else _) = _ => destruct b end;
    try (refine (slice_entry_typed _ _ _ _ Hi _ H); intros ? ?; typed_member);
    try (refine (varint64_entry_typed _ _ _ _ Hi _ H); intros ? ?; typed_member);
    try (refine (varint32_entry_typed _ _ _ _ Hi _ H); intros ? ?; typed_member);
    try (apply (new_file_entries_typed i e); [done|done|tauto]);
    try (by apply (new_file4_entry_typed i e));
    try (apply (other_entries_typed i e); [done|done|tauto]);
    try (apply or_corrupt_inr in H as ([? ?] & H & [= <- <-]); by eauto).
  - apply or_corrupt_inr in H as ([s r] & G & H). destruct (GetLengthPrefixedSlice_bytes _ _ _ Hi G) as [Bs Br].
    apply or_corrupt_inr in H as ([w q] & H & [= <- <-]). split; [|done].
    exact (proj1 (proj1 (proj2 (proj2 (blob_entries_typed s e Bs He))) w q H)).
  - apply or_corrupt_inr in H as ([s r] & G & H). destruct (GetLengthPrefixedSlice_bytes _ _ _ Hi G) as [Bs Br].
    apply or_corrupt_inr in H as ([w q] & H & [= <- <-]). split; [|done].
    exact (proj1 (proj2 (proj2 (proj2 (blob_entries_typed s e Bs He))) w q H)).
  - simplify_eq. split; [typed_member|done].
  - unfold unknown_entry in H. destruct (negb _); [|done]. typed_step. destruct (_ <? _); [done|]. simplify_eq.
    split; [done|]. by apply Forall_drop.
Qed.

Lemma decode_loop_typed fuel : forall i e e', is_bytes i -> typed_edit e -> decode_loop fuel i e = inr e' -> typed_edit e'.
Proof.
  induction fuel as [|fuel IH]; intros i e e' Hi He; cbn [decode_loop]; [done|].
  destruct (GetVarint32 i) as [[tag i1]|] eqn:H; [|destruct i; [by intros [= <-]|done]].
  apply GetVarint32_bytes in H; [|done]. destruct (decode_entry tag i1 e) as [|[e1 i2]] eqn:H1; [done|].
  apply decode_entry_typed in H1 as [? ?]; [|done|done]. by apply IH.
Qed.

Lemma empty_edit_typed : typed_edit empty_edit.
Proof. constructor; try done; try constructor; by vm_compute. Qed.

(** ** Claims *)

(** A file and an edit that deletes a file, adds another and moves the counters. *)
Definition sample_file : FileCodec.FileMetaData :=
  FileCodec.set_epoch 3 (FileCodec.set_bounds (Version.InternalKey [97; 98] 5 1) (Version.InternalKey [122] 9 1)
    (FileCodec.set_fd (FileCodec.PackFileNumberAndPathId 12 0) 4096 5 9 FileCodec.default_file)).

Definition sample_edit : VersionEdit :=
  AddFile 2 sample_file (DeleteFile 1 7 (set_last_sequence (Some 9) (set_next_file_number (Some 13) empty_edit))).

Lemma sample_file_ok : FileCodec.is_file 0 sample_file.
Proof. by constructor; (apply (bool_decide_unpack _); vm_compute; exact I) || vm_compute. Qed.

Lemma sample_edit_ok : is_edit 0 sample_edit.
Proof.
  constructor; try (by apply (bool_decide_unpack _)); try (by intros ? [= <-]); try done.
  - repeat constructor.
  - apply Forall_singleton. split_and!; [done|done|apply sample_file_ok|done..].
Qed.



(** C22: Whatever bytes are decoded, every member of the edit is in the range of its type, the
    boundaries are valid internal keys, and the deleted files are in order and distinct. *)
Theorem DecodeFrom_typed src e : is_bytes src -> DecodeFrom src = inr e -> typed_edit e.
Proof. intros Hs. apply decode_loop_typed; [done|apply empty_edit_typed]. Qed.

Lemma DecodeFrom_typed_witness : exists e, DecodeFrom [2; 7; 6; 1; 9] = inr e /\ typed_edit e.
Proof.
  eexists. split; [vm_compute; reflexivity|].
  apply (DecodeFrom_typed [2; 7; 6; 1; 9]); [by apply (bool_decide_unpack _)|by vm_compute].
Defined.

End EditCodec.
