(* ===== verification/Storage.v ===== *)
(** * The files of a version

    [VersionStorageInfo] of [db/version_set.h] and [db/version_set.cc] as far as the
    version builder uses it: the table files of every level, the index from file numbers
    to levels and positions, the blob files, the compact cursors and the requirement on
    epoch numbers; and the three orders of [VersionBuilder::Rep] in
    [db/version_builder.cc].  The user comparator is an interface with the laws that
    [include/rocksdb/comparator.h] asks for, and [BytewiseComparator] is an instance.
    Reference counts and the sampled statistics are left out.  A key is a list of bytes,
    a file the record [FileCodec.FileMetaData]; pointers to files are the files
    themselves, since the members kept here do not change after a file is added. *)

From Stdlib Require Import ZArith Lia.
From stdpp Require Import base numbers list gmap sorting.
From S2P Require Import Prelude Version Coding WalEdit FileCodec.

Import FileCodec.
Local Open Scope Z_scope.

(** ** Comparators *)

Class Comparator := Compare : list Z -> list Z -> Z.

(** A total order up to the keys that compare as equal. *)
Class ComparatorLaws (C : Comparator) : Prop := {
  Compare_flip a b : Z.sgn (Compare b a) = - Z.sgn (Compare a b);
  Compare_trans a b c : Compare a b <= 0 -> Compare b c <= 0 -> Compare a c <= 0;
}.

Module Storage.

(** [memcmp] of as many bytes as the shorter slice has, then the lengths. *)
Fixpoint Slice_compare (a b : list Z) : Z :=
  match a, b with
  | [], [] => 0
  | [], _ :: _ => -1
  | _ :: _, [] => 1
  | x :: a', y :: b' => if x <? y then -1 else if y <? x then 1 else Slice_compare a' b'
  end.

#[global] Instance BytewiseComparator : Comparator := Slice_compare.

Definition ExtractUserKey (key : list Z) : list Z := take (length key - Version.kNumInternalBytes) key.

Definition footer (key : list Z) : Z := Version.DecodeFixed64 (drop (length key - Version.kNumInternalBytes) key).

(** [InternalKeyComparator::Compare]. *)
Definition icmp `{Comparator} (akey bkey : list Z) : Z :=
  let r := Compare (ExtractUserKey akey) (ExtractUserKey bkey) in
  if r =? 0
  then if footer bkey <? footer akey then -1 else if footer akey <? footer bkey then 1 else r
  else r.

(** ** Orders of the files of a level *)

Definition NewestFirstBySeqNo (lhs rhs : FileMetaData) : bool :=
  if negb (largest_seqno lhs =? largest_seqno rhs) then largest_seqno rhs <? largest_seqno lhs
  else if negb (smallest_seqno lhs =? smallest_seqno rhs) then smallest_seqno rhs <? smallest_seqno lhs
  else GetNumber rhs <? GetNumber lhs.

Definition NewestFirstByEpochNumber (lhs rhs : FileMetaData) : bool :=
  if negb (epoch_number lhs =? epoch_number rhs) then epoch_number rhs <? epoch_number lhs
  else NewestFirstBySeqNo lhs rhs.

Definition BySmallestKey `{Comparator} (lhs rhs : FileMetaData) : bool :=
  let r := icmp (smallest lhs) (smallest rhs) in
  if negb (r =? 0) then r <? 0 else GetNumber lhs <? GetNumber rhs.

(** ** State *)

Inductive EpochNumberRequirement := kMightMissing | kMustPresent.

#[global] Instance requirement_eq_dec : EqDecision EpochNumberRequirement.
Proof. solve_decision. Defined.

(** The shared part has the members of a [BlobFileAddition]. *)
Record BlobFileMetaData := mkBlob {
  shared_meta : WalEdit.BlobFileAddition;
  linked_ssts : gset Z;
  garbage_count : Z;
  garbage_bytes : Z;
}.

Definition GetBlobFileNumber (b : BlobFileMetaData) : Z := WalEdit.blob_file_number (shared_meta b).

Record FileLocation := mkLocation {
  loc_level : nat;
  loc_position : nat;
}.

#[global] Instance location_eq_dec : EqDecision FileLocation.
Proof. solve_decision. Defined.

Record VersionStorageInfo := mkStorage {
  files_ : list (list FileMetaData);
  file_locations_ : gmap Z FileLocation;
  blob_files_ : list BlobFileMetaData;
  compact_cursor_ : list (list Z);
  epoch_number_requirement_ : EpochNumberRequirement;
}.

Definition num_levels (v : VersionStorageInfo) : nat := length (files_ v).

Definition LevelFiles (level : nat) (v : VersionStorageInfo) : list FileMetaData :=
  default [] (files_ v !! level).

(** The constructor: the cursors are those of the version it is derived from. *)
Definition new_storage (levels : nat) (ref_vstorage : option VersionStorageInfo)
    (requirement : EpochNumberRequirement) : VersionStorageInfo :=
  mkStorage (replicate levels []) ∅ []
    (match ref_vstorage with
     | Some ref => resize levels [] (compact_cursor_ ref)
     | None => replicate levels []
     end) requirement.

(** [unordered_map::emplace] keeps an entry that is there. *)
Definition emplace {A} (k : Z) (x : A) (m : gmap Z A) : gmap Z A :=
  match m !! k with Some _ => m | None => <[k := x]> m end.

Definition set_files (fs : list (list FileMetaData)) (locs : gmap Z FileLocation)
    (v : VersionStorageInfo) : VersionStorageInfo :=
  mkStorage fs locs (blob_files_ v) (compact_cursor_ v) (epoch_number_requirement_ v).

Definition AddFile (level : nat) (f : FileMetaData) (v : VersionStorageInfo) : VersionStorageInfo :=
  set_files (alter (fun l => l ++ [f]) level (files_ v))
    (emplace (GetNumber f) (mkLocation level (length (LevelFiles level v))) (file_locations_ v)) v.

Fixpoint index_files (level pos : nat) (l : list FileMetaData) (locs : gmap Z FileLocation) : gmap Z FileLocation :=
  match l with
  | [] => locs
  | f :: l' => index_files level (S pos) l' (emplace (GetNumber f) (mkLocation level pos) locs)
  end.

Definition AddFilesForUnchangedLevel (level : nat) (files : list FileMetaData)
    (v : VersionStorageInfo) : VersionStorageInfo :=
  set_files (<[level := files]> (files_ v)) (index_files level 0 files (file_locations_ v)) v.

Definition AddBlobFile (b : BlobFileMetaData) (v : VersionStorageInfo) : VersionStorageInfo :=
  mkStorage (files_ v) (file_locations_ v) (blob_files_ v ++ [b]) (compact_cursor_ v) (epoch_number_requirement_ v).

Definition AddCursorForOneLevel (level : nat) (key : list Z) (v : VersionStorageInfo) : VersionStorageInfo :=
  mkStorage (files_ v) (file_locations_ v) (blob_files_ v) (<[level := key]> (compact_cursor_ v))
    (epoch_number_requirement_ v).

Definition SetEpochNumberRequirement (q : EpochNumberRequirement) (v : VersionStorageInfo) : VersionStorageInfo :=
  mkStorage (files_ v) (file_locations_ v) (blob_files_ v) (compact_cursor_ v) q.

Definition HasMissingEpochNumber (v : VersionStorageInfo) : bool :=
  existsb (existsb (fun f => epoch_number f =? kUnknownEpochNumber)) (files_ v).

(** [GetFileLocation(n).GetLevel()] is -1 for a number that is not in the version. *)
Definition GetFileLevel (n : Z) (v : VersionStorageInfo) : Z :=
  match file_locations_ v !! n with Some loc => Z.of_nat (loc_level loc) | None => -1 end.

Definition GetFileMetaDataByNumber (n : Z) (v : VersionStorageInfo) : option FileMetaData :=
  loc ← file_locations_ v !! n; LevelFiles (loc_level loc) v !! loc_position loc.

(** [std::lower_bound] over the blob files, which are in ascending order. *)
Fixpoint lower_bound (n : Z) (l : list BlobFileMetaData) : list BlobFileMetaData :=
  match l with
  | [] => []
  | b :: l' => if GetBlobFileNumber b <? n then lower_bound n l' else l
  end.

Definition GetBlobFileMetaDataLB (n : Z) (v : VersionStorageInfo) : list BlobFileMetaData :=
  lower_bound n (blob_files_ v).

Definition GetBlobFileMetaData (n : Z) (v : VersionStorageInfo) : option BlobFileMetaData :=
  match GetBlobFileMetaDataLB n v with
  | b :: _ => if GetBlobFileNumber b =? n then Some b else None
  | [] => None
  end.

(** [GenerateFileLocationIndex] rebuilds the index unless it has an entry for every file. *)
Fixpoint index_levels (level : nat) (ls : list (list FileMetaData)) (locs : gmap Z FileLocation) : gmap Z FileLocation :=
  match ls with
  | [] => locs
  | l :: ls' => index_levels (S level) ls' (index_files level 0 l locs)
  end.

Definition GenerateFileLocationIndex (v : VersionStorageInfo) : VersionStorageInfo :=
  if decide (size (file_locations_ v) = length (concat (files_ v))) then v
  else set_files (files_ v) (index_levels 0 (files_ v) ∅) v.

(** The table files of a version by number, with their levels. *)
Definition contents (v : VersionStorageInfo) : gmap Z (Z * FileMetaData) :=
  map_imap (fun _ loc => f ← LevelFiles (loc_level loc) v !! loc_position loc; Some (Z.of_nat (loc_level loc), f))
    (file_locations_ v).

(** ** Laws of the orders *)

#[global] Instance bytewise_laws : ComparatorLaws BytewiseComparator.
Proof.
  split.
  - unfold Compare, BytewiseComparator. intros a. induction a as [|x a IH]; intros [|y b]; cbn [Slice_compare]; try done.
    destruct (Z.ltb_spec x y), (Z.ltb_spec y x); try lia. apply IH.
  - unfold Compare, BytewiseComparator. intros a. induction a as [|x a IH]; intros [|y b] [|z c]; cbn [Slice_compare]; try lia.
    destruct (Z.ltb_spec x y), (Z.ltb_spec y x), (Z.ltb_spec y z), (Z.ltb_spec z y), (Z.ltb_spec x z), (Z.ltb_spec z x);
      try lia. apply IH.
Qed.

(** A strict order of files in which only files of one number tie. *)
Class FileOrder (lt : FileMetaData -> FileMetaData -> bool) : Prop := {
  order_asym a b : lt a b = true -> lt b a = false;
  order_trans a b c : lt b a = false -> lt c b = false -> lt c a = false;
  order_tie a b : lt a b = false -> lt b a = false -> GetNumber a = GetNumber b;
}.

#[global] Instance seqno_order : FileOrder NewestFirstBySeqNo.
Proof. split; unfold NewestFirstBySeqNo; intros; repeat case_match; lia. Qed.

#[global] Instance epoch_order : FileOrder NewestFirstByEpochNumber.
Proof.
  split; unfold NewestFirstByEpochNumber; intros *.
  - destruct (Z.eqb_spec (epoch_number a) (epoch_number b)) as [E|E], (Z.eqb_spec (epoch_number b) (epoch_number a)); cbn; try lia.
    apply order_asym.
  - destruct (Z.eqb_spec (epoch_number b) (epoch_number a)), (Z.eqb_spec (epoch_number c) (epoch_number b)),
      (Z.eqb_spec (epoch_number c) (epoch_number a)); cbn; try lia. apply order_trans.
  - destruct (Z.eqb_spec (epoch_number a) (epoch_number b)), (Z.eqb_spec (epoch_number b) (epoch_number a)); cbn; try lia.
    apply order_tie.
Qed.

Section comparator.
Context {C : Comparator} {L : ComparatorLaws C}.

Lemma icmp_flip a b : Z.sgn (icmp b a) = - Z.sgn (icmp a b).
Proof.
  unfold icmp. pose proof (Compare_flip (ExtractUserKey a) (ExtractUserKey b)) as H.
  destruct (Z.eqb_spec (Compare (ExtractUserKey a) (ExtractUserKey b)) 0),
    (Z.eqb_spec (Compare (ExtractUserKey b) (ExtractUserKey a)) 0); try lia.
  destruct (Z.ltb_spec (footer a) (footer b)), (Z.ltb_spec (footer b) (footer a)); lia.
Qed.

Lemma icmp_trans a b c : icmp a b <= 0 -> icmp b c <= 0 -> icmp a c <= 0.
Proof.
  unfold icmp. set (x := ExtractUserKey a). set (y := ExtractUserKey b). set (z := ExtractUserKey c).
  pose proof (Compare_flip x y). pose proof (Compare_flip y z). pose proof (Compare_flip x z).
  pose proof (Compare_trans x y z). pose proof (Compare_trans z x y). pose proof (Compare_trans y z x).
  pose proof (Compare_trans z y x). pose proof (Compare_trans x z y). pose proof (Compare_trans y x z).
  destruct (Z.eqb_spec (Compare x y) 0), (Z.eqb_spec (Compare y z) 0), (Z.eqb_spec (Compare x z) 0);
    repeat case_match; lia.
Qed.

#[global] Instance smallest_order : FileOrder BySmallestKey.
Proof.
  split; unfold BySmallestKey; intros *.
  - pose proof (icmp_flip (smallest a) (smallest b)).
    destruct (Z.eqb_spec (icmp (smallest a) (smallest b)) 0), (Z.eqb_spec (icmp (smallest b) (smallest a)) 0); cbn; lia.
  - pose proof (icmp_flip (smallest a) (smallest b)). pose proof (icmp_flip (smallest b) (smallest c)).
    pose proof (icmp_flip (smallest a) (smallest c)). pose proof (icmp_trans (smallest a) (smallest b) (smallest c)).
    pose proof (icmp_trans (smallest c) (smallest a) (smallest b)). pose proof (icmp_trans (smallest b) (smallest c) (smallest a)).
    pose proof (icmp_trans (smallest c) (smallest b) (smallest a)).
    destruct (Z.eqb_spec (icmp (smallest b) (smallest a)) 0), (Z.eqb_spec (icmp (smallest c) (smallest b)) 0),
      (Z.eqb_spec (icmp (smallest c) (smallest a)) 0); cbn; lia.
  - pose proof (icmp_flip (smallest a) (smallest b)).
    destruct (Z.eqb_spec (icmp (smallest a) (smallest b)) 0), (Z.eqb_spec (icmp (smallest b) (smallest a)) 0); cbn; lia.
Qed.

End comparator.

(** ** The index of the files *)

(** The index has exactly the files of the levels, so that no number occurs twice. *)
Definition indexed (v : VersionStorageInfo) : Prop :=
  forall n loc, file_locations_ v !! n = Some loc <->
    exists f, LevelFiles (loc_level loc) v !! loc_position loc = Some f /\ GetNumber f = n.

Lemma LevelFiles_lookup level v l : files_ v !! level = Some l -> LevelFiles level v = l.
Proof. unfold LevelFiles. by intros ->. Qed.

Lemma LevelFiles_num level v f : f ∈ LevelFiles level v -> (level < num_levels v)%nat.
Proof.
  unfold LevelFiles, num_levels. destruct (files_ v !! level) as [l|] eqn:E; cbn; [intros _|by intros ?%not_elem_of_nil].
  by eapply lookup_lt_Some.
Qed.

Lemma LevelFiles_insert level level' l fs locs v : (level < length fs)%nat ->
  LevelFiles level' (set_files (<[level := l]> fs) locs v) = if decide (level' = level) then l else default [] (fs !! level').
Proof.
  intros Hl. unfold LevelFiles, set_files; cbn [files_]. destruct (decide (level' = level)) as [->|].
  - by rewrite list_lookup_insert_eq.
  - by rewrite list_lookup_insert_ne.
Qed.

Lemma contents_lookup v n level f : indexed v ->
  contents v !! n = Some (level, f) <->
  exists k, level = Z.of_nat k /\ f ∈ LevelFiles k v /\ GetNumber f = n.
Proof.
  intros Hi. unfold contents. rewrite map_lookup_imap. split.
  - destruct (file_locations_ v !! n) as [loc|] eqn:E; cbn; [|done].
    destruct (LevelFiles (loc_level loc) v !! loc_position loc) as [g|] eqn:Hg; cbn; [|done].
    intros [= <- <-]. apply Hi in E as (g' & Hg' & Hn). simplify_eq. exists (loc_level loc). split_and!; [done| |done].
    by eapply list_elem_of_lookup_2.
  - intros (k & -> & [pos Hf]%list_elem_of_lookup_1 & Hn).
    assert (file_locations_ v !! n = Some (mkLocation k pos)) as ->; [apply Hi; eauto|]. cbn. by rewrite Hf.
Qed.

Lemma GetFileLevel_contents v n : indexed v -> GetFileLevel n v = from_option fst (-1) (contents v !! n).
Proof.
  intros Hi. unfold GetFileLevel, contents. rewrite map_lookup_imap.
  destruct (file_locations_ v !! n) as [loc|] eqn:E; cbn; [|done]. apply Hi in E as (f & -> & _). done.
Qed.

Lemma GetFileMetaDataByNumber_contents v n : indexed v -> GetFileMetaDataByNumber n v = snd <$> contents v !! n.
Proof.
  intros Hi. unfold GetFileMetaDataByNumber, contents. rewrite map_lookup_imap.
  destruct (file_locations_ v !! n) as [loc|] eqn:E; cbn; [|done]. by destruct (LevelFiles _ v !! _).
Qed.

(** The files of a level added one by one. *)
Lemma AddFile_fold level l : forall v, (level < num_levels v)%nat ->
  foldl (fun v f => AddFile level f v) v l =
  set_files (<[level := LevelFiles level v ++ l]> (files_ v))
    (index_files level (length (LevelFiles level v)) l (file_locations_ v)) v.
Proof.
  induction l as [|f l IH]; intros v Hv; cbn [foldl index_files].
  - rewrite app_nil_r. unfold LevelFiles, num_levels in *. destruct (files_ v !! level) as [k|] eqn:E.
    + cbn. rewrite list_insert_id by done. by destruct v.
    + apply lookup_ge_None in E. lia.
  - assert (LevelFiles level (AddFile level f v) = LevelFiles level v ++ [f]) as Hl.
    { unfold LevelFiles, AddFile, set_files, num_levels in *; cbn [files_]. rewrite list_lookup_alter_eq.
      apply lookup_lt_is_Some in Hv as [k ->]. done. }
    rewrite IH by (unfold num_levels, AddFile, set_files in *; cbn [files_]; by rewrite length_alter).
    rewrite Hl, length_app. cbn [length]. rewrite Nat.add_1_r, <- app_assoc. cbn [app].
    unfold AddFile, set_files; cbn [files_ file_locations_ blob_files_ compact_cursor_ epoch_number_requirement_]. f_equal.
    apply list_eq. intros i. destruct (decide (i = level)) as [->|].
    + rewrite !list_lookup_insert_eq; [done|done|by rewrite length_alter].
    + by rewrite !list_lookup_insert_ne, list_lookup_alter_ne by done.
Qed.

(** The files of an unchanged level are added at once, as if one by one. *)
Lemma AddFilesForUnchangedLevel_fold level files v : (level < num_levels v)%nat -> LevelFiles level v = [] ->
  AddFilesForUnchangedLevel level files v = foldl (fun v f => AddFile level f v) v files.
Proof. intros Hv Hl. rewrite AddFile_fold, Hl by done. done. Qed.

Lemma index_files_lookup level l : forall pos locs n loc, NoDup (GetNumber <$> l) ->
  (forall f, f ∈ l -> locs !! GetNumber f = None) ->
  index_files level pos l locs !! n = Some loc <->
  locs !! n = Some loc \/ exists i f, l !! i = Some f /\ GetNumber f = n /\ loc = mkLocation level (pos + i).
Proof.
  induction l as [|f l IH]; intros pos locs n loc Hnd Hfresh; cbn [index_files].
  - split; [by left|]. intros [?|(i & f & Hf & _)]; [done|]. by rewrite lookup_nil in Hf.
  - rewrite fmap_cons in Hnd. apply NoDup_cons in Hnd as [Hf Hnd].
    unfold emplace. rewrite Hfresh by left. rewrite IH; [|done|].
    + rewrite lookup_insert_Some. split.
      * intros [[[<- <-]|[_ ?]]|(i & g & Hg & Hn & ->)]; [|by left|].
        -- right. exists 0%nat, f. by rewrite Nat.add_0_r.
        -- right. exists (S i), g. split_and!; [done|done|]. f_equal. lia.
      * intros [Hn|([|i] & g & Hg & Hn & ->)]; cbn in *.
        -- left. right. split; [|done]. intros <-. rewrite Hfresh in Hn by left. done.
        -- simplify_eq. left. left. by rewrite Nat.add_0_r.
        -- right. exists i, g. split_and!; [done|done|]. f_equal. lia.
    + intros g Hg. rewrite lookup_insert_ne; [apply Hfresh; by right|]. intros E. apply Hf. rewrite E. by apply list_elem_of_fmap_2.
Qed.

Lemma index_levels_lookup ls : forall level locs n loc, NoDup (GetNumber <$> concat ls) ->
  (forall f, f ∈ concat ls -> locs !! GetNumber f = None) ->
  index_levels level ls locs !! n = Some loc <->
  locs !! n = Some loc \/
  exists k l f, ls !! k = Some l /\ l !! loc_position loc = Some f /\ GetNumber f = n /\ loc_level loc = (level + k)%nat.
Proof.
  induction ls as [|l ls IH]; intros level locs n loc Hnd Hfresh; cbn [index_levels].
  - split; [by left|]. intros [?|(k & l & f & Hl & _)]; [done|]. by rewrite lookup_nil in Hl.
  - cbn [concat] in *. rewrite fmap_app in Hnd. apply NoDup_app in Hnd as (H1 & H12 & H2).
    assert (forall f, f ∈ l -> locs !! GetNumber f = None) as Hl by (intros; apply Hfresh; set_solver).
    rewrite IH, index_files_lookup; [|done|done|done|].
    + split.
      * intros [[?|(i & f & Hf & Hn & ->)]|(k & l' & f & Hk & Hf & Hn & E)]; [by left| |].
        -- right. exists 0%nat, l, f. by rewrite Nat.add_0_r.
        -- right. exists (S k), l', f. split_and!; [done..|]. lia.
      * intros [?|(k & l' & f & Hk & Hf & Hn & E)]; [left; by left|]. destruct k as [|k]; cbn in Hk.
        -- simplify_eq. left. right. exists (loc_position loc), f. split_and!; [done|done|]. destruct loc; cbn in *. f_equal. lia.
        -- right. exists k, l', f. split_and!; [done..|]. lia.
    + intros f Hf. apply eq_None_not_Some. intros [loc' E]. apply index_files_lookup in E as [E|(i & g & Hg & Hn & _)]; [| |done|done].
      * rewrite Hfresh in E by set_solver. done.
      * apply (H12 (GetNumber g)); [by apply list_elem_of_fmap_2, list_elem_of_lookup_2 with i|]. rewrite Hn. by apply list_elem_of_fmap_2.
Qed.

(** An index over files of distinct numbers is right; so is the one [GenerateFileLocationIndex] builds. *)
Lemma index_levels_indexed ls v : NoDup (GetNumber <$> concat ls) -> indexed (set_files ls (index_levels 0 ls ∅) v).
Proof.
  intros Hnd n loc. unfold set_files at 1; cbn [file_locations_]. rewrite index_levels_lookup; [|done|by intros; rewrite lookup_empty].
  unfold LevelFiles, set_files; cbn [files_]. split.
  - intros [E|(k & l & f & Hk & Hf & Hn & E)]; [by rewrite lookup_empty in E|]. exists f. cbn in E. by rewrite E, Hk.
  - intros (f & Hf & Hn). right. destruct (ls !! loc_level loc) as [l|] eqn:E; [|cbn in Hf; by rewrite lookup_nil in Hf].
    by exists (loc_level loc), l, f.
Qed.

(** ** Blob files *)

Definition blob_sorted (l : list BlobFileMetaData) : Prop :=
  StronglySorted (fun a b => GetBlobFileNumber a < GetBlobFileNumber b) l.

Lemma lower_bound_filter n l : blob_sorted l -> lower_bound n l = filter (fun b => n <= GetBlobFileNumber b) l.
Proof.
  induction 1 as [|b l Hs IH Hb]; cbn [lower_bound]; [done|]. destruct (Z.ltb_spec (GetBlobFileNumber b) n).
  - by rewrite filter_cons_False, IH by lia.
  - rewrite filter_cons_True by lia. f_equal. symmetry. apply list_filter_all. rewrite Forall_forall in *. intros x Hx.
    specialize (Hb x Hx). lia.
Qed.

Lemma GetBlobFileMetaData_spec n v b : blob_sorted (blob_files_ v) ->
  GetBlobFileMetaData n v = Some b <-> b ∈ blob_files_ v /\ GetBlobFileNumber b = n.
Proof.
  unfold GetBlobFileMetaData, GetBlobFileMetaDataLB. induction 1 as [|x l Hs IH Hx]; cbn [lower_bound].
  - split; [done|]. by intros [?%not_elem_of_nil _].
  - rewrite elem_of_cons. rewrite Forall_forall in Hx. destruct (Z.ltb_spec (GetBlobFileNumber x) n).
    + rewrite IH. split; [tauto|]. intros [[->|?] ?]; [lia|done].
    + destruct (Z.eqb_spec (GetBlobFileNumber x) n).
      * split; [intros [= <-]; by split; [left|]|]. intros [[->|Hb] ?]; [done|]. specialize (Hx _ Hb). lia.
      * split; [done|]. intros [[->|Hb] ?]; [done|]. specialize (Hx _ Hb). lia.
Qed.

End Storage.
