(* ===== verification/Builder.v ===== *)
(** * The version builder

    [VersionBuilder::Rep] of [db/version_builder.cc]: a base version and the changes of a
    series of edits, applied one by one and saved to a new version at the end.  The
    mutable state of the builder is the record [Rep]; an operation gives its [Status] and
    the builder after it, or [None] where the code indexes [levels_] out of range or
    dereferences a null pointer.  [Options] has the three switches of
    [CheckConsistency]: virtual compaction, a debug build, and
    [force_consistency_checks].  An unordered map of added files is sorted before it is
    used, by an order in which only files of one number tie, so that [std::sort] has one
    result.  Tracking of found and missing files, which only point-in-time recovery turns
    on, and the charging of file metadata to the block cache are not modelled. *)

From Stdlib Require Import ZArith Lia.
From stdpp Require Import base numbers list gmap sorting.
From S2P Require Import Prelude Version Coding WalEdit FileCodec Progress EditCodec Storage.

Import FileCodec Storage.
Local Open Scope Z_scope.

Module Builder.

(** ** State *)

Record LevelState := mkLevel {
  deleted_files : gset Z;
  added_files : gmap Z FileMetaData;
}.

Record BlobFileMetaDataDelta := mkDelta {
  additional_garbage_count : Z;
  additional_garbage_bytes : Z;
  newly_linked_ssts : gset Z;
  newly_unlinked_ssts : gset Z;
}.

Record MutableBlobFileMetaData := mkMutable {
  blob : BlobFileMetaData;
  delta : BlobFileMetaDataDelta;
}.

Record Rep := mkRep {
  base_vstorage : VersionStorageInfo;
  levels : list LevelState;
  invalid_level_sizes : gmap Z Z;
  has_invalid_levels : bool;
  table_file_levels : gmap Z Z;
  updated_compact_cursors : gmap nat (list Z);
  mutable_blob_file_metas : gmap Z MutableBlobFileMetaData;
}.

Record Options := mkOptions {
  use_virtual_compaction : bool;
  debug_build : bool;
  force_consistency_checks : bool;
}.

Definition new_rep (base : VersionStorageInfo) : Rep :=
  mkRep base (replicate (num_levels base) (mkLevel ∅ ∅)) ∅ false ∅ ∅ ∅.

Definition level_state (r : Rep) (level : nat) : LevelState := default (mkLevel ∅ ∅) (levels r !! level).

Definition set_levels (ls : list LevelState) (r : Rep) : Rep :=
  mkRep (base_vstorage r) ls (invalid_level_sizes r) (has_invalid_levels r) (table_file_levels r)
    (updated_compact_cursors r) (mutable_blob_file_metas r).
Definition set_invalid (sizes : gmap Z Z) (flag : bool) (r : Rep) : Rep :=
  mkRep (base_vstorage r) (levels r) sizes flag (table_file_levels r) (updated_compact_cursors r)
    (mutable_blob_file_metas r).
Definition set_file_level (n level : Z) (r : Rep) : Rep :=
  mkRep (base_vstorage r) (levels r) (invalid_level_sizes r) (has_invalid_levels r)
    (<[n := level]> (table_file_levels r)) (updated_compact_cursors r) (mutable_blob_file_metas r).
Definition set_blob (n : Z) (m : MutableBlobFileMetaData) (r : Rep) : Rep :=
  mkRep (base_vstorage r) (levels r) (invalid_level_sizes r) (has_invalid_levels r) (table_file_levels r)
    (updated_compact_cursors r) (<[n := m]> (mutable_blob_file_metas r)).
Definition set_cursor (level : nat) (key : list Z) (r : Rep) : Rep :=
  mkRep (base_vstorage r) (levels r) (invalid_level_sizes r) (has_invalid_levels r) (table_file_levels r)
    (<[level := key]> (updated_compact_cursors r)) (mutable_blob_file_metas r).

(** ** Blob files *)

Definition IsEmpty (d : BlobFileMetaDataDelta) : bool :=
  (additional_garbage_count d =? 0) && (additional_garbage_bytes d =? 0) &&
  bool_decide (newly_linked_ssts d = ∅) && bool_decide (newly_unlinked_ssts d = ∅).

Definition HasDelta (m : MutableBlobFileMetaData) : bool := negb (IsEmpty (delta m)).

Definition delta_LinkSst (n : Z) (d : BlobFileMetaDataDelta) : BlobFileMetaDataDelta :=
  if decide (n ∈ newly_unlinked_ssts d)
  then mkDelta (additional_garbage_count d) (additional_garbage_bytes d) (newly_linked_ssts d) (newly_unlinked_ssts d ∖ {[n]})
  else mkDelta (additional_garbage_count d) (additional_garbage_bytes d) ({[n]} ∪ newly_linked_ssts d) (newly_unlinked_ssts d).

Definition delta_UnlinkSst (n : Z) (d : BlobFileMetaDataDelta) : BlobFileMetaDataDelta :=
  if decide (n ∈ newly_linked_ssts d)
  then mkDelta (additional_garbage_count d) (additional_garbage_bytes d) (newly_linked_ssts d ∖ {[n]}) (newly_unlinked_ssts d)
  else mkDelta (additional_garbage_count d) (additional_garbage_bytes d) (newly_linked_ssts d) ({[n]} ∪ newly_unlinked_ssts d).

Definition LinkSst (n : Z) (m : MutableBlobFileMetaData) : MutableBlobFileMetaData :=
  let b := blob m in
  mkMutable (mkBlob (shared_meta b) ({[n]} ∪ linked_ssts b) (garbage_count b) (garbage_bytes b)) (delta_LinkSst n (delta m)).

Definition UnlinkSst (n : Z) (m : MutableBlobFileMetaData) : MutableBlobFileMetaData :=
  let b := blob m in
  mkMutable (mkBlob (shared_meta b) (linked_ssts b ∖ {[n]}) (garbage_count b) (garbage_bytes b)) (delta_UnlinkSst n (delta m)).

(** [None] is [false]. *)
Definition AddGarbage (count bytes : Z) (m : MutableBlobFileMetaData) : option MutableBlobFileMetaData :=
  let b := blob m in
  let d := delta m in
  if (WalEdit.total_blob_count (shared_meta b) <? garbage_count b +% count)
     || (WalEdit.total_blob_bytes (shared_meta b) <? garbage_bytes b +% bytes)
  then None
  else Some (mkMutable (mkBlob (shared_meta b) (linked_ssts b) (garbage_count b +% count) (garbage_bytes b +% bytes))
         (mkDelta (additional_garbage_count d +% count) (additional_garbage_bytes d +% bytes)
            (newly_linked_ssts d) (newly_unlinked_ssts d))).

Definition IsBlobFileInVersion (n : Z) (r : Rep) : bool :=
  bool_decide (is_Some (mutable_blob_file_metas r !! n)) || bool_decide (is_Some (GetBlobFileMetaData n (base_vstorage r))).

(** The constructors of [MutableBlobFileMetaData]. *)
Definition mutable_of (b : BlobFileMetaData) : MutableBlobFileMetaData := mkMutable b (mkDelta 0 0 ∅ ∅).
Definition new_mutable (a : WalEdit.BlobFileAddition) : MutableBlobFileMetaData := mutable_of (mkBlob a ∅ 0 0).

Definition GetOrCreateMutableBlobFileMetaData (n : Z) (r : Rep) : option MutableBlobFileMetaData :=
  match mutable_blob_file_metas r !! n with
  | Some m => Some m
  | None => mutable_of <$> GetBlobFileMetaData n (base_vstorage r)
  end.

(** The update of the blob file of a table file, if it has one. *)
Definition update_blob (n : Z) (g : MutableBlobFileMetaData -> MutableBlobFileMetaData) (r : Rep) : Rep :=
  if n =? kInvalidBlobFileNumber then r
  else match GetOrCreateMutableBlobFileMetaData n r with
       | Some m => set_blob n (g m) r
       | None => r
       end.

Definition ApplyBlobFileAddition (a : WalEdit.BlobFileAddition) (r : Rep) : option (Status * Rep) :=
  let n := WalEdit.blob_file_number a in
  if IsBlobFileInVersion n r then Some (Corruption, r)
  else Some (OK, set_blob n (new_mutable a) r).

Definition ApplyBlobFileGarbage (g : WalEdit.BlobFileGarbage) (r : Rep) : option (Status * Rep) :=
  let n := WalEdit.garbage_file_number g in
  match GetOrCreateMutableBlobFileMetaData n r with
  | None => Some (Corruption, r)
  | Some m =>
    match AddGarbage (WalEdit.garbage_blob_count g) (WalEdit.garbage_blob_bytes g) m with
    | None => Some (Corruption, set_blob n m r)
    | Some m' => Some (OK, set_blob n m' r)
    end
  end.

(** ** Table files *)

Definition GetCurrentLevelForTableFile (n : Z) (r : Rep) : Z :=
  match table_file_levels r !! n with
  | Some level => level
  | None => GetFileLevel n (base_vstorage r)
  end.

Definition GetOldestBlobFileNumberForTableFile (level : nat) (n : Z) (r : Rep) : option Z :=
  match added_files (level_state r level) !! n with
  | Some f => Some (oldest_blob_file_number f)
  | None => oldest_blob_file_number <$> GetFileMetaDataByNumber n (base_vstorage r)
  end.

Definition ApplyFileDeletion (level n : Z) (r : Rep) : option (Status * Rep) :=
  let num := Z.of_nat (length (levels r)) in
  if negb (level =? GetCurrentLevelForTableFile n r)
  then Some (Corruption, set_invalid (invalid_level_sizes r) (has_invalid_levels r || (num <=? level)) r)
  else if num <=? level
  then Some (OK, set_file_level n (-1)
         (set_invalid (<[level := invalid_level_sizes r !!! level -% 1]> (invalid_level_sizes r)) (has_invalid_levels r) r))
  else if level <? 0 then None
  else
    let k := Z.to_nat level in
    blob_file_number ← GetOldestBlobFileNumberForTableFile k n r;
    let r1 := update_blob blob_file_number (UnlinkSst n) r in
    let st := level_state r1 k in
    let r2 := set_levels (<[k := mkLevel ({[n]} ∪ deleted_files st) (delete n (added_files st))]> (levels r1)) r1 in
    Some (OK, set_file_level n (-1) r2).

Definition ApplyFileAddition (level : Z) (f : FileMetaData) (r : Rep) : option (Status * Rep) :=
  let num := Z.of_nat (length (levels r)) in
  let n := GetNumber f in
  if negb (GetCurrentLevelForTableFile n r =? -1)
  then Some (Corruption, set_invalid (invalid_level_sizes r) (has_invalid_levels r || (num <=? level)) r)
  else if num <=? level
  then Some (OK, set_file_level n level
         (set_invalid (<[level := invalid_level_sizes r !!! level +% 1]> (invalid_level_sizes r)) (has_invalid_levels r) r))
  else if level <? 0 then None
  else
    let k := Z.to_nat level in
    let st := level_state r k in
    let r1 := set_levels (<[k := mkLevel (deleted_files st ∖ {[n]}) (emplace n f (added_files st))]> (levels r)) r in
    let r2 := update_blob (oldest_blob_file_number f) (LinkSst n) r1 in
    Some (OK, set_file_level n level r2).

Definition ApplyCompactCursors (level : Z) (key : list Z) (r : Rep) : option (Status * Rep) :=
  if level <? 0 then Some (Corruption, r)
  else if level <? Z.of_nat (length (levels r)) then Some (OK, set_cursor (Z.to_nat level) key r)
  else Some (OK, r).

(** ** Consistency *)

Definition UpdateExpectedLinkedSsts (f : FileMetaData) (expected : gmap Z (gset Z)) : gmap Z (gset Z) :=
  if oldest_blob_file_number f =? kInvalidBlobFileNumber then expected
  else <[oldest_blob_file_number f := {[GetNumber f]} ∪ expected !!! oldest_blob_file_number f]> expected.

(** The adjacent pairs of a level, and the links of its files. *)
Fixpoint CheckConsistencyDetailsForLevel (checker : FileMetaData -> FileMetaData -> bool) (l : list FileMetaData)
    (expected : gmap Z (gset Z)) : Status * gmap Z (gset Z) :=
  match l with
  | [] => (OK, expected)
  | lhs :: l' =>
    let expected' := UpdateExpectedLinkedSsts lhs expected in
    match l' with
    | [] => (OK, expected')
    | rhs :: _ => if checker lhs rhs then CheckConsistencyDetailsForLevel checker l' expected' else (Corruption, expected')
    end
  end.

Section comparator.
Context {C : Comparator}.

Definition l0_checker (requirement : EpochNumberRequirement) (lhs rhs : FileMetaData) : bool :=
  match requirement with
  | kMightMissing => NewestFirstBySeqNo lhs rhs
  | kMustPresent =>
    if (epoch_number lhs =? epoch_number rhs) && (icmp (smallest lhs) (largest rhs) <=? 0)
       && (0 <=? icmp (largest lhs) (smallest rhs))
    then false
    else NewestFirstByEpochNumber lhs rhs
  end.

Definition level_checker (lhs rhs : FileMetaData) : bool :=
  BySmallestKey lhs rhs && (icmp (largest lhs) (smallest rhs) <? 0).

Fixpoint check_levels (ls : list (list FileMetaData)) (expected : gmap Z (gset Z)) : Status * gmap Z (gset Z) :=
  match ls with
  | [] => (OK, expected)
  | l :: ls' =>
    match CheckConsistencyDetailsForLevel level_checker l expected with
    | (OK, expected') => check_levels ls' expected'
    | failed => failed
    end
  end.

Definition check_blobs (expected : gmap Z (gset Z)) (bs : list BlobFileMetaData) : Status :=
  if forallb (fun b => (garbage_count b <? WalEdit.total_blob_count (shared_meta b))
                       && bool_decide (linked_ssts b = expected !!! GetBlobFileNumber b)) bs
  then OK else Corruption.

Definition CheckConsistencyDetails (v : VersionStorageInfo) : Status :=
  match files_ v with
  | [] => check_blobs ∅ (blob_files_ v)
  | l0 :: ls =>
    match CheckConsistencyDetailsForLevel (l0_checker (epoch_number_requirement_ v)) l0 ∅ with
    | (OK, expected) =>
      match check_levels ls expected with
      | (OK, expected') => check_blobs expected' (blob_files_ v)
      | (s, _) => s
      end
    | (s, _) => s
    end
  end.

Definition CheckConsistency (o : Options) (v : VersionStorageInfo) : Status :=
  if use_virtual_compaction o then OK
  else if negb (debug_build o) && negb (force_consistency_checks o) then OK
  else CheckConsistencyDetails v.

Definition CheckConsistencyForNumLevels (r : Rep) : bool :=
  negb (has_invalid_levels r) && bool_decide (map_Forall (fun _ size => size = 0) (invalid_level_sizes r)).

(** ** Apply *)

Fixpoint each {A} (op : A -> Rep -> option (Status * Rep)) (l : list A) (r : Rep) : option (Status * Rep) :=
  match l with
  | [] => Some (OK, r)
  | x :: l' => match op x r with Some (OK, r') => each op l' r' | failed => failed end
  end.

Definition then_ (m : option (Status * Rep)) (k : Rep -> option (Status * Rep)) : option (Status * Rep) :=
  match m with Some (OK, r) => k r | failed => failed end.

Definition Apply (o : Options) (e : EditCodec.VersionEdit) (r : Rep) : option (Status * Rep) :=
  match CheckConsistency o (base_vstorage r) with
  | OK =>
    then_ (each ApplyBlobFileAddition (EditCodec.blob_file_additions e) r) (fun r =>
    then_ (each ApplyBlobFileGarbage (EditCodec.blob_file_garbages e) r) (fun r =>
    then_ (each (fun d => ApplyFileDeletion d.1 d.2) (EditCodec.deleted_files e) r) (fun r =>
    then_ (each (fun lf => ApplyFileAddition lf.1 lf.2) (EditCodec.new_files e) r) (fun r =>
    each (fun c => ApplyCompactCursors c.1 c.2) (EditCodec.compact_cursors e) r))))
  | s => Some (s, r)
  end.

(** ** Saving the table files *)

(** The files of a level in the order of the new version; the flag marks an added file. *)
Fixpoint merge_files (cmp : FileMetaData -> FileMetaData -> bool) (added : list FileMetaData) : list FileMetaData -> list (bool * FileMetaData) :=
  fix go base :=
    match added, base with
    | [], _ => (fun f => (false, f)) <$> base
    | _, [] => (fun f => (true, f)) <$> added
    | a :: added', b :: base' => if cmp a b then (true, a) :: merge_files cmp added' base else (false, b) :: go base'
    end.

Definition sort_files (cmp : FileMetaData -> FileMetaData -> bool) (m : gmap Z FileMetaData) : list FileMetaData :=
  merge_sort (fun a b => Is_true (negb (cmp b a))) (snd <$> map_to_list m).

Definition MergeUnorderdAddedFilesWithBase (base : list FileMetaData) (unordered_added_files : gmap Z FileMetaData)
    (cmp : FileMetaData -> FileMetaData -> bool) : list (bool * FileMetaData) :=
  merge_files cmp (sort_files cmp unordered_added_files) base.

(** A file of the base that was added again is superseded by the added one. *)
Definition MaybeAddFile (r : Rep) (level : nat) (v : VersionStorageInfo) (bf : bool * FileMetaData) : VersionStorageInfo :=
  let '(added, f) := bf in
  let st := level_state r level in
  if decide (GetNumber f ∈ deleted_files st) then v
  else if negb added && bool_decide (is_Some (added_files st !! GetNumber f)) then v
  else AddFile level f v.

Definition SaveSSTFilesToLevel (r : Rep) (level : nat) (cmp : FileMetaData -> FileMetaData -> bool)
    (v : VersionStorageInfo) : VersionStorageInfo :=
  let base_files := LevelFiles level (base_vstorage r) in
  let st := level_state r level in
  if decide (added_files st = ∅ /\ deleted_files st = ∅)
  then AddFilesForUnchangedLevel level base_files v
  else foldl (MaybeAddFile r level) v (MergeUnorderdAddedFilesWithBase base_files (added_files st) cmp).

Definition PromoteEpochNumberRequirementIfNeeded (r : Rep) (v : VersionStorageInfo) : VersionStorageInfo :=
  if HasMissingEpochNumber v then v
  else if existsb (fun st => existsb (fun nf => epoch_number nf.2 =? kUnknownEpochNumber) (map_to_list (added_files st))) (levels r)
  then v
  else SetEpochNumberRequirement kMustPresent v.

Definition SaveSSTFilesTo (r : Rep) (v : VersionStorageInfo) : VersionStorageInfo :=
  match length (levels r) with
  | O => v
  | S n =>
    let v := if decide (epoch_number_requirement_ v = kMightMissing) then PromoteEpochNumberRequirementIfNeeded r v else v in
    let cmp := match epoch_number_requirement_ v with kMightMissing => NewestFirstBySeqNo | kMustPresent => NewestFirstByEpochNumber end in
    foldl (fun v level => SaveSSTFilesToLevel r level BySmallestKey v) (SaveSSTFilesToLevel r 0 cmp v) (seq 1 n)
  end.

(** ** Saving the blob files *)

Inductive BlobItem :=
  | BaseOnly (b : BlobFileMetaData)
  | MutableOnly (m : MutableBlobFileMetaData)
  | Both (b : BlobFileMetaData) (m : MutableBlobFileMetaData).

Fixpoint merge_blobs (base : list BlobFileMetaData) : list (Z * MutableBlobFileMetaData) -> list BlobItem :=
  fix go ms :=
    match base, ms with
    | [], _ => MutableOnly ∘ snd <$> ms
    | _, [] => BaseOnly <$> base
    | b :: base', (n, m) :: ms' =>
      if GetBlobFileNumber b <? n then BaseOnly b :: merge_blobs base' ms
      else if n <? GetBlobFileNumber b then MutableOnly m :: go ms'
      else Both b m :: merge_blobs base' ms'
    end.

Definition key_le (x y : Z * MutableBlobFileMetaData) : Prop := x.1 <= y.1.

#[global] Instance key_le_dec : RelDecision key_le.
Proof. intros x y. apply Z.le_dec. Defined.

(** The entries of the ordered map from a number on. *)
Definition mutable_from (n : Z) (r : Rep) : list (Z * MutableBlobFileMetaData) :=
  filter (fun km => n <= km.1) (merge_sort key_le (map_to_list (mutable_blob_file_metas r))).

(** The calls of [MergeBlobFileMetas], in order. *)
Definition MergeBlobFileMetas (first_blob_file : Z) (r : Rep) : list BlobItem :=
  merge_blobs (GetBlobFileMetaDataLB first_blob_file (base_vstorage r)) (mutable_from first_blob_file r).

(** The metadata [CheckLinkedSsts] looks at. *)
Definition item_meta (i : BlobItem) : BlobFileMetaData :=
  match i with BaseOnly b => b | MutableOnly m | Both _ m => blob m end.

Fixpoint first_linked (l : list BlobItem) : Z :=
  match l with
  | [] => kInvalidBlobFileNumber
  | i :: l' => if decide (linked_ssts (item_meta i) = ∅) then first_linked l' else GetBlobFileNumber (item_meta i)
  end.

Definition GetMinOldestBlobFileNumber (r : Rep) : Z := first_linked (MergeBlobFileMetas kInvalidBlobFileNumber r).

Definition AddBlobFileIfNeeded (b : BlobFileMetaData) (v : VersionStorageInfo) : VersionStorageInfo :=
  if bool_decide (linked_ssts b = ∅) && (WalEdit.total_blob_count (shared_meta b) <=? garbage_count b) then v
  else AddBlobFile b v.

Definition save_blob (v : VersionStorageInfo) (i : BlobItem) : VersionStorageInfo :=
  match i with
  | BaseOnly b => AddBlobFileIfNeeded b v
  | MutableOnly m => AddBlobFileIfNeeded (blob m) v
  | Both b m => if HasDelta m then AddBlobFileIfNeeded (blob m) v else AddBlobFileIfNeeded b v
  end.

Definition SaveBlobFilesTo (r : Rep) (v : VersionStorageInfo) : VersionStorageInfo :=
  let oldest := GetMinOldestBlobFileNumber r in
  if oldest =? kInvalidBlobFileNumber then v
  else foldl save_blob v (MergeBlobFileMetas oldest r).

Definition SaveCompactCursorsTo (r : Rep) (v : VersionStorageInfo) : VersionStorageInfo :=
  map_fold AddCursorForOneLevel v (updated_compact_cursors r).

Definition SaveTo (o : Options) (r : Rep) (v : VersionStorageInfo) : Status * VersionStorageInfo :=
  match (if debug_build o then CheckConsistency o (base_vstorage r) else OK) with
  | OK =>
    match CheckConsistency o v with
    | OK =>
      let v' := SaveCompactCursorsTo r (SaveBlobFilesTo r (SaveSSTFilesTo r v)) in
      (CheckConsistency o v', v')
    | s => (s, v)
    end
  | s => (s, v)
  end.

Definition GetChangedLevels (r : Rep) : list bool :=
  if has_invalid_levels r then replicate (length (levels r)) true
  else imap (fun level st => negb (bool_decide (added_files st = ∅ /\ deleted_files st = ∅))
                             || bool_decide (is_Some (updated_compact_cursors r !! level))) (levels r).

End comparator.

End Builder.
