(* ===== verification/BuilderSpec.v ===== *)
(** * What the version builder computes

    The contract of [Builder]: a version is a map from file numbers to levels and files,
    a map of blob files, and the moved cursors, and an edit changes these maps or is
    refused ([spec_apply]).  A blob file of the specification has no set of linked table
    files: the builder's sets are the table files of the map that refer to it.  The
    relation [tracks] ties a builder to a state of the specification; every operation
    preserves it, fails exactly where the specification refuses, and leaves nothing
    undefined for levels that are not negative.  Saving gives the files of the map below
    [num_levels], indexed and in the order of each level. *)

From Stdlib Require Import ZArith Lia.
From stdpp Require Import base numbers list gmap sorting.
From S2P Require Import Prelude Version Coding WalEdit FileCodec Progress EditCodec Storage Builder.

Import FileCodec Storage Builder.
Local Open Scope Z_scope.

Module BuilderSpec.

(** ** Specification *)

Abbreviation files := (gmap Z (Z * FileMetaData)).

Record BlobInfo := mkInfo {
  info_shared : WalEdit.BlobFileAddition;
  info_count : Z;
  info_bytes : Z;
}.

Record State := mkState {
  sp_files : files;
  sp_blobs : gmap Z BlobInfo;
  sp_cursors : gmap nat (list Z);
}.

Definition set_sp_files (m : files) (s : State) : State := mkState m (sp_blobs s) (sp_cursors s).
Definition set_sp_blobs (b : gmap Z BlobInfo) (s : State) : State := mkState (sp_files s) b (sp_cursors s).

Definition spec_delete (d : Z * Z) (s : State) : option State :=
  if decide (fst <$> sp_files s !! d.2 = Some d.1) then Some (set_sp_files (delete d.2 (sp_files s)) s) else None.

Definition spec_add (lf : Z * FileMetaData) (s : State) : option State :=
  match sp_files s !! GetNumber lf.2 with
  | Some _ => None
  | None => Some (set_sp_files (<[GetNumber lf.2 := lf]> (sp_files s)) s)
  end.

Definition spec_blob (a : WalEdit.BlobFileAddition) (s : State) : option State :=
  match sp_blobs s !! WalEdit.blob_file_number a with
  | Some _ => None
  | None => Some (set_sp_blobs (<[WalEdit.blob_file_number a := mkInfo a 0 0]> (sp_blobs s)) s)
  end.

Definition spec_garbage (g : WalEdit.BlobFileGarbage) (s : State) : option State :=
  i ← sp_blobs s !! WalEdit.garbage_file_number g;
  let count := info_count i +% WalEdit.garbage_blob_count g in
  let bytes := info_bytes i +% WalEdit.garbage_blob_bytes g in
  if decide (count <= WalEdit.total_blob_count (info_shared i) /\ bytes <= WalEdit.total_blob_bytes (info_shared i))
  then Some (set_sp_blobs (<[WalEdit.garbage_file_number g := mkInfo (info_shared i) count bytes]> (sp_blobs s)) s)
  else None.

Definition spec_cursor (num : nat) (c : Z * list Z) (s : State) : option State :=
  if decide (c.1 < 0) then None
  else if decide (c.1 < Z.of_nat num)
  then Some (mkState (sp_files s) (sp_blobs s) (<[Z.to_nat c.1 := c.2]> (sp_cursors s)))
  else Some s.

Fixpoint steps {A} (op : A -> State -> option State) (l : list A) (s : State) : option State :=
  match l with [] => Some s | x :: l' => op x s ≫= steps op l' end.

Definition spec_apply (num : nat) (e : EditCodec.VersionEdit) (s : State) : option State :=
  s ← steps spec_blob (EditCodec.blob_file_additions e) s;
  s ← steps spec_garbage (EditCodec.blob_file_garbages e) s;
  s ← steps spec_delete (EditCodec.deleted_files e) s;
  s ← steps spec_add (EditCodec.new_files e) s;
  steps (spec_cursor num) (EditCodec.compact_cursors e) s.

(** The table files of the levels that exist and refer to a blob file. *)
Definition links (num : nat) (m : files) (b : Z) : gset Z :=
  dom (filter (fun nf => nf.2.1 < Z.of_nat num /\ oldest_blob_file_number nf.2.2 = b /\ b <> kInvalidBlobFileNumber) m).

Lemma elem_of_links num m b n : n ∈ links num m b <->
  exists level f, m !! n = Some (level, f) /\ level < Z.of_nat num /\ oldest_blob_file_number f = b /\ b <> kInvalidBlobFileNumber.
Proof.
  unfold links. rewrite elem_of_dom. unfold is_Some. setoid_rewrite map_lookup_filter_Some. split.
  - intros ([level f] & Hm & Hp). by exists level, f.
  - intros (level & f & Hm & Hp). by exists (level, f).
Qed.

Lemma links_insert num m b n level f : m !! n = None ->
  links num (<[n := (level, f)]> m) b =
  if decide (level < Z.of_nat num /\ oldest_blob_file_number f = b /\ b <> kInvalidBlobFileNumber)
  then {[n]} ∪ links num m b else links num m b.
Proof.
  intros Hn. apply set_eq. intros x. rewrite elem_of_links. setoid_rewrite lookup_insert_Some. case_decide as Hd.
  - rewrite elem_of_union, elem_of_singleton, elem_of_links. split.
    + intros (l & g & [[-> _]|[_ Hx]] & Hp); [by left|]. right. eauto.
    + intros [->|(l & g & Hx & Hp)]; [exists level, f; tauto|]. exists l, g. split; [|done]. right. split; [congruence|done].
  - rewrite elem_of_links. split.
    + intros (l & g & [[-> [= <- <-]]|[_ Hx]] & Hp); [done|eauto].
    + intros (l & g & Hx & Hp). exists l, g. split; [|done]. right. split; [congruence|done].
Qed.

Lemma links_delete num m b n level f : m !! n = Some (level, f) ->
  links num (delete n m) b =
  if decide (level < Z.of_nat num /\ oldest_blob_file_number f = b /\ b <> kInvalidBlobFileNumber)
  then links num m b ∖ {[n]} else links num m b.
Proof.
  intros Hn. apply set_eq. intros x. rewrite elem_of_links. setoid_rewrite lookup_delete_Some. case_decide as Hd.
  - rewrite elem_of_difference, elem_of_singleton, elem_of_links. split.
    + intros (l & g & [Hne Hx] & Hp). split; [eauto|done].
    + intros [(l & g & Hx & Hp) Hne]. exists l, g. done.
  - rewrite elem_of_links. split.
    + intros (l & g & [Hne Hx] & Hp). eauto.
    + intros (l & g & Hx & Hp). exists l, g. split; [|done]. split; [|done]. intros <-. rewrite Hn in Hx. by simplify_eq.
Qed.

(** ** The relation between a builder and a state *)

(** A version with an index of its files and the right links. *)
Record storage_ok (v : VersionStorageInfo) : Prop := {
  so_indexed : indexed v;
  so_sorted : blob_sorted (blob_files_ v);
  so_links b : b ∈ blob_files_ v -> linked_ssts b = links (num_levels v) (contents v) (GetBlobFileNumber b);
  so_garbage b : b ∈ blob_files_ v -> is_u64 (garbage_count b) /\ is_u64 (garbage_bytes b);
  so_number b : b ∈ blob_files_ v -> 0 <= GetBlobFileNumber b;
}.

Definition blob_info (b : BlobFileMetaData) : BlobInfo := mkInfo (shared_meta b) (garbage_count b) (garbage_bytes b).

Definition state_of (v : VersionStorageInfo) : State :=
  mkState (contents v) (list_to_map ((fun b => (GetBlobFileNumber b, blob_info b)) <$> blob_files_ v)) ∅.

(** The file of a number on a level, after the changes of the builder. *)
Definition file_at (r : Rep) (k : nat) (n : Z) : option FileMetaData :=
  match added_files (level_state r k) !! n with
  | Some f => Some f
  | None =>
    if decide (n ∈ deleted_files (level_state r k)) then None
    else match contents (base_vstorage r) !! n with
         | Some (level, f) => if decide (level = Z.of_nat k) then Some f else None
         | None => None
         end
  end.

(** The delta of a blob file is its difference from the base. *)
Record changes (m : MutableBlobFileMetaData) (b0 : BlobFileMetaData) : Prop := {
  ch_shared : shared_meta (blob m) = shared_meta b0;
  ch_linked : linked_ssts (blob m) = (linked_ssts b0 ∖ newly_unlinked_ssts (delta m)) ∪ newly_linked_ssts (delta m);
  ch_fresh : newly_linked_ssts (delta m) ## linked_ssts b0;
  ch_old : newly_unlinked_ssts (delta m) ⊆ linked_ssts b0;
  ch_count : garbage_count (blob m) = garbage_count b0 +% additional_garbage_count (delta m);
  ch_bytes : garbage_bytes (blob m) = garbage_bytes b0 +% additional_garbage_bytes (delta m);
  ch_delta : is_u64 (additional_garbage_count (delta m)) /\ is_u64 (additional_garbage_bytes (delta m));
}.

Definition with_links (num : nat) (m : files) (b : Z) (i : BlobInfo) : BlobFileMetaData :=
  mkBlob (info_shared i) (links num m b) (info_count i) (info_bytes i).

Record tracks (r : Rep) (s : State) : Prop := {
  tr_base : storage_ok (base_vstorage r);
  tr_num : length (levels r) = num_levels (base_vstorage r);
  tr_level n : GetCurrentLevelForTableFile n r = from_option fst (-1) (sp_files s !! n);
  tr_meta n level f : sp_files s !! n = Some (level, f) -> 0 <= level /\ GetNumber f = n;
  tr_file k n f : (k < length (levels r))%nat -> file_at r k n = Some f <-> sp_files s !! n = Some (Z.of_nat k, f);
  tr_added k n f : added_files (level_state r k) !! n = Some f -> GetNumber f = n /\ n ∉ deleted_files (level_state r k);
  tr_blob b : blob <$> GetOrCreateMutableBlobFileMetaData b r = with_links (length (levels r)) (sp_files s) b <$> sp_blobs s !! b;
  tr_info b i : sp_blobs s !! b = Some i ->
    WalEdit.blob_file_number (info_shared i) = b /\ 0 <= b /\ is_u64 (info_count i) /\ is_u64 (info_bytes i);
  tr_delta b m b0 : mutable_blob_file_metas r !! b = Some m -> GetBlobFileMetaData b (base_vstorage r) = Some b0 -> changes m b0;
  tr_cursors : updated_compact_cursors r = sp_cursors s;
}.

(** An operation implements a step of the specification. *)
Definition implements (op : option (Status * Rep)) (s : option State) : Prop :=
  match s with
  | Some s' => exists r', op = Some (OK, r') /\ tracks r' s'
  | None => exists r', op = Some (Corruption, r')
  end.

(** ** Updates of the builder *)

Lemma level_state_set r k st k' : (k < length (levels r))%nat ->
  level_state (set_levels (<[k := st]> (levels r)) r) k' = if decide (k' = k) then st else level_state r k'.
Proof.
  intros Hk. unfold level_state, set_levels; cbn [levels]. case_decide; subst.
  - by rewrite list_lookup_insert_eq.
  - by rewrite list_lookup_insert_ne.
Qed.

Lemma level_state_update b g r k : level_state (update_blob b g r) k = level_state r k.
Proof. unfold update_blob. repeat case_match; done. Qed.

Lemma levels_update b g r : levels (update_blob b g r) = levels r.
Proof. unfold update_blob. repeat case_match; done. Qed.

Lemma base_update b g r : base_vstorage (update_blob b g r) = base_vstorage r.
Proof. unfold update_blob. repeat case_match; done. Qed.

Lemma current_update b g r b' :
  GetOrCreateMutableBlobFileMetaData b' (update_blob b g r) =
  if decide (b' = b /\ b <> kInvalidBlobFileNumber) then g <$> GetOrCreateMutableBlobFileMetaData b' r
  else GetOrCreateMutableBlobFileMetaData b' r.
Proof.
  unfold update_blob. destruct (Z.eqb_spec b kInvalidBlobFileNumber) as [->|Hb].
  - rewrite decide_False by tauto. done.
  - destruct (decide (b' = b)) as [->|Hne].
    + rewrite decide_True by done. destruct (GetOrCreateMutableBlobFileMetaData b r) as [m|] eqn:E; cbn; [|by rewrite E].
      unfold GetOrCreateMutableBlobFileMetaData, set_blob; cbn. by rewrite lookup_insert_eq.
    + rewrite decide_False by tauto. destruct (GetOrCreateMutableBlobFileMetaData b r) as [m|] eqn:E; [|done].
      unfold GetOrCreateMutableBlobFileMetaData, set_blob; cbn. by rewrite lookup_insert_ne.
Qed.

Lemma mutable_update b g r b' m : mutable_blob_file_metas (update_blob b g r) !! b' = Some m ->
  mutable_blob_file_metas r !! b' = Some m \/
  b' = b /\ b <> kInvalidBlobFileNumber /\ exists m0, GetOrCreateMutableBlobFileMetaData b r = Some m0 /\ m = g m0.
Proof.
  unfold update_blob. destruct (Z.eqb_spec b kInvalidBlobFileNumber) as [->|Hb]; [by left|].
  destruct (GetOrCreateMutableBlobFileMetaData b r) as [m0|] eqn:E; [|by left].
  unfold set_blob; cbn. rewrite lookup_insert_Some. intros [[<- <-]|[_ ?]]; [right|by left]. eauto.
Qed.

Lemma changes_refl b0 : is_u64 (garbage_count b0) -> is_u64 (garbage_bytes b0) -> changes (mutable_of b0) b0.
Proof.
  intros H1 H2. split; cbn -[Z.add u64]; try done.
  - set_solver.
  - by rewrite Z.add_0_r, u64_small.
  - by rewrite Z.add_0_r, u64_small.
Qed.

Lemma link_old (l0 u n : gset Z) x : x ∈ u -> u ⊆ l0 -> {[x]} ∪ ((l0 ∖ u) ∪ n) = (l0 ∖ (u ∖ {[x]})) ∪ n.
Proof. intros Hx Hu. apply set_eq. intros y. destruct (decide (y = x)) as [->|]; set_solver. Qed.

Lemma unlink_new (l0 u n : gset Z) x : x ∈ n -> n ## l0 -> ((l0 ∖ u) ∪ n) ∖ {[x]} = (l0 ∖ u) ∪ (n ∖ {[x]}).
Proof. intros Hx Hu. apply set_eq. intros y. destruct (decide (y = x)) as [->|]; set_solver. Qed.

Lemma changes_link n m b0 : n ∉ linked_ssts (blob m) -> changes m b0 -> changes (LinkSst n m) b0.
Proof.
  intros Hn [H1 H2 H3 H4 H5 H6 H7]. rewrite H2 in Hn. apply not_elem_of_union in Hn as [Hn1 Hn2].
  unfold LinkSst, delta_LinkSst. case_decide as Hd; split; cbn -[u64]; try done; rewrite ?H2.
  - by apply link_old.
  - clear - H4. set_solver.
  - clear. set_solver.
  - rewrite elem_of_difference in Hn1. clear - H3 Hn1 Hd. set_solver.
Qed.

Lemma changes_unlink n m b0 : n ∈ linked_ssts (blob m) -> changes m b0 -> changes (UnlinkSst n m) b0.
Proof.
  intros Hn [H1 H2 H3 H4 H5 H6 H7]. rewrite H2 in Hn. apply elem_of_union in Hn.
  unfold UnlinkSst, delta_UnlinkSst. case_decide as Hd; split; cbn -[u64]; try done; rewrite ?H2.
  - by apply unlink_new.
  - clear - H3. set_solver.
  - clear - Hd. apply set_eq. intros y. destruct (decide (y = n)) as [->|]; set_solver.
  - destruct Hn as [[Hn _]%elem_of_difference|Hn]; [|done]. clear - H4 Hn. set_solver.
Qed.

Lemma blob_unlinked num m m' b n (cur : option MutableBlobFileMetaData) (i : option BlobInfo) : blob <$> cur = with_links num m b <$> i -> links num m' b = links num m b ∖ {[n]} ->
  blob <$> (UnlinkSst n <$> cur) = with_links num m' b <$> i.
Proof. unfold with_links. destruct cur as [c|], i as [i|]; cbn; try done. by intros [= ->] ->. Qed.

Lemma blob_linked num m m' b n (cur : option MutableBlobFileMetaData) (i : option BlobInfo) : blob <$> cur = with_links num m b <$> i -> links num m' b = {[n]} ∪ links num m b ->
  blob <$> (LinkSst n <$> cur) = with_links num m' b <$> i.
Proof. unfold with_links. destruct cur as [c|], i as [i|]; cbn; try done. by intros [= ->] ->. Qed.

Lemma blob_other num m m' b (cur : option MutableBlobFileMetaData) (i : option BlobInfo) : blob <$> cur = with_links num m b <$> i -> links num m' b = links num m b ->
  blob <$> cur = with_links num m' b <$> i.
Proof. intros -> E. unfold with_links. by rewrite E. Qed.

(** A created or existing entry differs from the base by its delta. *)
Lemma current_changes r s b m b0 : tracks r s -> GetOrCreateMutableBlobFileMetaData b r = Some m ->
  GetBlobFileMetaData b (base_vstorage r) = Some b0 -> changes m b0.
Proof.
  intros [] Hm Hb. unfold GetOrCreateMutableBlobFileMetaData in Hm.
  destruct (mutable_blob_file_metas r !! b) as [m'|] eqn:E; [simplify_eq; by eapply tr_delta0|].
  rewrite Hb in Hm. cbn in Hm. simplify_eq. apply GetBlobFileMetaData_spec in Hb as [Hb _]; [|by apply so_sorted].
  destruct tr_base0. destruct (so_garbage0 b0 Hb). by apply changes_refl.
Qed.

Lemma current_links r s b m : tracks r s -> GetOrCreateMutableBlobFileMetaData b r = Some m ->
  linked_ssts (blob m) = links (length (levels r)) (sp_files s) b.
Proof.
  intros [] Hm. specialize (tr_blob0 b). rewrite Hm in tr_blob0. cbn in tr_blob0.
  destruct (sp_blobs s !! b); cbn in tr_blob0; [|done]. injection tr_blob0 as ->. done.
Qed.

(** ** The operations *)

(** A change of one table file. *)
Record file_change (r r' : Rep) (n level : Z) : Prop := {
  fc_base : base_vstorage r' = base_vstorage r;
  fc_length : length (levels r') = length (levels r);
  fc_table : table_file_levels r' = <[n := level]> (table_file_levels r);
  fc_cursors : updated_compact_cursors r' = updated_compact_cursors r;
}.

Lemma file_change_tracks r r' s m n level : tracks r s -> file_change r r' n level ->
  (forall n', n' <> n -> m !! n' = sp_files s !! n') -> level = from_option fst (-1) (m !! n) ->
  (forall l f, m !! n = Some (l, f) -> 0 <= l /\ GetNumber f = n) ->
  (forall k n' f, (k < length (levels r))%nat -> file_at r' k n' = Some f <-> m !! n' = Some (Z.of_nat k, f)) ->
  (forall k n' f, added_files (level_state r' k) !! n' = Some f -> GetNumber f = n' /\ n' ∉ deleted_files (level_state r' k)) ->
  (forall b, blob <$> GetOrCreateMutableBlobFileMetaData b r' = with_links (length (levels r)) m b <$> sp_blobs s !! b) ->
  (forall b c b0, mutable_blob_file_metas r' !! b = Some c -> GetBlobFileMetaData b (base_vstorage r) = Some b0 -> changes c b0) ->
  tracks r' (set_sp_files m s).
Proof.
  intros [Tb Tn Tl Tm Tf Ta Tbl Ti Td Tc] [Fb Fl Ft Fc] Hm Hlevel Hn H1 H2 H3 H4.
  split; cbn; rewrite ?Fb, ?Fl; try done; [| |congruence].
  - intros n'. unfold GetCurrentLevelForTableFile. rewrite Ft. destruct (decide (n' = n)) as [->|Hne].
    + by rewrite lookup_insert_eq.
    + rewrite lookup_insert_ne, Hm, Fb by done. apply Tl.
  - intros n' l f. destruct (decide (n' = n)) as [->|Hne]; [apply Hn|]. rewrite Hm by done. apply Tm.
Qed.

(** A change of one file on one level, with its blob file. *)
Definition change_level (k : nat) (n level : Z) (st : LevelState) (b : Z)
    (g : MutableBlobFileMetaData -> MutableBlobFileMetaData) (r : Rep) : Rep :=
  set_file_level n level (update_blob b g (set_levels (<[k := st]> (levels r)) r)).

Lemma change_level_facts k n level st b g r : (k < length (levels r))%nat ->
  let r' := change_level k n level st b g r in
  file_change r r' n level /\
  (forall k', level_state r' k' = if decide (k' = k) then st else level_state r k') /\
  (forall b', GetOrCreateMutableBlobFileMetaData b' r' = GetOrCreateMutableBlobFileMetaData b' (update_blob b g r)) /\
  mutable_blob_file_metas r' = mutable_blob_file_metas (update_blob b g r).
Proof.
  intros Hk r'. set (r1 := set_levels (<[k := st]> (levels r)) r).
  assert (forall b', GetOrCreateMutableBlobFileMetaData b' r1 = GetOrCreateMutableBlobFileMetaData b' r) as Hcur by done.
  split_and!.
  - split; unfold r', change_level; cbn; fold r1.
    + by rewrite base_update.
    + rewrite levels_update. cbn. apply length_insert.
    + unfold update_blob. by repeat case_match.
    + unfold update_blob. by repeat case_match.
  - intros k'. change (level_state r' k') with (level_state (update_blob b g r1) k'). rewrite level_state_update. by apply level_state_set.
  - intros b'. change (GetOrCreateMutableBlobFileMetaData b' r') with (GetOrCreateMutableBlobFileMetaData b' (update_blob b g r1)).
    by rewrite !current_update, Hcur.
  - change (mutable_blob_file_metas r') with (mutable_blob_file_metas (update_blob b g r1)). unfold update_blob. rewrite Hcur. by repeat case_match.
Qed.

Lemma deletion_tracks r s k n f : tracks r s -> (k < length (levels r))%nat -> sp_files s !! n = Some (Z.of_nat k, f) ->
  let st := level_state r k in
  tracks (change_level k n (-1) (mkLevel ({[n]} ∪ deleted_files st) (delete n (added_files st))) (oldest_blob_file_number f) (UnlinkSst n) r)
    (set_sp_files (delete n (sp_files s)) s).
Proof.
  intros T Hk Hs st. pose proof T as [Tb Tn Tl Tm Tf Ta Tbl Ti Td Tc].
  match goal with |- tracks (change_level ?a ?b ?c ?d ?e ?g _) _ =>
    destruct (change_level_facts a b c d e g r Hk) as (Hfc & Hst & Hcur & Hmut) end.
  eapply file_change_tracks; [done|done|..].
  - intros n' Hne. by rewrite lookup_delete_ne.
  - by rewrite lookup_delete_eq.
  - intros l g. by rewrite lookup_delete_eq.
  - intros k' n' f' Hk'. unfold file_at. rewrite Hst, (fc_base _ _ _ _ Hfc), lookup_delete_Some.
    specialize (Tf k' n' f' Hk'). unfold file_at in Tf. destruct (decide (k' = k)) as [->|Hne]; cbn.
    + destruct (decide (n' = n)) as [->|].
      * rewrite lookup_delete_eq, decide_True by set_solver. split; [done|tauto].
      * assert (n <> n') by done. rewrite lookup_delete_ne by done. rewrite <- Tf. fold st. destruct (added_files st !! n'); [tauto|].
        destruct (decide (n' ∈ deleted_files st)); [rewrite decide_True by set_solver|rewrite decide_False by set_solver]; tauto.
    + rewrite Tf. split; [|tauto]. intros E. split; [|done]. intros <-. rewrite Hs in E. simplify_eq.
  - intros k' n' f'. rewrite Hst. case_decide; subst; cbn; [|apply Ta]. rewrite lookup_delete_Some. intros [Hne [? ?]%Ta]. set_solver.
  - intros b. rewrite Hcur, current_update. pose proof (links_delete (length (levels r)) _ b _ _ _ Hs) as Hl.
    destruct (decide (b = oldest_blob_file_number f /\ oldest_blob_file_number f <> kInvalidBlobFileNumber)) as [[-> Hd]|Hd].
    + eapply blob_unlinked; [apply Tbl|]. rewrite Hl. apply decide_True. split; [lia|done].
    + eapply blob_other; [apply Tbl|]. rewrite Hl. apply decide_False. intros (? & <- & ?). by apply Hd.
  - intros b m b0 Hm Hb. rewrite Hmut in Hm. apply mutable_update in Hm as [Hm|(-> & Hne & m0 & Hm0 & ->)]; [by eapply Td|].
    apply changes_unlink; [|by eapply current_changes]. rewrite (current_links _ _ _ _ T Hm0). apply elem_of_links.
    exists (Z.of_nat k), f. split_and!; [done|lia|done..].
Qed.

Lemma set_levels_update ls b g r : set_levels ls (update_blob b g r) = update_blob b g (set_levels ls r).
Proof.
  unfold update_blob. change (GetOrCreateMutableBlobFileMetaData b (set_levels ls r)) with (GetOrCreateMutableBlobFileMetaData b r).
  by repeat case_match.
Qed.

(** A file on a level that does not exist is only counted. *)
Lemma invalid_level_tracks r s m n level sizes : tracks r s -> sp_files s !! n = None \/ m !! n = None ->
  (forall n', n' <> n -> m !! n' = sp_files s !! n') -> level = from_option fst (-1) (m !! n) ->
  (forall l f, m !! n = Some (l, f) \/ sp_files s !! n = Some (l, f) -> Z.of_nat (length (levels r)) <= l /\ GetNumber f = n) ->
  tracks (set_file_level n level (set_invalid sizes (has_invalid_levels r) r)) (set_sp_files m s).
Proof.
  intros T Hnone Hm Hlevel Hn. pose proof T as [Tb Tn Tl Tm Tf Ta Tbl Ti Td Tc].
  assert (forall k n' f, (k < length (levels r))%nat -> sp_files s !! n' = Some (Z.of_nat k, f) <-> m !! n' = Some (Z.of_nat k, f)) as Hsame.
  { intros k n' f Hk. destruct (decide (n' = n)) as [->|]; [|by rewrite Hm].
    split; intros E; exfalso; destruct (Hn (Z.of_nat k) f); [by right|lia|by left|lia]. }
  eapply file_change_tracks; [done|by split|done|done| | |done| |done].
  - intros l f E. destruct (Hn l f); [by left|]. split; [lia|done].
  - intros k n' f Hk. rewrite <- Hsame by done. by apply Tf.
  - intros b. eapply blob_other; [apply Tbl|]. apply set_eq. intros x. rewrite !elem_of_links.
    split; intros (l & f & Hx & Hl & Hb); destruct (decide (x = n)) as [->|].
    + destruct (Hn l f); [by left|lia].
    + exists l, f. by rewrite <- Hm.
    + destruct (Hn l f); [by right|lia].
    + exists l, f. by rewrite Hm.
Qed.

Lemma ApplyFileDeletion_spec d r s : 0 <= d.1 -> tracks r s ->
  implements (ApplyFileDeletion d.1 d.2 r) (spec_delete d s).
Proof.
  destruct d as [level n]; cbn [fst snd]. intros Hlevel T. pose proof T as [Tb Tn Tl Tm Tf Ta Tbl Ti Td Tc].
  unfold ApplyFileDeletion, spec_delete; cbn [fst snd]. specialize (Tl n) as Hn. case_decide as Hd.
  - destruct (sp_files s !! n) as [[l f]|] eqn:Hs; [|done]. cbn in Hd, Hn. injection Hd as ->. rewrite Hn, Z.eqb_refl; cbn [negb].
    destruct (Z.leb_spec (Z.of_nat (length (levels r))) level).
    + eexists. split; [done|]. apply invalid_level_tracks; try done.
      * right. apply lookup_delete_eq.
      * intros n' Hne. by apply lookup_delete_ne.
      * by rewrite lookup_delete_eq.
      * intros l f'. rewrite lookup_delete_eq, Hs. intros [?|E]; [done|]. simplify_eq. split; [done|by eapply Tm].
    + destruct (Z.ltb_spec level 0); [lia|].
      set (k := Z.to_nat level). assert (Hk : (k < length (levels r))%nat) by lia. assert (Ek : level = Z.of_nat k) by lia.
      rewrite Ek in Hs. pose proof (proj2 (Tf k n f Hk) Hs) as Hf.
      assert (GetOldestBlobFileNumberForTableFile k n r = Some (oldest_blob_file_number f)) as ->.
      { unfold GetOldestBlobFileNumberForTableFile. unfold file_at in Hf.
        destruct (added_files (level_state r k) !! n) as [g|]; [by simplify_eq|]. case_decide; [done|].
        rewrite GetFileMetaDataByNumber_contents by apply Tb. destruct (contents (base_vstorage r) !! n) as [[l g]|]; [|done].
        cbn. case_decide; [|done]. by simplify_eq. }
      cbn [mbind option_bind]. eexists. split; [done|].
      rewrite level_state_update, levels_update, set_levels_update. by apply deletion_tracks.
  - eexists. rewrite Hn. destruct (Z.eqb_spec level (from_option fst (-1) (sp_files s !! n))) as [E|]; [|done].
    destruct (sp_files s !! n) as [[l f]|]; cbn in *; [by subst|lia].
Qed.

Lemma file_at_None r s k n : tracks r s -> (k < length (levels r))%nat -> sp_files s !! n = None -> file_at r k n = None.
Proof.
  intros T Hk Hn. destruct (file_at r k n) as [f|] eqn:E; [|done]. apply (tr_file _ _ T) in E; [|done]. congruence.
Qed.

Lemma addition_tracks r s k f : tracks r s -> (k < length (levels r))%nat -> sp_files s !! GetNumber f = None ->
  let st := level_state r k in
  tracks (change_level k (GetNumber f) (Z.of_nat k)
      (mkLevel (deleted_files st ∖ {[GetNumber f]}) (emplace (GetNumber f) f (added_files st))) (oldest_blob_file_number f) (LinkSst (GetNumber f)) r)
    (set_sp_files (<[GetNumber f := (Z.of_nat k, f)]> (sp_files s)) s).
Proof.
  set (n := GetNumber f). intros T Hk Hs st. pose proof T as [Tb Tn Tl Tm Tf Ta Tbl Ti Td Tc].
  assert (added_files st !! n = None) as Hadd.
  { pose proof (file_at_None r s k n T Hk Hs) as E. unfold file_at in E. fold st in E. by destruct (added_files st !! n). }
  unfold emplace. rewrite Hadd.
  match goal with |- tracks (change_level ?a ?b ?c ?d ?e ?g _) _ =>
    destruct (change_level_facts a b c d e g r Hk) as (Hfc & Hst & Hcur & Hmut) end.
  eapply file_change_tracks; [done|done|..].
  - intros n' Hne. by rewrite lookup_insert_ne.
  - by rewrite lookup_insert_eq.
  - intros l g. rewrite lookup_insert_eq. intros [= <- <-]. split; [lia|done].
  - intros k' n' f' Hk'. unfold file_at. rewrite Hst, (fc_base _ _ _ _ Hfc), lookup_insert_Some.
    specialize (Tf k' n' f' Hk'). destruct (decide (k' = k)) as [->|Hne]; cbn.
    + destruct (decide (n' = n)) as [->|].
      * rewrite lookup_insert_eq. split; [intros [= <-]; by left|]. by intros [[_ [= <-]]|[? _]].
      * assert (n <> n') by done. rewrite lookup_insert_ne by done. transitivity (file_at r k n' = Some f'); [|tauto].
        unfold file_at. fold st. destruct (added_files st !! n'); [done|].
        destruct (decide (n' ∈ deleted_files st)); [rewrite decide_True by set_solver|rewrite decide_False by set_solver]; done.
    + change (file_at r k' n' = Some f' <-> n = n' /\ (Z.of_nat k, f) = (Z.of_nat k', f') \/ n <> n' /\ sp_files s !! n' = Some (Z.of_nat k', f')).
      rewrite Tf. split.
      * intros E. right. split; [|done]. intros <-. congruence.
      * intros [[_ E]|[_ E]]; [|done]. injection E as E _. lia.
  - intros k' n' f'. rewrite Hst. case_decide; subst; cbn; [|apply Ta].
    rewrite lookup_insert_Some. intros [[<- <-]|[Hne [? ?]%Ta]]; set_solver.
  - intros b. rewrite Hcur, current_update. pose proof (links_insert (length (levels r)) _ b n (Z.of_nat k) f Hs) as Hl.
    destruct (decide (b = oldest_blob_file_number f /\ oldest_blob_file_number f <> kInvalidBlobFileNumber)) as [[-> Hd]|Hd].
    + eapply blob_linked; [apply Tbl|]. rewrite Hl. apply decide_True. split; [lia|done].
    + eapply blob_other; [apply Tbl|]. rewrite Hl. apply decide_False. intros (? & <- & ?). by apply Hd.
  - intros b m b0 Hm Hb. rewrite Hmut in Hm. apply mutable_update in Hm as [Hm|(-> & Hne & m0 & Hm0 & ->)]; [by eapply Td|].
    apply changes_link; [|by eapply current_changes]. rewrite (current_links _ _ _ _ T Hm0), elem_of_links.
    intros (l & g & E & _). congruence.
Qed.

Lemma ApplyFileAddition_spec lf r s : 0 <= lf.1 -> tracks r s ->
  implements (ApplyFileAddition lf.1 lf.2 r) (spec_add lf s).
Proof.
  destruct lf as [level f]; cbn [fst snd]. intros Hlevel T. pose proof (tr_level _ _ T (GetNumber f)) as Hn.
  unfold ApplyFileAddition, spec_add; cbn [fst snd]. rewrite Hn. destruct (sp_files s !! GetNumber f) as [[l g]|] eqn:Hs; cbn [from_option fst].
  - eexists. apply (tr_meta _ _ T) in Hs as [Hl _]. by destruct (Z.eqb_spec l (-1)); [lia|].
  - rewrite Z.eqb_refl; cbn [negb]. destruct (Z.leb_spec (Z.of_nat (length (levels r))) level); eexists; (split; [|]).
    + done.
    + apply invalid_level_tracks; [done|by left|by intros; rewrite lookup_insert_ne|by rewrite lookup_insert_eq|].
      intros l f'. rewrite lookup_insert_eq, Hs. intros [[= <- <-]|?]; done.
    + destruct (Z.ltb_spec level 0); [lia|done].
    + set (k := Z.to_nat level). replace level with (Z.of_nat k) by lia. apply addition_tracks; [done|lia|done].
Qed.

(** The blob files. *)
Lemma blob_tracks r s n m i : tracks r s -> blob m = with_links (length (levels r)) (sp_files s) n i ->
  WalEdit.blob_file_number (info_shared i) = n -> 0 <= n -> is_u64 (info_count i) -> is_u64 (info_bytes i) ->
  (forall b0, GetBlobFileMetaData n (base_vstorage r) = Some b0 -> changes m b0) ->
  tracks (set_blob n m r) (set_sp_blobs (<[n := i]> (sp_blobs s)) s).
Proof.
  intros [Tb Tn Tl Tm Tf Ta Tbl Ti Td Tc] Hm Hn H0 H1 H2 Hd. split; try done; cbn.
  - intros b. unfold GetOrCreateMutableBlobFileMetaData, set_blob; cbn. destruct (decide (b = n)) as [->|].
    + rewrite !lookup_insert_eq. cbn. by rewrite Hm.
    + rewrite !lookup_insert_ne by done. apply Tbl.
  - intros b j. rewrite lookup_insert_Some. intros [[<- <-]|[_ ?]]; [done|by apply Ti].
  - intros b c b0. rewrite lookup_insert_Some. intros [[<- <-]|[_ ?]]; [apply Hd|by apply Td].
Qed.

Lemma current_info r s b : tracks r s -> GetOrCreateMutableBlobFileMetaData b r = None <-> sp_blobs s !! b = None.
Proof.
  intros T. pose proof (tr_blob _ _ T b) as E.
  destruct (GetOrCreateMutableBlobFileMetaData b r), (sp_blobs s !! b); cbn in E; done.
Qed.

(** No table file refers to a blob file before it is added. *)
Definition fresh_blob (num : nat) (s : State) (a : WalEdit.BlobFileAddition) : Prop :=
  0 <= WalEdit.blob_file_number a /\ links num (sp_files s) (WalEdit.blob_file_number a) = ∅.

Lemma ApplyBlobFileAddition_spec a r s : fresh_blob (length (levels r)) s a -> tracks r s ->
  implements (ApplyBlobFileAddition a r) (spec_blob a s).
Proof.
  unfold fresh_blob. intros [H0 Hfresh] T. unfold ApplyBlobFileAddition, spec_blob. set (n := WalEdit.blob_file_number a) in *.
  pose proof (current_info _ _ n T) as Hn.
  assert (IsBlobFileInVersion n r = false <-> GetOrCreateMutableBlobFileMetaData n r = None) as Hin.
  { unfold IsBlobFileInVersion, GetOrCreateMutableBlobFileMetaData.
    destruct (mutable_blob_file_metas r !! n), (GetBlobFileMetaData n (base_vstorage r)); cbn; done. }
  destruct (sp_blobs s !! n) as [i|] eqn:E.
  - destruct (IsBlobFileInVersion n r) eqn:F; [eexists; done|]. assert (Some i = None) by tauto. done.
  - rewrite (proj2 Hin) by tauto. eexists. split; [done|].
    assert (GetOrCreateMutableBlobFileMetaData n r = None) as Hnone by tauto. apply blob_tracks; try done.
    + cbn. unfold with_links; cbn. by rewrite Hfresh.
    + intros b0 Hb. unfold GetOrCreateMutableBlobFileMetaData in Hnone. rewrite Hb in Hnone. by destruct (mutable_blob_file_metas r !! n).
Qed.

Lemma changes_garbage m b0 count bytes m' : changes m b0 -> AddGarbage count bytes m = Some m' -> changes m' b0.
Proof.
  intros [H1 H2 H3 H4 H5 H6 H7]. unfold AddGarbage. case_match; [done|]. intros [= <-]. split; cbn -[u64]; try done.
  - rewrite H5. unfold u64. rewrite Zplus_mod_idemp_l, Zplus_mod_idemp_r. f_equal. lia.
  - rewrite H6. unfold u64. rewrite Zplus_mod_idemp_l, Zplus_mod_idemp_r. f_equal. lia.
  - split; apply u64_range.
Qed.

Lemma ApplyBlobFileGarbage_spec g r s : tracks r s -> implements (ApplyBlobFileGarbage g r) (spec_garbage g s).
Proof.
  intros T. unfold ApplyBlobFileGarbage, spec_garbage. set (n := WalEdit.garbage_file_number g).
  pose proof (tr_blob _ _ T n) as Hb. destruct (GetOrCreateMutableBlobFileMetaData n r) as [m|] eqn:Hm.
  - destruct (sp_blobs s !! n) as [i|] eqn:Hi; cbn [fmap option_fmap option_map] in Hb; [|done]. injection Hb as Hb. cbn [mbind option_bind].
    destruct (AddGarbage _ _ m) as [m'|] eqn:Ha; unfold AddGarbage in Ha; rewrite Hb in Ha; cbn -[u64] in Ha; case_decide as Hd.
    + eexists. split; [done|]. destruct (tr_info _ _ T n i Hi) as (Hn & H0 & _ & _). apply blob_tracks; try done.
      * case_match; [done|]. injection Ha as <-. by rewrite Hb || done.
      * apply u64_range.
      * apply u64_range.
      * intros b0 Hb0. eapply changes_garbage; [by eapply current_changes|]. unfold AddGarbage. rewrite Hb. exact Ha.
    + exfalso. case_match eqn:F; [done|]. apply Hd. apply orb_false_iff in F as [F1%Z.ltb_ge F2%Z.ltb_ge]. done.
    + exfalso. case_match eqn:F; [|done]. apply orb_true_iff in F as [F%Z.ltb_lt|F%Z.ltb_lt]; lia.
    + eexists. done.
  - destruct (sp_blobs s !! n) as [i|]; cbn in Hb; [done|]. eexists. done.
Qed.

Lemma ApplyCompactCursors_spec c r s : tracks r s ->
  implements (ApplyCompactCursors c.1 c.2 r) (spec_cursor (length (levels r)) c s).
Proof.
  intros T. unfold ApplyCompactCursors, spec_cursor. destruct (Z.ltb_spec c.1 0).
  - rewrite decide_True by done. by eexists.
  - rewrite decide_False by lia. destruct (Z.ltb_spec c.1 (Z.of_nat (length (levels r)))).
    + rewrite decide_True by done. eexists. split; [done|]. destruct T as [Tb Tn Tl Tm Tf Ta Tbl Ti Td Tc].
      split; try done. cbn. by rewrite Tc.
    + rewrite decide_False by lia. eexists. done.
Qed.

(** ** Edits *)

Definition keeps_base {A} (op : A -> Rep -> option (Status * Rep)) : Prop :=
  forall x r st r', op x r = Some (st, r') -> base_vstorage r' = base_vstorage r.

Lemma ApplyFileDeletion_base : keeps_base (fun d : Z * Z => ApplyFileDeletion d.1 d.2).
Proof.
  intros d r st r'. unfold ApplyFileDeletion. repeat case_match; try done; try (by intros [= <- <-]).
  destruct (GetOldestBlobFileNumberForTableFile _ _ r); cbn [mbind option_bind]; [|done]. intros [= <- <-]. cbn.
  by rewrite base_update.
Qed.

Lemma ApplyFileAddition_base : keeps_base (fun lf : Z * FileMetaData => ApplyFileAddition lf.1 lf.2).
Proof.
  intros lf r st r'. unfold ApplyFileAddition. repeat case_match; try done; intros [= <- <-]; try done.
  cbn. by rewrite base_update.
Qed.

Lemma blob_base : keeps_base ApplyBlobFileAddition /\ keeps_base ApplyBlobFileGarbage.
Proof.
  split; intros x r st r'; unfold ApplyBlobFileAddition, ApplyBlobFileGarbage; repeat case_match; by intros [= <- <-].
Qed.

Lemma ApplyCompactCursors_base : keeps_base (fun c : Z * list Z => ApplyCompactCursors c.1 c.2).
Proof. intros c r st r'. unfold ApplyCompactCursors. repeat case_match; by intros [= <- <-]. Qed.

(** A loop over the entries of an edit. *)
Lemma each_spec {A} v (P : A -> Prop) (Q : State -> Prop) (op : A -> Rep -> option (Status * Rep)) sp l : keeps_base op ->
  (forall x r s, P x -> Q s -> base_vstorage r = v -> tracks r s -> implements (op x r) (sp x s)) ->
  (forall x s s', Q s -> sp x s = Some s' -> Q s') ->
  forall r s, Forall P l -> Q s -> base_vstorage r = v -> tracks r s -> implements (each op l r) (steps sp l s).
Proof.
  intros Hkeep Hop HQ. induction l as [|x l IH]; intros r s HP Hs Hv T; cbn [each steps].
  - by exists r.
  - apply Forall_cons in HP as [Hx HP]. specialize (Hop x r s Hx Hs Hv T). destruct (sp x s) as [s'|] eqn:E; cbn in Hop |- *.
    + destruct Hop as (r' & Hr & T'). rewrite Hr. apply Hkeep in Hr. apply IH; [done|by eapply HQ|congruence|done].
    + destruct Hop as (r' & ->). by eexists.
Qed.

Lemma each_base {A} (op : A -> Rep -> option (Status * Rep)) : keeps_base op -> keeps_base (each op).
Proof.
  intros Hop l. induction l as [|x l IH]; intros r st r'; cbn [each]; [by intros [= <- <-]|].
  destruct (op x r) as [[s1 r1]|] eqn:E; [|done]. apply Hop in E.
  destruct s1; first [intros [= <- <-]; done|intros ->%IH; done].
Qed.

Lemma then_base op k v : (forall st r, op = Some (st, r) -> base_vstorage r = v) ->
  (forall r st r', base_vstorage r = v -> k r = Some (st, r') -> base_vstorage r' = v) ->
  forall st r, then_ op k = Some (st, r) -> base_vstorage r = v.
Proof.
  intros Hop Hk st r. unfold then_. destruct op as [[s1 r1]|]; [|done]. specialize (Hop s1 r1 eq_refl).
  destruct s1; first [intros [= <- <-]; done|by apply Hk].
Qed.

Lemma implements_bind v op s k k' : implements op s -> (forall st r, op = Some (st, r) -> base_vstorage r = v) ->
  (forall r s, base_vstorage r = v -> tracks r s -> implements (k r) (k' s)) -> implements (then_ op k) (s ≫= k').
Proof.
  intros H Hv Hk. destruct s as [s|]; cbn in *.
  - destruct H as (r & -> & T). apply Hk; [by eapply Hv|done].
  - destruct H as (r & ->). by eexists.
Qed.

(** An edit whose levels are not negative. *)
Definition levels_ok (e : EditCodec.VersionEdit) : Prop :=
  Forall (fun d => 0 <= d.1) (EditCodec.deleted_files e) /\ Forall (fun lf => 0 <= lf.1) (EditCodec.new_files e).

Ltac kept H := intros ? ? E; etransitivity; [exact (each_base _ H _ _ _ _ E)|done].

Section comparator.
Context {C : Comparator}.

Lemma Apply_base o : keeps_base (Apply o).
Proof.
  intros e r st r'. unfold Apply. destruct (CheckConsistency o (base_vstorage r)); try (by intros [= <- <-]).
  eapply then_base; [kept (proj1 blob_base)|intros r1 st1 r1' <-].
  eapply then_base; [kept (proj2 blob_base)|intros r2 st2 r2' <-].
  eapply then_base; [kept ApplyFileDeletion_base|intros r3 st3 r3' <-].
  eapply then_base; [kept ApplyFileAddition_base|intros r4 st4 r4' <- E].
  exact (each_base _ ApplyCompactCursors_base _ _ _ _ E).
Qed.

Lemma Apply_implements o e r s : CheckConsistency o (base_vstorage r) = OK -> levels_ok e ->
  Forall (fresh_blob (num_levels (base_vstorage r)) s) (EditCodec.blob_file_additions e) -> tracks r s ->
  implements (Apply o e r) (spec_apply (num_levels (base_vstorage r)) e s).
Proof.
  intros Hc [Hd Hn] Hf T. unfold Apply, spec_apply. rewrite Hc. set (v := base_vstorage r) in *.
  eapply (implements_bind v); [|kept (proj1 blob_base)|intros r1 s1 N1 T1].
  { eapply (each_spec v _ (fun s' => sp_files s' = sp_files s)); [apply blob_base| | |exact Hf|done|done|done].
    - intros x r' s' Hx Hs Hv T'. apply ApplyBlobFileAddition_spec; [|done].
      unfold fresh_blob in *. by rewrite Hs, (tr_num _ _ T'), Hv.
    - intros x s1 s2 Hs. unfold spec_blob. case_match; [done|]. by intros [= <-]. }
  eapply (implements_bind v); [|kept (proj2 blob_base)|intros r2 s2 N2 T2].
  { eapply (each_spec v (fun _ => True) (fun _ => True)); [apply blob_base| |done|by apply Forall_true|done|done|done].
    intros. by apply ApplyBlobFileGarbage_spec. }
  eapply (implements_bind v); [|kept ApplyFileDeletion_base|intros r3 s3 N3 T3].
  { eapply (each_spec v _ (fun _ => True)); [apply ApplyFileDeletion_base| |done|exact Hd|done|done|done].
    intros. by apply ApplyFileDeletion_spec. }
  eapply (implements_bind v); [|kept ApplyFileAddition_base|intros r4 s4 N4 T4].
  { eapply (each_spec v _ (fun _ => True)); [apply ApplyFileAddition_base| |done|exact Hn|done|done|done].
    intros. by apply ApplyFileAddition_spec. }
  eapply (each_spec v (fun _ => True) (fun _ => True)); [apply ApplyCompactCursors_base| |done|by apply Forall_true|done|done|done].
  intros x r' s' _ _ <- T'. rewrite <- (tr_num _ _ T'). by apply ApplyCompactCursors_spec.
Qed.

(** ** Series of edits *)

(** The calls of [Apply] before a [SaveTo]. *)
Fixpoint apply_all (o : Options) (es : list EditCodec.VersionEdit) (r : Rep) : option (Status * Rep) :=
  match es with [] => Some (OK, r) | e :: es' => then_ (Apply o e r) (apply_all o es') end.

Fixpoint spec_apply_all (num : nat) (es : list EditCodec.VersionEdit) (s : State) : option State :=
  match es with [] => Some s | e :: es' => spec_apply num e s ≫= spec_apply_all num es' end.

(** The edits have levels that are not negative, and blob files come before the table
    files that refer to them. *)
Fixpoint edits_ok (num : nat) (es : list EditCodec.VersionEdit) (s : State) : Prop :=
  match es with
  | [] => True
  | e :: es' =>
    levels_ok e /\ Forall (fresh_blob num s) (EditCodec.blob_file_additions e) /\
    match spec_apply num e s with Some s' => edits_ok num es' s' | None => True end
  end.

Lemma apply_all_spec o es v : CheckConsistency o v = OK -> forall r s, base_vstorage r = v ->
  edits_ok (num_levels v) es s -> tracks r s -> implements (apply_all o es r) (spec_apply_all (num_levels v) es s).
Proof.
  intros Hc. induction es as [|e es IH]; intros r s Hv Hok T; cbn [apply_all spec_apply_all].
  - by exists r.
  - cbn [edits_ok] in Hok. destruct Hok as (Hl & Hf & Hrest). subst v. pose proof (Apply_implements o e r s Hc Hl Hf T) as Ha.
    destruct (spec_apply (num_levels (base_vstorage r)) e s) as [s'|]; cbn in Ha |- *.
    + destruct Ha as (r' & Hr & T'). rewrite Hr. cbn. pose proof (Apply_base _ _ _ _ _ Hr) as Hb. by apply IH.
    + destruct Ha as (r' & ->). by eexists.
Qed.

Lemma apply_all_base o es : forall r st r', apply_all o es r = Some (st, r') -> base_vstorage r' = base_vstorage r.
Proof.
  induction es as [|e es IH]; intros r st r'; cbn [apply_all]; [by intros [= <- <-]|].
  eapply then_base; [intros ? ?; apply Apply_base|]. intros r1 st1 r1' <-. apply IH.
Qed.

End comparator.

Lemma blob_infos_lookup v b : blob_sorted (blob_files_ v) ->
  sp_blobs (state_of v) !! b = blob_info <$> GetBlobFileMetaData b v.
Proof.
  intros Hs. cbn. destruct (GetBlobFileMetaData b v) as [m|] eqn:E; cbn.
  - apply GetBlobFileMetaData_spec in E as [Hm <-]; [|done]. apply elem_of_list_to_map_1.
    + rewrite <- list_fmap_compose. unfold compose; cbn. clear -Hs. induction Hs as [|x l Hs IH Hx]; cbn; constructor; [|done].
      intros (y & Hy & Hin)%list_elem_of_fmap. rewrite Forall_forall in Hx. specialize (Hx y Hin). lia.
    + apply list_elem_of_fmap. by exists m.
  - apply not_elem_of_list_to_map_1. rewrite <- list_fmap_compose. intros (m & Hm & Hin)%list_elem_of_fmap. cbn in Hm.
    assert (GetBlobFileMetaData b v = Some m) by by apply GetBlobFileMetaData_spec. congruence.
Qed.

(** A new builder holds the contents of its base. *)
Lemma new_rep_tracks v : storage_ok v -> tracks (new_rep v) (state_of v).
Proof.
  intros Hok. pose proof Hok as [Hi Hs Hl Hg Hnn].
  assert (forall k, level_state (new_rep v) k = mkLevel ∅ ∅) as Hst.
  { intros k. unfold level_state, new_rep; cbn. destruct (replicate (num_levels v) (mkLevel ∅ ∅) !! k) as [st|] eqn:E; [|done].
    by apply lookup_replicate_1 in E as [-> _]. }
  assert (length (levels (new_rep v)) = num_levels v) as Hnum by (cbn; apply length_replicate).
  split; try done.
  - intros n. unfold GetCurrentLevelForTableFile, new_rep; cbn. rewrite lookup_empty. by apply GetFileLevel_contents.
  - intros n level f. cbn. rewrite contents_lookup by done. intros (k & -> & _ & Hn). split; [lia|done].
  - intros k n f Hk. unfold file_at. rewrite Hst. cbn. rewrite lookup_empty, decide_False by set_solver.
    destruct (contents v !! n) as [[l g]|]; [|done]. case_decide; subst; split; intros E; simplify_eq; done.
  - intros k n f. rewrite Hst. cbn. by rewrite lookup_empty.
  - intros b. rewrite Hnum, blob_infos_lookup by done. unfold GetOrCreateMutableBlobFileMetaData, new_rep; cbn. rewrite lookup_empty.
    destruct (GetBlobFileMetaData b v) as [m|] eqn:E; cbn; [|done]. apply GetBlobFileMetaData_spec in E as [Hm <-]; [|done].
    unfold with_links; cbn. rewrite <- Hl by done. by destruct m.
  - intros b i. rewrite blob_infos_lookup by done. destruct (GetBlobFileMetaData b v) as [m|] eqn:E; cbn; [|done]. intros [= <-].
    apply GetBlobFileMetaData_spec in E as [Hm <-]; [|done]. destruct (Hg m Hm). split_and!; [done|by apply Hnn|done..].
Qed.

End BuilderSpec.
