(* ===== verification/BuilderSave.v ===== *)
(** * Saving a version

    What [VersionBuilder::SaveTo] writes, against the specification of [BuilderSpec]: the
    table files of every level in its order, with the index of their numbers; the blob
    files that are still needed, with their links; and the cursors.  The level of the
    fork that is copied without a merge gets what the merge would give it. *)

From Stdlib Require Import ZArith Lia.
From stdpp Require Import base numbers list gmap sorting.
From S2P Require Import Prelude Version Coding WalEdit FileCodec Progress EditCodec Storage Builder BuilderSpec.

Import FileCodec Storage Builder BuilderSpec.
Local Open Scope Z_scope.

Module BuilderSave.

(** ** One level *)

Definition kept (r : Rep) (k : nat) (bf : bool * FileMetaData) : Prop :=
  let st := level_state r k in
  (GetNumber bf.2 ∉ deleted_files st) /\ (bf.1 = true \/ added_files st !! GetNumber bf.2 = None).

#[global] Instance kept_dec r k bf : Decision (kept r k bf).
Proof. unfold kept. apply _. Defined.

Definition saved_level (r : Rep) (k : nat) (cmp : FileMetaData -> FileMetaData -> bool) : list FileMetaData :=
  snd <$> filter (kept r k) (MergeUnorderdAddedFilesWithBase (LevelFiles k (base_vstorage r)) (added_files (level_state r k)) cmp).

Lemma MaybeAddFile_fold r k l : forall v,
  foldl (MaybeAddFile r k) v l = foldl (fun v f => AddFile k f v) v (snd <$> filter (kept r k) l).
Proof.
  induction l as [|[b f] l IH]; intros v; [done|]. cbn [foldl]. rewrite IH. unfold MaybeAddFile.
  destruct (decide (GetNumber f ∈ deleted_files (level_state r k))).
  - rewrite filter_cons_False; [done|]. unfold kept. cbn. tauto.
  - destruct b; cbn [negb andb].
    + rewrite filter_cons_True; [done|]. split; [done|by left].
    + case_bool_decide as Hs.
      * rewrite filter_cons_False; [done|]. unfold kept. cbn. intros [_ [?|E]]; [done|]. rewrite E in Hs. by destruct Hs.
      * rewrite filter_cons_True; [done|]. split; [done|]. right. by apply eq_None_not_Some.
Qed.

Lemma merge_files_nil cmp base : merge_files cmp [] base = (fun f => (false, f)) <$> base.
Proof. by destruct base. Qed.

Lemma merge_files_cons cmp a added b base : merge_files cmp (a :: added) (b :: base) =
  if cmp a b then (true, a) :: merge_files cmp added (b :: base) else (false, b) :: merge_files cmp (a :: added) base.
Proof. done. Qed.

(** The level that has no changes is copied, as the merge would do. *)
Lemma saved_unchanged r k cmp : added_files (level_state r k) = ∅ -> deleted_files (level_state r k) = ∅ ->
  saved_level r k cmp = LevelFiles k (base_vstorage r).
Proof.
  intros Ha Hd. unfold saved_level, MergeUnorderdAddedFilesWithBase. rewrite Ha.
  assert (sort_files cmp ∅ = []) as -> by (unfold sort_files; by rewrite map_to_list_empty).
  rewrite merge_files_nil, list_filter_all.
  - rewrite <- list_fmap_compose. apply list_fmap_id.
  - apply Forall_fmap, Forall_true. intros f. unfold kept. rewrite Ha, Hd. cbn. split; [set_solver|]. right. apply lookup_empty.
Qed.

Lemma SaveSSTFilesToLevel_spec r k cmp v : (k < num_levels v)%nat -> LevelFiles k v = [] ->
  SaveSSTFilesToLevel r k cmp v =
  set_files (<[k := saved_level r k cmp]> (files_ v)) (index_files k 0 (saved_level r k cmp) (file_locations_ v)) v.
Proof.
  intros Hk Hv. unfold SaveSSTFilesToLevel. case_decide as Hd.
  - destruct Hd as [Ha Hd]. by rewrite saved_unchanged.
  - rewrite MaybeAddFile_fold, AddFile_fold, Hv by done. done.
Qed.

Lemma elem_of_merge_files cmp b f added : forall base, (b, f) ∈ merge_files cmp added base <->
  b = true /\ f ∈ added \/ b = false /\ f ∈ base.
Proof.
  induction added as [|a added IHa]; intros base.
  - rewrite merge_files_nil, list_elem_of_fmap. set_solver.
  - induction base as [|x base IHb]; cbn [merge_files].
    + rewrite list_elem_of_fmap. set_solver.
    + destruct (cmp a x).
      * rewrite elem_of_cons, IHa. set_solver.
      * rewrite elem_of_cons, IHb. set_solver.
Qed.

Lemma merge_files_Permutation cmp added : forall base,
  merge_files cmp added base ≡ₚ ((fun f => (true, f)) <$> added) ++ ((fun f => (false, f)) <$> base).
Proof.
  induction added as [|a added IHa]; intros base.
  - by rewrite merge_files_nil.
  - induction base as [|x base IHb]; cbn [merge_files].
    + cbn. by rewrite app_nil_r.
    + destruct (cmp a x).
      * rewrite IHa. done.
      * rewrite IHb, !fmap_cons. by rewrite <- Permutation_middle.
Qed.

Lemma elem_of_sort_files cmp m f : f ∈ sort_files cmp m <-> exists n, m !! n = Some f.
Proof.
  unfold sort_files. rewrite merge_sort_Permutation, list_elem_of_fmap. split.
  - intros ([n g] & -> & H%elem_of_map_to_list). by exists n.
  - intros [n H]. exists (n, f). split; [done|]. by apply elem_of_map_to_list.
Qed.

(** The files of a level are those of the specification. *)
Lemma elem_of_saved r s k cmp f : tracks r s -> (k < length (levels r))%nat ->
  f ∈ saved_level r k cmp <-> sp_files s !! GetNumber f = Some (Z.of_nat k, f).
Proof.
  intros T Hk. rewrite <- (tr_file _ _ T) by done. unfold saved_level, MergeUnorderdAddedFilesWithBase. rewrite list_elem_of_fmap.
  pose proof (tr_added _ _ T k) as Ta. unfold file_at. split.
  - intros ([b g] & -> & [[Hd Ha] Hg]%list_elem_of_filter). cbn in *.
    apply elem_of_merge_files in Hg as [[-> [n Hg]%elem_of_sort_files]|[-> Hg]].
    + destruct (Ta _ _ Hg) as [<- _]. by rewrite Hg.
    + destruct Ha as [?|Ha]; [done|]. rewrite Ha, decide_False by done.
      rewrite (proj2 (contents_lookup _ _ _ _ (so_indexed _ (tr_base _ _ T))) (ex_intro _ k (conj eq_refl (conj Hg eq_refl)))).
      by rewrite decide_True.
  - destruct (added_files (level_state r k) !! GetNumber f) as [g|] eqn:E.
    + intros [= ->]. destruct (Ta _ _ E) as [_ Hd]. exists (true, f). split; [done|]. apply list_elem_of_filter. split; [split; [done|by left]|].
      apply elem_of_merge_files. left. split; [done|]. apply elem_of_sort_files. eauto.
    + case_decide as Hd; [done|]. destruct (contents (base_vstorage r) !! GetNumber f) as [[l g]|] eqn:Ec; [|done].
      case_decide; [|done]. intros [= ->]. subst l. apply contents_lookup in Ec as (k' & Hk' & Hf & _); [|apply (tr_base _ _ T)].
      apply Nat2Z.inj in Hk' as <-. exists (false, f). split; [done|]. apply list_elem_of_filter. split; [split; [done|by right]|].
      apply elem_of_merge_files. by right.
Qed.

Lemma NoDup_level k v : indexed v -> NoDup (GetNumber <$> LevelFiles k v).
Proof.
  intros Hi. apply NoDup_alt. intros i j n. rewrite !list_lookup_fmap.
  destruct (LevelFiles k v !! i) as [f|] eqn:Ef, (LevelFiles k v !! j) as [g|] eqn:Eg; cbn; [|done..].
  intros [= <-] [= Hn]. assert (file_locations_ v !! GetNumber f = Some (mkLocation k i)) as H1 by (apply Hi; eauto).
  assert (file_locations_ v !! GetNumber f = Some (mkLocation k j)) as H2 by (apply Hi; eauto). congruence.
Qed.

Lemma NoDup_merge r s k cmp : tracks r s ->
  NoDup (MergeUnorderdAddedFilesWithBase (LevelFiles k (base_vstorage r)) (added_files (level_state r k)) cmp).
Proof.
  intros T. unfold MergeUnorderdAddedFilesWithBase. rewrite merge_files_Permutation. apply NoDup_app. split_and!.
  - apply NoDup_fmap_2; [by intros ?? [=]|]. unfold sort_files. rewrite merge_sort_Permutation.
    apply NoDup_fmap_2_strong; [|apply NoDup_map_to_list].
    intros [n f] [n' g] Hf%elem_of_map_to_list Hg%elem_of_map_to_list E. cbn in E. subst g.
    destruct (tr_added _ _ T _ _ _ Hf), (tr_added _ _ T _ _ _ Hg). congruence.
  - intros [b f] (x & [= -> ->] & _)%list_elem_of_fmap (y & [= ? ?] & _)%list_elem_of_fmap.
  - apply NoDup_fmap_2; [by intros ?? [=]|]. eapply NoDup_fmap_1, NoDup_level. apply (tr_base _ _ T).
Qed.

Lemma NoDup_saved r s k cmp : tracks r s -> (k < length (levels r))%nat -> NoDup (GetNumber <$> saved_level r k cmp).
Proof.
  intros T Hk. unfold saved_level. rewrite <- list_fmap_compose.
  apply NoDup_fmap_2_strong; [|by apply NoDup_filter, (NoDup_merge _ s)].
  intros [b f] [b' g] Hf Hg E. cbn in E.
  assert (forall c h, (c, h) ∈ filter (kept r k) (MergeUnorderdAddedFilesWithBase (LevelFiles k (base_vstorage r))
     (added_files (level_state r k)) cmp) -> sp_files s !! GetNumber h = Some (Z.of_nat k, h) /\
     (c = true <-> is_Some (added_files (level_state r k) !! GetNumber h))) as Hin.
  { intros c h Hh. split.
    - apply (elem_of_saved _ _ _ cmp _ T Hk). apply list_elem_of_fmap. by exists (c, h).
    - apply list_elem_of_filter in Hh as [[_ Hh] Hm]. apply elem_of_merge_files in Hm as [[-> [n Hn]%elem_of_sort_files]|[-> _]]; cbn in Hh.
      + destruct (tr_added _ _ T _ _ _ Hn) as [<- _]. by rewrite Hn.
      + destruct Hh as [? | ->]; [done|]. split; [done|]. by intros []. }
  apply Hin in Hf as [Hf Hb], Hg as [Hg Hb']. rewrite E in Hf, Hb. assert (f = g) as -> by congruence. f_equal.
  destruct b, b'; intuition congruence.
Qed.

(** ** Order of a level *)

Definition ordered (cmp : FileMetaData -> FileMetaData -> bool) : list FileMetaData -> Prop :=
  StronglySorted (fun a b => cmp a b = true).

Section order.
Context (cmp : FileMetaData -> FileMetaData -> bool) {O : FileOrder cmp}.

Lemma merge_files_sorted added : forall base,
  StronglySorted (fun a b => cmp b a = false) added -> StronglySorted (fun a b => cmp b a = false) base ->
  StronglySorted (fun a b => cmp b a = false) (snd <$> merge_files cmp added base).
Proof.
  assert (forall (c : bool) (l : list FileMetaData), snd <$> ((fun f : FileMetaData => (c, f)) <$> l) = l) as Hid.
  { intros c l. rewrite <- list_fmap_compose. apply list_fmap_id. }
  induction added as [|a added IHa]; intros base Ha Hb.
  - by rewrite merge_files_nil, Hid.
  - induction base as [|b base IHb]; [cbn [merge_files]; by rewrite Hid|]. rewrite merge_files_cons.
    apply StronglySorted_inv in Ha as Ha'. destruct Ha' as [Ha1 Ha2]. apply StronglySorted_inv in Hb as Hb'. destruct Hb' as [Hb1 Hb2].
    rewrite Forall_forall in Ha2, Hb2. destruct (cmp a b) eqn:E; rewrite fmap_cons; constructor; cbn [snd].
    + by apply IHa.
    + apply Forall_forall. intros f ([c g] & -> & Hg)%list_elem_of_fmap. cbn. apply elem_of_merge_files in Hg as [[_ Hg]|[_ Hg]].
      * by apply Ha2.
      * apply elem_of_cons in Hg as [->|Hg]; [by apply order_asym|]. apply (order_trans a b g); [by apply order_asym|by apply Hb2].
    + by apply IHb.
    + apply Forall_forall. intros f ([c g] & -> & Hg)%list_elem_of_fmap. cbn. apply elem_of_merge_files in Hg as [[_ Hg]|[_ Hg]].
      * apply elem_of_cons in Hg as [->|Hg]; [done|]. apply (order_trans b a g); [done|by apply Ha2].
      * by apply Hb2.
Qed.

Lemma sort_files_sorted m : StronglySorted (fun a b => cmp b a = false) (sort_files cmp m).
Proof.
  assert (StronglySorted (fun a b => Is_true (negb (cmp b a))) (sort_files cmp m)) as H.
  { apply Sorted_StronglySorted.
    - intros a b c Hab Hbc. destruct (cmp b a) eqn:E1; [done|]. destruct (cmp c b) eqn:E2; [done|]. by rewrite (order_trans a b c).
    - apply Sorted_merge_sort. intros a b. destruct (cmp b a) eqn:E; [right|left; done]. by rewrite (order_asym _ _ E). }
  induction H as [|a l Hs IH Ha]; constructor; [done|]. eapply Forall_impl; [exact Ha|]. cbn. intros b. destruct (cmp b a); [by intros []|done].
Qed.

Lemma sorted_snd (l : list (bool * FileMetaData)) (R : relation FileMetaData) :
  StronglySorted R (snd <$> l) <-> StronglySorted (fun x y => R x.2 y.2) l.
Proof.
  induction l as [|x l IH]; [split; constructor|]. rewrite fmap_cons. split; intros [H1 H2]%StronglySorted_inv; constructor; try (by apply IH).
  - rewrite Forall_fmap in H2. exact H2.
  - rewrite Forall_fmap. exact H2.
Qed.

Lemma strict_ordered l : NoDup (GetNumber <$> l) -> StronglySorted (fun a b => cmp b a = false) l -> ordered cmp l.
Proof.
  intros Hnd. induction 1 as [|a l Hs IH Ha]; [constructor|]. rewrite fmap_cons in Hnd. apply NoDup_cons in Hnd as [Hn Hnd].
  constructor; [by apply IH|]. rewrite Forall_forall in *. intros b Hb. specialize (Ha b Hb). destruct (cmp a b) eqn:E; [done|].
  destruct Hn. rewrite (order_tie _ _ E Ha). by apply list_elem_of_fmap_2.
Qed.

(** A level whose base is in order is saved in order. *)
Lemma saved_ordered r s k : tracks r s -> (k < length (levels r))%nat -> ordered cmp (LevelFiles k (base_vstorage r)) ->
  ordered cmp (saved_level r k cmp).
Proof.
  intros T Hk Hbase. apply strict_ordered; [by eapply NoDup_saved|]. unfold saved_level.
  apply sorted_snd, StronglySorted_filter, (proj1 (sorted_snd _ (fun a b => cmp b a = false))).
  apply merge_files_sorted; [apply sort_files_sorted|].
  induction Hbase as [|a l Hs IH Ha]; constructor; [done|]. eapply Forall_impl; [exact Ha|]. intros b Hb. by apply order_asym.
Qed.

End order.

(** ** Blob files *)

Definition key_lt (x y : Z * MutableBlobFileMetaData) : Prop := x.1 < y.1.

(** The call of [MergeBlobFileMetas] for a blob file. *)
Definition belongs (base : list BlobFileMetaData) (ms : list (Z * MutableBlobFileMetaData)) (i : BlobItem) : Prop :=
  match i with
  | BaseOnly b => b ∈ base /\ (GetBlobFileNumber b ∉ ms.*1)
  | MutableOnly m => exists n, (n, m) ∈ ms /\ (n ∉ GetBlobFileNumber <$> base)
  | Both b m => b ∈ base /\ (GetBlobFileNumber b, m) ∈ ms
  end.

Lemma merge_blobs_cons b base n m ms : merge_blobs (b :: base) ((n, m) :: ms) =
  if GetBlobFileNumber b <? n then BaseOnly b :: merge_blobs base ((n, m) :: ms)
  else if n <? GetBlobFileNumber b then MutableOnly m :: merge_blobs (b :: base) ms
  else Both b m :: merge_blobs base ms.
Proof. done. Qed.

Lemma merge_blobs_nil ms : merge_blobs [] ms = MutableOnly ∘ snd <$> ms.
Proof. by destruct ms. Qed.

Lemma belongs_base b base ms i : GetBlobFileNumber b ∉ ms.*1 ->
  belongs (b :: base) ms i <-> i = BaseOnly b \/ belongs base ms i.
Proof.
  intros Hk. destruct i as [c|c|c d]; cbn; rewrite ?elem_of_cons.
  - split; [intros [[->|?] ?]; tauto|]. intros [[= ->]|?]; tauto.
  - split; intros H; [right; destruct H as (x & Hx & Hn)|destruct H as [?|(x & Hx & Hn)]; [done|]]; exists x; (split; [done|]).
    + rewrite not_elem_of_cons in Hn. tauto.
    + rewrite not_elem_of_cons. split; [|done]. intros ->. apply Hk. by apply (list_elem_of_fmap_2 fst) in Hx.
  - split; [|intros [?|?]; [done|tauto]]. intros [[->|?] Hx]; [|tauto]. destruct Hk. by apply (list_elem_of_fmap_2 fst) in Hx.
Qed.

Lemma belongs_mutable n m base ms i : (n ∉ GetBlobFileNumber <$> base) ->
  belongs base ((n, m) :: ms) i <-> i = MutableOnly m \/ belongs base ms i.
Proof.
  intros Hk. destruct i as [c|c|c d]; cbn; rewrite ?not_elem_of_cons.
  - split; [tauto|]. intros [?|[Hc Hn]]; [done|]. split_and!; [done| |done]. intros E. apply Hk. rewrite <- E. by apply list_elem_of_fmap_2.
  - split.
    + intros (x & [[= -> ->]|Hx]%elem_of_cons & Hn); [by left|]. right. eauto.
    + intros [[= ->]|(x & Hx & Hn)]; [exists n; split; [by left|done]|]. exists x. split; [by right|done].
  - rewrite elem_of_cons. split; [|intros [?|[? ?]]; [done|tauto]]. intros [Hc [[= E ->]|Hx]]; [|tauto]. destruct Hk. rewrite <- E.
    by apply list_elem_of_fmap_2.
Qed.

Lemma belongs_both b m base ms i : (GetBlobFileNumber b ∉ GetBlobFileNumber <$> base) -> GetBlobFileNumber b ∉ ms.*1 ->
  belongs (b :: base) ((GetBlobFileNumber b, m) :: ms) i <-> i = Both b m \/ belongs base ms i.
Proof.
  intros Hbn Hmn. destruct i as [c|c|c d]; cbn; rewrite ?elem_of_cons.
  - split; [intros [[->|Hc] Hn]; tauto|]. intros [?|[Hc Hn]]; [done|]. split; [by right|]. intros [E|?]; [|done].
    apply Hbn. rewrite <- E. by apply list_elem_of_fmap_2.
  - split.
    + intros (x & [[= -> ->]|Hx]%elem_of_cons & Hn); rewrite not_elem_of_cons in Hn; [tauto|]. right. exists x. tauto.
    + intros [?|(x & Hx & Hn)]; [done|]. exists x. rewrite elem_of_cons, not_elem_of_cons. split_and!; [by right| |done].
      intros ->. apply Hmn. by apply (list_elem_of_fmap_2 fst) in Hx.
  - split; [|intros [[= -> ->]|[? ?]]; tauto].
    intros [[->|Hc] H]; [destruct H as [[= ->]|Hx]; [by left|]|destruct H as [[= E ->]|Hx]; [|tauto]].
    + destruct Hmn. by apply (list_elem_of_fmap_2 fst) in Hx.
    + destruct Hbn. rewrite <- E. by apply list_elem_of_fmap_2.
Qed.

Lemma belongs_nil_base ms i : belongs [] ms i <-> exists n m, i = MutableOnly m /\ (n, m) ∈ ms.
Proof.
  destruct i; cbn; split; try (by intros [?%not_elem_of_nil _]); try (by intros (? & ? & ? & _)).
  - intros (n & Hn & _). eauto.
  - intros (n & m' & [= ->] & Hn). exists n. split; [done|apply not_elem_of_nil].
Qed.

Lemma belongs_nil_mutable base i : belongs base [] i <-> exists b, i = BaseOnly b /\ b ∈ base.
Proof.
  destruct i; cbn; split; try (by intros [? ?%not_elem_of_nil]); try (by intros (? & ? & _)); try (by intros (? & ?%not_elem_of_nil & _)).
  - intros [Hb _]. eauto.
  - intros (b' & [= ->] & Hb). split; [done|apply not_elem_of_nil].
Qed.

Lemma number_fresh b base : Forall (fun x => GetBlobFileNumber b < GetBlobFileNumber x) base -> GetBlobFileNumber b ∉ GetBlobFileNumber <$> base.
Proof. rewrite Forall_forall. intros H (x & E & Hx)%list_elem_of_fmap. specialize (H x Hx). lia. Qed.

Lemma key_fresh n m ms : Forall (key_lt (n, m)) ms -> n ∉ ms.*1.
Proof. rewrite Forall_forall. intros H (x & E & Hx)%list_elem_of_fmap. specialize (H x Hx). unfold key_lt in H. cbn in H. lia. Qed.

(** A blob file is visited once, with what the base and the builder have of it. *)
Lemma elem_of_merge_blobs base : forall ms i, blob_sorted base -> StronglySorted key_lt ms ->
  i ∈ merge_blobs base ms <-> belongs base ms i.
Proof.
  induction base as [|b base IHb]; intros ms i.
  - intros _ _. rewrite merge_blobs_nil, list_elem_of_fmap, belongs_nil_base. split.
    + intros ([n m] & -> & Hm). by exists n, m.
    + intros (n & m & -> & Hm). by exists (n, m).
  - induction ms as [|[n m] ms IHm]; intros Hb Hm.
    + change (merge_blobs (b :: base) []) with (BaseOnly <$> b :: base). by rewrite list_elem_of_fmap, belongs_nil_mutable.
    + rewrite merge_blobs_cons. pose proof (StronglySorted_inv Hb) as [Hb1 Hb2]. pose proof (StronglySorted_inv Hm) as [Hm1 Hm2].
      destruct (Z.ltb_spec (GetBlobFileNumber b) n); [|destruct (Z.ltb_spec n (GetBlobFileNumber b))]; rewrite elem_of_cons.
      * rewrite IHb by done. symmetry. apply belongs_base. cbn. rewrite not_elem_of_cons. split; [lia|].
        apply (key_fresh _ m). eapply Forall_impl; [exact Hm2|]. unfold key_lt; cbn. lia.
      * rewrite IHm by done. symmetry. apply belongs_mutable. cbn. rewrite not_elem_of_cons. split; [lia|].
        rewrite Forall_forall in Hb2. intros (x & E & Hx)%list_elem_of_fmap. specialize (Hb2 x Hx). lia.
      * assert (n = GetBlobFileNumber b) as -> by lia. rewrite IHb by done. symmetry. apply belongs_both; [by apply number_fresh|by eapply key_fresh].
Qed.

Definition item_number (i : BlobItem) : Z := GetBlobFileNumber (item_meta i).

Lemma belongs_lt base ms i x : belongs base ms i -> Forall (fun nm => GetBlobFileNumber (blob nm.2) = nm.1) ms ->
  Forall (fun b => x < GetBlobFileNumber b) base -> Forall (fun nm => x < nm.1) ms -> x < item_number i.
Proof.
  intros Hi Hn Hb Hm. rewrite Forall_forall in Hb. rewrite Forall_forall in Hm, Hn. unfold item_number.
  destruct i as [c|c|c m]; cbn in Hi |- *; [destruct Hi; by apply Hb| |].
  - destruct Hi as (n & Hc & _). specialize (Hn _ Hc). specialize (Hm _ Hc). cbn in *. lia.
  - destruct Hi as [_ Hc]. specialize (Hn _ Hc). specialize (Hm _ Hc). cbn in *. lia.
Qed.

Lemma merge_blobs_sorted base : forall ms, blob_sorted base -> StronglySorted key_lt ms ->
  Forall (fun nm => GetBlobFileNumber (blob nm.2) = nm.1) ms ->
  StronglySorted (fun i j => item_number i < item_number j) (merge_blobs base ms).
Proof.
  induction base as [|b base IHb]; intros ms.
  - intros _ Hm Hn. rewrite merge_blobs_nil. induction Hm as [|[n m] ms Hm IH Hlt']; [constructor|]. apply Forall_cons in Hn as [E Hn].
    rewrite fmap_cons. constructor; [by apply IH|]. apply Forall_fmap. rewrite Forall_forall in Hlt', Hn |- *. intros [n' m'] Hx.
    specialize (Hlt' _ Hx). specialize (Hn _ Hx). unfold item_number, key_lt in *. cbn in *. lia.
  - induction ms as [|[n m] ms IHm]; intros Hb Hm Hn.
    + change (merge_blobs (b :: base) []) with (BaseOnly <$> b :: base). clear -Hb. induction Hb as [|c l Hl IH Hc]; [constructor|].
      rewrite fmap_cons. constructor; [done|]. by apply Forall_fmap.
    + rewrite merge_blobs_cons. pose proof (StronglySorted_inv Hb) as [Hb1 Hb2]. pose proof (StronglySorted_inv Hm) as [Hm1 Hm2].
      pose proof (Forall_cons_1 _ _ _ Hn) as [En Hn']. cbn in En.
      destruct (Z.ltb_spec (GetBlobFileNumber b) n); [|destruct (Z.ltb_spec n (GetBlobFileNumber b))]; constructor.
      * by apply IHb.
      * apply Forall_forall. intros i Hi%elem_of_merge_blobs; [|done..]. eapply belongs_lt; [exact Hi|done|done|]. constructor; [done|].
        eapply Forall_impl; [exact Hm2|]. unfold key_lt, item_number; cbn. lia.
      * by apply IHm.
      * apply Forall_forall. intros i Hi%elem_of_merge_blobs; [|done..]. eapply belongs_lt; [exact Hi|done| |]; unfold item_number; cbn; rewrite En.
        -- constructor; [done|]. eapply Forall_impl; [exact Hb2|]. cbn. lia.
        -- exact Hm2.
      * by apply IHb.
      * apply Forall_forall. intros i Hi%elem_of_merge_blobs; [|done..]. eapply belongs_lt; [exact Hi|done| |]; unfold item_number; cbn; rewrite En.
        -- eapply Forall_impl; [exact Hb2|]. cbn. lia.
        -- exact Hm2.
Qed.

(** ** The blob files that are saved *)

Definition current_blob (r : Rep) (b : Z) : option BlobFileMetaData := blob <$> GetOrCreateMutableBlobFileMetaData b r.

Lemma mutable_from_spec first r : StronglySorted key_lt (mutable_from first r) /\
  forall n m, (n, m) ∈ mutable_from first r <-> first <= n /\ mutable_blob_file_metas r !! n = Some m.
Proof.
  unfold mutable_from. split.
  - apply StronglySorted_filter. set (l := merge_sort key_le _).
    assert (StronglySorted key_le l) as Hs.
    { apply StronglySorted_merge_sort; [intros x y z; unfold key_le; lia|intros x y; unfold key_le; lia]. }
    assert (NoDup (l.*1)) as Hnd by (unfold l; rewrite merge_sort_Permutation; apply NoDup_fst_map_to_list).
    clearbody l. induction Hs as [|x l Hs IH Hx]; [constructor|]. rewrite fmap_cons in Hnd. apply NoDup_cons in Hnd as [Hn Hnd].
    constructor; [by apply IH|]. rewrite Forall_forall in Hx |- *. intros y Hy. specialize (Hx y Hy). unfold key_le, key_lt in *.
    assert (x.1 <> y.1) by (intros E; apply Hn; rewrite E; by apply list_elem_of_fmap_2). lia.
  - intros n m. by rewrite list_elem_of_filter, merge_sort_Permutation, elem_of_map_to_list.
Qed.

Lemma current_blob_info r s b meta : tracks r s -> current_blob r b = Some meta ->
  GetBlobFileNumber meta = b /\ 0 <= b /\ is_u64 (garbage_count meta) /\ is_u64 (garbage_bytes meta) /\
  linked_ssts meta = links (length (levels r)) (sp_files s) b.
Proof.
  intros T. unfold current_blob. rewrite (tr_blob _ _ T). destruct (sp_blobs s !! b) as [i|] eqn:Hi; cbn; [|done]. intros [= <-].
  destruct (tr_info _ _ T _ _ Hi) as (? & ? & ? & ?). done.
Qed.

Definition saved_meta (i : BlobItem) : BlobFileMetaData :=
  match i with
  | BaseOnly b => b
  | MutableOnly m => blob m
  | Both b m => if HasDelta m then blob m else b
  end.

(** A blob file without a delta is as in the base. *)
Lemma no_delta m b0 : changes m b0 -> is_u64 (garbage_count b0) -> is_u64 (garbage_bytes b0) -> HasDelta m = false -> blob m = b0.
Proof.
  intros [H1 H2 H3 H4 H5 H6 H7] U1 U2. unfold HasDelta, IsEmpty. intros H. apply negb_false_iff in H.
  apply andb_true_iff in H as [H Eu]. apply andb_true_iff in H as [H En]. apply andb_true_iff in H as [Ec%Z.eqb_eq Eb%Z.eqb_eq].
  apply bool_decide_eq_true in Eu, En. rewrite En, Eu in H2. rewrite Ec, Z.add_0_r, u64_small in H5 by done.
  rewrite Eb, Z.add_0_r, u64_small in H6 by done. destruct m as [[sm lk gc gb] d], b0; cbn in *. subst. f_equal. set_solver.
Qed.

(** The calls of [MergeBlobFileMetas] are for the current blob files, in order. *)
Lemma visited_sorted r s first : tracks r s ->
  StronglySorted (fun i j => item_number i < item_number j) (MergeBlobFileMetas first r).
Proof.
  intros T. destruct (mutable_from_spec first r) as [Hs Hin]. apply merge_blobs_sorted; [|done|].
  - unfold GetBlobFileMetaDataLB. rewrite lower_bound_filter by apply (tr_base _ _ T). apply StronglySorted_filter, (tr_base _ _ T).
  - apply Forall_forall. intros [n m] [_ Hm]%Hin. cbn.
    apply (current_blob_info r s); [done|]. unfold current_blob, GetOrCreateMutableBlobFileMetaData. by rewrite Hm.
Qed.

Lemma visited r s first i : tracks r s -> i ∈ MergeBlobFileMetas first r ->
  saved_meta i = item_meta i /\ first <= item_number i /\ current_blob r (item_number i) = Some (item_meta i).
Proof.
  intros T Hi. pose proof (tr_base _ _ T) as [_ Hsorted _ Hg _]. destruct (mutable_from_spec first r) as [Hs Hin].
  assert (forall n m, (n, m) ∈ mutable_from first r -> first <= GetBlobFileNumber (blob m) /\
     current_blob r (GetBlobFileNumber (blob m)) = Some (blob m) /\ GetBlobFileNumber (blob m) = n) as Hmut.
  { intros n m [Hn Hm]%Hin. assert (current_blob r n = Some (blob m)) as Hc
      by (unfold current_blob, GetOrCreateMutableBlobFileMetaData; by rewrite Hm).
    destruct (current_blob_info _ _ _ _ T Hc) as [-> _]. done. }
  unfold MergeBlobFileMetas, GetBlobFileMetaDataLB in Hi. rewrite lower_bound_filter in Hi by done.
  apply elem_of_merge_blobs in Hi; [|by apply StronglySorted_filter|done]. unfold item_number.
  destruct i as [b|m|b m]; cbn in Hi |- *.
  - destruct Hi as [[Hf Hb]%list_elem_of_filter Hn]. split_and!; [done|done|].
    unfold current_blob, GetOrCreateMutableBlobFileMetaData. destruct (mutable_blob_file_metas r !! GetBlobFileNumber b) as [m|] eqn:E.
    + destruct Hn. apply (list_elem_of_fmap_2 fst _ (GetBlobFileNumber b, m)). by apply Hin.
    + by rewrite (proj2 (GetBlobFileMetaData_spec _ _ b Hsorted)).
  - destruct Hi as (n & Hn & _). destruct (Hmut n m Hn) as (? & ? & ?). done.
  - destruct Hi as [[Hf Hb]%list_elem_of_filter Hn]. destruct (Hmut _ _ Hn) as (? & ? & E). split_and!; [|done|done].
    destruct (HasDelta m) eqn:Hd; [done|]. symmetry. destruct (Hg b Hb). eapply no_delta; [|done..].
    eapply (tr_delta _ _ T); [by apply Hin|]. by apply GetBlobFileMetaData_spec.
Qed.

Lemma visited_all r s first b meta : tracks r s -> first <= b -> current_blob r b = Some meta ->
  exists i, i ∈ MergeBlobFileMetas first r /\ item_meta i = meta.
Proof.
  intros T Hb Hc. pose proof (tr_base _ _ T) as [_ Hsorted _ _ _]. destruct (mutable_from_spec first r) as [Hs Hin].
  pose proof Hc as Hc'. unfold current_blob, GetOrCreateMutableBlobFileMetaData in Hc.
  unfold MergeBlobFileMetas, GetBlobFileMetaDataLB. rewrite lower_bound_filter by done.
  setoid_rewrite elem_of_merge_blobs; [|by apply StronglySorted_filter|done].
  destruct (mutable_blob_file_metas r !! b) as [m|] eqn:Hm.
  - injection Hc as <-. destruct (GetBlobFileMetaData b (base_vstorage r)) as [b0|] eqn:E.
    + apply GetBlobFileMetaData_spec in E as [E <-]; [|done]. exists (Both b0 m). cbn. split; [|done].
      split; [by apply list_elem_of_filter|by apply Hin].
    + exists (MutableOnly m). split; [|done]. exists b. split; [by apply Hin|]. intros (x & Ex & [_ Hx]%list_elem_of_filter)%list_elem_of_fmap.
      rewrite (proj2 (GetBlobFileMetaData_spec b _ x Hsorted)) in E by done. done.
  - destruct (GetBlobFileMetaData b (base_vstorage r)) as [b0|] eqn:E; cbn in Hc; [|done]. injection Hc as <-.
    apply GetBlobFileMetaData_spec in E as [E <-]; [|done]. exists (BaseOnly b0). cbn. split; [|done].
    split; [by apply list_elem_of_filter|]. intros ([n m] & En & Hx)%list_elem_of_fmap. apply Hin in Hx as [_ Hx]. cbn in En. congruence.
Qed.

Definition linked_item (l : list BlobItem) (i : BlobItem) : Prop := i ∈ l /\ linked_ssts (item_meta i) <> ∅.

(** The first blob file with linked table files is the oldest one. *)
Lemma first_linked_spec l : StronglySorted (fun i j => item_number i < item_number j) l ->
  (forall i, linked_item l i -> first_linked l <= item_number i /\ exists j, linked_item l j /\ item_number j = first_linked l) /\
  (first_linked l <> kInvalidBlobFileNumber -> exists j, linked_item l j /\ item_number j = first_linked l).
Proof.
  unfold linked_item. induction 1 as [|i l Hs [IH1 IH2] Hi]; cbn [first_linked]; [split; [by intros ? [?%not_elem_of_nil _]|done]|].
  rewrite Forall_forall in Hi. case_decide as Hd; split.
  - intros j [[->|Hj]%elem_of_cons Hl]; [done|]. destruct (IH1 j) as (? & k & [? ?] & ?); [done|]. split; [done|]. exists k. set_solver.
  - intros Hf. destruct (IH2 Hf) as (j & [Hj ?] & ?). exists j. set_solver.
  - intros j [[->|Hj]%elem_of_cons Hl]; (split; [|exists i; set_solver]); [done|]. specialize (Hi j Hj). unfold item_number in *. lia.
  - intros _. exists i. set_solver.
Qed.

(** A blob file stays unless nothing refers to it and all of it is garbage. *)
Definition needed (b : BlobFileMetaData) : Prop :=
  ~ (linked_ssts b = ∅ /\ WalEdit.total_blob_count (shared_meta b) <= garbage_count b).

#[global] Instance needed_dec b : Decision (needed b).
Proof. unfold needed. apply _. Defined.

Definition set_blobs (bs : list BlobFileMetaData) (v : VersionStorageInfo) : VersionStorageInfo :=
  mkStorage (files_ v) (file_locations_ v) bs (compact_cursor_ v) (epoch_number_requirement_ v).

Lemma save_blob_fold l : forall v, foldl save_blob v l = set_blobs (blob_files_ v ++ filter needed (saved_meta <$> l)) v.
Proof.
  induction l as [|i l IH]; intros v; cbn [foldl].
  - unfold set_blobs. cbn. rewrite app_nil_r. by destruct v.
  - rewrite IH, fmap_cons. assert (save_blob v i = AddBlobFileIfNeeded (saved_meta i) v) as ->
      by (destruct i; cbn; try done; by destruct (HasDelta m)).
    unfold AddBlobFileIfNeeded. destruct (decide (needed (saved_meta i))) as [Hn|Hn].
    + rewrite filter_cons_True by done. assert (bool_decide (linked_ssts (saved_meta i) = ∅) &&
        (WalEdit.total_blob_count (shared_meta (saved_meta i)) <=? garbage_count (saved_meta i)) = false) as ->.
      { apply not_true_is_false. intros [H1%bool_decide_eq_true H2%Z.leb_le]%andb_true_iff. by apply Hn. }
      unfold set_blobs; cbn. by rewrite <- app_assoc.
    + rewrite filter_cons_False by done. apply dec_stable in Hn as [H1 H2]. by rewrite bool_decide_eq_true_2, (proj2 (Z.leb_le _ _) H2).
Qed.

(** The blob files of the new version: the needed ones from the oldest one on that a table file refers to. *)
Lemma SaveBlobFilesTo_spec r s v : tracks r s -> blob_files_ v = [] -> exists bs,
  SaveBlobFilesTo r v = set_blobs bs v /\ blob_sorted bs /\
  forall b, b ∈ bs <-> needed b /\ current_blob r (GetBlobFileNumber b) = Some b /\
    exists c m, c <= GetBlobFileNumber b /\ current_blob r c = Some m /\ linked_ssts m <> ∅.
Proof.
  intros T Hv. unfold SaveBlobFilesTo. set (oldest := GetMinOldestBlobFileNumber r).
  pose proof (visited_sorted r s kInvalidBlobFileNumber T) as Hsorted. pose proof (first_linked_spec _ Hsorted) as [Hmin Hex].
  change (first_linked _) with oldest in Hmin, Hex.
  assert (forall i, linked_item (MergeBlobFileMetas kInvalidBlobFileNumber r) i -> item_number i <> kInvalidBlobFileNumber) as Hnz.
  { intros i [Hi Hl] E. destruct (visited _ _ _ _ T Hi) as (_ & _ & Hc). destruct (current_blob_info _ _ _ _ T Hc) as (_ & _ & _ & _ & Hlk).
    apply Hl. rewrite Hlk, E. apply set_eq. intros x. rewrite elem_of_links. set_solver. }
  assert (forall c m, current_blob r c = Some m -> linked_ssts m <> ∅ -> oldest <= c /\ oldest <> kInvalidBlobFileNumber) as Hlinked.
  { intros c m Hc Hl. destruct (current_blob_info _ _ _ _ T Hc) as (Hn & H0 & _).
    destruct (visited_all r s kInvalidBlobFileNumber c m T H0 Hc) as (i & Hi & <-).
    destruct (Hmin i) as (Hle & j & Hj & <-); [done|]. unfold item_number in Hle at 2. split; [lia|by apply Hnz]. }
  destruct (Z.eqb_spec oldest kInvalidBlobFileNumber) as [E|E].
  - exists []. split_and!; [rewrite <- Hv; by destruct v|constructor|]. intros b. split; [by intros ?%not_elem_of_nil|].
    intros (_ & _ & c & m & _ & Hc & Hl). by destruct (Hlinked c m Hc Hl).
  - rewrite save_blob_fold, Hv. cbn [app]. set (items := MergeBlobFileMetas oldest r).
    assert (forall i, i ∈ items -> saved_meta i = item_meta i /\ oldest <= item_number i /\ current_blob r (item_number i) = Some (item_meta i)) as Hvis
      by (intros i; by apply (visited r s)).
    eexists. split; [done|]. split.
    + apply StronglySorted_filter. pose proof (visited_sorted r s oldest T) as Hs. fold items in Hs. clearbody items.
      induction Hs as [|i l Hs IH Hi]; [constructor|]. rewrite fmap_cons. constructor; [apply IH; intros; apply Hvis; by right|].
      apply Forall_fmap. rewrite Forall_forall in Hi |- *. intros j Hj. cbn. destruct (Hvis i) as [-> _]; [left|].
      destruct (Hvis j) as [-> _]; [by right|]. by apply Hi.
    + intros b. rewrite list_elem_of_filter, list_elem_of_fmap. destruct (Hex E) as (j & [Hj Hlj] & Ej).
      destruct (visited _ _ _ _ T Hj) as (_ & _ & Hcj). split.
      * intros (Hn & i & -> & Hi). destruct (Hvis i Hi) as (Es & Hle & Hc). rewrite Es in *. split_and!; [done|done|].
        exists (item_number j), (item_meta j). split_and!; [|done|done]. rewrite Ej. exact Hle.
      * intros (Hn & Hc & c & m & Hle & Hcm & Hl). split; [done|]. destruct (Hlinked c m Hcm Hl) as [Ho _].
        destruct (visited_all r s oldest (GetBlobFileNumber b) b T) as (i & Hi & Ei); [lia|done|]. exists i. destruct (Hvis i Hi) as (-> & _). done.
Qed.

(** The cursors that were moved replace those of the base. *)
Lemma SaveCompactCursorsTo_spec r v : exists cs, SaveCompactCursorsTo r v =
    mkStorage (files_ v) (file_locations_ v) (blob_files_ v) cs (epoch_number_requirement_ v) /\
  length cs = length (compact_cursor_ v) /\
  forall k, (k < length cs)%nat -> cs !! k = match updated_compact_cursors r !! k with Some key => Some key | None => compact_cursor_ v !! k end.
Proof.
  unfold SaveCompactCursorsTo. apply (map_fold_weak_ind (fun v' (m : gmap nat (list Z)) => exists cs, v' =
      mkStorage (files_ v) (file_locations_ v) (blob_files_ v) cs (epoch_number_requirement_ v) /\
    length cs = length (compact_cursor_ v) /\
    forall k, (k < length cs)%nat -> cs !! k = match m !! k with Some key => Some key | None => compact_cursor_ v !! k end)).
  - exists (compact_cursor_ v). split_and!; [by destruct v|done|]. intros k _. by rewrite lookup_empty.
  - intros i x m v' Hi (cs & -> & Hlen & Hcs). exists (<[i := x]> cs). split_and!; [done|by rewrite length_insert|].
    rewrite length_insert. intros k Hk. destruct (decide (k = i)) as [->|].
    + by rewrite list_lookup_insert_eq, lookup_insert_eq.
    + rewrite list_lookup_insert_ne, lookup_insert_ne by done. by apply Hcs.
Qed.

(** ** All levels *)

Lemma NoDup_concat {A} (g : A -> Z) (ls : list (list A)) :
  (forall k l, ls !! k = Some l -> NoDup (g <$> l)) ->
  (forall k k' l l' x y, ls !! k = Some l -> ls !! k' = Some l' -> x ∈ l -> y ∈ l' -> g x = g y -> k = k') ->
  NoDup (g <$> concat ls).
Proof.
  induction ls as [|l ls IH]; intros Hl Hd; cbn [concat]; [constructor|]. rewrite fmap_app. apply NoDup_app. split_and!.
  - by apply (Hl 0%nat).
  - intros n (x & -> & Hx)%list_elem_of_fmap (y & E & Hy)%list_elem_of_fmap. apply elem_of_list_join in Hy || apply list_elem_of_In, in_concat in Hy.
    destruct Hy as (l' & Hl' & Hy). apply list_elem_of_In in Hl', Hy. apply list_elem_of_lookup_1 in Hl' as [k Hk].
    specialize (Hd 0%nat (S k) l l' x y eq_refl Hk Hx Hy E). lia.
  - apply IH; [intros k; apply (Hl (S k))|]. intros k k' l1 l2 x y H1 H2 Hx Hy E.
    specialize (Hd (S k) (S k') l1 l2 x y H1 H2 Hx Hy E). lia.
Qed.

Lemma index_levels_snoc ls : forall level l locs,
  index_levels level (ls ++ [l]) locs = index_files (level + length ls) 0 l (index_levels level ls locs).
Proof.
  induction ls as [|x ls IH]; intros level l locs; cbn [app index_levels length].
  - by rewrite Nat.add_0_r.
  - rewrite IH. f_equal. lia.
Qed.

Section comparator.
Context {C : Comparator} {L : ComparatorLaws C}.

Definition level_cmp (q : EpochNumberRequirement) (k : nat) : FileMetaData -> FileMetaData -> bool :=
  match k with
  | O => match q with kMightMissing => NewestFirstBySeqNo | kMustPresent => NewestFirstByEpochNumber end
  | S _ => BySmallestKey
  end.

#[global] Instance level_cmp_order q k : FileOrder (level_cmp q k).
Proof. destruct k, q; apply _. Qed.

Definition saved_levels (r : Rep) (q : EpochNumberRequirement) (n : nat) : list (list FileMetaData) :=
  (fun k => saved_level r k (level_cmp q k)) <$> seq 0 n.

Lemma saved_levels_lookup r q n k l : saved_levels r q n !! k = Some l <-> (k < n)%nat /\ l = saved_level r k (level_cmp q k).
Proof.
  unfold saved_levels. rewrite list_lookup_fmap. destruct (decide (k < n)%nat).
  - rewrite lookup_seq_lt by done. cbn. split; [by intros [= <-]|]. by intros [_ ->].
  - rewrite lookup_seq_ge by lia. cbn. split; [done|lia].
Qed.

Lemma saved_LevelFiles r q n k locs v : (k < n)%nat ->
  LevelFiles k (set_files (saved_levels r q n) locs v) = saved_level r k (level_cmp q k).
Proof. intros Hk. apply LevelFiles_lookup. unfold set_files; cbn [files_]. by apply saved_levels_lookup. Qed.

Lemma length_saved_levels r q n : length (saved_levels r q n) = n.
Proof. unfold saved_levels. by rewrite length_fmap, length_seq. Qed.

Lemma saved_levels_S r q n : saved_levels r q (S n) = saved_levels r q n ++ [saved_level r n (level_cmp q n)].
Proof. unfold saved_levels. by rewrite seq_S, fmap_app. Qed.

Lemma save_levels_fold r q num n v : files_ v = replicate num [] -> (n <= num)%nat ->
  foldl (fun v k => SaveSSTFilesToLevel r k (level_cmp q k) v) v (seq 0 n) =
  set_files (saved_levels r q n ++ replicate (num - n) []) (index_levels 0 (saved_levels r q n) (file_locations_ v)) v.
Proof.
  intros Hv. induction n as [|n IH]; intros Hn.
  - cbn. rewrite Nat.sub_0_r, <- Hv. by destruct v.
  - rewrite seq_S, foldl_app, IH by lia. cbn [foldl Nat.add].
    set (ls := saved_levels r q n). assert (length ls = n) as Hlen by apply length_saved_levels.
    rewrite SaveSSTFilesToLevel_spec.
    + unfold set_files; cbn [files_ file_locations_ blob_files_ compact_cursor_ epoch_number_requirement_].
      rewrite saved_levels_S, index_levels_snoc. fold ls. rewrite Hlen. f_equal.
      replace (num - n)%nat with (S (num - S n)) by lia. cbn [replicate].
      rewrite <- app_assoc, insert_app_r_alt by lia. by rewrite Hlen, Nat.sub_diag.
    + unfold num_levels, set_files; cbn. rewrite length_app, length_replicate. lia.
    + unfold LevelFiles, set_files; cbn [files_]. rewrite lookup_app_r by lia. rewrite lookup_replicate_2 by lia. done.
Qed.

(** The version a builder saves to: it has no files yet. *)
Record fresh_storage (num : nat) (v : VersionStorageInfo) : Prop := {
  fs_files : files_ v = replicate num [];
  fs_locations : file_locations_ v = ∅;
  fs_blobs : blob_files_ v = [];
}.

Definition promoted (r : Rep) (v : VersionStorageInfo) : VersionStorageInfo :=
  if decide (epoch_number_requirement_ v = kMightMissing) then PromoteEpochNumberRequirementIfNeeded r v else v.

Lemma promoted_same r v : files_ (promoted r v) = files_ v /\ file_locations_ (promoted r v) = file_locations_ v /\
  blob_files_ (promoted r v) = blob_files_ v /\ compact_cursor_ (promoted r v) = compact_cursor_ v.
Proof. unfold promoted, PromoteEpochNumberRequirementIfNeeded. by repeat case_match. Qed.

Lemma SaveSSTFilesTo_spec r num v : fresh_storage num v -> length (levels r) = num -> (0 < num)%nat ->
  let q := epoch_number_requirement_ (promoted r v) in
  SaveSSTFilesTo r v = set_files (saved_levels r q num) (index_levels 0 (saved_levels r q num) ∅) (promoted r v).
Proof.
  intros [Hf Hl Hb] Hnum Hpos q. destruct (promoted_same r v) as (Ef & El & _). unfold SaveSSTFilesTo. rewrite Hnum.
  destruct num as [|n]; [lia|]. fold (promoted r v). fold q.
  transitivity (foldl (fun v k => SaveSSTFilesToLevel r k (level_cmp q k) v) (promoted r v) (seq 0 (S n))).
  - cbn [seq foldl]. change (level_cmp q 0) with (match q with kMightMissing => NewestFirstBySeqNo | kMustPresent => NewestFirstByEpochNumber end).
    generalize (SaveSSTFilesToLevel r 0 (match q with kMightMissing => NewestFirstBySeqNo | kMustPresent => NewestFirstByEpochNumber end) (promoted r v)).
    assert (forall k, k ∈ seq 1 n -> (0 < k)%nat) as Hk by (intros k ?%elem_of_seq; lia). clear -Hk.
    induction (seq 1 n) as [|k l IH]; intros w; [done|]. cbn [foldl]. rewrite IH by (intros; apply Hk; by right).
    f_equal. destruct k; [specialize (Hk 0%nat); exfalso; assert (0 < 0)%nat by (apply Hk; left); lia|done].
  - rewrite (save_levels_fold r q (S n)) by (rewrite ?Ef; done || lia). rewrite Nat.sub_diag, app_nil_r, El, Hl. done.
Qed.

Lemma NoDup_saved_levels r s q : tracks r s -> NoDup (GetNumber <$> concat (saved_levels r q (length (levels r)))).
Proof.
  intros T. apply NoDup_concat.
  - intros k l [Hk ->]%saved_levels_lookup. by eapply NoDup_saved.
  - intros k k' l l' x y [Hk ->]%saved_levels_lookup [Hk' ->]%saved_levels_lookup Hx Hy E.
    apply (elem_of_saved _ _ _ _ _ T) in Hx, Hy; [|done..]. rewrite E, Hy in Hx. injection Hx as Hx _. lia.
Qed.

(** The levels that exist, of a map of files. *)
Definition below (num : nat) (m : files) : files := filter (fun nf => nf.2.1 < Z.of_nat num) m.

Lemma saved_contents r s q v : tracks r s ->
  let ls := saved_levels r q (length (levels r)) in
  let v' := set_files ls (index_levels 0 ls ∅) v in
  indexed v' /\ contents v' = below (length (levels r)) (sp_files s).
Proof.
  intros T ls v'. assert (indexed v') as Hi by (eapply index_levels_indexed, NoDup_saved_levels, T). split; [done|].
  apply map_eq. intros n. apply option_eq. intros [level f]. unfold below. rewrite contents_lookup, map_lookup_filter_Some by done. cbn.
  split.
  - intros (k & -> & Hf & <-). pose proof (LevelFiles_num _ _ _ Hf) as Hk.
    assert (num_levels v' = length (levels r)) as Hn by apply length_saved_levels.
    rewrite Hn in Hk. split; [|lia]. unfold v', ls in Hf. rewrite saved_LevelFiles in Hf by done. by apply (elem_of_saved _ _ _ _ _ T) in Hf.
  - intros [Hs Hlt]. destruct (tr_meta _ _ T _ _ _ Hs) as [H0 Hn]. set (k := Z.to_nat level). exists k.
    assert (Hk : (k < length (levels r))%nat) by lia. split_and!; [lia| |done]. unfold v', ls.
    rewrite saved_LevelFiles by done. apply (elem_of_saved _ _ _ _ _ T Hk).
    rewrite Hn, Hs. repeat f_equal. lia.
Qed.

Lemma links_below num m b : links num (below num m) b = links num m b.
Proof.
  apply set_eq. intros n. rewrite !elem_of_links. unfold below. setoid_rewrite map_lookup_filter_Some. cbn.
  split; intros (l & f & H); exists l, f; tauto.
Qed.

(** ** The new version *)

Definition save (r : Rep) (v : VersionStorageInfo) : VersionStorageInfo :=
  SaveCompactCursorsTo r (SaveBlobFilesTo r (SaveSSTFilesTo r v)).

(** What a saved version is, for a state of the specification. *)
Record saved_as (r : Rep) (s : State) (v' : VersionStorageInfo) : Prop := {
  sv_ok : storage_ok v';
  sv_num : num_levels v' = length (levels r);
  sv_contents : contents v' = below (length (levels r)) (sp_files s);
  sv_blobs b : b ∈ blob_files_ v' <-> needed b /\ current_blob r (GetBlobFileNumber b) = Some b /\
    exists c m, c <= GetBlobFileNumber b /\ current_blob r c = Some m /\ linked_ssts m <> ∅;
  sv_files k : (k < length (levels r))%nat ->
    LevelFiles k v' = saved_level r k (level_cmp (epoch_number_requirement_ v') k);
}.

Lemma save_spec r s v : tracks r s -> fresh_storage (length (levels r)) v -> (0 < length (levels r))%nat -> saved_as r s (save r v).
Proof.
  intros T Hv Hnum. set (num := length (levels r)) in *. unfold save. destruct (promoted_same r v) as (_ & _ & Eb & _).
  rewrite (SaveSSTFilesTo_spec r num v Hv eq_refl Hnum). set (q := epoch_number_requirement_ (promoted r v)).
  set (ls := saved_levels r q num). set (v1 := set_files ls (index_levels 0 ls ∅) (promoted r v)).
  destruct (SaveBlobFilesTo_spec r s v1 T) as (bs & -> & Hsorted & Hbs); [unfold v1; cbn; rewrite Eb; apply Hv|].
  destruct (SaveCompactCursorsTo_spec r (set_blobs bs v1)) as (cs & -> & _).
  destruct (saved_contents r s q (promoted r v) T) as [Hi Hc]. fold num in Hi, Hc. fold ls in Hi, Hc. fold v1 in Hi, Hc.
  assert (Hn : length ls = num) by apply length_saved_levels.
  split; [split| | | |].
  - exact Hi.
  - exact Hsorted.
  - cbn. intros b (_ & Hb & _)%Hbs. destruct (current_blob_info _ _ _ _ T Hb) as (_ & _ & _ & _ & ->).
    unfold num_levels; cbn. fold num. rewrite Hn. change (contents _) with (contents v1). by rewrite Hc, links_below.
  - cbn. intros b (_ & Hb & _)%Hbs. by destruct (current_blob_info _ _ _ _ T Hb) as (_ & _ & ? & ? & _).
  - cbn. intros b (_ & Hb & _)%Hbs. by destruct (current_blob_info _ _ _ _ T Hb) as (_ & ? & _).
  - exact Hn.
  - exact Hc.
  - exact Hbs.
  - intros k Hk. exact (saved_LevelFiles r q num k (index_levels 0 ls ∅) (promoted r v) Hk).
Qed.

Lemma save_requirement r num v : fresh_storage num v -> length (levels r) = num -> (0 < num)%nat ->
  epoch_number_requirement_ v = kMustPresent -> epoch_number_requirement_ (save r v) = kMustPresent.
Proof.
  intros Hv Hnum Hpos Hq. unfold save. rewrite (SaveSSTFilesTo_spec r num v Hv Hnum Hpos).
  match goal with |- context [SaveCompactCursorsTo r ?w] => destruct (SaveCompactCursorsTo_spec r w) as (cs & -> & _) end. cbn.
  unfold SaveBlobFilesTo. destruct (_ =? _); [|rewrite save_blob_fold]; cbn; unfold promoted; rewrite Hq; done.
Qed.

(** A cursor that no edit moved is that of the base. *)
Lemma save_cursor r num v k : fresh_storage num v -> length (levels r) = num -> (0 < num)%nat ->
  (k < length (compact_cursor_ v))%nat -> updated_compact_cursors r !! k = None ->
  compact_cursor_ (save r v) !! k = compact_cursor_ v !! k.
Proof.
  intros Hv Hnum Hpos Hk Hu. destruct (promoted_same r v) as (_ & _ & _ & Ec). unfold save. rewrite (SaveSSTFilesTo_spec r num v Hv Hnum Hpos).
  match goal with |- context [SaveCompactCursorsTo r ?w] => destruct (SaveCompactCursorsTo_spec r w) as (cs & -> & Hlen & Hcs); set (v1 := w) in * end.
  assert (compact_cursor_ v1 = compact_cursor_ v) as E.
  { unfold v1, SaveBlobFilesTo. destruct (_ =? _); [|rewrite save_blob_fold]; cbn; exact Ec. }
  cbn. rewrite Hcs by (rewrite Hlen, E; done). by rewrite Hu, E.
Qed.

Lemma new_storage_fresh num ref q : fresh_storage num (new_storage num ref q).
Proof. done. Qed.

(** A version without files is consistent. *)
Lemma fresh_consistent o num v : fresh_storage num v -> CheckConsistency o v = OK.
Proof.
  intros [Hf _ Hb]. unfold CheckConsistency, CheckConsistencyDetails. rewrite Hf, Hb. repeat case_match; try done.
  all: destruct num; simplify_eq/=.
  all: assert (forall n e, check_levels (replicate n []) e = (OK, e)) as Hc by (induction n as [|n IH]; intros; [done|apply IH]);
    rewrite Hc in *; by simplify_eq.
Qed.

Lemma SaveTo_saves o r num v : CheckConsistency o (base_vstorage r) = OK -> fresh_storage num v ->
  SaveTo o r v = (CheckConsistency o (save r v), save r v).
Proof. intros Hc Hv. unfold SaveTo. rewrite Hc, (fresh_consistent o num) by done. by destruct (debug_build o). Qed.

End comparator.

End BuilderSave.
