(* ===== verification/Build.v ===== *)
(** * The version builder as the rest of the system sees it

    The other components apply version edits to a map from file numbers to levels and
    files ([Version.Apply]).  Here the builder of [db/version_builder.cc] is shown to do
    the same: a series of edits is accepted by the builder when the map accepts it, and
    the version that is saved has the files of the resulting map.  The saved version is
    again one a builder can start from, its levels are in order, table files keep their
    blob files, and of what [CheckConsistencyDetails] looks at only overlapping ranges
    and blob files full of garbage can fail. *)

From Stdlib Require Import ZArith Lia.
From stdpp Require Import base numbers list gmap sorting.
From S2P Require Import Prelude Version Coding WalEdit FileCodec Progress EditCodec Storage Builder BuilderSpec BuilderSave.

Import FileCodec Storage Builder BuilderSpec BuilderSave.
Local Open Scope Z_scope.

Module Build.

(** ** The view of the other components *)

Definition view_file (f : FileMetaData) : Version.FileMetaData :=
  Version.mkMeta (GetNumber f) (file_size f) (smallest f) (largest f) (smallest_seqno f) (largest_seqno f) (epoch_number f).

Definition view_level (lf : Z * FileMetaData) : Z * Version.FileMetaData := (lf.1, view_file lf.2).

Definition view_files (m : files) : Version.t := view_level <$> m.

Definition view_edit (e : EditCodec.VersionEdit) : Version.VersionEdit :=
  Version.mkEdit (EditCodec.deleted_files e) (view_level <$> EditCodec.new_files e) (EditCodec.last_sequence e).

(** An edit of table files only. *)
Definition plain (e : EditCodec.VersionEdit) : Prop :=
  EditCodec.blob_file_additions e = [] /\ EditCodec.blob_file_garbages e = [] /\ EditCodec.compact_cursors e = [].

Lemma view_location n m : Version.GetFileLocation n (view_files m) = fst <$> m !! n.
Proof. unfold Version.GetFileLocation, view_files. rewrite lookup_fmap. by destruct (m !! n). Qed.

Lemma view_deletions ds : forall s,
  Version.apply_deletions ds (view_files (sp_files s)) = view_files ∘ sp_files <$> steps spec_delete ds s.
Proof.
  induction ds as [|[level n] ds IH]; intros s; cbn [Version.apply_deletions steps]; [done|].
  assert (spec_delete (level, n) s = if decide (fst <$> sp_files s !! n = Some level)
    then Some (set_sp_files (delete n (sp_files s)) s) else None) as -> by done.
  unfold Version.ApplyFileDeletion. rewrite view_location.
  repeat case_decide; cbn [mbind option_bind]; try done.
  etransitivity; [|apply IH]. cbn. unfold view_files. by rewrite fmap_delete.
Qed.

Lemma view_additions fs : forall s,
  Version.apply_additions (view_level <$> fs) (view_files (sp_files s)) = view_files ∘ sp_files <$> steps spec_add fs s.
Proof.
  induction fs as [|[level f] fs IH]; intros s; cbn [Version.apply_additions steps fmap list_fmap]; [done|].
  assert (spec_add (level, f) s = match sp_files s !! GetNumber f with
    | Some _ => None | None => Some (set_sp_files (<[GetNumber f := (level, f)]> (sp_files s)) s) end) as -> by done.
  unfold Version.ApplyFileAddition, view_level; cbn [fst snd]. rewrite view_location. cbn [Version.fd_number view_file].
  destruct (sp_files s !! GetNumber f) as [[l g]|]; cbn [fmap option_fmap option_map mbind option_bind]; [done|].
  etransitivity; [|apply IH]. cbn. unfold view_files. by rewrite fmap_insert.
Qed.

Lemma steps_files {A} (op : A -> State -> option State) l : (forall x s s', op x s = Some s' -> sp_files s' = sp_files s) ->
  forall s s', steps op l s = Some s' -> sp_files s' = sp_files s.
Proof.
  intros Hop. induction l as [|x l IH]; intros s s'; cbn [steps]; [by intros [= <-]|].
  destruct (op x s) as [s1|] eqn:E; cbn [mbind option_bind]; [|done]. intros H. rewrite (IH _ _ H). by eapply Hop.
Qed.

Lemma spec_blob_files a s s' : spec_blob a s = Some s' -> sp_files s' = sp_files s.
Proof. unfold spec_blob. case_match; [done|]. by intros [= <-]. Qed.

Lemma spec_garbage_files g s s' : spec_garbage g s = Some s' -> sp_files s' = sp_files s.
Proof. unfold spec_garbage. destruct (sp_blobs s !! _); cbn [mbind option_bind]; [|done]. case_decide; [|done]. by intros [= <-]. Qed.

Lemma spec_cursor_files num c s s' : spec_cursor num c s = Some s' -> sp_files s' = sp_files s.
Proof. unfold spec_cursor. repeat case_decide; [done| |]; by intros [= <-]. Qed.

Lemma spec_apply_view num e s s' : spec_apply num e s = Some s' ->
  Version.Apply (view_edit e) (view_files (sp_files s)) = Some (view_files (sp_files s')).
Proof.
  unfold spec_apply. intros (s1 & H1 & (s2 & H2 & (s3 & H3 & (s4 & H4 & H5)%bind_Some)%bind_Some)%bind_Some)%bind_Some.
  apply (steps_files _ _ spec_blob_files) in H1. apply (steps_files _ _ spec_garbage_files) in H2.
  apply (steps_files _ _ (spec_cursor_files num)) in H5. unfold Version.Apply, view_edit; cbn.
  rewrite <- H1, <- H2, view_deletions, H3. cbn. rewrite view_additions, H4. cbn. by rewrite H5.
Qed.

Lemma spec_apply_plain num e s : plain e -> spec_apply num e s = None -> Version.Apply (view_edit e) (view_files (sp_files s)) = None.
Proof.
  intros (Hb & Hg & Hc). unfold spec_apply. rewrite Hb, Hg, Hc. cbn [steps mbind option_bind]. unfold Version.Apply, view_edit; cbn.
  rewrite view_deletions. destruct (steps spec_delete (EditCodec.deleted_files e) s) as [s1|]; cbn; [|done].
  rewrite view_additions. by destruct (steps spec_add (EditCodec.new_files e) s1).
Qed.

Lemma spec_apply_all_view num es : forall s,
  match spec_apply_all num es s with
  | Some s' => Version.apply_edits (view_edit <$> es) (view_files (sp_files s)) = Some (view_files (sp_files s'))
  | None => Forall plain es -> Version.apply_edits (view_edit <$> es) (view_files (sp_files s)) = None
  end.
Proof.
  induction es as [|e es IH]; intros s; cbn [spec_apply_all]; [done|].
  rewrite fmap_cons. cbn [Version.apply_edits]. destruct (spec_apply num e s) as [s1|] eqn:E; cbn [mbind option_bind].
  - apply spec_apply_view in E. specialize (IH s1). destruct (spec_apply_all num es s1) as [s'|]; rewrite E; cbn [mbind option_bind]; [done|].
    intros [_ Hp]%Forall_cons. by apply IH.
  - intros [He _]%Forall_cons. by rewrite (spec_apply_plain num e s).
Qed.

Definition existing (num : nat) (m : Version.t) : Version.t := filter (fun nf => nf.2.1 < Z.of_nat num) m.

Lemma view_below num m : view_files (below num m) = existing num (view_files m).
Proof.
  unfold view_files, below, existing. apply map_eq. intros n. apply option_eq. intros [l f].
  rewrite lookup_fmap, fmap_Some, map_lookup_filter_Some, lookup_fmap, fmap_Some. cbn. split.
  - intros ([l' f'] & [H1 H2]%map_lookup_filter_Some & [= -> ->]). eauto.
  - intros [([l' f'] & H1 & [= -> ->]) H2]. exists (l', f'). split; [by apply map_lookup_filter_Some|done].
Qed.

Section comparator.
Context {C : Comparator} {L : ComparatorLaws C}.

(** One call of [ProcessManifestWrites]: all the edits, then the new version. *)
Definition build (o : Options) (q : EpochNumberRequirement) (es : list EditCodec.VersionEdit) (v : VersionStorageInfo) :
    option (Status * VersionStorageInfo) :=
  match apply_all o es (new_rep v) with
  | Some (OK, r) => Some (SaveTo o r (new_storage (num_levels v) (Some v) q))
  | Some (st, _) => Some (st, v)
  | None => None
  end.

(** A version a builder can start from. *)
Definition base_ok (o : Options) (v : VersionStorageInfo) : Prop :=
  storage_ok v /\ (0 < num_levels v)%nat /\ CheckConsistency o v = OK.

(** What a build does, in terms of the specification. *)
Lemma build_spec o q es v : base_ok o v -> edits_ok (num_levels v) es (state_of v) ->
  match spec_apply_all (num_levels v) es (state_of v) with
  | Some s => exists r, apply_all o es (new_rep v) = Some (OK, r) /\ tracks r s /\ base_vstorage r = v /\
      let v' := save r (new_storage (num_levels v) (Some v) q) in
      SaveTo o r (new_storage (num_levels v) (Some v) q) = (CheckConsistency o v', v') /\ saved_as r s v' /\
      num_levels v' = num_levels v
  | None => exists r, apply_all o es (new_rep v) = Some (Corruption, r)
  end.
Proof.
  intros (Hok & Hnum & Hc) He.
  pose proof (apply_all_spec o es v Hc (new_rep v) (state_of v) eq_refl He (new_rep_tracks v Hok)) as Ha.
  destruct (spec_apply_all (num_levels v) es (state_of v)) as [s|]; [|done]. destruct Ha as (r & Ha & T). exists r.
  pose proof (apply_all_base _ _ _ _ _ Ha) as Hb. cbn in Hb.
  assert (length (levels r) = num_levels v) as Hlen by (rewrite (tr_num _ _ T); by rewrite Hb).
  assert (saved_as r s (save r (new_storage (num_levels v) (Some v) q))) as Hs
    by (apply save_spec; [done|rewrite Hlen; apply new_storage_fresh|lia]).
  split; [done|]. split; [done|]. split; [done|]. intros v'. split_and!; [|done|].
  - rewrite (SaveTo_saves o r (num_levels v)); [done|by rewrite Hb|apply new_storage_fresh].
  - rewrite <- Hlen. eapply sv_num, Hs.
Qed.

Lemma built o q es v r : base_ok o v -> edits_ok (num_levels v) es (state_of v) -> apply_all o es (new_rep v) = Some (OK, r) ->
  exists s, tracks r s /\ base_vstorage r = v /\ length (levels r) = num_levels v /\
    (SaveTo o r (new_storage (num_levels v) (Some v) q)).2 = save r (new_storage (num_levels v) (Some v) q) /\
    saved_as r s (save r (new_storage (num_levels v) (Some v) q)).
Proof.
  intros Hb He Ha. pose proof (build_spec o q es v Hb He) as H.
  destruct (spec_apply_all (num_levels v) es (state_of v)) as [s|]; [destruct H as (r' & Hr & H)|destruct H as (r' & Hr)];
    rewrite Ha in Hr; [|done].
  injection Hr as <-. destruct H as (T & Hv & Hs & Hsv & Hn). exists s. rewrite Hs. split_and!; [done|done| |done|done].
  by rewrite (tr_num _ _ T), Hv.
Qed.

End comparator.

(** ** Consistency of a saved version *)

Definition adjacent (ok : FileMetaData -> FileMetaData -> Prop) (l : list FileMetaData) : Prop :=
  forall i a b, l !! i = Some a -> l !! S i = Some b -> ok a b.

Lemma adjacent_cons ok a l : adjacent ok (a :: l) <-> match l with b :: _ => ok a b | [] => True end /\ adjacent ok l.
Proof.
  unfold adjacent. split.
  - intros H. split; [destruct l as [|b l]; [done|]; by apply (H 0%nat)|]. intros i. apply (H (S i)).
  - intros [H1 H2] [|i] x y; cbn; [|apply H2]. intros [= <-] Hy. destruct l; [done|]. by injection Hy as <-.
Qed.

Lemma adjacent_iff (P Q : FileMetaData -> FileMetaData -> Prop) l :
  (forall i a b, l !! i = Some a -> l !! S i = Some b -> P a b <-> Q a b) -> adjacent P l <-> adjacent Q l.
Proof. intros H. split; intros HP i a b Ha Hb; by apply (H i a b Ha Hb), (HP i). Qed.

Lemma check_level_spec checker l : forall e,
  (CheckConsistencyDetailsForLevel checker l e).1 = OK <-> adjacent (fun a b => checker a b = true) l.
Proof.
  induction l as [|a l IH]; intros e; cbn [CheckConsistencyDetailsForLevel]; [split; [by intros _ i|done]|].
  rewrite adjacent_cons. destruct l as [|b l]; [cbn; split; [intros _; split; [done|by intros i]|done]|].
  destruct (checker a b) eqn:E; [rewrite IH; tauto|]. cbn. split; [done|]. by intros [? _].
Qed.

Lemma check_level_expected checker l : forall e, (CheckConsistencyDetailsForLevel checker l e).1 = OK ->
  (CheckConsistencyDetailsForLevel checker l e).2 = foldl (fun e f => UpdateExpectedLinkedSsts f e) e l.
Proof.
  induction l as [|a l IH]; intros e; cbn [CheckConsistencyDetailsForLevel foldl]; [done|].
  destruct l as [|b l]; [done|]. destruct (checker a b); [apply IH|done].
Qed.

Lemma elem_of_expected l b n : forall e, n ∈ foldl (fun e f => UpdateExpectedLinkedSsts f e) e l !!! b <->
  n ∈ e !!! b \/ exists f, f ∈ l /\ GetNumber f = n /\ oldest_blob_file_number f = b /\ b <> kInvalidBlobFileNumber.
Proof.
  induction l as [|f l IH]; intros e; cbn [foldl].
  - split; [by left|]. intros [?|(f & ?%not_elem_of_nil & _)]; done.
  - rewrite IH. setoid_rewrite elem_of_cons. unfold UpdateExpectedLinkedSsts.
    destruct (Z.eqb_spec (oldest_blob_file_number f) kInvalidBlobFileNumber) as [E|E]; [|destruct (decide (oldest_blob_file_number f = b)) as [<-|Hne]].
    + split; [intros [?|(g & Hg & Hp)]; [by left|right; eauto]|]. intros [?|(g & [->|Hg] & Hn & Hb & Hz)]; [by left|congruence|right; eauto].
    + rewrite lookup_total_insert_eq, elem_of_union, elem_of_singleton. split.
      * intros [[->|?]|(g & Hg & Hp)]; [right; exists f; tauto|by left|right; eauto].
      * intros [?|(g & [->|Hg] & <- & Hp)]; [left; by right|left; by left|right; eauto].
    + rewrite lookup_total_insert_ne by done. split; [intros [?|(g & Hg & Hp)]; [by left|right; eauto]|].
      intros [?|(g & [->|Hg] & Hn & Hb & Hz)]; [by left|done|right; eauto].
Qed.

(** The links that the check expects are those of the table files. *)
Lemma expected_links v : indexed v -> forall b,
  foldl (fun e f => UpdateExpectedLinkedSsts f e) ∅ (concat (files_ v)) !!! b = links (num_levels v) (contents v) b.
Proof.
  intros Hi b. apply set_eq. intros n. rewrite elem_of_expected, lookup_total_empty, elem_of_links. split.
  - intros [?%elem_of_empty|(f & Hf & Hfn & Hb)]; [done|]. apply list_elem_of_In, in_concat in Hf as (l & Hl & Hf).
    apply list_elem_of_In in Hl, Hf. apply list_elem_of_lookup_1 in Hl as [k Hk]. exists (Z.of_nat k), f. split; [|split; [|done]].
    + apply contents_lookup; [done|]. exists k. split_and!; [done| |done]. by rewrite (LevelFiles_lookup _ _ _ Hk).
    + apply lookup_lt_Some in Hk. unfold num_levels. lia.
  - intros (level & f & Hc & Hlt & Hb). right. apply contents_lookup in Hc as (k & -> & Hf & Hfn); [|done]. exists f. split; [|done].
    unfold LevelFiles in Hf. destruct (files_ v !! k) as [l|] eqn:Hk; [|by apply not_elem_of_nil in Hf].
    apply list_elem_of_In, in_concat. exists l. rewrite <- !list_elem_of_In. split; [by eapply list_elem_of_lookup_2|done].
Qed.

Section checks.
Context {C : Comparator}.

Lemma check_levels_spec ls : forall e,
  ((check_levels ls e).1 = OK <-> Forall (adjacent (fun a b => level_checker a b = true)) ls) /\
  ((check_levels ls e).1 = OK -> (check_levels ls e).2 = foldl (fun e f => UpdateExpectedLinkedSsts f e) e (concat ls)).
Proof.
  induction ls as [|l ls IH]; intros e; cbn [check_levels concat]; [done|].
  pose proof (check_level_spec level_checker l e) as H1. pose proof (check_level_expected level_checker l e) as H2.
  destruct (CheckConsistencyDetailsForLevel level_checker l e) as [st e'] eqn:E. cbn in H1, H2. rewrite Forall_cons, foldl_app.
  destruct st; try (split; [|done]; split; [done|]; intros [? _]; by rewrite H1).
  rewrite <- H2 by done. specialize (IH e'). tauto.
Qed.

(** The three conditions of [CheckConsistencyDetails]. *)
Lemma CheckConsistencyDetails_spec v : indexed v -> (0 < num_levels v)%nat ->
  CheckConsistencyDetails v = OK <->
    adjacent (fun a b => l0_checker (epoch_number_requirement_ v) a b = true) (LevelFiles 0 v) /\
    (forall k, (0 < k)%nat -> adjacent (fun a b => level_checker a b = true) (LevelFiles k v)) /\
    Forall (fun b => garbage_count b < WalEdit.total_blob_count (shared_meta b) /\
                     linked_ssts b = links (num_levels v) (contents v) (GetBlobFileNumber b)) (blob_files_ v).
Proof.
  intros Hi Hn. unfold CheckConsistencyDetails.
  pose proof (expected_links v Hi) as Hexp.
  unfold num_levels in Hn. destruct (files_ v) as [|l0 ls] eqn:Hf; [cbn in Hn; lia|].
  assert (LevelFiles 0 v = l0) as -> by (unfold LevelFiles; by rewrite Hf).
  assert ((forall k, (0 < k)%nat -> adjacent (fun a b => level_checker a b = true) (LevelFiles k v)) <->
    Forall (adjacent (fun a b => level_checker a b = true)) ls) as ->.
  { rewrite Forall_lookup. unfold LevelFiles. rewrite Hf. split.
    - intros H k l Hl. specialize (H (S k)). change ((l0 :: ls) !! S k) with (ls !! k) in H. rewrite Hl in H. apply H. lia.
    - intros H [|k] Hk; [lia|]. change ((l0 :: ls) !! S k) with (ls !! k). destruct (ls !! k) as [l|] eqn:E; [by eapply H|by intros i]. }
  set (q := epoch_number_requirement_ v). pose proof (check_level_spec (l0_checker q) l0 ∅) as H1.
  pose proof (check_level_expected (l0_checker q) l0 ∅) as H2. cbn [concat] in Hexp. rewrite foldl_app in Hexp.
  destruct (CheckConsistencyDetailsForLevel (l0_checker q) l0 ∅) as [st e]. cbn in H1, H2.
  destruct st; try (split; [done|]; intros [H _]; apply H1 in H; done). rewrite <- H2 in Hexp by done.
  destruct (check_levels_spec ls e) as [H3 H4]. destruct (check_levels ls e) as [st e']. cbn in H3, H4.
  destruct st; try (split; [done|]; intros (_ & H & _); apply H3 in H; done). rewrite <- H4 in Hexp by done.
  transitivity (Forall (fun b => garbage_count b < WalEdit.total_blob_count (shared_meta b) /\
     linked_ssts b = links (num_levels v) (contents v) (GetBlobFileNumber b)) (blob_files_ v)); [|tauto].
  unfold check_blobs. rewrite Forall_forall. destruct (forallb _ _) eqn:F.
  - rewrite forallb_forall in F. split; [|done]. intros _ b Hb%list_elem_of_In. apply F, andb_true_iff in Hb as [Hg%Z.ltb_lt Hl].
    apply bool_decide_eq_true in Hl. by rewrite <- Hexp.
  - split; [done|]. intros H. exfalso. apply not_true_iff_false in F. apply F, forallb_forall. intros b Hb%list_elem_of_In.
    destruct (H b Hb) as [Hg Hl]. apply andb_true_iff. split; [by apply Z.ltb_lt|]. apply bool_decide_eq_true. by rewrite Hexp.
Qed.

End checks.

(** ** An example *)

Lemma empty_storage_ok n q : storage_ok (new_storage n None q).
Proof.
  assert (forall k, LevelFiles k (new_storage n None q) = []) as Hl.
  { intros k. unfold LevelFiles; cbn. destruct (replicate n [] !! k) as [l|] eqn:E; [|done]. by apply lookup_replicate_1 in E as [-> _]. }
  split; [|constructor|by intros b ?%not_elem_of_nil..]. intros m loc. cbn. rewrite lookup_empty, Hl. split; [done|]. by intros (f & Hf & _).
Qed.

(** A flush with a blob file, then a compaction that moves the table file to level 1. *)
Definition example_file (n b epoch : Z) (lo hi : list Z) : FileMetaData :=
  set_epoch epoch (set_oldest_blob b (set_fd n 100 1 9
    (set_bounds (Version.InternalKey lo 9 1) (Version.InternalKey hi 1 1) default_file))).

Definition example_edits : list EditCodec.VersionEdit :=
  [EditCodec.AddFile 0 (example_file 10 5 1 [65] [70])
     (EditCodec.AddBlobFile (WalEdit.mkBlobAddition 5 3 300 [] []) EditCodec.empty_edit);
   EditCodec.AddFile 1 (example_file 11 0 2 [71] [80])
     (EditCodec.AddFile 1 (example_file 10 5 1 [65] [70]) (EditCodec.DeleteFile 0 10 EditCodec.empty_edit))].

Definition example_options : Options := mkOptions true false true.
Definition example_base : VersionStorageInfo := new_storage 3 None kMustPresent.

Lemma example_ok : base_ok example_options example_base /\ edits_ok 3 example_edits (state_of example_base).
Proof.
  split; [split_and!; [apply empty_storage_ok|cbn; lia|done]|].
  vm_compute. repeat match goal with |- _ /\ _ => split | |- Forall _ _ => constructor end; done.
Qed.

(** The builder after the edits of the example. *)
Definition example_rep : Rep :=
  match apply_all example_options example_edits (new_rep example_base) with Some (_, r) => r | None => new_rep example_base end.

Lemma example_applies : apply_all example_options example_edits (new_rep example_base) = Some (OK, example_rep).
Proof. vm_compute. reflexivity. Qed.

(** A level of 32 bits that is negative as an [int]: the record is decoded, and deleting a
    file that the version does not have at level -1 passes the comparison with its current
    level, which is -1 as well, and reads the level before the first. *)
Example negative_level :
  match EditCodec.DecodeFrom [6; 255; 255; 255; 255; 15; 7] with
  | inr e => EditCodec.deleted_files e = [(-1, 7)] /\ Apply example_options e (new_rep example_base) = None
  | inl _ => False
  end.
Proof. vm_compute. split; reflexivity. Qed.

(** The sum of the garbage wraps around: two records that mark far more than the three
    blobs of the file as garbage are accepted, and leave one garbage blob. *)
Example garbage_wraps :
  match apply_all example_options
    [EditCodec.AddBlobFile (WalEdit.mkBlobAddition 5 3 300 [] []) EditCodec.empty_edit;
     EditCodec.AddBlobFileGarbage (WalEdit.mkBlobGarbage 5 2 200) EditCodec.empty_edit;
     EditCodec.AddBlobFileGarbage (WalEdit.mkBlobGarbage 5 u64_max (u64_max - 99)) EditCodec.empty_edit]
    (new_rep example_base) with
  | Some (OK, r) =>
    (fun m => (garbage_count (blob m), garbage_bytes (blob m))) <$> mutable_blob_file_metas r !! 5 = Some (1, 100)
  | _ => False
  end.
Proof. vm_compute. reflexivity. Qed.

(** C6: the builder implements the edits of the other components.  For a base version with
    a right index and right links, and edits with levels that are not negative and blob
    files before the table files that refer to them, building a version never runs into
    undefined behaviour.  When it does not report corruption, the new version has the
    files that [Version.apply_edits] computes, on the levels that exist, and can be the
    base of the next build; when it does, the version is unchanged, and for edits of
    table files only [Version.apply_edits] refuses them too. *)
Theorem builder_refines (C : Comparator) (L : ComparatorLaws C) o q es v :
  base_ok o v -> edits_ok (num_levels v) es (state_of v) ->
  (exists v', build o q es v = Some (CheckConsistency o v', v') /\ storage_ok v' /\ num_levels v' = num_levels v /\
    exists m, Version.apply_edits (view_edit <$> es) (view_files (contents v)) = Some m /\
      view_files (contents v') = existing (num_levels v) m) \/
  (build o q es v = Some (Corruption, v) /\
   (Forall plain es -> Version.apply_edits (view_edit <$> es) (view_files (contents v)) = None)).
Proof.
  intros Hb He. pose proof (build_spec o q es v Hb He) as H. pose proof (spec_apply_all_view (num_levels v) es (state_of v)) as Hv.
  unfold build. destruct (spec_apply_all (num_levels v) es (state_of v)) as [s|]; [left|right].
  - destruct H as (r & -> & T & Hr & Hsave & Hs & Hn). eexists. rewrite Hsave. split_and!; [done|apply Hs|done|].
    exists (view_files (sp_files s)). split; [done|]. rewrite (sv_contents _ _ _ Hs), view_below, <- (sv_num _ _ _ Hs), Hn. done.
  - destruct H as (r & ->). done.
Qed.

Lemma builder_refines_witness : base_ok example_options example_base /\ edits_ok 3 example_edits (state_of example_base) /\
  exists v', build example_options kMustPresent example_edits example_base = Some (OK, v') /\ storage_ok v' /\
    exists m, Version.apply_edits (view_edit <$> example_edits) (view_files (contents example_base)) = Some m /\
      view_files (contents v') = existing 3 m.
Proof.
  destruct example_ok as [H1 H2]. split_and!; [done|done|].
  destruct (builder_refines _ _ example_options kMustPresent example_edits example_base H1 H2) as [(v' & Hb & Hs & _ & Hm)|[Hb _]].
  - exists v'. done.
  - by vm_compute in Hb.
Defined.

(** C16: table files keep their blob files.  In a version that is built from a base with
    right links, every table file that refers to a blob file the builder knows, from the
    base or from an addition of the edits, finds the metadata of that blob file, with
    itself among the linked table files; blob files are only dropped when no table file
    refers to them. *)
Theorem table_files_keep_blobs (C : Comparator) (L : ComparatorLaws C) o q es v r n level f :
  base_ok o v -> edits_ok (num_levels v) es (state_of v) -> apply_all o es (new_rep v) = Some (OK, r) ->
  let v' := (SaveTo o r (new_storage (num_levels v) (Some v) q)).2 in
  contents v' !! n = Some (level, f) -> IsBlobFileInVersion (oldest_blob_file_number f) r = true ->
  oldest_blob_file_number f <> kInvalidBlobFileNumber ->
  exists b, GetBlobFileMetaData (oldest_blob_file_number f) v' = Some b /\ n ∈ linked_ssts b.
Proof.
  intros Hb He Ha v' Hn Hin Hnz. destruct (built o q es v r Hb He Ha) as (s & T & Hv & Hlen & Hsave & Hs). unfold v' in *. rewrite Hsave in *.
  clear v' Hsave. set (v' := save r _) in *. set (x := oldest_blob_file_number f) in *.
  assert (exists b, current_blob r x = Some b) as [b Hc].
  { unfold current_blob, GetOrCreateMutableBlobFileMetaData. unfold IsBlobFileInVersion in Hin.
    destruct (mutable_blob_file_metas r !! x); [by eexists|]. destruct (GetBlobFileMetaData x (base_vstorage r)); [by eexists|done]. }
  destruct (current_blob_info _ _ _ _ T Hc) as (Hnum & _ & _ & _ & Hl).
  assert (n ∈ linked_ssts b) as Hlinked.
  { rewrite Hl. apply elem_of_links. rewrite (sv_contents _ _ _ Hs) in Hn. apply map_lookup_filter_Some in Hn as [Hn Hlt].
    exists level, f. done. }
  exists b. split; [|done]. apply GetBlobFileMetaData_spec; [apply Hs|]. split; [|done]. apply (sv_blobs _ _ _ Hs).
  assert (linked_ssts b <> ∅) by set_solver. split_and!; [by intros [? _]|by rewrite Hnum|]. exists x, b. split_and!; [lia|done|done].
Qed.

Lemma table_files_keep_blobs_witness :
  let v' := (SaveTo example_options example_rep (new_storage 3 (Some example_base) kMustPresent)).2 in
  contents v' !! 10 = Some (1, example_file 10 5 1 [65] [70]) /\ exists b, GetBlobFileMetaData 5 v' = Some b /\ 10 ∈ linked_ssts b.
Proof.
  intros v'. assert (contents v' !! 10 = Some (1, example_file 10 5 1 [65] [70])) as Hc by (vm_compute; reflexivity). split; [done|].
  destruct example_ok as [H1 H2]. apply (table_files_keep_blobs _ _ example_options kMustPresent example_edits example_base example_rep
    10 1 (example_file 10 5 1 [65] [70]) H1 H2 example_applies Hc); vm_compute; done.
Defined.

(** C21: a saved version can only be inconsistent by overlaps and garbage.  When the levels
    of the base are in order, so are those of the new version: level 0 by descending epoch
    and sequence numbers, the others by smallest key.  [CheckConsistencyDetails] accepts
    the new version exactly when neighbours of level 0 with one epoch number do not
    overlap, neighbours of the other levels do not overlap, and every blob file has a blob
    that is not garbage; its checks of the order and of the links never fail. *)
Theorem saved_consistent (C : Comparator) (L : ComparatorLaws C) o es v r :
  base_ok o v -> edits_ok (num_levels v) es (state_of v) -> apply_all o es (new_rep v) = Some (OK, r) ->
  (forall k, ordered (level_cmp kMustPresent k) (LevelFiles k v)) ->
  let v' := (SaveTo o r (new_storage (num_levels v) (Some v) kMustPresent)).2 in
  (forall k, ordered (level_cmp kMustPresent k) (LevelFiles k v')) /\
  (CheckConsistencyDetails v' = OK <->
    adjacent (fun a b => ~ (epoch_number a = epoch_number b /\ icmp (smallest a) (largest b) <= 0 /\ 0 <= icmp (largest a) (smallest b)))
      (LevelFiles 0 v') /\
    (forall k, (0 < k)%nat -> adjacent (fun a b => icmp (largest a) (smallest b) < 0) (LevelFiles k v')) /\
    Forall (fun b => garbage_count b < WalEdit.total_blob_count (shared_meta b)) (blob_files_ v')).
Proof.
  intros Hb He Ha Hord v'. destruct (built o kMustPresent es v r Hb He Ha) as (s & T & Hv & Hlen & Hsave & Hs).
  unfold v' in *. rewrite Hsave. clear v' Hsave. set (v' := save r _) in *.
  assert (epoch_number_requirement_ v' = kMustPresent) as Hq
    by (apply (save_requirement r (num_levels v)); [apply new_storage_fresh|done|apply Hb|done]).
  assert (forall k, ordered (level_cmp kMustPresent k) (LevelFiles k v')) as Hord'.
  { intros k. destruct (decide (k < length (levels r))%nat) as [Hk|Hk].
    - rewrite (sv_files _ _ _ Hs) by done. rewrite Hq. eapply saved_ordered; [apply _|done|done|]. by rewrite Hv.
    - unfold LevelFiles. rewrite lookup_ge_None_2; [constructor|]. rewrite <- (sv_num _ _ _ Hs) in Hk. unfold num_levels in Hk. lia. }
  split; [done|]. rewrite CheckConsistencyDetails_spec; [|apply Hs|rewrite (sv_num _ _ _ Hs), Hlen; apply Hb]. rewrite Hq.
  assert (forall k i a b, LevelFiles k v' !! i = Some a -> LevelFiles k v' !! S i = Some b -> level_cmp kMustPresent k a b = true) as Hlt.
  { intros k i a b H1 H2.
    exact (StronglySorted_lookup _ (LevelFiles k v') i (S i) a b (Hord' k) (Nat.lt_succ_diag_r i) H1 H2). }
  rewrite (adjacent_iff (fun a b => l0_checker kMustPresent a b = true)
    (fun a b => ~ (epoch_number a = epoch_number b /\ icmp (smallest a) (largest b) <= 0 /\ 0 <= icmp (largest a) (smallest b)))).
  2:{ intros i a b H1 H2. specialize (Hlt 0%nat i a b H1 H2). cbn in Hlt. unfold l0_checker.
      destruct (Z.eqb_spec (epoch_number a) (epoch_number b)), (Z.leb_spec (icmp (smallest a) (largest b)) 0),
        (Z.leb_spec 0 (icmp (largest a) (smallest b))); cbn; rewrite ?Hlt; split; intros; try done; lia. }
  assert ((forall k, (0 < k)%nat -> adjacent (fun a b => level_checker a b = true) (LevelFiles k v')) <->
    (forall k, (0 < k)%nat -> adjacent (fun a b => icmp (largest a) (smallest b) < 0) (LevelFiles k v'))) as ->.
  { apply forall_proper. intros k. split; intros H Hk; specialize (H Hk); revert H; apply adjacent_iff; intros i a b H1 H2;
      specialize (Hlt k i a b H1 H2); (destruct k; [lia|]); cbn in Hlt; unfold level_checker; rewrite Hlt; cbn; by rewrite Z.ltb_lt. }
  assert (Forall (fun b => garbage_count b < WalEdit.total_blob_count (shared_meta b) /\
      linked_ssts b = links (num_levels v') (contents v') (GetBlobFileNumber b)) (blob_files_ v') <->
    Forall (fun b => garbage_count b < WalEdit.total_blob_count (shared_meta b)) (blob_files_ v')) as ->; [|done].
  rewrite !Forall_forall. split; intros H b Hbin; [by apply H|]. split; [by apply H|by apply Hs].
Qed.

Lemma saved_consistent_witness :
  let v' := (SaveTo example_options example_rep (new_storage 3 (Some example_base) kMustPresent)).2 in
  ordered (level_cmp kMustPresent 1) (LevelFiles 1 v') /\ length (LevelFiles 1 v') = 2%nat /\
  adjacent (fun a b => icmp (largest a) (smallest b) < 0) (LevelFiles 1 v').
Proof.
  intros v'. destruct example_ok as [H1 H2]. assert (length (LevelFiles 1 v') = 2%nat) as Hlen by (vm_compute; reflexivity).
  destruct (saved_consistent _ _ example_options example_edits example_base example_rep H1 H2 example_applies) as [Ho Hc].
  - intros [|[|[|k]]]; constructor.
  - split_and!; [apply Ho|done|]. apply Hc; [vm_compute; reflexivity|lia].
Defined.

End Build.
