(* ===== verification/Priority.v ===== *)
(** * The order in which files are compacted

    [files_by_compaction_pri_] of [VersionStorageInfo] in [db/version_set.cc]: for every
    level but the last the positions of its files in the order of the option
    [compaction_pri].  A new version starts with the lists of the version it is derived
    from; [ProcessManifestWrites] clears the lists of the levels that the edits changed
    ([MarkCompactionPriRebuildLevels]), and [UpdateFilesByCompactionPri] fills the lists
    that are empty.  [std::sort] and [std::partial_sort] are an interface: any functions
    that permute their input.  The environment has the options, the time, and the members
    of a file that are set once after it is added: its compensated size and the creation
    time of its table. *)

From Stdlib Require Import ZArith Lia.
From stdpp Require Import base numbers list gmap sorting.
From S2P Require Import Prelude Version Coding WalEdit FileCodec Progress EditCodec Storage Builder BuilderSpec BuilderSave Build.

Import FileCodec Storage Builder BuilderSpec BuilderSave Build.
Local Open Scope Z_scope.

(** ** Standard algorithms *)

Record Fsize := mkFsize {
  index : nat;
  file : FileMetaData;
  compaction_order : Z;
}.

Class Algorithms := {
  std_sort : (Fsize -> Fsize -> bool) -> list Fsize -> list Fsize;
  std_partial_sort : (Fsize -> Fsize -> bool) -> nat -> list Fsize -> list Fsize;
}.

Class AlgorithmLaws (A : Algorithms) : Prop := {
  sort_permutes cmp l : std_sort cmp l ≡ₚ l;
  partial_sort_permutes cmp n l : std_partial_sort cmp n l ≡ₚ l;
}.

Module Priority.

#[global] Instance merge_algorithms : Algorithms := {
  std_sort cmp l := merge_sort (fun a b => Is_true (negb (cmp b a))) l;
  std_partial_sort cmp _ l := merge_sort (fun a b => Is_true (negb (cmp b a))) l;
}.

#[global] Instance merge_algorithm_laws : AlgorithmLaws merge_algorithms.
Proof. split; intros; apply merge_sort_Permutation. Qed.

Inductive CompactionPri :=
  kByCompensatedSize | kOldestLargestSeqFirst | kOldestSmallestSeqFirst | kMinOverlappingRatio | kRoundRobin.

#[global] Instance pri_eq_dec : EqDecision CompactionPri.
Proof. solve_decision. Defined.

Record Env := mkEnv {
  level_style : bool;
  compaction_pri : CompactionPri;
  ttl : Z;
  current_time : option Z;
  compensated_file_size : FileMetaData -> Z;
  table_creation_time : FileMetaData -> option Z;
}.

(** ** Boosting of files close to their time to live *)

Definition kUnknownOldestAncesterTime : Z := 0.

Definition TryGetOldestAncesterTime (e : Env) (f : FileMetaData) : Z :=
  if negb (oldest_ancester_time f =? kUnknownOldestAncesterTime) then oldest_ancester_time f
  else default kUnknownOldestAncesterTime (table_creation_time e f).

Record FileTtlBooster := mkBooster {
  enabled_ : bool;
  current_time_ : Z;
  boost_age_start_ : Z;
  boost_step_ : Z;
}.

Definition new_booster (current_time ttl : Z) (num_non_empty_levels level : Z) : FileTtlBooster :=
  if (ttl =? 0) || (level =? 0) || (num_non_empty_levels - 1 <=? level)
  then mkBooster false current_time 0 1
  else
    let all_boost_start_age := ttl / 2 in
    let all_boost_age_range := (ttl / 32) *% 31 -% all_boost_start_age in
    let boost_age_range := Z.shiftr all_boost_age_range (Z.min 63 (num_non_empty_levels - level - 1)) in
    mkBooster true current_time (all_boost_start_age +% boost_age_range) (Z.max (boost_age_range / 16) 1).

Definition GetBoostScore (e : Env) (b : FileTtlBooster) (f : FileMetaData) : Z :=
  if negb (enabled_ b) then 1
  else
    let oldest := TryGetOldestAncesterTime e f in
    if current_time_ b <=? oldest then 1
    else
      let age := current_time_ b - oldest in
      if boost_age_start_ b <? age then (age - boost_age_start_ b) / boost_step_ b +% 1 else 1.

(** ** Orders *)

Definition kNumberFilesToSort : nat := 50.

Definition CompareCompensatedSizeDescending (e : Env) (first second : Fsize) : bool :=
  compensated_file_size e (file second) <? compensated_file_size e (file first).

Section comparator.
Context {C : Comparator} {A : Algorithms}.

(** The files of the next level that end before the file. *)
Fixpoint skip_before (f : FileMetaData) (next : list FileMetaData) : list FileMetaData :=
  match next with
  | [] => []
  | g :: next' => if icmp (largest g) (smallest f) <? 0 then skip_before f next' else next
  end.

(** The bytes of the next level under the file; a file that reaches past it stays for the next one. *)
Fixpoint overlap (f : FileMetaData) (overlapping_bytes : Z) (next : list FileMetaData) : Z * list FileMetaData :=
  match next with
  | [] => (overlapping_bytes, [])
  | g :: next' =>
    if icmp (smallest g) (largest f) <? 0
    then
      let bytes := overlapping_bytes +% file_size g in
      if 0 <? icmp (largest g) (largest f) then (bytes, next) else overlap f bytes next'
    else (overlapping_bytes, next)
  end.

Fixpoint overlap_orders (e : Env) (boost : FileMetaData -> Z) (temp : list Fsize) (next : list FileMetaData) : list Fsize :=
  match temp with
  | [] => []
  | x :: temp' =>
    let '(bytes, next') := overlap (file x) 0 (skip_before (file x) next) in
    mkFsize (index x) (file x) (bytes *% 1024 / compensated_file_size e (file x) / boost (file x)) :: overlap_orders e boost temp' next'
  end.

Definition ratio_less (f1 f2 : Fsize) : bool :=
  if eqb (marked_for_compaction (file f1)) (marked_for_compaction (file f2))
  then if compaction_order f1 =? compaction_order f2 then icmp (smallest (file f1)) (smallest (file f2)) <? 0
       else compaction_order f1 <? compaction_order f2
  else marked_for_compaction (file f1).

Definition SortFileByOverlappingRatio (e : Env) (next_level_files : list FileMetaData) (level num_non_empty_levels : Z)
    (temp : list Fsize) : list Fsize :=
  let ttl := match current_time e with Some _ => ttl e | None => 0 end in
  let booster := new_booster (default 0 (current_time e)) ttl num_non_empty_levels level in
  let boost f := if 0 <? ttl then GetBoostScore e booster f else 1 in
  let temp := overlap_orders e boost temp next_level_files in
  std_partial_sort ratio_less (Nat.min kNumberFilesToSort (length temp)) temp.

(** [level0_non_overlapping_] is false while a version is prepared. *)
Fixpoint before_cursor (cursor : list Z) (temp : list Fsize) : list Fsize :=
  match temp with
  | [] => []
  | x :: temp' => if 0 <? icmp cursor (smallest (file x)) then x :: before_cursor cursor temp' else []
  end.

Definition SortFileByRoundRobin (cursor : list Z) (level : nat) (temp : list Fsize) : list Fsize :=
  match level with
  | O => std_sort (fun f1 f2 => smallest_seqno (file f1) <? smallest_seqno (file f2)) temp
  | S _ =>
    if (0 <? length cursor)%nat && (1 <? length temp)%nat
    then
      let before := before_cursor cursor temp in
      let after := drop (length before) temp in
      if (negb (length before =? 0)%nat) && negb (length after =? 0)%nat then after ++ before else temp
    else temp
  end.

(** ** The lists of a version *)

(** [UpdateNumNonEmptyLevels]. *)
Fixpoint num_non_empty (ls : list (list FileMetaData)) : nat :=
  match ls with
  | [] => 0
  | l :: ls' =>
    match num_non_empty ls' with
    | O => match l with [] => 0 | _ => 1 end
    | S n => S (S n)
    end
  end.

Definition ordering (e : Env) (v : VersionStorageInfo) (level : nat) : list nat :=
  let temp := imap (fun i f => mkFsize i f 0) (LevelFiles level v) in
  let num := Nat.min kNumberFilesToSort (length temp) in
  index <$>
  match compaction_pri e with
  | kByCompensatedSize => std_partial_sort (CompareCompensatedSizeDescending e) num temp
  | kOldestLargestSeqFirst => std_sort (fun f1 f2 => largest_seqno (file f1) <? largest_seqno (file f2)) temp
  | kOldestSmallestSeqFirst => std_sort (fun f1 f2 => smallest_seqno (file f1) <? smallest_seqno (file f2)) temp
  | kMinOverlappingRatio =>
    SortFileByOverlappingRatio e (LevelFiles (S level) v) (Z.of_nat level) (Z.of_nat (num_non_empty (files_ v))) temp
  | kRoundRobin => SortFileByRoundRobin (default [] (compact_cursor_ v !! level)) level temp
  end.

(** The constructor copies the lists of the version a version is derived from. *)
Definition derive (levels : nat) (lists : list (list nat)) : list (list nat) := resize levels [] lists.

Definition MarkCompactionPriRebuildLevels (changed_levels : list bool) (v : VersionStorageInfo) (lists : list (list nat)) : list (list nat) :=
  imap (fun level l =>
    if decide (level < num_levels v - 1)%nat
    then
      let level_changed := default false (changed_levels !! level) in
      let output_level_changed := default false (changed_levels !! S level) in
      if (length changed_levels <=? level)%nat || level_changed || output_level_changed
         || negb (length l =? length (LevelFiles level v))%nat
      then [] else l
    else l) lists.

Definition UpdateFilesByCompactionPri (e : Env) (v : VersionStorageInfo) (lists : list (list nat)) : list (list nat) :=
  if negb (level_style e) then lists
  else imap (fun level l =>
    if decide (level < num_levels v - 1)%nat
    then match l with [] => ordering e v level | _ => l end
    else l) lists.

(** ** Every file occurs once *)

Lemma overlap_orders_index e boost temp : forall next, index <$> overlap_orders e boost temp next = index <$> temp.
Proof.
  induction temp as [|x temp IH]; intros next; cbn [overlap_orders]; [done|].
  destruct (overlap (file x) 0 (skip_before (file x) next)) as [bytes next']. rewrite !fmap_cons. cbn [index]. by rewrite IH.
Qed.

Lemma before_cursor_prefix cursor temp : temp = before_cursor cursor temp ++ drop (length (before_cursor cursor temp)) temp.
Proof. induction temp as [|x temp IH]; cbn [before_cursor]; [done|]. case_match; [|done]. cbn. by rewrite <- IH. Qed.

Lemma SortFileByRoundRobin_permutes {LA : AlgorithmLaws A} cursor level temp : SortFileByRoundRobin cursor level temp ≡ₚ temp.
Proof.
  unfold SortFileByRoundRobin. destruct level; [apply sort_permutes|]. case_match; [|done]. case_match; [|done].
  rewrite Permutation_app_comm. by rewrite <- before_cursor_prefix.
Qed.

Lemma ordering_permutes {LA : AlgorithmLaws A} e v level : ordering e v level ≡ₚ seq 0 (length (LevelFiles level v)).
Proof.
  unfold ordering. set (temp := imap _ _).
  assert (index <$> temp = seq 0 (length (LevelFiles level v))) as <-.
  { unfold temp. rewrite fmap_imap. unfold compose; cbn. generalize (LevelFiles level v). intros l. apply list_eq. intros i.
    rewrite list_lookup_imap. destruct (decide (i < length l)%nat) as [Hi|Hi].
    - rewrite lookup_seq_lt by done. apply lookup_lt_is_Some in Hi as [f ->]. done.
    - rewrite lookup_seq_ge, lookup_ge_None_2 by lia. done. }
  destruct (compaction_pri e).
  - by rewrite partial_sort_permutes.
  - by rewrite sort_permutes.
  - by rewrite sort_permutes.
  - unfold SortFileByOverlappingRatio. rewrite partial_sort_permutes. by rewrite overlap_orders_index.
  - by rewrite SortFileByRoundRobin_permutes.
Qed.

(** ** What the order depends on *)

(** Environments that order files in the same way. *)
Record agree (e e' : Env) : Prop := {
  ag_style : level_style e' = true;
  ag_pri : compaction_pri e' = compaction_pri e;
  ag_compensated : compensated_file_size e' = compensated_file_size e;
  ag_ttl : compaction_pri e = kMinOverlappingRatio -> ttl e = 0 /\ ttl e' = 0;
}.

Lemma overlap_orders_ext e e' b b' temp : compensated_file_size e' = compensated_file_size e -> (forall f, b f = b' f) ->
  forall next, overlap_orders e' b' temp next = overlap_orders e b temp next.
Proof.
  intros He Hb. induction temp as [|x temp IH]; intros next; cbn [overlap_orders]; [done|].
  destruct (overlap (file x) 0 (skip_before (file x) next)) as [bytes next']. by rewrite IH, He, Hb.
Qed.

Lemma ordering_same e e' v v' level : agree e e' -> LevelFiles level v' = LevelFiles level v ->
  LevelFiles (S level) v' = LevelFiles (S level) v ->
  default [] (compact_cursor_ v' !! level) = default [] (compact_cursor_ v !! level) -> ordering e' v' level = ordering e v level.
Proof.
  intros [_ Hpri Hc Httl] H1 H2 H3. unfold ordering. rewrite Hpri, H1, H2, H3. f_equal. destruct (compaction_pri e) eqn:E; try done.
  - unfold CompareCompensatedSizeDescending. by rewrite Hc.
  - destruct (Httl eq_refl) as [T1 T2]. unfold SortFileByOverlappingRatio. rewrite T1, T2.
    erewrite (overlap_orders_ext e e'); [reflexivity|done|]. intros f. by destruct (current_time e), (current_time e').
Qed.

(** ** New versions *)

(** The lists are those of a full rebuild. *)
Definition lists_ok (e : Env) (v : VersionStorageInfo) (lists : list (list nat)) : Prop :=
  length lists = num_levels v /\ forall k, (k < num_levels v - 1)%nat -> lists !! k = Some (ordering e v k).

(** The part of [ProcessManifestWrites] that makes the new version, for the edits of one
    column family; when it fails the version stays. *)
Definition install (o : Options) (e : Env) (es : list EditCodec.VersionEdit) (x : VersionStorageInfo * list (list nat)) :
    VersionStorageInfo * list (list nat) :=
  let '(v, lists) := x in
  match apply_all o es (new_rep v) with
  | Some (OK, r) =>
    match SaveTo o r (new_storage (num_levels v) (Some v) kMustPresent) with
    | (OK, v') =>
      (v', UpdateFilesByCompactionPri e v' (MarkCompactionPriRebuildLevels (GetChangedLevels r) v' (derive (num_levels v) lists)))
    | _ => x
    end
  | _ => x
  end.

Fixpoint install_all (o : Options) (l : list (Env * list EditCodec.VersionEdit)) (x : VersionStorageInfo * list (list nat)) :
    VersionStorageInfo * list (list nat) :=
  match l with [] => x | (e, es) :: l' => install_all o l' (install o e es x) end.

Fixpoint installs_ok (o : Options) (l : list (Env * list EditCodec.VersionEdit)) (x : VersionStorageInfo * list (list nat)) : Prop :=
  match l with
  | [] => True
  | (e, es) :: l' => edits_ok (num_levels x.1) es (state_of x.1) /\ installs_ok o l' (install o e es x)
  end.

Lemma changed_level r k : (k < length (levels r))%nat -> default false (GetChangedLevels r !! k) = false ->
  added_files (level_state r k) = ∅ /\ deleted_files (level_state r k) = ∅ /\ updated_compact_cursors r !! k = None.
Proof.
  intros Hk. unfold GetChangedLevels. destruct (has_invalid_levels r); [by rewrite lookup_replicate_2|].
  rewrite list_lookup_imap. unfold level_state. apply lookup_lt_is_Some in Hk as [st ->]. cbn.
  intros [H1%negb_false_iff H2]%orb_false_iff. apply bool_decide_eq_true in H1 as [? ?]. apply bool_decide_eq_false in H2.
  split_and!; [done|done|]. by apply eq_None_not_Some.
Qed.

Lemma GetChangedLevels_length r : length (GetChangedLevels r) = length (levels r).
Proof. unfold GetChangedLevels. case_match; [apply length_replicate|apply length_imap]. Qed.

Lemma default_resize {B} (x : B) n l k : (k < n)%nat -> default x (resize n x l !! k) = default x (l !! k).
Proof.
  intros Hk. destruct (decide (k < length l)%nat).
  - by rewrite lookup_resize.
  - rewrite lookup_resize_new, lookup_ge_None_2 by lia. done.
Qed.

(** A level with no change at or below it has the order it had. *)
Lemma unchanged_ordering {L : ComparatorLaws C} o e e' es v r k : agree e e' -> base_ok o v -> edits_ok (num_levels v) es (state_of v) ->
  apply_all o es (new_rep v) = Some (OK, r) -> (k < num_levels v - 1)%nat ->
  default false (GetChangedLevels r !! k) = false -> default false (GetChangedLevels r !! S k) = false ->
  ordering e' (save r (new_storage (num_levels v) (Some v) kMustPresent)) k = ordering e v k.
Proof.
  intros Hag Hb He Ha Hk H1 H2. destruct (built o kMustPresent es v r Hb He Ha) as (s & T & Hv & Hlen & _ & Hs).
  destruct (changed_level r k) as (A1 & D1 & C1); [lia|done|]. destruct (changed_level r (S k)) as (A2 & D2 & _); [lia|done|].
  apply ordering_same; [done|..].
  - rewrite (sv_files _ _ _ Hs), saved_unchanged by (done || lia). by rewrite Hv.
  - rewrite (sv_files _ _ _ Hs), saved_unchanged by (done || lia). by rewrite Hv.
  - rewrite (save_cursor r (num_levels v)); [|apply new_storage_fresh|done|lia|cbn; rewrite length_resize; lia|done].
    cbn. apply default_resize. lia.
Qed.

Lemma install_ok {L : ComparatorLaws C} o e e' es v lists : agree e e' -> base_ok o v -> edits_ok (num_levels v) es (state_of v) ->
  lists_ok e v lists -> let x := install o e' es (v, lists) in base_ok o x.1 /\ num_levels x.1 = num_levels v /\ lists_ok e x.1 x.2.
Proof.
  intros Hag Hb He Hl. unfold install. destruct (apply_all o es (new_rep v)) as [[st r]|] eqn:Ha; [|done]. destruct st; try done.
  destruct (built o kMustPresent es v r Hb He Ha) as (s & T & Hv & Hlen & Hsave & Hs).
  destruct (SaveTo o r (new_storage (num_levels v) (Some v) kMustPresent)) as [st v'] eqn:E. cbn in Hsave. destruct st; try done.
  assert (num_levels v' = num_levels v) as Hn by (rewrite Hsave, (sv_num _ _ _ Hs); done).
  assert (CheckConsistency o v' = OK) as Hc.
  { rewrite (SaveTo_saves o r (num_levels v)) in E; [|rewrite Hv; apply Hb|apply new_storage_fresh]. injection E as E1 E2. by rewrite <- E2. }
  cbn [fst snd]. split_and!; [|done|].
  { split_and!; [rewrite Hsave; apply Hs|rewrite Hn; apply Hb|done]. }
  destruct Hl as [Hlists Hord]. unfold lists_ok, UpdateFilesByCompactionPri, MarkCompactionPriRebuildLevels, derive.
  rewrite (ag_style _ _ Hag). cbn [negb]. split; [by rewrite !length_imap, length_resize|]. rewrite Hn. intros k Hk.
  rewrite !list_lookup_imap, lookup_resize, (Hord k Hk) by lia. cbn [fmap option_fmap option_map]. rewrite !decide_True by done. f_equal.
  rewrite GetChangedLevels_length, Hlen, (proj2 (Nat.leb_gt _ _)) by lia. cbn [orb].
  assert (ordering e' v' k = ordering e v' k) as Henv by by apply ordering_same.
  destruct (default false (GetChangedLevels r !! k)) eqn:C1; [done|]. destruct (default false (GetChangedLevels r !! S k)) eqn:C2; [done|].
  cbn [orb]. case_match; [done|].
  pose proof (unchanged_ordering o e e' es v r k Hag Hb He Ha Hk C1 C2) as Hsame. rewrite <- Hsave in Hsame.
  case_match; congruence.
Qed.

Lemma install_all_ok {L : ComparatorLaws C} o e l : Forall (fun ee => agree e ee.1) l -> forall x, base_ok o x.1 -> installs_ok o l x ->
  lists_ok e x.1 x.2 -> let y := install_all o l x in base_ok o y.1 /\ num_levels y.1 = num_levels x.1 /\ lists_ok e y.1 y.2.
Proof.
  induction 1 as [|[e' es] l Hag _ IH]; intros [v lists] Hb Hi Hl; [done|]. cbn [install_all installs_ok] in *. destruct Hi as [He Hi].
  destruct (install_ok o e e' es v lists Hag Hb He Hl) as (Hb' & Hn & Hl'). destruct (IH _ Hb' Hi Hl') as (? & En & ?).
  split_and!; [done|by etransitivity; [exact En|exact Hn]|done].
Qed.

End comparator.


Definition example_env : Env := mkEnv true kMinOverlappingRatio 0 None file_size (fun _ => None).

Definition example_installs : list (Env * list EditCodec.VersionEdit) :=
  (fun es => (example_env, [es])) <$> example_edits.


(** A version that is made while a MANIFEST is followed ([MaybeCreateVersionBeforeApplyEdit]
    in [db/version_edit_handler.cc]) is derived from the current version as well, but no
    level is marked: after a deletion the list keeps a position that the level no longer has. *)
Lemma unmarked_lists_stale :
  let '(v, lists) := install_all example_options example_installs (example_base, [[]; []; []]) in
  exists r, Apply example_options (EditCodec.DeleteFile 1 11 EditCodec.empty_edit) (new_rep v) = Some (OK, r) /\
    let v' := (SaveTo example_options r (new_storage 3 (Some v) kMustPresent)).2 in
    length (LevelFiles 1 v') = 1%nat /\
    1%nat ∈ default [] (UpdateFilesByCompactionPri example_env v' (derive 3 lists) !! 1%nat).
Proof.
  destruct (install_all example_options example_installs (example_base, [[]; []; []])) as [v lists] eqn:E.
  vm_compute in E. injection E as <- <-. eexists. split; [vm_compute; reflexivity|]. split; [vm_compute; reflexivity|].
  apply (bool_decide_unpack _). vm_compute. exact I.
Qed.

End Priority.
