(* ===== verification/LevelStats.v ===== *)
(** * The sizes behind the compaction scores

    [LevelCompactionStats] of [VersionStorageInfo] in [db/version_set.cc].  While a
    version is prepared, without the DB mutex, [ComputeCompensatedSizes] fixes the
    compensated sizes of the files and sums up sizes and counts of every level;
    [ComputeCompactionScore] and [EstimateCompactionBytesNeeded], which run with the
    mutex when the version is appended, use these sums instead of going over the files
    again ([CollectLevelCompactionStats]).  The files are objects that versions share: a
    heap maps their addresses to the members that are read here, and a level is a list of
    addresses. *)

From Stdlib Require Import ZArith Lia.
From stdpp Require Import base numbers list gmap.
From S2P Require Import Prelude.

Local Open Scope Z_scope.
Local Open Scope u64_scope.

Module LevelStats.

Record Object := mkObject {
  fd_file_size : Z;
  compensated_range_deletion_size : Z;
  num_entries : Z;
  num_deletions : Z;
  num_range_deletions : Z;
  compensated_file_size : Z;
  being_compacted : bool;
}.

Abbreviation heap := (gmap Z Object).

Definition null : Object := mkObject 0 0 0 0 0 0 false.

(** The member functions are called on valid pointers. *)
Definition at_ (h : heap) (p : Z) : Object := default null (h !! p).

Record LevelCompactionStats := mkStats {
  file_size : Z;
  compensated_size : Z;
  non_compacting_compensated_size : Z;
  non_compacting_file_count : Z;
  first_file_being_compacted : bool;
}.

Definition no_stats : LevelCompactionStats := mkStats 0 0 0 0 false.

(** The sums of [VersionStorageInfo] over the files that were sampled. *)
Record Accumulated := mkAccumulated {
  accumulated_file_size : Z;
  accumulated_raw_key_size : Z;
  accumulated_raw_value_size : Z;
  accumulated_num_non_deletions : Z;
}.

Definition GetAverageValueSize (a : Accumulated) : Z :=
  if accumulated_num_non_deletions a =? 0 then 0
  else (accumulated_raw_value_size a / accumulated_num_non_deletions a) *% accumulated_file_size a
       / (accumulated_raw_key_size a +% accumulated_raw_value_size a).

Definition kDeletionWeightOnCompaction : Z := 2.

(** The compensated size of a file that has none yet. *)
Definition settle (average_value_size : Z) (o : Object) : Object :=
  if compensated_file_size o =? 0
  then
    let s0 := fd_file_size o in
    let deletions := (num_deletions o -% num_range_deletions o) *% 2 in
    let s1 := if num_entries o <=? deletions
              then s0 +% ((deletions -% num_entries o) *% average_value_size *% kDeletionWeightOnCompaction)
              else s0 in
    mkObject (fd_file_size o) (compensated_range_deletion_size o) (num_entries o) (num_deletions o) (num_range_deletions o)
      (s1 +% compensated_range_deletion_size o) (being_compacted o)
  else o.

(** What a file adds to the sums of its level; [i] is its position. *)
Definition count (i : nat) (o : Object) (s : LevelCompactionStats) : LevelCompactionStats :=
  mkStats (file_size s +% fd_file_size o) (compensated_size s +% compensated_file_size o)
    (if being_compacted o then non_compacting_compensated_size s else non_compacting_compensated_size s +% compensated_file_size o)
    (if being_compacted o then non_compacting_file_count s else non_compacting_file_count s + 1)
    (if (i =? 0)%nat then being_compacted o else first_file_being_compacted s).

(** The inner loop of [ComputeCompensatedSizes]. *)
Fixpoint compute_level (avg : Z) (i : nat) (l : list Z) (h : heap) (s : LevelCompactionStats) : heap * LevelCompactionStats :=
  match l with
  | [] => (h, s)
  | p :: l' =>
    let o := settle avg (at_ h p) in
    compute_level avg (S i) l' (<[p := o]> h) (count i o s)
  end.

Fixpoint compute_levels (avg : Z) (ls : list (list Z)) (h : heap) : heap * list LevelCompactionStats :=
  match ls with
  | [] => (h, [])
  | l :: ls' =>
    let '(h1, s) := compute_level avg 0 l h no_stats in
    let '(h2, ss) := compute_levels avg ls' h1 in
    (h2, s :: ss)
  end.

Definition ComputeCompensatedSizes (a : Accumulated) (ls : list (list Z)) (h : heap) : heap * list LevelCompactionStats :=
  compute_levels (GetAverageValueSize a) ls h.

Fixpoint collect_level (i : nat) (l : list Z) (h : heap) (s : LevelCompactionStats) : LevelCompactionStats :=
  match l with
  | [] => s
  | p :: l' => collect_level (S i) l' h (count i (at_ h p) s)
  end.

Definition CollectLevelCompactionStats (ls : list (list Z)) (h : heap) : list LevelCompactionStats :=
  (fun l => collect_level 0 l h no_stats) <$> ls.

(** The sums that [ComputeCompactionScore] works with; a version keeps those of its
    preparation until it is finalized or a file is added. *)
Record Cache := mkCache {
  level_compaction_stats : list LevelCompactionStats;
  level_compaction_stats_valid : bool;
  finalized : bool;
}.

Definition score_stats (c : Cache) (ls : list (list Z)) (h : heap) : list LevelCompactionStats :=
  if negb (level_compaction_stats_valid c) || finalized c then CollectLevelCompactionStats ls h else level_compaction_stats c.

(** [PrepareForVersionAppend] on a version that is not finalized. *)
Definition prepare (a : Accumulated) (ls : list (list Z)) (h : heap) : heap * Cache :=
  let '(h', ss) := ComputeCompensatedSizes a ls h in (h', mkCache ss true false).

(** [Compaction::MarkFilesBeingCompacted] for one file, by any thread that holds the mutex. *)
Definition mark (p : Z) (flag : bool) (h : heap) : heap :=
  let o := at_ h p in
  <[p := mkObject (fd_file_size o) (compensated_range_deletion_size o) (num_entries o) (num_deletions o)
           (num_range_deletions o) (compensated_file_size o) flag]> h.

(** ** Lemmas *)

Lemma settle_idempotent avg o : settle avg (settle avg o) = settle avg o.
Proof.
  unfold settle at 2 3. destruct (Z.eqb_spec (compensated_file_size o) 0) as [E|E].
  - set (x := _ +% compensated_range_deletion_size o). unfold settle; cbn -[u64]. fold x. destruct (Z.eqb_spec x 0); done.
  - unfold settle. by destruct (Z.eqb_spec (compensated_file_size o) 0).
Qed.

Lemma at_insert h p q o : at_ (<[p := o]> h) q = if decide (q = p) then o else at_ h q.
Proof. unfold at_. case_decide; subst; [by rewrite lookup_insert_eq|by rewrite lookup_insert_ne]. Qed.

(** After the loop the files of the level are settled, and the others as before. *)
Lemma compute_level_heap avg l : forall i h s q,
  at_ (compute_level avg i l h s).1 q = if decide (q ∈ l) then settle avg (at_ h q) else at_ h q.
Proof.
  induction l as [|p l IH]; intros i h s q; cbn [compute_level]; [by rewrite decide_False by apply not_elem_of_nil|].
  rewrite IH, at_insert. destruct (decide (q = p)) as [->|Hne].
  - rewrite settle_idempotent. rewrite (decide_True (P := p ∈ p :: l)) by left. by destruct (decide (p ∈ l)).
  - destruct (decide (q ∈ l)); [rewrite decide_True by by right|rewrite decide_False by by intros [->|?]%elem_of_cons]; done.
Qed.

Lemma compute_levels_heap avg ls : forall h q,
  at_ (compute_levels avg ls h).1 q = if decide (q ∈ concat ls) then settle avg (at_ h q) else at_ h q.
Proof.
  induction ls as [|l ls IH]; intros h q; cbn [compute_levels concat]; [by rewrite decide_False by apply not_elem_of_nil|].
  destruct (compute_level avg 0 l h no_stats) as [h1 s] eqn:E1. destruct (compute_levels avg ls h1) as [h2 ss] eqn:E2. cbn.
  pose proof (compute_level_heap avg l 0 h no_stats q) as H1. rewrite E1 in H1. pose proof (IH h1 q) as H2. rewrite E2 in H2. cbn in H1, H2.
  rewrite H2, H1. destruct (decide (q ∈ l)), (decide (q ∈ concat ls)); rewrite ?settle_idempotent;
    [rewrite decide_True by (apply elem_of_app; tauto)..|rewrite decide_False by (rewrite elem_of_app; tauto)]; done.
Qed.

(** The sums depend on the sizes and flags of the files only. *)
Definition same_on (l : list Z) (h h' : heap) : Prop :=
  forall p, p ∈ l -> fd_file_size (at_ h p) = fd_file_size (at_ h' p) /\
    compensated_file_size (at_ h p) = compensated_file_size (at_ h' p) /\ being_compacted (at_ h p) = being_compacted (at_ h' p).

Lemma count_ext i o o' s : fd_file_size o = fd_file_size o' -> compensated_file_size o = compensated_file_size o' ->
  being_compacted o = being_compacted o' -> count i o s = count i o' s.
Proof. intros H1 H2 H3. unfold count. by rewrite H1, H2, H3. Qed.

Lemma collect_level_ext l h h' : same_on l h h' -> forall i s, collect_level i l h s = collect_level i l h' s.
Proof.
  intros H. induction l as [|p l IH]; intros i s; cbn [collect_level]; [done|].
  destruct (H p) as (H1 & H2 & H3); [left|]. rewrite (count_ext _ _ (at_ h' p)) by done. apply IH. intros q Hq. apply H. by right.
Qed.

Lemma CollectLevelCompactionStats_ext ls h h' : same_on (concat ls) h h' -> CollectLevelCompactionStats ls h = CollectLevelCompactionStats ls h'.
Proof.
  intros H. unfold CollectLevelCompactionStats. apply list_fmap_ext. intros k l Hl. apply collect_level_ext. intros p Hp. apply H.
  apply list_elem_of_In, in_concat. exists l. rewrite <- !list_elem_of_In. split; [by eapply list_elem_of_lookup_2|done].
Qed.

Lemma compute_level_stats avg l : forall i h s h', (forall p, p ∈ l -> at_ h' p = settle avg (at_ h p)) ->
  (compute_level avg i l h s).2 = collect_level i l h' s.
Proof.
  induction l as [|p l IH]; intros i h s h' H; cbn [compute_level collect_level]; [done|].
  rewrite (H p) by left. apply IH. intros q Hq. rewrite at_insert. case_decide; subst; rewrite ?settle_idempotent; apply H; set_solver.
Qed.

Lemma compute_levels_stats avg ls : forall h h', (forall p, p ∈ concat ls -> at_ h' p = settle avg (at_ h p)) ->
  (compute_levels avg ls h).2 = CollectLevelCompactionStats ls h'.
Proof.
  induction ls as [|l ls IH]; intros h h' H; cbn [compute_levels]; [done|]. cbn [concat] in H.
  destruct (compute_level avg 0 l h no_stats) as [h1 s] eqn:E1. destruct (compute_levels avg ls h1) as [h2 ss] eqn:E2. cbn.
  pose proof (compute_level_stats avg l 0 h no_stats h') as H1. rewrite E1 in H1. cbn in H1. f_equal.
  - apply H1. intros p Hp. apply H, elem_of_app. by left.
  - pose proof (IH h1 h') as H2. rewrite E2 in H2. apply H2. intros p Hp. pose proof (compute_level_heap avg l 0 h no_stats p) as H3.
    rewrite E1 in H3. cbn in H3. rewrite H3, H by (apply elem_of_app; by right). case_decide; by rewrite ?settle_idempotent.
Qed.

Lemma prepare_stats a ls h : level_compaction_stats (prepare a ls h).2 = CollectLevelCompactionStats ls (prepare a ls h).1.
Proof.
  unfold prepare, ComputeCompensatedSizes. set (avg := GetAverageValueSize a).
  pose proof (compute_levels_stats avg ls h (compute_levels avg ls h).1) as H. pose proof (compute_levels_heap avg ls h) as Hh.
  destruct (compute_levels avg ls h) as [h' ss]. cbn in *. apply H. intros p Hp. by rewrite Hh, decide_True.
Qed.

(** Sums that count one more file, of compensated size [c], as not being compacted. *)
Definition ahead (c : Z) (s s' : LevelCompactionStats) : Prop :=
  non_compacting_file_count s = non_compacting_file_count s' + 1 /\
  non_compacting_compensated_size s = non_compacting_compensated_size s' +% c.

Lemma count_ahead c i o s s' : ahead c s s' -> ahead c (count i o s) (count i o s').
Proof.
  intros [H1 H2]. unfold ahead, count; cbn -[u64]. destruct (being_compacted o); [done|]. split; [lia|]. rewrite H2. unfold u64.
  rewrite !Zplus_mod_idemp_l. f_equal. lia.
Qed.

Lemma collect_level_ahead c l h : forall i s s', ahead c s s' -> ahead c (collect_level i l h s) (collect_level i l h s').
Proof. induction l as [|p l IH]; intros i s s' H; cbn [collect_level]; [done|]. by apply IH, count_ahead. Qed.

Lemma mark_at p flag h q : at_ (mark p flag h) q =
  if decide (q = p) then let o := at_ h p in mkObject (fd_file_size o) (compensated_range_deletion_size o) (num_entries o)
    (num_deletions o) (num_range_deletions o) (compensated_file_size o) flag else at_ h q.
Proof. unfold mark. apply at_insert. Qed.

Lemma mark_same p flag h l : p ∉ l -> same_on l h (mark p flag h).
Proof. intros Hp q Hq. rewrite mark_at, decide_False; [done|]. by intros ->. Qed.

Lemma collect_level_marked p h l : NoDup l -> p ∈ l -> being_compacted (at_ h p) = false -> forall i s,
  ahead (compensated_file_size (at_ h p)) (collect_level i l h s) (collect_level i l (mark p true h) s).
Proof.
  intros Hnd. induction Hnd as [|q l Hq Hnd IH]; intros Hp Hf i s; [by apply not_elem_of_nil in Hp|]. cbn [collect_level].
  rewrite mark_at. destruct (decide (q = p)) as [->|Hne].
  - rewrite <- (collect_level_ext l h (mark p true h)) by by apply mark_same. apply collect_level_ahead.
    unfold ahead, count; cbn -[u64]. by rewrite Hf.
  - apply elem_of_cons in Hp as [->|Hp]; [done|]. by apply IH.
Qed.

(** C29: the sums kept from the preparation of a version are exact while nothing changes.
    Whatever files were already settled, the sums that [ComputeCompensatedSizes] stores are
    those that [CollectLevelCompactionStats] would compute afterwards, so the score is
    computed from the true sizes as long as no file of the version changes its sizes or
    its flag [being_compacted] before the version is appended. *)
Theorem cached_stats_exact a ls h h' :
  let '(h1, c) := prepare a ls h in
  same_on (concat ls) h1 h' -> score_stats c ls h' = CollectLevelCompactionStats ls h'.
Proof.
  pose proof (prepare_stats a ls h) as H. destruct (prepare a ls h) as [h1 c] eqn:E. intros Hs. unfold score_stats.
  assert (level_compaction_stats_valid c = true /\ finalized c = false) as [-> ->].
  { unfold prepare in E. destruct (ComputeCompensatedSizes a ls h). by injection E as <- <-. }
  cbn. cbn in H. rewrite H. by apply CollectLevelCompactionStats_ext.
Qed.

Definition example_object (n : Z) : Object := mkObject n 0 10 0 0 0 false.
Definition example_heap : heap := {[1 := example_object 100; 2 := example_object 200; 3 := example_object 300]}.

Lemma cached_stats_exact_witness :
  let '(h1, c) := prepare (mkAccumulated 0 0 0 0) [[1]; [2; 3]] example_heap in
  score_stats c [[1]; [2; 3]] (mark 7 true h1) = CollectLevelCompactionStats [[1]; [2; 3]] (mark 7 true h1).
Proof.
  pose proof (cached_stats_exact (mkAccumulated 0 0 0 0) [[1]; [2; 3]] example_heap) as H.
  destruct (prepare (mkAccumulated 0 0 0 0) [[1]; [2; 3]] example_heap) as [h1 c]. apply H, mark_same. by apply (bool_decide_unpack _).
Defined.

(** C35: a file that is marked between preparation and append is counted as free.  The mutex
    is released while the MANIFEST is written, so another thread can start a compaction of
    a file of the version in the meantime; the score of the new version is then computed
    with that file and its compensated size among those that are not being compacted. *)
Theorem stale_stats a ls h k l p : ls !! k = Some l -> NoDup l -> p ∈ l ->
  let '(h1, c) := prepare a ls h in
  being_compacted (at_ h1 p) = false ->
  exists used now, score_stats c ls (mark p true h1) !! k = Some used /\ CollectLevelCompactionStats ls (mark p true h1) !! k = Some now /\
    non_compacting_file_count used = non_compacting_file_count now + 1 /\
    non_compacting_compensated_size used = non_compacting_compensated_size now +% compensated_file_size (at_ h1 p).
Proof.
  intros Hl Hnd Hp. pose proof (prepare_stats a ls h) as H. destruct (prepare a ls h) as [h1 c] eqn:E. intros Hf. cbn in H. unfold score_stats.
  assert (level_compaction_stats_valid c = true /\ finalized c = false) as [-> ->].
  { unfold prepare in E. destruct (ComputeCompensatedSizes a ls h). by injection E as <- <-. }
  cbn [negb orb]. rewrite H. unfold CollectLevelCompactionStats. rewrite !list_lookup_fmap, Hl. do 2 eexists. split; [done|]. split; [done|].
  by apply collect_level_marked.
Qed.

Lemma stale_stats_witness :
  let '(h1, c) := prepare (mkAccumulated 0 0 0 0) [[1]; [2; 3]] example_heap in
  exists used now, score_stats c [[1]; [2; 3]] (mark 2 true h1) !! 1%nat = Some used /\
    CollectLevelCompactionStats [[1]; [2; 3]] (mark 2 true h1) !! 1%nat = Some now /\
    non_compacting_file_count used = non_compacting_file_count now + 1 /\
    non_compacting_compensated_size used = non_compacting_compensated_size now +% 200.
Proof.
  pose proof (stale_stats (mkAccumulated 0 0 0 0) [[1]; [2; 3]] example_heap 1 [2; 3] 2 eq_refl) as H.
  destruct (prepare (mkAccumulated 0 0 0 0) [[1]; [2; 3]] example_heap) as [h1 c] eqn:E. vm_compute in E. injection E as <- <-.
  apply H; by apply (bool_decide_unpack _).
Defined.

End LevelStats.
