(* ===== verification/Window.v ===== *)
(** * The virtual L0 window

    The feed of virtual L0 files of [db/db_impl/db_impl_compaction_flush.cc]:
    [ConfigureVirtualL0Window], [EnqueueVirtualL0Files],
    [RefillVirtualL0Window], [RefillVirtualL0WindowLocked],
    [AccountVirtualL0CompactionLocked], [ResetVirtualCompactionStats] and
    [GetVirtualL0WindowStats], over the members [virtual_l0_*] of
    [db/db_impl/db_impl.h].  All of them hold the DB mutex, which
    [VersionSet::LogAndApply] releases; whether its I/O succeeds and the
    estimate of pending compaction bytes are inputs of each turn of a refill.
    Timing counters, and the copies of the state that the counters hold until
    [GetVirtualL0WindowStats] overwrites them, are left out. *)

From Stdlib Require Import ZArith Lia.
From stdpp Require Import base numbers list gmap.
From S2P Require Import Prelude Plr Kmv Registry Version.

Local Open Scope Z_scope.

Module Window.

(** ** State *)

(** struct [VirtualL0WindowFile]. *)
Record WindowFile := mkFile {
  file_number : Z;
  vsst : VirtualSST;
  file_size : Z;
  epoch_number : Z;
}.

(** struct [VirtualL0WindowStats] without the timing counters. *)
Record WindowStats := mkStats {
  queued_files : Z;
  queued_bytes : Z;
  registered_files : Z;
  registered_bytes : Z;
  consumed_files : Z;
  consumed_bytes : Z;
  register_batches : Z;
  max_register_batch : Z;
  max_register_batch_bytes : Z;
  max_pending_files : Z;
  backpressure_stops : Z;
  backpressure_trickles : Z;
}.

Definition zero_stats : WindowStats := mkStats 0 0 0 0 0 0 0 0 0 0 0 0.

(** The members [virtual_l0_*] of [DBImpl]. *)
Record t := mkWin {
  pending : list WindowFile;
  pending_bytes : Z;
  visible_files : Z;
  visible_bytes : Z;
  target_visible_bytes : Z;
  max_register_batch_files : Z;
  backpressure : bool;
  stats : WindowStats;
}.

Definition init : t := mkWin [] 0 0 0 0 1 false zero_stats.

(** The options the stall conditions read. *)
Record StallOptions := mkStall {
  level0_stop_writes_trigger : Z;
  level0_slowdown_writes_trigger : Z;
  hard_pending_compaction_bytes_limit : Z;
  soft_pending_compaction_bytes_limit : Z;
}.

(** What a turn of the refill loop takes from its environment. *)
Record Turn := mkTurn {
  estimated_compaction_needed_bytes : Z;
  io_ok : bool;
}.

Inductive Pressure := kFree | kSlowdown | kStop.

#[export] Instance pressure_eq_dec : EqDecision Pressure.
Proof. solve_decision. Defined.

(** ** Operations *)

Definition set_stats (s : WindowStats) (w : t) : t :=
  mkWin (pending w) (pending_bytes w) (visible_files w) (visible_bytes w)
    (target_visible_bytes w) (max_register_batch_files w) (backpressure w) s.

Definition ResetVirtualCompactionStats (w : t) : t :=
  mkWin [] 0 0 0 (target_visible_bytes w) (max_register_batch_files w) (backpressure w) zero_stats.

Definition ConfigureVirtualL0Window (target max_files : Z) (bp : bool) (w : t) : t :=
  mkWin (pending w) (pending_bytes w) (visible_files w) (visible_bytes w)
    target (Z.max 1 max_files) bp (stats w).

(** The fields [GetVirtualL0WindowStats] copies over the counters. *)
Record WindowReport := mkReport {
  rep_stats : WindowStats;
  rep_pending_files : Z;
  rep_pending_bytes : Z;
  rep_visible_files : Z;
  rep_visible_bytes : Z;
  rep_target_visible_bytes : Z;
  rep_max_register_batch_files : Z;
}.

Definition GetVirtualL0WindowStats (w : t) : WindowReport :=
  mkReport (stats w) (Z.of_nat (length (pending w))) (pending_bytes w) (visible_files w)
    (visible_bytes w) (target_visible_bytes w) (max_register_batch_files w).

Definition NumLevelFiles (level : Z) (v : Version.t) : Z :=
  Z.of_nat (size (filter (fun kv => kv.2.1 = level) v)).

(** The lambda [pressure]. *)
Definition pressure (o : StallOptions) (w : t) (v : Version.t) (pending_bytes : Z) : Pressure :=
  if negb (backpressure w) then kFree
  else
    let l0 := NumLevelFiles 0 v in
    if decide ((0 < level0_stop_writes_trigger o /\ level0_stop_writes_trigger o <= l0) \/
               (0 < hard_pending_compaction_bytes_limit o /\
                hard_pending_compaction_bytes_limit o <= pending_bytes)) then kStop
    else if decide ((0 < level0_slowdown_writes_trigger o /\ level0_slowdown_writes_trigger o <= l0) \/
                    (0 < soft_pending_compaction_bytes_limit o /\
                     soft_pending_compaction_bytes_limit o <= pending_bytes)) then kSlowdown
    else kFree.

(** The inner [while]: move files from the front of the queue to the batch,
    at least one, until the cap or the remaining bytes are reached. *)
Fixpoint take_batch (fuel : nat) (remaining : Z) (batch : list WindowFile) (batch_bytes : Z)
    (queue : list WindowFile) (queue_bytes : Z) : list WindowFile * Z * list WindowFile * Z :=
  match fuel, queue with
  | S fuel', file :: queue' =>
      if decide (batch <> [] /\ remaining < batch_bytes +% file_size file)
      then (batch, batch_bytes, queue, queue_bytes)
      else
        let bytes := batch_bytes +% file_size file in
        let qb := queue_bytes -% file_size file in
        if decide (remaining <= bytes) then (batch ++ [file], bytes, queue', qb)
        else take_batch fuel' remaining (batch ++ [file]) bytes queue' qb
  | _, _ => (batch, batch_bytes, queue, queue_bytes)
  end.

Definition bump_stops (s : WindowStats) : WindowStats :=
  mkStats (queued_files s) (queued_bytes s) (registered_files s) (registered_bytes s)
    (consumed_files s) (consumed_bytes s) (register_batches s) (max_register_batch s)
    (max_register_batch_bytes s) (max_pending_files s) (backpressure_stops s + 1)
    (backpressure_trickles s).

Definition bump_trickles (s : WindowStats) : WindowStats :=
  mkStats (queued_files s) (queued_bytes s) (registered_files s) (registered_bytes s)
    (consumed_files s) (consumed_bytes s) (register_batches s) (max_register_batch s)
    (max_register_batch_bytes s) (max_pending_files s) (backpressure_stops s)
    (backpressure_trickles s + 1).

(** The file a window file becomes in the edit. *)
Definition l0_meta (r : Registry.t) (f : WindowFile) : Version.FileMetaData :=
  Version.mkMeta (file_number f) (file_size f)
    (Version.InternalKey (Registry.EncodeUserKey (key_min (vsst f)) r)
       Version.kMaxSequenceNumber Version.kTypeValue)
    (Version.InternalKey (Registry.EncodeUserKey (key_max (vsst f)) r) 0 Version.kTypeValue)
    0 0 (epoch_number f).

Definition l0_edit (r : Registry.t) (batch : list WindowFile) : Version.VersionEdit :=
  fold_left (fun e f => Version.AddFile 0 (l0_meta r f) e) batch Version.empty_edit.

Definition register_batch (batch : list WindowFile) (r : Registry.t) : Registry.t :=
  fold_left (fun r f => Registry.Register (file_number f) (vsst f) r) batch r.

Definition remove_batch (batch : list WindowFile) (r : Registry.t) : Registry.t :=
  fold_left (fun r f => Registry.Remove (file_number f) r) batch r.

(** A refill turn up to [LogAndApply]: leave the loop, or a batch taken off the
    queue. *)
Inductive RefillStep :=
  | RefillDone (w : t)
  | RefillBatch (w : t) (batch : list WindowFile) (batch_bytes : Z) (trickle : bool).

Definition refill_begin (o : StallOptions) (target_bytes : Z) (needed_bytes : Z)
    (w : t) (v : Version.t) : RefillStep :=
  if decide (pending w <> [] /\ visible_bytes w < target_bytes) then
    let p := pressure o w v needed_bytes in
    if decide (p = kStop) then RefillDone (set_stats (bump_stops (stats w)) w)
    else
      let trickle := bool_decide (p = kSlowdown) in
      let s := if trickle then bump_trickles (stats w) else stats w in
      let remaining := target_bytes -% visible_bytes w in
      let batch_cap := if trickle then 1%nat else Z.to_nat (max_register_batch_files w) in
      let '(batch, bytes, queue, qb) :=
        take_batch batch_cap remaining [] 0 (pending w) (pending_bytes w) in
      let w := mkWin queue qb (visible_files w) (visible_bytes w) (target_visible_bytes w)
                 (max_register_batch_files w) (backpressure w) s in
      if decide (batch = []) then RefillDone w else RefillBatch w batch bytes trickle
  else RefillDone w.

(** The accounting after a successful [LogAndApply]. *)
Definition refill_applied (batch : list WindowFile) (batch_bytes : Z) (w : t) : t :=
  let n := Z.of_nat (length batch) in
  let s := stats w in
  mkWin (pending w) (pending_bytes w) (visible_files w +% n) (visible_bytes w +% batch_bytes)
    (target_visible_bytes w) (max_register_batch_files w) (backpressure w)
    (mkStats (queued_files s) (queued_bytes s) (registered_files s +% n)
       (registered_bytes s +% batch_bytes) (consumed_files s) (consumed_bytes s)
       (register_batches s + 1) (Z.max (max_register_batch s) n)
       (Z.max (max_register_batch_bytes s) batch_bytes) (max_pending_files s)
       (backpressure_stops s) (backpressure_trickles s)).

(** The loop of [RefillVirtualL0WindowLocked]; running out of turns is [None]. *)
Fixpoint refill_loop (o : StallOptions) (turns : list Turn) (target_bytes : Z)
    (w : t) (r : Registry.t) (v : Version.t) : option (Status * t * Registry.t * Version.t) :=
  match turns with
  | [] => None
  | turn :: turns' =>
      match refill_begin o target_bytes (estimated_compaction_needed_bytes turn) w v with
      | RefillDone w => Some (OK, w, r, v)
      | RefillBatch w batch bytes trickle =>
          let edit := l0_edit r batch in
          let r := register_batch batch r in
          match Version.LogAndApply (io_ok turn) [edit] v with
          | Some v =>
              let w := refill_applied batch bytes w in
              if trickle then Some (OK, w, r, v) else refill_loop o turns' target_bytes w r v
          | None => Some (Version.log_status (io_ok turn) [edit] v, w, remove_batch batch r, v)
          end
      end
  end.

(** The target of a refill. *)
Definition refill_target (w : t) : Z :=
  if decide (0 < target_visible_bytes w) then target_visible_bytes w
  else match pending w with [] => 0 | front :: _ => file_size front end.

(** [RefillVirtualL0WindowLocked]; [enabled] is [use_virtual_compaction] with a
    registry present. *)
Definition RefillVirtualL0WindowLocked (o : StallOptions) (enabled : bool) (turns : list Turn)
    (w : t) (r : Registry.t) (v : Version.t) : option (Status * t * Registry.t * Version.t) :=
  if negb enabled || bool_decide (pending w = []) then Some (OK, w, r, v)
  else refill_loop o turns (refill_target w) w r v.

(** The queueing part of [EnqueueVirtualL0Files]. *)
Definition enqueue (files : list WindowFile) (w : t) : t :=
  let '(bytes, pb) :=
    fold_left (fun '(b, pb) f => (b +% file_size f, pb +% file_size f)) files (0, pending_bytes w) in
  let p := pending w ++ files in
  let s := stats w in
  mkWin p pb (visible_files w) (visible_bytes w) (target_visible_bytes w)
    (max_register_batch_files w) (backpressure w)
    (mkStats (queued_files s +% Z.of_nat (length files)) (queued_bytes s +% bytes)
       (registered_files s) (registered_bytes s) (consumed_files s) (consumed_bytes s)
       (register_batches s) (max_register_batch s) (max_register_batch_bytes s)
       (Z.max (max_pending_files s) (Z.of_nat (length p))) (backpressure_stops s)
       (backpressure_trickles s)).

Definition EnqueueVirtualL0Files (o : StallOptions) (enabled : bool) (files : list WindowFile)
    (turns : list Turn) (w : t) (r : Registry.t) (v : Version.t)
    : option (Status * t * Registry.t * Version.t) :=
  if decide (files = []) then Some (OK, w, r, v)
  else RefillVirtualL0WindowLocked o enabled turns (enqueue files w) r v.

Definition RefillVirtualL0Window := RefillVirtualL0WindowLocked.

Definition AccountVirtualL0CompactionLocked
    (input_files input_bytes output_files output_bytes : Z) (w : t) : t :=
  let vf := if decide (visible_files w < input_files) then 0 else visible_files w - input_files in
  let vb := if decide (visible_bytes w < input_bytes) then 0 else visible_bytes w - input_bytes in
  let s := stats w in
  mkWin (pending w) (pending_bytes w) (vf +% output_files) (vb +% output_bytes)
    (target_visible_bytes w) (max_register_batch_files w) (backpressure w)
    (mkStats (queued_files s) (queued_bytes s) (registered_files s) (registered_bytes s)
       (consumed_files s +% input_files) (consumed_bytes s +% input_bytes)
       (register_batches s) (max_register_batch s) (max_register_batch_bytes s)
       (max_pending_files s) (backpressure_stops s) (backpressure_trickles s)).

(** ** Invariant *)

Definition bytes_of (l : list WindowFile) : Z := foldr (fun f b => file_size f + b) 0 l.
Definition numbers (l : list WindowFile) : list Z := file_number <$> l.

(** The counters agree with the queue, and nothing the queue can still add to
    the visible window overflows. *)
Record wf (w : t) : Prop := {
  wf_pending : pending_bytes w = bytes_of (pending w);
  wf_sizes : Forall (fun f => 0 <= file_size f) (pending w);
  wf_bytes : 0 <= visible_bytes w /\ visible_bytes w + bytes_of (pending w) <= u64_max;
  wf_files : 0 <= visible_files w /\ visible_files w + Z.of_nat (length (pending w)) <= u64_max;
  wf_cap : 1 <= max_register_batch_files w;
}.

Lemma bytes_of_app a b : bytes_of (a ++ b) = bytes_of a + bytes_of b.
Proof. induction a as [|f a IH]; cbn [bytes_of foldr app]; [done|]. unfold bytes_of in *. lia. Qed.

#[global] Instance bytes_of_Permutation : Proper ((≡ₚ) ==> eq) bytes_of.
Proof. intros l l' Hp. unfold bytes_of. induction Hp; cbn; lia. Qed.

Lemma bytes_of_nonneg l : Forall (fun f => 0 <= file_size f) l -> 0 <= bytes_of l.
Proof. induction 1; cbn [bytes_of foldr]; [done|]. unfold bytes_of in *. lia. Qed.

Lemma take_batch_spec fuel : forall remaining batch bytes queue,
  Forall (fun f => 0 <= file_size f) queue -> 0 <= bytes -> bytes + bytes_of queue <= u64_max ->
  (batch = [] \/ bytes < remaining) ->
  exists t rest, take_batch fuel remaining batch bytes queue (bytes_of queue) =
      (batch ++ t, bytes + bytes_of t, rest, bytes_of rest) /\
    queue = t ++ rest /\ (length t <= fuel)%nat /\
    (batch = [] -> fuel <> 0%nat -> queue <> [] -> t <> []) /\
    (bytes + bytes_of t <= remaining \/ (length (batch ++ t) <= 1)%nat).
Proof.
  induction fuel as [|fuel IH]; intros remaining batch bytes queue Hq H0 Hmax Hb; cbn [take_batch].
  - exists [], queue. rewrite app_nil_r, Z.add_0_r. repeat split; [cbn; lia|done|].
    destruct Hb as [-> | ]; [right; cbn; lia|left; lia].
  - destruct queue as [|f queue].
    { exists [], []. rewrite app_nil_r, Z.add_0_r. repeat split; [cbn; lia|done|].
      destruct Hb as [-> | ]; [right; cbn; lia|left; lia]. }
    apply Forall_cons_iff in Hq as [Hf Hq]. cbn [bytes_of foldr] in Hmax |- *. fold (bytes_of queue) in *.
    pose proof (bytes_of_nonneg _ Hq).
    rewrite !u64_small by solve_u64.
    replace (file_size f + bytes_of queue - file_size f) with (bytes_of queue) by lia.
    destruct (decide (batch <> [] /\ _)) as [[Hne Hgt]|Hn].
    { exists [], (f :: queue). rewrite app_nil_r, Z.add_0_r. repeat split; [cbn; lia|done|].
      destruct Hb; [done|left; lia]. }
    destruct (decide (remaining <= bytes + file_size f)) as [Hge|Hlt].
    + exists [f], queue. cbn [bytes_of foldr length app]. rewrite Z.add_0_r. repeat split; [lia|done|].
      destruct (decide (batch = [])) as [-> | Hne]; [by right|].
      left. destruct (decide (remaining < bytes + file_size f)); [tauto|lia].
    + destruct (IH remaining (batch ++ [f]) (bytes + file_size f) queue) as (t & rest & -> & -> & Hl & _ & Hr);
        [done|lia|lia|right; lia|].
      exists (f :: t), rest. rewrite <- app_assoc in *. cbn [bytes_of foldr length app] in *.
      fold (bytes_of t). rewrite Z.add_assoc. repeat split; [lia|done|]. rewrite <- Z.add_assoc in Hr. lia.
Qed.

(** A turn either leaves the queue alone and stops, or takes a non-empty batch
    from its front. *)
Lemma refill_begin_spec o target needed w v : wf w -> target <= u64_max ->
  match refill_begin o target needed w v with
  | RefillDone w' =>
      (exists s, w' = set_stats s w) /\
      (backpressure w = false -> pending w = [] \/ target <= visible_bytes w)
  | RefillBatch w' batch bytes trickle =>
      (exists s rest, pending w = batch ++ rest /\
         w' = mkWin rest (bytes_of rest) (visible_files w) (visible_bytes w) (target_visible_bytes w)
                (max_register_batch_files w) (backpressure w) s) /\
      batch <> [] /\ bytes = bytes_of batch /\ visible_bytes w < target /\
      (Z.of_nat (length batch) <= if trickle then 1 else max_register_batch_files w) /\
      (visible_bytes w + bytes <= target \/ exists f, batch = [f]) /\
      (trickle = true -> backpressure w = true)
  end.
Proof.
  intros [Hp Hs Hv Hf Hc] Ht. unfold refill_begin.
  destruct (decide (pending w <> [] /\ _)) as [[Hne Hlt]|Hstop].
  2:{ split; [exists (stats w); by destruct w|]. intros _. destruct (decide (pending w = [])); [by left|right].
      destruct (decide (visible_bytes w < target)); [tauto|lia]. }
  destruct (decide (pressure _ _ _ _ = kStop)) as [Hk|Hk].
  { split; [eauto|]. intros Hbp. unfold pressure in Hk. by rewrite Hbp in Hk. }
  set (trickle := bool_decide _).
  rewrite u64_small by (unfold is_u64, u64_max in *; pose proof (bytes_of_nonneg _ Hs); lia).
  destruct (take_batch_spec (if trickle then 1%nat else Z.to_nat (max_register_batch_files w))
    (target - visible_bytes w) [] 0 (pending w)) as (b & rest & Htb & Hq & Hlen & Hnil & Hfit);
    [done|lia|unfold u64_max in *; lia|by left|].
  rewrite Hp, Htb. cbn [app]. assert (Hb : b <> []) by (apply Hnil; [done|destruct trickle; lia|done]).
  rewrite decide_False by done.
  split; [by eexists _, rest|]. repeat split; try done; [destruct trickle; lia| |].
  - destruct Hfit as [Hfit|Hfit]; [left; lia|right]. cbn [app] in Hfit.
    destruct b as [|f [|]]; cbn in Hfit; [done|by exists f|lia].
  - unfold trickle. intros Hk'%bool_decide_eq_true. unfold pressure in Hk'.
    by destruct (backpressure w).
Qed.

(** ** The batch in the registry and in the version *)

Lemma register_batch_other batch r n : n ∉ numbers batch ->
  Registry.Lookup n (register_batch batch r) = Registry.Lookup n r.
Proof.
  unfold register_batch. revert r. induction batch as [|f batch IH]; intros r Hn; cbn [fold_left]; [done|].
  cbn [numbers fmap list_fmap] in Hn. apply not_elem_of_cons in Hn as [Hf Hn].
  rewrite IH by done. by apply lookup_insert_ne.
Qed.

Lemma register_batch_in batch r f : NoDup (numbers batch) -> f ∈ batch ->
  Registry.Lookup (file_number f) (register_batch batch r) = Some (vsst f).
Proof.
  revert r. induction batch as [|g batch IH]; intros r Hnd Hf; [by apply elem_of_nil in Hf|].
  apply NoDup_cons in Hnd as [Hg Hnd]. change (register_batch (g :: batch) r) with
    (register_batch batch (Registry.Register (file_number g) (vsst g) r)).
  apply elem_of_cons in Hf as [-> | Hf]; [|by apply IH].
  rewrite register_batch_other by done. apply lookup_insert_eq.
Qed.

Lemma register_batch_key_size batch r : Registry.key_size_ (register_batch batch r) = Registry.key_size_ r.
Proof.
  unfold register_batch. revert r. induction batch as [|f batch IH]; intros r; cbn [fold_left]; [done|].
  by rewrite IH.
Qed.

Lemma Remove_lookup n m r : Registry.Lookup n (Registry.Remove m r) =
  if decide (n = m) then None else Registry.Lookup n r.
Proof.
  unfold Registry.Remove, Registry.Lookup. destruct (Registry.registry_ r !! m) eqn:Hm.
  - cbn. destruct (decide (n = m)) as [-> | ]; [apply lookup_delete_eq|by apply lookup_delete_ne].
  - by destruct (decide (n = m)) as [-> | ].
Qed.

Lemma remove_batch_lookup batch r n : Registry.Lookup n (remove_batch batch r) =
  if decide (n ∈ numbers batch) then None else Registry.Lookup n r.
Proof.
  unfold remove_batch. revert r. induction batch as [|f batch IH]; intros r; cbn [fold_left].
  - rewrite decide_False by apply not_elem_of_nil. done.
  - rewrite IH, Remove_lookup. cbn [numbers fmap list_fmap].
    repeat destruct (decide _); set_solver.
Qed.

Lemma l0_edit_files r batch : Version.new_files (l0_edit r batch) = (fun f => (0, l0_meta r f)) <$> batch /\
  Version.deleted_files (l0_edit r batch) = [].
Proof.
  assert (H : forall e, let e' := fold_left (fun e f => Version.AddFile 0 (l0_meta r f) e) batch e in
    Version.new_files e' = Version.new_files e ++ ((fun f => (0, l0_meta r f)) <$> batch) /\
    Version.deleted_files e' = Version.deleted_files e).
  { induction batch as [|f batch IH]; intros e; cbn [fold_left fmap list_fmap].
    - by rewrite app_nil_r.
    - destruct (IH (Version.AddFile 0 (l0_meta r f) e)) as [-> ->]. cbn. by rewrite <- app_assoc. }
  apply H.
Qed.

Lemma l0_edit_added r batch : Version.added (l0_edit r batch) = numbers batch.
Proof. unfold Version.added. rewrite (proj1 (l0_edit_files r batch)), <- list_fmap_compose. done. Qed.

Lemma l0_edit_applies r batch v : NoDup (numbers batch) -> (forall n, n ∈ numbers batch -> n ∉ dom v) ->
  exists v', Version.LogAndApply true [l0_edit r batch] v = Some v' /\
    (forall f, f ∈ batch -> v' !! file_number f = Some (0, l0_meta r f)) /\
    (forall n, n ∉ numbers batch -> v' !! n = v !! n).
Proof.
  intros Hnd Hfresh.
  assert (Hs : forall l v, NoDup (numbers l) -> (forall n, n ∈ numbers l -> n ∉ dom v) ->
    exists v', Version.apply_additions ((fun f => (0, l0_meta r f)) <$> l) v = Some v').
  { induction l as [|f l IH]; intros u Hl Hd; [by eexists|]. apply NoDup_cons in Hl as [Hf Hl].
    cbn [fmap list_fmap Version.apply_additions]. unfold Version.ApplyFileAddition.
    rewrite (proj2 (Version.GetFileLocation_None _ u)) by (apply Hd; by left).
    cbn [mbind option_bind]. apply IH; [done|]. intros n Hn. rewrite dom_insert_L. cbn [l0_meta Version.fd_number].
    specialize (Hd n ltac:(by right)). set_solver. }
  destruct (l0_edit_files r batch) as [Hnew Hdel].
  destruct (Hs batch v Hnd Hfresh) as [v' Hv']. exists v'.
  split.
  - cbn [Version.LogAndApply Version.apply_edits]. unfold Version.Apply. rewrite Hdel, Hnew.
    cbn [Version.apply_deletions mbind option_bind]. by rewrite Hv'.
  - apply Version.apply_additions_lookup in Hv' as (_ & _ & Hin & Hout). rewrite <- list_fmap_compose in Hout.
    split; [|exact Hout]. intros f Hf. apply (Hin 0 (l0_meta r f)). apply list_elem_of_fmap. by exists f.
Qed.

(** ** The refill loop *)

(** What a refill from [(w, r, v)] to [(w', r', v')] has done: the files [fed]
    are visible, the files [lost] of the last batch are nowhere, the others are
    untouched. *)
Record fed_window (target : Z) (w : t) (r : Registry.t) (v : Version.t)
    (w' : t) (r' : Registry.t) (v' : Version.t) (fed lost : list WindowFile) : Prop := {
  fw_order : pending w = fed ++ lost ++ pending w';
  fw_wf : wf w';
  fw_bytes : visible_bytes w' = visible_bytes w + bytes_of fed;
  fw_files : visible_files w' = visible_files w + Z.of_nat (length fed);
  fw_fed : forall f, f ∈ fed -> Registry.Lookup (file_number f) r' = Some (vsst f) /\
    v' !! file_number f = Some (0, l0_meta r f);
  fw_lost : forall f, f ∈ lost -> Registry.Lookup (file_number f) r' = None /\ v' !! file_number f = None;
  fw_other : forall n, n ∉ numbers (fed ++ lost) ->
    Registry.Lookup n r' = Registry.Lookup n r /\ v' !! n = v !! n;
  fw_bound : visible_bytes w' <= Z.max target (visible_bytes w) \/
    exists f, f ∈ fed /\ visible_bytes w' < target + file_size f;
}.

Lemma wf_after w batch rest s : wf w -> pending w = batch ++ rest ->
  let w' := mkWin rest (bytes_of rest) (visible_files w) (visible_bytes w) (target_visible_bytes w)
              (max_register_batch_files w) (backpressure w) s in
  wf w' /\ wf (refill_applied batch (bytes_of batch) w') /\
  visible_bytes (refill_applied batch (bytes_of batch) w') = visible_bytes w + bytes_of batch /\
  visible_files (refill_applied batch (bytes_of batch) w') = visible_files w + Z.of_nat (length batch).
Proof.
  intros [_ Hs Hv Hf Hc] Hq. rewrite Hq in Hs, Hv, Hf. rewrite bytes_of_app in Hv. rewrite length_app in Hf.
  apply Forall_app in Hs as [Hb Hr]. pose proof (bytes_of_nonneg _ Hb). pose proof (bytes_of_nonneg _ Hr).
  repeat split; cbn -[bytes_of]; rewrite ?u64_small by solve_u64; try done; lia.
Qed.

Lemma fed_window_none target w r v s : wf w -> fed_window target w r v (set_stats s w) r v [] [].
Proof.
  intros H. split; cbn; try done; try lia; try set_solver.
  destruct H. by split.
Qed.

Lemma fed_window_lost target w r v batch rest s : wf w -> pending w = batch ++ rest ->
  NoDup (numbers (pending w)) -> (forall n, n ∈ numbers (pending w) -> n ∉ dom v) ->
  fed_window target w r v
    (mkWin rest (bytes_of rest) (visible_files w) (visible_bytes w) (target_visible_bytes w)
       (max_register_batch_files w) (backpressure w) s)
    (remove_batch batch (register_batch batch r)) v [] batch.
Proof.
  intros Hwf Hq Hnd Hfresh. destruct (wf_after w batch rest s Hwf Hq) as [H1 _].
  assert (Hin : forall f, f ∈ batch -> file_number f ∈ numbers batch)
    by (intros f Hf; apply list_elem_of_fmap; by exists f).
  split; cbn; try done; try lia.
  - set_solver.
  - intros f Hf. split; [rewrite remove_batch_lookup; apply decide_True; auto|].
    apply not_elem_of_dom, Hfresh. rewrite Hq. unfold numbers. rewrite fmap_app. apply elem_of_app.
    left. by apply Hin.
  - intros n Hn. split; [|done]. rewrite remove_batch_lookup, decide_False, register_batch_other by done. done.
Qed.

(** A batch that became visible, followed by a refill of the rest. *)
Lemma fed_window_step target w r v batch rest s v1 w' r' v' fed lost :
  wf w -> pending w = batch ++ rest -> NoDup (numbers (pending w)) ->
  (visible_bytes w + bytes_of batch <= target \/ exists f, batch = [f]) -> visible_bytes w < target ->
  (forall f, f ∈ batch -> v1 !! file_number f = Some (0, l0_meta r f)) ->
  (forall n, n ∉ numbers batch -> v1 !! n = v !! n) ->
  fed_window target (refill_applied batch (bytes_of batch)
      (mkWin rest (bytes_of rest) (visible_files w) (visible_bytes w) (target_visible_bytes w)
         (max_register_batch_files w) (backpressure w) s))
    (register_batch batch r) v1 w' r' v' fed lost ->
  fed_window target w r v w' r' v' (batch ++ fed) lost.
Proof.
  intros Hwf Hq Hnd Hfit Hlt Hv1 Hv1' [G1 G2 G3 G4 G5 G6 G7 G8].
  destruct (wf_after w batch rest s Hwf Hq) as (_ & _ & Hb & Hf). rewrite Hb in *. rewrite Hf in *.
  cbn [pending refill_applied] in G1.
  assert (Hmeta : forall f, l0_meta (register_batch batch r) f = l0_meta r f).
  { intros f. unfold l0_meta, Registry.EncodeUserKey. by rewrite register_batch_key_size. }
  rewrite Hq, G1 in Hnd. unfold numbers in Hnd. rewrite fmap_app in Hnd.
  apply NoDup_app in Hnd as (Hnb & Hdis & _).
  assert (Hsep : forall f, f ∈ batch -> file_number f ∉ numbers (fed ++ lost)).
  { intros f Hf'. specialize (Hdis (file_number f)). unfold numbers. rewrite app_assoc, fmap_app in Hdis.
    intros Hc. apply Hdis; [apply list_elem_of_fmap; by exists f|]. apply elem_of_app. by left. }
  split; try done.
  - by rewrite Hq, G1, app_assoc.
  - rewrite G3, bytes_of_app. lia.
  - rewrite G4, length_app. lia.
  - intros f [Hf'|Hf']%elem_of_app.
    + destruct (G7 (file_number f)) as [-> ->]; [by apply Hsep|].
      split; [by apply register_batch_in|by apply Hv1].
    + destruct (G5 f Hf') as [-> ->]. by rewrite Hmeta.
  - intros n Hn. unfold numbers in *. rewrite !fmap_app in *.
    destruct (G7 n) as [-> ->]; [set_solver|].
    rewrite register_batch_other, Hv1' by (unfold numbers; set_solver). done.
  - destruct G8 as [G8|(f & Hf' & G8)]; [|right; exists f; set_solver].
    destruct Hfit as [Hfit|[f ->]]; [left; lia|].
    cbn [bytes_of foldr] in G8. destruct (Z_le_gt_dec (visible_bytes w') target); [left; lia|].
    right. exists f. split; [set_solver|lia].
Qed.

Lemma refill_loop_spec o target : target <= u64_max -> forall turns w r v, wf w ->
  NoDup (numbers (pending w)) -> (forall n, n ∈ numbers (pending w) -> n ∉ dom v) ->
  (length (pending w) < length turns)%nat ->
  exists s w' r' v' fed lost, refill_loop o turns target w r v = Some (s, w', r', v') /\
    fed_window target w r v w' r' v' fed lost /\ (s = OK -> lost = []) /\
    (Forall (fun t => io_ok t = true) turns -> s = OK) /\
    (s = OK -> backpressure w = false -> pending w' = [] \/ target <= visible_bytes w').
Proof.
  intros Ht. induction turns as [|turn turns IH]; intros w r v Hwf Hnd Hfresh Hlen; [cbn in Hlen; lia|].
  cbn [refill_loop]. pose proof (refill_begin_spec o target (estimated_compaction_needed_bytes turn) w v Hwf Ht) as Hb.
  destruct (refill_begin _ _ _ _ _) as [w1|w1 batch bytes trickle].
  { destruct Hb as [[s ->] Hstop]. exists OK, (set_stats s w), r, v, [], [].
    split; [done|]. split; [by apply fed_window_none|]. done. }
  destruct Hb as [(s & rest & Hq & ->) (Hne & -> & Hlt & _ & Hfit & Htr)].
  assert (Hnb : NoDup (numbers batch)).
  { rewrite Hq in Hnd. unfold numbers in Hnd. rewrite fmap_app in Hnd. by apply NoDup_app in Hnd as (? & _). }
  assert (Hfb : forall n, n ∈ numbers batch -> n ∉ dom v).
  { intros n Hn. apply Hfresh. rewrite Hq. unfold numbers. rewrite fmap_app. apply elem_of_app. by left. }
  set (w1 := mkWin rest _ _ _ _ _ _ s). destruct (io_ok turn) eqn:Hok.
  2:{ cbn [Version.LogAndApply]. exists (Version.log_status false [l0_edit r batch] v), w1, (remove_batch batch (register_batch batch r)), v, [], batch.
      split; [done|]. split; [by apply fed_window_lost|].
      split; [intros Hs; by apply Version.log_status_OK in Hs as []|].
      split; [|intros Hs; by apply Version.log_status_OK in Hs as []].
      intros H. apply Forall_cons_iff in H as [H _]. congruence. }
  destruct (l0_edit_applies r batch v Hnb Hfb) as (v1 & -> & Hv1 & Hv1').
  destruct (wf_after w batch rest s Hwf Hq) as (_ & Hwf' & Hvb & _). fold w1 in Hwf', Hvb.
  pose proof (fed_window_step target w r v batch rest s v1) as Hstep. fold w1 in Hstep.
  destruct trickle.
  { do 6 eexists. split; [done|]. split; [eapply (Hstep _ _ _ [] []); eauto; by apply (fed_window_none _ (refill_applied batch (bytes_of batch) w1) _ _ (stats (refill_applied batch (bytes_of batch) w1)))|].
    split; [done|]. split; [done|]. intros _ Hbp. by rewrite Htr in Hbp. }
  destruct (IH (refill_applied batch (bytes_of batch) w1) (register_batch batch r) v1)
    as (st & w' & r' & v' & fed & lost & Hrun & Hfw & Hl & Hio & Hfull); [done| | | |].
  - cbn. rewrite Hq in Hnd. unfold numbers in Hnd. rewrite fmap_app in Hnd. by apply NoDup_app in Hnd as (_ & _ & ?).
  - cbn. intros n Hn. rewrite not_elem_of_dom, Hv1', <- not_elem_of_dom.
    + apply Hfresh. rewrite Hq. unfold numbers. rewrite fmap_app. apply elem_of_app. by right.
    + intros Hn'. rewrite Hq in Hnd. unfold numbers in *. rewrite fmap_app in Hnd.
      apply NoDup_app in Hnd as (_ & Hd & _). by apply (Hd n).
  - cbn. rewrite Hq, length_app in Hlen. cbn in Hlen. destruct batch; [done|cbn in Hlen; lia].
  - exists st, w', r', v', (batch ++ fed), lost. split; [done|]. split; [by eapply Hstep|].
    split; [done|]. split; [|done]. intros H. apply Hio. by apply Forall_cons_iff in H as [_ H].
Qed.

Lemma refill_target_max w : wf w -> target_visible_bytes w <= u64_max -> refill_target w <= u64_max.
Proof.
  intros [_ Hs Hv _ _] Ht. unfold refill_target. destruct (decide _); [done|].
  destruct (pending w) as [|f q]; [done|]. apply Forall_cons_iff in Hs as [_ Hq].
  cbn [bytes_of foldr] in Hv. pose proof (bytes_of_nonneg _ Hq) as Hn. unfold bytes_of in Hn. lia.
Qed.

Lemma refill_gen o enabled turns w r v : wf w -> target_visible_bytes w <= u64_max ->
  NoDup (numbers (pending w)) -> (forall n, n ∈ numbers (pending w) -> n ∉ dom v) ->
  (length (pending w) < length turns)%nat ->
  exists s w' r' v' fed lost,
    RefillVirtualL0WindowLocked o enabled turns w r v = Some (s, w', r', v') /\
    fed_window (refill_target w) w r v w' r' v' fed lost /\ (s = OK -> lost = []) /\
    (Forall (fun t => io_ok t = true) turns -> s = OK) /\
    (enabled = true -> s = OK -> backpressure w = false ->
     pending w' = [] \/ refill_target w <= visible_bytes w').
Proof.
  intros Hwf Ht Hnd Hfresh Hlen. unfold RefillVirtualL0WindowLocked.
  destruct (negb enabled || bool_decide (pending w = [])) eqn:He.
  - exists OK, w, r, v, [], []. split; [done|]. split; [by destruct w; apply (fed_window_none _ (mkWin _ _ _ _ _ _ _ _) _ _ _)|].
    do 2 (split; [done|]). intros -> _ _. left. cbn in He. by apply bool_decide_eq_true in He.
  - destruct (refill_loop_spec o (refill_target w) (refill_target_max w Hwf Ht) turns w r v Hwf Hnd Hfresh Hlen)
      as (st & w' & r' & v' & fed & lost & H1 & H2 & H3 & H4 & H5).
    exists st, w', r', v', fed, lost. eauto 10.
Qed.

Lemma enqueue_spec files w : wf w -> Forall (fun f => 0 <= file_size f) files ->
  visible_bytes w + bytes_of (pending w ++ files) <= u64_max ->
  visible_files w + Z.of_nat (length (pending w ++ files)) <= u64_max ->
  wf (enqueue files w) /\ pending (enqueue files w) = pending w ++ files /\
  visible_bytes (enqueue files w) = visible_bytes w /\ visible_files (enqueue files w) = visible_files w /\
  target_visible_bytes (enqueue files w) = target_visible_bytes w /\
  backpressure (enqueue files w) = backpressure w.
Proof.
  intros [Hp Hs Hv Hf Hc] Hfs Hb Hn. rewrite bytes_of_app in Hb.
  assert (Hfold : forall l b pb, Forall (fun f => 0 <= file_size f) l -> 0 <= pb -> pb + bytes_of l <= u64_max ->
    (fold_left (fun '(b, pb) f => (b +% file_size f, pb +% file_size f)) l (b, pb)).2 = pb + bytes_of l).
  { induction l as [|f l IH]; intros b pb Hl H0 H1; cbn [fold_left bytes_of foldr]; [cbn; lia|].
    apply Forall_cons_iff in Hl as [Hf' Hl]. cbn [bytes_of foldr] in H1. fold (bytes_of l) in *.
    pose proof (bytes_of_nonneg _ Hl). rewrite (u64_small (pb + _)) by (unfold is_u64, u64_max in *; lia).
    rewrite IH by (done || lia). lia. }
  pose proof (bytes_of_nonneg _ Hs). pose proof (bytes_of_nonneg _ Hfs).
  specialize (Hfold files 0 (pending_bytes w) Hfs). rewrite Hp in Hfold.
  specialize (Hfold ltac:(lia) ltac:(lia)). unfold enqueue. rewrite Hp.
  destruct (fold_left _ files _) as [b pb]. cbn in Hfold. subst pb.
  split; [|done]. split; cbn -[bytes_of]; rewrite ?bytes_of_app; try done; try lia.
  by apply Forall_app.
Qed.

(** ** Properties *)

(** C26: queueing files and refilling returns for every outcome of the MANIFEST
    writes, feeds the window in queue order, registers every file it makes
    visible under its own descriptor and at level 0, keeps the byte and file
    counters exact, overshoots the target by less than one file, and without
    backpressure and I/O errors leaves the window full or the queue empty.  When
    a MANIFEST write fails, the files of that batch are in none of the queue, the
    registry and the version. *)
Theorem EnqueueVirtualL0Files_correct (o : StallOptions) (enabled : bool) (files : list WindowFile)
    (turns : list Turn) (w : t) (r : Registry.t) (v : Version.t)
    (Hwf : wf w) (Htarget : target_visible_bytes w <= u64_max) (Hfiles : files <> [])
    (Hsizes : Forall (fun f => 0 <= file_size f) files)
    (Hbytes : visible_bytes w + bytes_of (pending w ++ files) <= u64_max)
    (Hcount : visible_files w + Z.of_nat (length (pending w ++ files)) <= u64_max)
    (Hnd : NoDup (numbers (pending w ++ files)))
    (Hfresh : forall n, n ∈ numbers (pending w ++ files) -> n ∉ dom v)
    (Hturns : (length (pending w ++ files) < length turns)%nat) :
  let target := refill_target (enqueue files w) in
  exists s w' r' v' fed lost,
    EnqueueVirtualL0Files o enabled files turns w r v = Some (s, w', r', v') /\
    pending w ++ files = fed ++ lost ++ pending w' /\ wf w' /\
    visible_bytes w' = visible_bytes w + bytes_of fed /\
    visible_files w' = visible_files w + Z.of_nat (length fed) /\
    (forall f, f ∈ fed -> Registry.Lookup (file_number f) r' = Some (vsst f) /\
       v' !! file_number f = Some (0, l0_meta r f)) /\
    (forall f, f ∈ lost -> Registry.Lookup (file_number f) r' = None /\ v' !! file_number f = None) /\
    (forall n, n ∉ numbers (fed ++ lost) ->
       Registry.Lookup n r' = Registry.Lookup n r /\ v' !! n = v !! n) /\
    (visible_bytes w' <= Z.max target (visible_bytes w) \/
     exists f, f ∈ fed /\ visible_bytes w' < target + file_size f) /\
    (s = OK -> lost = []) /\
    (Forall (fun t => io_ok t = true) turns -> s = OK) /\
    (enabled = true -> s = OK -> backpressure w = false ->
     pending w' = [] \/ target <= visible_bytes w').
Proof.
  intros target. destruct (enqueue_spec files w Hwf Hsizes Hbytes Hcount) as (E1 & E2 & E3 & E4 & E5 & E6).
  unfold EnqueueVirtualL0Files. rewrite decide_False by done.
  destruct (refill_gen o enabled turns (enqueue files w) r v E1 ltac:(by rewrite E5))
    as (st & w' & r' & v' & fed & lost & H1 & [G1 G2 G3 G4 G5 G6 G7 G8] & H3 & H4 & H5); [by rewrite E2..|].
  rewrite E2 in G1. rewrite E3 in G3, G8. rewrite E4 in G4. rewrite E6 in H5.
  exists st, w', r', v', fed, lost. repeat (split; [assumption|]). assumption.
Qed.

Definition sample_vsst : VirtualSST := mkVSST (mkPLR []) [] 1 9 5 100.
Definition sample_file (n : Z) : WindowFile := mkFile n sample_vsst 100 n.
Definition no_stall : StallOptions := mkStall 0 0 0 0.

Lemma EnqueueVirtualL0Files_correct_witness :
  let w := ConfigureVirtualL0Window 150 4 false init in
  exists w' r' v', EnqueueVirtualL0Files no_stall true [sample_file 7; sample_file 8; sample_file 9]
      (replicate 4 (mkTurn 0 true)) w Registry.init ∅ = Some (OK, w', r', v') /\
    pending w' = [sample_file 9] /\ visible_bytes w' = 200 /\ is_Some (Registry.Lookup 8 r').
Proof.
  intros w.
  destruct (EnqueueVirtualL0Files_correct no_stall true [sample_file 7; sample_file 8; sample_file 9]
    (replicate 4 (mkTurn 0 true)) w Registry.init ∅) as (st & w' & r' & v' & fed & lost & H & _).
  - by split; vm_compute.
  - by vm_compute.
  - discriminate.
  - repeat constructor; by vm_compute.
  - by vm_compute.
  - by vm_compute.
  - apply (bool_decide_unpack _). by vm_compute.
  - intros n _. rewrite dom_empty_L. apply not_elem_of_empty.
  - cbn. lia.
  - exists w', r', v'. vm_compute in H. injection H as <- <- <- <-.
    split; [done|]. split; [by vm_compute|]. split; [by vm_compute|by eexists].
Defined.

(** A failed MANIFEST write loses the batch: the file is neither queued nor
    registered nor live, and no counter records it. *)
Example refill_failure_drops_batch :
  match EnqueueVirtualL0Files no_stall true [sample_file 7; sample_file 8] [mkTurn 0 false]
          (ConfigureVirtualL0Window 100 1 false init) Registry.init ∅ with
  | Some (s, w, r, v) => s = IOError /\ numbers (pending w) = [8] /\ pending_bytes w = 100 /\
      visible_files w = 0 /\ Registry.Lookup 7 r = None /\ v !! 7 = None
  | None => False
  end.
Proof. by vm_compute. Qed.

(** accounting a compaction moves the visible window by exactly the level-0
    inputs and outputs when the inputs are visible, clamps at zero otherwise, and
    leaves the queue and its invariant alone. *)
Theorem AccountVirtualL0CompactionLocked_exact (w : t) (in_files in_bytes out_files out_bytes : Z)
    (Hwf : wf w) (Hin : 0 <= in_files /\ 0 <= in_bytes) (Hout : 0 <= out_files /\ 0 <= out_bytes)
    (Hb : visible_bytes w + bytes_of (pending w) + out_bytes <= u64_max)
    (Hf : visible_files w + Z.of_nat (length (pending w)) + out_files <= u64_max) :
  let w' := AccountVirtualL0CompactionLocked in_files in_bytes out_files out_bytes w in
  wf w' /\ pending w' = pending w /\
  visible_bytes w' = Z.max 0 (visible_bytes w - in_bytes) + out_bytes /\
  visible_files w' = Z.max 0 (visible_files w - in_files) + out_files.
Proof.
  destruct Hwf as [Hp Hs Hv Hvf Hc]. pose proof (bytes_of_nonneg _ Hs).
  unfold AccountVirtualL0CompactionLocked. cbn -[bytes_of].
  destruct (decide (visible_files w < in_files)), (decide (visible_bytes w < in_bytes));
    rewrite !u64_small by solve_u64;
    (split; [split; cbn -[bytes_of]; try done; lia|repeat split; lia]).
Qed.

Lemma AccountVirtualL0CompactionLocked_exact_witness :
  let w := mkWin [] 0 3 300 0 1 false zero_stats in
  visible_bytes (AccountVirtualL0CompactionLocked 2 200 1 50 w) = 150 /\
  visible_files (AccountVirtualL0CompactionLocked 5 200 1 50 w) = 1.
Proof.
  intros w. assert (Hwf : wf w) by (by split; vm_compute).
  split; [apply (AccountVirtualL0CompactionLocked_exact w 2 200 1 50)
         |apply (AccountVirtualL0CompactionLocked_exact w 5 200 1 50)]; done.
Defined.

End Window.
