(* ===== verification/Commit.v ===== *)
(** * Group commit of virtual compactions

    [CommitVirtualCompactionEdit] of [db/db_impl/db_impl_compaction_flush.cc]:
    compaction threads queue their version edits, the first one becomes the
    leader and commits the queue in batches, the others wait until their request
    is done.  The DB mutex is released while the leader sleeps and inside
    [LogAndApply]; what other threads queue there is an input of each turn of
    the leader.  Requests are compared by [req_id], the address of the request
    object.  Timing counters are left out. *)

From Stdlib Require Import ZArith Lia.
From stdpp Require Import base numbers list gmap.
From S2P Require Import Prelude Plr Kmv Registry Version Window.

Local Open Scope Z_scope.

Module Commit.

(** ** State *)

(** struct [VirtualCompactionCommitRequest]. *)
Record Request := mkReq {
  req_id : Z;
  cfd : Z;
  edit : Version.VersionEdit;
  pending_outputs : list (Z * VirtualSST);
  input_file_numbers : list Z;
  moved_virtuals : option (list (Z * VirtualSST));
  l0_input_files : Z;
  l0_input_bytes : Z;
  l0_output_files : Z;
  l0_output_bytes : Z;
}.

(** A request that is done: its status and the size of its batch. *)
Record Result := mkResult {
  res_req : Request;
  status : Status;
  batch_size : Z;
}.

(** The members of [DBImpl] a commit changes. *)
Record Db := mkDb {
  win : Window.t;
  reg : Registry.t;
  ver : Version.t;
}.

(** What a turn of the leader takes from its environment. *)
Record LeaderTurn := mkLeader {
  sleep_arrivals : list Request;
  commit_io_ok : bool;
  refill_turns : list Window.Turn;
  log_arrivals : list Request;
}.

(** ** Operations *)

(** The loop that moves requests of the same column family to the batch. *)
Fixpoint collect_batch (fuel : nat) (batch_cfd : Z) (queue : list Request)
    : list Request * list Request :=
  match fuel, queue with
  | S fuel', r :: queue' =>
      if decide (cfd r = batch_cfd)
      then let '(batch, rest) := collect_batch fuel' batch_cfd queue' in (r :: batch, rest)
      else ([], queue)
  | _, _ => ([], queue)
  end.

(** Every input of the request is still a live file. *)
Definition is_current (v : Version.t) (r : Request) : bool :=
  forallb (fun n => bool_decide (is_Some (Version.GetFileLocation n v))) (input_file_numbers r).

(** The body of the callback for one request. *)
Definition publish (r : Request) (g : Registry.t) : Registry.t :=
  match moved_virtuals r with
  | Some moved => fold_left (fun g '(n, v) => Registry.Register n v g) moved g
  | None =>
      let g := fold_left (fun g '(n, v) => Registry.Register n v g) (pending_outputs r) g in
      fold_left (fun g n => Registry.Remove n g) (input_file_numbers r) g
  end.

(** [LogAndApply] of the edits of a batch with its callback. *)
Definition log_batch (io_ok : bool) (commit_batch : list Request) (db : Db) : Status * Db :=
  if decide (commit_batch = []) then (OK, db)
  else
    let edits := edit <$> commit_batch in
    match Version.LogAndApply io_ok edits (ver db) with
    | Some v => (OK, mkDb (win db) (fold_left (fun g r => publish r g) commit_batch (reg db)) v)
    | None => (Version.log_status io_ok edits (ver db), db)
    end.

Definition account_batch (commit_batch : list Request) (w : Window.t) : Window.t :=
  fold_left (fun w r => Window.AccountVirtualL0CompactionLocked (l0_input_files r)
    (l0_input_bytes r) (l0_output_files r) (l0_output_bytes r) w) commit_batch w.

Definition finish (s : Status) (size : nat) (rs : list Request) : list Result :=
  (fun r => mkResult r s (Z.of_nat size)) <$> rs.

(** A turn of the leader's loop on a non-empty queue: the finished requests and
    the rest of the queue. *)
Definition leader_turn (o : Window.StallOptions) (enabled : bool) (max_batch_size : nat)
    (io_ok : bool) (turns : list Window.Turn) (queue : list Request) (db : Db)
    : option (list Result * list Request * Db) :=
  match queue with
  | [] => Some ([], [], db)
  | front :: _ =>
      let '(batch, rest) := collect_batch max_batch_size (cfd front) queue in
      let commit_batch := filter (fun r => is_current (ver db) r = true) batch in
      let stale := filter (fun r => is_current (ver db) r = false) batch in
      let '(s, db) := log_batch io_ok commit_batch db in
      if decide (s = OK) then
        let w := account_batch commit_batch (win db) in
        '(s, w, g, v) ← Window.RefillVirtualL0WindowLocked o enabled turns w (reg db) (ver db);
        Some (finish OK (length batch) stale ++ finish s (length commit_batch) commit_batch,
              rest, mkDb w g v)
      else
        Some (finish OK (length batch) stale ++ finish s (length commit_batch) commit_batch, rest, db)
  end.

(** The loop of the leader: the finished requests in order, the turns it did not
    use, and the final state. *)
Fixpoint leader_loop (o : Window.StallOptions) (enabled : bool) (max_batch_size : nat)
    (batch_delay_us : Z) (turns : list LeaderTurn) (queue : list Request) (db : Db)
    : option (list Result * list LeaderTurn * Db) :=
  match queue, turns with
  | [], _ => Some ([], turns, db)
  | _, [] => None
  | _, turn :: turns' =>
      let queue :=
        if decide (0 < batch_delay_us /\ (length queue < max_batch_size)%nat)
        then queue ++ sleep_arrivals turn else queue in
      '(done, rest, db) ←
        leader_turn o enabled max_batch_size (commit_io_ok turn) (refill_turns turn) queue db;
      '(done', unused, db) ←
        leader_loop o enabled max_batch_size batch_delay_us turns' (rest ++ log_arrivals turn) db;
      Some (done ++ done', unused, db)
  end.

(** [CommitVirtualCompactionEdit] in the thread that becomes the leader; the
    options are the values of the environment variables, if set. *)
Definition CommitVirtualCompactionEdit (o : Window.StallOptions) (enabled : bool)
    (batch_max delay : option Z) (turns : list LeaderTurn) (req : Request) (db : Db)
    : option (list Result * list LeaderTurn * Db) :=
  let max_batch_size := Z.to_nat (Z.max 1 (default 16 batch_max)) in
  leader_loop o enabled max_batch_size (default 100 delay) turns [req] db.

(** ** The batch *)

Lemma collect_batch_spec fuel c queue batch rest : collect_batch fuel c queue = (batch, rest) ->
  queue = batch ++ rest /\ (length batch <= fuel)%nat /\ Forall (fun r => cfd r = c) batch.
Proof.
  revert queue batch rest. induction fuel as [|fuel IH]; intros queue batch rest; cbn [collect_batch].
  - intros [= <- <-]. repeat split; [cbn; lia|constructor].
  - destruct queue as [|r queue]; [intros [= <- <-]; repeat split; [cbn; lia|constructor]|].
    destruct (decide (cfd r = c)) as [Hc|]; [|intros [= <- <-]; repeat split; [cbn; lia|constructor]].
    destruct (collect_batch fuel c queue) as [b q] eqn:He. intros [= <- <-].
    destruct (IH _ _ _ He) as (-> & Hl & Hb). repeat split; [cbn; lia|by constructor].
Qed.

Lemma collect_batch_nonempty fuel r queue : fuel <> 0%nat ->
  (collect_batch fuel (cfd r) (r :: queue)).1 <> [].
Proof.
  destruct fuel; [done|]. intros _. cbn. rewrite decide_True by done.
  by destruct (collect_batch fuel (cfd r) queue).
Qed.

Lemma split_current v batch : batch ≡ₚ filter (fun r => is_current v r = false) batch ++
  filter (fun r => is_current v r = true) batch.
Proof.
  induction batch as [|r batch IH]; [done|]. destruct (is_current v r) eqn:Hr.
  - rewrite (filter_cons_False _ _ _) by congruence. rewrite (filter_cons_True (fun r => is_current v r = true)) by done.
    rewrite <- Permutation_middle. by constructor.
  - rewrite filter_cons_True by done. rewrite (filter_cons_False (fun r => is_current v r = true)) by congruence.
    by constructor.
Qed.

Lemma finish_reqs s n rs : res_req <$> finish s n rs = rs.
Proof. unfold finish. rewrite <- list_fmap_compose. apply list_fmap_id_on. by apply Forall_true. Qed.

(** ** Termination of the refill inside a turn *)

Lemma take_batch_shrinks fuel remaining batch bytes queue qb b by' q qb' :
  Window.take_batch fuel remaining batch bytes queue qb = (b, by', q, qb') ->
  (length b + length q = length batch + length queue)%nat.
Proof.
  revert batch bytes queue qb. induction fuel as [|fuel IH]; intros batch bytes queue qb; cbn [Window.take_batch].
  - intros [= <- <- <- <-]. done.
  - destruct queue as [|f queue]; [by intros [= <- <- <- <-]|].
    destruct (decide _); [by intros [= <- <- <- <-]|].
    destruct (decide _); [intros [= <- <- <- <-]; rewrite length_app; cbn; lia|].
    intros H%IH. rewrite length_app in H. cbn in *. lia.
Qed.

Lemma refill_loop_total o target turns w g v : (length (Window.pending w) < length turns)%nat ->
  exists s w' g' v', Window.refill_loop o turns target w g v = Some (s, w', g', v') /\
    (length (Window.pending w') <= length (Window.pending w))%nat.
Proof.
  revert w g v. induction turns as [|turn turns IH]; intros w g v Hlen; [cbn in Hlen; lia|].
  cbn [Window.refill_loop]. unfold Window.refill_begin.
  destruct (decide _); [|by do 4 eexists].
  destruct (decide _); [by do 4 eexists|].
  set (trickle := bool_decide _). destruct (Window.take_batch _ _ _ _ _ _) as [[[b by'] q] qb] eqn:Ht.
  apply take_batch_shrinks in Ht. cbn [length] in Ht.
  destruct (decide (b = [])) as [-> | Hb]; [do 4 eexists; split; [done|cbn in *; lia]|].
  assert (length b <> 0)%nat by (by destruct b).
  destruct (Version.LogAndApply _ _ _); [|do 4 eexists; split; [done|cbn in *; lia]].
  destruct trickle; [do 4 eexists; split; [done|cbn in *; lia]|].
  match goal with |- context [Window.refill_loop o turns target ?w1 ?g1 ?v1] =>
    destruct (IH w1 g1 v1) as (s & w' & g' & v' & -> & Hl) end; [cbn in *; lia|].
  do 4 eexists. split; [done|cbn in *; lia].
Qed.

Lemma refill_total o enabled turns w g v : (length (Window.pending w) < length turns)%nat ->
  exists s w' g' v', Window.RefillVirtualL0WindowLocked o enabled turns w g v = Some (s, w', g', v') /\
    (length (Window.pending w') <= length (Window.pending w))%nat.
Proof.
  intros H. unfold Window.RefillVirtualL0WindowLocked. destruct (_ || _); [by do 4 eexists|].
  by apply refill_loop_total.
Qed.

Lemma account_batch_pending rs w : Window.pending (account_batch rs w) = Window.pending w.
Proof.
  unfold account_batch. revert w. induction rs as [|r rs IH]; intros w; cbn [fold_left]; [done|]. by rewrite IH.
Qed.

Lemma log_batch_win io rs db : win (log_batch io rs db).2 = win db.
Proof. unfold log_batch. destruct (decide _); [done|]. by destruct (Version.LogAndApply _ _ _). Qed.

(** A turn finishes at least one request and drops none. *)
Lemma leader_turn_spec o enabled max io turns queue db : max <> 0%nat ->
  (length (Window.pending (win db)) < length turns)%nat -> queue <> [] ->
  exists done rest db', leader_turn o enabled max io turns queue db = Some (done, rest, db') /\
    queue ≡ₚ (res_req <$> done) ++ rest /\ (length rest < length queue)%nat /\
    Forall (fun d => 1 <= batch_size d <= Z.of_nat max) done /\
    (length (Window.pending (win db')) <= length (Window.pending (win db)))%nat.
Proof.
  intros Hmax Hlen Hq. destruct queue as [|front queue]; [done|]. unfold leader_turn.
  destruct (collect_batch max (cfd front) (front :: queue)) as [batch rest] eqn:Hb.
  pose proof (collect_batch_nonempty max front queue Hmax) as Hne. rewrite Hb in Hne. cbn in Hne.
  apply collect_batch_spec in Hb as (Hqueue & Hl & _).
  pose proof (split_current (ver db) batch) as Hp.
  set (commit := filter (fun r => is_current (ver db) r = true) batch) in *.
  set (stale := filter (fun r => is_current (ver db) r = false) batch) in *.
  assert (Hres : forall s, let done := finish OK (length batch) stale ++ finish s (length commit) commit in
    front :: queue ≡ₚ (res_req <$> done) ++ rest /\ (length rest < length (front :: queue))%nat /\
    Forall (fun d => 1 <= batch_size d <= Z.of_nat max) done).
  { intros s d. unfold d. rewrite fmap_app, !finish_reqs, <- Hp, Hqueue, length_app.
    pose proof (Permutation_length Hp) as Hlp. rewrite length_app in Hlp.
    assert (length batch <> 0)%nat by (by destruct batch).
    split; [done|]. split; [lia|]. apply Forall_app. unfold finish. rewrite !Forall_fmap.
    split; apply Forall_forall; intros r Hr; cbn; [lia|].
    destruct commit; [by apply elem_of_nil in Hr|cbn in *; lia]. }
  pose proof (log_batch_win io commit db) as Hw. destruct (log_batch io commit db) as [s db1]. cbn in Hw.
  destruct (decide (s = OK)).
  - destruct (refill_total o enabled turns (account_batch commit (win db1)) (reg db1) (ver db1))
      as (s' & w' & g' & v' & -> & Hp'); [by rewrite account_batch_pending, Hw|].
    rewrite account_batch_pending, Hw in Hp'. cbn [mbind option_bind].
    do 3 eexists. split; [done|]. destruct (Hres s') as (? & ? & ?). done.
  - do 3 eexists. split; [done|]. destruct (Hres s) as (? & ? & ?). rewrite Hw. done.
Qed.

(** ** Properties *)

Definition turn_arrivals (t : LeaderTurn) : list Request := sleep_arrivals t ++ log_arrivals t.

Lemma leader_loop_spec o enabled max delay : max <> 0%nat -> forall turns queue db,
  Forall (fun t => (length (Window.pending (win db)) < length (refill_turns t))%nat) turns ->
  (length queue + length (turns ≫= turn_arrivals) <= length turns)%nat ->
  exists done unused db' used arrived,
    leader_loop o enabled max delay turns queue db = Some (done, unused, db') /\
    turns = used ++ unused /\ res_req <$> done ≡ₚ queue ++ arrived /\
    used ≫= log_arrivals ⊆+ arrived /\ arrived ⊆+ used ≫= turn_arrivals /\
    Forall (fun d => 1 <= batch_size d <= Z.of_nat max) done.
Proof.
  intros Hmax. induction turns as [|turn turns IH]; intros queue db Hpend Hfuel.
  - destruct queue; [|cbn in Hfuel; lia]. exists [], [], db, [], []. cbn. by repeat split.
  - destruct (decide (queue = [])) as [-> | Hq].
    { exists [], (turn :: turns), db, [], []. cbn. by repeat split. }
    apply Forall_cons_iff in Hpend as [Hturn Hpend].
    rewrite bind_cons in Hfuel. unfold turn_arrivals at 1 in Hfuel.
    rewrite !length_app in Hfuel. cbn [length] in Hfuel.
    set (slept := if decide (0 < delay /\ (length queue < max)%nat) then sleep_arrivals turn else []).
    assert (Hslept : (length slept <= length (sleep_arrivals turn))%nat /\ slept ⊆+ sleep_arrivals turn).
    { unfold slept. destruct (decide _); [done|]. split; [cbn; lia|apply submseteq_nil_l]. }
    destruct (leader_turn_spec o enabled max (commit_io_ok turn) (refill_turns turn) (queue ++ slept) db)
      as (d1 & rest & db1 & Ht & Hperm & Hshort & Hb1 & Hp1); [done|done|by destruct queue|].
    rewrite length_app in Hshort.
    destruct (IH (rest ++ log_arrivals turn) db1) as (d2 & unused & db' & used & arrived & Hl & -> & Hp2 & S1 & S2 & Hb2).
    { eapply Forall_impl; [exact Hpend|]. cbn. intros t Hlt. lia. }
    { rewrite length_app. lia. }
    exists (d1 ++ d2), unused, db', (turn :: used), (slept ++ log_arrivals turn ++ arrived).
    split.
    { cbn [leader_loop]. destruct queue as [|q0 queue']; [done|].
      replace (if decide (0 < delay /\ (length (q0 :: queue') < max)%nat) then (q0 :: queue') ++ sleep_arrivals turn
        else q0 :: queue') with ((q0 :: queue') ++ slept) by (unfold slept; destruct (decide _); [done|apply app_nil_r]).
      rewrite Ht. cbn [mbind option_bind]. by rewrite Hl. }
    split; [done|]. split.
    { rewrite fmap_app, Hp2. transitivity (((res_req <$> d1) ++ rest) ++ log_arrivals turn ++ arrived);
        [by rewrite <- !(assoc (++))|]. by rewrite <- Hperm, <- !(assoc (++)). }
    rewrite !bind_cons. split; [|split].
    + by apply submseteq_inserts_l, submseteq_app.
    + unfold turn_arrivals at 1. rewrite <- (assoc (++)). apply submseteq_app; [apply Hslept|by apply submseteq_app].
    + by apply Forall_app.
Qed.

(** C24: the leader returns once every queued request is done: its own request
    and every request queued while the mutex was released are finished exactly
    once, whatever the MANIFEST writes return, the queue is empty when it leaves,
    and no batch exceeds the maximum. *)
Theorem CommitVirtualCompactionEdit_completes (o : Window.StallOptions) (enabled : bool)
    (batch_max delay : option Z) (turns : list LeaderTurn) (req : Request) (db : Db)
    (Hrefill : Forall (fun t => (length (Window.pending (win db)) < length (refill_turns t))%nat) turns)
    (Hturns : (1 + length (turns ≫= turn_arrivals) <= length turns)%nat)
    (Hids : NoDup (req_id <$> req :: (turns ≫= turn_arrivals))) :
  exists done unused db' used arrived,
    CommitVirtualCompactionEdit o enabled batch_max delay turns req db = Some (done, unused, db') /\
    turns = used ++ unused /\
    res_req <$> done ≡ₚ req :: arrived /\ NoDup (req_id <$> (res_req <$> done)) /\
    used ≫= log_arrivals ⊆+ arrived /\ arrived ⊆+ used ≫= turn_arrivals /\
    Forall (fun d => 1 <= batch_size d <= Z.max 1 (default 16 batch_max)) done.
Proof.
  unfold CommitVirtualCompactionEdit. set (max := Z.to_nat _).
  destruct (leader_loop_spec o enabled max (default 100 delay) ltac:(unfold max; lia) turns [req] db Hrefill Hturns)
    as (done & unused & db' & used & arrived & H1 & H2 & H3 & H4 & H5 & H6).
  exists done, unused, db', used, arrived. repeat (split; [assumption|]). split; [|split; [done|split; [done|]]].
  - eapply NoDup_sublist; [exact Hids|]. rewrite H3. apply fmap_submseteq. apply submseteq_skip.
    rewrite H5, H2, bind_app. apply submseteq_inserts_r. done.
  - eapply Forall_impl; [exact H6|]. unfold max. cbn. lia.
Qed.

Definition sample_req (id : Z) (inputs : list Z) (level out : Z) : Request :=
  mkReq id 0
    (Version.AddFile (level + 1) (Version.mkMeta out 100 [] [] 0 0 out)
       (fold_left (fun e n => Version.DeleteFile level n e) inputs Version.empty_edit))
    [(out, Window.sample_vsst)] inputs None 0 0 0 0.

Definition sample_db : Db :=
  mkDb Window.init
    (Window.register_batch (Window.sample_file <$> [1; 2]) Registry.init)
    (list_to_map ((fun n => (n, (1, Version.mkMeta n 100 [] [] 0 0 n))) <$> [1; 2])).

(** Three turns: the request, one that arrives during the sleep, one stale. *)
Definition sample_turns : list LeaderTurn :=
  [mkLeader [sample_req 2 [2] 1 11] true [Window.mkTurn 0 true] [sample_req 3 [1] 1 12];
   mkLeader [] true [Window.mkTurn 0 true] []; mkLeader [] true [Window.mkTurn 0 true] []].

Lemma CommitVirtualCompactionEdit_completes_witness :
  exists done unused db', CommitVirtualCompactionEdit Window.no_stall true None None sample_turns
      (sample_req 1 [1] 1 10) sample_db = Some (done, unused, db') /\
    (fun d => (req_id (res_req d), status d, batch_size d)) <$> done =
      [(1, OK, 2); (2, OK, 2); (3, OK, 1)] /\
    dom (ver db') = {[10; 11]} /\ Registry.Lookup 1 (reg db') = None.
Proof.
  destruct (CommitVirtualCompactionEdit_completes Window.no_stall true None None sample_turns
    (sample_req 1 [1] 1 10) sample_db) as (done & unused & db' & used & arrived & H & _).
  - repeat constructor.
  - cbn. lia.
  - apply (bool_decide_unpack _). by vm_compute.
  - exists done, unused, db'. split; [exact H|]. vm_compute in H. injection H as <- <- <-.
    split; [by vm_compute|]. split; [|by vm_compute]. apply (bool_decide_unpack _). by vm_compute.
Defined.

(** A compaction whose edit is committed is reported as failed when the refill
    that follows it fails: the file it wrote is live and registered. *)
Example refill_error_reported_for_committed_edit :
  let db := mkDb (Window.enqueue [Window.sample_file 7] (Window.ConfigureVirtualL0Window 100 1 false Window.init))
              (reg sample_db) (ver sample_db) in
  match CommitVirtualCompactionEdit Window.no_stall true None None
          [mkLeader [] true [Window.mkTurn 0 false] []] (sample_req 1 [1] 1 10) db with
  | Some (done, _, db') => status <$> done = [IOError] /\
      Version.GetFileLocation 10 (ver db') = Some 2 /\ Version.GetFileLocation 1 (ver db') = None /\
      Registry.IsVirtual 10 (reg db') = true
  | None => False
  end.
Proof. by vm_compute. Qed.

End Commit.
