(* ===== verification/System.v ===== *)
(** * The concurrent system of feeder, compactions and commit leader

    A step relation over the parts of [DBImpl] the virtual compaction shares
    between threads: the window, the registry, the version, the refills whose
    MANIFEST write is running and the commit queue with its leader
    ([db/db_impl/db_impl_compaction_flush.cc]).  A step is the code a thread runs
    while it holds the DB mutex, from one release of the mutex ([LogAndApply],
    the leader's sleep, a return) to the next; a [LogAndApply] takes effect and
    returns in one step.  File numbers come from [NewFileNumber], which never
    returns a number twice: [used] holds the numbers handed out. *)

From Stdlib Require Import ZArith Lia.
From stdpp Require Import base numbers list gmap.
From S2P Require Import Prelude Plr Kmv Registry Version Window Commit.

Local Open Scope Z_scope.

Module System.
Import Commit.

(** ** State *)

(** A call of [RefillVirtualL0WindowLocked] inside [LogAndApply]. *)
Record RefillThread := mkRefill {
  rt_leader : bool;
  rt_target : Z;
  rt_batch : list Window.WindowFile;
  rt_bytes : Z;
  rt_trickle : bool;
  rt_edit : Version.VersionEdit;
}.

(** The commit leader: none, at the head of its loop, inside the [LogAndApply]
    of a batch, inside the refill that follows it. *)
Inductive Phase :=
  | Idle
  | Looping
  | Logging (batch : list Request)
  | Refilling (batch : list Request).

Record Sys := mkSys {
  db : Db;
  refills : list RefillThread;
  queue : list Request;
  phase : Phase;
  results : list Result;
  submitted : list Request;
  used : gset Z;
}.

Definition set_db (d : Db) (s : Sys) : Sys :=
  mkSys d (refills s) (queue s) (phase s) (results s) (submitted s) (used s).
Definition set_refills (l : list RefillThread) (s : Sys) : Sys :=
  mkSys (db s) l (queue s) (phase s) (results s) (submitted s) (used s).
Definition set_phase (p : Phase) (s : Sys) : Sys :=
  mkSys (db s) (refills s) (queue s) p (results s) (submitted s) (used s).

(** ** Steps *)

Section Steps.
Context (o : Window.StallOptions) (enabled : bool) (max_batch_size : nat).

(** The end of a leader turn: the requests are done; an empty queue ends the
    leader. *)
Definition finish_commit (st : Status) (batch : list Request) (s : Sys) : Sys :=
  mkSys (db s) (refills s) (queue s) (if decide (queue s = []) then Idle else Looping)
    (results s ++ finish st (length batch) batch) (submitted s) (used s).

(** The return of a refill to the feeder or to the leader. *)
Definition refill_return (leader : bool) (st : Status) (s : Sys) : Sys :=
  if leader then match phase s with Refilling batch => finish_commit st batch s | _ => s end else s.

(** A turn of the refill loop up to [LogAndApply] or the return. *)
Definition refill_turn (leader : bool) (target needed : Z) (s : Sys) : Sys :=
  let d := db s in
  match Window.refill_begin o target needed (win d) (ver d) with
  | Window.RefillDone w => refill_return leader OK (set_db (mkDb w (reg d) (ver d)) s)
  | Window.RefillBatch w batch bytes trickle =>
      set_refills (mkRefill leader target batch bytes trickle (Window.l0_edit (reg d) batch) :: refills s)
        (set_db (mkDb w (Window.register_batch batch (reg d)) (ver d)) s)
  end.

Definition refill_start (leader : bool) (needed : Z) (s : Sys) : Sys :=
  let w := win (db s) in
  if negb enabled || bool_decide (Window.pending w = []) then refill_return leader OK s
  else refill_turn leader (Window.refill_target w) needed s.

Definition enqueue_files (files : list Window.WindowFile) (s : Sys) : Sys :=
  let d := db s in
  mkSys (mkDb (Window.enqueue files (win d)) (reg d) (ver d)) (refills s) (queue s) (phase s)
    (results s) (submitted s) (used s ∪ list_to_set (Window.numbers files)).

(** After the [LogAndApply] of a refill. *)
Definition refill_ok (t : RefillThread) (rest : list RefillThread) (v : Version.t) (needed : Z)
    (s : Sys) : Sys :=
  let d := db s in
  let s := set_refills rest
    (set_db (mkDb (Window.refill_applied (rt_batch t) (rt_bytes t) (win d)) (reg d) v) s) in
  if rt_trickle t then refill_return (rt_leader t) OK s
  else refill_turn (rt_leader t) (rt_target t) needed s.

Definition refill_fail (t : RefillThread) (rest : list RefillThread) (st : Status) (s : Sys) : Sys :=
  let d := db s in
  refill_return (rt_leader t) st (set_refills rest
    (set_db (mkDb (win d) (Window.remove_batch (rt_batch t) (reg d)) (ver d)) s)).

(** The numbers a request adds to the version. *)
Definition outs (r : Request) : list Z :=
  match moved_virtuals r with Some _ => [] | None => fst <$> pending_outputs r end.

(** The start of [CommitVirtualCompactionEdit]: queue the request and become the
    leader when there is none. *)
Definition submit (r : Request) (s : Sys) : Sys :=
  mkSys (db s) (refills s) (queue s ++ [r])
    (match phase s with Idle => Looping | p => p end) (results s) (submitted s ++ [r])
    (used s ∪ list_to_set (outs r)).

(** A turn of the leader up to [LogAndApply]. *)
Definition collect (front : Request) (needed : Z) (s : Sys) : Sys :=
  let '(batch, rest) := collect_batch max_batch_size (cfd front) (queue s) in
  let v := ver (db s) in
  let commit_batch := filter (fun r => is_current v r = true) batch in
  let stale := filter (fun r => is_current v r = false) batch in
  let s := mkSys (db s) (refills s) rest (phase s) (results s ++ finish OK (length batch) stale)
             (submitted s) (used s) in
  if decide (commit_batch = []) then refill_start true needed (set_phase (Refilling []) s)
  else set_phase (Logging commit_batch) s.

(** The rest of the turn. *)
Definition log_commit (io_ok : bool) (needed : Z) (batch : list Request) (s : Sys) : Sys :=
  let '(st, d) := log_batch io_ok batch (db s) in
  if decide (st = OK)
  then refill_start true needed (set_phase (Refilling batch)
         (set_db (mkDb (account_batch batch (win d)) (reg d) (ver d)) s))
  else finish_commit st batch (set_db d s).

(** *** Guards *)

Definition inflight (l : list RefillThread) : list Z := l ≫= fun t => Window.numbers (rt_batch t).
Definition inflight_files (l : list RefillThread) : list Window.WindowFile := l ≫= rt_batch.

(** The size of every file, by its number. *)
Context (fsize : Z -> Z).

(** Level-0 files of an edit, weighted. *)
Definition l0_deleted (g : Z -> Z) (l : list (Z * Z)) : Z :=
  foldr (fun d acc => (if decide (d.1 = 0) then g d.2 else 0) + acc) 0 l.
Definition l0_added (g : Z -> Z) (l : list (Z * Version.FileMetaData)) : Z :=
  foldr (fun d acc => (if decide (d.1 = 0) then g (Version.fd_number d.2) else 0) + acc) 0 l.

(** What a compaction or a trivial move puts into its request. *)
Record request_ok (r : Request) : Prop := {
  rq_removed : forall n, n ∈ Version.removed (edit r) <-> n ∈ input_file_numbers r;
  rq_added : match moved_virtuals r with
             | None => Version.added (edit r) = fst <$> pending_outputs r /\
                       forall n, n ∈ fst <$> pending_outputs r -> n ∉ input_file_numbers r
             | Some moved => Version.added (edit r) = fst <$> moved /\
                       forall n, n ∈ fst <$> moved <-> n ∈ input_file_numbers r
             end;
  rq_l0_in : l0_input_files r = l0_deleted (fun _ => 1) (Version.deleted_files (edit r)) /\
             l0_input_bytes r = l0_deleted fsize (Version.deleted_files (edit r));
  rq_l0_out : l0_output_files r = l0_added (fun _ => 1) (Version.new_files (edit r)) /\
              l0_output_bytes r = l0_added fsize (Version.new_files (edit r));
}.

(** The counters have room for the files that can still become visible and for
    the outputs of a batch. *)
Definition room (s : Sys) (batch : list Request) : Prop :=
  let w := win (db s) in
  let files := inflight_files (refills s) ++ Window.pending w in
  Window.visible_bytes w + Window.bytes_of files + foldr (fun r b => l0_output_bytes r + b) 0 batch <= u64_max /\
  Window.visible_files w + Z.of_nat (length files) + foldr (fun r b => l0_output_files r + b) 0 batch <= u64_max.

Inductive step (s : Sys) : Sys -> Prop :=
  | step_enqueue files needed :
      files <> [] -> NoDup (Window.numbers files) ->
      (forall n, n ∈ Window.numbers files -> n ∉ used s) ->
      Forall (fun f => 0 <= Window.file_size f /\ Window.file_size f = fsize (Window.file_number f)) files ->
      room (enqueue_files files s) [] ->
      step s (refill_start false needed (enqueue_files files s))
  | step_refill needed : step s (refill_start false needed s)
  | step_refill_ok l1 t l2 v needed :
      refills s = l1 ++ t :: l2 ->
      Version.LogAndApply true [rt_edit t] (ver (db s)) = Some v ->
      step s (refill_ok t (l1 ++ l2) v needed s)
  | step_refill_fail l1 t l2 io :
      refills s = l1 ++ t :: l2 ->
      Version.LogAndApply io [rt_edit t] (ver (db s)) = None ->
      step s (refill_fail t (l1 ++ l2) (Version.log_status io [rt_edit t] (ver (db s))) s)
  | step_submit r :
      request_ok r -> NoDup (outs r) -> (forall n, n ∈ outs r -> n ∉ used s) ->
      step s (submit r s)
  | step_collect front rest needed :
      phase s = Looping -> queue s = front :: rest ->
      step s (collect front needed s)
  | step_log io needed batch :
      phase s = Logging batch -> room s batch ->
      step s (log_commit io needed batch s).

(** A database after [ConfigureVirtualL0Window]. *)
Definition start (target max_files : Z) (backpressure : bool) : Sys :=
  mkSys (mkDb (Window.ConfigureVirtualL0Window target max_files backpressure Window.init) Registry.init ∅)
    [] [] Idle [] [] ∅.

Inductive reachable : Sys -> Prop :=
  | reach_start target max_files backpressure : is_u64 target ->
      reachable (start target max_files backpressure)
  | reach_step s s' : reachable s -> step s s' -> reachable s'.

End Steps.
(** ** Registry domains *)

Lemma Register_dom n v g : dom (Registry.registry_ (Registry.Register n v g)) =
  {[n]} ∪ dom (Registry.registry_ g).
Proof. cbn. by rewrite dom_insert_L. Qed.

Lemma Remove_dom n g : dom (Registry.registry_ (Registry.Remove n g)) = dom (Registry.registry_ g) ∖ {[n]}.
Proof.
  unfold Registry.Remove. destruct (Registry.registry_ g !! n) eqn:Hn; cbn; [by rewrite dom_delete_L|].
  apply not_elem_of_dom in Hn. set_solver.
Qed.

Lemma register_all_dom l g : dom (Registry.registry_ (fold_left (fun g '(n, v) => Registry.Register n v g) l g)) =
  dom (Registry.registry_ g) ∪ list_to_set (fst <$> l).
Proof.
  revert g. induction l as [|[n v] l IH]; intros g; cbn [fold_left fmap list_fmap list_to_set fst]; [set_solver|].
  rewrite IH, Register_dom. set_solver.
Qed.

Lemma remove_all_dom l g : dom (Registry.registry_ (fold_left (fun g n => Registry.Remove n g) l g)) =
  dom (Registry.registry_ g) ∖ list_to_set l.
Proof.
  revert g. induction l as [|n l IH]; intros g; cbn [fold_left list_to_set]; [set_solver|].
  rewrite IH, Remove_dom. set_solver.
Qed.

Lemma register_batch_dom batch g : dom (Registry.registry_ (Window.register_batch batch g)) =
  dom (Registry.registry_ g) ∪ list_to_set (Window.numbers batch).
Proof.
  unfold Window.register_batch. revert g. induction batch as [|f batch IH]; intros g;
    cbn [fold_left Window.numbers fmap list_fmap list_to_set]; [set_solver|].
  rewrite IH, Register_dom. unfold Window.numbers. set_solver.
Qed.

Lemma remove_batch_dom batch g : dom (Registry.registry_ (Window.remove_batch batch g)) =
  dom (Registry.registry_ g) ∖ list_to_set (Window.numbers batch).
Proof.
  unfold Window.remove_batch. revert g. induction batch as [|f batch IH]; intros g;
    cbn [fold_left Window.numbers fmap list_fmap list_to_set]; [set_solver|].
  rewrite IH, Remove_dom. unfold Window.numbers. set_solver.
Qed.

(** Publishing a request keeps the registry in step with the version. *)
Lemma publish_dom fsize r g v v' X : request_ok fsize r -> Version.Apply (edit r) v = Some v' ->
  dom (Registry.registry_ g) = dom v ∪ X -> X ## dom v ->
  dom (Registry.registry_ (publish r g)) = dom v' ∪ X.
Proof.
  intros [Hrem Hadd _ _] Ha Hg HX. rewrite (Version.Apply_dom _ _ _ Ha).
  apply Version.Apply_spec in Ha as (Hin & _).
  assert (Hr : list_to_set (Version.removed (edit r)) =@{gset Z} list_to_set (input_file_numbers r)).
  { apply set_eq. intros n. rewrite !elem_of_list_to_set. apply Hrem. }
  assert (Hsub : list_to_set (input_file_numbers r) ⊆ dom v).
  { intros n. rewrite elem_of_list_to_set, <- Hrem. apply Hin. }
  rewrite Hr. unfold publish. destruct (moved_virtuals r) as [moved|]; destruct Hadd as [-> Hadd].
  - rewrite register_all_dom, Hg.
    assert (list_to_set (fst <$> moved) =@{gset Z} list_to_set (input_file_numbers r)) as ->.
    { apply set_eq. intros n. rewrite !elem_of_list_to_set. apply Hadd. }
    apply set_eq. intros n. specialize (Hsub n). rewrite !elem_of_union, elem_of_difference.
    destruct (decide (n ∈@{gset Z} list_to_set (input_file_numbers r))); tauto.
  - rewrite remove_all_dom, register_all_dom, Hg.
    assert (Hd : list_to_set (fst <$> pending_outputs r) ##@{gset Z} list_to_set (input_file_numbers r)).
    { intros n. rewrite !elem_of_list_to_set. intros H1 H2. by apply (Hadd n). }
    apply set_eq. intros n. specialize (Hsub n). specialize (Hd n). specialize (HX n).
    rewrite ?elem_of_union, ?elem_of_difference, ?elem_of_union. destruct (decide (n ∈@{gset Z} list_to_set (input_file_numbers r))); tauto.
Qed.

(** ** Weight of the level-0 files *)

Definition l0_sum (g : Z -> Z) (v : Version.t) : Z :=
  map_fold (fun n lf acc => (if decide (lf.1 = 0) then g n else 0) + acc) 0 v.

Lemma l0_sum_insert g v n lf : v !! n = None ->
  l0_sum g (<[n := lf]> v) = (if decide (lf.1 = 0) then g n else 0) + l0_sum g v.
Proof. intros Hn. unfold l0_sum. rewrite map_fold_insert_L; [done| |done]. intros. lia. Qed.

Lemma l0_sum_delete g v n lf : v !! n = Some lf ->
  l0_sum g v = (if decide (lf.1 = 0) then g n else 0) + l0_sum g (delete n v).
Proof. intros Hn. unfold l0_sum. rewrite (map_fold_delete_L _ _ n lf v); [done|intros; lia|done]. Qed.

Lemma l0_sum_nonneg g v : (forall n, 0 <= g n) -> 0 <= l0_sum g v.
Proof.
  intros Hg. unfold l0_sum. apply (map_fold_weak_ind (fun acc _ => 0 <= acc)); [done|].
  intros n lf m r _ Hr. specialize (Hg n). destruct (decide _); lia.
Qed.

Lemma apply_deletions_l0 g l v v' : Version.apply_deletions l v = Some v' ->
  l0_sum g v = l0_deleted g l + l0_sum g v'.
Proof.
  revert v. induction l as [|[level n] l IH]; intros v; cbn [Version.apply_deletions].
  - intros [= ->]. done.
  - unfold Version.ApplyFileDeletion, Version.GetFileLocation.
    destruct (decide _) as [Hl|]; cbn [mbind option_bind]; [|done]. intros H%IH.
    destruct (v !! n) as [lf|] eqn:Hn; cbn in Hl; [|done]. injection Hl as Hl.
    rewrite (l0_sum_delete g v n lf Hn), H. cbn [l0_deleted foldr fst snd]. subst level.
    fold (l0_deleted g l). lia.
Qed.

Lemma apply_additions_l0 g l v v' : Version.apply_additions l v = Some v' ->
  l0_sum g v' = l0_added g l + l0_sum g v.
Proof.
  revert v. induction l as [|[level f] l IH]; intros v; cbn [Version.apply_additions].
  - intros [= ->]. done.
  - unfold Version.ApplyFileAddition, Version.GetFileLocation.
    destruct (v !! Version.fd_number f) eqn:Hn; cbn [fmap option_fmap option_map mbind option_bind]; [done|].
    intros ->%IH. rewrite l0_sum_insert by done. cbn [l0_added foldr fst snd]. fold (l0_added g l). lia.
Qed.

Lemma Apply_l0 g e v v' : Version.Apply e v = Some v' ->
  l0_sum g v' = l0_sum g v - l0_deleted g (Version.deleted_files e) + l0_added g (Version.new_files e) /\
  ((forall n, 0 <= g n) -> l0_deleted g (Version.deleted_files e) <= l0_sum g v).
Proof.
  unfold Version.Apply. destruct (Version.apply_deletions _ v) as [u|] eqn:Hd; cbn [mbind option_bind]; [|done].
  intros Ha. rewrite (apply_additions_l0 g _ _ _ Ha), (apply_deletions_l0 g _ _ _ Hd).
  split; [lia|]. intros Hg. pose proof (l0_sum_nonneg g u Hg). lia.
Qed.

Lemma l0_added_nonneg g l : (forall n, 0 <= g n) -> 0 <= l0_added g l.
Proof.
  intros Hg. induction l as [|d l IH]; cbn [l0_added foldr]; [done|]. fold (l0_added g l).
  specialize (Hg (Version.fd_number d.2)). destruct (decide _); lia.
Qed.

Lemma l0_deleted_nonneg g l : (forall n, 0 <= g n) -> 0 <= l0_deleted g l.
Proof.
  intros Hg. induction l as [|d l IH]; cbn [l0_deleted foldr]; [done|]. fold (l0_deleted g l).
  specialize (Hg d.2). destruct (decide _); lia.
Qed.

(** ** Invariant *)

(** Requests whose edit is not applied yet, and requests the leader holds. *)
Definition waiting (p : Phase) : list Request := match p with Logging b => b | _ => [] end.
Definition in_hand (p : Phase) : list Request :=
  match p with Logging b | Refilling b => b | _ => [] end.

(** Projections of an updated state. *)
Ltac sys_cbn := cbn [set_refills set_db set_phase db win reg ver refills queue phase results submitted used
  waiting in_hand rt_batch rt_bytes rt_edit rt_target Window.pending] in *.

(** Numbers handed out for files that are not live yet. *)
Definition fresh_numbers (s : Sys) : list Z :=
  Window.numbers (Window.pending (win (db s))) ++ inflight (refills s) ++
  ((waiting (phase s) ++ queue s) ≫= outs).

Definition fresh_ok (l : list Z) (v : Version.t) (u : gset Z) : Prop :=
  NoDup l /\ forall n, n ∈ l -> (n ∉ dom v) /\ n ∈ u.

Section Invariant.
Context (o : Window.StallOptions) (enabled : bool) (max_batch_size : nat) (fsize : Z -> Z).
Context (Hfsize : forall n, 0 <= fsize n).

Definition thread_ok (t : RefillThread) : Prop :=
  (exists g, rt_edit t = Window.l0_edit g (rt_batch t)) /\
  rt_bytes t = Window.bytes_of (rt_batch t) /\ rt_target t <= u64_max.

Record window_ok (w : Window.t) (v : Version.t) (files : list Window.WindowFile) : Prop := {
  wo_pending : Window.pending_bytes w = Window.bytes_of (Window.pending w);
  wo_cap : 1 <= Window.max_register_batch_files w;
  wo_target : Window.target_visible_bytes w <= u64_max;
  wo_bytes : Window.visible_bytes w = l0_sum fsize v;
  wo_files : Window.visible_files w = l0_sum (fun _ => 1) v;
  wo_sizes : Forall (fun f => 0 <= Window.file_size f /\ Window.file_size f = fsize (Window.file_number f))
               (files ++ Window.pending w);
  wo_room : Window.visible_bytes w + Window.bytes_of (files ++ Window.pending w) <= u64_max /\
            Window.visible_files w + Z.of_nat (length (files ++ Window.pending w)) <= u64_max;
}.

Record inv (s : Sys) : Prop := {
  i_dom : dom (Registry.registry_ (reg (db s))) = dom (ver (db s)) ∪ list_to_set (inflight (refills s));
  i_fresh : fresh_ok (fresh_numbers s) (ver (db s)) (used s);
  i_used : dom (ver (db s)) ⊆ used s;
  i_reqs : Forall (request_ok fsize) (waiting (phase s) ++ queue s);
  i_threads : Forall thread_ok (refills s);
  i_once : (res_req <$> results s) ++ in_hand (phase s) ++ queue s ≡ₚ submitted s;
  i_idle : phase s = Idle -> queue s = [];
  i_window : window_ok (win (db s)) (ver (db s)) (inflight_files (refills s));
}.

Lemma fresh_ok_sub l l' v u : l' ⊆+ l -> fresh_ok l v u -> fresh_ok l' v u.
Proof.
  intros Hs [Hnd Hin]. split; [by eapply NoDup_sublist|]. intros n Hn. apply Hin. by eapply elem_of_submseteq.
Qed.

Lemma window_ok_wf w v files : window_ok w v files -> Window.wf w.
Proof.
  intros [H1 H2 H3 H4 H5 H6 H7]. apply Forall_app in H6 as [Ha Hb].
  rewrite Window.bytes_of_app, length_app in H7.
  assert (Hsz : forall l, Forall (fun f => 0 <= Window.file_size f /\ Window.file_size f = fsize (Window.file_number f)) l ->
    Forall (fun f => 0 <= Window.file_size f) l) by (intros l Hl; eapply Forall_impl; [exact Hl|]; cbn; tauto).
  pose proof (Window.bytes_of_nonneg _ (Hsz _ Ha)). pose proof (l0_sum_nonneg fsize v Hfsize).
  pose proof (l0_sum_nonneg (fun _ => 1) v ltac:(done)).
  split; [done|by apply Hsz|lia|lia|done].
Qed.

Lemma finish_commit_inv st s : inv s -> inv (finish_commit st (in_hand (phase s)) s).
Proof.
  intros [H1 H2 H3 H4 H5 H6 H7 H8]. unfold finish_commit.
  set (p := if decide _ then Idle else Looping).
  assert (Hp : waiting p = [] /\ in_hand p = []) by (unfold p; by destruct (decide _)).
  destruct Hp as [Hp Hp']. split; cbn; rewrite ?Hp, ?Hp'; try done.
  - eapply fresh_ok_sub; [|exact H2]. unfold fresh_numbers. cbn. rewrite Hp. cbn.
    apply submseteq_app; [done|]. apply submseteq_app; [done|]. rewrite bind_app. by apply submseteq_inserts_l.
  - by apply Forall_app in H4 as [_ ?].
  - rewrite fmap_app, finish_reqs. cbn. by rewrite <- app_assoc.
  - unfold p. by destruct (decide _).
Qed.

Lemma refill_return_inv leader st s : inv s -> inv (refill_return leader st s).
Proof.
  intros H. unfold refill_return. destruct leader; [|done].
  pose proof (finish_commit_inv st s H) as Hf. by destruct (phase s).
Qed.

Lemma set_stats_inv st s : inv s ->
  inv (set_db (mkDb (Window.set_stats st (win (db s))) (reg (db s)) (ver (db s))) s).
Proof. intros [H1 H2 H3 H4 H5 H6 H7 [W1 W2 W3 W4 W5 W6 W7]]. by split. Qed.

Lemma refill_turn_inv leader target needed s : inv s -> target <= u64_max ->
  inv (refill_turn o leader target needed s).
Proof.
  intros Hinv Ht. unfold refill_turn.
  pose proof (Window.refill_begin_spec o target needed (win (db s)) (ver (db s))
    (window_ok_wf _ _ _ (i_window s Hinv)) Ht) as Hb.
  destruct (Window.refill_begin _ _ _ _ _) as [w|w batch bytes trickle].
  { destruct Hb as [[st ->] _]. by apply refill_return_inv, set_stats_inv. }
  destruct Hb as [(st & rest & Hq & ->) (_ & -> & _)].
  destruct Hinv as [H1 H2 H3 H4 H5 H6 H7 [W1 W2 W3 W4 W5 W6 W7]].
  split; sys_cbn; try done.
  - rewrite register_batch_dom, H1. unfold inflight. rewrite bind_cons, list_to_set_app_L. set_solver.
  - eapply fresh_ok_sub; [|exact H2]. unfold fresh_numbers. sys_cbn. unfold inflight. rewrite bind_cons. sys_cbn.
    rewrite Hq. unfold Window.numbers. rewrite fmap_app. solve_submseteq.
  - constructor; [|done]. repeat split; [by eexists|done].
  - unfold inflight_files in *. rewrite bind_cons. cbn [rt_batch].
    assert (Hp : (batch ++ (refills s ≫= rt_batch)) ++ rest ≡ₚ (refills s ≫= rt_batch) ++ batch ++ rest) by solve_Permutation.
    rewrite Hq in W6, W7. split; cbn -[Window.bytes_of]; try done.
    + by rewrite Hp.
    + rewrite (Permutation_length Hp). rewrite !Window.bytes_of_app in *. lia.
Qed.

Lemma refill_start_inv leader needed s : inv s -> inv (refill_start o enabled leader needed s).
Proof.
  intros H. unfold refill_start. destruct (_ || _); [by apply refill_return_inv|].
  apply refill_turn_inv; [done|]. apply Window.refill_target_max; [|by apply H].
  eapply window_ok_wf. by apply H.
Qed.

Lemma set_refilling_inv s : inv s -> in_hand (phase s) = [] -> waiting (phase s) = [] ->
  inv (set_phase (Refilling []) s).
Proof.
  intros [H1 H2 H3 H4 H5 H6 H7 H8] Hp Hw. unfold fresh_numbers in *. rewrite Hp in H6. rewrite Hw in H2, H4. by split.
Qed.

Lemma fresh_ok_add l l2 v u : fresh_ok l v u -> NoDup l2 -> (forall n, n ∈ l2 -> n ∉ u) -> dom v ⊆ u ->
  fresh_ok (l2 ++ l) v (u ∪ list_to_set l2).
Proof.
  intros [Hnd Hin] H2 Hnew Hv. split.
  - apply NoDup_app. split; [done|]. split; [|done]. intros n Hn Hl. apply (Hnew n Hn). by apply Hin.
  - intros n [Hn|Hn]%elem_of_app; [|destruct (Hin n Hn); set_solver].
    specialize (Hnew n Hn). set_solver.
Qed.

Lemma enqueue_files_inv files s : inv s -> NoDup (Window.numbers files) ->
  (forall n, n ∈ Window.numbers files -> n ∉ used s) ->
  Forall (fun f => 0 <= Window.file_size f /\ Window.file_size f = fsize (Window.file_number f)) files ->
  room (enqueue_files files s) [] -> inv (enqueue_files files s).
Proof.
  intros Hinv Hnd Hnew Hsz Hroom. pose proof (window_ok_wf _ _ _ (i_window s Hinv)) as Hwf.
  destruct Hinv as [H1 H2 H3 H4 H5 H6 H7 [W1 W2 W3 W4 W5 W6 W7]].
  destruct Hroom as [R1 R2]. cbn [enqueue_files db win refills foldr] in R1, R2.
  apply Forall_app in W6 as [W6 W6'].
  assert (Hpos : forall l, Forall (fun f => 0 <= Window.file_size f /\ Window.file_size f = fsize (Window.file_number f)) l ->
    Forall (fun f => 0 <= Window.file_size f) l) by (intros l Hl; eapply Forall_impl; [exact Hl|]; cbn; tauto).
  pose proof (Window.bytes_of_nonneg _ (Hpos _ W6)).
  assert (Hpf : Window.pending (Window.enqueue files (win (db s))) = Window.pending (win (db s)) ++ files /\
    Window.visible_bytes (Window.enqueue files (win (db s))) = Window.visible_bytes (win (db s)) /\
    Window.visible_files (Window.enqueue files (win (db s))) = Window.visible_files (win (db s))).
  { unfold Window.enqueue. by destruct (fold_left _ files _). }
  destruct Hpf as (Hp & Hvb & Hvf). rewrite Hp, Hvb, Window.bytes_of_app in R1. rewrite Hp, Hvf, length_app in R2.
  destruct (Window.enqueue_spec files (win (db s)) Hwf (Hpos _ Hsz)) as (E1 & _ & _ & _ & E5 & _); [lia..|].
  split; unfold enqueue_files; sys_cbn; try done.
  - eapply fresh_ok_sub; [|apply (fresh_ok_add (fresh_numbers s) (Window.numbers files)); done].
    unfold fresh_numbers. sys_cbn. rewrite Hp. unfold Window.numbers. rewrite fmap_app. solve_submseteq.
  - set_solver.
  - split; rewrite ?Hp, ?Hvb, ?Hvf, ?E5; try done.
    + rewrite <- Hp. apply E1.
    + apply E1.
    + apply Forall_app. split; [done|]. by apply Forall_app.
    + rewrite Window.bytes_of_app, length_app. lia.
Qed.

Lemma l0_edit_weight g r batch : l0_added g (Version.new_files (Window.l0_edit r batch)) =
  foldr (fun f acc => g (Window.file_number f) + acc) 0 batch.
Proof.
  rewrite (proj1 (Window.l0_edit_files r batch)). induction batch as [|f batch IH]; [done|].
  cbn [fmap list_fmap l0_added foldr fst snd]. unfold l0_added in IH. rewrite IH. by rewrite decide_True by done.
Qed.

Lemma l0_edit_apply r batch v v' : Version.LogAndApply true [Window.l0_edit r batch] v = Some v' ->
  dom v' = dom v ∪ list_to_set (Window.numbers batch) /\
  forall g, l0_sum g v' = l0_sum g v + foldr (fun f acc => g (Window.file_number f) + acc) 0 batch.
Proof.
  cbn [Version.LogAndApply Version.apply_edits]. intros H.
  destruct (Version.Apply _ v) as [u|] eqn:Ha; [|done]. injection H as ->.
  destruct (Window.l0_edit_files r batch) as [_ Hd]. split.
  - rewrite (Version.Apply_dom _ _ _ Ha), Window.l0_edit_added. unfold Version.removed. rewrite Hd. set_solver.
  - intros g. destruct (Apply_l0 g _ _ _ Ha) as [-> _]. rewrite l0_edit_weight, Hd. cbn. lia.
Qed.

Lemma sizes_nonneg l :
  Forall (fun f => 0 <= Window.file_size f /\ Window.file_size f = fsize (Window.file_number f)) l ->
  Forall (fun f => 0 <= Window.file_size f) l /\ 0 <= Window.bytes_of l /\
  Window.bytes_of l = foldr (fun f acc => fsize (Window.file_number f) + acc) 0 l.
Proof.
  intros Hl. assert (Forall (fun f => 0 <= Window.file_size f) l)
    by (eapply Forall_impl; [exact Hl|]; cbn; tauto).
  split; [done|]. split; [by apply Window.bytes_of_nonneg|].
  induction Hl as [|f l [_ Hf] _ IH]; cbn; [done|]. unfold Window.bytes_of in IH. rewrite Hf, IH; [done|].
  by apply Forall_cons_iff in H as [_ ?].
Qed.

Lemma window_ok_applied w v v' batch files rest : window_ok w v files -> files ≡ₚ batch ++ rest ->
  (forall g, l0_sum g v' = l0_sum g v + foldr (fun f acc => g (Window.file_number f) + acc) 0 batch) ->
  window_ok (Window.refill_applied batch (Window.bytes_of batch) w) v' rest.
Proof.
  intros [W1 W2 W3 W4 W5 W6 W7] Hif Hsum.
  assert (Hpb : Window.bytes_of (files ++ Window.pending w) =
    Window.bytes_of batch + Window.bytes_of (rest ++ Window.pending w)).
  { by rewrite <- Window.bytes_of_app, Hif, app_assoc. }
  assert (Hpl : length (files ++ Window.pending w) = (length batch + length (rest ++ Window.pending w))%nat).
  { rewrite Hif, <- app_assoc, length_app. done. }
  rewrite Hif, <- app_assoc in W6. apply Forall_app in W6 as [Wb Wr].
  destruct (sizes_nonneg _ Wb) as (_ & B1 & B2). destruct (sizes_nonneg _ Wr) as (_ & R1 & _).
  assert (Hlen : foldr (fun (f : Window.WindowFile) acc => 1 + acc) 0 batch = Z.of_nat (length batch)).
  { clear. induction batch as [|f l IH]; cbn [foldr length]; [done|]. rewrite IH. lia. }
  pose proof (l0_sum_nonneg fsize v Hfsize). pose proof (l0_sum_nonneg (fun _ => 1) v ltac:(done)).
  rewrite Hpb, Hpl in W7. split; cbn -[Window.bytes_of Z.of_nat]; try done.
  - rewrite u64_small by solve_u64. rewrite Hsum, W4, B2. lia.
  - rewrite u64_small by solve_u64. rewrite Hsum, W5, Hlen. lia.
  - rewrite !u64_small by solve_u64. lia.
Qed.

(** The state after the edit of a refill took effect. *)
Lemma refill_applied_inv s l1 t l2 v : inv s -> refills s = l1 ++ t :: l2 ->
  Version.LogAndApply true [rt_edit t] (ver (db s)) = Some v ->
  inv (set_refills (l1 ++ l2)
    (set_db (mkDb (Window.refill_applied (rt_batch t) (rt_bytes t) (win (db s))) (reg (db s)) v) s)).
Proof.
  intros [H1 H2 H3 H4 H5 H6 H7 [W1 W2 W3 W4 W5 W6 W7]] Hr Hlog. rewrite Hr in *.
  apply Forall_app in H5 as [T1 [T T2]%Forall_cons_iff]. destruct T as ([g Hg] & Hb & _).
  rewrite Hg in Hlog. apply l0_edit_apply in Hlog as [Hdom Hsum].
  assert (Hin : forall f : RefillThread -> list Z, (l1 ++ t :: l2) ≫= f ≡ₚ f t ++ ((l1 ++ l2) ≫= f)).
  { intros f. rewrite !bind_app, bind_cons. solve_Permutation. }
  assert (Hif : inflight_files (l1 ++ t :: l2) ≡ₚ rt_batch t ++ inflight_files (l1 ++ l2)).
  { unfold inflight_files. rewrite !bind_app, bind_cons. solve_Permutation. }
  set (batch := rt_batch t) in *.
  assert (Hmem : forall n, n ∈ inflight (l1 ++ t :: l2) <-> n ∈ Window.numbers batch \/ n ∈ inflight (l1 ++ l2)).
  { intros n. unfold inflight. rewrite Hin, elem_of_app. done. }
  assert (Hfr : fresh_ok (Window.numbers batch ++ fresh_numbers (set_refills (l1 ++ l2) s)) (ver (db s)) (used s)).
  { eapply fresh_ok_sub; [|exact H2]. unfold fresh_numbers. sys_cbn. rewrite Hr. unfold inflight. rewrite Hin. solve_submseteq. }
  destruct Hfr as [[_ [Hdis Hnd]]%NoDup_app Hnew].
  split; sys_cbn; try done.
  - rewrite H1, Hdom. apply set_eq. intros n. rewrite !elem_of_union, !elem_of_list_to_set, Hmem. tauto.
  - split; [exact Hnd|]. intros n Hn. destruct (Hnew n) as [Hd Hu]; [apply elem_of_app; by right|].
    split; [|done]. rewrite Hdom, not_elem_of_union. split; [done|]. rewrite elem_of_list_to_set.
    intros Hc. by apply (Hdis n Hc).
  - rewrite Hdom. intros n [Hn|Hn]%elem_of_union; [by apply H3|].
    apply elem_of_list_to_set in Hn. apply (Hnew n). apply elem_of_app. by left.
  - by apply Forall_app.
  - rewrite Hb. eapply window_ok_applied; [by split| |exact Hsum]. exact Hif.
Qed.

(** The state after a failed refill took its batch out of the registry. *)
Lemma refill_removed_inv s l1 t l2 : inv s -> refills s = l1 ++ t :: l2 ->
  inv (set_refills (l1 ++ l2)
    (set_db (mkDb (win (db s)) (Window.remove_batch (rt_batch t) (reg (db s))) (ver (db s))) s)).
Proof.
  intros [H1 H2 H3 H4 H5 H6 H7 [W1 W2 W3 W4 W5 W6 W7]] Hr.
  assert (Hin : inflight (refills s) ≡ₚ Window.numbers (rt_batch t) ++ inflight (l1 ++ l2)).
  { rewrite Hr. unfold inflight. rewrite !bind_app, bind_cons. solve_Permutation. }
  assert (Hif : inflight_files (refills s) ≡ₚ rt_batch t ++ inflight_files (l1 ++ l2)).
  { rewrite Hr. unfold inflight_files. rewrite !bind_app, bind_cons. solve_Permutation. }
  assert (Hfr : fresh_ok (Window.numbers (rt_batch t) ++ fresh_numbers (set_refills (l1 ++ l2) s)) (ver (db s)) (used s)).
  { eapply fresh_ok_sub; [|exact H2]. unfold fresh_numbers. sys_cbn. rewrite Hin. solve_submseteq. }
  destruct Hfr as [[_ [Hdis Hnd]]%NoDup_app Hnew].
  split; sys_cbn; try done.
  - rewrite remove_batch_dom, H1. apply set_eq. intros n.
    rewrite elem_of_difference, !elem_of_union, !elem_of_list_to_set, Hin, elem_of_app.
    specialize (Hnew n). specialize (Hdis n). unfold fresh_numbers in *. sys_cbn. rewrite !elem_of_app in *. tauto.
  - split; [exact Hnd|]. intros n Hn. apply Hnew, elem_of_app. by right.
  - rewrite Hr in H5. apply Forall_app in H5 as [T1 [_ T2]%Forall_cons_iff]. by apply Forall_app.
  - rewrite Hif, <- app_assoc in W6, W7. rewrite Window.bytes_of_app, length_app in W7.
    apply Forall_app in W6 as [Wb Wr]. destruct (sizes_nonneg _ Wb) as (_ & B1 & _).
    split; try done. lia.
Qed.

Lemma submit_inv r s : inv s -> request_ok fsize r -> NoDup (outs r) ->
  (forall n, n ∈ outs r -> n ∉ used s) -> inv (submit r s).
Proof.
  intros [H1 H2 H3 H4 H5 H6 H7 H8] Hr Hnd Hnew.
  assert (Hph : waiting (match phase s with Idle => Looping | p => p end) = waiting (phase s) /\
    in_hand (match phase s with Idle => Looping | p => p end) = in_hand (phase s)) by (by destruct (phase s)).
  destruct Hph as [Hw Hi]. split; unfold submit; sys_cbn; rewrite ?Hw, ?Hi; try done.
  - eapply fresh_ok_sub; [|by apply (fresh_ok_add (fresh_numbers s) (outs r))].
    unfold fresh_numbers. sys_cbn. rewrite Hw, !bind_app. cbn. rewrite app_nil_r. solve_submseteq.
  - set_solver.
  - rewrite app_assoc. apply Forall_app. split; [done|]. by constructor.
  - rewrite <- H6. solve_Permutation.
  - by destruct (phase s).
Qed.

Lemma collect_inv front rest needed s : inv s -> phase s = Looping -> queue s = front :: rest ->
  inv (collect o enabled max_batch_size front needed s).
Proof.
  intros [H1 H2 H3 H4 H5 H6 H7 H8] Hp Hq. unfold collect.
  destruct (collect_batch max_batch_size (cfd front) (queue s)) as [batch q] eqn:Hc.
  apply collect_batch_spec in Hc as (Hqueue & _ & _).
  pose proof (split_current (ver (db s)) batch) as Hsplit.
  set (commit := filter (fun r => is_current (ver (db s)) r = true) batch) in *.
  set (stale := filter (fun r => is_current (ver (db s)) r = false) batch) in *.
  set (s1 := mkSys _ _ q _ _ _ _).
  assert (Hinv : inv (set_phase (Logging commit) s1)).
  { unfold fresh_numbers in H2. rewrite Hp in H2, H4, H6. sys_cbn. rewrite Hqueue in H2, H4, H6.
    rewrite app_nil_l, bind_app in H2.
    assert (Hcs : commit ⊆+ batch) by (rewrite Hsplit; by apply submseteq_inserts_l).
    split; unfold s1; sys_cbn; try done.
    - eapply fresh_ok_sub; [|exact H2]. unfold fresh_numbers. sys_cbn. rewrite bind_app.
      apply submseteq_app; [done|]. apply submseteq_app; [done|]. apply submseteq_app; [|done].
      rewrite Hsplit, bind_app. by apply submseteq_inserts_l.
    - cbn in H4. apply Forall_app in H4 as [Hb Hr]. apply Forall_app. split; [|done].
      rewrite Forall_forall in Hb |- *. intros r Hin. apply Hb. by eapply elem_of_submseteq.
    - rewrite fmap_app, finish_reqs, <- H6. cbn. rewrite <- app_assoc. apply Permutation_app; [done|].
      rewrite app_assoc. by rewrite <- Hsplit. }
  destruct (decide (commit = [])) as [He|]; [|done].
  apply refill_start_inv. rewrite He in Hinv. destruct Hinv. by split.
Qed.

(** Applying and publishing a batch. *)
Lemma apply_batch batch : forall v v' g X, Forall (request_ok fsize) batch ->
  Version.apply_edits (edit <$> batch) v = Some v' ->
  dom (Registry.registry_ g) = dom v ∪ X -> X ## dom v ->
  (forall n, n ∈ batch ≫= outs -> n ∉ X) ->
  dom (Registry.registry_ (fold_left (fun g r => publish r g) batch g)) = dom v' ∪ X /\ X ## dom v' /\
  dom v' ⊆ dom v ∪ list_to_set (batch ≫= outs).
Proof.
  induction batch as [|r batch IH]; intros v v' g X Hok Hap Hg HX Hout; cbn [fmap list_fmap Version.apply_edits fold_left] in *.
  - injection Hap as <-. split; [done|]. split; [done|]. set_solver.
  - apply Forall_cons_iff in Hok as [Hr Hok]. destruct (Version.Apply (edit r) v) as [u|] eqn:Ha; [|done].
    cbn [mbind option_bind] in Hap. rewrite bind_cons in Hout.
    pose proof (publish_dom fsize r g v u X Hr Ha Hg HX) as Hg'.
    assert (Hu : dom u ⊆ dom v ∪ list_to_set (outs r)).
    { rewrite (Version.Apply_dom _ _ _ Ha). apply Version.Apply_spec in Ha as (Hin & _).
      destruct Hr as [Hrem Hadd _ _]. unfold outs. destruct (moved_virtuals r); destruct Hadd as [-> Hadd]; [|set_solver].
      intros n [Hn|Hn]%elem_of_union; [set_solver|]. apply elem_of_list_to_set, Hadd, Hrem, Hin in Hn. set_solver. }
    destruct (IH u v' (publish r g) X Hok Hap Hg') as (D1 & D2 & D3).
    + intros n Hn Hd. apply Hu, elem_of_union in Hd as [Hd|Hd]; [by apply (HX n)|].
      apply elem_of_list_to_set in Hd. apply (Hout n); [|done]. apply elem_of_app. by left.
    + intros n Hn. apply Hout, elem_of_app. by right.
    + split; [done|]. split; [done|]. rewrite bind_cons, list_to_set_app_L.
      intros n Hn. rewrite !elem_of_union. apply D3, elem_of_union in Hn as [Hn|Hn]; [|tauto].
      apply Hu, elem_of_union in Hn. tauto.
Qed.

(** Accounting a batch that was applied. *)
Lemma account_exact w fi bi fo bo :
  0 <= fi <= Window.visible_files w -> 0 <= bi <= Window.visible_bytes w -> 0 <= fo -> 0 <= bo ->
  Window.visible_files w + fo <= u64_max -> Window.visible_bytes w + bo <= u64_max ->
  Window.visible_files (Window.AccountVirtualL0CompactionLocked fi bi fo bo w) = Window.visible_files w - fi + fo /\
  Window.visible_bytes (Window.AccountVirtualL0CompactionLocked fi bi fo bo w) = Window.visible_bytes w - bi + bo.
Proof.
  intros. unfold Window.AccountVirtualL0CompactionLocked. cbn. rewrite !decide_False by lia.
  rewrite !u64_small by solve_u64. done.
Qed.

Lemma account_batch_ok batch files : forall w v v', Forall (request_ok fsize) batch ->
  Version.apply_edits (edit <$> batch) v = Some v' -> window_ok w v files ->
  Window.visible_bytes w + Window.bytes_of (files ++ Window.pending w) +
    foldr (fun r b => l0_output_bytes r + b) 0 batch <= u64_max ->
  Window.visible_files w + Z.of_nat (length (files ++ Window.pending w)) +
    foldr (fun r b => l0_output_files r + b) 0 batch <= u64_max ->
  window_ok (account_batch batch w) v' files.
Proof.
  induction batch as [|r batch IH]; intros w v v' Hok Hap Hw Hb Hf; cbn [fmap list_fmap Version.apply_edits] in Hap.
  - injection Hap as <-. done.
  - apply Forall_cons_iff in Hok as [Hr Hok]. destruct (Version.Apply (edit r) v) as [u|] eqn:Ha; [|done].
    cbn [mbind option_bind] in Hap. cbn [foldr] in Hb, Hf.
    destruct Hr as [_ _ [Rf Rb] [Of Ob]], Hw as [W1 W2 W3 W4 W5 W6 W7].
    destruct (Apply_l0 fsize _ _ _ Ha) as [Lb Lb']. destruct (Apply_l0 (fun _ => 1) _ _ _ Ha) as [Lf Lf'].
    specialize (Lb' Hfsize). specialize (Lf' ltac:(done)).
    pose proof (l0_deleted_nonneg fsize (Version.deleted_files (edit r)) Hfsize).
    pose proof (l0_deleted_nonneg (fun _ => 1) (Version.deleted_files (edit r)) ltac:(done)).
    pose proof (l0_added_nonneg fsize (Version.new_files (edit r)) Hfsize).
    pose proof (l0_added_nonneg (fun _ => 1) (Version.new_files (edit r)) ltac:(done)).
    assert (Hpos : 0 <= foldr (fun r b => l0_output_bytes r + b) 0 batch /\
      0 <= foldr (fun r b => l0_output_files r + b) 0 batch).
    { clear -Hok Hfsize. induction Hok as [|r l [_ _ _ [Of Ob]] _ IH]; cbn [foldr]; [done|].
      rewrite Of, Ob. pose proof (l0_added_nonneg fsize (Version.new_files (edit r)) Hfsize).
      pose proof (l0_added_nonneg (fun _ => 1) (Version.new_files (edit r)) ltac:(done)). lia. }
    pose proof (sizes_nonneg _ W6) as (_ & Wn & _).
    destruct (account_exact w (l0_input_files r) (l0_input_bytes r) (l0_output_files r) (l0_output_bytes r))
      as [Vf Vb]; [lia..|].
    cbn [account_batch fold_left]. set (w' := Window.AccountVirtualL0CompactionLocked _ _ _ _ w) in *.
    assert (Hp : Window.pending w' = Window.pending w) by done.
    apply (IH w' u v' Hok Hap); rewrite ?Vb, ?Vf, ?Hp; [|lia..].
    split; rewrite ?Vf, ?Vb, ?Hp; try done; lia.
Qed.

(** The state after the edits of a batch took effect. *)
Lemma committed_inv s batch v : inv s -> phase s = Logging batch -> room s batch ->
  Version.apply_edits (edit <$> batch) (ver (db s)) = Some v ->
  inv (set_phase (Refilling batch) (set_db (mkDb (account_batch batch (win (db s)))
    (fold_left (fun g r => publish r g) batch (reg (db s))) v) s)).
Proof.
  intros [H1 [F1 F2] H3 H4 H5 H6 H7 H8] Hp [R1 R2] Hap. rewrite Hp in *. sys_cbn.
  unfold fresh_numbers in F1, F2. rewrite Hp in F1, F2. sys_cbn. rewrite bind_app in F1, F2.
  apply Forall_app in H4 as [Hb Hq].
  assert (Hperm : Window.numbers (Window.pending (win (db s))) ++ inflight (refills s) ++
      (batch ≫= outs) ++ (queue s ≫= outs) ≡ₚ (batch ≫= outs) ++ inflight (refills s) ++
      Window.numbers (Window.pending (win (db s))) ++ (queue s ≫= outs)) by solve_Permutation.
  rewrite Hperm in F1. apply NoDup_app in F1 as (_ & Hdis & F1).
  assert (F2' : forall n, n ∈ (batch ≫= outs) ++ inflight (refills s) ++
      Window.numbers (Window.pending (win (db s))) ++ (queue s ≫= outs) -> (n ∉ dom (ver (db s))) /\ n ∈ used s)
    by (intros n Hn; apply F2; by rewrite Hperm).
  destruct (apply_batch batch (ver (db s)) v (reg (db s)) (list_to_set (inflight (refills s))) Hb Hap H1)
    as (D1 & D2 & D3).
  { intros n Hn. apply elem_of_list_to_set in Hn. apply (F2' n). rewrite !elem_of_app. tauto. }
  { intros n Hn. rewrite elem_of_list_to_set. intros Hi. apply (Hdis n Hn), elem_of_app. by left. }
  split; sys_cbn; try done.
  - unfold fresh_numbers. sys_cbn. rewrite account_batch_pending, app_nil_l. split.
    + eapply NoDup_sublist; [exact F1|]. solve_submseteq.
    + intros n Hn. assert (Hn' : n ∈ inflight (refills s) ++ Window.numbers (Window.pending (win (db s))) ++
        (queue s ≫= outs)) by (rewrite !elem_of_app in *; tauto).
      destruct (F2' n) as [Hd Hu]; [rewrite elem_of_app; by right|]. split; [|done].
      intros [Hv|Hv]%D3%elem_of_union; [done|]. apply elem_of_list_to_set in Hv. by apply (Hdis n Hv).
  - intros n [Hn|Hn]%D3%elem_of_union; [by apply H3|]. apply elem_of_list_to_set in Hn.
    apply F2'. rewrite elem_of_app. by left.
  - by eapply account_batch_ok.
Qed.

Lemma log_commit_inv io needed batch s : inv s -> phase s = Logging batch -> room s batch ->
  inv (log_commit o enabled io needed batch s).
Proof.
  intros Hinv Hp Hroom. unfold log_commit, log_batch.
  assert (Hcom : forall v, Version.apply_edits (edit <$> batch) (ver (db s)) = Some v ->
    inv (refill_start o enabled true needed (set_phase (Refilling batch)
      (set_db (mkDb (account_batch batch (win (db s)))
        (fold_left (fun g r => publish r g) batch (reg (db s))) v) s)))).
  { intros v Hv. apply refill_start_inv. by apply committed_inv. }
  destruct (decide (batch = [])) as [-> | Hne].
  - rewrite decide_True by done. by apply Hcom.
  - unfold Version.LogAndApply. destruct io; [destruct (Version.apply_edits _ _) as [v|] eqn:Hv|].
    + rewrite decide_True by done. by apply Hcom.
    + unfold Version.log_status. rewrite Hv. rewrite decide_False by done.
      pose proof (finish_commit_inv Corruption s Hinv) as Hf. rewrite Hp in Hf. by destruct s.
    + destruct (decide (_ = OK)) as [Hok|_].
      { apply Version.log_status_OK in Hok. by destruct Hok. }
      pose proof (finish_commit_inv (Version.log_status false (edit <$> batch) (ver (db s))) s Hinv) as Hf.
      rewrite Hp in Hf. by destruct s.
Qed.

Lemma start_inv target max_files bp : is_u64 target -> inv (start target max_files bp).
Proof.
  intros Ht. split; cbn; try done.
  - split; [constructor|]. intros n Hn. by apply elem_of_nil in Hn.
  - split; cbn; try done; [lia|apply Ht].
Qed.

Lemma step_inv s s' : inv s -> step o enabled max_batch_size fsize s s' -> inv s'.
Proof.
  intros Hinv Hs. destruct Hs.
  - by apply refill_start_inv, enqueue_files_inv.
  - by apply refill_start_inv.
  - unfold refill_ok. assert (Ht : rt_target t <= u64_max).
    { destruct Hinv as [_ _ _ _ Ht _ _ _]. rewrite Forall_forall in Ht. apply (Ht t). rewrite H. set_solver. }
    pose proof (refill_applied_inv s l1 t l2 v Hinv H H0) as Hi.
    destruct (rt_trickle t); [by apply refill_return_inv|by apply refill_turn_inv].
  - by apply refill_return_inv, refill_removed_inv.
  - by apply submit_inv.
  - by eapply collect_inv.
  - by apply log_commit_inv.
Qed.

Lemma reachable_inv s : reachable o enabled max_batch_size fsize s -> inv s.
Proof. induction 1; [by apply start_inv|by eapply step_inv]. Qed.

End Invariant.

(** ** A run *)

(** One file of 100 bytes becomes visible, is compacted to level 1, and a
    second file waits in the queue of the full window. *)
Definition sample_fsize (n : Z) : Z := 100.
Abbreviation sample_step := (step Window.no_stall true 16 sample_fsize).

Definition sample_request : Request :=
  mkReq 1 0
    (Version.AddFile 1 (Version.mkMeta 20 100 [] [] 0 0 20)
       (Version.DeleteFile 0 7 Version.empty_edit))
    [(20, Window.sample_vsst)] [7] None 1 100 0 0.

Definition sample_s1 : Sys :=
  refill_start Window.no_stall true false 0
    (enqueue_files [Window.sample_file 7; Window.sample_file 8] (start 100 1 false)).
Definition sample_t1 : RefillThread :=
  mkRefill false 100 [Window.sample_file 7] 100 false (Window.l0_edit Registry.init [Window.sample_file 7]).
Definition sample_v1 : Version.t :=
  default ∅ (Version.LogAndApply true [rt_edit sample_t1] ∅).
Definition sample_s2 : Sys := refill_ok Window.no_stall sample_t1 [] sample_v1 0 sample_s1.
Definition sample_s3 : Sys := submit sample_request sample_s2.
Definition sample_s4 : Sys := collect Window.no_stall true 16 sample_request 0 sample_s3.
Definition sample_s5 : Sys := log_commit Window.no_stall true true 0 [sample_request] sample_s4.

Lemma sample_request_ok : request_ok sample_fsize sample_request.
Proof.
  split; [done| |by vm_compute|by vm_compute].
  split; [done|]. cbn. intros n. rewrite !list_elem_of_singleton. lia.
Qed.

Lemma sample_reachable : reachable Window.no_stall true 16 sample_fsize sample_s4 /\
  reachable Window.no_stall true 16 sample_fsize sample_s5.
Proof.
  assert (H1 : reachable Window.no_stall true 16 sample_fsize sample_s1).
  { eapply reach_step; [apply (reach_start _ _ _ _ 100 1 false); by vm_compute|].
    apply step_enqueue; [done| |by intros n _ H%not_elem_of_empty|by repeat constructor|by vm_compute].
    apply (bool_decide_unpack _). by vm_compute. }
  assert (H2 : reachable Window.no_stall true 16 sample_fsize sample_s2).
  { eapply reach_step; [exact H1|]. apply (step_refill_ok _ _ _ _ _ [] _ []); by vm_compute. }
  assert (H3 : reachable Window.no_stall true 16 sample_fsize sample_s3).
  { eapply reach_step; [exact H2|]. apply step_submit; [exact sample_request_ok|by apply NoDup_singleton|].
    intros n ->%list_elem_of_singleton. apply (bool_decide_unpack _). by vm_compute. }
  assert (H4 : reachable Window.no_stall true 16 sample_fsize sample_s4).
  { eapply reach_step; [exact H3|]. by apply (step_collect _ _ _ _ _ _ []); vm_compute. }
  split; [done|]. eapply reach_step; [exact H4|]. apply step_log; [by vm_compute|]. split; by vm_compute.
Qed.

(** ** Properties *)

(** C1: in every state any interleaving of feeders, refills, compactions and
    commits can reach, with MANIFEST writes that succeed or fail, the registry
    holds a descriptor for exactly the live files and the files of the refills
    whose MANIFEST write is running; the latter are not live yet, and the queued
    files and the outputs of the compactions that wait are neither. *)
Theorem registry_tracks_version (o : Window.StallOptions) (enabled : bool) (max_batch_size : nat)
    (fsize : Z -> Z) (s : Sys) (Hsize : forall n, 0 <= fsize n)
    (Hreach : reachable o enabled max_batch_size fsize s) :
  dom (Registry.registry_ (reg (db s))) = dom (ver (db s)) ∪ list_to_set (inflight (refills s)) /\
  (forall n, n ∈ inflight (refills s) -> n ∉ dom (ver (db s))) /\
  (forall n, n ∈ Window.numbers (Window.pending (win (db s))) \/ n ∈ (waiting (phase s) ++ queue s) ≫= outs ->
     Registry.Lookup n (reg (db s)) = None /\ (n ∉ dom (ver (db s)))).
Proof.
  destruct (reachable_inv o enabled max_batch_size fsize Hsize s Hreach) as [H1 [F1 F2] _ _ _ _ _ _].
  unfold fresh_numbers in F1, F2. split; [done|]. split.
  - intros n Hn. apply F2. rewrite !elem_of_app. tauto.
  - intros n Hn. assert (Hd : n ∉ dom (ver (db s))) by (apply F2; rewrite !elem_of_app; tauto).
    split; [|done]. apply not_elem_of_dom. rewrite H1, elem_of_union, elem_of_list_to_set.
    intros [?|Hi]; [done|]. apply NoDup_app in F1 as (_ & Hdis & F1). apply NoDup_app in F1 as (_ & Hdis' & _).
    destruct Hn as [Hn|Hn]; [apply (Hdis n Hn), elem_of_app; by left|by apply (Hdis' n Hi)].
Qed.

Lemma registry_tracks_version_witness :
  dom (Registry.registry_ (reg (db sample_s5))) = {[8; 20]} /\ dom (ver (db sample_s5)) = {[20]}.
Proof.
  assert (Hv : dom (ver (db sample_s5)) = {[20]}) by (apply (bool_decide_unpack _); by vm_compute).
  split; [|exact Hv].
  destruct (registry_tracks_version Window.no_stall true 16 sample_fsize sample_s5) as (H & _);
    [by intros|apply sample_reachable|].
  rewrite H, Hv. apply (bool_decide_unpack _). by vm_compute.
Defined.

(** C4: under every interleaving each request handed to
    [CommitVirtualCompactionEdit] is in exactly one place: done, in the hands of
    the leader, or queued; and when there is no leader every request is done, so
    that no thread waits for a leader that left. *)
Theorem commits_finish_once (o : Window.StallOptions) (enabled : bool) (max_batch_size : nat)
    (fsize : Z -> Z) (s : Sys) (Hsize : forall n, 0 <= fsize n)
    (Hreach : reachable o enabled max_batch_size fsize s) :
  (res_req <$> results s) ++ in_hand (phase s) ++ queue s ≡ₚ submitted s /\
  (phase s = Idle -> res_req <$> results s ≡ₚ submitted s).
Proof.
  destruct (reachable_inv o enabled max_batch_size fsize Hsize s Hreach) as [_ _ _ _ _ H6 H7 _].
  split; [done|]. intros Hp. rewrite <- H6, Hp, (H7 Hp). cbn. by rewrite app_nil_r.
Qed.

Lemma commits_finish_once_witness :
  phase sample_s4 = Logging [sample_request] /\ [sample_request] ≡ₚ submitted sample_s4.
Proof.
  split; [by vm_compute|].
  destruct (commits_finish_once Window.no_stall true 16 sample_fsize sample_s4) as [H _];
    [by intros|apply sample_reachable|].
  transitivity ((res_req <$> results sample_s4) ++ in_hand (phase sample_s4) ++ queue sample_s4); [by vm_compute|exact H].
Defined.

(** C10: under every interleaving the counters of the window are exact: the
    visible bytes and files are those of the level-0 files of the version, and
    the pending bytes are those of the queue.  The saturating subtraction of
    [AccountVirtualL0CompactionLocked] never saturates. *)
Theorem window_tracks_level0 (o : Window.StallOptions) (enabled : bool) (max_batch_size : nat)
    (fsize : Z -> Z) (s : Sys) (Hsize : forall n, 0 <= fsize n)
    (Hreach : reachable o enabled max_batch_size fsize s) :
  let w := win (db s) in
  Window.visible_bytes w = l0_sum fsize (ver (db s)) /\
  Window.visible_files w = l0_sum (fun _ => 1) (ver (db s)) /\
  Window.pending_bytes w = Window.bytes_of (Window.pending w) /\ Window.wf w.
Proof.
  intros w. destruct (reachable_inv o enabled max_batch_size fsize Hsize s Hreach) as [_ _ _ _ _ _ _ H8].
  pose proof (window_ok_wf fsize Hsize _ _ _ H8) as Hwf. destruct H8. done.
Qed.

Lemma window_tracks_level0_witness :
  Window.visible_bytes (win (db sample_s4)) = 100 /\ Window.visible_bytes (win (db sample_s5)) = 0.
Proof.
  split.
  - destruct (window_tracks_level0 Window.no_stall true 16 sample_fsize sample_s4) as (H & _);
      [by intros|apply sample_reachable|]. rewrite H. by vm_compute.
  - destruct (window_tracks_level0 Window.no_stall true 16 sample_fsize sample_s5) as (H & _);
      [by intros|apply sample_reachable|]. rewrite H. by vm_compute.
Defined.

End System.
