(* ===== verification/RunVirtual.v ===== *)
(** * Running a virtual compaction

    The dispatch of [BackgroundCompaction], [RunVirtualCompaction] and the
    virtual part of [PerformTrivialMove] of
    [db/db_impl/db_impl_compaction_flush.cc]: gather the descriptors of the
    inputs, merge and split their models, and build the commit request.  Whether
    a table file exists on disk is an input; log messages, timing and the range
    diagnostics, which change no state, are left out. *)

From Stdlib Require Import ZArith Lia Sorted SpecFloat.
From stdpp Require Import base numbers list gmap sorting.
From S2P Require Import Prelude FloatModel SizeModel Plr Kmv KmvEstimate KmvMerge Merge Split Registry Version Window Commit System.

Local Open Scope Z_scope.

Module RunVirtual.
Import Commit.

(** ** Compactions *)

(** The parts of [Compaction] the code reads: the input files by level, the
    output level and the grandparent files. *)
Record Compaction := mkCompaction {
  c_cfd : Z;
  inputs : list (Z * list Version.FileMetaData);
  output_level : Z;
  grandparents : list Version.FileMetaData;
}.

(** The inputs in the order of the nested loops, each with its level. *)
Definition flat_inputs (c : Compaction) : list (Z * Version.FileMetaData) :=
  inputs c ≫= fun '(level, files) => pair level <$> files.

Definition input_numbers (c : Compaction) : list Z :=
  (fun lf => Version.fd_number lf.2) <$> flat_inputs c.

(** The dispatch test of [BackgroundCompaction]. *)
Definition runs_virtually (file_exists : Z -> bool) (g : Registry.t) (c : Compaction) : bool :=
  existsb (fun n => Registry.IsVirtual n g || negb (file_exists n)) (input_numbers c).

(** ** Gathering the inputs *)

(** What the gather loop accumulates. *)
Record Gathered := mkGathered {
  input_vssts : list VirtualSST;
  g_input_bytes : Z;
  g_l0_files : Z;
  g_l0_bytes : Z;
}.

(** The loop over the handles: an early return with its status, or the
    descriptors and the input counters. *)
Fixpoint gather (file_exists : Z -> bool) (v : Version.t)
    (files : list (Z * Version.FileMetaData)) (handles : list (option VirtualSST)) (acc : Gathered)
    : Status + Gathered :=
  match files, handles with
  | (level, f) :: files', h :: handles' =>
      match h with
      | None =>
          match Version.GetFileLocation (Version.fd_number f) v with
          | None => inl OK
          | Some _ => if file_exists (Version.fd_number f) then inl NotSupported else inl Corruption
          end
      | Some vsst =>
          gather file_exists v files' handles'
            (mkGathered (input_vssts acc ++ [vsst]) (g_input_bytes acc +% Version.fd_size f)
               (if decide (level = 0) then g_l0_files acc + 1 else g_l0_files acc)
               (if decide (level = 0) then g_l0_bytes acc +% Version.fd_size f else g_l0_bytes acc))
      end
  | _, _ => inr acc
  end.

(** The entry count and the key range of all inputs; [None] is the count
    overflow. *)
Fixpoint totals (l : list VirtualSST) (naive_entries gmin gmax : Z) : option (Z * Z * Z) :=
  match l with
  | [] => Some (naive_entries, gmin, gmax)
  | v :: l' =>
      if decide (u64_max - naive_entries < num_entries v) then None
      else totals l' (naive_entries +% num_entries v) (Z.min gmin (key_min v)) (Z.max gmax (key_max v))
  end.

(** The key of an encoded internal key: [ik.user_key()] drops the footer. *)
Definition internal_key_number (ik : list Z) : Z :=
  Registry.extract_key (take (length ik - Version.kNumInternalBytes) ik).

(** The sorted, distinct boundary keys of the grandparent files. *)
Definition gp_keys (f : Version.FileMetaData) : list Z :=
  let a := internal_key_number (Version.smallest f) in
  let b := internal_key_number (Version.largest f) in
  if decide (b < a) then [b; a] else [a; b].

Definition gp_boundaries (gps : list Version.FileMetaData) : list Z :=
  unique (merge_sort Z.le (gps ≫= gp_keys)).

(** ** The compaction *)

(** The merge and the split, run without the mutex: an error or the outputs.
    [None] is an undefined floating-point conversion. *)
Definition merge_and_split (env : Env) (order : list nat) (g : Registry.t) (c : Compaction)
    (vssts : list VirtualSST) : option (Status + list VirtualSST) :=
  match totals vssts 0 u64_max 0 with
  | None => Some (inl InvalidArgument)
  | Some (naive_entries, global_min, global_max) =>
      let ptrs := Some <$> vssts in
      '(merge_status, total_entries, merged) ← Merge.NWayMergeKMVRangeAware ptrs order;
      if decide (merge_status <> OK) then Some (inl merge_status)
      else if decide (0 < naive_entries /\ Empty merged = true) then Some (inl Corruption)
      else
        let '(merged, total_entries) :=
          if decide (naive_entries < total_entries /\ 0 < total_entries)
          then (Merge.ScalePLRPositions merged
                  (F64.div (F64.of_Z naive_entries) (F64.of_Z total_entries)), naive_entries)
          else (merged, total_entries) in
        outs ← Split.SplitIntoSSTs env merged total_entries (Registry.target_sst_size_ g)
                 (Registry.avg_entry_size_ g) global_min global_max (output_level c)
                 (gp_boundaries (grandparents c)) (Some ptrs) 0 (Some (Registry.size_model_ g));
        Some (inr outs)
  end.

(** The metadata of an output. *)
Definition output_meta (g : Registry.t) (fnum : Z) (v : VirtualSST) : Version.FileMetaData :=
  Version.mkMeta fnum (size_bytes v)
    (Version.InternalKey (Registry.EncodeUserKey (key_min v) g) Version.kMaxSequenceNumber Version.kTypeValue)
    (Version.InternalKey (Registry.EncodeUserKey (key_max v) g) 0 Version.kTypeValue)
    0 0 fnum.

(** [Compaction::AddInputDeletions]. *)
Definition AddInputDeletions (c : Compaction) (e : Version.VersionEdit) : Version.VersionEdit :=
  fold_left (fun e '(level, f) => Version.DeleteFile level (Version.fd_number f) e) (flat_inputs c) e.

(** The loop that numbers the outputs and adds them to the edit; [next] is the
    counter of [NewFileNumber]. *)
Record Outputs := mkOutputs {
  o_edit : Version.VersionEdit;
  o_pending : list (Z * VirtualSST);
  o_l0_files : Z;
  o_l0_bytes : Z;
  o_next : Z;
}.

Definition add_output (g : Registry.t) (level : Z) (acc : Outputs) (v : VirtualSST) : Outputs :=
  let fnum := o_next acc in
  mkOutputs (Version.AddFile level (output_meta g fnum v) (o_edit acc))
    (o_pending acc ++ [(fnum, v)])
    (if decide (level = 0) then o_l0_files acc + 1 else o_l0_files acc)
    (if decide (level = 0) then o_l0_bytes acc +% size_bytes v else o_l0_bytes acc)
    (fnum + 1).

Definition build_request (id : Z) (g : Registry.t) (c : Compaction) (gathered : Gathered)
    (next : Z) (outs : list VirtualSST) : Request * Z :=
  let acc := fold_left (add_output g (output_level c)) outs
               (mkOutputs (AddInputDeletions c Version.empty_edit) [] 0 0 next) in
  (mkReq id (c_cfd c) (o_edit acc) (o_pending acc) (input_numbers c) None
     (g_l0_files gathered) (g_l0_bytes gathered) (o_l0_files acc) (o_l0_bytes acc), o_next acc).

(** [RunVirtualCompaction] up to the commit: an early return, or the request and
    the next file number. *)
Definition RunVirtualCompaction (env : Env) (order : list nat) (file_exists : Z -> bool) (id : Z)
    (c : Compaction) (g : Registry.t) (v : Version.t) (next : Z) : option (Status + Request * Z) :=
  match gather file_exists v (flat_inputs c) (Registry.LookupMany (input_numbers c) g)
          (mkGathered [] 0 0 0) with
  | inl s => Some (inl s)
  | inr gathered =>
      if decide (input_vssts gathered = []) then Some (inl OK)
      else
        r ← merge_and_split env order g c (input_vssts gathered);
        match r with
        | inl s => Some (inl s)
        | inr outs => Some (inr (build_request id g c gathered next outs))
        end
  end.

(** ** Trivial moves *)

(** The inputs of a trivial move: the levels other than the output level. *)
Definition moved_inputs (c : Compaction) : list (Z * Version.FileMetaData) :=
  filter (fun lf => lf.1 <> output_level c) (flat_inputs c).

(** The first loop: an early return, or the virtual inputs and whether there is a
    physical one. *)
Fixpoint move_scan (file_exists : Z -> bool) (v : Version.t) (g : Registry.t)
    (files : list (Z * Version.FileMetaData)) (moved : list (Z * VirtualSST)) (physical : bool)
    : Status + list (Z * VirtualSST) * bool :=
  match files with
  | [] => inr (moved, physical)
  | (_, f) :: files' =>
      let n := Version.fd_number f in
      match Registry.Lookup n g with
      | Some vsst => move_scan file_exists v g files' (moved ++ [(n, vsst)]) physical
      | None =>
          if file_exists n then move_scan file_exists v g files' moved true
          else match Version.GetFileLocation n v with
               | Some _ => inl Corruption
               | None => inl OK
               end
      end
  end.

Definition move_file (level : Z) (e : Version.VersionEdit) (lf : Z * Version.FileMetaData)
    : Version.VersionEdit :=
  let '(l, f) := lf in
  Version.AddFile level f (Version.DeleteFile l (Version.fd_number f) e).

Definition sum_sizes (l : list (Z * Version.FileMetaData)) : Z :=
  fold_left (fun b lf => b +% Version.fd_size lf.2) l 0.

(** [PerformTrivialMove]: an early return, the request of a virtual move, or
    [None] for the move of physical files, which does not concern the registry. *)
Definition PerformTrivialMove (file_exists : Z -> bool) (id : Z) (c : Compaction)
    (g : Registry.t) (v : Version.t) : Status + option Request :=
  match move_scan file_exists v g (moved_inputs c) [] false with
  | inl s => inl s
  | inr (moved, physical) =>
      if decide (moved = []) then inr None
      else if physical then inl NotSupported
      else
        let files := moved_inputs c in
        let level := output_level c in
        let l0 := filter (fun lf => lf.1 = 0) files in
        inr (Some (mkReq id (c_cfd c) (fold_left (move_file level) files Version.empty_edit) []
          (fst <$> moved) (Some moved)
          (Z.of_nat (length l0)) (sum_sizes l0)
          (if decide (level = 0) then Z.of_nat (length moved) else 0)
          (if decide (level = 0) then sum_sizes files else 0)))
  end.

(** ** The request of a compaction *)

(** Sum of a weight over the files of level 0. *)
Definition l0_weight (g : Z -> Z) (l : list (Z * Version.FileMetaData)) : Z :=
  foldr (fun lf acc => (if decide (lf.1 = 0) then g (Version.fd_number lf.2) else 0) + acc) 0 l.

Lemma l0_weight_app g a b : l0_weight g (a ++ b) = l0_weight g a + l0_weight g b.
Proof. unfold l0_weight. induction a as [|x a IH]; cbn [app foldr]; [done|]. rewrite IH. lia. Qed.

Lemma l0_weight_nonneg g l : (forall n, 0 <= g n) -> 0 <= l0_weight g l.
Proof.
  intros Hg. induction l as [|x l IH]; cbn [l0_weight foldr]; [done|]. unfold l0_weight in IH.
  specialize (Hg (Version.fd_number x.2)). destruct (decide _); lia.
Qed.

Section Request.
Context (fsize : Z -> Z) (Hfsize : forall n, 0 <= fsize n).

Lemma gather_spec file_exists v : forall files handles acc res,
  length handles = length files ->
  Forall (fun lf => Version.fd_size lf.2 = fsize (Version.fd_number lf.2)) files ->
  0 <= g_l0_bytes acc -> g_l0_bytes acc + l0_weight fsize files <= u64_max ->
  gather file_exists v files handles acc = inr res ->
  handles = Some <$> drop (length (input_vssts acc)) (input_vssts res) /\
  take (length (input_vssts acc)) (input_vssts res) = input_vssts acc /\
  g_l0_files res = g_l0_files acc + l0_weight (fun _ => 1) files /\
  g_l0_bytes res = g_l0_bytes acc + l0_weight fsize files.
Proof.
  induction files as [|[level f] files IH]; intros [|h handles] acc res Hl Hsz H0 Hb; try done; cbn [gather].
  - intros [= <-]. rewrite drop_all, firstn_all. cbn. split_and!; [done|done|lia|lia].
  - destruct h as [vsst|]; [|destruct (Version.GetFileLocation _ v); [|done]; by destruct (file_exists _)].
    apply Forall_cons_iff in Hsz as [Hf Hsz]. cbn [snd] in Hf. cbn [l0_weight foldr fst snd] in Hb |- *.
    fold (l0_weight fsize files) in Hb |- *. fold (l0_weight (fun _ => 1) files) in |- *.
    pose proof (l0_weight_nonneg fsize files Hfsize). specialize (Hfsize (Version.fd_number f)).
    intros Hg. apply IH in Hg as (Hh & Ht & Hlf & Hlb); cbn [input_vssts g_l0_files g_l0_bytes] in *; [|by injection Hl|done|..].
    + rewrite length_app in Hh, Ht. cbn [length] in Hh, Ht.
      assert (Hn : input_vssts res !! length (input_vssts acc) = Some vsst).
      { rewrite <- (lookup_take_lt _ (length (input_vssts acc) + 1)) by lia. rewrite Ht.
        by rewrite lookup_app_r, Nat.sub_diag by lia. }
      split; [rewrite (drop_S _ _ _ Hn); cbn; f_equal; by rewrite Hh, Nat.add_1_r|].
      split; [|split].
      * rewrite <- (take_app_length (input_vssts acc) [vsst]) at 2. rewrite <- Ht, take_take. f_equal. lia.
      * rewrite Hlf. destruct (decide (level = 0)); lia.
      * rewrite Hlb. destruct (decide (level = 0)); [|lia].
        rewrite u64_small by solve_u64. lia.
    + destruct (decide (level = 0)); [apply u64_range|done].
    + destruct (decide (level = 0)); [|lia]. rewrite u64_small by solve_u64. lia.
Qed.

(** *** The edit *)

Lemma DeleteFile_fresh level n e : n ∉ Version.removed e ->
  Version.deleted_files (Version.DeleteFile level n e) = Version.deleted_files e ++ [(level, n)].
Proof.
  intros Hn. cbn. rewrite decide_False; [done|]. intros Hin. apply Hn. apply list_elem_of_fmap. by exists (level, n).
Qed.

Lemma deletions_spec : forall l e, NoDup (Version.removed e ++ ((fun lf => Version.fd_number lf.2) <$> l)) ->
  let e' := fold_left (fun e '(level, f) => Version.DeleteFile level (Version.fd_number f) e) l e in
  Version.deleted_files e' = Version.deleted_files e ++ ((fun lf => (lf.1, Version.fd_number lf.2)) <$> l) /\
  Version.new_files e' = Version.new_files e.
Proof.
  induction l as [|[level f] l IH]; intros e Hnd; cbn [fold_left fmap list_fmap] in *.
  - by rewrite app_nil_r.
  - rewrite NoDup_app in Hnd. destruct Hnd as (H1 & H2 & H3). apply NoDup_cons in H3 as [H3 H4]. cbn [snd] in *.
    assert (Hn : Version.fd_number f ∉ Version.removed e) by (intros Hin; apply (H2 _ Hin); by left).
    pose proof (DeleteFile_fresh level (Version.fd_number f) e Hn) as Hd.
    destruct (IH (Version.DeleteFile level (Version.fd_number f) e)) as [Ha Hb].
    + unfold Version.removed. rewrite Hd, fmap_app. cbn. rewrite <- app_assoc. apply NoDup_app. split; [done|].
      split; [|by constructor]. intros n Hin. specialize (H2 n Hin). set_solver.
    + rewrite Ha, Hd, <- app_assoc. done.
Qed.

Lemma l0_deleted_weight g l : System.l0_deleted g ((fun lf => (lf.1, Version.fd_number lf.2)) <$> l) = l0_weight g l.
Proof.
  induction l as [|lf l IH]; [done|]. cbn [fmap list_fmap System.l0_deleted l0_weight foldr fst snd].
  unfold System.l0_deleted, l0_weight in IH. by rewrite IH.
Qed.

Lemma add_outputs_spec g level : forall outs acc,
  Forall (fun p => size_bytes p.2 = fsize p.1) (zip (seqZ (o_next acc) (Z.of_nat (length outs))) outs) ->
  0 <= o_l0_bytes acc ->
  o_l0_bytes acc + foldr (fun v b => size_bytes v + b) 0 outs <= u64_max ->
  Forall (fun v => 0 <= size_bytes v) outs ->
  let acc' := fold_left (add_output g level) outs acc in
  let nums := seqZ (o_next acc) (Z.of_nat (length outs)) in
  Version.new_files (o_edit acc') = Version.new_files (o_edit acc) ++
    ((fun p => (level, output_meta g p.1 p.2)) <$> zip nums outs) /\
  Version.deleted_files (o_edit acc') = Version.deleted_files (o_edit acc) /\
  o_pending acc' = o_pending acc ++ zip nums outs /\
  o_next acc' = o_next acc + Z.of_nat (length outs) /\
  o_l0_files acc' = o_l0_files acc + l0_weight (fun _ => 1) ((fun p => (level, output_meta g p.1 p.2)) <$> zip nums outs) /\
  o_l0_bytes acc' = o_l0_bytes acc + l0_weight fsize ((fun p => (level, output_meta g p.1 p.2)) <$> zip nums outs).
Proof.
  induction outs as [|v outs IH]; intros acc Hsz H0 Hb Hpos; cbn [fold_left length] in *.
  - rewrite seqZ_nil by lia. cbn. rewrite !app_nil_r. split_and!; try done; lia.
  - rewrite Nat2Z.inj_succ, seqZ_cons in Hsz |- * by lia. rewrite Z.pred_succ in Hsz |- *.
    change (Z.succ (o_next acc)) with (o_next acc + 1) in *.
    cbn [zip zip_with fmap list_fmap] in Hsz |- *. apply Forall_cons_iff in Hsz as [Hv Hsz]. cbn [fst snd] in Hv.
    apply Forall_cons_iff in Hpos as [Hv0 Hpos]. cbn [foldr] in Hb.
    assert (Hrest : 0 <= foldr (fun v b => size_bytes v + b) 0 outs)
      by (clear -Hpos; induction Hpos; cbn; lia).
    assert (Hnb : o_l0_bytes (add_output g level acc v) =
      o_l0_bytes acc + (if decide (level = 0) then fsize (o_next acc) else 0)).
    { cbn. destruct (decide (level = 0)); [|lia]. rewrite u64_small by solve_u64. lia. }
    assert (Hmax : (if decide (level = 0) then fsize (o_next acc) else 0) <= size_bytes v) by (destruct (decide _); lia).
    assert (Hmin : 0 <= (if decide (level = 0) then fsize (o_next acc) else 0))
      by (destruct (decide _); [apply Hfsize|done]).
    destruct (IH (add_output g level acc v)) as (I1 & I2 & I3 & I4 & I5 & I6); [done|lia|lia|done|].
    cbn [o_next add_output] in I1, I3, I4, I5, I6. rewrite I1, I2, I3, I4, I5, I6, Hnb.
    cbn [add_output o_edit o_pending o_l0_files Version.AddFile Version.new_files Version.deleted_files].
    rewrite <- !app_assoc. cbn [app l0_weight foldr fst snd output_meta Version.fd_number].
    fold (l0_weight fsize ((fun p => (level, output_meta g p.1 p.2)) <$> zip (seqZ (o_next acc + 1) (Z.of_nat (length outs))) outs)).
    fold (l0_weight (fun _ => 1) ((fun p => (level, output_meta g p.1 p.2)) <$> zip (seqZ (o_next acc + 1) (Z.of_nat (length outs))) outs)).
    split_and!; try done; try lia. destruct (decide (level = 0)); lia.
Qed.

Lemma sum_sizes_zip nums outs : length nums = length outs ->
  Forall (fun p => size_bytes p.2 = fsize p.1) (zip nums outs) -> Forall (fun v => 0 <= size_bytes v) outs.
Proof.
  revert outs. induction nums as [|n nums IH]; intros [|v outs] Hl Hz; try done.
  apply Forall_cons_iff in Hz as [Hv Hz]. constructor; [cbn in Hv; rewrite Hv; apply Hfsize|].
  apply IH; [by injection Hl|done].
Qed.

Lemma build_request_ok id g c gathered next vs :
  NoDup (input_numbers c) -> (forall n, n ∈ input_numbers c -> n < next) ->
  g_l0_files gathered = l0_weight (fun _ => 1) (flat_inputs c) ->
  g_l0_bytes gathered = l0_weight fsize (flat_inputs c) ->
  Forall (fun p => size_bytes p.2 = fsize p.1) (zip (seqZ next (Z.of_nat (length vs))) vs) ->
  foldr (fun v b => size_bytes v + b) 0 vs <= u64_max ->
  let '(r, next') := build_request id g c gathered next vs in
  System.request_ok fsize r /\ System.outs r = seqZ next (Z.of_nat (length vs)) /\
  pending_outputs r = zip (seqZ next (Z.of_nat (length vs))) vs /\
  next' = next + Z.of_nat (length vs) /\ input_file_numbers r = input_numbers c /\
  Version.new_files (edit r) = (fun p => (output_level c, output_meta g p.1 p.2)) <$> pending_outputs r /\
  Version.deleted_files (edit r) = (fun lf => (lf.1, Version.fd_number lf.2)) <$> flat_inputs c.
Proof.
  intros Hnd Hlt Hlf Hlb Hsz Hsum. unfold build_request.
  assert (Hpos := sum_sizes_zip (seqZ next (Z.of_nat (length vs))) vs ltac:(rewrite length_seqZ; lia) Hsz).
  destruct (deletions_spec (flat_inputs c) Version.empty_edit Hnd) as [Hd Hn].
  fold (AddInputDeletions c Version.empty_edit) in Hd, Hn.
  set (acc0 := mkOutputs (AddInputDeletions c Version.empty_edit) [] 0 0 next).
  destruct (add_outputs_spec g (output_level c) vs acc0 Hsz ltac:(done) Hsum Hpos) as (I1 & I2 & I3 & I4 & I5 & I6).
  cbn [acc0 o_edit o_pending o_next o_l0_files o_l0_bytes app] in I1, I2, I3, I4, I5, I6.
  rewrite Hn in I1. rewrite Hd in I2. cbn [Version.new_files Version.deleted_files Version.empty_edit app] in I1, I2.
  set (acc := fold_left (add_output g (output_level c)) vs acc0) in *.
  assert (Hfst : fst <$> o_pending acc = seqZ next (Z.of_nat (length vs))).
  { rewrite I3. apply fst_zip. rewrite length_seqZ. lia. }
  split; [|unfold System.outs; cbn; rewrite Hfst; by repeat split; [..|rewrite I3|]].
  split; cbn.
  - intros n. unfold Version.removed. rewrite I2, <- list_fmap_compose. done.
  - split; [unfold Version.added; rewrite I1, <- list_fmap_compose, I3; done|].
    rewrite Hfst. intros n Hi%elem_of_seqZ Hin. specialize (Hlt _ Hin). lia.
  - rewrite I2, !l0_deleted_weight. done.
  - rewrite I1. rewrite Z.add_0_l in I5, I6. done.
Qed.

Lemma add_outputs_pending g level : forall l acc, o_pending (fold_left (add_output g level) l acc) =
  o_pending acc ++ zip (seqZ (o_next acc) (Z.of_nat (length l))) l.
Proof.
  induction l as [|x l IH]; intros acc; cbn [fold_left length]; [rewrite seqZ_nil by lia; by rewrite app_nil_r|].
  rewrite Nat2Z.inj_succ, (seqZ_cons (o_next acc)), Z.pred_succ, IH by lia. cbn. by rewrite <- app_assoc.
Qed.

Lemma sum_zip (ns : list Z) (vs : list VirtualSST) : length ns = length vs ->
  foldr (fun p b => size_bytes p.2 + b) 0 (zip ns vs) = foldr (fun v b => size_bytes v + b) 0 vs.
Proof.
  revert ns. induction vs as [|x vs IH]; intros [|n ns] Hl; try done. cbn in *. rewrite IH; [done|by injection Hl].
Qed.

(** *** Moves *)

Lemma move_scan_spec file_exists v g : forall files moved physical moved',
  move_scan file_exists v g files moved physical = inr (moved', false) ->
  exists vs, moved' = moved ++ zip ((fun lf => Version.fd_number lf.2) <$> files) vs /\
    Forall2 (fun lf vsst => Registry.Lookup (Version.fd_number lf.2) g = Some vsst) files vs /\ physical = false.
Proof.
  induction files as [|[level f] files IH]; intros moved physical moved'; cbn [move_scan].
  - intros [= <- ->]. exists []. by rewrite app_nil_r.
  - destruct (Registry.Lookup (Version.fd_number f) g) as [vsst|] eqn:Hl.
    + intros (vs & -> & Hvs & ->)%IH. exists (vsst :: vs). cbn. rewrite <- app_assoc. split; [done|].
      split; [by constructor|done].
    + destruct (file_exists _); [intros (vs & _ & _ & H)%IH; done|].
      by destruct (Version.GetFileLocation _ v).
Qed.

Lemma move_edit_spec level : forall l e, NoDup (Version.removed e ++ ((fun lf => Version.fd_number lf.2) <$> l)) ->
  let e' := fold_left (move_file level) l e in
  Version.deleted_files e' = Version.deleted_files e ++ ((fun lf => (lf.1, Version.fd_number lf.2)) <$> l) /\
  Version.new_files e' = Version.new_files e ++ ((fun lf => (level, lf.2)) <$> l).
Proof.
  induction l as [|[lv f] l IH]; intros e Hnd; cbn [fold_left fmap list_fmap move_file] in *.
  - by rewrite !app_nil_r.
  - rewrite NoDup_app in Hnd. destruct Hnd as (H1 & H2 & H3). apply NoDup_cons in H3 as [H3 H4]. cbn [snd] in *.
    assert (Hn : Version.fd_number f ∉ Version.removed e) by (intros Hin; apply (H2 _ Hin); by left).
    pose proof (DeleteFile_fresh lv (Version.fd_number f) e Hn) as Hd.
    destruct (IH (Version.AddFile level f (Version.DeleteFile lv (Version.fd_number f) e))) as [Ha Hb].
    + unfold Version.removed. cbn [Version.AddFile Version.deleted_files]. rewrite Hd, fmap_app. cbn.
      rewrite <- app_assoc. apply NoDup_app. split; [done|].
      split; [|by constructor]. intros n Hin. specialize (H2 n Hin). set_solver.
    + rewrite Ha, Hb. cbn [Version.AddFile Version.deleted_files Version.new_files]. rewrite Hd, <- !app_assoc. done.
Qed.

Lemma sum_sizes_spec l : Forall (fun lf => Version.fd_size lf.2 = fsize (Version.fd_number lf.2)) l ->
  foldr (fun lf b => fsize (Version.fd_number lf.2) + b) 0 l <= u64_max ->
  sum_sizes l = foldr (fun lf b => fsize (Version.fd_number lf.2) + b) 0 l.
Proof.
  intros Hl. unfold sum_sizes.
  assert (H : forall b, 0 <= b -> b + foldr (fun lf b => fsize (Version.fd_number lf.2) + b) 0 l <= u64_max ->
    fold_left (fun b lf => b +% Version.fd_size lf.2) l b = b + foldr (fun lf b => fsize (Version.fd_number lf.2) + b) 0 l).
  { induction Hl as [|lf l Hf _ IH]; intros b H0 Hb; cbn [fold_left foldr] in *; [lia|].
    assert (0 <= foldr (fun lf b => fsize (Version.fd_number lf.2) + b) 0 l)
      by (clear -Hfsize; induction l as [|x l IH]; cbn; [done|]; specialize (Hfsize (Version.fd_number x.2)); lia).
    pose proof (Hfsize (Version.fd_number lf.2)). rewrite Hf, u64_small by solve_u64.
    rewrite IH by lia. lia. }
  intros Hb. rewrite H by lia. lia.
Qed.

Lemma l0_filter_weight g l : l0_weight g l =
  foldr (fun lf b => g (Version.fd_number lf.2) + b) 0 (filter (fun lf => lf.1 = 0) l).
Proof.
  unfold l0_weight. induction l as [|lf l IH]; [done|]. cbn [foldr]. rewrite IH.
  destruct (decide (lf.1 = 0)); [by rewrite filter_cons_True by done|by rewrite filter_cons_False by done].
Qed.

End Request.

(** ** Merge and split of sound descriptors *)

(** The descriptors [vs] of the inputs of [c] represent the key sets [Kof], are
    in the range of the machine integers, and the registry is configured. *)
Record ready (g : Registry.t) (c : Compaction) (order : list nat) (vs : list VirtualSST)
    (Kof : VirtualSST -> Z -> Prop) : Prop := {
  rd_lookup : Registry.LookupMany (input_numbers c) g = Some <$> vs;
  rd_order : Merge.is_model_order (Some <$> vs) order;
  rd_sound : forall v, v ∈ vs -> vsst_sound (Kof v) v /\ key_min v <= key_max v;
  rd_keys : Merge.keys_u64 (Some <$> vs);
  rd_entries : forall v, v ∈ vs -> 0 <= num_entries v;
  rd_total : 1 <= Merge.total_entries (Some <$> vs) < 2 ^ 63;
  rd_caps : sum_entries (input_ranges (Some <$> vs)) <= u64_max /\
            sum_samples (input_ranges (Some <$> vs)) <= 2 ^ 63;
  rd_finite : forall total m, Merge.NWayMergeKMVRangeAware (Some <$> vs) order = Some (OK, total, m) ->
    Forall seg_fin (segments_ m);
  rd_config : is_u64 (Registry.target_sst_size_ g) /\ 1 <= Registry.avg_entry_size_ g <= u64_max /\
    SSTSizeModel.wf (Registry.size_model_ g) /\ SSTSizeModel.Valid (Registry.size_model_ g) = true;
  rd_bytes : Forall (fun f => Forall (fun b => 0 <= b < 256) (Version.smallest f) /\
                              Forall (fun b => 0 <= b < 256) (Version.largest f)) (grandparents c);
  rd_level : 0 <= output_level c;
}.

Lemma gather_all file_exists v : forall files vs acc, length vs = length files ->
  exists res, gather file_exists v files (Some <$> vs) acc = inr res /\
    input_vssts res = input_vssts acc ++ vs.
Proof.
  induction files as [|[level f] files IH]; intros [|x vs] acc Hl; try done.
  - exists acc. by rewrite app_nil_r.
  - cbn. match goal with |- context [gather _ _ files _ ?a] => destruct (IH vs a) as (res & -> & Hv) end;
      [by injection Hl|]. exists res. split; [done|]. rewrite Hv. cbn. by rewrite <- app_assoc.
Qed.

Lemma totals_spec : forall vs n a b, (forall v, v ∈ vs -> 0 <= num_entries v) -> 0 <= n ->
  n + Merge.total_entries (Some <$> vs) <= u64_max ->
  exists a' b', totals vs n a b = Some (n + Merge.total_entries (Some <$> vs), a', b') /\
    a' <= a /\ b <= b' /\ (forall v, v ∈ vs -> a' <= key_min v /\ key_max v <= b') /\
    (is_u64 a -> (forall v, v ∈ vs -> is_u64 (key_min v)) -> is_u64 a') /\
    (is_u64 b -> (forall v, v ∈ vs -> is_u64 (key_max v)) -> is_u64 b').
Proof.
  induction vs as [|v vs IH]; intros n a b Hn H0 Hmax; cbn [totals].
  - exists a, b. rewrite Z.add_0_r. split_and!; try done; try lia. intros v Hv. by apply elem_of_nil in Hv.
  - change (Merge.total_entries (Some <$> v :: vs)) with (num_entries v + Merge.total_entries (Some <$> vs)) in *.
    assert (Hrest : forall x, x ∈ vs -> 0 <= num_entries x) by (intros x Hx; apply Hn; by right).
    assert (Hpos : 0 <= Merge.total_entries (Some <$> vs)).
    { apply Merge.total_entries_nonneg. intros x (y & [= ->] & Hy)%list_elem_of_fmap. auto. }
    specialize (Hn v ltac:(by left)). rewrite decide_False by lia.
    rewrite u64_small by solve_u64.
    destruct (IH (n + num_entries v) (Z.min a (key_min v)) (Z.max b (key_max v)) Hrest)
      as (a' & b' & -> & Ha & Hb & Hin & Hua & Hub); [lia|lia|].
    exists a', b'. split; [by rewrite Z.add_assoc|]. split; [lia|]. split; [lia|]. split; [|split].
    + intros x [-> | Hx]%elem_of_cons; [lia|auto].
    + intros Hu Hk. apply Hua; [|intros x Hx; apply Hk; by right].
      specialize (Hk v ltac:(by left)). destruct (Z.min_spec a (key_min v)) as [[_ ->]|[_ ->]]; done.
    + intros Hu Hk. apply Hub; [|intros x Hx; apply Hk; by right].
      specialize (Hk v ltac:(by left)). destruct (Z.max_spec b (key_max v)) as [[_ ->]|[_ ->]]; done.
Qed.

Lemma extract_key_u64 l : Forall (fun b => 0 <= b < 256) l -> is_u64 (Registry.extract_key l).
Proof.
  intros Hl. unfold Registry.extract_key. destruct (decide _); [|by vm_compute].
  apply (Forall_take _ 8%nat) in Hl. revert Hl. generalize (take 8 l). intros k Hk.
  assert (H : forall acc, is_u64 acc -> is_u64 (fold_left (fun k b => Z.lor (u64 (Z.shiftl k 8)) b) k acc));
    [|apply H; by vm_compute].
  induction Hk as [|b k Hb _ IH]; intros acc Hacc; cbn [fold_left]; [done|]. apply IH.
  pose proof (u64_range (Z.shiftl acc 8)) as [Hu1 Hu2]. unfold is_u64, u64_max in *. split.
  - apply Z.lor_nonneg. lia.
  - enough (Z.lor (u64 (Z.shiftl acc 8)) b < 2 ^ 64) by lia.
    destruct (decide (Z.lor (u64 (Z.shiftl acc 8)) b = 0)) as [-> | Hne]; [lia|].
    apply Z.log2_lt_cancel. rewrite Z.log2_lor, Z.log2_pow2 by lia.
    apply Z.max_lub_lt.
    + destruct (decide (u64 (Z.shiftl acc 8) = 0)) as [-> | ]; [by vm_compute|]. apply Z.log2_lt_pow2; lia.
    + destruct (decide (b = 0)) as [-> | ]; [by vm_compute|]. apply Z.log2_lt_pow2; lia.
Qed.

Lemma unique_sub l : forall k, k ∈ unique l -> k ∈ l.
Proof.
  induction l as [|a l IH]; intros k; cbn [unique]; [done|]. destruct l as [|b l].
  - done.
  - destruct (decide (a = b)); [intros Hk; right; by apply IH|].
    intros [-> | Hk]%elem_of_cons; [by left|right; by apply IH].
Qed.

Lemma gp_boundaries_u64 gps :
  Forall (fun f => Forall (fun b => 0 <= b < 256) (Version.smallest f) /\
                   Forall (fun b => 0 <= b < 256) (Version.largest f)) gps ->
  Forall is_u64 (gp_boundaries gps).
Proof.
  intros Hg. apply Forall_forall. intros k Hk%unique_sub. rewrite merge_sort_Permutation in Hk.
  apply list_elem_of_bind in Hk as (f & Hk & Hf). rewrite Forall_forall in Hg. destruct (Hg f Hf) as [Ha Hb].
  unfold gp_keys in Hk. destruct (decide _); rewrite !elem_of_cons, elem_of_nil in Hk;
    destruct Hk as [-> | [-> | []]]; by apply extract_key_u64, Forall_take.
Qed.

Lemma ready_inputs_wf g c order vs Kof : ready g c order vs Kof -> Merge.inputs_wf (Some <$> vs).
Proof.
  intros H v r Hv Hr. apply list_elem_of_fmap in Hv as (y & [= ->] & Hy).
  destruct (rd_sound _ _ _ _ _ H y Hy) as [([Hs _] & _) _]. rewrite Forall_forall in Hs.
  by eapply range_sound_wf, Hs.
Qed.

Lemma merge_and_split_spec env order g c vs Kof : vs <> [] -> ready g c order vs Kof ->
  exists total outs, merge_and_split env order g c vs = Some (inr outs) /\
    1 <= total <= Merge.total_entries (Some <$> vs) /\
    foldr Z.add 0 (num_entries <$> outs) = total /\
    Forall (Split.output_ok (Registry.size_model_ g) (Some (Some <$> vs)) Kof) outs.
Proof.
  intros Hne Hr. pose proof (ready_inputs_wf _ _ _ _ _ Hr) as Hwf. destruct Hr.
  assert (Hnum : forall v, Some v ∈ Some <$> vs -> 0 <= num_entries v)
    by (intros v (y & [= ->] & Hy)%list_elem_of_fmap; auto).
  assert (Hk : forall v, v ∈ vs -> is_u64 (key_min v) /\ is_u64 (key_max v)).
  { intros v Hv. destruct (rd_keys0 v) as (? & ? & _); [apply list_elem_of_fmap; by exists v|done]. }
  unfold merge_and_split.
  destruct (totals_spec vs 0 u64_max 0 rd_entries0) as (gmin & gmax & -> & _ & _ & Hin & Hua & Hub);
    [lia|unfold u64_max; lia|]. rewrite Z.add_0_l.
  destruct (Merge.NWayMerge_gen (Some <$> vs) order rd_order0 Hwf rd_keys0 Hnum rd_total0) as
    (total & segs & Hm & Htot & Hcov & _); [apply rd_caps0..|].
  pose proof (rd_finite0 _ _ Hm) as Hfin. rewrite Hm. cbn [mbind option_bind].
  assert (Hseg : segs <> []).
  { destruct Hcov as [[_ (sl & ic & ->)]|[Hlt Hc]]; [done|]. intros ->. cbn in Hc. lia. }
  rewrite decide_False by (intros H; by apply H). rewrite decide_False by (by intros [_ He]; destruct segs).
  rewrite decide_False by lia.
  assert (Hgu : is_u64 gmin /\ is_u64 gmax /\ gmin <= gmax).
  { split; [apply Hua; [by vm_compute|apply Hk]|]. split; [apply Hub; [by vm_compute|apply Hk]|].
    destruct vs as [|v0 vs]; [done|]. destruct (Hin v0 ltac:(by left)).
    destruct (rd_sound0 v0 ltac:(by left)) as [_ ?]. lia. }
  destruct Hgu as (G1 & G2 & G3). destruct rd_config0 as (C1 & C2 & C3 & C4).
  assert (Hkmv : Split.kmv_inputs_ok (Some (Some <$> vs)) Kof).
  { split; [|done]. intros v (y & [= ->] & Hy)%list_elem_of_fmap. by apply rd_sound0. }
  assert (Htot' : 1 <= total <= u64_max) by (unfold u64_max; lia).
  exists total. destruct (decide (output_level c = 0)) as [-> | Hl].
  - destruct (Split.SplitIntoSSTs_level0_gen env (mkPLR segs) total (Registry.target_sst_size_ g)
      (Registry.avg_entry_size_ g) gmin gmax (gp_boundaries (grandparents c)) (Some (Some <$> vs)) 0
      (Some (Registry.size_model_ g)) Kof) as (o & -> & _ & _ & _ & Hn & Hok); try done; [by intros m [= <-]|].
    exists [o]. cbn [mbind option_bind]. split; [done|]. split; [lia|]. split; [cbn; lia|]. by constructor.
  - destruct (Split.SplitIntoSSTs_below_gen env (mkPLR segs) total (Registry.target_sst_size_ g)
      (Registry.avg_entry_size_ g) gmin gmax (output_level c) (gp_boundaries (grandparents c)) (Some (Some <$> vs)) 0
      (Some (Registry.size_model_ g)) Kof) as (outs & -> & Hsum & _ & _ & Hok); try done;
      [lia|by apply gp_boundaries_u64|by intros m [= <-]|].
    exists outs. cbn [mbind option_bind]. split; [done|]. split; [lia|]. split; [exact Hsum|]. exact Hok.
Qed.

(** ** Properties *)



(** a virtual compaction that reaches its commit has a descriptor for every
    input and hands over a request that deletes exactly its inputs at their
    levels, adds its outputs under consecutive new file numbers with the key range
    and size of their descriptors, and accounts the level-0 inputs and outputs
    exactly. *)
Theorem RunVirtualCompaction_request (fsize : Z -> Z) (env : Env) (order : list nat)
    (file_exists : Z -> bool) (id : Z) (c : Compaction) (g : Registry.t) (v : Version.t) (next : Z)
    (r : Request) (next' : Z)
    (Hrun : RunVirtualCompaction env order file_exists id c g v next = Some (inr (r, next')))
    (Hfsize : forall n, 0 <= fsize n)
    (Hsizes : Forall (fun lf => Version.fd_size lf.2 = fsize (Version.fd_number lf.2)) (flat_inputs c))
    (Hsum : l0_weight fsize (flat_inputs c) <= u64_max)
    (Hnd : NoDup (input_numbers c)) (Hnext : forall n, n ∈ input_numbers c -> n < next)
    (Hout : Forall (fun p => size_bytes p.2 = fsize p.1) (pending_outputs r))
    (Houtsum : foldr (fun p b => size_bytes p.2 + b) 0 (pending_outputs r) <= u64_max) :
  System.request_ok fsize r /\
  System.outs r = seqZ next (Z.of_nat (length (pending_outputs r))) /\
  next' = next + Z.of_nat (length (pending_outputs r)) /\
  (forall n, n ∈ input_numbers c -> is_Some (Registry.Lookup n g)) /\
  Version.deleted_files (edit r) = (fun lf => (lf.1, Version.fd_number lf.2)) <$> flat_inputs c /\
  Version.new_files (edit r) = (fun p => (output_level c, output_meta g p.1 p.2)) <$> pending_outputs r.
Proof.
  unfold RunVirtualCompaction in Hrun.
  destruct (gather _ _ _ _ _) as [st|gathered] eqn:Hg; [done|].
  destruct (decide (input_vssts gathered = [])) as [|_]; [done|].
  destruct (merge_and_split _ _ _ _ _) as [[st|vs]|]; cbn [mbind option_bind] in Hrun; [done| |done].
  apply (gather_spec fsize Hfsize) in Hg as (Hh & _ & Hlf & Hlb); cbn [g_l0_bytes]; [| |done|done|lia].
  2:{ unfold Registry.LookupMany, input_numbers. by rewrite !length_fmap. }
  cbn [input_vssts length g_l0_files g_l0_bytes] in Hh, Hlf, Hlb. rewrite Z.add_0_l in Hlf, Hlb.
  assert (Hlook : forall n, n ∈ input_numbers c -> is_Some (Registry.Lookup n g)).
  { intros n Hn. unfold Registry.LookupMany in Hh. apply list_elem_of_lookup in Hn as [i Hi].
    assert (Hi' : ((fun f => Registry.registry_ g !! f) <$> input_numbers c) !! i = Some (Registry.Lookup n g))
      by (by rewrite list_lookup_fmap, Hi).
    rewrite Hh, list_lookup_fmap in Hi'. destruct (drop 0 _ !! i); [|done]. injection Hi' as <-. done. }
  assert (Hb : build_request id g c gathered next vs = (r, next')) by congruence. clear Hrun.
  assert (Hp : pending_outputs r = zip (seqZ next (Z.of_nat (length vs))) vs).
  { unfold build_request in Hb. injection Hb as <- _. cbn [pending_outputs]. by rewrite add_outputs_pending. }
  assert (Hlen : length (pending_outputs r) = length vs) by (rewrite Hp, length_zip, length_seqZ; lia).
  pose proof (build_request_ok fsize Hfsize id g c gathered next vs Hnd Hnext Hlf Hlb) as H.
  rewrite Hb, <- Hp in H. destruct H as (H1 & H2 & _ & H4 & _ & H6 & H7); [done| |rewrite Hlen; by split_and!].
  rewrite Hp, sum_zip in Houtsum by (rewrite length_seqZ; lia). done.
Qed.

(** a trivial move of virtual files hands over a request that keeps every
    file under its number, metadata and registered descriptor and only changes
    its level. *)
Theorem PerformTrivialMove_request (fsize : Z -> Z) (file_exists : Z -> bool) (id : Z) (c : Compaction)
    (g : Registry.t) (v : Version.t) (r : Request)
    (Hrun : PerformTrivialMove file_exists id c g v = inr (Some r))
    (Hfsize : forall n, 0 <= fsize n)
    (Hsizes : Forall (fun lf => Version.fd_size lf.2 = fsize (Version.fd_number lf.2)) (moved_inputs c))
    (Hsum : foldr (fun lf b => fsize (Version.fd_number lf.2) + b) 0 (moved_inputs c) <= u64_max)
    (Hnd : NoDup ((fun lf => Version.fd_number lf.2) <$> moved_inputs c)) :
  System.request_ok fsize r /\ System.outs r = [] /\
  Version.deleted_files (edit r) = (fun lf => (lf.1, Version.fd_number lf.2)) <$> moved_inputs c /\
  Version.new_files (edit r) = (fun lf => (output_level c, lf.2)) <$> moved_inputs c /\
  exists moved, moved_virtuals r = Some moved /\
    Forall2 (fun lf m => m.1 = Version.fd_number lf.2 /\ Registry.Lookup m.1 g = Some m.2) (moved_inputs c) moved.
Proof.
  unfold PerformTrivialMove in Hrun.
  destruct (move_scan _ _ _ _ _ _) as [st|[moved physical]] eqn:Hs; [done|].
  destruct (decide (moved = [])) as [|_]; [done|]. destruct physical; [done|]. injection Hrun as <-.
  apply move_scan_spec in Hs as (vs & Hm & Hvs & _). cbn [app] in Hm.
  destruct (move_edit_spec (output_level c) (moved_inputs c) Version.empty_edit Hnd) as [Hd Hn].
  cbn [Version.deleted_files Version.new_files Version.empty_edit app] in Hd, Hn.
  assert (Hlen := Forall2_length _ _ _ Hvs).
  assert (Hfst : fst <$> moved = (fun lf => Version.fd_number lf.2) <$> moved_inputs c).
  { rewrite Hm. apply fst_zip. rewrite length_fmap. lia. }
  assert (Hlm : length moved = length (moved_inputs c)) by (rewrite Hm, length_zip, length_fmap; lia).
  assert (Hone : forall l : list (Z * Version.FileMetaData), foldr (fun _ b => 1 + b) 0 l = Z.of_nat (length l)).
  { induction l as [|x l IH]; cbn [foldr length]; [done|]. rewrite IH. lia. }
  split; [|split; [done|split; [exact Hd|split; [exact Hn|]]]].
  2:{ exists moved. split; [done|]. rewrite Hm. clear -Hvs. induction Hvs as [|lf x l vs Hl _ IH]; cbn; [done|].
      constructor; [done|exact IH]. }
  split; cbn.
  - intros n. unfold Version.removed. rewrite Hd, <- list_fmap_compose, Hfst. done.
  - split; [|done]. unfold Version.added. rewrite Hn, <- list_fmap_compose, Hfst. done.
  - rewrite Hd, !l0_deleted_weight, !l0_filter_weight.
    split; [symmetry; apply Hone|]. apply sum_sizes_spec; [done| |].
    + apply Forall_forall. intros x [_ Hx]%list_elem_of_filter. rewrite Forall_forall in Hsizes. auto.
    + rewrite <- Hsum. clear -Hfsize. induction (moved_inputs c) as [|x l IH]; [done|].
      cbn [foldr]. specialize (Hfsize (Version.fd_number x.2)) as Hx.
      destruct (decide (x.1 = 0)); [rewrite filter_cons_True by done; cbn; lia|rewrite filter_cons_False by done; lia].
  - rewrite Hn.
    assert (Hw : forall g, System.l0_added g ((fun lf => (output_level c, lf.2)) <$> moved_inputs c) =
      if decide (output_level c = 0) then foldr (fun lf b => g (Version.fd_number lf.2) + b) 0 (moved_inputs c) else 0).
    { clear. intros h. unfold System.l0_added. induction (moved_inputs c) as [|x l IH]; cbn; [by destruct (decide _)|].
      rewrite IH. by destruct (decide (output_level c = 0)). }
    rewrite !Hw. destruct (decide (output_level c = 0)); [|done]. rewrite Hlm, Hone.
    split; [done|]. by apply sum_sizes_spec.
Qed.

(** ** Instances *)

(** Two overlapping level-0 files compacted to level 1. *)
Definition sample_registry : Registry.t :=
  Registry.Register 8 (demo_vsst demo_b) (Registry.Register 7 (demo_vsst demo_a) Registry.init).

Definition sample_meta (n size : Z) : Version.FileMetaData := Version.mkMeta n size [] [] 0 0 n.

Definition sample_compaction : Compaction :=
  mkCompaction 0 [(0, [sample_meta 7 10; sample_meta 8 11]); (1, [])] 1 [].

Definition sample_version : Version.t :=
  <[7 := (0, sample_meta 7 10)]> {[8 := (0, sample_meta 8 11)]}.

Definition sample_run : option (Status + Request * Z) :=
  RunVirtualCompaction (mkEnv None None) [0; 1]%nat (fun _ => false) 1 sample_compaction
    sample_registry sample_version 20.

Definition sample_req : Request :=
  match sample_run with Some (inr (r, _)) => r | _ => mkReq 0 0 Version.empty_edit [] [] None 0 0 0 0 end.

Definition sample_size (n : Z) : Z :=
  if decide (n = 7) then 10 else if decide (n = 8) then 11
  else Z.max 0 (default 0 (size_bytes <$> (list_to_map (pending_outputs sample_req) : gmap Z VirtualSST) !! n)).

Lemma demo_elem v : v ∈ [demo_vsst demo_a; demo_vsst demo_b] -> Some v ∈ demo_merge_inputs.
Proof. rewrite !elem_of_cons. intros [-> | [-> | []%elem_of_nil]]; set_solver. Qed.

Lemma sample_ready : ready sample_registry sample_compaction [0; 1]%nat
  [demo_vsst demo_a; demo_vsst demo_b] demo_K.
Proof.
  split.
  - done.
  - split; [done|]. repeat constructor.
  - intros v Hv. split; [by apply demo_inputs_sound, demo_elem|].
    apply elem_of_cons in Hv as [-> | ->%list_elem_of_singleton]; by vm_compute.
  - intros v [[= ->]|[[= ->]|[]%not_elem_of_nil]%elem_of_cons]%elem_of_cons;
      (split; [by vm_compute|]; split; [by vm_compute|]; apply (bool_decide_unpack _); by vm_compute).
  - intros v [-> | ->%list_elem_of_singleton]%elem_of_cons; by vm_compute.
  - by vm_compute.
  - split; by vm_compute.
  - intros total m Hm.
    assert (Hd : match Merge.NWayMergeKMVRangeAware (Some <$> [demo_vsst demo_a; demo_vsst demo_b]) [0; 1]%nat with
      | Some (_, _, m) => bool_decide (Forall seg_fin (segments_ m)) | None => false end = true) by (by vm_compute).
    rewrite Hm in Hd. by apply bool_decide_eq_true in Hd.
  - split; [by vm_compute|]. split; [by vm_compute|]. split; [|by vm_compute]. apply (bool_decide_unpack _). by vm_compute.
  - constructor.
  - by vm_compute.
Qed.


Lemma RunVirtualCompaction_request_witness :
  System.request_ok sample_size sample_req /\ System.outs sample_req = [20].
Proof.
  destruct (RunVirtualCompaction_request sample_size (mkEnv None None) [0; 1]%nat (fun _ => false) 1
    sample_compaction sample_registry sample_version 20 sample_req 21) as (H1 & H2 & _).
  - by vm_compute.
  - intros n. unfold sample_size. repeat destruct (decide _); lia.
  - apply (bool_decide_unpack _). by vm_compute.
  - by vm_compute.
  - apply (bool_decide_unpack _). by vm_compute.
  - intros n Hn. unfold input_numbers in Hn. cbn in Hn. rewrite !elem_of_cons, elem_of_nil in Hn. lia.
  - apply (bool_decide_unpack _). by vm_compute.
  - by vm_compute.
  - split; [exact H1|]. rewrite H2. by vm_compute.
Defined.

(** The same files moved to level 1. *)
Lemma PerformTrivialMove_request_witness :
  exists r, PerformTrivialMove (fun _ => false) 1 sample_compaction sample_registry sample_version = inr (Some r) /\
    System.request_ok sample_size r /\ l0_input_bytes r = 21.
Proof.
  destruct (PerformTrivialMove (fun _ => false) 1 sample_compaction sample_registry sample_version)
    as [|[r|]] eqn:Hr; [by vm_compute in Hr| |by vm_compute in Hr].
  exists r. split; [done|]. split.
  - apply (PerformTrivialMove_request sample_size (fun _ => false) 1 sample_compaction sample_registry sample_version).
    + exact Hr.
    + intros n. unfold sample_size. repeat destruct (decide _); lia.
    + apply (bool_decide_unpack _). by vm_compute.
    + by vm_compute.
    + apply (bool_decide_unpack _). by vm_compute.
  - vm_compute in Hr. by injection Hr as <-.
Defined.

End RunVirtual.
