(* ===== verification/Install.v ===== *)
(** * Installing the materialized files

    [InstallVirtualCompactionMaterialization] of
    [db/db_impl/db_impl_compaction_flush.cc]: the edit that replaces every
    virtual file by its materialized table is checked, its files get file-global
    sequence numbers in the order of read precedence, and the version and the
    sequence counters change together or not at all.  The write queues the
    function enters are not modelled: they keep the sequence counters from
    changing during the call.  [std::sort] is not stable, so its result is an
    input: any order that satisfies [is_install_order]. *)

From Stdlib Require Import ZArith Lia Sorted.
From stdpp Require Import base numbers list gmap.
From S2P Require Import Prelude Registry Version.

Local Open Scope Z_scope.

Module Install.
Import Version.

(** ** State *)

(** What the function reads and writes of the database. *)
Record Db := mkDb {
  ver : Version.t;
  LastSequence : Z;
  LastAllocatedSequence : Z;
  LastPublishedSequence : Z;
  bg_work_paused : Z;
  mem_empty : bool;
  imm_not_flushed : Z;
  num_levels : Z;
  cf_id : Z;
  block_based : bool;
  timestamp_size : Z;
}.

(** ** Operations *)

(** The checks of one new file. *)
Definition check_file (levels : Z) (lf : Z * FileMetaData) : Status :=
  let '(level, f) := lf in
  match ParseInternalKey (smallest f), ParseInternalKey (largest f) with
  | Some s, Some l =>
      if decide (level < 0 \/ levels <= level \/ smallest_seqno f <> 0 \/ largest_seqno f <> 0 \/
                 sequence s <> 0 \/ sequence l <> 0 \/ type s <> kTypeValue \/ type l <> kTypeValue \/
                 Registry.slice_compare (user_key s) (user_key l) = Gt)
      then InvalidArgument else OK
  | _, _ => Corruption
  end.

Fixpoint check_files (levels : Z) (files : list (Z * FileMetaData)) : Status :=
  match files with
  | [] => OK
  | lf :: files' => match check_file levels lf with OK => check_files levels files' | s => s end
  end.

(** The comparison of the sort: [a] gets a smaller sequence than [b]. *)
Definition precedes (a b : Z * FileMetaData) : bool :=
  if decide (a.1 <> b.1) then bool_decide (b.1 < a.1)
  else if decide (meta_epoch a.2 <> meta_epoch b.2) then bool_decide (meta_epoch a.2 < meta_epoch b.2)
  else bool_decide (fd_number a.2 < fd_number b.2).

(** A permutation of the indices in which no element precedes an earlier one. *)
Definition is_install_order (files : list (Z * FileMetaData)) (order : list nat) : Prop :=
  order ≡ₚ seq 0 (length files) /\
  StronglySorted (fun i j => forall a b, files !! i = Some a -> files !! j = Some b -> precedes b a = false) order.

Definition set_sequence (s : Z) (lf : Z * FileMetaData) : Z * FileMetaData :=
  let '(level, f) := lf in
  (level, mkMeta (fd_number f) (fd_size f) (UpdateInternalKey (smallest f) s kTypeValue)
            (UpdateInternalKey (largest f) s kTypeValue) s s (meta_epoch f)).

(** The loop over [order]: the files and the last sequence. *)
Fixpoint assign (order : list nat) (seq : Z) (files : list (Z * FileMetaData))
    : list (Z * FileMetaData) * Z :=
  match order with
  | [] => (files, seq)
  | i :: order' => assign order' (seq + 1) (alter (set_sequence (seq + 1)) i files)
  end.

Definition max_sequence (db : Db) : Z :=
  Z.max (LastSequence db) (Z.max (LastAllocatedSequence db) (LastPublishedSequence db)).

(** Every current file is deleted by the edit. *)
Definition replaces_all (e : VersionEdit) (v : Version.t) : bool :=
  bool_decide (map_Forall (fun n lf => (lf.1, n) ∈ deleted_files e) v).

(** [InstallVirtualCompactionMaterialization]: the status, the database, and the
    edit, whose files are changed in place. *)
Definition InstallVirtualCompactionMaterialization (io_ok : bool) (edit_cf : Z) (order : list nat)
    (edit : option VersionEdit) (db : Db) : Status * Db * option VersionEdit :=
  match edit with
  | None => (InvalidArgument, db, edit)
  | Some e =>
      if decide (bg_work_paused db = 0 \/ mem_empty db = false \/ imm_not_flushed db <> 0)
      then (InvalidArgument, db, edit)
      else if decide (edit_cf <> cf_id db \/ block_based db = false \/ timestamp_size db <> 0)
      then (NotSupported, db, edit)
      else if negb (replaces_all e (ver db)) then (InvalidArgument, db, edit)
      else
        match check_files (num_levels db) (new_files e) with
        | OK =>
            let sequence := max_sequence db in
            let n := Z.of_nat (length (new_files e)) in
            if decide (kMaxSequenceNumber <= sequence \/ kMaxSequenceNumber - sequence <= n)
            then (InvalidArgument, db, edit)
            else
              let '(files, sequence) := assign order sequence (new_files e) in
              let e := mkEdit (deleted_files e) files (Some sequence) in
              match LogAndApply io_ok [e] (ver db) with
              | Some v =>
                  (OK, mkDb v sequence sequence sequence (bg_work_paused db) (mem_empty db)
                         (imm_not_flushed db) (num_levels db) (cf_id db) (block_based db)
                         (timestamp_size db), Some e)
              | None => (log_status io_ok [e] (ver db), db, Some e)
              end
        | s => (s, db, edit)
        end
  end.

(** ** Sequences *)

(** The files after the assignment: the file at position [k] of the order has the
    sequence [seq + k + 1]. *)
Lemma assign_spec : forall order seq files, NoDup order -> (forall i, i ∈ order -> (i < length files)%nat) ->
  (assign order seq files).2 = seq + Z.of_nat (length order) /\
  length (assign order seq files).1 = length files /\
  (forall k i lf, order !! k = Some i -> files !! i = Some lf ->
     (assign order seq files).1 !! i = Some (set_sequence (seq + Z.of_nat k + 1) lf)) /\
  (forall i, i ∉ order -> (assign order seq files).1 !! i = files !! i).
Proof.
  induction order as [|i order IH]; intros seq files Hnd Hlt; cbn [assign].
  - cbn. split_and!; [lia|done|done|done].
  - apply NoDup_cons in Hnd as [Hi Hnd].
    destruct (IH (seq + 1) (alter (set_sequence (seq + 1)) i files) Hnd) as (I1 & I2 & I3 & I4).
    { intros j Hj. rewrite length_alter. apply Hlt. by right. }
    rewrite length_alter in I2. split_and!; [rewrite I1; cbn [length]; lia|done| |].
    + intros [|k] j lf Hk Hf; cbn in Hk.
      * injection Hk as <-. rewrite I4, list_lookup_alter_eq, Hf by done. cbn. do 2 f_equal. lia.
      * rewrite (I3 k j lf Hk); [do 2 f_equal; lia|]. rewrite list_lookup_alter_ne; [done|].
        intros ->. apply Hi. by apply list_elem_of_lookup_2 in Hk.
    + intros j [Hj Hj']%not_elem_of_cons. rewrite I4 by done. by apply list_lookup_alter_ne.
Qed.

Lemma check_files_ok levels files : check_files levels files = OK ->
  Forall (fun lf => check_file levels lf = OK) files.
Proof.
  induction files as [|lf files IH]; cbn [check_files]; [constructor|].
  destruct (check_file levels lf) eqn:Hc; try done. intros H. constructor; auto.
Qed.

Lemma check_files_intro levels files : Forall (fun lf => check_file levels lf = OK) files -> check_files levels files = OK.
Proof. induction 1 as [|lf files Hlf _ IH]; cbn [check_files]; [done|]. by rewrite Hlf. Qed.

Lemma UpdateInternalKey_eq k seq t :
  UpdateInternalKey k seq t = InternalKey (take (length k - kNumInternalBytes) k) seq t.
Proof. done. Qed.

Lemma Parse_user_key k p : ParseInternalKey k = Some p ->
  user_key p = take (length k - kNumInternalBytes) k.
Proof.
  unfold ParseInternalKey. destruct (decide _); [done|]. destruct (IsExtendedValueType _); [|done].
  by intros [= <-].
Qed.

(** A checked file keeps its user keys, which parse with the new sequence. *)
Lemma set_sequence_keys levels level f s : check_file levels (level, f) = OK ->
  0 <= s <= kMaxSequenceNumber ->
  exists lo hi, ParseInternalKey (smallest f) = Some (mkParsed lo 0 kTypeValue) /\
    ParseInternalKey (largest f) = Some (mkParsed hi 0 kTypeValue) /\
    Registry.slice_compare lo hi <> Gt /\
    ParseInternalKey (smallest (set_sequence s (level, f)).2) = Some (mkParsed lo s kTypeValue) /\
    ParseInternalKey (largest (set_sequence s (level, f)).2) = Some (mkParsed hi s kTypeValue).
Proof.
  intros Hc Hs. unfold check_file in Hc.
  destruct (ParseInternalKey (smallest f)) as [[lo s1 t1]|] eqn:H1; [|done].
  destruct (ParseInternalKey (largest f)) as [[hi s2 t2]|] eqn:H2; [|done].
  destruct (decide _) as [|Hd]; [done|]. cbn in Hd.
  apply Parse_user_key in H1 as Hlo. apply Parse_user_key in H2 as Hhi. cbn in Hlo, Hhi.
  assert (s1 = 0 /\ s2 = 0 /\ t1 = kTypeValue /\ t2 = kTypeValue) as (-> & -> & -> & ->) by lia.
  exists lo, hi. split; [done|]. split; [done|]. split; [tauto|]. cbn.
  rewrite !UpdateInternalKey_eq, <- Hlo, <- Hhi.
  split; apply Parse_InternalKey; try done; by vm_compute.
Qed.

(** Every file has a position in the order. *)
Lemma order_rank files order i lf : is_install_order files order -> files !! i = Some lf ->
  exists k, order !! k = Some i /\ (k < length files)%nat.
Proof.
  intros [Hp _] Hi. assert (i ∈ order) as (k & Hk)%list_elem_of_lookup.
  { rewrite Hp. apply elem_of_seq. apply lookup_lt_Some in Hi. lia. }
  exists k. split; [done|]. apply lookup_lt_Some in Hk. by rewrite Hp, length_seq in Hk.
Qed.

Lemma assigned_files order seq files : is_install_order files order ->
  (assign order seq files).2 = seq + Z.of_nat (length files) /\
  forall i lf', (assign order seq files).1 !! i = Some lf' <->
    exists k lf, order !! k = Some i /\ files !! i = Some lf /\ lf' = set_sequence (seq + Z.of_nat k + 1) lf.
Proof.
  intros Ho. pose proof (proj1 Ho) as Hp.
  destruct (assign_spec order seq files) as (A1 & A2 & A3 & A4).
  { rewrite Hp. apply NoDup_seq. }
  { intros i Hi. rewrite Hp in Hi. apply elem_of_seq in Hi. lia. }
  split; [by rewrite A1, Hp, length_seq|]. intros i lf'. split.
  - intros Hi. apply lookup_lt_Some in Hi as Hlt. rewrite A2 in Hlt.
    apply lookup_lt_is_Some in Hlt as [lf Hlf]. destruct (order_rank _ _ _ _ Ho Hlf) as (k & Hk & _).
    exists k, lf. rewrite (A3 k i lf Hk Hlf) in Hi. by injection Hi as <-.
  - intros (k & lf & Hk & Hlf & ->). by apply A3.
Qed.

(** A file that precedes another one gets the smaller sequence. *)
Lemma assigned_precedence files order i j a b ki kj : is_install_order files order ->
  order !! ki = Some i -> order !! kj = Some j -> files !! i = Some a -> files !! j = Some b ->
  precedes a b = true -> (ki < kj)%nat.
Proof.
  intros [_ Hs] Hi Hj Ha Hb Hp. destruct (lt_eq_lt_dec ki kj) as [[? | -> ]|Hlt]; [done| |].
  - rewrite Hi in Hj. injection Hj as ->. rewrite Ha in Hb. injection Hb as ->.
    revert Hp. unfold precedes. repeat case_decide; rewrite ?bool_decide_eq_true; lia.
  - pose proof (StronglySorted_lookup _ _ _ _ _ _ Hs Hlt Hj Hi b a Hb Ha) as Hf. cbn in Hf. congruence.
Qed.

(** What a successful call went through. *)
Lemma Install_OK_inv io_ok cf order edit db db' edit' :
  InstallVirtualCompactionMaterialization io_ok cf order edit db = (OK, db', edit') ->
  exists e files seq v, edit = Some e /\ check_files (num_levels db) (new_files e) = OK /\
    replaces_all e (ver db) = true /\
    max_sequence db + Z.of_nat (length (new_files e)) < kMaxSequenceNumber /\
    assign order (max_sequence db) (new_files e) = (files, seq) /\
    edit' = Some (mkEdit (deleted_files e) files (Some seq)) /\
    Apply (mkEdit (deleted_files e) files (Some seq)) (ver db) = Some v /\
    ver db' = v /\ LastSequence db' = seq /\ LastAllocatedSequence db' = seq /\
    LastPublishedSequence db' = seq.
Proof.
  unfold InstallVirtualCompactionMaterialization. destruct edit as [e|]; [|done].
  destruct (decide _); [done|]. destruct (decide _); [done|].
  destruct (replaces_all e (ver db)) eqn:Hr; [cbn [negb]|done].
  destruct (check_files _ _) eqn:Hc; try done. destruct (decide _) as [|Hd]; [done|].
  destruct (assign _ _ _) as [files seq] eqn:Ha. destruct (LogAndApply _ _ _) as [v|] eqn:Hl.
  - intros [= <- <-]. unfold LogAndApply in Hl. destruct io_ok; [|done]. cbn [apply_edits] in Hl.
    destruct (Apply _ (ver db)) as [v0|] eqn:Hv; [|done]. injection Hl as ->.
    exists e, files, seq, v. split_and!; try done. lia.
  - intros [= H _ _]. apply log_status_OK in H. rewrite Hl in H. by destruct H.
Qed.

Lemma assign_numbers order : forall seq files,
  (fun lf => fd_number lf.2) <$> (assign order seq files).1 = (fun lf => fd_number lf.2) <$> files.
Proof.
  induction order as [|i order IH]; intros seq files; cbn [assign]; [done|]. rewrite IH.
  revert i. induction files as [|[level f] files IH']; intros [|i]; [done..|]. cbn. f_equal. apply IH'.
Qed.

(** When the preconditions hold and the write goes through, so does the call. *)
Lemma Install_succeeds order e db : bg_work_paused db <> 0 -> mem_empty db = true -> imm_not_flushed db = 0 ->
  block_based db = true -> timestamp_size db = 0 ->
  (forall level n, (level, n) ∈ deleted_files e <-> GetFileLocation n (ver db) = Some level) ->
  NoDup (removed e) -> NoDup (added e) -> Forall (fun lf => check_file (num_levels db) lf = OK) (new_files e) ->
  max_sequence db + Z.of_nat (length (new_files e)) < kMaxSequenceNumber ->
  exists db' e', InstallVirtualCompactionMaterialization true (cf_id db) order (Some e) db = (OK, db', Some e').
Proof.
  intros H1 H2 H3 H4 H5 Hdel Hr Ha Hc Hs. unfold InstallVirtualCompactionMaterialization.
  rewrite decide_False by (rewrite H2; intuition congruence). rewrite decide_False by (rewrite H4; intuition congruence).
  assert (replaces_all e (ver db) = true) as ->.
  { apply bool_decide_eq_true. intros n [level f] Hn. apply Hdel. unfold GetFileLocation. by rewrite Hn. }
  assert (check_files (num_levels db) (new_files e) = OK) as -> by (by apply check_files_intro).
  cbn [negb]. rewrite decide_False by lia. pose proof (assign_numbers order (max_sequence db) (new_files e)) as Hn.
  destruct (assign _ _ _) as [files seq]. cbn [fst] in Hn. set (e' := mkEdit _ files _).
  destruct (Apply_ok e' (ver db)) as [v Hv]; [done|done|by unfold added, e'; cbn [new_files]; rewrite Hn|].
  unfold LogAndApply. cbn [apply_edits]. rewrite Hv. cbn [mbind option_bind]. by eexists _, _.
Qed.

Lemma Install_unchanged io_ok cf order edit db s db' edit' :
  InstallVirtualCompactionMaterialization io_ok cf order edit db = (s, db', edit') -> s <> OK -> db' = db.
Proof.
  unfold InstallVirtualCompactionMaterialization. destruct edit as [e|]; [|by intros [= <- <- <-]].
  destruct (decide _); [by intros [= <- <- <-]|]. destruct (decide _); [by intros [= <- <- <-]|].
  destruct (replaces_all e (ver db)); cbn [negb]; [|by intros [= <- <- <-]].
  destruct (check_files _ _); try by intros [= <- <- <-]. destruct (decide _); [by intros [= <- <- <-]|].
  destruct (assign _ _ _) as [files seq]. by destruct (LogAndApply _ _ _); intros [= <- <- <-].
Qed.

Lemma Install_write io_ok cf order edit db db' edit' :
  InstallVirtualCompactionMaterialization io_ok cf order edit db = (OK, db', edit') -> io_ok = true.
Proof.
  destruct io_ok; [done|]. unfold InstallVirtualCompactionMaterialization. destruct edit as [e|]; [|done].
  destruct (decide _); [done|]. destruct (decide _); [done|]. destruct (replaces_all e (ver db)); cbn [negb]; [|done].
  destruct (check_files _ _); try done. destruct (decide _); [done|]. destruct (assign _ _ _) as [files seq].
  unfold LogAndApply, log_status. by destruct (apply_edits _ _).
Qed.

(** A lookup reads [a] before [b]: a lower level, or a newer file of a level. *)
Definition reads_before (a b : Z * FileMetaData) : Prop :=
  a.1 < b.1 \/
  a.1 = b.1 /\ (meta_epoch b.2 < meta_epoch a.2 \/ meta_epoch a.2 = meta_epoch b.2 /\ fd_number b.2 < fd_number a.2).

Lemma reads_before_precedes a b : reads_before a b <-> precedes b a = true.
Proof. unfold reads_before, precedes. repeat case_decide; rewrite bool_decide_eq_true; lia. Qed.

Lemma precedes_set_sequence s t a b : precedes (set_sequence s a) (set_sequence t b) = precedes a b.
Proof. by destruct a, b. Qed.

(** The version after an edit that replaces every file. *)
Lemma replaces_all_version e files seq v v' : replaces_all e v = true ->
  Apply (mkEdit (deleted_files e) files seq) v = Some v' ->
  forall n lf, v' !! n = Some lf <-> lf ∈ files /\ fd_number lf.2 = n.
Proof.
  intros Hr%bool_decide_eq_true (_ & _ & _ & _ & Hnew & Hgone & Hold)%Apply_spec n lf. cbn in *.
  assert (forall lf, lf ∈ files -> v' !! fd_number lf.2 = Some lf) as Hn.
  { intros [l f] H. by apply (Hnew l f). }
  split; [|intros [? <-]; auto]. intros Hv'.
  destruct (decide (n ∈ added (mkEdit (deleted_files e) files seq))) as [Ha|Ha].
  - unfold added in Ha. apply list_elem_of_fmap in Ha as (lf' & -> & Hin). cbn in Hin.
    rewrite (Hn lf' Hin) in Hv'. by injection Hv' as ->.
  - destruct (decide (n ∈ removed (mkEdit (deleted_files e) files seq))) as [Hd|Hd].
    + by rewrite Hgone in Hv'.
    + rewrite Hold in Hv' by done. apply Hr in Hv'. destruct Hd. unfold removed.
      apply list_elem_of_fmap. by exists (lf.1, n).
Qed.

(** ** Properties *)

(** What a successful call does. *)
Lemma Install_spec io_ok cf order e db db' e'
    (Horder : is_install_order (new_files e) order) (Hseq : 0 <= LastSequence db)
    (Hok : InstallVirtualCompactionMaterialization io_ok cf order (Some e) db = (OK, db', Some e')) :
  (forall n lf, ver db' !! n = Some lf <-> lf ∈ new_files e' /\ fd_number lf.2 = n) /\
  (forall i lf, new_files e' !! i = Some lf -> exists lf0 lo hi, new_files e !! i = Some lf0 /\
     lf = set_sequence (smallest_seqno lf.2) lf0 /\
     ParseInternalKey (smallest lf0.2) = Some (mkParsed lo 0 kTypeValue) /\
     ParseInternalKey (smallest lf.2) = Some (mkParsed lo (smallest_seqno lf.2) kTypeValue) /\
     ParseInternalKey (largest lf0.2) = Some (mkParsed hi 0 kTypeValue) /\
     ParseInternalKey (largest lf.2) = Some (mkParsed hi (smallest_seqno lf.2) kTypeValue) /\
     max_sequence db < smallest_seqno lf.2 <= LastSequence db') /\
  (forall i j a b, new_files e' !! i = Some a -> new_files e' !! j = Some b ->
     smallest_seqno a.2 = smallest_seqno b.2 -> i = j) /\
  (forall a b, a ∈ new_files e' -> b ∈ new_files e' -> reads_before a b ->
     smallest_seqno b.2 < smallest_seqno a.2) /\
  LastSequence db' = max_sequence db + Z.of_nat (length (new_files e)) /\
  LastAllocatedSequence db' = LastSequence db' /\ LastPublishedSequence db' = LastSequence db' /\
  LastSequence db' < kMaxSequenceNumber.
Proof.
  apply Install_OK_inv in Hok as (e0 & files & seq & v & [= <-] & Hc & Hr & Hlt & Ha & [= ->] & Hv & Hv' & L1 & L2 & L3).
  cbn [new_files]. rewrite Hv', L1, L2, L3.
  destruct (assigned_files order (max_sequence db) _ Horder) as [Hs Hf]. rewrite Ha in Hs, Hf. cbn in Hs, Hf.
  split_and!; try done; [by eapply replaces_all_version| | | |lia].
  - intros i lf Hi. apply Hf in Hi as (k & [l f] & Hk & Hlf & ->).
    destruct (order_rank _ _ _ _ Horder Hlf) as (k' & Hk' & Hlt').
    assert (k = k') as <-.
    { eapply NoDup_lookup; [|done|done]. rewrite (proj1 Horder). apply NoDup_seq. }
    destruct (set_sequence_keys (num_levels db) l f (max_sequence db + Z.of_nat k + 1))
      as (lo & hi & P1 & P2 & _ & P3 & P4).
    { apply check_files_ok in Hc. rewrite Forall_lookup in Hc. by apply (Hc i). }
    { unfold max_sequence in *. lia. }
    exists (l, f), lo, hi. split_and!; try done; cbn; lia.
  - intros i j a b Hi Hj Heq. apply Hf in Hi as (ki & [la fa] & Hki & _ & ->).
    apply Hf in Hj as (kj & [lb fb] & Hkj & _ & ->). cbn in Heq.
    assert (ki = kj) as -> by lia. congruence.
  - intros a b [i Hi]%list_elem_of_lookup [j Hj]%list_elem_of_lookup Hp.
    apply Hf in Hi as (ki & a0 & Hki & Hla & ->). apply Hf in Hj as (kj & b0 & Hkj & Hlb & ->).
    apply reads_before_precedes in Hp. rewrite precedes_set_sequence in Hp.
    pose proof (assigned_precedence _ _ _ _ _ _ _ _ Horder Hkj Hki Hlb Hla Hp).
    destruct a0, b0. cbn. lia.
Qed.

(** C19: A successful installation replaces the whole version: the new version is
    exactly the files of the edit, each with the user keys it came with.  The
    files carry distinct sequences above every sequence in use and below the
    sentinel, a file that lookups read first carries the larger one, both bound
    keys carry the file's sequence, and the three sequence counters are the last
    one assigned. *)
Theorem Install_precedence io_ok cf order e db db' e'
    (Horder : is_install_order (new_files e) order) (Hseq : 0 <= LastSequence db)
    (Hok : InstallVirtualCompactionMaterialization io_ok cf order (Some e) db = (OK, db', Some e')) :
  (forall n lf, ver db' !! n = Some lf <-> lf ∈ new_files e' /\ fd_number lf.2 = n) /\
  (forall i lf, new_files e' !! i = Some lf -> exists lf0 lo hi, new_files e !! i = Some lf0 /\
     lf = set_sequence (smallest_seqno lf.2) lf0 /\
     ParseInternalKey (smallest lf0.2) = Some (mkParsed lo 0 kTypeValue) /\
     ParseInternalKey (smallest lf.2) = Some (mkParsed lo (smallest_seqno lf.2) kTypeValue) /\
     ParseInternalKey (largest lf0.2) = Some (mkParsed hi 0 kTypeValue) /\
     ParseInternalKey (largest lf.2) = Some (mkParsed hi (smallest_seqno lf.2) kTypeValue) /\
     max_sequence db < smallest_seqno lf.2 <= LastSequence db') /\
  (forall i j a b, new_files e' !! i = Some a -> new_files e' !! j = Some b ->
     smallest_seqno a.2 = smallest_seqno b.2 -> i = j) /\
  (forall a b, a ∈ new_files e' -> b ∈ new_files e' -> reads_before a b ->
     smallest_seqno b.2 < smallest_seqno a.2) /\
  LastSequence db' = max_sequence db + Z.of_nat (length (new_files e)) /\
  LastAllocatedSequence db' = LastSequence db' /\ LastPublishedSequence db' = LastSequence db' /\
  LastSequence db' < kMaxSequenceNumber.
Proof. by apply (Install_spec io_ok cf order e). Qed.

(** Two virtual files, replaced by a table at level 1 and two overlapping tables
    at level 0, the second of which is newer. *)
Definition sample_key (b : Z) : list Z := InternalKey [b] 0 kTypeValue.
Definition sample_meta (n epoch : Z) : FileMetaData :=
  mkMeta n 100 (sample_key 10) (sample_key 20) 0 0 epoch.
Definition sample_edit : VersionEdit :=
  mkEdit [(0, 1); (1, 2)] [(0, sample_meta 12 7); (1, sample_meta 10 9); (0, sample_meta 11 3)] None.
Definition sample_db : Db :=
  mkDb {[1 := (0, sample_meta 1 1); 2 := (1, sample_meta 2 1)]} 5 6 4 1 true 0 7 0 true 0.
Definition sample_installed : Db * option VersionEdit :=
  let '(_, db, e) := InstallVirtualCompactionMaterialization true 0 [1; 2; 0]%nat (Some sample_edit) sample_db in
  (db, e).

Lemma sample_order : is_install_order (new_files sample_edit) [1; 2; 0]%nat.
Proof.
  split; [apply (bool_decide_unpack _); by vm_compute|].
  repeat constructor; intros a b [= <-] [= <-]; by vm_compute.
Qed.

Lemma Install_precedence_witness :
  LastSequence sample_installed.1 = 9 /\
  forall a b, a ∈ new_files (default empty_edit sample_installed.2) ->
    b ∈ new_files (default empty_edit sample_installed.2) -> reads_before a b ->
    smallest_seqno b.2 < smallest_seqno a.2.
Proof.
  split; [by vm_compute|].
  refine (proj1 (proj2 (proj2 (proj2 (Install_precedence true 0 [1; 2; 0]%nat sample_edit sample_db
    sample_installed.1 (default empty_edit sample_installed.2) sample_order _ _))))).
  - by vm_compute.
  - by vm_compute.
Defined.

(** Whatever the check, the sequence space or the MANIFEST write that fails, an
    error leaves the version and the three sequence counters as they were, and
    success needs paused background work, empty memtables, the default column
    family with block-based tables, and an edit that deletes every current file. *)
Theorem Install_errors io_ok cf order edit db :
  let '(s, db', edit') := InstallVirtualCompactionMaterialization io_ok cf order edit db in
  (s <> OK -> db' = db) /\
  (s = OK -> io_ok = true /\ bg_work_paused db <> 0 /\ mem_empty db = true /\ imm_not_flushed db = 0 /\
     cf = cf_id db /\ block_based db = true /\ timestamp_size db = 0 /\
     exists e, edit = Some e /\ replaces_all e (ver db) = true /\
       max_sequence db + Z.of_nat (length (new_files e)) < kMaxSequenceNumber).
Proof.
  unfold InstallVirtualCompactionMaterialization. destruct edit as [e|]; [|done].
  destruct (decide _) as [|H1]; [done|]. destruct (decide _) as [|H2]; [done|].
  destruct (replaces_all e (ver db)) eqn:Hr; [cbn [negb]|done].
  destruct (check_files _ _) eqn:Hc; try done. destruct (decide _) as [|Hd]; [done|].
  destruct (assign _ _ _) as [files seq]. destruct (LogAndApply _ _ _) as [v|] eqn:Hl.
  - split; [done|]. intros _. unfold LogAndApply in Hl. destruct io_ok; [|done].
    destruct (mem_empty db), (block_based db); try tauto. split_and!; try done; try lia.
    exists e. split_and!; try done. lia.
  - split; [done|]. intros H%log_status_OK. rewrite Hl in H. by destruct H.
Qed.

End Install.
