(* ===== verification/Bitmap.v ===== *)
(** * Key bitmaps

    The word-level scans that [UniqueKeyReservation] and [KeyMembership] of
    [tools/db_bench_tool.cc] share: one bit per key id, read and set 64 keys at a
    time.  A scan is shown to enumerate the keys of a range in ascending order, and
    words of bits to represent a set of keys ([holds]). *)

From Stdlib Require Import ZArith Lia Bool.
From stdpp Require Import base numbers list sorting gmap.
From S2P Require Import Prelude.

Local Open Scope Z_scope.

Module Bits.

(** ** Words *)

(** The positions of the set bits of a 64-bit word, ascending. *)
Definition word_bits (w : Z) : list Z := filter (fun i => Z.testbit w i = true) (seqZ 0 64).

(** [util/math.h]: population count and the lowest set bit (of a non-zero word). *)
Definition BitsSetToOne (w : Z) : Z := Z.of_nat (length (word_bits w)).
Definition CountTrailingZeroBits (w : Z) : Z := default 0 (head (word_bits w)).

(** [~x] and [x & (x - 1)] at 64 bits. *)
Definition not64 (x : Z) : Z := u64 (Z.lnot x).
Definition clear_lowest (x : Z) : Z := Z.land x (x -% 1).

(** The mask [ForEachWord] passes for one word. *)
Definition word_mask (first last word : Z) : Z :=
  let low_bit := if decide (word = Z.shiftr first 6) then Z.land first 63 else 0 in
  let high_bit := if decide (word = Z.shiftr last 6) then Z.land last 63 else 63 in
  Z.land (u64 (Z.shiftl u64_max low_bit)) (Z.shiftr u64_max (63 - high_bit)).

Section for_each_word.
Context {A : Type}.
(** The callback: the new accumulator, and whether to continue. *)
Variable fn : Z -> Z -> A -> A * bool.

Fixpoint for_words (first last word : Z) (n : nat) (acc : A) : A :=
  match n with
  | O => acc
  | S n =>
      let '(acc, go) := fn word (word_mask first last word) acc in
      if go then for_words first last (word + 1) n acc else acc
  end.

Definition ForEachWord (key_domain first last : Z) (acc : A) : A :=
  if decide (last < first \/ key_domain <= first) then acc
  else
    let last := if decide (key_domain <= last) then key_domain - 1 else last in
    for_words first last (Z.shiftr first 6)
      (Z.to_nat (Z.shiftr last 6 - Z.shiftr first 6 + 1)) acc.
End for_each_word.

(** ** Bit lemmas *)

Lemma testbit_u64 x i : 0 <= i < 64 -> Z.testbit (u64 x) i = Z.testbit x i.
Proof. intros H. unfold u64. apply Z.mod_pow2_bits_low. lia. Qed.

Lemma testbit_not64 x i : 0 <= i < 64 -> Z.testbit (not64 x) i = negb (Z.testbit x i).
Proof. intros H. unfold not64. rewrite testbit_u64 by done. apply Z.lnot_spec. lia. Qed.

Lemma testbit_u64_max i : 0 <= i -> Z.testbit u64_max i = bool_decide (i < 64).
Proof.
  intros H. change u64_max with (Z.ones 64). rewrite Z.testbit_ones_nonneg by lia.
  case_bool_decide; [apply Z.ltb_lt|apply Z.ltb_ge]; lia.
Qed.

Lemma land_63 x : Z.land x 63 = x mod 64.
Proof. change 63 with (Z.ones 6). by rewrite Z.land_ones by lia. Qed.

Lemma shiftr_6 x : Z.shiftr x 6 = x / 64.
Proof. by rewrite Z.shiftr_div_pow2 by lia. Qed.

(** The mask covers exactly the range's bits of the word. *)
Lemma word_mask_spec first last word i : 0 <= first -> 0 <= i < 64 ->
  first / 64 <= word <= last / 64 ->
  Z.testbit (word_mask first last word) i = bool_decide (first <= 64 * word + i <= last).
Proof.
  intros Hf Hi Hw. unfold word_mask. rewrite !shiftr_6, !land_63.
  set (low := if decide (word = first / 64) then first mod 64 else 0).
  set (high := if decide (word = last / 64) then last mod 64 else 63).
  assert (0 <= low < 64 /\ (low <= i <-> first <= 64 * word + i)) as [Hl Hl'].
  { subst low. case_decide; Z.to_euclidean_division_equations; lia. }
  assert (0 <= high < 64 /\ (i <= high <-> 64 * word + i <= last)) as [Hh Hh'].
  { subst high. case_decide; Z.to_euclidean_division_equations; lia. }
  rewrite Z.land_spec, testbit_u64, Z.shiftl_spec, Z.shiftr_spec by lia.
  rewrite (testbit_u64_max (i + _)) by lia.
  destruct (decide (low <= i)) as [H|H].
  - rewrite testbit_u64_max by lia. rewrite (bool_decide_true (i - low < 64)) by lia. cbn.
    apply bool_decide_ext. lia.
  - rewrite Z.testbit_neg_r by lia. cbn. symmetry. apply bool_decide_false. lia.
Qed.

Lemma elem_of_word_bits w i : i ∈ word_bits w <-> 0 <= i < 64 /\ Z.testbit w i = true.
Proof. unfold word_bits. rewrite list_elem_of_filter, elem_of_seqZ. naive_solver lia. Qed.

Lemma word_bits_nil w : word_bits w = [] <-> forall i, 0 <= i < 64 -> Z.testbit w i = false.
Proof.
  split.
  - intros H i Hi. destruct (Z.testbit w i) eqn:E; [|done].
    assert (i ∈ word_bits w) as Hin by (by apply elem_of_word_bits). rewrite H in Hin. by apply elem_of_nil in Hin.
  - intros H. destruct (word_bits w) as [|i l] eqn:E; [done|].
    assert (i ∈ word_bits w) as [? Hi]%elem_of_word_bits by (rewrite E; by left). by rewrite H in Hi.
Qed.

Lemma is_u64_testbit_high w i : is_u64 w -> 64 <= i -> Z.testbit w i = false.
Proof.
  intros Hw Hi. rewrite <- (u64_small w Hw). unfold u64. apply Z.mod_pow2_bits_high. lia.
Qed.

(** A 64-bit word without set bits is zero. *)
Lemma word_bits_zero w : is_u64 w -> word_bits w = [] <-> w = 0.
Proof.
  intros Hw. rewrite word_bits_nil. split; [|by intros -> i _; apply Z.bits_0].
  intros H. apply Z.bits_inj'. intros i Hi. rewrite Z.bits_0.
  destruct (decide (i < 64)); [by apply H|]. apply is_u64_testbit_high; [done|lia].
Qed.

Lemma seqZ_sorted a n : StronglySorted Z.lt (seqZ a n).
Proof.
  apply StronglySorted_of_lookup. intros i j x y Hij Hi Hj.
  apply lookup_seqZ in Hi, Hj. lia.
Qed.

Lemma word_bits_sorted w : StronglySorted Z.lt (word_bits w).
Proof. apply StronglySorted_filter, seqZ_sorted. Qed.

(** The lowest set bit: nothing is set below it. *)
Lemma word_bits_cons w i l : word_bits w = i :: l ->
  0 <= i < 64 /\ Z.testbit w i = true /\ forall j, 0 <= j < i -> Z.testbit w j = false.
Proof.
  intros E. assert (i ∈ word_bits w) as [Hi Ht]%elem_of_word_bits by (rewrite E; by left).
  split_and!; try done; try lia. intros j Hj. destruct (Z.testbit w j) eqn:Hb; [|done].
  assert (j ∈ word_bits w) as Hin by (apply elem_of_word_bits; split; [lia|done]).
  pose proof (word_bits_sorted w) as Hs. rewrite E in Hs, Hin.
  apply elem_of_cons in Hin as [->|Hin]; [lia|]. apply StronglySorted_inv in Hs as [_ Hs].
  rewrite Forall_forall in Hs. specialize (Hs j Hin). lia.
Qed.

(** [x & (x - 1)] clears the lowest set bit. *)
Lemma clear_lowest_spec w i j : is_u64 w -> 0 <= i < 64 -> Z.testbit w i = true ->
  (forall k, 0 <= k < i -> Z.testbit w k = false) -> 0 <= j ->
  Z.testbit (clear_lowest w) j = Z.testbit w j && negb (bool_decide (j = i)).
Proof.
  intros Hw Hi Ht Hlow Hj.
  assert (Hmod : w mod 2 ^ (i + 1) = 2 ^ i).
  { apply Z.bits_inj'. intros k Hk. rewrite Z.pow2_bits_eqb by lia.
    destruct (decide (k < i + 1)).
    - rewrite Z.mod_pow2_bits_low by lia. destruct (Z.eqb_spec i k) as [<-|]; [done|]. apply Hlow. lia.
    - rewrite Z.mod_pow2_bits_high by lia. symmetry. apply Z.eqb_neq. lia. }
  pose proof (Z.div_mod w (2 ^ (i + 1)) ltac:(lia)) as Hdm. rewrite Hmod in Hdm.
  assert (0 < 2 ^ i) by lia. unfold is_u64 in Hw.
  assert (0 <= w / 2 ^ (i + 1)) by (apply Z.div_pos; lia).
  assert (Hcarry : Z.land (Z.shiftl (w / 2 ^ (i + 1)) (i + 1)) (Z.ones i) = 0).
  { apply Z.bits_inj'. intros k Hk. rewrite Z.land_spec, Z.bits_0, Z.testbit_ones_nonneg by lia.
    destruct (decide (k < i)); [rewrite Z.shiftl_spec_low by lia; done|].
    replace (k <? i) with false by (symmetry; apply Z.ltb_ge; lia). apply andb_false_r. }
  assert (w -% 1 = Z.lor (Z.shiftl (w / 2 ^ (i + 1)) (i + 1)) (Z.ones i)) as Hm1.
  { rewrite u64_small by (unfold is_u64; nia). rewrite <- Z.lxor_lor, <- Z.add_nocarry_lxor by done.
    rewrite Z.shiftl_mul_pow2, Z.ones_equiv by lia. lia. }
  unfold clear_lowest. rewrite Z.land_spec, Hm1, Z.lor_spec, Z.testbit_ones_nonneg by lia.
  destruct (decide (j < i)) as [Hji|Hji].
  - by rewrite (Hlow j) by lia.
  - replace (j <? i) with false by (symmetry; apply Z.ltb_ge; lia). rewrite orb_false_r.
    destruct (decide (j = i)) as [->|Hne].
    + rewrite Z.shiftl_spec_low by lia. by rewrite bool_decide_true.
    + rewrite Z.shiftl_spec, Z.div_pow2_bits by lia. replace (j - (i + 1) + (i + 1)) with j by lia.
      rewrite bool_decide_false by done. destruct (Z.testbit w j); done.
Qed.

Lemma filter_tail {A} (P Q : A -> Prop) `{forall x, Decision (P x)} `{forall x, Decision (Q x)} l x k :
  NoDup l -> filter P l = x :: k -> (forall y, y ∈ l -> Q y <-> P y /\ y <> x) -> filter Q l = k.
Proof.
  induction l as [|y l IH]; [done|]. intros [Hy Hnd]%NoDup_cons Hf Hq.
  rewrite filter_cons in Hf |- *. pose proof (Hq y (list_elem_of_here _ _)) as Hqy.
  assert (forall z, z ∈ l -> Q z <-> P z /\ z <> x) as Hq' by (intros z Hz; apply Hq; by right).
  destruct (decide (P y)) as [Hp|Hp].
  - injection Hf as -> <-. rewrite decide_False by naive_solver.
    apply list_filter_ext_in. intros z Hz. rewrite Hq' by done. split; [tauto|]. intros ?. split; [done|]. by intros ->.
  - rewrite decide_False by naive_solver. by apply IH.
Qed.

Lemma word_bits_clear_lowest w i l : is_u64 w -> word_bits w = i :: l -> word_bits (clear_lowest w) = l.
Proof.
  intros Hw E. destruct (word_bits_cons w i l E) as (Hi & Ht & Hlow).
  unfold word_bits in *. refine (filter_tail _ _ _ i l (NoDup_seqZ _ _) E _). intros j [Hj _]%elem_of_seqZ.
  rewrite (clear_lowest_spec w i j) by done. rewrite andb_true_iff, negb_true_iff, bool_decide_eq_false. done.
Qed.

Lemma is_u64_ones x : is_u64 x <-> Z.land x (Z.ones 64) = x.
Proof.
  rewrite Z.land_ones by lia. split; [apply u64_small|]. intros <-. apply u64_range.
Qed.

Lemma is_u64_land a b : is_u64 a -> is_u64 (Z.land a b).
Proof.
  rewrite !is_u64_ones. intros H. by rewrite (Z.land_comm a b), <- Z.land_assoc, H.
Qed.

Lemma is_u64_lor a b : is_u64 a -> is_u64 b -> is_u64 (Z.lor a b).
Proof. rewrite !is_u64_ones. intros Ha Hb. by rewrite Z.land_lor_distr_l, Ha, Hb. Qed.

Lemma clear_lowest_u64 w : is_u64 w -> is_u64 (clear_lowest w).
Proof. apply is_u64_land. Qed.

(** ** Keys of a range *)

(** The keys of [first..last] whose bit is set in the words [f]. *)
Definition key_bit (f : Z -> Z) (k : Z) : Prop := Z.testbit (f (k / 64)) (k mod 64) = true.
#[global] Instance key_bit_dec f k : Decision (key_bit f k).
Proof. unfold key_bit. apply _. Defined.
Definition range_keys (f : Z -> Z) (first last : Z) : list Z :=
  filter (key_bit f) (seqZ first (last - first + 1)).

(** The keys that one step of [ForEachWord] sees, and those of [n] steps. *)
Definition word_keys (f : Z -> Z) (first last word : Z) : list Z :=
  (fun b => 64 * word + b) <$> word_bits (Z.land (word_mask first last word) (f word)).
Definition scan_keys (f : Z -> Z) (first last word : Z) (n : nat) : list Z :=
  seqZ word (Z.of_nat n) ≫= word_keys f first last.

Lemma scan_keys_S f first last word n :
  scan_keys f first last word (S n) = word_keys f first last word ++ scan_keys f first last (word + 1) n.
Proof.
  unfold scan_keys. rewrite seqZ_cons by lia. rewrite bind_cons. do 3 f_equal; lia.
Qed.

Lemma scan_keys_0 f first last word : scan_keys f first last word 0 = [].
Proof. done. Qed.

Lemma filter_fmap {A B} (P : B -> Prop) `{forall x, Decision (P x)} (g : A -> B) (l : list A) :
  filter P (g <$> l) = g <$> filter (fun x => P (g x)) l.
Proof.
  induction l as [|x l IH]; [done|]. rewrite fmap_cons, !filter_cons. case_decide; [|done].
  by rewrite fmap_cons, IH.
Qed.

Lemma seqZ_shift a n : seqZ a n = (fun b => a + b) <$> seqZ 0 n.
Proof. rewrite fmap_add_seqZ. f_equal. lia. Qed.

(** One word contributes the keys of the range that lie in it. *)
Lemma word_keys_spec f first last word : 0 <= first -> first / 64 <= word <= last / 64 ->
  word_keys f first last word = filter (fun k => first <= k <= last /\ key_bit f k) (seqZ (64 * word) 64).
Proof.
  intros Hf Hw. rewrite seqZ_shift, filter_fmap. unfold word_keys, word_bits. f_equal.
  apply list_filter_ext_in. intros i Hi%elem_of_seqZ.
  rewrite Z.land_spec, word_mask_spec, andb_true_iff, bool_decide_eq_true by lia. unfold key_bit.
  replace ((64 * word + i) / 64) with word by (Z.to_euclidean_division_equations; lia).
  replace ((64 * word + i) mod 64) with i by (Z.to_euclidean_division_equations; lia). done.
Qed.

Lemma seqZ_words word n : seqZ (64 * word) (64 * Z.of_nat n) = seqZ word (Z.of_nat n) ≫= (fun w => seqZ (64 * w) 64).
Proof.
  revert word. induction n as [|n IH]; intros word; [done|].
  rewrite (seqZ_cons word) by lia. rewrite bind_cons.
  replace (Z.pred (Z.of_nat (S n))) with (Z.of_nat n) by lia. rewrite <- (IH (Z.succ word)).
  replace (64 * Z.of_nat (S n)) with (64 + 64 * Z.of_nat n) by lia.
  rewrite seqZ_app by lia. do 2 f_equal. lia.
Qed.

Lemma filter_bind {A B} (P : B -> Prop) `{forall x, Decision (P x)} (g : A -> list B) (l : list A) :
  filter P (l ≫= g) = l ≫= (fun x => filter P (g x)).
Proof. induction l as [|x l IH]; [done|]. by rewrite !bind_cons, filter_app, IH. Qed.

Lemma bind_ext_in {A B} (f g : A -> list B) (l : list A) :
  (forall x, x ∈ l -> f x = g x) -> l ≫= f = l ≫= g.
Proof.
  induction l as [|x l IH]; intros Heq; [done|]. rewrite !bind_cons, Heq, IH; [done| |by left].
  intros y Hy. apply Heq. by right.
Qed.

Lemma list_filter_none {A} (P : A -> Prop) `{forall x, Decision (P x)} (l : list A) :
  (forall x, x ∈ l -> ~ P x) -> filter P l = [].
Proof.
  induction l as [|x l IH]; intros Hn; [done|]. rewrite filter_cons, decide_False by (apply Hn; by left).
  apply IH. intros y Hy. apply Hn. by right.
Qed.

Lemma filter_range (P : Z -> Prop) `{forall x, Decision (P x)} a n first last :
  a <= first -> last < a + n -> first <= last + 1 ->
  filter (fun k => first <= k <= last /\ P k) (seqZ a n) = filter P (seqZ first (last - first + 1)).
Proof.
  intros Ha Hl Hfl.
  replace n with ((first - a) + ((last - first + 1) + (a + n - last - 1))) by lia.
  rewrite !seqZ_app by lia. rewrite !filter_app.
  rewrite (list_filter_none _ (seqZ a _)), (list_filter_none _ (seqZ _ (a + n - _ - _))).
  - rewrite app_nil_r. cbn [app]. replace (a + (first - a)) with first by lia.
    apply list_filter_ext_in. intros k Hk%elem_of_seqZ. split; [tauto|]. intros ?. split; [lia|done].
  - intros k Hk%elem_of_seqZ. lia.
  - intros k Hk%elem_of_seqZ. lia.
Qed.

(** The whole scan enumerates the keys of the range in ascending order. *)
Lemma scan_keys_range f first last : 0 <= first <= last ->
  scan_keys f first last (first / 64) (Z.to_nat (last / 64 - first / 64 + 1)) = range_keys f first last.
Proof.
  intros Hr. set (n := Z.to_nat _). unfold range_keys.
  rewrite <- (filter_range (key_bit f) (64 * (first / 64)) (64 * Z.of_nat n) first last)
    by (subst n; Z.to_euclidean_division_equations; lia).
  rewrite seqZ_words, filter_bind. unfold scan_keys. apply bind_ext_in.
  intros w Hw%elem_of_seqZ. apply word_keys_spec; lia.
Qed.

(** ** The callbacks *)

(** [free_keys += BitsSetToOne(mask & ...)]. *)
Definition count_step (f : Z -> Z) (word mask acc : Z) : Z * bool :=
  (acc +% BitsSetToOne (Z.land mask (f word)), true).

(** The lowest candidate. *)
Definition next_step (f : Z -> Z) (word mask : Z) (acc : option Z) : option Z * bool :=
  let candidates := Z.land mask (f word) in
  if decide (candidates = 0) then (acc, true)
  else (Some (u64 (Z.shiftl word 6) +% CountTrailingZeroBits candidates), false).

(** The candidate at [rank], which counts down over the words. *)
Definition select_step (f : Z -> Z) (word mask : Z) (acc : Z * option Z) : Z * option Z * bool :=
  let '(rank, key) := acc in
  let candidates := Z.land mask (f word) in
  let count := BitsSetToOne candidates in
  if decide (count <= rank) then ((rank -% count, key), true)
  else
    let candidates := Nat.iter (Z.to_nat rank) clear_lowest candidates in
    ((rank, Some (u64 (Z.shiftl word 6) +% CountTrailingZeroBits candidates)), false).

Lemma word_keys_length f first last word :
  Z.of_nat (length (word_keys f first last word)) = BitsSetToOne (Z.land (word_mask first last word) (f word)).
Proof. unfold word_keys. by rewrite length_fmap. Qed.

Lemma for_words_count f first last n word acc : 0 <= acc ->
  acc + Z.of_nat (length (scan_keys f first last word n)) <= u64_max ->
  for_words (count_step f) first last word n acc = acc + Z.of_nat (length (scan_keys f first last word n)).
Proof.
  revert word acc. induction n as [|n IH]; intros word acc Ha Hb; [rewrite scan_keys_0; cbn; lia|].
  rewrite scan_keys_S, length_app, Nat2Z.inj_add, word_keys_length in Hb |- *. cbn [for_words count_step].
  unfold BitsSetToOne in Hb |- *. rewrite u64_small by solve_u64. rewrite IH; lia.
Qed.

Lemma word_mask_u64 first last word : is_u64 (word_mask first last word).
Proof. apply is_u64_land, u64_range. Qed.

(** The key of a bit of a word that has one. *)
Lemma word_key_small word i : 0 <= word < 2 ^ 58 -> 0 <= i < 64 ->
  u64 (Z.shiftl word 6) +% i = 64 * word + i.
Proof.
  intros Hw Hi. rewrite Z.shiftl_mul_pow2 by lia. rewrite (u64_small (word * _)), u64_small; unfold is_u64, u64_max; lia.
Qed.

Lemma for_words_next f first last n word : 0 <= word -> word + Z.of_nat n <= 2 ^ 58 ->
  for_words (next_step f) first last word n None = head (scan_keys f first last word n).
Proof.
  revert word. induction n as [|n IH]; intros word Hw Hn; [done|].
  rewrite scan_keys_S. cbn [for_words next_step]. unfold next_step, word_keys, CountTrailingZeroBits.
  pose proof (word_bits_zero (Z.land (word_mask first last word) (f word)) (is_u64_land _ _ (word_mask_u64 _ _ _))) as Hz.
  destruct (decide _) as [H0|H0].
  - apply Hz in H0. rewrite H0. cbn. apply IH; lia.
  - destruct (word_bits _) as [|i l] eqn:E; [tauto|]. apply word_bits_cons in E as (Hi & _).
    rewrite fmap_cons. cbn [head from_option app id]. by rewrite word_key_small by lia.
Qed.

Lemma iter_clear_lowest n w : is_u64 w -> (n <= length (word_bits w))%nat ->
  is_u64 (Nat.iter n clear_lowest w) /\ word_bits (Nat.iter n clear_lowest w) = drop n (word_bits w).
Proof.
  intros Hw. induction n as [|n IH]; intros Hn; [by rewrite drop_0|].
  destruct IH as [Hu IH]; [lia|]. change (Nat.iter (S n) clear_lowest w) with (clear_lowest (Nat.iter n clear_lowest w)).
  split; [by apply clear_lowest_u64|].
  destruct (lookup_lt_is_Some_2 (word_bits w) n) as [i Hi]; [lia|].
  apply drop_S in Hi. rewrite Hi in IH. by apply (word_bits_clear_lowest _ i).
Qed.

Lemma for_words_select f first last n word rank : 0 <= word -> word + Z.of_nat n <= 2 ^ 58 -> is_u64 rank ->
  (for_words (select_step f) first last word n (rank, None)).2 = scan_keys f first last word n !! Z.to_nat rank.
Proof.
  revert word rank. induction n as [|n IH]; intros word rank Hw Hn Hr; [done|]. unfold is_u64 in Hr.
  rewrite scan_keys_S. cbn [for_words]. unfold select_step at 1.
  set (c := Z.land (word_mask first last word) (f word)).
  assert (is_u64 c) as Hc by apply is_u64_land, word_mask_u64.
  assert (length (word_keys f first last word) = length (word_bits c)) as Hlen by (unfold word_keys; by rewrite length_fmap).
  unfold BitsSetToOne. destruct (decide _) as [Hd|Hd].
  - rewrite IH; [|lia|lia|apply u64_range]. rewrite lookup_app_r by lia.
    rewrite u64_small by solve_u64. f_equal. lia.
  - rewrite lookup_app_l by lia. cbn [snd]. unfold word_keys, CountTrailingZeroBits. fold c.
    destruct (iter_clear_lowest (Z.to_nat rank) c Hc) as [_ ->]; [lia|].
    rewrite list_lookup_fmap. destruct (lookup_lt_is_Some_2 (word_bits c) (Z.to_nat rank)) as [i Hi]; [lia|].
    rewrite Hi, (drop_S _ _ _ Hi). cbn [head from_option fmap option_fmap option_map id].
    apply list_elem_of_lookup_2, elem_of_word_bits in Hi. by rewrite word_key_small by lia.
Qed.

(** The three scans over a range clamped to the domain. *)
Definition clamp (key_domain last : Z) : Z := Z.min last (key_domain - 1).
Definition domain_keys (f : Z -> Z) (key_domain first last : Z) : list Z :=
  range_keys f first (clamp key_domain last).

Lemma ForEachWord_cases {A} (fn : Z -> Z -> A -> A * bool) d first last acc : 0 <= first ->
  (ForEachWord fn d first last acc = acc /\ forall f, domain_keys f d first last = []) \/
  (first <= clamp d last /\
   ForEachWord fn d first last acc =
     for_words fn first (clamp d last) (first / 64) (Z.to_nat (clamp d last / 64 - first / 64 + 1)) acc).
Proof.
  intros Hf. unfold ForEachWord, domain_keys, clamp. destruct (decide _) as [H|H].
  - left. split; [done|]. intros f. unfold range_keys. by rewrite seqZ_nil by lia.
  - right. split; [lia|]. replace (Z.min last (d - 1)) with (if decide (d <= last) then d - 1 else last)
      by (case_decide; lia). by rewrite !shiftr_6.
Qed.

Section scans.
Context (f : Z -> Z) (d first last : Z).
Hypothesis (Hfirst : 0 <= first) (Hd : d <= u64_max).

Lemma domain_keys_length : Z.of_nat (length (domain_keys f d first last)) <= Z.max 0 d.
Proof.
  unfold domain_keys, range_keys, clamp. set (l := seqZ _ _).
  assert (length (filter (key_bit f) l) <= length l)%nat as Hl by apply length_filter.
  subst l. rewrite length_seqZ in Hl. lia.
Qed.

Lemma scan_count : ForEachWord (count_step f) d first last 0 = Z.of_nat (length (domain_keys f d first last)).
Proof.
  pose proof domain_keys_length as Hl.
  destruct (ForEachWord_cases (count_step f) d first last 0 Hfirst) as [[-> ->]|[Hr ->]]; [done|].
  unfold domain_keys in *. rewrite <- scan_keys_range in Hl |- * by lia. rewrite for_words_count; unfold u64_max in *; lia.
Qed.

Lemma scan_bound : first <= clamp d last ->
  0 <= first / 64 /\ first / 64 + Z.of_nat (Z.to_nat (clamp d last / 64 - first / 64 + 1)) <= 2 ^ 58.
Proof. unfold clamp, u64_max in *. intros H. Z.to_euclidean_division_equations. lia. Qed.

Lemma scan_next : ForEachWord (next_step f) d first last None = head (domain_keys f d first last).
Proof.
  destruct (ForEachWord_cases (next_step f) d first last None Hfirst) as [[-> ->]|[Hr ->]]; [done|].
  destruct (scan_bound Hr). unfold domain_keys. rewrite <- scan_keys_range by lia. by apply for_words_next.
Qed.

Lemma scan_select rank : is_u64 rank ->
  (ForEachWord (select_step f) d first last (rank, None)).2 = domain_keys f d first last !! Z.to_nat rank.
Proof.
  intros Hk.
  destruct (ForEachWord_cases (select_step f) d first last (rank, None) Hfirst) as [[-> ->]|[Hr ->]]; [done|].
  destruct (scan_bound Hr). unfold domain_keys. rewrite <- scan_keys_range by lia. by apply for_words_select.
Qed.
End scans.

(** ** Bitmaps *)

(** [bits[word].load()]; a read past the end is not defined by the language. *)
Definition load (ws : list Z) (word : Z) : Z := default 0 (ws !! Z.to_nat word).

(** [bits[key >> 6].fetch_or(1 << (key & 63))]: the old word and the new words;
    [None] past the end. *)
Definition fetch_or (key : Z) (ws : list Z) : option (Z * list Z) :=
  let i := Z.to_nat (Z.shiftr key 6) in
  match ws !! i with
  | None => None
  | Some w => Some (w, <[i := Z.lor w (Z.shiftl 1 (Z.land key 63))]> ws)
  end.

(** The number of words of a domain; the sum wraps. *)
Definition words_of (key_domain : Z) : Z := (key_domain +% 63) / 64.

(** The sum of the words' counts. *)
Definition total (ws : list Z) : Z := foldl (fun taken w => taken +% BitsSetToOne w) 0 ws.

(** The words hold the set [s] of keys of the domain [d]. *)
Record holds (ws : list Z) (d : Z) (s : gset Z) : Prop := {
  h_domain : 0 < d <= u64_max - 63;
  h_words : Z.of_nat (length ws) = (d + 63) / 64;
  h_u64 : Forall is_u64 ws;
  h_in : forall k, k ∈ s -> 0 <= k < d;
  h_bits : forall k, 0 <= k < 64 * Z.of_nat (length ws) -> key_bit (load ws) k <-> k ∈ s;
}.

Lemma holds_empty d : 0 < d <= u64_max - 63 -> holds (replicate (Z.to_nat (words_of d)) 0) d ∅.
Proof.
  unfold words_of. intros Hd. rewrite u64_small by solve_u64. split; [lia| | | |].
  - rewrite length_replicate. Z.to_euclidean_division_equations. lia.
  - apply Forall_replicate. by unfold is_u64.
  - intros k Hk. set_solver.
  - intros k Hk. split; [|set_solver]. unfold key_bit, load.
    destruct (replicate _ 0 !! _) as [w|] eqn:Hw; cbn; [|by rewrite Z.bits_0].
    apply lookup_replicate in Hw as [-> _]. by rewrite Z.bits_0.
Qed.

Lemma testbit_mask key i : 0 <= i -> Z.testbit (Z.shiftl 1 (Z.land key 63)) i = bool_decide (i = key mod 64).
Proof.
  intros Hi. rewrite land_63. pose proof (Z.mod_pos_bound key 64 ltac:(lia)).
  rewrite Z.shiftl_1_l, Z.pow2_bits_eqb by lia.
  case_bool_decide; [apply Z.eqb_eq|apply Z.eqb_neq]; lia.
Qed.

Lemma land_mask_zero w key : 0 <= w -> Z.land w (Z.shiftl 1 (Z.land key 63)) = 0 <-> Z.testbit w (key mod 64) = false.
Proof.
  intros Hw. pose proof (Z.mod_pos_bound key 64 ltac:(lia)) as Hm. split.
  - intros H. apply (f_equal (fun x => Z.testbit x (key mod 64))) in H.
    rewrite Z.land_spec, testbit_mask, bool_decide_true, andb_true_r, Z.bits_0 in H by lia. done.
  - intros H. apply Z.bits_inj'. intros i Hi. rewrite Z.land_spec, testbit_mask, Z.bits_0 by lia.
    case_bool_decide as Heq; [subst; by rewrite H|apply andb_false_r].
Qed.

Lemma mask_u64 key : is_u64 (Z.shiftl 1 (Z.land key 63)).
Proof.
  rewrite land_63, Z.shiftl_1_l. pose proof (Z.mod_pos_bound key 64 ltac:(lia)).
  pose proof (Z.pow_le_mono_r 2 (key mod 64) 63 ltac:(lia) ltac:(lia)). unfold is_u64, u64_max. lia.
Qed.

(** [fetch_or] adds the key to the set; the old word tells whether it was there. *)
Lemma fetch_or_holds key ws d s : holds ws d s -> 0 <= key < d ->
  exists w ws', fetch_or key ws = Some (w, ws') /\ holds ws' d ({[key]} ∪ s) /\
    (Z.land w (Z.shiftl 1 (Z.land key 63)) = 0 <-> key ∉ s).
Proof.
  intros [Hd Hw Hu Hin Hb] Hk. unfold fetch_or. rewrite shiftr_6.
  assert (Z.to_nat (key / 64) < length ws)%nat as Hlt by (Z.to_euclidean_division_equations; lia).
  destruct (lookup_lt_is_Some_2 _ _ Hlt) as [w Hw']. rewrite Hw'.
  assert (is_u64 w) as Hwu by (rewrite Forall_lookup in Hu; by eapply Hu).
  assert (key ∈ s <-> Z.testbit w (key mod 64) = true) as Hks.
  { rewrite <- Hb by (Z.to_euclidean_division_equations; lia). unfold key_bit, load. by rewrite Hw'. }
  eexists _, _. split; [done|]. split.
  2: { rewrite land_mask_zero by (unfold is_u64 in Hwu; lia). rewrite Hks. by destruct (Z.testbit w _). }
  split; rewrite ?length_insert; try done.
  - apply Forall_insert; [done|]. by apply is_u64_lor, mask_u64.
  - intros k [->%elem_of_singleton|?]%elem_of_union; [done|auto].
  - intros k Hk'. rewrite elem_of_union, elem_of_singleton, <- Hb by done.
    unfold key_bit, load. pose proof (Z.mod_pos_bound k 64 ltac:(lia)) as Hm.
    destruct (decide (k / 64 = key / 64)) as [He|He].
    + rewrite He, list_lookup_insert_eq, Hw' by done. cbn.
      rewrite Z.lor_spec, testbit_mask, orb_true_iff, bool_decide_eq_true by lia.
      assert (k mod 64 = key mod 64 <-> k = key) as ->; [|tauto].
      split; [|by intros ->]. intros. rewrite (Z.div_mod k 64), (Z.div_mod key 64); lia.
    + rewrite list_lookup_insert_ne.
      * split; [by right|]. intros [->|]; done.
      * intros Heq. apply He. apply Z2Nat.inj in Heq; [done|apply Z.div_pos; lia|apply Z.div_pos; lia].
Qed.

Lemma total_spec ws : 64 * Z.of_nat (length ws) <= u64_max ->
  total ws =
  Z.of_nat (length (filter (key_bit (fun w => default 0 (ws !! Z.to_nat w))) (seqZ 0 (64 * Z.of_nat (length ws))))).
Proof.
  unfold total. induction ws as [|w ws IH] using rev_ind; [done|]. rewrite length_app. cbn [length]. intros Hb.
  rewrite foldl_app. cbn [foldl]. rewrite IH by lia.
  replace (64 * Z.of_nat (length ws + 1)) with (64 * Z.of_nat (length ws) + 64) by lia.
  rewrite seqZ_app, filter_app, length_app by lia.
  rewrite (list_filter_ext_in (key_bit (fun w0 => default 0 ((ws ++ [w]) !! Z.to_nat w0)))
             (key_bit (fun w => default 0 (ws !! Z.to_nat w))) (seqZ 0 _)).
  2: { intros k Hk%elem_of_seqZ. unfold key_bit. rewrite lookup_app_l; [done|]. Z.to_euclidean_division_equations. lia. }
  assert (length (filter (key_bit (fun w0 => default 0 ((ws ++ [w]) !! Z.to_nat w0)))
            (seqZ (0 + 64 * Z.of_nat (length ws)) 64)) = length (word_bits w)) as ->.
  { rewrite seqZ_shift, filter_fmap, length_fmap. unfold word_bits. f_equal. apply list_filter_ext_in.
    intros i Hi%elem_of_seqZ. unfold key_bit.
    replace ((0 + 64 * Z.of_nat (length ws) + i) / 64) with (Z.of_nat (length ws)) by (Z.to_euclidean_division_equations; lia).
    replace ((0 + 64 * Z.of_nat (length ws) + i) mod 64) with i by (Z.to_euclidean_division_equations; lia).
    rewrite Nat2Z.id, lookup_app_r, Nat.sub_diag by lia. done. }
  match goal with |- context [filter ?P (seqZ 0 ?n)] => pose proof (length_filter P (seqZ 0 n)) as Hl end.
  assert (length (word_bits w) <= length (seqZ 0 64))%nat as Hl' by apply length_filter.
  rewrite length_seqZ in Hl, Hl'. unfold BitsSetToOne. rewrite u64_small; [lia|]. unfold is_u64. lia.
Qed.

Lemma total_holds ws d s : holds ws d s -> total ws = Z.of_nat (size s).
Proof.
  intros [Hd Hw Hu Hin Hb].
  rewrite total_spec by (unfold u64_max in *; Z.to_euclidean_division_equations; lia).
  f_equal. unfold size, set_size. cbn. apply Permutation_length, NoDup_Permutation.
  - apply NoDup_filter, NoDup_seqZ.
  - apply NoDup_elements.
  - intros k. rewrite list_elem_of_filter, elem_of_seqZ, elem_of_elements. split.
    + intros [H ?]. apply Hb; [lia|done].
    + intros Hk. pose proof (Hin k Hk). assert (0 <= k < 64 * Z.of_nat (length ws))
        by (Z.to_euclidean_division_equations; lia). split; [by apply Hb|lia].
Qed.

Lemma holds_size ws d s : holds ws d s -> Z.of_nat (size s) < u64_max.
Proof.
  intros [Hd _ _ Hin _]. assert (s ⊆ list_to_set (seqZ 0 d)) as Hs.
  { intros k Hk. apply elem_of_list_to_set, elem_of_seqZ. specialize (Hin k Hk). lia. }
  apply subseteq_size in Hs. rewrite size_list_to_set, length_seqZ in Hs by apply NoDup_seqZ. lia.
Qed.

(** The keys of a clamped range whose bit satisfies a test of the words. *)
Lemma holds_unique ws ws' d s : holds ws d s -> holds ws' d s -> ws = ws'.
Proof.
  intros H1 H2. assert (length ws = length ws') as Hl by (pose proof (h_words _ _ _ H1); pose proof (h_words _ _ _ H2); lia).
  apply list_eq_same_length with (length ws); [done|done|]. intros i w w' Hi Hw Hw'.
  pose proof (h_u64 _ _ _ H1) as U1. pose proof (h_u64 _ _ _ H2) as U2. rewrite Forall_lookup in U1, U2.
  apply Z.bits_inj'. intros j Hj. destruct (decide (j < 64)) as [Hlt|Hge].
  2: { rewrite !is_u64_testbit_high by (eauto || lia). done. }
  pose proof (h_bits _ _ _ H1 (64 * Z.of_nat i + j) ltac:(lia)) as B1.
  pose proof (h_bits _ _ _ H2 (64 * Z.of_nat i + j) ltac:(lia)) as B2. rewrite <- B2 in B1. clear B2.
  unfold key_bit, load in B1.
  replace ((64 * Z.of_nat i + j) / 64) with (Z.of_nat i) in B1 by (Z.to_euclidean_division_equations; lia).
  replace ((64 * Z.of_nat i + j) mod 64) with j in B1 by (Z.to_euclidean_division_equations; lia).
  rewrite Nat2Z.id, Hw, Hw' in B1. cbn in B1. destruct (Z.testbit w j), (Z.testbit w' j); intuition congruence.
Qed.

Lemma domain_keys_holds f (P : Z -> Prop) `{forall k, Decision (P k)} d first last : 0 <= first ->
  (forall k, 0 <= k < d -> key_bit f k <-> P k) ->
  domain_keys f d first last = filter P (seqZ first (clamp d last - first + 1)).
Proof.
  intros Hf Heq. unfold domain_keys, range_keys. apply list_filter_ext_in.
  intros k Hk%elem_of_seqZ. unfold clamp in Hk. apply Heq. lia.
Qed.

End Bits.
