(* ===== verification/Crc.v ===== *)
(** * The CRC-32C of the log format

    [util/crc32c.h] and [util/crc32c.cc]: the portable table-driven [ExtendImpl] with its
    four tables, the combination [Crc32cCombine] of the checksums of two strings to that
    of their concatenation, and the masking of stored checksums.  The implementations for
    special instructions ([crc32c_3way] and the ports to ARM and PowerPC) are not
    modelled; [Extend] is the portable one.

    [crc_step] is one step of the shift register of the polynomial, on bits in reflected
    order, and [crc_bits] the bit-by-bit reference checksum.  The theorems show that the
    tables and the sixteen-byte loop compute it for every alignment of the buffer, and
    that the combination, which multiplies in the field of the polynomial, is the
    checksum of the concatenation. *)

From Stdlib Require Import ZArith Lia.
From stdpp Require Import base numbers list.
From S2P Require Import Prelude Version Bitmap Coding.

Import Coding.
Local Open Scope Z_scope.

Module Crc.

(** ** Tables *)

Definition table0_ : list Z := [
  0x00000000; 0xf26b8303; 0xe13b70f7; 0x1350f3f4; 0xc79a971f; 0x35f1141c; 0x26a1e7e8; 0xd4ca64eb;
  0x8ad958cf; 0x78b2dbcc; 0x6be22838; 0x9989ab3b; 0x4d43cfd0; 0xbf284cd3; 0xac78bf27; 0x5e133c24;
  0x105ec76f; 0xe235446c; 0xf165b798; 0x030e349b; 0xd7c45070; 0x25afd373; 0x36ff2087; 0xc494a384;
  0x9a879fa0; 0x68ec1ca3; 0x7bbcef57; 0x89d76c54; 0x5d1d08bf; 0xaf768bbc; 0xbc267848; 0x4e4dfb4b;
  0x20bd8ede; 0xd2d60ddd; 0xc186fe29; 0x33ed7d2a; 0xe72719c1; 0x154c9ac2; 0x061c6936; 0xf477ea35;
  0xaa64d611; 0x580f5512; 0x4b5fa6e6; 0xb93425e5; 0x6dfe410e; 0x9f95c20d; 0x8cc531f9; 0x7eaeb2fa;
  0x30e349b1; 0xc288cab2; 0xd1d83946; 0x23b3ba45; 0xf779deae; 0x05125dad; 0x1642ae59; 0xe4292d5a;
  0xba3a117e; 0x4851927d; 0x5b016189; 0xa96ae28a; 0x7da08661; 0x8fcb0562; 0x9c9bf696; 0x6ef07595;
  0x417b1dbc; 0xb3109ebf; 0xa0406d4b; 0x522bee48; 0x86e18aa3; 0x748a09a0; 0x67dafa54; 0x95b17957;
  0xcba24573; 0x39c9c670; 0x2a993584; 0xd8f2b687; 0x0c38d26c; 0xfe53516f; 0xed03a29b; 0x1f682198;
  0x5125dad3; 0xa34e59d0; 0xb01eaa24; 0x42752927; 0x96bf4dcc; 0x64d4cecf; 0x77843d3b; 0x85efbe38;
  0xdbfc821c; 0x2997011f; 0x3ac7f2eb; 0xc8ac71e8; 0x1c661503; 0xee0d9600; 0xfd5d65f4; 0x0f36e6f7;
  0x61c69362; 0x93ad1061; 0x80fde395; 0x72966096; 0xa65c047d; 0x5437877e; 0x4767748a; 0xb50cf789;
  0xeb1fcbad; 0x197448ae; 0x0a24bb5a; 0xf84f3859; 0x2c855cb2; 0xdeeedfb1; 0xcdbe2c45; 0x3fd5af46;
  0x7198540d; 0x83f3d70e; 0x90a324fa; 0x62c8a7f9; 0xb602c312; 0x44694011; 0x5739b3e5; 0xa55230e6;
  0xfb410cc2; 0x092a8fc1; 0x1a7a7c35; 0xe811ff36; 0x3cdb9bdd; 0xceb018de; 0xdde0eb2a; 0x2f8b6829;
  0x82f63b78; 0x709db87b; 0x63cd4b8f; 0x91a6c88c; 0x456cac67; 0xb7072f64; 0xa457dc90; 0x563c5f93;
  0x082f63b7; 0xfa44e0b4; 0xe9141340; 0x1b7f9043; 0xcfb5f4a8; 0x3dde77ab; 0x2e8e845f; 0xdce5075c;
  0x92a8fc17; 0x60c37f14; 0x73938ce0; 0x81f80fe3; 0x55326b08; 0xa759e80b; 0xb4091bff; 0x466298fc;
  0x1871a4d8; 0xea1a27db; 0xf94ad42f; 0x0b21572c; 0xdfeb33c7; 0x2d80b0c4; 0x3ed04330; 0xccbbc033;
  0xa24bb5a6; 0x502036a5; 0x4370c551; 0xb11b4652; 0x65d122b9; 0x97baa1ba; 0x84ea524e; 0x7681d14d;
  0x2892ed69; 0xdaf96e6a; 0xc9a99d9e; 0x3bc21e9d; 0xef087a76; 0x1d63f975; 0x0e330a81; 0xfc588982;
  0xb21572c9; 0x407ef1ca; 0x532e023e; 0xa145813d; 0x758fe5d6; 0x87e466d5; 0x94b49521; 0x66df1622;
  0x38cc2a06; 0xcaa7a905; 0xd9f75af1; 0x2b9cd9f2; 0xff56bd19; 0x0d3d3e1a; 0x1e6dcdee; 0xec064eed;
  0xc38d26c4; 0x31e6a5c7; 0x22b65633; 0xd0ddd530; 0x0417b1db; 0xf67c32d8; 0xe52cc12c; 0x1747422f;
  0x49547e0b; 0xbb3ffd08; 0xa86f0efc; 0x5a048dff; 0x8ecee914; 0x7ca56a17; 0x6ff599e3; 0x9d9e1ae0;
  0xd3d3e1ab; 0x21b862a8; 0x32e8915c; 0xc083125f; 0x144976b4; 0xe622f5b7; 0xf5720643; 0x07198540;
  0x590ab964; 0xab613a67; 0xb831c993; 0x4a5a4a90; 0x9e902e7b; 0x6cfbad78; 0x7fab5e8c; 0x8dc0dd8f;
  0xe330a81a; 0x115b2b19; 0x020bd8ed; 0xf0605bee; 0x24aa3f05; 0xd6c1bc06; 0xc5914ff2; 0x37faccf1;
  0x69e9f0d5; 0x9b8273d6; 0x88d28022; 0x7ab90321; 0xae7367ca; 0x5c18e4c9; 0x4f48173d; 0xbd23943e;
  0xf36e6f75; 0x0105ec76; 0x12551f82; 0xe03e9c81; 0x34f4f86a; 0xc69f7b69; 0xd5cf889d; 0x27a40b9e;
  0x79b737ba; 0x8bdcb4b9; 0x988c474d; 0x6ae7c44e; 0xbe2da0a5; 0x4c4623a6; 0x5f16d052; 0xad7d5351].

Definition table1_ : list Z := [
  0x00000000; 0x13a29877; 0x274530ee; 0x34e7a899; 0x4e8a61dc; 0x5d28f9ab; 0x69cf5132; 0x7a6dc945;
  0x9d14c3b8; 0x8eb65bcf; 0xba51f356; 0xa9f36b21; 0xd39ea264; 0xc03c3a13; 0xf4db928a; 0xe7790afd;
  0x3fc5f181; 0x2c6769f6; 0x1880c16f; 0x0b225918; 0x714f905d; 0x62ed082a; 0x560aa0b3; 0x45a838c4;
  0xa2d13239; 0xb173aa4e; 0x859402d7; 0x96369aa0; 0xec5b53e5; 0xfff9cb92; 0xcb1e630b; 0xd8bcfb7c;
  0x7f8be302; 0x6c297b75; 0x58ced3ec; 0x4b6c4b9b; 0x310182de; 0x22a31aa9; 0x1644b230; 0x05e62a47;
  0xe29f20ba; 0xf13db8cd; 0xc5da1054; 0xd6788823; 0xac154166; 0xbfb7d911; 0x8b507188; 0x98f2e9ff;
  0x404e1283; 0x53ec8af4; 0x670b226d; 0x74a9ba1a; 0x0ec4735f; 0x1d66eb28; 0x298143b1; 0x3a23dbc6;
  0xdd5ad13b; 0xcef8494c; 0xfa1fe1d5; 0xe9bd79a2; 0x93d0b0e7; 0x80722890; 0xb4958009; 0xa737187e;
  0xff17c604; 0xecb55e73; 0xd852f6ea; 0xcbf06e9d; 0xb19da7d8; 0xa23f3faf; 0x96d89736; 0x857a0f41;
  0x620305bc; 0x71a19dcb; 0x45463552; 0x56e4ad25; 0x2c896460; 0x3f2bfc17; 0x0bcc548e; 0x186eccf9;
  0xc0d23785; 0xd370aff2; 0xe797076b; 0xf4359f1c; 0x8e585659; 0x9dface2e; 0xa91d66b7; 0xbabffec0;
  0x5dc6f43d; 0x4e646c4a; 0x7a83c4d3; 0x69215ca4; 0x134c95e1; 0x00ee0d96; 0x3409a50f; 0x27ab3d78;
  0x809c2506; 0x933ebd71; 0xa7d915e8; 0xb47b8d9f; 0xce1644da; 0xddb4dcad; 0xe9537434; 0xfaf1ec43;
  0x1d88e6be; 0x0e2a7ec9; 0x3acdd650; 0x296f4e27; 0x53028762; 0x40a01f15; 0x7447b78c; 0x67e52ffb;
  0xbf59d487; 0xacfb4cf0; 0x981ce469; 0x8bbe7c1e; 0xf1d3b55b; 0xe2712d2c; 0xd69685b5; 0xc5341dc2;
  0x224d173f; 0x31ef8f48; 0x050827d1; 0x16aabfa6; 0x6cc776e3; 0x7f65ee94; 0x4b82460d; 0x5820de7a;
  0xfbc3faf9; 0xe861628e; 0xdc86ca17; 0xcf245260; 0xb5499b25; 0xa6eb0352; 0x920cabcb; 0x81ae33bc;
  0x66d73941; 0x7575a136; 0x419209af; 0x523091d8; 0x285d589d; 0x3bffc0ea; 0x0f186873; 0x1cbaf004;
  0xc4060b78; 0xd7a4930f; 0xe3433b96; 0xf0e1a3e1; 0x8a8c6aa4; 0x992ef2d3; 0xadc95a4a; 0xbe6bc23d;
  0x5912c8c0; 0x4ab050b7; 0x7e57f82e; 0x6df56059; 0x1798a91c; 0x043a316b; 0x30dd99f2; 0x237f0185;
  0x844819fb; 0x97ea818c; 0xa30d2915; 0xb0afb162; 0xcac27827; 0xd960e050; 0xed8748c9; 0xfe25d0be;
  0x195cda43; 0x0afe4234; 0x3e19eaad; 0x2dbb72da; 0x57d6bb9f; 0x447423e8; 0x70938b71; 0x63311306;
  0xbb8de87a; 0xa82f700d; 0x9cc8d894; 0x8f6a40e3; 0xf50789a6; 0xe6a511d1; 0xd242b948; 0xc1e0213f;
  0x26992bc2; 0x353bb3b5; 0x01dc1b2c; 0x127e835b; 0x68134a1e; 0x7bb1d269; 0x4f567af0; 0x5cf4e287;
  0x04d43cfd; 0x1776a48a; 0x23910c13; 0x30339464; 0x4a5e5d21; 0x59fcc556; 0x6d1b6dcf; 0x7eb9f5b8;
  0x99c0ff45; 0x8a626732; 0xbe85cfab; 0xad2757dc; 0xd74a9e99; 0xc4e806ee; 0xf00fae77; 0xe3ad3600;
  0x3b11cd7c; 0x28b3550b; 0x1c54fd92; 0x0ff665e5; 0x759baca0; 0x663934d7; 0x52de9c4e; 0x417c0439;
  0xa6050ec4; 0xb5a796b3; 0x81403e2a; 0x92e2a65d; 0xe88f6f18; 0xfb2df76f; 0xcfca5ff6; 0xdc68c781;
  0x7b5fdfff; 0x68fd4788; 0x5c1aef11; 0x4fb87766; 0x35d5be23; 0x26772654; 0x12908ecd; 0x013216ba;
  0xe64b1c47; 0xf5e98430; 0xc10e2ca9; 0xd2acb4de; 0xa8c17d9b; 0xbb63e5ec; 0x8f844d75; 0x9c26d502;
  0x449a2e7e; 0x5738b609; 0x63df1e90; 0x707d86e7; 0x0a104fa2; 0x19b2d7d5; 0x2d557f4c; 0x3ef7e73b;
  0xd98eedc6; 0xca2c75b1; 0xfecbdd28; 0xed69455f; 0x97048c1a; 0x84a6146d; 0xb041bcf4; 0xa3e32483].

Definition table2_ : list Z := [
  0x00000000; 0xa541927e; 0x4f6f520d; 0xea2ec073; 0x9edea41a; 0x3b9f3664; 0xd1b1f617; 0x74f06469;
  0x38513ec5; 0x9d10acbb; 0x773e6cc8; 0xd27ffeb6; 0xa68f9adf; 0x03ce08a1; 0xe9e0c8d2; 0x4ca15aac;
  0x70a27d8a; 0xd5e3eff4; 0x3fcd2f87; 0x9a8cbdf9; 0xee7cd990; 0x4b3d4bee; 0xa1138b9d; 0x045219e3;
  0x48f3434f; 0xedb2d131; 0x079c1142; 0xa2dd833c; 0xd62de755; 0x736c752b; 0x9942b558; 0x3c032726;
  0xe144fb14; 0x4405696a; 0xae2ba919; 0x0b6a3b67; 0x7f9a5f0e; 0xdadbcd70; 0x30f50d03; 0x95b49f7d;
  0xd915c5d1; 0x7c5457af; 0x967a97dc; 0x333b05a2; 0x47cb61cb; 0xe28af3b5; 0x08a433c6; 0xade5a1b8;
  0x91e6869e; 0x34a714e0; 0xde89d493; 0x7bc846ed; 0x0f382284; 0xaa79b0fa; 0x40577089; 0xe516e2f7;
  0xa9b7b85b; 0x0cf62a25; 0xe6d8ea56; 0x43997828; 0x37691c41; 0x92288e3f; 0x78064e4c; 0xdd47dc32;
  0xc76580d9; 0x622412a7; 0x880ad2d4; 0x2d4b40aa; 0x59bb24c3; 0xfcfab6bd; 0x16d476ce; 0xb395e4b0;
  0xff34be1c; 0x5a752c62; 0xb05bec11; 0x151a7e6f; 0x61ea1a06; 0xc4ab8878; 0x2e85480b; 0x8bc4da75;
  0xb7c7fd53; 0x12866f2d; 0xf8a8af5e; 0x5de93d20; 0x29195949; 0x8c58cb37; 0x66760b44; 0xc337993a;
  0x8f96c396; 0x2ad751e8; 0xc0f9919b; 0x65b803e5; 0x1148678c; 0xb409f5f2; 0x5e273581; 0xfb66a7ff;
  0x26217bcd; 0x8360e9b3; 0x694e29c0; 0xcc0fbbbe; 0xb8ffdfd7; 0x1dbe4da9; 0xf7908dda; 0x52d11fa4;
  0x1e704508; 0xbb31d776; 0x511f1705; 0xf45e857b; 0x80aee112; 0x25ef736c; 0xcfc1b31f; 0x6a802161;
  0x56830647; 0xf3c29439; 0x19ec544a; 0xbcadc634; 0xc85da25d; 0x6d1c3023; 0x8732f050; 0x2273622e;
  0x6ed23882; 0xcb93aafc; 0x21bd6a8f; 0x84fcf8f1; 0xf00c9c98; 0x554d0ee6; 0xbf63ce95; 0x1a225ceb;
  0x8b277743; 0x2e66e53d; 0xc448254e; 0x6109b730; 0x15f9d359; 0xb0b84127; 0x5a968154; 0xffd7132a;
  0xb3764986; 0x1637dbf8; 0xfc191b8b; 0x595889f5; 0x2da8ed9c; 0x88e97fe2; 0x62c7bf91; 0xc7862def;
  0xfb850ac9; 0x5ec498b7; 0xb4ea58c4; 0x11abcaba; 0x655baed3; 0xc01a3cad; 0x2a34fcde; 0x8f756ea0;
  0xc3d4340c; 0x6695a672; 0x8cbb6601; 0x29faf47f; 0x5d0a9016; 0xf84b0268; 0x1265c21b; 0xb7245065;
  0x6a638c57; 0xcf221e29; 0x250cde5a; 0x804d4c24; 0xf4bd284d; 0x51fcba33; 0xbbd27a40; 0x1e93e83e;
  0x5232b292; 0xf77320ec; 0x1d5de09f; 0xb81c72e1; 0xccec1688; 0x69ad84f6; 0x83834485; 0x26c2d6fb;
  0x1ac1f1dd; 0xbf8063a3; 0x55aea3d0; 0xf0ef31ae; 0x841f55c7; 0x215ec7b9; 0xcb7007ca; 0x6e3195b4;
  0x2290cf18; 0x87d15d66; 0x6dff9d15; 0xc8be0f6b; 0xbc4e6b02; 0x190ff97c; 0xf321390f; 0x5660ab71;
  0x4c42f79a; 0xe90365e4; 0x032da597; 0xa66c37e9; 0xd29c5380; 0x77ddc1fe; 0x9df3018d; 0x38b293f3;
  0x7413c95f; 0xd1525b21; 0x3b7c9b52; 0x9e3d092c; 0xeacd6d45; 0x4f8cff3b; 0xa5a23f48; 0x00e3ad36;
  0x3ce08a10; 0x99a1186e; 0x738fd81d; 0xd6ce4a63; 0xa23e2e0a; 0x077fbc74; 0xed517c07; 0x4810ee79;
  0x04b1b4d5; 0xa1f026ab; 0x4bdee6d8; 0xee9f74a6; 0x9a6f10cf; 0x3f2e82b1; 0xd50042c2; 0x7041d0bc;
  0xad060c8e; 0x08479ef0; 0xe2695e83; 0x4728ccfd; 0x33d8a894; 0x96993aea; 0x7cb7fa99; 0xd9f668e7;
  0x9557324b; 0x3016a035; 0xda386046; 0x7f79f238; 0x0b899651; 0xaec8042f; 0x44e6c45c; 0xe1a75622;
  0xdda47104; 0x78e5e37a; 0x92cb2309; 0x378ab177; 0x437ad51e; 0xe63b4760; 0x0c158713; 0xa954156d;
  0xe5f54fc1; 0x40b4ddbf; 0xaa9a1dcc; 0x0fdb8fb2; 0x7b2bebdb; 0xde6a79a5; 0x3444b9d6; 0x91052ba8].

Definition table3_ : list Z := [
  0x00000000; 0xdd45aab8; 0xbf672381; 0x62228939; 0x7b2231f3; 0xa6679b4b; 0xc4451272; 0x1900b8ca;
  0xf64463e6; 0x2b01c95e; 0x49234067; 0x9466eadf; 0x8d665215; 0x5023f8ad; 0x32017194; 0xef44db2c;
  0xe964b13d; 0x34211b85; 0x560392bc; 0x8b463804; 0x924680ce; 0x4f032a76; 0x2d21a34f; 0xf06409f7;
  0x1f20d2db; 0xc2657863; 0xa047f15a; 0x7d025be2; 0x6402e328; 0xb9474990; 0xdb65c0a9; 0x06206a11;
  0xd725148b; 0x0a60be33; 0x6842370a; 0xb5079db2; 0xac072578; 0x71428fc0; 0x136006f9; 0xce25ac41;
  0x2161776d; 0xfc24ddd5; 0x9e0654ec; 0x4343fe54; 0x5a43469e; 0x8706ec26; 0xe524651f; 0x3861cfa7;
  0x3e41a5b6; 0xe3040f0e; 0x81268637; 0x5c632c8f; 0x45639445; 0x98263efd; 0xfa04b7c4; 0x27411d7c;
  0xc805c650; 0x15406ce8; 0x7762e5d1; 0xaa274f69; 0xb327f7a3; 0x6e625d1b; 0x0c40d422; 0xd1057e9a;
  0xaba65fe7; 0x76e3f55f; 0x14c17c66; 0xc984d6de; 0xd0846e14; 0x0dc1c4ac; 0x6fe34d95; 0xb2a6e72d;
  0x5de23c01; 0x80a796b9; 0xe2851f80; 0x3fc0b538; 0x26c00df2; 0xfb85a74a; 0x99a72e73; 0x44e284cb;
  0x42c2eeda; 0x9f874462; 0xfda5cd5b; 0x20e067e3; 0x39e0df29; 0xe4a57591; 0x8687fca8; 0x5bc25610;
  0xb4868d3c; 0x69c32784; 0x0be1aebd; 0xd6a40405; 0xcfa4bccf; 0x12e11677; 0x70c39f4e; 0xad8635f6;
  0x7c834b6c; 0xa1c6e1d4; 0xc3e468ed; 0x1ea1c255; 0x07a17a9f; 0xdae4d027; 0xb8c6591e; 0x6583f3a6;
  0x8ac7288a; 0x57828232; 0x35a00b0b; 0xe8e5a1b3; 0xf1e51979; 0x2ca0b3c1; 0x4e823af8; 0x93c79040;
  0x95e7fa51; 0x48a250e9; 0x2a80d9d0; 0xf7c57368; 0xeec5cba2; 0x3380611a; 0x51a2e823; 0x8ce7429b;
  0x63a399b7; 0xbee6330f; 0xdcc4ba36; 0x0181108e; 0x1881a844; 0xc5c402fc; 0xa7e68bc5; 0x7aa3217d;
  0x52a0c93f; 0x8fe56387; 0xedc7eabe; 0x30824006; 0x2982f8cc; 0xf4c75274; 0x96e5db4d; 0x4ba071f5;
  0xa4e4aad9; 0x79a10061; 0x1b838958; 0xc6c623e0; 0xdfc69b2a; 0x02833192; 0x60a1b8ab; 0xbde41213;
  0xbbc47802; 0x6681d2ba; 0x04a35b83; 0xd9e6f13b; 0xc0e649f1; 0x1da3e349; 0x7f816a70; 0xa2c4c0c8;
  0x4d801be4; 0x90c5b15c; 0xf2e73865; 0x2fa292dd; 0x36a22a17; 0xebe780af; 0x89c50996; 0x5480a32e;
  0x8585ddb4; 0x58c0770c; 0x3ae2fe35; 0xe7a7548d; 0xfea7ec47; 0x23e246ff; 0x41c0cfc6; 0x9c85657e;
  0x73c1be52; 0xae8414ea; 0xcca69dd3; 0x11e3376b; 0x08e38fa1; 0xd5a62519; 0xb784ac20; 0x6ac10698;
  0x6ce16c89; 0xb1a4c631; 0xd3864f08; 0x0ec3e5b0; 0x17c35d7a; 0xca86f7c2; 0xa8a47efb; 0x75e1d443;
  0x9aa50f6f; 0x47e0a5d7; 0x25c22cee; 0xf8878656; 0xe1873e9c; 0x3cc29424; 0x5ee01d1d; 0x83a5b7a5;
  0xf90696d8; 0x24433c60; 0x4661b559; 0x9b241fe1; 0x8224a72b; 0x5f610d93; 0x3d4384aa; 0xe0062e12;
  0x0f42f53e; 0xd2075f86; 0xb025d6bf; 0x6d607c07; 0x7460c4cd; 0xa9256e75; 0xcb07e74c; 0x16424df4;
  0x106227e5; 0xcd278d5d; 0xaf050464; 0x7240aedc; 0x6b401616; 0xb605bcae; 0xd4273597; 0x09629f2f;
  0xe6264403; 0x3b63eebb; 0x59416782; 0x8404cd3a; 0x9d0475f0; 0x4041df48; 0x22635671; 0xff26fcc9;
  0x2e238253; 0xf36628eb; 0x9144a1d2; 0x4c010b6a; 0x5501b3a0; 0x88441918; 0xea669021; 0x37233a99;
  0xd867e1b5; 0x05224b0d; 0x6700c234; 0xba45688c; 0xa345d046; 0x7e007afe; 0x1c22f3c7; 0xc167597f;
  0xc747336e; 0x1a0299d6; 0x782010ef; 0xa565ba57; 0xbc65029d; 0x6120a825; 0x0302211c; 0xde478ba4;
  0x31035088; 0xec46fa30; 0x8e647309; 0x5321d9b1; 0x4a21617b; 0x9764cbc3; 0xf54642fa; 0x2803e842].

(** ** The portable implementation *)

Definition read_table (t : list Z) (c : Z) : Z := nth (Z.to_nat c) t 0.

(** [STEP1]: one byte. *)
Definition STEP1 (l b : Z) : Z :=
  let c := Z.lxor (Z.land l 0xff) b in
  Z.lxor (read_table table0_ c) (Z.shiftr l 8).

Definition LE_LOAD32 (p : list Z) : Z := Version.decode_fixed (take 4 p).

(** Four bytes at once. *)
Definition four_bytes (l : Z) (p : list Z) : Z :=
  let c := u32 (Z.lxor l (LE_LOAD32 p)) in
  Z.lxor (Z.lxor (Z.lxor (read_table table3_ (Z.land c 0xff)) (read_table table2_ (Z.land (Z.shiftr c 8) 0xff)))
    (read_table table1_ (Z.land (Z.shiftr c 16) 0xff))) (read_table table0_ (Z.shiftr c 24)).

(** Eight bytes, without the SSE 4.2 instructions. *)
Definition DefaultCRC32 (l : Z) (p : list Z) : Z := four_bytes (four_bytes l p) (drop 4 p).

(** The loops over sixteen and over eight bytes; the fuel is the number of bytes. *)
Fixpoint loop16 (fuel : nat) (l : Z) (p : list Z) : Z * list Z :=
  match fuel with
  | O => (l, p)
  | S fuel' =>
      if decide (16 <= length p)%nat
      then loop16 fuel' (DefaultCRC32 (DefaultCRC32 l p) (drop 8 p)) (drop 16 p)
      else (l, p)
  end.

Fixpoint loop8 (fuel : nat) (l : Z) (p : list Z) : Z * list Z :=
  match fuel with
  | O => (l, p)
  | S fuel' =>
      if decide (8 <= length p)%nat then loop8 fuel' (DefaultCRC32 l p) (drop 8 p) else (l, p)
  end.

(** [pval] is the address of the buffer. *)
Definition ExtendImpl (pval crc : Z) (buf : list Z) : Z :=
  let l := Z.lxor crc 0xffffffff in
  let head := Z.to_nat ((- pval) mod 16) in
  let '(l, p) := if decide (head <= length buf)%nat
                 then (foldl STEP1 l (take head buf), drop head buf) else (l, buf) in
  let '(l, p) := loop16 (length p) l p in
  let '(l, p) := loop8 (length p) l p in
  u32 (Z.lxor (foldl STEP1 l p) 0xffffffff).

(** ** Combination *)

Definition crc32c_m : Z := 0x82f63b78.

(** [gf_multiply_sw_1] for the [n] remaining bits. *)
Fixpoint gf_multiply_sw_1 (n : nat) (p a b m : Z) : Z :=
  match n with
  | O => p
  | S n' =>
      gf_multiply_sw_1 n'
        (Z.lxor p (Z.land (u32 (0 - Z.land (Z.shiftr b 31) 1)) a))
        (Z.lxor (Z.shiftr a 1) (Z.land (u32 (0 - Z.land a 1)) m))
        (u32 (Z.shiftl b 1)) m
  end.

Definition gf_multiply_sw (a b m : Z) : Z := gf_multiply_sw_1 32 0 a b m.
Definition gf_square_sw (a m : Z) : Z := gf_multiply_sw a a m.

Fixpoint gf_powers_memo (i : nat) (m : Z) : Z :=
  match i with O => m | S i' => gf_square_sw (gf_powers_memo i' m) m end.

Definition crc32c_powers : list Z := (fun i => gf_powers_memo i crc32c_m) <$> seq 0 62.

(** The loop over the set bits of the length; [powers] is the index of the pointer. *)
Fixpoint append_zeroes_loop (fuel : nat) (crc len_bits : Z) (powers : nat) : Z :=
  match fuel with
  | O => crc
  | S fuel' =>
      if len_bits =? 0 then crc
      else
        let r := Bits.CountTrailingZeroBits len_bits in
        let len_bits := Z.shiftr len_bits r in
        let powers := (powers + Z.to_nat r)%nat in
        let crc := gf_multiply_sw crc (nth powers crc32c_powers 0) crc32c_m in
        append_zeroes_loop fuel' crc (Z.shiftr len_bits 1) (S powers)
  end.

Definition Crc32AppendZeroes (crc len_over_4 : Z) : Z := append_zeroes_loop 64 crc len_over_4 0.

(** [InvertedToPure] and [PureToInverted]: the complement of a [uint32_t]. *)
Definition inverted (crc : Z) : Z := Z.lxor crc 0xffffffff.

(** [Extend] and [Value]; the address does not matter. *)
Definition Extend (crc : Z) (buf : list Z) : Z := ExtendImpl 0 crc buf.
Definition Value (buf : list Z) : Z := Extend 0 buf.

Definition PureExtend (crc : Z) (buf : list Z) : Z := inverted (Extend (inverted crc) buf).

Definition Crc32cCombine (crc1 crc2 crc2len : Z) : Z :=
  let pure_crc1_with_init := inverted crc1 in
  let pure_crc2_with_init := inverted crc2 in
  let pure_crc2_init := u32 (-1) in
  let len := Z.land crc2len 3 in
  let tmp := Z.lxor pure_crc1_with_init pure_crc2_init in
  let tmp := if len =? 0 then tmp else PureExtend tmp (replicate (Z.to_nat len) 0) in
  inverted (Z.lxor (Crc32AppendZeroes tmp (crc2len / 4)) pure_crc2_with_init).

(** ** Masking *)

Definition kMaskDelta : Z := 0xa282ead8.
Definition Mask (crc : Z) : Z := u32 (Z.lor (Z.shiftr crc 15) (u32 (Z.shiftl crc 17)) + kMaskDelta).
Definition Unmask (masked_crc : Z) : Z :=
  let rot := u32 (masked_crc - kMaskDelta) in
  Z.lor (Z.shiftr rot 17) (u32 (Z.shiftl rot 15)).

(** ** The reference *)

(** One step of the shift register. *)
Definition crc_step (a : Z) : Z := Z.lxor (Z.shiftr a 1) (if Z.odd a then crc32c_m else 0).
Definition steps (n : nat) (a : Z) : Z := Nat.iter n crc_step a.

(** A byte enters at the low end and is shifted out bit by bit. *)
Definition crc_byte (l b : Z) : Z := steps 8 (Z.lxor l b).
Definition crc_bits (l : Z) (buf : list Z) : Z := foldl crc_byte l buf.

(** ** The shift register is linear *)

Lemma lxor_swap a b c d : Z.lxor (Z.lxor a b) (Z.lxor c d) = Z.lxor (Z.lxor a c) (Z.lxor b d).
Proof. apply Z.bits_inj'. intros i _. rewrite !Z.lxor_spec. by destruct (Z.testbit a i), (Z.testbit b i), (Z.testbit c i), (Z.testbit d i). Qed.

Lemma lxor_range a b n : 0 <= n -> 0 <= a < 2 ^ n -> 0 <= b < 2 ^ n -> 0 <= Z.lxor a b < 2 ^ n.
Proof.
  intros Hn Ha Hb. assert (Z.lxor a b = Z.lxor a b mod 2 ^ n) as ->; [|by apply Z.mod_pos_bound; lia].
  apply Z.bits_inj'. intros i Hi. destruct (decide (i < n)).
  - by rewrite Z.mod_pow2_bits_low by lia.
  - rewrite Z.mod_pow2_bits_high by lia. rewrite Z.lxor_spec.
    rewrite <- (Z.mod_small a (2 ^ n)), <- (Z.mod_small b (2 ^ n)), !Z.mod_pow2_bits_high by lia. done.
Qed.

Lemma if_lxor (b c : bool) m :
  (if xorb b c then m else 0) = Z.lxor (if b then m else 0) (if c then m else 0).
Proof. destruct b, c; cbn [xorb]; by rewrite ?Z.lxor_nilpotent, ?Z.lxor_0_l, ?Z.lxor_0_r. Qed.

Lemma crc_step_lxor a b : crc_step (Z.lxor a b) = Z.lxor (crc_step a) (crc_step b).
Proof.
  unfold crc_step. rewrite Z.shiftr_lxor, <- !Z.bit0_odd, Z.lxor_spec, if_lxor. apply lxor_swap.
Qed.

Lemma crc_step_range a : is_u32 a -> is_u32 (crc_step a).
Proof.
  unfold is_u32, crc_step. intros H. rewrite Z.shiftr_div_pow2 by lia. change (2 ^ 1) with 2.
  apply lxor_range; [lia| |destruct (Z.odd a); unfold crc32c_m; lia].
  split; [apply Z.div_pos; lia|]. apply Z.div_lt_upper_bound; lia.
Qed.

Lemma crc_step_double a : crc_step (2 * a) = a.
Proof.
  unfold crc_step. rewrite Z.odd_mul. cbn [Z.odd andb]. rewrite Z.lxor_0_r, Z.shiftr_div_pow2 by lia.
  change (2 ^ 1) with 2. rewrite Z.mul_comm. by apply Z.div_mul.
Qed.

Lemma steps_S n a : steps (S n) a = steps n (crc_step a).
Proof. unfold steps. by rewrite Nat.iter_succ_r. Qed.

Lemma steps_add n k a : steps (n + k) a = steps n (steps k a).
Proof. unfold steps. by rewrite Nat.iter_add. Qed.

Lemma steps_lxor n a b : steps n (Z.lxor a b) = Z.lxor (steps n a) (steps n b).
Proof. revert a b. induction n as [|n IH]; intros; [done|]. by rewrite !steps_S, crc_step_lxor, IH. Qed.

Lemma steps_range n a : is_u32 a -> is_u32 (steps n a).
Proof. revert a. induction n as [|n IH]; intros; [done|]. rewrite steps_S. by apply IH, crc_step_range. Qed.

(** [n] steps shift out [n] low zero bits. *)
Lemma steps_shift n a : steps n (Z.shiftl a (Z.of_nat n)) = a.
Proof.
  revert a. induction n as [|n IH]; intros; [by rewrite Z.shiftl_0_r|].
  rewrite steps_S, Z.shiftl_mul_pow2 by lia.
  replace (a * 2 ^ Z.of_nat (S n)) with (2 * (a * 2 ^ Z.of_nat n)).
  - rewrite crc_step_double, <- Z.shiftl_mul_pow2 by lia. apply IH.
  - rewrite Nat2Z.inj_succ, Z.pow_succ_r by lia. lia.
Qed.

Lemma split_low a n : 0 <= n -> a = Z.lxor (Z.land a (Z.ones n)) (Z.shiftl (Z.shiftr a n) n).
Proof.
  intros Hn. apply Z.bits_inj'. intros i Hi.
  rewrite Z.lxor_spec, Z.land_spec, Z.shiftl_spec by done. destruct (decide (i < n)).
  - rewrite (Z.testbit_neg_r _ (i - n)), Z.ones_spec_low by lia. by destruct (Z.testbit a i).
  - rewrite Z.shiftr_spec, Z.ones_spec_high by lia. replace (i - n + n) with i by lia. by destruct (Z.testbit a i).
Qed.

(** The low byte of a register and the rest go separately. *)
Lemma steps_split n a : steps (n + 8) a = Z.lxor (steps (n + 8) (Z.land a 0xff)) (steps n (Z.shiftr a 8)).
Proof.
  rewrite (split_low a 8) at 1 by lia. rewrite steps_lxor. f_equal.
  rewrite steps_add. by rewrite (steps_shift 8).
Qed.

(** ** The tables *)

Definition table_ok (t : list Z) (n : nat) : bool :=
  forallb (fun i => read_table t i =? steps n i) (seqZ 0 256).

Lemma table_spec t n c : table_ok t n = true -> 0 <= c < 256 -> read_table t c = steps n c.
Proof.
  unfold table_ok. rewrite forallb_forall. intros H Hc. apply Z.eqb_eq, H.
  apply list_elem_of_In, elem_of_seqZ. lia.
Qed.

Lemma tables_ok : table_ok table0_ 8 && table_ok table1_ 16 && table_ok table2_ 24 && table_ok table3_ 32 = true.
Proof. by vm_compute. Qed.

Lemma land_byte a : 0 <= Z.land a 0xff < 256.
Proof. change 0xff with (Z.ones 8). rewrite Z.land_ones by lia. apply Z.mod_pos_bound. lia. Qed.

Lemma STEP1_crc_byte l b : 0 <= b < 256 -> STEP1 l b = crc_byte l b.
Proof.
  intros Hb. pose proof tables_ok as Ht. rewrite !andb_true_iff in Ht. destruct Ht as [[[H0 _] _] _].
  unfold STEP1, crc_byte. pose proof (land_byte l).
  rewrite (table_spec _ 8 _ H0) by (apply (lxor_range _ _ 8); lia).
  rewrite !steps_lxor. pose proof (steps_split 0 l) as E. change (0 + 8)%nat with 8%nat in E. rewrite E.
  change (steps 0 (Z.shiftr l 8)) with (Z.shiftr l 8).
  rewrite !Z.lxor_assoc. f_equal. apply Z.lxor_comm.
Qed.

Lemma four_tables c : is_u32 c ->
  Z.lxor (Z.lxor (Z.lxor (read_table table3_ (Z.land c 0xff)) (read_table table2_ (Z.land (Z.shiftr c 8) 0xff)))
    (read_table table1_ (Z.land (Z.shiftr c 16) 0xff))) (read_table table0_ (Z.shiftr c 24)) = steps 32 c.
Proof.
  intros Hc. pose proof tables_ok as Ht. rewrite !andb_true_iff in Ht. destruct Ht as [[[H0 H1] H2] H3].
  assert (0 <= Z.shiftr c 24 < 256) as Hhi.
  { unfold is_u32 in Hc. rewrite Z.shiftr_div_pow2 by lia. split; [apply Z.div_pos; lia|].
    apply Z.div_lt_upper_bound; lia. }
  rewrite (table_spec _ _ _ H0 Hhi), (table_spec _ _ _ H1), (table_spec _ _ _ H2), (table_spec _ _ _ H3)
    by apply land_byte.
  pose proof (steps_split 24 c) as E1. pose proof (steps_split 16 (Z.shiftr c 8)) as E2.
  pose proof (steps_split 8 (Z.shiftr c 16)) as E3. rewrite !Z.shiftr_shiftr in * by lia.
  change (24 + 8)%nat with 32%nat in E1. change (16 + 8)%nat with 24%nat in E2. change (8 + 8)%nat with 16%nat in E3.
  change (8 + 8) with 16 in *. change (16 + 8) with 24 in *. rewrite E1, E2, E3.
  by rewrite !Z.lxor_assoc.
Qed.

(** ** Bytes of a little-endian word *)

Lemma crc_byte_range l b : is_u32 l -> 0 <= b < 256 -> is_u32 (crc_byte l b).
Proof. intros Hl Hb. apply steps_range, lxor_range; unfold is_u32 in *; lia. Qed.

Lemma crc_bits_range l buf : is_u32 l -> is_bytes buf -> is_u32 (crc_bits l buf).
Proof.
  intros Hl Hb. revert l Hl. induction Hb as [|b buf Hb _ IH]; intros l Hl; [done|].
  by apply IH, crc_byte_range.
Qed.

(** The bytes of a string enter together, as a little-endian number. *)
Lemma crc_bits_decode buf : is_bytes buf -> forall l,
  crc_bits l buf = steps (8 * length buf) (Z.lxor l (Version.decode_fixed buf)).
Proof.
  intros Hb. induction Hb as [|b buf Hb _ IH]; intros l; [by cbn; rewrite Z.lxor_0_r|].
  cbn [crc_bits foldl length Version.decode_fixed]. fold (crc_bits (crc_byte l b) buf). rewrite IH.
  replace (8 * S (length buf))%nat with (8 * length buf + 8)%nat by lia. rewrite steps_add. f_equal.
  rewrite (steps_lxor 8). unfold crc_byte. rewrite (steps_lxor 8), Z.lxor_assoc. f_equal.
  rewrite <- (steps_shift 8 (Version.decode_fixed buf)) at 1. rewrite <- steps_lxor. f_equal.
  change (Z.of_nat 8) with 8. apply Z.bits_inj'. intros i Hi. rewrite Z.lxor_spec, Z.lor_spec, Z.shiftl_spec by done.
  destruct (decide (i < 8)).
  - rewrite (Z.testbit_neg_r _ (i - 8)) by lia. by destruct (Z.testbit b i).
  - rewrite <- (Z.mod_small b (2 ^ 8)) by lia. by rewrite Z.mod_pow2_bits_high by lia.
Qed.

Lemma crc_bits_app l a b : crc_bits l (a ++ b) = crc_bits (crc_bits l a) b.
Proof. apply foldl_app. Qed.

(** ** The loops compute the reference *)

Lemma is_bytes_take n p : is_bytes p -> is_bytes (take n p).
Proof. apply Forall_take. Qed.

Lemma is_bytes_drop n p : is_bytes p -> is_bytes (drop n p).
Proof. apply Forall_drop. Qed.

Lemma foldl_STEP1 l p : is_bytes p -> foldl STEP1 l p = crc_bits l p.
Proof.
  intros Hp. revert l. induction Hp as [|b p Hb _ IH]; intros l; [done|]. cbn.
  by rewrite STEP1_crc_byte, IH.
Qed.

Lemma four_bytes_spec l p : is_u32 l -> is_bytes p -> (4 <= length p)%nat -> four_bytes l p = crc_bits l (take 4 p).
Proof.
  intros Hl Hp Hn. pose proof (is_bytes_take 4 p Hp) as Ht.
  assert (length (take 4 p) = 4%nat) as El by (rewrite length_take; lia).
  assert (is_u32 (Z.lxor l (LE_LOAD32 p))) as Hc.
  { pose proof (decode_fixed_range _ Ht) as Hr. rewrite El in Hr. apply lxor_range; [lia|done|].
    unfold LE_LOAD32. change (8 * Z.of_nat 4) with 32 in Hr. done. }
  unfold four_bytes. assert (u32 (Z.lxor l (LE_LOAD32 p)) = Z.lxor l (LE_LOAD32 p)) as -> by by apply Z.mod_small.
  cbv zeta. rewrite four_tables by done.
  rewrite (crc_bits_decode _ Ht), El. done.
Qed.

Lemma crc_bits_split n l p : crc_bits (crc_bits l (take n p)) (drop n p) = crc_bits l p.
Proof. by rewrite <- crc_bits_app, take_drop. Qed.

Lemma DefaultCRC32_spec l p : is_u32 l -> is_bytes p -> (8 <= length p)%nat ->
  is_u32 (DefaultCRC32 l p) /\ crc_bits (DefaultCRC32 l p) (drop 8 p) = crc_bits l p.
Proof.
  intros Hl Hp Hn. pose proof (is_bytes_drop 4 p Hp) as Hd. unfold DefaultCRC32.
  assert (is_u32 (four_bytes l p)) as Hf.
  { rewrite four_bytes_spec by (done || lia). by apply crc_bits_range, is_bytes_take. }
  rewrite (four_bytes_spec _ (drop 4 p)) by (done || (rewrite length_drop; lia)). split.
  - by apply crc_bits_range, is_bytes_take.
  - change 8%nat with (4 + 4)%nat. rewrite <- drop_drop, crc_bits_split, four_bytes_spec by (done || lia).
    apply crc_bits_split.
Qed.

(** What the loops keep: the register and the bytes to come give the same checksum. *)
Definition same_crc (s s' : Z * list Z) : Prop :=
  crc_bits s'.1 s'.2 = crc_bits s.1 s.2 /\ is_u32 s'.1 /\ is_bytes s'.2.

Lemma loop8_spec fuel l p : is_u32 l -> is_bytes p -> same_crc (l, p) (loop8 fuel l p).
Proof.
  revert l p. induction fuel as [|fuel IH]; intros l p Hl Hp; [done|]. cbn [loop8]. case_decide; [|done].
  destruct (DefaultCRC32_spec l p) as [Hd E]; [done..|].
  destruct (IH _ _ Hd (is_bytes_drop 8 p Hp)) as [E' ?]. split; [|done]. by rewrite E'.
Qed.

Lemma loop16_spec fuel l p : is_u32 l -> is_bytes p -> same_crc (l, p) (loop16 fuel l p).
Proof.
  revert l p. induction fuel as [|fuel IH]; intros l p Hl Hp; [done|]. cbn [loop16]. case_decide; [|done].
  destruct (DefaultCRC32_spec l p) as [Hd E]; [done|done|lia|]. pose proof (is_bytes_drop 8 p Hp) as Hp8.
  destruct (DefaultCRC32_spec _ (drop 8 p) Hd Hp8) as [Hd' E'']; [rewrite length_drop; lia|].
  rewrite drop_drop in E''. change (8 + 8)%nat with 16%nat in E''. destruct (IH _ _ Hd' (is_bytes_drop 16 p Hp)) as [E' ?]. split; [|done].
  rewrite E'. cbn [fst snd]. by rewrite E'', E.
Qed.

(** Each loop leaves fewer bytes than it takes at a time. *)
Lemma loop8_rest fuel l p : (length p <= fuel)%nat -> (length (loop8 fuel l p).2 < 8)%nat.
Proof.
  revert l p. induction fuel as [|fuel IH]; intros l p Hn; cbn [loop8]; [cbn; lia|].
  case_decide; [|cbn; lia]. apply IH. rewrite length_drop. lia.
Qed.

Lemma loop16_rest fuel l p : (length p <= fuel)%nat -> (length (loop16 fuel l p).2 < 16)%nat.
Proof.
  revert l p. induction fuel as [|fuel IH]; intros l p Hn; cbn [loop16]; [cbn; lia|].
  case_decide; [|cbn; lia]. apply IH. rewrite length_drop. lia.
Qed.

Lemma inverted_range l : is_u32 l -> is_u32 (inverted l).
Proof. intros H. apply lxor_range; unfold is_u32 in *; lia. Qed.

Lemma inverted_inverted l : inverted (inverted l) = l.
Proof. unfold inverted. by rewrite Z.lxor_assoc, Z.lxor_nilpotent, Z.lxor_0_r. Qed.

Lemma ExtendImpl_reference pval crc buf : is_u32 crc -> is_bytes buf ->
  ExtendImpl pval crc buf = inverted (crc_bits (inverted crc) buf).
Proof.
  intros Hc Hb. unfold ExtendImpl. set (head := Z.to_nat _). pose proof (inverted_range _ Hc) as Hi.
  fold (inverted crc).
  destruct (if decide (head <= length buf)%nat then _ else _) as [l0 p0] eqn:E0.
  assert (same_crc (inverted crc, buf) (l0, p0)) as (S0 & U0 & B0).
  { case_decide; injection E0 as <- <-; [|done]. rewrite foldl_STEP1 by by apply is_bytes_take.
    split_and!; [apply crc_bits_split|by apply crc_bits_range, is_bytes_take|by apply is_bytes_drop]. }
  destruct (loop16 (length p0) l0 p0) as [l1 p1] eqn:E1.
  pose proof (loop16_spec (length p0) l0 p0 U0 B0) as (S1 & U1 & B1). rewrite E1 in *.
  destruct (loop8 (length p1) l1 p1) as [l2 p2] eqn:E2.
  pose proof (loop8_spec (length p1) l1 p1 U1 B1) as (S2 & U2 & B2). rewrite E2 in *.
  cbn [fst snd] in *. rewrite foldl_STEP1 by done. unfold u32. rewrite Z.mod_small.
  - unfold inverted in *. congruence.
  - by apply inverted_range, crc_bits_range.
Qed.

(** ** The field of the polynomial *)

Lemma land_mask b a : is_u32 a -> Z.land (u32 (0 - Z.b2z b)) a = if b then a else 0.
Proof.
  intros Ha. destruct b; [|apply Z.land_0_l]. change (u32 (0 - Z.b2z true)) with (Z.ones 32).
  rewrite Z.land_comm, Z.land_ones by lia. by apply Z.mod_small.
Qed.

Lemma land_1 a : Z.land a 1 = Z.b2z (Z.testbit a 0).
Proof. change 1 with (Z.ones 1) at 1. rewrite Z.land_ones by lia. change (2 ^ 1) with 2. by rewrite <- Z.bit0_mod. Qed.

(** The product without an accumulator. *)
Fixpoint product (n : nat) (a b : Z) : Z :=
  match n with
  | O => 0
  | S n' => Z.lxor (if Z.testbit b 31 then a else 0) (product n' (crc_step a) (u32 (Z.shiftl b 1)))
  end.

Lemma gf_multiply_product n p a b : is_u32 a -> 
  gf_multiply_sw_1 n p a b crc32c_m = Z.lxor p (product n a b).
Proof.
  revert p a b. induction n as [|n IH]; intros p a b Ha; cbn [gf_multiply_sw_1 product]; [by rewrite Z.lxor_0_r|].
  rewrite !land_1, Z.shiftr_spec by lia. rewrite !land_mask by done. cbn [Z.add].
  replace (Z.lxor (Z.shiftr a 1) _) with (crc_step a) by (unfold crc_step; by rewrite Z.bit0_odd).
  rewrite IH by by apply crc_step_range. by rewrite Z.lxor_assoc.
Qed.

Lemma gf_multiply_sw_product a b : is_u32 a -> gf_multiply_sw a b crc32c_m = product 32 a b.
Proof. intros Ha. unfold gf_multiply_sw. by rewrite gf_multiply_product, Z.lxor_0_l. Qed.

Lemma u32_lxor a b : u32 (Z.lxor a b) = Z.lxor (u32 a) (u32 b).
Proof.
  unfold u32. apply Z.bits_inj'. intros i Hi. rewrite Z.lxor_spec. destruct (decide (i < 32)).
  - rewrite !Z.mod_pow2_bits_low by lia. apply Z.lxor_spec.
  - by rewrite !Z.mod_pow2_bits_high by lia.
Qed.

Lemma product_lxor_l n a a' b : product n (Z.lxor a a') b = Z.lxor (product n a b) (product n a' b).
Proof.
  revert a a' b. induction n as [|n IH]; intros; cbn [product]; [done|].
  rewrite crc_step_lxor, IH, lxor_swap. f_equal. by destruct (Z.testbit b 31).
Qed.

Lemma product_lxor_r n a b b' : product n a (Z.lxor b b') = Z.lxor (product n a b) (product n a b').
Proof.
  revert a b b'. induction n as [|n IH]; intros; cbn [product]; [done|].
  rewrite Z.shiftl_lxor, u32_lxor, IH, Z.lxor_spec, if_lxor. apply lxor_swap.
Qed.

(** A property closed under exclusive or holds of every word if it holds of its bits. *)
Lemma xor_ind (P : Z -> Prop) : P 0 -> (forall k, 0 <= k < 32 -> P (2 ^ k)) ->
  (forall a b, P a -> P b -> P (Z.lxor a b)) -> forall a, is_u32 a -> P a.
Proof.
  intros P0 Pk Px. assert (forall n : nat, (n <= 32)%nat -> forall a, 0 <= a < 2 ^ Z.of_nat n -> P a) as H;
    [|intros a; by apply (H 32%nat)].
  induction n as [|n IH]; intros Hn a Ha.
  - change (2 ^ Z.of_nat 0) with 1 in Ha. by assert (a = 0) as -> by lia.
  - rewrite Nat2Z.inj_succ, Z.pow_succ_r in Ha by lia.
    destruct (decide (a < 2 ^ Z.of_nat n)) as [|Hge]; [apply IH; lia|].
    assert (a = Z.lxor (a - 2 ^ Z.of_nat n) (2 ^ Z.of_nat n)) as ->; [|apply Px; [apply IH|apply Pk]; lia].
    rewrite <- Z.add_nocarry_lxor; [lia|]. apply Z.bits_inj'. intros i Hi. rewrite Z.land_spec, Z.bits_0.
    destruct (decide (i = Z.of_nat n)) as [->|].
    + rewrite <- (Z.mod_small (a - _) (2 ^ Z.of_nat n)), Z.mod_pow2_bits_high by lia. done.
    + rewrite Z.pow2_bits_false by lia. apply andb_false_r.
Qed.

(** The identity of the field, in reflected order. *)
Definition gf_one : Z := 0x80000000.

Definition basis_ok : bool :=
  forallb (fun i => (product 32 (2 ^ i) gf_one =? 2 ^ i) &&
    forallb (fun j => product 32 (2 ^ i) (crc_step (2 ^ j)) =? crc_step (product 32 (2 ^ i) (2 ^ j)))
      (seqZ 0 32)) (seqZ 0 32).

Lemma basis_holds : basis_ok = true.
Proof. by vm_compute. Qed.

Lemma basis_spec i : 0 <= i < 32 -> product 32 (2 ^ i) gf_one = 2 ^ i /\
  forall j, 0 <= j < 32 -> product 32 (2 ^ i) (crc_step (2 ^ j)) = crc_step (product 32 (2 ^ i) (2 ^ j)).
Proof.
  intros Hi. pose proof basis_holds as H. unfold basis_ok in H. rewrite forallb_forall in H.
  specialize (H i). rewrite andb_true_iff, forallb_forall, Z.eqb_eq in H.
  destruct H as [H1 H2]; [apply list_elem_of_In, elem_of_seqZ; lia|]. split; [done|].
  intros j Hj. apply Z.eqb_eq, H2, list_elem_of_In, elem_of_seqZ. lia.
Qed.

Lemma product_0_l n b : product n 0 b = 0.
Proof. revert b. induction n as [|n IH]; intros; cbn [product]; [done|]. change (crc_step 0) with 0. rewrite IH. by destruct (Z.testbit b 31). Qed.

Lemma product_one a : is_u32 a -> product 32 a gf_one = a.
Proof.
  revert a. apply xor_ind; [apply product_0_l|by intros k Hk; apply basis_spec|].
  intros a b Ea Eb. by rewrite product_lxor_l, Ea, Eb.
Qed.

Lemma product_step a b : is_u32 a -> is_u32 b -> product 32 a (crc_step b) = crc_step (product 32 a b).
Proof.
  intros Ha Hb. revert a Ha. apply xor_ind; [by rewrite !product_0_l| |].
  - intros i Hi. revert b Hb. apply xor_ind; [done|by intros j Hj; apply basis_spec|].
    intros b c Eb Ec. by rewrite crc_step_lxor, !product_lxor_r, crc_step_lxor, Eb, Ec.
  - intros a c Ea Ec. by rewrite !product_lxor_l, crc_step_lxor, Ea, Ec.
Qed.

(** Multiplying by the [n]-th power of the generator is [n] steps. *)
Lemma product_steps n a : is_u32 a -> product 32 a (steps n gf_one) = steps n a.
Proof.
  intros Ha. assert (is_u32 gf_one) as H1 by done. induction n as [|n IH]; [by apply product_one|].
  change (steps (S n) ?x) with (crc_step (steps n x)). rewrite product_step, IH by (done || by apply steps_range). done.
Qed.

Lemma gf_multiply_steps n a : is_u32 a -> gf_multiply_sw a (steps n gf_one) crc32c_m = steps n a.
Proof. intros Ha. rewrite gf_multiply_sw_product by done. by apply product_steps. Qed.

(** ** Appending zeroes *)

Lemma gf_powers_memo_spec i : gf_powers_memo i crc32c_m = steps (32 * 2 ^ i) gf_one.
Proof.
  induction i as [|i IH]; [by vm_compute|]. cbn [gf_powers_memo]. rewrite IH. unfold gf_square_sw.
  rewrite gf_multiply_steps by by apply steps_range. rewrite <- steps_add. f_equal. rewrite Nat.pow_succ_r'. lia.
Qed.

Lemma crc32c_powers_spec i : (i < 62)%nat -> nth i crc32c_powers 0 = steps (32 * 2 ^ i) gf_one.
Proof.
  intros Hi. rewrite <- gf_powers_memo_spec. unfold crc32c_powers. apply nth_lookup_Some.
  rewrite list_lookup_fmap, lookup_seq_lt by done. done.
Qed.

Lemma lowest_bit w : is_u64 w -> w <> 0 -> let r := Bits.CountTrailingZeroBits w in
  0 <= r /\ w = 2 ^ r * (2 * Z.shiftr (Z.shiftr w r) 1 + 1).
Proof.
  intros Hw Hn r. destruct (Bits.word_bits w) as [|i l] eqn:E.
  { by apply Bits.word_bits_zero in E. }
  assert (r = i) as -> by (unfold r, Bits.CountTrailingZeroBits; by rewrite E).
  destruct (Bits.word_bits_cons w i l E) as (Hi & Ht & Hlow). split; [lia|].
  assert (Z.shiftr w i = 2 * Z.shiftr (Z.shiftr w i) 1 + 1) as <-.
  { replace i with (0 + i) in Ht by lia. rewrite <- Z.shiftr_spec, Z.bit0_odd in Ht by lia.
    rewrite (Z.div2_odd (Z.shiftr w i)) at 1. by rewrite Ht, Z.div2_spec. }
  rewrite Z.mul_comm, <- Z.shiftl_mul_pow2 by lia. apply Z.bits_inj'. intros j Hj.
  rewrite Z.shiftl_spec by done. destruct (decide (j < i)).
  - rewrite (Z.testbit_neg_r _ (j - i)) by lia. by apply Hlow.
  - rewrite Z.shiftr_spec by lia. f_equal. lia.
Qed.

Lemma append_zeroes_spec fuel : forall crc len powers, is_u32 crc -> 0 <= len ->
  Z.of_nat powers <= 62 -> len * 2 ^ Z.of_nat powers < 2 ^ 62 -> len < 2 ^ Z.of_nat fuel ->
  append_zeroes_loop fuel crc len powers = steps (Z.to_nat (32 * 2 ^ Z.of_nat powers * len)) crc.
Proof.
  induction fuel as [|fuel IH]; intros crc len powers Hc Hl Hp Hm Hf.
  { change (2 ^ Z.of_nat 0) with 1 in Hf. assert (len = 0) as -> by lia. by rewrite Z.mul_0_r. }
  cbn [append_zeroes_loop]. destruct (Z.eqb_spec len 0) as [->|Hn]; [by rewrite Z.mul_0_r|].
  assert (0 < 2 ^ Z.of_nat powers) as Hpp by lia.
  destruct (lowest_bit len) as [Hr E]; [assert (len <= len * 2 ^ Z.of_nat powers) by nia; solve_u64|done|]. cbv zeta.
  set (r := Bits.CountTrailingZeroBits len) in *. set (q := Z.shiftr (Z.shiftr len r) 1) in *.
  assert (0 <= q) as Hq by (unfold q; rewrite !Z.shiftr_nonneg; lia).
  assert (1 <= 2 ^ r) as H2r by (pose proof (Z.pow_pos_nonneg 2 r); lia).
  set (k := (powers + Z.to_nat r)%nat).
  assert (2 ^ Z.of_nat k = 2 ^ Z.of_nat powers * 2 ^ r) as Ek.
  { unfold k. rewrite Nat2Z.inj_add, Z2Nat.id, Z.pow_add_r by lia. done. }
  assert (2 ^ Z.of_nat k * (2 * q + 1) < 2 ^ 62) as Hk by (rewrite Ek; nia).
  assert (Z.of_nat k < 62) as Hk62 by (apply (Z.pow_lt_mono_r_iff 2); nia).
  assert (2 ^ Z.of_nat (S k) = 2 * 2 ^ Z.of_nat k) as ESk by (rewrite Nat2Z.inj_succ, Z.pow_succ_r; lia).
  rewrite crc32c_powers_spec by lia. rewrite gf_multiply_steps by done.
  rewrite Nat2Z.inj_succ, Z.pow_succ_r in Hf by lia.
  rewrite IH; [| by apply steps_range | done | lia | rewrite ESk; nia | nia].
  rewrite <- steps_add. f_equal. rewrite ESk.
  assert ((32 * 2 ^ k)%nat = Z.to_nat (32 * 2 ^ Z.of_nat k)) as ->.
  { apply Nat2Z.inj. rewrite Z2Nat.id, Nat2Z.inj_mul, Nat2Z.inj_pow by lia. done. }
  rewrite <- Z2Nat.inj_add by nia. f_equal. rewrite E, Ek. ring.
Qed.

(** ** The checksum of a concatenation *)

Lemma crc_bits_lxor l l' b : is_bytes b ->
  crc_bits (Z.lxor l l') b = Z.lxor (crc_bits l b) (steps (8 * length b) l').
Proof.
  intros Hb. rewrite !crc_bits_decode by done. rewrite <- steps_lxor. f_equal.
  rewrite !Z.lxor_assoc. f_equal. apply Z.lxor_comm.
Qed.

Lemma crc_bits_zeroes l n : crc_bits l (replicate n 0) = steps (8 * n) l.
Proof.
  revert l. induction n as [|n IH]; intros; [done|]. cbn [replicate crc_bits foldl].
  fold (crc_bits (crc_byte l 0) (replicate n 0)). rewrite IH. unfold crc_byte. rewrite Z.lxor_0_r, <- steps_add.
  f_equal. lia.
Qed.

Lemma is_bytes_zeroes n : is_bytes (replicate n 0).
Proof. apply Forall_replicate. lia. Qed.

Lemma Crc32cCombine_extend crc1 b : is_u32 crc1 -> is_bytes b -> Z.of_nat (length b) < 2 ^ 64 ->
  Crc32cCombine crc1 (Value b) (Z.of_nat (length b)) = Extend crc1 b.
Proof.
  intros H1 Hb Hlen. unfold Value, Extend, Crc32cCombine. rewrite !ExtendImpl_reference by done.
  rewrite inverted_inverted. set (n := Z.of_nat (length b)) in *. change (u32 (-1)) with (inverted 0).
  set (tmp := Z.lxor (inverted crc1) (inverted 0)). f_equal.
  assert (is_u32 tmp) as Ht by (apply lxor_range; [lia|by apply inverted_range|done]).
  change 3 with (Z.ones 2). rewrite Z.land_ones by lia. change (2 ^ 2) with 4.
  pose proof (Z.mod_pos_bound n 4 ltac:(lia)) as Hmod. pose proof (Z.div_mod n 4 ltac:(lia)) as Hdiv.
  assert ((if n mod 4 =? 0 then tmp else PureExtend tmp (replicate (Z.to_nat (n mod 4)) 0)) =
    steps (8 * Z.to_nat (n mod 4)) tmp) as ->.
  { destruct (Z.eqb_spec (n mod 4) 0) as [->|_]; [done|]. unfold PureExtend, Extend.
    rewrite ExtendImpl_reference by (done || apply is_bytes_zeroes || by apply inverted_range).
    by rewrite !inverted_inverted, crc_bits_zeroes. }
  unfold Crc32AppendZeroes. rewrite append_zeroes_spec; [| by apply steps_range|lia|lia|lia|].
  2: { change (2 ^ Z.of_nat 64) with (2 ^ 64). lia. }
  rewrite <- steps_add. change (2 ^ Z.of_nat 0) with 1.
  replace (Z.to_nat (32 * 1 * (n / 4)) + 8 * Z.to_nat (n mod 4))%nat with (8 * length b)%nat by lia.
  rewrite Z.lxor_comm, <- crc_bits_lxor by done. f_equal. unfold tmp.
  rewrite (Z.lxor_comm (inverted crc1)), <- Z.lxor_assoc, Z.lxor_nilpotent. apply Z.lxor_0_l.
Qed.

Lemma Extend_app crc a b : is_u32 crc -> is_bytes a -> is_bytes b -> Extend crc (a ++ b) = Extend (Extend crc a) b.
Proof.
  intros Hc Ha Hb. unfold Extend. pose proof (inverted_range _ Hc) as Hi.
  rewrite (ExtendImpl_reference 0 crc (a ++ b)) by (done || by apply Forall_app).
  rewrite (ExtendImpl_reference 0 crc a) by done.
  rewrite ExtendImpl_reference by (done || apply inverted_range, crc_bits_range; done).
  by rewrite inverted_inverted, crc_bits_app.
Qed.

Lemma Extend_range crc a : is_u32 crc -> is_bytes a -> is_u32 (Extend crc a).
Proof.
  intros Hc Ha. unfold Extend. rewrite ExtendImpl_reference by done.
  apply inverted_range, crc_bits_range; [by apply inverted_range|done].
Qed.

(** ** Masking *)

Lemma rotate_spec c k j : is_u32 c -> k + j = 32 -> 0 < k -> 0 < j ->
  Z.lor (Z.shiftr c k) (u32 (Z.shiftl c j)) = c / 2 ^ k + c mod 2 ^ k * 2 ^ j.
Proof.
  intros Hc Hkj Hk Hj. unfold is_u32, u32 in *. rewrite Z.shiftr_div_pow2, Z.shiftl_mul_pow2 by lia.
  assert (2 ^ 32 = 2 ^ k * 2 ^ j) as E by (rewrite <- Hkj; apply Z.pow_add_r; lia).
  rewrite E, Z.mul_mod_distr_r by lia. rewrite <- (Z.shiftl_mul_pow2 _ j) by lia.
  rewrite lor_add; [by rewrite Z.shiftl_mul_pow2 by lia|lia|].
  split; [apply Z.div_pos; lia|]. apply Z.div_lt_upper_bound; nia.
Qed.

Lemma rotate_range c k j : is_u32 c -> k + j = 32 -> 0 < k -> 0 < j ->
  is_u32 (c / 2 ^ k + c mod 2 ^ k * 2 ^ j).
Proof.
  intros Hc Hkj Hk Hj. unfold is_u32 in *.
  assert (2 ^ 32 = 2 ^ k * 2 ^ j) as E by (rewrite <- Hkj; apply Z.pow_add_r; lia).
  pose proof (Z.mod_pos_bound c (2 ^ k) ltac:(lia)). pose proof (Z.div_mod c (2 ^ k) ltac:(lia)).
  assert (0 <= c / 2 ^ k < 2 ^ j) by (split; [apply Z.div_pos; lia|apply Z.div_lt_upper_bound; nia]). nia.
Qed.

Lemma Unmask_Mask_spec crc : is_u32 crc -> Unmask (Mask crc) = crc.
Proof.
  intros Hc. unfold Unmask, Mask. rewrite (rotate_spec _ 15 17) by (done || lia).
  pose proof (rotate_range crc 15 17 Hc eq_refl ltac:(lia) ltac:(lia)) as Hr.
  set (rot := crc / 2 ^ 15 + _) in *.
  assert (u32 (u32 (rot + kMaskDelta) - kMaskDelta) = rot) as ->.
  { unfold u32. rewrite Zminus_mod_idemp_l, Z.add_simpl_r. by apply Z.mod_small. }
  rewrite (rotate_spec _ 17 15) by (done || lia). unfold rot.
  pose proof (Z.div_mod crc (2 ^ 15) ltac:(lia)). unfold is_u32 in Hc.
  assert (0 <= crc / 2 ^ 15 < 2 ^ 17) by (split; [apply Z.div_pos; lia|apply Z.div_lt_upper_bound; lia]).
  rewrite Z.div_add, Z.mod_add, (Z.div_small (crc / 2 ^ 15)), (Z.mod_small (crc / 2 ^ 15)) by lia. lia.
Qed.

(** ** Claims *)

(** The portable checksum, with its alignment prologue, its tables and its loops over
    sixteen, eight and one bytes, is the bit-by-bit CRC-32C of the bytes, whatever the
    address of the buffer. *)
Theorem ExtendImpl_correct pval crc buf : is_u32 crc -> is_bytes buf ->
  ExtendImpl pval crc buf = inverted (crc_bits (inverted crc) buf).
Proof. apply ExtendImpl_reference. Qed.

Lemma ExtendImpl_correct_witness :
  ExtendImpl 5 0 (seqZ 0 40) = inverted (crc_bits (inverted 0) (seqZ 0 40)).
Proof. apply (ExtendImpl_correct 5 0 (seqZ 0 40)); [done|]. by apply (bool_decide_unpack _). Defined.

(** C18: [Crc32cCombine] of the checksums of two strings is the checksum of their
    concatenation. *)
Theorem Crc32cCombine_correct a b : is_bytes a -> is_bytes b -> Z.of_nat (length b) < 2 ^ 64 ->
  Crc32cCombine (Value a) (Value b) (Z.of_nat (length b)) = Value (a ++ b).
Proof.
  intros Ha Hb Hlen. rewrite Crc32cCombine_extend by (done || by apply Extend_range).
  symmetry. by apply Extend_app.
Qed.

Lemma Crc32cCombine_correct_witness :
  Crc32cCombine (Value [49; 50; 51; 52]) (Value [53; 54; 55; 56; 57]) 5 = Value [49; 50; 51; 52; 53; 54; 55; 56; 57].
Proof.
  apply (Crc32cCombine_correct [49; 50; 51; 52] [53; 54; 55; 56; 57]); [..|done]; by apply (bool_decide_unpack _).
Defined.

End Crc.
