(* ===== verification/LogWriter.v ===== *)
(** * The log writer

    [db/log_format.h] and [db/log_writer.cc]: the framing of records in blocks of 32 KiB,
    with which the MANIFEST and the write-ahead logs are written.  A record is cut into
    fragments that fit the blocks; each fragment has a header with a checksum, a length
    and a type, and the log number when log files are recycled; a block's end that is too
    short for a header is filled with zeroes.

    The destination is an interface, [FileWriter]: [contents] is what was appended and
    [flushed] what has reached the file, a prefix of it.  Compression of the log is not
    modelled on the writer's side ([compression_type_] is [kNoCompression]).

    [image] is the log of a list of records as a pure function; the lemmas show that the
    writer, whatever errors the file reports, only ever writes a prefix of it. *)

From Stdlib Require Import ZArith Lia.
From stdpp Require Import base numbers list gmap.
From S2P Require Import Prelude Version Coding Crc.

Import Coding.
Local Open Scope Z_scope.

Module LogWriter.

(** ** Format *)

Definition kZeroType : Z := 0.
Definition kFullType : Z := 1.
Definition kFirstType : Z := 2.
Definition kMiddleType : Z := 3.
Definition kLastType : Z := 4.
Definition kRecyclableFullType : Z := 5.
Definition kRecyclableFirstType : Z := 6.
Definition kRecyclableMiddleType : Z := 7.
Definition kRecyclableLastType : Z := 8.
Definition kSetCompressionType : Z := 9.
Definition kUserDefinedTimestampSizeType : Z := 10.
Definition kRecyclableUserDefinedTimestampSizeType : Z := 11.
Definition kPredecessorWALInfoType : Z := 130.
Definition kRecyclePredecessorWALInfoType : Z := 131.
Definition kRecordTypeSafeIgnoreMask : Z := 128.
Definition kMaxRecordType : Z := kRecyclePredecessorWALInfoType.
Definition kBlockSize : Z := 32768.
Definition kHeaderSize : Z := 4 + 2 + 1.
Definition kRecyclableHeaderSize : Z := 4 + 2 + 1 + 4.

Definition EncodeFixed32 (v : Z) : list Z := Version.encode_fixed 4 v.
Definition EncodeFixed16 (v : Z) : list Z := Version.encode_fixed 2 v.
Definition size (l : list Z) : Z := Z.of_nat (length l).
Definition zeroes (n : Z) : list Z := replicate (Z.to_nat n) 0.

(** ** The destination *)

Class FileWriter (F : Type) := {
  contents : F -> list Z;
  flushed : F -> list Z;
  seen_error : F -> bool;
  Append : F -> list Z -> F * bool;
  Flush : F -> F * bool;
}.

(** What [WritableFileWriter] promises: an append that succeeds adds the data, one that
    fails is remembered, and the file holds a prefix of the data at any time. *)
Class FileWriterLaws (F : Type) `{FileWriter F} := {
  flushed_contents f : seen_error f = false -> flushed f `prefix_of` contents f;
  Append_ok f d f' : Append f d = (f', true) ->
    contents f' = contents f ++ d /\ seen_error f' = seen_error f /\ flushed f `prefix_of` flushed f';
  Append_fail f d f' : Append f d = (f', false) ->
    seen_error f' = true /\ flushed f `prefix_of` flushed f' /\ flushed f' `prefix_of` contents f ++ d;
  Flush_ok f f' : Flush f = (f', true) ->
    contents f' = contents f /\ seen_error f' = seen_error f /\ flushed f' = contents f;
  Flush_fail f f' : Flush f = (f', false) ->
    seen_error f' = true /\ flushed f `prefix_of` flushed f' /\ flushed f' `prefix_of` contents f;
}.

(** ** The writer *)

Record Writer (F : Type) := mkWriter {
  dest : F;
  block_offset_ : Z;
  log_number_ : Z;
  recycle_log_files_ : bool;
  manual_flush_ : bool;
  track_and_verify_wals_ : bool;
  last_seqno_recorded_ : Z;
  recorded_cf_to_ts_sz_ : gmap Z Z;
}.
Arguments mkWriter {F}.
Arguments dest {F}.
Arguments block_offset_ {F}.
Arguments log_number_ {F}.
Arguments recycle_log_files_ {F}.
Arguments manual_flush_ {F}.
Arguments track_and_verify_wals_ {F}.
Arguments last_seqno_recorded_ {F}.
Arguments recorded_cf_to_ts_sz_ {F}.

Definition header_size (recycle : bool) : Z := if recycle then kRecyclableHeaderSize else kHeaderSize.

(** The types of the legacy format in [EmitPhysicalRecord]. *)
Definition legacy_type (t : Z) : bool :=
  (t <? kRecyclableFullType) || (t =? kSetCompressionType) || (t =? kPredecessorWALInfoType) ||
  (t =? kUserDefinedTimestampSizeType).

(** [type_crc_]. *)
Definition type_crc (t : Z) : Z := Crc.Value [t].

(** The header [EmitPhysicalRecord] formats in [buf]. *)
Definition format_header (log_number t : Z) (payload : list Z) : list Z :=
  let n := size payload in
  let log := if legacy_type t then [] else EncodeFixed32 (u32 log_number) in
  let crc := if legacy_type t then type_crc t else Crc.Extend (type_crc t) log in
  let crc := Crc.Mask (Crc.Crc32cCombine crc (Crc.Value payload) n) in
  EncodeFixed32 crc ++ [Z.land n 0xff; u8 (Z.shiftr n 8); t] ++ log.

(** The type of a fragment. *)
Definition fragment_type (recycle begin end_ : bool) : Z :=
  match begin, end_ with
  | true, true => if recycle then kRecyclableFullType else kFullType
  | true, false => if recycle then kRecyclableFirstType else kFirstType
  | false, true => if recycle then kRecyclableLastType else kLastType
  | false, false => if recycle then kRecyclableMiddleType else kMiddleType
  end.

(** [PredecessorWALInfo] ([db/dbformat.h]), initialised. *)
Record PredecessorWALInfo := mkPredecessor {
  pred_log_number : Z;
  pred_size_bytes : Z;
  pred_last_seqno : Z;
}.

Definition EncodePredecessor (i : PredecessorWALInfo) : list Z :=
  PutFixed64 (pred_log_number i) ++ PutFixed64 (pred_size_bytes i) ++ PutFixed64 (pred_last_seqno i).

(** [UserDefinedTimestampSizeRecord::EncodeTo] ([util/udt_util.h]). *)
Definition EncodeTimestampSizes (l : list (Z * Z)) : list Z :=
  l ≫= (fun '(cf, ts) => EncodeFixed32 cf ++ EncodeFixed16 ts).

Section writer.
Context {F : Type} `{FileWriter F}.

Definition set_dest (w : Writer F) (f : F) : Writer F :=
  mkWriter f (block_offset_ w) (log_number_ w) (recycle_log_files_ w) (manual_flush_ w)
    (track_and_verify_wals_ w) (last_seqno_recorded_ w) (recorded_cf_to_ts_sz_ w).

Definition set_block_offset (w : Writer F) (n : Z) : Writer F :=
  mkWriter (dest w) n (log_number_ w) (recycle_log_files_ w) (manual_flush_ w)
    (track_and_verify_wals_ w) (last_seqno_recorded_ w) (recorded_cf_to_ts_sz_ w).

Definition set_last_seqno (w : Writer F) (n : Z) : Writer F :=
  mkWriter (dest w) (block_offset_ w) (log_number_ w) (recycle_log_files_ w) (manual_flush_ w)
    (track_and_verify_wals_ w) n (recorded_cf_to_ts_sz_ w).

Definition set_recorded (w : Writer F) (m : gmap Z Z) : Writer F :=
  mkWriter (dest w) (block_offset_ w) (log_number_ w) (recycle_log_files_ w) (manual_flush_ w)
    (track_and_verify_wals_ w) (last_seqno_recorded_ w) m.

(** [dest_->Append] and [dest_->Flush]. *)
Definition append (w : Writer F) (d : list Z) : Writer F * bool :=
  let '(f, ok) := Append (dest w) d in (set_dest w f, ok).

Definition flush (w : Writer F) : Writer F * bool :=
  let '(f, ok) := Flush (dest w) in (set_dest w f, ok).

Definition new_writer (f : F) (log_number : Z) (recycle manual track : bool) : Writer F :=
  mkWriter f 0 log_number recycle manual track 0 ∅.

Definition EmitPhysicalRecord (w : Writer F) (t : Z) (payload : list Z) : Writer F * bool :=
  let header := format_header (log_number_ w) t payload in
  let '(w1, ok) := append w header in
  let '(w2, ok) := if ok then append w1 payload else (w1, false) in
  (set_block_offset w2 (block_offset_ w + size header + size payload), ok).

(** The switch to a new block in [AddRecord]; on failure the offset stays. *)
Definition switch_block (w : Writer F) : Writer F * bool :=
  let leftover := kBlockSize - block_offset_ w in
  if leftover <? header_size (recycle_log_files_ w) then
    let '(w', ok) := if 0 <? leftover then append w (zeroes leftover) else (w, true) in
    if ok then (set_block_offset w' 0, true) else (w', false)
  else (w, true).

(** The loop of [AddRecord] over the bytes left. *)
Fixpoint add_loop (fuel : nat) (w : Writer F) (begin : bool) (left : list Z) : option (Writer F * bool) :=
  match fuel with
  | O => None
  | S fuel' =>
      let '(w, ok) := switch_block w in
      if negb ok then Some (w, false)
      else
        let avail := kBlockSize - block_offset_ w - header_size (recycle_log_files_ w) in
        let fragment_length := if size left <? avail then size left else avail in
        let end_ := size left =? fragment_length in
        let t := fragment_type (recycle_log_files_ w) begin end_ in
        let '(w, ok) := EmitPhysicalRecord w t (take (Z.to_nat fragment_length) left) in
        let left := drop (Z.to_nat fragment_length) left in
        if ok && (0 <? size left) then add_loop fuel' w false left else Some (w, ok)
  end.

Definition AddRecord (w : Writer F) (slice : list Z) (seqno : Z) : option (Writer F * bool) :=
  if seen_error (dest w) then Some (w, false)
  else
    '(w, ok) ← add_loop (length slice + 2) w true slice;
    let '(w, ok) := if ok && negb (manual_flush_ w) then flush w else (w, ok) in
    Some (if ok then set_last_seqno w (last_seqno_recorded_ w `max` seqno) else w, ok).

(** A client that adds records one after the other, with what each call returned. *)
Fixpoint AddRecords (w : Writer F) (l : list (list Z * Z)) : option (Writer F * list bool) :=
  match l with
  | [] => Some (w, [])
  | (slice, seqno) :: l' =>
      '(w, ok) ← AddRecord w slice seqno;
      '(w, oks) ← AddRecords w l';
      Some (w, ok :: oks)
  end.

Definition WriteBuffer (w : Writer F) : Writer F * bool :=
  if seen_error (dest w) then (w, false) else flush w.

Definition MaybeSwitchToNewBlock (w : Writer F) (content : list Z) : Writer F * bool :=
  let leftover := kBlockSize - block_offset_ w in
  if leftover <? header_size (recycle_log_files_ w) + size content then
    let '(w, ok) := append w (zeroes leftover) in
    if ok then (set_block_offset w 0, true) else (w, false)
  else (w, true).

(** The two records of metadata, each in one physical record. *)
Definition MaybeAddPredecessorWALInfo (w : Writer F) (info : option PredecessorWALInfo) : Writer F * bool :=
  if seen_error (dest w) then (w, false)
  else
    match track_and_verify_wals_ w, info with
    | true, Some info =>
        let encode := EncodePredecessor info in
        let '(w, ok) := MaybeSwitchToNewBlock w encode in
        if negb ok then (w, false)
        else
          let t := if recycle_log_files_ w then kRecyclePredecessorWALInfoType else kPredecessorWALInfoType in
          let '(w, ok) := EmitPhysicalRecord w t encode in
          if ok && negb (manual_flush_ w) then flush w else (w, ok)
    | _, _ => (w, true)
    end.

(** The column families whose timestamp size is not recorded yet, in the order the map
    gives them, and the map with them. *)
Fixpoint sizes_to_record (recorded : gmap Z Z) (cf_to_ts_sz : list (Z * Z)) : list (Z * Z) * gmap Z Z :=
  match cf_to_ts_sz with
  | [] => ([], recorded)
  | (cf, ts) :: rest =>
      match recorded !! cf with
      | Some _ => sizes_to_record recorded rest
      | None =>
          if ts =? 0 then sizes_to_record recorded rest
          else let '(l, m) := sizes_to_record (<[cf := ts]> recorded) rest in ((cf, ts) :: l, m)
      end
  end.

Definition MaybeAddUserDefinedTimestampSizeRecord (w : Writer F) (cf_to_ts_sz : list (Z * Z)) : Writer F * bool :=
  let '(ts_sz_to_record, m) := sizes_to_record (recorded_cf_to_ts_sz_ w) cf_to_ts_sz in
  let w := set_recorded w m in
  match ts_sz_to_record with
  | [] => (w, true)
  | _ :: _ =>
      let encoded := EncodeTimestampSizes ts_sz_to_record in
      let t := if recycle_log_files_ w then kRecyclableUserDefinedTimestampSizeType
               else kUserDefinedTimestampSizeType in
      let '(w, ok) := MaybeSwitchToNewBlock w encoded in
      if ok then EmitPhysicalRecord w t encoded else (w, false)
  end.

End writer.

(** ** The log as a function *)

(** A physical record. *)
Definition physical (log t : Z) (payload : list Z) : list Z := format_header log t payload ++ payload.

(** The bytes of one record from the offset [off] of a block on, and the offset after it. *)
Fixpoint layout (fuel : nat) (recycle : bool) (log off : Z) (begin : bool) (left : list Z) : list Z * Z :=
  match fuel with
  | O => ([], off)
  | S fuel' =>
      let hs := header_size recycle in
      let '(pad, off) := if kBlockSize - off <? hs then (zeroes (kBlockSize - off), 0) else ([], off) in
      let n := size left `min` (kBlockSize - off - hs) in
      let t := fragment_type recycle begin (size left =? n) in
      let off := off + hs + n in
      let bytes := pad ++ physical log t (take (Z.to_nat n) left) in
      let rest := drop (Z.to_nat n) left in
      if 0 <? size rest then let '(b, off) := layout fuel' recycle log off false rest in (bytes ++ b, off)
      else (bytes, off)
  end.

Definition record_layout (recycle : bool) (log off : Z) (r : list Z) : list Z * Z :=
  layout (length r + 2) recycle log off true r.

(** The log of a list of records. *)
Fixpoint image (recycle : bool) (log off : Z) (rs : list (list Z)) : list Z :=
  match rs with
  | [] => []
  | r :: rs => let '(b, off) := record_layout recycle log off r in b ++ image recycle log off rs
  end.

(** ** The writer writes the image *)

Lemma header_size_bounds recycle : 7 <= header_size recycle <= 11.
Proof. destruct recycle; unfold header_size, kHeaderSize, kRecyclableHeaderSize; lia. Qed.

Lemma kBlockSize_bounds : 11 < kBlockSize < 65536.
Proof. done. Qed.

Lemma fragment_type_legacy recycle begin end_ : legacy_type (fragment_type recycle begin end_) = negb recycle.
Proof. by destruct recycle, begin, end_. Qed.

Lemma format_header_size log recycle begin end_ payload :
  size (format_header log (fragment_type recycle begin end_) payload) = header_size recycle.
Proof.
  unfold size, format_header, EncodeFixed32.
  rewrite fragment_type_legacy, !length_app, Version.encode_fixed_length.
  by destruct recycle; cbn [negb]; rewrite ?Version.encode_fixed_length.
Qed.

Section laws.
Context {F : Type} `{FileWriterLaws F}.
Implicit Types w : Writer F.

Definition same_config w w' : Prop :=
  log_number_ w' = log_number_ w /\ recycle_log_files_ w' = recycle_log_files_ w /\
  manual_flush_ w' = manual_flush_ w.

(** [w'] is [w] after an operation that should append [bytes]. *)
Definition wrote w w' (ok : bool) (bytes : list Z) : Prop :=
  same_config w w' /\ flushed (dest w) `prefix_of` flushed (dest w') /\
  if ok then contents (dest w') = contents (dest w) ++ bytes /\ seen_error (dest w') = seen_error (dest w)
  else seen_error (dest w') = true /\ flushed (dest w') `prefix_of` contents (dest w) ++ bytes.

Lemma same_config_trans w1 w2 w3 : same_config w1 w2 -> same_config w2 w3 -> same_config w1 w3.
Proof. unfold same_config. intuition congruence. Qed.

Lemma wrote_trans w1 w2 w3 ok b1 b2 : wrote w1 w2 true b1 -> wrote w2 w3 ok b2 -> wrote w1 w3 ok (b1 ++ b2).
Proof.
  intros (C1 & P1 & E1 & S1) (C2 & P2 & R). split_and!.
  - by eapply same_config_trans.
  - by etrans.
  - rewrite app_assoc, <- E1. destruct ok; [|done]. by rewrite <- S1.
Qed.

Lemma wrote_fail_app w w' b c : wrote w w' false b -> wrote w w' false (b ++ c).
Proof.
  intros (C & P & S & Q). split_and!; try done. rewrite app_assoc. by apply prefix_app_r.
Qed.

Lemma wrote_nil w : wrote w w true [].
Proof. split_and!; try done. by rewrite app_nil_r. Qed.

Lemma wrote_offset w w' ok b n : wrote w w' ok b -> wrote w (set_block_offset w' n) ok b.
Proof. by intros (C & P & R). Qed.

Lemma append_wrote w d w' ok : append w d = (w', ok) -> wrote w w' ok d /\ block_offset_ w' = block_offset_ w.
Proof.
  unfold append. destruct (Append (dest w) d) as [f b] eqn:E. intros [= <- <-]. split; [|done].
  split; [done|]. destruct b; [destruct (Append_ok _ _ _ E) as (? & ? & ?)|destruct (Append_fail _ _ _ E) as (? & ? & ?)];
    by split_and!.
Qed.

Lemma flush_wrote w w' ok : flush w = (w', ok) -> seen_error (dest w) = false ->
  wrote w w' ok [] /\ block_offset_ w' = block_offset_ w /\ (ok = true -> flushed (dest w') = contents (dest w')).
Proof.
  unfold flush. destruct (Flush (dest w)) as [f b] eqn:E. intros [= <- <-] Hs. split_and!; [|done|].
  - split; [done|]. rewrite app_nil_r. destruct b.
    + destruct (Flush_ok _ _ E) as (? & ? & Ef). cbn. rewrite Ef. split_and!; try done. by apply flushed_contents.
    + destruct (Flush_fail _ _ E) as (? & ? & ?). by split_and!.
  - intros ->. destruct (Flush_ok _ _ E) as (Ec & ? & Ef). cbn. congruence.
Qed.

Lemma Emit_wrote w begin end_ payload w' ok :
  EmitPhysicalRecord w (fragment_type (recycle_log_files_ w) begin end_) payload = (w', ok) ->
  wrote w w' ok (physical (log_number_ w) (fragment_type (recycle_log_files_ w) begin end_) payload) /\
  block_offset_ w' = block_offset_ w + header_size (recycle_log_files_ w) + size payload.
Proof.
  unfold EmitPhysicalRecord. rewrite format_header_size. set (t := fragment_type _ _ _).
  destruct (append w _) as [w1 ok1] eqn:E1. destruct (append_wrote _ _ _ _ E1) as [W1 _]. unfold physical.
  destruct ok1.
  - destruct (append w1 payload) as [w2 ok2] eqn:E2. destruct (append_wrote _ _ _ _ E2) as [W2 _].
    intros [= <- <-]. split; [|done]. apply wrote_offset. by eapply wrote_trans.
  - intros [= <- <-]. split; [|done]. by apply wrote_offset, wrote_fail_app.
Qed.

Lemma switch_wrote w w' ok : switch_block w = (w', ok) -> 0 <= block_offset_ w <= kBlockSize ->
  let hs := header_size (recycle_log_files_ w) in
  let '(pad, off) := if kBlockSize - block_offset_ w <? hs
                     then (zeroes (kBlockSize - block_offset_ w), 0) else ([], block_offset_ w) in
  wrote w w' ok pad /\ (ok = true -> block_offset_ w' = off).
Proof.
  unfold switch_block. intros E Ho. cbv zeta. destruct (_ <? _).
  - destruct (Z.ltb_spec 0 (kBlockSize - block_offset_ w)) as [Hl|Hl].
    + destruct (append w _) as [w1 ok1] eqn:E1. destruct (append_wrote _ _ _ _ E1) as [W1 B1].
      by destruct ok1; injection E as <- <-; split; try apply wrote_offset.
    + injection E as <- <-. assert (kBlockSize - block_offset_ w = 0) as -> by lia. split; [|done].
      apply wrote_offset, wrote_nil.
  - injection E as <- <-. split; [apply wrote_nil|done].
Qed.

Lemma zltb_min a b : (if a <? b then a else b) = a `min` b.
Proof. destruct (Z.ltb_spec a b); lia. Qed.

Lemma add_loop_wrote fuel : forall w begin left, 0 <= block_offset_ w <= kBlockSize ->
  let '(bytes, off) := layout fuel (recycle_log_files_ w) (log_number_ w) (block_offset_ w) begin left in
  forall w' ok, add_loop fuel w begin left = Some (w', ok) ->
  wrote w w' ok bytes /\ (ok = true -> block_offset_ w' = off).
Proof.
  induction fuel as [|fuel IH]; intros w begin left Ho; cbn [add_loop layout]; [done|].
  destruct (switch_block w) as [w1 ok1] eqn:Es. pose proof (switch_wrote _ _ _ Es Ho) as Hs. cbv zeta in Hs.
  pose proof (header_size_bounds (recycle_log_files_ w)) as Hhs. pose proof kBlockSize_bounds.
  set (hs := header_size (recycle_log_files_ w)) in *.
  assert (exists pad off, (if kBlockSize - block_offset_ w <? hs
    then (zeroes (kBlockSize - block_offset_ w), 0) else ([], block_offset_ w)) = (pad, off) /\
    0 <= off <= kBlockSize - hs) as (pad & off & Ep & Hoff).
  { destruct (Z.ltb_spec (kBlockSize - block_offset_ w) hs); eexists _, _; split; try done; lia. }
  rewrite Ep in *. destruct Hs as [W1 B1]. set (n := size left `min` (kBlockSize - off - hs)).
  destruct ok1; cbn [negb].
  2: { destruct (0 <? _); [destruct (layout _ _ _ _ _ _)|]; intros w' ok [= <- <-]; rewrite <- ?app_assoc;
       (split; [by apply wrote_fail_app|done]). }
  specialize (B1 eq_refl). pose proof W1 as ((L1 & R1 & _) & _). rewrite B1, R1. fold hs. rewrite zltb_min. fold n.
  destruct (EmitPhysicalRecord w1 _ _) as [w2 ok2] eqn:Ee. rewrite <- R1 in Ee.
  destruct (Emit_wrote _ _ _ _ _ _ Ee) as [W2 B2]. rewrite L1, R1 in W2. rewrite R1 in B2. fold hs in B2.
  pose proof (wrote_trans _ _ _ _ _ _ W1 W2) as W12. pose proof W2 as ((L2 & R2 & _) & _).
  assert (0 <= n <= size left) as Hn by (unfold size in *; lia).
  assert (size (take (Z.to_nat n) left) = n) as Et by (unfold size in *; rewrite length_take; lia).
  rewrite B1, Et in B2.
  destruct (0 <? size (drop (Z.to_nat n) left)) eqn:El; rewrite ?andb_true_r, ?andb_false_r.
  - specialize (IH w2 false (drop (Z.to_nat n) left)).
    rewrite B2, L2, R2, L1, R1 in IH. specialize (IH ltac:(lia)).
    destruct (layout fuel _ _ _ _ _) as [b off'].
    intros w' ok E. destruct ok2.
    + destruct (IH _ _ E) as [W3 B3]. split; [by eapply wrote_trans|done].
    + injection E as <- <-. split; [by apply wrote_fail_app|done].
  - intros w' ok [= <- <-]. split; [done|]. by intros _.
Qed.

(** A fragment that does not end the record fills its block. *)
Lemma switch_offset w w' : switch_block w = (w', true) -> 0 <= block_offset_ w <= kBlockSize ->
  recycle_log_files_ w' = recycle_log_files_ w /\
  0 <= block_offset_ w' <= kBlockSize - header_size (recycle_log_files_ w) /\
  (block_offset_ w = kBlockSize -> block_offset_ w' = 0).
Proof.
  intros E Ho. pose proof (switch_wrote _ _ _ E Ho) as Hs. cbv zeta in Hs.
  pose proof (header_size_bounds (recycle_log_files_ w)) as Hhs. pose proof kBlockSize_bounds.
  destruct (Z.ltb_spec (kBlockSize - block_offset_ w) (header_size (recycle_log_files_ w)));
    destruct Hs as (((_ & ? & _) & _) & Hb); rewrite (Hb eq_refl); split_and!; try done; try lia.
Qed.

Lemma add_loop_total (fuel : nat) : forall w (begin : bool) (left : list Z), 0 <= block_offset_ w <= kBlockSize ->
  (if begin then length left + 2 <= fuel
   else block_offset_ w = kBlockSize /\ length left + 1 <= fuel /\ 0 < length left)%nat ->
  exists w' ok, add_loop fuel w begin left = Some (w', ok).
Proof.
  induction fuel as [|fuel IH]; intros w begin left Ho Hf; [destruct begin; lia|]. cbn [add_loop].
  destruct (switch_block w) as [w1 [|]] eqn:Es; cbn [negb]; [|by eexists _, _].
  destruct (switch_offset _ _ Es Ho) as (R1 & Ho1 & Hfull). rewrite <- R1 in Ho1. rewrite zltb_min.
  set (n := size left `min` _).
  pose proof (header_size_bounds (recycle_log_files_ w1)) as Hhs. pose proof kBlockSize_bounds.
  destruct (EmitPhysicalRecord w1 _ _) as [w2 ok2] eqn:Ee. destruct (Emit_wrote _ _ _ _ _ _ Ee) as [_ B2].
  destruct ok2; [|by eexists _, _]. destruct (Z.ltb_spec 0 (size (drop (Z.to_nat n) left))) as [Hr|]; [|by eexists _, _].
  unfold size in *. rewrite length_take in B2. rewrite length_drop in Hr.
  assert (block_offset_ w2 = kBlockSize) as Eo by (unfold n in *; lia). cbn [andb]. apply IH; [lia|]. rewrite length_drop.
  split_and!; [done| |lia]. destruct begin; [lia|]. destruct Hf as (E & ? & ?). specialize (Hfull E). unfold n. lia.
Qed.

Lemma layout_offset fuel : forall recycle log off begin left, 0 <= off <= kBlockSize ->
  0 <= (layout fuel recycle log off begin left).2 <= kBlockSize.
Proof.
  induction fuel as [|fuel IH]; intros recycle log off begin left Ho; cbn [layout]; [done|].
  pose proof (header_size_bounds recycle) as Hhs. pose proof kBlockSize_bounds.
  assert (exists pad o, (if kBlockSize - off <? header_size recycle then (zeroes (kBlockSize - off), 0) else ([], off))
    = (pad, o) /\ 0 <= o <= kBlockSize - header_size recycle) as (pad & o & -> & Ho').
  { destruct (Z.ltb_spec (kBlockSize - off) (header_size recycle)); eexists _, _; split; try done; lia. }
  set (n := size left `min` _). assert (0 <= n <= kBlockSize - o - header_size recycle) as Hn by (unfold n, size; lia).
  destruct (0 <? _).
  - specialize (IH recycle log (o + header_size recycle + n) false (drop (Z.to_nat n) left) ltac:(lia)).
    by destruct (layout fuel _ _ _ _ _).
  - cbn. lia.
Qed.

(** [AddRecord] returns; it appends the layout of the record, or fails with a prefix. *)
Lemma AddRecord_wrote w slice seqno : 0 <= block_offset_ w <= kBlockSize -> seen_error (dest w) = false ->
  let '(bytes, off) := record_layout (recycle_log_files_ w) (log_number_ w) (block_offset_ w) slice in
  exists w' ok, AddRecord w slice seqno = Some (w', ok) /\ wrote w w' ok bytes /\
    (ok = true -> block_offset_ w' = off /\ (manual_flush_ w = false -> flushed (dest w') = contents (dest w'))).
Proof.
  intros Ho Hs. unfold record_layout, AddRecord. rewrite Hs.
  destruct (add_loop_total (length slice + 2) w true slice Ho) as (w1 & ok1 & E1); [lia|].
  pose proof (add_loop_wrote (length slice + 2) w true slice Ho) as Hw.
  destruct (layout _ _ _ _ _ _) as [bytes off]. destruct (Hw _ _ E1) as [W1 B1]. rewrite E1. cbn [mbind option_bind].
  assert (manual_flush_ w1 = manual_flush_ w) as Em by apply W1.
  destruct ok1; cbn [andb]; [|eexists _, _; by split].
  destruct (manual_flush_ w1) eqn:Ef; cbn [negb].
  - eexists _, _. split; [reflexivity|]. split; [done|]. intros _. split; [by apply B1|congruence].
  - destruct (flush w1) as [w2 ok2] eqn:E2.
    destruct (flush_wrote _ _ _ E2) as (W2 & B2 & F2); [destruct W1 as (_ & _ & _ & ->); done|].
    pose proof (wrote_trans _ _ _ _ _ _ W1 W2) as W12. rewrite app_nil_r in W12.
    eexists _, _. split; [reflexivity|]. destruct ok2; (split; [done|]); [|done].
    intros _. split; [rewrite <- B1, <- B2; done|]. intros _. by apply F2.
Qed.

End laws.

End LogWriter.
