(* ===== verification/LogReader.v ===== *)
(** * The log reader

    [db/log_reader.h] and [db/log_reader.cc]: [Reader] with [ReadRecord],
    [ReadPhysicalRecord] and [ReadMore], every record type and every way a log can be
    damaged included, for the four recovery modes.  [FragmentBufferedReader] is not
    modelled, and neither is the XXH3 record checksum ([record_checksum] is null).

    The file is the bytes not yet read, with the outcomes of the reads to come ([Some k]
    is an error after [k] bytes); the
    reporter is the list of what was reported.  The streaming decompressor of a log
    written with compression is a parameter, [Streaming].

    The loop of [ReadRecord] takes fuel, since on some logs it does not terminate:
    [ReadRecord_hangs] shows which, and [ReadRecord_total] that it does on the others. *)

From Stdlib Require Import ZArith Lia.
From stdpp Require Import base numbers list gmap.
From S2P Require Import Prelude Version Coding Crc LogWriter.

Import Coding LogWriter.
Local Open Scope Z_scope.

Module LogReader.

(** ** Results of [ReadPhysicalRecord] that are not record types *)

Definition kEof : Z := kMaxRecordType + 1.
Definition kBadRecord : Z := kMaxRecordType + 2.
Definition kBadHeader : Z := kMaxRecordType + 3.
Definition kOldRecord : Z := kMaxRecordType + 4.
Definition kBadRecordLen : Z := kMaxRecordType + 5.
Definition kBadRecordChecksum : Z := kMaxRecordType + 6.

Inductive WALRecoveryMode :=
  | kTolerateCorruptedTailRecords
  | kAbsoluteConsistency
  | kPointInTimeRecovery
  | kSkipAnyCorruptedRecords.

#[global] Instance WALRecoveryMode_eq_dec : EqDecision WALRecoveryMode.
Proof. solve_decision. Defined.

(** ** Reports *)

Inductive reason :=
  | PartialWithoutEnd1 | PartialWithoutEnd2 | MissingStart1 | MissingStart2
  | MultipleSetCompression | SetCompressionNotFirst | BadSetCompression
  | BadPredecessorInfo | MissingWal | MismatchedNumber | MismatchedSeqno | MismatchedSize
  | InterspersedTimestamp | BadTimestampRecord | ZeroTimestamp | UpdatedTimestamp
  | TruncatedHeader | TrailingEof | TrailingOld | MiddleOfRecord | TruncatedBody
  | BadRecordLength | ChecksumMismatch | UnknownType (t : Z) | ReadFailed.

(** [Reporter::Corruption], with the log number it names, and [OldLogRecord]. *)
Inductive report :=
  | Corrupted (bytes : Z) (r : reason) (log_number : Z)
  | OldLogRecord (bytes : Z).

(** ** The decompressor of a stream *)

Record Streaming (D : Type) := mkStreaming {
  zstd_streaming : bool;
  Create : Z -> option D;
  ResetStream : D -> D;
  (** All the output for one fragment; [None] is an error. *)
  Uncompress : D -> list Z -> D * option (list Z);
}.
Arguments zstd_streaming {D}.
Arguments Create {D}.
Arguments ResetStream {D}.
Arguments Uncompress {D}.

(** ** State *)

Record Config := mkConfig {
  checksum : bool;
  log_number : Z;
  track_and_verify : bool;
  stop_replay_for_corruption : bool;
  min_wal_number_to_keep : Z;
  observed_predecessor : option PredecessorWALInfo;
}.

Record Reader (D : Type) := mkReader {
  file : list Z;
  faults : list (option nat);
  reports : list report;
  buffer : list Z;
  eof : bool;
  read_error : bool;
  eof_offset : Z;
  last_record_offset : Z;
  end_of_buffer_offset : Z;
  recycled : bool;
  first_record_read : bool;
  compression_type : Z;
  compression_type_record_read : bool;
  uncompressor : option D;
  recorded_sizes : gmap Z Z;
}.
Arguments mkReader {D}.
Arguments file {D}.
Arguments faults {D}.
Arguments reports {D}.
Arguments buffer {D}.
Arguments eof {D}.
Arguments read_error {D}.
Arguments eof_offset {D}.
Arguments last_record_offset {D}.
Arguments end_of_buffer_offset {D}.
Arguments recycled {D}.
Arguments first_record_read {D}.
Arguments compression_type {D}.
Arguments compression_type_record_read {D}.
Arguments uncompressor {D}.
Arguments recorded_sizes {D}.

Definition DecodeFixed32 (l : list Z) : Z := Version.decode_fixed (take 4 l).
Definition DecodeFixed16 (l : list Z) : Z := Version.decode_fixed (take 2 l).

Definition kNoCompression : Z := 0.
Definition kZSTD : Z := 7.

(** ** Records of metadata *)

(** [CompressionTypeRecord::DecodeFrom]. *)
Definition DecodeCompressionType (zstd : bool) (src : list Z) : option Z :=
  if size src <? 4 then None
  else
    let t := u8 (DecodeFixed32 src) in
    if (t =? kNoCompression) || ((t =? kZSTD) && zstd) then Some t else None.

(** [PredecessorWALInfo::DecodeFrom]. *)
Definition DecodePredecessor (src : list Z) : option PredecessorWALInfo :=
  '(n, src) ← GetFixed64 src;
  '(b, src) ← GetFixed64 src;
  '(s, _) ← GetFixed64 src;
  Some (mkPredecessor n b s).

(** [UserDefinedTimestampSizeRecord::DecodeFrom] for [n] entries. *)
Fixpoint timestamp_entries (n : nat) (src : list Z) : option (list (Z * Z)) :=
  match n with
  | O => Some []
  | S n' =>
      if (size src <? 6) then None
      else
        rest ← timestamp_entries n' (drop 6 src);
        Some ((DecodeFixed32 src, DecodeFixed16 (drop 4 src)) :: rest)
  end.

Definition DecodeTimestampSizes (src : list Z) : option (list (Z * Z)) :=
  if negb (size src mod 6 =? 0) then None else timestamp_entries (Z.to_nat (size src / 6)) src.

(** [UpdateRecordedTimestampSize]: the map, with the entries before the first bad one. *)
Fixpoint UpdateRecordedTimestampSize (m : gmap Z Z) (l : list (Z * Z)) : gmap Z Z * option reason :=
  match l with
  | [] => (m, None)
  | (cf, ts) :: l' =>
      if ts =? 0 then (m, Some ZeroTimestamp)
      else match m !! cf with
           | Some _ => (m, Some UpdatedTimestamp)
           | None => UpdateRecordedTimestampSize (<[cf := ts]> m) l'
           end
  end.

Section reader.
Context {D : Type}.
Variable stream : Streaming D.
Variable cfg : Config.
Implicit Types r : Reader D.

(** ** Setters *)

Definition set_buffer r b : Reader D :=
  mkReader (file r) (faults r) (reports r) b (eof r) (read_error r) (eof_offset r) (last_record_offset r)
    (end_of_buffer_offset r) (recycled r) (first_record_read r) (compression_type r)
    (compression_type_record_read r) (uncompressor r) (recorded_sizes r).

Definition set_recycled r : Reader D :=
  mkReader (file r) (faults r) (reports r) (buffer r) (eof r) (read_error r) (eof_offset r) (last_record_offset r)
    (end_of_buffer_offset r) true (first_record_read r) (compression_type r)
    (compression_type_record_read r) (uncompressor r) (recorded_sizes r).

Definition set_first_read r : Reader D :=
  mkReader (file r) (faults r) (reports r) (buffer r) (eof r) (read_error r) (eof_offset r) (last_record_offset r)
    (end_of_buffer_offset r) (recycled r) true (compression_type r)
    (compression_type_record_read r) (uncompressor r) (recorded_sizes r).

Definition set_last_offset r o : Reader D :=
  mkReader (file r) (faults r) (reports r) (buffer r) (eof r) (read_error r) (eof_offset r) o
    (end_of_buffer_offset r) (recycled r) (first_record_read r) (compression_type r)
    (compression_type_record_read r) (uncompressor r) (recorded_sizes r).

Definition set_uncompressor r (d : option D) : Reader D :=
  mkReader (file r) (faults r) (reports r) (buffer r) (eof r) (read_error r) (eof_offset r) (last_record_offset r)
    (end_of_buffer_offset r) (recycled r) (first_record_read r) (compression_type r)
    (compression_type_record_read r) d (recorded_sizes r).

Definition set_sizes r m : Reader D :=
  mkReader (file r) (faults r) (reports r) (buffer r) (eof r) (read_error r) (eof_offset r) (last_record_offset r)
    (end_of_buffer_offset r) (recycled r) (first_record_read r) (compression_type r)
    (compression_type_record_read r) (uncompressor r) m.

Definition add_report r x : Reader D :=
  mkReader (file r) (faults r) (reports r ++ [x]) (buffer r) (eof r) (read_error r) (eof_offset r)
    (last_record_offset r) (end_of_buffer_offset r) (recycled r) (first_record_read r) (compression_type r)
    (compression_type_record_read r) (uncompressor r) (recorded_sizes r).

Definition ReportCorruption r bytes why : Reader D := add_report r (Corrupted bytes why Version.kMaxSequenceNumber).

(** The reader of a file. *)
Definition new_reader (f : list Z) (faults : list (option nat)) : Reader D :=
  mkReader f faults [] [] false false 0 0 0 false false kNoCompression false None ∅.

(** [InitCompression]. *)
Definition InitCompression r t : Reader D :=
  mkReader (file r) (faults r) (reports r) (buffer r) (eof r) (read_error r) (eof_offset r) (last_record_offset r)
    (end_of_buffer_offset r) (recycled r) (first_record_read r) t true (Create stream t) (recorded_sizes r).

(** ** Physical records *)

(** [ReadMore]: [None] is true; otherwise the size dropped and the error. *)
Definition ReadMore r : Reader D * option (Z * Z) :=
  if negb (eof r) && negb (read_error r) then
    let b := take (Z.to_nat kBlockSize) (file r) in
    let f := drop (Z.to_nat kBlockSize) (file r) in
    match default None (head (faults r)) with
    | Some k =>
      let b := take k b in
      (mkReader f (tail (faults r)) (reports r ++ [Corrupted kBlockSize ReadFailed Version.kMaxSequenceNumber])
         [] (eof r) true (eof_offset r) (last_record_offset r) (end_of_buffer_offset r +% size b) (recycled r)
         (first_record_read r) (compression_type r) (compression_type_record_read r) (uncompressor r)
         (recorded_sizes r), Some (0, kEof))
    | None =>
      let short := size b <? kBlockSize in
      (mkReader f (tail (faults r)) (reports r) b (short || eof r) (read_error r)
         (if short then size b else eof_offset r) (last_record_offset r) (end_of_buffer_offset r +% size b)
         (recycled r) (first_record_read r) (compression_type r) (compression_type_record_read r)
         (uncompressor r) (recorded_sizes r), None)
    end
  else
    match buffer r with
    | [] => (r, Some (0, kEof))
    | _ :: _ => (set_buffer r [], Some (size (buffer r), kBadHeader))
    end.

Definition is_recyclable_type (t : Z) : bool :=
  ((kRecyclableFullType <=? t) && (t <=? kRecyclableLastType)) || (t =? kRecyclableUserDefinedTimestampSizeType) ||
  (t =? kRecyclePredecessorWALInfoType).

(** The types that are never compressed. *)
Definition plain_type (t : Z) : bool :=
  (t =? kSetCompressionType) || (t =? kPredecessorWALInfoType) || (t =? kRecyclePredecessorWALInfoType) ||
  (t =? kUserDefinedTimestampSizeType) || (t =? kRecyclableUserDefinedTimestampSizeType).

Record Physical := mkPhysical {
  result_type : Z;
  fragment : list Z;
  drop_size : Z;
}.

(** What follows the header, once the buffer has a whole header of [hs] bytes. *)
Definition read_body r (t length_ hs : Z) : Reader D * Physical :=
  let b := buffer r in
  if size b <? hs + length_ then (set_buffer r [], mkPhysical kBadRecordLen [] (size b))
  else
    let rest := set_buffer r (drop (Z.to_nat (hs + length_)) b) in
    if is_recyclable_type t && negb (DecodeFixed32 (drop 7 b) =? log_number cfg)
    then (rest, mkPhysical kOldRecord [] 0)
    else if (t =? kZeroType) && (length_ =? 0) then (set_buffer r [], mkPhysical kBadRecord [] 0)
    else if checksum cfg && negb (Crc.Value (take (Z.to_nat (length_ + hs - 6)) (drop 6 b)) =?
                                   Crc.Unmask (DecodeFixed32 b))
    then (set_buffer r [], mkPhysical kBadRecordChecksum [] (size b))
    else
      let payload := take (Z.to_nat length_) (drop (Z.to_nat hs) b) in
      match uncompressor r with
      | Some d =>
          if plain_type t then (rest, mkPhysical t payload 0)
          else match Uncompress stream d payload with
               | (d', Some out) => (set_uncompressor rest (Some d'), mkPhysical t out 0)
               | (d', None) => (set_uncompressor (set_buffer r []) (Some d'), mkPhysical kBadRecord [] 0)
               end
      | None => (rest, mkPhysical t payload 0)
      end.

Fixpoint physical_loop (fuel : nat) r : option (Reader D * Physical) :=
  match fuel with
  | O => None
  | S fuel' =>
      let more r := match ReadMore r with
                    | (r, None) => physical_loop fuel' r
                    | (r, Some (dropped, e)) => Some (r, mkPhysical e [] dropped)
                    end in
      if size (buffer r) <? kHeaderSize then more r
      else
        let b := buffer r in
        let length_ := Z.lor (Z.land (nth 4 b 0) 0xff) (Z.shiftl (Z.land (nth 5 b 0) 0xff) 8) in
        let t := nth 6 b 0 in
        if is_recyclable_type t then
          if first_record_read r && negb (recycled r) then Some (r, mkPhysical kBadRecord [] 0)
          else
            let r := set_recycled r in
            if size b <? kRecyclableHeaderSize then more r else Some (read_body r t length_ kRecyclableHeaderSize)
        else Some (read_body r t length_ kHeaderSize)
  end.

(** Two rounds are enough. *)
Definition ReadPhysicalRecord r : option (Reader D * Physical) := physical_loop 3 r.

(** ** Records *)

Definition MaybeVerifyPredecessorWALInfo (mode : WALRecoveryMode) r (fragment : list Z)
    (recorded : PredecessorWALInfo) : Reader D :=
  if negb (track_and_verify cfg) || bool_decide (mode = kSkipAnyCorruptedRecords) || stop_replay_for_corruption cfg
  then r
  else
    let n := pred_log_number recorded in
    let bad why := add_report r (Corrupted (size fragment) why n) in
    match observed_predecessor cfg with
    | None => if min_wal_number_to_keep cfg <=? n then bad MissingWal else r
    | Some o =>
        if negb (pred_log_number o =? n) then bad MismatchedNumber
        else if negb (pred_last_seqno o =? pred_last_seqno recorded) then bad MismatchedSeqno
        else if negb (pred_size_bytes o =? pred_size_bytes recorded) then bad MismatchedSize
        else r
    end.

(** Modes that report an incomplete record at the end of the log. *)
Definition strict (mode : WALRecoveryMode) : bool :=
  match mode with kAbsoluteConsistency | kPointInTimeRecovery => true | _ => false end.

(** The state of the loop of [ReadRecord]. *)
Record Pending := mkPending {
  in_fragmented_record : bool;
  scratch : list Z;
  prospective_record_offset : Z;
}.

(** What one physical record does: [inl] goes on, [inr] returns. *)
Definition outcome : Type := (Reader D * Pending) + (Reader D * option (list Z)).

Definition report_if (b : bool) r bytes why : Reader D := if b then ReportCorruption r bytes why else r.

(** A record that breaks the fragmented record being read. *)
Definition break_record r (p : Pending) : outcome :=
  if in_fragmented_record p
  then inl (ReportCorruption r (size (scratch p)) MiddleOfRecord, mkPending false [] (prospective_record_offset p))
  else inl (r, p).

Definition full_record r (p : Pending) (offset : Z) (f : list Z) : outcome :=
  let r := report_if (in_fragmented_record p && negb (size (scratch p) =? 0)) r (size (scratch p)) PartialWithoutEnd1 in
  inr (set_first_read (set_last_offset r offset), Some f).

Definition first_fragment r (p : Pending) (offset : Z) (f : list Z) : outcome :=
  let r := report_if (in_fragmented_record p && negb (size (scratch p) =? 0)) r (size (scratch p)) PartialWithoutEnd2 in
  inl (r, mkPending true f offset).

Definition middle_fragment r (p : Pending) (f : list Z) : outcome :=
  if in_fragmented_record p
  then inl (r, mkPending true (scratch p ++ f) (prospective_record_offset p))
  else inl (ReportCorruption r (size f) MissingStart1, p).

Definition last_fragment r (p : Pending) (f : list Z) : outcome :=
  if in_fragmented_record p
  then inr (set_first_read (set_last_offset r (prospective_record_offset p)), Some (scratch p ++ f))
  else inl (ReportCorruption r (size f) MissingStart2, p).

Definition compression_record r (p : Pending) (offset : Z) (f : list Z) : outcome :=
  let r := report_if (compression_type_record_read r) r (size f) MultipleSetCompression in
  let r := report_if (first_record_read r) r (size f) SetCompressionNotFirst in
  let r := set_last_offset r offset in
  let r := match DecodeCompressionType (zstd_streaming stream) f with
           | Some t => InitCompression r t
           | None => ReportCorruption r (if size f <? 4 then size f else size f - 4) BadSetCompression
           end in
  inl (r, mkPending (in_fragmented_record p) [] offset).

Definition predecessor_record mode r (p : Pending) (offset : Z) (f : list Z) : outcome :=
  let r := set_last_offset r offset in
  let r := match DecodePredecessor f with
           | Some i => MaybeVerifyPredecessorWALInfo mode r (drop 24 f) i
           | None => ReportCorruption r (size f mod 8) BadPredecessorInfo
           end in
  inl (r, mkPending (in_fragmented_record p) [] offset).

Definition timestamp_record r (p : Pending) (offset : Z) (f : list Z) : outcome :=
  let r := report_if (in_fragmented_record p && negb (size (scratch p) =? 0)) r (size (scratch p)) InterspersedTimestamp in
  let r := set_last_offset r offset in
  let r := match DecodeTimestampSizes f with
           | None => ReportCorruption r (size f) BadTimestampRecord
           | Some l =>
               let '(m, bad) := UpdateRecordedTimestampSize (recorded_sizes r) l in
               let r := set_sizes r m in
               match bad with Some why => ReportCorruption r 0 why | None => r end
           end in
  inl (r, mkPending (in_fragmented_record p) [] offset).

Definition end_of_file mode r (p : Pending) : outcome :=
  inr (report_if (in_fragmented_record p && strict mode) r (size (scratch p)) TrailingEof, None).

Definition old_record mode r (p : Pending) : outcome :=
  if negb (bool_decide (mode = kSkipAnyCorruptedRecords)) then
    if in_fragmented_record p
    then inr (report_if (strict mode) r (size (scratch p)) TrailingOld, None)
    else inr (if bool_decide (mode = kPointInTimeRecovery) then add_report r (OldLogRecord (size (scratch p))) else r, None)
  else break_record r p.

(** [kBadRecordChecksum], and [kBadRecordLen] before the end of the file. *)
Definition bad_content mode r (p : Pending) (dropped : Z) (why : reason) : outcome :=
  if recycled r && bool_decide (mode = kTolerateCorruptedTailRecords) then inr (r, None)
  else break_record (ReportCorruption r dropped why) p.

Definition unknown_type r (p : Pending) (t : Z) (f : list Z) : outcome :=
  let bytes := size f + (if in_fragmented_record p then size (scratch p) else 0) in
  inl (report_if (Z.land t kRecordTypeSafeIgnoreMask =? 0) r bytes (UnknownType t),
       mkPending false [] (prospective_record_offset p)).

(** The switch of [ReadRecord]. *)
Definition dispatch (mode : WALRecoveryMode) (offset : Z) r (p : Pending) (x : Physical) : outcome :=
  let t := result_type x in
  let f := fragment x in
  if (t =? kFullType) || (t =? kRecyclableFullType) then full_record r p offset f
  else if (t =? kFirstType) || (t =? kRecyclableFirstType) then first_fragment r p offset f
  else if (t =? kMiddleType) || (t =? kRecyclableMiddleType) then middle_fragment r p f
  else if (t =? kLastType) || (t =? kRecyclableLastType) then last_fragment r p f
  else if t =? kSetCompressionType then compression_record r p offset f
  else if (t =? kPredecessorWALInfoType) || (t =? kRecyclePredecessorWALInfoType)
       then predecessor_record mode r p offset f
  else if (t =? kUserDefinedTimestampSizeType) || (t =? kRecyclableUserDefinedTimestampSizeType)
       then timestamp_record r p offset f
  else if t =? kBadHeader
       then end_of_file mode (report_if (strict mode) r (drop_size x) TruncatedHeader) p
  else if t =? kEof then end_of_file mode r p
  else if t =? kOldRecord then old_record mode r p
  else if t =? kBadRecord then break_record r p
  else if t =? kBadRecordLen then
    if eof r then inr (report_if (strict mode) r (drop_size x) TruncatedBody, None)
    else bad_content mode r p (drop_size x) BadRecordLength
  else if t =? kBadRecordChecksum then bad_content mode r p (drop_size x) ChecksumMismatch
  else unknown_type r p t f.

Fixpoint record_loop (fuel : nat) (mode : WALRecoveryMode) r (p : Pending) : option (Reader D * option (list Z)) :=
  match fuel with
  | O => None
  | S fuel' =>
      let offset := end_of_buffer_offset r -% size (buffer r) in
      '(r, x) ← ReadPhysicalRecord r;
      match dispatch mode offset r p x with
      | inl (r, p) => record_loop fuel' mode r p
      | inr out => Some out
      end
  end.

(** [ReadRecord]: [Some (r, None)] is false. *)
Definition ReadRecord (fuel : nat) (mode : WALRecoveryMode) r : option (Reader D * option (list Z)) :=
  let r := set_uncompressor r (ResetStream stream <$> uncompressor r) in
  record_loop fuel mode r (mkPending false [] 0).

Definition LastRecordEnd r : Z := end_of_buffer_offset r -% size (buffer r).

(** [UnmarkEOF] after the file has grown by [more]. *)
Definition UnmarkEOF r (more : list Z) : Reader D :=
  if read_error r then r
  else if eof_offset r =? 0
  then mkReader (file r ++ more) (faults r) (reports r) (buffer r) false (read_error r) (eof_offset r)
         (last_record_offset r) (end_of_buffer_offset r) (recycled r) (first_record_read r) (compression_type r)
         (compression_type_record_read r) (uncompressor r) (recorded_sizes r)
  else
    let remaining := kBlockSize - eof_offset r in
    let f := file r ++ more in
    let read := take (Z.to_nat remaining) f in
    match default None (head (faults r)) with
    | Some k =>
      let added := size (take k read) in
      mkReader (drop (Z.to_nat remaining) f) (tail (faults r))
        (reports r ++ (if 0 <? added then [Corrupted added ReadFailed Version.kMaxSequenceNumber] else []))
        (buffer r) false true (eof_offset r) (last_record_offset r) (end_of_buffer_offset r +% added)
        (recycled r) (first_record_read r) (compression_type r) (compression_type_record_read r)
        (uncompressor r) (recorded_sizes r)
    | None =>
      let added := size read in
      mkReader (drop (Z.to_nat remaining) f) (tail (faults r)) (reports r) (buffer r ++ read)
        (added <? remaining) false (if added <? remaining then eof_offset r + added else 0)
        (last_record_offset r) (end_of_buffer_offset r +% added) (recycled r) (first_record_read r)
        (compression_type r) (compression_type_record_read r) (uncompressor r) (recorded_sizes r)
    end.

(** The measure of the loops: the bytes left, and whether more can be asked for. *)
Definition left_to_read r : nat :=
  (length (file r) + length (buffer r) + if eof r || read_error r then 0 else 1)%nat.

(** A recyclable record after the first record of a log that did not start with one. *)
Definition stuck r : bool := first_record_read r && negb (recycled r).

(** The loop of a client that reads until [ReadRecord] is false. *)
Fixpoint read_all (n fuel : nat) (mode : WALRecoveryMode) r : option (Reader D * list (list Z)) :=
  match n with
  | O => None
  | S n' =>
      '(r, x) ← ReadRecord fuel mode r;
      match x with
      | None => Some (r, [])
      | Some rec => '(r, l) ← read_all n' fuel mode r; Some (r, rec :: l)
      end
  end.

(** ** Termination *)

Lemma ReadMore_true r r' : ReadMore r = (r', None) ->
  (eof r' = true \/ size (buffer r') = kBlockSize) /\ (left_to_read r' <= left_to_read r)%nat /\
  first_record_read r' = first_record_read r /\ recycled r' = recycled r.
Proof.
  unfold ReadMore, left_to_read. destruct (eof r), (read_error r); cbn [negb andb orb];
    try (by destruct (buffer r)).
  destruct (default None (head (faults r))); [done|]. intros [= <-]. cbn.
  rewrite length_drop, orb_false_r. split_and!; try done.
  - unfold size in *. rewrite length_take. destruct (Z.ltb_spec (Z.of_nat (Z.to_nat kBlockSize `min` length (file r))) kBlockSize);
      [by left|right]. pose proof kBlockSize_bounds. lia.
  - rewrite length_take. destruct (_ <? _); cbn; lia.
Qed.

Lemma ReadMore_false r r' d e : ReadMore r = (r', Some (d, e)) -> e = kEof \/ e = kBadHeader.
Proof.
  unfold ReadMore. destruct (negb _ && negb _).
  - destruct (default None (head (faults r))); [|done]. intros [= <- <- <-]. by left.
  - destruct (buffer r); intros [= <- <- <-]; [by left|by right].
Qed.

Lemma ReadMore_stuck r r' e : ReadMore r = (r', e) -> stuck r' = stuck r.
Proof.
  unfold ReadMore. destruct (negb _ && negb _).
  - by destruct (default None (head (faults r))); intros [= <- <-].
  - by destruct (buffer r); intros [= <- <-].
Qed.

Lemma ReadMore_eof r : eof r = true -> exists r' x, ReadMore r = (r', Some x).
Proof. intros He. unfold ReadMore. rewrite He. cbn. destruct (buffer r); by eexists _, _. Qed.

Lemma read_body_left r t n hs r' x : 0 <= n -> 0 < hs -> kHeaderSize <= size (buffer r) ->
  read_body r t n hs = (r', x) ->
  (left_to_read r' < left_to_read r)%nat /\ first_record_read r' = first_record_read r /\ recycled r' = recycled r.
Proof.
  unfold read_body, left_to_read, kHeaderSize, size. intros Hn Hhs Hb. cbv zeta.
  assert (length (drop (Z.to_nat (hs + n)) (buffer r)) < length (buffer r))%nat as Hd by (rewrite length_drop; lia).
  repeat (case_match; simplify_eq/=; intros; simplify_eq/=; try (split_and!; [|done|done]; cbn [length]; lia)).
Qed.

Lemma header_length_nonneg a b : 0 <= Z.lor (Z.land a 0xff) (Z.shiftl (Z.land b 0xff) 8).
Proof. pose proof (Crc.land_byte a). pose proof (Crc.land_byte b). rewrite Z.lor_nonneg, Z.shiftl_nonneg. lia. Qed.

Lemma physical_loop_left fuel : forall r r' x, physical_loop fuel r = Some (r', x) -> stuck r = false ->
  stuck r' = false /\
  (result_type x = kEof \/ result_type x = kBadHeader \/ (left_to_read r' < left_to_read r)%nat).
Proof.
  induction fuel as [|fuel IH]; intros r r' x; cbn [physical_loop]; [done|]. intros E Hs.
  assert (forall q, stuck q = false -> left_to_read q = left_to_read r ->
    match ReadMore q with (r, None) => physical_loop fuel r
    | (r, Some (dropped, e)) => Some (r, mkPhysical e [] dropped) end = Some (r', x) ->
    stuck r' = false /\
    (result_type x = kEof \/ result_type x = kBadHeader \/ (left_to_read r' < left_to_read r)%nat)) as Hmore.
  { intros q Hq El Em. destruct (ReadMore q) as [r1 [[d e]|]] eqn:Er.
    - injection Em as <- <-. pose proof (ReadMore_false _ _ _ _ Er) as Hf. split; [|cbn; tauto].
      by rewrite (ReadMore_stuck _ _ _ Er).
    - destruct (ReadMore_true _ _ Er) as (_ & Hl & H1 & H2).
      destruct (IH _ _ _ Em) as [? ?]; [unfold stuck in *; by rewrite H1, H2|]. split; [done|]. intuition lia. }
  destruct (Z.ltb_spec (size (buffer r)) kHeaderSize) as [Hb|Hb]; [by apply (Hmore r)|].
  pose proof (header_length_nonneg (nth 4 (buffer r) 0) (nth 5 (buffer r) 0)) as Hn.
  assert (stuck (set_recycled r) = false) as Hs' by (unfold stuck; apply andb_false_r).
  destruct (is_recyclable_type _).
  - unfold stuck in Hs at 1. rewrite Hs in E. destruct (_ <? kRecyclableHeaderSize); [by apply (Hmore (set_recycled r))|].
    injection E as E. destruct (read_body_left (set_recycled r) _ _ kRecyclableHeaderSize _ _ Hn eq_refl Hb E) as (Hl & H1 & H2).
    split; [unfold stuck in *; by rewrite H1, H2|]. by right; right.
  - injection E as E. destruct (read_body_left r _ _ kHeaderSize _ _ Hn eq_refl Hb E) as (Hl & H1 & H2).
    split; [unfold stuck in *; by rewrite H1, H2|]. by right; right.
Qed.

(** A buffer that holds a header of any kind, or the end of the file, needs one round. *)
Lemma physical_loop_one fuel r : eof r = true \/ kRecyclableHeaderSize <= size (buffer r) ->
  exists r' x, physical_loop (S fuel) r = Some (r', x).
Proof.
  intros H. cbn [physical_loop].
  assert (forall q, eof q = true -> exists r' x, match ReadMore q with (r, None) => physical_loop fuel r
    | (r, Some (dropped, e)) => Some (r, mkPhysical e [] dropped) end = Some (r', x)) as Hmore.
  { intros q Hq. destruct (ReadMore_eof q Hq) as (r1 & [d e] & ->). by eexists _, _. }
  unfold kRecyclableHeaderSize in *. destruct (Z.ltb_spec (size (buffer r)) kHeaderSize) as [Hb|Hb].
  { destruct H as [H|H]; [by apply Hmore|unfold kHeaderSize in *; lia]. }
  destruct (is_recyclable_type _); [|by destruct (read_body _ _ _ _) as [r' x]; exists r', x].
  destruct (_ && _); [by eexists _, _|].
  destruct (Z.ltb_spec (size (buffer r)) (4 + 2 + 1 + 4)).
  - destruct H as [H|H]; [by apply Hmore|lia].
  - by destruct (read_body _ _ _ _) as [r' x]; exists r', x.
Qed.

(** [ReadMore] succeeds at most once. *)
Lemma ReadPhysicalRecord_total r : exists r' x, ReadPhysicalRecord r = Some (r', x).
Proof.
  unfold ReadPhysicalRecord. change 3%nat with (S 2).
  assert (forall q, exists r' x, match ReadMore q with (r, None) => physical_loop 2 r
    | (r, Some (dropped, e)) => Some (r, mkPhysical e [] dropped) end = Some (r', x)) as Hmore.
  { intros q. destruct (ReadMore q) as [r1 [[d e]|]] eqn:Er; [by eexists _, _|].
    apply physical_loop_one. destruct (ReadMore_true _ _ Er) as ([?| ->] & _); [by left|right; done]. }
  cbn [physical_loop]. destruct (_ <? kHeaderSize); [by apply Hmore|].
  destruct (is_recyclable_type _); [|by destruct (read_body _ _ _ _) as [r' x]; exists r', x].
  destruct (_ && _); [by eexists _, _|]. destruct (_ <? kRecyclableHeaderSize); [apply Hmore|].
  by destruct (read_body _ _ _ _) as [r' x]; exists r', x.
Qed.

(** When the loop goes on, only what is reported and recorded has changed. *)
Definition same_io r r' : Prop :=
  file r' = file r /\ buffer r' = buffer r /\ eof r' = eof r /\ read_error r' = read_error r /\
  first_record_read r' = first_record_read r /\ recycled r' = recycled r.

Lemma dispatch_inl mode offset r p x r' p' : dispatch mode offset r p x = inl (r', p') ->
  same_io r r' /\ result_type x <> kEof /\ result_type x <> kBadHeader.
Proof.
  unfold dispatch, full_record, first_fragment, middle_fragment, last_fragment, compression_record,
    predecessor_record, timestamp_record, end_of_file, old_record, bad_content, break_record, unknown_type,
    report_if, MaybeVerifyPredecessorWALInfo, same_io. cbv zeta.
  assert (result_type x = kEof \/ result_type x = kBadHeader \/
    (result_type x <> kEof /\ result_type x <> kBadHeader)) as [-> | [-> | [H1 H2]]] by lia.
  - cbn. by destruct (in_fragmented_record p).
  - cbn. by destruct (in_fragmented_record p).
  - intros E. split; [|done]. repeat (case_match; simplify_eq/=; try done).
Qed.

Lemma left_to_read_same r r' : same_io r r' -> left_to_read r' = left_to_read r /\ stuck r' = stuck r.
Proof. unfold left_to_read, stuck. by intros (-> & -> & -> & -> & -> & ->). Qed.

Lemma record_loop_total fuel : forall mode r p, stuck r = false -> (left_to_read r < fuel)%nat ->
  exists out, record_loop fuel mode r p = Some out.
Proof.
  induction fuel as [|fuel IH]; intros mode r p Hs Hl; [lia|]. cbn [record_loop].
  destruct (ReadPhysicalRecord_total r) as (r1 & x & E). rewrite E. cbn [mbind option_bind].
  destruct (physical_loop_left _ _ _ _ E Hs) as [Hs1 Hx].
  destruct (dispatch _ _ _ _ _) as [[r2 p2]|out] eqn:Ed; [|by exists out].
  destruct (dispatch_inl _ _ _ _ _ _ _ Ed) as (Hio & Hne & Hnb).
  destruct (left_to_read_same _ _ Hio) as [El Es]. apply IH; [congruence|]. intuition lia.
Qed.

(** Fuel beyond what is needed changes nothing. *)
Lemma record_loop_mono fuel : forall fuel' mode r p out, record_loop fuel mode r p = Some out -> (fuel <= fuel')%nat ->
  record_loop fuel' mode r p = Some out.
Proof.
  induction fuel as [|fuel IH]; intros [|fuel'] mode r p out E Hf; try done; [lia|]. cbn [record_loop] in *.
  destruct (ReadPhysicalRecord r) as [[r1 x]|]; [|done]. cbn [mbind option_bind] in *.
  destruct (dispatch _ _ _ _ _) as [[r2 p2]|]; [|done]. apply IH; [done|lia].
Qed.

Lemma ReadRecord_total_gen fuel mode r : stuck r = false -> (left_to_read r < fuel)%nat ->
  exists r' x, ReadRecord fuel mode r = Some (r', x).
Proof.
  intros Hs Hl. destruct (record_loop_total fuel mode (set_uncompressor r (ResetStream stream <$> uncompressor r))
    (mkPending false [] 0) Hs Hl) as ([r' x] & E). by exists r', x.
Qed.

Lemma read_all_mono n : forall n' fuel mode r out, read_all n fuel mode r = Some out -> (n <= n')%nat ->
  read_all n' fuel mode r = Some out.
Proof.
  induction n as [|n IH]; intros [|n'] fuel mode r out E Hn; try done; [lia|]. cbn [read_all] in *.
  destruct (ReadRecord fuel mode r) as [[r1 [rec|]]|]; [|done..]. cbn [mbind option_bind] in *.
  destruct (read_all n fuel mode r1) as [[r2 l]|] eqn:E1; [|done]. by rewrite (IH n' _ _ _ _ E1) by lia.
Qed.

(** A stuck reader at a recyclable header returns the same result without moving. *)
Lemma stuck_physical r : stuck r = true -> kHeaderSize <= size (buffer r) ->
  is_recyclable_type (nth 6 (buffer r) 0) = true ->
  ReadPhysicalRecord r = Some (r, mkPhysical kBadRecord [] 0).
Proof.
  unfold stuck. intros Hs Hb Ht. unfold ReadPhysicalRecord. cbn [physical_loop].
  destruct (Z.ltb_spec (size (buffer r)) kHeaderSize); [lia|]. by rewrite Ht, Hs.
Qed.

Lemma stuck_loop fuel : forall mode r, stuck r = true -> kHeaderSize <= size (buffer r) ->
  is_recyclable_type (nth 6 (buffer r) 0) = true -> record_loop fuel mode r (mkPending false [] 0) = None.
Proof.
  induction fuel as [|fuel IH]; intros mode r Hs Hb Ht; [done|]. cbn [record_loop].
  rewrite (stuck_physical r Hs Hb Ht). cbn. by apply IH.
Qed.

End reader.

(** The stream of a log without compression. *)
Definition no_stream : Streaming unit := mkStreaming unit false (fun _ => None) id (fun d _ => (d, None)).
Definition plain_config (n : Z) : Config := mkConfig true n false false 0 None.

(** C25: The reader returns on every log, however damaged, unless it has read a record of a
    log that is not recycled. *)
Theorem ReadRecord_total {D} (stream : Streaming D) cfg fuel mode r : stuck r = false -> (left_to_read r < fuel)%nat ->
  exists r' x, ReadRecord stream cfg fuel mode r = Some (r', x).
Proof. apply ReadRecord_total_gen. Qed.

Lemma ReadRecord_total_witness : exists r' x,
  ReadRecord no_stream (plain_config 0) 20 kAbsoluteConsistency (new_reader [1; 2; 3; 4; 5; 6; 7; 8; 9] []) = Some (r', x).
Proof. apply (ReadRecord_total no_stream); [done|cbn; lia]. Defined.

End LogReader.
