(* ===== verification/Log.v ===== *)
(** * Logs that are written and read back

    The writer of [LogWriter] against the reader of [LogReader], without compression: the
    records of a log are read back in order, and from a log that was cut off at any byte,
    or whose writer met an error, exactly the records that are complete in it.  The
    checksum the writer combines from that of the header and that of the payload is the
    one the reader computes over both ([Crc]).

    A log with recycled files is read back only when its number fits 32 bits, since the
    writer stores the low half of the number and the reader compares it with the whole
    ([recycled_log_number]). *)

From Stdlib Require Import ZArith Lia.
From stdpp Require Import base numbers list gmap.
From S2P Require Import Prelude Version Coding Crc LogWriter LogReader.

Import Coding LogWriter LogReader.
Local Open Scope Z_scope.

Module Log.

(** ** The header of a fragment *)

Definition log_bytes (recycle : bool) (log : Z) : list Z := if recycle then EncodeFixed32 (u32 log) else [].

Lemma encode_fixed_bytes n v : is_bytes (Version.encode_fixed n v).
Proof. revert v. induction n as [|n IH]; intros v; constructor; [apply Crc.land_byte|apply IH]. Qed.

Lemma log_bytes_bytes recycle log : is_bytes (log_bytes recycle log).
Proof. destruct recycle; [apply encode_fixed_bytes|constructor]. Qed.

Lemma log_bytes_size recycle log : size (log_bytes recycle log) = header_size recycle - kHeaderSize.
Proof. by destruct recycle. Qed.

Lemma fragment_type_byte recycle begin end_ : 0 <= fragment_type recycle begin end_ < 256.
Proof. by destruct recycle, begin, end_. Qed.

Definition checksummed (recycle : bool) (log t : Z) (payload : list Z) : list Z := t :: log_bytes recycle log ++ payload.

Lemma format_header_eq recycle log begin end_ payload : is_bytes payload -> size payload < 65536 ->
  let t := fragment_type recycle begin end_ in
  format_header log t payload =
    EncodeFixed32 (Crc.Mask (Crc.Value (checksummed recycle log t payload))) ++
    [Z.land (size payload) 0xff; u8 (Z.shiftr (size payload) 8); t] ++ log_bytes recycle log.
Proof.
  intros Hp Hn t. unfold format_header. subst t. rewrite fragment_type_legacy. set (t := fragment_type _ _ _).
  assert (is_bytes [t]) as Ht by (constructor; [apply fragment_type_byte|constructor]).
  assert (is_u32 (type_crc t)) as Hu by by apply Crc.Extend_range.
  assert ((if negb recycle then [] else EncodeFixed32 (u32 log)) = log_bytes recycle log) as -> by by destruct recycle.
  pose proof (log_bytes_bytes recycle log) as Hl.
  assert ((if negb recycle then type_crc t else Crc.Extend (type_crc t) (log_bytes recycle log)) =
    Crc.Value (t :: log_bytes recycle log)) as ->.
  { destruct recycle; [|done]. cbn [negb]. symmetry. by apply (Crc.Extend_app 0 [t]). }
  assert (is_bytes (t :: log_bytes recycle log)) as Htl by by apply (Forall_app_2 _ [t]).
  rewrite Crc.Crc32cCombine_extend; [| by apply Crc.Extend_range|done|unfold size in Hn; lia].
  do 3 f_equal. symmetry. by apply (Crc.Extend_app 0 (t :: log_bytes recycle log)).
Qed.

Lemma DecodeFixed32_encode v rest : is_u32 v -> DecodeFixed32 (EncodeFixed32 v ++ rest) = v.
Proof.
  intros Hv. unfold DecodeFixed32, EncodeFixed32.
  rewrite take_app_length' by by rewrite Version.encode_fixed_length. by apply Version.decode_encode.
Qed.

Lemma Mask_range c : is_u32 (Crc.Mask c).
Proof. unfold Crc.Mask, u32, is_u32. apply Z.mod_pos_bound. lia. Qed.

Lemma length_decode n : 0 <= n < 65536 ->
  Z.lor (Z.land (Z.land n 0xff) 0xff) (Z.shiftl (Z.land (u8 (Z.shiftr n 8)) 0xff) 8) = n.
Proof.
  intros Hn. rewrite <- Z.land_assoc. change (Z.land 255 255) with (Z.ones 8).
  change 0xff with (Z.ones 8). rewrite !Z.land_ones by lia. unfold u8. change 256 with (2 ^ 8).
  rewrite Z.mod_mod by lia. rewrite Z.shiftr_div_pow2 by lia.
  rewrite (Z.mod_small (n / 2 ^ 8)) by (split; [apply Z.div_pos; lia|apply Z.div_lt_upper_bound; lia]).
  rewrite lor_add by (lia || apply Z.mod_pos_bound; lia). pose proof (Z.div_mod n (2 ^ 8)). lia.
Qed.

(** The bytes of a physical record. *)
Lemma physical_eq recycle log begin end_ payload : is_bytes payload -> size payload < 65536 ->
  let t := fragment_type recycle begin end_ in
  exists c0 c1 c2 c3, EncodeFixed32 (Crc.Mask (Crc.Value (checksummed recycle log t payload))) = [c0; c1; c2; c3] /\
  physical log t payload = [c0; c1; c2; c3; Z.land (size payload) 0xff; u8 (Z.shiftr (size payload) 8); t] ++
    log_bytes recycle log ++ payload.
Proof.
  intros Hp Hn t. subst t. eexists _, _, _, _. split; [reflexivity|]. unfold physical.
  rewrite format_header_eq by done. by rewrite <- !app_assoc.
Qed.

Lemma physical_size recycle log begin end_ payload :
  size (physical log (fragment_type recycle begin end_) payload) = header_size recycle + size payload.
Proof.
  unfold physical. rewrite <- (format_header_size log recycle begin end_ payload). unfold size.
  rewrite length_app. lia.
Qed.

Lemma size_nonneg l : 0 <= size l.
Proof. unfold size. lia. Qed.

(** ** Where the reader is *)

Section reading.
Context {D : Type}.
Variable stream : Streaming D.
Variable cfg : Config.
Variable recycle : bool.
Variable log : Z.
Implicit Types r : Reader D.

(** The reader is at offset [off] of a block, with the bytes [rem] to come, and meets no
    errors. *)
Definition synced (off : Z) (rem : list Z) r : Prop :=
  buffer r ++ file r = rem /\ read_error r = false /\ uncompressor r = None /\ Forall (eq None) (faults r) /\
  0 <= off <= kBlockSize /\
  if eof r then file r = [] /\ off + size rem < kBlockSize else size (buffer r) = kBlockSize - off.

(** What reading keeps. *)
Definition quiet r r' : Prop :=
  reports r' = reports r /\ first_record_read r' = first_record_read r.

(** The header of this log is accepted. *)
Definition coherent r : Prop := recycle = true -> stuck r = false.

Lemma read_more r off rem : synced off rem r -> eof r = false ->
  exists r', ReadMore r = (r', None) /\ synced 0 (file r) r' /\ quiet r r' /\ recycled r' = recycled r.
Proof.
  intros (Eb & Hr & Hu & Hf & Ho & Hb) He. unfold ReadMore. rewrite He, Hr. cbn [negb andb].
  assert (default None (head (faults r)) = None) as -> by (by destruct Hf).
  eexists. split; [reflexivity|]. pose proof kBlockSize_bounds. split; [|by split].
  unfold synced. cbn. rewrite take_drop, orb_false_r. split_and!; try done; try lia.
  - by destruct Hf.
  - unfold size in *. rewrite length_take.
    destruct (Z.ltb_spec (Z.of_nat (Z.to_nat kBlockSize `min` length (file r))) kBlockSize); [|lia].
    split; [apply drop_ge|]; lia.
Qed.

(** Fewer bytes are left than the block has room for only at the end of the file. *)
Lemma synced_eof off rem r : synced off rem r -> off + size rem < kBlockSize -> eof r = true /\ buffer r = rem /\ file r = [].
Proof.
  intros (Eb & Hr & Hu & Hf & Ho & Hb) Hs. destruct (eof r).
  - destruct Hb as [E _]. split_and!; try done. by rewrite E, app_nil_r in Eb.
  - subst rem. unfold size in *. rewrite length_app in Hs. lia.
Qed.

(** What fits the block is in the buffer. *)
Lemma synced_buffer off a rest r : synced off (a ++ rest) r -> off + size a <= kBlockSize ->
  exists b, buffer r = a ++ b /\ b ++ file r = rest.
Proof.
  intros (Eb & Hr & Hu & Hf & Ho & Hb) Ha. destruct (eof r).
  - destruct Hb as [E _]. exists rest. rewrite E, app_nil_r in *. done.
  - assert (buffer r = a ++ drop (length a) (buffer r)) as E.
    { assert (take (length a) (buffer r ++ file r) = a) as Et by (rewrite Eb; by apply take_app_length).
      rewrite take_app_le in Et by (unfold size in *; lia). rewrite <- (take_drop (length a) (buffer r)) at 1.
      by rewrite Et. }
    eexists. split; [exact E|]. rewrite E, <- app_assoc in Eb. by apply app_inv_head in Eb.
Qed.

(** The log number of a recycled log is the one expected, and fits its field. *)
Definition log_fits : Prop := recycle = true -> is_u32 log /\ log_number cfg = log.
Hypothesis Hlog : log_fits.

Lemma is_recyclable_fragment begin end_ : is_recyclable_type (fragment_type recycle begin end_) = recycle.
Proof. by destruct recycle, begin, end_. Qed.

Lemma read_body_physical begin end_ payload b r : let t := fragment_type recycle begin end_ in
  is_bytes payload -> size payload < 65536 -> uncompressor r = None -> buffer r = physical log t payload ++ b ->
  read_body stream cfg r t (size payload) (header_size recycle) = (set_buffer r b, mkPhysical t payload 0).
Proof.
  intros t Hp Hn Hu Eb. unfold t in *. pose proof (physical_size recycle log begin end_ payload) as Hs.
  destruct (physical_eq recycle log begin end_ payload Hp Hn) as (c0 & c1 & c2 & c3 & Ec & Ephys).
  set (ty := fragment_type recycle begin end_) in *. unfold read_body. cbv zeta. rewrite Hu, Eb.
  pose proof (header_size_bounds recycle) as Hhs. assert (0 <= size payload) as Hn0 by (unfold size; lia).
  replace (size (physical log ty payload ++ b) <? header_size recycle + size payload) with false
    by (symmetry; apply Z.ltb_ge; unfold size in *; rewrite length_app; lia).
  rewrite (drop_app_length' (physical log ty payload) b (Z.to_nat (header_size recycle + size payload)))
    by (unfold size in *; lia).
  rewrite Ephys, <- !app_assoc. rewrite (drop_app_length' (_ :: _)) by done.
  assert (is_recyclable_type ty && negb (DecodeFixed32 (log_bytes recycle log ++ payload ++ b) =? log_number cfg) = false)
    as ->.
  { unfold ty. rewrite is_recyclable_fragment. destruct recycle eqn:E; [|done].
    destruct (Hlog E) as [Hl ->]. cbn [log_bytes]. unfold u32 at 1. rewrite (Z.mod_small _ _ Hl).
    by rewrite DecodeFixed32_encode, Z.eqb_refl. }
  assert ((ty =? kZeroType) = false) as -> by (unfold ty; by destruct recycle, begin, end_). cbn [andb].
  assert (take (Z.to_nat (size payload + header_size recycle - 6))
    (drop 6 ([c0; c1; c2; c3; Z.land (size payload) 255; u8 (Z.shiftr (size payload) 8); ty] ++
       log_bytes recycle log ++ payload ++ b)) = checksummed recycle log ty payload) as ->.
  { cbn [app drop]. unfold checksummed. pose proof (log_bytes_size recycle log) as Hls. unfold kHeaderSize in Hls.
    rewrite app_assoc, app_comm_cons. apply take_app_length'. cbn [length]. rewrite length_app.
    unfold size in *. lia. }
  assert (DecodeFixed32 ([c0; c1; c2; c3; Z.land (size payload) 255; u8 (Z.shiftr (size payload) 8); ty] ++
    log_bytes recycle log ++ payload ++ b) = Crc.Mask (Crc.Value (checksummed recycle log ty payload))) as ->.
  { rewrite <- (DecodeFixed32_encode (Crc.Mask _) []) by apply Mask_range. by rewrite Ec. }
  rewrite Crc.Unmask_Mask_spec, Z.eqb_refl, andb_false_r.
  2: { apply Crc.Extend_range; [done|]. constructor; [apply fragment_type_byte|].
       by apply Forall_app; split; [apply log_bytes_bytes|]. }
  do 2 f_equal. rewrite app_assoc, drop_app_length'; [by apply take_app_length'; unfold size; lia|].
  pose proof (log_bytes_size recycle log) as Hls. unfold kHeaderSize in Hls. rewrite length_app. cbn [length].
  unfold size in *. lia.
Qed.

(** The header fields the loop looks at. *)
Lemma fragment_fields begin end_ payload k b : let t := fragment_type recycle begin end_ in
  is_bytes payload -> size payload < 65536 -> b = take k (physical log t payload) -> kHeaderSize <= size b ->
  Z.lor (Z.land (nth 4 b 0) 0xff) (Z.shiftl (Z.land (nth 5 b 0) 0xff) 8) = size payload /\ nth 6 b 0 = t.
Proof.
  intros t Hp Hn -> Hk. unfold t in *.
  destruct (physical_eq recycle log begin end_ payload Hp Hn) as (c0 & c1 & c2 & c3 & Ec & Ephys).
  unfold kHeaderSize, size in Hk. rewrite length_take in Hk. rewrite Ephys in *.
  do 7 (destruct k as [|k]; [cbn in Hk; lia|]). cbn [app take nth]. split; [|done].
  apply length_decode. unfold size in *. lia.
Qed.

(** The reader after the header has been accepted. *)
Definition accept r : Reader D := if recycle then set_recycled r else r.

Lemma accept_spec r :
  quiet r (accept r) /\ recycled (accept r) = recycled r || recycle /\ buffer (accept r) = buffer r /\
  file (accept r) = file r /\ eof (accept r) = eof r.
Proof. unfold accept. destruct recycle; cbn; rewrite ?orb_true_r, ?orb_false_r; by split_and!. Qed.

Lemma accept_synced off rem r : synced off rem r -> synced off rem (accept r).
Proof. unfold accept. by destruct recycle. Qed.

(** One round of the loop at a fragment whose header is in the buffer. *)
Lemma physical_round fuel begin end_ payload k b r : let t := fragment_type recycle begin end_ in
  is_bytes payload -> size payload < 65536 -> coherent r -> buffer r = take k (physical log t payload) ++ b ->
  (b = [] \/ take k (physical log t payload) = physical log t payload) ->
  header_size recycle <= size (buffer r) ->
  physical_loop stream cfg (S fuel) r = Some (read_body stream cfg (accept r) t (size payload) (header_size recycle)).
Proof.
  intros t Hp Hn Hc Eb Hb Hs. pose proof (header_size_bounds recycle) as Hhs. cbn [physical_loop].
  assert (Z.lor (Z.land (nth 4 (buffer r) 0) 0xff) (Z.shiftl (Z.land (nth 5 (buffer r) 0) 0xff) 8) = size payload /\
    nth 6 (buffer r) 0 = t) as [-> ->].
  { destruct Hb as [-> | E].
    - rewrite app_nil_r in Eb. apply (fragment_fields begin end_ payload k); try done. unfold kHeaderSize. lia.
    - pose proof (physical_size recycle log begin end_ payload) as Hps.
      destruct (fragment_fields begin end_ payload (length (physical log t payload)) (physical log t payload)) as [E1 E2];
        [done|done|symmetry; by apply take_ge|unfold kHeaderSize, t, size in *; lia|].
      rewrite Eb, E, !app_nth1; [done|unfold t, size in *; lia..]. }
  destruct (Z.ltb_spec (size (buffer r)) kHeaderSize); [unfold kHeaderSize in *; lia|].
  unfold t. rewrite is_recyclable_fragment. unfold accept. destruct recycle eqn:E; [|done].
  rewrite (Hc E : first_record_read r && negb (recycled r) = false).
  destruct (Z.ltb_spec (size (buffer r)) kRecyclableHeaderSize); [|done]. cbn [header_size] in Hs. lia.
Qed.

Lemma read_physical off begin end_ payload rest r : let t := fragment_type recycle begin end_ in
  synced off (physical log t payload ++ rest) r -> off + header_size recycle + size payload <= kBlockSize ->
  is_bytes payload -> coherent r ->
  exists r', (forall fuel, physical_loop stream cfg (S fuel) r = Some (r', mkPhysical t payload 0)) /\
    synced (off + header_size recycle + size payload) rest r' /\ quiet r r' /\ recycled r' = recycled r || recycle.
Proof.
  intros t Hsy Hfit Hp Hc. pose proof kBlockSize_bounds. pose proof (header_size_bounds recycle) as Hhs.
  pose proof (physical_size recycle log begin end_ payload) as Hps. fold t in Hps.
  assert (0 <= off) as Ho by apply Hsy. assert (0 <= size payload) as Hn0 by (unfold size; lia).
  destruct (synced_buffer off (physical log t payload) rest r Hsy) as (b & Eb & Ef); [lia|].
  pose proof (accept_synced _ _ _ Hsy) as (_ & Hr & Hu & Hf & _ & Hb).
  destruct (accept_spec r) as (Hq & Hrec & Ebuf & Efile & Eeof).
  exists (set_buffer (accept r) b). split.
  - intros fuel. rewrite (physical_round fuel begin end_ payload (length (physical log t payload)) b); try done; try lia.
    + f_equal. apply read_body_physical; try done; [lia|]. by rewrite Ebuf.
    + by rewrite (take_ge (physical log t payload)) by reflexivity.
    + right. by apply take_ge.
    + rewrite Eb. unfold size in *. rewrite length_app. lia.
  - split; [|done]. unfold synced. cbn. rewrite Efile, Eeof in *. split_and!; try done; try lia.
    rewrite Ebuf, Eb in Hb. unfold size in *. destruct (eof r); [|rewrite length_app in Hb; lia].
    destruct Hb as [-> Hl]. rewrite length_app in Hl. split; [done|lia].
Qed.

(** ** Steps of the loop *)

(** With enough fuel the loop returns [out]. *)
Definition reads (mode : WALRecoveryMode) r (p : Pending) (out : Reader D * option (list Z)) : Prop :=
  exists n, forall fuel, (n <= fuel)%nat -> record_loop stream cfg fuel mode r p = Some out.

Definition after (mode : WALRecoveryMode) (o : outcome) (out : Reader D * option (list Z)) : Prop :=
  match o with inl (r, p) => reads mode r p out | inr out' => out' = out end.

(** From [r], the loop handles the physical record [x] in the state [r']. *)
Definition consumes (mode : WALRecoveryMode) r (p : Pending) r' (x : Physical) : Prop :=
  exists offset, forall out, after mode (dispatch stream cfg mode offset r' p x) out -> reads mode r p out.

Lemma consumes_here mode r p r' x : ReadPhysicalRecord stream cfg r = Some (r', x) -> consumes mode r p r' x.
Proof.
  intros E. exists (end_of_buffer_offset r -% size (buffer r)). intros out Ha.
  assert (exists n, forall fuel, (n <= fuel)%nat ->
    match dispatch stream cfg mode (end_of_buffer_offset r -% size (buffer r)) r' p x with
    | inl (r, p) => record_loop stream cfg fuel mode r p | inr out => Some out end = Some out) as [n Hn].
  { destruct (dispatch _ _ _ _ _ _ _) as [[r2 p2]|out']; [exact Ha|]. exists O. intros. by f_equal. }
  exists (S n). intros [|fuel] Hf; [lia|]. cbn [record_loop]. rewrite E. apply Hn. lia.
Qed.

Lemma consumes_bad mode r p r1 r' x : ReadPhysicalRecord stream cfg r = Some (r1, mkPhysical kBadRecord [] 0) ->
  in_fragmented_record p = false -> consumes mode r1 p r' x -> consumes mode r p r' x.
Proof.
  intros E Hp [o Ho]. exists o. intros out Ha. destruct (consumes_here mode r p _ _ E) as [o' Ho'].
  apply Ho'. change (dispatch _ _ _ _ _ _ _) with (break_record r1 p). unfold break_record. rewrite Hp. by apply Ho.
Qed.

Lemma prefix_app_cases (rem a b : list Z) : rem `prefix_of` a ++ b ->
  (exists c, rem = a ++ c /\ c `prefix_of` b) \/ (rem `prefix_of` a /\ size rem < size a).
Proof.
  intros [d E]. destruct (decide (length a <= length rem)%nat) as [Hl|Hl].
  - left. assert (take (length a) rem = a) as Ea.
    { rewrite <- (take_app_le _ d) by done. rewrite <- E. by apply take_app_length. }
    exists (drop (length a) rem). split; [rewrite <- Ea at 1; by rewrite take_drop|].
    exists d. rewrite <- (take_drop (length a) rem), Ea, <- app_assoc in E. by apply app_inv_head in E.
  - right. unfold size. split; [|lia]. exists (take (length a - length rem) d).
    apply (f_equal (take (length a))) in E. rewrite take_app_length, take_app_ge in E by lia. done.
Qed.

(** ** The end of the file *)

(** The loop returns false; nothing is reported in the tolerant modes, or if the end is
    [clean]. *)
Definition stops (mode : WALRecoveryMode) (clean : bool) r (p : Pending) : Prop :=
  exists r', reads mode r p (r', None) /\
    (strict mode = false \/ (clean = true /\ in_fragmented_record p = false) -> reports r' = reports r).

(** The results of a physical read at the end of the file. *)
Definition ends_file (clean : bool) r' (x : Physical) : Prop :=
  result_type x = kEof \/
  (clean = false /\ (result_type x = kBadHeader \/ (result_type x = kBadRecordLen /\ eof r' = true))).

Lemma stops_consumes mode clean r p r1 x : consumes mode r p r1 x -> reports r1 = reports r ->
  ends_file clean r1 x -> stops mode clean r p.
Proof.
  intros [o Ho] Er Hx.
  assert (exists r', dispatch stream cfg mode o r1 p x = inr (r', None) /\
    (strict mode = false \/ (clean = true /\ in_fragmented_record p = false) -> reports r' = reports r1))
    as (r' & Ed & Hr).
  { unfold dispatch. destruct Hx as [-> | [-> [-> | [-> He]]]]; cbn -[report_if].
    - eexists. split; [reflexivity|]. unfold report_if. by intros [-> | [_ ->]]; rewrite ?andb_false_r.
    - eexists. split; [reflexivity|]. unfold report_if. intros [-> | [? _]]; [by rewrite andb_false_r|done].
    - rewrite He. eexists. split; [reflexivity|]. unfold report_if. by intros [-> | [? _]]. }
  exists r'. split; [|intros H; rewrite Hr by done; done]. apply Ho. by rewrite Ed.
Qed.

Definition is_nil (l : list Z) : bool := match l with [] => true | _ => false end.

Lemma short_physical r : eof r = true -> size (buffer r) < kHeaderSize ->
  exists r1 x, (forall fuel, physical_loop stream cfg (S fuel) r = Some (r1, x)) /\ reports r1 = reports r /\
    ends_file (is_nil (buffer r)) r1 x.
Proof.
  intros He Hb. cbn [physical_loop]. destruct (Z.ltb_spec (size (buffer r)) kHeaderSize); [|lia].
  unfold ReadMore. rewrite He. cbn. destruct (buffer r); eexists _, _; (split; [intros; reflexivity|]); split; try done.
  - by left.
  - right. split; [done|by left].
Qed.

(** ** The end of a block *)

Lemma skip_trailer off rem r : synced off rem r -> eof r = false -> size (buffer r) < kHeaderSize ->
  exists r1, (forall fuel, physical_loop stream cfg (S fuel) r = physical_loop stream cfg fuel r1) /\
    synced 0 (file r) r1 /\ quiet r r1 /\ recycled r1 = recycled r.
Proof.
  intros Hs He Hb. destruct (read_more r off rem Hs He) as (r1 & E & H). exists r1. split; [|done].
  intros fuel. cbn [physical_loop]. destruct (Z.ltb_spec (size (buffer r)) kHeaderSize); [|lia]. by rewrite E.
Qed.

Lemma nth_zeroes i n : nth i (zeroes n) 0 = 0.
Proof. unfold zeroes. generalize (Z.to_nat n) as m. revert i. by induction i as [|i IH]; intros [|m]; cbn. Qed.

(** A trailer that is long enough for a header reads as a record of type zero. *)
Lemma zero_trailer n r : buffer r = zeroes n -> kHeaderSize <= n ->
  ReadPhysicalRecord stream cfg r = Some (set_buffer r [], mkPhysical kBadRecord [] 0).
Proof.
  intros Eb Hn. unfold ReadPhysicalRecord. cbn [physical_loop]. unfold kHeaderSize in *.
  assert (size (buffer r) = n) as Es by (rewrite Eb; unfold size, zeroes; rewrite length_replicate; lia).
  assert (forall i, nth i (buffer r) 0 = 0) as Hnth by (intros i; rewrite Eb; apply nth_zeroes).
  rewrite !Hnth, Es. destruct (Z.ltb_spec n (4 + 2 + 1)); [lia|]. cbn [is_recyclable_type].
  change (is_recyclable_type 0) with false. cbv iota. unfold read_body. cbv zeta. rewrite Es.
  destruct (Z.ltb_spec n (4 + 2 + 1 + Z.lor (Z.land 0 255) (Z.shiftl (Z.land 0 255) 8))) as [Hlt|_]; [|done].
  change (4 + 2 + 1 + Z.lor (Z.land 0 255) (Z.shiftl (Z.land 0 255) 8)) with 7 in Hlt. lia.
Qed.

(** The switch of blocks in [layout]. *)
Definition switched (off : Z) : list Z * Z :=
  if kBlockSize - off <? header_size recycle then (zeroes (kBlockSize - off), 0) else ([], off).

(** The reader follows the switch. *)
Lemma reach mode off pad off1 c r p : switched off = (pad, off1) -> synced off (pad ++ c) r ->
  in_fragmented_record p = false \/ off = kBlockSize ->
  exists r1, synced off1 c r1 /\ quiet r r1 /\ recycled r1 = recycled r /\
    forall r2 x, (forall fuel, physical_loop stream cfg (S fuel) r1 = Some (r2, x)) -> consumes mode r p r2 x.
Proof.
  unfold switched. intros E Hs Hp. pose proof (header_size_bounds recycle) as Hhs. pose proof kBlockSize_bounds.
  destruct (Z.ltb_spec (kBlockSize - off) (header_size recycle)) as [Hl|Hl]; injection E as <- <-.
  2: { exists r. split_and!; try done. intros r2 x Hx. apply consumes_here, Hx. }
  pose proof Hs as (Eb & Hr & Hu & Hf & Ho & Hb).
  assert (size (zeroes (kBlockSize - off)) = kBlockSize - off) as Ez.
  { unfold size, zeroes. rewrite length_replicate. lia. }
  destruct (eof r) eqn:He.
  { destruct Hb as [_ Hb]. unfold size in *. rewrite length_app in Hb. lia. }
  destruct (synced_buffer _ _ _ _ Hs) as (b & Ebuf & Efile); [lia|].
  assert (b = []) as ->.
  { apply nil_length_inv. rewrite Ebuf in Hb. unfold size in *. rewrite length_app in Hb. lia. }
  rewrite app_nil_r in Ebuf. cbn in Efile.
  destruct (decide (kBlockSize - off < kHeaderSize)) as [Hsh|Hsh].
  - destruct (skip_trailer _ _ r Hs He) as (r1 & E1 & Hs1 & Hq & Hrec); [lia|]. rewrite Efile in Hs1.
    exists r1. split_and!; try done. intros r2 x Hx. apply consumes_here. unfold ReadPhysicalRecord.
    by rewrite E1, Hx.
  - assert (in_fragmented_record p = false) as Hp' by (destruct Hp; [done|unfold kHeaderSize in *; lia]).
    pose proof (zero_trailer (kBlockSize - off) r Ebuf ltac:(lia)) as Ezero.
    assert (synced kBlockSize c (set_buffer r [])) as Hs'.
    { unfold synced. cbn. rewrite He. split_and!; try done; try lia. }
    destruct (skip_trailer _ _ _ Hs' He) as (r1 & E1 & Hs1 & Hq & Hrec); [done|]. cbn in Hs1. rewrite Efile in Hs1.
    exists r1. split_and!; try done. intros r2 x Hx. eapply consumes_bad; [exact Ezero|done|].
    apply consumes_here. unfold ReadPhysicalRecord. by rewrite E1, Hx.
Qed.

Lemma zeroes_prefix rem n : rem `prefix_of` zeroes n -> rem = zeroes (size rem).
Proof.
  intros [d E]. unfold zeroes, size in *. rewrite Nat2Z.id.
  assert (length rem <= Z.to_nat n)%nat as Hl.
  { apply (f_equal length) in E. rewrite length_replicate, length_app in E. lia. }
  apply (f_equal (take (length rem))) in E. rewrite take_app_length, take_replicate, Nat.min_l in E by lia. done.
Qed.

(** A log that ends inside the trailer of a block. *)
Lemma stops_pad mode off pad off1 rem r p : switched off = (pad, off1) -> synced off rem r ->
  rem `prefix_of` pad -> size rem < size pad -> in_fragmented_record p = false -> stops mode (is_nil rem) r p.
Proof.
  unfold switched. intros E Hs Hp Hl Hf. pose proof (size_nonneg rem) as Hn.
  destruct (Z.ltb_spec (kBlockSize - off) (header_size recycle)) as [Hk|Hk]; injection E as <- <-.
  2: { change (size []) with 0 in Hl. lia. }
  assert (size rem < kBlockSize - off) as Hlt by (unfold size, zeroes in *; rewrite length_replicate in Hl; lia).
  destruct (synced_eof _ _ _ Hs) as (He & Eb & Ef); [lia|].
  destruct (decide (size rem < kHeaderSize)) as [Hsh|Hsh].
  - destruct (short_physical r He) as (r1 & x & E1 & Er & Hx); [by rewrite Eb|]. rewrite Eb in Hx.
    eapply stops_consumes; [apply consumes_here, E1|done|done].
  - assert (buffer r = zeroes (size rem)) as Ez by (rewrite Eb; by eapply zeroes_prefix).
    pose proof (zero_trailer _ _ Ez ltac:(lia)) as E1.
    destruct (short_physical (set_buffer r [])) as (r1 & x & E2 & Er & Hx); [done|done|].
    eapply stops_consumes; [eapply consumes_bad; [exact E1|done|apply consumes_here, E2]|done|].
    destruct Hx as [Hx | [? _]]; [by left|done].
Qed.

(** A log that ends inside a fragment. *)
Lemma truncated_fragment off begin end_ payload rem r : let t := fragment_type recycle begin end_ in
  synced off rem r -> rem `prefix_of` physical log t payload -> size rem < size (physical log t payload) ->
  off + size (physical log t payload) <= kBlockSize -> is_bytes payload -> coherent r ->
  exists r1 x, (forall fuel, physical_loop stream cfg (S fuel) r = Some (r1, x)) /\ reports r1 = reports r /\
    ends_file (is_nil rem) r1 x.
Proof.
  intros t Hs Hpre Hl Hfit Hp Hc. pose proof kBlockSize_bounds. pose proof (header_size_bounds recycle) as Hhs.
  pose proof (physical_size recycle log begin end_ payload) as Hps. fold t in Hps. pose proof (size_nonneg payload).
  assert (0 <= off) as Ho by apply Hs. destruct (synced_eof _ _ _ Hs) as (He & Eb & Ef); [lia|].
  destruct (decide (size rem < kHeaderSize)) as [Hsh|Hsh].
  { rewrite <- Eb. apply short_physical; [done|by rewrite Eb]. }
  assert (is_nil rem = false) as -> by (destruct rem; [by contradict Hsh|done]).
  assert (rem = take (length rem) (physical log t payload)) as Et.
  { destruct Hpre as [d ->]. by rewrite take_app_length. }
  destruct (decide (size rem < header_size recycle)) as [Hsm|Hsm].
  - assert (recycle = true) as Hrec by (destruct recycle; [done|cbn in Hsm; lia]).
    assert (nth 6 (buffer r) 0 = t) as E6.
    { rewrite Eb. eapply proj2, (fragment_fields begin end_ payload (length rem)); [done|lia|done|lia]. }
    destruct (ReadMore (set_recycled r)) as [r1 e] eqn:Em.
    unfold ReadMore in Em. cbn in Em. rewrite He, Eb in Em. cbn in Em.
    exists r1, (mkPhysical kBadHeader [] (size rem)). split.
    + intros fuel. cbn [physical_loop]. rewrite E6, Eb. destruct (Z.ltb_spec (size rem) kHeaderSize); [lia|].
      assert (is_recyclable_type t = true) as -> by (unfold t; by rewrite is_recyclable_fragment).
      rewrite (Hc Hrec : first_record_read r && negb (recycled r) = false).
      destruct (Z.ltb_spec (size rem) kRecyclableHeaderSize); [|rewrite Hrec in Hsm; cbn in Hsm; lia].
      unfold ReadMore. cbn. rewrite He, Eb. cbn. destruct rem; [by contradict Hsh|]. by injection Em as <- <-.
    + destruct rem; [by contradict Hsh|]. injection Em as <- <-. split; [done|]. right. split; [done|by left].
  - exists (set_buffer (accept r) []), (mkPhysical kBadRecordLen [] (size rem)).
    destruct (accept_spec r) as ((Hrep & _) & _ & Ebuf & Efile & Eeof). split_and!; [|done|].
    + intros fuel. rewrite (physical_round fuel begin end_ payload (length rem) []); try done; try lia.
      * unfold read_body. cbv zeta. rewrite Ebuf, Eb. destruct (Z.ltb_spec (size rem) (header_size recycle + size payload));
          [done|lia].
      * by rewrite app_nil_r, Eb.
      * by left.
      * rewrite Eb. lia.
    + right. split; [done|]. right. split; [done|]. cbn. by rewrite Eeof.
Qed.

(** ** One fragment, after the switch of blocks *)

Lemma ends_file_app pad c r x : ends_file (is_nil c) r x -> ends_file (is_nil (pad ++ c)) r x.
Proof. unfold ends_file. intros [H | [H ?]]; [by left|]. right. split; [|done]. by destruct pad. Qed.

Lemma switched_spec off pad off1 : switched off = (pad, off1) -> 0 <= off <= kBlockSize ->
  0 <= off1 <= kBlockSize - header_size recycle /\ (off = kBlockSize -> pad = []).
Proof.
  unfold switched. pose proof (header_size_bounds recycle). pose proof kBlockSize_bounds. intros E Ho.
  destruct (Z.ltb_spec (kBlockSize - off) (header_size recycle)); injection E as <- <-; split; try lia; try done.
  intros ->. by rewrite Z.sub_diag.
Qed.

Lemma switched_full pad off1 : switched kBlockSize = (pad, off1) -> off1 = 0.
Proof. unfold switched. rewrite Z.sub_diag. pose proof (header_size_bounds recycle). destruct (Z.ltb_spec 0 (header_size recycle)); [|lia]. by intros [= _ <-]. Qed.

Lemma fragment_step mode off pad off1 begin end_ payload tl rem r p : let t := fragment_type recycle begin end_ in
  switched off = (pad, off1) -> off1 + header_size recycle + size payload <= kBlockSize -> is_bytes payload ->
  synced off rem r -> rem `prefix_of` (pad ++ physical log t payload) ++ tl -> coherent r ->
  in_fragmented_record p = false \/ off = kBlockSize ->
  (size rem < size (pad ++ physical log t payload) /\ stops mode (is_nil rem) r p) \/
  exists c r2, rem = (pad ++ physical log t payload) ++ c /\ c `prefix_of` tl /\
    synced (off1 + header_size recycle + size payload) c r2 /\ quiet r r2 /\ recycled r2 = recycled r || recycle /\
    consumes mode r p r2 (mkPhysical t payload 0).
Proof.
  intros t Esw Hfit Hp Hs Hpre Hc Hf. destruct (switched_spec _ _ _ Esw) as [Ho1 Hpad]; [apply Hs|].
  pose proof (physical_size recycle log begin end_ payload) as Hps. fold t in Hps.
  rewrite <- app_assoc in Hpre. apply prefix_app_cases in Hpre as [(c & -> & Hpre) | [Hpre Hl]].
  2: { left. split; [unfold size in *; rewrite length_app; lia|]. eapply stops_pad; try done.
       destruct Hf as [Hf| ->]; [done|]. rewrite Hpad in Hl by done. pose proof (size_nonneg rem). change (size []) with 0 in Hl. lia. }
  destruct (reach mode off pad off1 c r p Esw Hs Hf) as (r1 & Hs1 & [Hq1 Hf1] & Hrec1 & Hcons).
  assert (coherent r1) as Hc1 by (intros E; unfold stuck; rewrite Hf1, Hrec1; by apply Hc).
  apply prefix_app_cases in Hpre as [(c2 & -> & Hpre) | [Hpre Hl]].
  - right. destruct (read_physical off1 begin end_ payload c2 r1 Hs1 Hfit Hp Hc1) as (r2 & E2 & Hs2 & [Hq2 Hf2] & Hrec2).
    exists c2, r2. rewrite <- app_assoc. split_and!; [done|done|done| |by rewrite Hrec2, Hrec1|by apply Hcons].
    unfold quiet in *. split; congruence.
  - left. split; [unfold size in *; rewrite !length_app; lia|].
    destruct (truncated_fragment off1 begin end_ payload c r1 Hs1 Hpre Hl) as (r2 & x & E2 & Hr2 & Hx);
      [fold t; lia|done|done|].
    eapply stops_consumes; [by apply Hcons|congruence|by apply ends_file_app].
Qed.

(** ** One record *)

(** What the four types of fragments do. *)
Lemma dispatch_fragment mode o begin end_ f r p : in_fragmented_record p = negb begin ->
  let s := (if begin then [] else scratch p) ++ f in
  exists o', dispatch stream cfg mode o r p (mkPhysical (fragment_type recycle begin end_) f 0) =
    if end_ then inr (set_first_read (set_last_offset r o'), Some s) else inl (r, mkPending true s o').
Proof.
  intros Hp. unfold dispatch.
  destruct recycle, begin, end_; cbn -[report_if]; unfold full_record, first_fragment, middle_fragment, last_fragment;
    rewrite Hp; by eexists.
Qed.

(** A cut-off record is not returned; a complete one is. *)
Definition read_one (mode : WALRecoveryMode) (bytes tl rem : list Z) (off : Z) (rec : list Z) r (p : Pending) : Prop :=
  (size rem < size bytes /\ stops mode (is_nil rem) r p) \/
  exists c r', rem = bytes ++ c /\ c `prefix_of` tl /\ reads mode r p (r', Some rec) /\ synced off c r' /\
    reports r' = reports r /\ first_record_read r' = true /\ recycled r' = recycled r || recycle.

Lemma read_one_more mode a b tl c off rec r p r2 p2 : is_nil a = false -> reports r2 = reports r ->
  recycled r2 = recycled r || recycle -> (forall out, reads mode r2 p2 out -> reads mode r p out) ->
  read_one mode b tl c off rec r2 p2 -> read_one mode (a ++ b) tl (a ++ c) off rec r p.
Proof.
  intros Ha Hq Hrec Hr [[Hl (r' & Hst & Hrep)]|(c' & r' & -> & Hpre & Hrd & Hs & Hq' & Hf & Hrec')].
  - left. split; [unfold size in *; rewrite !length_app; lia|]. exists r'. split; [by apply Hr|].
    intros [H | [H _]]; [rewrite <- Hq; apply Hrep; by left|by destruct a].
  - right. exists c', r'. rewrite app_assoc. split_and!; try done; [by apply Hr|congruence|].
    rewrite Hrec', Hrec. by destruct (recycled r), recycle.
Qed.

Lemma physical_not_nil pad begin end_ payload :
  is_nil (pad ++ physical log (fragment_type recycle begin end_) payload) = false.
Proof. by destruct pad. Qed.

Lemma read_layout (mode : WALRecoveryMode) (fuel : nat) : forall (off : Z) (begin : bool) (left tl rem : list Z) r (p : Pending),
  (if begin then length left + 2 <= fuel else off = kBlockSize /\ length left + 1 <= fuel /\ 0 < length left)%nat ->
  0 <= off <= kBlockSize -> is_bytes left -> synced off rem r -> coherent r -> in_fragmented_record p = negb begin ->
  let '(bytes, off') := layout fuel recycle log off begin left in
  rem `prefix_of` bytes ++ tl ->
  read_one mode bytes tl rem off' ((if begin then [] else scratch p) ++ left) r p.
Proof.
  induction fuel as [|fuel IH]; intros off begin left tl rem r p Hfuel Ho Hl Hs Hc Hp.
  { destruct begin; lia. }
  cbn [layout]. fold (switched off). destruct (switched off) as [pad off1] eqn:Esw.
  destruct (switched_spec _ _ _ Esw Ho) as [Ho1 Hpad]. set (n := size left `min` (kBlockSize - off1 - header_size recycle)).
  assert (0 <= n <= size left) as Hn by (pose proof (size_nonneg left); lia).
  assert (size (take (Z.to_nat n) left) = n) as Et by (unfold size in *; rewrite length_take; lia).
  assert (is_bytes (take (Z.to_nat n) left)) as Hpb by by apply Forall_take.
  assert (in_fragmented_record p = false \/ off = kBlockSize) as Hf by (destruct begin; [by left|by right; apply Hfuel]).
  set (end_ := size left =? n). set (t := fragment_type recycle begin end_).
  destruct (Z.ltb_spec 0 (size (drop (Z.to_nat n) left))) as [Hr|Hr].
  - assert (end_ = false) as Ee.
    { apply Z.eqb_neq. unfold size in *. rewrite length_drop in Hr. lia. }
    assert (off1 + header_size recycle + n = kBlockSize) as Ef by (unfold size in *; rewrite length_drop in Hr; lia).
    rewrite Ef.
    destruct (layout fuel _ _ _ _ _) as [b off'] eqn:El. intros Hpre. rewrite <- app_assoc in Hpre.
    destruct (fragment_step mode off pad off1 begin end_ _ _ rem r p Esw ltac:(rewrite Et; lia) Hpb Hs Hpre Hc Hf)
      as [[Hsz Hst]|(c & r2 & -> & Hpre2 & Hs2 & [Hq2 Hf2] & Hrec2 & o & Ho2)].
    { left. split; [|done]. unfold size in *. rewrite length_app. fold t in Hsz. lia. }
    rewrite Et, Ef in Hs2. destruct (dispatch_fragment mode o begin end_ (take (Z.to_nat n) left) r2 p Hp) as [o' Ed].
    rewrite Ed, Ee in Ho2. eapply read_one_more; [apply physical_not_nil|done|done|exact Ho2|].
    specialize (IH kBlockSize false (drop (Z.to_nat n) left) tl c r2
      (mkPending true ((if begin then [] else scratch p) ++ take (Z.to_nat n) left) o')).
    rewrite El in IH. cbn [scratch] in IH. rewrite <- app_assoc, take_drop in IH. apply IH; try done; try lia.
    + unfold size in *. rewrite length_drop in *. pose proof kBlockSize_bounds. pose proof (header_size_bounds recycle).
      split_and!; try lia. destruct begin; [lia|]. destruct Hfuel as (-> & ? & ?).
      assert (off1 = 0) as Ez by (by apply switched_full in Esw). lia.
    + by apply Forall_drop.
    + intros E. unfold stuck. rewrite Hrec2, E, orb_true_r. apply andb_false_r.
  - intros Hpre. assert (drop (Z.to_nat n) left = []) as Ed by (apply nil_length_inv; unfold size in Hr; lia).
    assert (take (Z.to_nat n) left = left) as Etl by (rewrite <- (take_drop (Z.to_nat n) left) at 2; by rewrite Ed, app_nil_r).
    assert (end_ = true) as Ee by (apply Z.eqb_eq; by rewrite <- Et, Etl).
    destruct (fragment_step mode off pad off1 begin end_ _ _ rem r p Esw ltac:(rewrite Et; lia) Hpb Hs Hpre Hc Hf)
      as [?|(c & r2 & -> & Hpre2 & Hs2 & [Hq2 Hf2] & Hrec2 & o & Ho2)]; [by left|right].
    destruct (dispatch_fragment mode o begin end_ (take (Z.to_nat n) left) r2 p Hp) as [o' Ed'].
    rewrite Ed', Ee in Ho2. rewrite Et in Hs2. rewrite Etl in *.
    eexists c, _. split_and!; [done|done|by apply Ho2|done..].
Qed.

(** ** A list of records *)

Lemma stops_nil mode off r p : synced off [] r -> stops mode true r p.
Proof.
  intros Hs. pose proof kBlockSize_bounds. destruct (eof r) eqn:He.
  - assert (buffer r = []) as Eb by (by destruct (app_eq_nil _ _ (proj1 Hs))).
    destruct (short_physical r He) as (r1 & x & E & Er & Hx); [by rewrite Eb|]. rewrite Eb in Hx.
    eapply stops_consumes; [apply consumes_here, E|done|done].
  - destruct (app_eq_nil _ _ (proj1 Hs)) as [Eb Ef].
    destruct (skip_trailer _ _ r Hs He) as (r1 & E1 & Hs1 & [Hq _] & _); [by rewrite Eb|]. rewrite Ef in Hs1.
    destruct (synced_eof _ _ _ Hs1) as (He1 & Eb1 & _); [change (size []) with 0; lia|].
    destruct (short_physical r1 He1) as (r2 & x & E & Er & Hx); [by rewrite Eb1|]. rewrite Eb1 in Hx.
    eapply stops_consumes; [apply consumes_here; unfold ReadPhysicalRecord; rewrite E1; apply E|congruence|done].
Qed.

Lemma reads_ReadRecord mode r out : reads mode (set_uncompressor r (ResetStream stream <$> uncompressor r)) (mkPending false [] 0) out ->
  exists n, forall fuel, (n <= fuel)%nat -> ReadRecord stream cfg fuel mode r = Some out.
Proof. done. Qed.

Lemma synced_reset off rem r : synced off rem r -> synced off rem (set_uncompressor r (ResetStream stream <$> uncompressor r)).
Proof. intros (Eb & Hr & Hu & H). rewrite Hu. exact (conj Eb (conj Hr (conj eq_refl H))). Qed.

Lemma read_all_more n fuel mode r r' rec : ReadRecord stream cfg fuel mode r = Some (r', Some rec) ->
  read_all stream cfg (S n) fuel mode r = '(q, l) ← read_all stream cfg n fuel mode r'; Some (q, rec :: l).
Proof. intros E. cbn [read_all]. by rewrite E. Qed.

(** From a prefix of the log of [rs] the complete records are read. *)
Lemma read_image mode : forall rs off rem r, Forall is_bytes rs -> 0 <= off <= kBlockSize -> synced off rem r ->
  coherent r -> rem `prefix_of` image recycle log off rs ->
  exists n m r', (forall fuel, (n <= fuel)%nat ->
      read_all stream cfg (S (length rs)) fuel mode r = Some (r', take m rs)) /\
    size (image recycle log off (take m rs)) <= size rem /\ (m <= length rs)%nat /\
    ((m < length rs)%nat -> size rem < size (image recycle log off (take (S m) rs))) /\
    (strict mode = false \/ rem = image recycle log off (take m rs) -> reports r' = reports r).
Proof.
  induction rs as [|rec rs IH]; intros off rem r Hb Ho Hs Hc Hpre; cbn [image] in Hpre.
  - apply prefix_nil_inv in Hpre as ->. destruct (stops_nil mode off _ (mkPending false [] 0) (synced_reset _ _ _ Hs)) as (r' & Hr & Hq).
    destruct (reads_ReadRecord _ _ _ Hr) as [n Hn]. exists n, O, r'. split_and!; try done; try (cbn; lia).
    + intros fuel Hf. cbn [read_all length]. by rewrite Hn.
    + intros _. apply Hq. by right.
  - apply Forall_cons in Hb as [Hrec Hb].
    pose proof (read_layout mode (length rec + 2) off true rec
      (image recycle log (record_layout recycle log off rec).2 rs) rem _ (mkPending false [] 0) (Nat.le_refl _) Ho Hrec
      (synced_reset _ _ _ Hs) Hc eq_refl) as Hl.
    pose proof (layout_offset (length rec + 2) recycle log off true rec Ho) as Ho'. unfold record_layout in *.
    destruct (layout _ _ _ _ _ _) as [bytes off'] eqn:El. cbn [snd] in *.
    destruct (Hl Hpre) as [[Hsz (r' & Hr & Hq)]|(c & r1 & -> & Hpre' & Hr & Hs1 & Hq1 & Hf1 & Hrec1)].
    + destruct (reads_ReadRecord _ _ _ Hr) as [n Hn]. exists n, O, r'. split_and!; [|apply size_nonneg|lia| |].
      * intros fuel Hf. cbn [read_all]. by rewrite Hn.
      * intros _. cbn [take image]. unfold record_layout. rewrite El. rewrite take_0. cbn [image]. by rewrite app_nil_r.
      * intros [H| ->]; apply Hq; [by left|by right].
    + destruct (reads_ReadRecord _ _ _ Hr) as [n1 Hn1].
      assert (coherent r1) as Hc1 by (intros E; unfold stuck; rewrite Hrec1, E, orb_true_r; apply andb_false_r).
      destruct (IH off' c r1 Hb Ho' Hs1 Hc1 Hpre') as (n2 & m & r' & Hn2 & Hle & Hm & Hlt & Hq).
      exists (n1 + n2)%nat, (S m), r'. split_and!.
      * intros fuel Hf. by rewrite (read_all_more _ _ _ _ _ _ (Hn1 fuel ltac:(lia))), Hn2 by lia.
      * cbn [take image]. unfold record_layout. rewrite El. unfold size in *. rewrite !length_app. lia.
      * cbn [length]. lia.
      * intros Hm'. cbn [length] in Hm'. specialize (Hlt ltac:(lia)).
        change (take (S (S m)) (rec :: rs)) with (rec :: take (S m) rs). cbn [image]. unfold record_layout. rewrite El.
        unfold size in *. rewrite !length_app. lia.
      * cbn [take image]. unfold record_layout. rewrite El. intros H. rewrite Hq; [exact Hq1|].
        destruct H as [H|H]; [by left|right]. by apply app_inv_head in H.
Qed.

Lemma new_reader_synced f : synced kBlockSize f (new_reader f []).
Proof. unfold synced. cbn. pose proof kBlockSize_bounds. split_and!; try done; lia. Qed.

Lemma layout_start fuel begin left : layout fuel recycle log kBlockSize begin left = layout fuel recycle log 0 begin left
  \/ fuel = O.
Proof.
  destruct fuel; [by right|left]. cbn [layout]. rewrite Z.sub_diag.
  pose proof (header_size_bounds recycle). pose proof kBlockSize_bounds.
  destruct (Z.ltb_spec 0 (header_size recycle)); [|lia].
  by destruct (Z.ltb_spec (kBlockSize - 0) (header_size recycle)); [lia|].
Qed.

Lemma image_start rs : image recycle log kBlockSize rs = image recycle log 0 rs.
Proof.
  destruct rs as [|r rs]; [done|]. cbn [image]. unfold record_layout.
  destruct (layout_start (length r + 2) true r) as [-> | ?]; [done|lia].
Qed.

Lemma read_image_new mode rs rem : Forall is_bytes rs -> rem `prefix_of` image recycle log 0 rs ->
  exists n m r', (forall fuel, (n <= fuel)%nat ->
      read_all stream cfg fuel fuel mode (new_reader rem []) = Some (r', take m rs)) /\
    size (image recycle log 0 (take m rs)) <= size rem /\ (m <= length rs)%nat /\
    ((m < length rs)%nat -> size rem < size (image recycle log 0 (take (S m) rs))) /\
    (strict mode = false \/ rem = image recycle log 0 (take m rs) -> reports r' = []).
Proof.
  intros Hb Hpre. rewrite <- image_start in Hpre. pose proof kBlockSize_bounds.
  destruct (read_image mode rs kBlockSize rem (new_reader rem []) Hb ltac:(lia) (new_reader_synced rem))
    as (n & m & r' & Hr & H1 & H2 & H3 & H4); [by intros _|done|].
  rewrite !image_start in *. exists (n + S (length rs))%nat, m, r'. split_and!; try done.
  intros fuel Hf. eapply read_all_mono; [apply Hr|]; lia.
Qed.

End reading.

Lemma image_mono recycle log rs rs' : forall off, rs `prefix_of` rs' ->
  (length (image recycle log off rs) <= length (image recycle log off rs'))%nat.
Proof.
  revert rs'. induction rs as [|r rs IH]; intros rs' off [d ->]; cbn [image app length]; [lia|].
  destruct (record_layout _ _ _ _) as [b off']. rewrite !length_app. specialize (IH (rs ++ d) off' ltac:(by exists d)). lia.
Qed.

(** ** Records that were added and records that are read *)

Section durability.
Context {F : Type} `{FileWriterLaws F}.
Implicit Types w : Writer F.

Lemma AddRecords_error l : forall w, seen_error (dest w) = true ->
  AddRecords w l = Some (w, replicate (length l) false).
Proof.
  induction l as [|[slice seqno] l IH]; intros w Hs; [done|]. cbn [AddRecords]. unfold AddRecord. rewrite Hs.
  cbn [mbind option_bind]. by rewrite IH.
Qed.

(** The calls that succeed come first; the file has their records, and of the first that
    failed at most a prefix. *)
Lemma AddRecords_wrote l : forall w, 0 <= block_offset_ w <= kBlockSize -> seen_error (dest w) = false ->
  exists w' a, AddRecords w l = Some (w', replicate a true ++ replicate (length l - a) false) /\ (a <= length l)%nat /\
    let log := image (recycle_log_files_ w) (log_number_ w) (block_offset_ w) in
    flushed (dest w) `prefix_of` flushed (dest w') /\
    flushed (dest w') `prefix_of` contents (dest w) ++ log (take (S a) l.*1) /\
    (manual_flush_ w = false -> flushed (dest w) = contents (dest w) ->
     contents (dest w) ++ log (take a l.*1) `prefix_of` flushed (dest w')).
Proof.
  induction l as [|[slice seqno] l IH]; intros w Ho Hs.
  { exists w, O. cbn. rewrite app_nil_r. split_and!; try done; [by apply flushed_contents|by intros _ ->]. }
  pose proof (AddRecord_wrote w slice seqno Ho Hs) as Ha.
  pose proof (layout_offset (length slice + 2) (recycle_log_files_ w) (log_number_ w) (block_offset_ w) true slice Ho) as Ho'.
  fold (record_layout (recycle_log_files_ w) (log_number_ w) (block_offset_ w) slice) in Ho'.
  cbn [AddRecords fmap list_fmap fst]. change (fst <$> l) with l.*1. cbn [take image].
  destruct (record_layout _ _ _ _) as [bytes off'] eqn:Erl. cbn [snd] in Ho'.
  destruct Ha as (w1 & [|] & E & W & Hok); rewrite E; cbn [mbind option_bind].
  - destruct (Hok eq_refl) as [Eo Hfl]. destruct W as ((El & Er & Em) & Hp & Ec & Es).
    destruct (IH w1) as (w' & a & Ea & Hle & H1 & H2 & H3); [by rewrite Eo|congruence|].
    rewrite El, Er, Eo, Ec, <- app_assoc in *. exists w', (S a). rewrite Ea. cbn [mbind option_bind length].
    split_and!; [done|lia|by etrans|done|]. intros Hm Hc. cbn [take image]. rewrite Erl. apply H3; [congruence|].
    by apply Hfl.
  - destruct W as (_ & Hp & Hse & Hpre). exists w1, O. rewrite (AddRecords_error l w1 Hse). cbn [mbind option_bind].
    split_and!; [done|lia|done| |].
    + rewrite take_0. cbn [image]. by rewrite app_nil_r.
    + intros _ Hc. cbn [take image]. rewrite app_nil_r. by rewrite <- Hc.
Qed.

Lemma AddRecords_read {D} (stream : Streaming D) cfg mode f recycle log track l :
  seen_error f = false -> contents f = [] -> Forall is_bytes l.*1 ->
  log_fits cfg recycle log ->
  exists w' a n m r', AddRecords (new_writer f log recycle false track) l =
      Some (w', replicate a true ++ replicate (length l - a) false) /\
    (forall fuel, (n <= fuel)%nat ->
      read_all stream cfg fuel fuel mode (new_reader (flushed (dest w')) []) = Some (r', take m l.*1)) /\
    (a <= m <= S a)%nat /\ (strict mode = false -> reports r' = []).
Proof.
  intros Hs Hc Hb Hlog. pose proof kBlockSize_bounds.
  assert (flushed f = []) as Hf by (apply prefix_nil_inv; rewrite <- Hc; by apply flushed_contents).
  destruct (AddRecords_wrote l (new_writer f log recycle false track)) as (w' & a & E & Hle & _ & Hup & Hlow);
    [cbn; lia|done|]. cbn in Hup, Hlow. rewrite Hc in *. cbn [app] in *. specialize (Hlow eq_refl Hf).
  destruct (read_image_new stream cfg recycle log Hlog mode (take (S a) l.*1) (flushed (dest w')))
    as (n & m & r' & Hr & Hlo & Hm & Hhi & Hrep); [by apply Forall_take|done|].
  rewrite length_take, length_fmap in *. exists w', a, n, m, r'. split_and!; try done.
  - intros fuel Hn. rewrite (Hr fuel Hn), take_take, Nat.min_l by lia. done.
  - destruct (decide (a <= m)%nat) as [|Hn]; [done|]. specialize (Hhi ltac:(lia)).
    apply prefix_length in Hlow. rewrite take_take, Nat.min_l in Hhi by lia.
    pose proof (image_mono recycle log (take (S m) l.*1) (take a l.*1) 0) as Hmono. unfold size in *.
    assert (take (S m) l.*1 `prefix_of` take a l.*1) as Hpre.
    { rewrite <- (Nat.min_l (S m) a), <- take_take by lia. apply prefix_take. }
    specialize (Hmono Hpre). lia.
  - lia.
  - intros Hst. apply Hrep. by left.
Qed.

End durability.

(** ** A log number that does not fit *)

Lemma decode_old_number log rest : 2 ^ 32 <= log -> DecodeFixed32 (log_bytes true log ++ rest) <> log.
Proof.
  intros Hl. unfold log_bytes. assert (is_u32 (u32 log)) as Hu by (apply Z.mod_pos_bound; lia).
  rewrite DecodeFixed32_encode by done. unfold is_u32 in Hu. lia.
Qed.

Section old.
Context {D : Type}.
Variable stream : Streaming D.
Variable cfg : Config.

(** The reader takes the fragment for one of an earlier log. *)
Lemma read_body_old log begin end_ payload b (r : Reader D) : let t := fragment_type true begin end_ in
  2 ^ 32 <= log -> log_number cfg = log -> is_bytes payload -> size payload < 65536 ->
  buffer r = physical log t payload ++ b ->
  read_body stream cfg r t (size payload) (header_size true) = (set_buffer r b, mkPhysical kOldRecord [] 0).
Proof.
  intros t Hl Hcfg Hp Hn Eb. unfold t in *. pose proof (physical_size true log begin end_ payload) as Hs.
  destruct (physical_eq true log begin end_ payload Hp Hn) as (c0 & c1 & c2 & c3 & Ec & Ephys).
  pose proof (header_size_bounds true). pose proof (size_nonneg payload).
  unfold read_body. cbv zeta. rewrite Eb, Hcfg.
  replace (size (physical log (fragment_type true begin end_) payload ++ b) <? header_size true + size payload) with false
    by (symmetry; apply Z.ltb_ge; unfold size in *; rewrite length_app; lia).
  rewrite (drop_app_length' (physical log _ payload) b (Z.to_nat (header_size true + size payload)))
    by (unfold size in *; lia).
  rewrite Ephys, <- !app_assoc, (drop_app_length' (_ :: _)), is_recyclable_fragment by done.
  by rewrite (proj2 (Z.eqb_neq _ _) (decode_old_number log (payload ++ b) Hl)).
Qed.

Lemma read_old mode log rec rs : 2 ^ 32 <= log -> log_number cfg = log -> is_bytes rec ->
  mode <> kSkipAnyCorruptedRecords ->
  exists r', ReadRecord stream cfg 1 mode (new_reader (image true log 0 (rec :: rs)) []) = Some (r', None) /\
    (mode <> kPointInTimeRecovery -> reports r' = []).
Proof.
  intros Hl Hcfg Hb Hmode. set (f := image true log 0 (rec :: rs)). pose proof kBlockSize_bounds.
  destruct (skip_trailer stream cfg kBlockSize f (new_reader f []) (new_reader_synced f)) as (r1 & E1 & Hs1 & [Hq Hfr] & Hrec);
    [done|done|]. change (file (new_reader f [])) with f in Hs1.
  set (n := size rec `min` (kBlockSize - 0 - header_size true)).
  set (end_ := size rec =? n). set (payload := take (Z.to_nat n) rec).
  assert (exists tl, f = physical log (fragment_type true true end_) payload ++ tl) as [tl Ef].
  { unfold f. cbn [image]. unfold record_layout. replace (length rec + 2)%nat with (S (S (length rec))) by lia.
    generalize (S (length rec)) as k. intros k. cbn [layout].
    change (kBlockSize - 0 <? header_size true) with false. cbv iota. fold n. fold end_. fold payload.
    destruct (0 <? _); [destruct (layout _ _ _ _ _ _)|]; cbn [app]; rewrite <- ?app_assoc; by eexists. }
  assert (size payload <= kBlockSize - 11) as Hn.
  { unfold payload, size in *. rewrite length_take. change (header_size true) with 11 in n. unfold n. lia. }
  assert (is_bytes payload) as Hp by by apply Forall_take.
  pose proof (physical_size true log true end_ payload) as Hps. change (header_size true) with 11 in Hps.
  rewrite Ef in Hs1. destruct (synced_buffer _ _ _ _ Hs1) as (b & Eb & _); [lia|].
  destruct (accept_spec true r1) as (_ & _ & Ebuf & _).
  assert (ReadPhysicalRecord stream cfg (new_reader f []) =
    Some (set_buffer (accept true r1) b, mkPhysical kOldRecord [] 0)) as E.
  { unfold ReadPhysicalRecord. rewrite E1.
    rewrite (physical_round stream cfg true log 1 true end_ payload (length (physical log (fragment_type true true end_) payload)) b);
      [|done|lia|by intros _; unfold stuck; rewrite Hfr| |by right; apply take_ge|].
    - f_equal. apply (read_body_old log); [done|done|done|lia|]. by rewrite Ebuf.
    - rewrite take_ge by reflexivity. done.
    - rewrite Eb. unfold size in *. rewrite length_app. change (header_size true) with 11. lia. }
  unfold ReadRecord. cbn [new_reader uncompressor fmap option_fmap option_map].
  change (set_uncompressor (new_reader f []) None) with (new_reader (D := D) f []). cbn [record_loop]. rewrite E.
  cbn [mbind option_bind]. unfold dispatch. cbn [result_type]. cbn -[bool_decide].
  unfold old_record. cbn [in_fragmented_record]. rewrite bool_decide_false by done. cbn [negb].
  eexists. split; [reflexivity|]. intros Hpit. rewrite bool_decide_false by done. exact Hq.
Qed.

End old.

(** ** A recyclable record in a log that is not recycled *)

(** No amount of fuel is enough. *)
Definition hangs {D} (stream : Streaming D) cfg mode r : Prop := forall fuel, ReadRecord stream cfg fuel mode r = None.

Lemma reader_hangs_gen {D} (stream : Streaming D) cfg mode log rec tail : is_bytes rec ->
  14 + size rec <= kBlockSize -> 7 <= size tail -> is_recyclable_type (nth 6 tail 0) = true ->
  exists n r', (forall fuel, (n <= fuel)%nat ->
      ReadRecord stream cfg fuel mode (new_reader (image false log 0 [rec] ++ tail) []) = Some (r', Some rec)) /\
    hangs stream cfg mode r'.
Proof.
  intros Hb Hfit Ht Hty. set (f := image false log 0 [rec] ++ tail). pose proof kBlockSize_bounds.
  assert (exists bytes, layout (length rec + 2) false log kBlockSize true rec = (bytes, 7 + size rec) /\ f = bytes ++ tail)
    as (bytes & El & Ef).
  { exists (physical log (fragment_type false true true) rec). unfold f. cbn [image]. unfold record_layout.
    destruct (layout_start false log (length rec + 2) true rec) as [-> | ?]; [|lia].
    replace (length rec + 2)%nat with (S (S (length rec))) by lia. generalize (S (length rec)) as k. intros k.
    cbn [layout]. change (kBlockSize - 0 <? header_size false) with false. cbv iota.
    rewrite Z.min_l by (change (header_size false) with 7; lia). rewrite Z.eqb_refl. unfold size.
    rewrite Nat2Z.id, drop_all, take_ge by lia. change (0 <? Z.of_nat (length [])) with false.
    cbv iota. change (header_size false) with 7. by rewrite Z.add_0_l, app_nil_r. }
  pose proof (read_layout stream cfg false log ltac:(by intros ?) mode (length rec + 2) kBlockSize true rec tail f
    (set_uncompressor (new_reader f []) (ResetStream stream <$> None)) (mkPending false [] 0) (Nat.le_refl _) ltac:(lia)
    Hb (synced_reset stream _ _ _ (new_reader_synced f)) ltac:(by intros ?) eq_refl) as Hl.
  rewrite El, Ef in Hl. destruct (Hl ltac:(done)) as [[Hsz _]|(c & r' & Ec & _ & [n Hn] & Hs & _ & Hf & Hrec)].
  { unfold size in Hsz. rewrite length_app in Hsz. lia. }
  apply app_inv_head in Ec as <-. exists n, r'. rewrite Ef. split; [exact Hn|]. intros fuel.
  rewrite <- (take_drop 7 tail) in Hs. destruct (synced_buffer _ _ _ _ Hs) as (b & Eb & _).
  { unfold size in *. rewrite length_take. lia. }
  assert (length (take 7 tail) = 7%nat) as E7 by (unfold size in Ht; rewrite length_take; lia).
  unfold ReadRecord. apply stuck_loop; cbn.
  - unfold stuck. cbn. by rewrite Hf, Hrec.
  - rewrite Eb. unfold size, kHeaderSize. rewrite length_app. lia.
  - rewrite Eb, app_nth1 by lia. rewrite <- (firstn_skipn 7 tail), app_nth1 in Hty by (change firstn with (@take Z); lia).
    done.
Qed.

(** ** A file with scheduled failures *)

Record Faulty := mkFaulty { data : list Z; failed : bool; schedule : list bool }.

#[global] Instance Faulty_writer : FileWriter Faulty := {
  contents := data;
  flushed := data;
  seen_error := failed;
  Append f d :=
    if failed f || default false (head (schedule f)) then (mkFaulty (data f ++ take 9 d) true (tail (schedule f)), false)
    else (mkFaulty (data f ++ d) false (tail (schedule f)), true);
  Flush f := if failed f then (f, false) else (f, true);
}.

#[global] Instance Faulty_laws : FileWriterLaws Faulty.
Proof.
  split; cbn.
  - done.
  - intros [l [|] s] d f'; cbn; [done|]. destruct (default _ _); [done|]. intros [= <-]. cbn.
    split_and!; try done. by apply prefix_app_r.
  - intros [l b s] d f'. cbn. destruct (b || _); [|done]. intros [= <-]. cbn.
    split_and!; [done|by apply prefix_app_r|apply prefix_app, prefix_take].
  - intros [l [|] s] f'; cbn; [done|]. by intros [= <-].
  - intros [l [|] s] f'; cbn; [|done]. by intros [= <-].
Qed.

(** ** Claims *)

(** C9: Whatever errors the file reports, a log whose records were added one after the other
    and flushed is read back as a prefix of them that has every record whose addition
    succeeded, and at most one more, in every recovery mode; the modes that tolerate an
    incomplete tail report nothing. *)
Theorem log_durable {F} `{FileWriterLaws F} {D} (stream : Streaming D) cfg mode f recycle log track l :
  seen_error f = false -> contents f = [] -> Forall is_bytes l.*1 ->
  log_fits cfg recycle log ->
  exists w' a n m r', AddRecords (new_writer f log recycle false track) l =
      Some (w', replicate a true ++ replicate (length l - a) false) /\
    (forall fuel, (n <= fuel)%nat ->
      read_all stream cfg fuel fuel mode (new_reader (flushed (dest w')) []) = Some (r', take m l.*1)) /\
    (a <= m <= S a)%nat /\ (strict mode = false -> reports r' = []).
Proof. apply AddRecords_read. Qed.

Lemma log_durable_witness :
  exists w' a n m r', AddRecords (new_writer (mkFaulty [] false [false; false; false; true]) 5 true false false)
      [([1; 2; 3], 1); ([4; 5], 2); ([6], 3)] = Some (w', replicate a true ++ replicate (3 - a) false) /\
    (forall fuel, (n <= fuel)%nat ->
      read_all no_stream (plain_config 5) fuel fuel kTolerateCorruptedTailRecords (new_reader (flushed (dest w')) []) =
        Some (r', take m [[1; 2; 3]; [4; 5]; [6]])) /\
    (a <= m <= S a)%nat /\ (strict kTolerateCorruptedTailRecords = false -> reports r' = []).
Proof.
  apply (log_durable no_stream (plain_config 5) kTolerateCorruptedTailRecords (mkFaulty [] false [false; false; false; true])
    true 5 false [([1; 2; 3], 1); ([4; 5], 2); ([6], 3)]); [done|done|by apply (bool_decide_unpack _)|done].
Defined.

(** From a log cut off at any byte exactly the records are read that are complete in it,
    and nothing is reported when the cut is between two records, or in a tolerant mode. *)
Theorem log_prefix {D} (stream : Streaming D) cfg recycle log mode rs rem :
  log_fits cfg recycle log -> Forall is_bytes rs ->
  rem `prefix_of` image recycle log 0 rs ->
  exists n m r', (forall fuel, (n <= fuel)%nat ->
      read_all stream cfg fuel fuel mode (new_reader rem []) = Some (r', take m rs)) /\
    size (image recycle log 0 (take m rs)) <= size rem /\ (m <= length rs)%nat /\
    ((m < length rs)%nat -> size rem < size (image recycle log 0 (take (S m) rs))) /\
    (strict mode = false \/ rem = image recycle log 0 (take m rs) -> reports r' = []).
Proof. intros Hlog. by apply read_image_new. Qed.

Lemma log_prefix_witness :
  let rem := take 12 (image false 0 0 [[1; 2; 3]; [4; 5]]) in
  exists n m r', (forall fuel, (n <= fuel)%nat ->
      read_all no_stream (plain_config 0) fuel fuel kAbsoluteConsistency (new_reader rem []) =
        Some (r', take m [[1; 2; 3]; [4; 5]])) /\
    size (image false 0 0 (take m [[1; 2; 3]; [4; 5]])) <= size rem /\ (m <= 2)%nat /\
    ((m < 2)%nat -> size rem < size (image false 0 0 (take (S m) [[1; 2; 3]; [4; 5]]))) /\
    (strict kAbsoluteConsistency = false \/ rem = image false 0 0 (take m [[1; 2; 3]; [4; 5]]) -> reports r' = []).
Proof.
  apply (log_prefix no_stream (plain_config 0) false 0 kAbsoluteConsistency [[1; 2; 3]; [4; 5]]); [done| |apply prefix_take].
  by apply (bool_decide_unpack _).
Defined.

(** C28: In a log that is not recycled, a header with a recyclable type after the first record
    makes [ReadRecord] loop forever, in every recovery mode and whatever the checksum. *)
Theorem reader_hangs {D} (stream : Streaming D) cfg mode log rec tail : is_bytes rec ->
  14 + size rec <= kBlockSize -> 7 <= size tail -> is_recyclable_type (nth 6 tail 0) = true ->
  exists n r', (forall fuel, (n <= fuel)%nat ->
      ReadRecord stream cfg fuel mode (new_reader (image false log 0 [rec] ++ tail) []) = Some (r', Some rec)) /\
    hangs stream cfg mode r'.
Proof. apply reader_hangs_gen. Qed.

Lemma reader_hangs_witness : exists n r', (forall fuel, (n <= fuel)%nat ->
    ReadRecord no_stream (plain_config 0) fuel kAbsoluteConsistency
      (new_reader (image false 0 0 [[1; 2; 3]] ++ [0; 0; 0; 0; 0; 0; 5]) []) = Some (r', Some [1; 2; 3])) /\
  hangs no_stream (plain_config 0) kAbsoluteConsistency r'.
Proof. apply (reader_hangs no_stream); [by apply (bool_decide_unpack _)|done..]. Defined.

(** A recycled log whose number does not fit 32 bits is taken for an old one: no record
    of it is read, and most modes report nothing. *)
Theorem recycled_log_number {D} (stream : Streaming D) cfg mode log rec rs :
  2 ^ 32 <= log -> log_number cfg = log -> is_bytes rec -> mode <> kSkipAnyCorruptedRecords ->
  exists r', ReadRecord stream cfg 1 mode (new_reader (image true log 0 (rec :: rs)) []) = Some (r', None) /\
    (mode <> kPointInTimeRecovery -> reports r' = []).
Proof. apply read_old. Qed.

Lemma recycled_log_number_witness : exists r',
  ReadRecord no_stream (plain_config (2 ^ 32 + 7)) 1 kAbsoluteConsistency
    (new_reader (image true (2 ^ 32 + 7) 0 [[1; 2; 3]]) []) = Some (r', None) /\
  (kAbsoluteConsistency <> kPointInTimeRecovery -> reports r' = []).
Proof. apply (recycled_log_number no_stream); [lia|done|by apply (bool_decide_unpack _)|done]. Defined.

End Log.
