(* ===== verification/Recover.v ===== *)
(** * Recovery from the MANIFEST

    [VersionEditHandlerBase::Iterate] and [VersionEditHandler] of
    [db/version_edit_handler.cc], with [AtomicGroupReadBuffer], [CreateColumnFamily],
    [RecoverEpochNumbers] and the counters of [VersionSet] they change
    ([db/version_set.cc], [db/column_family.h], [db/column_family.cc]) and the
    validation of timestamp options ([util/udt_util.cc]).

    A column family that is dropped is destroyed, so the set has the ones that are not
    dropped, with the order of the linked list beside the map.  What is not in the
    sources of the handler is an argument: the options of the column families, their
    comparators, and the outcome of [LoadTableHandlers], which opens tables.  A result
    [None] is undefined behaviour of the builder, or a log reader that does not return
    with the given fuel. *)

From Stdlib Require Import ZArith Lia.
From stdpp Require Import base numbers list sorting gmap sets.
From S2P Require Import Prelude Version Coding WalEdit FileCodec EditCodec LogWriter LogReader Log Storage Builder BuilderSpec BuilderSave Build.

Import Coding FileCodec LogReader Storage Builder.
Local Open Scope Z_scope.

Module Recover.

Abbreviation VersionEdit := EditCodec.VersionEdit.

(** ** Column families and the version set *)

(** The options of a column family; the comparator with its name, the size of its
    timestamps and [CompareTimestamp]. *)
Record CfOptions := mkCfOptions {
  opt_num_levels : nat;
  opt_comparator : Comparator;
  opt_comparator_name : list Z;
  opt_timestamp_size : nat;
  opt_compare_timestamp : list Z -> list Z -> Z;
  opt_persist_timestamps : bool;
  opt_allow_ingest_behind : bool;
  opt_builder : Options;
}.

Record ColumnFamilyData := mkCfd {
  cf_name : list Z;
  cf_options : CfOptions;
  cf_log_number : Z;
  cf_full_history_ts_low : list Z;
  cf_next_epoch_number : Z;
  cf_current : VersionStorageInfo;
}.

Definition set_cf_log_number (n : Z) (c : ColumnFamilyData) : ColumnFamilyData :=
  mkCfd (cf_name c) (cf_options c) n (cf_full_history_ts_low c) (cf_next_epoch_number c) (cf_current c).
Definition set_cf_ts_low (ts : list Z) (c : ColumnFamilyData) : ColumnFamilyData :=
  mkCfd (cf_name c) (cf_options c) (cf_log_number c) ts (cf_next_epoch_number c) (cf_current c).
Definition set_cf_current (epoch : Z) (v : VersionStorageInfo) (c : ColumnFamilyData) : ColumnFamilyData :=
  mkCfd (cf_name c) (cf_options c) (cf_log_number c) (cf_full_history_ts_low c) epoch v.

Definition SetFullHistoryTsLow (ts_low : list Z) (c : ColumnFamilyData) : ColumnFamilyData :=
  if decide (opt_timestamp_size (cf_options c) = 0%nat) then c
  else if bool_decide (cf_full_history_ts_low c = [])
          || (0 <? opt_compare_timestamp (cf_options c) ts_low (cf_full_history_ts_low c))
  then set_cf_ts_low ts_low c
  else c.

(** The counters of a version set. *)
Record Counters := mkCounters {
  next_file_number : Z;
  min_log_number_to_keep : Z;
  prev_log_number : Z;
  last_allocated_sequence : Z;
  last_published_sequence : Z;
  last_sequence : Z;
  descriptor_last_sequence : Z;
  manifest_file_size : Z;
}.

Record VersionSet := mkVersionSet {
  column_families : gmap Z ColumnFamilyData;
  column_family_list : list Z;
  max_column_family : Z;
  wals : WalEdit.WalSet;
  db_id : list Z;
  counters : Counters;
}.

Definition set_column_families (m : gmap Z ColumnFamilyData) (vs : VersionSet) : VersionSet :=
  mkVersionSet m (column_family_list vs) (max_column_family vs) (wals vs) (db_id vs) (counters vs).
Definition set_wals (w : WalEdit.WalSet) (vs : VersionSet) : VersionSet :=
  mkVersionSet (column_families vs) (column_family_list vs) (max_column_family vs) w (db_id vs) (counters vs).
Definition set_db_id (i : list Z) (vs : VersionSet) : VersionSet :=
  mkVersionSet (column_families vs) (column_family_list vs) (max_column_family vs) (wals vs) i (counters vs).
Definition set_counters (c : Counters) (vs : VersionSet) : VersionSet :=
  mkVersionSet (column_families vs) (column_family_list vs) (max_column_family vs) (wals vs) (db_id vs) c.
Definition UpdateMaxColumnFamily (n : Z) (vs : VersionSet) : VersionSet :=
  mkVersionSet (column_families vs) (column_family_list vs) (Z.max n (max_column_family vs)) (wals vs) (db_id vs) (counters vs).

Definition on_family (id : Z) (g : ColumnFamilyData -> ColumnFamilyData) (vs : VersionSet) : VersionSet :=
  set_column_families (alter g id (column_families vs)) vs.

(** A version set after construction. *)
Definition new_version_set : VersionSet :=
  mkVersionSet ∅ [] 0 WalEdit.Reset [] (mkCounters 2 0 0 0 0 0 0 0).

(** The first version of a column family has no files. *)
Definition CreateColumnFamily (o : CfOptions) (e : VersionEdit) (vs : VersionSet) : VersionSet :=
  let id := EditCodec.column_family e in
  let c := mkCfd (default [] (EditCodec.column_family_add e)) o (default 0 (EditCodec.log_number e)) [] 1
             (new_storage (opt_num_levels o) None kMustPresent) in
  mkVersionSet (emplace id c (column_families vs)) (column_family_list vs ++ [id])
    (Z.max (max_column_family vs) id) (wals vs) (db_id vs) (counters vs).

(** [SetDropped] and the release of the last reference. *)
Definition DropColumnFamily (id : Z) (vs : VersionSet) : VersionSet :=
  mkVersionSet (delete id (column_families vs)) (filter (fun i => i <> id) (column_family_list vs))
    (max_column_family vs) (wals vs) (db_id vs) (counters vs).

Definition MarkFileNumberUsed (number : Z) (c : Counters) : Counters :=
  if next_file_number c <=? number
  then mkCounters (number +% 1) (min_log_number_to_keep c) (prev_log_number c) (last_allocated_sequence c)
         (last_published_sequence c) (last_sequence c) (descriptor_last_sequence c) (manifest_file_size c)
  else c.

Definition MarkMinLogNumberToKeep (number : Z) (c : Counters) : Counters :=
  if min_log_number_to_keep c <? number
  then mkCounters (next_file_number c) number (prev_log_number c) (last_allocated_sequence c)
         (last_published_sequence c) (last_sequence c) (descriptor_last_sequence c) (manifest_file_size c)
  else c.

(** ** Timestamp options *)

Inductive ToggleUDT := kUnchanged | kEnableUDT | kDisableUDT | kInvalidChange.

(** [".u64ts"] *)
Definition kUDTSuffix : list Z := [46; 117; 54; 52; 116; 115].

Definition CompareComparator (new_name old_name : list Z) : ToggleUDT :=
  if decide (new_name = old_name) then kUnchanged
  else if decide (new_name = old_name ++ kUDTSuffix) then kEnableUDT
  else if decide (old_name = new_name ++ kUDTSuffix) then kDisableUDT
  else kInvalidChange.

(** The status and [mark_sst_files_has_no_udt]. *)
Definition ValidateUserDefinedTimestampsOptions (o : CfOptions) (old_name : list Z) (old_persist : bool) : Status * bool :=
  match CompareComparator (opt_comparator_name o) old_name with
  | kUnchanged =>
    if Bool.eqb old_persist (opt_persist_timestamps o) || bool_decide (opt_timestamp_size o = 0%nat)
    then (OK, false) else (InvalidArgument, false)
  | kEnableUDT => if opt_persist_timestamps o then (InvalidArgument, false) else (OK, true)
  | kDisableUDT => if old_persist then (InvalidArgument, false) else (OK, false)
  | kInvalidChange => (InvalidArgument, false)
  end.

(** ** The handler *)

Definition kDefaultColumnFamilyName : list Z := [100; 101; 102; 97; 117; 108; 116].
Definition kPersistentStatsColumnFamilyName : list Z :=
  [95; 95; 95; 114; 111; 99; 107; 115; 100; 98; 95; 115; 116; 97; 116; 115; 95; 104; 105; 115; 116; 111; 114; 121; 95; 95; 95].

(** The arguments of the constructor, the options of the database, the options
    [OptimizeForPersistentStats] gives, and the outcome of [LoadTableHandlers] for a column
    family: its status, and whether this is [IOError::PathNotFound]. *)
Record Env := mkEnv {
  name_to_options : gmap (list Z) CfOptions;
  stats_options : CfOptions;
  unchanging : bool;
  epoch_number_requirement : EpochNumberRequirement;
  skip_load_table_files : bool;
  no_error_if_files_missing : bool;
  paranoid_checks : bool;
  load_table_handlers : Z -> Rep -> Status * bool;
  max_manifest_read_size : Z;
}.

(** [AtomicGroupReadBuffer] *)
Record ReadBuffer := mkBuffer {
  read_edits_in_atomic_group : Z;
  replay_buffer : list VersionEdit;
}.

Record Handler := mkHandler {
  version_set : VersionSet;
  builders : gmap Z Rep;
  do_not_open_column_families : gmap Z (list Z);
  version_edit_params : VersionEdit;
  cfds_to_mark_no_udt : gset Z;
  read_buffer : ReadBuffer;
}.

Definition set_version_set (vs : VersionSet) (h : Handler) : Handler :=
  mkHandler vs (builders h) (do_not_open_column_families h) (version_edit_params h) (cfds_to_mark_no_udt h) (read_buffer h).
Definition set_builders (b : gmap Z Rep) (h : Handler) : Handler :=
  mkHandler (version_set h) b (do_not_open_column_families h) (version_edit_params h) (cfds_to_mark_no_udt h) (read_buffer h).
Definition set_do_not_open (d : gmap Z (list Z)) (h : Handler) : Handler :=
  mkHandler (version_set h) (builders h) d (version_edit_params h) (cfds_to_mark_no_udt h) (read_buffer h).
Definition set_params (p : VersionEdit) (h : Handler) : Handler :=
  mkHandler (version_set h) (builders h) (do_not_open_column_families h) p (cfds_to_mark_no_udt h) (read_buffer h).
Definition set_no_udt (s : gset Z) (h : Handler) : Handler :=
  mkHandler (version_set h) (builders h) (do_not_open_column_families h) (version_edit_params h) s (read_buffer h).
Definition set_read_buffer (b : ReadBuffer) (h : Handler) : Handler :=
  mkHandler (version_set h) (builders h) (do_not_open_column_families h) (version_edit_params h) (cfds_to_mark_no_udt h) b.

Definition new_handler : Handler := mkHandler new_version_set ∅ ∅ EditCodec.empty_edit ∅ (mkBuffer 0 []).

(** *** Atomic groups *)

Definition IsInAtomicGroup (e : VersionEdit) : bool := bool_decide (is_Some (EditCodec.atomic_group e)).
Definition GetRemainingEntries (e : VersionEdit) : Z := default 0 (EditCodec.atomic_group e).

Definition IsFull (b : ReadBuffer) : bool := read_edits_in_atomic_group b =? Z.of_nat (length (replay_buffer b)).

Definition AddEdit (e : VersionEdit) (b : ReadBuffer) : Status * ReadBuffer :=
  if IsInAtomicGroup e then
    let buffer := match replay_buffer b with
                  | [] => replicate (Z.to_nat (u32 (GetRemainingEntries e + 1))) EditCodec.empty_edit
                  | l => l
                  end in
    let read := read_edits_in_atomic_group b +% 1 in
    if negb (read +% GetRemainingEntries e =? u32 (Z.of_nat (length buffer))) then (Corruption, mkBuffer read buffer)
    else (OK, mkBuffer read (<[Z.to_nat (read - 1) := e]> buffer))
  else match replay_buffer b with [] => (OK, b) | _ => (Corruption, b) end.

(** *** Column families *)

(** [do_not_open_cf] and [cf_in_builders] *)
Definition CheckColumnFamilyId (e : VersionEdit) (h : Handler) : bool * bool :=
  let id := EditCodec.column_family e in
  (bool_decide (is_Some (do_not_open_column_families h !! id)), bool_decide (is_Some (builders h !! id))).

Definition CreateCfAndInit (o : CfOptions) (e : VersionEdit) (h : Handler) : Handler :=
  let vs := CreateColumnFamily o e (version_set h) in
  let r := new_rep (new_storage (opt_num_levels o) None kMustPresent) in
  set_builders (emplace (EditCodec.column_family e) r (builders h)) (set_version_set vs h).

Definition DestroyCfAndCleanup (e : VersionEdit) (h : Handler) : Handler :=
  let id := EditCodec.column_family e in
  set_builders (delete id (builders h)) (set_version_set (DropColumnFamily id (version_set h)) h).

(** The handlers of an edit give their status and the column family they set [*cfd] to. *)
Definition Outcome : Type := option (Status * option Z * Handler).

Definition OnColumnFamilyAdd (env : Env) (e : VersionEdit) (h : Handler) : Outcome :=
  let '(do_not_open_cf, cf_in_builders) := CheckColumnFamilyId e h in
  let id := EditCodec.column_family e in
  let name := default [] (EditCodec.column_family_add e) in
  if cf_in_builders || do_not_open_cf then Some (Corruption, None, h)
  else if decide (name = kPersistentStatsColumnFamilyName)
  then Some (OK, Some id, CreateCfAndInit (stats_options env) e h)
  else match name_to_options env !! name with
       | None => Some (OK, None, set_do_not_open (<[id := name]> (do_not_open_column_families h)) h)
       | Some o => Some (OK, Some id, CreateCfAndInit o e h)
       end.

Definition OnColumnFamilyDrop (e : VersionEdit) (h : Handler) : Outcome :=
  let '(do_not_open_cf, cf_in_builders) := CheckColumnFamilyId e h in
  let id := EditCodec.column_family e in
  if cf_in_builders then Some (OK, None, DestroyCfAndCleanup e h)
  else if do_not_open_cf then Some (OK, None, set_do_not_open (delete id (do_not_open_column_families h)) h)
  else Some (Corruption, None, h).

Definition OnWalAddition (e : VersionEdit) (cfd : option Z) (h : Handler) : Outcome :=
  let '(s, w) := WalEdit.AddWals (EditCodec.wal_additions e) (wals (version_set h)) in
  Some (s, cfd, set_version_set (set_wals w (version_set h)) h).

Definition OnWalDeletion (e : VersionEdit) (cfd : option Z) (h : Handler) : Outcome :=
  let w := WalEdit.DeleteWalsBefore (EditCodec.wal_deletion e) (wals (version_set h)) in
  Some (OK, cfd, set_version_set (set_wals w (version_set h)) h).

(** *** File boundaries without timestamps *)

Definition kTypeRangeDeletion : Z := 0xF.
Definition kRangeTombstoneSentinel : Z := Version.PackSequenceAndType Version.kMaxSequenceNumber kTypeRangeDeletion.

Definition pad (byte : Z) (key : list Z) (ts_sz : nat) : list Z :=
  let user_key_size := (length key - Version.kNumInternalBytes)%nat in
  take user_key_size key ++ replicate ts_sz byte ++ drop user_key_size key.
Definition PadInternalKeyWithMinTimestamp : list Z -> nat -> list Z := pad 0.
Definition PadInternalKeyWithMaxTimestamp : list Z -> nat -> list Z := pad 255.

Fixpoint handle_boundaries (ts_sz : nat) (mark need : bool) (l : list (Z * FileMetaData)) : Status * list (Z * FileMetaData) :=
  match l with
  | [] => (OK, [])
  | (level, f) :: l' =>
    if user_defined_timestamps_persisted f && negb mark
    then (if need then Corruption else OK, l)
    else
      let f1 := if mark then set_persisted false f else f in
      let largest' := if footer (largest f) =? kRangeTombstoneSentinel then PadInternalKeyWithMaxTimestamp (largest f) ts_sz
                      else PadInternalKeyWithMinTimestamp (largest f) ts_sz in
      let f2 := set_bounds (PadInternalKeyWithMinTimestamp (smallest f) ts_sz) largest' f1 in
      let '(s, l2) := handle_boundaries ts_sz mark true l' in
      (s, (level, f2) :: l2)
  end.

Definition MaybeHandleFileBoundariesForNewFiles (e : VersionEdit) (id : Z) (o : CfOptions) (h : Handler) : Status * VersionEdit :=
  match EditCodec.new_files e, opt_timestamp_size o with
  | [], _ | _, O => (OK, e)
  | l, ts_sz =>
    let '(s, l') := handle_boundaries ts_sz (bool_decide (id ∈ cfds_to_mark_no_udt h)) false l in
    (s, EditCodec.set_new_files l' e)
  end.

(** *** Edits of a column family *)

(** With [force_create_version] the builder's version is installed first; the status of
    [SaveTo] is overwritten by that of [Apply]. *)
Definition MaybeCreateVersionBeforeApplyEdit (env : Env) (e : VersionEdit) (id : Z) (force_create_version : bool)
    (h : Handler) : option (Status * Handler) :=
  c ← column_families (version_set h) !! id;
  r ← builders h !! id;
  let C := opt_comparator (cf_options c) in
  let o := opt_builder (cf_options c) in
  let h1 :=
    if force_create_version then
      match SaveTo o r (new_storage (num_levels (cf_current c)) (Some (cf_current c)) (epoch_number_requirement env)) with
      | (OK, v) => set_version_set (on_family id (set_cf_current (cf_next_epoch_number c) v) (version_set h)) h
      | _ => h
      end
    else h in
  '(s, r') ← Apply o e r;
  Some (s, set_builders (<[id := r']> (builders h1)) h1).

Definition OnNonCfOperation (env : Env) (e : VersionEdit) (h : Handler) : Outcome :=
  let '(do_not_open_cf, cf_in_builders) := CheckColumnFamilyId e h in
  let id := EditCodec.column_family e in
  if do_not_open_cf then Some (OK, None, h)
  else if negb cf_in_builders then Some (Corruption, None, h)
  else
    c ← column_families (version_set h) !! id;
    match MaybeHandleFileBoundariesForNewFiles e id (cf_options c) h with
    | (OK, e') =>
      '(s, h') ← MaybeCreateVersionBeforeApplyEdit env e' id false h;
      Some (s, Some id, h')
    | (s, _) => Some (s, None, h)
    end.

(** Members of the edit that are set are copied to the parameters. *)
Definition param {A} (x : option A) (set : option A -> VersionEdit -> VersionEdit) (p : VersionEdit) : VersionEdit :=
  match x with Some _ => set x p | None => p end.

Definition extract_family (id : Z) (e : VersionEdit) (h : Handler) : Status * Handler :=
  let h1 :=
    match EditCodec.log_number e, column_families (version_set h) !! id with
    | Some n, Some c =>
      if n <? cf_log_number c then h
      else set_params (EditCodec.set_log_number (Some n) (version_edit_params h))
             (set_version_set (on_family id (set_cf_log_number n) (version_set h)) h)
    | _, _ => h
    end in
  let '(s, h2) :=
    match EditCodec.comparator e, column_families (version_set h) !! id with
    | Some old_name, Some c =>
      let '(s, mark) := ValidateUserDefinedTimestampsOptions (cf_options c) old_name
                          (default true (EditCodec.persist_user_defined_timestamps e)) in
      (s, if mark then set_no_udt ({[id]} ∪ cfds_to_mark_no_udt h1) h1 else h1)
    | _, _ => (OK, h1)
    end in
  let h3 := match EditCodec.full_history_ts_low e with
            | [] => h2
            | ts => set_version_set (on_family id (SetFullHistoryTsLow ts) (version_set h2)) h2
            end in
  (s, h3).

Definition extract_counters (e : VersionEdit) (p : VersionEdit) : VersionEdit :=
  let p := param (EditCodec.prev_log_number e) EditCodec.set_prev_log_number p in
  let p := param (EditCodec.next_file_number e) EditCodec.set_next_file_number p in
  let p := param (EditCodec.max_column_family e) EditCodec.set_max_column_family p in
  let p := match EditCodec.min_log_number_to_keep e with
           | Some n => EditCodec.set_min_log_number_to_keep
                         (Some (Z.max (default 0 (EditCodec.min_log_number_to_keep p)) n)) p
           | None => p
           end in
  let p := param (EditCodec.last_sequence e) EditCodec.set_last_sequence p in
  match EditCodec.prev_log_number p with None => EditCodec.set_prev_log_number (Some 0) p | Some _ => p end.

Definition ExtractInfoFromVersionEdit (cfd : option Z) (e : VersionEdit) (h : Handler) : Status * Handler :=
  let h1 := match EditCodec.db_id e with
            | Some i => set_params (EditCodec.set_db_id (Some i) (version_edit_params h))
                          (set_version_set (set_db_id i (version_set h)) h)
            | None => h
            end in
  let '(s, h2) := match cfd with Some id => extract_family id e h1 | None => (OK, h1) end in
  match s with
  | OK => (OK, set_params (extract_counters e (version_edit_params h2)) h2)
  | _ => (s, h2)
  end.

Definition IsWalAddition (e : VersionEdit) : bool := bool_decide (EditCodec.wal_additions e <> []).
Definition IsWalDeletion (e : VersionEdit) : bool := negb (WalEdit.WalDeletion_IsEmpty (EditCodec.wal_deletion e)).

Definition on_edit (env : Env) (e : VersionEdit) (cfd : option Z) (h : Handler) : Outcome :=
  if bool_decide (is_Some (EditCodec.column_family_add e)) then OnColumnFamilyAdd env e h
  else if EditCodec.column_family_drop e then OnColumnFamilyDrop e h
  else if IsWalAddition e then OnWalAddition e cfd h
  else if IsWalDeletion e then OnWalDeletion e cfd h
  else OnNonCfOperation env e h.

Definition ApplyVersionEdit (env : Env) (e : VersionEdit) (cfd : option Z) (h : Handler) : Outcome :=
  '(s, cfd', h') ← on_edit env e cfd h;
  match s with
  | OK => let '(s', h'') := ExtractInfoFromVersionEdit cfd' e h' in Some (s', cfd', h'')
  | _ => Some (s, cfd', h')
  end.

(** *** The loop over the records *)

Definition Initialize (env : Env) (h : Handler) : Status * Handler :=
  match name_to_options env !! kDefaultColumnFamilyName with
  | None => (InvalidArgument, h)
  | Some o =>
    (OK, CreateCfAndInit o
           (EditCodec.set_column_family 0 (EditCodec.set_column_family_add (Some kDefaultColumnFamilyName) EditCodec.empty_edit)) h)
  end.

(** The edits of a complete group; [cfd] lives for the whole group. *)
Fixpoint replay_group (env : Env) (l : list VersionEdit) (cfd : option Z) (h : Handler) : option (Status * Handler) :=
  match l with
  | [] => Some (OK, h)
  | e :: l' =>
    '(s, cfd', h') ← ApplyVersionEdit env e cfd h;
    match s with OK => replay_group env l' cfd' h' | _ => Some (s, h') end
  end.

(** One record of the MANIFEST. *)
Definition on_record (env : Env) (record : list Z) (h : Handler) : option (Status * Handler) :=
  match EditCodec.DecodeFrom record with
  | inl s => Some (s, h)
  | inr e =>
    let '(s, b) := AddEdit e (read_buffer h) in
    let h1 := set_read_buffer b h in
    match s with
    | OK =>
      if IsInAtomicGroup e then
        if IsFull b then
          '(s, h2) ← replay_group env (replay_buffer b) None h1;
          match s with OK => Some (OK, set_read_buffer (mkBuffer 0 []) h2) | _ => Some (s, h2) end
        else Some (OK, h1)
      else
        '(s, _, h2) ← ApplyVersionEdit env e None h1;
        Some (s, h2)
    | _ => Some (s, h1)
    end
  end.

(** [LogReporter]: the status of the first corruption that is reported. *)
Definition report_status (x : report) : option Status :=
  match x with
  | Corrupted _ ReadFailed _ => Some IOError
  | Corrupted _ _ _ => Some Corruption
  | OldLogRecord _ => None
  end.

Definition log_read_status {D} (r : Reader D) : Status := default OK (head (omap report_status (reports r))).

Section iterate.
Context {D : Type} (stream : Streaming D) (cfg : Config) (fuel : nat) (env : Env).

(** The loop of [Iterate]; [n] bounds the number of records. *)
Fixpoint iterate_loop (n : nat) (s : Status) (h : Handler) (r : Reader D) : option (Status * Handler * Reader D) :=
  match n with
  | O => None
  | S n' =>
    if negb (LastRecordEnd r <? max_manifest_read_size env) then Some (s, h, r)
    else match s with
    | OK =>
      '(r', x) ← ReadRecord stream cfg fuel kTolerateCorruptedTailRecords r;
      match x, log_read_status r' with
      | Some record, OK => '(s', h') ← on_record env record h; iterate_loop n' s' h' r'
      | _, _ => Some (OK, h, r')
      end
    | _ => Some (s, h, r)
    end
  end.

(** *** The end of the recovery *)

Definition LoadTables (id : Z) (h : Handler) : Status * bool :=
  match builders h !! id with
  | Some b =>
    if skip_load_table_files env then (OK, false)
    else
      let '(s, path_not_found) := load_table_handlers env id b in
      if (path_not_found || bool_decide (s = Corruption)) && no_error_if_files_missing env then (OK, false)
      else if negb (bool_decide (s = OK)) && negb (paranoid_checks env) then (OK, false)
      else (s, path_not_found)
  | None => (OK, false)
  end.

(** A loop over the column families that stops at the first that is not OK. *)
Fixpoint each_family (op : Z -> Handler -> option (Status * Handler)) (l : list Z) (h : Handler) : option (Status * Handler) :=
  match l with
  | [] => Some (OK, h)
  | id :: l' => '(s, h') ← op id h; match s with OK => each_family op l' h' | _ => Some (s, h') end
  end.

Definition check_num_levels (id : Z) (h : Handler) : option (Status * Handler) :=
  r ← builders h !! id; Some (if CheckConsistencyForNumLevels r then OK else InvalidArgument, h).

Definition load_tables (id : Z) (h : Handler) : option (Status * Handler) :=
  let '(s, path_not_found) := LoadTables id h in
  Some (if negb (bool_decide (s = OK)) && path_not_found then Corruption else s, h).

Definition create_version (id : Z) (h : Handler) : option (Status * Handler) :=
  MaybeCreateVersionBeforeApplyEdit env EditCodec.empty_edit id true h.

(** The counters of the version set after a recovery. *)
Definition mark_counters (p : VersionEdit) (c : Counters) : Counters :=
  let n := default 0 in
  MarkFileNumberUsed (n (EditCodec.log_number p)) (MarkFileNumberUsed (n (EditCodec.prev_log_number p))
    (MarkMinLogNumberToKeep (n (EditCodec.min_log_number_to_keep p)) c)).

Definition recovered_counters (p : VersionEdit) (offset : Z) (c : Counters) : Counters :=
  let last_seq := default 0 (EditCodec.last_sequence p) in
  let up x := if negb (last_seq =? Version.kMaxSequenceNumber) && (x <? last_seq) then last_seq else x in
  mkCounters (default 0 (EditCodec.next_file_number p) +% 1) (min_log_number_to_keep c) (default 0 (EditCodec.prev_log_number p))
    (up (last_allocated_sequence c)) (up (last_published_sequence c)) (up (last_sequence c)) (up (descriptor_last_sequence c)) offset.

Definition on_set (g : VersionSet -> VersionSet) (h : Handler) : Handler := set_version_set (g (version_set h)) h.

Definition CheckIterationResult (offset : Z) (s : Status) (h : Handler) : option (Status * Handler) :=
  let p := version_edit_params h in
  let has {A} (x : option A) := bool_decide (is_Some x) in
  match s with
  | OK =>
    if negb (has (EditCodec.log_number p) && has (EditCodec.next_file_number p) && has (EditCodec.last_sequence p))
    then Some (Corruption, h)
    else if negb (unchanging env) && negb (bool_decide (do_not_open_column_families h = ∅)) then Some (InvalidArgument, h)
    else
      let h := on_set (fun vs => set_counters (mark_counters p (counters vs))
                                   (UpdateMaxColumnFamily (default 0 (EditCodec.max_column_family p)) vs)) h in
      let l := column_family_list (version_set h) in
      '(s, h) ← each_family check_num_levels l h;
      match s with
      | OK =>
        '(s, h) ← each_family load_tables l h;
        match s with
        | OK =>
          '(s, h) ← each_family create_version l h;
          match s with
          | OK => Some (OK, on_set (fun vs => set_counters (recovered_counters p offset (counters vs)) vs) h)
          | _ => Some (s, h)
          end
        | _ => Some (s, h)
        end
      | _ => Some (s, h)
      end
  | _ => Some (s, h)
  end.

Definition Iterate (n : nat) (r : Reader D) (h : Handler) : option (Status * Handler * Reader D) :=
  let '(s, h) := Initialize env h in
  '(s, h, r) ← iterate_loop n s h r;
  let s := match s with OK => log_read_status r | _ => s end in
  '(s, h) ← CheckIterationResult (end_of_buffer_offset r) s h;
  Some (s, h, r).

End iterate.

(** ** Epoch numbers *)

Definition GetMaxEpochNumberOfFiles (v : VersionStorageInfo) : Z :=
  foldl (fun m f => Z.max m (epoch_number f)) kUnknownEpochNumber (concat (files_ v)).

(** New numbers for the levels from the last to the first, then for the files of level 0
    from the oldest to the newest. *)
Fixpoint renumber_levels (ls : list (list FileMetaData)) (next : Z) : list (list FileMetaData) * Z :=
  match ls with
  | [] => ([], next)
  | l :: ls' =>
    let '(ls2, next') := renumber_levels ls' next in
    match l with
    | [] => ([] :: ls2, next')
    | _ => ((set_epoch next' <$> l) :: ls2, next' +% 1)
    end
  end.

Fixpoint renumber_level0 (l : list FileMetaData) (next : Z) : list FileMetaData * Z :=
  match l with
  | [] => ([], next)
  | f :: l' => let '(l2, next') := renumber_level0 l' next in (set_epoch next' f :: l2, next' +% 1)
  end.

Definition RecoverEpochNumbers (c : ColumnFamilyData) : ColumnFamilyData :=
  let v := cf_current c in
  let next := if opt_allow_ingest_behind (cf_options c) then 2 else 1 in
  if HasMissingEpochNumber v then
    match files_ v with
    | [] => set_cf_current next v c
    | l0 :: ls =>
      let '(ls2, next2) := renumber_levels ls next in
      let '(l02, next3) := renumber_level0 l0 next2 in
      set_cf_current next3 (mkStorage (l02 :: ls2) (file_locations_ v) (blob_files_ v) (compact_cursor_ v) kMustPresent) c
    end
  else set_cf_current (Z.max (GetMaxEpochNumberOfFiles v +% 1) next) v c.

(** [VersionSet::Recover] from the reader of the MANIFEST on. *)
Definition Recover {D} (stream : Streaming D) (cfg : Config) (env : Env) (fuel : nat) (r : Reader D) : option (Status * VersionSet) :=
  '(s, h, _) ← Iterate stream cfg fuel env fuel r new_handler;
  match s with
  | OK => Some (OK, set_column_families (RecoverEpochNumbers <$> column_families (version_set h)) (version_set h))
  | _ => Some (s, version_set h)
  end.

End Recover.
