(* ===== verification/Replay.v ===== *)
(** * Replaying records

    What [Recover.Iterate] does with the records of a MANIFEST: records that decode to
    edits outside atomic groups are applied one after the other, a complete group is
    applied as a whole, and of an incomplete group at the end nothing is applied.  The
    loop over the log reader is the replay of the records the reader delivers. *)

From Stdlib Require Import ZArith Lia.
From stdpp Require Import base numbers list sorting gmap sets.
From S2P Require Import Prelude Version Coding WalEdit FileCodec EditCodec LogWriter LogReader Log Storage Builder BuilderSpec BuilderSave Build Recover.

Import Coding FileCodec LogReader Storage Builder Recover.
Local Open Scope Z_scope.

Module Replay.

(** ** Series of records and edits *)

Fixpoint replay_records (env : Env) (recs : list (list Z)) (h : Handler) : option (Status * Handler) :=
  match recs with
  | [] => Some (OK, h)
  | rec :: recs' => '(s, h') ← on_record env rec h; match s with OK => replay_records env recs' h' | _ => Some (s, h') end
  end.

Fixpoint replay_edits (env : Env) (l : list VersionEdit) (h : Handler) : option (Status * Handler) :=
  match l with
  | [] => Some (OK, h)
  | e :: l' => '(s, _, h') ← ApplyVersionEdit env e None h; match s with OK => replay_edits env l' h' | _ => Some (s, h') end
  end.

(** The records decode to the edits. *)
Definition decodes (recs : list (list Z)) (l : list VersionEdit) : Prop :=
  Forall2 (fun rec e => EditCodec.DecodeFrom rec = inr e) recs l.

Lemma replay_records_app env r1 r2 h h1 : replay_records env r1 h = Some (OK, h1) ->
  replay_records env (r1 ++ r2) h = replay_records env r2 h1.
Proof.
  revert h. induction r1 as [|rec r1 IH]; intros h; cbn; [by intros [= ->]|].
  destruct (on_record env rec h) as [[s h']|]; cbn; [|done]. destruct s; first [done|apply IH].
Qed.

Lemma replay_edits_app env l1 l2 h h1 : replay_edits env l1 h = Some (OK, h1) ->
  replay_edits env (l1 ++ l2) h = replay_edits env l2 h1.
Proof.
  revert h. induction l1 as [|e l1 IH]; intros h; cbn; [by intros [= ->]|].
  destruct (ApplyVersionEdit env e None h) as [[[s c] h']|]; cbn; [|done]. destruct s; first [done|apply IH].
Qed.

(** ** The read buffer is not used by the edits *)

Definition with_buffer (b : ReadBuffer) (x : Outcome) : Outcome := (fun '(s, c, h) => (s, c, set_read_buffer b h)) <$> x.

Lemma extract_family_buffer id e b h : extract_family id e (set_read_buffer b h) =
  let '(s, h') := extract_family id e h in (s, set_read_buffer b h').
Proof. destruct h. unfold extract_family. cbn. repeat (case_match; simplify_eq/=; try done). Qed.

Lemma Extract_buffer cfd e b h : ExtractInfoFromVersionEdit cfd e (set_read_buffer b h) =
  let '(s, h') := ExtractInfoFromVersionEdit cfd e h in (s, set_read_buffer b h').
Proof.
  unfold ExtractInfoFromVersionEdit. destruct cfd as [id|].
  - assert (forall h, (match EditCodec.db_id e with
            | Some i => set_params (EditCodec.set_db_id (Some i) (version_edit_params (set_read_buffer b h)))
                          (set_version_set (set_db_id i (version_set (set_read_buffer b h))) (set_read_buffer b h))
            | None => set_read_buffer b h end) = set_read_buffer b (match EditCodec.db_id e with
            | Some i => set_params (EditCodec.set_db_id (Some i) (version_edit_params h)) (set_version_set (set_db_id i (version_set h)) h)
            | None => h end)) as -> by (intros; by case_match).
    rewrite extract_family_buffer. destruct (extract_family id e _) as [s h']. by destruct s.
  - by case_match.
Qed.

Lemma MaybeCreate_buffer env e id force b h : MaybeCreateVersionBeforeApplyEdit env e id force (set_read_buffer b h) =
  (fun '(s, h') => (s, set_read_buffer b h')) <$> MaybeCreateVersionBeforeApplyEdit env e id force h.
Proof.
  unfold MaybeCreateVersionBeforeApplyEdit. cbn [version_set builders set_read_buffer].
  destruct (column_families _ !! id) as [c|]; [|done]. destruct (builders h !! id) as [r|]; [|done]. cbn [mbind option_bind].
  destruct (Apply _ e r) as [[s r']|]; [|done]. cbn [mbind option_bind fmap option_fmap option_map].
  destruct force; [|done]. by destruct (SaveTo _ r _) as [[] v].
Qed.

Lemma ApplyVersionEdit_buffer env e cfd b h :
  ApplyVersionEdit env e cfd (set_read_buffer b h) = with_buffer b (ApplyVersionEdit env e cfd h).
Proof.
  unfold ApplyVersionEdit. 
  match goal with |- ?x ≫= _ = with_buffer b (?y ≫= _) => assert (x = with_buffer b y) as -> end.
  { unfold on_edit. destruct (bool_decide _); [|destruct (EditCodec.column_family_drop e); [|destruct (IsWalAddition e); [|destruct (IsWalDeletion e)]]].
    - unfold OnColumnFamilyAdd. cbn. repeat case_match; done.
    - unfold OnColumnFamilyDrop. cbn. repeat case_match; done.
    - unfold OnWalAddition. cbn. by destruct (WalEdit.AddWals _ _).
    - done.
    - unfold OnNonCfOperation. cbn [CheckColumnFamilyId set_read_buffer builders do_not_open_column_families version_set].
      repeat case_match; try done. destruct (column_families _ !! _) as [c|]; [|done]. cbn [mbind option_bind].
      unfold MaybeHandleFileBoundariesForNewFiles at 1. cbn [cfds_to_mark_no_udt set_read_buffer].
      fold (MaybeHandleFileBoundariesForNewFiles e (EditCodec.column_family e) (cf_options c) h).
      destruct (MaybeHandleFileBoundariesForNewFiles _ _ _ _) as [[] e']; try done. rewrite MaybeCreate_buffer.
      by destruct (MaybeCreateVersionBeforeApplyEdit _ _ _ _ _) as [[s h']|]. }
  match goal with |- with_buffer b ?y ≫= _ = _ => destruct y as [[[s c] h']|] end; [|done]. cbn.
  destruct s; try done. rewrite Extract_buffer. by destruct (ExtractInfoFromVersionEdit c e h').
Qed.

(** ** Atomic groups *)

Definition wal_edit (e : VersionEdit) : bool := IsWalAddition e || IsWalDeletion e.

(** Only edits of WALs look at the column family of the edit before. *)
Lemma ApplyVersionEdit_cfd env e cfd h : wal_edit e = false -> ApplyVersionEdit env e cfd h = ApplyVersionEdit env e None h.
Proof. unfold wal_edit, ApplyVersionEdit, on_edit. intros [-> ->]%orb_false_iff. done. Qed.

Lemma replay_group_edits env l cfd h : Forall (fun e => wal_edit e = false) l -> replay_group env l cfd h = replay_edits env l h.
Proof.
  revert cfd h. induction l as [|e l IH]; intros cfd h Hw; [done|]. apply Forall_cons in Hw as [He Hl]. cbn.
  rewrite ApplyVersionEdit_cfd by done. destruct (ApplyVersionEdit env e None h) as [[[[] c] h']|]; cbn; try done. by apply IH.
Qed.

Definition map_buffer (b : ReadBuffer) (x : option (Status * Handler)) : option (Status * Handler) :=
  (fun '(s, h) => (s, set_read_buffer b h)) <$> x.

Lemma replay_edits_buffer env l b h : replay_edits env l (set_read_buffer b h) = map_buffer b (replay_edits env l h).
Proof.
  revert h. induction l as [|e l IH]; intros h; [done|]. cbn. rewrite ApplyVersionEdit_buffer.
  destruct (ApplyVersionEdit env e None h) as [[[[] c] h']|]; cbn; try done; apply IH.
Qed.

(** The entries that remain after one with [r] of them. *)
Definition after (r : Z) : option Z := if r =? 0 then None else Some (r - 1).

(** Follows the groups of a series of edits; [Some r] in a group whose next edit has [r]
    entries after it. *)
Fixpoint expect (x : option Z) (l : list VersionEdit) : option (option Z) :=
  match l with
  | [] => Some x
  | e :: l' =>
    match EditCodec.atomic_group e, x with
    | None, None => expect None l'
    | Some r, None => expect (after r) l'
    | Some r, Some r0 => if decide (r = r0) then expect (after r) l' else None
    | None, Some _ => None
    end
  end.

(** The edits of the group that is open at the end. *)
Fixpoint pending (p l : list VersionEdit) : list VersionEdit :=
  match l with
  | [] => p
  | e :: l' =>
    match EditCodec.atomic_group e with
    | Some r => pending (if r =? 0 then [] else p ++ [e]) l'
    | None => pending [] l'
    end
  end.

(** The edits before it. *)
Definition applied (p l : list VersionEdit) : list VersionEdit := take (length (p ++ l) - length (pending p l)) (p ++ l).

(** Edits of a MANIFEST: groups are smaller than 2^32 and have no edits of WALs. *)
Definition group_edit (e : VersionEdit) : Prop :=
  match EditCodec.atomic_group e with Some r => 0 <= r < 2 ^ 32 - 1 /\ wal_edit e = false | None => True end.

(** The read buffer inside a group. *)
Definition buffer_of (p : list VersionEdit) (x : option Z) : ReadBuffer :=
  match x with
  | None => mkBuffer 0 []
  | Some r => mkBuffer (Z.of_nat (length p)) (p ++ replicate (Z.to_nat (r + 1)) EditCodec.empty_edit)
  end.

Definition buffer_ok (p : list VersionEdit) (x : option Z) : Prop :=
  match x with
  | None => p = []
  | Some r => p <> [] /\ 0 <= r /\ Z.of_nat (length p) + r < 2 ^ 32 - 1 /\ Forall (fun e => wal_edit e = false) p
  end.

Lemma pending_suffix l : forall p, pending p l `suffix_of` p ++ l.
Proof.
  induction l as [|e l IH]; intros p; cbn; [by rewrite app_nil_r|].
  assert (forall p', p' = [] \/ p' = p ++ [e] -> pending p' l `suffix_of` p ++ e :: l) as H.
  { intros p' [-> | ->]; (etrans; [apply IH|]).
    - exists (p ++ [e]). by rewrite <- app_assoc.
    - by rewrite <- app_assoc. }
  case_match; [|apply H; by left]. case_match; apply H; auto.
Qed.

Lemma applied_pending p l : applied p l ++ pending p l = p ++ l.
Proof.
  unfold applied. destruct (pending_suffix l p) as [k Hk]. rewrite Hk, length_app, take_app_length'; [done|lia].
Qed.

Lemma applied_end p l : pending p l = [] -> applied p l = p ++ l.
Proof. intros H. pose proof (applied_pending p l) as E. by rewrite H, app_nil_r in E. Qed.

Lemma applied_cons p e l p' : pending p (e :: l) = pending p' l -> (p' = [] \/ p' = p ++ [e]) ->
  applied p (e :: l) = (if decide (p' = []) then p ++ [e] else []) ++ applied p' l.
Proof.
  intros Hp Hc. pose proof (applied_pending p (e :: l)) as E. rewrite Hp in E. pose proof (applied_pending p' l) as E'.
  apply (app_inv_tail (pending p' l)). rewrite E, <- app_assoc, E'. destruct Hc as [-> | ->].
  - rewrite decide_True by done. by rewrite <- app_assoc.
  - rewrite decide_False by (by destruct p). by rewrite <- app_assoc.
Qed.

Lemma replay_edits_app_inv env l1 l2 h h2 : replay_edits env (l1 ++ l2) h = Some (OK, h2) ->
  exists h1, replay_edits env l1 h = Some (OK, h1) /\ replay_edits env l2 h1 = Some (OK, h2).
Proof.
  revert h. induction l1 as [|e l1 IH]; intros h; cbn; [by eauto|].
  destruct (ApplyVersionEdit env e None h) as [[[[] c] h']|]; cbn; try done; apply IH.
Qed.

Lemma AddEdit_group p x e r : buffer_ok p x -> EditCodec.atomic_group e = Some r -> 0 <= r < 2 ^ 32 - 1 -> (x = None \/ x = Some r) ->
  AddEdit e (buffer_of p x) = (OK, mkBuffer (Z.of_nat (length (p ++ [e]))) ((p ++ [e]) ++ replicate (Z.to_nat r) EditCodec.empty_edit)).
Proof.
  intros Hb He Hr Hx. unfold AddEdit, IsInAtomicGroup, GetRemainingEntries. rewrite He. cbn [default from_option id].
  rewrite bool_decide_eq_true_2 by done. rewrite length_app. cbn [length].
  assert (forall n, 0 <= n < 2 ^ 32 -> u32 n = n) as Hu by (intros n Hn; by apply Z.mod_small).
  destruct Hx as [-> | ->]; cbn [buffer_of buffer_ok read_edits_in_atomic_group replay_buffer] in *.
  - subst p. rewrite (Hu (r + 1)) by lia. replace (Z.to_nat (r + 1)) with (S (Z.to_nat r)) by lia.
    cbn [replicate length app]. rewrite length_replicate, (u64_small (0 + 1)) by solve_u64. rewrite (u64_small (0 + 1 + r)) by solve_u64.
    rewrite Hu by lia. destruct (Z.eqb_spec (0 + 1 + r) (Z.of_nat (S (Z.to_nat r)))); [|lia]. done.
  - destruct Hb as (Hp & _ & Hlen & _). replace (Z.to_nat (r + 1)) with (S (Z.to_nat r)) by lia.
    assert (exists y l, p ++ replicate (S (Z.to_nat r)) EditCodec.empty_edit = y :: l) as (y & l & E) by (destruct p; eauto).
    rewrite E. rewrite (u64_small (_ + 1)) by solve_u64. rewrite (u64_small (_ + 1 + r)) by solve_u64. rewrite <- E.
    rewrite length_app, length_replicate. rewrite Hu by lia.
    destruct (Z.eqb_spec (Z.of_nat (length p) + 1 + r) (Z.of_nat (length p + S (Z.to_nat r)))); [|lia]. cbn [negb].
    replace (Z.to_nat (Z.of_nat (length p) + 1 - 1)) with (length p + 0)%nat by lia. rewrite insert_app_r. cbn [replicate].
    cbn. rewrite <- app_assoc. cbn [app]. f_equal. f_equal. lia.
Qed.

Lemma on_record_plain env rec e h : EditCodec.DecodeFrom rec = inr e -> EditCodec.atomic_group e = None ->
  on_record env rec (set_read_buffer (mkBuffer 0 []) h) =
  '(s, _, h') ← ApplyVersionEdit env e None h; Some (s, set_read_buffer (mkBuffer 0 []) h').
Proof.
  intros Hd He. unfold on_record. rewrite Hd. unfold AddEdit, IsInAtomicGroup. rewrite He. rewrite bool_decide_eq_false_2 by (by intros [? ?]).
  cbn [read_buffer set_read_buffer replay_buffer]. rewrite !ApplyVersionEdit_buffer. by destruct (ApplyVersionEdit env e None h) as [[[s c] h']|].
Qed.

(** An edit of a group: the last one applies the whole group. *)
Lemma on_record_group env rec e p x r h : EditCodec.DecodeFrom rec = inr e -> buffer_ok p x -> EditCodec.atomic_group e = Some r ->
  group_edit e -> (x = None \/ x = Some r) ->
  on_record env rec (set_read_buffer (buffer_of p x) h) =
  if r =? 0
  then '(s, h') ← replay_edits env (p ++ [e]) h;
       Some (match s with OK => (OK, set_read_buffer (mkBuffer 0 []) h')
                        | _ => (s, set_read_buffer (mkBuffer (Z.of_nat (length (p ++ [e]))) (p ++ [e])) h') end)
  else Some (OK, set_read_buffer (buffer_of (p ++ [e]) (Some (r - 1))) h).
Proof.
  intros Hd Hb He Hg Hx. unfold group_edit in Hg. rewrite He in Hg. destruct Hg as [Hr Hw].
  unfold on_record. rewrite Hd. cbn [read_buffer set_read_buffer]. rewrite (AddEdit_group p x e r) by done.
  unfold IsInAtomicGroup. rewrite He, bool_decide_eq_true_2 by done. unfold IsFull. cbn [read_edits_in_atomic_group replay_buffer].
  rewrite (length_app (p ++ [e])), length_replicate.
  destruct (Z.eqb_spec r 0) as [->|Hr0].
  - change (Z.to_nat 0) with 0%nat. rewrite Nat.add_0_r, Z.eqb_refl. cbn [replicate]. rewrite app_nil_r.
    rewrite replay_group_edits; [|apply Forall_app; split; [|by apply Forall_singleton]].
    + rewrite !replay_edits_buffer. by destruct (replay_edits env (p ++ [e]) h) as [[[] h']|].
    + destruct Hx as [-> | ->]; cbn in Hb; [by subst|apply Hb].
  - destruct (Z.eqb_spec (Z.of_nat (length (p ++ [e]))) (Z.of_nat (length (p ++ [e]) + Z.to_nat r))); [lia|].
    cbn [buffer_of]. by replace (r - 1 + 1) with r by lia.
Qed.

Lemma buffer_ok_next p x e r : buffer_ok p x -> EditCodec.atomic_group e = Some r -> group_edit e -> (x = None \/ x = Some r) -> r <> 0 ->
  buffer_ok (p ++ [e]) (Some (r - 1)).
Proof.
  intros Hb He Hg Hx Hr. unfold group_edit in Hg. rewrite He in Hg. destruct Hg as [Hr' Hw]. cbn. rewrite length_app. cbn [length].
  destruct Hx as [-> | ->]; cbn in Hb.
  - subst p. split_and!; [done|cbn; lia..|by apply Forall_singleton].
  - destruct Hb as (H1 & H2 & H3 & H4). split_and!; [by destruct p|lia..|]. apply Forall_app. split; [done|by apply Forall_singleton].
Qed.

(** Records of edits that are grouped right: complete groups are applied, and an open one at
    the end stays in the buffer. *)
Lemma replay_grouped env : forall recs l p x x' h h', decodes recs l -> Forall group_edit l -> buffer_ok p x -> expect x l = Some x' ->
  replay_edits env (applied p l) h = Some (OK, h') ->
  replay_records env recs (set_read_buffer (buffer_of p x) h) = Some (OK, set_read_buffer (buffer_of (pending p l) x') h') /\
  buffer_ok (pending p l) x'.
Proof.
  intros recs l p x x' h h' Hd. revert p x h. induction Hd as [|rec e recs l He Hd IH]; intros p x h Hg Hb Hx Ha.
  { cbn in Hx. simplify_eq. cbn [replay_records pending]. unfold applied in Ha. cbn in Ha. rewrite app_nil_r, Nat.sub_diag in Ha.
    rewrite take_0 in Ha. cbn in Ha. by simplify_eq. }
  apply Forall_cons in Hg as [Hge Hg]. cbn [expect] in Hx. cbn [replay_records]. cbn [pending].
  destruct (EditCodec.atomic_group e) as [r|] eqn:Hr.
  - assert (x = None \/ x = Some r) as Hxr by (destruct x; [case_decide; simplify_eq; by right|by left]).
    assert (expect (after r) l = Some x') as Hx' by (destruct x; [case_decide; simplify_eq|]; done). clear Hx.
    rewrite (on_record_group env rec e p x r h) by done. unfold after in Hx'. destruct (Z.eqb_spec r 0) as [->|Hr0].
    + rewrite (applied_cons p e l []) in Ha; [|cbn; by rewrite Hr|by left]. rewrite decide_True in Ha by done.
      apply replay_edits_app_inv in Ha as (h1 & -> & Ha). cbn [mbind option_bind]. by apply (IH [] None).
    + rewrite (applied_cons p e l (p ++ [e])) in Ha; [|cbn; rewrite Hr; by destruct (Z.eqb_spec r 0)|by right].
      rewrite decide_False in Ha by (by destruct p). cbn [mbind option_bind app] in *.
      apply (IH (p ++ [e]) (Some (r - 1))); try done. by eapply buffer_ok_next.
  - destruct x; [done|]. cbn [buffer_ok] in Hb. subst p. cbn [buffer_of]. rewrite (on_record_plain env rec e h He Hr).
    rewrite (applied_cons [] e l []) in Ha; [|cbn; by rewrite Hr|by left]. cbn [decide app] in Ha. rewrite decide_True in Ha by done.
    cbn [app replay_edits] in Ha. destruct (ApplyVersionEdit env e None h) as [[[[] c] h1]|]; cbn [mbind option_bind] in *; try done.
    by apply (IH [] None).
Qed.

(** ** The records the log reader delivers *)

Section reader.
Context {D : Type} (stream : Streaming D) (cfg : Config).
Implicit Types r : Reader D.

(** The buffer holds the end of what was read of a file of [N] bytes. *)
Definition placed (N : Z) r : Prop :=
  LogWriter.size (buffer r) <= end_of_buffer_offset r /\ end_of_buffer_offset r + LogWriter.size (file r) <= N.

(** A reader later in the same file: its reports extend those of the earlier one. *)
Definition extends r r' : Prop := reports r `prefix_of` reports r' /\ forall N, N <= u64_max -> placed N r -> placed N r'.

#[local] Instance extends_preorder : PreOrder extends.
Proof.
  split.
  - by intros r.
  - intros r1 r2 r3 [H1 H2] [H3 H4]. split; [by etrans|]. eauto.
Qed.

Lemma extends_report r r' : reports r `prefix_of` reports r' -> file r' = file r -> buffer r' = buffer r ->
  end_of_buffer_offset r' = end_of_buffer_offset r -> extends r r'.
Proof. intros H1 H2 H3 H4. split; [done|]. intros N _. unfold placed. by rewrite H2, H3, H4. Qed.

Ltac extends_here := apply extends_report; [first [done|by apply prefix_app_r]|done..].

Lemma ReadMore_extends r : extends r (ReadMore r).1.
Proof.
  pose proof LogWriter.kBlockSize_bounds as Hk. unfold ReadMore. destruct (negb (eof r) && negb (read_error r)).
  - assert (forall N b, N <= u64_max -> placed N r -> (length b <= length (take (Z.to_nat LogWriter.kBlockSize) (file r)))%nat ->
      end_of_buffer_offset r +% LogWriter.size b = end_of_buffer_offset r + LogWriter.size b /\
      end_of_buffer_offset r + LogWriter.size b + LogWriter.size (drop (Z.to_nat LogWriter.kBlockSize) (file r)) <= N) as Hb.
    { intros N b HN [H1 H2] Hl. unfold LogWriter.size in *. rewrite length_take in Hl. rewrite length_drop.
      split; [|lia]. apply u64_small. solve_u64. }
    destruct (default None (head (faults r))) as [k|]; cbn [fst].
    + split; [by apply prefix_app_r|]. intros N HN Hp. destruct (Hb N (take k (take (Z.to_nat LogWriter.kBlockSize) (file r))) HN Hp) as [E1 E2]; [rewrite (length_take _ k); lia|].
      split; cbn; rewrite E1; [|done]. destruct Hp as [Hp _]. unfold LogWriter.size in *. cbn. lia.
    + split; [done|]. intros N HN Hp. destruct (Hb N _ HN Hp (Nat.le_refl _)) as [E1 E2].
      split; cbn; rewrite E1; [|done]. destruct Hp as [Hp _]. unfold LogWriter.size in *. lia.
  - destruct (buffer r) eqn:E; [done|]. split; [done|]. intros N HN [H1 H2]. split; [|done].
    unfold LogWriter.size in *. cbn. rewrite E in H1. cbn in H1. lia.
Qed.

Lemma shrink_extends r b r' : (length b <= length (buffer r))%nat -> reports r' = reports r -> file r' = file r -> buffer r' = b ->
  end_of_buffer_offset r' = end_of_buffer_offset r -> extends r r'.
Proof.
  intros Hb H1 H2 H3 H4. split; [by rewrite H1|]. intros N _ [H5 H6]. unfold placed, LogWriter.size in *. rewrite H2, H3, H4. lia.
Qed.

Lemma read_body_extends r t n hs : extends r (read_body stream cfg r t n hs).1.
Proof.
  assert (forall k, (length (drop k (buffer r)) <= length (buffer r))%nat) as Hd by (intros; rewrite length_drop; lia).
  unfold read_body. repeat case_match; cbn [fst]; first [by apply (shrink_extends _ []); cbn; [lia|..]|by eapply shrink_extends; [apply Hd|..]].
Qed.

Lemma physical_loop_extends fuel : forall r r' x, physical_loop stream cfg fuel r = Some (r', x) -> extends r r'.
Proof.
  induction fuel as [|fuel IH]; intros r r' x; [done|]. cbn [physical_loop].
  assert (forall r0, extends r r0 -> match ReadMore r0 with
    | (r1, None) => physical_loop stream cfg fuel r1
    | (r1, Some (dropped, e)) => Some (r1, mkPhysical e [] dropped) end = Some (r', x) -> extends r r') as Hmore.
  { intros r0 H0. pose proof (ReadMore_extends r0) as H1. destruct (ReadMore r0) as [r1 [[d e]|]]; cbn in H1.
    - intros [= <- <-]. by etrans.
    - intros H2%IH. by etrans; [|etrans]. }
  assert (forall r0 t n hs, extends r r0 -> Some (read_body stream cfg r0 t n hs) = Some (r', x) -> extends r r') as Hbody.
  { intros r0 t n hs H0 [= E]. pose proof (read_body_extends r0 t n hs) as H1. rewrite E in H1. by etrans. }
  destruct (_ <? LogWriter.kHeaderSize); [by apply Hmore|]. destruct (is_recyclable_type _); [|by apply Hbody].
  destruct (_ && _); [by intros [= <- <-]|]. destruct (_ <? _); [apply Hmore|apply Hbody]; extends_here.
Qed.

Lemma report_if_extends b r n why : extends r (report_if b r n why).
Proof. unfold report_if. destruct b; extends_here. Qed.

(** The reader after a step extends the one before it. *)
Definition grows r (o : outcome (D := D)) : Prop := match o with inl (r', _) | inr (r', _) => extends r r' end.

Lemma break_record_grows r r' p : extends r r' -> grows r (break_record r' p).
Proof. intros H. unfold break_record, grows. destruct (in_fragmented_record p); [|done]. etrans; [done|]. extends_here. Qed.

Lemma MaybeVerify_extends mode r f i : extends r (MaybeVerifyPredecessorWALInfo cfg mode r f i).
Proof. unfold MaybeVerifyPredecessorWALInfo. repeat case_match; extends_here. Qed.

Lemma special_grows mode r p offset f : grows r (compression_record stream r p offset f) /\
  grows r (predecessor_record cfg mode r p offset f) /\ grows r (timestamp_record r p offset f).
Proof.
  split_and!.
  - unfold compression_record, grows. set (r1 := report_if _ r _ _). set (r2 := report_if _ r1 _ _).
    trans r2; [etrans; apply report_if_extends|]. case_match; extends_here.
  - unfold predecessor_record, grows. trans (set_last_offset r offset); [extends_here|].
    case_match; [apply MaybeVerify_extends|extends_here].
  - unfold timestamp_record, grows. set (r1 := report_if _ r _ _). trans r1; [apply report_if_extends|].
    destruct (DecodeTimestampSizes f); [|extends_here]. destruct (UpdateRecordedTimestampSize _ _) as [m [why|]]; extends_here.
Qed.

Lemma dispatch_grows mode offset r p x : grows r (dispatch stream cfg mode offset r p x).
Proof.
  assert (grows r (inr (r, None))) as Hr by by unfold grows.
  destruct (special_grows mode r p offset (fragment x)) as (H1 & H2 & H3). unfold dispatch.
  repeat match goal with |- grows _ (if ?b then _ else _) => destruct b end; try done;
    try (by apply break_record_grows); try apply report_if_extends.
  - unfold middle_fragment, grows. destruct (in_fragmented_record p); [done|extends_here].
  - unfold last_fragment, grows. destruct (in_fragmented_record p); extends_here.
  - unfold end_of_file, grows. etrans; apply report_if_extends.
  - unfold old_record. destruct (negb _); [|by apply break_record_grows]. destruct (in_fragmented_record p); [apply report_if_extends|].
    unfold grows. case_match; extends_here.
  - unfold bad_content. destruct (_ && _); [done|]. apply break_record_grows. extends_here.
  - unfold bad_content. destruct (_ && _); [done|]. apply break_record_grows. extends_here.
Qed.

Lemma ReadRecord_extends fuel mode r r' x : ReadRecord stream cfg fuel mode r = Some (r', x) -> extends r r'.
Proof.
  unfold ReadRecord. set (r0 := set_uncompressor r _). intros H. trans r0; [extends_here|]. revert H. clearbody r0.
  generalize (mkPending false [] 0). revert r0. clear r. induction fuel as [|fuel IH]; intros r0 p; [done|]. cbn [record_loop].
  destruct (ReadPhysicalRecord stream cfg r0) as [[r1 y]|] eqn:E; [|done]. apply physical_loop_extends in E. cbn [mbind option_bind].
  pose proof (dispatch_grows mode (end_of_buffer_offset r0 -% LogWriter.size (buffer r0)) r1 p y) as H. unfold grows in H.
  destruct (dispatch _ _ _ _ _ _ _) as [[r2 p2]|[r2 o]].
  - intros H2%IH. by etrans; [|etrans].
  - intros [= <- <-]. by etrans.
Qed.

Lemma read_all_extends n fuel mode : forall r r' l, read_all stream cfg n fuel mode r = Some (r', l) -> extends r r'.
Proof.
  induction n as [|n IH]; intros r r' l; [done|]. cbn [read_all].
  destruct (ReadRecord stream cfg fuel mode r) as [[r1 [rec|]]|] eqn:E; cbn [mbind option_bind]; [| |done].
  - destruct (read_all stream cfg n fuel mode r1) as [[r2 l2]|] eqn:E2; [|done]. cbn. intros [= <- <-].
    apply ReadRecord_extends in E. apply IH in E2. by etrans.
  - intros [= <- <-]. by apply ReadRecord_extends in E.
Qed.

Lemma log_read_status_nil r : reports r = [] -> log_read_status r = OK.
Proof. unfold log_read_status. by intros ->. Qed.

(** The loop of [Iterate] over a log without reports: the replay of the records, which stops
    at the first that is refused. *)
Lemma iterate_replay env N n fuel : forall k r r' recs h s h', (n <= k)%nat -> (s <> OK -> (n < k)%nat) -> N < max_manifest_read_size env -> N <= u64_max -> placed N r ->
  read_all stream cfg n fuel kTolerateCorruptedTailRecords r = Some (r', recs) -> reports r' = [] ->
  replay_records env recs h = Some (s, h') ->
  exists r'', iterate_loop stream cfg fuel env k OK h r = Some (s, h', r'') /\ reports r'' = [] /\ (s = OK -> r'' = r').
Proof.
  induction n as [|n IH]; intros k r r' recs h s h' Hk Hk' HN HN' Hp Ha Hr Hs; [done|]. destruct k as [|k]; [lia|].
  assert (forall r, placed N r -> (LastRecordEnd r <? max_manifest_read_size env) = true) as Hlast.
  { intros r0 [H1 H2]. unfold LastRecordEnd. apply Z.ltb_lt. unfold LogWriter.size in *. rewrite u64_small by solve_u64. lia. }
  cbn [read_all] in Ha. cbn [iterate_loop]. rewrite Hlast by done. cbn [negb].
  destruct (ReadRecord stream cfg fuel _ r) as [[r1 [rec|]]|] eqn:E; cbn [mbind option_bind] in Ha; [| |done].
  2:{ simplify_eq. cbn in Hs. simplify_eq. cbn [mbind option_bind]. by exists r'. }
  destruct (read_all stream cfg n fuel _ r1) as [[r2 l2]|] eqn:E2; [|done]. cbn in Ha. simplify_eq. cbn [mbind option_bind].
  assert (reports r1 = []) as Hr1.
  { pose proof (read_all_extends _ _ _ _ _ _ E2) as [H _]. rewrite Hr in H. by apply prefix_nil_inv in H. }
  assert (placed N r1) as Hp1 by (by eapply ReadRecord_extends in E as [_ H]; apply H).
  rewrite log_read_status_nil by done. cbn [replay_records] in Hs. destruct (on_record env rec h) as [[s1 h1]|]; [|done].
  cbn [mbind option_bind] in *. destruct (decide (s1 = OK)) as [->|Hs1].
  - apply (IH k r1 r' l2); try done; [lia|]. intros Hs'%Hk'. lia.
  - assert (Some (s1, h1) = Some (s, h')) as Hs2 by (by destruct s1). injection Hs2 as <- <-. exists r1. split; [|done].
    specialize (Hk' Hs1). destruct k; [lia|]. cbn [iterate_loop]. rewrite Hlast by done. cbn [negb]. by destruct s1.
Qed.

Lemma new_reader_placed f : placed (LogWriter.size f) (new_reader f []).
Proof. split; unfold LogWriter.size; cbn; lia. Qed.

End reader.

End Replay.
