(* ===== verification/LogApply.v ===== *)
(** * Committing edits to the MANIFEST

    [VersionSet::ProcessManifestWrites], [LogAndApplyHelper], [LogAndApplyCFHelper] and
    [WriteCurrentStateToManifest] of [db/version_set.cc]: a group of writers is applied to
    builders, the versions are saved, the edits are written as records, after a snapshot
    of the whole state if the MANIFEST is new, and the versions are installed.

    The group is an argument: the writers of the queue from its front up to the next one
    that manipulates a column family.  A writer of a column family that was dropped finds
    no column family with its number.  The outcomes of I/O are arguments: the new file,
    [SyncManifest], [SetCurrentFile], the file a log is written to ([FileWriter]), and
    [LoadTableHandlers].  The priorities and statistics of [PrepareAppend] are those of
    [Priority] and [LevelStats]; edits that skip the MANIFEST write, timing and the
    quarantine of files are left out. *)

From Stdlib Require Import ZArith Lia.
From stdpp Require Import base numbers list sorting gmap sets.
From S2P Require Import Prelude Version Coding WalEdit FileCodec EditCodec LogWriter LogReader Log Storage Builder BuilderSpec BuilderSave Build Recover.

Import Coding FileCodec Storage Builder Recover.
Local Open Scope Z_scope.

Module LogApply.

(** ** Data *)

Record DbOptions := mkDbOptions {
  write_dbid_to_manifest : bool;
  db_use_virtual_compaction : bool;
  db_paranoid_checks : bool;
  new_cf_options : CfOptions;
  load_handlers : Z -> Rep -> Status;
}.

Record ManifestWriter := mkManifestWriter {
  mw_cfd : Z;
  edit_list : list VersionEdit;
}.

(** The variables of the loop over the group; an edit of the batch is kept with the size of
    the timestamps of its column family. *)
Record Group := mkGroup {
  batch_edits : list (VersionEdit * option nat);
  versions : list (Z * Rep);
  max_last_sequence : Z;
  group_start : option nat;
}.

Definition NumEntries (e : VersionEdit) : Z :=
  Z.of_nat (length (EditCodec.new_files e)) + Z.of_nat (length (EditCodec.deleted_files e)) +
  Z.of_nat (length (EditCodec.blob_file_additions e)) + Z.of_nat (length (EditCodec.blob_file_garbages e)) +
  Z.of_nat (length (EditCodec.wal_additions e)) + (if IsWalDeletion e then 1 else 0).

Definition IsWalManipulation (e : VersionEdit) : bool :=
  let entries := NumEntries e in
  (0 <? entries) && ((entries =? Z.of_nat (length (EditCodec.wal_additions e))) || (entries =? if IsWalDeletion e then 1 else 0)).

Definition IsAllWalEdits (w : ManifestWriter) : bool := forallb IsWalManipulation (edit_list w).

Definition IsColumnFamilyManipulation (e : VersionEdit) : bool :=
  bool_decide (is_Some (EditCodec.column_family_add e)) || EditCodec.column_family_drop e.

(** ** Preparing the edits *)

Definition LogAndApplyCFHelper (vs : VersionSet) (max_last_sequence : Z) (e : VersionEdit) : VersionEdit :=
  let e := EditCodec.set_next_file_number (Some (next_file_number (counters vs))) e in
  let e := EditCodec.set_last_sequence (Some max_last_sequence) e in
  if EditCodec.column_family_drop e then EditCodec.set_max_column_family (Some (max_column_family vs)) e else e.

(** The edit with its counters, and the largest sequence number so far. *)
Definition set_edit_counters (c : Counters) (e : VersionEdit) (max_last_sequence : Z) : VersionEdit * Z :=
  let e := match EditCodec.prev_log_number e with
           | None => EditCodec.set_prev_log_number (Some (prev_log_number c)) e
           | Some _ => e
           end in
  let e := EditCodec.set_next_file_number (Some (next_file_number c)) e in
  match EditCodec.last_sequence e with
  | Some s => if max_last_sequence <? s then (e, s) else (EditCodec.set_last_sequence (Some max_last_sequence) e, max_last_sequence)
  | None => (EditCodec.set_last_sequence (Some max_last_sequence) e, max_last_sequence)
  end.

(** Without a builder the edit manipulates WALs and is not applied. *)
Definition LogAndApplyHelper (c : Counters) (o : CfOptions) (builder : option Rep) (e : VersionEdit) (max_last_sequence : Z) :
    option (Status * option Rep * VersionEdit * Z) :=
  let '(e, m) := set_edit_counters c e max_last_sequence in
  match builder with
  | None => Some (OK, None, e, m)
  | Some r =>
    let C := opt_comparator o in
    '(s, r') ← Apply (opt_builder o) e r;
    Some (s, Some r', e, m)
  end.

(** *** Atomic groups of which a column family was dropped *)

Fixpoint in_group (l : list VersionEdit) : nat :=
  match l with
  | [] => 0
  | e :: l' => if negb (IsInAtomicGroup e) then 0 else if GetRemainingEntries e =? 0 then 1 else S (in_group l')
  end.

Definition subtract_remaining (k : nat) (x : VersionEdit * option nat) : VersionEdit * option nat :=
  (match EditCodec.atomic_group x.1 with
   | Some n => EditCodec.set_atomic_group (Some (u32 (n - Z.of_nat k))) x.1
   | None => x.1
   end, x.2).

Definition open_group (g : Group) : bool :=
  match last (batch_edits g) with
  | Some (e, _) => IsInAtomicGroup e && (0 <? GetRemainingEntries e)
  | None => false
  end.

Definition skip_dropped (l : list VersionEdit) (g : Group) : Group :=
  if open_group g then
    let start := default (length (batch_edits g)) (group_start g) in
    mkGroup (take start (batch_edits g) ++ (subtract_remaining (in_group l) <$> drop start (batch_edits g)))
      (versions g) (max_last_sequence g) (group_start g)
  else g.

(** *** The loop over the writers *)

Definition next_group_start (e : VersionEdit) (g : Group) : option nat :=
  if IsInAtomicGroup e then
    match last (batch_edits g) with
    | Some (b, _) => if IsInAtomicGroup b && negb (GetRemainingEntries b =? 0) then group_start g else Some (length (batch_edits g))
    | None => Some (length (batch_edits g))
    end
  else None.

Fixpoint add_edits (c : Counters) (o : CfOptions) (builder : option Rep) (l : list VersionEdit) (g : Group) :
    option (Status * option Rep * Group) :=
  match l with
  | [] => Some (OK, builder, g)
  | e :: l' =>
    let start := next_group_start e g in
    '(s, b, e', m) ← LogAndApplyHelper c o builder e (max_last_sequence g);
    match s with
    | OK => add_edits c o b l' (mkGroup (batch_edits g ++ [(e', Some (opt_timestamp_size o))]) (versions g) m start)
    | _ => Some (s, b, g)
    end
  end.

Fixpoint find_version {A} (id : Z) (l : list (Z * A)) : option A :=
  match l with [] => None | (i, r) :: l' => if decide (i = id) then Some r else find_version id l' end.

Fixpoint set_version {A} (id : Z) (r : A) (l : list (Z * A)) : list (Z * A) :=
  match l with [] => [] | (i, r0) :: l' => if decide (i = id) then (i, r) :: l' else (i, r0) :: set_version id r l' end.

Definition set_versions (l : list (Z * Rep)) (g : Group) : Group :=
  mkGroup (batch_edits g) l (max_last_sequence g) (group_start g).

Definition add_writer (vs : VersionSet) (w : ManifestWriter) (g : Group) : option (Status * Group) :=
  let id := mw_cfd w in
  match column_families vs !! id with
  | None => Some (OK, skip_dropped (edit_list w) g)
  | Some c =>
    let '(builder, g1) :=
      match find_version id (versions g) with
      | Some r => (Some r, g)
      | None => if IsAllWalEdits w then (None, g)
                else let r := new_rep (cf_current c) in (Some r, set_versions (versions g ++ [(id, r)]) g)
      end in
    '(s, b, g2) ← add_edits (counters vs) (cf_options c) builder (edit_list w) g1;
    Some (s, match b with Some r => set_versions (set_version id r (versions g2)) g2 | None => g2 end)
  end.

Fixpoint add_writers (vs : VersionSet) (ws : list ManifestWriter) (g : Group) : option (Status * Group) :=
  match ws with
  | [] => Some (OK, g)
  | w :: ws' => '(s, g') ← add_writer vs w g; match s with OK => add_writers vs ws' g' | _ => Some (s, g') end
  end.

Fixpoint save_versions (vs : VersionSet) (l : list (Z * Rep)) : Status * list (Z * VersionStorageInfo) :=
  match l with
  | [] => (OK, [])
  | (id, r) :: l' =>
    match column_families vs !! id with
    | None => (OK, [])
    | Some c =>
      let C := opt_comparator (cf_options c) in
      match SaveTo (opt_builder (cf_options c)) r (new_storage (num_levels (cf_current c)) (Some (cf_current c)) kMustPresent) with
      | (OK, v) => let '(s, l2) := save_versions vs l' in (s, (id, v) :: l2)
      | (s, _) => (s, [])
      end
    end
  end.

(** ** The snapshot of a new MANIFEST *)

Definition snapshot_file (f : FileMetaData) : FileMetaData :=
  set_fd (PackFileNumberAndPathId (GetNumber f) (GetPathId f)) (file_size f) (smallest_seqno f) (largest_seqno f) f.

Definition snapshot_files (v : VersionStorageInfo) (e : VersionEdit) : VersionEdit :=
  foldl (fun e '(level, f) => EditCodec.AddFile level (snapshot_file f) e) e
    (concat (imap (fun level l => (fun f => (Z.of_nat level, f)) <$> l) (files_ v))).

Definition snapshot_blob (e : VersionEdit) (b : BlobFileMetaData) : VersionEdit :=
  let e := EditCodec.AddBlobFile (shared_meta b) e in
  if 0 <? garbage_count b
  then EditCodec.AddBlobFileGarbage (WalEdit.mkBlobGarbage (GetBlobFileNumber b) (garbage_count b) (garbage_bytes b)) e
  else e.

(** The record of the options of a column family and that of its files. *)
Definition snapshot_options (id : Z) (c : ColumnFamilyData) : VersionEdit :=
  let e := EditCodec.empty_edit in
  let e := if id =? 0 then e else EditCodec.set_column_family id (EditCodec.set_column_family_add (Some (cf_name c)) e) in
  EditCodec.set_persist_user_defined_timestamps (Some (opt_persist_timestamps (cf_options c)))
    (EditCodec.set_comparator (Some (opt_comparator_name (cf_options c))) e).

Definition snapshot_version (vs : VersionSet) (id : Z) (c : ColumnFamilyData) : VersionEdit :=
  let v := cf_current c in
  let e := snapshot_files v (EditCodec.set_column_family id EditCodec.empty_edit) in
  let e := foldl snapshot_blob (EditCodec.SetCompactCursors (compact_cursor_ v) e) (blob_files_ v) in
  let e := EditCodec.set_log_number (Some (cf_log_number c)) e in
  let min_log := min_log_number_to_keep (counters vs) in
  let e := if (id =? 0) && negb (min_log =? 0) then EditCodec.set_min_log_number_to_keep (Some min_log) e else e in
  let e := match cf_full_history_ts_low c with [] => e | ts => EditCodec.set_full_history_ts_low ts e end in
  EditCodec.set_last_sequence (Some (descriptor_last_sequence (counters vs))) e.

Definition wal_snapshot (vs : VersionSet) : VersionEdit :=
  EditCodec.set_wal_additions
    ((fun n => WalEdit.mkWalAddition n (WalEdit.wals (wals vs) !!! n)) <$> WalEdit.wal_numbers (wals vs)) EditCodec.empty_edit.

(** The edits of [WriteCurrentStateToManifest] in their order. *)
Definition snapshot_edits (db : DbOptions) (vs : VersionSet) : list (VersionEdit * option nat) :=
  (if write_dbid_to_manifest db then [(EditCodec.set_db_id (Some (db_id vs)) EditCodec.empty_edit, None)] else []) ++
  (match EditCodec.wal_additions (wal_snapshot vs) with [] => [] | _ => [(wal_snapshot vs, None)] end) ++
  [(EditCodec.set_wal_deletion (min_log_number_to_keep (counters vs)) EditCodec.empty_edit, None)] ++
  concat ((fun id => match column_families vs !! id with
                     | Some c => [(snapshot_options id c, None); (snapshot_version vs id c, Some (opt_timestamp_size (cf_options c)))]
                     | None => []
                     end) <$> column_family_list vs).

(** ** Writing *)

Section writing.
Context {F : Type} `{LogWriter.FileWriter F}.

Fixpoint write_edits (w : LogWriter.Writer F) (l : list (VersionEdit * option nat)) : option (Status * LogWriter.Writer F) :=
  match l with
  | [] => Some (OK, w)
  | (e, ts_sz) :: l' =>
    match EditCodec.EncodeTo ts_sz e with
    | None => Some (Corruption, w)
    | Some record =>
      '(w', ok) ← LogWriter.AddRecord w record 0;
      if ok : bool then write_edits w' l' else Some (IOError, w')
    end
  end.

(** A database: the version set, the log of the open MANIFEST, and the file that CURRENT
    points to. *)
Record Db := mkDb {
  vset : VersionSet;
  descriptor_log : option (LogWriter.Writer F);
  manifest : F;
}.

(** What I/O answers: the new file, the sync, and for [SetCurrentFile] whether it succeeds
    and whether CURRENT was replaced. *)
Record Io := mkIo {
  io_new_file : option F;
  io_sync : bool;
  io_set_current : bool;
  io_replaced : bool;
}.

(** ** A new database *)

Definition new_db_edit (id : option (list Z)) : VersionEdit :=
  EditCodec.set_last_sequence (Some 0) (EditCodec.set_next_file_number (Some 2)
    (EditCodec.set_log_number (Some 0) (EditCodec.set_db_id id EditCodec.empty_edit))).

(** The status and the file that CURRENT points to, if there is one; [id] is the identity
    that [SetupDBId] put into the edit. *)
Definition NewDB (io : Io) (id : option (list Z)) : option (Status * option F) :=
  match io_new_file io with
  | None => Some (IOError, None)
  | Some f =>
    record ← EditCodec.EncodeTo None (new_db_edit id);
    '(w, ok) ← LogWriter.AddRecord (LogWriter.new_writer f 0 false false false) record 0;
    if (ok : bool) && io_sync io then
      if io_set_current io then Some (OK, Some (LogWriter.dest w))
      else Some (IOError, if io_replaced io then Some (LogWriter.dest w) else None)
    else Some (IOError, None)
  end.

(** ** Installing *)

Fixpoint apply_wals (l : list (VersionEdit * option nat)) (w : WalEdit.WalSet) : Status * WalEdit.WalSet :=
  match l with
  | [] => (OK, w)
  | (e, _) :: l' =>
    let '(s, w') := if IsWalAddition e then WalEdit.AddWals (EditCodec.wal_additions e) w
                    else if IsWalDeletion e then (OK, WalEdit.DeleteWalsBefore (EditCodec.wal_deletion e) w)
                    else (OK, w) in
    match s with OK => apply_wals l' w' | _ => (s, w') end
  end.

Definition install_edit (vs : VersionSet) (x : VersionEdit * option nat) : VersionSet :=
  let e := x.1 in
  let id := EditCodec.column_family e in
  let vs := match EditCodec.log_number e with
            | Some n => on_family id (fun c => if cf_log_number c <? n then set_cf_log_number n c else c) vs
            | None => vs
            end in
  match EditCodec.full_history_ts_low e with [] => vs | ts => on_family id (SetFullHistoryTsLow ts) vs end.

Definition last_min_log (l : list (VersionEdit * option nat)) : Z :=
  foldl (fun m x => match EditCodec.min_log_number_to_keep x.1 with Some n => Z.max m n | None => m end) 0 l.

Definition install_versions (vl : list (Z * VersionStorageInfo)) (vs : VersionSet) : VersionSet :=
  foldl (fun vs '(id, v) => on_family id (fun c => set_cf_current (cf_next_epoch_number c) v c) vs) vs vl.

Definition set_after_commit (max_seq prev_log size : Z) (c : Counters) : Counters :=
  mkCounters (next_file_number c) (min_log_number_to_keep c) prev_log (last_allocated_sequence c)
    (last_published_sequence c) (last_sequence c) max_seq size.

Definition set_next_file (n : Z) (c : Counters) : Counters :=
  mkCounters n (min_log_number_to_keep c) (prev_log_number c) (last_allocated_sequence c)
    (last_published_sequence c) (last_sequence c) (descriptor_last_sequence c) (manifest_file_size c).

(** The state after the records were written. *)
Definition install (db : DbOptions) (first : VersionEdit) (batch : list (VersionEdit * option nat))
    (vl : list (Z * VersionStorageInfo)) (max_seq size : Z) (vs : VersionSet) : VersionSet :=
  let vs :=
    if bool_decide (is_Some (EditCodec.column_family_add first)) then CreateColumnFamily (new_cf_options db) first vs
    else if EditCodec.column_family_drop first then DropColumnFamily (EditCodec.column_family first) vs
    else
      let vs := foldl install_edit vs batch in
      let m := last_min_log batch in
      let vs := if m =? 0 then vs else set_counters (MarkMinLogNumberToKeep m (counters vs)) vs in
      install_versions vl vs in
  set_counters (set_after_commit max_seq (default 0 (EditCodec.prev_log_number first)) size (counters vs)) vs.

(** The last edit of a batch gets the next file number, and the first edit of the first
    writer the largest column family, if a snapshot is written. *)
Definition set_last_next_file (n : Z) (batch : list (VersionEdit * option nat)) : list (VersionEdit * option nat) :=
  alter (fun x => (EditCodec.set_next_file_number (Some n) x.1, x.2)) (pred (length batch)) batch.

Definition set_first_max_family (first_in_batch : bool) (n : Z) (batch : list (VersionEdit * option nat)) : list (VersionEdit * option nat) :=
  if first_in_batch && (0 <? n) then alter (fun x => (EditCodec.set_max_column_family (Some n) x.1, x.2)) 0%nat batch else batch.

Fixpoint load_versions (db : DbOptions) (l : list (Z * Rep)) : Status :=
  match l with
  | [] => OK
  | (id, r) :: l' =>
    match load_handlers db id r with
    | OK => load_versions db l'
    | s => if db_paranoid_checks db then s else load_versions db l'
    end
  end.

(** The batch of a group, the builders, the saved versions and the largest sequence number. *)
Record Prepared := mkPrepared {
  pr_batch : list (VersionEdit * option nat);
  pr_builders : list (Z * Rep);
  pr_versions : list (Z * VersionStorageInfo);
  pr_max_sequence : Z;
}.

Definition prepare (vs : VersionSet) (ws : list ManifestWriter) (first : VersionEdit) : option (Status * Prepared) :=
  let m := descriptor_last_sequence (counters vs) in
  if IsColumnFamilyManipulation first
  then Some (OK, mkPrepared [(LogAndApplyCFHelper vs m first, None)] [] [] m)
  else
    '(s, g) ← add_writers vs ws (mkGroup [] [] m None);
    match s with
    | OK => let '(s, vl) := save_versions vs (versions g) in
            Some (s, mkPrepared (batch_edits g) (versions g) vl (max_last_sequence g))
    | _ => Some (s, mkPrepared [] [] [] m)
    end.

(** Whether the first edit of the first writer is the first of the batch. *)
Definition first_in_batch (vs : VersionSet) (w : ManifestWriter) (first : VersionEdit) : bool :=
  IsColumnFamilyManipulation first || bool_decide (is_Some (column_families vs !! mw_cfd w)).

Definition finish_batch (new_descriptor_log in_batch : bool) (vs : VersionSet) (batch : list (VersionEdit * option nat)) :
    VersionSet * list (VersionEdit * option nat) :=
  if new_descriptor_log then
    let n := next_file_number (counters vs) +% 1 in
    (set_counters (set_next_file n (counters vs)) vs,
     set_first_max_family in_batch (max_column_family vs) (set_last_next_file n batch))
  else (vs, batch).

(** The records: the status, the log, and whether CURRENT points to it. *)
Definition write_manifest (db : DbOptions) (io : Io) (new_descriptor_log : bool) (vs : VersionSet)
    (log : option (LogWriter.Writer F)) (batch : list (VersionEdit * option nat)) :
    option (Status * option (LogWriter.Writer F) * bool) :=
  '(s, log) ← (if new_descriptor_log
               then match io_new_file io with
                    | None => Some (IOError, None)
                    | Some f => '(s, w) ← write_edits (LogWriter.new_writer f 0 false false false) (snapshot_edits db vs); Some (s, Some w)
                    end
               else Some (OK, log));
  match s, log with
  | OK, Some w =>
    '(s, w) ← write_edits w batch;
    match s with
    | OK =>
      if negb (io_sync io) then Some (IOError, Some w, negb new_descriptor_log)
      else if negb new_descriptor_log then Some (OK, Some w, true)
      else if io_set_current io then Some (OK, Some w, true) else Some (IOError, Some w, io_replaced io)
    | _ => Some (s, Some w, negb new_descriptor_log)
    end
  | _, _ => Some (s, log, negb new_descriptor_log)
  end.

Definition ProcessManifestWrites (db : DbOptions) (io : Io) (roll : bool) (ws : list ManifestWriter) (d : Db) : option (Status * Db) :=
  w0 ← head ws;
  first ← head (edit_list w0);
  let vs := vset d in
  '(s, p) ← prepare vs ws first;
  match s with
  | OK =>
    let new_descriptor_log := roll || bool_decide (descriptor_log d = None) in
    let in_batch := first_in_batch vs w0 first in
    let '(vs1, batch) := finish_batch new_descriptor_log in_batch vs (pr_batch p) in
    let first' := if in_batch then default first (fst <$> head batch) else first in
    match (if IsColumnFamilyManipulation first || db_use_virtual_compaction db then OK else load_versions db (pr_builders p)) with
    | OK =>
      '(s, log, current) ← write_manifest db io new_descriptor_log vs1 (descriptor_log d) batch;
      let file := match log with Some w => if current : bool then LogWriter.dest w else manifest d | None => manifest d end in
      match s, log with
      | OK, Some w =>
        let '(s, wl) := apply_wals batch (wals vs1) in
        let vs2 := set_wals wl vs1 in
        match s with
        | OK =>
          let size := Z.of_nat (length (LogWriter.contents (LogWriter.dest w))) in
          Some (OK, mkDb (install db first' batch (pr_versions p) (pr_max_sequence p) size vs2) (Some w) file)
        | _ => Some (s, mkDb vs2 None file)
        end
      | _, _ => Some (s, mkDb vs1 None file)
      end
    | s => Some (s, mkDb vs1 None (manifest d))
    end
  | _ => Some (s, d)
  end.

End writing.

End LogApply.
