(* ===== verification/GroupCommit.v ===== *)
(** * Atomic groups of a group commit

    [ProcessManifestWrites] leaves out the edits of column families that were dropped and
    subtracts them from the entries that remain of the edits of their atomic group.  The
    batch it writes has complete groups again, so that recovery accepts it. *)

From Stdlib Require Import ZArith Lia.
From stdpp Require Import base numbers list sorting gmap sets.
From S2P Require Import Prelude Version Coding WalEdit FileCodec EditCodec LogWriter LogReader Log Storage Builder BuilderSpec BuilderSave Build Recover Replay LogApply.

Import Coding FileCodec Storage Builder Recover Replay LogApply.
Local Open Scope Z_scope.

Module GroupCommit.

Abbreviation group_of e := (EditCodec.atomic_group e).

(** ** Series of edits *)

Lemma expect_app l1 : forall l2 x, expect x (l1 ++ l2) = expect x l1 ≫= fun y => expect y l2.
Proof.
  induction l1 as [|e l1 IH]; intros l2 x; [done|]. cbn. destruct (group_of e), x; try done; try apply IH.
  case_decide; [apply IH|done].
Qed.

(** An edit that leaves a group open. *)
Definition opens (e : VersionEdit) : bool := IsInAtomicGroup e && negb (GetRemainingEntries e =? 0).

Lemma opens_spec e : opens e = match group_of e with Some r => negb (r =? 0) | None => false end.
Proof. unfold opens, IsInAtomicGroup, GetRemainingEntries. by destruct (group_of e). Qed.

Lemma complete_last l e : forall x, expect x (l ++ [e]) = Some None -> opens e = false.
Proof.
  intros x. rewrite expect_app. destruct (expect x l) as [y|]; [|done]. cbn. rewrite opens_spec. unfold after.
  destruct (group_of e) as [r|]; [|done]. destruct (r =? 0); [done|]. destruct y; [case_decide|]; done.
Qed.

Lemma pending_complete l : forall p x, (x = None -> p = []) -> expect x l = Some None -> pending p l = [].
Proof.
  induction l as [|e l IH]; intros p x Hb Hx; cbn in *; [simplify_eq; by apply Hb|].
  destruct (group_of e) as [r|]; [|destruct x; [done|by apply (IH [] None)]].
  apply (IH _ (after r)); [unfold after; by destruct (r =? 0)|]. destruct x; [by case_decide|done].
Qed.

(** A part of a group whose last edit has [r + 1] entries after it. *)
Definition chain (r : Z) (l : list VersionEdit) : Prop :=
  forall i e, l !! i = Some e -> group_of e = Some (r + Z.of_nat (length l - i)).

Lemma chain_cons r e l : chain r (e :: l) <-> group_of e = Some (r + Z.of_nat (S (length l))) /\ chain r l.
Proof.
  split.
  - intros H. split; [exact (H 0%nat e eq_refl)|]. intros i f Hf. exact (H (S i) f Hf).
  - intros [H1 H2] [|i] f Hf; [injection Hf as <-; exact H1|exact (H2 i f Hf)].
Qed.

Lemma chain_snoc r l e : chain r l -> group_of e = Some r -> chain (r - 1) (l ++ [e]).
Proof.
  intros H1 H2. induction l as [|f l IH]; cbn.
  - apply chain_cons. split; [|by intros ? ?]. rewrite H2. f_equal. cbn. lia.
  - apply chain_cons in H1 as [H1 H1']. apply chain_cons. split; [|by apply IH]. rewrite H1, length_app. f_equal. cbn. lia.
Qed.

Lemma expect_chain r l : 0 <= r -> chain r l -> l <> [] -> expect None l = Some (Some r).
Proof.
  intros Hr. destruct l as [|e l]; [done|]. intros [He Hl]%chain_cons _. cbn [expect]. rewrite He. clear He.
  revert Hl. induction l as [|f l IH]; intros Hl; cbn [length].
  - cbn [expect]. unfold after. destruct (Z.eqb_spec (r + Z.of_nat 1) 0); [lia|]. do 2 f_equal. lia.
  - apply chain_cons in Hl as [Hf Hl]. unfold after at 1. destruct (Z.eqb_spec (r + Z.of_nat (S (S (length l)))) 0); [lia|].
    cbn [expect]. rewrite Hf. rewrite decide_True by lia. by apply IH.
Qed.

Lemma expect_closed l : l <> [] -> chain (-1) l -> expect None l = Some None.
Proof.
  intros Hl. destruct l as [|e l _] using rev_ind; [done|]. intros H.
  assert (group_of e = Some 0) as He.
  { rewrite (H (length l) e) by (by rewrite list_lookup_middle). rewrite length_app. f_equal. cbn. lia. }
  assert (chain 0 l) as Hc.
  { intros i f Hf. rewrite (H i f) by (by apply lookup_app_l_Some). apply lookup_lt_Some in Hf. rewrite length_app. f_equal. cbn. lia. }
  rewrite expect_app. destruct (decide (l = [])) as [->|Hne]; [by cbn; rewrite He|].
  rewrite (expect_chain 0) by done. cbn. by rewrite He.
Qed.

(** ** The edits of a writer that is left out *)

Abbreviation groups_ok l := (Forall group_edit l).

Lemma group_edit_range e r : group_edit e -> group_of e = Some r -> 0 <= r < 2 ^ 32 - 1 /\ wal_edit e = false.
Proof. unfold group_edit. intros H E. by rewrite E in H. Qed.

Lemma in_group_expect l : forall r x, 0 <= r -> expect (Some r) l = Some x ->
  (Z.of_nat (in_group l) <= r /\ x = Some (r - Z.of_nat (in_group l))) \/ Z.of_nat (in_group l) = r + 1.
Proof.
  induction l as [|e l IH]; intros r x Hr; cbn [expect in_group].
  - intros [= <-]. left. split; [lia|]. f_equal. lia.
  - unfold IsInAtomicGroup, GetRemainingEntries. destruct (group_of e) as [r'|]; [|done]. case_decide; [subst r'|done].
    rewrite bool_decide_eq_true_2 by done. cbn [negb default from_option id]. unfold after. destruct (Z.eqb_spec r 0) as [->|Hr0].
    + right. lia.
    + intros [[H1 ->]|H1]%IH; [left|right; lia|lia]. split; [lia|]. f_equal. lia.
Qed.

(** ** The batch *)

Definition edits_of (g : Group) : list VersionEdit := fst <$> batch_edits g.

(** The batch is complete up to the part of the group that the writers are in. *)
Definition batch_inv (x : option Z) (g : Group) : Prop :=
  (expect None (edits_of g) = Some None) \/
  exists B0 G r, edits_of g = B0 ++ G /\ expect None B0 = Some None /\ x = Some r /\ 0 <= r /\ G <> [] /\ chain r G /\
    group_start g = Some (length B0) /\ groups_ok G.

Lemma last_edits g e : last (edits_of g) = Some e <-> exists ts, last (batch_edits g) = Some (e, ts).
Proof.
  unfold edits_of. rewrite fmap_last. destruct (last (batch_edits g)) as [[e' ts]|]; cbn; [|split; [done|by intros [? ?]]].
  split; [intros [= ->]; eauto|by intros [? [= -> ->]]].
Qed.

(** Whether the batch ends in an open group. *)
Definition ends_open (g : Group) : bool := match last (edits_of g) with Some e => opens e | None => false end.

Lemma open_group_spec g : groups_ok (edits_of g) -> open_group g = ends_open g.
Proof.
  intros Hg. unfold open_group, ends_open. destruct (last (batch_edits g)) as [[e ts]|] eqn:E.
  - assert (last (edits_of g) = Some e) as E' by (apply last_edits; eauto). rewrite E'. rewrite opens_spec.
    apply last_Some_elem_of in E'. rewrite Forall_forall in Hg. specialize (Hg e E').
    unfold IsInAtomicGroup, GetRemainingEntries. destruct (group_of e) as [r|] eqn:Er; [|done]. apply (group_edit_range e r) in Hg as [Hg _]; [|done].
    rewrite bool_decide_eq_true_2 by done. cbn [default from_option id andb]. destruct (Z.ltb_spec 0 r), (Z.eqb_spec r 0); cbn; lia || done.
  - unfold edits_of. rewrite fmap_last, E. done.
Qed.

Lemma complete_ends_open g : expect None (edits_of g) = Some None -> ends_open g = false.
Proof.
  unfold ends_open. intros H. destruct (last (edits_of g)) as [e|] eqn:E; [|done].
  apply last_Some in E as [l E]. rewrite E in H. by eapply complete_last.
Qed.

Lemma chain_ends_open g B0 G r : edits_of g = B0 ++ G -> 0 <= r -> G <> [] -> chain r G -> ends_open g = true.
Proof.
  intros E Hr HG Hc. unfold ends_open. destruct G as [|e G _] using rev_ind; [done|]. rewrite E, app_assoc, last_snoc, opens_spec.
  rewrite (Hc (length G) e) by (by rewrite list_lookup_middle). rewrite length_app. cbn.
  apply negb_true_iff, Z.eqb_neq. lia.
Qed.

Lemma edits_of_snoc g e ts vl m start : edits_of (mkGroup (batch_edits g ++ [(e, ts)]) vl m start) = edits_of g ++ [e].
Proof. unfold edits_of. cbn. by rewrite fmap_app. Qed.

Lemma next_group_start_spec e g : next_group_start e g =
  if IsInAtomicGroup e then if ends_open g then group_start g else Some (length (edits_of g)) else None.
Proof.
  unfold next_group_start, ends_open. destruct (IsInAtomicGroup e); [|done].
  assert (length (edits_of g) = length (batch_edits g)) as -> by apply length_fmap.
  destruct (last (batch_edits g)) as [[b ts]|] eqn:E.
  - assert (last (edits_of g) = Some b) as -> by (apply last_edits; eauto). done.
  - unfold edits_of. by rewrite fmap_last, E.
Qed.

(** An edit that is written goes on with the group of the edits before it. *)
Lemma batch_push x e x' g ts vl m : batch_inv x g -> expect x [e] = Some x' -> groups_ok [e] ->
  batch_inv x' (mkGroup (batch_edits g ++ [(e, ts)]) vl m (next_group_start e g)).
Proof.
  intros Hi Hx Hok. unfold batch_inv. rewrite edits_of_snoc. cbn [group_start]. rewrite next_group_start_spec.
  rewrite Forall_singleton in Hok. cbn [expect] in Hx. destruct Hi as [Hc|(B0 & G & r & E & HB & -> & Hr & HG & Hch & Hs & Hgk)].
  - rewrite (complete_ends_open g Hc). destruct (group_of e) as [r|] eqn:He.
    + assert (x' = after r) as -> by (destruct x; [case_decide|]; by simplify_eq). unfold after.
      destruct (Z.eqb_spec r 0) as [->|Hr0].
      * left. rewrite expect_app, Hc. cbn. by rewrite He.
      * right. exists (edits_of g), [e], (r - 1). pose proof (group_edit_range e r Hok He) as [? _]. unfold IsInAtomicGroup. rewrite He, bool_decide_eq_true_2 by done.
        split_and!; try done; [lia| |]; [|by rewrite Forall_singleton].
        apply (chain_snoc r []); [by intros ? ?|done].
    + left. destruct x; [done|]. rewrite expect_app, Hc. cbn. by rewrite He.
  - rewrite (chain_ends_open g B0 G r) by done. destruct (group_of e) as [r'|] eqn:He; [|done]. case_decide; [subst r'|done].
    injection Hx as <-. unfold IsInAtomicGroup. rewrite He, bool_decide_eq_true_2 by done. unfold after.
    destruct (Z.eqb_spec r 0) as [->|Hr0].
    + left. rewrite E, <- app_assoc, expect_app, HB. cbn [mbind option_bind]. rewrite expect_app, (expect_chain 0) by done.
      cbn. by rewrite He.
    + right. exists B0, (G ++ [e]), (r - 1). rewrite E, <- app_assoc. split_and!; try done; [lia|by destruct G|by apply chain_snoc|].
      by rewrite Forall_app, Forall_singleton.
Qed.

Lemma subtract_group k x r : group_of x.1 = Some r -> 0 <= r - Z.of_nat k < 2 ^ 32 ->
  group_of (subtract_remaining k x).1 = Some (r - Z.of_nat k).
Proof.
  intros Hx Hr. unfold subtract_remaining. rewrite Hx. cbn. destruct (x.1). cbn. f_equal. by apply Z.mod_small.
Qed.

Lemma subtract_wal k x : wal_edit (subtract_remaining k x).1 = wal_edit x.1.
Proof. destruct x as [e ts]. unfold subtract_remaining. cbn [fst]. destruct (group_of e); [by destruct e|done]. Qed.

(** Edits that are left out are subtracted from those of their group. *)
Lemma batch_skip x l x' g : batch_inv x g -> groups_ok (edits_of g) -> expect x l = Some x' ->
  batch_inv x' (skip_dropped l g) /\ groups_ok (edits_of (skip_dropped l g)).
Proof.
  intros Hi Hok Hx. unfold skip_dropped. rewrite open_group_spec by done.
  destruct Hi as [Hc|(B0 & G & r & E & HB & -> & Hr & HG & Hch & Hs & Hgk)]; [rewrite complete_ends_open by done; split; [by left|done]|].
  rewrite (chain_ends_open g B0 G r) by done. rewrite Hs. cbn [default from_option id]. set (k := in_group l) in *.
  set (G' := fst <$> (subtract_remaining k <$> drop (length B0) (batch_edits g))).
  assert (edits_of (mkGroup (take (length B0) (batch_edits g) ++ (subtract_remaining k <$> drop (length B0) (batch_edits g)))
    (versions g) (max_last_sequence g) (Some (length B0))) = B0 ++ G') as E'.
  { unfold edits_of; cbn. rewrite fmap_app. f_equal. rewrite fmap_take. fold (edits_of g). by rewrite E, take_app_length. }
  assert (G = fst <$> drop (length B0) (batch_edits g)) as EG by (rewrite fmap_drop; fold (edits_of g); by rewrite E, drop_app_length).
  pose proof (in_group_expect l r x' Hr Hx) as Hk. fold k in Hk.
  assert (length G' = length G) as Hlen by (unfold G'; rewrite EG, !length_fmap; done).
  assert (chain (r - Z.of_nat k) G' /\ groups_ok G') as [HG' Hok'].
  { split.
    - intros i e He. pose proof He as Hi. apply lookup_lt_Some in Hi. rewrite Hlen in *. unfold G' in He. rewrite <- list_fmap_compose, list_lookup_fmap in He.
      apply fmap_Some in He as (y & Hy & ->). assert (G !! i = Some y.1) as Hg by (rewrite EG, list_lookup_fmap, Hy; done).
      pose proof (Hch i _ Hg) as Hr'. rewrite Forall_lookup in Hgk. pose proof (group_edit_range _ _ (Hgk i _ Hg) Hr') as [? _].
      unfold compose. rewrite (subtract_group k y _ Hr') by lia. f_equal. lia.
    - unfold G'. rewrite <- list_fmap_compose, Forall_fmap, Forall_lookup. intros i y Hy. unfold compose.
      assert (G !! i = Some y.1) as Hg by (rewrite EG, list_lookup_fmap, Hy; done). pose proof (lookup_lt_Some _ _ _ Hg) as Hi.
      pose proof (Hch i _ Hg) as Hr'. rewrite Forall_lookup in Hgk. pose proof (group_edit_range _ _ (Hgk i _ Hg) Hr') as [? Hw].
      unfold group_edit. rewrite (subtract_group k y _ Hr') by lia. rewrite subtract_wal. split; [lia|done]. }
  assert (G' <> []) as HG0 by (destruct G', G; done).
  unfold batch_inv. rewrite E'. cbn [group_start]. split; [|rewrite E, Forall_app in Hok; apply Forall_app; by destruct Hok].
  destruct Hk as [[Hk ->]|Hk]; [right|left].
  - exists B0, G', (r - Z.of_nat k). split_and!; try done. lia.
  - rewrite expect_app, HB. cbn. apply expect_closed; [done|]. by replace (-1) with (r - Z.of_nat k) by lia.
Qed.

(** ** The loop over the writers *)

Lemma set_edit_counters_group c e m : group_of (set_edit_counters c e m).1 = group_of e /\ wal_edit (set_edit_counters c e m).1 = wal_edit e.
Proof. unfold set_edit_counters. repeat case_match; simplify_eq; by destruct e. Qed.

Lemma group_edit_same e e' : group_of e' = group_of e -> wal_edit e' = wal_edit e -> group_edit e -> group_edit e'.
Proof. unfold group_edit. by intros -> ->. Qed.

Lemma expect_same e e' x : group_of e' = group_of e -> expect x [e'] = expect x [e].
Proof. intros H. cbn. by rewrite H. Qed.

Lemma add_edits_groups c o l : forall b g x x' b' g', batch_inv x g -> groups_ok (edits_of g) -> groups_ok l -> expect x l = Some x' ->
  add_edits c o b l g = Some (OK, b', g') -> batch_inv x' g' /\ groups_ok (edits_of g').
Proof.
  induction l as [|e l IH]; intros b g x x' b' g' Hi Hb Hl Hx; cbn [add_edits].
  { cbn in Hx. intros [= <- <-]. by simplify_eq. }
  apply Forall_cons in Hl as [He Hl]. change (e :: l) with ([e] ++ l) in Hx. rewrite expect_app in Hx.
  destruct (expect x [e]) as [x1|] eqn:Hx1; [|done]. cbn [mbind option_bind] in Hx.
  destruct (set_edit_counters_group c e (max_last_sequence g)) as [Hg Hw]. unfold LogAndApplyHelper.
  destruct (set_edit_counters c e (max_last_sequence g)) as [e' m]. cbn [fst] in *.
  assert (forall b1, add_edits c o b1 l (mkGroup (batch_edits g ++ [(e', Some (opt_timestamp_size o))]) (versions g) m (next_group_start e g)) =
    Some (OK, b', g') -> batch_inv x' g' /\ groups_ok (edits_of g')) as Hnext.
  { intros b1. assert (next_group_start e g = next_group_start e' g) as -> by (unfold next_group_start, IsInAtomicGroup; by rewrite Hg).
    apply (IH b1 _ x1 x'); [|rewrite edits_of_snoc, Forall_app, Forall_singleton; split; [done|by apply (group_edit_same e)]|done|done].
    apply (batch_push x); [done|by rewrite (expect_same e)|apply Forall_singleton; by apply (group_edit_same e)]. }
  destruct b as [r|]; [|apply Hnext]. cbn [mbind option_bind]. destruct (Apply (opt_builder o) e' r) as [[[] r']|]; cbn [mbind option_bind]; try done. apply Hnext.
Qed.

Lemma set_versions_groups l g x : (batch_inv x g /\ groups_ok (edits_of g)) -> batch_inv x (set_versions l g) /\ groups_ok (edits_of (set_versions l g)).
Proof. done. Qed.

Lemma add_writers_groups vs ws : forall g x x' g', batch_inv x g -> groups_ok (edits_of g) -> groups_ok (concat (edit_list <$> ws)) ->
  expect x (concat (edit_list <$> ws)) = Some x' -> add_writers vs ws g = Some (OK, g') -> batch_inv x' g' /\ groups_ok (edits_of g').
Proof.
  induction ws as [|w ws IH]; intros g x x' g' Hi Hb Hl Hx; cbn [add_writers].
  { cbn in Hx. intros [= <-]. by simplify_eq. }
  cbn [fmap list_fmap concat] in Hl, Hx. apply Forall_app in Hl as [Hw Hl]. rewrite expect_app in Hx.
  destruct (expect x (edit_list w)) as [x1|] eqn:Hx1; [|done]. cbn [mbind option_bind] in Hx.
  assert (forall g1, add_writer vs w g = Some (OK, g1) -> batch_inv x1 g1 /\ groups_ok (edits_of g1)) as Hone.
  { intros g1. unfold add_writer. destruct (column_families vs !! mw_cfd w) as [c|]; [|intros [= <-]; by apply (batch_skip x)].
    destruct (match find_version (mw_cfd w) (versions g) with Some _ => _ | None => _ end) as [b g0] eqn:E0.
    assert (batch_inv x g0 /\ groups_ok (edits_of g0)) as [Hi0 Hb0] by (repeat case_match; simplify_eq; done).
    destruct (add_edits (counters vs) (cf_options c) b (edit_list w) g0) as [[[[] b'] g2]|] eqn:E; cbn [mbind option_bind]; try done.
    intros [= <-]. assert (batch_inv x1 g2 /\ groups_ok (edits_of g2)) as H2 by (apply (add_edits_groups (counters vs) (cf_options c) (edit_list w) b g0 x x1 b'); assumption).
    by destruct b'; [apply set_versions_groups|]. }
  destruct (add_writer vs w g) as [[[] g1]|]; cbn [mbind option_bind]; try done.
  destruct (Hone g1 eq_refl) as [H1 H2]. by apply (IH g1 x1).
Qed.

(** The batch of writers with complete groups has complete groups. *)
Lemma batch_complete vs ws m g : groups_ok (concat (edit_list <$> ws)) -> expect None (concat (edit_list <$> ws)) = Some None ->
  add_writers vs ws (mkGroup [] [] m None) = Some (OK, g) -> expect None (edits_of g) = Some None /\ groups_ok (edits_of g).
Proof.
  intros Hl Hx Hg. destruct (add_writers_groups vs ws (mkGroup [] [] m None) None None g) as [[H|(? & ? & ? & _ & _ & ? & _)] H2]; try done.
  by left.
Qed.

(** ** What the batch holds *)

(** An edit without the members that the commit sets. *)
Definition erase (e : VersionEdit) : VersionEdit :=
  EditCodec.set_atomic_group None (EditCodec.set_prev_log_number None
    (EditCodec.set_next_file_number None (EditCodec.set_last_sequence None e))).

(** The edits of writers whose column family was not dropped. *)
Definition written (vs : VersionSet) (ws : list ManifestWriter) : list VersionEdit :=
  concat (edit_list <$> filter (fun w => is_Some (column_families vs !! mw_cfd w)) ws).

Lemma erase_counters c e m : erase (set_edit_counters c e m).1 = erase e.
Proof. unfold set_edit_counters. repeat case_match; simplify_eq; by destruct e. Qed.

Lemma erase_skip l g : erase <$> edits_of (skip_dropped l g) = erase <$> edits_of g.
Proof.
  unfold skip_dropped. destruct (open_group g); [|done]. unfold edits_of. cbn [batch_edits].
  set (k := default _ _). transitivity (erase <$> (fst <$> take k (batch_edits g) ++ drop k (batch_edits g))); [|by rewrite take_drop].
  rewrite !fmap_app. f_equal. rewrite <- !list_fmap_compose. apply list_fmap_ext. intros _ [e ts] _. unfold compose, subtract_remaining.
  cbn [fst]. destruct (group_of e); [by destruct e|done].
Qed.

Lemma add_edits_erase c o l : forall b g b' g', add_edits c o b l g = Some (OK, b', g') ->
  erase <$> edits_of g' = (erase <$> edits_of g) ++ (erase <$> l).
Proof.
  induction l as [|e l IH]; intros b g b' g'; cbn [add_edits]; [intros [= <- <-]; cbn; by rewrite app_nil_r|].
  unfold LogAndApplyHelper. pose proof (erase_counters c e (max_last_sequence g)) as He.
  destruct (set_edit_counters c e (max_last_sequence g)) as [e' m]. cbn [fst] in He.
  assert (forall b1, add_edits c o b1 l (mkGroup (batch_edits g ++ [(e', Some (opt_timestamp_size o))]) (versions g) m (next_group_start e g)) =
    Some (OK, b', g') -> erase <$> edits_of g' = (erase <$> edits_of g) ++ (erase <$> e :: l)) as Hnext.
  { intros b1 ->%IH. rewrite edits_of_snoc, fmap_app, <- app_assoc. cbn. by rewrite He. }
  destruct b as [r|]; [|apply Hnext]. cbn [mbind option_bind].
  destruct (Apply (opt_builder o) e' r) as [[[] r']|]; cbn [mbind option_bind]; try done. apply Hnext.
Qed.

Lemma add_writers_erase vs ws : forall g g', add_writers vs ws g = Some (OK, g') ->
  erase <$> edits_of g' = (erase <$> edits_of g) ++ (erase <$> written vs ws).
Proof.
  induction ws as [|w ws IH]; intros g g'; cbn [add_writers]; [intros [= <-]; cbn; by rewrite app_nil_r|].
  assert (forall g1, add_writer vs w g = Some (OK, g1) -> erase <$> edits_of g1 = (erase <$> edits_of g) ++ (erase <$> written vs [w])) as Hone.
  { intros g1. unfold add_writer, written. destruct (column_families vs !! mw_cfd w) as [c|] eqn:Ec.
    - rewrite filter_cons_True by (by rewrite Ec). rewrite filter_nil. cbn [fmap list_fmap concat]. rewrite app_nil_r.
      destruct (match find_version (mw_cfd w) (versions g) with Some _ => _ | None => _ end) as [b g0] eqn:E0.
      assert (edits_of g0 = edits_of g) as <- by (repeat case_match; simplify_eq; done).
      destruct (add_edits (counters vs) (cf_options c) b (edit_list w) g0) as [[[[] b'] g2]|] eqn:E; cbn [mbind option_bind]; try done.
      intros [= <-]. apply add_edits_erase in E. by destruct b'.
    - rewrite filter_cons_False by (rewrite Ec; by intros [? ?]). intros [= <-]. cbn. by rewrite erase_skip, app_nil_r. }
  destruct (add_writer vs w g) as [[[] g1]|]; cbn [mbind option_bind]; try done.
  intros ->%IH. rewrite (Hone g1 eq_refl), <- app_assoc, <- fmap_app. do 2 f_equal. unfold written.
  rewrite <- concat_app, <- fmap_app, <- filter_app. done.
Qed.

(** ** An example *)

Definition example_cf_options : CfOptions :=
  mkCfOptions 3 BytewiseComparator kDefaultColumnFamilyName 0 (fun _ _ => 0) true false Build.example_options.

Definition example_cfd (name : list Z) : ColumnFamilyData :=
  mkCfd name example_cf_options 0 [] 1 (new_storage 3 None kMustPresent).

(** Column families 0 and 2; number 1 was dropped. *)
Definition example_set : VersionSet :=
  mkVersionSet (<[0 := example_cfd kDefaultColumnFamilyName]> (<[2 := example_cfd [97]]> ∅)) [0; 2] 2 WalEdit.Reset [] (mkCounters 20 0 0 0 0 0 5 0).

Definition example_add (id r n : Z) : VersionEdit :=
  EditCodec.set_atomic_group (Some r)
    (EditCodec.set_column_family id (EditCodec.AddFile 1 (Build.example_file n 0 1 [97] [98]) EditCodec.empty_edit)).

(** An atomic group over the three column families. *)
Definition example_writers : list ManifestWriter :=
  [mkManifestWriter 0 [example_add 0 2 7]; mkManifestWriter 1 [example_add 1 1 8]; mkManifestWriter 2 [example_add 2 0 9]].

Definition example_group : Group :=
  match add_writers example_set example_writers (mkGroup [] [] 5 None) with Some (_, g) => g | None => mkGroup [] [] 0 None end.

Lemma example_group_ok : add_writers example_set example_writers (mkGroup [] [] 5 None) = Some (OK, example_group).
Proof. vm_compute. reflexivity. Qed.

(** C12: whatever column families were dropped while writers waited, a group commit of
    complete atomic groups writes the edits of the other writers, with their counters set,
    as complete atomic groups again: recovery accepts their records, applies all of the
    edits in their order, and ends with an empty group buffer. *)
Theorem dropped_families_keep_groups vs ws m g :
  Forall group_edit (concat (edit_list <$> ws)) -> expect None (concat (edit_list <$> ws)) = Some None ->
  add_writers vs ws (mkGroup [] [] m None) = Some (OK, g) ->
  erase <$> edits_of g = erase <$> written vs ws /\
  forall env recs h h', decodes recs (edits_of g) -> replay_edits env (edits_of g) h = Some (OK, h') ->
    replay_records env recs (set_read_buffer (mkBuffer 0 []) h) = Some (OK, set_read_buffer (mkBuffer 0 []) h').
Proof.
  intros Hl Hx Hg. split; [by apply add_writers_erase in Hg|]. intros env recs h h' Hd Hr.
  destruct (batch_complete vs ws m g Hl Hx Hg) as [Hc Hok].
  assert (pending [] (edits_of g) = []) as Hp by (by apply (pending_complete (edits_of g) [] None)).
  destruct (replay_grouped env recs (edits_of g) [] None None h h' Hd Hok eq_refl Hc) as [H _]; [by rewrite applied_end by done|].
  by rewrite Hp in H.
Qed.

Lemma dropped_families_keep_groups_witness :
  EditCodec.atomic_group <$> edits_of example_group = [Some 1; Some 0] /\
  erase <$> edits_of example_group = erase <$> written example_set example_writers.
Proof.
  split; [vm_compute; reflexivity|].
  refine (proj1 (dropped_families_keep_groups example_set example_writers 5 example_group _ _ example_group_ok)); [|vm_compute; reflexivity].
  repeat (apply Forall_cons_2; [vm_compute; repeat split; discriminate|]). apply Forall_nil_2.
Defined.

End GroupCommit.
