(* ===== verification/Crash.v ===== *)
(** * Recovery after a crash

    A MANIFEST that was cut at any byte is recovered as the complete atomic groups among
    the records that lie before the cut, and a version that cannot be saved at the end of
    a recovery is lost without an error. *)

From Stdlib Require Import ZArith Lia.
From stdpp Require Import base numbers list sorting gmap sets.
From S2P Require Import Prelude Version Coding WalEdit FileCodec EditCodec LogWriter LogReader Log Storage Builder BuilderSpec BuilderSave Build Recover Replay LogApply GroupCommit.

Import Coding FileCodec LogReader Storage Builder Recover Replay.
Local Open Scope Z_scope.

Module Crash.

(** ** The end of a recovery does not use the group buffer *)

Definition ignores_buffer (op : Z -> Handler -> option (Status * Handler)) : Prop :=
  forall id b h, op id (set_read_buffer b h) = map_buffer b (op id h).

Lemma each_family_buffer op l b h : ignores_buffer op ->
  each_family op l (set_read_buffer b h) = map_buffer b (each_family op l h).
Proof.
  intros Hop. revert h. induction l as [|id l IH]; intros h; [done|]. cbn. rewrite Hop.
  destruct (op id h) as [[[] h']|]; cbn; try done; apply IH.
Qed.

Lemma families_buffer env : ignores_buffer check_num_levels /\ ignores_buffer (load_tables env) /\ ignores_buffer (create_version env).
Proof.
  split_and!; intros id b h.
  - unfold check_num_levels. cbn. by destruct (builders h !! id).
  - unfold load_tables, LoadTables. cbn. by destruct (builders h !! id) as [r|]; repeat case_match; simplify_eq/=.
  - unfold create_version. rewrite MaybeCreate_buffer. by destruct (MaybeCreateVersionBeforeApplyEdit _ _ _ _ _) as [[s h']|].
Qed.

Lemma CheckIterationResult_buffer env off s b h :
  CheckIterationResult env off s (set_read_buffer b h) = map_buffer b (CheckIterationResult env off s h).
Proof.
  destruct (families_buffer env) as (H1 & H2 & H3). unfold CheckIterationResult. destruct s; try done.
  cbn [version_edit_params set_read_buffer do_not_open_column_families].
  destruct (negb _); [done|]. destruct (_ && _); [done|].
  set (g := fun vs => set_counters (mark_counters _ _) _). change (on_set g (set_read_buffer b h)) with (set_read_buffer b (on_set g h)).
  set (h1 := on_set g h). change (version_set (set_read_buffer b h1)) with (version_set h1).
  rewrite each_family_buffer by done. destruct (each_family check_num_levels _ h1) as [[[] h2]|]; cbn [map_buffer fmap option_fmap option_map mbind option_bind]; try done.
  rewrite each_family_buffer by done. destruct (each_family (load_tables env) _ h2) as [[[] h3]|]; cbn [map_buffer fmap option_fmap option_map mbind option_bind]; try done.
  rewrite each_family_buffer by done. by destruct (each_family (create_version env) _ h3) as [[[] h4]|].
Qed.

(** ** Recovering edits *)

Definition finish (env : Env) (off : Z) (s : Status) (h : Handler) : option (Status * VersionSet) :=
  '(s, h) ← CheckIterationResult env off s h;
  match s with
  | OK => Some (OK, set_column_families (RecoverEpochNumbers <$> column_families (version_set h)) (version_set h))
  | _ => Some (s, version_set h)
  end.

(** A recovery without a log: the edits are applied one after the other. *)
Definition recover_edits (env : Env) (off : Z) (l : list VersionEdit) : option (Status * VersionSet) :=
  let '(s, h) := Initialize env new_handler in
  match s with OK => '(s, h) ← replay_edits env l h; finish env off s h | _ => finish env off s h end.

Lemma finish_buffer env off s b h : finish env off s (set_read_buffer b h) = finish env off s h.
Proof. unfold finish. rewrite CheckIterationResult_buffer. by destruct (CheckIterationResult env off s h) as [[[] h']|]. Qed.

Section reader.
Context {D : Type} (stream : Streaming D) (cfg : Config).

(** Recovery of a log without reports whose records decode to edits. *)
Lemma Recover_replay env n r' f recs l x h0 h1 :
  LogWriter.size f < max_manifest_read_size env -> LogWriter.size f <= u64_max ->
  (forall fuel, (n <= fuel)%nat -> read_all stream cfg fuel fuel kTolerateCorruptedTailRecords (new_reader f []) = Some (r', recs)) ->
  reports r' = [] -> decodes recs l -> Forall group_edit l -> expect None l = Some x ->
  Initialize env new_handler = (OK, h0) -> replay_edits env (applied [] l) h0 = Some (OK, h1) ->
  exists off, off <= LogWriter.size f /\ forall fuel, (n <= fuel)%nat ->
    Recover stream cfg env fuel (new_reader f []) = recover_edits env off (applied [] l).
Proof.
  intros HN HN' Ha Hr Hd Hg Hx H0 H1. exists (end_of_buffer_offset r').
  assert (placed (LogWriter.size f) r') as [Hp1 Hp2].
  { pose proof (read_all_extends stream cfg _ _ _ _ _ _ (Ha n (Nat.le_refl n))) as [_ H]. apply H; [done|]. apply new_reader_placed. }
  split; [unfold LogWriter.size in *; lia|]. intros fuel Hf. unfold Recover, Iterate. rewrite H0.
  assert (read_buffer h0 = mkBuffer 0 []) as Hb.
  { unfold Initialize in H0. case_match; [|done]. by injection H0 as <-. }
  destruct (replay_grouped env recs l [] None x h0 h1 Hd Hg eq_refl Hx H1) as [Hrep _].
  assert (set_read_buffer (buffer_of [] None) h0 = h0) as E by (destruct h0; cbn in *; by subst). rewrite E in Hrep.
  destruct (iterate_replay stream cfg env (LogWriter.size f) fuel fuel fuel (new_reader f []) r' recs h0 OK _
    (Nat.le_refl fuel) ltac:(done) HN HN' (new_reader_placed f) (Ha fuel Hf) Hr Hrep)
    as (r'' & -> & Hr'' & Hlast). rewrite (Hlast eq_refl). cbn [mbind option_bind].
  rewrite log_read_status_nil by done. unfold recover_edits. rewrite H0, H1. cbn [mbind option_bind].
  rewrite CheckIterationResult_buffer. unfold finish. by destruct (CheckIterationResult env _ OK h1) as [[[] h2]|].
Qed.

End reader.

Lemma expect_prefix l1 l2 x y : expect x (l1 ++ l2) = Some y -> exists z, expect x l1 = Some z.
Proof. rewrite GroupCommit.expect_app. destruct (expect x l1); eauto; done. Qed.

(** ** Complete groups and an open one *)

(** The edits [p] are those of the open group, if there is one. *)
Definition open_part (p : list VersionEdit) (x : option Z) : Prop :=
  match x with None => p = [] | Some r => p <> [] /\ expect None p = Some (Some r) end.

Lemma open_part_next p x e r : open_part p x -> EditCodec.atomic_group e = Some r -> (x = None \/ x = Some r) ->
  expect None (p ++ [e]) = Some (after r) /\ open_part (if r =? 0 then [] else p ++ [e]) (after r).
Proof.
  intros Hp He Hx. assert (expect None (p ++ [e]) = Some (after r)) as H.
  { rewrite GroupCommit.expect_app. destruct Hx as [-> | ->]; cbn in Hp.
    - subst p. cbn. by rewrite He.
    - destruct Hp as [_ ->]. cbn. by rewrite He, decide_True. }
  split; [done|]. unfold after in *. destruct (r =? 0); [done|]. split; [by destruct p|done].
Qed.

Lemma groups_split l : forall p x y, open_part p x -> expect x l = Some y ->
  expect None (applied p l) = Some None /\ open_part (pending p l) y.
Proof.
  induction l as [|e l IH]; intros p x y Hp Hx.
  { cbn in Hx. simplify_eq. unfold applied. cbn. rewrite app_nil_r, Nat.sub_diag, take_0. done. }
  cbn [expect] in Hx. destruct (EditCodec.atomic_group e) as [r|] eqn:Er.
  - assert (x = None \/ x = Some r) as Hxr by (destruct x; [case_decide; simplify_eq; by right|by left]).
    assert (expect (after r) l = Some y) as Hx' by (destruct x; [by case_decide|done]).
    destruct (open_part_next p x e r Hp Er Hxr) as [He Hp']. destruct (IH _ _ _ Hp' Hx') as [IH1 IH2].
    cbn [pending]. rewrite Er. split; [|done]. unfold after in He. destruct (Z.eqb_spec r 0) as [->|Hr].
    + rewrite (applied_cons p e l []); [|cbn; by rewrite Er|by left]. rewrite decide_True, GroupCommit.expect_app, He by done. done.
    + rewrite (applied_cons p e l (p ++ [e])); [|cbn; rewrite Er; by destruct (Z.eqb_spec r 0)|by right].
      rewrite decide_False by (by destruct p). done.
  - destruct x; [done|]. cbn in Hp. subst p. destruct (IH [] None y eq_refl Hx) as [IH1 IH2]. cbn [pending]. rewrite Er. split; [|done].
    rewrite (applied_cons [] e l []); [|cbn; by rewrite Er|by left]. rewrite decide_True by done. cbn. by rewrite Er.
Qed.

(** What a cut of the edits leaves: the groups that are complete, without one that is not. *)
Lemma cut_applied l m : expect None l = Some None ->
  expect None (applied [] (take m l)) = Some None /\ applied [] (take m l) `prefix_of` l /\
  (pending [] (take m l) = [] \/ exists r, expect None (pending [] (take m l)) = Some (Some r)) /\
  applied [] (take m l) ++ pending [] (take m l) = take m l.
Proof.
  intros Hl. destruct (expect_prefix (take m l) (drop m l) None None) as [y Hy]; [by rewrite take_drop|].
  destruct (groups_split (take m l) [] None y eq_refl Hy) as [H1 H2]. pose proof (applied_pending [] (take m l)) as H3. cbn [app] in H3.
  split_and!; [done| | |done].
  - exists (pending [] (take m l) ++ drop m l). by rewrite app_assoc, H3, take_drop.
  - destruct y as [r|]; cbn in H2; [right; exists r; apply H2|by left].
Qed.

Lemma decodes_take recs l m : decodes recs l -> decodes (take m recs) (take m l).
Proof. apply Forall2_take. Qed.

(** C8: a MANIFEST cut at any byte is recovered as the edits of the records before the
    cut, without the edits of an atomic group whose last record is not among them: such a
    group is applied as a whole or not at all, and nothing is reported. *)
Theorem crash_atomic {D} (stream : Streaming D) cfg env l recs rem h0 h1 :
  decodes recs l -> Forall is_bytes recs -> Forall group_edit l -> expect None l = Some None ->
  Initialize env new_handler = (OK, h0) -> replay_edits env l h0 = Some (OK, h1) ->
  rem `prefix_of` LogWriter.image false 0 0 recs ->
  LogWriter.size rem < max_manifest_read_size env -> LogWriter.size rem <= u64_max ->
  exists n m off, (forall fuel, (n <= fuel)%nat ->
      Recover stream cfg env fuel (new_reader rem []) = recover_edits env off (applied [] (take m l))) /\
    expect None (applied [] (take m l)) = Some None /\
    (pending [] (take m l) = [] \/ exists r, expect None (pending [] (take m l)) = Some (Some r)) /\
    applied [] (take m l) ++ pending [] (take m l) = take m l /\ off <= LogWriter.size rem /\
    LogWriter.size (LogWriter.image false 0 0 (take m recs)) <= LogWriter.size rem /\ (m <= length recs)%nat /\
    ((m < length recs)%nat -> LogWriter.size rem < LogWriter.size (LogWriter.image false 0 0 (take (S m) recs))).
Proof.
  intros Hd Hb Hg Hl H0 H1 Hrem HN HN'.
  destruct (Log.read_image_new stream cfg false 0 ltac:(done) kTolerateCorruptedTailRecords recs rem Hb Hrem) as (n & m & r' & Ha & Hm1 & Hm2 & Hm3 & Hrep).
  destruct (cut_applied l m Hl) as (Hc & [t Ht] & Hp & Hcut).
  rewrite Ht in H1. apply replay_edits_app_inv in H1 as (hm & H1 & _).
  destruct (expect_prefix (take m l) (drop m l) None None) as [y Hy]; [by rewrite take_drop|].
  destruct (Recover_replay stream cfg env n r' rem (take m recs) (take m l) y h0 hm HN HN' Ha ltac:(apply Hrep; by left)
    (decodes_take recs l m Hd) ltac:(by apply Forall_take) Hy H0 H1) as (off & Hoff & Hrec).
  exists n, m, off. split_and!; done.
Qed.

(** ** Examples *)

Definition example_env : Env :=
  mkEnv {[kDefaultColumnFamilyName := GroupCommit.example_cf_options]} GroupCommit.example_cf_options false kMustPresent
    false false true (fun _ _ => (OK, false)) 1000000.

(** The first edit of a MANIFEST and an atomic group of two edits. *)
Definition example_manifest : list VersionEdit := EditCodec.reload 0 <$>
  [EditCodec.set_log_number (Some 3) (EditCodec.set_next_file_number (Some 20) (EditCodec.set_last_sequence (Some 9)
     (EditCodec.AddFile 1 (Build.example_file 6 0 1 [100] [101]) EditCodec.empty_edit)));
   GroupCommit.example_add 0 1 7;
   EditCodec.set_atomic_group (Some 0) (EditCodec.DeleteFile 1 6 EditCodec.empty_edit)].

Definition records (l : list VersionEdit) : list (list Z) := default [] ∘ EditCodec.EncodeTo (Some 0%nat) <$> l.

Definition example_cfg : Config := mkConfig true 0 false false 0 None.

(** The MANIFEST cut in its last record. *)
Definition example_cut : list Z :=
  let f := LogWriter.image false 0 0 (records example_manifest) in take (length f - 3) f.

Definition example_start : Handler := (Initialize example_env new_handler).2.
Definition example_end : Handler :=
  match replay_edits example_env example_manifest example_start with Some (_, h) => h | None => example_start end.

Lemma crash_atomic_witness : exists n m off, (forall fuel, (n <= fuel)%nat ->
    Recover no_stream example_cfg example_env fuel (new_reader example_cut []) =
    recover_edits example_env off (applied [] (take m example_manifest))).
Proof.
  destruct (crash_atomic no_stream example_cfg example_env example_manifest (records example_manifest) example_cut example_start example_end)
    as (n & m & off & H & _); [..|by exists n, m, off].
  - repeat (apply Forall2_cons; split; [vm_compute; reflexivity|]). by apply Forall2_nil.
  - apply (bool_decide_unpack _). vm_compute. exact I.
  - repeat (apply Forall_cons_2; [vm_compute; repeat split; discriminate|]). apply Forall_nil_2.
  - vm_compute. reflexivity.
  - vm_compute. reflexivity.
  - vm_compute. reflexivity.
  - apply prefix_take.
  - vm_compute. reflexivity.
  - vm_compute. discriminate.
Defined.

(** What the cut MANIFEST is recovered to: the file of the first edit only. *)
Example example_recovered :
  match Recover no_stream example_cfg example_env 1000 (new_reader example_cut []) with
  | Some (OK, vs) => (fun c => elements (dom (Storage.contents (cf_current c)))) <$> column_families vs !! 0 = Some [6]
  | _ => False
  end.
Proof. vm_compute. reflexivity. Qed.

(** ** A version that cannot be saved *)

Lemma Apply_empty `{Comparator} o r : CheckConsistency o (base_vstorage r) = OK -> Apply o EditCodec.empty_edit r = Some (OK, r).
Proof. unfold Apply. by intros ->. Qed.

Lemma create_version_lost env id h c r : column_families (version_set h) !! id = Some c -> builders h !! id = Some r ->
  (let C := opt_comparator (cf_options c) in CheckConsistency (opt_builder (cf_options c)) (base_vstorage r) = OK) ->
  (let C := opt_comparator (cf_options c) in
   (SaveTo (opt_builder (cf_options c)) r (new_storage (num_levels (cf_current c)) (Some (cf_current c)) (epoch_number_requirement env))).1 <> OK) ->
  create_version env id h = Some (OK, h).
Proof.
  intros Hc Hr Hb Hs. cbn zeta in *. unfold create_version, MaybeCreateVersionBeforeApplyEdit. rewrite Hc, Hr. cbn [mbind option_bind].
  destruct (SaveTo _ r _) as [s v]. cbn [fst] in Hs. destruct s; [done|..]; rewrite (Apply_empty _ r) by done; cbn [mbind option_bind];
    (rewrite insert_id by done; by destruct h).
Qed.

(** Two edits that add overlapping files to level 1. *)
Definition overlapping_manifest : list VersionEdit := EditCodec.reload 0 <$>
  [EditCodec.set_log_number (Some 3) (EditCodec.set_next_file_number (Some 20) (EditCodec.set_last_sequence (Some 9)
     (EditCodec.AddFile 1 (Build.example_file 6 0 1 [100] [103]) EditCodec.empty_edit)));
   EditCodec.AddFile 1 (Build.example_file 7 0 1 [102] [105]) EditCodec.empty_edit].

(** The same options with consistency checks. *)
Definition checking_options : CfOptions :=
  mkCfOptions 3 BytewiseComparator kDefaultColumnFamilyName 0 (fun _ _ => 0) true false (mkOptions false false true).
Definition checking_env : Env :=
  mkEnv {[kDefaultColumnFamilyName := checking_options]} checking_options false kMustPresent
    false false true (fun _ _ => (OK, false)) 1000000.

(** The recovery of this MANIFEST succeeds, with no file. *)
Example overlapping_recovered :
  match Recover no_stream example_cfg checking_env 1000 (new_reader (LogWriter.image false 0 0 (records overlapping_manifest)) []) with
  | Some (OK, vs) => (fun c => elements (dom (Storage.contents (cf_current c)))) <$> column_families vs !! 0 = Some []
  | _ => False
  end.
Proof. vm_compute. reflexivity. Qed.

Definition overlapping_handler : Handler :=
  match replay_edits checking_env overlapping_manifest (Initialize checking_env new_handler).2 with Some (_, h) => h | None => new_handler end.

Definition overlapping_rep : Rep :=
  default (new_rep (new_storage 3 None kMustPresent)) (builders overlapping_handler !! 0).

Definition overlapping_family : ColumnFamilyData :=
  default (GroupCommit.example_cfd []) (column_families (version_set overlapping_handler) !! 0).

(** C37: at the end of a recovery, a version that does not pass the consistency checks is
    not installed, and this is not an error: the step that creates the versions reports
    success and leaves the column family with the version it was created with. *)
Theorem unsaved_version_ignored env id h c r : let C := opt_comparator (cf_options c) in let o := opt_builder (cf_options c) in
  column_families (version_set h) !! id = Some c -> builders h !! id = Some r ->
  CheckConsistency o (base_vstorage r) = OK ->
  (SaveTo o r (new_storage (num_levels (cf_current c)) (Some (cf_current c)) (epoch_number_requirement env))).1 <> OK ->
  create_version env id h = Some (OK, h).
Proof. intros C o. apply create_version_lost. Qed.

Lemma unsaved_version_ignored_witness :
  cf_current <$> column_families (version_set overlapping_handler) !! 0 = Some (new_storage 3 None kMustPresent) /\
  create_version checking_env 0 overlapping_handler = Some (OK, overlapping_handler).
Proof.
  split; [vm_compute; reflexivity|].
  apply (unsaved_version_ignored checking_env 0 overlapping_handler overlapping_family overlapping_rep); [vm_compute; reflexivity..|].
  vm_compute. discriminate.
Defined.

End Crash.
