(* ===== verification/ManifestSpec.v ===== *)
(** * What a MANIFEST means

    The specification of a MANIFEST: its edits, one after the other, give the column
    families with their options, log numbers and the states of their versions
    ([BuilderSpec.State]), and the counters.  Recovery implements it: the handler of
    [Recover] after the records of the edits holds what the specification says, and the
    versions it creates have these files.

    Covered are databases without blob files, timestamps and tracked write-ahead logs;
    these are off by default. *)

From Stdlib Require Import ZArith Lia.
From stdpp Require Import base numbers list sorting gmap sets.
From S2P Require Import Prelude Version Coding WalEdit FileCodec EditCodec LogWriter LogReader Log Storage Builder BuilderSpec BuilderSave Build Recover Replay LogApply GroupCommit Crash.

Import Coding FileCodec Storage Builder BuilderSpec Recover Replay.
Local Open Scope Z_scope.

Module ManifestSpec.

(** ** The specification *)

Record Family := mkFamily {
  fam_name : list Z;
  fam_options : CfOptions;
  fam_log : Z;
  fam_state : State;
}.

(** [ab_param] is the last value of the largest column family that an edit recorded, and
    [ab_max] the largest number of a column family that was added. *)
Record Abs := mkAbs {
  ab_families : gmap Z Family;
  ab_ids : list Z;
  ab_max : Z;
  ab_param : option Z;
  ab_log : bool;
  ab_next : option Z;
  ab_seq : option Z;
  ab_min : Z;
}.

Definition empty_state : State := mkState ∅ ∅ ∅.

Definition env_options (env : Env) (name : list Z) : option CfOptions :=
  if decide (name = kPersistentStatsColumnFamilyName) then Some (stats_options env) else name_to_options env !! name.

Definition set_families (m : gmap Z Family) (l : list Z) (n : Z) (a : Abs) : Abs :=
  mkAbs m l n (ab_param a) (ab_log a) (ab_next a) (ab_seq a) (ab_min a).

Definition on_fam (id : Z) (g : Family -> Family) (a : Abs) : Abs :=
  set_families (alter g id (ab_families a)) (ab_ids a) (ab_max a) a.

(** The levels of an edit exist. *)
Definition in_levels (num : nat) (e : VersionEdit) : Prop :=
  Forall (fun d => 0 <= d.1 < Z.of_nat num) (EditCodec.deleted_files e) /\ Forall (fun lf => 0 <= lf.1 < Z.of_nat num) (EditCodec.new_files e).

#[global] Instance in_levels_dec num e : Decision (in_levels num e).
Proof. unfold in_levels. apply _. Defined.

Definition spec_create (o : CfOptions) (id : Z) (name : list Z) (log : Z) (a : Abs) : Abs :=
  set_families (<[id := mkFamily name o log empty_state]> (ab_families a)) (ab_ids a ++ [id]) (Z.max (ab_max a) id) a.

(** The change of the column families. *)
Definition spec_change (env : Env) (e : VersionEdit) (a : Abs) : option Abs :=
  let id := EditCodec.column_family e in
  match EditCodec.column_family_add e with
  | Some name =>
    o ← env_options env name;
    if decide (ab_families a !! id = None) then Some (spec_create o id name (default 0 (EditCodec.log_number e)) a) else None
  | None =>
    f ← ab_families a !! id;
    if EditCodec.column_family_drop e
    then Some (set_families (delete id (ab_families a)) (filter (fun i => i <> id) (ab_ids a)) (ab_max a) a)
    else if wal_edit e then Some a
    else
      let num := opt_num_levels (fam_options f) in
      if decide (in_levels num e) then
        s ← spec_apply num e (fam_state f);
        Some (on_fam id (fun f => mkFamily (fam_name f) (fam_options f) (fam_log f) s) a)
      else None
  end.

(** The comparator that an edit records is that of the options. *)
Definition comparator_ok (e : VersionEdit) (o : CfOptions) : Prop :=
  match EditCodec.comparator e with
  | Some name => name = opt_comparator_name o /\ default true (EditCodec.persist_user_defined_timestamps e) = opt_persist_timestamps o
  | None => True
  end.

#[global] Instance comparator_ok_dec e o : Decision (comparator_ok e o).
Proof. unfold comparator_ok. destruct (EditCodec.comparator e); apply _. Defined.

(** The log number of the column family and the comparator that is recorded. *)
Definition spec_family (e : VersionEdit) (a : Abs) : option Abs :=
  let id := EditCodec.column_family e in
  match ab_families a !! id with
  | None => Some a
  | Some f =>
    if decide (comparator_ok e (fam_options f))
    then Some (match EditCodec.log_number e with
               | Some n =>
                 let a := on_fam id (fun f => mkFamily (fam_name f) (fam_options f) (Z.max (fam_log f) n) (fam_state f)) a in
                 mkAbs (ab_families a) (ab_ids a) (ab_max a) (ab_param a) (ab_log a || (fam_log f <=? n)) (ab_next a) (ab_seq a) (ab_min a)
               | None => a
               end)
    else None
  end.

Definition or_old {A} (x y : option A) : option A := match x with Some _ => x | None => y end.

Definition spec_counters (e : VersionEdit) (a : Abs) : Abs :=
  mkAbs (ab_families a) (ab_ids a) (ab_max a) (or_old (EditCodec.max_column_family e) (ab_param a)) (ab_log a)
    (or_old (EditCodec.next_file_number e) (ab_next a)) (or_old (EditCodec.last_sequence e) (ab_seq a))
    (match EditCodec.min_log_number_to_keep e with Some n => Z.max (ab_min a) n | None => ab_min a end).

(** An edit that drops a column family or changes the logs says nothing of a family. *)
Definition names_family (e : VersionEdit) : bool :=
  bool_decide (is_Some (EditCodec.column_family_add e)) || negb (EditCodec.column_family_drop e || wal_edit e).

Definition spec_edit (env : Env) (e : VersionEdit) (a : Abs) : option Abs :=
  a ← spec_change env e a;
  a ← (if names_family e then spec_family e a else Some a);
  Some (spec_counters e a).

Fixpoint spec_edits (env : Env) (l : list VersionEdit) (a : Abs) : option Abs :=
  match l with [] => Some a | e :: l' => spec_edit env e a ≫= spec_edits env l' end.

(** The edits that are covered. *)
Record edit_ok (e : VersionEdit) : Prop := {
  eo_blobs : EditCodec.blob_file_additions e = [] /\ EditCodec.blob_file_garbages e = [];
  eo_wals : EditCodec.wal_additions e = [];
  eo_log n : EditCodec.log_number e = Some n -> 0 <= n;
  eo_prev n : EditCodec.prev_log_number e = Some n -> is_u64 n;
  eo_db_id s : EditCodec.db_id e = Some s -> is_slice s /\ is_bytes s;
}.

(** The options that are covered. *)
Record options_ok (o : CfOptions) : Prop := {
  oo_levels : (0 < opt_num_levels o)%nat;
  oo_int : Z.of_nat (opt_num_levels o) < 2 ^ 31;
  oo_timestamps : opt_timestamp_size o = 0%nat;
  oo_comparator : ComparatorLaws (opt_comparator o);
  oo_name : is_slice (opt_comparator_name o) /\ is_bytes (opt_comparator_name o);
}.

Definition env_ok (env : Env) : Prop := forall name o, env_options env name = Some o -> options_ok o.

(** ** The handler *)

(** A column family and its builder. *)
Record family_abs (c : ColumnFamilyData) (r : Rep) (f : Family) : Prop := {
  fa_options_ok : options_ok (fam_options f);
  fa_name : cf_name c = fam_name f;
  fa_options : cf_options c = fam_options f;
  fa_log : cf_log_number c = fam_log f;
  fa_ts_low : cf_full_history_ts_low c = [];
  fa_current : cf_current c = new_storage (opt_num_levels (fam_options f)) None kMustPresent;
  fa_base : base_vstorage r = new_storage (opt_num_levels (fam_options f)) None kMustPresent;
  fa_tracks : tracks r (fam_state f);
  fa_levels : has_invalid_levels r = false /\ invalid_level_sizes r = ∅;
  fa_log_pos : 0 <= fam_log f;
}.

Record handler_abs (h : Handler) (a : Abs) : Prop := {
  ha_ids : column_family_list (version_set h) = ab_ids a;
  ha_max : max_column_family (version_set h) = ab_max a;
  ha_open : do_not_open_column_families h = ∅;
  ha_families id f : ab_families a !! id = Some f ->
    exists c r, column_families (version_set h) !! id = Some c /\ builders h !! id = Some r /\ family_abs c r f;
  ha_others id : ab_families a !! id = None -> column_families (version_set h) !! id = None /\ builders h !! id = None;
  ha_log : bool_decide (is_Some (EditCodec.log_number (version_edit_params h))) = ab_log a;
  ha_next : EditCodec.next_file_number (version_edit_params h) = ab_next a;
  ha_seq : EditCodec.last_sequence (version_edit_params h) = ab_seq a;
  ha_min : default 0 (EditCodec.min_log_number_to_keep (version_edit_params h)) = ab_min a;
  ha_param : EditCodec.max_column_family (version_edit_params h) = ab_param a;
  ha_counters : counters (version_set h) = counters new_version_set;
  ha_prev : is_u64 (default 0 (EditCodec.prev_log_number (version_edit_params h)));
  ha_wals : WalEdit.wals (wals (version_set h)) = ∅;
  ha_db_id : is_slice (db_id (version_set h)) /\ is_bytes (db_id (version_set h));
}.

(** ** Levels that exist *)

Definition same_invalid (r r' : Rep) : Prop :=
  has_invalid_levels r' = has_invalid_levels r /\ invalid_level_sizes r' = invalid_level_sizes r /\ length (levels r') = length (levels r).

#[local] Instance same_invalid_preorder : PreOrder same_invalid.
Proof. split; [done|]. unfold same_invalid. intros r1 r2 r3 (-> & -> & ->) (-> & -> & ->). done. Qed.

Lemma each_invalid {A} (P : nat -> A -> Prop) (op : A -> Rep -> option (Status * Rep)) l :
  (forall x r r', P (length (levels r)) x -> op x r = Some (OK, r') -> same_invalid r r') ->
  forall r r', Forall (P (length (levels r))) l -> each op l r = Some (OK, r') -> same_invalid r r'.
Proof.
  intros Hop. induction l as [|x l IH]; intros r r' Hl; cbn; [by intros [= <-]|].
  apply Forall_cons in Hl as [Hx Hl]. destruct (op x r) as [[[] r1]|] eqn:E; try done.
  pose proof (Hop _ _ _ Hx E) as H1. intros H2. etrans; [exact H1|]. apply IH; [|done]. destruct H1 as (_ & _ & ->). done.
Qed.

Lemma update_blob_invalid b g r : same_invalid r (update_blob b g r).
Proof. unfold update_blob. repeat case_match; done. Qed.

Lemma deletion_invalid (d : Z * Z) r r' : 0 <= d.1 < Z.of_nat (length (levels r)) ->
  ApplyFileDeletion d.1 d.2 r = Some (OK, r') -> same_invalid r r'.
Proof.
  intros Hd. unfold ApplyFileDeletion. destruct (negb _); [done|]. destruct (Z.leb_spec (Z.of_nat (length (levels r))) d.1); [lia|].
  destruct (d.1 <? 0); [done|]. destruct (GetOldestBlobFileNumberForTableFile _ _ _) as [b|]; [|done]. cbn. intros [= <-].
  destruct (update_blob_invalid b (UnlinkSst d.2) r) as (H1 & H2 & H3). split_and!; cbn; [done|done|by rewrite length_insert].
Qed.

Lemma addition_invalid (lf : Z * FileMetaData) r r' : 0 <= lf.1 < Z.of_nat (length (levels r)) ->
  ApplyFileAddition lf.1 lf.2 r = Some (OK, r') -> same_invalid r r'.
Proof.
  intros Hd. unfold ApplyFileAddition. destruct (negb _); [done|]. destruct (Z.leb_spec (Z.of_nat (length (levels r))) lf.1); [lia|].
  destruct (lf.1 <? 0); [done|]. intros [= <-]. set (r1 := set_levels _ _).
  destruct (update_blob_invalid (oldest_blob_file_number lf.2) (LinkSst (GetNumber lf.2)) r1) as (H1 & H2 & H3).
  split_and!; cbn; [by rewrite H1|by rewrite H2|rewrite H3; cbn; by rewrite length_insert].
Qed.

Lemma cursor_invalid (c : Z * list Z) r r' : ApplyCompactCursors c.1 c.2 r = Some (OK, r') -> same_invalid r r'.
Proof. unfold ApplyCompactCursors. repeat case_match; intros; by simplify_eq. Qed.

Lemma then_OK op k r' : then_ op k = Some (OK, r') -> exists r, op = Some (OK, r) /\ k r = Some (OK, r').
Proof. unfold then_. destruct op as [[[] r]|]; try done. eauto. Qed.

Lemma Apply_invalid `{Comparator} o e r r' : edit_ok e -> in_levels (length (levels r)) e -> Apply o e r = Some (OK, r') -> same_invalid r r'.
Proof.
  intros He [Hd Hn]. unfold Apply. destruct (eo_blobs e He) as [-> ->]. destruct (CheckConsistency o (base_vstorage r)); try done.
  cbn. intros (r1 & H1 & (r2 & H2 & H3)%then_OK)%then_OK.
  assert (same_invalid r r1) as S1 by (eapply (each_invalid (fun num d => 0 <= d.1 < Z.of_nat num)); [apply deletion_invalid|exact Hd|exact H1]).
  assert (same_invalid r1 r2) as S2.
  { eapply (each_invalid (fun num lf => 0 <= lf.1 < Z.of_nat num)); [apply addition_invalid| |exact H2]. by destruct S1 as (_ & _ & ->). }
  assert (same_invalid r2 r') as S3.
  { eapply (each_invalid (fun _ _ => True)); [intros ? ? ? _; apply cursor_invalid|by apply Forall_true|exact H3]. }
  by etrans; [|etrans].
Qed.

Lemma in_levels_ok num e : in_levels num e -> levels_ok e.
Proof. intros [H1 H2]. split; eapply Forall_impl; [exact H1|cbn; lia|exact H2|cbn; lia]. Qed.

(** An edit that the specification accepts, applied by the builder of a family. *)
Lemma family_apply c r f e s : family_abs c r f -> edit_ok e -> in_levels (opt_num_levels (fam_options f)) e ->
  spec_apply (opt_num_levels (fam_options f)) e (fam_state f) = Some s ->
  let C := opt_comparator (fam_options f) in
  exists r', Apply (opt_builder (fam_options f)) e r = Some (OK, r') /\
    family_abs c r' (mkFamily (fam_name f) (fam_options f) (fam_log f) s).
Proof.
  intros Hf He Hin Hs C. set (num := opt_num_levels (fam_options f)) in *.
  assert (num_levels (base_vstorage r) = num) as Hnum by (rewrite (fa_base _ _ _ Hf); apply length_replicate).
  assert (implements (Apply (opt_builder (fam_options f)) e r) (spec_apply num e (fam_state f))) as Ha.
  { rewrite <- Hnum. apply Apply_implements; [|by eapply in_levels_ok| |apply Hf].
    - rewrite (fa_base _ _ _ Hf). eapply (BuilderSave.fresh_consistent _ num). apply BuilderSave.new_storage_fresh.
    - by rewrite (proj1 (eo_blobs e He)). }
  rewrite Hs in Ha. destruct Ha as (r' & Hr & T). exists r'. split; [done|].
  assert (length (levels r) = num) as Hlen by (rewrite (tr_num _ _ (fa_tracks _ _ _ Hf)); done).
  destruct (Apply_invalid _ e r r' He ltac:(by rewrite Hlen) Hr) as (I1 & I2 & _). destruct (fa_levels _ _ _ Hf) as [I3 I4].
  split; cbn; try apply Hf; [|done|split; congruence]. rewrite (Apply_base _ _ _ _ _ Hr). apply Hf.
Qed.

(** ** Changing the column families *)

Lemma CheckColumnFamilyId_abs h a e : handler_abs h a ->
  CheckColumnFamilyId e h = (false, bool_decide (is_Some (ab_families a !! EditCodec.column_family e))).
Proof.
  intros Ha. unfold CheckColumnFamilyId. rewrite (ha_open _ _ Ha), lookup_empty. f_equal.
  apply bool_decide_ext. destruct (ab_families a !! EditCodec.column_family e) as [f|] eqn:E.
  - destruct (ha_families _ _ Ha _ _ E) as (c & r & _ & -> & _). done.
  - by destruct (ha_others _ _ Ha _ E) as [_ ->].
Qed.

Lemma new_family_abs e o name n : options_ok o -> 0 <= n ->
  family_abs (mkCfd name o n [] e (new_storage (opt_num_levels o) None kMustPresent)) (new_rep (new_storage (opt_num_levels o) None kMustPresent))
    (mkFamily name o n empty_state).
Proof.
  intros Ho Hn. split; cbn; try done. pose proof (Build.empty_storage_ok (opt_num_levels o) kMustPresent) as Hs.
  assert (state_of (new_storage (opt_num_levels o) None kMustPresent) = empty_state) as <-; [|by apply new_rep_tracks].
  unfold state_of. by f_equal.
Qed.

(** The handler after a change of the families; its parameters stay. *)
Lemma handler_abs_families h a vs' b' m l n :
  handler_abs h a -> column_family_list vs' = l -> max_column_family vs' = n -> counters vs' = counters (version_set h) -> wals vs' = wals (version_set h) -> db_id vs' = db_id (version_set h) ->
  (forall id f, m !! id = Some f -> exists c r, column_families vs' !! id = Some c /\ b' !! id = Some r /\ family_abs c r f) ->
  (forall id, m !! id = None -> column_families vs' !! id = None /\ b' !! id = None) ->
  handler_abs (set_builders b' (set_version_set vs' h)) (set_families m l n a).
Proof. intros Ha Hl Hn Hc Hw Hd Hf Ho. split; cbn; try done; rewrite ?Hc, ?Hw, ?Hd; apply Ha. Qed.

Lemma create_abs h a e o name : handler_abs h a -> options_ok o -> edit_ok e -> ab_families a !! EditCodec.column_family e = None ->
  EditCodec.column_family_add e = Some name ->
  handler_abs (CreateCfAndInit o e h)
    (spec_create o (EditCodec.column_family e) name (default 0 (EditCodec.log_number e)) a).
Proof.
  intros Ha Ho He Hn Hname. destruct (ha_others _ _ Ha _ Hn) as [Hc Hb]. unfold CreateCfAndInit, CreateColumnFamily, spec_create.
  unfold emplace. rewrite Hc, Hb, Hname. apply handler_abs_families; cbn; [done|by rewrite (ha_ids _ _ Ha)|by rewrite (ha_max _ _ Ha)|done|done|done|..].
  - intros id f. destruct (decide (id = EditCodec.column_family e)) as [->|Hne].
    + rewrite lookup_insert_eq. intros [= <-]. rewrite !lookup_insert_eq. eexists _, _. split_and!; [done|done|].
      apply new_family_abs; [done|]. destruct (EditCodec.log_number e) eqn:El; cbn; [by apply (eo_log e He)|done].
    + rewrite !lookup_insert_ne by done. apply Ha.
  - intros id. destruct (decide (id = EditCodec.column_family e)) as [->|Hne].
    + by rewrite lookup_insert_eq.
    + rewrite !lookup_insert_ne by done. apply Ha.
Qed.

Lemma destroy_abs h a e : handler_abs h a ->
  handler_abs (DestroyCfAndCleanup e h)
    (set_families (delete (EditCodec.column_family e) (ab_families a)) (filter (fun i => i <> EditCodec.column_family e) (ab_ids a)) (ab_max a) a).
Proof.
  intros Ha. unfold DestroyCfAndCleanup, DropColumnFamily. apply handler_abs_families; cbn; [done|by rewrite (ha_ids _ _ Ha)|apply Ha|done|done|done|..].
  - intros id f [Hne H]%lookup_delete_Some. rewrite !lookup_delete_ne by done. by apply Ha.
  - intros id. destruct (decide (id = EditCodec.column_family e)) as [->|Hne].
    + by rewrite !lookup_delete_eq.
    + rewrite !lookup_delete_ne by done. apply Ha.
Qed.

(** An edit of a family that exists. *)
Lemma operation_abs env h a e f s : handler_abs h a -> edit_ok e -> ab_families a !! EditCodec.column_family e = Some f ->
  in_levels (opt_num_levels (fam_options f)) e -> spec_apply (opt_num_levels (fam_options f)) e (fam_state f) = Some s ->
  exists h', OnNonCfOperation env e h = Some (OK, Some (EditCodec.column_family e), h') /\
    handler_abs h' (on_fam (EditCodec.column_family e) (fun f => mkFamily (fam_name f) (fam_options f) (fam_log f) s) a).
Proof.
  intros Ha He Hf Hin Hs. unfold OnNonCfOperation. rewrite (CheckColumnFamilyId_abs h a) by done.
  rewrite Hf, bool_decide_eq_true_2 by done. cbn [negb]. destruct (ha_families _ _ Ha _ _ Hf) as (c & r & Hc & Hr & Hfam).
  rewrite Hc. cbn [mbind option_bind].
  assert (MaybeHandleFileBoundariesForNewFiles e (EditCodec.column_family e) (cf_options c) h = (OK, e)) as ->.
  { unfold MaybeHandleFileBoundariesForNewFiles. rewrite (fa_options _ _ _ Hfam), (oo_timestamps _ (fa_options_ok _ _ _ Hfam)). by case_match. }
  unfold MaybeCreateVersionBeforeApplyEdit. rewrite Hc, Hr. cbn [mbind option_bind]. rewrite (fa_options _ _ _ Hfam).
  destruct (family_apply c r f e s Hfam He Hin Hs) as (r' & -> & Hfam'). cbn [mbind option_bind]. eexists. split; [done|].
  assert (h = set_version_set (version_set h) h) as E by (by destruct h). rewrite E at 2. cbn [builders set_version_set].
  apply handler_abs_families; try done; try apply Ha.
  - intros id g. rewrite lookup_alter_Some. intros [(<- & g' & Hg & ->)|[Hne Hg]].
    + rewrite Hf in Hg. injection Hg as <-. rewrite lookup_insert_eq. eexists _, _. split_and!; [exact Hc|done|done].
    + rewrite lookup_insert_ne by done. by apply Ha.
  - intros id Hg. cbn in Hg. rewrite lookup_alter_None in Hg.
    destruct (decide (id = EditCodec.column_family e)) as [->|Hne]; [congruence|]. rewrite lookup_insert_ne by done. by apply Ha.
Qed.

(** ** What is extracted from an edit *)

Lemma family_log c r f n : family_abs c r f -> 0 <= n ->
  family_abs (set_cf_log_number n c) r (mkFamily (fam_name f) (fam_options f) n (fam_state f)).
Proof. intros Hf Hn. split; cbn; try done; apply Hf. Qed.

Lemma SetFullHistoryTsLow_none ts c : opt_timestamp_size (cf_options c) = 0%nat -> SetFullHistoryTsLow ts c = c.
Proof. intros H. unfold SetFullHistoryTsLow. by rewrite decide_True. Qed.

Lemma on_family_same id g vs : (forall c, column_families vs !! id = Some c -> g c = c) -> on_family id g vs = vs.
Proof.
  intros H. unfold on_family. assert (alter g id (column_families vs) = column_families vs) as -> by (by apply alter_id). by destruct vs.
Qed.

Lemma set_version_set_same h : set_version_set (version_set h) h = h.
Proof. by destruct h. Qed.

Lemma validate_same o e : comparator_ok e o ->
  match EditCodec.comparator e with
  | Some name => ValidateUserDefinedTimestampsOptions o name (default true (EditCodec.persist_user_defined_timestamps e)) = (OK, false)
  | None => True
  end.
Proof.
  unfold comparator_ok. destruct (EditCodec.comparator e) as [name|]; [|done]. intros [-> ->].
  unfold ValidateUserDefinedTimestampsOptions, CompareComparator. rewrite decide_True by done. by rewrite eqb_reflx.
Qed.

(** The log number of a family. *)
Lemma log_abs h a id f n : handler_abs h a -> ab_families a !! id = Some f -> 0 <= n ->
  let b := on_fam id (fun f => mkFamily (fam_name f) (fam_options f) (Z.max (fam_log f) n) (fam_state f)) a in
  handler_abs (if n <? fam_log f then h
               else set_params (EditCodec.set_log_number (Some n) (version_edit_params h)) (set_version_set (on_family id (set_cf_log_number n) (version_set h)) h))
    (mkAbs (ab_families b) (ab_ids b) (ab_max b) (ab_param b) (ab_log b || (fam_log f <=? n)) (ab_next b) (ab_seq b) (ab_min b)).
Proof.
  intros Ha Hf Hn b. destruct (Z.ltb_spec n (fam_log f)) as [Hlt|Hge].
  - destruct (Z.leb_spec (fam_log f) n); [lia|]. rewrite orb_false_r.
    assert (ab_families b = ab_families a) as Eb.
    { cbn. apply alter_id. intros g Hg. rewrite Hf in Hg. injection Hg as <-. rewrite Z.max_l by lia. by destruct f. }
    rewrite Eb. split; cbn; apply Ha.
  - destruct (Z.leb_spec (fam_log f) n); [|lia]. rewrite orb_true_r. destruct (ha_families _ _ Ha _ _ Hf) as (c & r & Hc & Hr & Hfam).
    split; cbn; try apply Ha; try done.
    + intros i g. rewrite lookup_alter_Some. intros [(<- & g' & Hg & ->)|[Hne Hg]].
      * rewrite Hf in Hg. injection Hg as <-. rewrite lookup_alter_eq, Hc. cbn. eexists _, _. split_and!; [done|exact Hr|].
        rewrite Z.max_r by lia. by apply family_log.
      * rewrite lookup_alter_ne by done. by apply Ha.
    + intros i. rewrite lookup_alter_None. intros Hi. destruct (ha_others _ _ Ha _ Hi) as [H1 H2]. split; [|done]. by apply lookup_alter_None.
    + by destruct (version_edit_params h).
    + rewrite <- (ha_next _ _ Ha). by destruct (version_edit_params h).
    + rewrite <- (ha_seq _ _ Ha). by destruct (version_edit_params h).
    + rewrite <- (ha_min _ _ Ha). by destruct (version_edit_params h).
    + rewrite <- (ha_param _ _ Ha). by destruct (version_edit_params h).
    + pose proof (ha_prev _ _ Ha). by destruct (version_edit_params h).
Qed.

Lemma extract_family_abs h a e f a' : handler_abs h a -> edit_ok e -> ab_families a !! EditCodec.column_family e = Some f ->
  spec_family e a = Some a' ->
  exists h', extract_family (EditCodec.column_family e) e h = (OK, h') /\ handler_abs h' a'.
Proof.
  intros Ha He Hf. unfold spec_family, extract_family. rewrite Hf. case_decide as Hcmp; [|done]. intros [= <-].
  destruct (ha_families _ _ Ha _ _ Hf) as (c & r & Hc & Hr & Hfam). rewrite Hc.
  pose proof (fa_options _ _ _ Hfam) as Ho. pose proof (fa_log _ _ _ Hfam) as Hlog.
  set (h1 := match EditCodec.log_number e with Some n => _ | None => h end).
  match goal with |- context [handler_abs _ ?x] => assert (handler_abs h1 x) as Ha1 end.
  { unfold h1. destruct (EditCodec.log_number e) as [n|] eqn:En; [|done]. rewrite Hlog. apply log_abs; [done|done|by apply (eo_log e He)]. }
  clearbody h1. pose proof (validate_same _ _ Hcmp) as Hv. rewrite <- Ho in Hv.
  assert ((match EditCodec.comparator e with
           | Some old_name =>
             let '(s, mark) := ValidateUserDefinedTimestampsOptions (cf_options c) old_name (default true (EditCodec.persist_user_defined_timestamps e)) in
             (s, if mark then set_no_udt ({[EditCodec.column_family e]} ∪ cfds_to_mark_no_udt h1) h1 else h1)
           | None => (OK, h1) end) = (OK, h1)) as -> by (destruct (EditCodec.comparator e); [by rewrite Hv|done]).
  exists h1. split; [|done]. destruct (EditCodec.full_history_ts_low e); [done|]. f_equal.
  rewrite on_family_same; [apply set_version_set_same|]. intros c1 Hc1. apply SetFullHistoryTsLow_none.
  match type of Ha1 with handler_abs _ ?x => destruct (ab_families x !! EditCodec.column_family e) as [g|] eqn:Eg end.
  - destruct (ha_families _ _ Ha1 _ _ Eg) as (c2 & r2 & Hc2 & _ & Hf2). rewrite Hc1 in Hc2. injection Hc2 as <-.
    rewrite (fa_options _ _ _ Hf2). apply oo_timestamps, Hf2.
  - destruct (ha_others _ _ Ha1 _ Eg) as [Hn _]. congruence.
Qed.

Lemma extract_counters_abs h a e : handler_abs h a -> edit_ok e ->
  handler_abs (set_params (extract_counters e (version_edit_params h)) h) (spec_counters e a).
Proof.
  intros Ha He. unfold extract_counters.
  split; cbn [version_set builders do_not_open_column_families set_params spec_counters ab_families ab_ids ab_max ab_param ab_log ab_next ab_seq ab_min version_edit_params];
    try apply Ha; [rewrite <- (ha_log _ _ Ha)|rewrite <- (ha_next _ _ Ha)|rewrite <- (ha_seq _ _ Ha)|rewrite <- (ha_min _ _ Ha)|rewrite <- (ha_param _ _ Ha)|pose proof (ha_prev _ _ Ha) as Hp; pose proof (eo_prev e He) as Hq];
    [..|revert Hp Hq]; generalize (version_edit_params h) as p; intros p; unfold param, or_old; destruct p;
    repeat (case_match; try done); cbn in *; simplify_eq; try done; try lia; naive_solver.
Qed.

Lemma db_id_abs h a e : handler_abs h a -> edit_ok e ->
  handler_abs (match EditCodec.db_id e with
               | Some i => set_params (EditCodec.set_db_id (Some i) (version_edit_params h)) (set_version_set (set_db_id i (version_set h)) h)
               | None => h
               end) a.
Proof.
  intros Ha He. destruct (EditCodec.db_id e) as [i|] eqn:Hi; [|done]. apply (eo_db_id e He) in Hi.
  split; cbn; try apply Ha; [rewrite <- (ha_log _ _ Ha)|rewrite <- (ha_next _ _ Ha)|rewrite <- (ha_seq _ _ Ha)|rewrite <- (ha_min _ _ Ha)|rewrite <- (ha_param _ _ Ha)|pose proof (ha_prev _ _ Ha) as Hp|exact Hi];
    by destruct (version_edit_params h).
Qed.

(** ** Recovery implements the specification *)

Lemma Extract_abs h a e (cfd : option Z) a' : handler_abs h a -> edit_ok e ->
  (match cfd with Some id => id = EditCodec.column_family e /\ is_Some (ab_families a !! id) /\ spec_family e a = Some a' | None => a' = a end) ->
  exists h', ExtractInfoFromVersionEdit cfd e h = (OK, h') /\ handler_abs h' (spec_counters e a').
Proof.
  intros Ha He Hcfd. unfold ExtractInfoFromVersionEdit. pose proof (db_id_abs h a e Ha He) as Ha1.
  match type of Ha1 with handler_abs ?x _ => set (h1 := x) in * end. destruct cfd as [id|].
  - destruct Hcfd as (-> & [f Hf] & Hs). destruct (extract_family_abs h1 a e f a' Ha1 He Hf Hs) as (h2 & -> & Ha2).
    eexists. split; [done|]. by apply extract_counters_abs.
  - subst a'. eexists. split; [done|]. by apply extract_counters_abs.
Qed.

Lemma set_wals_abs h a n : handler_abs h a ->
  handler_abs (set_version_set (set_wals (WalEdit.DeleteWalsBefore n (wals (version_set h))) (version_set h)) h) a.
Proof.
  intros Ha. split; cbn; try apply Ha. unfold WalEdit.DeleteWalsBefore. destruct (_ <? n); [|apply Ha]. cbn. rewrite (ha_wals _ _ Ha). apply map_filter_empty.
Qed.

Lemma on_fam_some id g a i : is_Some (ab_families (on_fam id g a) !! i) <-> is_Some (ab_families a !! i).
Proof.
  cbn. destruct (decide (i = id)) as [->|]; [rewrite lookup_alter_eq; by rewrite fmap_is_Some|by rewrite lookup_alter_ne].
Qed.

Lemma on_edit_abs env h a e a1 : env_ok env -> handler_abs h a -> edit_ok e -> spec_change env e a = Some a1 ->
  exists cfd h1, on_edit env e None h = Some (OK, cfd, h1) /\ handler_abs h1 a1 /\
    (if names_family e then cfd = Some (EditCodec.column_family e) /\ is_Some (ab_families a1 !! EditCodec.column_family e) else cfd = None).
Proof.
  intros Henv Ha He. unfold spec_change, on_edit, names_family.
  assert (IsWalAddition e = false) as Hwa by (unfold IsWalAddition; by rewrite (eo_wals e He)). unfold wal_edit. rewrite Hwa. cbn [orb].
  destruct (EditCodec.column_family_add e) as [name|] eqn:En.
  - rewrite bool_decide_eq_true_2 by done. destruct (env_options env name) as [o|] eqn:Eo; [|done]. cbn [mbind option_bind].
    case_decide as Hn; [|done]. intros [= <-]. unfold OnColumnFamilyAdd. rewrite (CheckColumnFamilyId_abs h a) by done. rewrite En, Hn.
    rewrite bool_decide_eq_false_2 by (by intros [? ?]). cbn [orb default from_option id].
    pose proof (create_abs h a e o name Ha (Henv _ _ Eo) He Hn En) as Hc. unfold env_options in Eo.
    assert (is_Some (ab_families (spec_create o (EditCodec.column_family e) name (default 0 (EditCodec.log_number e)) a) !! EditCodec.column_family e)) as Hs
      by (cbn; rewrite lookup_insert_eq; done).
    case_decide; [injection Eo as <-|rewrite Eo]; by eexists _, _.
  - rewrite bool_decide_eq_false_2 by (by intros [? ?]). destruct (ab_families a !! EditCodec.column_family e) as [f|] eqn:Ef; [|done]. cbn [mbind option_bind orb].
    destruct (EditCodec.column_family_drop e); cbn [orb negb].
    + intros [= <-]. unfold OnColumnFamilyDrop. rewrite (CheckColumnFamilyId_abs h a) by done.
      rewrite Ef, bool_decide_eq_true_2 by done. eexists _, _. split_and!; [done|by apply destroy_abs|done].
    + destruct (IsWalDeletion e); cbn [negb].
      * intros [= <-]. eexists _, _. split_and!; [done|by apply set_wals_abs|done].
      * case_decide as Hin; [|done]. destruct (spec_apply _ e (fam_state f)) as [s|] eqn:Es; [|done]. cbn [mbind option_bind]. intros [= <-].
        destruct (operation_abs env h a e f s Ha He Ef Hin Es) as (h' & -> & Ha'). eexists _, _. split_and!; [done|done|done|].
        apply on_fam_some. by rewrite Ef.
Qed.

(** One edit. *)
Lemma edit_abs env h a e a' : env_ok env -> handler_abs h a -> edit_ok e -> spec_edit env e a = Some a' ->
  exists cfd h', ApplyVersionEdit env e None h = Some (OK, cfd, h') /\ handler_abs h' a'.
Proof.
  intros Henv Ha He. unfold spec_edit. destruct (spec_change env e a) as [a1|] eqn:E1; [|done]. cbn [mbind option_bind].
  destruct (if names_family e then spec_family e a1 else Some a1) as [a2|] eqn:E2; [|done]. cbn [mbind option_bind]. intros [= <-].
  destruct (on_edit_abs env h a e a1 Henv Ha He E1) as (cfd & h1 & Hon & Ha1 & Hcfd).
  destruct (Extract_abs h1 a1 e cfd a2 Ha1 He) as (h2 & Hx & Ha2).
  { destruct (names_family e); [destruct Hcfd as [-> Hs]; done|subst cfd; by injection E2]. }
  exists cfd, h2. split; [|done]. unfold ApplyVersionEdit. rewrite Hon. cbn [mbind option_bind]. by rewrite Hx.
Qed.

(** All the edits of a MANIFEST. *)
Lemma edits_abs env l : env_ok env -> Forall edit_ok l -> forall h a a', handler_abs h a -> spec_edits env l a = Some a' ->
  exists h', replay_edits env l h = Some (OK, h') /\ handler_abs h' a'.
Proof.
  intros Henv. induction l as [|e l IH]; intros Hl h a a' Ha; cbn [spec_edits fmap list_fmap replay_edits]; [intros [= <-]; eauto|].
  apply Forall_cons in Hl as [He Hl]. destruct (spec_edit env e a) as [a1|] eqn:E; [|done]. cbn [mbind option_bind].
  destruct (edit_abs env h a e a1 Henv Ha He E) as (cfd & h1 & -> & Ha1). cbn [mbind option_bind]. by apply IH.
Qed.

Lemma spec_edits_app env l1 l2 a : spec_edits env (l1 ++ l2) a = spec_edits env l1 a ≫= spec_edits env l2.
Proof. revert a. induction l1 as [|e l1 IH]; intros a; [done|]. cbn. destruct (spec_edit env e a); cbn; [apply IH|done]. Qed.

(** The default column family is there before the first edit. *)
Definition start (o : CfOptions) : Abs :=
  mkAbs {[0 := mkFamily kDefaultColumnFamilyName o 0 empty_state]} [0] 0 None false None None 0.

Lemma Initialize_abs env o : env_ok env -> name_to_options env !! kDefaultColumnFamilyName = Some o ->
  exists h, Initialize env new_handler = (OK, h) /\ handler_abs h (start o).
Proof.
  intros Henv Ho. assert (options_ok o) as Hok by (apply (Henv kDefaultColumnFamilyName); unfold env_options; by rewrite decide_False).
  set (v := new_storage (opt_num_levels o) None kMustPresent).
  set (vs := mkVersionSet (<[0 := mkCfd kDefaultColumnFamilyName o 0 [] 1 v]> ∅) [0] 0 WalEdit.Reset [] (counters new_version_set)).
  exists (mkHandler vs (<[0 := new_rep v]> ∅) ∅ EditCodec.empty_edit ∅ (mkBuffer 0 [])).
  split; [unfold Initialize; by rewrite Ho|]. split; try done; cbn.
  - intros id f [<- <-]%lookup_singleton_Some. rewrite !lookup_insert_eq. eexists _, _. split_and!; [done|done|by apply new_family_abs].
  - intros id Hid%lookup_singleton_None. by rewrite !lookup_insert_ne by done.
  - split; [done|constructor].
Qed.

End ManifestSpec.
