(* ===== verification/StoredEdit.v ===== *)
(** * Edits that are stored in a MANIFEST

    Edits whose members have their types: their records are byte strings, and decoding a
    record gives the edit back.  The members that a commit sets keep them so. *)

From Stdlib Require Import ZArith Lia.
From stdpp Require Import base numbers list sorting gmap sets.
From S2P Require Import Prelude Version Coding WalEdit FileCodec EditCodec LogWriter LogReader Log Storage Builder BuilderSpec BuilderSave Build Recover Replay LogApply GroupCommit Crash ManifestSpec.

Import Coding FileCodec Storage Builder BuilderSpec Recover Replay LogApply ManifestSpec.
Local Open Scope Z_scope.

Module StoredEdit.

(** ** Records are byte strings *)

Create HintDb bytes.

Lemma u8_byte v : 0 <= u8 v < 256.
Proof. apply Z.mod_pos_bound. lia. Qed.

Lemma is_bytes_nil : is_bytes [].
Proof. constructor. Qed.

Lemma is_bytes_u8 v : is_bytes [u8 v].
Proof. constructor; [apply u8_byte|constructor]. Qed.

Lemma is_bytes_0 : is_bytes [0].
Proof. constructor; [lia|constructor]. Qed.

Lemma is_bytes_1 : is_bytes [1].
Proof. constructor; [lia|constructor]. Qed.

Lemma is_bytes_app p q : is_bytes p -> is_bytes q -> is_bytes (p ++ q).
Proof. apply Forall_app_2. Qed.

Lemma is_bytes_bind {A} (g : A -> list Z) l : Forall (fun x => is_bytes (g x)) l -> is_bytes (l ≫= g).
Proof. induction 1 as [|x l Hx Hl IH]; [constructor|]. by apply is_bytes_app. Qed.

Lemma EncodeVarint32_bytes v : is_bytes (EncodeVarint32 v).
Proof. unfold EncodeVarint32. repeat case_match; repeat (constructor; [apply u8_byte|]); constructor. Qed.

Lemma EncodeVarint64_bytes v : is_bytes (EncodeVarint64 v).
Proof.
  unfold EncodeVarint64. generalize 10%nat as n. intros n. revert v. induction n as [|n IH]; intros v; cbn; [constructor|].
  destruct (128 <=? v); [|apply is_bytes_u8]. constructor; [apply u8_byte|apply IH].
Qed.

#[export] Hint Resolve is_bytes_0 is_bytes_1 is_bytes_nil is_bytes_u8 is_bytes_app EncodeVarint32_bytes EncodeVarint64_bytes Log.encode_fixed_bytes : bytes.

Lemma PutLengthPrefixedSlice_bytes s : is_bytes s -> is_bytes (PutLengthPrefixedSlice s).
Proof. intros H. unfold PutLengthPrefixedSlice, PutVarint32. auto with bytes. Qed.

Lemma put_opt_bytes {A} (o : option A) put : (forall x, o = Some x -> is_bytes (put x)) -> is_bytes (EditCodec.put_opt o put).
Proof. destruct o; cbn; [auto|constructor]. Qed.

Lemma put_field_bytes c tag field : (c = true -> is_bytes field) -> is_bytes (put_field c tag field).
Proof. intros H. unfold put_field. destruct c; [|constructor]. unfold PutVarint32. auto using PutLengthPrefixedSlice_bytes with bytes. Qed.

#[export] Hint Resolve PutLengthPrefixedSlice_bytes put_field_bytes : bytes.

(** The strings of a file. *)
Record file_bytes (f : FileMetaData) : Prop := {
  fb_smallest : is_bytes (smallest f);
  fb_largest : is_bytes (largest f);
  fb_checksum : is_bytes (file_checksum f);
  fb_func_name : is_bytes (file_checksum_func_name f);
}.

Lemma new_file_bytes f level min_log written : file_bytes f -> is_bytes (EncodeToNewFile4 f level 0 min_log written).1.
Proof.
  intros [H1 H2 H3 H4].
  cbn [EncodeToNewFile4 fst]. unfold EncodeFileBoundaries, boundary, encode_custom, EncodeUniqueIdBytes, PutVarint32Varint64, PutVarint64Varint64,
    PutVarint32, PutVarint64, PutFixed64, Version.EncodeFixed64. rewrite !decide_True by done.
  repeat apply is_bytes_app; auto 10 with bytes.
Qed.

Lemma new_files_bytes min_log l : forall written bytes, Forall (fun lf => file_bytes lf.2) l ->
  EditCodec.put_new_files 0 min_log written l = Some bytes -> is_bytes bytes.
Proof.
  induction l as [|[level f] l IH]; intros written bytes Hl; cbn [EditCodec.put_new_files]; [intros [= <-]; constructor|].
  apply Forall_cons in Hl as [Hf Hl]. destruct (_ || _); [done|]. pose proof (new_file_bytes f level min_log written Hf) as Hb.
  destruct (EncodeToNewFile4 f level 0 min_log written) as [b w]. destruct (EditCodec.put_new_files 0 min_log w l) as [rest|] eqn:E; [|done].
  intros [= <-]. apply is_bytes_app; [done|by eapply IH].
Qed.

(** ** Stored edits *)

Record stored_edit (e : VersionEdit) : Prop := {
  se_ok : edit_ok e;
  se_typed : EditCodec.is_edit 0 e;
  se_progress : EditCodec.subcompaction_progress e = None;
  se_db_id s : EditCodec.db_id e = Some s -> is_bytes s;
  se_comparator s : EditCodec.comparator e = Some s -> is_bytes s;
  se_cursors : Forall (fun c => is_bytes c.2) (EditCodec.compact_cursors e);
  se_files : Forall (fun lf => file_bytes lf.2) (EditCodec.new_files e);
  se_add s : EditCodec.column_family_add e = Some s -> is_bytes s;
  se_ts_low : is_bytes (EditCodec.full_history_ts_low e);
}.

Lemma head_bytes e : stored_edit e -> is_bytes (EditCodec.encode_head e).
Proof.
  intros He. unfold EditCodec.encode_head, PutVarint32Varint64, PutVarint32Varint32, PutVarint32.
  repeat apply is_bytes_app; try (apply put_opt_bytes; intros x Hx; auto with bytes).
  - apply is_bytes_app; [auto with bytes|]. by apply PutLengthPrefixedSlice_bytes, (se_db_id e He).
  - apply is_bytes_app; [auto with bytes|]. by apply PutLengthPrefixedSlice_bytes, (se_comparator e He).
  - apply is_bytes_bind. eapply Forall_impl; [apply (se_cursors e He)|]. intros c Hc. unfold EditCodec.put_cursor, PutVarint32.
    destruct (Valid c.2); auto with bytes.
  - apply is_bytes_bind, Forall_true. intros d. unfold EditCodec.put_deleted, PutVarint32Varint32Varint64. auto with bytes.
Qed.

Lemma tail_bytes e : stored_edit e -> is_bytes (EditCodec.encode_tail e).
Proof.
  intros He. unfold EditCodec.encode_tail, PutVarint32Varint32, PutVarint32. destruct (eo_blobs e (se_ok e He)) as [-> ->].
  rewrite (eo_wals e (se_ok e He)), (se_progress e He). cbn [mbind list_bind app]. repeat apply is_bytes_app; auto with bytes.
  - destruct (WalEdit.WalDeletion_IsEmpty _); [auto with bytes|]. unfold WalEdit.EncodeWalDeletion, PutVarint64. auto with bytes.
  - destruct (_ =? 0); auto with bytes.
  - apply put_opt_bytes. intros s Hs. apply is_bytes_app; [auto with bytes|]. by apply PutLengthPrefixedSlice_bytes, (se_add e He).
  - destruct (EditCodec.column_family_drop e); auto with bytes.
  - apply put_opt_bytes. intros n _. auto with bytes.
  - destruct (bool_decide _); [auto with bytes|]. apply is_bytes_app; [auto with bytes|]. apply PutLengthPrefixedSlice_bytes, (se_ts_low e He).
  - apply put_opt_bytes. intros [] _; auto with bytes.
Qed.

(** The record of a stored edit. *)
Lemma stored_record e : stored_edit e ->
  exists record, EditCodec.EncodeTo (Some 0%nat) e = Some record /\ EditCodec.DecodeFrom record = inr (EditCodec.reload 0 e) /\ is_bytes record.
Proof.
  intros He. destruct (EditCodec.DecodeFrom_EncodeTo 0 e (se_typed e He)) as (record & Henc & Hdec). exists record. split_and!; [done|done|].
  revert Henc. unfold EditCodec.EncodeTo. destruct (EditCodec.new_files e) as [|lf l] eqn:E.
  - cbn. intros [= <-]. apply is_bytes_app; [by apply head_bytes|by apply tail_bytes].
  - destruct (EditCodec.put_new_files _ _ _ _) as [bytes|] eqn:Ef; [|done]. cbn [mbind option_bind]. intros [= <-].
    apply is_bytes_app; [by apply head_bytes|]. apply is_bytes_app; [|by apply tail_bytes]. eapply new_files_bytes; [|exact Ef]. rewrite <- E. apply He.
Qed.

(** Without files the size of the timestamps does not matter. *)
Lemma EncodeTo_none e : EditCodec.new_files e = [] -> EditCodec.EncodeTo None e = EditCodec.EncodeTo (Some 0%nat) e.
Proof. unfold EditCodec.EncodeTo. by intros ->. Qed.

(** ** Members that a commit sets *)

Ltac set_member :=
  intros Hn [[] [] H1 H2 H3 H4 H5 H6 H7];
  match goal with e : VersionEdit |- _ => destruct e end;
  cbn in *; split; cbn; try done; split; cbn; try done; by intros ? [= <-].

Lemma stored_next n e : is_u64 n -> stored_edit e -> stored_edit (EditCodec.set_next_file_number (Some n) e).
Proof. set_member. Qed.

Lemma stored_prev n e : is_u64 n -> stored_edit e -> stored_edit (EditCodec.set_prev_log_number (Some n) e).
Proof. set_member. Qed.

Lemma stored_seq n e : is_u64 n -> stored_edit e -> stored_edit (EditCodec.set_last_sequence (Some n) e).
Proof. set_member. Qed.

Lemma stored_max n e : is_u32 n -> stored_edit e -> stored_edit (EditCodec.set_max_column_family (Some n) e).
Proof. set_member. Qed.

Lemma stored_group n e : is_u32 n -> stored_edit e -> stored_edit (EditCodec.set_atomic_group (Some n) e).
Proof. set_member. Qed.

(** ** Edits after decoding *)

Lemma reloaded_files (l : list (Z * FileMetaData)) : prod_map id (reloaded 0) <$> l = l.
Proof. induction l as [|[level f] l IH]; [done|]. cbn. rewrite IH. do 2 f_equal. by destruct f. Qed.

(** Cursors that are written. *)
Definition cursors_valid (e : VersionEdit) : Prop :=
  EditCodec.valid_cursors (EditCodec.compact_cursors e) = EditCodec.compact_cursors e.

Lemma spec_edit_reload env e a : cursors_valid e -> spec_edit env (EditCodec.reload 0 e) a = spec_edit env e a.
Proof.
  intros Hc. assert (forall num s, spec_apply num (EditCodec.reload 0 e) s = spec_apply num e s) as Ha.
  { intros num s. unfold spec_apply. cbn. by rewrite reloaded_files, Hc. }
  assert (spec_change env (EditCodec.reload 0 e) a = spec_change env e a) as E; [|unfold spec_edit; by rewrite E].
  unfold spec_change. cbn [EditCodec.reload EditCodec.column_family EditCodec.column_family_add EditCodec.column_family_drop EditCodec.log_number].
  destruct (EditCodec.column_family_add e); [done|]. destruct (ab_families a !! EditCodec.column_family e) as [f|]; [|done]. cbn [mbind option_bind].
  destruct (EditCodec.column_family_drop e); [done|]. change (wal_edit (EditCodec.reload 0 e)) with (wal_edit e). destruct (wal_edit e); [done|].
  rewrite Ha. set (num := opt_num_levels (fam_options f)).
  assert (in_levels num (EditCodec.reload 0 e) <-> in_levels num e) as Hin by (unfold in_levels; cbn; by rewrite reloaded_files).
  destruct (decide (in_levels num e)), (decide (in_levels num (EditCodec.reload 0 e))); tauto.
Qed.

Lemma spec_edits_reload env l : Forall cursors_valid l -> forall a, spec_edits env (EditCodec.reload 0 <$> l) a = spec_edits env l a.
Proof.
  induction 1 as [|e l He Hl IH]; intros a; [done|]. cbn [spec_edits fmap list_fmap]. rewrite spec_edit_reload by done.
  destruct (spec_edit env e a); [apply IH|done].
Qed.

Lemma edit_ok_reload e : edit_ok e -> edit_ok (EditCodec.reload 0 e).
Proof. intros [H1 H2 H3]. by split. Qed.

End StoredEdit.
