(* ===== verification/CommitSpec.v ===== *)
(** * Commits and the specification of a MANIFEST

    What a version set has to do with the meaning of its MANIFEST ([ManifestSpec]): the
    version of every column family has the files and cursors of its state.  A version
    that recovery saves is then the version of the running database, and the snapshot of
    a new MANIFEST means the state that was running. *)

From Stdlib Require Import ZArith Lia.
From stdpp Require Import base numbers list sorting gmap sets.
From S2P Require Import Prelude Version Coding WalEdit FileCodec EditCodec LogWriter LogReader Log Storage Builder BuilderSpec BuilderSave Build Recover Replay LogApply GroupCommit Crash ManifestSpec StoredEdit.

Import Coding FileCodec Storage Builder BuilderSpec BuilderSave Recover Replay LogApply ManifestSpec StoredEdit.
Local Open Scope Z_scope.

Module CommitSpec.

(** ** Versions with the same files *)

(** A file that an edit may store. *)
Definition stored_file (lf : Z * FileMetaData) : Prop := EditCodec.is_new_file 0 lf /\ file_bytes lf.2.

Lemma stored_file_epoch lf : stored_file lf -> epoch_number lf.2 <> kUnknownEpochNumber.
Proof. by intros [(_ & _ & _ & _ & ?) _]. Qed.

Section comparator.
Context {C : Comparator} {L : ComparatorLaws C}.

(** A version without blob files whose levels are in order. *)
Record version_ok (v : VersionStorageInfo) : Prop := {
  vo_storage : storage_ok v;
  vo_blobs : blob_files_ v = [];
  vo_requirement : epoch_number_requirement_ v = kMustPresent;
  vo_ordered k : ordered (level_cmp kMustPresent k) (LevelFiles k v);
  vo_cursors : length (compact_cursor_ v) = num_levels v;
  vo_files n level f : contents v !! n = Some (level, f) -> stored_file (level, f);
}.

(** The files of the version are those of the state; a cursor that was not set is empty. *)
Definition holds (v : VersionStorageInfo) (s : State) : Prop :=
  contents v = sp_files s /\ sp_blobs s = ∅ /\
  forall k, (k < num_levels v)%nat -> compact_cursor_ v !! k = Some (default [] (sp_cursors s !! k)).

Lemma ordered_unique k l1 l2 : ordered (level_cmp kMustPresent k) l1 -> ordered (level_cmp kMustPresent k) l2 ->
  NoDup l1 -> NoDup l2 -> (forall f, f ∈ l1 <-> f ∈ l2) -> l1 = l2.
Proof.
  intros H1 H2 N1 N2 H. apply (StronglySorted_unique_strong (fun a b => level_cmp kMustPresent k a b = true)); [|done|done|by apply NoDup_Permutation].
  intros x y _ _ Hx Hy. apply order_asym in Hx. congruence.
Qed.

Lemma indexed_unique v v' : indexed v -> indexed v' -> files_ v = files_ v' -> file_locations_ v = file_locations_ v'.
Proof.
  intros H H' E. apply map_eq. intros n. apply option_eq. intros loc. rewrite (H n loc), (H' n loc). unfold LevelFiles. by rewrite E.
Qed.

Lemma elem_of_level v k f : indexed v -> f ∈ LevelFiles k v <-> contents v !! GetNumber f = Some (Z.of_nat k, f).
Proof.
  intros Hi. rewrite contents_lookup by done. split; [eauto|]. intros (k' & E & Hf & _). by replace k with k' by lia.
Qed.

Lemma NoDup_files k v : indexed v -> NoDup (LevelFiles k v).
Proof. intros Hi. eapply NoDup_fmap_1, NoDup_level, Hi. Qed.

Lemma LevelFiles_beyond k v : (num_levels v <= k)%nat -> LevelFiles k v = [].
Proof. unfold LevelFiles, num_levels. intros H. by rewrite lookup_ge_None_2. Qed.

(** Versions in order with the same contents have the same levels. *)
Lemma same_levels v v' : indexed v -> indexed v' -> num_levels v = num_levels v' -> contents v = contents v' ->
  (forall k, ordered (level_cmp kMustPresent k) (LevelFiles k v)) -> (forall k, ordered (level_cmp kMustPresent k) (LevelFiles k v')) ->
  files_ v = files_ v'.
Proof.
  intros Hi Hi' Hn Hc Ho Ho'. assert (forall k, LevelFiles k v = LevelFiles k v') as Hk.
  { intros k. apply (ordered_unique k); [done|done|by apply NoDup_files|by apply NoDup_files|].
    intros f. rewrite !elem_of_level by done. by rewrite Hc. }
  apply list_eq_same_length with (n := num_levels v); [done|done|]. intros k x y Hlt Hx Hy. specialize (Hk k). unfold LevelFiles in Hk.
  rewrite Hx, Hy in Hk. done.
Qed.

(** ** What a builder saves *)

Lemma save_fields r num v : fresh_storage num v -> length (levels r) = num -> (0 < num)%nat ->
  epoch_number_requirement_ (save r v) = epoch_number_requirement_ (promoted r v) /\
  length (compact_cursor_ (save r v)) = length (compact_cursor_ v) /\
  forall k, (k < length (compact_cursor_ v))%nat -> compact_cursor_ (save r v) !! k =
    match updated_compact_cursors r !! k with Some key => Some key | None => compact_cursor_ v !! k end.
Proof.
  intros Hv Hnum Hpos. destruct (promoted_same r v) as (_ & _ & _ & Ec). unfold save. rewrite (SaveSSTFilesTo_spec r num v Hv Hnum Hpos).
  match goal with |- context [SaveCompactCursorsTo r ?w] => destruct (SaveCompactCursorsTo_spec r w) as (cs & -> & Hlen & Hcs); set (v1 := w) in * end.
  assert (compact_cursor_ v1 = compact_cursor_ v /\ epoch_number_requirement_ v1 = epoch_number_requirement_ (promoted r v)) as [E1 E2].
  { unfold v1, SaveBlobFilesTo. destruct (_ =? _); [|rewrite save_blob_fold]; cbn; done. }
  cbn. rewrite E1 in *. split_and!; [done|done|]. intros k Hk. by apply Hcs; rewrite Hlen.
Qed.

(** Files that have epoch numbers need no requirement. *)
Lemma promoted_requirement r s num ref q : tracks r s -> length (levels r) = num ->
  (forall n level f, sp_files s !! n = Some (level, f) -> epoch_number f <> kUnknownEpochNumber) ->
  epoch_number_requirement_ (promoted r (new_storage num ref q)) = kMustPresent.
Proof.
  intros T Hnum He. unfold promoted. case_decide as Hq; [|by destruct q]. unfold PromoteEpochNumberRequirementIfNeeded.
  assert (HasMissingEpochNumber (new_storage num ref q) = false) as ->.
  { unfold HasMissingEpochNumber. cbn. clear. induction num; done. }
  destruct (existsb _ (levels r)) eqn:E; [|done]. apply existsb_exists in E as (st & Hst & E). apply existsb_exists in E as ([n f] & Hf & E).
  apply list_elem_of_In, list_elem_of_lookup_1 in Hst as (k & Hk). apply list_elem_of_In, elem_of_map_to_list in Hf. cbn in E.
  pose proof (lookup_lt_Some _ _ _ Hk) as Hlt. assert (file_at r k n = Some f) as Hat.
  { unfold file_at, level_state. rewrite Hk. cbn. by rewrite Hf. }
  apply (tr_file _ _ T k n f Hlt) in Hat. apply He in Hat. apply Z.eqb_eq in E. done.
Qed.

Lemma no_current_blob r s b : tracks r s -> sp_blobs s = ∅ -> current_blob r b = None.
Proof. intros T Hb. unfold current_blob. by rewrite (tr_blob _ _ T), Hb, lookup_empty. Qed.

Lemma saved_no_blobs r s v : tracks r s -> sp_blobs s = ∅ -> saved_as r s v -> blob_files_ v = [].
Proof.
  intros T Hb Hs. destruct (blob_files_ v) as [|b l] eqn:E; [done|].
  assert (b ∈ blob_files_ v) as (_ & Hc & _)%(sv_blobs _ _ _ Hs) by (rewrite E; left). by rewrite (no_current_blob r s) in Hc.
Qed.

(** The files of a state whose levels exist. *)
Definition within (num : nat) (s : State) : Prop := forall n level f, sp_files s !! n = Some (level, f) -> level < Z.of_nat num.

Lemma below_within num s : within num s -> below num (sp_files s) = sp_files s.
Proof.
  intros H. unfold below. apply map_filter_id. intros n [level f] Hn. by eapply H.
Qed.

Definition files_typed (s : State) : Prop :=
  forall n level f, sp_files s !! n = Some (level, f) -> stored_file (level, f).

(** The state [s] of a builder that starts from [v] and the state [t] of the MANIFEST. *)
Record over (v : VersionStorageInfo) (s t : State) : Prop := {
  ov_files : sp_files s = sp_files t;
  ov_blobs : sp_blobs s = ∅ /\ sp_blobs t = ∅;
  ov_cursors k : (k < num_levels v)%nat ->
    default (compact_cursor_ v !!! k) (sp_cursors s !! k) = default [] (sp_cursors t !! k);
}.

Lemma resize_same {A} (x : A) n l : length l = n -> resize n x l = l.
Proof. intros <-. by apply resize_all_alt. Qed.

(** A saved version holds the state. *)
Lemma save_holds r s t v q : tracks r s -> base_vstorage r = v -> (0 < num_levels v)%nat ->
  (forall k, ordered (level_cmp kMustPresent k) (LevelFiles k v)) -> length (compact_cursor_ v) = num_levels v ->
  over v s t -> within (num_levels v) t -> files_typed t ->
  let v' := save r (new_storage (num_levels v) (Some v) q) in version_ok v' /\ holds v' t /\ num_levels v' = num_levels v.
Proof.
  intros T Hb Hpos Ho Hcur Hov Hw Ht v'. destruct Hov as [Hf [Hbs Hbt] Hc].
  assert (length (levels r) = num_levels v) as Hlen by (by rewrite (tr_num _ _ T), Hb).
  assert (saved_as r s v') as Hs by (apply save_spec; [done|rewrite Hlen; apply new_storage_fresh|lia]).
  assert (num_levels v' = num_levels v) as Hnum by (by rewrite (sv_num _ _ _ Hs)).
  destruct (save_fields r (num_levels v) (new_storage (num_levels v) (Some v) q)) as (Hq & Hl & Hk); [apply new_storage_fresh|done|done|].
  fold v' in Hq, Hl, Hk. cbn [new_storage compact_cursor_] in Hl, Hk. rewrite resize_same in Hl, Hk by done.
  assert (contents v' = sp_files t) as Hcon by (by rewrite (sv_contents _ _ _ Hs), Hlen, Hf, below_within).
  assert (epoch_number_requirement_ v' = kMustPresent) as Hreq.
  { rewrite Hq. apply (promoted_requirement r s); [done|done|]. rewrite Hf. intros n level f Hn. by apply Ht, stored_file_epoch in Hn. }
  assert (blob_files_ v' = []) as Hb' by (by eapply saved_no_blobs).
  split; [split|]; [apply Hs|done|done| |congruence|rewrite Hcon; exact Ht|split; [|done]].
  - intros k. destruct (decide (k < num_levels v)%nat) as [Hlt|Hge].
    + rewrite (sv_files _ _ _ Hs) by lia. rewrite Hreq. apply (saved_ordered (level_cmp kMustPresent k) r s k T); [lia|]. by rewrite Hb.
    + rewrite LevelFiles_beyond by lia. constructor.
  - split; [done|]. split; [done|]. intros k Hlt. rewrite Hnum in Hlt. rewrite Hk by lia. specialize (Hc k Hlt).
    rewrite (tr_cursors _ _ T). destruct (sp_cursors s !! k) as [key|]; cbn in Hc; [by rewrite Hc|].
    rewrite <- Hc. apply list_lookup_lookup_total_lt. lia.
Qed.

(** There is only one version that holds a state. *)
Lemma version_unique v v' t : version_ok v -> version_ok v' -> num_levels v = num_levels v' -> holds v t -> holds v' t -> v = v'.
Proof.
  intros Hv Hv' Hn (H1 & _ & H3) (H1' & _ & H3').
  assert (files_ v = files_ v') as Ef by (apply same_levels; [apply Hv|apply Hv'|done|congruence|apply Hv|apply Hv']).
  assert (file_locations_ v = file_locations_ v') as El by (apply indexed_unique; [apply Hv|apply Hv'|done]).
  assert (compact_cursor_ v = compact_cursor_ v') as Ec.
  { apply list_eq_same_length with (n := num_levels v); [by rewrite (vo_cursors _ Hv'), Hn|apply Hv|].
    intros k x y Hk Hx Hy. rewrite H3 in Hx by done. rewrite H3' in Hy by lia. congruence. }
  pose proof (vo_blobs _ Hv) as B. pose proof (vo_blobs _ Hv') as B'. pose proof (vo_requirement _ Hv) as Q. pose proof (vo_requirement _ Hv') as Q'.
  destruct v, v'; cbn in *; congruence.
Qed.

End comparator.

(** ** Edits on both states *)

(** An operation acts on two states that agree in the same way. *)
Definition agrees (v : VersionStorageInfo) (op : State -> option State) : Prop := forall s t, over v s t ->
  match op s, op t with Some s', Some t' => over v s' t' | None, None => True | _, _ => False end.

Lemma steps_agree {A} v (op : A -> State -> option State) l : (forall x, agrees v (op x)) -> agrees v (steps op l).
Proof.
  intros Hop. induction l as [|x l IH]; intros s t Hst; [done|]. cbn. specialize (Hop x s t Hst).
  destruct (op x s) as [s'|], (op x t) as [t'|]; cbn; try done. by apply IH.
Qed.

Lemma delete_agrees v d : agrees v (spec_delete d).
Proof.
  intros s t [H1 H2 H3]. unfold spec_delete. rewrite H1. case_decide; [|done]. split; [done|done|exact H3].
Qed.

Lemma add_agrees v lf : agrees v (spec_add lf).
Proof.
  intros s t [H1 H2 H3]. unfold spec_add. rewrite H1. destruct (sp_files t !! GetNumber lf.2); [done|]. split; [done|done|exact H3].
Qed.

Lemma cursor_agrees v c : agrees v (spec_cursor (num_levels v) c).
Proof.
  intros s t [H1 H2 H3]. unfold spec_cursor. case_decide; [done|]. case_decide; [|by split]. split; [done|done|].
  intros k Hk. cbn [sp_cursors]. destruct (decide (k = Z.to_nat c.1)) as [->|]; [by rewrite !lookup_insert_eq|]. rewrite !lookup_insert_ne by done. by apply H3.
Qed.

Lemma bind_agrees v (p q : State -> option State) : agrees v p -> agrees v q -> agrees v (fun s => p s ≫= q).
Proof. intros Hp Hq s t Hst. specialize (Hp s t Hst). destruct (p s), (p t); cbn; try done. by apply Hq. Qed.

Lemma spec_apply_agrees v e : edit_ok e -> agrees v (spec_apply (num_levels v) e).
Proof.
  intros He. unfold spec_apply. destruct (eo_blobs e He) as [-> ->]. cbn.
  apply bind_agrees; [apply steps_agree, delete_agrees|]. apply bind_agrees; [apply steps_agree, add_agrees|]. apply steps_agree, cursor_agrees.
Qed.

(** ** The version set *)

(** A cursor that is written. *)
Definition cursor_ok (key : list Z) : Prop := Valid key = true /\ is_slice key /\ is_bytes key.

Definition cursors_ok (s : State) : Prop := forall k key, sp_cursors s !! k = Some key -> cursor_ok key.

Record set_family (c : ColumnFamilyData) (f : Family) : Prop := {
  sf_options_ok : options_ok (fam_options f);
  sf_name : cf_name c = fam_name f;
  sf_options : cf_options c = fam_options f;
  sf_log : cf_log_number c = fam_log f;
  sf_ts_low : cf_full_history_ts_low c = [];
  sf_levels : num_levels (cf_current c) = opt_num_levels (fam_options f);
  sf_version : let C := opt_comparator (fam_options f) in version_ok (cf_current c);
  sf_consistent : let C := opt_comparator (fam_options f) in CheckConsistency (opt_builder (fam_options f)) (cf_current c) = OK;
  sf_holds : holds (cf_current c) (fam_state f);
  sf_cursors : cursors_ok (fam_state f);
  sf_string : is_slice (fam_name f) /\ is_bytes (fam_name f);
  sf_log_range : is_u64 (fam_log f);
}.

(** A version set and the meaning of its MANIFEST, but for the counters that only the last
    edits set. *)
Record set_core (vs : VersionSet) (a : Abs) : Prop := {
  sa_ids : column_family_list vs = ab_ids a;
  sa_nodup : NoDup (ab_ids a);
  sa_elem id : id ∈ ab_ids a <-> is_Some (ab_families a !! id);
  sa_default : head (ab_ids a) = Some 0;
  sa_numbers id : id ∈ ab_ids a -> is_u32 id;
  sa_families id f : ab_families a !! id = Some f -> exists c, column_families vs !! id = Some c /\ set_family c f;
  sa_others id : ab_families a !! id = None -> column_families vs !! id = None;
  sa_max_le : 0 <= ab_max a <= max_column_family vs;
  sa_seq : ab_seq a = Some (descriptor_last_sequence (counters vs));
  sa_range : 0 <= descriptor_last_sequence (counters vs) < Version.kMaxSequenceNumber;
  sa_min : ab_min a = min_log_number_to_keep (counters vs);
  sa_min_range : is_u64 (min_log_number_to_keep (counters vs));
  sa_log : ab_log a = true;
  sa_bound id : id ∈ ab_ids a -> id <= max_column_family vs;
}.

Record set_abs (vs : VersionSet) (a : Abs) : Prop := {
  sa_core : set_core vs a;
  sa_max : Z.max (default 0 (ab_param a)) (ab_max a) = max_column_family vs;
  sa_next : is_Some (ab_next a);
}.

Lemma holds_within v s : storage_ok v -> holds v s -> within (num_levels v) s.
Proof.
  intros Hs (Hc & _) n level f Hn. rewrite <- Hc in Hn. apply contents_lookup in Hn as (k & -> & Hf & _); [|apply Hs].
  apply LevelFiles_num in Hf. lia.
Qed.

Lemma holds_typed `{Comparator} v s : version_ok v -> holds v s -> files_typed s.
Proof. intros Hv (Hc & _) n level f. rewrite <- Hc. apply Hv. Qed.

(** ** The end of a recovery *)

Lemma create_version_runs env h id c r v : column_families (version_set h) !! id = Some c -> builders h !! id = Some r ->
  (let C := opt_comparator (cf_options c) in CheckConsistency (opt_builder (cf_options c)) (base_vstorage r) = OK) ->
  (let C := opt_comparator (cf_options c) in
   SaveTo (opt_builder (cf_options c)) r (new_storage (num_levels (cf_current c)) (Some (cf_current c)) (epoch_number_requirement env)) = (OK, v)) ->
  create_version env id h = Some (OK, set_version_set (on_family id (set_cf_current (cf_next_epoch_number c) v) (version_set h)) h).
Proof.
  intros Hc Hr Hb Hs. cbn zeta in *. unfold create_version, MaybeCreateVersionBeforeApplyEdit. rewrite Hc, Hr. cbn [mbind option_bind].
  rewrite Hs, (Crash.Apply_empty _ r) by done. cbn [mbind option_bind]. rewrite insert_id by done. by destruct h.
Qed.

Lemma create_versions env (V : Z -> VersionStorageInfo) l : NoDup l -> forall h,
  (forall id, id ∈ l -> exists c r, column_families (version_set h) !! id = Some c /\ builders h !! id = Some r /\
     let C := opt_comparator (cf_options c) in CheckConsistency (opt_builder (cf_options c)) (base_vstorage r) = OK /\
     SaveTo (opt_builder (cf_options c)) r (new_storage (num_levels (cf_current c)) (Some (cf_current c)) (epoch_number_requirement env)) = (OK, V id)) ->
  exists m, each_family (create_version env) l h = Some (OK, set_version_set (set_column_families m (version_set h)) h) /\
    forall id, m !! id = (if decide (id ∈ l) then (fun c => set_cf_current (cf_next_epoch_number c) (V id) c) <$> column_families (version_set h) !! id
                          else column_families (version_set h) !! id).
Proof.
  induction 1 as [|id l Hid Hl IH]; intros h Hh.
  - exists (column_families (version_set h)). cbn [each_family]. split; [|done]. by destruct h as [[]].
  - destruct (Hh id) as (c & r & Hc & Hr & Hb & Hs); [by left|]. cbn [each_family].
    rewrite (create_version_runs env h id c r (V id) Hc Hr Hb Hs). cbn [mbind option_bind].
    set (h1 := set_version_set _ h). destruct (IH h1) as (m & -> & Hm).
    { intros i Hi. destruct (Hh i) as (ci & ri & Hci & Hri & Hrest); [by right|]. exists ci, ri. split; [|done].
      cbn. rewrite lookup_alter_ne; [done|]. intros ->. done. }
    exists m. split; [by destruct h as [[]]|]. intros i. rewrite Hm. cbn. destruct (decide (i = id)) as [->|Hne].
    + rewrite decide_False by done. rewrite decide_True by by left. rewrite lookup_alter_eq, Hc. done.
    + rewrite lookup_alter_ne by done. by destruct (decide (i ∈ l)), (decide (i ∈ id :: l)); set_solver.
Qed.

(** The version a recovery saves for a family is the running one. *)
Lemma recovered_version c r f c0 q : family_abs c r f -> set_family c0 f ->
  let C := opt_comparator (cf_options c) in CheckConsistency (opt_builder (cf_options c)) (base_vstorage r) = OK /\
  SaveTo (opt_builder (cf_options c)) r (new_storage (num_levels (cf_current c)) (Some (cf_current c)) q) = (OK, cf_current c0).
Proof.
  intros Hf Hs. rewrite (fa_options _ _ _ Hf), (fa_current _ _ _ Hf). set (num := opt_num_levels (fam_options f)).
  set (v0 := new_storage num None kMustPresent). intros C. pose proof (oo_comparator _ (sf_options_ok _ _ Hs)) as Laws. fold C in Laws.
  assert (num_levels v0 = num) as Hnum by apply length_replicate. assert (base_vstorage r = v0) as Hb by apply Hf.
  assert (CheckConsistency (opt_builder (fam_options f)) (base_vstorage r) = OK) as Hc
    by (rewrite Hb; apply (fresh_consistent _ num), new_storage_fresh).
  split; [done|]. rewrite (SaveTo_saves _ r (num_levels v0)); [|done|apply new_storage_fresh].
  assert (save r (new_storage (num_levels v0) (Some v0) q) = cf_current c0) as ->.
  2:{ pose proof (sf_consistent _ _ Hs) as Hcons. cbn zeta in Hcons. fold C in Hcons. by rewrite Hcons. }
  pose proof (sf_version _ _ Hs) as Hv0. cbn zeta in Hv0. fold C in Hv0. pose proof (sf_holds _ _ Hs) as Hh0. pose proof (sf_levels _ _ Hs) as Hl0. fold num in Hl0.
  destruct (save_holds r (fam_state f) (fam_state f) v0 q) as (Hv & Hh & Hn); try done.
  - apply Hf.
  - rewrite Hnum. apply (sf_options_ok _ _ Hs).
  - intros k. assert (LevelFiles k v0 = []) as ->; [|constructor]. unfold LevelFiles, v0. cbn.
    destruct (replicate num [] !! k) as [l|] eqn:E; [|done]. by apply lookup_replicate_1 in E as [-> _].
  - cbn. rewrite length_replicate. done.
  - assert (sp_blobs (fam_state f) = ∅) by apply Hh0. split; [done|done|]. intros k Hk. rewrite Hnum in Hk. cbn.
    rewrite (lookup_total_replicate_2 num) by done. done.
  - rewrite Hnum, <- Hl0. apply holds_within; [apply Hv0|done].
  - by eapply holds_typed.
  - apply (version_unique _ _ (fam_state f)); [done|done|congruence|done|done].
Qed.

Record same_family (c c' : ColumnFamilyData) : Prop := {
  sm_name : cf_name c' = cf_name c;
  sm_options : cf_options c' = cf_options c;
  sm_log : cf_log_number c' = cf_log_number c;
  sm_current : cf_current c' = cf_current c;
  sm_ts_low : cf_full_history_ts_low c' = cf_full_history_ts_low c;
}.

(** A recovered set and the running one. *)
Record same_database (vs vs' : VersionSet) : Prop := {
  sd_ids : column_family_list vs' = column_family_list vs;
  sd_max : max_column_family vs' = max_column_family vs;
  sd_families id : option_Forall2 same_family (column_families vs !! id) (column_families vs' !! id);
  sd_seq : last_sequence (counters vs') = descriptor_last_sequence (counters vs);
  sd_min : min_log_number_to_keep (counters vs') = min_log_number_to_keep (counters vs);
  sd_descriptor : descriptor_last_sequence (counters vs') = descriptor_last_sequence (counters vs);
}.

(** No write-ahead logs are tracked, and the identity of the database is a string. *)
Record plain_set (vs : VersionSet) : Prop := {
  ps_wals : WalEdit.wals (wals vs) = ∅;
  ps_db_id : is_slice (db_id vs) /\ is_bytes (db_id vs);
}.

(** Counters of their types. *)
Record counters_ok (c : Counters) : Prop := {
  cn_next : is_u64 (next_file_number c);
  cn_prev : is_u64 (prev_log_number c);
}.

Lemma each_family_same op l h : (forall id, id ∈ l -> op id h = Some (OK, h)) -> each_family op l h = Some (OK, h).
Proof.
  induction l as [|id l IH]; intros H; [done|]. cbn. rewrite (H id) by by left. cbn. apply IH. intros i Hi. apply H. by right.
Qed.

(** Epoch numbers that are all known are kept. *)
Lemma known_epochs `{Comparator} v : version_ok v -> HasMissingEpochNumber v = false.
Proof.
  intros Hv. destruct (HasMissingEpochNumber v) eqn:E; [|done]. unfold HasMissingEpochNumber in E.
  apply existsb_exists in E as (l & Hl & E). apply existsb_exists in E as (f & Hf & E). apply Z.eqb_eq in E.
  apply list_elem_of_In in Hf. apply list_elem_of_In, list_elem_of_lookup_1 in Hl as (k & Hk).
  assert (f ∈ LevelFiles k v) as Hfk by (by rewrite (LevelFiles_lookup _ _ _ Hk)).
  apply elem_of_level in Hfk; [|apply Hv]. by apply (vo_files _ Hv), stored_file_epoch in Hfk.
Qed.

(** Opening the tables succeeds. *)
Definition tables_ok (env : Env) : Prop := forall id r, load_table_handlers env id r = (OK, false).

Lemma LoadTables_ok env id h : tables_ok env -> LoadTables env id h = (OK, false).
Proof. intros Ht. unfold LoadTables. destruct (builders h !! id) as [r|]; [|done]. rewrite (Ht id r). repeat case_match; done. Qed.

Lemma mark_min p c : min_log_number_to_keep (mark_counters p c) = Z.max (min_log_number_to_keep c) (default 0 (EditCodec.min_log_number_to_keep p)) /\
  last_sequence (mark_counters p c) = last_sequence c /\ descriptor_last_sequence (mark_counters p c) = descriptor_last_sequence c.
Proof.
  unfold mark_counters, MarkFileNumberUsed, MarkMinLogNumberToKeep.
  repeat match goal with |- context [if ?b then _ else _] => destruct b eqn:? end; cbn; split_and!; try done; lia.
Qed.

Lemma RecoverEpochNumbers_same `{Comparator} c : version_ok (cf_current c) -> same_family c (RecoverEpochNumbers c).
Proof. intros Hv. unfold RecoverEpochNumbers. rewrite (known_epochs _ Hv). by split. Qed.

Lemma recovered_family c r f c0 : family_abs c r f -> set_family c0 f ->
  same_family c0 (RecoverEpochNumbers (set_cf_current (cf_next_epoch_number c) (cf_current c0) c)).
Proof.
  intros Hf Hs. pose proof (sf_version _ _ Hs) as Hv. cbn zeta in Hv.
  destruct (RecoverEpochNumbers_same (set_cf_current (cf_next_epoch_number c) (cf_current c0) c) Hv) as [H1 H2 H3 H4 H5].
  split; [rewrite H1|rewrite H2|rewrite H3|rewrite H4|rewrite H5]; cbn; [| | |done|].
  - by rewrite (fa_name _ _ _ Hf), (sf_name _ _ Hs).
  - by rewrite (fa_options _ _ _ Hf), (sf_options _ _ Hs).
  - by rewrite (fa_log _ _ _ Hf), (sf_log _ _ Hs).
  - by rewrite (fa_ts_low _ _ _ Hf), (sf_ts_low _ _ Hs).
Qed.

Lemma finish_same env off h a vs : tables_ok env -> handler_abs h a -> set_abs vs a ->
  exists vs', Crash.finish env off OK h = Some (OK, vs') /\ same_database vs vs' /\ plain_set vs' /\ counters_ok (counters vs').
Proof.
  intros Ht Ha [Hs Hmax Hnext]. unfold Crash.finish, CheckIterationResult. set (p := version_edit_params h).
  assert (bool_decide (is_Some (EditCodec.log_number p)) = true) as -> by (unfold p; rewrite (ha_log _ _ Ha); apply Hs).
  rewrite bool_decide_eq_true_2 by (unfold p; rewrite (ha_next _ _ Ha); exact Hnext).
  rewrite bool_decide_eq_true_2 by (unfold p; rewrite (ha_seq _ _ Ha), (sa_seq _ _ Hs); done).
  rewrite (ha_open _ _ Ha), bool_decide_eq_true_2 by done. rewrite andb_false_r. cbn [andb negb].
  set (h1 := on_set _ h). set (l := column_family_list (version_set h1)).
  assert (l = ab_ids a) as Hl by apply Ha.
  assert (forall id, id ∈ l -> exists f c r c0, column_families (version_set h1) !! id = Some c /\ builders h1 !! id = Some r /\
    family_abs c r f /\ column_families vs !! id = Some c0 /\ set_family c0 f) as Hfam.
  { intros id Hid. rewrite Hl in Hid. apply (sa_elem _ _ Hs) in Hid as [f Hf].
    destruct (ha_families _ _ Ha _ _ Hf) as (c & r & Hc & Hr & Hcr), (sa_families _ _ Hs _ _ Hf) as (c0 & Hc0 & Hcf). by exists f, c, r, c0. }
  rewrite each_family_same.
  2:{ intros id (f & c & r & _ & _ & Hr & Hf & _)%Hfam. unfold check_num_levels. rewrite Hr. cbn. unfold CheckConsistencyForNumLevels.
      destruct (fa_levels _ _ _ Hf) as [-> ->]. done. }
  cbn [mbind option_bind]. rewrite each_family_same.
  2:{ intros id _. unfold load_tables. rewrite LoadTables_ok by done. done. }
  cbn [mbind option_bind]. set (V := fun id => match column_families vs !! id with Some c => cf_current c | None => new_storage 0 None kMustPresent end).
  destruct (create_versions env V l) with (h := h1) as (m & -> & Hm).
  { rewrite Hl. apply Hs. }
  { intros id (f & c & r & c0 & Hc & Hr & Hf & Hc0 & Hcf)%Hfam. exists c, r. split; [done|]. split; [done|].
    unfold V. rewrite Hc0. by apply (recovered_version c r f). }
  cbn [mbind option_bind]. eexists. split; [done|].
  assert (default 0 (EditCodec.last_sequence p) = descriptor_last_sequence (counters vs)) as Hseq by (unfold p; by rewrite (ha_seq _ _ Ha), (sa_seq _ _ Hs)).
  assert (last_sequence (counters (version_set h)) = 0 /\ descriptor_last_sequence (counters (version_set h)) = 0) as [Hz1 Hz2] by (by rewrite (ha_counters _ _ Ha)).
  split; [|split; [split; apply Ha|split; [apply u64_range|apply Ha]]].
  destruct (mark_min p (counters (version_set h))) as (Hmm & Hml & Hmd). split; cbn.

  - by rewrite (ha_ids _ _ Ha), (sa_ids _ _ Hs).
  - unfold p. rewrite (ha_max _ _ Ha), (ha_param _ _ Ha). exact Hmax.
  - intros id. rewrite lookup_fmap, Hm. destruct (decide (id ∈ l)) as [Hid|Hid].
    + destruct (Hfam id Hid) as (f & c & r & c0 & -> & _ & Hf & Hc0 & Hcf). unfold V. rewrite Hc0. constructor.
      by apply (recovered_family c r f).
    + rewrite Hl, (sa_elem _ _ Hs) in Hid. apply eq_None_not_Some in Hid. rewrite (sa_others _ _ Hs _ Hid).
      assert (column_families (version_set h1) !! id = None) as -> by (by destruct (ha_others _ _ Ha _ Hid)). constructor.
  - rewrite Hml, Hseq, Hz1. pose proof (sa_range _ _ Hs).
    cbn. destruct (Z.eqb_spec (descriptor_last_sequence (counters vs)) Version.kMaxSequenceNumber); [lia|].
    destruct (Z.ltb_spec 0 (descriptor_last_sequence (counters vs))); cbn; lia.
  - rewrite Hmm. unfold p. rewrite (ha_min _ _ Ha), (ha_counters _ _ Ha), (sa_min _ _ Hs).
    apply Z.max_r. pose proof (sa_min_range _ _ Hs). unfold is_u64 in *; cbn; lia.
  - rewrite Hmd, Hseq, Hz2. pose proof (sa_range _ _ Hs). destruct (Z.eqb_spec (descriptor_last_sequence (counters vs)) Version.kMaxSequenceNumber); [lia|].
    destruct (Z.ltb_spec 0 (descriptor_last_sequence (counters vs))); cbn; lia.
Qed.

End CommitSpec.
