(* ===== verification/GroupSpec.v ===== *)
(** * A group commit and the specification of a MANIFEST

    The edits that a group commit writes mean the versions that it installs: for writers
    of table files, log numbers and counters, [prepare] and [install] of [LogApply] take a
    version set to the one that [ManifestSpec.spec_edits] gives for the batch. *)

From Stdlib Require Import ZArith Lia.
From stdpp Require Import base numbers list sorting gmap sets.
From S2P Require Import Prelude Version Coding WalEdit FileCodec EditCodec LogWriter LogReader Log Storage Builder BuilderSpec BuilderSave Build Recover Replay LogApply GroupCommit Crash ManifestSpec StoredEdit CommitSpec.

Import Coding FileCodec Storage Builder BuilderSpec BuilderSave Recover Replay LogApply GroupCommit ManifestSpec StoredEdit CommitSpec.
Local Open Scope Z_scope.

Module GroupSpec.

(** ** Members that the commit sets *)

(** An edit without its group, the next file number and the largest column family. *)
Definition loose (e : VersionEdit) : VersionEdit :=
  EditCodec.set_atomic_group None (EditCodec.set_next_file_number None (EditCodec.set_max_column_family None e)).

(** A meaning without the counters they set. *)
Definition blur (a : Abs) : Abs :=
  mkAbs (ab_families a) (ab_ids a) (ab_max a) None (ab_log a) None (ab_seq a) (ab_min a).

Lemma loose_fields e : EditCodec.column_family (loose e) = EditCodec.column_family e /\ EditCodec.column_family_add (loose e) = EditCodec.column_family_add e /\
  EditCodec.column_family_drop (loose e) = EditCodec.column_family_drop e /\ EditCodec.log_number (loose e) = EditCodec.log_number e /\
  wal_edit (loose e) = wal_edit e /\ EditCodec.last_sequence (loose e) = EditCodec.last_sequence e /\
  EditCodec.min_log_number_to_keep (loose e) = EditCodec.min_log_number_to_keep e /\ EditCodec.full_history_ts_low (loose e) = EditCodec.full_history_ts_low e.
Proof. by destruct e. Qed.

Lemma spec_apply_loose num e s : spec_apply num (loose e) s = spec_apply num e s.
Proof. by destruct e. Qed.

Lemma spec_change_blur env e a : spec_change env (loose e) (blur a) = blur <$> spec_change env e a.
Proof.
  destruct (loose_fields e) as (E1 & E2 & E3 & E4 & E5 & _). unfold spec_change. rewrite E1, E2, E3, E4, E5. cbn [blur ab_families].
  destruct (EditCodec.column_family_add e) as [name|].
  - destruct (env_options env name); [|done]. cbn [mbind option_bind]. by case_decide.
  - destruct (ab_families a !! EditCodec.column_family e) as [f|]; [|done]. cbn [mbind option_bind].
    destruct (EditCodec.column_family_drop e); [done|]. destruct (wal_edit e); [done|]. set (num := opt_num_levels (fam_options f)).
    assert (in_levels num (loose e) <-> in_levels num e) as Hin by (by destruct e). rewrite spec_apply_loose.
    destruct (decide (in_levels num e)) as [Hd|Hd], (decide (in_levels num (loose e))) as [Hd'|Hd']; try tauto.
    by destruct (spec_apply num e (fam_state f)).
Qed.

Lemma spec_family_blur e a : spec_family (loose e) (blur a) = blur <$> spec_family e a.
Proof.
  destruct (loose_fields e) as (E1 & _ & _ & E4 & _). unfold spec_family. rewrite E1, E4. cbn [blur ab_families].
  destruct (ab_families a !! EditCodec.column_family e) as [f|]; [|done].
  assert (comparator_ok (loose e) (fam_options f) <-> comparator_ok e (fam_options f)) as Hc by (by destruct e).
  destruct (decide (comparator_ok e (fam_options f))), (decide (comparator_ok (loose e) (fam_options f))); try tauto.
  by destruct (EditCodec.log_number e).
Qed.

Lemma spec_edit_blur env e a : blur <$> spec_edit env e a = blur <$> spec_edit env (loose e) (blur a).
Proof.
  unfold spec_edit. rewrite spec_change_blur. destruct (spec_change env e a) as [a1|]; [|done]. cbn [fmap option_fmap option_map mbind option_bind].
  assert (names_family (loose e) = names_family e) as -> by (by destruct e).
  assert (forall a2, blur (spec_counters e a2) = blur (spec_counters (loose e) (blur a2))) as Hc by (intros; by destruct e).
  destruct (names_family e); [|cbn; by rewrite Hc]. rewrite spec_family_blur. destruct (spec_family e a1) as [a2|]; [|done]. cbn. by rewrite Hc.
Qed.

Lemma blur_inj a b : Some (blur a) = Some (blur b) -> blur a = blur b.
Proof. by intros [= ]; unfold blur; congruence. Qed.

Lemma spec_edits_blur env l : forall a b, blur a = blur b -> blur <$> spec_edits env l a = blur <$> spec_edits env (loose <$> l) b.
Proof.
  induction l as [|e l IH]; intros a b Hab; [by cbn; rewrite Hab|]. cbn [spec_edits fmap list_fmap].
  assert (blur <$> spec_edit env e a = blur <$> spec_edit env (loose e) b) as He.
  { rewrite spec_edit_blur, Hab, (spec_edit_blur env (loose e) b). by assert (loose (loose e) = loose e) as -> by (by destruct e). }
  destruct (spec_edit env e a) as [a1|], (spec_edit env (loose e) b) as [b1|]; try done. cbn [mbind option_bind]. by apply IH, blur_inj.
Qed.

(** Edits that differ only in these members mean the same. *)
Lemma spec_edits_same env l l' a b c : loose <$> l = loose <$> l' -> blur a = blur b -> spec_edits env l a = Some c ->
  exists d, spec_edits env l' b = Some d /\ blur c = blur d.
Proof.
  intros Hl Ha Hc. pose proof (spec_edits_blur env l a b Ha) as H1. pose proof (spec_edits_blur env l' b b eq_refl) as H2.
  rewrite <- Hl, <- H1, Hc in H2. destruct (spec_edits env l' b) as [d|]; [|done]. exists d. split; [done|]. symmetry. by apply blur_inj.
Qed.

Lemma set_core_blur vs a b : blur a = blur b -> set_core vs a -> set_core vs b.
Proof.
  intros E H. assert (ab_families b = ab_families a /\ ab_ids b = ab_ids a /\ ab_max b = ab_max a /\ ab_log b = ab_log a /\ ab_seq b = ab_seq a /\ ab_min b = ab_min a)
    as (E1 & E2 & E3 & E4 & E5 & E6) by (unfold blur in E; by injection E).
  split; rewrite ?E1, ?E2, ?E3, ?E4, ?E5, ?E6; apply H.
Qed.

(** ** Edits stay typed *)

(** An edit that is written as it is. *)
Definition commit_edit (e : VersionEdit) : Prop := stored_edit e /\ cursors_valid e.

Lemma commit_ok e : commit_edit e -> edit_ok e.
Proof. intros [H _]. apply H. Qed.

Lemma commit_next n e : is_u64 n -> commit_edit e -> commit_edit (EditCodec.set_next_file_number (Some n) e).
Proof. intros Hn [H1 H2]. split; [by apply stored_next|by destruct e]. Qed.

Lemma commit_prev n e : is_u64 n -> commit_edit e -> commit_edit (EditCodec.set_prev_log_number (Some n) e).
Proof. intros Hn [H1 H2]. split; [by apply stored_prev|by destruct e]. Qed.

Lemma commit_seq n e : is_u64 n -> commit_edit e -> commit_edit (EditCodec.set_last_sequence (Some n) e).
Proof. intros Hn [H1 H2]. split; [by apply stored_seq|by destruct e]. Qed.

Lemma commit_max n e : is_u32 n -> commit_edit e -> commit_edit (EditCodec.set_max_column_family (Some n) e).
Proof. intros Hn [H1 H2]. split; [by apply stored_max|by destruct e]. Qed.

Lemma commit_group n e : is_u32 n -> commit_edit e -> commit_edit (EditCodec.set_atomic_group (Some n) e).
Proof. intros Hn [H1 H2]. split; [by apply stored_group|by destruct e]. Qed.

Definition is_sequence (n : Z) : Prop := 0 <= n < Version.kMaxSequenceNumber.

Lemma sequence_u64 n : is_sequence n -> is_u64 n.
Proof. unfold is_sequence, is_u64. intros H. assert (Version.kMaxSequenceNumber <= u64_max) by by vm_compute. lia. Qed.

Lemma commit_counters c e m : counters_ok c -> is_sequence m -> commit_edit e -> commit_edit (set_edit_counters c e m).1.
Proof.
  intros [Hn Hp] Hm%sequence_u64 He. unfold set_edit_counters.
  set (e1 := match EditCodec.prev_log_number e with None => _ | Some _ => e end).
  assert (commit_edit e1) as H1 by (unfold e1; destruct (EditCodec.prev_log_number e); [done|by apply commit_prev]).
  set (e2 := EditCodec.set_next_file_number _ e1). assert (commit_edit e2) as H2 by (by apply commit_next).
  repeat case_match; cbn; try done; by apply commit_seq.
Qed.

(** ** Edits of table files *)

(** What a writer may ask for: no column families and logs, levels that exist. *)
Record change_ok (vs : VersionSet) (e : VersionEdit) : Prop := {
  co_ok : commit_edit e;
  co_add : EditCodec.column_family_add e = None;
  co_drop : EditCodec.column_family_drop e = false;
  co_wal : wal_edit e = false;
  co_comparator : EditCodec.comparator e = None;
  co_max : EditCodec.max_column_family e = None;
  co_seq s : EditCodec.last_sequence e = Some s -> is_sequence s;
  co_levels c : column_families vs !! EditCodec.column_family e = Some c -> in_levels (opt_num_levels (cf_options c)) e;
}.

(** The fields the counters leave. *)
Lemma counters_fields c e m : let e' := (set_edit_counters c e m).1 in let m' := (set_edit_counters c e m).2 in
  EditCodec.column_family e' = EditCodec.column_family e /\ EditCodec.column_family_add e' = EditCodec.column_family_add e /\
  EditCodec.column_family_drop e' = EditCodec.column_family_drop e /\ wal_edit e' = wal_edit e /\ EditCodec.comparator e' = EditCodec.comparator e /\
  EditCodec.log_number e' = EditCodec.log_number e /\ EditCodec.min_log_number_to_keep e' = EditCodec.min_log_number_to_keep e /\
  EditCodec.max_column_family e' = EditCodec.max_column_family e /\
  EditCodec.last_sequence e' = Some m' /\ EditCodec.next_file_number e' = Some (next_file_number c) /\
  (is_sequence m -> (forall s, EditCodec.last_sequence e = Some s -> is_sequence s) -> is_sequence m').
Proof. unfold set_edit_counters. destruct e. cbn. destruct prev_log_number, last_sequence; cbn; repeat case_match; cbn; naive_solver. Qed.

Lemma counters_same c e m num s : spec_apply num (set_edit_counters c e m).1 s = spec_apply num e s /\
  (in_levels num (set_edit_counters c e m).1 <-> in_levels num e).
Proof. unfold set_edit_counters. destruct e. cbn. destruct prev_log_number, last_sequence; cbn; repeat case_match; done. Qed.

Lemma alter_known {A} (g : A -> A) i (m : gmap Z A) x : m !! i = Some x -> alter g i m = <[i := g x]> m.
Proof.
  intros H. apply map_eq. intros j. destruct (decide (j = i)) as [->|]; [by rewrite lookup_alter_eq, lookup_insert_eq, H|].
  by rewrite lookup_alter_ne, lookup_insert_ne.
Qed.

(** The meaning of a change. *)
Lemma spec_edit_change env a e f s : EditCodec.column_family_add e = None -> EditCodec.column_family_drop e = false -> wal_edit e = false ->
  ab_families a !! EditCodec.column_family e = Some f -> comparator_ok e (fam_options f) -> in_levels (opt_num_levels (fam_options f)) e ->
  spec_apply (opt_num_levels (fam_options f)) e (fam_state f) = Some s ->
  exists b, spec_edit env e a = Some b /\
    ab_families b = <[EditCodec.column_family e := mkFamily (fam_name f) (fam_options f)
      (match EditCodec.log_number e with Some n => Z.max (fam_log f) n | None => fam_log f end) s]> (ab_families a) /\
    ab_ids b = ab_ids a /\ ab_max b = ab_max a /\ ab_log b = ab_log a || (match EditCodec.log_number e with Some n => fam_log f <=? n | None => false end) /\
    ab_seq b = or_old (EditCodec.last_sequence e) (ab_seq a) /\ ab_next b = or_old (EditCodec.next_file_number e) (ab_next a) /\
    ab_param b = or_old (EditCodec.max_column_family e) (ab_param a) /\
    ab_min b = match EditCodec.min_log_number_to_keep e with Some n => Z.max (ab_min a) n | None => ab_min a end.
Proof.
  intros H1 H2 H3 Hf H4 Hin Hs. unfold spec_edit, spec_change, names_family. rewrite H1, H2, H3, Hf. cbn [mbind option_bind orb negb].
  rewrite bool_decide_eq_false_2 by (by intros [? ?]). cbn [orb]. rewrite decide_True by done. rewrite Hs. cbn [mbind option_bind].
  unfold spec_family. cbn [ab_families on_fam set_families]. rewrite lookup_alter_eq, Hf. cbn [fmap option_fmap option_map].
  rewrite decide_True by done. cbn [mbind option_bind fam_log]. eexists. split; [done|].
  destruct (EditCodec.log_number e) as [n|]; cbn; split_and!; try done; try (by rewrite orb_false_r).
  - rewrite (alter_known _ _ _ f Hf). rewrite (alter_known _ _ _ _ (lookup_insert_eq _ _ _)). by rewrite insert_insert_eq.
  - by rewrite (alter_known _ _ _ f Hf).
Qed.

(** ** Files of a state *)

Definition file_ok (num : nat) (lf : Z * FileMetaData) : Prop := lf.1 < Z.of_nat num /\ stored_file lf.

Definition files_ok (num : nat) (s : State) : Prop := (forall n lf, sp_files s !! n = Some lf -> file_ok num lf) /\ cursors_ok s.

Lemma steps_files_ok {A} (P : A -> Prop) num (op : A -> State -> option State) l :
  (forall x s s', P x -> files_ok num s -> op x s = Some s' -> files_ok num s') ->
  forall s s', Forall P l -> files_ok num s -> steps op l s = Some s' -> files_ok num s'.
Proof.
  intros Hop. induction l as [|x l IH]; intros s s' Hl Hs; cbn; [by intros [= <-]|]. apply Forall_cons in Hl as [Hx Hl].
  destruct (op x s) as [s1|] eqn:E; [|done]. cbn. by apply IH; [|eapply Hop].
Qed.

(** The cursors of an edit are written. *)
Lemma commit_cursors e : commit_edit e -> Forall (fun c => cursor_ok c.2) (EditCodec.compact_cursors e).
Proof.
  intros [Hs Hv]. pose proof (EditCodec.ok_cursors _ _ (se_typed e Hs)) as Ht. pose proof (se_cursors e Hs) as Hb.
  unfold cursors_valid in Hv. rewrite Forall_forall in Ht, Hb |- *. intros c Hc. split_and!; [|by apply Ht|by apply Hb].
  rewrite <- Hv in Hc. by apply list_elem_of_filter in Hc as [? _].
Qed.

Lemma spec_apply_files num e s s' : commit_edit e -> in_levels num e -> files_ok num s -> spec_apply num e s = Some s' -> files_ok num s'.
Proof.
  intros He [_ Hn] Hs. unfold spec_apply. destruct (eo_blobs e (commit_ok e He)) as [-> ->]. cbn.
  destruct (steps spec_delete _ s) as [s1|] eqn:E1; [|done]. cbn. destruct (steps spec_add _ s1) as [s2|] eqn:E2; [|done]. cbn. intros E3.
  assert (files_ok num s1) as H1.
  { eapply (steps_files_ok (fun _ => True)); [|by apply Forall_true|exact Hs|exact E1]. intros d t t' _ [Ht Hc]. unfold spec_delete.
    case_decide; [|done]. intros [= <-]. split; [|done]. intros n lf. cbn. rewrite lookup_delete_Some. intros [_ Hl]. by eapply Ht. }
  assert (files_ok num s2) as H2.
  { eapply (steps_files_ok (file_ok num)); [| |exact H1|exact E2].
    - intros lf t t' Hlf [Ht Hc]. unfold spec_add. destruct (sp_files t !! GetNumber lf.2); [done|]. intros [= <-]. split; [|done]. intros n x.
      cbn. rewrite lookup_insert_Some. intros [[_ <-]|[_ Hx]]; [done|by eapply Ht].
    - pose proof (EditCodec.ok_new_files _ _ (se_typed e (proj1 He))) as Ht. pose proof (se_files e (proj1 He)) as Hb.
      rewrite Forall_forall in Hn, Ht, Hb |- *. intros lf Hlf. split; [by apply Hn|split; [by apply Ht|by apply Hb]]. }
  eapply (steps_files_ok (fun c => cursor_ok c.2)); [|by apply commit_cursors|exact H2|exact E3]. intros c t t' Hc [Ht Htc]. unfold spec_cursor.
  repeat case_decide; intros; simplify_eq; [|done]. split; [done|]. intros k key. cbn. rewrite lookup_insert_Some.
  intros [[_ <-]|[_ Hk]]; [done|by eapply Htc].
Qed.

Lemma files_ok_split num s : files_ok num s -> within num s /\ files_typed s.
Proof. intros [H _]. split; intros n level f Hn; by destruct (H _ _ Hn). Qed.

(** ** Log numbers that are installed *)

Definition new_log (e : VersionEdit) (old : Z) : Z := match EditCodec.log_number e with Some n => Z.max old n | None => old end.

Lemma new_log_range e old : commit_edit e -> is_u64 old ->
  is_u64 (match EditCodec.log_number e with Some n => Z.max old n | None => old end).
Proof.
  intros [He _] Ho. destruct (EditCodec.log_number e) as [n|] eqn:E; [|done]. pose proof (EditCodec.ok_log_number _ _ (se_typed e He) n E).
  unfold is_u64 in *. lia.
Qed.

Lemma install_edit_families vs x : (forall c, column_families vs !! EditCodec.column_family x.1 = Some c -> opt_timestamp_size (cf_options c) = 0%nat) ->
  install_edit vs x = set_column_families (alter (fun c => set_cf_log_number (new_log x.1 (cf_log_number c)) c) (EditCodec.column_family x.1) (column_families vs)) vs.
Proof.
  intros Hts. unfold install_edit, new_log. set (id := EditCodec.column_family x.1) in *.
  set (vs1 := match EditCodec.log_number x.1 with Some n => _ | None => vs end).
  assert (vs1 = set_column_families (alter (fun c => set_cf_log_number (match EditCodec.log_number x.1 with Some n => Z.max (cf_log_number c) n | None => cf_log_number c end) c) id (column_families vs)) vs) as E.
  { unfold vs1. destruct (EditCodec.log_number x.1) as [n|].
    - unfold on_family. f_equal. apply alter_ext. intros c _. destruct (Z.ltb_spec (cf_log_number c) n).
      + by rewrite Z.max_r by lia.
      + rewrite Z.max_l by lia. by destruct c.
    - unfold set_column_families. rewrite alter_id; [by destruct vs|]. intros c _. by destruct c. }
  destruct (EditCodec.full_history_ts_low x.1) as [|t ts]; [done|]. rewrite on_family_same; [done|].
  intros c Hc. apply SetFullHistoryTsLow_none. rewrite E in Hc. cbn in Hc. rewrite lookup_alter_eq in Hc. apply fmap_Some in Hc as (c0 & Hc0 & ->).
  cbn. by apply Hts.
Qed.

(** ** Builders of a group *)

Lemma find_set_version {A} id (r : A) l j : find_version j (set_version id r l) =
  match find_version j l with Some r0 => Some (if decide (j = id) then r else r0) | None => None end.
Proof.
  induction l as [|[i r0] l IH]; [done|]. cbn. destruct (decide (i = id)) as [->|Hi]; cbn.
  - destruct (decide (id = j)) as [->|Hj]; [by rewrite decide_True|]. by destruct (find_version j l); [rewrite decide_False by done|].
  - destruct (decide (i = j)) as [->|Hj]; [by rewrite decide_False|]. apply IH.
Qed.

Lemma set_version_ids {A} id (r : A) l : (set_version id r l).*1 = l.*1.
Proof. induction l as [|[i r0] l IH]; [done|]. cbn. destruct (decide (i = id)); cbn; [done|by rewrite IH]. Qed.

Lemma find_version_app {A} j (l1 l2 : list (Z * A)) : find_version j (l1 ++ l2) = or_old (find_version j l1) (find_version j l2).
Proof. induction l1 as [|[i r0] l1 IH]; [done|]. cbn. by destruct (decide (i = j)). Qed.

Lemma find_version_None {A} j (l : list (Z * A)) : find_version j l = None <-> j ∉ l.*1.
Proof.
  induction l as [|[i r0] l IH]; cbn; [split; [by intros _ ?%not_elem_of_nil|done]|]. rewrite not_elem_of_cons.
  destruct (decide (i = j)) as [->|]; [split; [done|by intros [[] _]]|]. rewrite IH. split; [done|by intros [_ ?]].
Qed.

Lemma set_version_found {A} id (r : A) l : find_version id l = Some r -> set_version id r l = l.
Proof. induction l as [|[i r0] l IH]; cbn; [done|]. destruct (decide (i = id)); [by intros [= ->]|]. intros H. by rewrite IH. Qed.

Lemma set_version_twice {A} id (r r' : A) l : set_version id r' (set_version id r l) = set_version id r' l.
Proof. induction l as [|[i r0] l IH]; cbn; [done|]. destruct (decide (i = id)) as [->|]; cbn; [by rewrite decide_True|]. by rewrite decide_False, IH. Qed.

Lemma last_min_log_snoc l x : last_min_log (l ++ [x]) =
  match EditCodec.min_log_number_to_keep x.1 with Some n => Z.max (last_min_log l) n | None => last_min_log l end.
Proof. unfold last_min_log. by rewrite foldl_app. Qed.

(** ** The loop over the writers *)

Section group.
Context (env : Env) (vs : VersionSet) (a : Abs) (Hcore : set_core vs a) (Hcounters : counters_ok (counters vs)).

(** A family of the set, its state before the group and after the edits so far, and its
    builder. *)
Record family_inv (c : ColumnFamilyData) (f fb : Family) (b : option Rep) : Prop := {
  fi_name : fam_name fb = fam_name f;
  fi_options : fam_options fb = fam_options f;
  fi_files : files_ok (opt_num_levels (fam_options f)) (fam_state fb);
  fi_log : is_u64 (fam_log fb);
  fi_builder : match b with
               | Some r => exists s, tracks r s /\ base_vstorage r = cf_current c /\ over (cf_current c) s (fam_state fb)
               | None => fam_state fb = fam_state f
               end;
}.

Record group_inv (g : Group) (b : Abs) : Prop := {
  gi_edits : Forall commit_edit (edits_of g);
  gi_spec : spec_edits env (edits_of g) a = Some b;
  gi_ids : ab_ids b = ab_ids a;
  gi_max : ab_max b = ab_max a;
  gi_log : ab_log b = true;
  gi_seq : ab_seq b = Some (max_last_sequence g);
  gi_range : is_sequence (max_last_sequence g);
  gi_min : ab_min b = Z.max (ab_min a) (last_min_log (batch_edits g));
  gi_families id f : ab_families a !! id = Some f -> exists c fb, column_families vs !! id = Some c /\ ab_families b !! id = Some fb /\
    family_inv c f fb (find_version id (versions g)) /\
    column_families (foldl install_edit vs (batch_edits g)) !! id = Some (set_cf_log_number (fam_log fb) c);
  gi_others id : ab_families a !! id = None -> ab_families b !! id = None /\ find_version id (versions g) = None;
  gi_nodup : NoDup (versions g).*1;
}.

(** One edit of a family, applied to its builder. *)
Lemma apply_change c f fb r e r' : set_family c f -> family_inv c f fb (Some r) -> commit_edit e -> in_levels (opt_num_levels (fam_options f)) e ->
  (let C := opt_comparator (fam_options f) in Apply (opt_builder (fam_options f)) e r = Some (OK, r')) ->
  exists s, spec_apply (opt_num_levels (fam_options f)) e (fam_state fb) = Some s /\
    forall log, is_u64 log -> family_inv c f (mkFamily (fam_name fb) (fam_options fb) log s) (Some r').
Proof.
  intros Hs [H1 H2 H3 Hlog (s & T & Hb & Hov)] He Hin Ha. cbn zeta in Ha. set (num := opt_num_levels (fam_options f)) in *.
  pose proof (sf_levels _ _ Hs) as Hnum. fold num in Hnum. pose proof (sf_consistent _ _ Hs) as Hc. cbn zeta in Hc.
  assert (@implements (Apply (C := opt_comparator (fam_options f)) (opt_builder (fam_options f)) e r) (spec_apply num e s)) as Hi.
  { rewrite <- Hnum, <- Hb. apply Apply_implements; [by rewrite Hb|by eapply in_levels_ok|by rewrite (proj1 (eo_blobs e (commit_ok e He)))|done]. }
  pose proof (spec_apply_agrees (cf_current c) e (commit_ok e He) s (fam_state fb) Hov) as Hag. rewrite Hnum in Hag.
  rewrite Ha in Hi. destruct (spec_apply num e s) as [s'|] eqn:Es; [|by destruct Hi]. destruct Hi as (r1 & [= <-] & T').
  destruct (spec_apply num e (fam_state fb)) as [t'|] eqn:Et; [|done]. exists t'. split; [done|]. intros log Hl.
  split; cbn; [done|done|by eapply spec_apply_files|done|]. exists s'. split_and!; [done| |done]. by rewrite (Apply_base _ _ _ _ _ Ha).
Qed.

(** The group after one more edit. *)
Lemma group_change g b e c f r r' ts start : group_inv g b -> change_ok vs e ->
  ab_families a !! EditCodec.column_family e = Some f -> column_families vs !! EditCodec.column_family e = Some c ->
  find_version (EditCodec.column_family e) (versions g) = Some r ->
  let x := set_edit_counters (counters vs) e (max_last_sequence g) in
  (let C := opt_comparator (cf_options c) in Apply (opt_builder (cf_options c)) x.1 r = Some (OK, r')) ->
  exists b', group_inv (mkGroup (batch_edits g ++ [(x.1, ts)]) (set_version (EditCodec.column_family e) r' (versions g)) x.2 start) b'.
Proof.
  intros Hg Hch Hf Hc Hr x Ha. set (id := EditCodec.column_family e) in *.
  destruct (gi_families _ _ Hg id f Hf) as (c1 & fb & Hc1 & Hfb & Hfi & Hlog). rewrite Hc in Hc1. injection Hc1 as <-. rewrite Hr in Hfi.
  destruct (sa_families _ _ Hcore id f Hf) as (c1 & Hc1 & Hsf). rewrite Hc in Hc1. injection Hc1 as <-. rewrite (sf_options _ _ Hsf) in Ha.
  destruct (counters_fields (counters vs) e (max_last_sequence g)) as (E1 & E2 & E3 & E4 & E5 & E6 & E7 & E8 & E9 & E10 & E11). fold x in E1, E2, E3, E4, E5, E6, E7, E8, E9, E10, E11.
  assert (commit_edit x.1) as Hok by (apply commit_counters; [done|apply Hg|apply Hch]).
  assert (in_levels (opt_num_levels (fam_options f)) x.1) as Hin.
  { apply counters_same; [exact (mkState ∅ ∅ ∅)|]. rewrite <- (sf_options _ _ Hsf). by apply (co_levels _ _ Hch). }
  destruct (apply_change c f fb r x.1 r' Hsf Hfi Hok Hin Ha) as (s & Hs & Hfi'). rewrite <- (fi_options _ _ _ _ Hfi) in Hs, Hin.
  destruct (spec_edit_change env b x.1 fb s) as (b' & Hb' & F1 & F2 & F3 & F4 & F5 & _ & _ & F8);
    [by rewrite E2; apply Hch|by rewrite E3; apply Hch|by rewrite E4; apply Hch|by rewrite E1|unfold comparator_ok; by rewrite E5, (co_comparator _ _ Hch)|done|done|].
  rewrite E1 in F1. fold id in F1. exists b'. split; cbn [batch_edits versions max_last_sequence].
  - rewrite edits_of_snoc, Forall_app, Forall_singleton. split; [apply Hg|done].
  - rewrite edits_of_snoc, spec_edits_app, (gi_spec _ _ Hg). cbn. by rewrite Hb'.
  - rewrite F2. apply Hg.
  - rewrite F3. apply Hg.
  - by rewrite F4, (gi_log _ _ Hg).
  - by rewrite F5, E9.
  - apply E11; [apply Hg|apply Hch].
  - rewrite F8, last_min_log_snoc, (gi_min _ _ Hg). cbn [fst]. destruct (EditCodec.min_log_number_to_keep x.1); [lia|done].
  - intros i fi Hfi0. rewrite foldl_app. cbn [foldl]. rewrite F1. destruct (gi_families _ _ Hg i fi Hfi0) as (ci & fbi & Hci & Hfbi & Hfii & Hlogi).
    rewrite (install_edit_families _ (x.1, ts)).
    2:{ cbn [fst]. rewrite E1. fold id. intros c2. rewrite Hlog. intros [= <-]. cbn. rewrite (sf_options _ _ Hsf). apply Hsf. }
    cbn [fst column_families set_column_families]. rewrite E1. fold id. rewrite find_set_version.
    destruct (decide (i = id)) as [->|Hne].
    + rewrite Hf in Hfi0. injection Hfi0 as <-. rewrite Hc in Hci. injection Hci as <-. rewrite lookup_insert_eq, lookup_alter_eq, Hlog, Hr.
      eexists c, _. split; [done|]. split; [done|]. split; [apply Hfi', (new_log_range x.1); [done|apply Hfi]|]. cbn. unfold new_log. rewrite E6. by destruct (EditCodec.log_number e).
    + rewrite lookup_insert_ne, lookup_alter_ne by done. exists ci, fbi. split_and!; try done. by destruct (find_version i (versions g)).
  - intros i Hi. rewrite F1, find_set_version. destruct (gi_others _ _ Hg i Hi) as [H1 ->]. split; [|done].
    rewrite lookup_insert_ne; [done|]. intros <-. fold id in Hf. congruence.
  - rewrite set_version_ids. apply Hg.
Qed.

(** The edits of a writer with a builder. *)
Lemma add_edits_inv id f c l : ab_families a !! id = Some f -> column_families vs !! id = Some c ->
  Forall (fun e => change_ok vs e /\ EditCodec.column_family e = id) l ->
  forall r g b r1 g1, is_Some (find_version id (versions g)) -> group_inv (set_versions (set_version id r (versions g)) g) b ->
  add_edits (counters vs) (cf_options c) (Some r) l g = Some (OK, r1, g1) ->
  exists r2 b', r1 = Some r2 /\ group_inv (set_versions (set_version id r2 (versions g1)) g1) b'.
Proof.
  intros Hf Hc. induction l as [|e l IH]; intros Hl r g b r1 g1 Hv Hg; cbn [add_edits]; [intros [= <- <-]; eauto|].
  apply Forall_cons in Hl as [[Hch Hid] Hl]. unfold LogAndApplyHelper.
  destruct Hv as [r0 Hv].
  assert (find_version id (versions (set_versions (set_version id r (versions g)) g)) = Some r) as Hr
    by (cbn; rewrite find_set_version, Hv; by rewrite decide_True).
  change (max_last_sequence g) with (max_last_sequence (set_versions (set_version id r (versions g)) g)).
  set (gr := set_versions (set_version id r (versions g)) g) in *.
  destruct (set_edit_counters (counters vs) e (max_last_sequence gr)) as [e' m] eqn:Ee.
  cbn [mbind option_bind]. destruct (Apply (opt_builder (cf_options c)) e' r) as [[[] r']|] eqn:Ea; cbn [mbind option_bind]; try done.
  pose proof (group_change gr b e c f r r' (Some (opt_timestamp_size (cf_options c))) (next_group_start e g) Hg Hch) as Hs.
  rewrite Hid, Ee in Hs. cbn [fst snd] in Hs. specialize (Hs Hf Hc Hr). destruct (Hs Ea) as (b' & Hb'). unfold gr in Hb'. cbn [versions set_versions batch_edits] in Hb'.
  rewrite set_version_twice in Hb'. apply (IH Hl r' _ b'); [by exists r0|exact Hb'].
Qed.

(** *** Writers that are left out *)

Lemma skip_loose l g : loose <$> edits_of (skip_dropped l g) = loose <$> edits_of g.
Proof.
  unfold skip_dropped. destruct (open_group g); [|done]. unfold edits_of. cbn [batch_edits].
  set (k := default _ _). transitivity (loose <$> (fst <$> take k (batch_edits g) ++ drop k (batch_edits g))); [|by rewrite take_drop].
  rewrite !fmap_app. f_equal. rewrite <- !list_fmap_compose. apply list_fmap_ext. intros _ [e ts] _. unfold compose, subtract_remaining.
  cbn [fst]. destruct (EditCodec.atomic_group e); [by destruct e|done].
Qed.

Lemma install_edits_loose vs0 (B : list (VersionEdit * option nat)) :
  foldl install_edit vs0 B = foldl (fun vs e => install_edit vs (e, None)) vs0 (loose <$> B.*1).
Proof.
  revert vs0. induction B as [|[e ts] B IH]; intros vs0; [done|]. cbn [foldl fmap list_fmap fst]. rewrite IH. f_equal.
  destruct (loose_fields e) as (E1 & _ & _ & E4 & _ & _ & _ & E8). unfold install_edit. cbn [fst]. by rewrite E1, E4, E8.
Qed.

Lemma last_min_log_loose (B : list (VersionEdit * option nat)) : last_min_log B = last_min_log ((fun e => (e, None)) <$> (loose <$> B.*1)).
Proof.
  induction B as [|[e ts] B IH] using rev_ind; [done|]. rewrite !fmap_app. cbn [fmap list_fmap fst]. rewrite !last_min_log_snoc. cbn [fst].
  destruct (loose_fields e) as (_ & _ & _ & _ & _ & _ & E7 & _). by rewrite E7, IH.
Qed.

Lemma skip_commit l g : Forall commit_edit (edits_of g) -> Forall commit_edit (edits_of (skip_dropped l g)).
Proof.
  unfold skip_dropped. destruct (open_group g); [|done]. unfold edits_of. cbn [batch_edits]. set (k := default _ _).
  rewrite <- (take_drop k (batch_edits g)) at 1. rewrite !fmap_app, !Forall_app. intros [H1 H2]. split; [done|].
  rewrite Forall_fmap in H2. rewrite Forall_fmap, Forall_fmap. eapply Forall_impl; [exact H2|]. intros [e ts] He. unfold compose, subtract_remaining in *. cbn [fst] in *.
  destruct (EditCodec.atomic_group e); [|done]. apply commit_group; [|done]. unfold is_u32, u32. apply Z.mod_pos_bound. lia.
Qed.

Lemma skip_versions l g : versions (skip_dropped l g) = versions g /\ max_last_sequence (skip_dropped l g) = max_last_sequence g.
Proof. unfold skip_dropped. by destruct (open_group g). Qed.

Lemma skip_inv l g b : group_inv g b -> exists b', group_inv (skip_dropped l g) b'.
Proof.
  intros Hg. pose proof (skip_loose l g) as El. destruct (skip_versions l g) as [Ev Em].
  destruct (spec_edits_same env (edits_of g) (edits_of (skip_dropped l g)) a a b) as (b' & Hb' & E); [done|done|apply Hg|].
  unfold blur in E. injection E as F1 F2 F3 F4 F5 F6.
  assert (foldl install_edit vs (batch_edits (skip_dropped l g)) = foldl install_edit vs (batch_edits g)) as Ei
    by (rewrite !install_edits_loose; fold (edits_of (skip_dropped l g)); by rewrite El).
  assert (last_min_log (batch_edits (skip_dropped l g)) = last_min_log (batch_edits g)) as Ek
    by (rewrite (last_min_log_loose (batch_edits g)), last_min_log_loose; fold (edits_of (skip_dropped l g)); by rewrite El).
  exists b'. split.
  - by apply skip_commit, Hg.
  - done.
  - rewrite <- F2. apply Hg.
  - rewrite <- F3. apply Hg.
  - rewrite <- F4. apply Hg.
  - rewrite <- F5, Em. apply Hg.
  - rewrite Em. apply Hg.
  - rewrite <- F6, Ek. apply Hg.
  - rewrite <- F1, Ev, Ei. apply Hg.
  - rewrite <- F1, Ev. apply Hg.
  - rewrite Ev. apply Hg.
Qed.

(** *** The whole loop *)

Definition writer_ok (w : ManifestWriter) : Prop :=
  edit_list w <> [] /\ Forall (fun e => change_ok vs e /\ EditCodec.column_family e = mw_cfd w) (edit_list w).

Lemma not_wal_edits w : writer_ok w -> IsAllWalEdits w = false.
Proof.
  intros [Hne Hl]. unfold IsAllWalEdits. destruct (edit_list w) as [|e l]; [done|]. apply Forall_cons in Hl as [[Hch _] _]. cbn.
  apply andb_false_iff. left. pose proof (co_wal _ _ Hch) as Hw. unfold wal_edit in Hw. apply orb_false_iff in Hw as [_ Hd].
  unfold IsWalManipulation. rewrite Hd. pose proof (eo_wals e (commit_ok e (co_ok _ _ Hch))) as ->. cbn.
  destruct (Z.ltb_spec 0 (NumEntries e)); [|done]. cbn. rewrite orb_diag. apply Z.eqb_neq. lia.
Qed.

(** A builder that starts from the current version. *)
Lemma new_builder_inv g b id c f : group_inv g b -> ab_families a !! id = Some f -> column_families vs !! id = Some c ->
  find_version id (versions g) = None -> group_inv (set_versions (versions g ++ [(id, new_rep (cf_current c))]) g) b.
Proof.
  intros Hg Hf Hc Hn. destruct (sa_families _ _ Hcore id f Hf) as (c1 & Hc1 & Hsf). rewrite Hc in Hc1. injection Hc1 as <-.
  pose proof (sf_version _ _ Hsf) as Hv. cbn zeta in Hv.
  split; cbn [batch_edits versions max_last_sequence set_versions]; try apply Hg.
  - intros i fi Hfi. destruct (gi_families _ _ Hg i fi Hfi) as (ci & fbi & H1 & H2 & [I1 I2 I3 I5 I4] & H4). exists ci, fbi. split_and!; try done.
    rewrite find_version_app. split; try done. destruct (decide (i = id)) as [->|Hne].
    + rewrite Hn in I4 |- *. cbn. rewrite decide_True by done. rewrite Hf in Hfi. injection Hfi as <-. rewrite Hc in H1. injection H1 as <-.
      exists (state_of (cf_current c)). split; [apply new_rep_tracks, Hv|]. split; [done|]. rewrite I4. destruct (sf_holds _ _ Hsf) as (J1 & J2 & J3).
      split; cbn; [done|by rewrite (vo_blobs _ Hv)|]. intros k Hk. rewrite lookup_empty. cbn. by apply list_lookup_total_correct, J3.
    + cbn. rewrite decide_False by done. by destruct (find_version i (versions g)).
  - intros i Hi. destruct (gi_others _ _ Hg i Hi) as [H1 H2]. split; [done|]. rewrite find_version_app, H2. cbn.
    rewrite decide_False; [done|]. intros <-. congruence.
  - rewrite fmap_app. cbn. apply NoDup_app. split; [apply Hg|]. split; [|apply NoDup_singleton]. intros x Hx ->%list_elem_of_singleton.
    by apply find_version_None in Hn.
Qed.

Lemma add_writers_inv ws : Forall writer_ok ws -> forall g b g', group_inv g b -> add_writers vs ws g = Some (OK, g') -> exists b', group_inv g' b'.
Proof.
  induction ws as [|w ws IH]; intros Hws g b g' Hg; cbn [add_writers]; [intros [= <-]; eauto|].
  apply Forall_cons in Hws as [Hw Hws]. assert (forall g1, add_writer vs w g = Some (OK, g1) -> exists b1, group_inv g1 b1) as Hone.
  { intros g1. unfold add_writer. destruct (column_families vs !! mw_cfd w) as [c|] eqn:Hc; [|intros [= <-]; by eapply skip_inv].
    destruct (ab_families a !! mw_cfd w) as [f|] eqn:Hf; [|by rewrite (sa_others _ _ Hcore _ Hf) in Hc].
    rewrite (not_wal_edits w Hw).
    destruct (find_version (mw_cfd w) (versions g)) as [r|] eqn:Hv.
    - destruct (add_edits _ _ _ _ _) as [[[[] r1] g2]|] eqn:E; cbn [mbind option_bind]; try done. intros [= <-].
      destruct (add_edits_inv (mw_cfd w) f c (edit_list w) Hf Hc (proj2 Hw) r g b r1 g2) as (r2 & b' & -> & Hb'); [by rewrite Hv| |done|by exists b'].
      rewrite set_version_found by done. by destruct g.
    - set (g0 := set_versions _ g). destruct (add_edits _ _ _ _ _) as [[[[] r1] g2]|] eqn:E; cbn [mbind option_bind]; try done. intros [= <-].
      assert (find_version (mw_cfd w) (versions g0) = Some (new_rep (cf_current c))) as Hv0 by (cbn; rewrite find_version_app, Hv; cbn; by rewrite decide_True).
      destruct (add_edits_inv (mw_cfd w) f c (edit_list w) Hf Hc (proj2 Hw) (new_rep (cf_current c)) g0 b r1 g2) as (r2 & b' & -> & Hb'); [by rewrite Hv0| |done|by exists b'].
      rewrite set_version_found by done. exact (new_builder_inv g b _ c f Hg Hf Hc Hv). }
  destruct (add_writer vs w g) as [[[] g1]|]; cbn [mbind option_bind]; try done. destruct (Hone g1 eq_refl) as (b1 & Hb1). by eapply IH.
Qed.

Lemma set_family_files c f : set_family c f -> files_ok (opt_num_levels (fam_options f)) (fam_state f).
Proof.
  intros Hs. pose proof (sf_version _ _ Hs) as Hv. cbn zeta in Hv. pose proof (sf_holds _ _ Hs) as Hh.
  split; [|apply Hs]. intros n [level g] Hn. split; [rewrite <- (sf_levels _ _ Hs); by eapply (holds_within _ _ (vo_storage _ Hv) Hh)|]. by eapply (holds_typed _ _ Hv Hh).
Qed.

Lemma group_start_inv : group_inv (mkGroup [] [] (descriptor_last_sequence (counters vs)) None) a.
Proof.
  split; cbn; try done; try apply Hcore.
  - rewrite Z.max_l; [done|]. rewrite (sa_min _ _ Hcore). by destruct (sa_min_range _ _ Hcore).
  - intros id f Hf. destruct (sa_families _ _ Hcore id f Hf) as (c & Hc & Hs). exists c, f. split_and!; try done.
    + split; try done; [by eapply set_family_files|apply Hs].
    + rewrite Hc, <- (sf_log _ _ Hs). by destruct c.
  - constructor.
Qed.

(** ** The versions that are saved *)

Lemma save_versions_spec l vl : (forall id, id ∈ l.*1 -> is_Some (column_families vs !! id)) -> save_versions vs l = (OK, vl) ->
  vl.*1 = l.*1 /\ forall id r, find_version id l = Some r -> exists c v, column_families vs !! id = Some c /\ find_version id vl = Some v /\
    let C := opt_comparator (cf_options c) in
    SaveTo (opt_builder (cf_options c)) r (new_storage (num_levels (cf_current c)) (Some (cf_current c)) kMustPresent) = (OK, v).
Proof.
  revert vl. induction l as [|[id r] l IH]; intros vl Hl; cbn [save_versions]; [by intros [= <-]|].
  destruct (Hl id) as [c Hc]; [by left|]. rewrite Hc. destruct (SaveTo _ r _) as [[] v] eqn:E; try done.
  destruct (save_versions vs l) as [s l2] eqn:E2. intros [= -> <-]. destruct (IH l2) as [H1 H2]; [intros i Hi; apply Hl; by right|done|].
  cbn. split; [by rewrite H1|]. intros i r0. destruct (decide (id = i)) as [->|]; [|apply H2]. intros [= <-]. by exists c, v.
Qed.

End group.

Lemma install_versions_spec vl : NoDup vl.*1 -> forall vs, exists m, install_versions vl vs = set_column_families m vs /\
  forall id, m !! id = match find_version id vl with
                       | Some v => (fun c => set_cf_current (cf_next_epoch_number c) v c) <$> column_families vs !! id
                       | None => column_families vs !! id
                       end.
Proof.
  induction vl as [|[i v] vl IH]; intros Hnd vs; [exists (column_families vs); by destruct vs|]. cbn in Hnd. apply NoDup_cons in Hnd as [Hi Hnd].
  unfold install_versions. cbn [foldl]. destruct (IH Hnd (on_family i (fun c => set_cf_current (cf_next_epoch_number c) v c) vs)) as (m & Hm & Hl).
  exists m. split; [exact Hm|]. intros id. rewrite Hl. cbn. destruct (decide (i = id)) as [->|Hne].
  - apply find_version_None in Hi. rewrite Hi. by rewrite lookup_alter_eq.
  - by rewrite lookup_alter_ne by done.
Qed.

Lemma install_edits_frame B : forall vs vs1, column_families vs1 = column_families vs ->
  foldl install_edit vs1 B = set_column_families (column_families (foldl install_edit vs B)) vs1.
Proof.
  assert (forall vs vs1 x, column_families vs1 = column_families vs -> install_edit vs1 x = set_column_families (column_families (install_edit vs x)) vs1) as H1.
  { intros vs vs1 x E. unfold install_edit, on_family. destruct (EditCodec.log_number x.1), (EditCodec.full_history_ts_low x.1); cbn; rewrite ?E; try done.
    unfold set_column_families. rewrite <- E. by destruct vs1. }
  induction B as [|x B IH]; intros vs vs1 E; cbn [foldl]; [unfold set_column_families; rewrite <- E; by destruct vs1|].
  rewrite (IH (install_edit vs x)); [|by rewrite (H1 vs vs1 x E)]. by rewrite (H1 vs vs1 x E).
Qed.

Lemma install_edits_none B id : forall vs, column_families vs !! id = None -> column_families (foldl install_edit vs B) !! id = None.
Proof.
  induction B as [|x B IH]; intros vs H; [done|]. cbn. apply IH. unfold install_edit, on_family.
  destruct (EditCodec.log_number x.1), (EditCodec.full_history_ts_low x.1); cbn; rewrite ?lookup_alter_None; done.
Qed.

(** A family whose builder was saved. *)
Lemma saved_family c f fb r v : set_family c f -> family_inv c f fb (Some r) ->
  (let C := opt_comparator (cf_options c) in
   SaveTo (opt_builder (cf_options c)) r (new_storage (num_levels (cf_current c)) (Some (cf_current c)) kMustPresent) = (OK, v)) ->
  set_family (set_cf_current (cf_next_epoch_number c) v (set_cf_log_number (fam_log fb) c)) fb.
Proof.
  intros Hs [H1 H2 H3 Hlog (s & T & Hb & Hov)]. rewrite (sf_options _ _ Hs). intros Hsave. cbn zeta in Hsave.
  pose proof (sf_version _ _ Hs) as Hv. cbn zeta in Hv. set (C := opt_comparator (fam_options f)) in *.
  pose proof (sf_consistent _ _ Hs) as Hc. cbn zeta in Hc. fold C in Hc. pose proof (oo_comparator _ (sf_options_ok _ _ Hs)) as Laws. fold C in Laws.
  rewrite (SaveTo_saves _ r (num_levels (cf_current c))) in Hsave; [|by rewrite Hb|apply new_storage_fresh].
  destruct (files_ok_split _ _ H3) as [Hw Ht]. rewrite <- (sf_levels _ _ Hs) in Hw.
  destruct (save_holds r s (fam_state fb) (cf_current c) kMustPresent) as (Sv & Sh & Sn); try done; try apply Hv.
  { rewrite (sf_levels _ _ Hs). apply Hs. }
  injection Hsave as Hcons Ev. rewrite Ev in *. split; cbn; rewrite ?H1, ?H2; try done; try apply Hs; [by rewrite Sn, (sf_levels _ _ Hs)|apply H3].
Qed.

Lemma unsaved_family c f fb : set_family c f -> family_inv c f fb None -> set_family (set_cf_log_number (fam_log fb) c) fb.
Proof.
  intros Hs [H1 H2 H3 Hlog H4]. split; cbn; rewrite ?H1, ?H2, ?H4; try done; apply Hs.
Qed.

Lemma last_min_log_range l : Forall (fun x => commit_edit x.1) l -> is_u64 (last_min_log l).
Proof.
  induction l as [|x l IH] using rev_ind; [done|]. rewrite Forall_app, Forall_singleton, last_min_log_snoc. intros [Hl Hx]. specialize (IH Hl).
  destruct (EditCodec.min_log_number_to_keep x.1) as [n|] eqn:E; [|done]. pose proof (EditCodec.ok_min_log _ _ (se_typed _ (proj1 Hx)) n E).
  unfold is_u64 in *. lia.
Qed.

Lemma group_domain env vs a g b id : group_inv env vs a g b -> is_Some (ab_families a !! id) <-> is_Some (ab_families b !! id).
Proof.
  intros Hg. destruct (ab_families a !! id) as [f|] eqn:Hf.
  - destruct (gi_families _ _ _ _ _ Hg id f Hf) as (c & fb & _ & -> & _). done.
  - by destruct (gi_others _ _ _ _ _ Hg id Hf) as [-> _].
Qed.

(** The state that a group installs. *)
Lemma install_core env vs a g b vl db first batch size vs1 : set_core vs a -> group_inv env vs a g b -> save_versions vs (versions g) = (OK, vl) ->
  EditCodec.column_family_add first = None -> EditCodec.column_family_drop first = false ->
  loose <$> batch.*1 = loose <$> edits_of g ->
  column_families vs1 = column_families vs -> column_family_list vs1 = column_family_list vs -> max_column_family vs1 = max_column_family vs ->
  min_log_number_to_keep (counters vs1) = min_log_number_to_keep (counters vs) ->
  set_core (install db first batch vl (max_last_sequence g) size vs1) b.
Proof.
  intros Hcore Hg Hsave Hadd Hdrop Hloose E1 E2 E3 E4.
  destruct (save_versions_spec vs (versions g) vl) as [Hids Hsaved]; [|done|].
  { intros id Hid. destruct (ab_families a !! id) as [f|] eqn:Hf; [destruct (sa_families _ _ Hcore id f Hf) as (c & -> & _); done|].
    destruct (gi_others _ _ _ _ _ Hg id Hf) as [_ Hn%find_version_None]. done. }
  unfold install. rewrite Hadd, Hdrop. rewrite bool_decide_eq_false_2 by (by intros [? ?]).
  rewrite (install_edits_frame batch vs vs1 E1).
  assert (foldl install_edit vs batch = foldl install_edit vs (batch_edits g)) as -> by (rewrite !install_edits_loose; by rewrite Hloose).
  set (m0 := column_families (foldl install_edit vs (batch_edits g))).
  assert (last_min_log batch = last_min_log (batch_edits g)) as -> by (rewrite (last_min_log_loose (batch_edits g)), last_min_log_loose; by rewrite Hloose).
  destruct (last_min_log_range (batch_edits g)) as [Hk0 Hk1]; [exact (proj1 (Forall_fmap _ _ _) (gi_edits _ _ _ _ _ Hg))|]. set (k := last_min_log (batch_edits g)) in *.
  set (vs3 := if k =? 0 then _ else _).
  assert (column_families vs3 = m0 /\ column_family_list vs3 = column_family_list vs /\ max_column_family vs3 = max_column_family vs /\
    min_log_number_to_keep (counters vs3) = Z.max (min_log_number_to_keep (counters vs)) k) as (F1 & F2 & F3 & F4).
  { unfold vs3. pose proof (sa_min_range _ _ Hcore) as [Hm _]. rewrite <- E4 in Hm. destruct (Z.eqb_spec k 0) as [Hk|Hk]; cbn.
    - split_and!; try done. rewrite E4. lia.
    - split_and!; try done. unfold MarkMinLogNumberToKeep. destruct (Z.ltb_spec (min_log_number_to_keep (counters vs1)) k); cbn; lia. }
  clearbody vs3. destruct (install_versions_spec vl) with (vs := vs3) as (m & -> & Hm); [rewrite Hids; apply Hg|]. rewrite F1 in Hm.
  split; cbn; try apply Hg; rewrite ?(gi_ids _ _ _ _ _ Hg), ?(gi_max _ _ _ _ _ Hg); try apply Hcore.
  - rewrite F2. apply Hcore.
  - intros id. rewrite (sa_elem _ _ Hcore). apply group_domain with (1 := Hg).
  - intros id fb Hfb. destruct (ab_families a !! id) as [f|] eqn:Hf; [|by destruct (gi_others _ _ _ _ _ Hg id Hf) as [? _]; congruence].
    destruct (gi_families _ _ _ _ _ Hg id f Hf) as (c & fb' & Hc & Hfb' & Hfi & Hlog). rewrite Hfb in Hfb'. injection Hfb' as <-.
    destruct (sa_families _ _ Hcore id f Hf) as (c' & Hc' & Hsf). rewrite Hc in Hc'. injection Hc' as <-.
    rewrite Hm. unfold m0. rewrite Hlog. destruct (find_version id (versions g)) as [r|] eqn:Hr.
    + destruct (Hsaved id r Hr) as (c' & v & Hc' & -> & Hsv). rewrite Hc in Hc'. injection Hc' as <-. cbn. eexists. split; [done|].
      by apply (saved_family c f fb r v).
    + assert (find_version id vl = None) as ->; [|eexists; split; [done|by eapply unsaved_family]].
      apply find_version_None. rewrite Hids. by apply find_version_None.
  - intros id Hfb. destruct (ab_families a !! id) as [f|] eqn:Hf; [destruct (gi_families _ _ _ _ _ Hg id f Hf) as (c & fb & _ & ? & _); congruence|].
    rewrite Hm. assert (m0 !! id = None) as -> by (apply install_edits_none, (sa_others _ _ Hcore), Hf). by destruct (find_version id vl).
  - rewrite F3. apply Hcore.
  - rewrite F4, (gi_min _ _ _ _ _ Hg), (sa_min _ _ Hcore). done.
  - rewrite F4. pose proof (sa_min_range _ _ Hcore). unfold is_u64 in *. lia.
  - rewrite F3. apply Hcore.
Qed.

End GroupSpec.
