(* ===== verification/Snapshot.v ===== *)
(** * The snapshot of a new MANIFEST

    [LogApply.snapshot_edits], the records of [WriteCurrentStateToManifest], mean the
    version set they were taken from. *)

From Stdlib Require Import ZArith Lia.
From stdpp Require Import base numbers list sorting gmap sets.
From S2P Require Import Prelude Version Coding WalEdit FileCodec EditCodec LogWriter LogReader Log Storage Builder BuilderSpec BuilderSave Build Recover Replay LogApply GroupCommit Crash ManifestSpec StoredEdit CommitSpec GroupSpec.

Import Coding FileCodec Storage Builder BuilderSpec BuilderSave Recover Replay LogApply ManifestSpec StoredEdit CommitSpec GroupSpec.
Local Open Scope Z_scope.

Module Snapshot.

(** ** The edit of the files of a column family *)

(** The files of a version with their levels, in the order they are written. *)
Definition level_list (v : VersionStorageInfo) : list (Z * FileMetaData) :=
  concat (imap (fun level l => (fun f => (Z.of_nat level, f)) <$> l) (files_ v)).

Lemma snapshot_file_same f : is_file 0 f -> snapshot_file f = f.
Proof.
  intros Hf. unfold snapshot_file. destruct (packed_bounds f (ok_packed _ _ Hf)) as (_ & _ & ->). by destruct f.
Qed.

Lemma foldl_AddFile l : Forall (fun lf => is_file 0 lf.2) l -> forall e, exists ls q,
  foldl (fun e '(level, f) => EditCodec.AddFile level (snapshot_file f) e) e l =
  EditCodec.set_last_sequence ls (EditCodec.set_files_to_quarantine q (EditCodec.set_new_files (EditCodec.new_files e ++ l) e)).
Proof.
  induction 1 as [|[level f] l Hf Hl IH]; intros e.
  - exists (EditCodec.last_sequence e), (EditCodec.files_to_quarantine e). cbn. rewrite app_nil_r. by destruct e.
  - cbn [foldl]. rewrite (snapshot_file_same f Hf). destruct (IH (EditCodec.AddFile level f e)) as (ls & q & ->). exists ls, q.
    assert (EditCodec.new_files (EditCodec.AddFile level f e) = EditCodec.new_files e ++ [(level, f)]) as ->
      by (destruct e; unfold EditCodec.AddFile; cbn; destruct last_sequence; cbn; repeat case_match; done).
    rewrite <- app_assoc. cbn [app]. generalize (EditCodec.new_files e ++ (level, f) :: l) as x. intros x.
    destruct e; unfold EditCodec.AddFile; cbn; destruct last_sequence; cbn; repeat case_match; done.
Qed.

Definition snapshot_min_log (vs : VersionSet) (id : Z) : option Z :=
  if (id =? 0) && negb (min_log_number_to_keep (counters vs) =? 0) then Some (min_log_number_to_keep (counters vs)) else None.

Definition snapshot_cursors (n : nat) (cs : list (list Z)) : list (Z * list Z) :=
  filter (fun c => Valid c.2 = true) (imap (fun i k => (Z.of_nat (n + i), k)) cs).

Lemma snapshot_version_eq vs id c : blob_files_ (cf_current c) = [] -> cf_full_history_ts_low c = [] ->
  Forall (fun lf => is_file 0 lf.2) (level_list (cf_current c)) ->
  exists q, snapshot_version vs id c = EditCodec.mkEdit 0 None None (Some (cf_log_number c)) None None None (snapshot_min_log vs id)
    (Some (descriptor_last_sequence (counters vs))) (snapshot_cursors 0 (compact_cursor_ (cf_current c))) [] (level_list (cf_current c))
    [] [] [] WalEdit.kEmptyWalDeletion id None false None [] None None q.
Proof.
  intros Hb Ht Hf. unfold snapshot_version, snapshot_files. fold (level_list (cf_current c)).
  destruct (foldl_AddFile _ Hf (EditCodec.set_column_family id EditCodec.empty_edit)) as (ls & q & ->). exists q.
  rewrite Hb, Ht. unfold snapshot_min_log. cbn. by destruct (_ && _).
Qed.

Lemma elem_of_level_list v level f : indexed v -> (level, f) ∈ level_list v <-> contents v !! GetNumber f = Some (level, f).
Proof.
  intros Hi. rewrite contents_lookup by done. unfold level_list. rewrite list_elem_of_In, in_concat. setoid_rewrite <- list_elem_of_In. split.
  - intros (l & Hl & Hf). apply list_elem_of_lookup_1 in Hl as (k & Hk). rewrite list_lookup_imap in Hk.
    apply fmap_Some in Hk as (l0 & Hk & ->). apply list_elem_of_fmap in Hf as (g & [= -> ->] & Hg). exists k. split_and!; [done| |done].
    by rewrite (LevelFiles_lookup _ _ _ Hk).
  - intros (k & -> & Hf & _). unfold LevelFiles in Hf. destruct (files_ v !! k) as [l|] eqn:E; [|by apply not_elem_of_nil in Hf].
    exists ((fun f => (Z.of_nat k, f)) <$> l). split; [|by apply list_elem_of_fmap_2]. apply list_elem_of_lookup_2 with (i := k).
    by rewrite list_lookup_imap, E.
Qed.

Lemma level_list_files v : (level_list v).*2 = concat (files_ v).
Proof.
  unfold level_list. assert (forall (ls : list (list FileMetaData)) n, (concat (imap (fun level l => (fun f => (Z.of_nat (n + level), f)) <$> l) ls)).*2 = concat ls) as H; [|apply (H _ 0%nat)].
  induction ls as [|l ls IH]; intros n; [done|]. cbn. rewrite fmap_app. f_equal.
  - rewrite <- list_fmap_compose. apply list_fmap_id.
  - rewrite <- (IH (S n)). f_equal. f_equal. apply imap_ext. intros i x _. cbn. by rewrite Nat.add_succ_r.
Qed.

Lemma NoDup_level_list v : indexed v -> NoDup (GetNumber ∘ snd <$> level_list v).
Proof.
  intros Hi. rewrite (list_fmap_compose snd GetNumber), level_list_files. apply NoDup_concat.
  - intros k l Hk. rewrite <- (LevelFiles_lookup _ _ _ Hk). by apply NoDup_level.
  - intros k k' l l' x y Hk Hk' Hx Hy E. rewrite <- (LevelFiles_lookup _ _ _ Hk) in Hx. rewrite <- (LevelFiles_lookup _ _ _ Hk') in Hy.
    apply elem_of_level in Hx, Hy; [|done..]. rewrite E, Hy in Hx. injection Hx as Hx _. lia.
Qed.

(** Adding files with different numbers. *)
Lemma steps_add_files l : forall s, NoDup (GetNumber ∘ snd <$> l) -> (forall lf, lf ∈ l -> sp_files s !! GetNumber lf.2 = None) ->
  exists m, steps spec_add l s = Some (set_sp_files m s) /\
    forall n lf, m !! n = Some lf <-> (lf ∈ l /\ GetNumber lf.2 = n) \/ sp_files s !! n = Some lf.
Proof.
  induction l as [|x l IH]; intros s Hnd Hnew.
  - exists (sp_files s). split; [by destruct s|]. intros n lf. split; [by right|]. intros [[?%not_elem_of_nil _]|?]; done.
  - rewrite fmap_cons in Hnd. apply NoDup_cons in Hnd as [Hx Hnd]. cbn [steps].
    assert (spec_add x s = Some (set_sp_files (<[GetNumber x.2 := x]> (sp_files s)) s)) as -> by (unfold spec_add; by rewrite (Hnew x) by by left). cbn [mbind option_bind].
    destruct (IH (set_sp_files (<[GetNumber x.2 := x]> (sp_files s)) s) Hnd) as (m & -> & Hm).
    { intros lf Hlf. cbn. rewrite lookup_insert_ne; [apply Hnew; by right|]. intros E. apply Hx. apply list_elem_of_fmap. by exists lf. }
    exists m. split; [done|]. intros n lf. rewrite Hm. cbn. rewrite lookup_insert_Some, elem_of_cons. split.
    + intros [[H1 H2]|[[H1 H2]|[H1 H2]]]; [left; auto|left; subst; auto|by right].
    + intros [[[->|H1] H2]|H1]; [right; by left|by left|]. right. right. split; [|done]. intros <-. by rewrite (Hnew x) in H1 by by left.
Qed.

(** Setting the cursors that are valid. *)
Lemma steps_cursor num cs : forall n s, (n + length cs <= num)%nat -> exists m,
  steps (spec_cursor num) (snapshot_cursors n cs) s = Some (mkState (sp_files s) (sp_blobs s) m) /\
  forall k, m !! k = if decide (n <= k < n + length cs)%nat
                     then (if Valid (cs !!! (k - n)%nat) then Some (cs !!! (k - n)%nat) else sp_cursors s !! k) else sp_cursors s !! k.
Proof.
  induction cs as [|key cs IH]; intros n s Hn; cbn [length] in *.
  - exists (sp_cursors s). split; [by destruct s|]. intros k. rewrite decide_False by lia. done.
  - unfold snapshot_cursors. cbn [imap].
    assert (imap ((fun i k => (Z.of_nat (n + i), k)) ∘ S) cs = imap (fun i k => (Z.of_nat (S n + i), k)) cs) as ->
      by (apply imap_ext; intros i x _; cbn; by rewrite Nat.add_succ_r).
    rewrite Nat.add_0_r. assert (forall k, (key :: cs) !!! (k - n)%nat = if decide (k = n) then key else if decide (n < k)%nat then cs !!! (k - S n)%nat else key) as Hk.
    { intros k. destruct (decide (k = n)) as [->|]; [by rewrite Nat.sub_diag|]. destruct (decide (n < k)%nat); [|by replace (k - n)%nat with 0%nat by lia].
      by replace (k - n)%nat with (S (k - S n)) by lia. }
    destruct (Valid key) eqn:Ev.
    + rewrite filter_cons_True by done. cbn [steps].
      assert (spec_cursor num (Z.of_nat n, key) s = Some (mkState (sp_files s) (sp_blobs s) (<[n := key]> (sp_cursors s)))) as ->
        by (unfold spec_cursor; cbn [fst snd]; by rewrite decide_False, decide_True, Nat2Z.id by lia). cbn [mbind option_bind].
      destruct (IH (S n) (mkState (sp_files s) (sp_blobs s) (<[n := key]> (sp_cursors s)))) as (m & Hs & Hm); [lia|].
      exists m. split; [exact Hs|]. intros k. rewrite Hm, Hk. cbn [sp_cursors]. repeat case_decide; subst; try lia; rewrite ?Ev, ?lookup_insert_eq, ?lookup_insert_ne by lia; done.
    + rewrite filter_cons_False by (cbn; congruence). destruct (IH (S n) s) as (m & Hs & Hm); [lia|]. exists m. split; [exact Hs|].
      intros k. rewrite Hm, Hk. repeat case_decide; subst; try lia; rewrite ?Ev; done.
Qed.

(** The state that the files and cursors of a version give. *)
Lemma snapshot_state c f e : set_family c f -> EditCodec.blob_file_additions e = [] -> EditCodec.blob_file_garbages e = [] ->
  EditCodec.deleted_files e = [] -> EditCodec.new_files e = level_list (cf_current c) ->
  EditCodec.compact_cursors e = snapshot_cursors 0 (compact_cursor_ (cf_current c)) ->
  exists s, spec_apply (opt_num_levels (fam_options f)) e empty_state = Some s /\ holds (cf_current c) s /\ cursors_ok s.
Proof.
  intros Hs E1 E2 E3 E4 E5. pose proof (sf_version _ _ Hs) as Hv. cbn zeta in Hv. set (v := cf_current c) in *.
  pose proof (so_indexed _ (vo_storage _ Hv)) as Hi. unfold spec_apply. rewrite E1, E2, E3, E4, E5. cbn [steps mbind option_bind].
  destruct (steps_add_files (level_list v) empty_state) as (m & -> & Hm); [by apply NoDup_level_list|by intros|]. cbn [mbind option_bind].
  destruct (steps_cursor (opt_num_levels (fam_options f)) (compact_cursor_ v) 0 (set_sp_files m empty_state)) as (cs & -> & Hcs).
  { rewrite (vo_cursors _ Hv), <- (sf_levels _ _ Hs). done. }
  destruct (sf_holds _ _ Hs) as (_ & _ & Hk). fold v in Hk. cbn in Hcs. eexists. split; [done|]. split; [split_and!|]; cbn.
  - apply map_eq. intros n. apply option_eq. intros [level g]. rewrite Hm. cbn. rewrite lookup_empty, elem_of_level_list by done. split.
    + intros Hn. left. destruct (proj1 (contents_lookup v n level g Hi) Hn) as (k & _ & _ & <-). done.
    + intros [[Hn <-]|?]; done.
  - done.
  - intros k Hlt. rewrite Hcs, lookup_empty, Nat.sub_0_r. rewrite decide_True by (rewrite (vo_cursors _ Hv); lia). pose proof (Hk k Hlt) as Hkk.
    rewrite (list_lookup_total_correct _ _ _ Hkk), Hkk. destruct (sp_cursors (fam_state f) !! k) as [key|] eqn:Ek; cbn; [|done].
    by destruct (sf_cursors _ _ Hs k key Ek) as [-> _].
  - intros k key. rewrite Hcs, lookup_empty, Nat.sub_0_r. case_decide as Hlt; [|done]. rewrite (vo_cursors _ Hv) in Hlt. pose proof (Hk k ltac:(lia)) as Hkk.
    rewrite (list_lookup_total_correct _ _ _ Hkk). destruct (sp_cursors (fam_state f) !! k) as [key0|] eqn:Ek; cbn; [|done].
    destruct (sf_cursors _ _ Hs k key0 Ek) as (Ev & Ek2). rewrite Ev. intros [= <-]. done.
Qed.

Lemma level_list_stored c f : set_family c f -> Forall (fun lf => 0 <= lf.1 < Z.of_nat (opt_num_levels (fam_options f)) /\ stored_file lf) (level_list (cf_current c)).
Proof.
  intros Hs. pose proof (sf_version _ _ Hs) as Hv. cbn zeta in Hv. pose proof (so_indexed _ (vo_storage _ Hv)) as Hi.
  apply Forall_forall. intros [level g] Hg. apply elem_of_level_list in Hg; [|done]. split; [|by apply (vo_files _ Hv) in Hg].
  apply contents_lookup in Hg as (k & -> & Hk & _); [|done]. apply LevelFiles_num in Hk. rewrite (sf_levels _ _ Hs) in Hk. cbn. lia.
Qed.

Lemma elem_of_snapshot_cursors cs c : c ∈ snapshot_cursors 0 cs -> exists k, c.1 = Z.of_nat k /\ cs !! k = Some c.2 /\ Valid c.2 = true.
Proof.
  unfold snapshot_cursors. intros [Hv Hc]%list_elem_of_filter. apply list_elem_of_lookup_1 in Hc as (k & Hk). rewrite list_lookup_imap in Hk.
  apply fmap_Some in Hk as (key & Hk & ->). by exists k.
Qed.

Lemma snapshot_cursors_ok c f : set_family c f ->
  Forall (fun x => is_i32 x.1 /\ cursor_ok x.2) (snapshot_cursors 0 (compact_cursor_ (cf_current c))).
Proof.
  intros Hs. apply Forall_forall. intros x (k & E & Hk & Hx)%elem_of_snapshot_cursors. pose proof (sf_version _ _ Hs) as Hv. cbn zeta in Hv.
  pose proof (lookup_lt_Some _ _ _ Hk) as Hlt. rewrite (vo_cursors _ Hv) in Hlt. pose proof (oo_int _ (sf_options_ok _ _ Hs)).
  rewrite (sf_levels _ _ Hs) in Hlt. split; [rewrite E; unfold is_i32; lia|]. destruct (sf_holds _ _ Hs) as (_ & _ & Hh).
  rewrite Hh in Hk by (rewrite (sf_levels _ _ Hs); lia). injection Hk as Hk. destruct (sp_cursors (fam_state f) !! k) as [key|] eqn:Ek; cbn in Hk.
  - rewrite <- Hk. by apply (sf_cursors _ _ Hs k).
  - by rewrite <- Hk in Hx.
Qed.

Lemma snapshot_version_commit vs a id c f : set_core vs a -> is_u32 id -> set_family c f -> commit_edit (snapshot_version vs id c).
Proof.
  intros Hcore Hid Hs. pose proof (sf_version _ _ Hs) as Hv. cbn zeta in Hv. pose proof (level_list_stored c f Hs) as Hl.
  destruct (snapshot_version_eq vs id c) as (q & ->); [apply Hv|apply Hs|eapply Forall_impl; [exact Hl|]; by intros lf (_ & (_ & ? & _) & _)|].
  pose proof (snapshot_cursors_ok c f Hs) as Hc.
  assert (forall n, snapshot_min_log vs id = Some n -> is_u64 n) as Hmin.
  { unfold snapshot_min_log. destruct (_ && _); [|done]. intros n [= <-]. apply Hcore. }
  assert (is_u64 (cf_log_number c)) as Hlog by (rewrite (sf_log _ _ Hs); apply Hs).
  split; [split; [|split|..]|]; cbn; try done.
  - split; cbn; try done. intros n [= <-]. by destruct Hlog.
  - by intros n [= <-].
  - intros n [= <-]. apply sequence_u64, Hcore.
  - eapply Forall_impl; [exact Hc|]. by intros x [? (_ & ? & _)].
  - constructor.
  - eapply Forall_impl; [exact Hl|]. by intros lf (_ & ? & _).
  - eapply Forall_impl; [exact Hc|]. by intros x [_ (_ & _ & ?)].
  - eapply Forall_impl; [exact Hl|]. by intros lf (_ & _ & ?).
  - constructor.
  - unfold cursors_valid. cbn. unfold snapshot_cursors. apply list_filter_filter_l. auto.
Qed.

(** ** The records in their order *)

(** An edit of a family that changes nothing. *)
Lemma neutral_edit env e b f : EditCodec.column_family_add e = None -> EditCodec.column_family_drop e = false -> wal_edit e = false ->
  EditCodec.blob_file_additions e = [] -> EditCodec.blob_file_garbages e = [] -> EditCodec.deleted_files e = [] -> EditCodec.new_files e = [] ->
  EditCodec.compact_cursors e = [] -> EditCodec.log_number e = None -> EditCodec.last_sequence e = None -> EditCodec.min_log_number_to_keep e = None ->
  ab_families b !! EditCodec.column_family e = Some f -> comparator_ok e (fam_options f) ->
  exists b', spec_edit env e b = Some b' /\ blur b' = blur b.
Proof.
  intros H1 H2 H3 H4 H5 H6 H7 H8 H9 H10 H11 Hf Hc.
  destruct (spec_edit_change env b e f (fam_state f)) as (b' & Hb & F1 & F2 & F3 & F4 & F5 & _ & _ & F8); try done.
  - unfold in_levels. rewrite H6, H7. done.
  - unfold spec_apply. by rewrite H4, H5, H6, H7, H8.
  - exists b'. split; [done|]. unfold blur. rewrite F1, F2, F3, F4, F5, F8, H9, H10, H11, orb_false_r. f_equal.
    apply insert_id. rewrite Hf. by destruct f.
Qed.

(** The record of the files of a family that has none yet. *)
Lemma version_step env vs a id c f b : set_core vs a -> set_family c f ->
  ab_families b !! id = Some (mkFamily (fam_name f) (fam_options f) 0 empty_state) ->
  exists b' s, spec_edit env (snapshot_version vs id c) b = Some b' /\
    ab_families b' = <[id := mkFamily (fam_name f) (fam_options f) (fam_log f) s]> (ab_families b) /\
    set_family c (mkFamily (fam_name f) (fam_options f) (fam_log f) s) /\ ab_ids b' = ab_ids b /\ ab_max b' = ab_max b /\ ab_log b' = true /\
    ab_seq b' = Some (descriptor_last_sequence (counters vs)) /\
    ab_min b' = match snapshot_min_log vs id with Some n => Z.max (ab_min b) n | None => ab_min b end.
Proof.
  intros Hcore Hs Hb. pose proof (sf_version _ _ Hs) as Hv. cbn zeta in Hv. pose proof (level_list_stored c f Hs) as Hl.
  destruct (snapshot_version_eq vs id c) as (q & ->); [apply Hv|apply Hs|eapply Forall_impl; [exact Hl|]; by intros lf (_ & (_ & ? & _) & _)|].
  set (e := EditCodec.mkEdit _ _ _ _ _ _ _ _ _ _ _ _ _ _ _ _ _ _ _ _ _ _ _ _).
  destruct (snapshot_state c f e Hs) as (s & Hsp & Hh & Hc); try done.
  destruct (spec_edit_change env b e (mkFamily (fam_name f) (fam_options f) 0 empty_state) s) as (b' & Hb' & F1 & F2 & F3 & F4 & F5 & _ & _ & F8); try done.
  { split; cbn; [done|]. eapply Forall_impl; [exact Hl|]. by intros lf [? _]. }
  assert (Z.max 0 (cf_log_number c) = fam_log f) as Elog by (rewrite (sf_log _ _ Hs); pose proof (sf_log_range _ _ Hs) as [? _]; lia).
  cbn in F1, F4, F5, F8. rewrite Elog in F1. exists b', s. split_and!; try done.
  - split; cbn; try apply Hs; done.
  - rewrite F4. replace (0 <=? cf_log_number c) with true; [by rewrite orb_true_r|]. symmetry. apply Z.leb_le.
    rewrite (sf_log _ _ Hs). apply Hs.
Qed.

(** The record of the options of a family. *)
Lemma snapshot_options_commit id c f : set_family c f -> is_u32 id -> commit_edit (snapshot_options id c).
Proof.
  intros Hs Hid. pose proof (sf_string _ _ Hs) as [Hn1 Hn2]. destruct (oo_name _ (sf_options_ok _ _ Hs)) as [Hc1 Hc2].
  rewrite <- (sf_options _ _ Hs) in Hc1, Hc2. rewrite <- (sf_name _ _ Hs) in Hn1, Hn2.
  unfold snapshot_options. destruct (id =? 0); (split; [split; [|split|..]|]); cbn; try done; try (by constructor); by intros ? [= <-].
Qed.

Lemma options_step env id c f b : set_family c f -> id <> 0 -> env_options env (fam_name f) = Some (fam_options f) ->
  ab_families b !! id = None ->
  exists b', spec_edit env (snapshot_options id c) b = Some b' /\ blur b' = blur (spec_create (fam_options f) id (fam_name f) 0 b).
Proof.
  intros Hs Hid Ho Hb. unfold snapshot_options. rewrite (proj2 (Z.eqb_neq id 0)) by done.
  rewrite (sf_options _ _ Hs), (sf_name _ _ Hs). unfold spec_edit, spec_change. cbn -[decide]. rewrite Ho. cbn -[decide].
  rewrite decide_True by done. cbn -[decide]. unfold spec_family. cbn -[decide]. rewrite lookup_insert_eq. rewrite decide_True by done.
  eexists. split; [done|]. done.
Qed.

(** *** One family after the other *)

(** The environment of a later recovery knows the families. *)
Definition known (env : Env) (a : Abs) : Prop :=
  (forall id f, ab_families a !! id = Some f -> env_options env (fam_name f) = Some (fam_options f)) /\
  exists f, ab_families a !! 0 = Some f /\ fam_name f = kDefaultColumnFamilyName.

Section families.
Context (env : Env) (vs : VersionSet) (a : Abs) (Hcore : set_core vs a) (Hknown : known env a).

(** The families [p] were written. *)
Record partial (p : list Z) (b : Abs) : Prop := {
  pa_ids : ab_ids b = p;
  pa_elem id : id ∈ p <-> is_Some (ab_families b !! id);
  pa_families id f : ab_families b !! id = Some f -> exists c f0, column_families vs !! id = Some c /\ set_family c f /\
    ab_families a !! id = Some f0 /\ fam_name f = fam_name f0 /\ fam_options f = fam_options f0;
  pa_max : 0 <= ab_max b <= max_column_family vs;
  pa_seq : ab_seq b = Some (descriptor_last_sequence (counters vs));
  pa_min : ab_min b = min_log_number_to_keep (counters vs);
  pa_log : ab_log b = true;
}.

Definition family_edits (id : Z) : list (VersionEdit * option nat) :=
  match column_families vs !! id with
  | Some c => [(snapshot_options id c, None); (snapshot_version vs id c, Some (opt_timestamp_size (cf_options c)))]
  | None => []
  end.

Lemma member_family id : id ∈ ab_ids a -> exists c f, column_families vs !! id = Some c /\ ab_families a !! id = Some f /\ set_family c f.
Proof.
  intros [f Hf]%(sa_elem _ _ Hcore). destruct (sa_families _ _ Hcore id f Hf) as (c & Hc & Hs). by exists c, f.
Qed.

Lemma family_step p b id : partial p b -> id ∈ ab_ids a -> id ∉ p -> id <> 0 ->
  exists b', spec_edits env (family_edits id).*1 b = Some b' /\ partial (p ++ [id]) b'.
Proof.
  intros Hp Hid Hnew Hid0. destruct (member_family id Hid) as (c & f & Hc & Hf & Hs). unfold family_edits. rewrite Hc. cbn [fmap list_fmap fst spec_edits].
  assert (ab_families b !! id = None) as Hb. { rewrite <- not_elem_of_dom. intros H%elem_of_dom. by apply Hnew, (pa_elem _ _ Hp). }
  destruct (options_step env id c f b Hs Hid0) as (b1 & -> & E1); [by apply Hknown with id|done|]. cbn [mbind option_bind].
  injection E1 as F1 F2 F3 F4 F5 F6. destruct (version_step env vs a id c f b1 Hcore Hs) as (b2 & s & -> & G1 & Hs2 & G2 & G3 & G4 & G5 & G6).
  { rewrite F1. apply lookup_insert_eq. }
  exists b2. split; [done|]. rewrite F1, insert_insert_eq in G1. split.
  - rewrite G2, F2. by rewrite (pa_ids _ _ Hp).
  - intros i. rewrite elem_of_app, list_elem_of_singleton, (pa_elem _ _ Hp), G1. destruct (decide (i = id)) as [->|Hne].
    + rewrite lookup_insert_eq. split; [by eauto|by right].
    + rewrite lookup_insert_ne by done. naive_solver.
  - intros i g. rewrite G1. destruct (decide (i = id)) as [->|Hne].
    + rewrite lookup_insert_eq. intros [= <-]. by exists c, f.
    + rewrite lookup_insert_ne by done. apply Hp.
  - rewrite G3, F3. pose proof (pa_max _ _ Hp). pose proof (sa_bound _ _ Hcore id Hid). lia.
  - done.
  - rewrite G6, F6. unfold snapshot_min_log. rewrite (proj2 (Z.eqb_neq id 0)) by done. apply Hp.
  - done.
Qed.

Lemma families_step l : forall p b, partial p b -> 0 ∈ p -> NoDup (p ++ l) -> (forall id, id ∈ l -> id ∈ ab_ids a) ->
  exists b', spec_edits env (l ≫= family_edits).*1 b = Some b' /\ partial (p ++ l) b'.
Proof.
  induction l as [|id l IH]; intros p b Hp H0 Hnd Hl; [exists b; by rewrite app_nil_r|].
  assert (id ∉ p) as Hnew. { intros H. apply NoDup_app in Hnd as (_ & Hd & _). apply (Hd id H). by left. }
  destruct (family_step p b id Hp) as (b1 & E1 & Hp1); [apply Hl; by left|done|by intros ->|].
  destruct (IH (p ++ [id]) b1) as (b2 & E2 & Hp2); [done|apply elem_of_app; by left|by rewrite <- app_assoc|intros i Hi; apply Hl; by right|].
  exists b2. rewrite <- app_assoc in Hp2. split; [|done]. cbn [mbind list_bind]. rewrite fmap_app, spec_edits_app, E1. done.
Qed.

(** The default family is there from the start. *)
Lemma default_step o b : env_options env kDefaultColumnFamilyName = Some o -> blur b = blur (start o) ->
  exists b', spec_edits env (family_edits 0).*1 b = Some b' /\ partial [0] b'.
Proof.
  intros Ho Hb. assert (0 ∈ ab_ids a) as H0. { pose proof (sa_default _ _ Hcore) as H. destruct (ab_ids a); [done|]. injection H as ->. by left. }
  destruct (member_family 0 H0) as (c & f & Hc & Hf & Hs). unfold family_edits. rewrite Hc. cbn [fmap list_fmap fst spec_edits].
  destruct Hknown as [Hk (f' & Hf' & Hname)]. rewrite Hf in Hf'. injection Hf' as <-. pose proof (Hk 0 f Hf) as Hopt.
  rewrite Hname, Ho in Hopt. injection Hopt as ->. injection Hb as F1 F2 F3 F4 F5 F6. rewrite <- Hname in F1.
  destruct (neutral_edit env (snapshot_options 0 c) b (mkFamily (fam_name f) (fam_options f) 0 empty_state)) as (b1 & -> & E1); try done.
  { rewrite F1. done. } { unfold comparator_ok. cbn. by rewrite (sf_options _ _ Hs). }
  injection E1 as E1 E2 E3 E4 E5 E6. cbn [mbind option_bind].
  destruct (version_step env vs a 0 c f b1 Hcore Hs) as (b2 & s & -> & G1 & Hs2 & G2 & G3 & G4 & G5 & G6); [by rewrite E1, F1|].
  exists b2. split; [done|]. rewrite E1, F1, insert_singleton_eq in G1. split.
  - by rewrite G2, E2, F2.
  - intros i. rewrite list_elem_of_singleton, G1. rewrite lookup_singleton. case_decide; naive_solver.
  - intros i g. rewrite G1. intros [<- <-]%lookup_singleton_Some. by exists c, f.
  - rewrite G3, E3, F3. cbn. pose proof (sa_max_le _ _ Hcore). lia.
  - done.
  - rewrite G6, E6, F6. unfold snapshot_min_log. cbn. destruct (Z.eqb_spec (min_log_number_to_keep (counters vs)) 0) as [->|Hne]; [done|].
    cbn. pose proof (sa_min_range _ _ Hcore) as [? _]. lia.
  - done.
Qed.

End families.

(** *** All records *)

Lemma snapshot_edits_eq db vs : plain_set vs ->
  snapshot_edits db vs =
  (if write_dbid_to_manifest db then [(EditCodec.set_db_id (Some (db_id vs)) EditCodec.empty_edit, None)] else []) ++
  [(EditCodec.set_wal_deletion (min_log_number_to_keep (counters vs)) EditCodec.empty_edit, None)] ++ (column_family_list vs ≫= family_edits vs).
Proof.
  intros [Hw _]. unfold snapshot_edits. assert (EditCodec.wal_additions (wal_snapshot vs) = []) as ->.
  { unfold wal_snapshot, WalEdit.wal_numbers. cbn. by rewrite Hw. }
  cbn [app]. do 3 f_equal. induction (column_family_list vs) as [|id l IH]; [done|]. cbn. by rewrite IH.
Qed.

Lemma db_id_step env vs b f : ab_families b !! 0 = Some f ->
  exists b', spec_edit env (EditCodec.set_db_id (Some (db_id vs)) EditCodec.empty_edit) b = Some b' /\ blur b' = blur b.
Proof. intros Hf. by apply (neutral_edit env _ b f). Qed.

Lemma wal_deletion_step env n b f : ab_families b !! 0 = Some f ->
  exists b', spec_edit env (EditCodec.set_wal_deletion n EditCodec.empty_edit) b = Some b' /\ blur b' = blur b.
Proof.
  intros Hf. set (e := EditCodec.set_wal_deletion n EditCodec.empty_edit). destruct (wal_edit e) eqn:Hw; [|by apply (neutral_edit env _ b f)].
  unfold spec_edit, spec_change, names_family. rewrite Hw. unfold e. cbn. rewrite Hf. cbn. by eexists.
Qed.

Lemma snapshot_means env db vs a o : set_core vs a -> known env a -> plain_set vs -> env_options env kDefaultColumnFamilyName = Some o ->
  exists b, spec_edits env (snapshot_edits db vs).*1 (start o) = Some b /\ set_core vs b /\ known env b.
Proof.
  intros Hcore Hknown Hplain Ho. rewrite snapshot_edits_eq by done. rewrite fmap_app, spec_edits_app.
  assert (exists b1, spec_edits env (if write_dbid_to_manifest db then [(EditCodec.set_db_id (Some (db_id vs)) EditCodec.empty_edit, None : option nat)] else []).*1
    (start o) = Some b1 /\ blur b1 = blur (start o)) as (b1 & -> & E1).
  { destruct (write_dbid_to_manifest db); [|by eexists]. cbn [fmap list_fmap fst spec_edits].
    destruct (db_id_step env vs (start o) (mkFamily kDefaultColumnFamilyName o 0 empty_state)) as (b' & -> & ?); [done|]. by eexists. }
  cbn [mbind option_bind]. rewrite fmap_app, spec_edits_app. cbn [fmap list_fmap fst spec_edits].
  destruct (wal_deletion_step env (min_log_number_to_keep (counters vs)) b1 (mkFamily kDefaultColumnFamilyName o 0 empty_state)) as (b2 & -> & E2).
  { injection E1 as -> _ _ _ _ _. done. }
  rewrite E1 in E2. cbn [mbind option_bind]. pose proof (sa_default _ _ Hcore) as Hhead. pose proof (sa_nodup _ _ Hcore) as Hnd.
  destruct (ab_ids a) as [|i l] eqn:Eids; [done|]. injection Hhead as ->. rewrite (sa_ids _ _ Hcore), Eids. cbn [mbind list_bind].
  rewrite fmap_app, spec_edits_app. destruct (default_step env vs a Hcore Hknown o b2 Ho E2) as (b3 & -> & Hp). cbn [mbind option_bind].
  destruct (families_step env vs a Hcore Hknown l [0] b3 Hp) as (b4 & E4 & Hp4); [by left|done|intros id Hid; rewrite Eids; by right|].
  exists b4. split; [exact E4|]. change ([0] ++ l) with (0 :: l) in Hp4. rewrite <- Eids in Hp4. split; [split|split].
  - rewrite (pa_ids _ _ _ _ Hp4). apply Hcore.
  - rewrite (pa_ids _ _ _ _ Hp4). apply Hcore.
  - rewrite (pa_ids _ _ _ _ Hp4). apply Hp4.
  - rewrite (pa_ids _ _ _ _ Hp4). apply Hcore.
  - rewrite (pa_ids _ _ _ _ Hp4). apply Hcore.
  - intros id f Hf. destruct (pa_families _ _ _ _ Hp4 id f Hf) as (c & _ & ? & ? & _). by exists c.
  - intros id Hid. apply (sa_others _ _ Hcore). destruct (ab_families a !! id) eqn:E; [|done].
    assert (is_Some (ab_families b4 !! id)) as [? ?]; [|congruence]. apply (pa_elem _ _ _ _ Hp4), (sa_elem _ _ Hcore). by eexists.
  - apply Hp4.
  - apply Hp4.
  - apply Hcore.
  - apply Hp4.
  - apply Hcore.
  - apply Hp4.
  - rewrite (pa_ids _ _ _ _ Hp4). apply Hcore.
  - intros id f Hf. destruct (pa_families _ _ _ _ Hp4 id f Hf) as (_ & f0 & _ & _ & Hf0 & -> & ->). by apply Hknown with id.
  - destruct Hknown as [_ (f & Hf & Hname)]. assert (is_Some (ab_families b4 !! 0)) as [g Hg].
    { apply (pa_elem _ _ _ _ Hp4), (sa_elem _ _ Hcore). by eexists. }
    exists g. split; [done|]. destruct (pa_families _ _ _ _ Hp4 0 g Hg) as (_ & f0 & _ & _ & Hf0 & -> & _). congruence.
Qed.

(** An entry of a batch of a family without timestamps. *)
Definition entry_ok (x : VersionEdit * option nat) : Prop :=
  commit_edit x.1 /\ (x.2 = Some 0%nat \/ x.2 = None /\ EditCodec.new_files x.1 = []).

Lemma entry_encode x : entry_ok x -> EditCodec.EncodeTo x.2 x.1 = EditCodec.EncodeTo (Some 0%nat) x.1.
Proof. by intros [_ [->|[-> H%EncodeTo_none]]]. Qed.

(** An entry of a snapshot: of no group, and without the largest column family. *)
Definition snapshot_entry (x : VersionEdit * option nat) : Prop :=
  entry_ok x /\ EditCodec.atomic_group x.1 = None /\ EditCodec.max_column_family x.1 = None.

Lemma family_entries vs a id : set_core vs a -> id ∈ ab_ids a ->
  Forall snapshot_entry (family_edits vs id).
Proof.
  intros Hcore Hid. destruct (member_family vs a Hcore id Hid) as (c & f & Hc & Hf & Hs). unfold family_edits. rewrite Hc.
  pose proof (sa_numbers _ _ Hcore id Hid) as Hu.
  constructor; [split; [split|]|constructor; [split; [split|]|constructor]].
  - by eapply snapshot_options_commit.
  - right. split; [done|]. unfold snapshot_options. by destruct (id =? 0).
  - unfold snapshot_options. by destruct (id =? 0).
  - by eapply snapshot_version_commit.
  - left. cbn. rewrite (sf_options _ _ Hs). by rewrite (oo_timestamps _ (sf_options_ok _ _ Hs)).
  - cbn. pose proof (sf_version _ _ Hs) as Hv. cbn zeta in Hv. pose proof (level_list_stored c f Hs) as Hl.
    destruct (snapshot_version_eq vs id c) as (q & ->); [apply Hv|apply Hs|eapply Forall_impl; [exact Hl|]; by intros lf (_ & (_ & ? & _) & _)|done].
Qed.

Lemma snapshot_entries db vs a : set_core vs a -> plain_set vs ->
  Forall snapshot_entry (snapshot_edits db vs).
Proof.
  intros Hcore Hplain. rewrite snapshot_edits_eq by done. destruct (ps_db_id _ Hplain) as [Hd1 Hd2]. pose proof (sa_min_range _ _ Hcore) as Hmin.
  apply Forall_app_2; [|constructor; [|]].
  - destruct (write_dbid_to_manifest db); constructor; [|constructor]. split; [|done]. split; [|by right].
    split; [split; [split|split|..]|]; cbn; try done; try (by constructor); by intros ? [= <-].
  - split; [|done]. split; [|by right]. split; [split; [|split|..]|]; cbn; try done; by constructor.
  - apply Forall_forall. intros x (id & Hx & Hid)%list_elem_of_bind. rewrite (sa_ids _ _ Hcore) in Hid.
    pose proof (family_entries vs a id Hcore Hid) as H. rewrite Forall_forall in H. by apply H.
Qed.

End Snapshot.
