(* ===== verification/Durable.v ===== *)
(** * The MANIFEST and the running database

    A database that was created, opened and changed by commits ([LogApply]) can be opened
    again: the MANIFEST means the version set, so that [Recover] gives it back. *)

From Stdlib Require Import ZArith Lia.
From stdpp Require Import base numbers list sorting gmap sets.
From S2P Require Import Prelude Version Coding WalEdit FileCodec EditCodec LogWriter LogReader Log Storage Builder BuilderSpec BuilderSave Build Recover Replay LogApply GroupCommit Crash ManifestSpec StoredEdit CommitSpec GroupSpec Snapshot.

Import Coding FileCodec LogReader Storage Builder BuilderSpec BuilderSave Recover Replay LogApply GroupCommit ManifestSpec StoredEdit CommitSpec GroupSpec Snapshot.
Local Open Scope Z_scope.

Module Durable.

(** ** The records of a MANIFEST *)

Definition encodes (recs : list (list Z)) (l : list VersionEdit) : Prop :=
  Forall2 (fun r e => EditCodec.EncodeTo (Some 0%nat) e = Some r) recs l.

(** The offset in a block after records. *)
Definition end_offset (off : Z) (recs : list (list Z)) : Z :=
  foldl (fun off r => (LogWriter.record_layout false 0 off r).2) off recs.

Lemma image_app off recs recs' :
  LogWriter.image false 0 off (recs ++ recs') = LogWriter.image false 0 off recs ++ LogWriter.image false 0 (end_offset off recs) recs'.
Proof.
  revert off. induction recs as [|r recs IH]; intros off; [done|]. cbn. destruct (LogWriter.record_layout false 0 off r) as [b off'].
  by rewrite IH, app_assoc.
Qed.

Lemma encodes_stored recs l : encodes recs l -> Forall commit_edit l -> decodes recs (EditCodec.reload 0 <$> l) /\ Forall is_bytes recs.
Proof.
  induction 1 as [|r e recs l He Hrest IH]; intros Hl; [split; constructor|]. apply Forall_cons in Hl as [[Hs _] Hl].
  destruct (stored_record e Hs) as (r' & Hr & Hd & Hb). rewrite He in Hr. injection Hr as <-. destruct (IH Hl). by split; constructor.
Qed.

Section recovery.
Context {D : Type} (stream : Streaming D) (cfg : Config).

(** Recovery of a complete MANIFEST. *)
Lemma recover_log env o recs l a vs : env_ok env -> tables_ok env -> name_to_options env !! kDefaultColumnFamilyName = Some o ->
  encodes recs l -> Forall commit_edit l -> Forall group_edit l -> expect None l = Some None ->
  spec_edits env l (start o) = Some a -> set_abs vs a ->
  let file := LogWriter.image false 0 0 recs in
  LogWriter.size file < max_manifest_read_size env -> LogWriter.size file <= u64_max ->
  exists n vs', (forall fuel, (n <= fuel)%nat -> Recover stream cfg env fuel (new_reader file []) = Some (OK, vs')) /\
    same_database vs vs' /\ plain_set vs' /\ counters_ok (counters vs').
Proof.
  intros Henv Ht Ho Hrecs Hl Hg Hx Hspec Hset file HN HN'. destruct (encodes_stored recs l Hrecs Hl) as [Hd Hb].
  destruct (Log.read_image_new stream cfg false 0 ltac:(done) kTolerateCorruptedTailRecords recs file Hb ltac:(done))
    as (n & m & r' & Ha & _ & Hm & Hcut & Hrep).
  assert (m = length recs) as ->.
  { destruct (decide (m < length recs)%nat) as [Hlt|]; [|lia]. specialize (Hcut Hlt).
    pose proof (Log.image_mono false 0 (take (S m) recs) recs 0 ltac:(apply prefix_take)). unfold LogWriter.size, file in *. lia. }
  rewrite firstn_all in Ha. set (l' := EditCodec.reload 0 <$> l) in *.
  assert (expect None l' = Some None) as Hx'. { rewrite <- Hx. unfold l'. clear. generalize (None : option Z) as x. induction l; intros x; cbn; repeat case_match; auto. }
  assert (Forall group_edit l') as Hg' by (by apply Forall_fmap).
  assert (applied [] l' = l') as Hap.
  { rewrite <- (app_nil_r (applied [] l')). rewrite <- (GroupCommit.pending_complete l' [] None ltac:(done) Hx') at 2. by rewrite applied_pending. }
  destruct (Initialize_abs env o Henv Ho) as (h0 & H0 & Ha0).
  destruct (edits_abs env l' Henv) with (h := h0) (a := start o) (a' := a) as (h1 & H1 & Ha1); [|done|..].
  { apply Forall_fmap. eapply Forall_impl; [exact Hl|]. intros e He. by apply edit_ok_reload, commit_ok. }
  { unfold l'. rewrite spec_edits_reload; [done|]. eapply Forall_impl; [exact Hl|]. by intros e [_ ?]. }
  destruct (Crash.Recover_replay stream cfg env n r' file recs l' None h0 h1 HN HN' Ha ltac:(apply Hrep; by left) Hd Hg' Hx' H0)
    as (off & _ & Hrec); [by rewrite Hap|]. rewrite Hap in Hrec.
  destruct (finish_same env off h1 a vs Ht Ha1 Hset) as (vs' & Hfin & Hsame). exists n, vs'. split; [|done].
  intros fuel Hf. rewrite (Hrec fuel Hf). unfold Crash.recover_edits. rewrite H0, H1. exact Hfin.
Qed.

End recovery.

(** ** Writing records *)

Section writer.
Context {F : Type} `{LogWriter.FileWriterLaws F}.

(** A log with the records [recs], all of them flushed. *)
Record log_ok (w : LogWriter.Writer F) (recs : list (list Z)) : Prop := {
  lo_config : LogWriter.recycle_log_files_ w = false /\ LogWriter.log_number_ w = 0 /\ LogWriter.manual_flush_ w = false;
  lo_error : LogWriter.seen_error (LogWriter.dest w) = false;
  lo_offset : LogWriter.block_offset_ w = end_offset 0 recs;
  lo_block : 0 <= LogWriter.block_offset_ w <= LogWriter.kBlockSize;
  lo_contents : LogWriter.contents (LogWriter.dest w) = LogWriter.image false 0 0 recs;
  lo_flushed : LogWriter.flushed (LogWriter.dest w) = LogWriter.image false 0 0 recs;
}.

Lemma add_record_ok w recs record w' : log_ok w recs -> LogWriter.AddRecord w record 0 = Some (w', true) -> log_ok w' (recs ++ [record]).
Proof.
  intros [(C1 & C2 & C3) He Ho Hb Hc Hf] Hw. pose proof (LogWriter.AddRecord_wrote w record 0 Hb He) as Ha.
  pose proof (LogWriter.layout_offset (length record + 2) false 0 (LogWriter.block_offset_ w) true record Hb) as Hoff.
  fold (LogWriter.record_layout false 0 (LogWriter.block_offset_ w) record) in Hoff. rewrite C1, C2 in Ha.
  destruct (LogWriter.record_layout false 0 (LogWriter.block_offset_ w) record) as [bytes off] eqn:Er. cbn [snd] in Hoff.
  destruct Ha as (w1 & ok & E & W & Hok). rewrite Hw in E. injection E as <- <-.
  destruct W as ((D1 & D2 & D3) & _ & Wc & We). destruct (Hok eq_refl) as [Hoff' Hfl].
  assert (LogWriter.contents (LogWriter.dest w') = LogWriter.image false 0 0 (recs ++ [record])) as Hc'.
  { rewrite Wc, Hc, image_app. cbn. rewrite <- Ho, Er. by rewrite app_nil_r. }
  split; [split_and!; congruence|congruence| |by rewrite Hoff'|done|by rewrite Hfl].
  rewrite Hoff'. unfold end_offset. rewrite foldl_app. cbn. fold (end_offset 0 recs). by rewrite <- Ho, Er.
Qed.

Lemma write_edits_ok l : forall w recs w', log_ok w recs -> Forall entry_ok l -> write_edits w l = Some (OK, w') ->
  exists recs', encodes recs' l.*1 /\ log_ok w' (recs ++ recs').
Proof.
  induction l as [|[e ts] l IH]; intros w recs w' Hw Hl; cbn [write_edits].
  { intros [= <-]. exists []. rewrite app_nil_r. split; [constructor|done]. }
  apply Forall_cons in Hl as [He Hl]. pose proof (entry_encode (e, ts) He) as Henc. cbn [fst snd] in Henc. rewrite Henc.
  destruct (EditCodec.EncodeTo (Some 0%nat) e) as [record|] eqn:Er; [|done].
  destruct (LogWriter.AddRecord w record 0) as [[w1 [|]]|] eqn:Ea; cbn [mbind option_bind]; try done. intros Hrest.
  destruct (IH w1 (recs ++ [record]) w') as (recs' & H1 & H2); [by eapply add_record_ok|done|done|].
  exists (record :: recs'). split; [by constructor|]. by rewrite <- app_assoc in H2.
Qed.

Lemma new_log_ok f track : LogWriter.seen_error f = false -> LogWriter.contents f = [] -> log_ok (LogWriter.new_writer f 0 false false track) [].
Proof.
  intros He Hc. split; cbn; try done. apply prefix_nil_inv. rewrite <- Hc. by apply LogWriter.flushed_contents.
Qed.

End writer.

(** ** The counters that edits record *)

Definition last_max (l : list VersionEdit) (p : option Z) : option Z := foldl (fun p e => or_old (EditCodec.max_column_family e) p) p l.
Definition last_next (l : list VersionEdit) (p : option Z) : option Z := foldl (fun p e => or_old (EditCodec.next_file_number e) p) p l.

Lemma spec_edit_params env e a b : spec_edit env e a = Some b ->
  ab_param b = or_old (EditCodec.max_column_family e) (ab_param a) /\ ab_next b = or_old (EditCodec.next_file_number e) (ab_next a).
Proof.
  unfold spec_edit. destruct (spec_change env e a) as [a1|] eqn:E1; [|done]. cbn [mbind option_bind].
  assert (ab_param a1 = ab_param a /\ ab_next a1 = ab_next a) as [<- <-].
  { revert E1. unfold spec_change. destruct (EditCodec.column_family_add e).
    - destruct (env_options env _); [|done]. cbn [mbind option_bind]. case_decide; [|done]. by intros [= <-].
    - destruct (ab_families a !! _) as [f|]; [|done]. cbn [mbind option_bind]. destruct (EditCodec.column_family_drop e); [by intros [= <-]|].
      destruct (wal_edit e); [by intros [= <-]|]. case_decide; [|done]. destruct (spec_apply _ _ _); [|done]. by intros [= <-]. }
  destruct (if names_family e then spec_family e a1 else Some a1) as [a2|] eqn:E2; [|done]. cbn [mbind option_bind].
  assert (ab_param a2 = ab_param a1 /\ ab_next a2 = ab_next a1) as [<- <-].
  { destruct (names_family e); [|by injection E2 as ->]. revert E2. unfold spec_family. destruct (ab_families a1 !! _); [|by intros [= <-]].
    case_decide; [|done]. intros [= <-]. by destruct (EditCodec.log_number e). }
  by intros [= <-].
Qed.

Lemma spec_edits_params env l : forall a b, spec_edits env l a = Some b -> ab_param b = last_max l (ab_param a) /\ ab_next b = last_next l (ab_next a).
Proof.
  induction l as [|e l IH]; intros a b; cbn [spec_edits]; [by intros [= <-]|]. destruct (spec_edit env e a) as [a1|] eqn:E; [|done].
  cbn [mbind option_bind]. intros Hb. destruct (IH _ _ Hb) as [-> ->]. by destruct (spec_edit_params env e a a1 E) as [-> ->].
Qed.

Definition max_is (m : Z) (e : VersionEdit) : Prop := EditCodec.max_column_family e = None \/ EditCodec.max_column_family e = Some m.

Lemma last_max_is m l : Forall (max_is m) l -> forall p, last_max l p = p \/ last_max l p = Some m.
Proof.
  induction 1 as [|e l He Hl IH]; intros p; [by left|]. cbn. destruct He as [-> | ->]; cbn; [apply IH|]. destruct (IH (Some m)); by right.
Qed.

Lemma last_max_cons e l p : last_max (e :: l) p = last_max l (or_old (EditCodec.max_column_family e) p).
Proof. done. Qed.

Lemma last_max_none l p : Forall (fun e => EditCodec.max_column_family e = None) l -> last_max l p = p.
Proof. induction 1 as [|e l He Hl IH]; [done|]. cbn. by rewrite He. Qed.

Lemma last_next_some l p : is_Some p -> is_Some (last_next l p).
Proof. revert p. induction l as [|e l IH]; intros p Hp; [done|]. cbn. apply IH. by destruct (EditCodec.next_file_number e). Qed.

(** The largest column family after a batch whose edits record it or say nothing of it. *)
Lemma append_max m l (a : Abs) : Forall (max_is m) l -> Z.max (default 0 (ab_param a)) (ab_max a) = m -> 0 <= ab_max a <= m ->
  Z.max (default 0 (last_max l (ab_param a))) (ab_max a) = m.
Proof. intros Hl Hm Ha. destruct (last_max_is m l Hl (ab_param a)) as [-> | ->]; cbn; lia. Qed.

(** ** Batches *)

(** An entry of a batch and the same entry with counters set. *)
Definition touched (x y : VersionEdit * option nat) : Prop :=
  loose y.1 = loose x.1 /\ EditCodec.atomic_group y.1 = EditCodec.atomic_group x.1 /\ (entry_ok x -> entry_ok y).

Lemma alter_touched g i l : (forall x, touched x (g x)) -> Forall2 touched l (alter g i l).
Proof.
  intros Hg. revert i. induction l as [|x l IH]; intros i; [constructor|]. destruct i as [|i]; cbn; constructor; try apply Hg; try apply IH; [|done].
  clear. induction l; constructor; done.
Qed.

Lemma touched_trans l1 l2 l3 : Forall2 touched l1 l2 -> Forall2 touched l2 l3 -> Forall2 touched l1 l3.
Proof.
  intros H. revert l3. induction H as [|x y l1 l2 (A1 & A2 & A3) Hl IH]; intros l3 H3; inversion H3 as [|? z ? ? (B1 & B2 & B3)]; subst; constructor; auto.
  unfold touched. split_and!; [congruence|congruence|auto].
Qed.

Lemma touched_refl l : Forall2 touched l l.
Proof. induction l; constructor; done. Qed.

Record batch_ok (B : list (VersionEdit * option nat)) : Prop := {
  bo_entries : Forall entry_ok B;
  bo_groups : Forall group_edit B.*1;
  bo_complete : expect None B.*1 = Some None;
  bo_wals : Forall (fun e => wal_edit e = false) B.*1;
}.

Lemma touched_loose B B' : Forall2 touched B B' -> loose <$> B'.*1 = loose <$> B.*1.
Proof. induction 1 as [|x y B B' (E & _) _ IH]; [done|]. cbn. by rewrite E, IH. Qed.

Lemma touched_expect B B' : Forall2 touched B B' -> forall x, expect x B'.*1 = expect x B.*1.
Proof.
  induction 1 as [|x y B B' (_ & E & _) _ IH]; intros z; [done|]. cbn. rewrite E. repeat case_match; try done; apply IH.
Qed.

Lemma touched_Forall (P Q : VersionEdit * option nat -> Prop) B B' : (forall x y, touched x y -> P x -> Q y) -> Forall2 touched B B' -> Forall P B -> Forall Q B'.
Proof.
  intros HP. induction 1 as [|x y B B' Ht _ IH]; intros Hf; [constructor|]. apply Forall_cons in Hf as [Hx Hf]. constructor; eauto.
Qed.

Lemma touched_wal x y : touched x y -> wal_edit y.1 = wal_edit x.1.
Proof.
  intros [E _]. destruct (loose_fields x.1) as (_ & _ & _ & _ & <- & _), (loose_fields y.1) as (_ & _ & _ & _ & <- & _). by rewrite E.
Qed.

Lemma batch_touched B B' : Forall2 touched B B' -> batch_ok B -> batch_ok B'.
Proof.
  intros Ht [H1 H2 H3 H4]. split.
  - eapply touched_Forall; [|exact Ht|exact H1]. by intros x y (_ & _ & ?).
  - rewrite Forall_fmap in H2 |- *. eapply touched_Forall; [|exact Ht|exact H2]. intros x y Hxy. cbn. unfold group_edit.
    rewrite (touched_wal x y Hxy). by destruct Hxy as (_ & -> & _).
  - by rewrite (touched_expect B B' Ht).
  - rewrite Forall_fmap in H4 |- *. eapply touched_Forall; [|exact Ht|exact H4]. intros x y Hxy. cbn. by rewrite (touched_wal x y Hxy).
Qed.

Lemma touch_next n x : is_u64 n -> touched x (EditCodec.set_next_file_number (Some n) x.1, x.2).
Proof.
  intros Hn. destruct x as [e ts]. cbn. split_and!; [by destruct e|by destruct e|]. intros [H1 H2]. split; [by apply commit_next|]. by destruct e.
Qed.

Lemma touch_max n x : is_u32 n -> touched x (EditCodec.set_max_column_family (Some n) x.1, x.2).
Proof.
  intros Hn. destruct x as [e ts]. cbn. split_and!; [by destruct e|by destruct e|]. intros [H1 H2]. split; [by apply commit_max|]. by destruct e.
Qed.

(** The batch that is written. *)
Lemma finish_touched new in_batch vs B vs1 B' : counters_ok (counters vs) -> is_u32 (max_column_family vs) -> finish_batch new in_batch vs B = (vs1, B') ->
  Forall2 touched B B' /\ column_families vs1 = column_families vs /\ column_family_list vs1 = column_family_list vs /\
  max_column_family vs1 = max_column_family vs /\ wals vs1 = wals vs /\ db_id vs1 = db_id vs /\ counters_ok (counters vs1) /\
  min_log_number_to_keep (counters vs1) = min_log_number_to_keep (counters vs) /\
  descriptor_last_sequence (counters vs1) = descriptor_last_sequence (counters vs).
Proof.
  intros Hc Hm. unfold finish_batch. destruct new; intros [= <- <-]; [|split; [apply touched_refl|done]].
  cbn. split_and!; try done; [|split; [apply u64_range|apply Hc]].
  unfold set_last_next_file, set_first_max_family. set (n := _ +% 1).
  eapply touched_trans; [apply alter_touched; intros x; apply touch_next, u64_range|].
  destruct (in_batch && _); [|apply touched_refl]. apply alter_touched. intros x. by apply touch_max.
Qed.

(** A batch for a new MANIFEST records the largest column family and the next file. *)
Lemma finish_counters vs B vs1 B' m : finish_batch true true vs B = (vs1, B') -> m = max_column_family vs -> 0 <= m -> B <> [] ->
  Forall (max_is m) B.*1 -> default 0 (last_max B'.*1 None) = m /\ is_Some (last_next B'.*1 None).
Proof.
  unfold finish_batch. intros [= <- <-] -> Hm Hne HB. set (m := max_column_family vs) in *. set (n := _ +% 1). unfold set_first_max_family. cbn [andb].
  assert (Forall (max_is m) (set_last_next_file n B).*1 /\ set_last_next_file n B <> [] /\
    exists B0 x, set_last_next_file n B = B0 ++ [x] /\ EditCodec.next_file_number x.1 = Some n) as (H1 & H2 & B0 & x & H3 & H4).
  { destruct B as [|y B _] using rev_ind; [done|]. unfold set_last_next_file. rewrite length_app. cbn [length]. rewrite Nat.add_comm. cbn [Nat.add Nat.pred].
    assert (alter (fun x : VersionEdit * option nat => (EditCodec.set_next_file_number (Some n) x.1, x.2)) (length B) (B ++ [y]) =
      B ++ [(EditCodec.set_next_file_number (Some n) y.1, y.2)]) as E.
    { clear. induction B as [|z B IH]; cbn; [done|]. by rewrite <- IH. }
    rewrite E. rewrite fmap_app in HB |- *. apply Forall_app in HB as [HB Hy]. split_and!.
    - apply Forall_app. split; [done|]. cbn in Hy |- *. rewrite Forall_singleton in Hy |- *. destruct y as [e ts]. by destruct e.
    - by destruct B.
    - exists B. eexists. split; [done|]. by destruct y as [e ts], e. }
  destruct (Z.ltb_spec 0 m) as [Hpos|Hz].
  - destruct (set_last_next_file n B) as [|y B1]; [done|]. cbn [alter list_alter fmap list_fmap fst]. cbn in H1. apply Forall_cons in H1 as [_ H1].
    split.
    + rewrite last_max_cons. assert (EditCodec.max_column_family (EditCodec.set_max_column_family (Some m) y.1) = Some m) as -> by (by destruct y as [e ts], e).
      cbn [or_old]. destruct (last_max_is m B1.*1 H1 (Some m)) as [-> | ->]; done.
    + destruct B0 as [|z B0]; cbn in H3; simplify_eq.
      * cbn. assert (EditCodec.next_file_number (EditCodec.set_max_column_family (Some m) x.1) = Some n) as -> by (by destruct x as [e ts], e). done.
      * rewrite fmap_app. unfold last_next. cbn. rewrite foldl_app. cbn. by rewrite H4.
  - assert (m = 0) as E0 by lia. split.
    + destruct (last_max_is m _ H1 None) as [-> | ->]; cbn; lia.
    + rewrite H3, fmap_app. unfold last_next. rewrite foldl_app. cbn. by rewrite H4.
Qed.

(** ** What a commit installs *)

(** The version sets differ in counters of files only. *)
Record same_but_files (vs vs1 : VersionSet) : Prop := {
  sb_families : column_families vs1 = column_families vs;
  sb_list : column_family_list vs1 = column_family_list vs;
  sb_max : max_column_family vs1 = max_column_family vs;
  sb_min : min_log_number_to_keep (counters vs1) = min_log_number_to_keep (counters vs);
  sb_seq : descriptor_last_sequence (counters vs1) = descriptor_last_sequence (counters vs);
}.

Lemma same_files_sym vs vs1 : same_but_files vs vs1 -> same_but_files vs1 vs.
Proof. intros [? ? ? ? ?]. by split. Qed.

Lemma set_core_files vs vs1 a : same_but_files vs vs1 -> set_core vs a -> set_core vs1 a.
Proof. intros [E1 E2 E3 E4 E5] H. split; rewrite ?E1, ?E2, ?E3, ?E4, ?E5; apply H. Qed.

(** Whatever MANIFEST means the version set, with a batch that is [B] up to counters it
    means the version set that is installed. *)
Definition installs (env : Env) (db : DbOptions) (vs : VersionSet) (B : list (VersionEdit * option nat)) (vl : list (Z * VersionStorageInfo)) (m : Z)
    (first : VersionEdit) : Prop :=
  forall a batch size vs1, set_core vs a -> known env a -> loose <$> batch.*1 = loose <$> B.*1 -> same_but_files vs vs1 ->
  exists b, spec_edits env batch.*1 a = Some b /\ set_core (install db first batch vl m size vs1) b /\ known env b /\
    (is_u32 (max_column_family vs) -> is_u32 (max_column_family (install db first batch vl m size vs1))) /\
    forall p, Z.max p (ab_max a) = max_column_family vs -> Z.max p (ab_max b) = max_column_family (install db first batch vl m size vs1).

Lemma install_edits_rest B : forall vs, foldl install_edit vs B = set_column_families (column_families (foldl install_edit vs B)) vs.
Proof. intros vs. by apply install_edits_frame. Qed.

Lemma known_blur env a b : blur a = blur b -> known env a -> known env b.
Proof. intros E. unfold known. by injection E as -> _ _ _ _ _. Qed.

(** What an installation does not change. *)
Lemma install_rest db first B vl m size vs : let vs' := install db first B vl m size vs in
  wals vs' = wals vs /\ db_id vs' = db_id vs /\ next_file_number (counters vs') = next_file_number (counters vs) /\
  prev_log_number (counters vs') = default 0 (EditCodec.prev_log_number first) /\
  (EditCodec.column_family_add first = None -> max_column_family vs' = max_column_family vs).
Proof.
  unfold install. destruct (EditCodec.column_family_add first) as [name|]; [by rewrite bool_decide_eq_true_2|].
  rewrite bool_decide_eq_false_2 by (by intros [? ?]). destruct (EditCodec.column_family_drop first); [done|].
  rewrite (install_edits_rest B vs). set (vs2 := if _ =? 0 then _ else _).
  assert (wals vs2 = wals vs /\ db_id vs2 = db_id vs /\ next_file_number (counters vs2) = next_file_number (counters vs) /\ max_column_family vs2 = max_column_family vs)
    as (<- & <- & <- & <-) by (unfold vs2, MarkMinLogNumberToKeep; cbn; repeat case_match; done).
  clearbody vs2. assert (exists f, install_versions vl vs2 = set_column_families f vs2) as [f ->]; [|done].
  revert vs2. induction vl as [|[id v] vl IH]; intros vs2; [exists (column_families vs2); by destruct vs2|].
  destruct (IH (on_family id (fun c => set_cf_current (cf_next_epoch_number c) v c) vs2)) as [f Hf]. exists f. exact Hf.
Qed.

(** *** Changes of files *)

Lemma changes_install env db vs ws g vl first : counters_ok (counters vs) -> Forall (writer_ok vs) ws ->
  add_writers vs ws (mkGroup [] [] (descriptor_last_sequence (counters vs)) None) = Some (OK, g) -> save_versions vs (versions g) = (OK, vl) ->
  EditCodec.column_family_add first = None -> EditCodec.column_family_drop first = false ->
  installs env db vs (batch_edits g) vl (max_last_sequence g) first.
Proof.
  intros Hc Hws Hg Hsave Hadd Hdrop a batch size vs1 Hcore Hknown Hloose [S1 S2 S3 S4 S5].
  destruct (add_writers_inv env vs a Hcore Hc ws Hws _ a g (group_start_inv env vs a Hcore) Hg) as (b & Hb).
  destruct (spec_edits_same env (edits_of g) batch.*1 a a b) as (d & Hd & Ed); [done|done|apply Hb|]. exists d. split; [done|]. split_and!.
  - eapply set_core_blur; [exact Ed|]. by eapply install_core.
  - eapply known_blur; [exact Ed|]. destruct Hknown as [Hk (f0 & Hf0 & Hn0)]. split.
    + intros id fb Hfb. destruct (ab_families a !! id) as [f|] eqn:Hf; [|by destruct (gi_others _ _ _ _ _ Hb id Hf); congruence].
      destruct (gi_families _ _ _ _ _ Hb id f Hf) as (c & fb' & _ & Hfb' & Hfi & _). rewrite Hfb in Hfb'. injection Hfb' as <-.
      rewrite (fi_name _ _ _ _ Hfi), (fi_options _ _ _ _ Hfi). by apply Hk with id.
    + destruct (gi_families _ _ _ _ _ Hb 0 f0 Hf0) as (c & fb & _ & Hfb & Hfi & _). exists fb. by rewrite (fi_name _ _ _ _ Hfi).
  - by destruct (install_rest db first batch vl (max_last_sequence g) size vs1) as (_ & _ & _ & _ & ->); rewrite ?S3.
  - intros p Hp. destruct (install_rest db first batch vl (max_last_sequence g) size vs1) as (_ & _ & _ & _ & ->); [|done].
    injection Ed as _ _ E _ _ _. by rewrite S3, <- E, (gi_max _ _ _ _ _ Hb).
Qed.

(** The sizes of the timestamps of a batch. *)
Definition sizes_ok (B : list (VersionEdit * option nat)) : Prop := Forall (fun x => x.2 = Some 0%nat) B.

Lemma skip_sizes l g : sizes_ok (batch_edits g) -> sizes_ok (batch_edits (skip_dropped l g)).
Proof.
  unfold sizes_ok, skip_dropped. intros H. destruct (open_group g); [|done]. cbn. apply Forall_app. split; [by apply Forall_take|].
  apply Forall_fmap, Forall_drop. exact H.
Qed.

Lemma add_edits_sizes c o l : opt_timestamp_size o = 0%nat -> forall b g b' g', sizes_ok (batch_edits g) ->
  add_edits c o b l g = Some (OK, b', g') -> sizes_ok (batch_edits g').
Proof.
  intros Ho. induction l as [|e l IH]; intros b g b' g' Hg; cbn [add_edits]; [by intros [= <- <-]|].
  destruct (LogAndApplyHelper c o b e (max_last_sequence g)) as [[[[[] b1] e1] m]|]; cbn [mbind option_bind]; try done. apply IH. cbn.
  apply Forall_app. split; [done|]. rewrite Forall_singleton. cbn. by rewrite Ho.
Qed.

Lemma add_writers_sizes vs a ws : set_core vs a -> forall g g', sizes_ok (batch_edits g) -> add_writers vs ws g = Some (OK, g') -> sizes_ok (batch_edits g').
Proof.
  intros Hcore. induction ws as [|w ws IH]; intros g g' Hg; cbn [add_writers]; [by intros [= <-]|].
  destruct (add_writer vs w g) as [[[] g1]|] eqn:E; cbn [mbind option_bind]; try done. apply IH. revert E. unfold add_writer.
  destruct (column_families vs !! mw_cfd w) as [c|] eqn:Hc; [|intros [= <-]; by apply skip_sizes].
  assert (opt_timestamp_size (cf_options c) = 0%nat) as Hts.
  { destruct (ab_families a !! mw_cfd w) as [f|] eqn:Hf; [|by rewrite (sa_others _ _ Hcore _ Hf) in Hc].
    destruct (sa_families _ _ Hcore _ _ Hf) as (c1 & Hc1 & Hs). rewrite Hc in Hc1. injection Hc1 as <-.
    rewrite (sf_options _ _ Hs). apply oo_timestamps, Hs. }
  destruct (find_version _ _); [|destruct (IsAllWalEdits w)];
    (destruct (add_edits _ _ _ _ _) as [[[[] b2] g2]|] eqn:E2; cbn [mbind option_bind]; try done; intros [= <-];
     apply add_edits_sizes in E2; [by destruct b2|done|done]).
Qed.

Lemma erase_Forall (P : VersionEdit -> Prop) l l' : (forall e, P (erase e) <-> P e) -> erase <$> l = erase <$> l' -> Forall P l' -> Forall P l.
Proof.
  intros HP E H. assert (Forall P (erase <$> l)) as H1 by (rewrite E; apply Forall_fmap; eapply Forall_impl; [exact H|]; intros e; apply HP).
  rewrite Forall_fmap in H1. eapply Forall_impl; [exact H1|]. intros e. apply HP.
Qed.

Lemma written_Forall vs ws (P : VersionEdit -> Prop) : Forall (fun w => Forall P (edit_list w)) ws -> Forall P (written vs ws).
Proof.
  intros H. unfold written. apply Forall_concat, Forall_fmap. rewrite Forall_forall in H |- *. intros w [_ Hw]%list_elem_of_filter. by apply H.
Qed.

(** The writers of a group of changes: complete atomic groups. *)
Record writers_ok (vs : VersionSet) (ws : list ManifestWriter) : Prop := {
  wo_writers : Forall (writer_ok vs) ws;
  wo_groups : Forall group_edit (concat (edit_list <$> ws));
  wo_complete : expect None (concat (edit_list <$> ws)) = Some None;
}.

Lemma changes_batch (env : Env) vs a ws g : set_core vs a -> counters_ok (counters vs) -> writers_ok vs ws ->
  add_writers vs ws (mkGroup [] [] (descriptor_last_sequence (counters vs)) None) = Some (OK, g) ->
  batch_ok (batch_edits g) /\ Forall (max_is (max_column_family vs)) (batch_edits g).*1.
Proof.
  intros Hcore Hc [Hws Hgr Hcomp] Hg. destruct (add_writers_inv env vs a Hcore Hc ws Hws _ a g (group_start_inv env vs a Hcore) Hg) as (b & Hb).
  destruct (batch_complete vs ws _ g Hgr Hcomp Hg) as [H1 H2]. pose proof (add_writers_erase vs ws _ g Hg) as He. cbn in He.
  assert (forall P : VersionEdit -> Prop, (forall e, change_ok vs e -> P e) -> Forall P (written vs ws)) as Hall.
  { intros P HP. apply written_Forall. eapply Forall_impl; [exact Hws|]. intros w [_ Hw]. eapply Forall_impl; [exact Hw|]. intros e [Hch _]. by apply HP. }
  split; [split|].
  - assert (sizes_ok (batch_edits g)) as Hts by (refine (add_writers_sizes vs a ws Hcore _ g _ Hg); constructor). pose proof (gi_edits _ _ _ _ _ Hb) as Hed. unfold edits_of in Hed.
    rewrite Forall_fmap in Hed. unfold sizes_ok in Hts. rewrite Forall_forall in Hed, Hts |- *. intros x Hx. split; [by apply Hed|left; by apply Hts].
  - exact H2.
  - exact H1.
  - apply (erase_Forall (fun e => wal_edit e = false) (edits_of g) (written vs ws)); [intros e; by destruct e|done|]. apply Hall. intros e Hch. apply Hch.
  - apply (erase_Forall (max_is (max_column_family vs)) (edits_of g) (written vs ws)); [intros e; by destruct e|done|]. apply Hall. intros e Hch. left. apply Hch.
Qed.

Lemma changes_nonempty vs w ws m g : writer_ok vs w -> is_Some (column_families vs !! mw_cfd w) ->
  add_writers vs (w :: ws) (mkGroup [] [] m None) = Some (OK, g) -> batch_edits g <> [].
Proof.
  intros [Hne _] Hlive Hg E. pose proof (add_writers_erase vs (w :: ws) _ g Hg) as He. unfold edits_of in He. rewrite E in He. cbn [fmap list_fmap batch_edits app] in He. symmetry in He.
  apply fmap_nil_inv in He. unfold written in He. rewrite filter_cons_True in He by done. cbn in He. by destruct (edit_list w).
Qed.

(** *** New column families *)

Lemma empty_level n q k : LevelFiles k (new_storage n None q) = [].
Proof. unfold LevelFiles; cbn. destruct (replicate n [] !! k) as [l|] eqn:E; [|done]. by apply lookup_replicate_1 in E as [-> _]. Qed.

Lemma empty_version_ok `{Comparator} n : version_ok (new_storage n None kMustPresent).
Proof.
  split; try done; [apply Build.empty_storage_ok|..].
  - intros k. rewrite empty_level. constructor.
  - cbn. by rewrite !length_replicate.
Qed.

Lemma empty_family e o name log : options_ok o -> is_slice name -> is_bytes name -> is_u64 log ->
  set_family (mkCfd name o log [] e (new_storage (opt_num_levels o) None kMustPresent)) (mkFamily name o log empty_state).
Proof.
  intros Ho H1 H2 Hl. split; cbn; try done.
  - apply length_replicate.
  - apply empty_version_ok.
  - apply (BuilderSave.fresh_consistent _ (opt_num_levels o)), BuilderSave.new_storage_fresh.
  - split_and!; [done|done|]. intros k Hk. unfold num_levels in Hk. cbn in Hk. rewrite length_replicate in Hk. cbn. by rewrite lookup_replicate_2.
Qed.

Record add_ok (env : Env) (db : DbOptions) (vs : VersionSet) (e : VersionEdit) (name : list Z) : Prop := {
  ad_edit : commit_edit e;
  ad_name : EditCodec.column_family_add e = Some name;
  ad_drop : EditCodec.column_family_drop e = false;
  ad_files : EditCodec.new_files e = [];
  ad_wal : wal_edit e = false;
  ad_group : EditCodec.atomic_group e = None;
  ad_max : EditCodec.max_column_family e = None;
  ad_min : EditCodec.min_log_number_to_keep e = None;
  ad_id : max_column_family vs < EditCodec.column_family e /\ is_u32 (EditCodec.column_family e);
  ad_options : env_options env name = Some (new_cf_options db);
  ad_comparator : comparator_ok e (new_cf_options db);
}.

Lemma spec_edit_add env e a o name log : EditCodec.column_family_add e = Some name -> env_options env name = Some o -> comparator_ok e o ->
  ab_families a !! EditCodec.column_family e = None -> log = default 0 (EditCodec.log_number e) ->
  exists b, spec_edit env e a = Some b /\ ab_families b = <[EditCodec.column_family e := mkFamily name o log empty_state]> (ab_families a) /\
    ab_ids b = ab_ids a ++ [EditCodec.column_family e] /\ ab_max b = Z.max (ab_max a) (EditCodec.column_family e) /\
    ab_seq b = or_old (EditCodec.last_sequence e) (ab_seq a) /\
    ab_min b = match EditCodec.min_log_number_to_keep e with Some n => Z.max (ab_min a) n | None => ab_min a end /\
    (ab_log a = true -> ab_log b = true).
Proof.
  intros Hname Ho Hc Hn ->. unfold spec_edit, spec_change. rewrite Hname, Ho. cbn [mbind option_bind]. rewrite decide_True by done. cbn [mbind option_bind].
  unfold names_family. rewrite Hname, bool_decide_eq_true_2 by done. cbn [orb]. unfold spec_family. cbn [ab_families spec_create set_families].
  rewrite lookup_insert_eq. cbn [fam_options]. rewrite decide_True by done. cbn [mbind option_bind]. eexists. split; [done|].
  destruct (EditCodec.log_number e) as [n|]; cbn; [|done]. rewrite alter_insert_eq. cbn. rewrite Z.max_id. split_and!; try done.
  by intros ->.
Qed.

(** The families of a version set with one more. *)
Lemma set_core_add vs a b vs' id c f : set_core vs a -> max_column_family vs < id -> is_u32 id -> set_family c f ->
  column_families vs' = <[id := c]> (column_families vs) -> column_family_list vs' = column_family_list vs ++ [id] ->
  max_column_family vs' = Z.max (max_column_family vs) id -> descriptor_last_sequence (counters vs') = descriptor_last_sequence (counters vs) ->
  min_log_number_to_keep (counters vs') = min_log_number_to_keep (counters vs) ->
  ab_families b = <[id := f]> (ab_families a) -> ab_ids b = ab_ids a ++ [id] -> ab_max b = Z.max (ab_max a) id ->
  ab_seq b = ab_seq a -> ab_min b = ab_min a -> ab_log b = true ->
  set_core vs' b.
Proof.
  intros Hcore Hid Hu Hs E1 E2 E3 E4 E5 F1 F2 F3 F4 F5 F6.
  assert (id ∉ ab_ids a) as Hnew. { intros H%(sa_bound _ _ Hcore). lia. }
  split; rewrite ?E2, ?E3, ?E4, ?E5, ?F2, ?F3, ?F4, ?F5; try apply Hcore; try done.
  - by rewrite (sa_ids _ _ Hcore).
  - apply NoDup_app. split; [apply Hcore|]. split; [|apply NoDup_singleton]. by intros x Hx ->%list_elem_of_singleton.
  - intros i. rewrite F1, elem_of_app, list_elem_of_singleton, (sa_elem _ _ Hcore). destruct (decide (i = id)) as [->|Hne].
    + rewrite lookup_insert_eq. split; [by eauto|by right].
    + rewrite lookup_insert_ne by done. naive_solver.
  - pose proof (sa_default _ _ Hcore). by destruct (ab_ids a).
  - intros i Hi. apply elem_of_app in Hi as [Hi|Hi]; [by apply Hcore|]. apply list_elem_of_singleton in Hi. by subst.
  - intros i g. rewrite E1, F1. destruct (decide (i = id)) as [->|Hne].
    + rewrite !lookup_insert_eq. intros [= <-]. by exists c.
    + rewrite !lookup_insert_ne by done. apply Hcore.
  - intros i. rewrite E1, F1. destruct (decide (i = id)) as [->|Hne]; [by rewrite lookup_insert_eq|]. rewrite !lookup_insert_ne by done. apply Hcore.
  - pose proof (sa_max_le _ _ Hcore). lia.
  - intros i Hi. apply elem_of_app in Hi as [Hi%(sa_bound _ _ Hcore)|Hi]; [lia|]. apply list_elem_of_singleton in Hi. lia.
Qed.

Lemma CFHelper_fields vs m e : let x := LogAndApplyCFHelper vs m e in
  EditCodec.column_family x = EditCodec.column_family e /\ EditCodec.column_family_add x = EditCodec.column_family_add e /\
  EditCodec.column_family_drop x = EditCodec.column_family_drop e /\ EditCodec.log_number x = EditCodec.log_number e /\
  EditCodec.last_sequence x = Some m /\ EditCodec.min_log_number_to_keep x = EditCodec.min_log_number_to_keep e /\
  EditCodec.atomic_group x = EditCodec.atomic_group e /\ wal_edit x = wal_edit e /\ EditCodec.new_files x = EditCodec.new_files e /\
  (comparator_ok x = comparator_ok e).
Proof. destruct e. unfold LogAndApplyCFHelper. cbn. by destruct column_family_drop. Qed.

Lemma add_install env db vs e name first : env_ok env -> add_ok env db vs e name ->
  let m := descriptor_last_sequence (counters vs) in let x := LogAndApplyCFHelper vs m e in
  loose first = loose x -> installs env db vs [(x, None)] [] m first.
Proof.
  intros Henv Had m x Hfirst a batch size vs1 Hcore Hknown Hloose [S1 S2 S3 S4 S5].
  destruct (CFHelper_fields vs m e) as (X1 & X2 & X3 & X4 & X5 & X6 & _ & _ & _ & X10). fold x in X1, X2, X3, X4, X5, X6, X10.
  destruct (loose_fields first) as (L1 & L2 & L3 & L4 & _), (loose_fields x) as (M1 & M2 & M3 & M4 & _).
  assert (EditCodec.column_family first = EditCodec.column_family e) as G1 by congruence.
  assert (EditCodec.column_family_add first = Some name) as G2 by (rewrite <- (ad_name _ _ _ _ _ Had); congruence).
  assert (EditCodec.log_number first = EditCodec.log_number e) as G4 by congruence. clear L1 L2 L3 L4 M1 M2 M3 M4.
  destruct (ad_id _ _ _ _ _ Had) as [Hid Hu]. set (id := EditCodec.column_family e) in *. set (o := new_cf_options db) in *.
  assert (ab_families a !! id = None) as Hn.
  { destruct (ab_families a !! id) eqn:E; [|done]. assert (id ∈ ab_ids a) as H%(sa_bound _ _ Hcore) by (apply (sa_elem _ _ Hcore); by eexists). lia. }
  set (log := default 0 (EditCodec.log_number e)). pose proof (ad_edit _ _ _ _ _ Had) as [He _].
  assert (is_u64 log) as Hlog. { unfold log. destruct (EditCodec.log_number e) eqn:El; cbn; [by apply (EditCodec.ok_log_number _ _ (se_typed e He))|done]. }
  destruct (spec_edit_add env x a o name log) as (b & Hb & B1 & B2 & B3 & B4 & B5 & B6); [by rewrite X2; apply Had|apply Had|rewrite X10; apply Had|by rewrite X1|by rewrite X4|].
  rewrite X1 in B1, B2, B3. rewrite X5 in B4. rewrite X6, (ad_min _ _ _ _ _ Had) in B5. cbn in B4. fold id in B1, B2, B3.
  destruct (spec_edits_same env [x] batch.*1 a a b) as (d & Hd & Ed); [by rewrite Hloose|done|cbn; by rewrite Hb|]. exists d. split; [done|].
  set (c := mkCfd name o log [] 1 (new_storage (opt_num_levels o) None kMustPresent)).
  assert (install db first batch [] m size vs1 = set_counters (set_after_commit m (default 0 (EditCodec.prev_log_number first)) size (counters vs1))
    (mkVersionSet (<[id := c]> (column_families vs)) (column_family_list vs ++ [id]) (Z.max (max_column_family vs) id) (wals vs1) (db_id vs1) (counters vs1))) as ->.
  { unfold install. rewrite G2, bool_decide_eq_true_2 by done. unfold CreateColumnFamily. rewrite G1, G2, G4, S1, S2, S3. unfold emplace.
    by rewrite (sa_others _ _ Hcore _ Hn). }
  split_and!.
  - eapply set_core_blur; [exact Ed|]. eapply (set_core_add vs a b _ id c (mkFamily name o log empty_state)); try done; [|by rewrite B4, (sa_seq _ _ Hcore)|apply B6, Hcore].
    apply empty_family; [by apply (Henv name), Had|by apply (EditCodec.ok_column_family_add _ _ (se_typed e He)), Had|by apply (se_add e He), Had|done].
  - eapply known_blur; [exact Ed|]. destruct Hknown as [Hk (f0 & Hf0 & Hn0)]. split.
    + intros i g. rewrite B1. destruct (decide (i = id)) as [->|Hne]; [rewrite lookup_insert_eq; intros [= <-]; apply Had|]. rewrite lookup_insert_ne by done. apply Hk.
    + exists f0. rewrite B1, lookup_insert_ne by (intros E; rewrite E in Hn; congruence). done.
  - cbn. unfold is_u32 in *. lia.
  - intros p Hp. injection Ed as _ _ E _ _ _. cbn. rewrite <- E, B3. lia.
Qed.

(** *** Dropped column families *)

Record drop_ok (vs : VersionSet) (e : VersionEdit) : Prop := {
  dr_edit : commit_edit e;
  dr_add : EditCodec.column_family_add e = None;
  dr_drop : EditCodec.column_family_drop e = true;
  dr_files : EditCodec.new_files e = [];
  dr_wal : wal_edit e = false;
  dr_group : EditCodec.atomic_group e = None;
  dr_min : EditCodec.min_log_number_to_keep e = None;
  dr_id : EditCodec.column_family e <> 0 /\ is_Some (column_families vs !! EditCodec.column_family e);
}.

Lemma spec_edit_drop env e a f : EditCodec.column_family_add e = None -> EditCodec.column_family_drop e = true ->
  ab_families a !! EditCodec.column_family e = Some f ->
  exists b, spec_edit env e a = Some b /\ ab_families b = delete (EditCodec.column_family e) (ab_families a) /\
    ab_ids b = filter (fun i => i <> EditCodec.column_family e) (ab_ids a) /\ ab_max b = ab_max a /\ ab_log b = ab_log a /\
    ab_seq b = or_old (EditCodec.last_sequence e) (ab_seq a) /\
    ab_min b = match EditCodec.min_log_number_to_keep e with Some n => Z.max (ab_min a) n | None => ab_min a end.
Proof.
  intros Hadd Hdrop Hf. unfold spec_edit, spec_change, names_family. rewrite Hadd, Hf, Hdrop. cbn. by eexists.
Qed.

Lemma set_core_drop vs a b vs' id : set_core vs a -> id <> 0 ->
  column_families vs' = delete id (column_families vs) -> column_family_list vs' = filter (fun i => i <> id) (column_family_list vs) ->
  max_column_family vs' = max_column_family vs -> descriptor_last_sequence (counters vs') = descriptor_last_sequence (counters vs) ->
  min_log_number_to_keep (counters vs') = min_log_number_to_keep (counters vs) ->
  ab_families b = delete id (ab_families a) -> ab_ids b = filter (fun i => i <> id) (ab_ids a) -> ab_max b = ab_max a ->
  ab_seq b = ab_seq a -> ab_min b = ab_min a -> ab_log b = ab_log a ->
  set_core vs' b.
Proof.
  intros Hcore Hid E1 E2 E3 E4 E5 F1 F2 F3 F4 F5 F6.
  split; rewrite ?E2, ?E3, ?E4, ?E5, ?F2, ?F3, ?F4, ?F5, ?F6; try apply Hcore; try done.
  - by rewrite (sa_ids _ _ Hcore).
  - apply NoDup_filter, Hcore.
  - intros i. rewrite F1, list_elem_of_filter, (sa_elem _ _ Hcore), lookup_delete_is_Some. naive_solver.
  - pose proof (sa_default _ _ Hcore) as H. destruct (ab_ids a) as [|i l]; [done|]. injection H as ->. by rewrite filter_cons_True.
  - intros i [_ Hi]%list_elem_of_filter. by apply Hcore.
  - intros i g. rewrite E1, F1. intros [Hne Hg]%lookup_delete_Some. rewrite lookup_delete_ne by done. by apply Hcore.
  - intros i. rewrite E1, F1. destruct (decide (i = id)) as [->|Hne]; [by rewrite !lookup_delete_eq|]. rewrite !lookup_delete_ne by done. apply Hcore.
  - intros i [_ Hi]%list_elem_of_filter. by apply Hcore.
Qed.

Lemma drop_install env db vs e first : drop_ok vs e ->
  let m := descriptor_last_sequence (counters vs) in let x := LogAndApplyCFHelper vs m e in
  loose first = loose x -> installs env db vs [(x, None)] [] m first.
Proof.
  intros Hdr m x Hfirst a batch size vs1 Hcore Hknown Hloose [S1 S2 S3 S4 S5].
  destruct (CFHelper_fields vs m e) as (X1 & X2 & X3 & X4 & X5 & X6 & _). fold x in X1, X2, X3, X4, X5, X6.
  destruct (loose_fields first) as (L1 & L2 & L3 & _), (loose_fields x) as (M1 & M2 & M3 & _).
  assert (EditCodec.column_family first = EditCodec.column_family e) as G1 by congruence.
  assert (EditCodec.column_family_add first = None) as G2 by (rewrite <- (dr_add _ _ Hdr); congruence).
  assert (EditCodec.column_family_drop first = true) as G3 by (rewrite <- (dr_drop _ _ Hdr); congruence). clear L1 L2 L3 M1 M2 M3.
  destruct (dr_id _ _ Hdr) as [Hid [c Hc]]. set (id := EditCodec.column_family e) in *.
  destruct (ab_families a !! id) as [f|] eqn:Hf; [|by rewrite (sa_others _ _ Hcore _ Hf) in Hc].
  destruct (spec_edit_drop env x a f) as (b & Hb & B1 & B2 & B3 & B4 & B5 & B6); [by rewrite X2; apply Hdr|by rewrite X3; apply Hdr|by rewrite X1|].
  rewrite X1 in B1, B2. rewrite X5 in B5. rewrite X6, (dr_min _ _ Hdr) in B6. cbn in B5. fold id in B1, B2.
  destruct (spec_edits_same env [x] batch.*1 a a b) as (d & Hd & Ed); [by rewrite Hloose|done|cbn; by rewrite Hb|]. exists d. split; [done|].
  assert (install db first batch [] m size vs1 = set_counters (set_after_commit m (default 0 (EditCodec.prev_log_number first)) size (counters vs1))
    (DropColumnFamily id vs1)) as ->.
  { unfold install. rewrite G2, bool_decide_eq_false_2 by (by intros [? ?]). by rewrite G1, G3. }
  split_and!.
  - eapply set_core_blur; [exact Ed|]. eapply (set_core_drop vs a b _ id); try done; cbn; rewrite ?S1, ?S2, ?S3; try done.
    by rewrite B5, (sa_seq _ _ Hcore).
  - eapply known_blur; [exact Ed|]. destruct Hknown as [Hk (f0 & Hf0 & Hn0)]. split.
    + intros i g. rewrite B1. intros [_ Hg]%lookup_delete_Some. by apply Hk with i.
    + exists f0. by rewrite B1, lookup_delete_ne.
  - cbn. by rewrite S3.
  - intros p Hp. injection Ed as _ _ E _ _ _. cbn. by rewrite S3, <- E, B3.
Qed.

(** ** Requests *)

(** What [LogAndApply] is asked to commit: a new column family, a column family to drop,
    or changes of column families, some of which may have been dropped. *)
Inductive request (env : Env) (db : DbOptions) (vs : VersionSet) : list ManifestWriter -> Prop :=
| request_add id e name : add_ok env db vs e name -> request env db vs [mkManifestWriter id [e]]
| request_drop id e : drop_ok vs e -> request env db vs [mkManifestWriter id [e]]
| request_changes ws : writers_ok vs ws -> request env db vs ws.

Lemma CFHelper_commit vs m e : counters_ok (counters vs) -> is_u32 (max_column_family vs) -> is_sequence m -> commit_edit e ->
  commit_edit (LogAndApplyCFHelper vs m e).
Proof.
  intros Hc Hm Hs He. unfold LogAndApplyCFHelper. set (e1 := EditCodec.set_last_sequence _ _).
  assert (commit_edit e1) as H1 by (apply commit_seq, commit_next; [by apply sequence_u64|apply Hc|done]).
  destruct (EditCodec.column_family_drop e1); [by apply commit_max|done].
Qed.

Lemma single_batch x : commit_edit x -> EditCodec.new_files x = [] -> EditCodec.atomic_group x = None -> wal_edit x = false -> batch_ok [(x, None)].
Proof.
  intros H1 H2 H3 H4. split; cbn.
  - constructor; [|constructor]. split; [done|by right].
  - constructor; [|constructor]. unfold group_edit. by rewrite H3.
  - by rewrite H3.
  - by repeat constructor.
Qed.

Definition first_edit (vs : VersionSet) (w : ManifestWriter) (first : VersionEdit) (B : list (VersionEdit * option nat)) : VersionEdit :=
  if first_in_batch vs w first then default first (fst <$> head B) else first.

(** What is prepared for a request. *)
Record prepared_ok (env : Env) (db : DbOptions) (vs : VersionSet) (w : ManifestWriter) (first : VersionEdit) (p : Prepared) : Prop := {
  po_batch : batch_ok (pr_batch p);
  po_max : Forall (max_is (max_column_family vs)) (pr_batch p).*1;
  po_nonempty : first_in_batch vs w first = true -> pr_batch p <> [];
  po_prev : is_u64 (default 0 (EditCodec.prev_log_number (first_edit vs w first (pr_batch p))));
  po_install first' : loose first' = loose (first_edit vs w first (pr_batch p)) ->
    installs env db vs (pr_batch p) (pr_versions p) (pr_max_sequence p) first';
}.

Lemma commit_prev_log e : commit_edit e -> is_u64 (default 0 (EditCodec.prev_log_number e)).
Proof. intros [He _]. destruct (EditCodec.prev_log_number e) eqn:E; [|done]. by apply (EditCodec.ok_prev_log_number _ _ (se_typed e He)). Qed.

Lemma prepare_cf env db vs a w first p : set_core vs a -> counters_ok (counters vs) -> is_u32 (max_column_family vs) ->
  commit_edit first -> EditCodec.new_files first = [] -> EditCodec.atomic_group first = None -> wal_edit first = false ->
  IsColumnFamilyManipulation first = true -> (EditCodec.column_family_drop first = false -> EditCodec.max_column_family first = None) ->
  (let m := descriptor_last_sequence (counters vs) in let x := LogAndApplyCFHelper vs m first in
   forall first', loose first' = loose x -> installs env db vs [(x, None)] [] m first') ->
  prepare vs [w] first = Some (OK, p) -> prepared_ok env db vs w first p.
Proof.
  intros Hcore Hc Hm He Hf Hg Hw Hcf Hmax Hin. unfold prepare. rewrite Hcf. intros [= <-]. set (m := descriptor_last_sequence (counters vs)) in *.
  destruct (CFHelper_fields vs m first) as (_ & _ & X3 & _ & _ & _ & X7 & X8 & X9 & _). set (x := LogAndApplyCFHelper vs m first) in *.
  assert (commit_edit x) as Hx by (apply CFHelper_commit; try done; apply (sa_range _ _ Hcore)).
  assert (first_in_batch vs w first = true) as Hfirst by (unfold first_in_batch; by rewrite Hcf).
  split; unfold first_edit; rewrite ?Hfirst; cbn.
  - apply single_batch; congruence.
  - constructor; [|constructor]. unfold x, LogAndApplyCFHelper, max_is. destruct first; cbn in *. destruct column_family_drop; cbn; [by right|left; by apply Hmax].
  - done.
  - by apply commit_prev_log.
  - exact Hin.
Qed.

Lemma prepare_changes env db vs a w ws first p : set_core vs a -> counters_ok (counters vs) -> writers_ok vs (w :: ws) -> head (edit_list w) = Some first ->
  prepare vs (w :: ws) first = Some (OK, p) -> prepared_ok env db vs w first p.
Proof.
  intros Hcore Hc Hws Hfirst. pose proof (wo_writers _ _ Hws) as Hall. apply Forall_cons in Hall as [Hw _].
  assert (change_ok vs first) as Hch.
  { destruct Hw as [_ Hw]. destruct (edit_list w); [done|]. injection Hfirst as ->. apply Forall_cons in Hw as [[? _] _]. done. }
  assert (IsColumnFamilyManipulation first = false) as Hcf.
  { unfold IsColumnFamilyManipulation. rewrite (co_add _ _ Hch), (co_drop _ _ Hch). by rewrite bool_decide_eq_false_2 by (by intros [? ?]). }
  unfold prepare. rewrite Hcf. destruct (add_writers _ _ _) as [[[] g]|] eqn:Eg; cbn [mbind option_bind]; try done.
  destruct (save_versions vs (versions g)) as [s vl] eqn:Es. intros [= -> <-].
  destruct (changes_batch env vs a (w :: ws) g Hcore Hc Hws Eg) as [Hb Hm].
  set (P e := EditCodec.column_family_add e = None /\ EditCodec.column_family_drop e = false /\ is_u64 (default 0 (EditCodec.prev_log_number e))).
  assert (Forall P (edits_of g)) as HP.
  { destruct (add_writers_inv env vs a Hcore Hc (w :: ws) (wo_writers _ _ Hws) _ a g (group_start_inv env vs a Hcore) Eg) as (b & Hb').
    pose proof (gi_edits _ _ _ _ _ Hb') as Hed. pose proof (add_writers_erase vs (w :: ws) _ g Eg) as He. cbn [edits_of batch_edits fmap list_fmap app] in He.
    apply (erase_Forall (fun e => EditCodec.column_family_add e = None /\ EditCodec.column_family_drop e = false)) in He; [|by intros []|].
    - rewrite Forall_forall in Hed, He |- *. intros e Hx. destruct (He e Hx). split_and!; try done. by apply commit_prev_log, Hed.
    - apply written_Forall. eapply Forall_impl; [apply Hws|]. intros w' [_ Hw']. eapply Forall_impl; [exact Hw'|]. intros e [Hce _]. split; apply Hce. }
  assert (P (first_edit vs w first (batch_edits g))) as Hfe.
  { assert (P first) as Hp0 by (split_and!; [apply Hch|apply Hch|apply commit_prev_log, Hch]).
    unfold first_edit. destruct (first_in_batch vs w first); [|done]. unfold edits_of in HP. destruct (batch_edits g) as [|x B]; [done|]. cbn in HP |- *. by apply Forall_cons in HP as [? _]. }
  destruct Hfe as (P1 & P2 & P3). split; cbn; try done.
  - unfold first_in_batch. rewrite Hcf. cbn. intros Hlive%bool_decide_eq_true. by eapply changes_nonempty.
  - intros first' Hloose. apply (changes_install env db vs (w :: ws)); try done; [apply Hws| |];
      destruct (loose_fields first') as (_ & L2 & L3 & _); destruct (loose_fields (first_edit vs w first (batch_edits g))) as (_ & M2 & M3 & _); congruence.
Qed.

Lemma prepare_request env db vs a ws w first p : env_ok env -> set_core vs a -> counters_ok (counters vs) -> is_u32 (max_column_family vs) ->
  request env db vs ws -> head ws = Some w -> head (edit_list w) = Some first -> prepare vs ws first = Some (OK, p) -> prepared_ok env db vs w first p.
Proof.
  intros Henv Hcore Hc Hm [id e name Had|id e Hdr|ws' Hws]; cbn.
  - intros [= <-] [= <-]. eapply prepare_cf; try done; try apply Had.
    + unfold IsColumnFamilyManipulation. by rewrite (ad_name _ _ _ _ _ Had).
    + intros _. apply Had.
    + intros m x first'. by apply (add_install env db vs e name).
  - intros [= <-] [= <-]. eapply prepare_cf; try done; try apply Hdr.
    + unfold IsColumnFamilyManipulation. rewrite (dr_drop _ _ Hdr). apply orb_true_r.
    + by rewrite (dr_drop _ _ Hdr).
    + intros m x first'. by apply (drop_install env db vs e).
  - destruct ws' as [|w' ws']; [done|]. intros [= <-]. by eapply prepare_changes.
Qed.

(** ** Databases *)

(** The edits [l] of a MANIFEST mean [a], which is the version set. *)
Record means (env : Env) (o : CfOptions) (l : list VersionEdit) (a : Abs) (vs : VersionSet) : Prop := {
  me_edits : Forall commit_edit l;
  me_groups : Forall group_edit l;
  me_complete : expect None l = Some None;
  me_spec : spec_edits env l (start o) = Some a;
  me_core : set_core vs a;
  me_known : known env a;
}.

(** A version set that is in use. *)
Record running (env : Env) (vs : VersionSet) : Prop := {
  ru_core : exists a, set_core vs a /\ known env a;
  ru_plain : plain_set vs;
  ru_counters : counters_ok (counters vs);
  ru_max : is_u32 (max_column_family vs);
}.

Lemma batch_means env o db l a vs B batch vl m size first vs1 : means env o l a vs -> installs env db vs B vl m first -> batch_ok batch ->
  loose <$> batch.*1 = loose <$> B.*1 -> same_but_files vs vs1 ->
  Z.max (default 0 (last_max batch.*1 (ab_param a))) (ab_max a) = max_column_family vs -> is_Some (last_next batch.*1 (ab_next a)) ->
  let vs' := install db first batch vl m size vs1 in
  exists b, means env o (l ++ batch.*1) b vs' /\ set_abs vs' b /\ (is_u32 (max_column_family vs) -> is_u32 (max_column_family vs')).
Proof.
  intros [H1 H2 H3 H4 H5 H6] Hin [B1 B2 B3 _] Hloose Hsame Hmax Hnext vs'.
  destruct (Hin a batch size vs1 H5 H6 Hloose Hsame) as (b & Hb & Hcore & Hknown & Hu & Hp).
  destruct (spec_edits_params env batch.*1 a b Hb) as [Ep En]. exists b. split_and!; [split| |done].
  - apply Forall_app. split; [done|]. apply Forall_fmap. eapply Forall_impl; [exact B1|]. by intros x [? _].
  - by apply Forall_app.
  - by rewrite expect_app, H3.
  - by rewrite spec_edits_app, H4.
  - done.
  - done.
  - split; [done| |by rewrite En]. rewrite Ep. by apply Hp.
Qed.

Lemma snapshot_spec env o db vs a : env_options env kDefaultColumnFamilyName = Some o -> set_core vs a -> known env a -> plain_set vs ->
  exists b, means env o (snapshot_edits db vs).*1 b vs /\ ab_param b = None.
Proof.
  intros Ho Hcore Hknown Hplain. destruct (snapshot_means env db vs a o Hcore Hknown Hplain Ho) as (b & Hb & Hcb & Hkb).
  pose proof (snapshot_entries db vs a Hcore Hplain) as Hent.
  assert (Forall (fun e => commit_edit e /\ EditCodec.atomic_group e = None /\ EditCodec.max_column_family e = None) (snapshot_edits db vs).*1) as Hall.
  { apply Forall_fmap. eapply Forall_impl; [exact Hent|]. by intros x ([? _] & ? & ?). }
  exists b. split; [split; try done|].
  - eapply Forall_impl; [exact Hall|]. by intros e [? _].
  - eapply Forall_impl; [exact Hall|]. unfold group_edit. by intros e (_ & -> & _).
  - clear -Hall. induction Hall as [|e l (_ & He & _) _ IH]; [done|]. cbn. by rewrite He.
  - destruct (spec_edits_params env _ _ b Hb) as [-> _]. apply last_max_none. eapply Forall_impl; [exact Hall|]. by intros e (_ & _ & ?).
Qed.

Lemma last_next_mono l p : is_Some (last_next l None) -> is_Some (last_next l p).
Proof.
  destruct p as [n|]; [|done]. intros _. apply last_next_some. done.
Qed.

Lemma apply_wals_none B w : Forall (fun e => wal_edit e = false) B.*1 -> apply_wals B w = (OK, w).
Proof.
  induction B as [|[e ts] B IH]; intros H; [done|]. cbn in H |- *. apply Forall_cons in H as [He HB]. unfold wal_edit in He.
  apply orb_false_iff in He as [-> ->]. by apply IH.
Qed.

Lemma set_wals_same vs : set_wals (wals vs) vs = vs.
Proof. by destruct vs. Qed.

Section database.
Context {F : Type} `{LogWriter.FileWriterLaws F} (env : Env) (o : CfOptions).
Context (Henv : env_ok env) (Ho : env_options env kDefaultColumnFamilyName = Some o).

(** A database whose MANIFEST means its version set. *)
Definition recoverable (d : Db (F := F)) : Prop :=
  running env (vset d) /\
  exists recs l a, encodes recs l /\ means env o l a (vset d) /\ set_abs (vset d) a /\
    LogWriter.flushed (manifest d) = LogWriter.image false 0 0 recs /\
    match descriptor_log d with Some w => manifest d = LogWriter.dest w /\ log_ok w recs | None => True end.

Definition new_file_ok (io : Io (F := F)) : Prop :=
  forall f, io_new_file io = Some f -> LogWriter.seen_error f = false /\ LogWriter.contents f = [].

(** The log of the batch: records that mean the version set, and the batch. *)
Lemma write_manifest_ok db io new d vs1 batch w current : new_file_ok io -> running env (vset d) -> plain_set vs1 ->
  (new = false -> recoverable d) -> same_but_files (vset d) vs1 -> Forall entry_ok batch ->
  write_manifest db io new vs1 (descriptor_log d) batch = Some (OK, Some w, current) ->
  exists recs l a, encodes recs (l ++ batch.*1) /\ means env o l a (vset d) /\ log_ok w recs /\ current = true /\
    (if new then ab_param a = None else set_abs (vset d) a).
Proof.
  intros Hio Hrun Hplain Hrec Hsame Hbatch. unfold write_manifest. destruct new.
  - destruct (ru_core _ _ Hrun) as (a & Hcore & Hknown). destruct (io_new_file io) as [f|] eqn:Ef; [|done]. destruct (Hio f Ef) as [Hf1 Hf2].
    assert (set_core vs1 a) as Hcore1 by by eapply set_core_files.
    destruct (write_edits _ (snapshot_edits db vs1)) as [[s w1]|] eqn:E1; cbn [mbind option_bind]; [|done]. destruct s; try done.
    assert (Forall entry_ok (snapshot_edits db vs1)) as Hs by (eapply Forall_impl; [by eapply snapshot_entries|]; by intros x [? _]).
    destruct (write_edits_ok _ _ [] _ (new_log_ok f false Hf1 Hf2) Hs E1) as (recs1 & Henc1 & Hlog1).
    destruct (write_edits w1 batch) as [[[] w2]|] eqn:E2; cbn [mbind option_bind]; try done.
    destruct (write_edits_ok _ _ _ _ Hlog1 Hbatch E2) as (recs2 & Henc2 & Hlog2). destruct (io_sync io); [|done]. cbn [negb].
    destruct (io_set_current io); [|done]. intros [= <- <-]. destruct (snapshot_spec env o db vs1 a Ho Hcore1 Hknown Hplain) as (b & Hb & Hpar).
    exists (recs1 ++ recs2), (snapshot_edits db vs1).*1, b. split_and!; try done; [by apply Forall2_app|].
    destruct Hb as [? ? ? ? Hcb ?]. split; try done. eapply set_core_files; [|exact Hcb]. by apply same_files_sym.
  - destruct (Hrec eq_refl) as (_ & recs & l & a & Henc & Hmeans & Habs & _ & Hlog). cbn [mbind option_bind].
    destruct (descriptor_log d) as [w0|]; [|done]. destruct Hlog as [_ Hlog].
    destruct (write_edits w0 batch) as [[[] w2]|] eqn:E2; cbn [mbind option_bind]; try done.
    destruct (write_edits_ok _ _ _ _ Hlog Hbatch E2) as (recs2 & Henc2 & Hlog2). destruct (io_sync io); [|done]. cbn [negb]. intros [= <- <-].
    exists (recs ++ recs2), l, a. split_and!; try done. by apply Forall2_app.
Qed.

(** The first edit is one of the batch. *)
Definition first_alive (vs : VersionSet) (ws : list ManifestWriter) : Prop :=
  forall w first, head ws = Some w -> head (edit_list w) = Some first -> first_in_batch vs w first = true.

Lemma finish_running new in_batch vs B vs1 B' : running env vs -> finish_batch new in_batch vs B = (vs1, B') ->
  Forall2 touched B B' /\ same_but_files vs vs1 /\ running env vs1.
Proof.
  intros [(a & Ha & Hk) Hp Hc Hm] Hfin. destruct (finish_touched new in_batch vs B vs1 B' Hc Hm Hfin) as (Ht & E1 & E2 & E3 & E4 & E5 & Hc1 & E6 & E7).
  assert (same_but_files vs vs1) as Hs by (by split). split_and!; [done|done|]. split; [|split; rewrite ?E4, ?E5; apply Hp|done|by rewrite E3].
  exists a. split; [by eapply set_core_files|done].
Qed.

(** What a batch records for a MANIFEST. *)
Lemma batch_counters new w first a p vs vs1 batch : set_core vs a -> is_u32 (max_column_family vs) ->
  Forall (max_is (max_column_family vs)) (pr_batch p).*1 -> (new = true -> pr_batch p <> [] /\ first_in_batch vs w first = true) ->
  finish_batch new (first_in_batch vs w first) vs (pr_batch p) = (vs1, batch) -> (if new then ab_param a = None else set_abs vs a) ->
  Z.max (default 0 (last_max batch.*1 (ab_param a))) (ab_max a) = max_column_family vs /\ is_Some (last_next batch.*1 (ab_next a)).
Proof.
  intros Hcore Hu Hmax Hnew Hfin Ha. pose proof (sa_max_le _ _ Hcore) as Hle. destruct new.
  - destruct (Hnew eq_refl) as [Hne Hfirst]. rewrite Hfirst in Hfin. destruct Hu as [Hu _].
    destruct (finish_counters vs (pr_batch p) vs1 batch _ Hfin eq_refl Hu Hne Hmax) as [H1 H2]. rewrite Ha, H1. split; [lia|by apply last_next_mono].
  - injection Hfin as <- <-. split; [|apply last_next_some, Ha]. apply append_max; [done|apply Ha|done].
Qed.

Lemma touched_first in_batch first B B' : Forall2 touched B B' ->
  let g (B : list (VersionEdit * option nat)) := if in_batch : bool then default first (fst <$> head B) else first in loose (g B') = loose (g B).
Proof. intros [|x y ? ? (E & _) _]; cbn; destruct in_batch; done. Qed.

Lemma prev_log_loose e : EditCodec.prev_log_number (loose e) = EditCodec.prev_log_number e.
Proof. by destruct e. Qed.

Lemma write_manifest_log db io new vs1 (log : option (LogWriter.Writer F)) batch current : (new = false -> log <> None) ->
  write_manifest db io new vs1 log batch <> Some (OK, None, current).
Proof.
  intros Hlog. unfold write_manifest. destruct new; [destruct (io_new_file io) as [f|]|destruct log as [w|]]; cbn [mbind option_bind]; try done; try (by destruct (Hlog eq_refl)).
  - destruct (write_edits _ (snapshot_edits db vs1)) as [[[] w1]|]; cbn [mbind option_bind]; try done.
    destruct (write_edits w1 batch) as [[[] w2]|]; cbn [mbind option_bind]; try done. by repeat case_match.
  - destruct (write_edits w batch) as [[[] w2]|]; cbn [mbind option_bind]; try done. by repeat case_match.
Qed.

Lemma commit_step db io roll ws d d' : new_file_ok io -> running env (vset d) -> (descriptor_log d <> None -> recoverable d) ->
  request env db (vset d) ws -> (roll = true \/ descriptor_log d = None -> first_alive (vset d) ws) ->
  ProcessManifestWrites db io roll ws d = Some (OK, d') -> recoverable d'.
Proof.
  intros Hio Hrun Hrec Hreq Halive. unfold ProcessManifestWrites. set (vs := vset d) in *.
  destruct (head ws) as [w|] eqn:Ew; [|done]. cbn [mbind option_bind]. destruct (head (edit_list w)) as [first|] eqn:Efirst; [|done]. cbn [mbind option_bind].
  destruct (prepare vs ws first) as [[[] p]|] eqn:Ep; cbn [mbind option_bind]; try done.
  destruct (ru_core _ _ Hrun) as (a0 & Hcore0 & _). pose proof (ru_max _ _ Hrun) as Hu.
  pose proof (prepare_request env db vs a0 ws w first p Henv Hcore0 (ru_counters _ _ Hrun) Hu Hreq Ew Efirst Ep) as Hp.
  set (new := roll || _). set (in_batch := first_in_batch vs w first).
  assert (new = true -> pr_batch p <> [] /\ in_batch = true) as Hnew.
  { intros [Hr|Hn%bool_decide_eq_true]%orb_true_iff; (assert (in_batch = true) as Hi by (apply Halive; [by eauto|done|done])); split; try done; by apply Hp. }
  destruct (finish_batch new in_batch vs (pr_batch p)) as [vs1 batch] eqn:Efin. set (first' := if in_batch then _ else _).
  destruct (if _ || _ then OK else load_versions db _); try done.
  destruct (write_manifest db io new vs1 (descriptor_log d) batch) as [[[s log] current]|] eqn:Ewm; cbn [mbind option_bind]; [|done].
  assert (new = false -> descriptor_log d <> None) as Hold by (intros Hn Hd; unfold new in Hn; by rewrite Hd, orb_true_r in Hn).
  destruct s; try (by destruct log). destruct log as [lw|]; [|by apply write_manifest_log in Ewm].
  destruct (finish_running new in_batch vs _ vs1 batch Hrun Efin) as (Ht & Hsame & Hrun1).
  pose proof (batch_touched _ _ Ht (po_batch _ _ _ _ _ _ Hp)) as Hb. rewrite apply_wals_none by apply Hb. rewrite set_wals_same.
  destruct (write_manifest_ok db io new d vs1 batch lw current Hio Hrun (ru_plain _ _ Hrun1)) as (recs & l & a & Henc & Hmeans & Hlog & -> & Ha); try done; [|apply Hb|].
  { intros Hn. by apply Hrec, Hold. }
  assert (loose first' = loose (first_edit vs w first (pr_batch p))) as Hfirst' by (by apply touched_first).
  destruct (batch_counters new w first a p vs vs1 batch (me_core _ _ _ _ _ Hmeans) Hu (po_max _ _ _ _ _ _ Hp) Hnew Efin Ha) as [Hmax Hnext].
  set (size := Z.of_nat _). intros [= <-].
  destruct (batch_means env o db l a vs (pr_batch p) batch (pr_versions p) (pr_max_sequence p) size first' vs1 Hmeans
    (po_install _ _ _ _ _ _ Hp first' Hfirst') Hb (touched_loose _ _ Ht) Hsame Hmax Hnext) as (b & Hmb & Hab & Hub).
  split; cbn [vset descriptor_log manifest].
  - destruct (install_rest db first' batch (pr_versions p) (pr_max_sequence p) size vs1) as (I1 & I2 & I3 & I4 & _). split.
    + exists b. split; [apply Hmb|apply Hmb].
    + split; rewrite ?I1, ?I2; apply Hrun1.
    + split; [rewrite I3; apply Hrun1|]. rewrite I4, <- prev_log_loose, Hfirst', prev_log_loose. apply Hp.
    + by apply Hub.
  - exists recs, (l ++ batch.*1), b. split_and!; try done. apply Hlog.
Qed.

(** A commit that fails leaves the families, and the next one writes a new MANIFEST. *)
Lemma failed_step db io roll ws d s d' : running env (vset d) -> request env db (vset d) ws ->
  ProcessManifestWrites db io roll ws d = Some (s, d') -> s <> OK ->
  running env (vset d') /\ same_but_files (vset d) (vset d') /\ (d' = d \/ descriptor_log d' = None).
Proof.
  intros Hrun Hreq Hpmw Hs. assert (same_but_files (vset d) (vset d)) as Hrefl by done. revert Hpmw. unfold ProcessManifestWrites.
  destruct (head ws) as [w|] eqn:Ew; [|done]. cbn [mbind option_bind]. destruct (head (edit_list w)) as [first|] eqn:Efirst; [|done]. cbn [mbind option_bind].
  destruct (prepare (vset d) ws first) as [[s0 p]|] eqn:Ep; cbn [mbind option_bind]; [|done].
  destruct (decide (s0 = OK)) as [->|Hs0]; [|destruct s0; try done; intros [= <- <-]; split_and!; try done; by left].
  destruct (ru_core _ _ Hrun) as (a0 & Hcore0 & _).
  pose proof (prepare_request env db (vset d) a0 ws w first p Henv Hcore0 (ru_counters _ _ Hrun) (ru_max _ _ Hrun) Hreq Ew Efirst Ep) as Hp.
  destruct (finish_batch _ _ _ _) as [vs1 batch] eqn:Efin. destruct (finish_running _ _ _ _ _ _ Hrun Efin) as (Ht & Hsame & Hrun1).
  pose proof (batch_touched _ _ Ht (po_batch _ _ _ _ _ _ Hp)) as Hb.
  destruct (if _ || _ then OK else load_versions db _); try (intros [= <- <-]; split_and!; try done; by right).
  destruct (write_manifest _ _ _ _ _ _) as [[[s1 log] current]|]; cbn [mbind option_bind]; [|done].
  destruct s1, log; try (intros [= <- <-]; split_and!; try done; by right).
  rewrite apply_wals_none by apply Hb. by intros [= <- _].
Qed.

(** ** Opening *)

Lemma same_set_family c c' f : same_family c c' -> set_family c f -> set_family c' f.
Proof. intros [E1 E2 E3 E4 E5] H1. split; rewrite ?E1, ?E2, ?E3, ?E4, ?E5; apply H1. Qed.

Lemma same_database_abs vs vs' a : same_database vs vs' -> set_abs vs a -> set_abs vs' a.
Proof.
  intros [E1 E2 E3 E4 E5 E6] [Hcore Hmax Hnext]. split; [|by rewrite E2|done].
  split; rewrite ?E1, ?E2, ?E5, ?E6; try apply Hcore.
  - intros id f Hf. destruct (sa_families _ _ Hcore id f Hf) as (c & Hc & Hs). specialize (E3 id). rewrite Hc in E3.
    inversion E3 as [? c' Hcc Ex Ec|]; subst. exists c'. split; [done|]. by eapply same_set_family.
  - intros id Hid. specialize (E3 id). rewrite (sa_others _ _ Hcore id Hid) in E3. by inversion E3.
Qed.

Lemma means_same l a vs vs' : set_core vs' a -> means env o l a vs -> means env o l a vs'.
Proof. intros H1 [? ? ? ? ? ?]. by split. Qed.

End database.

End Durable.
