(* ===== verification/Lifecycle.v ===== *)
(** * The life of a database

    A database is created ([NewDB]), opened ([Recover]), and changed by commits
    ([ProcessManifestWrites]) that succeed or fail.  Whenever its last commit succeeded, the
    MANIFEST is recovered as the version set that was in use. *)

From Stdlib Require Import ZArith Lia.
From stdpp Require Import base numbers list sorting gmap sets.
From S2P Require Import Prelude Version Coding WalEdit FileCodec EditCodec LogWriter LogReader Log Storage Builder BuilderSpec BuilderSave Build Recover Replay LogApply GroupCommit Crash ManifestSpec StoredEdit CommitSpec GroupSpec Snapshot Durable.

Import Coding FileCodec LogReader Storage Builder BuilderSpec BuilderSave Recover Replay LogApply GroupCommit ManifestSpec StoredEdit CommitSpec GroupSpec Snapshot Durable.
Local Open Scope Z_scope.

Module Lifecycle.

(** ** The first MANIFEST *)

Section new_database.
Context (env : Env) (o : CfOptions) (Hok : options_ok o) (Ho : env_options env kDefaultColumnFamilyName = Some o).

(** The version set of an empty database. *)
Definition empty_set : VersionSet :=
  mkVersionSet {[0 := mkCfd kDefaultColumnFamilyName o 0 [] 1 (new_storage (opt_num_levels o) None kMustPresent)]} [0] 0 WalEdit.Reset []
    (mkCounters 2 0 0 0 0 0 0 0).

Definition string_ok (id : option (list Z)) : Prop := forall s, id = Some s -> is_slice s /\ is_bytes s.

Lemma new_db_commit id : string_ok id -> commit_edit (new_db_edit id).
Proof.
  intros Hid. split; [split; [split|split|..]|]; cbn; try done; try (by constructor); try (by intros ? [= <-]); intros s Hs; by apply Hid.
Qed.

Lemma new_db_means id : string_ok id -> exists a, means env o [new_db_edit id] a empty_set /\ set_abs empty_set a.
Proof.
  intros Hid. set (f := mkFamily kDefaultColumnFamilyName o 0 empty_state).
  destruct (spec_edit_change env (start o) (new_db_edit id) f empty_state) as (b & Hb & B1 & B2 & B3 & B4 & B5 & B6 & B7 & B8); try done.
  cbn in B1, B2, B3, B4, B5, B6, B7, B8. rewrite insert_singleton_eq in B1. change (fam_log f) with 0 in B1. exists b.
  assert (set_core empty_set b) as Hcore.
  { split; rewrite ?B1, ?B2, ?B3, ?B4, ?B5, ?B8; cbn; try done.
    - apply NoDup_singleton.
    - intros i. rewrite list_elem_of_singleton, lookup_singleton. case_decide; naive_solver.
    - by intros i ->%list_elem_of_singleton.
    - intros i g [<- <-]%lookup_singleton_Some. eexists. split; [apply lookup_singleton_eq|]. apply empty_family; try done. by vm_compute; repeat constructor.
    - intros i. by rewrite !lookup_singleton_None.
    - by intros i ->%list_elem_of_singleton. }
  split; [split; try done|].
  - constructor; [by apply new_db_commit|constructor].
  - constructor; [done|constructor].
  - split; rewrite B1.
    + by intros i g [<- <-]%lookup_singleton_Some.
    + eexists. split; [apply lookup_singleton_eq|done].
  - split; [done| |by rewrite B6]. by rewrite B7, B3.
Qed.

End new_database.

(** ** Reachable databases *)

Section life.
Context {F : Type} `{LogWriter.FileWriterLaws F} {D : Type} (stream : Streaming D) (cfg : Config) (env : Env).

(** The MANIFEST in [f] is recovered as the version set [vs], with enough fuel. *)
Definition recovers (f : F) (vs : VersionSet) : Prop :=
  exists n, forall fuel, (n <= fuel)%nat -> Recover stream cfg env fuel (new_reader (LogWriter.flushed f) []) = Some (OK, vs).

(** The file is not longer than what recovery reads. *)
Definition readable (f : F) : Prop :=
  LogWriter.size (LogWriter.flushed f) < max_manifest_read_size env /\ LogWriter.size (LogWriter.flushed f) <= u64_max.

(** The flag says whether the MANIFEST is that of the version set: this is so unless a
    commit failed after it wrote to the MANIFEST in use. *)
Inductive reachable : bool -> Db (F := F) -> Prop :=
| reach_new io id f vs : new_file_ok io -> string_ok id -> NewDB io id = Some (OK, Some f) -> readable f -> recovers f vs ->
    reachable true (mkDb vs None f)
| reach_open d vs : reachable true d -> readable (manifest d) -> recovers (manifest d) vs -> reachable true (mkDb vs None (manifest d))
| reach_commit clean db io roll ws d d' : reachable clean d -> new_file_ok io -> request env db (vset d) ws ->
    (roll = true \/ descriptor_log d = None -> first_alive (vset d) ws) ->
    ProcessManifestWrites db io roll ws d = Some (OK, d') -> reachable true d'
| reach_fail clean clean' db io roll ws d s d' : reachable clean d -> request env db (vset d) ws ->
    ProcessManifestWrites db io roll ws d = Some (s, d') -> s <> OK -> (clean' = true -> clean = true /\ manifest d' = manifest d) ->
    reachable clean' d'
| reach_file clean n d : reachable clean d -> is_u64 n ->
    reachable clean (mkDb (set_counters (set_next_file n (counters (vset d))) (vset d)) (descriptor_log d) (manifest d)).

Context (o : CfOptions) (Henv : env_ok env) (Htables : tables_ok env) (Ho : name_to_options env !! kDefaultColumnFamilyName = Some o).

Lemma default_options : env_options env kDefaultColumnFamilyName = Some o.
Proof. unfold env_options. by rewrite decide_False. Qed.

Lemma recoverable_recovers d : recoverable env o d -> readable (manifest d) ->
  exists vs, recovers (manifest d) vs /\ same_database (vset d) vs /\ recoverable env o (mkDb vs None (manifest d)).
Proof.
  intros ([_ _ _ Hu] & recs & l & a & Henc & Hm & Habs & Hf & _) [HN HN']. unfold recovers. rewrite Hf in *.
  destruct (recover_log stream cfg env o recs l a (vset d) Henv Htables Ho Henc (me_edits _ _ _ _ _ Hm) (me_groups _ _ _ _ _ Hm)
    (me_complete _ _ _ _ _ Hm) (me_spec _ _ _ _ _ Hm) Habs HN HN') as (n & vs & Hrec & Hsame & Hplain & Hcounters).
  exists vs. split; [by exists n|]. split; [done|]. pose proof (same_database_abs _ _ _ Hsame Habs) as Habs'. split; cbn.
  - split; try done; [|by rewrite (sd_max _ _ Hsame)]. exists a. split; [apply Habs'|apply Hm].
  - exists recs, l, a. split_and!; try done. eapply means_same; [apply Habs'|done].
Qed.

Lemma recovers_unique f vs vs' : recovers f vs -> recovers f vs' -> vs = vs'.
Proof. intros [n H1] [m H2]. specialize (H1 (max n m) ltac:(lia)). rewrite H2 in H1 by lia. congruence. Qed.

Lemma NewDB_means io id f : new_file_ok io -> string_ok id -> NewDB io id = Some (OK, Some f) ->
  recoverable env o (mkDb (empty_set o) None f).
Proof.
  intros Hio Hid. unfold NewDB. destruct (io_new_file io) as [f0|] eqn:Ef; [|done]. destruct (Hio f0 Ef) as [Hf1 Hf2].
  pose proof default_options as Hdef. pose proof (Henv _ _ Hdef) as Hok. rewrite EncodeTo_none by done.
  destruct (EditCodec.EncodeTo (Some 0%nat) (new_db_edit id)) as [record|] eqn:Er; [|done]. cbn [mbind option_bind].
  destruct (LogWriter.AddRecord _ record 0) as [[w [|]]|] eqn:Ea; cbn [mbind option_bind andb]; try done.
  destruct (io_sync io); [|done]. destruct (io_set_current io); [|done]. intros [= <-].
  pose proof (add_record_ok _ [] record w (new_log_ok f0 false Hf1 Hf2) Ea) as Hlog. destruct (new_db_means env o Hok Hdef id Hid) as (a & Hm & Habs).
  split; cbn.
  - split; [exists a; split; apply Hm|split; [done|split; [done|constructor]]|done|done].
  - exists [record], [new_db_edit id], a. split_and!; try done; [by repeat constructor|apply Hlog].
Qed.

(** Counters of files are not part of what the MANIFEST means. *)
Lemma recoverable_files d d' : recoverable env o d -> manifest d' = manifest d -> descriptor_log d' = None \/ descriptor_log d' = descriptor_log d ->
  same_but_files (vset d) (vset d') -> running env (vset d') -> recoverable env o d'.
Proof.
  intros (_ & recs & l & a & Henc & Hm & [Hcore Hmax Hnext] & Hf & Hlog) Ef El Hsame Hrun. split; [done|].
  assert (set_core (vset d') a) as Hcore' by by eapply set_core_files. exists recs, l, a. rewrite Ef. split_and!; try done.
  - by eapply means_same.
  - split; [done|by rewrite (sb_max _ _ Hsame)|done].
  - destruct El as [-> | ->]; done.
Qed.

Lemma reachable_recoverable clean d : reachable clean d -> running env (vset d) /\ (clean = true \/ descriptor_log d <> None -> recoverable env o d).
Proof.
  induction 1 as [io id f vs Hio Hid Hnew Hread Hrec|d vs Hd [Hrun IH] Hread Hrec|clean db io roll ws d d' Hd [Hrun IH] Hio Hreq Hal Hc
    |clean clean' db io roll ws d s d' Hd [Hrun IH] Hreq Hc Hs Hcl|clean n d Hd [Hrun IH] Hn].
  - destruct (recoverable_recovers _ (NewDB_means io id f Hio Hid Hnew) Hread) as (vs' & Hrec' & _ & Hr).
    rewrite (recovers_unique _ _ _ Hrec Hrec'). split; [apply Hr|done].
  - destruct (recoverable_recovers d (IH (or_introl eq_refl)) Hread) as (vs' & Hrec' & _ & Hr). rewrite (recovers_unique _ _ _ Hrec Hrec'). split; [apply Hr|done].
  - assert (recoverable env o d') as Hr by (refine (commit_step env o Henv default_options db io roll ws d d' Hio Hrun _ Hreq Hal Hc); auto). split; [apply Hr|done].
  - destruct (failed_step env Henv db io roll ws d s d' Hrun Hreq Hc Hs) as (Hrun' & Hsame & Hlog). split; [done|]. intros Hcl'.
    destruct (decide (clean' = true)) as [->|Hnc].
    + destruct (Hcl eq_refl) as [-> Hm]. eapply recoverable_files; [apply IH; by left|done|destruct Hlog as [-> | ->]; [by right|by left]|done|done].
    + destruct Hcl' as [?|Hl]; [done|]. destruct Hlog as [-> | ?]; [|done]. apply IH. by right.
  - assert (running env (set_counters (set_next_file n (counters (vset d))) (vset d))) as Hrun'.
    { destruct Hrun as [(a & Ha & Hk) [P1 P2] [C1 C2] Hu]. split; [|done|done|done]. exists a. split; [|done]. by apply (set_core_files (vset d)). }
    split; [done|]. intros Hcl. eapply recoverable_files; [by apply IH|done|by right|done|done].
Qed.

(** Fuel beyond what a recovery needs changes nothing. *)
Lemma iterate_loop_mono fuel fuel' n : forall n' s h (r : Reader D) out, (fuel <= fuel')%nat -> (n <= n')%nat ->
  iterate_loop stream cfg fuel env n s h r = Some out -> iterate_loop stream cfg fuel' env n' s h r = Some out.
Proof.
  induction n as [|n IH]; intros [|n'] s h r out Hf Hn E; try done; [lia|]. cbn [iterate_loop] in *. destruct (negb _); [done|]. destruct s; try done.
  destruct (ReadRecord stream cfg fuel _ r) as [[r1 x]|] eqn:E1; [|done]. unfold ReadRecord in *. rewrite (record_loop_mono _ _ _ _ _ _ _ _ E1) by done.
  cbn [mbind option_bind] in *. destruct x as [rec|]; [|done]. destruct (log_read_status r1); try done.
  destruct (on_record env rec h) as [[s2 h2]|]; [|done]. cbn [mbind option_bind] in *. apply IH; [done|lia|done].
Qed.

Lemma recovers_at fuel (f : F) vs : Recover stream cfg env fuel (new_reader (LogWriter.flushed f) []) = Some (OK, vs) -> recovers f vs.
Proof.
  intros E. exists fuel. intros fuel' Hf. revert E. unfold Recover, Iterate. destruct (Initialize env new_handler) as [s h].
  destruct (iterate_loop stream cfg fuel env fuel s h _) as [[[s1 h1] r1]|] eqn:E1; [|done].
  by rewrite (iterate_loop_mono fuel fuel' fuel fuel' _ _ _ _ Hf Hf E1).
Qed.

End life.

(** ** Claims *)




(** ** Examples *)

Definition life_options : CfOptions := GroupCommit.example_cf_options.

(** The options of the default column family and of one more. *)
Definition life_env : Env :=
  mkEnv (<[kDefaultColumnFamilyName := life_options]> {[[97] := life_options]}) life_options false kMustPresent false false true (fun _ _ => (OK, false)) 1000000.

Definition life_io : Io (F := Log.Faulty) := mkIo (Some (Log.mkFaulty [] false [])) true true false.
Definition life_db : DbOptions := mkDbOptions true true true life_options (fun _ _ => OK).

(** A database that was created and opened. *)
Definition new_manifest : Log.Faulty := match NewDB life_io None with Some (_, Some f) => f | _ => Log.mkFaulty [] true [] end.

Definition opened_set : VersionSet :=
  mkVersionSet {[0 := GroupCommit.example_cfd kDefaultColumnFamilyName]} [0] 0 WalEdit.Reset [] (mkCounters 3 0 0 0 0 0 0 13).

Definition opened : Db := mkDb opened_set None new_manifest.

(** A flush, for which a new MANIFEST is started, and a new column family. *)
Definition flush_edit : VersionEdit :=
  EditCodec.set_log_number (Some 4) (EditCodec.AddFile 0 (Build.example_file 7 0 1 [97] [98]) EditCodec.empty_edit).
Definition flush_group : list ManifestWriter := [mkManifestWriter 0 [flush_edit]].

Definition create_edit : VersionEdit :=
  EditCodec.set_log_number (Some 5) (EditCodec.set_comparator (Some kDefaultColumnFamilyName)
    (EditCodec.set_column_family 1 (EditCodec.set_column_family_add (Some [97]) EditCodec.empty_edit))).
Definition create_group : list ManifestWriter := [mkManifestWriter 1 [create_edit]].

Definition commit (ws : list ManifestWriter) (d : Db) : Db :=
  match ProcessManifestWrites life_db life_io false ws d with Some (_, d') => d' | None => d end.

Definition flushed_db : Db := commit flush_group opened.
Definition created_db : Db := commit create_group flushed_db.

Lemma life_env_ok : env_ok life_env /\ tables_ok life_env.
Proof.
  split; [|done]. assert (options_ok life_options) as Hok.
  { split; cbn; try done; try lia; [apply _|]. split; [done|]. by apply (bool_decide_unpack _). }
  intros name o. unfold env_options. case_decide; [by intros [= <-]|]. cbn. intros [[_ <-]|[_ [_ <-]%lookup_singleton_Some]]%lookup_insert_Some; done.
Qed.

Lemma life_commits : NewDB life_io None = Some (OK, Some new_manifest) /\
  Recover LogReader.no_stream Crash.example_cfg life_env 200 (new_reader (LogWriter.flushed new_manifest) []) = Some (OK, opened_set) /\
  ProcessManifestWrites life_db life_io false flush_group opened = Some (OK, flushed_db) /\
  ProcessManifestWrites life_db life_io false create_group flushed_db = Some (OK, created_db).
Proof. vm_compute. split_and!; reflexivity. Qed.

Lemma life_io_ok : new_file_ok life_io.
Proof. by intros f [= <-]. Qed.

Lemma flush_request : request life_env life_db opened_set flush_group.
Proof.
  apply request_changes. assert (stored_edit flush_edit) as Hs.
  { split; [split|split|..]; cbn; try done; try (by constructor); try (by intros ? [= <-]).
    constructor; [|constructor]. split; by apply (bool_decide_unpack _). }
  split.
  - constructor; [|constructor]. split; [done|]. constructor; [|constructor]. split; [|done]. split; try done.
    + intros s [= <-]. done.
    + intros c [= <-]. by apply (bool_decide_unpack _).
  - by repeat constructor.
  - done.
Qed.

Lemma create_request : request life_env life_db (vset flushed_db) create_group.
Proof.
  apply (request_add _ _ _ 1 create_edit [97]). split; try done.
  - split; [split; [split|split|..]|]; cbn; try done; try (by constructor); try (by intros ? [= <-]).
    all: intros ? [= <-]; by apply (bool_decide_unpack _).
Qed.

(** A small MANIFEST is readable. *)
Lemma life_readable (f : Log.Faulty) : (LogWriter.size (LogWriter.flushed f) <? 1000000) = true -> readable life_env f.
Proof. intros H%Z.ltb_lt. split; [exact H|]. etrans; [by apply Z.lt_le_incl|done]. Qed.

Lemma opened_reachable : reachable LogReader.no_stream Crash.example_cfg life_env true opened.
Proof.
  destruct life_commits as (H1 & H2 & _). apply (reach_new LogReader.no_stream Crash.example_cfg life_env life_io None).
  - exact life_io_ok.
  - by intros ?.
  - exact H1.
  - apply life_readable. vm_compute. reflexivity.
  - exact (recovers_at _ _ _ 200 _ _ H2).
Qed.

Lemma flush_alive : first_alive opened_set flush_group.
Proof. intros w first [= <-] [= <-]. vm_compute. reflexivity. Qed.

Lemma created_reachable : reachable LogReader.no_stream Crash.example_cfg life_env true created_db.
Proof.
  destruct life_commits as (_ & _ & H3 & H4).
  assert (reachable LogReader.no_stream Crash.example_cfg life_env true flushed_db) as Hflush.
  { apply (reach_commit _ _ _ true life_db life_io false flush_group opened); [exact opened_reachable|exact life_io_ok|exact flush_request| |exact H3].
    intros _. exact flush_alive. }
  apply (reach_commit _ _ _ true life_db life_io false create_group flushed_db); [exact Hflush|exact life_io_ok|exact create_request| |exact H4].
  intros _ w first [= <-] [= <-]. reflexivity.
Qed.



(** The sync of the new MANIFEST fails. *)
Definition broken_io : Io (F := Log.Faulty) := mkIo (Some (Log.mkFaulty [] false [])) false true false.


(** *** A writer of a dropped column family at the front *)

(** Column families 0 and 2 of a database that had families up to 5. *)
Definition dropped_set : VersionSet :=
  mkVersionSet (<[0 := GroupCommit.example_cfd kDefaultColumnFamilyName]> {[2 := GroupCommit.example_cfd [97]]}) [0; 2] 5
    WalEdit.Reset [] (mkCounters 20 0 0 0 0 0 5 0).

(** An atomic flush of the dropped family 1 and of family 2. *)
Definition dropped_group : list ManifestWriter :=
  [mkManifestWriter 1 [GroupCommit.example_add 1 1 8]; mkManifestWriter 2 [GroupCommit.example_add 2 0 9]].

Definition dropped_db : Db := mkDb dropped_set None new_manifest.

Definition recovered_set (f : Log.Faulty) : VersionSet :=
  match Recover LogReader.no_stream Crash.example_cfg life_env 200 (new_reader (LogWriter.flushed f) []) with Some (_, vs) => vs | None => new_version_set end.


End Lifecycle.
