(* ===== verification/Reservation.v ===== *)
(** * Reserved keys

    [UniqueKeyReservation] of [tools/db_bench_tool.cc]: the bitmap of the keys that
    materialized files have taken.  Each operation is shown to be the one of the
    set of taken keys.  The words are atomics with relaxed operations of one word
    each; an operation is modelled as one step. *)

From Stdlib Require Import ZArith Lia Bool.
From stdpp Require Import base numbers list sorting gmap.
From S2P Require Import Prelude Bitmap.

Local Open Scope Z_scope.

Module Reservation.
Import Bits.

(** ** Operations *)

Record t := mk { bits_ : list Z; key_domain : Z }.

Definition Create (key_domain max_bytes : Z) : option t :=
  if decide (key_domain = 0) then None
  else if decide (max_bytes / 8 < words_of key_domain) then None
  else Some (mk (replicate (Z.to_nat (words_of key_domain)) 0) key_domain).

Definition bytes (r : t) : Z := Z.of_nat (length (bits_ r)) *% 8.

(** Takes a key: whether it was free.  [None]: the word is past the end. *)
Definition Take (key : Z) (r : t) : option (bool * t) :=
  match fetch_or key (bits_ r) with
  | None => None
  | Some (w, ws) =>
      Some (bool_decide (Z.land w (Z.shiftl 1 (Z.land key 63)) = 0), mk ws (key_domain r))
  end.

Definition free_word (r : t) (word : Z) : Z := not64 (load (bits_ r) word).

Definition CountFree (first last : Z) (r : t) : Z :=
  ForEachWord (count_step (free_word r)) (key_domain r) first last 0.

Definition NextFree (first last : Z) (r : t) : option Z :=
  ForEachWord (next_step (free_word r)) (key_domain r) first last None.

Definition SelectFree (first last rank : Z) (r : t) : option Z :=
  (ForEachWord (select_step (free_word r)) (key_domain r) first last (rank, None)).2.

Definition TakenTotal (r : t) : Z := total (bits_ r).

(** Taking keys one after the other, as the materialized files do. *)
Fixpoint take_all (keys : list Z) (r : t) : option (list bool * t) :=
  match keys with
  | [] => Some ([], r)
  | k :: keys' =>
      match Take k r with
      | None => None
      | Some (ok, r) =>
          match take_all keys' r with Some (oks, r) => Some (ok :: oks, r) | None => None end
      end
  end.

(** ** Abstraction *)

(** The free keys of a range, ascending. *)
Definition free_keys (s : gset Z) (d first last : Z) : list Z :=
  filter (fun k => k ∉ s) (seqZ first (clamp d last - first + 1)).

Definition models (r : t) (s : gset Z) : Prop := holds (bits_ r) (key_domain r) s.

Lemma Create_models d max_bytes r : is_u64 d -> d <= u64_max - 63 -> Create d max_bytes = Some r -> models r ∅.
Proof.
  unfold Create. intros Hd Hm. unfold is_u64 in Hd. destruct (decide _) as [|H0]; [done|].
  destruct (decide _); [done|]. intros [= <-]. apply holds_empty. cbn [key_domain]. lia.
Qed.

(** [Take] adds the key to the set, and reports whether it was new. *)
Lemma Take_models key r s : models r s -> 0 <= key < key_domain r ->
  exists r', Take key r = Some (bool_decide (key ∉ s), r') /\ models r' ({[key]} ∪ s) /\ key_domain r' = key_domain r.
Proof.
  intros Hh Hk. destruct (fetch_or_holds key _ _ _ Hh Hk) as (w & ws & Hf & Hh' & Hz).
  exists (mk ws (key_domain r)). split_and!; [|done|done]. unfold Take. rewrite Hf.
  do 2 f_equal. by apply bool_decide_ext.
Qed.

Lemma free_keys_spec r s first last : models r s -> 0 <= first ->
  domain_keys (free_word r) (key_domain r) first last = free_keys s (key_domain r) first last.
Proof.
  intros Hh Hf. apply domain_keys_holds; [done|]. intros k Hk. pose proof (h_words _ _ _ Hh).
  rewrite <- (h_bits _ _ _ Hh) by (Z.to_euclidean_division_equations; lia). unfold key_bit, free_word.
  rewrite testbit_not64 by (apply Z.mod_pos_bound; lia). by destruct (Z.testbit _ _).
Qed.

Lemma take_all_models keys : forall r s, models r s -> Forall (fun k => 0 <= k < key_domain r) keys ->
  exists oks r', take_all keys r = Some (oks, r') /\ models r' (list_to_set keys ∪ s) /\
    (Forall (eq true) oks <-> NoDup keys /\ forall k, k ∈ keys -> k ∉ s).
Proof.
  induction keys as [|k keys IH]; intros r s Hh Hk; cbn [take_all].
  - exists [], r. split_and!; [done| |].
    + cbn [list_to_set]. eapply eq_ind; [exact Hh|]. set_solver.
    + split; [|by constructor]. intros _. split; [constructor|]. intros k Hin. by apply elem_of_nil in Hin.
  - apply Forall_cons in Hk as [Hk Hks]. destruct (Take_models k r s Hh Hk) as (r1 & -> & Hh1 & Hd).
    destruct (IH r1 _ Hh1) as (oks & r' & -> & Hh' & Hoks); [by rewrite Hd|].
    exists (bool_decide (k ∉ s) :: oks), r'. split_and!; [done| |].
    + eapply eq_ind; [exact Hh'|]. set_solver.
    + rewrite Forall_cons, Hoks, NoDup_cons.
      assert (true = bool_decide (k ∉ s) <-> k ∉ s) as ->.
      { case_bool_decide; split; try done. }
      set_solver.
Qed.

Lemma queries_spec r s first last rank : models r s -> 0 <= first -> is_u64 rank ->
  CountFree first last r = Z.of_nat (length (free_keys s (key_domain r) first last)) /\
  NextFree first last r = head (free_keys s (key_domain r) first last) /\
  SelectFree first last rank r = free_keys s (key_domain r) first last !! Z.to_nat rank /\
  TakenTotal r = Z.of_nat (size s).
Proof.
  intros Hr Hf Hk. rewrite <- free_keys_spec by done. pose proof (h_domain _ _ _ Hr).
  split_and!; [apply scan_count|apply scan_next|apply scan_select|by eapply total_holds]; try done; lia.
Qed.

Lemma elem_of_free_keys s d first last k : (k ∈ free_keys s d first last) <-> (k ∉ s) /\ first <= k <= clamp d last.
Proof. unfold free_keys. rewrite list_elem_of_filter, elem_of_seqZ. intuition lia. Qed.

Lemma free_keys_sorted s d first last : StronglySorted Z.lt (free_keys s d first last).
Proof. apply StronglySorted_filter, seqZ_sorted. Qed.

(** [NextFree] finds the least free key. *)
Lemma NextFree_least r s first last x : models r s -> 0 <= first -> x ∉ s -> first <= x <= clamp (key_domain r) last ->
  (forall y, y ∉ s -> first <= y <= clamp (key_domain r) last -> x <= y) -> NextFree first last r = Some x.
Proof.
  intros Hr Hf Hx Hrange Hleast. destruct (queries_spec r s first last 0 Hr Hf ltac:(by vm_compute)) as (_ & -> & _).
  assert (x ∈ free_keys s (key_domain r) first last) as Hin by (by apply elem_of_free_keys).
  pose proof (free_keys_sorted s (key_domain r) first last) as Hs.
  destruct (free_keys s (key_domain r) first last) as [|y l] eqn:E; [by apply elem_of_nil in Hin|]. cbn. f_equal.
  assert (y ∈ free_keys s (key_domain r) first last) as Hy by (rewrite E; by left).
  apply elem_of_free_keys in Hy as [Hy1 Hy2]. pose proof (Hleast y Hy1 Hy2) as Hxy.
  apply elem_of_cons in Hin as [->|Hin]; [done|]. apply StronglySorted_inv in Hs as [_ Hs].
  rewrite Forall_forall in Hs. specialize (Hs x Hin). lia.
Qed.

(** ** Properties *)

(** On a bitmap that holds the set [s], the queries are those of the set: the
    number of free keys of an inclusive range clamped to the domain, the lowest
    one, the one at a rank, and the number of taken keys. *)
Theorem queries_refine_set r s first last rank (Hr : models r s) (Hf : 0 <= first) (Hk : is_u64 rank) :
  CountFree first last r = Z.of_nat (length (free_keys s (key_domain r) first last)) /\
  NextFree first last r = head (free_keys s (key_domain r) first last) /\
  SelectFree first last rank r = free_keys s (key_domain r) first last !! Z.to_nat rank /\
  TakenTotal r = Z.of_nat (size s).
Proof. by apply queries_spec. Qed.

(** A domain of 100 keys in two words, with the keys 3 and 70 taken. *)
Definition sample : t := mk [2 ^ 3; 2 ^ 6] 100.

Lemma sample_models : models sample {[3; 70]}.
Proof.
  assert (take_all [70; 3] (mk [0; 0] 100) = Some ([true; true], sample)) as Ht by reflexivity.
  destruct (take_all_models [70; 3] (mk [0; 0] 100) ∅) as (oks & r & Hr & Hh & _).
  - apply (Create_models 100 16); [done|by vm_compute|reflexivity].
  - repeat constructor; cbn; lia.
  - rewrite Ht in Hr. injection Hr as <- <-. eapply eq_ind; [exact Hh|]. set_solver.
Qed.

Lemma queries_refine_set_witness :
  (CountFree 60 200 sample, NextFree 3 5 sample, SelectFree 60 200 10 sample) = (39, Some 4, Some 71) /\
  CountFree 60 200 sample = Z.of_nat (length (free_keys {[3; 70]} 100 60 200)) /\
  NextFree 60 200 sample = head (free_keys {[3; 70]} 100 60 200) /\
  SelectFree 60 200 10 sample = free_keys {[3; 70]} 100 60 200 !! 10%nat /\
  TakenTotal sample = Z.of_nat (size ({[3; 70]} : gset Z)).
Proof.
  split; [by vm_compute|].
  exact (queries_refine_set sample {[3; 70]} 60 200 10 sample_models
    (bool_decide_unpack (0 <= 60) I) (conj (bool_decide_unpack (0 <= 10) I) (bool_decide_unpack (10 <= u64_max) I))).
Defined.

(** A domain of more than [2^64 - 64] keys, which a trace header can ask for,
    wraps to a bitmap without words, whatever the budget: the check that refuses
    an oversized domain passes, and no key can be taken in bounds. *)
Theorem Create_wraps d max_bytes (Hd : u64_max - 63 < d <= u64_max) (Hb : 0 <= max_bytes) :
  Create d max_bytes = Some (mk [] d) /\ forall key, Take key (mk [] d) = None.
Proof.
  unfold Create, words_of, u64. unfold u64_max in *.
  replace ((d + 63) mod 2 ^ 64) with (d + 63 - 2 ^ 64) by (apply Z.mod_unique with 1; lia).
  rewrite (Z.div_small (d + 63 - 2 ^ 64)) by lia. rewrite decide_False by lia.
  rewrite decide_False by (pose proof (Z.div_pos max_bytes 8); lia). by split.
Qed.

Lemma Create_wraps_witness : Create u64_max 1048576 = Some (mk [] u64_max).
Proof. apply (Create_wraps u64_max 1048576); [unfold u64_max|]; lia. Defined.

(** From a created bitmap, taking keys of the domain always succeeds in
    bounds, and the total taken at the end equals the number of keys taken exactly
    when no key was taken twice, which is when every [Take] returned true. *)
Theorem TakenTotal_oracle d max_bytes r keys (Hd : is_u64 d) (Hm : d <= u64_max - 63)
    (Hc : Create d max_bytes = Some r) (Hkeys : Forall (fun k => 0 <= k < d) keys) :
  exists oks r', take_all keys r = Some (oks, r') /\
    (TakenTotal r' = Z.of_nat (length keys) <-> NoDup keys) /\ (Forall (eq true) oks <-> NoDup keys).
Proof.
  assert (key_domain r = d) as Hkd.
  { unfold Create in Hc. destruct (decide _); [done|]. destruct (decide _); [done|]. by injection Hc as <-. }
  destruct (take_all_models keys r ∅) as (oks & r' & Ht & Hh & Hoks).
  { by eapply Create_models. }
  { by rewrite Hkd. }
  exists oks, r'. split; [done|]. rewrite (total_holds _ _ _ Hh : TakenTotal r' = _), union_empty_r_L. split.
  - rewrite Nat2Z.inj_iff. split; [|apply size_list_to_set]. apply NoDup_of_size.
  - rewrite Hoks. set_solver.
Qed.

Lemma TakenTotal_oracle_witness :
  Create 100 16 = Some (mk [0; 0] 100) /\
  exists oks r', take_all [70; 3; 70] (mk [0; 0] 100) = Some (oks, r') /\
    (TakenTotal r' = 3 <-> NoDup [70; 3; 70]) /\ (Forall (eq true) oks <-> NoDup [70; 3; 70]).
Proof.
  split; [reflexivity|].
  apply (TakenTotal_oracle 100 16 (mk [0; 0] 100) [70; 3; 70]); [done|by vm_compute|reflexivity|].
  repeat constructor; lia.
Defined.

End Reservation.
