(* ===== verification/Membership.v ===== *)
(** * Key membership

    [KeyMembership] of [tools/db_bench_tool.cc]: which keys were ingested, which
    of them a shallower level already holds, and the cursor that hands a file its
    keys, spread evenly over the keys of its range.  Claims are recorded after a
    file's cursors are done, so a cursor walks a bitmap that does not change. *)

From Stdlib Require Import ZArith Lia Bool.
From stdpp Require Import base numbers list sorting gmap.
From S2P Require Import Prelude Bitmap.

Local Open Scope Z_scope.

Module Membership.
Import Bits.

(** ** Operations *)

Inductive Mode := kPresent | kNewest | kStale.

Record t := mk { bits_ : list Z; claimed_ : option (list Z); key_domain : Z }.

Definition Create (key_domain max_bytes : Z) : option t :=
  if decide (key_domain = 0) then None
  else if decide (max_bytes / 8 < words_of key_domain) then None
  else Some (mk (replicate (Z.to_nat (words_of key_domain)) 0) None key_domain).

Definition words_ (m : t) : Z := Z.of_nat (length (bits_ m)).

Definition EnableClaims (m : t) : t :=
  match claimed_ m with
  | None => mk (bits_ m) (Some (replicate (length (bits_ m)) 0)) (key_domain m)
  | Some _ => m
  end.

(** Ingestion; a key past the domain is ignored.  [None]: past the words. *)
Definition Mark (key : Z) (m : t) : option t :=
  if decide (key_domain m <= key) then Some m
  else match fetch_or key (bits_ m) with
       | None => None
       | Some (_, ws) => Some (mk ws (claimed_ m) (key_domain m))
       end.

(** The same from one thread: a load and a store. *)
Definition MarkSerial (key : Z) (m : t) : option t :=
  if decide (key_domain m <= key) then Some m
  else
    let i := Z.to_nat (Z.shiftr key 6) in
    match bits_ m !! i with
    | None => None
    | Some word =>
        Some (mk (<[i := Z.lor word (Z.shiftl 1 (Z.land key 63))]> (bits_ m)) (claimed_ m) (key_domain m))
    end.

Definition Claim (key : Z) (m : t) : option t :=
  match claimed_ m with
  | None => Some m
  | Some c =>
      if decide (key_domain m <= key) then Some m
      else match fetch_or key c with
           | None => None
           | Some (_, ws) => Some (mk (bits_ m) (Some ws) (key_domain m))
           end
  end.

Definition ClaimedTotal (m : t) : Z := from_option total 0 (claimed_ m).
Definition Total (m : t) : Z := total (bits_ m).

(** The word a mode reads. *)
Definition Word (m : t) (mode : Mode) (word : Z) : Z :=
  let present := load (bits_ m) word in
  match mode, claimed_ m with
  | kPresent, _ | _, None => present
  | kNewest, Some c => Z.land present (not64 (load c word))
  | kStale, Some c => Z.land present (load c word)
  end.

Definition CountPresent (first last : Z) (mode : Mode) (m : t) : Z :=
  ForEachWord (count_step (Word m mode)) (key_domain m) first last 0.

(** *** The cursor *)

Record Cursor := mkCursor {
  last_ : Z; want_ : Z; mode_ : Mode; present_ : Z;
  word_ : Z; pending_ : Z; seen_ : Z; emitted_ : Z;
}.

Definition NewCursor (first last want : Z) (mode : Mode) (m : t) : Cursor :=
  let present := CountPresent first last mode m in
  if decide (first < key_domain m) then
    let word := Z.shiftr first 6 in
    mkCursor last want mode present word
      (Z.land (Word m mode word) (u64 (Z.shiftl u64_max (Z.land first 63)))) 0 0
  else mkCursor last want mode present (words_ m) 0 0 0.

(** The inner loop: the next word with a pending bit. *)
Fixpoint skip_words (fuel : nat) (m : t) (last : Z) (mode : Mode) (word pending : Z) : bool * Z * Z :=
  if decide (pending <> 0) then (true, word, pending)
  else match fuel with
       | O => (false, word, pending)
       | S fuel =>
           let word := word +% 1 in
           if decide (words_ m <= word \/ last < u64 (Z.shiftl word 6)) then (false, word, pending)
           else skip_words fuel m last mode word (Word m mode word)
       end.

Definition set_scan (c : Cursor) (word pending seen emitted : Z) : Cursor :=
  mkCursor (last_ c) (want_ c) (mode_ c) (present_ c) word pending seen emitted.

(** The outer loop: the first pending key whose rank reaches the target. *)
Fixpoint find (fuel : nat) (m : t) (target : Z) (c : Cursor) : option Z * Cursor :=
  match fuel with
  | O => (None, c)
  | S fuel =>
      let '(found, word, pending) := skip_words (length (bits_ m)) m (last_ c) (mode_ c) (word_ c) (pending_ c) in
      if found then
        let bit := CountTrailingZeroBits pending in
        let pending := clear_lowest pending in
        let candidate := u64 (Z.shiftl word 6) +% bit in
        if decide (last_ c < candidate) then (None, set_scan c word pending (seen_ c) (emitted_ c))
        else
          let rank := seen_ c in
          let seen := seen_ c +% 1 in
          if decide (target <= rank)
          then (Some candidate, set_scan c word pending seen (emitted_ c +% 1))
          else find fuel m target (set_scan c word pending seen (emitted_ c))
      else (None, set_scan c word pending (seen_ c) (emitted_ c))
  end.

Definition Next (m : t) (c : Cursor) : option Z * Cursor :=
  if decide (want_ c = 0 \/ want_ c <= emitted_ c \/ present_ c = 0) then (None, c)
  else find (S (64 * length (bits_ m))) m ((emitted_ c *% present_ c) / want_ c) c.

(** Calling [Next] until it returns false, at most [n] times. *)
Fixpoint drain (n : nat) (m : t) (c : Cursor) : list Z :=
  match n with
  | O => []
  | S n => match Next m c with (Some k, c) => k :: drain n m c | (None, _) => [] end
  end.

(** Marking keys one after the other. *)
Fixpoint mark_all (keys : list Z) (m : t) : option t :=
  match keys with
  | [] => Some m
  | k :: keys => match Mark k m with Some m => mark_all keys m | None => None end
  end.

(** ** Abstraction *)

(** The ingested and the claimed keys. *)
Record models (m : t) (s c : gset Z) : Prop := {
  m_bits : holds (bits_ m) (key_domain m) s;
  m_claimed : match claimed_ m with
              | None => c = ∅
              | Some ws => holds ws (key_domain m) c
              end;
}.

(** The keys of a mode. *)
Definition in_mode (mode : Mode) (enabled : bool) (s c : gset Z) (k : Z) : Prop :=
  k ∈ s /\ match mode with
           | kPresent => True
           | kNewest => enabled = true -> k ∉ c
           | kStale => enabled = true -> k ∈ c
           end.
#[global] Instance in_mode_dec mode enabled s c k : Decision (in_mode mode enabled s c k).
Proof. unfold in_mode. destruct mode; apply _. Defined.

Definition claims_enabled (m : t) : bool := if claimed_ m is Some _ then true else false.

(** The keys of a range that a mode sees, ascending. *)
Definition keys_of (m : t) (s c : gset Z) (mode : Mode) (first last : Z) : list Z :=
  filter (in_mode mode (claims_enabled m) s c) (seqZ first (clamp (key_domain m) last - first + 1)).

Lemma Word_bit m s c mode k : models m s c -> 0 <= k < 64 * words_ m ->
  key_bit (Word m mode) k <-> in_mode mode (claims_enabled m) s c k.
Proof.
  intros [Hb Hc] Hk. unfold words_ in Hk. pose proof (h_bits _ _ _ Hb k Hk) as Hs.
  pose proof (h_words _ _ _ Hb) as Hw. unfold key_bit, Word, in_mode, claims_enabled in *.
  pose proof (Z.mod_pos_bound k 64 ltac:(lia)) as Hm. destruct (claimed_ m) as [ws|].
  - pose proof (h_words _ _ _ Hc) as Hw'. pose proof (h_bits _ _ _ Hc k ltac:(lia)) as Hs'.
    unfold key_bit in Hs'. destruct mode; rewrite ?Z.land_spec, ?testbit_not64, ?andb_true_iff, ?negb_true_iff, Hs by lia.
    + tauto.
    + rewrite <- Hs', not_true_iff_false. tauto.
    + tauto.
  - destruct mode; rewrite Hs; intuition discriminate.
Qed.

Lemma CountPresent_spec m s c mode first last : models m s c -> 0 <= first ->
  CountPresent first last mode m = Z.of_nat (length (keys_of m s c mode first last)).
Proof.
  intros Hm Hf. pose proof (h_domain _ _ _ (m_bits _ _ _ Hm)). pose proof (h_words _ _ _ (m_bits _ _ _ Hm)) as Hw.
  unfold CountPresent. rewrite scan_count by lia. do 2 f_equal. apply domain_keys_holds; [done|].
  intros k Hk. apply Word_bit; [done|]. unfold words_. Z.to_euclidean_division_equations. lia.
Qed.

(** *** The cursor's remaining keys *)

Section cursor.
Context (m : t) (s cl : gset Z) (mode : Mode) (last : Z).
Hypothesis (Hm : models m s cl).

Let f := Word m mode.
Let n := words_ m.

(** The pending keys of the current word, and the keys of the words from [a] on. *)
Definition pending_keys (word pending : Z) : list Z :=
  filter (fun k => k <= last) ((fun b => 64 * word + b) <$> word_bits pending).
Definition tail_keys (a : Z) : list Z :=
  filter (fun k => k <= last /\ key_bit f k) (seqZ a (64 * n - a)).
Definition remaining (word pending : Z) : list Z :=
  pending_keys word pending ++ tail_keys (64 * (word + 1)).

Lemma n_bound : 0 < n <= 2 ^ 58.
Proof.
  destruct (m_bits _ _ _ Hm) as [Hd Hw _ _ _]. unfold n, words_. unfold u64_max in Hd.
  Z.to_euclidean_division_equations. lia.
Qed.

Lemma f_u64 word : is_u64 (f word).
Proof.
  assert (is_u64 (load (bits_ m) word)) as Hl.
  { unfold load. destruct (bits_ m !! _) as [w|] eqn:Hw; [|by vm_compute].
    pose proof (h_u64 _ _ _ (m_bits _ _ _ Hm)) as Hu. rewrite Forall_lookup in Hu. by eapply Hu. }
  unfold f, Word. destruct mode, (claimed_ m); try done; by apply is_u64_land.
Qed.

Lemma tail_keys_word word : 0 <= word < n ->
  tail_keys (64 * word) = pending_keys word (f word) ++ tail_keys (64 * (word + 1)).
Proof.
  intros Hw. unfold tail_keys. replace (64 * n - 64 * word) with (64 + (64 * n - 64 * (word + 1))) by lia.
  rewrite seqZ_app by lia. rewrite filter_app. replace (64 * word + 64) with (64 * (word + 1)) by lia. f_equal.
  unfold pending_keys, word_bits. rewrite seqZ_shift, !filter_fmap, list_filter_filter. f_equal.
  apply list_filter_ext_in. intros i Hi%elem_of_seqZ. unfold key_bit.
  replace ((64 * word + i) / 64) with word by (Z.to_euclidean_division_equations; lia).
  replace ((64 * word + i) mod 64) with i by (Z.to_euclidean_division_equations; lia). done.
Qed.

Lemma tail_keys_nil a : last < a \/ 64 * n <= a -> tail_keys a = [].
Proof. intros Ha. apply list_filter_none. intros k Hk%elem_of_seqZ. lia. Qed.

(** The inner loop keeps the remaining keys, and gives up only without any. *)
Lemma skip_words_spec fuel : forall word pending, is_u64 pending -> 0 <= word <= n -> (pending <> 0 -> word < n) ->
  n - word <= Z.of_nat fuel ->
  let '(found, word', pending') := skip_words fuel m last mode word pending in
  if found then is_u64 pending' /\ pending' <> 0 /\ 0 <= word' < n /\
                remaining word' pending' = remaining word pending
  else remaining word pending = [].
Proof.
  pose proof n_bound as Hn. induction fuel as [|fuel IH]; intros word pending Hp Hw Hin Hf; cbn [skip_words].
  - destruct (decide _) as [|Hz]; [specialize (Hin ltac:(done)); split_and!; by auto with lia|]. apply dec_stable in Hz. subst.
    unfold remaining, pending_keys. rewrite (proj2 (word_bits_zero 0 Hp)) by done. cbn. apply tail_keys_nil. lia.
  - destruct (decide _) as [|Hz]; [specialize (Hin ltac:(done)); split_and!; by auto with lia|]. apply dec_stable in Hz. subst.
    assert (remaining word 0 = tail_keys (64 * (word + 1))) as ->.
    { unfold remaining, pending_keys. by rewrite (proj2 (word_bits_zero 0 Hp)). }
    rewrite (u64_small (word + 1)) by (unfold is_u64, u64_max; lia).
    destruct (decide _) as [Hd|Hd].
    + apply tail_keys_nil. destruct Hd as [Hd|Hd]; [right; unfold n; lia|].
      destruct (decide (word + 1 < n)); [|right; lia]. left.
      rewrite Z.shiftl_mul_pow2, u64_small in Hd by (unfold is_u64, u64_max; lia). lia.
    + assert (word + 1 < n) by (unfold n; lia). rewrite tail_keys_word by lia.
      specialize (IH (word + 1) (f (word + 1)) (f_u64 _) ltac:(lia) ltac:(lia) ltac:(lia)). fold f.
      destruct (skip_words _ _ _ _ _ _) as [[[] w'] p']; [|exact IH].
      destruct IH as (? & ? & ? & ?). split_and!; try done; lia.
Qed.

(** The next key: the lowest pending bit, or nothing up to [last]. *)
Lemma remaining_next word pending : is_u64 pending -> pending <> 0 -> 0 <= word < n ->
  let candidate := u64 (Z.shiftl word 6) +% CountTrailingZeroBits pending in
  if decide (last < candidate) then remaining word pending = []
  else remaining word pending = candidate :: remaining word (clear_lowest pending).
Proof.
  pose proof n_bound as Hn. intros Hp Hz Hw. destruct (word_bits pending) as [|i l] eqn:E.
  { by apply word_bits_zero in E. }
  pose proof (word_bits_cons _ _ _ E) as (Hi & _ & _). pose proof (word_bits_sorted pending) as Hs.
  rewrite E in Hs. apply StronglySorted_inv in Hs as [_ Hs]. rewrite Forall_forall in Hs.
  unfold CountTrailingZeroBits. rewrite E. cbn [head from_option id]. rewrite word_key_small by lia. cbv zeta.
  unfold remaining, pending_keys. rewrite (word_bits_clear_lowest _ _ _ Hp E), E, fmap_cons, filter_cons.
  destruct (decide (last < _)) as [Hd|Hd].
  - rewrite decide_False by lia. rewrite tail_keys_nil by lia. rewrite app_nil_r. apply list_filter_none.
    intros k (j & -> & Hj)%list_elem_of_fmap. specialize (Hs j Hj). lia.
  - by rewrite decide_True by lia.
Qed.

(** A cursor over this range whose remaining keys are [l]. *)
Record at_keys (c : Cursor) (l : list Z) : Prop := {
  c_last : last_ c = last;
  c_mode : mode_ c = mode;
  c_pending : is_u64 (pending_ c);
  c_word : 0 <= word_ c <= n;
  c_in : pending_ c <> 0 -> word_ c < n;
  c_rem : remaining (word_ c) (pending_ c) = l;
}.

(** The outer loop returns the remaining key at the distance to the target. *)
Lemma find_spec target : forall fuel c l, at_keys c l -> (length l < fuel)%nat -> 0 <= seen_ c ->
  seen_ c + Z.of_nat (length l) <= u64_max ->
  let d := Z.to_nat (target - seen_ c) in
  match l !! d with
  | Some k => exists c', find fuel m target c = (Some k, c') /\ at_keys c' (drop (S d) l) /\
      seen_ c' = seen_ c + Z.of_nat d + 1 /\ emitted_ c' = emitted_ c +% 1 /\
      want_ c' = want_ c /\ present_ c' = present_ c
  | None => (find fuel m target c).1 = None
  end.
Proof.
  induction fuel as [|fuel IH]; intros c l [Hl Hmo Hp Hw Hin Hr] Hfuel Hs0 Hs; [lia|]. cbn [find]. rewrite Hl, Hmo.
  pose proof (skip_words_spec (length (bits_ m)) (word_ c) (pending_ c) Hp Hw Hin ltac:(unfold n, words_; lia)) as Hsk.
  destruct (skip_words _ _ _ _ _ _) as [[[] word] pending]; [|rewrite Hr in Hsk; by rewrite Hsk].
  destruct Hsk as (Hp' & Hz & Hw' & Hrem). rewrite Hr in Hrem.
  pose proof (remaining_next word pending Hp' Hz Hw') as Hn. cbv zeta in Hn.
  destruct (decide (last < _)) as [Hd|Hd]; [rewrite Hn in Hrem; by rewrite <- Hrem|].
  rewrite Hrem in Hn. clear Hr Hrem. subst l. set (candidate := u64 _ +% _) in *. cbn [length] in *.
  set (c1 := fun emitted => set_scan c word (clear_lowest pending) (seen_ c +% 1) emitted).
  assert (forall e, at_keys (c1 e) (remaining word (clear_lowest pending))) as Hc1.
  { intros e. split; cbn; try done; [by apply clear_lowest_u64|lia|lia]. }
  assert (forall e, seen_ (c1 e) = seen_ c + 1) as Hs1 by (intros e; cbn; apply u64_small; unfold is_u64; lia).
  destruct (decide (target <= seen_ c)) as [Ht|Ht].
  - replace (Z.to_nat (target - seen_ c)) with 0%nat by lia. cbn [lookup list_lookup].
    eexists. split; [done|]. split; [apply (Hc1 (emitted_ c +% 1))|].
    split_and!; try done. rewrite (Hs1 (emitted_ c +% 1)). lia.
  - specialize (IH (c1 (emitted_ c)) _ (Hc1 _) ltac:(lia)).
    replace (Z.to_nat (target - seen_ c)) with (S (Z.to_nat (target - seen_ (c1 (emitted_ c))))) by (rewrite Hs1; lia).
    cbn [lookup list_lookup drop]. specialize (IH ltac:(rewrite Hs1; lia) ltac:(rewrite Hs1; lia)). cbv zeta in IH.
    destruct (_ !! _) as [k|]; [|exact IH]. destruct IH as (c' & Hf & Hat & Hs' & He & Hwant & Hpr).
    exists c'. split_and!; try done. rewrite Hs1 in Hs' |- *. lia.
Qed.

End cursor.

Lemma keys_of_length m s c mode first last : models m s c -> 0 <= first ->
  Z.of_nat (length (keys_of m s c mode first last)) <= key_domain m /\ key_domain m <= 64 * words_ m.
Proof.
  intros [[Hd Hw _ _ _] _] Hf. unfold words_. split; [|Z.to_euclidean_division_equations; lia].
  unfold keys_of, clamp. match goal with |- context [filter ?P ?l] => pose proof (length_filter P l) as Hl end.
  rewrite length_seqZ in Hl. lia.
Qed.

(** The keys still to come are a filter of the keys from the current word on. *)
Lemma remaining_filter m s c mode first last : models m s c -> 0 <= first < key_domain m ->
  remaining m mode last (first / 64) (Z.land (Word m mode (first / 64)) (u64 (Z.shiftl u64_max (Z.land first 63)))) =
  filter (fun k => first <= k /\ k <= last /\ key_bit (Word m mode) k)
    (seqZ (64 * (first / 64)) (64 * words_ m - 64 * (first / 64))).
Proof.
  intros Hm Hf. destruct (keys_of_length m s c mode first last Hm ltac:(lia)) as [_ Hd].
  replace (64 * words_ m - 64 * (first / 64)) with (64 + (64 * words_ m - 64 * (first / 64 + 1))) by lia.
  rewrite seqZ_app by (Z.to_euclidean_division_equations; lia). rewrite filter_app.
  replace (64 * (first / 64) + 64) with (64 * (first / 64 + 1)) by lia. unfold remaining. f_equal.
  - unfold pending_keys, word_bits. rewrite (seqZ_shift (64 * _)), !filter_fmap, list_filter_filter. f_equal.
    apply list_filter_ext_in. intros i Hi%elem_of_seqZ. unfold key_bit.
    replace ((64 * (first / 64) + i) / 64) with (first / 64) by (Z.to_euclidean_division_equations; lia).
    replace ((64 * (first / 64) + i) mod 64) with i by (Z.to_euclidean_division_equations; lia).
    rewrite land_63, Z.land_spec, testbit_u64, Z.shiftl_spec, andb_true_iff by lia.
    destruct (decide (first mod 64 <= i)) as [H|H].
    + rewrite testbit_u64_max by lia. rewrite bool_decide_true by (Z.to_euclidean_division_equations; lia).
      assert (first <= 64 * (first / 64) + i) by (Z.to_euclidean_division_equations; lia). tauto.
    + rewrite (Z.testbit_neg_r u64_max) by lia.
      assert (~ first <= 64 * (first / 64) + i) by (Z.to_euclidean_division_equations; lia). intuition discriminate.
  - unfold tail_keys. apply list_filter_ext_in. intros k Hk%elem_of_seqZ.
    assert (first <= k) by (Z.to_euclidean_division_equations; lia). tauto.
Qed.

Lemma NewCursor_at m s c mode first last want : models m s c -> 0 <= first ->
  at_keys m mode last (NewCursor first last want mode m) (keys_of m s c mode first last).
Proof.
  intros Hm Hf. destruct (keys_of_length m s c mode first last Hm Hf) as [_ Hd].
  unfold NewCursor. rewrite shiftr_6. destruct (decide _) as [Hlt|Hge].
  - split; cbn [last_ mode_ pending_ word_]; try done.
    + apply is_u64_land. by eapply f_u64.
    + Z.to_euclidean_division_equations. lia.
    + intros _. Z.to_euclidean_division_equations. lia.
    + rewrite (remaining_filter m s c mode first last Hm) by lia.
      rewrite (list_filter_ext_in _ (fun k => first <= k <= clamp (key_domain m) last /\ in_mode mode (claims_enabled m) s c k)).
      * destruct (decide (clamp (key_domain m) last < first)) as [He|He].
        -- unfold keys_of. rewrite (seqZ_nil first) by lia. apply list_filter_none. intros k _ [? _]. lia.
        -- unfold keys_of. apply filter_range; unfold clamp in *; Z.to_euclidean_division_equations; lia.
      * intros k Hk%elem_of_seqZ. rewrite (Word_bit m s c) by (done || (Z.to_euclidean_division_equations; lia)).
        split; [|unfold clamp; intuition lia]. intros (? & ? & Hin). split; [|done].
        pose proof (h_in _ _ _ (m_bits _ _ _ Hm) k (proj1 Hin)). unfold clamp. lia.
  - split; cbn [last_ mode_ pending_ word_]; try done.
    + unfold words_. lia.
    + unfold remaining, keys_of. rewrite seqZ_nil by (unfold clamp; lia).
      rewrite tail_keys_nil by lia. done.
Qed.

(** *** The evenly spread ranks *)

(** The rank of the [k]-th emitted key among [p] keys, [want] of which are wanted. *)
Definition spread (p want k : Z) : Z := Z.max k (k * p / want).

Lemma spread_mono p want k l : 0 <= p -> 0 < want -> k <= l -> spread p want k <= spread p want l.
Proof.
  intros Hp Hw Hkl. unfold spread. pose proof (Z.div_le_mono (k * p) (l * p) want Hw ltac:(nia)). lia.
Qed.

(** Skipping to the target from where the previous key was found. *)
Lemma spread_succ p want k : 0 <= p -> 0 < want -> 0 <= k ->
  Z.max (spread p want k + 1) ((k + 1) * p / want) = spread p want (k + 1).
Proof.
  intros Hp Hw Hk. unfold spread. destruct (decide (want <= p)) as [H|H].
  - pose proof (Z.div_le_mono (k * p + want) ((k + 1) * p) want Hw ltac:(nia)) as Hle.
    rewrite <- (Z.mul_1_l want) in Hle at 1. rewrite Z.div_add in Hle by lia. lia.
  - pose proof (Z.div_le_upper_bound (k * p) want k Hw ltac:(nia)). lia.
Qed.

Section drain.
Context (m : t) (s cl : gset Z) (mode : Mode) (first last want : Z).
Hypothesis (Hm : models m s cl) (Hf : 0 <= first) (Hwant : 0 <= want).
Let keys := keys_of m s cl mode first last.
Let p := Z.of_nat (length keys).
Hypothesis (Hmul : want * p <= u64_max).

(** The cursor after [e] keys were emitted. *)
Definition after (e : Z) (c : Cursor) : Prop :=
  emitted_ c = e /\ want_ c = want /\ present_ c = p /\
  seen_ c = (if decide (e = 0) then 0 else spread p want (e - 1) + 1) /\
  at_keys m mode last c (drop (Z.to_nat (seen_ c)) keys) /\ seen_ c <= p.

Lemma p_bound : 0 <= p <= 64 * words_ m /\ p <= u64_max - 63.
Proof.
  destruct (keys_of_length m s cl mode first last Hm Hf). pose proof (h_domain _ _ _ (m_bits _ _ _ Hm)).
  unfold p, keys. lia.
Qed.

(** One call: the key at the next spread rank, or false when there is none. *)
Lemma Next_after e c : after e c -> 0 <= e < want ->
  match keys !! Z.to_nat (spread p want e) with
  | Some k => exists c', Next m c = (Some k, c') /\ after (e + 1) c'
  | None => (Next m c).1 = None
  end.
Proof.
  intros (He & Hwa & Hpr & Hse & Hat & Hsp) Hew. pose proof p_bound as Hp.
  assert (Hrank : Z.max (seen_ c) (e * p / want) = spread p want e).
  { rewrite Hse. destruct (decide (e = 0)) as [->|]; [unfold spread; done|].
    rewrite <- (Z.sub_add 1 e) at 2 3. apply spread_succ; lia. }
  assert (0 <= seen_ c) as Hs0.
  { rewrite Hse. destruct (decide (e = 0)); [done|]. unfold spread. lia. }
  assert (0 <= e * p / want) by (apply Z.div_pos; nia).
  unfold Next. rewrite He, Hwa, Hpr. destruct (decide (want = 0 \/ want <= e \/ p = 0)) as [Hz|Hz].
  { rewrite (lookup_ge_None_2 keys) by (subst p; lia). done. }
  rewrite (u64_small (e * p)) by (unfold is_u64; nia).
  pose proof (find_spec m s cl mode last Hm (e * p / want) (S (64 * length (bits_ m))) c _ Hat) as Hfs.
  rewrite length_drop in Hfs. fold p in Hfs. specialize (Hfs ltac:(unfold p, words_ in *; lia) Hs0 ltac:(unfold p in *; lia)).
  cbv zeta in Hfs. rewrite lookup_drop in Hfs.
  replace (Z.to_nat (seen_ c) + Z.to_nat (e * p / want - seen_ c))%nat with (Z.to_nat (spread p want e)) in Hfs by lia.
  destruct (keys !! _) as [k|] eqn:Hk; [|exact Hfs]. destruct Hfs as (c' & Hfind & Hat' & Hs' & He' & Hw' & Hp').
  exists c'. split; [done|]. apply lookup_lt_Some in Hk.
  assert (seen_ c' = spread p want e + 1) as Hs'' by lia.
  unfold after. split_and!; try congruence.
  - rewrite He', He. apply u64_small. unfold is_u64. pose proof p_bound. unfold p in Hz. nia.
  - rewrite Hs'', decide_False by lia. by replace (e + 1 - 1) with e by lia.
  - rewrite drop_drop in Hat'. by replace (Z.to_nat (seen_ c')) with
      (Z.to_nat (seen_ c) + S (Z.to_nat (e * p / want - seen_ c)))%nat by lia.
  - unfold p. lia.
Qed.

Lemma drain_after n : forall e c, after e c -> 0 <= e -> e + Z.of_nat n <= want ->
  drain n m c = omap (fun k => keys !! Z.to_nat (spread p want k)) (seqZ e (Z.of_nat n)).
Proof.
  pose proof p_bound as Hp. induction n as [|n IH]; intros e c Ha He Hn; [done|].
  rewrite seqZ_cons by lia. cbn [drain omap list_omap].
  pose proof (Next_after e c Ha ltac:(lia)) as Hnext. destruct (keys !! _) as [k|] eqn:Hk.
  - destruct Hnext as (c' & -> & Ha'). f_equal. replace (Z.pred (Z.of_nat (S n))) with (Z.of_nat n) by lia.
    apply IH; [done|lia|lia].
  - destruct (Next m c) as [o c']. cbn in Hnext. subst o. symmetry.
    assert (forall j, e <= j -> keys !! Z.to_nat (spread p want j) = None) as Hnone.
    { intros j Hj. apply lookup_ge_None. apply lookup_ge_None in Hk.
      pose proof (spread_mono p want e j ltac:(lia) ltac:(lia) Hj). lia. }
    assert (Forall (fun j => e <= j) (seqZ (Z.succ e) (Z.pred (Z.of_nat (S n))))) as Hall.
    { apply Forall_forall. intros j Hj%elem_of_seqZ. lia. }
    induction Hall as [|j l Hj Hall IHl]; [done|]. cbn [omap list_omap]. rewrite Hnone by done. exact IHl.
Qed.

(** More calls than wanted keys change nothing. *)
Lemma drain_full n : forall e c, after e c -> 0 <= e <= want -> want - e <= Z.of_nat n ->
  drain n m c = drain (Z.to_nat (want - e)) m c.
Proof.
  induction n as [|n IH]; intros e c Ha He Hn; [by replace (Z.to_nat (want - e)) with 0%nat by lia|].
  destruct (decide (e = want)) as [->|Hne].
  - rewrite Z.sub_diag. cbn [drain]. destruct Ha as (H1 & H2 & _). unfold Next. by rewrite decide_True by lia.
  - replace (Z.to_nat (want - e)) with (S (Z.to_nat (want - (e + 1)))) by lia. cbn [drain].
    pose proof (Next_after e c Ha ltac:(lia)) as Hnext. destruct (keys !! _) as [k|].
    + destruct Hnext as (c' & -> & Ha'). f_equal. apply IH; [done|lia|lia].
    + by destruct (Next m c) as [[]].
Qed.

Lemma NewCursor_after : after 0 (NewCursor first last want mode m).
Proof.
  pose proof (NewCursor_at m s cl mode first last want Hm Hf) as Hat.
  assert (emitted_ (NewCursor first last want mode m) = 0 /\ want_ (NewCursor first last want mode m) = want /\
    present_ (NewCursor first last want mode m) = p /\ seen_ (NewCursor first last want mode m) = 0) as (H1 & H2 & H3 & H4).
  { unfold NewCursor. rewrite (CountPresent_spec m s cl) by done. by destruct (decide _). }
  unfold after. split_and!; try done; rewrite H4; [exact Hat|apply p_bound].
Qed.
End drain.

Lemma length_omap_some {A B} (f : A -> option B) (l : list A) :
  Forall (fun x => is_Some (f x)) l -> length (omap f l) = length l.
Proof. induction 1 as [|x l [y Hy] _ IH]; [done|]. cbn. rewrite Hy. cbn. by f_equal. Qed.

Lemma omap_none {A B} (f : A -> option B) (l : list A) : Forall (fun x => f x = None) l -> omap f l = [].
Proof. induction 1 as [|x l Hx _ IH]; [done|]. cbn. by rewrite Hx. Qed.

Lemma spread_length (keys : list Z) want : 0 <= want ->
  let p := Z.of_nat (length keys) in
  Z.of_nat (length (omap (fun k => keys !! Z.to_nat (spread p want k)) (seqZ 0 want))) = Z.min want p.
Proof.
  intros Hw p.
  assert (seqZ 0 want = seqZ 0 (Z.min want p) ++ seqZ (0 + Z.min want p) (want - Z.min want p)) as ->.
  { rewrite <- seqZ_app by lia. f_equal. lia. }
  rewrite omap_app, length_app, (omap_none _ (seqZ (0 + _) _)), length_omap_some.
  - rewrite length_seqZ. cbn. lia.
  - apply Forall_forall. intros k Hk%elem_of_seqZ. apply lookup_lt_is_Some. unfold spread.
    pose proof (Z.div_lt_upper_bound (k * p) want p ltac:(lia) ltac:(nia)).
    pose proof (Z.div_pos (k * p) want ltac:(nia) ltac:(lia)). lia.
  - apply Forall_forall. intros k Hk%elem_of_seqZ. apply lookup_ge_None. unfold spread. lia.
Qed.

Lemma spread_sorted (keys : list Z) want : StronglySorted Z.lt keys -> 0 <= want ->
  let p := Z.of_nat (length keys) in
  StronglySorted Z.lt (omap (fun k => keys !! Z.to_nat (spread p want k)) (seqZ 0 want)).
Proof.
  intros Hs Hw p. assert (Forall (fun k => 0 <= k < want) (seqZ 0 want)) as Hall.
  { apply Forall_forall. intros k Hk%elem_of_seqZ. lia. }
  pose proof (seqZ_sorted 0 want) as Hsorted. induction Hsorted as [|k l Hl IH Hk]; [constructor|].
  apply Forall_cons in Hall as [Hk0 Hall]. cbn. destruct (keys !! _) as [x|] eqn:Hx; [|by apply IH].
  constructor; [by apply IH|]. apply Forall_forall. intros y Hy. apply list_elem_of_omap in Hy as (j & Hj & Hy).
  rewrite Forall_forall in Hk, Hall. specialize (Hk j Hj). specialize (Hall j Hj).
  refine (StronglySorted_lookup _ _ _ _ x y Hs _ Hx Hy).
  pose proof (spread_succ p want k ltac:(lia) ltac:(lia) ltac:(lia)).
  pose proof (spread_mono p want (k + 1) j ltac:(lia) ltac:(lia) ltac:(lia)). unfold spread in *. lia.
Qed.

(** When all keys are wanted, all are handed out. *)
Lemma spread_all (keys : list Z) :
  let p := Z.of_nat (length keys) in omap (fun k => keys !! Z.to_nat (spread p p k)) (seqZ 0 p) = keys.
Proof.
  intros p. transitivity (omap (fun k => keys !! Z.to_nat k) (seqZ 0 p)).
  - apply list_omap_ext, Forall_Forall2_diag, Forall_forall. intros k Hk%elem_of_seqZ. do 2 f_equal. unfold spread.
    rewrite Z.div_mul by lia. lia.
  - unfold p. clear p. induction keys as [|x keys IH] using rev_ind; [done|].
    rewrite length_app, Nat2Z.inj_add, seqZ_app, omap_app by lia.
    replace (seqZ (0 + Z.of_nat (length keys)) (Z.of_nat (length [x]))) with [Z.of_nat (length keys)] by (unfold seqZ; cbn; f_equal; lia).
    cbn [omap list_omap]. rewrite Nat2Z.id, lookup_app_r, Nat.sub_diag by lia. cbn. f_equal. rewrite <- IH at 2. apply list_omap_ext, Forall_Forall2_diag, Forall_forall. intros k Hk%elem_of_seqZ.
    rewrite lookup_app_l; [done|lia].
Qed.

(** *** The keys a cursor is going to hand out *)

(** After a call of [Next] that returned [next] and left the cursor [c]. *)
Definition pending (m : t) (next : option Z) (c : Cursor) (l : list Z) : Prop :=
  match next with
  | None => l = []
  | Some k => exists n, l = k :: drain n m c /\ (length (drain n m c) < n)%nat
  end.

Lemma pending_drain m n c l : drain n m c = l -> (length l < n)%nat -> pending m (Next m c).1 (Next m c).2 l.
Proof.
  destruct n as [|n]; [lia|]. cbn [drain]. destruct (Next m c) as [[k|] c'] eqn:E; cbn; [|done].
  intros <- Hlen. exists n. split; [done|]. cbn in Hlen. lia.
Qed.

Lemma pending_next m k c l : pending m (Some k) c l ->
  exists l', l = k :: l' /\ pending m (Next m c).1 (Next m c).2 l'.
Proof. intros (n & -> & Hn). eexists. split; [done|]. by eapply pending_drain. Qed.

Lemma keys_of_sorted m s c mode first last : StronglySorted Z.lt (keys_of m s c mode first last).
Proof. apply StronglySorted_filter, seqZ_sorted. Qed.

(** A new cursor that wants no more keys than there are. *)
Lemma NewCursor_pending m s c mode first last want : models m s c -> 0 <= first ->
  0 <= want <= Z.of_nat (length (keys_of m s c mode first last)) ->
  want * Z.of_nat (length (keys_of m s c mode first last)) <= u64_max ->
  let cur := NewCursor first last want mode m in
  exists l, pending m (Next m cur).1 (Next m cur).2 l /\ Z.of_nat (length l) = want /\
    StronglySorted Z.lt l /\ l ⊆ keys_of m s c mode first last /\
    (want = Z.of_nat (length (keys_of m s c mode first last)) -> l = keys_of m s c mode first last).
Proof.
  intros Hm Hf Hw Hmul. set (keys := keys_of m s c mode first last) in *. set (p := Z.of_nat (length keys)) in *.
  exists (omap (fun k => keys !! Z.to_nat (spread p want k)) (seqZ 0 want)).
  pose proof (spread_length keys want ltac:(lia)) as Hl. cbv zeta in Hl. fold p in Hl.
  pose proof (NewCursor_after m s c mode first last want Hm Hf) as Ha.
  split_and!.
  - apply (pending_drain m (S (Z.to_nat want))); [|lia].
    rewrite (drain_full m s c mode first last want Hm Hf ltac:(lia) Hmul _ 0) by (done || lia).
    rewrite (drain_after m s c mode first last want Hm Hf ltac:(lia) Hmul _ 0) by (done || lia).
    by rewrite Z.sub_0_r, Z2Nat.id by lia.
  - rewrite Hl. lia.
  - apply spread_sorted; [apply keys_of_sorted|lia].
  - intros k Hk. apply list_elem_of_omap in Hk as (j & _ & Hj). by eapply list_elem_of_lookup_2.
  - intros ->. apply spread_all.
Qed.

(** *** Marking and claiming *)

Lemma membership_Create d max_bytes m : is_u64 d -> d <= u64_max - 63 -> Create d max_bytes = Some m -> models m ∅ ∅.
Proof.
  unfold Create. intros Hd Hm. unfold is_u64 in Hd. destruct (decide _) as [|H0]; [done|].
  destruct (decide _); [done|]. intros [= <-]. split; [|done]. apply holds_empty. cbn [key_domain]. lia.
Qed.

Lemma EnableClaims_models m s : models m s ∅ -> claims_enabled m = false -> models (EnableClaims m) s ∅.
Proof.
  intros [Hb Hc]. unfold claims_enabled, EnableClaims. destruct (claimed_ m) as [|] eqn:E; [done|]. intros _.
  split; [done|]. cbn [claimed_ key_domain]. pose proof (h_domain _ _ _ Hb) as Hd. pose proof (h_words _ _ _ Hb) as Hw.
  replace (length (bits_ m)) with (Z.to_nat (words_of (key_domain m))); [by apply holds_empty|].
  unfold words_of. rewrite u64_small by solve_u64. lia.
Qed.

Lemma Mark_models k m s c : models m s c -> 0 <= k ->
  exists m', Mark k m = Some m' /\ key_domain m' = key_domain m /\ claims_enabled m' = claims_enabled m /\
    models m' (if decide (k < key_domain m) then {[k]} ∪ s else s) c.
Proof.
  intros Hm Hk. unfold Mark. destruct (decide (key_domain m <= k)) as [Hd|Hd].
  - exists m. rewrite decide_False by lia. done.
  - rewrite decide_True by lia. destruct Hm as [Hb Hc].
    destruct (fetch_or_holds k _ _ _ Hb ltac:(lia)) as (w & ws & -> & Hh & _).
    eexists. split_and!; done.
Qed.

Lemma mark_all_models keys : forall m s c, models m s c -> Forall (fun k => 0 <= k) keys ->
  exists m', mark_all keys m = Some m' /\ key_domain m' = key_domain m /\ claims_enabled m' = claims_enabled m /\
    models m' (list_to_set (filter (fun k => k < key_domain m) keys) ∪ s) c.
Proof.
  induction keys as [|k keys IH]; intros m s c Hm Hk; cbn [mark_all].
  { exists m. split_and!; try done. cbn. by rewrite union_empty_l_L. }
  apply Forall_cons in Hk as [Hk Hks]. destruct (Mark_models k m s c Hm Hk) as (m1 & -> & Hd & He & Hm1).
  destruct (IH m1 _ c Hm1 Hks) as (m2 & -> & Hd2 & He2 & Hm2). exists m2. split_and!; [done|congruence|congruence|].
  rewrite Hd in Hm2. rewrite filter_cons. destruct (decide (k < key_domain m)); [|done].
  rewrite (union_assoc_L _ {[k]} s), (union_comm_L _ {[k]}) in Hm2. exact Hm2.
Qed.

(** The bitmaps are determined by the sets they hold. *)
Lemma models_unique m m' s c : models m s c -> models m' s c -> key_domain m = key_domain m' ->
  claims_enabled m = claims_enabled m' -> m = m'.
Proof.
  destruct m as [b1 c1 d1], m' as [b2 c2 d2]. intros [B1 C1] [B2 C2]. cbn in *. intros <- He.
  unfold claims_enabled in He. cbn in He. f_equal; [by eapply holds_unique|].
  destruct c1, c2; try done. f_equal. by eapply holds_unique.
Qed.

Lemma Claim_models k m s c : models m s c -> claims_enabled m = true -> 0 <= k < key_domain m ->
  exists m', Claim k m = Some m' /\ key_domain m' = key_domain m /\ claims_enabled m' = true /\
    models m' s ({[k]} ∪ c).
Proof.
  intros [Hb Hc] He Hk. unfold Claim, claims_enabled in *. destruct (claimed_ m) as [ws|] eqn:E; [|done].
  rewrite decide_False by lia. destruct (fetch_or_holds k _ _ _ Hc ltac:(lia)) as (w & ws' & -> & Hh & _).
  eexists. split_and!; done.
Qed.

(** [MarkSerial] marks what [Mark] marks. *)
Lemma MarkSerial_Mark k m : MarkSerial k m = Mark k m.
Proof. unfold MarkSerial, Mark, fetch_or. destruct (decide _); [done|]. by destruct (bits_ m !! _). Qed.

Lemma length_filter_split {A} (P Q : A -> Prop) `{forall x, Decision (P x)} `{forall x, Decision (Q x)} (l : list A) :
  length (filter P l) = (length (filter (fun x => P x /\ Q x) l) + length (filter (fun x => P x /\ ~ Q x) l))%nat.
Proof.
  induction l as [|x l IH]; [done|]. rewrite !filter_cons. repeat case_decide; cbn [length]; try lia; tauto.
Qed.

(** ** Properties *)

(** The cursor hands out [min want present] keys of its mode's keys of the
    range, in ascending order and spread evenly: the [k]-th one is the key of rank
    [max k (k * present / want)].  The product must not exceed 64 bits. *)
Theorem cursor_spread m s c mode first last want (Hm : models m s c) (Hf : 0 <= first) (Hw : 0 <= want)
    (Hmul : want * Z.of_nat (length (keys_of m s c mode first last)) <= u64_max) :
  let keys := keys_of m s c mode first last in
  let p := Z.of_nat (length keys) in
  let out := drain (Z.to_nat want) m (NewCursor first last want mode m) in
  out = omap (fun k => keys !! Z.to_nat (spread p want k)) (seqZ 0 want) /\
  Z.of_nat (length out) = Z.min want p.
Proof.
  cbv zeta.
  assert (drain (Z.to_nat want) m (NewCursor first last want mode m) =
    omap (fun k => keys_of m s c mode first last !! Z.to_nat (spread (Z.of_nat (length (keys_of m s c mode first last))) want k))
      (seqZ 0 want)) as ->.
  { rewrite (drain_after m s c mode first last want Hm Hf Hw Hmul (Z.to_nat want) 0); [|by apply NewCursor_after|lia|lia].
    by rewrite Z2Nat.id. }
  split; [done|]. by apply spread_length.
Qed.

(** Claiming a key of the domain adds it to the claimed keys and nothing else;
    in every range the newest and the stale keys are then disjoint and together
    the present ones, and the totals are the sizes of the two sets. *)
Theorem Claim_partition m s c k first last (Hm : models m s c) (He : claims_enabled m = true)
    (Hk : 0 <= k < key_domain m) (Hf : 0 <= first) :
  exists m', Claim k m = Some m' /\ models m' s ({[k]} ∪ c) /\
    CountPresent first last kPresent m' =
      CountPresent first last kNewest m' + CountPresent first last kStale m' /\
    Total m' = Z.of_nat (size s) /\ ClaimedTotal m' = Z.of_nat (size ({[k]} ∪ c)).
Proof.
  destruct (Claim_models k m s c Hm He Hk) as (m' & Hc & Hd & He' & Hm'). exists m'. split; [done|]. split; [done|].
  split_and!.
  - rewrite !(CountPresent_spec m' s ({[k]} ∪ c)) by done. rewrite <- Nat2Z.inj_add. f_equal. unfold keys_of.
    rewrite He', (length_filter_split _ (fun j => j ∉ {[k]} ∪ c)). f_equal; f_equal; apply list_filter_ext_in;
      intros j _; unfold in_mode; [tauto|]. destruct (decide (j ∈ {[k]} ∪ c)); tauto.
  - by eapply total_holds, (m_bits _ _ _ Hm').
  - pose proof (m_claimed _ _ _ Hm') as Hcl. unfold ClaimedTotal, claims_enabled in *.
    destruct (claimed_ m'); [|done]. by eapply total_holds.
Qed.

(** Two words: the keys 1, 5, 63, 64, 70, 90 of a domain of 100, none claimed. *)
Definition sample_keys : list Z := [1; 5; 63; 64; 70; 90].
Definition sample : t := mk [2 ^ 63 + 34; 2 ^ 26 + 2 ^ 6 + 1] (Some [0; 0]) 100.

Lemma membership_sample : models sample (list_to_set sample_keys) ∅.
Proof.
  split; [|by apply (holds_empty 100); vm_compute].
  assert (holds [0; 0] 100 ∅) as H0 by (apply (holds_empty 100); by vm_compute).
  assert (forall ks ws s, holds ws 100 s -> Forall (fun k => 0 <= k < 100) ks ->
    exists ws', foldr (fun k o => ws ← o; snd <$> fetch_or k ws) (Some ws) ks = Some ws' /\ holds ws' 100 (list_to_set ks ∪ s)) as Hf.
  { induction ks as [|k ks IH]; intros ws s Hh Hk; cbn.
    - exists ws. split; [done|]. eapply eq_ind; [exact Hh|]. set_solver.
    - apply Forall_cons in Hk as [Hk Hks]. destruct (IH ws s Hh Hks) as (ws1 & -> & Hh1).
      destruct (fetch_or_holds k _ _ _ Hh1 Hk) as (w & ws2 & Hfo & Hh2 & _). exists ws2. cbn. rewrite Hfo.
      split; [done|]. eapply eq_ind; [exact Hh2|]. set_solver. }
  destruct (Hf sample_keys _ _ H0) as (ws & Hws & Hh); [repeat constructor; lia|].
  vm_compute in Hws. injection Hws as <-. cbn [bits_ key_domain sample].
  eapply eq_ind; [exact Hh|]. apply union_empty_r_L.
Qed.

Lemma sample_length : length (keys_of sample (list_to_set sample_keys) ∅ kNewest 0 99) = 6%nat.
Proof.
  pose proof (CountPresent_spec sample _ _ kNewest 0 99 membership_sample ltac:(lia)) as H.
  assert (CountPresent 0 99 kNewest sample = 6) as E by (by vm_compute). lia.
Qed.

Lemma cursor_spread_witness :
  drain 3 sample (NewCursor 0 99 3 kNewest sample) = [1; 63; 70] /\
  Z.of_nat (length (drain (Z.to_nat 3) sample (NewCursor 0 99 3 kNewest sample))) =
    Z.min 3 (Z.of_nat (length (keys_of sample (list_to_set sample_keys) ∅ kNewest 0 99))).
Proof.
  split; [by vm_compute|].
  apply (cursor_spread sample (list_to_set sample_keys) ∅ kNewest 0 99 3 membership_sample); [lia|lia|].
  rewrite sample_length. by vm_compute.
Defined.

Lemma Claim_partition_witness :
  exists m', Claim 63 sample = Some m' /\ models m' (list_to_set sample_keys) ({[63]} ∪ ∅) /\
    CountPresent 60 200 kPresent m' = CountPresent 60 200 kNewest m' + CountPresent 60 200 kStale m' /\
    Total m' = Z.of_nat (size (list_to_set sample_keys : gset Z)) /\
    ClaimedTotal m' = Z.of_nat (size ({[63]} ∪ ∅ : gset Z)).
Proof.
  apply (Claim_partition sample (list_to_set sample_keys) ∅ 63 60 200 membership_sample);
    [reflexivity|cbn; lia|lia].
Defined.

End Membership.
