(* ===== verification/Stream.v ===== *)
(** * The key stream of a synthetic load

    [BaselineKeyStream] of [tools/db_bench_tool.cc]: one thread draws the keys of
    the write path in batches and pushes them on a bounded queue from which the
    Phase 1 shards pop.  The two threads are interleaved at the critical sections
    of the class's mutex.  The generator ([std::mt19937_64] behind [Random64]) is a
    parameter: any function from a state to a value and a state.  Counts are
    natural numbers: [emitted] never exceeds [total]. *)

From Stdlib Require Import ZArith Lia.
From stdpp Require Import base numbers list relations.
From S2P Require Import Prelude.

Local Open Scope Z_scope.

Module Stream.

Section stream.
Context {gen : Type} (next : gen -> Z * gen).
Context (seed : gen) (domain : Z) (total batch_arg depth_arg : nat).

(** The constructor's bounds. *)
Definition batch_keys : nat := Nat.max 1 batch_arg.
Definition depth : nat := Nat.max 1 depth_arg.

(** [n] keys: one draw picks the key generator, the next one is the key. *)
Fixpoint draw (n : nat) (g : gen) : list Z * gen :=
  match n with
  | O => ([], g)
  | S n =>
      let g := (next g).2 in
      let '(x, g) := next g in
      let '(l, g) := draw n g in
      (x mod domain :: l, g)
  end.

(** ** State *)

(** The producer: at the loop head, holding a chunk, or past the loop. *)
Inductive Producer :=
| Drawing (emitted : nat) (g : gen)
| Holding (emitted : nat) (g : gen) (chunk : list Z)
| Leaving
| Done.

Record State := mkState {
  producer : Producer;
  queue_ : list (list Z);
  finished_ : bool;
  stop_ : bool;
  delivered : list (list Z);
}.

Definition start : State := mkState (Drawing 0 seed) [] false false [].

(** ** Steps *)

(** The producer's next critical section, if it is not blocked. *)
Definition produce (st : State) : option State :=
  match producer st with
  | Drawing emitted g =>
      if decide (emitted < total)%nat then
        let n := Nat.min batch_keys (total - emitted) in
        let '(chunk, g) := draw n g in
        Some (mkState (Holding (emitted + n) g chunk) (queue_ st) (finished_ st) (stop_ st) (delivered st))
      else Some (mkState Leaving (queue_ st) (finished_ st) (stop_ st) (delivered st))
  | Holding emitted g chunk =>
      if decide (length (queue_ st) < depth \/ stop_ st = true)%nat then
        if stop_ st then Some (mkState Leaving (queue_ st) (finished_ st) (stop_ st) (delivered st))
        else Some (mkState (Drawing emitted g) (queue_ st ++ [chunk]) (finished_ st) (stop_ st) (delivered st))
      else None
  | Leaving => Some (mkState Done (queue_ st) true (stop_ st) (delivered st))
  | Done => None
  end.

(** [Next]: blocked, or the next batch, or false at the end. *)
Inductive Popped := Blocked | Batch (chunk : list Z) (st : State) | End.

Definition Next (st : State) : Popped :=
  match queue_ st with
  | chunk :: queue =>
      Batch chunk (mkState (producer st) queue (finished_ st) (stop_ st) (delivered st ++ [chunk]))
  | [] => if finished_ st then End else Blocked
  end.

Definition Stop (st : State) : State :=
  mkState (producer st) (queue_ st) (finished_ st) true (delivered st).

(** A step of the producer or of a consumer; [Stop] is a step of its own. *)
Inductive step : State -> State -> Prop :=
| step_produce st st' : produce st = Some st' -> step st st'
| step_next st st' chunk : Next st = Batch chunk st' -> step st st'.

Inductive step_or_stop : State -> State -> Prop :=
| sos_step st st' : step st st' -> step_or_stop st st'
| sos_stop st : step_or_stop st (Stop st).

(** ** Invariant *)

Definition all_keys : list Z := (draw total seed).1.
Definition batch (i : nat) : list Z := take batch_keys (drop (i * batch_keys) all_keys).

Definition held (p : Producer) : list (list Z) := match p with Holding _ _ c => [c] | _ => [] end.

Record inv (st : State) : Prop := {
  i_chunks : exists k, delivered st ++ queue_ st ++ (if stop_ st then [] else held (producer st)) =
               batch <$> seq 0 k /\ (forall i, (i < k)%nat -> (i * batch_keys < total)%nat) /\
               match producer st with
               | Drawing e g | Holding e g _ =>
                   stop_ st = false ->
                   e = Nat.min total (k * batch_keys) /\ g = (draw e seed).2
               | Leaving | Done => stop_ st = false -> (total <= k * batch_keys)%nat
               end;
  i_depth : (length (queue_ st) <= depth)%nat;
  i_finished : finished_ st = true <-> producer st = Done;
}.

Lemma draw_add a b g : draw (a + b) g =
  ((draw a g).1 ++ (draw b (draw a g).2).1, (draw b (draw a g).2).2).
Proof.
  revert g. induction a as [|a IH]; intros g; cbn; [by destruct (draw b g)|].
  destruct (next (next g).2) as [x g1]. rewrite IH. by destruct (draw a g1).
Qed.

Lemma draw_length n g : length (draw n g).1 = n.
Proof.
  revert g. induction n as [|n IH]; intros g; cbn; [done|].
  destruct (next (next g).2) as [x g1]. specialize (IH g1). destruct (draw n g1). cbn in *. by rewrite IH.
Qed.

Lemma draw_range n g : 0 < domain -> Forall (fun k => 0 <= k < domain) (draw n g).1.
Proof.
  intros Hd. revert g. induction n as [|n IH]; intros g; cbn; [constructor|].
  destruct (next (next g).2) as [x g1]. specialize (IH g1). destruct (draw n g1). constructor; [|done].
  by apply Z.mod_pos_bound.
Qed.

(** The chunk drawn at a batch boundary is the batch. *)
Lemma draw_batch k : (k * batch_keys < total)%nat ->
  (draw (Nat.min batch_keys (total - k * batch_keys)) (draw (k * batch_keys) seed).2).1 = batch k.
Proof.
  intros Hk. set (n := Nat.min _ _). unfold batch, all_keys.
  replace total with (k * batch_keys + (n + (total - k * batch_keys - n)))%nat by lia.
  rewrite draw_add. cbn [fst]. rewrite drop_app_length' by (by rewrite draw_length).
  rewrite draw_add. cbn [fst]. destruct (decide (n = batch_keys)) as [E|E].
  - by rewrite <- E, take_app_length' by (by rewrite draw_length).
  - replace (total - k * batch_keys - n)%nat with 0%nat by lia. cbn. rewrite app_nil_r.
    rewrite take_ge; [done|]. rewrite draw_length. lia.
Qed.

Lemma batch_keys_pos : (0 < batch_keys)%nat.
Proof. unfold batch_keys. lia. Qed.

Lemma stream_start : inv start.
Proof. split; cbn; [|lia|done]. exists 0%nat. split; [done|]. split; [lia|]. intros _. split; [lia|]. by replace (Nat.min total 0) with 0%nat by lia. Qed.

Lemma fmap_seq_snoc {A} (f : nat -> A) l x k : l = f <$> seq 0 k -> x = f k -> l ++ [x] = f <$> seq 0 (S k).
Proof. intros -> ->. by rewrite seq_S, fmap_app. Qed.

Lemma produce_inv st st' : inv st -> produce st = Some st' -> inv st'.
Proof.
  pose proof batch_keys_pos as Hb. intros [(k & Hc & Hn & Hk) Hd Hfin] Hp. unfold produce in Hp.
  destruct (producer st) as [e g|e g c| |] eqn:E; cbn [held] in Hc.
  - destruct (decide _) as [Hlt|Hge]; [destruct (draw _ g) as [chunk g'] eqn:Hdr|]; injection Hp as <-.
    + split; cbn; [|done|by rewrite Hfin]. destruct (stop_ st).
      * exists k. by rewrite Hc.
      * destruct (Hk eq_refl) as [He Hg]. exists (S k). assert (e = k * batch_keys)%nat as -> by lia. split; [|split].
        -- rewrite !app_nil_r in Hc. rewrite app_assoc. apply fmap_seq_snoc; [done|].
           rewrite <- draw_batch by lia. rewrite <- Hg, Hdr. done.
        -- intros i Hi. destruct (decide (i = k)) as [->|]; [lia|]. apply Hn. lia.
        -- intros _. split; [lia|]. rewrite draw_add. cbn [snd]. by rewrite <- Hg, Hdr.
    + split; cbn; [|done|by rewrite Hfin]. exists k. split; [by destruct (stop_ st)|]. split; [done|]. intros Hs. specialize (Hk Hs). lia.
  - destruct (decide _) as [Hq|]; [|done]. destruct (stop_ st) eqn:Hs; injection Hp as <-.
    + split; cbn; [|done|by rewrite Hfin]. exists k. split; [done|]. split; [done|]. discriminate.
    + split; cbn; [|rewrite length_app; cbn; destruct Hq; [lia|done]|by rewrite Hfin].
      exists k. split; [|by split]. rewrite app_nil_r. done.
  - injection Hp as <-. split; cbn; [|done|done]. exists k. split; [by destruct (stop_ st)|by split].
  - done.
Qed.

Lemma Next_inv st st' c : inv st -> Next st = Batch c st' -> inv st'.
Proof.
  intros [(k & Hc & Hb & Hk) Hd Hfin] Hn. unfold Next in Hn.
  destruct (queue_ st) as [|c' q] eqn:E; [by destruct (finished_ st)|]. injection Hn as <- <-.
  split; cbn in *; [|lia|done]. exists k. split; [|by split]. rewrite <- Hc, <- !app_assoc. done.
Qed.

Lemma Stop_inv st : inv st -> inv (Stop st).
Proof.
  intros [(k & Hc & Hb & Hk) Hd Hfin]. split; cbn; [|done|done].
  assert (exists k', delivered st ++ queue_ st ++ [] = batch <$> seq 0 k' /\ (k' <= k)%nat) as (k' & Hk' & Hle).
  { destruct (stop_ st); [by exists k|]. destruct (producer st) as [e g|e g c| |]; try by exists k.
    destruct k as [|k]; [by destruct (delivered st), (queue_ st)|]. exists k. split; [|lia].
    rewrite seq_S, fmap_app, app_assoc in Hc. apply app_inj_2 in Hc as [Hc _]; [|done]. by rewrite app_nil_r. }
  exists k'. split; [done|]. split; [intros i Hi; apply Hb; lia|]. by destruct (producer st).
Qed.

Lemma stream_reachable st : rtc step_or_stop start st -> inv st.
Proof.
  intros Hr. remember start as s0 eqn:E. assert (inv s0) as Hi by (subst; apply stream_start). clear E.
  induction Hr as [|s1 s2 s3 Hs _ IH]; [done|]. apply IH.
  destruct Hs as [? ? []|]; eauto using produce_inv, Next_inv, Stop_inv.
Qed.

(** ** Progress *)

(** Work left: keys to draw, and the moves of the chunk in hand and of the queue. *)
Definition work (st : State) : nat :=
  match producer st with
  | Drawing e _ => 3 * (total - e) + 2
  | Holding e _ _ => 3 * (total - e) + 4
  | Leaving => 1
  | Done => 0
  end + length (queue_ st).

Lemma step_work st st' : step st st' -> (work st' < work st)%nat.
Proof.
  pose proof batch_keys_pos as Hb. intros [s1 s2 Hp|s1 s2 c Hn].
  - unfold produce in Hp. unfold work. destruct (producer s1) as [e g|e g c| |]; [| | |done].
    + destruct (decide _); [destruct (draw _ g)|]; injection Hp as <-; cbn; lia.
    + destruct (decide _); [|done]. destruct (stop_ s1); injection Hp as <-; cbn; rewrite ?length_app; cbn; lia.
    + injection Hp as <-. cbn. lia.
  - unfold Next in Hn. unfold work. destruct (queue_ s1); [by destruct (finished_ s1)|]. injection Hn as <- <-. cbn. lia.
Qed.

(** A state in which no step is possible is the end of the stream. *)
Lemma stuck_done st : inv st -> (forall st', ~ step st st') -> producer st = Done /\ queue_ st = [] /\ finished_ st = true.
Proof.
  intros [_ _ Hfin] Hstuck. assert (queue_ st = []) as Hq.
  { destruct (queue_ st) as [|c q] eqn:E; [done|]. edestruct Hstuck. eapply step_next. unfold Next. by rewrite E. }
  assert (producer st = Done) as Hd; [|by rewrite Hfin].
  assert (produce st = None) as Hp.
  { destruct (produce st) as [st'|] eqn:E; [|done]. by destruct (Hstuck st' (step_produce _ _ E)). }
  unfold produce in Hp. destruct (producer st) as [e g|e g c| |] eqn:E; [| |done|done].
  - destruct (decide _); [destruct (draw _ g)|]; done.
  - rewrite Hq in Hp. cbn in Hp. rewrite decide_True in Hp by (left; unfold depth; lia). by destruct (stop_ st).
Qed.

(** The batches joined are the stream. *)
Lemma join_batches k : mjoin (batch <$> seq 0 k) = take (k * batch_keys) all_keys.
Proof.
  induction k as [|k IH]; [done|]. rewrite seq_S, fmap_app, join_app, IH. cbn. rewrite app_nil_r.
  unfold batch. rewrite take_take_drop. f_equal. lia.
Qed.

Lemma rtc_step_stop st st' : rtc step st st' -> stop_ st = false -> stop_ st' = false /\ rtc step_or_stop st st'.
Proof.
  induction 1 as [|s1 s2 s3 Hs _ IH]; intros H0; [by split; [|constructor]|].
  destruct IH as [H1 H2].
  - destruct Hs as [s1 s2 Hp|s1 s2 c Hn].
    + unfold produce in Hp. destruct (producer s1) as [e g|e g c| |]; [| | |done];
        repeat (destruct (decide _) || destruct (draw _ _)); try rewrite H0 in Hp; by inversion Hp.
    + unfold Next in Hn. destruct (queue_ s1); [by destruct (finished_ s1)|]. by injection Hn as _ <-.
  - split; [done|]. econstructor; [by constructor|done].
Qed.

(** At the end the batches delivered are all of them, none of which is empty. *)
Lemma end_batches st : inv st -> Next st = End -> stop_ st = false ->
  exists k, delivered st = batch <$> seq 0 k /\ (total <= k * batch_keys)%nat /\
    forall i, (i < k)%nat -> (i * batch_keys < total)%nat.
Proof.
  intros [(k & Hc & Hb & Hk) _ Hfin] He Hs. unfold Next in He. destruct (queue_ st); [|done].
  destruct (finished_ st); [|done]. rewrite (proj1 Hfin eq_refl), Hs in *. cbn in Hc. rewrite app_nil_r in Hc.
  exists k. auto.
Qed.

Lemma end_delivers st : inv st -> Next st = End -> stop_ st = false -> mjoin (delivered st) = all_keys.
Proof.
  intros Hi He Hs. destruct (end_batches st Hi He Hs) as (k & -> & Hk & _).
  rewrite join_batches. apply take_ge. unfold all_keys. by rewrite draw_length.
Qed.

(** ** Properties *)

(** Whatever the interleaving, and also after [Stop], the batches handed over so
    far are the first ones of the stream in the order they were drawn, the queue
    never exceeds its depth, and when [Next] returns false without a [Stop] every
    key of the stream has been handed over. *)
Theorem batches_in_order st (Hr : rtc step_or_stop start st) :
  (exists k, delivered st = batch <$> seq 0 k) /\ (length (queue_ st) <= depth)%nat /\
  (Next st = End -> stop_ st = false -> mjoin (delivered st) = all_keys).
Proof.
  destruct (stream_reachable st Hr) as [(k & Hc & Hb & Hk) Hd Hfin]. split_and!; [|done|].
  - exists (length (delivered st)). apply (f_equal (take (length (delivered st)))) in Hc as Ht.
    rewrite take_app_length in Ht. etrans; [exact Ht|]. rewrite <- fmap_take, take_seq. do 2 f_equal.
    apply (f_equal length) in Hc. rewrite length_fmap, length_seq, length_app in Hc. lia.
  - apply end_delivers. by apply stream_reachable.
Qed.

(** C40: Without [Stop] the threads never deadlock: every run ends after a bounded
    number of steps, and a run that cannot continue has handed over the whole
    stream, with [Next] returning false from then on. *)
Theorem stream_completes st n (Hr : nsteps step n start st) :
  (n <= 3 * total + 2)%nat /\
  ((forall st', ~ step st st') -> Next st = End /\ mjoin (delivered st) = all_keys).
Proof.
  assert (work st + n <= work start)%nat as Hwork.
  { clear -Hr. induction Hr as [|n s1 s2 s3 Hs _ IH]; [lia|]. apply step_work in Hs. lia. }
  split; [cbn in Hwork; lia|]. intros Hstuck.
  destruct (rtc_step_stop start st) as [Hs Hr']; [by eapply rtc_nsteps_2|done|].
  destruct (stuck_done st (stream_reachable st Hr') Hstuck) as (Hd & Hq & Hfin).
  assert (Next st = End) as He by (unfold Next; by rewrite Hq, Hfin).
  split; [done|]. apply end_delivers; [by apply stream_reachable|done|done].
Qed.

End stream.

(** A generator that counts; three keys in batches of two through a queue of one. *)
Definition sample_next (g : Z) : Z * Z := (g, g + 1).
Definition sample_end : State (gen := Z) := mkState Done [] true false [[1; 3]; [5]].

Lemma sample_steps : nsteps (step sample_next 10 3 2 1) 8 (start 0) sample_end.
Proof.
  eapply nsteps_l; [eapply step_produce; reflexivity|]. eapply nsteps_l; [eapply step_produce; reflexivity|].
  eapply nsteps_l; [eapply step_next; reflexivity|]. eapply nsteps_l; [eapply step_produce; reflexivity|].
  eapply nsteps_l; [eapply step_produce; reflexivity|]. eapply nsteps_l; [eapply step_produce; reflexivity|].
  eapply nsteps_l; [eapply step_produce; reflexivity|]. eapply nsteps_l; [eapply step_next; reflexivity|].
  apply nsteps_O.
Qed.

Lemma batches_in_order_witness :
  (exists k, [[1; 3]; [5]] = batch sample_next 0 10 3 2 <$> seq 0 k) /\ (0 <= depth 1)%nat /\
  (Next sample_end = End -> false = false -> mjoin [[1; 3]; [5]] = all_keys sample_next 0 10 3).
Proof.
  apply (batches_in_order sample_next 0 10 3 2 1 sample_end).
  apply (rtc_subrel (step sample_next 10 3 2 1)); [by constructor|]. by eapply rtc_nsteps_2, sample_steps.
Defined.

Lemma stream_completes_witness :
  (8 <= 3 * 3 + 2)%nat /\
  ((forall st', ~ step sample_next 10 3 2 1 sample_end st') ->
   Next sample_end = End /\ mjoin (delivered sample_end) = all_keys sample_next 0 10 3).
Proof. apply (stream_completes sample_next 0 10 3 2 1 sample_end 8 sample_steps). Defined.

End Stream.
