(* ===== verification/TraceGen.v ===== *)
(** * The load trace generator

    [tools/generate_load_trace_fast.cc]: the random generator, the affine key
    mapping and the main loop that introduces exactly [unique_count] keys.  The
    [libm] functions [exp], [log] and [pow] are parameters; every other operation
    is written out.  A float-to-integer cast that C++ leaves undefined is [None]. *)

From Stdlib Require Import ZArith Lia SpecFloat Znumtheory.
From stdpp Require Import base numbers option list gmap.
From S2P Require Import Prelude FloatModel.

Local Open Scope Z_scope.

Module TraceGen.

(** ** SplitMix64 *)

(** [Next]: the value and the state. *)
Definition Next (state_ : Z) : Z * Z :=
  let state_ := state_ +% 0x9e3779b97f4a7c15 in
  let z := Z.lxor state_ (Z.shiftr state_ 30) *% 0xbf58476d1ce4e5b9 in
  let z := Z.lxor z (Z.shiftr z 27) *% 0x94d049bb133111eb in
  (Z.lxor z (Z.shiftr z 31), state_).

(** [(Next() >> 11) * (1.0 / 9007199254740992.0)]. *)
Definition UniformDouble (rng : Z) : spec_float * Z :=
  let '(x, rng) := Next rng in
  (F64.mul (F64.of_Z (Z.shiftr x 11)) (F64.div (F64.of_Z 1) (F64.of_Z 9007199254740992)), rng).

Definition Bounded (bound rng : Z) : Z * Z :=
  if decide (bound <= 1) then (0, rng) else let '(x, rng) := Next rng in (x mod bound, rng).

(** ** The affine mapping *)

Fixpoint coprime_loop (fuel : nat) (candidate modulus : Z) : option Z :=
  if decide (Z.gcd candidate modulus = 1) then Some candidate
  else match fuel with
       | O => None
       | S fuel =>
           let candidate := candidate +% 2 in
           coprime_loop fuel (if decide (modulus <= candidate) then 1 else candidate) modulus
       end.

Definition ChooseCoprimeMultiplier (fuel : nat) (modulus rng : Z) : option (Z * Z) :=
  if decide (modulus <= 1) then Some (0, rng)
  else
    let '(x, rng) := Bounded (modulus - 1) rng in
    let candidate := x +% 1 in
    let candidate := if decide (Z.land candidate 1 = 0) then candidate +% 1 else candidate in
    match coprime_loop fuel candidate modulus with
    | Some c => Some (c, rng)
    | None => None
    end.

(** [dense_to_key_id]: the product and the sum wrap. *)
Definition dense_to_key_id (key_domain multiplier offset rank : Z) : Z :=
  if decide (key_domain <= 1) then 0 else (multiplier *% rank +% offset) mod key_domain.

(** ** The main loop *)

Section generator.
Context (exp log : spec_float -> spec_float) (pow : spec_float -> spec_float -> spec_float).

Definition trunc_u64 (x : spec_float) : option Z := trunc_Z x ≫= as_u64.

Definition SampleExistingRank (existing : Z) (alpha : spec_float) (rng : Z) : option (Z * Z) :=
  if decide (existing <= 1) then Some (0, rng)
  else if fle alpha fzero then Some (Bounded existing rng)
  else
    let '(u, rng) := UniformDouble rng in
    let rank :=
      if flt (fabs (F64.sub alpha (F64.of_Z 1))) F64.lit_1em9
      then trunc_u64 (exp (F64.mul u (log (F64.of_Z existing))))
      else
        let one_minus_alpha := F64.sub (F64.of_Z 1) alpha in
        let high := pow (F64.of_Z existing) one_minus_alpha in
        trunc_u64 (pow (F64.add (F64.mul u (F64.sub high (F64.of_Z 1))) (F64.of_Z 1))
                     (F64.div (F64.of_Z 1) one_minus_alpha)) in
    match rank with
    | None => None
    | Some rank =>
        let rank := if decide (rank = 0) then 1 else rank in
        let rank := if decide (existing < rank) then existing else rank in
        Some (rank - 1, rng)
    end.

Context (num_records unique_count : Z) (zipf_alpha : spec_float) (key_of : Z -> Z).

(** One iteration: the dense rank, and the new [introduced] and generator. *)
Definition next_rank (i introduced rng : Z) : option (Z * Z * Z) :=
  let remaining_ops := num_records - i in
  let remaining_new := if decide (introduced < unique_count) then unique_count - introduced else 0 in
  let sample rng :=
    match SampleExistingRank introduced zipf_alpha rng with
    | Some (rank, rng) => Some (rank, introduced, rng)
    | None => None
    end in
  if decide (remaining_new = 0) then sample rng
  else if decide (remaining_ops <= remaining_new \/ introduced = 0) then Some (introduced, introduced +% 1, rng)
  else
    let p := F64.div (F64.of_Z remaining_new) (F64.of_Z remaining_ops) in
    let '(u, rng) := UniformDouble rng in
    if flt u p then Some (introduced, introduced +% 1, rng) else sample rng.

(** The loop over the records: [chunk] is flushed to [file] when it is full. *)
Fixpoint record_loop (n : nat) (chunk_records : Z) (i introduced rng : Z) (chunk file : list Z)
    : option (list Z) :=
  match n with
  | O => Some (file ++ chunk)
  | S n =>
      match next_rank i introduced rng with
      | None => None
      | Some (dense_rank, introduced, rng) =>
          let chunk := chunk ++ [key_of dense_rank] in
          if decide (chunk_records <= Z.of_nat (length chunk))
          then record_loop n chunk_records (i + 1) introduced rng [] (file ++ chunk)
          else record_loop n chunk_records (i + 1) introduced rng chunk file
      end
  end.

(** The dense ranks of the loop. *)
Fixpoint ranks (n : nat) (i introduced rng : Z) : option (list Z) :=
  match n with
  | O => Some []
  | S n =>
      match next_rank i introduced rng with
      | None => None
      | Some (dense_rank, introduced, rng) => cons dense_rank <$> ranks n (i + 1) introduced rng
      end
  end.

(** Flushing by chunks writes the keys of the ranks in order. *)
Lemma record_loop_ranks n c : forall i introduced rng chunk file,
  record_loop n c i introduced rng chunk file =
  (fun l => file ++ chunk ++ (key_of <$> l)) <$> ranks n i introduced rng.
Proof.
  induction n as [|n IH]; intros i introduced rng chunk file; cbn [record_loop ranks].
  { cbn. by rewrite app_nil_r. }
  destruct (next_rank i introduced rng) as [[[r int] g]|]; [|done].
  case_decide; rewrite IH; destruct (ranks n _ _ _); cbn; rewrite ?app_nil_r, <- ?app_assoc; done.
Qed.

Lemma Bounded_range bound rng : 1 <= bound -> 0 <= (Bounded bound rng).1 < bound.
Proof.
  intros Hb. unfold Bounded. destruct (decide _); cbn; [lia|]. destruct (Next rng). cbn. apply Z.mod_pos_bound. lia.
Qed.

Lemma Sample_range existing rng rank rng' : 1 <= existing ->
  SampleExistingRank existing zipf_alpha rng = Some (rank, rng') -> 0 <= rank < existing.
Proof.
  intros He. unfold SampleExistingRank. destruct (decide _) as [|H1]; [intros [= <- _]; lia|].
  destruct (fle _ _).
  { intros [= Hb]. pose proof (Bounded_range existing rng He). by rewrite Hb in *. }
  destruct (UniformDouble rng) as [u g]. set (r := if flt _ _ then _ else _).
  assert (forall z, r = Some z -> 0 <= z) as Hr.
  { assert (forall x z, trunc_u64 x = Some z -> 0 <= z) as Ht.
    { intros x z. unfold trunc_u64, as_u64. destruct (trunc_Z x); cbn; [|done]. case_decide; [|done]. intros [= <-]. lia. }
    intros z. subst r. destruct (flt _ _); apply Ht. }
  destruct r as [z|]; [|done]. specialize (Hr z eq_refl). intros [= <- _]. repeat case_decide; lia.
Qed.

(** One iteration keeps what is left to introduce within what is left to write. *)
Lemma next_rank_spec i introduced rng r int g : 0 <= introduced <= unique_count -> 1 <= unique_count <= u64_max ->
  unique_count - introduced <= num_records - i -> 1 <= num_records - i ->
  next_rank i introduced rng = Some (r, int, g) ->
  (int = introduced /\ 0 <= r < introduced /\ unique_count - introduced <= num_records - i - 1) \/
  (int = introduced + 1 /\ r = introduced /\ introduced < unique_count).
Proof.
  intros Hi Hu Hle Hn. unfold next_rank.
  assert (forall rng, 1 <= introduced -> match SampleExistingRank introduced zipf_alpha rng with
    | Some (rank, rng) => Some (rank, introduced, rng) | None => None end = Some (r, int, g) ->
    int = introduced /\ 0 <= r < introduced) as Hs.
  { intros rng0 H1. destruct (SampleExistingRank introduced zipf_alpha rng0) as [[r0 g0]|] eqn:E; [|done].
    intros [= <- <- <-]. split; [done|]. by eapply Sample_range. }
  assert (introduced < unique_count -> introduced +% 1 = introduced + 1) as Hw.
  { intros ?. apply u64_small. unfold is_u64. lia. }
  destruct (decide (introduced < unique_count)) as [Hlt|Hge].
  - rewrite decide_False by lia. destruct (decide _) as [Hd|Hd].
    + intros [= <- <- <-]. right. auto with lia.
    + destruct (UniformDouble rng) as [u g']. destruct (flt u _).
      * intros [= <- <- <-]. right. auto with lia.
      * intros H%Hs; [left|lia]. destruct H. split_and!; [done|lia|lia|lia].
  - rewrite decide_True by done. intros H%Hs; [left|lia]. destruct H. split_and!; [done|lia|lia|lia].
Qed.

(** The ranks are below [unique_count], and those not yet introduced all occur. *)
Lemma ranks_spec n : forall i introduced rng l, ranks n i introduced rng = Some l ->
  0 <= introduced <= unique_count -> 1 <= unique_count <= u64_max ->
  unique_count - introduced <= Z.of_nat n -> num_records - i = Z.of_nat n ->
  length l = n /\ (forall r, r ∈ l -> 0 <= r < unique_count) /\
  (forall r, introduced <= r < unique_count -> r ∈ l).
Proof.
  induction n as [|n IH]; intros i introduced rng l Hr Hi Hu Hle Hn; cbn [ranks] in Hr.
  { injection Hr as <-. split_and!; [done| |lia]. by intros r ?%elem_of_nil. }
  destruct (next_rank i introduced rng) as [[[r int] g]|] eqn:E; [|done].
  destruct (ranks n (i + 1) int g) as [l'|] eqn:El; [|done]. injection Hr as <-.
  apply next_rank_spec in E as [(-> & Hr & Hle')|(-> & -> & Hlt)]; [| |lia..].
  - destruct (IH _ _ _ _ El) as (H1 & H2 & H3); [lia..|]. split_and!.
    + cbn. by rewrite H1.
    + intros r' [->|Hin]%elem_of_cons; [lia|auto].
    + intros r' Hr'. right. apply H3. lia.
  - destruct (IH _ _ _ _ El) as (H1 & H2 & H3); [lia..|]. split_and!.
    + cbn. by rewrite H1.
    + intros r' [->|Hin]%elem_of_cons; [lia|auto].
    + intros r' Hr'. destruct (decide (r' = introduced)) as [->|]; [by left|]. right. apply H3. lia.
Qed.

(** Uniform repeats use no float-to-integer cast. *)
Lemma ranks_uniform n : fle zipf_alpha fzero = true -> forall i introduced rng, is_Some (ranks n i introduced rng).
Proof.
  intros Ha. assert (forall e g, is_Some (SampleExistingRank e zipf_alpha g)) as Hs.
  { intros e g. unfold SampleExistingRank. destruct (decide _); [done|]. by rewrite Ha. }
  assert (forall i introduced rng, is_Some (next_rank i introduced rng)) as Hn.
  { intros i introduced rng. unfold next_rank.
    assert (forall g, is_Some (match SampleExistingRank introduced zipf_alpha g with
      | Some (rank, rng) => Some (rank, introduced, rng) | None => None end)) as Hs'.
    { intros g. by destruct (Hs introduced g) as [[? ?] ->]. }
    destruct (UniformDouble rng) as [u g]. repeat case_decide; try done; try apply Hs'; by destruct (flt u _). }
  induction n as [|n IH]; intros i introduced rng; cbn [ranks]; [done|].
  destruct (Hn i introduced rng) as [[[r int] g] ->]. destruct (IH (i + 1) int g) as [l ->]. done.
Qed.

End generator.

(** ** The mapping is a permutation *)

(** Enough fuel: from an odd candidate the loop reaches 1 at the latest. *)
Lemma coprime_loop_spec fuel : forall candidate modulus, 2 <= modulus <= u64_max ->
  1 <= candidate <= modulus -> Z.odd candidate = true -> modulus - candidate + 1 < Z.of_nat fuel ->
  exists c, coprime_loop fuel candidate modulus = Some c /\ 1 <= c < modulus /\ Z.gcd c modulus = 1.
Proof.
  induction fuel as [|fuel IH]; intros candidate modulus Hm Hc Ho Hf; [lia|]. cbn [coprime_loop].
  destruct (decide _) as [Hg|Hg].
  { exists candidate. split_and!; try done; [lia|].
    destruct (decide (candidate = modulus)) as [->|]; [|lia]. rewrite Z.gcd_diag in Hg. lia. }
  assert (forall f, (0 < f)%nat -> exists c, coprime_loop f 1 modulus = Some c /\ 1 <= c < modulus /\ Z.gcd c modulus = 1) as H1.
  { intros f _. exists 1. destruct f; cbn [coprime_loop]; rewrite decide_True by apply Z.gcd_1_l;
      (split_and!; [done|lia|lia|apply Z.gcd_1_l]). }
  destruct (decide (candidate + 2 < modulus)) as [Hlt|Hge].
  - rewrite u64_small by solve_u64. rewrite decide_False by lia.
    apply IH; [lia|lia| |lia]. by rewrite Z.odd_add, Ho.
  - destruct (decide (candidate + 2 <= u64_max)) as [Hs|Hs].
    + rewrite u64_small by solve_u64. rewrite decide_True by lia. apply H1. lia.
    + assert (candidate = u64_max) as ->.
      { destruct (decide (candidate = u64_max - 1)) as [->|]; [by vm_compute in Ho|unfold u64_max in *; lia]. }
      destruct (decide _); apply H1; lia.
Qed.

Lemma Bounded_u64 bound rng : is_u64 bound -> is_u64 (Bounded bound rng).1.
Proof.
  intros Hb. destruct (decide (1 <= bound)) as [H|H]; unfold is_u64 in *.
  - pose proof (Bounded_range bound rng H). lia.
  - unfold Bounded. rewrite decide_True by lia. cbn. lia.
Qed.

Lemma ChooseCoprime_spec fuel modulus rng : 2 <= modulus <= u64_max -> modulus + 1 < Z.of_nat fuel ->
  exists c g, ChooseCoprimeMultiplier fuel modulus rng = Some (c, g) /\ 1 <= c < modulus /\ Z.gcd c modulus = 1.
Proof.
  intros Hm Hf. unfold ChooseCoprimeMultiplier. rewrite decide_False by lia.
  pose proof (Bounded_range (modulus - 1) rng ltac:(lia)) as Hb. destruct (Bounded _ rng) as [x g]. cbn in Hb.
  rewrite (u64_small (x + 1)) by (unfold is_u64; lia).
  set (cand := if decide _ then _ else _).
  assert (1 <= cand <= modulus /\ Z.odd cand = true) as [Hc Ho].
  { assert (Z.land (x + 1) 1 = if Z.odd (x + 1) then 1 else 0) as Hl.
    { change 1 with (Z.ones 1) at 2. rewrite Z.land_ones, Zmod_odd by lia. done. }
    subst cand. rewrite Hl. destruct (Z.odd (x + 1)) eqn:E.
    - rewrite decide_False by lia. split; [lia|done].
    - rewrite decide_True by done. rewrite u64_small by solve_u64. split; [lia|]. by rewrite Z.odd_add, E. }
  destruct (coprime_loop_spec fuel cand modulus Hm Hc Ho ltac:(lia)) as (c & -> & H1 & H2). eauto.
Qed.

(** Distinct ranks get distinct keys while the product stays within 64 bits. *)
Lemma dense_inj d m o r1 r2 : 2 <= d -> 0 <= m < d -> 0 <= o < d -> Z.gcd m d = 1 ->
  0 <= r1 < d -> 0 <= r2 < d -> m * r1 + o <= u64_max -> m * r2 + o <= u64_max ->
  dense_to_key_id d m o r1 = dense_to_key_id d m o r2 -> r1 = r2.
Proof.
  intros Hd Hm Ho Hg H1 H2 Hb1 Hb2. unfold dense_to_key_id. rewrite !decide_False by lia.
  assert (forall r, 0 <= r -> m * r + o <= u64_max -> m *% r +% o = m * r + o) as Hs.
  { intros r Hr Hb. rewrite (u64_small (m * r)), u64_small; [done|..]; unfold is_u64; nia. }
  rewrite (Hs r1), (Hs r2) by lia. intros Heq.
  assert (d | m * (r1 - r2)) as Hz.
  { exists ((m * r1 + o) / d - (m * r2 + o) / d).
    pose proof (Z.div_mod (m * r1 + o) d ltac:(lia)). pose proof (Z.div_mod (m * r2 + o) d ltac:(lia)).
    rewrite Z.mul_sub_distr_l, Z.mul_sub_distr_r, !(Z.mul_comm (_ / d)). lia. }
  apply Z.gauss in Hz; [|by rewrite Z.gcd_comm].
  destruct Hz as [q Hq]. assert (q < 1 /\ -1 < q) as [? ?].
  { clear - Hq H1 H2. split; nia. }
  assert (q = 0) as -> by lia. lia.
Qed.

Lemma dense_range d m o r : 1 <= d -> 0 <= dense_to_key_id d m o r < d.
Proof. intros Hd. unfold dense_to_key_id. case_decide; [lia|]. apply Z.mod_pos_bound. lia. Qed.

(** ** The program *)

(** The values [main] reads of the parsed options; [None] where it was not given. *)
Record Args := mkArgs {
  num : option Z; target_db_gb : spec_float; key_size : Z; value_size : Z;
  key_domain : option Z; unique_ratio : spec_float; unique_count : option Z;
  zipf_alpha : spec_float; seed : Z; chunk_records : Z;
}.

Record Header := mkHeader {
  h_records : Z; h_domain : Z; h_unique : Z; h_key_size : Z; h_value_size : Z;
  h_ratio : spec_float; h_alpha : spec_float; h_seed : Z; h_flags : Z; h_reserved : Z;
}.

Inductive result (A : Type) := Done (a : A) | Throw | Undef.
Arguments Done {A} a.
Arguments Throw {A}.
Arguments Undef {A}.

Definition num_records (a : Args) : option Z :=
  match num a with
  | Some n => Some n
  | None =>
      let g := F64.of_Z 1024 in
      let bytes := F64.mul (F64.mul (F64.mul (target_db_gb a) g) g) g in
      trunc_u64 (F64.div bytes (F64.of_Z ((key_size a + value_size a) mod 2 ^ 32)))
  end.

Definition domain_of (a : Args) (n : Z) : Z := default n (key_domain a).

(** The requested number of distinct keys, clamped to [1], the records and the domain. *)
Definition unique_of (a : Args) (n d : Z) : option Z :=
  if decide (0 < n) then
    match (match unique_count a with
           | Some u => Some u
           | None => llround_u64 (F64.mul (F64.of_Z n) (unique_ratio a))
           end) with
    | None => None
    | Some u =>
        let u := if decide (u = 0) then 1 else u in
        let u := if decide (n < u) then n else u in
        Some (if decide (d < u) then d else u)
    end
  else Some 0.

Definition effective_ratio (n u : Z) : spec_float :=
  if decide (n = 0) then fzero else F64.div (F64.of_Z u) (F64.of_Z n).

Definition kFlags : Z := Z.lor (Z.shiftl 1 0) (Z.shiftl 1 1).

(** [main]: the header and the records that are written. *)
Definition main exp log pow (fuel : nat) (a : Args) : result (Header * list Z) :=
  match num_records a with
  | None => Undef
  | Some n =>
      let d := domain_of a n in
      if decide (0 < n /\ d = 0) then Throw
      else
        match unique_of a n d with
        | None => Undef
        | Some u =>
            match ChooseCoprimeMultiplier fuel d (Z.lxor (seed a) 0x9e3779b97f4a7c15) with
            | None => Undef
            | Some (multiplier, rng) =>
                let offset := if decide (0 < d) then (Bounded d rng).1 else 0 in
                let header := mkHeader n d u (key_size a) (value_size a) (effective_ratio n u)
                                (zipf_alpha a) (seed a) kFlags 0 in
                match record_loop exp log pow n u (zipf_alpha a) (dense_to_key_id d multiplier offset)
                        (Z.to_nat n) (chunk_records a) 0 0 (seed a) [] [] with
                | None => Undef
                | Some keys => Done (header, keys)
                end
            end
        end
  end.

(** ** Properties *)

Lemma unique_of_range a n d u : 1 <= n -> 1 <= d -> (forall u0, unique_count a = Some u0 -> 0 <= u0) ->
  unique_of a n d = Some u -> 1 <= u <= Z.min n d.
Proof.
  intros Hn Hd Ha. unfold unique_of. rewrite decide_True by lia.
  set (o := match unique_count a with Some _ => _ | None => _ end).
  assert (forall u0, o = Some u0 -> 0 <= u0) as Ho.
  { subst o. destruct (unique_count a); [intros ? [= <-]; by apply Ha|]. intros u0.
    unfold llround_u64. destruct (round_Z _) as [z|]; cbn; [|done]. destruct (as_i64 z) as [z'|]; cbn; [|done].
    intros [= <-]. apply u64_range. }
  destruct o as [u0|]; [|done]. specialize (Ho u0 eq_refl). intros [= <-]. repeat case_decide; lia.
Qed.

(** The number of distinct elements of an injective image of a list that covers
    exactly [0..u). *)
Lemma distinct_image (f : Z -> Z) (l : list Z) u : 0 <= u ->
  (forall r, r ∈ l -> 0 <= r < u) -> (forall r, 0 <= r < u -> r ∈ l) ->
  (forall r1 r2, 0 <= r1 < u -> 0 <= r2 < u -> f r1 = f r2 -> r1 = r2) ->
  Z.of_nat (size (list_to_set (f <$> l) : gset Z)) = u.
Proof.
  intros Hu H1 H2 Hinj. assert (list_to_set (f <$> l) = list_to_set (f <$> seqZ 0 u) :> gset Z) as ->.
  { apply set_eq. intros k. rewrite !elem_of_list_to_set, !list_elem_of_fmap.
    split; intros (r & -> & Hr); exists r; (split; [done|]); [apply elem_of_seqZ|apply H2]; [apply H1 in Hr|apply elem_of_seqZ in Hr]; lia. }
  rewrite size_list_to_set; [rewrite length_fmap, length_seqZ; lia|].
  apply NoDup_fmap_2_strong; [|apply NoDup_seqZ]. intros r1 r2 Hr1%elem_of_seqZ Hr2%elem_of_seqZ. apply Hinj; lia.
Qed.

(** The statement of [trace_exact] below, for the programs that read traces. *)
Lemma trace_exact_gen exp log pow fuel a n d u : num_records a = Some n -> domain_of a n = d ->
  unique_of a n d = Some u -> 1 <= n <= u64_max -> 1 <= d <= u64_max ->
  (forall u0, unique_count a = Some u0 -> 0 <= u0) -> (d - 1) * u <= u64_max -> d + 1 < Z.of_nat fuel ->
  (fle (zipf_alpha a) fzero = true -> exists h keys, main exp log pow fuel a = Done (h, keys)) /\
  forall h keys, main exp log pow fuel a = Done (h, keys) ->
    h = mkHeader n d u (key_size a) (value_size a) (effective_ratio n u) (zipf_alpha a) (seed a) kFlags 0 /\
    Z.of_nat (length keys) = n /\
    Forall (fun k => 0 <= k < d) keys /\ Z.of_nat (size (list_to_set keys : gset Z)) = u.
Proof.
  intros Hn Hd Hu Hn1 Hd1 Ha Hov Hfuel.
  pose proof (unique_of_range a n d u ltac:(lia) ltac:(lia) Ha Hu) as Hur.
  assert (exists m g, ChooseCoprimeMultiplier fuel d (Z.lxor (seed a) 0x9e3779b97f4a7c15) = Some (m, g) /\
    (2 <= d -> 1 <= m < d /\ Z.gcd m d = 1)) as (m & g & Hm & Hm2).
  { destruct (decide (2 <= d)) as [H2|H2].
    - destruct (ChooseCoprime_spec fuel d (Z.lxor (seed a) 0x9e3779b97f4a7c15)) as (c & g & H); [lia|lia|]. naive_solver.
    - unfold ChooseCoprimeMultiplier. rewrite decide_True by lia. eexists _, _. split; [done|lia]. }
  unfold main. rewrite Hn, Hd, decide_False, Hu, Hm by lia. rewrite (decide_True (P := 0 < d)) by lia.
  set (o := (Bounded d g).1). assert (0 <= o < d) as Ho by (apply Bounded_range; lia).
  rewrite record_loop_ranks. split.
  - intros Halpha. destruct (ranks_uniform exp log pow n u (zipf_alpha a) (Z.to_nat n) Halpha 0 0 (seed a)) as [l ->].
    cbn. eauto.
  - intros h keys. destruct (ranks _ _ _ _ _ _ _ _ _ _) as [l|] eqn:Hl; [|done]. cbn. intros [= <- <-].
    apply ranks_spec in Hl as (L1 & L2 & L3); [|lia..]. split_and!; [done| | |].
    + rewrite length_fmap. lia.
    + apply Forall_fmap, Forall_true. intros r. apply dense_range. lia.
    + apply distinct_image; [lia|done|done|]. intros r1 r2 Hr1 Hr2 Heq.
      destruct (decide (2 <= d)) as [H2|H2]; [|lia]. destruct (Hm2 H2).
      eapply (dense_inj d m o); eauto; lia || nia.
Qed.

(** When the affine product stays within 64 bits, a generated trace holds the
    requested number of records, every key is in the domain, and exactly
    [unique_count] of them are distinct, whatever the random draws and the Zipf
    samples.  With uniform repeats the program always reaches the end. *)
Theorem trace_exact exp log pow fuel a n d u (Hn : num_records a = Some n) (Hd : domain_of a n = d)
    (Hu : unique_of a n d = Some u) (Hn1 : 1 <= n <= u64_max) (Hd1 : 1 <= d <= u64_max)
    (Ha : forall u0, unique_count a = Some u0 -> 0 <= u0)
    (Hov : (d - 1) * u <= u64_max) (Hfuel : d + 1 < Z.of_nat fuel) :
  (fle (zipf_alpha a) fzero = true -> exists h keys, main exp log pow fuel a = Done (h, keys)) /\
  forall h keys, main exp log pow fuel a = Done (h, keys) ->
    (h_records h, h_domain h, h_unique h) = (n, d, u) /\ Z.of_nat (length keys) = n /\
    Forall (fun k => 0 <= k < d) keys /\ Z.of_nat (size (list_to_set keys : gset Z)) = u.
Proof.
  destruct (trace_exact_gen exp log pow fuel a n d u Hn Hd Hu Hn1 Hd1 Ha Hov Hfuel) as [H1 H2].
  split; [done|]. intros h keys H. destruct (H2 h keys H) as (-> & H3). split; [done|exact H3].
Qed.

(** Ten records over a domain of 20 with four distinct keys. *)
Definition sample_args : Args := mkArgs (Some 10) fzero 24 100 (Some 20) (F64.of_Z 1) (Some 4) fzero 7 4.

Lemma trace_exact_witness :
  (exists h keys, main id id (fun x _ => x) 30 sample_args = Done (h, keys)) /\
  forall h keys, main id id (fun x _ => x) 30 sample_args = Done (h, keys) ->
    (h_records h, h_domain h, h_unique h) = (10, 20, 4) /\ Z.of_nat (length keys) = 10 /\
    Forall (fun k => 0 <= k < 20) keys /\ Z.of_nat (size (list_to_set keys : gset Z)) = 4.
Proof.
  destruct (trace_exact id id (fun x _ => x) 30 sample_args 10 20 4) as [H1 H2]; try reflexivity;
    try (unfold u64_max; lia); try by vm_compute.
  - by intros u0 [= <-].
  - split; [by apply H1|exact H2].
Defined.

(** When every record is new the ranks are the record numbers. *)
Lemma ranks_all_new exp log pow N alpha n : forall i rng, 0 <= i -> N - i = Z.of_nat n -> N <= u64_max ->
  ranks exp log pow N N alpha n i i rng = Some (seqZ i (Z.of_nat n)).
Proof.
  induction n as [|n IH]; intros i rng Hi Hn HN; cbn [ranks]; [done|].
  assert (next_rank exp log pow N N alpha i i rng = Some (i, i + 1, rng)) as ->.
  { unfold next_rank. rewrite (decide_True (P := i < N)), decide_False, decide_True by lia.
    by rewrite u64_small by solve_u64. }
  rewrite (IH (i + 1)) by lia. cbn. rewrite (seqZ_cons i) by lia. do 3 f_equal; lia.
Qed.

Lemma NoDup_fmap_inj {A B} (f : A -> B) l x y : NoDup (f <$> l) -> x ∈ l -> y ∈ l -> f x = f y -> x = y.
Proof.
  induction l as [|z l IH]; [by intros _ ?%elem_of_nil|]. rewrite fmap_cons, NoDup_cons.
  intros [Hz Hnd] [->|Hx]%elem_of_cons [->|Hy]%elem_of_cons Heq; auto.
  - destruct Hz. rewrite Heq. by apply list_elem_of_fmap_2.
  - destruct Hz. rewrite <- Heq. by apply list_elem_of_fmap_2.
Qed.

(** A run in which every record is new and two ranks get the same key. *)
Lemma overflow_gen exp log pow fuel a n m g r : num_records a = Some n -> domain_of a n = n ->
  unique_of a n n = Some n -> 1 <= n <= u64_max ->
  ChooseCoprimeMultiplier fuel n (Z.lxor (seed a) 0x9e3779b97f4a7c15) = Some (m, g) ->
  0 < r < n -> dense_to_key_id n m (Bounded n g).1 0 = dense_to_key_id n m (Bounded n g).1 r ->
  exists h keys, main exp log pow fuel a = Done (h, keys) /\
    h_unique h = n /\ h_records h = n /\ Z.of_nat (length keys) = n /\
    Z.of_nat (size (list_to_set keys : gset Z)) <> h_unique h.
Proof.
  intros Hn Hd Hu Hb Hm Hr Hf. unfold main. rewrite Hn, Hd, decide_False, Hu, Hm by lia.
  rewrite decide_True, record_loop_ranks, ranks_all_new, Z2Nat.id by lia.
  set (f := dense_to_key_id n m (Bounded n g).1) in *. cbn [fmap option_fmap option_map app].
  assert (Z.of_nat (length (f <$> seqZ 0 n)) = n) as Hlen by (rewrite length_fmap, length_seqZ; lia).
  eexists _, _. split; [done|]. split_and!; [done|done|done|]. cbn [h_unique]. intros Hs.
  assert (0 = r) as Hz; [|lia]. apply (NoDup_fmap_inj f (seqZ 0 n)); [apply NoDup_of_size; lia| | |done];
    apply elem_of_seqZ; lia.
Qed.

(** The options of [experiments/scripts/trace/generate_trace_matrix.sh] for the case
    of 1000 GiB of 91-byte entries, all distinct. *)
Definition unique100_1000gb_91B : Args :=
  mkArgs (Some 11799360703) fzero 48 43 (Some 11799360703) (F64.of_Z 1) None fzero 12345678 4194304.

(** The product of the affine mapping wraps for that case: the generator
    completes and its header claims that all 11799360703 records are distinct,
    but they are not, since two ranks get the same key. *)
Theorem affine_overflow exp log pow fuel :
  exists h keys, main exp log pow fuel unique100_1000gb_91B = Done (h, keys) /\
    h_unique h = 11799360703 /\ h_records h = 11799360703 /\ Z.of_nat (length keys) = 11799360703 /\
    Z.of_nat (size (list_to_set keys : gset Z)) <> h_unique h.
Proof.
  apply (overflow_gen exp log pow fuel _ 11799360703 6208820159 4354685564948093296 5359607067);
    [done|done|by vm_compute|by unfold u64_max|by destruct fuel; vm_compute|lia|by vm_compute].
Qed.

End TraceGen.
