(* ===== verification/TraceFile.v ===== *)
(** * The load trace file

    The VLOADTR1 file the generator writes, [tools/verify_load_trace.cc], which
    checks such a file with a bitset, and the header check of [FillVirtual] in
    [tools/db_bench_tool.cc].  A file is its list of bytes; the host is
    little-endian.  An exception of the verifier is [None]. *)

From Stdlib Require Import ZArith Lia SpecFloat Bool.
From stdpp Require Import base numbers option list gmap.
From S2P Require Import Prelude FloatModel FloatTheory Version Bitmap TraceGen.

Local Open Scope Z_scope.

Module TraceFile.
Import Version Bits TraceGen.

(** ** Doubles as bits *)

Definition sign_bit (s : bool) : Z := if s then 2 ^ 63 else 0.

(** The object representation of a [double]. *)
Definition double_bits (f : spec_float) : Z :=
  match f with
  | S754_zero s => sign_bit s
  | S754_infinity s => sign_bit s + 2047 * 2 ^ 52
  | S754_nan => 2047 * 2 ^ 52 + 2 ^ 51
  | S754_finite s m e =>
      sign_bit s + (if decide (Z.pos m < 2 ^ 52) then Z.pos m else (e + 1075) * 2 ^ 52 + (Z.pos m - 2 ^ 52))
  end.

Definition bits_double (b : Z) : spec_float :=
  let s := Z.testbit b 63 in
  let ex := (b / 2 ^ 52) mod 2048 in
  let mant := b mod 2 ^ 52 in
  if decide (ex = 0) then (if decide (mant = 0) then S754_zero s else S754_finite s (Z.to_pos mant) (-1074))
  else if decide (ex = 2047) then (if decide (mant = 0) then S754_infinity s else S754_nan)
  else S754_finite s (Z.to_pos (mant + 2 ^ 52)) (ex - 1075).

(** ** Writing *)

Definition kMagic : list Z := [86; 76; 79; 65; 68; 84; 82; 49].

Definition encode_header (h : Header) : list Z :=
  kMagic ++ encode_fixed 4 1 ++ encode_fixed 4 88 ++ encode_fixed 8 (h_records h) ++
  encode_fixed 8 (h_domain h) ++ encode_fixed 8 (h_unique h) ++ encode_fixed 4 (h_key_size h) ++
  encode_fixed 4 (h_value_size h) ++ encode_fixed 8 (double_bits (h_ratio h)) ++
  encode_fixed 8 (double_bits (h_alpha h)) ++ encode_fixed 8 (h_seed h) ++
  encode_fixed 8 (h_flags h) ++ encode_fixed 8 (h_reserved h).

Definition file_of (h : Header) (keys : list Z) : list Z :=
  encode_header h ++ (keys ≫= encode_fixed 8).

(** ** The verifier *)

(** [LE(p + off, n)]. *)
Definition LE (p : list Z) (off n : nat) : Z := decode_fixed (take n (drop off p)).

Definition isfinite (f : spec_float) : bool := is_fin f.

(** The checks of the header. *)
Definition check_header (h : list Z) : bool :=
  let records := LE h 16 8 in
  let domain := LE h 24 8 in
  let expected := LE h 32 8 in
  let ratio := bits_double (LE h 48 8) in
  let alpha := bits_double (LE h 56 8) in
  let flags := LE h 72 8 in
  let wanted_ratio := if decide (records = 0) then fzero else F64.div (F64.of_Z expected) (F64.of_Z records) in
  bool_decide (take 8 h = kMagic) &&
  bool_decide (LE h 8 4 = 1 /\ LE h 12 4 = 88) &&
  bool_decide (0 < domain /\ expected <= domain /\ expected <= records) &&
  bool_decide (8 <= LE h 40 4 /\ 0 < LE h 44 4) &&
  (isfinite ratio && fle fzero ratio && fle ratio (F64.of_Z 1) && isfinite alpha && fle fzero alpha) &&
  bool_decide (Z.land flags (not64 3) = 0 /\ Z.land flags 1 <> 0 /\ LE h 80 8 = 0) &&
  fle (fabs (F64.sub ratio wanted_ratio)) F64.lit_1em12 &&
  bool_decide (records <= (u64_max - 88) / 8).

(** The number of words of the bitset; no wrap here. *)
Definition verify_words (domain : Z) : Z := domain / 64 + (if decide (domain mod 64 = 0) then 0 else 1).

(** The ids of [n] records at the front of the bytes. *)
Fixpoint parse_ids (n : nat) (bytes : list Z) : list Z :=
  match n with
  | O => []
  | S n => LE bytes 0 8 :: parse_ids n (drop 8 bytes)
  end.

(** The loop over the ids of a chunk. *)
Fixpoint count_ids (domain : Z) (ids : list Z) (unique : Z) (bits : list Z) : option (Z * list Z) :=
  match ids with
  | [] => Some (unique, bits)
  | id :: ids =>
      if decide (domain <= id) then None
      else match fetch_or id bits with
           | None => None
           | Some (word, bits') =>
               if decide (Z.land word (Z.shiftl 1 (Z.land id 63)) = 0)
               then count_ids domain ids (unique +% 1) bits'
               else count_ids domain ids unique bits
           end
  end.

Definition kChunkRecords : Z := 2 ^ 20.

(** The loop over the chunks: the counters, and the bytes after the records. *)
Fixpoint read_chunks (fuel : nat) (records domain seen unique : Z) (bits rest : list Z)
    : option (Z * Z * list Z) :=
  if decide (records <= seen) then Some (seen, unique, rest)
  else match fuel with
       | O => None
       | S fuel =>
           let n := Z.to_nat (Z.min kChunkRecords (records - seen)) in
           if decide (length rest < 8 * n)%nat then None
           else match count_ids domain (parse_ids n rest) unique bits with
                | None => None
                | Some (unique, bits) =>
                    read_chunks fuel records domain (seen + Z.of_nat n) unique bits (drop (8 * n) rest)
                end
       end.

(** [main]: whether the unique counts match, the records and the distinct ids. *)
Definition verify (file : list Z) : option (bool * Z * Z) :=
  if decide (length file < 88)%nat then None
  else
    let h := take 88 file in
    if negb (check_header h) then None
    else
      let records := LE h 16 8 in
      let domain := LE h 24 8 in
      let bits := replicate (Z.to_nat (verify_words domain)) 0 in
      match read_chunks (S (Z.to_nat (records / kChunkRecords))) records domain 0 0 bits (drop 88 file) with
      | Some (seen, unique, []) => Some (bool_decide (unique = LE h 32 8), seen, unique)
      | _ => None
      end.

(** ** The header check of the loader *)

(** [FillVirtual]: the records, the domain, the unique count and the body; [None]
    when the trace is refused. *)
Definition load_header (key_size value_size : Z) (file : list Z) : option (Z * Z * Z * list Z) :=
  if decide (length file < 88)%nat then None
  else if negb (bool_decide (take 8 file = kMagic)) then None
  else
    let header_size := LE file 12 4 in
    let records := LE file 16 8 in
    let key_domain := LE file 24 8 in
    let unique_count := LE file 32 8 in
    if decide (LE file 8 4 <> 1 \/ header_size < 88) then None
    else
      let body := drop (Z.to_nat header_size) file in
      if decide (LE file 40 4 <> key_size \/ LE file 44 4 <> value_size) then None
      else if decide (key_domain = 0 \/ records < unique_count \/ key_domain < unique_count) then None
      else Some (records, key_domain, unique_count, body).

(** The number of operations of a trace load. *)
Definition num_ops (max_ops records : Z) : Z :=
  if decide (0 < max_ops) then max_ops else Z.min records (2 ^ 63 - 1).

(** ** Round trips *)

Lemma sign_bit_testbit s x : 0 <= x < 2 ^ 63 -> Z.testbit (sign_bit s + x) 63 = s.
Proof.
  intros Hx. rewrite Z.testbit_odd, Z.shiftr_div_pow2 by lia. unfold sign_bit. destruct s.
  - replace ((2 ^ 63 + x) / 2 ^ 63) with 1; [done|]. apply Z.div_unique with x; lia.
  - by rewrite Z.add_0_l, Z.div_small by lia.
Qed.

(** The fields of a bit pattern. *)
Lemma bits_fields s ex mant : 0 <= ex < 2048 -> 0 <= mant < 2 ^ 52 ->
  let b := sign_bit s + (ex * 2 ^ 52 + mant) in
  0 <= b < 2 ^ 64 /\ Z.testbit b 63 = s /\ (b / 2 ^ 52) mod 2048 = ex /\ b mod 2 ^ 52 = mant.
Proof.
  intros He Hm b. split; [|split; [|split]].
  - unfold b, sign_bit. destruct s; lia.
  - unfold b, sign_bit. apply (sign_bit_testbit s). lia.
  - unfold b, sign_bit. destruct s; Z.to_euclidean_division_equations; lia.
  - unfold b, sign_bit. destruct s; Z.to_euclidean_division_equations; lia.
Qed.

Lemma bits_double_bits f : valid 53 1024 f -> is_nan f = false ->
  bits_double (double_bits f) = f /\ 0 <= double_bits f < 2 ^ 64.
Proof.
  intros Hv Hn. destruct f as [s|s| |s m e]; [| |done|].
  - by destruct s.
  - by destruct s.
  - apply valid_finite in Hv as [Hc He]. apply canon_bounds in Hc as (Hmin & Hm & Hnorm).
    change (SpecFloat.emin 53 1024) with (-1074) in *.
    unfold double_bits, bits_double. destruct (decide (Z.pos m < 2 ^ 52)) as [Hs|Hs].
    + destruct (bits_fields s 0 (Z.pos m)) as (H1 & H2 & H3 & H4); [lia|lia|].
      rewrite Z.mul_0_l, Z.add_0_l in *. rewrite H2, H3, H4. split; [|done].
      rewrite decide_True, decide_False by lia. cbn. f_equal. lia.
    + destruct (bits_fields s (e + 1075) (Z.pos m - 2 ^ 52)) as (H1 & H2 & H3 & H4); [lia|lia|].
      rewrite H2, H3, H4. split; [|done]. rewrite !decide_False by lia.
      f_equal; [|lia]. rewrite Z.sub_add. done.
Qed.

(** Reading past a known prefix. *)
Lemma LE_skip a b off n : (length a <= off)%nat -> LE (a ++ b) off n = LE b (off - length a) n.
Proof. intros H. unfold LE. by rewrite drop_app_ge. Qed.

Lemma LE_here n v b : 0 <= v < 2 ^ (8 * Z.of_nat n) -> LE (encode_fixed n v ++ b) 0 n = v.
Proof.
  intros H. unfold LE. rewrite drop_0, take_app_length' by (by rewrite encode_fixed_length). by apply decode_encode.
Qed.

Ltac le_field :=
  unfold encode_header; repeat (rewrite <- app_assoc);
  repeat (rewrite LE_skip by (rewrite ?encode_fixed_length; cbn; lia); rewrite ?encode_fixed_length; cbn [length kMagic Nat.sub]);
  apply LE_here.

Lemma header_length h : length (encode_header h) = 88%nat.
Proof. unfold encode_header. by rewrite !length_app, !encode_fixed_length. Qed.

(** A header whose fields fit their types. *)
Record wf_header (h : Header) : Prop := {
  w_records : is_u64 (h_records h); w_domain : is_u64 (h_domain h); w_unique : is_u64 (h_unique h);
  w_key : 0 <= h_key_size h < 2 ^ 32; w_value : 0 <= h_value_size h < 2 ^ 32;
  w_ratio : valid 53 1024 (h_ratio h) /\ is_nan (h_ratio h) = false;
  w_alpha : valid 53 1024 (h_alpha h) /\ is_nan (h_alpha h) = false;
  w_flags : is_u64 (h_flags h); w_reserved : is_u64 (h_reserved h);
}.

(** Every field read back from a written header. *)
Lemma header_fields h r : wf_header h -> let b := encode_header h ++ r in
  take 8 b = kMagic /\ LE b 8 4 = 1 /\ LE b 12 4 = 88 /\ LE b 16 8 = h_records h /\ LE b 24 8 = h_domain h /\
  LE b 32 8 = h_unique h /\ LE b 40 4 = h_key_size h /\ LE b 44 4 = h_value_size h /\
  bits_double (LE b 48 8) = h_ratio h /\ bits_double (LE b 56 8) = h_alpha h /\
  LE b 72 8 = h_flags h /\ LE b 80 8 = h_reserved h.
Proof.
  intros [H1 H2 H3 H4 H5 [H6 H6'] [H7 H7'] H8 H9] b. unfold is_u64, u64_max in *.
  apply bits_double_bits in H6 as [H6 H6b]; [|done]. apply bits_double_bits in H7 as [H7 H7b]; [|done].
  assert (LE b 48 8 = double_bits (h_ratio h)) as E6 by (subst b; le_field; lia).
  assert (LE b 56 8 = double_bits (h_alpha h)) as E7 by (subst b; le_field; lia).
  rewrite E6, E7. repeat (split; [try done; subst b; le_field; lia|]). subst b. le_field. lia.
Qed.

Lemma parse_ids_encode ids r : Forall is_u64 ids -> parse_ids (length ids) ((ids ≫= encode_fixed 8) ++ r) = ids.
Proof.
  induction 1 as [|id ids Hid Hids IH]; [done|]. cbn [length parse_ids]. rewrite bind_cons, <- app_assoc.
  rewrite LE_here by (unfold is_u64, u64_max in Hid; lia). f_equal.
  rewrite drop_app_length' by (by rewrite encode_fixed_length). exact IH.
Qed.

Lemma encode_ids_length ids : length (ids ≫= encode_fixed 8) = (8 * length ids)%nat.
Proof.
  induction ids as [|id ids IH]; [done|]. rewrite bind_cons, length_app, encode_fixed_length, IH. cbn [length]. lia.
Qed.

Lemma parse_ids_app a b bytes : (8 * a <= length bytes)%nat ->
  parse_ids (a + b) bytes = parse_ids a bytes ++ parse_ids b (drop (8 * a) bytes).
Proof.
  revert bytes. induction a as [|a IH]; intros bytes Hl; [by rewrite drop_0|].
  cbn [Nat.add parse_ids app]. f_equal. rewrite IH by (rewrite length_drop; lia). f_equal.
  rewrite drop_drop. do 2 f_equal. lia.
Qed.

(** ** Counting *)

Lemma count_ids_app d a b u bits :
  count_ids d (a ++ b) u bits =
  match count_ids d a u bits with Some (u, bits) => count_ids d b u bits | None => None end.
Proof.
  revert u bits. induction a as [|id a IH]; intros u bits; [done|]. cbn [app count_ids].
  destruct (decide _); [done|]. destruct (fetch_or id bits) as [[w bits']|]; [|done].
  destruct (decide _); apply IH.
Qed.

(** The counter is the number of distinct ids; an id outside the domain is an error. *)
Lemma count_ids_spec d ids : forall u bits s, holds bits d s -> u = Z.of_nat (size s) -> Forall (fun id => 0 <= id) ids ->
  match count_ids d ids u bits with
  | Some (u', bits') => Forall (fun id => id < d) ids /\ holds bits' d (list_to_set ids ∪ s) /\
                        u' = Z.of_nat (size (list_to_set ids ∪ s))
  | None => ~ Forall (fun id => id < d) ids
  end.
Proof.
  induction ids as [|id ids IH]; intros u bits s Hh Hu Hpos; cbn [count_ids].
  { assert (list_to_set [] ∪ s = s) as Hs by (cbn; apply union_empty_l_L). by rewrite Hs. }
  apply Forall_cons in Hpos as [Hid Hpos]. destruct (decide _) as [Hge|Hlt].
  { intros [? _]%Forall_cons. lia. }
  destruct (fetch_or_holds id bits d s Hh ltac:(lia)) as (w & bits' & -> & Hh' & Hz).
  assert (forall u1 bits1, holds bits1 d ({[id]} ∪ s) -> u1 = Z.of_nat (size ({[id]} ∪ s)) ->
    match count_ids d ids u1 bits1 with
    | Some (u', bits') => Forall (fun id => id < d) (id :: ids) /\ holds bits' d (list_to_set (id :: ids) ∪ s) /\
                          u' = Z.of_nat (size (list_to_set (id :: ids) ∪ s))
    | None => ~ Forall (fun id => id < d) (id :: ids)
    end) as Hgo.
  { intros u1 bits1 Hh1 Hu1. specialize (IH u1 bits1 _ Hh1 Hu1 Hpos).
    assert (list_to_set (id :: ids) ∪ s = list_to_set ids ∪ ({[id]} ∪ s)) as -> by set_solver.
    destruct (count_ids d ids u1 bits1) as [[u' b']|].
    - destruct IH as (? & ? & ?). split_and!; [constructor; [lia|done]|done|done].
    - intros [_ ?]%Forall_cons. done. }
  destruct (decide _) as [H0|H0].
  - apply Hz in H0. apply Hgo; [done|]. rewrite size_union by set_solver. rewrite size_singleton.
    assert (Z.of_nat (size s) < u64_max) by (by eapply holds_size). rewrite u64_small; [lia|unfold is_u64; lia].
  - assert (id ∈ s) as Hin by (destruct (decide (id ∈ s)); [done|tauto]).
    assert ({[id]} ∪ s = s) as Hs by set_solver. apply Hgo; by rewrite Hs.
Qed.

(** The chunk loop reads all the records and counts their ids. *)
Lemma read_chunks_spec d records fuel : forall seen u bits rest, 0 <= seen <= records ->
  records - seen <= Z.of_nat fuel * kChunkRecords ->
  read_chunks fuel records d seen u bits rest =
  let m := Z.to_nat (records - seen) in
  if decide (length rest < 8 * m)%nat then None
  else match count_ids d (parse_ids m rest) u bits with
       | Some (u', _) => Some (records, u', drop (8 * m) rest)
       | None => None
       end.
Proof.
  assert (0 < kChunkRecords) as Hk by done.
  induction fuel as [|fuel IH]; intros seen u bits rest Hs Hf; cbn [read_chunks]; cbv zeta.
  - rewrite decide_True by lia. replace (Z.to_nat (records - seen)) with 0%nat by lia.
    rewrite decide_False by lia. cbn [parse_ids count_ids]. rewrite drop_0. do 3 f_equal. lia.
  - destruct (decide (records <= seen)) as [Hge|Hlt].
    { replace (Z.to_nat (records - seen)) with 0%nat by lia.
      rewrite decide_False by lia. cbn [parse_ids count_ids]. rewrite drop_0. do 3 f_equal. lia. }
    set (n := Z.to_nat (Z.min kChunkRecords (records - seen))). set (m := Z.to_nat (records - seen)).
    assert (n <= m)%nat as Hnm by lia. assert (Z.of_nat n = Z.min kChunkRecords (records - seen)) as Hn by lia.
    destruct (decide (length rest < 8 * n)%nat) as [Hsh|Hsh]; [by rewrite decide_True by lia|].
    replace m with (n + (m - n))%nat by lia. rewrite parse_ids_app, count_ids_app by lia.
    destruct (count_ids d (parse_ids n rest) u bits) as [[u1 bits1]|]; [|by destruct (decide _)].
    rewrite IH by lia. cbv zeta. replace (Z.to_nat (records - (seen + Z.of_nat n))) with (m - n)%nat by lia.
    rewrite length_drop. destruct (decide (length rest < 8 * (n + (m - n)))%nat).
    + by rewrite decide_True by lia.
    + rewrite decide_False by lia. destruct (count_ids d _ u1 bits1) as [[u2 bits2]|]; [|done].
      rewrite drop_drop. do 3 f_equal. lia.
Qed.

Lemma verify_words_of d : 0 <= d <= u64_max - 63 -> verify_words d = words_of d.
Proof.
  intros Hd. unfold verify_words, words_of. rewrite u64_small by solve_u64.
  case_decide; Z.to_euclidean_division_equations; lia.
Qed.

Lemma LE_take file off n : (off + n <= 88)%nat -> LE (take 88 file) off n = LE file off n.
Proof.
  intros H. unfold LE. rewrite skipn_firstn_comm, take_take. by replace (Nat.min n (88 - off)) with n by lia.
Qed.

Lemma decode_nonneg l : Forall (fun b => 0 <= b < 256) l -> 0 <= decode_fixed l.
Proof.
  induction 1 as [|b l Hb _ IH]; [done|]. cbn [decode_fixed]. apply Z.lor_nonneg. split; [lia|].
  apply Z.shiftl_nonneg. done.
Qed.

Lemma LE_nonneg file off n : Forall (fun b => 0 <= b < 256) file -> 0 <= LE file off n.
Proof. intros H. by apply decode_nonneg, Forall_take, Forall_drop. Qed.

Lemma parse_ids_nonneg n : forall file, Forall (fun b => 0 <= b < 256) file -> Forall (fun id => 0 <= id) (parse_ids n file).
Proof.
  induction n as [|n IH]; intros file H; cbn [parse_ids]; constructor; [by apply LE_nonneg|]. by apply IH, Forall_drop.
Qed.

Lemma chunk_fuel records : 0 <= records -> records <= Z.of_nat (S (Z.to_nat (records / kChunkRecords))) * kChunkRecords.
Proof.
  intros Hr. unfold kChunkRecords. pose proof (Z.div_pos records (2 ^ 20) Hr ltac:(lia)).
  rewrite Nat2Z.inj_succ, Z2Nat.id by done. pose proof (Z.mul_succ_div_gt records (2 ^ 20) ltac:(lia)). lia.
Qed.

(** What the counting part of the verifier computes. *)
Lemma verify_body d records bytes : 0 <= records -> 0 < d <= u64_max - 63 -> Forall (fun id => 0 <= id) (parse_ids (Z.to_nat records) bytes) ->
  let ids := parse_ids (Z.to_nat records) bytes in
  read_chunks (S (Z.to_nat (records / kChunkRecords))) records d 0 0 (replicate (Z.to_nat (verify_words d)) 0) bytes =
  if decide (length bytes < 8 * Z.to_nat records)%nat then None
  else if decide (Forall (fun id => id < d) ids)
  then Some (records, Z.of_nat (size (list_to_set ids : gset Z)), drop (8 * Z.to_nat records) bytes)
  else None.
Proof.
  intros Hr Hd Hids ids. rewrite read_chunks_spec; [|lia|rewrite Z.sub_0_r; by apply chunk_fuel].
  cbv zeta. rewrite Z.sub_0_r, verify_words_of by lia. fold ids. destruct (decide (length bytes < _)%nat); [done|].
  pose proof (count_ids_spec d ids 0 _ ∅ (holds_empty d Hd) eq_refl Hids) as Hc.
  destruct (count_ids d ids 0 _) as [[u bits]|].
  - destruct Hc as (Hlt & _ & ->). rewrite decide_True by done. by rewrite union_empty_r_L.
  - by rewrite decide_False by done.
Qed.

(** *** A generated file *)

Lemma sub_self r : is_fin r = true -> exists s, F64.sub r r = S754_zero s.
Proof.
  destruct r as [s|s| |s m e]; try done; intros _.
  - destruct s; by eexists.
  - unfold F64.sub, SFsub. rewrite Z.sub_diag. by eexists.
Qed.

Lemma ratio_spec n u : 1 <= u <= n -> n <= u64_max ->
  let r := F64.div (F64.of_Z u) (F64.of_Z n) in
  valid 53 1024 r /\ is_nan r = false /\ isfinite r = true /\ fle fzero r = true /\ fle r (F64.of_Z 1) = true /\
  fle (fabs (F64.sub r r)) F64.lit_1em12 = true.
Proof.
  intros Hu Hn r. assert (1 < 53 /\ 53 < 1024) as [Hp He] by done.
  assert (rep_int 53 1024 (2 ^ 64)) as H64 by (replace (2 ^ 64) with (1 * 2 ^ 64) by lia; apply rep_int_shift; done || lia).
  assert (rep_int 53 1024 1) as H1 by (apply rep_int_small; done || lia).
  unfold u64_max in Hn.
  destruct (ofz_upper 53 1024 Hp He u (2 ^ 64) ltac:(lia) H64) as [Hfu Hvu].
  destruct (ofz_upper 53 1024 Hp He n (2 ^ 64) ltac:(lia) H64) as [Hfn Hvn].
  pose proof (ofz_mono 53 1024 Hp He u n (2 ^ 64) ltac:(lia) ltac:(lia) H64) as Hmono.
  pose proof (ofz_lower 53 1024 Hp He n 1 (2 ^ 64) ltac:(lia) ltac:(lia) H1 H64) as Hlow.
  pose proof (one_pos 53 1024 Hp He) as Hone.
  destruct (ofz_valid 53 1024 Hp He u ltac:(lia)) as [Hvalu _].
  destruct (ofz_valid 53 1024 Hp He n ltac:(lia)) as [Hvaln _].
  destruct (div_upper 53 1024 Hp He (ofz 53 1024 u) (ofz 53 1024 n) 1 Hvalu Hvaln Hfu Hfn
    ltac:(lia) ltac:(lia) H1 ltac:(lia) ltac:(lia)) as (Hv & Hf & HV).
  change (SFdiv 53 1024 (ofz 53 1024 u) (ofz 53 1024 n)) with r in *.
  destruct (ofz_exact 53 1024 Hp He 1 ltac:(lia) H1) as [Hf1 HV1].
  assert (is_nan r = false) by (by destruct r).
  split_and!; try done.
  - apply (fle_V 53 1024); try done. change (FloatTheory.V 53 1024 fzero) with 0. lia.
  - apply (fle_V 53 1024); try done. change (F64.of_Z 1) with (ofz 53 1024 1). lia.
  - destruct (sub_self r Hf) as [s ->]. by vm_compute.
Qed.

(** Decoding and counting a written file. *)
Lemma verify_file h keys : wf_header h -> 0 < h_domain h <= u64_max - 63 ->
  Z.of_nat (length keys) = h_records h -> Forall (fun k => 0 <= k < h_domain h) keys ->
  check_header (encode_header h) = true ->
  verify (file_of h keys) =
    Some (bool_decide (Z.of_nat (size (list_to_set keys : gset Z)) = h_unique h), h_records h,
          Z.of_nat (size (list_to_set keys : gset Z))).
Proof.
  intros Hw Hd Hlen Hkeys Hch. unfold verify, file_of.
  rewrite length_app, header_length, decide_False by lia.
  rewrite take_app_length' by (by rewrite header_length). rewrite drop_app_length' by (by rewrite header_length).
  rewrite Hch. cbn [negb].
  pose proof (header_fields h [] Hw) as Hf. cbv zeta in Hf. rewrite app_nil_r in Hf.
  destruct Hf as (_ & _ & _ & -> & -> & -> & _).
  assert (parse_ids (Z.to_nat (h_records h)) (keys ≫= encode_fixed 8) = keys) as Hp.
  { replace (Z.to_nat (h_records h)) with (length keys) by lia.
    rewrite <- (app_nil_r (keys ≫= encode_fixed 8)). apply parse_ids_encode.
    eapply Forall_impl; [exact Hkeys|]. intros k ?. unfold is_u64. cbn in *. lia. }
  rewrite verify_body; [|unfold is_u64 in *; lia|done|].
  2: { rewrite Hp. eapply Forall_impl; [exact Hkeys|]. cbn. lia. }
  rewrite Hp, encode_ids_length, decide_False by lia. rewrite decide_True.
  - rewrite drop_ge; [done|]. rewrite encode_ids_length. lia.
  - eapply Forall_impl; [exact Hkeys|]. cbn. lia.
Qed.

(** The checks pass on the header of a generated trace. *)
Lemma check_generated n d u ks vs alpha sd : 1 <= n <= (u64_max - 88) / 8 -> 1 <= d <= u64_max - 63 ->
  1 <= u <= Z.min n d -> 8 <= ks < 2 ^ 32 -> 0 < vs < 2 ^ 32 -> is_u64 sd ->
  valid 53 1024 alpha -> is_fin alpha = true -> fle fzero alpha = true ->
  let h := mkHeader n d u ks vs (effective_ratio n u) alpha sd kFlags 0 in
  wf_header h /\ check_header (encode_header h) = true.
Proof.
  intros Hn Hd Hu Hks Hvs Hsd Hva Hfa Hpa h. assert (n <= u64_max) as Hn'.
  { unfold u64_max in *. Z.to_euclidean_division_equations. lia. }
  destruct (ratio_spec n u ltac:(lia) Hn') as (R1 & R2 & R3 & R4 & R5 & R6).
  assert (effective_ratio n u = F64.div (F64.of_Z u) (F64.of_Z n)) as Er.
  { unfold effective_ratio. by rewrite decide_False by lia. }
  assert (wf_header h) as Hw.
  { assert (is_nan alpha = false) by (by destruct alpha). assert (is_u64 kFlags) by (by vm_compute).
    unfold is_u64, h in *. split; cbn [h_records h_domain h_unique h_key_size h_value_size h_ratio h_alpha h_flags h_reserved];
      rewrite ?Er; try done; unfold is_u64, u64_max in *; lia. }
  split; [done|]. unfold check_header.
  pose proof (header_fields h [] Hw) as Hf. cbv zeta in Hf. rewrite app_nil_r in Hf.
  destruct Hf as (-> & -> & -> & -> & -> & -> & -> & -> & -> & -> & -> & ->).
  unfold h. cbn [h_records h_domain h_unique h_key_size h_value_size h_ratio h_alpha h_flags h_reserved].
  rewrite Er, (decide_False (P := n = 0)) by lia. rewrite R3, R4, R5, R6. unfold isfinite. rewrite Hfa, Hpa.
  rewrite !bool_decide_true; try done; lia.
Qed.

(** ** Properties *)

(** A file the verifier accepts has exactly the header's records after the
    88-byte header, every id is in the domain, and the count it reports is the
    number of distinct ids; it answers ok exactly when that is the header's. *)
Theorem verify_sound file ok seen unique (Hb : Forall (fun b => 0 <= b < 256) file)
    (Hd : LE file 24 8 <= u64_max - 63) (Hv : verify file = Some (ok, seen, unique)) :
  let ids := parse_ids (Z.to_nat (LE file 16 8)) (drop 88 file) in
  seen = LE file 16 8 /\ Z.of_nat (length file) = 88 + 8 * seen /\
  Forall (fun id => 0 <= id < LE file 24 8) ids /\
  unique = Z.of_nat (size (list_to_set ids : gset Z)) /\ (ok = true <-> unique = LE file 32 8).
Proof.
  intros ids. unfold verify in Hv. destruct (decide (length file < 88)%nat) as [|Hl]; [done|].
  destruct (check_header (take 88 file)) eqn:Hch; [cbn [negb] in Hv|done].
  rewrite !LE_take in Hv by lia.
  assert (0 < LE file 24 8) as Hpos.
  { unfold check_header in Hch. rewrite !andb_true_iff, !bool_decide_eq_true in Hch.
    rewrite !LE_take in Hch by lia. tauto. }
  pose proof (LE_nonneg file 16 8 Hb) as Hr.
  pose proof (parse_ids_nonneg (Z.to_nat (LE file 16 8)) (drop 88 file) ltac:(by apply Forall_drop)) as Hids.
  rewrite verify_body in Hv by (done || lia). fold ids in Hv, Hids.
  destruct (decide _) as [|Hlen]; [done|]. destruct (decide _) as [Hlt|]; [|done].
  destruct (drop (8 * _) _) eqn:Hend; [|done]. injection Hv as <- <- <-.
  split_and!; [done| | |done|by rewrite bool_decide_eq_true].
  - apply (f_equal length) in Hend. rewrite !length_drop in Hend. rewrite length_drop in Hlen. cbn in Hend. lia.
  - rewrite Forall_forall in Hids, Hlt |- *. intros id Hid. specialize (Hids id Hid). specialize (Hlt id Hid). cbn in *. lia.
Qed.

(** The loader's view of a written file. *)
Lemma load_file h keys : wf_header h -> h_domain h <> 0 -> h_unique h <= h_records h -> h_unique h <= h_domain h ->
  load_header (h_key_size h) (h_value_size h) (file_of h keys) =
    Some (h_records h, h_domain h, h_unique h, keys ≫= encode_fixed 8).
Proof.
  intros Hw Hd Hu1 Hu2. unfold load_header, file_of. rewrite length_app, header_length, decide_False by lia.
  pose proof (header_fields h (keys ≫= encode_fixed 8) Hw) as Hf. cbv zeta in Hf.
  destruct Hf as (-> & -> & -> & -> & -> & -> & -> & -> & _).
  rewrite bool_decide_true by done. cbn [negb]. rewrite !decide_False by lia.
  rewrite drop_app_length' by (by rewrite header_length). done.
Qed.

(** The file of the generator. *)
Lemma generated_file exp log pow fuel a n d u h keys (Hn : num_records a = Some n) (Hd : domain_of a n = d)
    (Hu : unique_of a n d = Some u) (Hn1 : 1 <= n <= (u64_max - 88) / 8) (Hd1 : 1 <= d <= u64_max - 63)
    (Ha : forall u0, unique_count a = Some u0 -> 0 <= u0) (Hov : (d - 1) * u <= u64_max)
    (Hfuel : d + 1 < Z.of_nat fuel) (Hks : 8 <= key_size a < 2 ^ 32) (Hvs : 0 < value_size a < 2 ^ 32)
    (Hsd : is_u64 (seed a)) (Hva : valid 53 1024 (zipf_alpha a)) (Hfa : is_fin (zipf_alpha a) = true)
    (Hpa : fle fzero (zipf_alpha a) = true) (Hmain : main exp log pow fuel a = Done (h, keys)) :
  verify (file_of h keys) = Some (true, n, u) /\
  load_header (key_size a) (value_size a) (file_of h keys) = Some (n, d, u, keys ≫= encode_fixed 8) /\
  parse_ids (Z.to_nat n) (keys ≫= encode_fixed 8) = keys.
Proof.
  assert (n <= u64_max) as Hn'. { unfold u64_max in *. Z.to_euclidean_division_equations. lia. }
  pose proof (unique_of_range a n d u ltac:(lia) ltac:(lia) Ha Hu) as Hur.
  destruct (trace_exact_gen exp log pow fuel a n d u Hn Hd Hu ltac:(lia) ltac:(lia) Ha Hov Hfuel) as [_ Hex].
  destruct (Hex h keys Hmain) as (-> & Hlen & Hkeys & Hsize).
  destruct (check_generated n d u (key_size a) (value_size a) (zipf_alpha a) (seed a)) as [Hw Hch]; try done.
  split_and!.
  - rewrite verify_file; cbn [h_domain h_records h_unique]; try done; [|lia]. by rewrite Hsize, bool_decide_true.
  - apply (load_file (mkHeader n d u _ _ _ _ _ _ _)); cbn [h_domain h_records h_unique]; done || lia.
  - rewrite <- Hlen, Nat2Z.id, <- (app_nil_r (keys ≫= encode_fixed 8)). apply parse_ids_encode.
    eapply Forall_impl; [exact Hkeys|]. unfold is_u64. cbn. lia.
Qed.


(** The bytes of the sample trace of the generator. *)
Definition sample_run : Header * list Z :=
  match main id id (fun x _ => x) 30 sample_args with Done r => r | _ => (mkHeader 0 0 0 0 0 fzero fzero 0 0 0, []) end.


Lemma verify_sound_witness :
  let file := file_of sample_run.1 sample_run.2 in
  10 = LE file 16 8 /\ Z.of_nat (length file) = 88 + 8 * 10 /\
  Forall (fun id => 0 <= id < LE file 24 8) (parse_ids (Z.to_nat (LE file 16 8)) (drop 88 file)) /\
  4 = Z.of_nat (size (list_to_set (parse_ids (Z.to_nat (LE file 16 8)) (drop 88 file)) : gset Z)) /\
  (true = true <-> 4 = LE file 32 8).
Proof.
  apply (verify_sound (file_of sample_run.1 sample_run.2) true 10 4); [|by vm_compute|by vm_compute].
  apply (bool_decide_unpack _). by vm_compute.
Defined.

End TraceFile.
