(* ===== verification/Radix.v ===== *)
(** * The radix sort of a flush

    The sort that [do_flush] and [process_synthetic_batch] of
    [tools/db_bench_tool.cc] run on a batch of key ids: passes of 8 bits, lowest
    first, each of which counts the digits, turns the counts into offsets and
    scatters the keys, followed by [std::unique].  The count, offset and
    destination arrays are modelled as arrays; the sort is shown to produce the
    distinct keys in ascending order. *)

From Stdlib Require Import ZArith Lia Sorted.
From stdpp Require Import base numbers list sorting.
From S2P Require Import Prelude.

Local Open Scope Z_scope.

Module Radix.

(** ** Operations *)

(** [(x >> shift) & 0xFF], an index of the arrays. *)
Definition digit (shift x : Z) : nat := Z.to_nat (Z.land (Z.shiftr x shift) 0xFF).

(** [count[digit]++] over the source. *)
Definition counts (shift : Z) (src : list Z) : list nat :=
  foldl (fun count x => alter S (digit shift x) count) (replicate 256 0%nat) src.

(** [offset[0] = 0; offset[b] = offset[b - 1] + count[b - 1]]. *)
Fixpoint offsets_from (acc : nat) (count : list nat) : list nat :=
  match count with [] => [] | c :: count => acc :: offsets_from (acc + c) count end.
Definition offsets (count : list nat) : list nat := offsets_from 0 count.

(** [dst[offset[digit]++] = src[i]] over the source. *)
Definition scatter_step (shift : Z) (st : list Z * list nat) (x : Z) : list Z * list nat :=
  let '(dst, offset) := st in
  let b := digit shift x in
  (<[offset !!! b := x]> dst, alter S b offset).
Definition scatter (shift : Z) (src dst : list Z) (offset : list nat) : list Z :=
  (foldl (scatter_step shift) (dst, offset) src).1.

(** One pass; [dst] is the other buffer, of the same size. *)
Definition pass (shift : Z) (src dst : list Z) : list Z :=
  scatter shift src dst (offsets (counts shift src)).

(** The passes, with the two buffers swapped after each. *)
Fixpoint passes (k n : nat) (src dst : list Z) : list Z :=
  match n with
  | O => src
  | S n => passes (S k) n (pass (8 * Z.of_nat k) src dst) src
  end.

Definition radix_sort (radix_passes : nat) (keys : list Z) : list Z :=
  passes 0 radix_passes keys (replicate (length keys) 0).

(** [while (max_val > 0) { radix_passes++; max_val >>= 8; }]; a [uint64_t] needs at
    most 8 turns. *)
Fixpoint pass_loop (fuel : nat) (max_val : Z) : nat :=
  match fuel with
  | O => 0
  | S fuel => if decide (0 < max_val) then S (pass_loop fuel (Z.shiftr max_val 8)) else 0
  end.
Definition radix_passes (key_domain : Z) : nat :=
  let n := pass_loop 8 key_domain in if decide (n = 0%nat) then 1%nat else n.

(** [keys.erase(std::unique(...), keys.end())]. *)
Fixpoint unique (l : list Z) : list Z :=
  match l with
  | x :: (y :: _) as l' => if decide (x = y) then unique l' else x :: unique l'
  | _ => l
  end.

(** ** Buckets *)

(** The elements of a digit in order, and the stable result of a pass. *)
Definition bucket (shift : Z) (b : nat) (l : list Z) : list Z := filter (fun x => digit shift x = b) l.
Definition buckets (shift : Z) (l : list Z) : list (list Z) := (fun b => bucket shift b l) <$> seq 0 256.

Lemma digit_range shift x : (digit shift x < 256)%nat.
Proof.
  unfold digit. change 0xFF with (Z.ones 8). rewrite Z.land_ones by lia.
  pose proof (Z.mod_pos_bound (Z.shiftr x shift) (2 ^ 8) ltac:(lia)). lia.
Qed.

Lemma bucket_snoc shift b l x : bucket shift b (l ++ [x]) = bucket shift b l ++ (if decide (digit shift x = b) then [x] else []).
Proof. unfold bucket. by rewrite filter_app, filter_cons, filter_nil. Qed.

Lemma counts_spec shift l : counts shift l = length <$> buckets shift l.
Proof.
  unfold counts, buckets. induction l as [|x l IH] using rev_ind.
  - cbn [foldl]. rewrite <- list_fmap_compose. apply list_eq. intros i. rewrite list_lookup_fmap.
    destruct (decide (i < 256)%nat).
    + by rewrite lookup_replicate_2, lookup_seq_lt by lia.
    + rewrite lookup_ge_None_2 by (rewrite length_replicate; lia). by rewrite lookup_seq_ge by lia.
  - rewrite foldl_app. cbn [foldl]. rewrite IH. apply list_eq. intros i.
    rewrite <- !list_fmap_compose. destruct (decide (i = digit shift x)) as [->|Hne].
    + rewrite list_lookup_alter_eq, !list_lookup_fmap, lookup_seq_lt by apply digit_range. cbn.
      rewrite bucket_snoc, decide_True, length_app by done. cbn. f_equal. lia.
    + rewrite list_lookup_alter_ne, !list_lookup_fmap by done. destruct (seq 0 256 !! i) as [b|] eqn:Hb; [|done].
      apply lookup_seq in Hb as [-> _]. cbn. rewrite bucket_snoc, decide_False, app_nil_r by (intros Heq; by apply Hne). done.
Qed.

Lemma mjoin_cons {A} (l : list A) ls : mjoin (l :: ls) = l ++ mjoin ls.
Proof. done. Qed.

(** Where a bucket starts. *)
Definition start (ls : list (list Z)) (b : nat) : nat := length (mjoin (take b ls)).

Lemma offsets_spec (ls : list (list Z)) b : (b < length ls)%nat -> offsets (length <$> ls) !! b = Some (start ls b).
Proof.
  unfold offsets, start. change (length (mjoin (take b ls))) with (0 + length (mjoin (take b ls)))%nat.
  generalize 0%nat. revert b. induction ls as [|l ls IH]; intros b acc Hb; [cbn in Hb; lia|].
  destruct b as [|b]; cbn [fmap list_fmap offsets_from take lookup list_lookup]; [cbn; f_equal; lia|].
  cbn [length] in Hb. rewrite IH by lia. rewrite mjoin_cons, length_app. f_equal. lia.
Qed.

(** Indexing the concatenation. *)
Lemma join_lookup (ls : list (list Z)) b l j x : ls !! b = Some l -> l !! j = Some x ->
  mjoin ls !! (start ls b + j)%nat = Some x.
Proof.
  unfold start. revert b. induction ls as [|l0 ls IH]; intros b Hb Hj; [done|]. destruct b as [|b].
  - injection Hb as ->. cbn. by rewrite lookup_app_l_Some with (x := x).
  - cbn in Hb. cbn [take]. rewrite !mjoin_cons, length_app.
    rewrite lookup_app_r by lia. replace (length l0 + length (mjoin (take b ls)) + j - length l0)%nat
      with (length (mjoin (take b ls)) + j)%nat by lia. by apply IH.
Qed.

Lemma join_lookup_inv (ls : list (list Z)) i : (i < length (mjoin ls))%nat ->
  exists b l j x, ls !! b = Some l /\ l !! j = Some x /\ i = (start ls b + j)%nat.
Proof.
  unfold start. revert i. induction ls as [|l ls IH]; intros i Hi; [cbn in Hi; lia|].
  rewrite mjoin_cons, length_app in Hi. destruct (decide (i < length l)%nat) as [H|H].
  - destruct (lookup_lt_is_Some_2 l i H) as [x Hx]. exists 0%nat, l, i, x. done.
  - destruct (IH (i - length l)%nat ltac:(lia)) as (b & l' & j & x & H1 & H2 & H3).
    exists (S b), l', j, x. split; [done|]. split; [done|]. cbn [take]. rewrite mjoin_cons, length_app. lia.
Qed.

Lemma start_mono (ls : list (list Z)) b b' l : (b < b')%nat -> ls !! b = Some l -> (start ls b + length l <= start ls b')%nat.
Proof.
  unfold start. intros Hlt Hb. replace b' with (b + S (b' - b - 1))%nat by lia.
  rewrite <- (take_drop b ls) at 2. rewrite (drop_S _ l b Hb), take_app_add'.
  - cbn [take]. rewrite join_app, mjoin_cons, !length_app. lia.
  - rewrite length_take. apply lookup_lt_Some in Hb. lia.
Qed.

(** ** A pass is a stable distribution *)

Lemma buckets_lookup shift l b : (b < 256)%nat -> buckets shift l !! b = Some (bucket shift b l).
Proof. intros Hb. unfold buckets. by rewrite list_lookup_fmap, lookup_seq_lt. Qed.

Lemma filter_partition {A} (P Q : A -> Prop) `{forall x, Decision (P x)} `{forall x, Decision (Q x)} (l : list A) :
  (forall x, P x -> ~ Q x) -> filter P l ++ filter Q l ≡ₚ filter (fun x => P x \/ Q x) l.
Proof.
  intros Hpq. induction l as [|x l IH]; [done|]. rewrite !filter_cons.
  destruct (decide (P x)) as [Hp|Hp], (decide (Q x)) as [Hq|Hq].
  - by destruct (Hpq x).
  - rewrite decide_True by tauto. cbn. by rewrite IH.
  - rewrite decide_True by tauto. by rewrite <- Permutation_middle, IH.
  - by rewrite decide_False by tauto.
Qed.

Lemma buckets_perm shift l : mjoin (buckets shift l) ≡ₚ l.
Proof.
  assert (forall m, mjoin ((fun b => bucket shift b l) <$> seq 0 m) ≡ₚ filter (fun x => (digit shift x < m)%nat) l) as Hm.
  { induction m as [|m IH].
    - cbn. clear. induction l as [|x l IH]; [done|]. by rewrite filter_cons, decide_False by lia.
    - rewrite seq_S, fmap_app, join_app, IH. cbn. rewrite app_nil_r. unfold bucket.
      rewrite filter_partition by lia. rewrite (list_filter_ext_in _ (fun x => (digit shift x < S m)%nat)); [done|].
      intros x _. lia. }
  unfold buckets. rewrite Hm. rewrite list_filter_all; [done|]. apply Forall_forall. intros x _. apply digit_range.
Qed.

(** The arrays after a prefix of the source has been scattered. *)
Lemma scatter_inv shift p : forall q dst0, length dst0 = length (p ++ q) ->
  let ls := buckets shift (p ++ q) in
  let '(dst, off) := foldl (scatter_step shift) (dst0, offsets (length <$> ls)) p in
  length dst = length (p ++ q) /\
  (forall b, (b < 256)%nat -> off !! b = Some (start ls b + length (bucket shift b p))%nat) /\
  (forall b j x, (b < 256)%nat -> bucket shift b p !! j = Some x -> dst !! (start ls b + j)%nat = Some x).
Proof.
  induction p as [|x p IH] using rev_ind; intros q dst0 Hlen ls.
  - cbn [foldl]. split_and!; [done| |done]. intros b Hb. rewrite offsets_spec.
    + cbn. by rewrite Nat.add_0_r.
    + unfold ls, buckets. by rewrite length_fmap, length_seq.
  - subst ls. rewrite foldl_app. rewrite <- app_assoc in *. cbn [app] in *.
    specialize (IH (x :: q) dst0 Hlen). cbv zeta in IH. set (ls := buckets shift (p ++ x :: q)) in *.
    destruct (foldl _ _ p) as [dst off]. destruct IH as (I1 & I2 & I3). cbn [foldl scatter_step].
    set (b0 := digit shift x). assert (b0 < 256)%nat as Hb0 by apply digit_range.
    rewrite (list_lookup_total_correct off b0 _ (I2 b0 Hb0)).
    (* the slot of [x] is inside its bucket *)
    assert (forall b, (b < 256)%nat -> exists r, ls !! b = Some (bucket shift b p ++ r) /\ (b = b0 -> r <> [])) as Hls.
    { intros b Hb. unfold ls. rewrite buckets_lookup by done. unfold bucket. rewrite filter_app.
      eexists. split; [done|]. intros ->. rewrite filter_cons, decide_True by done. done. }
    destruct (Hls b0 Hb0) as (r0 & Hr0 & Hne0). specialize (Hne0 eq_refl).
    assert (start ls b0 + length (bucket shift b0 p) < length dst)%nat as Hin.
    { rewrite I1, <- (buckets_perm shift (p ++ x :: q)). fold ls.
      destruct r0 as [|y r0]; [done|].
      assert (mjoin ls !! (start ls b0 + length (bucket shift b0 p))%nat = Some y) as Hl.
      { eapply join_lookup; [exact Hr0|]. by rewrite lookup_app_r, Nat.sub_diag by lia. }
      by apply lookup_lt_Some in Hl. }
    split_and!.
    + by rewrite length_insert.
    + intros b Hb. rewrite bucket_snoc. destruct (decide (b = b0)) as [->|Hne].
      * rewrite list_lookup_alter_eq, I2 by done. rewrite decide_True, length_app by done. cbn. f_equal. lia.
      * rewrite list_lookup_alter_ne, I2 by done. rewrite decide_False, app_nil_r by (intros E; by apply Hne). done.
    + intros b j y Hb Hj. rewrite bucket_snoc in Hj.
      assert (j < length (bucket shift b p) \/ b = b0 /\ j = length (bucket shift b p) /\ y = x)%nat as [Hj'|(-> & -> & ->)].
      { apply lookup_app_Some in Hj as [Hj|[Hj1 Hj2]]; [left; by apply lookup_lt_Some in Hj|right].
        destruct (decide (digit shift x = b)) as [<-|]; [|done]. destruct (j - _)%nat eqn:E; [|done].
        injection Hj2 as <-. split_and!; [done|lia|done]. }
      * rewrite lookup_app_l in Hj by done. rewrite list_lookup_insert_ne; [by apply I3|].
        destruct (decide (b = b0)) as [->|Hne]; [lia|]. destruct (Hls b Hb) as (r & Hr & _).
        destruct (decide (b < b0)%nat).
        -- pose proof (start_mono ls b b0 _ ltac:(lia) Hr) as Hm. rewrite length_app in Hm. lia.
        -- pose proof (start_mono ls b0 b _ ltac:(lia) Hr0) as Hm. rewrite length_app in Hm.
           assert (0 < length r0)%nat by (destruct r0; [done|cbn; lia]). lia.
      * by apply list_lookup_insert_eq.
Qed.

Lemma pass_spec shift src dst : length dst = length src -> pass shift src dst = mjoin (buckets shift src).
Proof.
  intros Hlen. unfold pass, scatter. rewrite counts_spec.
  pose proof (scatter_inv shift src [] dst) as H. rewrite app_nil_r in H. specialize (H Hlen). cbv zeta in H.
  destruct (foldl _ _ _) as [d off]. destruct H as (H1 & _ & H3). cbn [fst].
  pose proof (Permutation_length (buckets_perm shift src)) as Hp.
  apply list_eq. intros i. destruct (decide (i < length src)%nat) as [Hi|Hi].
  - destruct (join_lookup_inv (buckets shift src) i) as (b & l & j & x & Hb & Hj & ->); [lia|].
    rewrite (join_lookup _ _ _ _ _ Hb Hj). assert (b < 256)%nat as Hb'.
    { apply lookup_lt_Some in Hb. unfold buckets in Hb. by rewrite length_fmap, length_seq in Hb. }
    rewrite buckets_lookup in Hb by done. injection Hb as <-. by apply H3.
  - rewrite !lookup_ge_None_2 by lia. done.
Qed.

(** ** The passes sort *)

(** Sorted by the lowest [k] bytes. *)
Definition sorted_by (k : nat) (l : list Z) : Prop :=
  StronglySorted (fun x y => x mod 2 ^ (8 * Z.of_nat k) <= y mod 2 ^ (8 * Z.of_nat k)) l.

Lemma StronglySorted_app_intro {A} (R : relation A) l1 l2 : StronglySorted R l1 -> StronglySorted R l2 ->
  (forall x y, x ∈ l1 -> y ∈ l2 -> R x y) -> StronglySorted R (l1 ++ l2).
Proof.
  intros H1 H2 H. induction H1 as [|x l1 _ IH Hall]; [done|]. cbn. constructor.
  - apply IH. intros y z Hy Hz. apply H; [by right|done].
  - apply Forall_app. split; [done|]. apply Forall_forall. intros y Hy. apply H; [by left|done].
Qed.

Lemma StronglySorted_weaken {A} (R R' : relation A) l : StronglySorted R l ->
  (forall x y, x ∈ l -> y ∈ l -> R x y -> R' x y) -> StronglySorted R' l.
Proof.
  induction 1 as [|x l _ IH Hall]; intros H; constructor.
  - apply IH. intros y z Hy Hz. apply H; by right.
  - rewrite Forall_forall in Hall |- *. intros y Hy. apply H; [by left|by right|auto].
Qed.

(** The next byte on top of the lower ones. *)
Lemma mod_digit k x : 0 <= x ->
  x mod 2 ^ (8 * Z.of_nat (S k)) = x mod 2 ^ (8 * Z.of_nat k) + 2 ^ (8 * Z.of_nat k) * Z.of_nat (digit (8 * Z.of_nat k) x).
Proof.
  intros Hx. replace (8 * Z.of_nat (S k)) with (8 * Z.of_nat k + 8) by lia. rewrite Z.pow_add_r by lia.
  rewrite Z.rem_mul_r by lia. unfold digit. change 0xFF with (Z.ones 8).
  rewrite Z.land_ones, Z.shiftr_div_pow2 by lia. rewrite Z2Nat.id by (apply Z.mod_pos_bound; lia). done.
Qed.

Lemma pass_sorted k l : Forall (fun x => 0 <= x) l -> sorted_by k l ->
  sorted_by (S k) (mjoin (buckets (8 * Z.of_nat k) l)).
Proof.
  intros Hpos Hs. unfold buckets, sorted_by in *. rewrite Forall_forall in Hpos.
  generalize 256%nat as m. induction m as [|m IH]; [constructor|].
  rewrite seq_S, fmap_app, join_app. cbn [fmap list_fmap]. rewrite mjoin_cons. cbn. rewrite app_nil_r.
  pose proof (Z.pow_pos_nonneg 2 (8 * Z.of_nat k) ltac:(lia) ltac:(lia)) as Hpow.
  apply StronglySorted_app_intro; [done| |].
  - eapply StronglySorted_weaken; [by apply StronglySorted_filter|]. intros x y Hx Hy Hle. cbv beta in Hle.
    unfold bucket in Hx, Hy. apply list_elem_of_filter in Hx as [Dx Hx], Hy as [Dy Hy].
    rewrite !mod_digit, Dx, Dy by auto. lia.
  - intros x y Hx Hy. apply list_elem_of_join in Hx as (lx & Hx & (b & -> & Hb)%list_elem_of_fmap).
    unfold bucket in Hx, Hy. apply list_elem_of_filter in Hx as [Dx Hx], Hy as [Dy Hy]. apply elem_of_seq in Hb.
    rewrite !mod_digit, Dx, Dy by auto.
    pose proof (Z.mod_pos_bound x (2 ^ (8 * Z.of_nat k)) Hpow). pose proof (Z.mod_pos_bound y (2 ^ (8 * Z.of_nat k)) Hpow). nia.
Qed.

Lemma passes_spec n : forall k src dst, length dst = length src -> Forall (fun x => 0 <= x) src -> sorted_by k src ->
  passes k n src dst ≡ₚ src /\ sorted_by (k + n) (passes k n src dst).
Proof.
  induction n as [|n IH]; intros k src dst Hl Hp Hs; cbn [passes]; [by rewrite Nat.add_0_r|].
  rewrite pass_spec by done. set (l := mjoin _). assert (l ≡ₚ src) as Hperm by apply buckets_perm.
  destruct (IH (S k) l src) as [H1 H2].
  - by rewrite Hperm.
  - by rewrite Hperm.
  - by apply pass_sorted.
  - split; [by rewrite H1|]. by replace (k + S n)%nat with (S k + n)%nat by lia.
Qed.

Lemma pass_loop_spec fuel v : 0 <= v < 2 ^ (8 * Z.of_nat fuel) -> v < 2 ^ (8 * Z.of_nat (pass_loop fuel v)).
Proof.
  revert v. induction fuel as [|fuel IH]; intros v Hv; [cbn in *; lia|]. cbn [pass_loop].
  destruct (decide (0 < v)); [|cbn; lia]. rewrite Z.shiftr_div_pow2 by lia.
  assert (0 <= v / 2 ^ 8 < 2 ^ (8 * Z.of_nat fuel)) as Hd.
  { split; [apply Z.div_pos; lia|]. apply Z.div_lt_upper_bound; [lia|]. rewrite <- Z.pow_add_r by lia.
    replace (8 + 8 * Z.of_nat fuel) with (8 * Z.of_nat (S fuel)) by lia. lia. }
  apply IH in Hd. set (n := pass_loop _ _) in *. replace (8 * Z.of_nat (S n)) with (8 + 8 * Z.of_nat n) by lia.
  rewrite Z.pow_add_r by lia. pose proof (Z.mul_succ_div_gt v (2 ^ 8) ltac:(lia)). nia.
Qed.

Lemma radix_passes_spec d : is_u64 d -> d < 2 ^ (8 * Z.of_nat (radix_passes d)).
Proof.
  intros Hd. unfold is_u64, u64_max in Hd. pose proof (pass_loop_spec 8 d ltac:(cbn; lia)) as H.
  unfold radix_passes. case_decide as E; [|done]. rewrite E in H. cbn in *. lia.
Qed.

Lemma unique_sorted l : StronglySorted Z.le l ->
  StronglySorted Z.lt (unique l) /\ (forall x, x ∈ unique l <-> x ∈ l) /\ head (unique l) = head l.
Proof.
  induction 1 as [|x l Hs [IH1 [IH2 IH3]] Hall]; [split_and!; [constructor|done|done]|].
  destruct l as [|y l]; [split_and!; [repeat constructor|done|done]|].
  change (unique (x :: y :: l)) with (if decide (x = y) then unique (y :: l) else x :: unique (y :: l)).
  destruct (decide (x = y)) as [->|Hne].
  - split_and!; [done| |done]. intros z. rewrite IH2, !elem_of_cons. tauto.
  - split_and!; [|intros z; split; intros [->|Hz]%elem_of_cons; try (by left); right; by apply IH2|done]. constructor; [done|].
    apply Forall_forall. intros z Hz. apply IH2 in Hz. apply StronglySorted_inv in Hs as [_ Hs].
    rewrite Forall_forall in Hall, Hs. pose proof (Hall y (list_elem_of_here _ _)).
    apply elem_of_cons in Hz as [->|Hz]; [lia|]. specialize (Hs z Hz). lia.
Qed.

(** ** Properties *)

Lemma radix_sort_gen d keys : is_u64 d -> Forall (fun k => 0 <= k <= d) keys ->
  radix_sort (radix_passes d) keys ≡ₚ keys /\ StronglySorted Z.le (radix_sort (radix_passes d) keys).
Proof.
  intros Hd Hk. unfold radix_sort. destruct (passes_spec (radix_passes d) 0 keys (replicate (length keys) 0)) as [H1 H2].
  - by rewrite length_replicate.
  - eapply Forall_impl; [exact Hk|]. cbn. lia.
  - unfold sorted_by. cbn. induction keys as [|k keys IH]; constructor; [apply IH; by inversion Hk|].
    apply Forall_forall. intros y _. by rewrite !Z.mod_1_r.
  - split; [done|]. eapply StronglySorted_weaken; [exact H2|]. cbn [Nat.add].
    assert (Forall (fun k => 0 <= k <= d) (passes 0 (radix_passes d) keys (replicate (length keys) 0))) as Hall by (by rewrite H1).
    rewrite Forall_forall in Hall. pose proof (radix_passes_spec d Hd) as Hp.
    intros x y Hx Hy. pose proof (Hall x Hx). pose proof (Hall y Hy). cbn in *. rewrite !Z.mod_small by lia. done.
Qed.

(** With the number of passes computed from the key domain, the radix sort of
    key ids up to the domain is the sorted permutation of its input, and dropping
    adjacent duplicates leaves each key once in increasing order. *)
Theorem radix_sort_correct d keys (Hd : is_u64 d) (Hk : Forall (fun k => 0 <= k <= d) keys) :
  radix_sort (radix_passes d) keys ≡ₚ keys /\ StronglySorted Z.le (radix_sort (radix_passes d) keys) /\
  StronglySorted Z.lt (unique (radix_sort (radix_passes d) keys)) /\
  (forall k, k ∈ unique (radix_sort (radix_passes d) keys) <-> k ∈ keys).
Proof.
  destruct (radix_sort_gen d keys Hd Hk) as [H1 H2]. destruct (unique_sorted _ H2) as (U1 & U2 & _).
  split_and!; try done. intros k. by rewrite U2, H1.
Qed.

Lemma radix_sort_correct_witness :
  unique (radix_sort (radix_passes 1000) [513; 2; 999; 2; 256; 258]) = [2; 256; 258; 513; 999] /\
  radix_sort (radix_passes 1000) [513; 2; 999; 2; 256; 258] ≡ₚ [513; 2; 999; 2; 256; 258].
Proof.
  split; [by vm_compute|]. apply (radix_sort_correct 1000); [by vm_compute|].
  apply (bool_decide_unpack _). by vm_compute.
Defined.

End Radix.
