(* ===== verification/Flush.v ===== *)
(** * The flush of a virtual load

    The batch handling of Phase 1 of [FillVirtual] in [tools/db_bench_tool.cc]:
    [do_flush], [process_synthetic_batch], [enqueue_phase1_batch_result] and
    [flush_l0_window_enqueue_batch].  A batch of key ids is sorted, fitted and
    sketched into one virtual L0 file, and files are handed to the L0 window in
    groups.  The window's [EnqueueVirtualL0Files] is a parameter here: any function
    of the files and of its state that says whether it succeeded.  The generator
    behind [Random64] ([std::mt19937_64]) is a parameter as well.  Timing counters
    are left out. *)

From Stdlib Require Import ZArith Lia Sorted SpecFloat.
From stdpp Require Import base numbers option list gmap.
From S2P Require Import Prelude FloatModel SizeModel Plr Kmv KmvEstimate Window Bitmap Membership Radix.

Local Open Scope Z_scope.

Module Flush.
Import Radix.

(** struct [Phase1BatchResult]. *)
Record Phase1BatchResult := mkResult {
  pending_file : Window.WindowFile;
  keys_before_dedup : Z;
  keys_after_dedup : Z;
  segments : Z;
}.

(** The totals of a load. *)
Record Totals := mkTotals {
  total_flushes : Z;
  total_keys_before_dedup : Z;
  total_keys_after_dedup : Z;
  total_segments : Z;
}.

Definition no_totals : Totals := mkTotals 0 0 0 0.

Definition accumulate_phase1_batch_stats (r : Phase1BatchResult) (t : Totals) : Totals :=
  mkTotals (total_flushes t) (total_keys_before_dedup t +% keys_before_dedup r)
    (total_keys_after_dedup t +% keys_after_dedup r) (total_segments t +% segments r).

(** The totals after one more batch. *)
Definition count_batch (t : Totals) (r : Phase1BatchResult) : Totals :=
  let t := accumulate_phase1_batch_stats r t in
  mkTotals (total_flushes t +% 1) (total_keys_before_dedup t) (total_keys_after_dedup t) (total_segments t).

(** [if (ingest_membership != nullptr)], for the keys of a list. *)
Definition ingest (keys : list Z) (m : option Membership.t) : option (option Membership.t) :=
  match m with
  | None => Some None
  | Some m => match Membership.mark_all keys m with Some m => Some (Some m) | None => None end
  end.

Section flush.
Context `{HeapOps} (env : Env) (sst_size_model : SSTSizeModel.t) (plr_error_bound : spec_float).
Context (key_domain : Z) (memtable_capacity register_batch_max : nat).
Context {E : Type} (enqueue : list Window.WindowFile -> E -> bool * E).
Context {gen : Type} (next : gen -> Z * gen) (Random64 : Z -> gen).

(** ** A batch *)

(** The distinct keys of a batch in order. *)
Definition sorted_keys (buf : list Z) : list Z := unique (radix_sort (radix_passes key_domain) buf).

(** The file of a non-empty batch: model, sketches, key range, entries and size. *)
Definition build_file (file_number epoch : Z) (buf : list Z) : Window.WindowFile :=
  let keys := sorted_keys buf in
  let size := SSTSizeModel.Estimate sst_size_model (Z.of_nat (length keys)) in
  Window.mkFile file_number (vsst_of_keys env keys plr_error_bound size) size epoch.

Definition build_result (file_number epoch before : Z) (buf : list Z) : Phase1BatchResult :=
  let file := build_file file_number epoch buf in
  mkResult file before (Z.of_nat (length (sorted_keys buf)))
    (Z.of_nat (NumSegments (plr_model (Window.vsst file)))).

(** The variables of the loading loops; [sent] are the files enqueued so far. *)
Record Loader := mkLoader {
  memtable_buf : list Z;
  l0_window_enqueue_batch : list Window.WindowFile;
  sent : list Window.WindowFile;
  next_reserved_l0_file : Z;
  next_epoch : Z;
  l0_window_failed : bool;
  totals : Totals;
  membership : option Membership.t;
  window : E;
}.

Definition start (base : Z) (m : option Membership.t) (w : E) : Loader :=
  mkLoader [] [] [] base 1 false no_totals m w.

Definition set_buf (buf : list Z) (m : option Membership.t) (l : Loader) : Loader :=
  mkLoader buf (l0_window_enqueue_batch l) (sent l) (next_reserved_l0_file l) (next_epoch l)
    (l0_window_failed l) (totals l) m (window l).

Definition flush_l0_window_enqueue_batch (l : Loader) : Loader :=
  match l0_window_enqueue_batch l with
  | [] => l
  | files =>
      let '(ok, w) := enqueue files (window l) in
      mkLoader (memtable_buf l) [] (sent l ++ files) (next_reserved_l0_file l) (next_epoch l)
        (if ok then l0_window_failed l else true) (totals l) (membership l) w
  end.

Definition enqueue_phase1_batch_result (r : Phase1BatchResult) (l : Loader) : Loader :=
  let l := mkLoader (memtable_buf l) (l0_window_enqueue_batch l ++ [pending_file r]) (sent l)
             (next_reserved_l0_file l) (next_epoch l) (l0_window_failed l)
             (count_batch (totals l) r) (membership l) (window l) in
  if decide (register_batch_max <= length (l0_window_enqueue_batch l))%nat
  then flush_l0_window_enqueue_batch l else l.

(** [None]: the front of an empty vector. *)
Definition do_flush (l : Loader) : option Loader :=
  match memtable_buf l with
  | [] => None
  | buf =>
      let r := build_result (next_reserved_l0_file l) (next_epoch l) (Z.of_nat (length buf)) buf in
      Some (enqueue_phase1_batch_result r
              (mkLoader [] (l0_window_enqueue_batch l) (sent l) (next_reserved_l0_file l +% 1)
                 (next_epoch l +% 1) (l0_window_failed l) (totals l) (membership l) (window l)))
  end.

(** The seed of a batch's own stream, and the keys it draws. *)
Definition batch_seed (seed_base : Z) (batch_id : nat) : Z :=
  Z.lxor (u64 seed_base) (0x9e3779b97f4a7c15 +% (Z.of_nat batch_id *% 0xbf58476d1ce4e5b9)).

Fixpoint draw_keys (n : nat) (g : gen) : list Z :=
  match n with
  | O => []
  | S n => let '(x, g) := next g in x mod key_domain :: draw_keys n g
  end.

(** Keys that come from the key stream are marked when they are sorted, keys that
    the batch draws itself as they are drawn. *)
Definition process_synthetic_batch (base seed_base : Z) (batch_id batch_keys : nat) (supplied : list Z)
    (m : option Membership.t) : option (Phase1BatchResult * option Membership.t) :=
  let '(keys, marks) :=
    match supplied with
    | [] => let keys := draw_keys batch_keys (Random64 (batch_seed seed_base batch_id)) in (keys, keys)
    | _ => (supplied, sorted_keys supplied)
    end in
  match ingest marks m, keys with
  | Some m, _ :: _ =>
      Some (build_result (base +% Z.of_nat batch_id) (Z.of_nat batch_id +% 1) (Z.of_nat batch_keys) keys, m)
  | _, _ => None
  end.

(** After the loops: the partial batch, then the files not yet enqueued. *)
Definition finish (l : Loader) : option Loader :=
  match (if l0_window_failed l then Some l
         else match memtable_buf l with [] => Some l | _ => do_flush l end) with
  | None => None
  | Some l => Some (if l0_window_failed l then l else flush_l0_window_enqueue_batch l)
  end.

(** ** Batches *)

(** The results of the batches [0, 1, ...]. *)
Definition results_of (base : Z) (batches : list (list Z)) : list Phase1BatchResult :=
  imap (fun i b => build_result (base +% Z.of_nat i) (Z.of_nat i +% 1) (Z.of_nat (length b)) b) batches.

Definition files_of (base : Z) (batches : list (list Z)) : list Window.WindowFile :=
  pending_file <$> results_of base batches.

Lemma results_of_snoc base done b :
  results_of base (done ++ [b]) = results_of base done ++
    [build_result (base +% Z.of_nat (length done)) (Z.of_nat (length done) +% 1) (Z.of_nat (length b)) b].
Proof. unfold results_of. rewrite imap_app. cbn. by rewrite Nat.add_0_r. Qed.

Lemma results_of_length base bs : length (results_of base bs) = length bs.
Proof. apply length_imap. Qed.

(** What the loader handed over, or is about to, are the files of the results. *)
Record holds_results (rs : list Phase1BatchResult) (l : Loader) : Prop := {
  r_files : sent l ++ l0_window_enqueue_batch l = pending_file <$> rs;
  r_totals : totals l = foldl count_batch no_totals rs;
  r_ok : l0_window_failed l = false;
}.

(** The files built so far are those of [done]. *)
Record at_done (base : Z) (done : list (list Z)) (l : Loader) : Prop := {
  d_results : holds_results (results_of base done) l;
  d_number : next_reserved_l0_file l = base +% Z.of_nat (length done);
  d_epoch : next_epoch l = Z.of_nat (length done) +% 1;
}.

Lemma u64_add_1 x : u64 (u64 x + 1) = u64 (x + 1).
Proof. unfold u64. by rewrite Zplus_mod_idemp_l. Qed.

(** The keys of a file are those of its batch. *)
Lemma sorted_keys_spec buf : is_u64 key_domain -> Forall (fun k => 0 <= k < key_domain) buf ->
  StronglySorted Z.lt (sorted_keys buf) /\ (forall k, k ∈ sorted_keys buf <-> k ∈ buf) /\
  (length (sorted_keys buf) <= length buf)%nat.
Proof.
  intros Hd Hb. destruct (radix_sort_gen key_domain buf Hd) as [R1 R2].
  { eapply Forall_impl; [exact Hb|]. cbn. lia. }
  destruct (unique_sorted _ R2) as (U1 & U2 & _). unfold sorted_keys.
  split_and!; [done|intros k; by rewrite U2, R1|]. rewrite <- R1 at 2. clear. generalize (radix_sort (radix_passes key_domain) buf).
  intros l. induction l as [|x l IH]; [done|]. destruct l as [|y l]; [done|].
  change (unique (x :: y :: l)) with (if decide (x = y) then unique (y :: l) else x :: unique (y :: l)).
  case_decide; cbn [length] in *; lia.
Qed.

Lemma vsst_sound_ext (K K' : Z -> Prop) v : (forall k, K k <-> K' k) -> vsst_sound K v -> vsst_sound K' v.
Proof.
  intros HK ((R1 & R2) & R3 & R4). split; [split|split; [done|]].
  - eapply Forall_impl; [exact R1|]. intros r (Q1 & Q2 & Q3). split; [|split; [|done]].
    + eapply sketch_sound_ext; [|exact Q1]. intros k _. cbn. by rewrite HK.
    + intros k Hk. apply Q2. by apply HK.
  - intros k Hk. apply R2. by apply HK.
  - intros k Hk. apply R4. by apply HK.
Qed.

Lemma last_in (l : list Z) : l <> [] -> List.last l 0 ∈ l.
Proof.
  induction l as [|x l IH]; [done|]. intros _. destruct l as [|y l]; [by left|]. right. by apply IH.
Qed.

(** The file a flush builds from a batch of key ids of the domain describes
    exactly the batch's distinct keys: its sketches are sound for them, its range
    is their minimum and maximum, and its entry count and size are those of the
    distinct keys. *)
Theorem build_file_sound (HL : HeapLaws) (n e : Z) (buf : list Z) (Hd : is_u64 key_domain)
    (Hbuf : Forall (fun k => 0 <= k < key_domain) buf) (Hne : buf <> [])
    (Hlen : Z.of_nat (length buf) < 2 ^ 32) :
  let f := build_file n e buf in
  let v := Window.vsst f in
  vsst_sound (fun k => k ∈ buf) v /\ key_min v ∈ buf /\ key_max v ∈ buf /\
  num_entries v = Z.of_nat (length (remove_dups buf)) /\
  Window.file_size f = SSTSizeModel.Estimate sst_size_model (num_entries v) /\
  size_bytes v = Window.file_size f.
Proof.
  intros f v. destruct (sorted_keys_spec buf Hd Hbuf) as (S1 & S2 & S3).
  assert (sorted_keys buf <> []) as Hne'.
  { destruct buf as [|k buf]; [done|]. intros Hn. specialize (S2 k). rewrite Hn in S2.
    assert (k ∈ []) as Hk by (apply S2; by left). by apply not_elem_of_nil in Hk. }
  assert (vsst_sound (fun k => k ∈ sorted_keys buf) v) as Hs.
  { apply vsst_of_keys_sound; [done| |lia]. apply Forall_forall. intros k Hk. apply S2 in Hk.
    rewrite Forall_forall in Hbuf. specialize (Hbuf k Hk). unfold is_u64 in *. cbn in Hbuf. lia. }
  split_and!.
  - eapply vsst_sound_ext; [|exact Hs]. intros k. apply S2.
  - apply S2. cbn. destruct (sorted_keys buf); [done|by left].
  - apply S2. cbn. by apply last_in.
  - cbn. f_equal. apply Permutation_length, NoDup_Permutation; [by apply lt_sorted_nodup|apply NoDup_remove_dups|].
    intros k. by rewrite S2, elem_of_remove_dups.
  - done.
  - done.
Qed.


Section enqueue_ok.
Hypothesis (Hok : forall files w, (enqueue files w).1 = true).

Lemma flush_batch_results rs l : holds_results rs l ->
  let l' := flush_l0_window_enqueue_batch l in
  holds_results rs l' /\ l0_window_enqueue_batch l' = [] /\ memtable_buf l' = memtable_buf l /\
  next_reserved_l0_file l' = next_reserved_l0_file l /\ next_epoch l' = next_epoch l /\ membership l' = membership l.
Proof.
  intros [H1 H2 H3]. unfold flush_l0_window_enqueue_batch.
  destruct (l0_window_enqueue_batch l) as [|f fs] eqn:Eb; [split_and!; try done; by split; rewrite ?Eb|].
  pose proof (Hok (f :: fs) (window l)) as Hk. destruct (enqueue _ _) as [ok w]. cbn in Hk. subst ok.
  cbn. split_and!; try done. split; cbn; by rewrite ?app_nil_r.
Qed.

Lemma enqueue_result_holds rs r l : holds_results rs l ->
  let l' := enqueue_phase1_batch_result r l in
  holds_results (rs ++ [r]) l' /\ memtable_buf l' = memtable_buf l /\
  next_reserved_l0_file l' = next_reserved_l0_file l /\ next_epoch l' = next_epoch l /\ membership l' = membership l.
Proof.
  intros [H1 H2 H3]. unfold enqueue_phase1_batch_result. set (l1 := mkLoader _ _ _ _ _ _ _ _ _).
  assert (holds_results (rs ++ [r]) l1) as Hl1.
  { split; cbn; [by rewrite fmap_app, app_assoc, H1|by rewrite foldl_app, H2|done]. }
  destruct (decide _); [|done]. destruct (flush_batch_results _ _ Hl1) as (F1 & _ & F2 & F3 & F4 & F5). done.
Qed.

Lemma flush_batch_at base done l : at_done base done l ->
  at_done base done (flush_l0_window_enqueue_batch l) /\
  memtable_buf (flush_l0_window_enqueue_batch l) = memtable_buf l /\
  l0_window_enqueue_batch (flush_l0_window_enqueue_batch l) = [] /\
  membership (flush_l0_window_enqueue_batch l) = membership l.
Proof.
  intros [H1 H2 H3]. destruct (flush_batch_results _ _ H1) as (F1 & F2 & F3 & F4 & F5 & F6).
  split; [|done]. split; congruence.
Qed.

Lemma do_flush_at base done l : at_done base done l -> memtable_buf l <> [] ->
  exists l', do_flush l = Some l' /\ at_done base (done ++ [memtable_buf l]) l' /\ memtable_buf l' = [] /\
    membership l' = membership l.
Proof.
  intros [H1 H2 H3] Hne. unfold do_flush. destruct (memtable_buf l) as [|k buf]; [done|].
  set (l1 := mkLoader _ _ _ _ _ _ _ _ _). set (r := build_result _ _ _ _).
  assert (holds_results (results_of base done) l1) as Hl1 by (destruct H1; by split).
  destruct (enqueue_result_holds _ r _ Hl1) as (R1 & R2 & R3 & R4 & R5).
  eexists. split; [done|]. split_and!; [|done|done]. split.
  - rewrite results_of_snoc, <- H2, <- H3. exact R1.
  - rewrite R3, length_app. cbn [next_reserved_l0_file l1 length]. rewrite H2, u64_add_1. f_equal. lia.
  - rewrite R4, length_app. cbn [next_epoch l1 length]. rewrite H3, u64_add_1. f_equal. lia.
Qed.
End enqueue_ok.

(** ** Ingested keys *)

(** The bitmap after the keys [ks] were marked. *)
Definition ingested (m0 : option Membership.t) (ks : list Z) (m : option Membership.t) : Prop :=
  match m0, m with
  | None, None => True
  | Some a, Some b =>
      Membership.key_domain b = Membership.key_domain a /\
      Membership.claims_enabled b = Membership.claims_enabled a /\
      forall s c, Membership.models a s c ->
        Membership.models b (list_to_set (filter (fun k => k < Membership.key_domain a) ks) ∪ s) c
  | _, _ => False
  end.

Definition wf_membership (m : option Membership.t) : Prop :=
  match m with None => True | Some m => exists s c, Membership.models m s c end.

Lemma ingested_nil m : ingested m [] m.
Proof. destruct m as [m|]; [|done]. split_and!; [done..|]. intros s c Hm. cbn. by rewrite union_empty_l_L. Qed.

Lemma ingested_wf m0 ks m : wf_membership m0 -> ingested m0 ks m -> wf_membership m.
Proof. destruct m0 as [a|], m as [b|]; try done. intros (s & c & Hm) (_ & _ & Hi). eexists _, _. by apply Hi. Qed.

Lemma ingest_ingested m0 ks m add : wf_membership m0 -> ingested m0 ks m -> Forall (fun k => 0 <= k) add ->
  exists m', ingest add m = Some m' /\ ingested m0 (ks ++ add) m'.
Proof.
  intros Hw Hi Hk. pose proof (ingested_wf _ _ _ Hw Hi) as Hw'. destruct m0 as [a|], m as [b|]; try done.
  2: { by exists None. }
  destruct Hi as (Hd & He & Hi). destruct Hw' as (s0 & c0 & Hm0). unfold ingest.
  destruct (Membership.mark_all_models add b _ _ Hm0 Hk) as (b' & Hmark & Hd' & He' & _). rewrite Hmark.
  exists (Some b'). split; [done|]. split_and!; [congruence|congruence|]. intros s c Hm.
  destruct (Membership.mark_all_models add b _ _ (Hi s c Hm) Hk) as (b2 & Hmark2 & _ & _ & Hm2).
  rewrite Hmark in Hmark2. injection Hmark2 as <-. rewrite Hd, union_assoc_L in Hm2.
  by rewrite filter_app, list_to_set_app_L, (union_comm_L (list_to_set (filter _ ks))).
Qed.

Lemma ingested_ext m0 ks ks' m : (forall k, k ∈ ks <-> k ∈ ks') -> ingested m0 ks m -> ingested m0 ks' m.
Proof.
  intros Hk. destruct m0 as [a|], m as [b|]; try done. intros (Hd & He & Hi). split_and!; [done..|]. intros s c Hm.
  replace (list_to_set (filter (fun k => k < Membership.key_domain a) ks') : gset Z)
    with (list_to_set (filter (fun k => k < Membership.key_domain a) ks) : gset Z); [by apply Hi|].
  apply set_eq. intros k. rewrite !elem_of_list_to_set, !list_elem_of_filter, Hk. done.
Qed.

(** The keys determine the bitmap. *)
Lemma ingested_unique m0 ks m m' : wf_membership m0 -> ingested m0 ks m -> ingested m0 ks m' -> m = m'.
Proof.
  destruct m0 as [a|], m as [b|], m' as [b'|]; try done. intros (s & c & Hm) (D1 & E1 & I1) (D2 & E2 & I2).
  f_equal. eapply Membership.models_unique; [by apply I1|by apply I2|congruence|congruence].
Qed.

End flush.

(** ** Instances *)

Definition sample_model : SSTSizeModel.t := SSTSizeModel.Logical 100.
Definition sample_enqueue (files : list Window.WindowFile) (w : unit) : bool * unit := (true, w).
Definition sample_build := build_file demo_env sample_model (F64.of_Z 1) 100.

Lemma build_file_sound_witness :
  let v := Window.vsst (sample_build 7 1 [30; 5; 30; 99]) in
  (key_min v, key_max v, num_entries v, size_bytes v) = (5, 99, 3, 300) /\
  vsst_sound (fun k => k ∈ [30; 5; 30; 99]) v.
Proof.
  split; [by vm_compute|].
  apply (build_file_sound demo_env sample_model (F64.of_Z 1) 100 sorting_heap_laws 7 1 [30; 5; 30; 99]);
    [by vm_compute|apply (bool_decide_unpack _); by vm_compute|done|by vm_compute].
Defined.

End Flush.
