(* ===== verification/Load.v ===== *)
(** * The loading loops of a virtual load

    Phase 1 of [FillVirtual] in [tools/db_bench_tool.cc]: the replay of a trace,
    the serial synthetic loop, and the parallel one, which keeps up to
    [phase1_shards] batches in flight and takes their results in batch order.  The
    shards mark their keys in one bitmap; marks commute, so a batch's marks are
    applied when it is launched.  Counts are natural numbers: none exceeds the
    number of operations, an [int64_t]. *)

From Stdlib Require Import ZArith Lia Sorted SpecFloat.
From stdpp Require Import base numbers option list relations gmap.
From S2P Require Import Prelude FloatModel SizeModel Plr Kmv KmvEstimate Window Bitmap Membership Stream Radix Flush.

Local Open Scope Z_scope.

Module Load.
Import Flush.

Section load.
Context `{HeapOps} (env : Env) (sst_size_model : SSTSizeModel.t) (plr_error_bound : spec_float).
Context (key_domain : Z) (memtable_capacity register_batch_max : nat).
Context {E : Type} (enqueue : list Window.WindowFile -> E -> bool * E).
Context {gen : Type} (next : gen -> Z * gen) (Random64 : Z -> gen).

Local Abbreviation Loader := (Flush.Loader (E := E)).
Local Abbreviation do_flush := (do_flush env sst_size_model plr_error_bound key_domain register_batch_max enqueue).
Local Abbreviation finish := (finish env sst_size_model plr_error_bound key_domain register_batch_max enqueue).
Local Abbreviation enqueue_result := (enqueue_phase1_batch_result register_batch_max enqueue).
Local Abbreviation at_done := (at_done env sst_size_model plr_error_bound key_domain (E := E)).
Local Abbreviation results_of := (results_of env sst_size_model plr_error_bound key_domain).
Local Abbreviation files_of := (files_of env sst_size_model plr_error_bound key_domain).
Local Abbreviation sorted_keys := (sorted_keys key_domain).
Local Abbreviation process := (process_synthetic_batch env sst_size_model plr_error_bound key_domain next Random64).

(** ** The trace loop *)

(** Keys are appended to the buffer and marked. *)
Definition append (keys : list Z) (l : Loader) : option Loader :=
  match ingest keys (membership l) with
  | Some m => Some (set_buf (memtable_buf l ++ keys) m l)
  | None => None
  end.

Definition flush_if_full (l : Loader) : option Loader :=
  if decide (memtable_capacity <= length (memtable_buf l))%nat then do_flush l else Some l.

(** The inner loop over the records of one read; what is left of them, too. *)
Fixpoint fill (fuel : nat) (recs : list Z) (l : Loader) : option (list Z * Loader) :=
  match fuel with
  | O => None
  | S fuel =>
      match recs with
      | [] => Some ([], l)
      | _ =>
          if l0_window_failed l then Some (recs, l)
          else if decide (memtable_capacity <= length (memtable_buf l))%nat then
            do_flush l ≫= fill fuel recs
          else
            let space := (memtable_capacity - length (memtable_buf l))%nat in
            (append (take space recs) l ≫= flush_if_full) ≫= fill fuel (drop space recs)
      end
  end.

Definition kTraceReadBatchRecords : nat := 4 * 1024 * 1024.

(** The outer loop: [body] are the records of the file still to be read. *)
Fixpoint replay (fuel : nat) (batch_records : nat) (num_ops : nat) (body : list Z) (l : Loader) : option Loader :=
  match fuel with
  | O => None
  | S fuel =>
      if decide (num_ops = 0%nat) then Some l
      else if l0_window_failed l then Some l
      else
        let want := Nat.min batch_records num_ops in
        let recs := take want body in
        match recs with
        | [] => Some l
        | _ =>
            match fill (S (2 * length recs)) recs l with
            | None => None
            | Some (rest, l) =>
                if decide (length recs < want)%nat then Some l
                else replay fuel batch_records (num_ops - (length recs - length rest)) (drop want body) l
            end
        end
  end.

Definition load_trace (base : Z) (num_ops : nat) (body : list Z) (m : option Membership.t) (w : E) : option Loader :=
  replay (S num_ops) kTraceReadBatchRecords num_ops body (start base m w) ≫= finish.

(** ** The synthetic loops *)

(** One shard: every key is pushed and marked, a full buffer is flushed. *)
Fixpoint serial_loop (keys : list Z) (l : Loader) : option Loader :=
  match keys with
  | [] => Some l
  | k :: keys =>
      if l0_window_failed l then Some l
      else (append [k] l ≫= flush_if_full) ≫= serial_loop keys
  end.

Definition load_serial (base : Z) (keys : list Z) (m : option Membership.t) (w : E) : option Loader :=
  serial_loop keys (start base m w) ≫= finish.

(** Several shards. *)
Definition total_flushes_expected (num_ops : nat) : nat := (num_ops + memtable_capacity - 1) / memtable_capacity.

Definition drain_one_parallel_batch (st : list Phase1BatchResult * Loader) : list Phase1BatchResult * Loader :=
  match st with
  | (r :: in_flight, l) => (in_flight, enqueue_result r l)
  | _ => st
  end.

(** The loop over the batches: [stream] are the batches the key stream is going to
    hand over, when there is one. *)
Fixpoint launch (n : nat) (base seed_base : Z) (shards num_ops batch_id : nat) (stream : option (list (list Z)))
    (in_flight : list Phase1BatchResult) (l : Loader) : option (list Phase1BatchResult * Loader) :=
  match n with
  | O => Some (in_flight, l)
  | S n =>
      if l0_window_failed l then Some (in_flight, l)
      else
        let batch_keys := Nat.min memtable_capacity (num_ops - batch_id * memtable_capacity) in
        match stream with
        | Some [] => Some (in_flight, l)
        | _ =>
            let supplied := match stream with Some (b :: _) => b | _ => [] end in
            match process base seed_base batch_id batch_keys supplied (membership l) with
            | None => None
            | Some (r, m) =>
                let st := (in_flight ++ [r], set_buf (memtable_buf l) m l) in
                let st := if decide (shards <= length st.1)%nat then drain_one_parallel_batch st else st in
                launch n base seed_base shards num_ops (S batch_id) (tail <$> stream) st.1 st.2
            end
        end
  end.

Fixpoint drain_parallel_batches (in_flight : list Phase1BatchResult) (l : Loader) : Loader :=
  match in_flight with
  | [] => l
  | r :: in_flight => if l0_window_failed l then l else drain_parallel_batches in_flight (enqueue_result r l)
  end.

Definition load_parallel (base seed_base : Z) (shards num_ops : nat) (stream : option (list (list Z)))
    (m : option Membership.t) (w : E) : option Loader :=
  match launch (total_flushes_expected num_ops) base seed_base shards num_ops 0 stream [] (start base m w) with
  | None => None
  | Some (in_flight, l) => finish (drain_parallel_batches in_flight l)
  end.

(** ** Batches *)

(** Cutting a sequence into batches of the memtable's capacity. *)
Fixpoint chunks (fuel : nat) (keys : list Z) : list (list Z) :=
  match fuel, keys with
  | S fuel, _ :: _ => take memtable_capacity keys :: chunks fuel (drop memtable_capacity keys)
  | _, _ => []
  end.
Definition batches (keys : list Z) : list (list Z) := chunks (length keys) keys.

Hypothesis (Hcap : (1 <= memtable_capacity)%nat).

Lemma chunks_fuel f g keys : (length keys <= f)%nat -> (length keys <= g)%nat -> chunks f keys = chunks g keys.
Proof.
  revert g keys. induction f as [|f IH]; intros g keys Hf Hg.
  { destruct keys; [by destruct g|cbn in Hf; lia]. }
  destruct keys as [|k keys]; [by destruct g|]. destruct g as [|g]; [cbn in Hg; lia|]. cbn [chunks]. f_equal.
  apply IH; rewrite length_drop; cbn in *; lia.
Qed.

Lemma batches_app c keys : length c = memtable_capacity -> batches (c ++ keys) = c :: batches keys.
Proof.
  intros Hc. unfold batches. destruct c as [|k c]; [cbn in Hc; lia|].
  change (length ((k :: c) ++ keys)) with (S (length (c ++ keys))). cbn [app chunks]. change (k :: c ++ keys) with ((k :: c) ++ keys).
  rewrite take_app_length', drop_app_length' by done. f_equal. apply chunks_fuel; rewrite ?length_app; lia.
Qed.

Lemma batches_join full rest : Forall (fun c => length c = memtable_capacity) full -> (length rest < memtable_capacity)%nat ->
  batches (mjoin full ++ rest) = full ++ (match rest with [] => [] | _ => [rest] end).
Proof.
  intros Hf Hr. induction Hf as [|c full Hc _ IH].
  - cbn. destruct rest as [|k rest]; [done|]. unfold batches. cbn [length chunks].
    rewrite take_ge, drop_ge by lia. by destruct (length rest).
  - rewrite Radix.mjoin_cons, <- app_assoc, batches_app by done. by rewrite IH.
Qed.

Lemma batches_seq k : forall keys, (length keys <= k * memtable_capacity)%nat ->
  (forall i, (i < k)%nat -> (i * memtable_capacity < length keys)%nat) ->
  batches keys = (fun i => take memtable_capacity (drop (i * memtable_capacity) keys)) <$> seq 0 k.
Proof.
  induction k as [|k IH]; intros keys Hle Hlt.
  { destruct keys; [done|cbn in Hle; lia]. }
  cbn [seq fmap list_fmap]. rewrite drop_0, <- fmap_S_seq, <- list_fmap_compose.
  specialize (Hlt k ltac:(lia)) as Hk. destruct keys as [|x keys]; [cbn in Hk; lia|]. unfold batches. cbn [length chunks]. f_equal.
  set (d := drop memtable_capacity (x :: keys)). assert (length d = length (x :: keys) - memtable_capacity)%nat as Hd by apply length_drop.
  rewrite (chunks_fuel _ (length d)) by (cbn in Hd; lia). fold (batches d). rewrite IH.
  - apply list_fmap_ext. intros i y _. cbn [compose]. unfold d. by rewrite drop_drop.
  - cbn in *. lia.
  - intros i Hi. specialize (Hlt (S i) ltac:(lia)). cbn in *. lia.
Qed.

(** The number of batches is the number of file numbers reserved for them. *)
Lemma batches_by_index keys :
  batches keys = (fun i => take memtable_capacity (drop (i * memtable_capacity) keys)) <$>
                   seq 0 (total_flushes_expected (length keys)).
Proof.
  unfold total_flushes_expected. pose proof (Nat.div_mod_eq (length keys + memtable_capacity - 1) memtable_capacity) as Hd.
  pose proof (Nat.mod_upper_bound (length keys + memtable_capacity - 1) memtable_capacity ltac:(lia)) as Hm.
  apply batches_seq; [nia|]. intros i Hi. nia.
Qed.

Lemma batches_length keys : length (batches keys) = total_flushes_expected (length keys).
Proof. by rewrite batches_by_index, length_fmap, length_seq. Qed.

Lemma chunks_concat f : forall keys, (length keys <= f)%nat -> mjoin (chunks f keys) = keys.
Proof.
  induction f as [|f IH]; intros keys Hf; [destruct keys; [done|cbn in Hf; lia]|].
  destruct keys as [|k keys]; [done|]. cbn [chunks]. rewrite Radix.mjoin_cons, IH, take_drop; [done|].
  rewrite length_drop. cbn in *. lia.
Qed.

Lemma batches_concat keys : mjoin (batches keys) = keys.
Proof. by apply chunks_concat. Qed.

(** ** The loops lose no key *)

Section enqueue_ok.
Hypothesis (Hok : forall files w, (enqueue files w).1 = true).
Context (base : Z) (m0 : option Membership.t).
Hypothesis (Hm0 : wf_membership m0).

(** Full batches, a partial buffer, and every key marked. *)
Definition loaded (l : Loader) (keys : list Z) : Prop :=
  exists full, at_done base full l /\ Forall (fun c => length c = memtable_capacity) full /\
    (length (memtable_buf l) < memtable_capacity)%nat /\ mjoin full ++ memtable_buf l = keys /\
    ingested m0 keys (membership l).

Lemma set_buf_at done b m (l : Loader) : at_done base done l -> at_done base done (set_buf b m l).
Proof. intros [[] ? ?]. by repeat split. Qed.

Lemma start_loaded w : is_u64 base -> loaded (start base m0 w) [].
Proof.
  intros Hb. exists []. split; [|split_and!; [constructor|cbn; lia|done|by apply ingested_nil]].
  split; cbn; [by split|by rewrite Z.add_0_r, u64_small|done].
Qed.

Lemma loaded_ok l keys : loaded l keys -> l0_window_failed l = false.
Proof. by intros (full & [[] ? ?] & _). Qed.

(** Adding keys that fit, with the flush when the buffer is full. *)
Lemma push_loaded l keys add : loaded l keys -> add <> [] -> Forall (fun k => 0 <= k) add ->
  (length (memtable_buf l) + length add <= memtable_capacity)%nat ->
  exists l', (append add l ≫= flush_if_full) = Some l' /\ loaded l' (keys ++ add).
Proof.
  intros (full & Hat & Hfull & Hlt & Hjoin & Hin) Hadd Hpos Hle. unfold append.
  destruct (ingest_ingested _ _ _ add Hm0 Hin Hpos) as (m' & -> & Hin'). cbn [mbind option_bind].
  pose proof (set_buf_at full (memtable_buf l ++ add) m' l Hat) as Hat1. set (l1 := set_buf _ _ l) in *.
  assert (memtable_buf l1 = memtable_buf l ++ add) as Hb by done. unfold flush_if_full. rewrite Hb, length_app.
  destruct (decide _) as [Hge|Hlt'].
  - destruct (do_flush_at _ _ _ _ register_batch_max _ Hok base full l1 Hat1) as (l' & Hf & Hat' & Hb' & Hm').
    { rewrite Hb. intros [_ ?]%app_eq_nil. done. }
    exists l'. split; [done|]. exists (full ++ [memtable_buf l1]). split_and!; [done| | | |].
    + apply Forall_app. split; [done|]. constructor; [|done]. rewrite Hb, length_app. lia.
    + rewrite Hb'. cbn. lia.
    + rewrite Hb', app_nil_r, join_app, Radix.mjoin_cons, Hb. cbn. by rewrite app_nil_r, app_assoc, Hjoin.
    + by rewrite Hm'.
  - exists l1. split; [done|]. exists full. split_and!; [done|done|rewrite Hb, length_app; lia| |done].
    by rewrite Hb, app_assoc, Hjoin.
Qed.

Lemma fill_loaded fuel : forall recs l keys, loaded l keys -> Forall (fun k => 0 <= k) recs -> (length recs < fuel)%nat ->
  exists l', fill fuel recs l = Some ([], l') /\ loaded l' (keys ++ recs).
Proof.
  induction fuel as [|fuel IH]; intros recs l keys Hl Hpos Hf; [lia|]. cbn [fill].
  destruct recs as [|r recs]; [exists l; by rewrite app_nil_r|]. set (rs := r :: recs) in *.
  rewrite (loaded_ok _ _ Hl). pose proof Hl as (full & _ & _ & Hlt & _).
  rewrite decide_False by lia. set (space := (memtable_capacity - length (memtable_buf l))%nat).
  assert (1 <= space)%nat as Hsp by lia.
  destruct (push_loaded l keys (take space rs) Hl) as (l1 & -> & Hl1).
  - unfold rs. destruct space; [lia|done].
  - by apply Forall_take.
  - rewrite length_take. lia.
  - assert (length (drop space rs) < fuel)%nat as Hd by (rewrite length_drop; unfold rs in *; cbn in *; lia).
    destruct (IH (drop space rs) l1 _ Hl1 (Forall_drop _ _ _ Hpos) Hd) as (l2 & Hf2 & Hl2).
    exists l2. rewrite <- app_assoc, take_drop in Hl2. done.
Qed.

Lemma replay_loaded B : (1 <= B)%nat -> forall fuel num_ops body l keys, loaded l keys ->
  Forall (fun k => 0 <= k) body -> (num_ops < fuel)%nat ->
  exists l', replay fuel B num_ops body l = Some l' /\ loaded l' (keys ++ take num_ops body).
Proof.
  intros HB. induction fuel as [|fuel IH]; intros num_ops body l keys Hl Hpos Hf; [lia|]. cbn [replay].
  destruct (decide (num_ops = 0%nat)) as [->|Hn]; [exists l; by rewrite take_0, app_nil_r|].
  rewrite (loaded_ok _ _ Hl). set (want := Nat.min B num_ops). set (recs := take want body).
  destruct recs as [|r rs] eqn:Er.
  { exists l. split; [done|]. assert (body = []) as ->; [|by rewrite take_nil, app_nil_r].
    destruct body; [done|]. unfold recs in Er. destruct want eqn:E'; [lia|done]. }
  rewrite <- Er. destruct (fill_loaded (S (2 * length recs)) recs l keys Hl) as (l1 & -> & Hl1);
    [by apply Forall_take|lia|].
  assert (length recs = Nat.min want (length body)) as Hlen by (unfold recs; apply length_take).
  destruct (decide _) as [Hs|Hs].
  - exists l1. split; [done|]. replace (take num_ops body) with recs; [done|].
    unfold recs. rewrite !take_ge by lia. done.
  - destruct (IH (num_ops - (length recs - 0))%nat (drop want body) l1 _ Hl1 (Forall_drop _ _ _ Hpos)) as (l2 & Hr & Hl2).
    { assert (1 <= length recs)%nat by (rewrite Er; cbn; lia). lia. }
    exists l2. split; [exact Hr|]. rewrite <- app_assoc in Hl2. unfold recs in Hl2 at 1.
    replace (num_ops - (length recs - 0))%nat with (num_ops - want)%nat in Hl2 by lia.
    rewrite take_take_drop in Hl2. by replace (want + (num_ops - want))%nat with num_ops in Hl2 by lia.
Qed.

Lemma serial_loaded keys : forall l ks, loaded l ks -> Forall (fun k => 0 <= k) keys ->
  exists l', serial_loop keys l = Some l' /\ loaded l' (ks ++ keys).
Proof.
  induction keys as [|k keys IH]; intros l ks Hl Hpos; cbn [serial_loop]; [exists l; by rewrite app_nil_r|].
  apply Forall_cons in Hpos as [Hk Hpos]. rewrite (loaded_ok _ _ Hl).
  destruct (push_loaded l ks [k] Hl) as (l1 & -> & Hl1); [done|by constructor| |].
  { destruct Hl as (? & _ & _ & ? & _). cbn. lia. }
  destruct (IH l1 _ Hl1 Hpos) as (l2 & H2 & Hl2). rewrite <- app_assoc in Hl2. by exists l2.
Qed.

(** What a load leaves behind: everything is enqueued, counted and marked. *)
Definition complete (keys : list Z) (l : Loader) : Prop :=
  sent l = files_of base (batches keys) /\
  totals l = foldl count_batch no_totals (results_of base (batches keys)) /\
  ingested m0 keys (membership l) /\
  l0_window_failed l = false /\ memtable_buf l = [] /\ l0_window_enqueue_batch l = [].

(** Without a partial buffer, [finish] only hands over the last files. *)
Lemma finish_results rs l keys : holds_results rs l -> memtable_buf l = [] -> rs = results_of base (batches keys) ->
  ingested m0 keys (membership l) -> exists l', finish l = Some l' /\ complete keys l'.
Proof.
  intros Hr Hb -> Hi. unfold Flush.finish. rewrite (r_ok _ _ Hr), Hb, (r_ok _ _ Hr).
  destruct (flush_batch_results _ Hok _ _ Hr) as ([F1 F2 F3] & F4 & F5 & _ & _ & F6).
  eexists. split; [done|]. rewrite F4, app_nil_r in F1. split_and!; try done; congruence.
Qed.

Lemma finish_loaded l keys : loaded l keys -> exists l', finish l = Some l' /\ complete keys l'.
Proof.
  intros (full & Hat & Hfull & Hlt & Hjoin & Hin). rewrite <- Hjoin in *.
  pose proof (batches_join _ _ Hfull Hlt) as Hbs. destruct (memtable_buf l) as [|k buf] eqn:Eb.
  - destruct Hat as [Hr _ _]. eapply finish_results; [done|done| |done]. by rewrite Hbs, app_nil_r.
  - pose proof (r_ok _ _ (d_results _ _ _ _ _ _ _ Hat)) as Hk.
    destruct (do_flush_at _ _ _ _ register_batch_max _ Hok base full l Hat) as (l1 & Hf & Hat1 & Hb1 & Hm1); [by rewrite Eb|].
    rewrite Eb in Hat1. destruct Hat1 as [Hr1 _ _].
    destruct (finish_results _ l1 (mjoin full ++ k :: buf) Hr1 Hb1) as (l' & Hl' & Hc); [by rewrite Hbs|by rewrite Hm1|].
    exists l'. split; [|done]. unfold Flush.finish in *. rewrite Hk, Eb, Hf. by rewrite Hb1, (r_ok _ _ Hr1) in Hl'.
Qed.

(** ** The parallel loop *)

Lemma drain_results fl : forall rs l, holds_results rs l ->
  let l' := drain_parallel_batches fl l in
  holds_results (rs ++ fl) l' /\ memtable_buf l' = memtable_buf l /\ membership l' = membership l.
Proof.
  induction fl as [|r fl IH]; intros rs l Hr; [by rewrite app_nil_r|]. cbn [drain_parallel_batches].
  rewrite (r_ok _ _ Hr). destruct (enqueue_result_holds register_batch_max _ Hok rs r l Hr) as (R1 & R2 & _ & _ & R5).
  destruct (IH _ _ R1) as (I1 & I2 & I3). rewrite <- app_assoc in I1. split_and!; [done|congruence|congruence].
Qed.

(** A batch the key stream supplied. *)
Lemma process_supplied seed_base (id n : nat) b ks m : is_u64 key_domain -> b <> [] ->
  Forall (fun k => 0 <= k < key_domain) b -> ingested m0 ks m ->
  exists m', process base seed_base id n b m =
      Some (build_result env sst_size_model plr_error_bound key_domain (base +% Z.of_nat id) (Z.of_nat id +% 1) (Z.of_nat n) b, m') /\
    ingested m0 (ks ++ b) m'.
Proof.
  intros Hd Hne Hb Hi. destruct (sorted_keys_spec key_domain b Hd Hb) as (_ & Hs & _).
  destruct (ingest_ingested m0 ks m (sorted_keys b) Hm0 Hi) as (m' & Hin & Hi').
  { apply Forall_forall. intros k Hk%Hs. rewrite Forall_forall in Hb. specialize (Hb k Hk). cbn in Hb. lia. }
  exists m'. unfold process_synthetic_batch. destruct b as [|k b]; [done|]. rewrite Hin. split; [done|].
  eapply ingested_ext; [|exact Hi']. intros x. by rewrite !elem_of_app, Hs.
Qed.

(** The batches at hand are the ones the loop asks for. *)
Definition supply_ok (num_ops from : nat) (bs : list (list Z)) : Prop :=
  forall i b, bs !! i = Some b -> b <> [] /\ Forall (fun k => 0 <= k < key_domain) b /\
    length b = Nat.min memtable_capacity (num_ops - (from + i) * memtable_capacity).

Lemma supply_tail num_ops from b bs : supply_ok num_ops from (b :: bs) -> supply_ok num_ops (S from) bs.
Proof. intros Hs i x Hx. specialize (Hs (S i) x Hx). by replace (S from + i)%nat with (from + S i)%nat by lia. Qed.

Lemma launch_results seed_base shards num_ops bs : is_u64 key_domain -> forall done rs fl l,
  supply_ok num_ops (length done) bs -> holds_results rs l -> rs ++ fl = results_of base done ->
  ingested m0 (mjoin done) (membership l) -> memtable_buf l = [] ->
  exists rs' fl' l', launch (length bs) base seed_base shards num_ops (length done) (Some bs) fl l = Some (fl', l') /\
    holds_results rs' l' /\ rs' ++ fl' = results_of base (done ++ bs) /\
    ingested m0 (mjoin (done ++ bs)) (membership l') /\ memtable_buf l' = [].
Proof.
  intros Hd. induction bs as [|b bs IH]; intros done rs fl l Hs Hr He Hi Hb; cbn [length launch].
  { exists rs, fl, l. by rewrite app_nil_r. }
  rewrite (r_ok _ _ Hr). destruct (Hs 0%nat b eq_refl) as (Hne & Hran & Hlen). rewrite Nat.add_0_r in Hlen.
  rewrite <- Hlen. destruct (process_supplied seed_base (length done) (length b) b _ _ Hd Hne Hran Hi) as (m' & -> & Hi').
  set (r := build_result _ _ _ _ _ _ _ _). set (l1 := set_buf (memtable_buf l) m' l).
  assert (holds_results rs l1) as Hr1 by (destruct Hr; by split).
  assert (rs ++ fl ++ [r] = results_of base (done ++ [b])) as He1 by (by rewrite app_assoc, He, results_of_snoc).
  assert (ingested m0 (mjoin (done ++ [b])) (membership l1)) as Hi1.
  { rewrite join_app, Radix.mjoin_cons. cbn [mjoin list_join]. rewrite app_nil_r. exact Hi'. }
  assert (exists rs2, let st := (if decide (shards <= length (fl ++ [r], l1).1)%nat
      then drain_one_parallel_batch (fl ++ [r], l1) else (fl ++ [r], l1)) in
    holds_results rs2 st.2 /\ rs2 ++ st.1 = results_of base (done ++ [b]) /\
    membership st.2 = membership l1 /\ memtable_buf st.2 = []) as (rs2 & S1 & S2 & S3 & S4).
  { destruct (decide _); [|by exists rs]. destruct (fl ++ [r]) as [|r0 fl0] eqn:Ef; [by apply app_eq_nil in Ef as [_ ?]|].
    destruct (enqueue_result_holds register_batch_max _ Hok rs r0 l1 Hr1) as (R1 & R2 & _ & _ & R5).
    exists (rs ++ [r0]). cbn. rewrite <- app_assoc. split_and!; [done|exact He1|done|by rewrite R2]. }
  cbv zeta in S1, S2, S3, S4. set (st := if decide _ then _ else _) in *.
  replace (S (length done)) with (length (done ++ [b])) by (rewrite length_app; cbn; lia).
  rewrite (app_assoc done [b] bs : done ++ b :: bs = (done ++ [b]) ++ bs).
  apply IH with rs2; [|done|done|by rewrite S3|done]. rewrite length_app, Nat.add_1_r. by eapply supply_tail.
Qed.

Lemma batches_supply keys : Forall (fun k => 0 <= k < key_domain) keys -> supply_ok (length keys) 0 (batches keys).
Proof.
  intros Hk i b Hb. rewrite batches_by_index, list_lookup_fmap in Hb.
  destruct (seq 0 _ !! i) as [j|] eqn:Hj; [|done]. apply lookup_seq in Hj as [-> Hj]. cbn in Hb. injection Hb as <-.
  assert (i * memtable_capacity < length keys)%nat as Hlt.
  { unfold total_flushes_expected in Hj. pose proof (Nat.div_mod_eq (length keys + memtable_capacity - 1) memtable_capacity). nia. }
  split_and!; [|by apply Forall_take, Forall_drop|by rewrite length_take, length_drop].
  intros Hn. apply (f_equal length) in Hn. rewrite length_take, length_drop in Hn. cbn in Hn. lia.
Qed.

Lemma load_parallel_gen seed_base shards keys w : is_u64 key_domain -> Forall (fun k => 0 <= k < key_domain) keys ->
  exists l, load_parallel base seed_base shards (length keys) (Some (batches keys)) m0 w = Some l /\ complete keys l.
Proof.
  intros Hd Hk. unfold load_parallel. rewrite <- batches_length.
  destruct (launch_results seed_base shards (length keys) (batches keys) Hd [] [] [] (start base m0 w))
    as (rs & fl & l & Hl & Hr & He & Hi & Hb); [by apply batches_supply|by split|done|by apply ingested_nil|done|].
  cbn [length] in Hl. rewrite Hl. destruct (drain_results fl rs l Hr) as (D1 & D2 & D3).
  eapply finish_results; [exact D1|by rewrite D2|done|]. rewrite D3. cbn [app] in Hi. by rewrite batches_concat in Hi.
Qed.

End enqueue_ok.
(** ** Properties *)

(** The totals count the batches and the records. *)
Lemma load_totals base bs :
  let t := foldl count_batch no_totals (results_of base bs) in
  total_flushes t = u64 (Z.of_nat (length bs)) /\
  total_keys_before_dedup t = u64 (Z.of_nat (length (mjoin bs))).
Proof.
  clear Hcap. induction bs as [|b bs [IH1 IH2]] using rev_ind; [done|]. rewrite results_of_snoc, foldl_app.
  set (t := foldl count_batch no_totals _) in *. cbn [foldl count_batch accumulate_phase1_batch_stats total_flushes total_keys_before_dedup].
  rewrite IH1, IH2, u64_add_1, join_app, Radix.mjoin_cons, !length_app. cbn [length mjoin list_join keys_before_dedup build_result].
  unfold u64. rewrite Zplus_mod_idemp_l. split; f_equal; lia.
Qed.

(** A whole trace load. *)
Lemma load_trace_spec (base : Z) (num_ops : nat) (body : list Z) (m : option Membership.t) (w : E)
    (Hok : forall files w, (enqueue files w).1 = true) (Hb : is_u64 base) (Hm : wf_membership m)
    (Hpos : Forall (fun k => 0 <= k) body) :
  let keys := take num_ops body in
  exists l, load_trace base num_ops body m w = Some l /\ sent l = files_of base (batches keys) /\
    ingested m keys (membership l) /\ total_flushes (totals l) = u64 (Z.of_nat (length (batches keys))) /\
    total_keys_before_dedup (totals l) = u64 (Z.of_nat (length keys)) /\
    l0_window_failed l = false /\ memtable_buf l = [] /\ l0_window_enqueue_batch l = [].
Proof.
  intros keys. unfold load_trace. assert (1 <= kTraceReadBatchRecords)%nat as HB by (unfold kTraceReadBatchRecords; lia).
  destruct (replay_loaded Hok base m Hm _ HB (S num_ops) num_ops body (start base m w) []) as (l & -> & Hl);
    [by apply start_loaded|done|lia|].
  destruct (finish_loaded Hok base m l keys Hl) as (l' & Hf & C1 & C2 & C3 & C4 & C5 & C6).
  exists l'. cbn [mbind option_bind]. destruct (load_totals base (batches keys)) as [T1 T2].
  rewrite batches_concat in T2. rewrite C2. done.
Qed.

(** C27: A trace load that no enqueue fails loses no record: it completes, and the
    files it enqueues are, in order and with consecutive file and epoch numbers,
    those of the trace's first [num_ops] records cut at the memtable capacity; the
    totals count the files and the records, and every record is marked. *)
Theorem load_trace_complete (base : Z) (num_ops : nat) (body : list Z) (m : option Membership.t) (w : E)
    (Hok : forall files w, (enqueue files w).1 = true) (Hb : is_u64 base) (Hm : wf_membership m)
    (Hpos : Forall (fun k => 0 <= k) body) :
  let keys := take num_ops body in
  exists l, load_trace base num_ops body m w = Some l /\ sent l = files_of base (batches keys) /\
    ingested m keys (membership l) /\ total_flushes (totals l) = u64 (Z.of_nat (length (batches keys))) /\
    total_keys_before_dedup (totals l) = u64 (Z.of_nat (length keys)) /\
    l0_window_failed l = false /\ memtable_buf l = [] /\ l0_window_enqueue_batch l = [].
Proof. by apply load_trace_spec. Qed.

(** C15: The tree and the bitmap do not depend on the number of shards: the serial
    loop over the write path's keys and the parallel loop over the batches the key
    stream hands over, however producer and consumers interleave, enqueue the same
    files, one for every reserved file number, and mark the same keys. *)
Theorem shards_agree (seed : gen) (total depth : nat) (st : Stream.State (gen := gen)) (base seed_base : Z)
    (shards : nat) (m : option Membership.t) (w : E) (Hok : forall files w, (enqueue files w).1 = true)
    (Hb : is_u64 base) (Hd : 0 < key_domain <= u64_max) (Hm : wf_membership m)
    (Hrun : rtc (Stream.step_or_stop next key_domain total memtable_capacity depth) (Stream.start seed) st)
    (Hend : Stream.Next st = Stream.End) (Hstop : Stream.stop_ st = false) :
  let keys := Stream.all_keys next seed key_domain total in
  exists serial parallel, load_serial base keys m w = Some serial /\
    load_parallel base seed_base shards total (Some (Stream.delivered st)) m w = Some parallel /\
    sent serial = sent parallel /\ totals serial = totals parallel /\ membership serial = membership parallel /\
    sent serial = files_of base (batches keys) /\ length (sent serial) = total_flushes_expected total /\
    l0_window_failed serial = false /\ l0_window_failed parallel = false.
Proof.
  intros keys. assert (length keys = total) as Hlen by apply Stream.draw_length.
  pose proof (Stream.draw_range next key_domain total seed ltac:(lia)) as Hran. fold (Stream.all_keys next seed key_domain total) in Hran.
  fold keys in Hran. assert (Forall (fun k => 0 <= k) keys) as Hpos by (eapply Forall_impl; [exact Hran|]; cbn; lia).
  unfold load_serial. destruct (serial_loaded Hok base m Hm keys (start base m w) [] (start_loaded base m w Hb) Hpos) as (l & -> & Hl).
  destruct (finish_loaded Hok base m l keys Hl) as (ls & Hf & S1 & S2 & S3 & S4 & _). exists ls. cbn [mbind option_bind].
  destruct (Stream.end_batches next seed key_domain total memtable_capacity depth st) as (k & Hk & Hle & Hlt); [|done|done|].
  { by apply Stream.stream_reachable. }
  assert (Stream.batch_keys memtable_capacity = memtable_capacity) as Hbk by (unfold Stream.batch_keys; lia).
  rewrite Hbk in Hle, Hlt.
  assert (Stream.delivered st = batches keys) as ->.
  { rewrite Hk, (batches_seq k) by (rewrite Hlen; done). apply list_fmap_ext. intros i y _. unfold Stream.batch. by rewrite Hbk. }
  destruct (load_parallel_gen Hok base m Hm seed_base shards keys w ltac:(unfold is_u64; lia) Hran) as (lp & Hp & P1 & P2 & P3 & P4 & _).
  rewrite Hlen in Hp. exists lp. split_and!; [done|done|congruence|congruence| |done| |done|done].
  - by eapply ingested_unique.
  - rewrite S1. unfold Flush.files_of. by rewrite length_fmap, results_of_length, batches_length, Hlen.
Qed.

End load.

(** ** Instances *)

Local Abbreviation sample_load_trace := (load_trace demo_env sample_model (F64.of_Z 1) 100 2 1 sample_enqueue).
Local Abbreviation sample_files := (files_of demo_env sample_model (F64.of_Z 1) 100 50).

Lemma load_trace_complete_witness :
  exists l, sample_load_trace 50 3 [9; 4; 7; 1] (Some Membership.sample) tt = Some l /\
    sent l = sample_files (batches 2 (take 3 [9; 4; 7; 1])) /\
    ingested (Some Membership.sample) [9; 4; 7] (membership l) /\
    total_flushes (totals l) = u64 (Z.of_nat (length (batches 2 [9; 4; 7]))) /\
    total_keys_before_dedup (totals l) = u64 (Z.of_nat 3) /\
    l0_window_failed l = false /\ memtable_buf l = [] /\ l0_window_enqueue_batch l = [].
Proof.
  apply (load_trace_complete demo_env sample_model (F64.of_Z 1) 100 2 1 sample_enqueue ltac:(lia) 50 3 [9; 4; 7; 1]);
    [done|by vm_compute|eexists _, _; exact Membership.membership_sample|repeat constructor; lia].
Defined.

(** Three keys drawn by a counting generator, handed over in batches of two. *)
Definition sample_stream : Stream.State (gen := Z) := Stream.mkState Stream.Done [] true false [[1; 3]; [5]].

Lemma sample_stream_run : rtc (Stream.step_or_stop Stream.sample_next 100 3 2 1) (Stream.start 0) sample_stream.
Proof.
  eapply rtc_l; [apply Stream.sos_step, Stream.step_produce; reflexivity|].
  eapply rtc_l; [apply Stream.sos_step, Stream.step_produce; reflexivity|].
  eapply rtc_l; [apply Stream.sos_step; eapply Stream.step_next; reflexivity|].
  do 4 (eapply rtc_l; [apply Stream.sos_step, Stream.step_produce; reflexivity|]).
  eapply rtc_l; [apply Stream.sos_step; eapply Stream.step_next; reflexivity|]. apply rtc_refl.
Qed.

Lemma shards_agree_witness :
  let keys := Stream.all_keys Stream.sample_next 0 100 3 in
  keys = [1; 3; 5] /\
  exists serial parallel,
    load_serial demo_env sample_model (F64.of_Z 1) 100 2 1 sample_enqueue 50 keys (Some Membership.sample) tt = Some serial /\
    load_parallel demo_env sample_model (F64.of_Z 1) 100 2 1 sample_enqueue Stream.sample_next (fun s => s)
      50 7 2 3 (Some [[1; 3]; [5]]) (Some Membership.sample) tt = Some parallel /\
    sent serial = sent parallel /\ membership serial = membership parallel.
Proof.
  split; [by vm_compute|].
  destruct (shards_agree demo_env sample_model (F64.of_Z 1) 100 2 1 sample_enqueue Stream.sample_next (fun s => s) ltac:(lia)
    0 3 1 sample_stream 50 7 2 (Some Membership.sample) tt ltac:(done) ltac:(by vm_compute) ltac:(by vm_compute)
    (ex_intro _ _ (ex_intro _ _ Membership.membership_sample)) sample_stream_run eq_refl eq_refl)
    as (serial & parallel & H1 & H2 & H3 & _ & H4 & _).
  exists serial, parallel. exact (conj H1 (conj H2 (conj H3 H4))).
Defined.

End Load.
