(* ===== verification/Writer.v ===== *)
(** * Writing a table file

    [SstFileWriter] of [table/sst_file_writer.cc] as the materialization uses it:
    [Open], [Put] of user keys without timestamps, and [Finish]; and the key
    encoding [GenerateKeyFromInt] of [tools/db_bench_tool.cc].  The table builder
    and the file are behind one bit per call: whether the I/O succeeds.  The list
    of the keys added is kept beside the writer's own fields. *)

From Stdlib Require Import ZArith Lia Sorted.
From stdpp Require Import base numbers list.
From S2P Require Import Prelude SizeModel Kmv Registry.

Local Open Scope Z_scope.

Module Writer.

(** ** Keys *)

(** The options of the key encoding. *)
Record KeyOptions := mkKeyOptions { key_size_ : nat; keys_per_prefix_ : Z; prefix_size_ : nat }.

(** Conversion to [int64_t]. *)
Definition s64 (z : Z) : Z := let z := u64 z in if decide (z < 2 ^ 63) then z else z - 2 ^ 64.

(** The low [n] bytes, the highest first. *)
Definition bytes_of (n : nat) (v : Z) : list Z :=
  (fun i => Z.land (Z.shiftr v (8 * (Z.of_nat n - Z.of_nat i - 1))) 0xFF) <$> seq 0 n.

(** Without existing keys; [None]: a remainder by zero. *)
Definition GenerateKeyFromInt (o : KeyOptions) (v num_keys : Z) : option (list Z) :=
  prefix ← (if decide (0 < keys_per_prefix_ o) then
              let num_prefix := u64 (Z.quot (s64 num_keys) (keys_per_prefix_ o)) in
              if decide (num_prefix = 0) then None
              else
                let prefix := s64 (v mod num_prefix) in
                Some (bytes_of (Nat.min (prefix_size_ o) 8) prefix ++ replicate (prefix_size_ o - 8) 48)
            else Some []);
  let pos := length prefix in
  let bytes_to_fill := Nat.min (key_size_ o - pos) 8 in
  Some (prefix ++ bytes_of bytes_to_fill v ++ replicate (key_size_ o - (pos + bytes_to_fill)) 48).

(** ** The writer *)

Record t := mk {
  opened : bool;
  status : Status;
  num_entries : Z;
  smallest_key : list Z;
  largest_key : list Z;
  added : list (list Z);
}.

Definition unopened : t := mk false OK 0 [] [] [].

Definition io_status (io_ok : bool) : Status := if io_ok then OK else IOError.

Definition Open (io_ok : bool) (w : t) : Status * t :=
  if io_ok then (OK, mk true OK 0 [] [] []) else (IOError, w).

(** [AddImpl]; [io_ok] is the builder's state after the addition. *)
Definition Put (io_ok : bool) (key : list Z) (w : t) : Status * t :=
  if negb (opened w) then (InvalidArgument, w)
  else if negb (bool_decide (status w = OK)) then (status w, w)
  else if decide (num_entries w <> 0 /\ Registry.slice_compare key (largest_key w) <> Gt)
  then (InvalidArgument, w)
  else
    (io_status io_ok,
     mk true (io_status io_ok) (num_entries w +% 1)
       (if decide (num_entries w = 0) then key else smallest_key w) key (added w ++ [key])).

Definition Finish (io_ok : bool) (w : t) : Status * t :=
  if negb (opened w) then (InvalidArgument, w)
  else if decide (num_entries w = 0) then (InvalidArgument, w)
  else (if bool_decide (status w = OK) then io_status io_ok else status w,
        mk false (status w) (num_entries w) (smallest_key w) (largest_key w) (added w)).

(** ** Lemmas *)

(** The encoding without prefixes is that of the registry. *)
Lemma GenerateKeyFromInt_plain o v n : keys_per_prefix_ o = 0 ->
  GenerateKeyFromInt o v n = Some (Registry.encode_user_key (key_size_ o) v).
Proof. intros Hp. unfold GenerateKeyFromInt. rewrite Hp, decide_False by lia. cbn [mbind option_bind length app]. by rewrite Nat.sub_0_r. Qed.

(** What a writer in use looks like. *)
Record writing (w : t) : Prop := {
  w_open : opened w = true;
  w_status : status w = OK;
  w_count : num_entries w = Z.of_nat (length (added w));
  w_first : smallest_key w = default [] (head (added w));
  w_last : largest_key w = default [] (last (added w));
}.

Lemma Put_ok w key : writing w -> Z.of_nat (length (added w)) < u64_max ->
  (forall k, last (added w) = Some k -> Registry.slice_compare key k = Gt) ->
  exists w', Put true key w = (OK, w') /\ writing w' /\ added w' = added w ++ [key].
Proof.
  intros [H1 H2 H3 H4 H5] Hn Hk. unfold Put. rewrite H1, H2, bool_decide_true by done. cbn [negb].
  rewrite decide_False.
  2: { intros [Hne Hc]. apply Hc. rewrite H5. destruct (last (added w)) as [k|] eqn:El; [by apply Hk|].
       apply last_None in El. rewrite El in H3. done. }
  eexists. split; [done|]. split; [|done]. split; cbn; try done.
  - rewrite H3, u64_small by solve_u64. rewrite length_app. cbn. lia.
  - rewrite H3, H4. destruct (added w); cbn; [done|]. by rewrite decide_False by lia.
  - by rewrite last_snoc.
Qed.

End Writer.
