(* ===== verification/Calibrate.v ===== *)
(** * Calibrating the size model

    [CalibrateSSTSizeModel] of [db/virtual_compaction/sst_size_calibration.cc] and the
    callback [FillVirtual] of [tools/db_bench_tool.cc] passes to it: tables of two
    sizes are written with dense and with spread keys, and each pair of measured sizes
    becomes a line of the model.  The environment is behind one answer per call: each
    sample has the outcomes of its writes and the sizes reported for it. *)

From Stdlib Require Import ZArith Lia.
From stdpp Require Import base numbers list.
From S2P Require Import Prelude SizeModel Kmv Registry Writer.

Local Open Scope Z_scope.

Module Calibrate.

(** ** Data *)

Definition kMiB : Z := 2 ^ 20.
Definition kMaxSampleEntries : Z := 262144.
Definition kMaxLogicalEntryBytes : Z := 64 * kMiB.

(** struct [SSTSizeCalibrationSample]. *)
Record Sample := mkSample { entries : Z; stride : Z; file_bytes : Z }.

(** The answers of the private environment to one sample. *)
Record SampleIo := mkSampleIo {
  io_open : bool;
  io_put : nat -> bool;
  io_finish : bool;
  io_file_size : Z;
  io_env_size : option Z;
  io_delete : bool;
}.

Section calibrate.
Context (opts : Writer.KeyOptions) (key_domain : Z).

(** ** Operations *)

(** The callback's loop from [i], [n] keys. *)
Fixpoint populate (io : SampleIo) (n : nat) (i key_stride : Z) (w : Writer.t) : option (Status * Writer.t) :=
  match n with
  | O => Some (OK, w)
  | S n =>
      match Writer.GenerateKeyFromInt opts (i *% key_stride) key_domain with
      | None => None
      | Some key =>
          match Writer.Put (io_put io (Z.to_nat i)) key w with
          | (OK, w) => populate io n (i + 1) key_stride w
          | (s, w) => Some (s, w)
          end
      end
  end.

(** The checks after [Finish]. *)
Definition check_sample (io : SampleIo) (n : Z) (w : Writer.t) : Status :=
  if decide (Writer.num_entries w <> n \/ io_file_size io = 0) then Corruption
  else
    match io_env_size io with
    | None => IOError
    | Some size => if decide (size <> io_file_size io) then Corruption else OK
    end.

(** A file that was opened is removed; a failure to do so counts if nothing else failed. *)
Definition cleanup (io : SampleIo) (s : Status) : Status :=
  match s with OK => if io_delete io then OK else IOError | s => s end.

Definition MeasureSample (io : SampleIo) (n key_stride : Z) : option (Status + Sample) :=
  match Writer.Open (io_open io) Writer.unopened with
  | (OK, w) =>
      match populate io (Z.to_nat n) 0 key_stride w with
      | None => None
      | Some (s, w) =>
          let s := match s with
                   | OK => match Writer.Finish (io_finish io) w with (OK, w) => check_sample io n w | (s, _) => s end
                   | s => s
                   end in
          Some (match cleanup io s with OK => inr (mkSample n key_stride (io_file_size io)) | s => inl s end)
      end
  | (s, _) => Some (inl s)
  end.

(** The sample sizes and the stride. *)
Definition n2_of (logical_entry_bytes : Z) : Z :=
  Z.min (Z.min (Z.max 2 (8 * kMiB / logical_entry_bytes)) kMaxSampleEntries) key_domain.
Definition n1_of (logical_entry_bytes : Z) : Z :=
  Z.min (Z.max 1 (4 * kMiB / logical_entry_bytes)) (n2_of logical_entry_bytes / 2).
Definition stride_of (logical_entry_bytes target_sst_bytes : Z) : Z :=
  let typical_entries := Z.max 1 (target_sst_bytes / logical_entry_bytes) in
  Z.max 1 ((key_domain -% 1) / Z.max (n2_of logical_entry_bytes -% 1) (typical_entries -% 1)).

(** The loop over the strides. *)
Fixpoint calibrate_loop (ios : nat -> SampleIo) (n1 n2 : Z) (strides : list Z) (m : SSTSizeModel.t) (measured : list Sample)
    : option (Status + (SSTSizeModel.t * list Sample)) :=
  match strides with
  | [] => Some (inr (m, measured))
  | key_stride :: strides =>
      if decide (measured <> [] /\ key_stride = 1) then calibrate_loop ios n1 n2 strides m measured
      else
        match MeasureSample (ios (length measured)) n1 key_stride with
        | None => None
        | Some (inl s) => Some (inl s)
        | Some (inr first) =>
            match MeasureSample (ios (length measured + 1)%nat) n2 key_stride with
            | None => None
            | Some (inl s) => Some (inl s)
            | Some (inr second) =>
                match SSTSizeModel.AddCalibration m n1 (file_bytes first) n2 (file_bytes second) with
                | (false, _) => Some (inl InvalidArgument)
                | (true, m) => calibrate_loop ios n1 n2 strides m (measured ++ [first; second])
                end
            end
        end
  end.

(** The status, [out] and [samples]; [env_ok] and [dir_ok] are the outcomes of
    [NewMemEnv] and [CreateDirIfMissing]. *)
Definition CalibrateSSTSizeModel (env_ok dir_ok : bool) (ios : nat -> SampleIo) (logical_entry_bytes target_sst_bytes : Z)
    (out : SSTSizeModel.t) (samples : list Sample) : option (Status * SSTSizeModel.t * list Sample) :=
  if decide (logical_entry_bytes = 0 \/ kMaxLogicalEntryBytes < logical_entry_bytes \/ key_domain < 2 \/ target_sst_bytes = 0)
  then Some (InvalidArgument, out, samples)
  else if negb env_ok then Some (IOError, out, samples)
  else if negb dir_ok then Some (IOError, out, samples)
  else
    match calibrate_loop ios (n1_of logical_entry_bytes) (n2_of logical_entry_bytes)
            [1; stride_of logical_entry_bytes target_sst_bytes] SSTSizeModel.empty [] with
    | None => None
    | Some (inl s) => Some (s, out, samples)
    | Some (inr (m, measured)) =>
        if SSTSizeModel.Valid m then Some (OK, m, measured) else Some (Corruption, out, samples)
    end.

(** ** Sample sizes *)

Hypothesis (Hplain : Writer.keys_per_prefix_ opts = 0).
Hypothesis (Hsize : (8 <= Writer.key_size_ opts)%nat).
Hypothesis (Hdomain : 2 <= key_domain <= u64_max).

Lemma sizes_ok bytes target : 1 <= bytes <= kMaxLogicalEntryBytes -> 1 <= target <= u64_max ->
  1 <= n1_of bytes < n2_of bytes /\ n2_of bytes <= Z.min kMaxSampleEntries key_domain /\
  1 <= stride_of bytes target /\ (n2_of bytes - 1) * stride_of bytes target < key_domain.
Proof.
  intros Hb Ht. assert (2 <= n2_of bytes <= Z.min kMaxSampleEntries key_domain) as Hn2.
  { unfold n2_of, kMaxSampleEntries. lia. }
  assert (1 <= n1_of bytes < n2_of bytes) as Hn1.
  { unfold n1_of. pose proof (Z.div_le_upper_bound (n2_of bytes) 2 (n2_of bytes - 1) ltac:(lia) ltac:(lia)).
    pose proof (Z.div_le_lower_bound (n2_of bytes) 2 1 ltac:(lia) ltac:(lia)). lia. }
  unfold stride_of. set (typ := Z.max 1 (target / bytes)).
  assert (1 <= typ <= u64_max) as Htyp.
  { unfold typ. pose proof (Z.div_le_upper_bound target bytes target ltac:(lia) ltac:(nia)). unfold u64_max in *. lia. }
  rewrite !u64_small by (unfold is_u64, kMaxSampleEntries, u64_max in *; lia).
  set (den := Z.max (n2_of bytes - 1) (typ - 1)). assert (1 <= n2_of bytes - 1 <= den) as Hden by lia.
  pose proof (Z.mul_div_le (key_domain - 1) den ltac:(lia)) as Hq. pose proof (Z.div_pos (key_domain - 1) den ltac:(lia) ltac:(lia)) as Hq0.
  split_and!; try lia; [unfold kMaxSampleEntries in *; lia..|]. nia.
Qed.

(** ** Samples *)

(** The keys of a sample: the multiples of the stride, encoded. *)
Definition sample_keys (key_stride : Z) (n : nat) : list (list Z) :=
  (fun i => Registry.encode_user_key (Writer.key_size_ opts) (i * key_stride)) <$> seqZ 0 (Z.of_nat n).

Lemma sample_keys_S key_stride n : sample_keys key_stride (S n) =
  sample_keys key_stride n ++ [Registry.encode_user_key (Writer.key_size_ opts) (Z.of_nat n * key_stride)].
Proof. unfold sample_keys. rewrite Nat2Z.inj_succ, <- Z.add_1_r, seqZ_app by lia. rewrite fmap_app. cbn. by rewrite Z.add_0_l. Qed.

Definition sample_io_ok (io : SampleIo) : Prop := io_open io = true /\ (forall i, io_put io i = true) /\ io_finish io = true /\
  0 < io_file_size io <= u64_max /\ io_env_size io = Some (io_file_size io) /\ io_delete io = true.

(** The keys ascend, so every addition is accepted. *)
Lemma populate_ok io key_stride n : (forall i, io_put io i = true) -> 1 <= key_stride -> forall i w, Writer.writing w ->
  Writer.added w = sample_keys key_stride i -> Z.of_nat i + Z.of_nat n < u64_max -> (Z.of_nat i + Z.of_nat n - 1) * key_stride < key_domain ->
  exists w', populate io n (Z.of_nat i) key_stride w = Some (OK, w') /\ Writer.writing w' /\ Writer.added w' = sample_keys key_stride (i + n).
Proof.
  intros Hput Hs. induction n as [|n IH]; intros i w Hw Ha Hn Hd; cbn [populate].
  { exists w. by rewrite Nat.add_0_r. }
  assert (Z.of_nat i *% key_stride = Z.of_nat i * key_stride) as -> by (apply u64_small; unfold is_u64; nia).
  rewrite Writer.GenerateKeyFromInt_plain, Hput by done. set (key := Registry.encode_user_key _ _).
  assert (length (sample_keys key_stride i) = i) as Hlen by (unfold sample_keys; rewrite length_fmap, length_seqZ; lia).
  destruct (Writer.Put_ok w key Hw) as (w1 & -> & Hw1 & Ha1).
  - rewrite Ha, Hlen. lia.
  - intros k Hk. rewrite Ha in Hk. destruct i as [|i]; [done|]. rewrite sample_keys_S, last_snoc in Hk. injection Hk as <-. unfold key.
    rewrite Registry.encode_user_key_compare by (done || (unfold is_u64; nia)). apply Z.compare_gt_iff. nia.
  - destruct (IH (S i) w1 Hw1) as (w2 & E & Hw2 & Ha2); [by rewrite sample_keys_S, Ha1, Ha|lia|nia|].
    exists w2. rewrite Nat2Z.inj_succ, <- Z.add_1_r in E. rewrite E. split_and!; [done|done|]. by rewrite Ha2, <- Nat.add_succ_comm.
Qed.

Lemma MeasureSample_ok io n key_stride : sample_io_ok io -> 1 <= n < u64_max -> 1 <= key_stride -> (n - 1) * key_stride < key_domain ->
  MeasureSample io n key_stride = Some (inr (mkSample n key_stride (io_file_size io))).
Proof.
  intros (Ho & Hp & Hf & Hsz & He & Hdel) Hn Hs Hd. unfold MeasureSample. rewrite Ho. cbn [Writer.Open].
  destruct (populate_ok io key_stride (Z.to_nat n) Hp Hs 0 (Writer.mk true OK 0 [] [] [])) as (w & E & Hw & Ha); [by split|done|lia|nia|].
  change (Z.of_nat 0) with 0 in E. rewrite E. rewrite Nat.add_0_l in Ha. unfold Writer.Finish.
  pose proof (Writer.w_count _ Hw) as Hc. assert (length (Writer.added w) = Z.to_nat n) as Hlen.
  { rewrite Ha. unfold sample_keys. rewrite length_fmap, length_seqZ. lia. }
  rewrite (Writer.w_open _ Hw). cbn [negb]. rewrite (decide_False (P := Writer.num_entries w = 0)) by lia.
  rewrite (Writer.w_status _ Hw), bool_decide_true, Hf by done. cbn [Writer.io_status]. unfold check_sample. cbn [Writer.num_entries].
  rewrite decide_False by lia. rewrite He, (decide_False (P := io_file_size io <> _)) by lia. cbn [cleanup]. by rewrite Hdel.
Qed.

(** ** Calibration *)

(** What a calibration that succeeds has measured. *)
Definition covers (m : SSTSizeModel.t) (measured : list Sample) : Prop :=
  SSTSizeModel.wf m /\ Forall (fun s => file_bytes s <= SSTSizeModel.Estimate m (entries s) /\ is_u64 (entries s)) measured /\
  (SSTSizeModel.Valid m = true <-> measured <> []).

Lemma MeasureSample_fields io n key_stride s : MeasureSample io n key_stride = Some (inr s) ->
  s = mkSample n key_stride (io_file_size io).
Proof.
  unfold MeasureSample. destruct (Writer.Open _ _) as [[] w]; try done. destruct (populate _ _ _ _ _) as [[s' w']|]; [|done].
  destruct (cleanup _ _); try done. by intros [= <-].
Qed.

Lemma covers_step m measured n1 n2 key_stride b1 b2 m' : covers m measured -> is_u64 n1 -> is_u64 n2 -> is_u64 b1 -> is_u64 b2 ->
  SSTSizeModel.AddCalibration m n1 b1 n2 b2 = (true, m') ->
  covers m' (measured ++ [mkSample n1 key_stride b1; mkSample n2 key_stride b2]).
Proof.
  intros (Hwf & Hall & Hv) H1 H2 H3 H4 Hadd.
  destruct (SSTSizeModel.AddCalibration_covers m n1 b1 n2 b2 m' Hwf H1 H3 H2 H4 Hadd) as (Hwf' & Hv' & C1 & C2 & Hmono).
  split_and!; [done| |].
  - apply Forall_app. split; [|apply Forall_cons; split; [done|]; apply Forall_cons; split; [done|constructor]]. eapply Forall_impl; [exact Hall|]. intros s [Hs Hu]. split; [|done].
    etrans; [exact Hs|]. by apply Hmono.
  - rewrite Hv'. split; [|done]. intros _. by destruct measured.
Qed.

Lemma calibrate_loop_covers ios n1 n2 strides : (forall i, is_u64 (io_file_size (ios i))) -> is_u64 n1 -> is_u64 n2 ->
  forall m measured m' measured', covers m measured ->
  calibrate_loop ios n1 n2 strides m measured = Some (inr (m', measured')) -> covers m' measured'.
Proof.
  intros Hu H1 H2. induction strides as [|k strides IH]; intros m measured m' measured' Hc; cbn [calibrate_loop].
  { by intros [= <- <-]. }
  destruct (decide _); [by apply IH|]. destruct (MeasureSample _ n1 k) as [[s|s1]|] eqn:E1; [done| |done].
  destruct (MeasureSample _ n2 k) as [[s|s2]|] eqn:E2; [done| |done]. apply MeasureSample_fields in E1 as ->, E2 as ->. cbn [file_bytes].
  destruct (SSTSizeModel.AddCalibration _ _ _ _ _) as [[] m1] eqn:Ea; [|done]. apply IH. by eapply covers_step.
Qed.

(** Without key prefixes nothing is undefined. *)
Lemma populate_total io key_stride n : forall i w, is_Some (populate io n i key_stride w).
Proof.
  induction n as [|n IH]; intros i w; cbn [populate]; [done|]. rewrite Writer.GenerateKeyFromInt_plain by done.
  by destruct (Writer.Put _ _ _) as [[] w'].
Qed.

Lemma MeasureSample_total io n key_stride : is_Some (MeasureSample io n key_stride).
Proof.
  unfold MeasureSample. destruct (Writer.Open _ _) as [[] w]; try done.
  destruct (populate_total io key_stride (Z.to_nat n) 0 w) as [[s w'] ->]. done.
Qed.

Lemma calibrate_loop_total ios n1 n2 strides : forall m measured, is_Some (calibrate_loop ios n1 n2 strides m measured).
Proof.
  induction strides as [|k strides IH]; intros m measured; cbn [calibrate_loop]; [done|]. destruct (decide _); [apply IH|].
  destruct (MeasureSample_total (ios (length measured)) n1 k) as [[s|s1] ->]; [done|].
  destruct (MeasureSample_total (ios (length measured + 1)%nat) n2 k) as [[s|s2] ->]; [done|].
  destruct (SSTSizeModel.AddCalibration _ _ _ _ _) as [[] m1]; [apply IH|done].
Qed.

Lemma MeasureSample_error io n key_stride : MeasureSample io n key_stride <> Some (inl OK).
Proof.
  unfold MeasureSample. destruct (Writer.Open _ _) as [[] w]; try done. destruct (populate _ _ _ _ _) as [[s w']|]; [|done].
  by destruct (cleanup _ _).
Qed.

Lemma calibrate_loop_error ios n1 n2 strides : forall m measured, calibrate_loop ios n1 n2 strides m measured <> Some (inl OK).
Proof.
  induction strides as [|k strides IH]; intros m measured; cbn [calibrate_loop]; [done|]. destruct (decide _); [apply IH|].
  destruct (MeasureSample (ios (length measured)) n1 k) as [[s|s1]|] eqn:E1; [intros [= ->]; by apply MeasureSample_error in E1| |done].
  destruct (MeasureSample (ios (length measured + 1)%nat) n2 k) as [[s|s2]|] eqn:E2; [intros [= ->]; by apply MeasureSample_error in E2| |done].
  destruct (SSTSizeModel.AddCalibration _ _ _ _ _) as [[] m1]; [apply IH|done].
Qed.

(** With answers as an environment in order gives them, larger tables for more entries. *)
Definition answers (ios : nat -> SampleIo) : Prop := (forall i, sample_io_ok (ios i)) /\
  io_file_size (ios 0%nat) < io_file_size (ios 1%nat) /\ io_file_size (ios 2%nat) < io_file_size (ios 3%nat).

Definition plan_of (n1 n2 key_stride : Z) : list (Z * Z) :=
  [(n1, 1); (n2, 1)] ++ (if decide (key_stride = 1) then [] else [(n1, key_stride); (n2, key_stride)]).

Lemma calibrate_loop_ok ios n1 n2 key_stride : answers ios -> 1 <= n1 < n2 -> n2 < u64_max -> 1 <= key_stride ->
  (n2 - 1) * key_stride < key_domain -> n2 <= key_domain ->
  exists m measured, calibrate_loop ios n1 n2 [1; key_stride] SSTSizeModel.empty [] = Some (inr (m, measured)) /\
    (fun s => (entries s, stride s)) <$> measured = plan_of n1 n2 key_stride.
Proof.
  intros (Hio & H01 & H23) Hn Hn2 Hs Hd Hdom. cbn [calibrate_loop length].
  assert (forall m a b i j, a < b -> i = a -> j = b -> SSTSizeModel.AddCalibration m n1 i n2 j = (true, (SSTSizeModel.AddCalibration m n1 i n2 j).2)) as Hadd.
  { intros m a b i j Hab -> ->. unfold SSTSizeModel.AddCalibration. rewrite bool_decide_false by lia. done. }
  rewrite decide_False by (intros [? _]; done). rewrite !MeasureSample_ok by (done || lia). cbn [file_bytes].
  rewrite (Hadd _ _ _ _ _ H01 eq_refl eq_refl). cbn [app length]. unfold plan_of. destruct (decide (key_stride = 1)) as [->|Hne].
  - rewrite decide_True by done. by eexists _, _.
  - rewrite decide_False by (intros [_ ?]; done). rewrite !MeasureSample_ok by (done || lia || nia). cbn [file_bytes].
    rewrite (Hadd _ _ _ _ _ H23 eq_refl eq_refl). cbn [app]. by eexists _, _.
Qed.

Lemma plan_in_domain n1 n2 key_stride (measured : list Sample) : 1 <= n1 < n2 -> n2 <= key_domain -> 1 <= key_stride ->
  (n2 - 1) * key_stride < key_domain -> (fun s => (entries s, stride s)) <$> measured = plan_of n1 n2 key_stride ->
  Forall (fun s => forall i, 0 <= i < entries s -> i * stride s < key_domain) measured.
Proof.
  intros Hn Hd Hs Hp Hm. apply Forall_forall. intros x Hx i Hi.
  assert ((entries x, stride x) ∈ plan_of n1 n2 key_stride) as Hin by (rewrite <- Hm; apply list_elem_of_fmap; by exists x).
  unfold plan_of in Hin. assert (stride x <= key_stride /\ 1 <= stride x /\ entries x <= n2) as (H1 & H2 & H3).
  { destruct (decide (key_stride = 1)); cbn in Hin; rewrite !elem_of_cons, elem_of_nil in Hin; intuition (simplify_eq; lia). }
  nia.
Qed.

(** The calibration always returns.  On any error the model and the samples of
    the caller are left alone; on success the model is well formed and valid and no
    measured table is larger than its estimate.  With sizes that grow with the number
    of entries it does succeed: both sample sizes are measured with dense keys and, if
    the domain has room, with spread ones, and every key stays inside the domain, so
    that none of the products wraps and the writer takes all of them. *)
Theorem calibration_sound env_ok dir_ok ios bytes target out samples (Hbytes : is_u64 bytes) (Htarget : is_u64 target)
    (Hu : forall i, is_u64 (io_file_size (ios i))) :
  exists s m measured, CalibrateSSTSizeModel env_ok dir_ok ios bytes target out samples = Some (s, m, measured) /\
    (s <> OK -> m = out /\ measured = samples) /\
    (s = OK -> covers m measured /\ SSTSizeModel.Valid m = true) /\
    (env_ok = true -> dir_ok = true -> 1 <= bytes <= kMaxLogicalEntryBytes -> 1 <= target -> answers ios ->
     s = OK /\ (fun s => (entries s, stride s)) <$> measured = plan_of (n1_of bytes) (n2_of bytes) (stride_of bytes target) /\
     Forall (fun s => forall i, 0 <= i < entries s -> i * stride s < key_domain) measured).
Proof.
  unfold is_u64 in Hbytes, Htarget. unfold CalibrateSSTSizeModel. destruct (decide _) as [Hbad|Hgood].
  { eexists _, _, _. split; [done|]. split_and!; try done. intros _ _ ? ? _. lia. }
  destruct env_ok; cbn [negb]; [|by eexists _, _, _]. destruct dir_ok; cbn [negb]; [|by eexists _, _, _].
  destruct (sizes_ok bytes target ltac:(lia) ltac:(lia)) as (Hn & Hn2 & Hs & Hd). unfold kMaxSampleEntries in Hn2.
  assert (is_u64 (n1_of bytes) /\ is_u64 (n2_of bytes)) as [U1 U2] by (unfold is_u64, u64_max; lia).
  pose proof (calibrate_loop_total ios (n1_of bytes) (n2_of bytes) [1; stride_of bytes target] SSTSizeModel.empty []) as [o E].
  assert (covers SSTSizeModel.empty []) as H0 by (split; [constructor|split; [constructor|done]]).
  rewrite E. destruct o as [s|[m measured]].
  - assert (s <> OK) as Hs0 by (intros ->; by eapply calibrate_loop_error). eexists _, _, _. split; [done|]. split_and!; try done.
    intros _ _ _ _ Hans. destruct (calibrate_loop_ok ios (n1_of bytes) (n2_of bytes) (stride_of bytes target) Hans) as (m & measured & E' & _);
      [lia|unfold u64_max; lia|lia|lia|lia|]. congruence.
  - pose proof (calibrate_loop_covers ios _ _ _ Hu U1 U2 _ _ _ _ H0 E) as Hc.
    destruct (SSTSizeModel.Valid m) eqn:Hv.
    + eexists _, _, _. split; [done|]. split_and!; try done. intros _ _ _ _ Hans. split; [done|].
      destruct (calibrate_loop_ok ios (n1_of bytes) (n2_of bytes) (stride_of bytes target) Hans) as (m' & measured' & E' & Hp);
        [lia|unfold u64_max; lia|lia|lia|lia|]. rewrite E in E'. injection E' as <- <-. split; [done|]. eapply plan_in_domain; [| | | |exact Hp]; lia.
    + eexists _, _, _. split; [done|]. split_and!; try done. intros _ _ _ _ Hans. exfalso.
      destruct (calibrate_loop_ok ios (n1_of bytes) (n2_of bytes) (stride_of bytes target) Hans) as (m' & measured' & E' & Hp);
        [lia|unfold u64_max; lia|lia|lia|lia|]. rewrite E in E'. injection E' as <- <-. destruct Hc as (_ & _ & Hiff).
      rewrite (proj2 Hiff) in Hv; [done|]. by intros ->.
Qed.

End calibrate.

(** ** Instances *)

Definition small_opts : Writer.KeyOptions := Writer.mkKeyOptions 16 0 0.
Definition small_ios (i : nat) : SampleIo :=
  let size := 1000 + 500 * (Z.of_nat i mod 4) in mkSampleIo true (fun _ => true) true size (Some size) true.

Lemma small_answers : answers small_ios.
Proof.
  split; [|by vm_compute]. intros i. unfold sample_io_ok, small_ios. cbn.
  pose proof (Z.mod_pos_bound (Z.of_nat i) 4 ltac:(lia)). split_and!; try done; unfold u64_max; lia.
Qed.

Lemma calibration_sound_witness :
  CalibrateSSTSizeModel small_opts 100 true true small_ios (4 * kMiB) (64 * kMiB) SSTSizeModel.empty [] =
    Some (OK, SSTSizeModel.mkModel [SSTSizeModel.mkLine 500 1 500; SSTSizeModel.mkLine 500 1 1500],
      [mkSample 1 1 1000; mkSample 2 1 1500; mkSample 1 6 2000; mkSample 2 6 2500]) /\
  exists s m measured, CalibrateSSTSizeModel small_opts 100 true true small_ios (4 * kMiB) (64 * kMiB) SSTSizeModel.empty [] = Some (s, m, measured) /\
    s = OK /\ covers m measured.
Proof.
  split; [by vm_compute|].
  destruct (calibration_sound small_opts 100 eq_refl ltac:(cbn; lia) ltac:(by vm_compute) true true small_ios (4 * kMiB) (64 * kMiB)
    SSTSizeModel.empty [] ltac:(by vm_compute) ltac:(by vm_compute)) as (s & m & measured & E & _ & Hok & Hgood).
  - intros i. pose proof (proj1 small_answers i) as (_ & _ & _ & Hsz & _). unfold is_u64. lia.
  - destruct (Hgood eq_refl eq_refl ltac:(by vm_compute) ltac:(by vm_compute) small_answers) as [Hs _].
    exists s, m, measured. exact (conj E (conj Hs (proj1 (Hok Hs)))).
Defined.

End Calibrate.
