(* ===== verification/Tasks.v ===== *)
(** * The materialization tasks

    The first part of Phase 2 of [FillVirtual] in [tools/db_bench_tool.cc]: one task
    per virtual file with a fresh file number and the file's level in the current
    version, the order in which the tasks are visited, the pass that makes the key
    ranges of a level disjoint, and the groups of tasks that run between barriers. *)

From Stdlib Require Import ZArith Lia Sorted.
From stdpp Require Import base numbers list gmap.
From S2P Require Import Prelude Plr Kmv Version.

Local Open Scope Z_scope.

Module Tasks.

(** ** Data *)

(** struct [SSTTask]. *)
Record SSTTask := mkTask {
  virtual_fnum : Z;
  real_fnum : Z;
  level : Z;
  materialize_key_min : Z;
  materialize_key_max : Z;
  vsst : VirtualSST;
}.

(** [file_level_map], from the metadata of the current version. *)
Definition file_level_map (v : Version.t) : gmap Z Z := fst <$> v.

(** The tasks of a snapshot of the registry; a file that is not in the version gets
    level 0.  The file numbers are those [NewFileNumber] returns. *)
Fixpoint build_tasks (levels : gmap Z Z) (all_vssts : list (Z * VirtualSST)) (next_file : Z) : list SSTTask :=
  match all_vssts with
  | [] => []
  | (n, v) :: all =>
      mkTask n next_file (default 0 (levels !! n)) (key_min v) (key_max v) v
        :: build_tasks levels all (next_file +% 1)
  end.

(** ** The order *)

(** The comparison of the sort of [task_order]. *)
Definition task_less (a b : SSTTask) : bool :=
  if decide (level a <> level b) then bool_decide (level a < level b)
  else if decide (key_min (vsst a) <> key_min (vsst b)) then bool_decide (key_min (vsst a) < key_min (vsst b))
  else if decide (key_max (vsst a) <> key_max (vsst b)) then bool_decide (key_max (vsst a) < key_max (vsst b))
  else bool_decide (real_fnum a < real_fnum b).

(** A permutation of the indices in which no task precedes an earlier one. *)
Definition is_task_order (tasks : list SSTTask) (order : list nat) : Prop :=
  order ≡ₚ seq 0 (length tasks) /\
  StronglySorted (fun i j => forall a b, tasks !! i = Some a -> tasks !! j = Some b -> task_less b a = false) order.

(** ** Disjoint ranges *)

Record Walk := mkWalk { current_level : Z; has_prev_range : bool; prev_key_max : Z }.

Definition start_walk : Walk := mkWalk (-1) false 0.

Definition set_min (k : Z) (t : SSTTask) : SSTTask :=
  mkTask (virtual_fnum t) (real_fnum t) (level t) k (materialize_key_max t) (vsst t).

(** One turn of the loop over [task_order]. *)
Definition walk_task (w : Walk) (t : SSTTask) : Walk * SSTTask :=
  if decide (level t = 0 \/ level t <> current_level w)
  then (mkWalk (level t) (bool_decide (level t <> 0)) (materialize_key_max t), t)
  else
    let t := if has_prev_range w && bool_decide (materialize_key_min t <= prev_key_max w)
             then set_min (if decide (prev_key_max w = u64_max) then u64_max else prev_key_max w + 1) t
             else t in
    (mkWalk (current_level w) (has_prev_range w)
       (if decide (prev_key_max w < materialize_key_max t) then materialize_key_max t else prev_key_max w), t).

Fixpoint disjoint_ranges (order : list nat) (w : Walk) (tasks : list SSTTask) : list SSTTask :=
  match order with
  | [] => tasks
  | idx :: order =>
      match tasks !! idx with
      | None => tasks
      | Some t => let '(w, t) := walk_task w t in disjoint_ranges order w (<[idx := t]> tasks)
      end
  end.

(** ** Groups *)

(** [unique_reservation != nullptr || membership != nullptr]: one group per level;
    otherwise one group of all the tasks. *)
Fixpoint group_by_level (tasks : list SSTTask) (order : list nat) (groups : list (list nat)) : list (list nat) :=
  match order with
  | [] => groups
  | idx :: order =>
      let same :=
        match last groups with
        | None => false
        | Some g =>
            match last g with
            | None => false
            | Some j => bool_decide (level <$> tasks !! j = level <$> tasks !! idx)
            end
        end in
      group_by_level tasks order
        (if same then take (length groups - 1) groups ++ [default [] (last groups) ++ [idx]]
         else groups ++ [[idx]])
  end.

Definition task_groups (exact membership deep_first : bool) (tasks : list SSTTask) (order : list nat) : list (list nat) :=
  if exact || membership then
    let groups := group_by_level tasks order [] in
    if deep_first && negb membership then reverse groups else groups
  else [seq 0 (length tasks)].

(** Grouping keeps the order. *)
Lemma group_by_level_concat tasks order : forall groups, mjoin (group_by_level tasks order groups) = mjoin groups ++ order.
Proof.
  induction order as [|idx order IH]; intros groups; cbn [group_by_level]; [by rewrite app_nil_r|].
  set (same := match last groups with None => false | Some _ => _ end). rewrite IH.
  rewrite (app_assoc _ [idx] order : mjoin groups ++ idx :: order = (mjoin groups ++ [idx]) ++ order). f_equal.
  destruct same eqn:Hs; [|by rewrite join_app].
  destruct (last groups) as [g|] eqn:Eg; [|done]. apply last_Some in Eg as [gs ->].
  rewrite length_app. cbn [length default]. rewrite Nat.add_sub, take_app_length, !join_app. cbn. by rewrite !app_nil_r, app_assoc.
Qed.

Lemma reverse_concat {A} (ls : list (list A)) : mjoin (reverse ls) ≡ₚ mjoin ls.
Proof.
  induction ls as [|l ls IH]; [done|]. rewrite reverse_cons, join_app, IH. cbn. rewrite app_nil_r. apply Permutation_app_comm.
Qed.

(** Every task is in one group. *)
Lemma task_groups_perm exact membership deep_first tasks order : order ≡ₚ seq 0 (length tasks) ->
  mjoin (task_groups exact membership deep_first tasks order) ≡ₚ seq 0 (length tasks).
Proof.
  intros Hp. unfold task_groups. destruct (exact || membership); [|cbn; by rewrite app_nil_r].
  destruct (deep_first && negb membership); rewrite ?reverse_concat, group_by_level_concat; done.
Qed.

(** ** The walk over the ordered tasks *)

Fixpoint walk_list (w : Walk) (ts : list SSTTask) : list SSTTask :=
  match ts with
  | [] => []
  | t :: ts => let '(w, t) := walk_task w t in t :: walk_list w ts
  end.

Lemma walk_list_length ts : forall w, length (walk_list w ts) = length ts.
Proof. induction ts as [|t ts IH]; intros w; cbn; [done|]. destruct (walk_task w t). cbn. by rewrite IH. Qed.

(** The pass over the indices is the walk over the tasks they name. *)
Lemma disjoint_ranges_walk order : forall w tasks ts, NoDup order ->
  Forall2 (fun i t => tasks !! i = Some t) order ts ->
  length (disjoint_ranges order w tasks) = length tasks /\
  Forall2 (fun i t => disjoint_ranges order w tasks !! i = Some t) order (walk_list w ts) /\
  (forall i, i ∉ order -> disjoint_ranges order w tasks !! i = tasks !! i).
Proof.
  induction order as [|idx order IH]; intros w tasks ts Hnd Hts; cbn [disjoint_ranges].
  { apply Forall2_nil_inv_l in Hts as ->. split_and!; [done|constructor|done]. }
  apply NoDup_cons in Hnd as [Hni Hnd]. apply Forall2_cons_inv_l in Hts as (t & ts' & Ht & Hts & ->).
  rewrite Ht. cbn [walk_list]. destruct (walk_task w t) as [w' t'].
  destruct (IH w' (<[idx := t']> tasks) ts' Hnd) as (L & F & O).
  { clear -Hni Hts. induction Hts as [|i x order ts Hx _ IH]; constructor.
    - rewrite list_lookup_insert_ne; [done|]. set_solver.
    - apply IH. set_solver. }
  rewrite length_insert in L. split_and!; [done| |].
  - constructor; [|done]. rewrite O by done. apply list_lookup_insert_eq. by eapply lookup_lt_Some.
  - intros i Hi. rewrite O by set_solver. apply list_lookup_insert_ne. set_solver.
Qed.

(** [b] comes after [a] in the order. *)
Definition ordered (a b : SSTTask) : Prop :=
  level a < level b \/ level a = level b /\ materialize_key_min a <= materialize_key_min b.

Definition in_range (k : Z) (t : SSTTask) : Prop := materialize_key_min t <= k <= materialize_key_max t.

(** The tasks the walk still has to visit, from the state it has reached. *)
Record walk_ok (w : Walk) (ts : list SSTTask) : Prop := {
  k_sorted : StronglySorted ordered ts;
  k_level : Forall (fun t => current_level w <= level t /\ 0 <= level t) ts;
  k_max : Forall (fun t => materialize_key_max t < u64_max) ts;
  k_prev : prev_key_max w < u64_max;
  k_has : has_prev_range w = bool_decide (0 < current_level w);
}.

Lemma walk_ok_next w t ts : walk_ok w (t :: ts) -> walk_ok (walk_task w t).1 ts.
Proof.
  intros [H1 H2 H3 H4 H5]. apply StronglySorted_inv in H1 as [H1 H1']. apply Forall_cons in H2 as [[H2 H2'] H2s].
  apply Forall_cons in H3 as [H3 H3s]. unfold walk_task. destruct (decide _) as [Hd|Hd]; cbn [fst].
  - split; cbn; try done.
    + eapply Forall_impl; [apply Forall_and; split; [exact H1'|exact H2s]|]. unfold ordered. cbn. lia.
    + apply bool_decide_ext. lia.
  - split; cbn; try done. destruct (_ && _); cbn; by destruct (decide (prev_key_max w < materialize_key_max t)).
Qed.

(** The walk's tasks: the same but for the lower end, and above what was passed. *)
Lemma walk_task_spec w t ts : walk_ok w (t :: ts) ->
  let t' := (walk_task w t).2 in
  let w' := (walk_task w t).1 in
  t' = set_min (materialize_key_min t') t /\ materialize_key_min t <= materialize_key_min t' /\
  current_level w' = level t /\ materialize_key_max t <= prev_key_max w' /\
  (0 < level t -> level t = current_level w ->
     prev_key_max w < materialize_key_min t' /\ prev_key_max w' = Z.max (prev_key_max w) (materialize_key_max t) /\
     (materialize_key_min t' = materialize_key_min t \/ materialize_key_min t' = prev_key_max w + 1)) /\
  (level t = 0 \/ level t <> current_level w -> t' = t /\ prev_key_max w' = materialize_key_max t).
Proof.
  intros [_ H2 _ H4 H5]. apply Forall_cons in H2 as [[H2 H2'] _]. unfold walk_task. destruct (decide _) as [Hd|Hd]; cbn [fst snd].
  - destruct t. cbn in *. split_and!; try done; lia.
  - rewrite H5, bool_decide_true by lia. clear H5. cbn [andb]. rewrite (decide_False (P := prev_key_max w = u64_max)) by lia.
    destruct t as [a b c d e f]. cbn in *. case_bool_decide; cbn; split_and!; try done; try lia; case_decide; lia.
Qed.

Lemma walk_ordered ts : forall w, walk_ok w ts ->
  Forall (fun t => current_level w <= level t /\
            (level t = current_level w -> 0 < level t -> prev_key_max w < materialize_key_min t)) (walk_list w ts) /\
  StronglySorted (fun a b => level a = level b -> 0 < level a -> materialize_key_max a < materialize_key_min b) (walk_list w ts) /\
  Forall2 (fun t t' => t' = set_min (materialize_key_min t') t /\ materialize_key_min t <= materialize_key_min t') ts (walk_list w ts).
Proof.
  induction ts as [|t ts IH]; intros w Hw; cbn [walk_list]; [split_and!; constructor|].
  pose proof (walk_task_spec w t ts Hw) as (E & Hge & Hlev & Hmax & Habove & _). destruct (IH _ (walk_ok_next _ _ _ Hw)) as (I1 & I2 & I3).
  pose proof (k_level _ _ Hw) as [[Hcur _] _]%Forall_cons.
  destruct (walk_task w t) as [w' t']. cbn [fst snd] in *.
  assert (level t' = level t /\ materialize_key_max t' = materialize_key_max t) as [El Em] by (by rewrite E).
  split_and!; [constructor|constructor; [done|]|by constructor].
  - rewrite El. split; [done|]. intros Hl Hp. by apply Habove.
  - eapply Forall_impl; [exact I1|]. cbn. intros x [Hx1 Hx2]. split; [lia|]. intros Hxl Hxp.
    destruct (Habove ltac:(lia) ltac:(lia)) as (_ & Hle & _). specialize (Hx2 ltac:(lia) Hxp). lia.
  - eapply Forall_impl; [exact I1|]. cbn. intros x [_ Hx] Hxl Hxp. specialize (Hx ltac:(lia) ltac:(lia)). lia.
Qed.

(** No key of a range is lost: it stays with the first task of its level that
    has it. *)
Lemma walk_covers k l ts : forall w, walk_ok w ts ->
  (0 < l -> current_level w = l -> prev_key_max w < k) -> Exists (fun t => level t = l /\ in_range k t) ts ->
  Exists (fun t => level t = l /\ in_range k t) (walk_list w ts).
Proof.
  induction ts as [|t ts IH]; intros w Hw Hprev Hex; [by apply Exists_nil in Hex|]. cbn [walk_list].
  pose proof (walk_task_spec w t ts Hw) as (E & Hge & Hlev & Hmax & Habove & Hsame).
  pose proof (IH _ (walk_ok_next _ _ _ Hw)) as IH'. clear IH.
  pose proof (k_sorted _ _ Hw) as [_ Hord]%StronglySorted_inv.
  destruct (walk_task w t) as [w' t'] eqn:Ew. cbn [fst snd] in *.
  assert (level t' = level t /\ materialize_key_max t' = materialize_key_max t) as [El Em] by (by rewrite E).
  destruct (decide (level t = l /\ in_range k t)) as [[Hl Hk]|Hn].
  - left. split; [by rewrite El|]. unfold in_range in *. rewrite Em. split; [|lia].
    destruct (decide (0 < l /\ current_level w = l)) as [[Hp Hc]|Hc].
    + specialize (Hprev Hp Hc). destruct (Habove ltac:(lia) ltac:(lia)) as (_ & _ & [->| ->]); lia.
    + destruct Hsame as [-> _]; [|lia]. pose proof (k_level _ _ Hw) as [[_ H0] _]%Forall_cons. lia.
  - right. apply Exists_cons in Hex as [Hx|Hex]; [done|]. apply IH'; [|done]. intros Hp Hc.
    assert (level t = l) as Hl by lia. rewrite Exists_exists in Hex. destruct Hex as (x & Hx & Hxl & Hxk).
    rewrite Forall_forall in Hord. specialize (Hord x Hx). unfold ordered, in_range in *.
    destruct (decide (current_level w = l)) as [Hcw|Hcw].
    + specialize (Hprev Hp Hcw). destruct (Habove ltac:(lia) ltac:(lia)) as (_ & -> & _). lia.
    + destruct Hsame as [_ ->]; lia.
Qed.

(** ** Properties *)

(** The tasks in the order of their indices. *)
Lemma ordered_tasks tasks order : is_task_order tasks order ->
  exists ts, Forall2 (fun i t => tasks !! i = Some t) order ts /\ ts ≡ₚ tasks /\
    StronglySorted (fun a b => task_less b a = false) ts.
Proof.
  intros [Hp Hs]. assert (Forall (fun i => (i < length tasks)%nat) order) as Hlt.
  { apply Forall_forall. intros i Hi. rewrite Hp in Hi. apply elem_of_seq in Hi. lia. }
  exists (omap (fun i => tasks !! i) order). split_and!.
  - clear Hp Hs. induction Hlt as [|i order Hi _ IH]; [constructor|]. destruct (lookup_lt_is_Some_2 _ _ Hi) as [t Ht].
    cbn. rewrite Ht. by constructor.
  - rewrite Hp. clear. induction tasks as [|t tasks IH] using rev_ind; [done|].
    rewrite length_app, Nat.add_1_r, seq_S, omap_app. cbn. rewrite lookup_app_r, Nat.sub_diag by lia. cbn.
    f_equiv. rewrite <- IH at 2. apply reflexive_eq, list_omap_ext. apply Forall2_same_length_lookup_2; [done|].
    intros i x y Hx Hy. rewrite Hx in Hy. injection Hy as <-. apply lookup_seq in Hx as [-> Hx]. by rewrite lookup_app_l.
  - clear Hp Hlt. induction Hs as [|i order Hs IH Hall]; [constructor|]. cbn. destruct (tasks !! i) as [t|] eqn:Et; [|done].
    constructor; [done|]. apply Forall_forall. intros x Hx. apply list_elem_of_omap in Hx as (j & Hj & Hxj).
    rewrite Forall_forall in Hall. by eapply Hall.
Qed.

(** What the tasks look like before the pass: the ranges are those of the files. *)
Definition fresh_task (t : SSTTask) : Prop :=
  0 <= level t /\ materialize_key_min t = key_min (vsst t) /\ materialize_key_max t = key_max (vsst t) /\
  materialize_key_max t < u64_max.

Lemma task_less_ordered ts : Forall fresh_task ts -> StronglySorted (fun a b => task_less b a = false) ts ->
  StronglySorted ordered ts.
Proof.
  intros Hf Hs. induction Hs as [|t ts Hs IH Hall]; [constructor|]. apply Forall_cons in Hf as [(_ & Hm & _) Hf].
  constructor; [by apply IH|]. rewrite Forall_forall in *. intros x Hx. destruct (Hf x Hx) as (_ & Hmx & _).
  specialize (Hall x Hx). unfold task_less in Hall. unfold ordered. rewrite Hm, Hmx.
  destruct (decide (level x <> level t)); [apply bool_decide_eq_false in Hall; lia|].
  destruct (decide (key_min (vsst x) <> key_min (vsst t))); [apply bool_decide_eq_false in Hall; lia|]. lia.
Qed.

Lemma start_walk_ok ts : Forall fresh_task ts -> StronglySorted ordered ts -> walk_ok start_walk ts.
Proof.
  intros Hf Hs. split; cbn; try done; (eapply Forall_impl; [exact Hf|]; intros t (? & ? & ? & ?); lia).
Qed.

Lemma in_order (tasks : list SSTTask) order i t : order ≡ₚ seq 0 (length tasks) -> tasks !! i = Some t ->
  exists p, order !! p = Some i.
Proof.
  intros Hp Ht. apply list_elem_of_lookup. rewrite Hp. apply elem_of_seq. apply lookup_lt_Some in Ht. lia.
Qed.

(** C36: The pass over the tasks leaves every file as it is but for the lower end of
    its range, which it only raises; afterwards no two files of a level below 0
    share a key, and every key of a file's range still belongs to a file of the
    same level. *)
Theorem ranges_disjoint tasks order (Hord : is_task_order tasks order) (Hf : Forall fresh_task tasks) :
  let tasks' := disjoint_ranges order start_walk tasks in
  Forall2 (fun t t' => t' = set_min (materialize_key_min t') t /\ materialize_key_min t <= materialize_key_min t') tasks tasks' /\
  (forall i j a b k, i <> j -> tasks' !! i = Some a -> tasks' !! j = Some b ->
     level a = level b -> 0 < level a -> ~ (in_range k a /\ in_range k b)) /\
  (forall t k, t ∈ tasks -> in_range k t -> exists t', t' ∈ tasks' /\ level t' = level t /\ in_range k t').
Proof.
  cbv zeta. destruct (ordered_tasks tasks order Hord) as (ts & Hts & Hperm & Hsort). destruct Hord as [Hp _].
  assert (Forall fresh_task ts) as Hf' by (by rewrite Hperm).
  pose proof (start_walk_ok ts Hf' (task_less_ordered ts Hf' Hsort)) as Hw.
  assert (NoDup order) as Hnd by (rewrite Hp; apply NoDup_seq).
  destruct (disjoint_ranges_walk order start_walk tasks ts Hnd Hts) as (L & F & _).
  destruct (walk_ordered ts start_walk Hw) as (_ & W2 & W3). set (tasks' := disjoint_ranges _ _ _) in *.
  assert (forall i t', tasks' !! i = Some t' -> exists p, order !! p = Some i /\ walk_list start_walk ts !! p = Some t') as Hpos.
  { intros i t' Ht'. destruct (in_order tasks' order i t') as [p Hop]; [by rewrite L|done|]. exists p. split; [done|].
    destruct (Forall2_lookup_l _ _ _ _ _ F Hop) as (x & Hx & Hx'). congruence. }
  split_and!.
  - apply Forall2_same_length_lookup_2; [by rewrite L|]. intros i t t' Ht Ht'. destruct (Hpos i t' Ht') as (p & Hop & Hwp).
    destruct (Forall2_lookup_l _ _ _ _ _ Hts Hop) as (x & Hx & Hxt). assert (x = t) as -> by congruence.
    destruct (Forall2_lookup_lr _ _ _ _ _ _ W3 Hx Hwp) as [E1 E2]. done.
  - intros i j a b k Hij Ha Hb Hl H0 [Hka Hkb]. destruct (Hpos i a Ha) as (p & Hop & Hwp). destruct (Hpos j b Hb) as (q & Hoq & Hwq).
    unfold in_range in *. destruct (decide (p < q)%nat) as [Hlt|Hge].
    + pose proof (StronglySorted_lookup _ _ p q a b W2 Hlt Hwp Hwq Hl H0). lia.
    + assert (q < p)%nat as Hlt by (destruct (decide (p = q)); [congruence|lia]).
      pose proof (StronglySorted_lookup _ _ q p b a W2 Hlt Hwq Hwp (eq_sym Hl) ltac:(lia)). lia.
  - intros t k Ht Hk. destruct (proj1 (Exists_exists _ _) (walk_covers k (level t) ts start_walk Hw ltac:(cbn; lia)
      (proj2 (Exists_exists _ _) (ex_intro _ t (conj (proj2 (elem_of_Permutation_proper t _ _ Hperm) Ht) (conj eq_refl Hk)))))) as (t' & Ht' & Hl & Hk').
    exists t'. split; [|done]. apply list_elem_of_lookup in Ht' as (p & Hwp).
    destruct (Forall2_lookup_r _ _ _ _ _ F Hwp) as (i & Hop & Hi). by eapply list_elem_of_lookup_2.
Qed.

(** Two files of level 1 that share the boundary key 20, and one of level 0. *)
Definition sample_vsst (lo hi : Z) : VirtualSST := mkVSST (mkPLR []) [] lo hi 3 300.
Definition sample_tasks : list SSTTask :=
  build_tasks {[7 := 1; 8 := 1]} [(7, sample_vsst 20 40); (9, sample_vsst 0 50); (8, sample_vsst 5 20)] 100.

Lemma sample_task_order : is_task_order sample_tasks [1; 2; 0]%nat.
Proof.
  split; [apply (bool_decide_unpack _); by vm_compute|].
  repeat (constructor; [|repeat constructor; intros a b [= <-] [= <-]; by vm_compute]). constructor.
Qed.

Lemma ranges_disjoint_witness :
  (fun t => (level t, materialize_key_min t, materialize_key_max t)) <$> disjoint_ranges [1; 2; 0]%nat start_walk sample_tasks =
    [(1, 21, 40); (0, 0, 50); (1, 5, 20)] /\
  forall i j a b k, i <> j -> disjoint_ranges [1; 2; 0]%nat start_walk sample_tasks !! i = Some a ->
    disjoint_ranges [1; 2; 0]%nat start_walk sample_tasks !! j = Some b ->
    level a = level b -> 0 < level a -> ~ (in_range k a /\ in_range k b).
Proof.
  split; [by vm_compute|]. apply (ranges_disjoint sample_tasks [1; 2; 0]%nat sample_task_order).
  repeat constructor; by vm_compute.
Defined.

End Tasks.
