(* ===== verification/Worker.v ===== *)
(** * Materializing one file

    The body of the worker loop of Phase 2 of [FillVirtual] in
    [tools/db_bench_tool.cc]: the keys of a virtual file are chosen and written to a
    table file.  A key comes from the file's model, from the model and the
    reservation of globally unique keys, or from the membership bitmaps.  The
    reservation and the bitmaps are shared by the files; I/O is an input of each
    file.  Beside the fields of [SSTResult] the list of the key ids written is
    kept.  [None] is undefined behaviour: a conversion of a value outside
    [uint64_t], a word past the end of a bitmap, a remainder by zero. *)

From Stdlib Require Import ZArith Lia Sorted SpecFloat.
From stdpp Require Import base numbers list option sorting gmap.
From S2P Require Import Prelude FloatModel SizeModel Plr Kmv Materialize Registry Bitmap Reservation Membership Tasks Writer.

Local Open Scope Z_scope.

Module Worker.
Import Tasks.

(** ** Results *)

(** [report_status] and [stop_reason]. *)
Inductive Report :=
| not_started | skipped | invalid_model | open_failed | unique_count_mismatch | finish_failed
| written | written_unique_shortfall.

Inductive Reason :=
| none | zero_planned_entries | empty_plr | empty_materialize_range | unique_capacity_exhausted
| unique_reservation_failed | membership_empty_range | membership_exhausted | uint64_exhausted
| range_exhausted | unique_reservation_conflict | put_failed | zero_written_entries.

#[global] Instance reason_dec : EqDecision Reason.
Proof. solve_decision. Defined.

(** struct [SSTResult]. *)
Record SSTResult := mkResult {
  file_number : Z;
  result_level : Z;
  file_size : Z;
  keys_written : Z;
  first_key : list Z;
  last_key : list Z;
  ok : bool;
  tail_size : Z;
  put_successes : Z;
  skipped_nonincreasing_keys : Z;
  result_put_failed : bool;
  unique_free_capacity : Z;
  unique_shortfall : Z;
  report_status : Report;
  stop_reason : Reason;
}.

(** A result without a file. *)
Definition no_file (t : SSTTask) (okay : bool) (free short : Z) (status : Report) (why : Reason) : SSTResult :=
  mkResult (real_fnum t) (level t) 0 0 [] [] okay 0 0 0 false free short status why.

(** The I/O of one file: opening, each addition, finishing, the size, and the
    start of the tail when the table properties can be read. *)
Record Io := mkIo {
  open_ok : bool;
  put_ok : nat -> bool;
  finish_ok : bool;
  fsize : Z;
  tail_start_offset : option Z;
}.

(** ** The state of the loop *)

(** Where the keys come from. *)
Record Members := mkMembers {
  member_fresh : Membership.Cursor;
  member_stale : Membership.Cursor;
  next_fresh : option Z;
  next_stale : option Z;
  member_claims : list Z;
}.

Record Source := mkSource {
  seg_idx : nat;
  unique_cap : Z;
  reservation : option Reservation.t;
  members : option Members;
}.

(** Where they go; [ids] are the key ids written. *)
Record Sink := mkSink {
  prev_materialized_key : option Z;
  prev_key_str : list Z;
  keys_in_file : Z;
  skipped_keys : Z;
  sink_first_key : list Z;
  writer : Writer.t;
  ids : list Z;
}.

Section worker.
Context (opts : Writer.KeyOptions) (key_domain : Z).

(** ** Choosing a key *)

(** The lower of the two cursors' keys. *)
Definition member_pick (m : Membership.t) (ms : Members) : option (Z * Members) :=
  let take_fresh k :=
    let '(n, c) := Membership.Next m (member_fresh ms) in
    Some (k, mkMembers c (member_stale ms) n (next_stale ms) (member_claims ms ++ [k])) in
  let take_stale k :=
    let '(n, c) := Membership.Next m (member_stale ms) in
    Some (k, mkMembers (member_fresh ms) c (next_fresh ms) n (member_claims ms)) in
  match next_fresh ms, next_stale ms with
  | Some a, Some b => if decide (a <= b) then take_fresh a else take_stale b
  | Some a, None => take_fresh a
  | None, Some b => take_stale b
  | None, None => None
  end.

(** The model's key at a position, inside the range. *)
Definition model_pick (t : SSTTask) (pos : Z) (idx : nat) : option (Z * nat) :=
  let segments := segments_ (plr_model (vsst t)) in
  let position := F64.of_Z pos in
  let idx := Materialize.mat_advance (length segments) segments position idx in
  k ← segment_key (segments !!! idx) position;
  Some (Z.min (Z.max k (materialize_key_min t)) (materialize_key_max t), idx).

(** Without a reservation: above the previous key, if the range has room. *)
Definition bump (t : SSTTask) (prev : option Z) (k : Z) : Reason + Z :=
  let stepped :=
    match prev with
    | Some p =>
        if decide (k <= p) then if decide (p = u64_max) then inl uint64_exhausted else inr (p +% 1)
        else inr k
    | None => inr k
    end in
  match stepped with
  | inl why => inl why
  | inr k => if decide (materialize_key_max t < k) then inl range_exhausted else inr k
  end.

(** With one: the lowest free key it can still reach, at most the cap; then the cap
    moves to the next free key. *)
Definition reserve (lo hi target count : Z) (prev : option Z) (k cap : Z) (r : Reservation.t)
    : option (Reservation.t * Z * (Reason + Z)) :=
  match (match prev with
         | None => Some lo
         | Some p => if decide (p = u64_max) then None else Some (Z.max lo (p +% 1))
         end) with
  | None => Some (r, cap, inl uint64_exhausted)
  | Some lower =>
      let candidate := Z.max k lower in
      let k := if decide (cap <= candidate) then cap else default cap (Reservation.NextFree candidate cap r) in
      match Reservation.Take k r with
      | None => None
      | Some (false, r) => Some (r, cap, inl unique_reservation_conflict)
      | Some (true, r) =>
          if decide (count +% 1 < target) then
            if decide (hi <= cap) then Some (r, cap, inl unique_reservation_conflict)
            else match Reservation.NextFree (cap +% 1) hi r with
                 | None => Some (r, cap, inl unique_reservation_conflict)
                 | Some cap => Some (r, cap, inr k)
                 end
          else Some (r, cap, inr k)
      end
  end.

(** The first part of an iteration: a key, or why the loop stops. *)
Definition choose (t : SSTTask) (m : option Membership.t) (lo hi target pos : Z) (src : Source) (snk : Sink)
    : option (Source * (Reason + Z)) :=
  if decide (is_Some (reservation src) /\ target <= keys_in_file snk)
  then Some (src, inl unique_capacity_exhausted)
  else
    match (match members src, m with
           | Some ms, Some m =>
               match member_pick m ms with
               | None => Some (src, inl membership_exhausted)
               | Some (k, ms) => Some (mkSource (seg_idx src) (unique_cap src) (reservation src) (Some ms), inr k)
               end
           | _, _ =>
               match model_pick t pos (seg_idx src) with
               | None => None
               | Some (k, idx) =>
                   Some (mkSource idx (unique_cap src) (reservation src) (members src),
                         if decide (reservation src = None) then bump t (prev_materialized_key snk) k else inr k)
               end
           end) with
    | Some (src, inr k) =>
        match reservation src with
        | None => Some (src, inr k)
        | Some r =>
            match reserve lo hi target (keys_in_file snk) (prev_materialized_key snk) k (unique_cap src) r with
            | None => None
            | Some (r, cap, c) => Some (mkSource (seg_idx src) cap (Some r) (members src), c)
            end
        end
    | other => other
    end.

(** The second part: the key is encoded and added. *)
Definition emit (io : Io) (k : Z) (snk : Sink) : option (Sink * option Reason) :=
  key ← Writer.GenerateKeyFromInt opts k key_domain;
  if decide (prev_key_str snk <> [] /\ Registry.slice_compare key (prev_key_str snk) <> Gt)
  then Some (mkSink (Some k) (prev_key_str snk) (keys_in_file snk) (skipped_keys snk +% 1)
               (sink_first_key snk) (writer snk) (ids snk), None)
  else
    match Writer.Put (put_ok io (length (ids snk))) key (writer snk) with
    | (OK, w) =>
        Some (mkSink (Some k) key (keys_in_file snk +% 1) (skipped_keys snk)
                (if decide (sink_first_key snk = []) then key else sink_first_key snk) w (ids snk ++ [k]), None)
    | (_, w) =>
        Some (mkSink (prev_materialized_key snk) (prev_key_str snk) (keys_in_file snk) (skipped_keys snk)
                (sink_first_key snk) w (ids snk), Some put_failed)
    end.

(** The loop over the positions [pos, pos + 1, ...], [n] of them. *)
Fixpoint write_loop (n : nat) (t : SSTTask) (io : Io) (m : option Membership.t) (lo hi target pos : Z)
    (src : Source) (snk : Sink) : option (Source * Sink * Reason) :=
  match n with
  | O => Some (src, snk, none)
  | S n =>
      match choose t m lo hi target pos src snk with
      | None => None
      | Some (src, inl why) => Some (src, snk, why)
      | Some (src, inr k) =>
          match emit io k snk with
          | None => None
          | Some (snk, Some why) => Some (src, snk, why)
          | Some (snk, None) => write_loop n t io m lo hi target (pos + 1) src snk
          end
      end
  end.

(** ** Before and after the loop *)

(** The reservation's share of the range: bounds, target, free keys and first cap,
    or the result when the file is not written. *)
Definition reserve_range (t : SSTTask) (r : option Reservation.t) : SSTResult + (Z * Z * Z * Z) :=
  let lo := materialize_key_min t in
  let planned := num_entries (vsst t) in
  match r with
  | None => inr (materialize_key_max t, planned, 0, 0)
  | Some r =>
      let hi := if decide (Reservation.key_domain r <= materialize_key_max t)
                then Reservation.key_domain r -% 1 else materialize_key_max t in
      let free_keys := if decide (hi < lo) then 0 else Reservation.CountFree lo hi r in
      let target := Z.min planned free_keys in
      if decide (target = 0)
      then inl (no_file t true free_keys (planned -% target) skipped unique_capacity_exhausted)
      else match Reservation.SelectFree lo hi (free_keys -% target) r with
           | None => inl (no_file t false free_keys (planned -% target) invalid_model unique_reservation_failed)
           | Some cap => inr (hi, target, free_keys, cap)
           end
  end.

(** The cursors of a file, with the keys available to it. *)
Definition open_members (t : SSTTask) (m : Membership.t) : Z * Z * Members :=
  let hi := if decide (Membership.key_domain m <= materialize_key_max t)
            then Membership.key_domain m -% 1 else materialize_key_max t in
  let lo := materialize_key_min t in
  let want := num_entries (vsst t) in
  let fresh_avail := Membership.CountPresent lo hi Membership.kNewest m in
  let stale_avail := Membership.CountPresent lo hi Membership.kStale m in
  let want_fresh := Z.min want fresh_avail in
  let want_stale := Z.min (want -% want_fresh) stale_avail in
  let '(k0, fresh) := Membership.Next m (Membership.NewCursor lo hi want_fresh Membership.kNewest m) in
  let '(k1, stale) := Membership.Next m (Membership.NewCursor lo hi want_stale Membership.kStale m) in
  (fresh_avail +% stale_avail, want -% want_fresh -% want_stale, mkMembers fresh stale k0 k1 []).

Fixpoint claim_all (keys : list Z) (m : Membership.t) : option Membership.t :=
  match keys with
  | [] => Some m
  | k :: keys => match Membership.Claim k m with Some m => claim_all keys m | None => None end
  end.

Definition tail_of (io : Io) : Z :=
  match tail_start_offset io with
  | Some off => if decide (0 < off /\ off < fsize io) then fsize io -% off else 0
  | None => 0
  end.

(** What remains to be done when the loop has stopped. *)
Definition close_file (t : SSTTask) (io : Io) (m : option Membership.t) (free short : Z)
    (src : Source) (snk : Sink) (why : Reason) : option (SSTResult * option Membership.t) :=
  let count := keys_in_file snk in
  let result okay size wrote tail status why :=
    mkResult (real_fnum t) (level t) size wrote (sink_first_key snk) (prev_key_str snk) okay tail count
      (skipped_keys snk) (bool_decide (why = put_failed)) free short status why in
  let exact := is_Some (reservation src) \/ is_Some m in
  if decide (exact /\ (count +% short <> num_entries (vsst t) \/ skipped_keys snk <> 0))
  then Some (result false 0 0 0 unique_count_mismatch why, m)
  else if decide (count = 0)
  then Some (result true 0 0 0 skipped (if decide (why = none) then zero_written_entries else why), m)
  else
    match Writer.Finish (finish_ok io) (writer snk) with
    | (OK, _) =>
        let claimed := match m, members src with
                       | Some m, Some ms => match claim_all (member_claims ms) m with Some m => Some (Some m) | None => None end
                       | _, _ => Some m
                       end in
        match claimed with
        | None => None
        | Some m =>
            Some (result true (fsize io) count (tail_of io)
                    (if decide (short = 0) then written else written_unique_shortfall) why, m)
        end
    | (_, _) => Some (result false 0 0 0 finish_failed why, m)
    end.

Definition start_sink (w : Writer.t) : Sink := mkSink None [] 0 0 [] w [].

(** Opening, writing and closing. *)
Definition write_file (io : Io) (t : SSTTask) (r : option Reservation.t) (m : option Membership.t)
    (hi target cap free short : Z) (ms : option Members)
    : option (SSTResult * option Reservation.t * option Membership.t * list Z) :=
  match Writer.Open (open_ok io) Writer.unopened with
  | (OK, w) =>
      match write_loop (Z.to_nat (num_entries (vsst t))) t io m (materialize_key_min t) hi target 0
              (mkSource 0 cap r ms) (start_sink w) with
      | None => None
      | Some (src, snk, why) =>
          match close_file t io m free short src snk why with
          | None => None
          | Some (res, m) => Some (res, reservation src, m, ids snk)
          end
      end
  | (_, _) => Some (no_file t false free short open_failed none, r, m, [])
  end.

(** One file: its result, the shared bitmaps, and the key ids written. *)
Definition run_task (io : Io) (t : SSTTask) (r : option Reservation.t) (m : option Membership.t)
    : option (SSTResult * option Reservation.t * option Membership.t * list Z) :=
  let planned := num_entries (vsst t) in
  if decide (planned = 0) then Some (no_file t true 0 0 skipped zero_planned_entries, r, m, [])
  else if Empty (plr_model (vsst t)) then Some (no_file t false 0 0 invalid_model empty_plr, r, m, [])
  else if decide (materialize_key_max t < materialize_key_min t)
  then Some (no_file t false 0 0 invalid_model empty_materialize_range, r, m, [])
  else
    match reserve_range t r with
    | inl res => Some (res, r, m, [])
    | inr (hi, target, free, cap) =>
        match m with
        | None => write_file io t r None hi target cap free (match r with None => 0 | Some _ => planned -% target end) None
        | Some mb =>
            let '(free, short, ms) := open_members t mb in
            if decide (next_fresh ms = None /\ next_stale ms = None)
            then Some (no_file t true free short skipped membership_empty_range, r, m, [])
            else write_file io t r m hi target cap free short (Some ms)
        end
    end.

(** ** Writing keys *)

Hypothesis (Hplain : Writer.keys_per_prefix_ opts = 0).
Hypothesis (Hsize : (8 <= Writer.key_size_ opts)%nat).

Definition key_of (k : Z) : list Z := Registry.encode_user_key (Writer.key_size_ opts) k.

Lemma key_of_compare a b : is_u64 a -> is_u64 b -> Registry.slice_compare (key_of a) (key_of b) = (a ?= b).
Proof. by apply Registry.encode_user_key_compare. Qed.

Lemma key_of_nonempty k : key_of k <> [].
Proof.
  intros Hk. apply (f_equal length) in Hk. unfold key_of in Hk. rewrite Registry.encode_user_key_length in Hk. cbn in Hk. lia.
Qed.

(** The file holds the keys of [ids], in order, and nothing was skipped. *)
Record sink_ok (snk : Sink) : Prop := {
  s_writing : Writer.writing (writer snk);
  s_added : Writer.added (writer snk) = key_of <$> ids snk;
  s_count : keys_in_file snk = Z.of_nat (length (ids snk));
  s_skipped : skipped_keys snk = 0;
  s_prev : prev_materialized_key snk = last (ids snk);
  s_prev_str : prev_key_str snk = from_option key_of [] (last (ids snk));
  s_first : sink_first_key snk = from_option key_of [] (head (ids snk));
  s_sorted : StronglySorted Z.lt (ids snk);
  s_u64 : Forall is_u64 (ids snk);
}.

Definition above (l : list Z) (k : Z) : Prop := forall p, last l = Some p -> p < k.

Lemma sorted_snoc l k : StronglySorted Z.lt l -> above l k -> StronglySorted Z.lt (l ++ [k]).
Proof.
  intros Hs Ha. apply StronglySorted_app. split_and!; [|done|repeat constructor]. intros x y Hx Hy%list_elem_of_singleton. subst y.
  destruct (last l) as [p|] eqn:El; [|by apply last_None in El; subst; apply elem_of_nil in Hx].
  specialize (Ha p El). apply list_elem_of_lookup in Hx as [i Hi]. rewrite last_lookup in El.
  destruct (decide (i = Nat.pred (length l))) as [->|Hne]; [congruence|].
  pose proof (lookup_lt_Some _ _ _ Hi). pose proof (StronglySorted_lookup Z.lt l i (Nat.pred (length l)) x p Hs ltac:(lia) Hi El). lia.
Qed.

Lemma start_sink_ok w : Writer.writing w -> Writer.added w = [] -> sink_ok (start_sink w).
Proof. intros Hw Ha. split; cbn; try done; constructor. Qed.

(** A key above the file's keys is added. *)
Lemma emit_ok io k snk : sink_ok snk -> is_u64 k -> above (ids snk) k -> (forall n, put_ok io n = true) ->
  Z.of_nat (length (ids snk)) < u64_max ->
  exists snk', emit io k snk = Some (snk', None) /\ sink_ok snk' /\ ids snk' = ids snk ++ [k].
Proof.
  intros [H1 H2 H3 H4 H5 H6 H7 H8 H9] Hk Ha Hio Hn. unfold emit.
  rewrite Writer.GenerateKeyFromInt_plain by done. cbn [mbind option_bind]. fold (key_of k).
  assert (forall p, last (ids snk) = Some p -> Registry.slice_compare (key_of k) (key_of p) = Gt) as Hgt.
  { intros p Hp. specialize (Ha p Hp). rewrite key_of_compare; [by apply Z.compare_gt_iff|done|].
    rewrite Forall_forall in H9. apply H9. by eapply last_Some_elem_of. }
  rewrite decide_False.
  2: { rewrite H6. destruct (last (ids snk)) as [p|]; cbn; [|tauto]. intros [_ Hc]. by apply Hc, Hgt. }
  destruct (Writer.Put_ok (writer snk) (key_of k) H1) as (w & Hput & Hw & Hadd).
  { by rewrite H2, length_fmap. }
  { intros x. rewrite H2, fmap_last. destruct (last (ids snk)) as [p|]; cbn; [|done]. intros [= <-]. by apply Hgt. }
  rewrite Hio, Hput. eexists. split; [done|]. split; [|done]. split; cbn; rewrite ?last_snoc; try done.
  - by rewrite Hadd, H2, fmap_app.
  - rewrite H3, u64_small by solve_u64. rewrite length_app. cbn. lia.
  - rewrite H7. destruct (ids snk) as [|x l]; cbn; [by rewrite decide_True by done|].
    rewrite decide_False by apply key_of_nonempty. done.
  - by apply sorted_snoc.
  - apply Forall_app. split; [done|]. by constructor.
Qed.

(** ** Exact membership *)

(** The state of a file that takes its keys from the bitmaps: [f] and [g] are the
    fresh and the stale keys still to come. *)
Record members_at (m : Membership.t) (ms : Members) (f g l : list Z) : Prop := {
  a_fresh : Membership.pending m (next_fresh ms) (member_fresh ms) f;
  a_stale : Membership.pending m (next_stale ms) (member_stale ms) g;
  a_fsorted : StronglySorted Z.lt f;
  a_gsorted : StronglySorted Z.lt g;
  a_disjoint : forall k, k ∈ f -> k ∈ g -> False;
  a_above : Forall (fun k => is_u64 k /\ above l k) (f ++ g);
}.

Lemma above_snoc l k x : k < x -> above (l ++ [k]) x.
Proof. intros Hk p. rewrite last_snoc. by intros [= <-]. Qed.

(** The keys of a cursor are at least the one it has read. *)
Lemma pending_least m next c l k : Membership.pending m next c l -> StronglySorted Z.lt l -> k ∈ l ->
  exists a, next = Some a /\ a <= k.
Proof.
  intros Hp Hs Hk. destruct next as [a|]; cbn in Hp; [|subst; by apply elem_of_nil in Hk]. exists a. split; [done|].
  destruct Hp as (n & -> & _). apply StronglySorted_inv in Hs as [_ Hs]. apply elem_of_cons in Hk as [->|Hk]; [lia|].
  rewrite Forall_forall in Hs. specialize (Hs k Hk). lia.
Qed.

(** Taking the key [a] the cursor of [f] has read, below all keys of the other. *)
Lemma take_pending m c f g l a : Membership.pending m (Some a) c f -> StronglySorted Z.lt f ->
  (forall k, k ∈ g -> a < k) -> Forall (fun k => is_u64 k /\ above l k) (f ++ g) ->
  is_u64 a /\ above l a /\ exists f', f = a :: f' /\ Membership.pending m (Membership.Next m c).1 (Membership.Next m c).2 f' /\
    StronglySorted Z.lt f' /\ Forall (fun k => is_u64 k /\ above (l ++ [a]) k) (f' ++ g).
Proof.
  intros Hp Hs Hg Ha. destruct (Membership.pending_next _ _ _ _ Hp) as (f' & -> & Hp'). apply StronglySorted_inv in Hs as [Hs Hall].
  cbn [app] in Ha. apply Forall_cons in Ha as [[Hu Hab] Ha]. split_and!; [done|done|]. exists f'. split_and!; try done.
  rewrite Forall_forall in *. intros k Hk. split; [by apply Ha|]. apply above_snoc.
  apply elem_of_app in Hk as [Hk|Hk]; [by apply Hall|by apply Hg].
Qed.

(** The pick is the least of the keys to come. *)
Lemma member_pick_spec m ms f g l : members_at m ms f g l ->
  match member_pick m ms with
  | None => f = [] /\ g = []
  | Some (k, ms') => is_u64 k /\ above l k /\
      ((exists f', f = k :: f' /\ members_at m ms' f' g (l ++ [k]) /\ member_claims ms' = member_claims ms ++ [k]) \/
       (exists g', g = k :: g' /\ members_at m ms' f g' (l ++ [k]) /\ member_claims ms' = member_claims ms))
  end.
Proof.
  intros [Hf Hg Sf Sg Hd Ha].
  pose proof (fun k => pending_least m _ _ f k Hf Sf) as Lf. pose proof (fun k => pending_least m _ _ g k Hg Sg) as Lg.
  assert (forall a, next_fresh ms = Some a -> (forall b, next_stale ms = Some b -> a <= b) ->
    let '(n, c) := Membership.Next m (member_fresh ms) in
    let ms' := mkMembers c (member_stale ms) n (next_stale ms) (member_claims ms ++ [a]) in
    is_u64 a /\ above l a /\ exists f', f = a :: f' /\ members_at m ms' f' g (l ++ [a])) as Hfresh.
  { intros a Ea Hab. rewrite Ea in Hf. destruct (take_pending m _ f g l a Hf Sf) as (H1 & H2 & f' & -> & H3 & H4 & H5); [|done|].
    - intros k Hk. destruct (Lg k Hk) as (b & Eb & Hb). specialize (Hab b Eb).
      assert (k <> a) by (intros ->; apply (Hd a); [|done]; destruct Hf as (n & [= ->] & _); by left). lia.
    - destruct (Membership.Next m (member_fresh ms)) as [n c]. split_and!; try done. exists f'. split; [done|]. split; try done.
      intros k Hk. apply Hd. by right. }
  assert (forall b, next_stale ms = Some b -> (forall a, next_fresh ms = Some a -> b < a) ->
    let '(n, c) := Membership.Next m (member_stale ms) in
    let ms' := mkMembers (member_fresh ms) c (next_fresh ms) n (member_claims ms) in
    is_u64 b /\ above l b /\ exists g', g = b :: g' /\ members_at m ms' f g' (l ++ [b])) as Hstale.
  { intros b Eb Hab. rewrite Eb in Hg. destruct (take_pending m _ g f l b Hg Sg) as (H1 & H2 & g' & -> & H3 & H4 & H5).
    - intros k Hk. destruct (Lf k Hk) as (a & Ea' & Ha'). specialize (Hab a Ea'). lia.
    - rewrite Forall_app in *. tauto.
    - destruct (Membership.Next m (member_stale ms)) as [n c]. split_and!; try done. exists g'. split; [done|]. split; try done.
      + intros k Hk Hk'. apply (Hd k Hk). by right.
      + rewrite Forall_app in *. tauto. }
  unfold member_pick. destruct (next_fresh ms) as [a|] eqn:Ea, (next_stale ms) as [b|] eqn:Eb.
  - destruct (decide (a <= b)) as [Hab|Hab].
    + specialize (Hfresh a eq_refl ltac:(by intros ? [= <-])). destruct (Membership.Next m (member_fresh ms)).
      destruct Hfresh as (H1 & H2 & f' & H3 & H4). split_and!; [done|done|]. left. by exists f'.
    + specialize (Hstale b eq_refl ltac:(intros ? [= <-]; lia)). destruct (Membership.Next m (member_stale ms)).
      destruct Hstale as (H1 & H2 & g' & H3 & H4). split_and!; [done|done|]. right. by exists g'.
  - specialize (Hfresh a eq_refl ltac:(done)). destruct (Membership.Next m (member_fresh ms)).
    destruct Hfresh as (H1 & H2 & f' & H3 & H4). split_and!; [done|done|]. left. by exists f'.
  - specialize (Hstale b eq_refl ltac:(done)). destruct (Membership.Next m (member_stale ms)).
    destruct Hstale as (H1 & H2 & g' & H3 & H4). split_and!; [done|done|]. right. by exists g'.
  - done.
Qed.

Lemma members_loop t io m n : (forall i, put_ok io i = true) -> forall pos src snk ms f g,
  members src = Some ms -> reservation src = None -> sink_ok snk -> members_at m ms f g (ids snk) ->
  Z.of_nat (length (ids snk) + n) < u64_max -> (length f + length g <= n)%nat ->
  forall lo hi target, exists src' snk' why ms' l,
    write_loop n t io (Some m) lo hi target pos src snk = Some (src', snk', why) /\ sink_ok snk' /\
    ids snk' = ids snk ++ l /\ l ≡ₚ f ++ g /\ reservation src' = None /\ members src' = Some ms' /\
    member_claims ms' = member_claims ms ++ f /\ why <> put_failed.
Proof.
  intros Hio. induction n as [|n IH]; intros pos src snk ms f g Hms Hr Hs Ha Hn Hlen lo hi target; cbn [write_loop].
  { destruct f; [|cbn in Hlen; lia]. destruct g; [|cbn in Hlen; lia].
    exists src, snk, none, ms, []. by rewrite !app_nil_r. }
  unfold choose. rewrite decide_False by (rewrite Hr; intros [[? ?] _]; done). rewrite Hms.
  pose proof (member_pick_spec m ms f g _ Ha) as Hp. destruct (member_pick m ms) as [[k ms']|].
  2: { destruct Hp as [-> ->]. exists src, snk, membership_exhausted, ms, []. by rewrite !app_nil_r. }
  destruct Hp as (Hu & Hab & Hp). cbn [reservation]. rewrite Hr.
  destruct (emit_ok io k snk Hs Hu Hab Hio ltac:(lia)) as (snk' & -> & Hs' & Hids).
  assert (forall f' g', members_at m ms' f' g' (ids snk ++ [k]) -> (length f' + length g' <= n)%nat ->
    exists src2 snk2 why ms2 l,
      write_loop n t io (Some m) lo hi target (pos + 1) (mkSource (seg_idx src) (unique_cap src) None (Some ms')) snk' = Some (src2, snk2, why) /\
      sink_ok snk2 /\ ids snk2 = ids snk ++ k :: l /\ l ≡ₚ f' ++ g' /\ reservation src2 = None /\ members src2 = Some ms2 /\
      member_claims ms2 = member_claims ms' ++ f' /\ why <> put_failed) as Hrec.
  { intros f' g' Ha' Hl'. rewrite <- Hids in Ha'.
    destruct (IH (pos + 1) (mkSource (seg_idx src) (unique_cap src) None (Some ms')) snk' ms' f' g' eq_refl eq_refl Hs' Ha')
      with (lo := lo) (hi := hi) (target := target) as (src2 & snk2 & why & ms2 & l & W1 & W2 & W3 & W4); [rewrite Hids, length_app; cbn; lia|done|].
    exists src2, snk2, why, ms2, l. rewrite W3, Hids, <- app_assoc. done. }
  destruct Hp as [(f' & -> & Ha' & Hc)|(g' & -> & Ha' & Hc)]; cbn [length] in Hlen.
  - destruct (Hrec f' g Ha' ltac:(lia)) as (src2 & snk2 & why & ms2 & l & W1 & W2 & W3 & W4 & W5 & W6 & W7 & W8).
    exists src2, snk2, why, ms2, (k :: l). split_and!; try done; [by rewrite W4|]. by rewrite W7, Hc, <- app_assoc.
  - destruct (Hrec f g' Ha' ltac:(lia)) as (src2 & snk2 & why & ms2 & l & W1 & W2 & W3 & W4 & W5 & W6 & W7 & W8).
    exists src2, snk2, why, ms2, (k :: l). split_and!; try done; [by rewrite W4, Permutation_middle|]. by rewrite W7, Hc.
Qed.

(** ** Files *)

(** A file with entries, a model and a range. *)
Record task_wf (t : SSTTask) : Prop := {
  t_entries : 1 <= num_entries (vsst t) < u64_max;
  t_model : Empty (plr_model (vsst t)) = false;
  t_range : 0 <= materialize_key_min t <= materialize_key_max t /\ materialize_key_max t <= u64_max;
  t_finite : Forall seg_fin (segments_ (plr_model (vsst t)));
}.

Definition io_ok (io : Io) : Prop := open_ok io = true /\ (forall n, put_ok io n = true) /\ finish_ok io = true.

(** The result of a file that holds the keys [l]. *)
Record good_result (t : SSTTask) (io : Io) (l : list Z) (res : SSTResult) : Prop := {
  g_ok : ok res = true;
  g_number : file_number res = real_fnum t;
  g_level : result_level res = level t;
  g_puts : put_successes res = Z.of_nat (length l);
  g_written : keys_written res = Z.of_nat (length l);
  g_size : file_size res = (if decide (l = []) then 0 else fsize io);
  g_first : first_key res = from_option key_of [] (head l);
  g_last : last_key res = from_option key_of [] (last l);
  g_sorted : StronglySorted Z.lt l;
  g_u64 : Forall is_u64 l;
}.

Lemma no_file_good t io free short status why : good_result t io [] (no_file t true free short status why).
Proof. split; cbn; try done; constructor. Qed.

Lemma open_writing : Writer.Open true Writer.unopened = (OK, Writer.mk true OK 0 [] [] []) /\
  sink_ok (start_sink (Writer.mk true OK 0 [] [] [])).
Proof. split; [done|]. by apply start_sink_ok. Qed.

(** Closing a file whose count is right: its claims are recorded. *)
Lemma close_ok t io m m' free short src snk why : sink_ok snk -> io_ok io -> why <> put_failed -> 
  (is_Some (reservation src) \/ is_Some m -> Z.of_nat (length (ids snk)) +% short = num_entries (vsst t)) ->
  (ids snk = [] -> m' = m) ->
  (ids snk <> [] -> match m, members src with
                   | Some m, Some ms => exists b, claim_all (member_claims ms) m = Some b /\ m' = Some b
                   | _, _ => m' = m
                   end) ->
  exists res, close_file t io m free short src snk why = Some (res, m') /\ good_result t io (ids snk) res /\
    unique_shortfall res = short /\ unique_free_capacity res = free.
Proof.
  intros Hs (_ & _ & Hfin) Hwhy Hcount Hnil Hclaims. pose proof Hs as [H1 H2 H3 H4 H5 H6 H7 H8 H9]. unfold close_file.
  rewrite decide_False by (rewrite H3, H4; intros [He [Hc|Hc]]; [by apply Hc, Hcount|done]).
  destruct (decide (keys_in_file snk = 0)) as [H0|H0].
  - assert (ids snk = []) as Hid by (destruct (ids snk); [done|cbn in H3; lia]). rewrite (Hnil Hid). eexists. split; [done|].
    split; [|done]. rewrite Hid in *. split; cbn; try done; by rewrite ?H7, ?H6.
  - assert (ids snk <> []) as Hne by (intros Hid; rewrite Hid in H3; done). specialize (Hclaims Hne).
    unfold Writer.Finish. rewrite (Writer.w_open _ H1), (Writer.w_status _ H1), (Writer.w_count _ H1), H2, length_fmap. cbn [negb].
    rewrite (decide_False (P := Z.of_nat (length (ids snk)) = 0)) by lia. rewrite bool_decide_true, Hfin by done. cbn [Writer.io_status].
    assert (match m, members src with
            | Some m, Some ms => match claim_all (member_claims ms) m with Some m => Some (Some m) | None => None end
            | _, _ => Some m
            end = Some m') as ->.
    { destruct m as [m|], (members src) as [ms|]; try by subst. by destruct Hclaims as (b & -> & ->). }
    eexists. split; [done|]. split; [|done]. split; cbn; try done. by rewrite decide_False by done.
Qed.

Lemma claim_all_models keys : forall m s c, Membership.models m s c -> Membership.claims_enabled m = true ->
  Forall (fun k => 0 <= k < Membership.key_domain m) keys ->
  exists m', claim_all keys m = Some m' /\ Membership.key_domain m' = Membership.key_domain m /\
    Membership.claims_enabled m' = true /\ Membership.models m' s (list_to_set keys ∪ c).
Proof.
  induction keys as [|k keys IH]; intros m s c Hm He Hk; cbn [claim_all].
  { exists m. split_and!; try done. cbn. by rewrite union_empty_l_L. }
  apply Forall_cons in Hk as [Hk Hks]. destruct (Membership.Claim_models k m s c Hm He Hk) as (m1 & -> & Hd & He1 & Hm1).
  destruct (IH m1 s _ Hm1 He1) as (m2 & -> & Hd2 & He2 & Hm2); [by rewrite Hd|]. exists m2. split_and!; [done|congruence|done|].
  rewrite (union_assoc_L _ {[k]} c), (union_comm_L _ {[k]}) in Hm2. exact Hm2.
Qed.

(** The fresh and the stale keys of a file's range. *)
Definition fresh_keys (t : SSTTask) (m : Membership.t) (s c : gset Z) : list Z :=
  Membership.keys_of m s c Membership.kNewest (materialize_key_min t) (materialize_key_max t).
Definition stale_keys (t : SSTTask) (m : Membership.t) (s c : gset Z) : list Z :=
  Membership.keys_of m s c Membership.kStale (materialize_key_min t) (materialize_key_max t).

Lemma elem_keys_of m s c mode first last k : k ∈ Membership.keys_of m s c mode first last <->
  Membership.in_mode mode (Membership.claims_enabled m) s c k /\ first <= k <= Bits.clamp (Membership.key_domain m) last.
Proof. clear Hplain Hsize. unfold Membership.keys_of. rewrite list_elem_of_filter, elem_of_seqZ. intuition lia. Qed.

Lemma keys_of_width m s c mode first last : first <= last ->
  Z.of_nat (length (Membership.keys_of m s c mode first last)) <= last - first + 1.
Proof.
  intros Hl. unfold Membership.keys_of. pose proof (length_filter (Membership.in_mode mode (Membership.claims_enabled m) s c)
    (seqZ first (Bits.clamp (Membership.key_domain m) last - first + 1))) as H. rewrite length_seqZ in H. unfold Bits.clamp in *. lia.
Qed.

Lemma open_members_spec t m s c : task_wf t -> Membership.models m s c -> Membership.claims_enabled m = true ->
  num_entries (vsst t) * (materialize_key_max t - materialize_key_min t + 1) <= u64_max ->
  let n := num_entries (vsst t) in
  let fresh := fresh_keys t m s c in
  let stale := stale_keys t m s c in
  exists free short ms f g, open_members t m = (free, short, ms) /\ members_at m ms f g [] /\ member_claims ms = [] /\
    Z.of_nat (length f) = Z.min n (Z.of_nat (length fresh)) /\ f ⊆ fresh /\ (Z.of_nat (length fresh) <= n -> f = fresh) /\
    Z.of_nat (length g) = Z.min (n - Z.of_nat (length f)) (Z.of_nat (length stale)) /\ g ⊆ stale /\
    short = n - Z.of_nat (length f) - Z.of_nat (length g).
Proof.
  intros [Hn _ Hr _] Hm He Hmul n fresh stale. pose proof (Bits.h_domain _ _ _ (Membership.m_bits _ _ _ Hm)) as Hd.
  unfold open_members. fold n.
  set (hi := if decide _ then Membership.key_domain m -% 1 else materialize_key_max t).
  assert (forall mode, Membership.keys_of m s c mode (materialize_key_min t) hi =
    Membership.keys_of m s c mode (materialize_key_min t) (materialize_key_max t)) as Hhi.
  { intros mode. unfold Membership.keys_of, Bits.clamp, hi. case_decide; [|done].
    rewrite u64_small by solve_u64. do 3 f_equal. lia. }
  assert (Z.of_nat (length fresh) <= materialize_key_max t - materialize_key_min t + 1) as Wf by (apply keys_of_width; lia).
  assert (Z.of_nat (length stale) <= materialize_key_max t - materialize_key_min t + 1) as Wg by (apply keys_of_width; lia).
  rewrite !(Membership.CountPresent_spec m s c) by (done || lia). rewrite !Hhi. fold (fresh_keys t m s c) (stale_keys t m s c). fold fresh stale.
  set (wf := Z.min n (Z.of_nat (length fresh))). assert (0 <= wf <= n) as Hwf by lia.
  rewrite (u64_small (n - wf)) by (unfold is_u64; lia). set (wg := Z.min (n - wf) (Z.of_nat (length stale))).
  assert (0 <= wg <= n - wf) as Hwg by lia. rewrite (u64_small (n - wf - wg)) by (unfold is_u64; lia).
  destruct (Membership.NewCursor_pending m s c Membership.kNewest (materialize_key_min t) hi wf Hm) as (f & F1 & F2 & F3 & F4 & F5);
    [lia|rewrite Hhi; fold (fresh_keys t m s c); fold fresh; lia|rewrite Hhi; fold (fresh_keys t m s c); fold fresh; nia|].
  destruct (Membership.NewCursor_pending m s c Membership.kStale (materialize_key_min t) hi wg Hm) as (g & G1 & G2 & G3 & G4 & _);
    [lia|rewrite Hhi; fold (stale_keys t m s c); fold stale; lia|rewrite Hhi; fold (stale_keys t m s c); fold stale; nia|].
  rewrite Hhi in F4, F5, G4. fold (fresh_keys t m s c) in F4, F5. fold (stale_keys t m s c) in G4. fold fresh in F4, F5. fold stale in G4.
  destruct (Membership.Next m (Membership.NewCursor _ _ wf _ _)) as [k0 c0]. destruct (Membership.Next m (Membership.NewCursor _ _ wg _ _)) as [k1 c1].
  cbn [fst snd] in *. eexists _, _, _, f, g. split; [done|]. split_and!; try done; try lia; [|intros Hle; apply F5; lia].
  split; cbn; try done.
  - intros k Hf Hg. apply F4, elem_keys_of in Hf as [[_ Hf] _]. apply G4, elem_keys_of in Hg as [[_ Hg] _]. rewrite He in *. tauto.
  - apply Forall_forall. intros k Hk. split; [|done]. unfold is_u64.
    apply elem_of_app in Hk as [Hk%F4|Hk%G4]; apply elem_keys_of in Hk as [_ Hk]; unfold Bits.clamp in Hk; lia.
Qed.

(** A file in exact membership: it takes fresh keys first, then stale ones. *)
Lemma members_file io t m s c : io_ok io -> task_wf t -> Membership.models m s c -> Membership.claims_enabled m = true ->
  num_entries (vsst t) * (materialize_key_max t - materialize_key_min t + 1) <= u64_max ->
  let n := num_entries (vsst t) in
  let fresh := fresh_keys t m s c in
  let stale := stale_keys t m s c in
  exists res m' f g l, run_task io t None (Some m) = Some (res, None, Some m', l) /\ good_result t io l res /\
    l ≡ₚ f ++ g /\ f ⊆ fresh /\ g ⊆ stale /\ Z.of_nat (length f) = Z.min n (Z.of_nat (length fresh)) /\
    Z.of_nat (length g) = Z.min (n - Z.of_nat (length f)) (Z.of_nat (length stale)) /\
    (Z.of_nat (length fresh) <= n -> f = fresh) /\ unique_shortfall res = n - Z.of_nat (length l) /\
    Membership.key_domain m' = Membership.key_domain m /\ Membership.claims_enabled m' = true /\
    Membership.models m' s (list_to_set f ∪ c).
Proof.
  intros Hio Hwf Hm He Hmul n fresh stale. pose proof Hwf as [Hn Hmod Hr _]. pose proof Hio as (Hop & Hput & _).
  destruct (open_members_spec t m s c Hwf Hm He Hmul) as (free & short & ms & f & g & Ho & Ha & Hc & F1 & F2 & F3 & G1 & G2 & Hshort).
  fold n in F1, F3, G1, Hshort. fold fresh in F1, F2, F3. fold stale in G1, G2.
  unfold run_task. rewrite (decide_False (P := num_entries (vsst t) = 0)) by lia. rewrite Hmod, decide_False by lia. cbn [reserve_range].
  rewrite Ho. destruct (decide _) as [[E1 E2]|Hne].
  - destruct Ha as [Hf Hg _ _ _ _]. rewrite E1 in Hf. rewrite E2 in Hg. cbn in Hf, Hg. subst f g.
    eexists _, m, [], [], []. split; [done|]. split_and!; try done; try (cbn in *; lia); [apply no_file_good|].
    cbn. by rewrite union_empty_l_L.
  - unfold write_file. destruct open_writing as [Hw Hs0]. rewrite Hop, Hw.
    destruct (members_loop t io m (Z.to_nat n) Hput 0 (mkSource 0 0 None (Some ms)) (start_sink (Writer.mk true OK 0 [] [] [])) ms f g
      eq_refl eq_refl Hs0 Ha) with (lo := materialize_key_min t) (hi := materialize_key_max t) (target := n)
      as (src & snk & why & ms' & l & W1 & W2 & W3 & W4 & W5 & W6 & W7 & W8); [cbn; lia|lia|]. fold n. rewrite W1.
    cbn in W3. subst l. rewrite Hc in W7. cbn [app] in W7.
    assert (Forall (fun k => 0 <= k < Membership.key_domain m) f) as Hfd.
    { apply Forall_forall. intros k Hk%F2. apply elem_keys_of in Hk as [_ Hk]. unfold Bits.clamp in Hk. lia. }
    destruct (claim_all_models f m s c Hm He Hfd) as (m' & Hcl & Hd' & He' & Hm').
    pose proof (Permutation_length W4) as Hl. rewrite length_app in Hl.
    destruct (close_ok t io (Some m) (if decide (ids snk = []) then Some m else Some m') free short src snk why W2 Hio W8) as (res & Hcf & Hg & Hsh & _).
    + intros _. fold n. rewrite u64_small by solve_u64. lia.
    + intros Hnil. by rewrite decide_True.
    + intros Hnn. rewrite W6, W7, decide_False by done. by exists m'.
    + rewrite Hcf. assert ((if decide (ids snk = []) then Some m else Some m') = Some m') as ->.
      { case_decide as Hnil; [|done]. rewrite Hnil in W4. symmetry in W4. apply Permutation_nil_r, app_eq_nil in W4 as [Hf0 _].
        rewrite Hf0 in Hcl. cbn in Hcl. congruence. }
      rewrite W5. exists res, m', f, g, (ids snk). split_and!; try done. rewrite Hsh, Hl. lia.
Qed.

(** The model always has a key in the range. *)
Lemma model_pick_spec t pos idx : task_wf t -> (idx < length (segments_ (plr_model (vsst t))))%nat -> 0 <= pos <= u64_max ->
  exists k idx', model_pick t pos idx = Some (k, idx') /\ (idx' < length (segments_ (plr_model (vsst t))))%nat /\ in_range k t.
Proof.
  intros [_ _ Hr Hfin] Hi Hp. unfold model_pick. set (segs := segments_ _) in *.
  pose proof (Materialize.mat_advance_lt (length segs) segs (F64.of_Z pos) idx Hi) as Hi'. set (idx' := Materialize.mat_advance _ _ _ _) in *.
  assert (seg_fin (segs !!! idx')) as Hseg.
  { rewrite Forall_forall in Hfin. by apply Hfin, list_elem_of_lookup_total_2. }
  destruct (segment_key_bounds _ (F64.of_Z pos) Hseg) as (k & -> & _); [by apply of_Z_finite64|].
  cbn [mbind option_bind]. eexists _, idx'. split; [done|]. split; [done|]. unfold in_range. lia.
Qed.

Lemma segments_nonempty t : task_wf t -> (0 < length (segments_ (plr_model (vsst t))))%nat.
Proof. intros [_ Hm _ _]. unfold Empty in Hm. destruct (segments_ _); [done|cbn; lia]. Qed.

(** ** Globally unique keys *)

Section reserve.
Context (s : gset Z) (d lo hi target : Z).
Hypothesis (Hlo : 0 <= lo) (Hhi : hi < d <= u64_max - 63 /\ 0 < d).

Let free := Reservation.free_keys s d lo hi.
Hypothesis (Htarget : 1 <= target <= Z.of_nat (length free)).

(** After the keys [l] were taken: the cap of the next key is the free key that
    leaves enough free keys above it for the rest. *)
Record reserve_at (l : list Z) (cap : Z) (r : Reservation.t) : Prop := {
  v_models : Reservation.models r (list_to_set l ∪ s);
  v_domain : Reservation.key_domain r = d;
  v_free : l ⊆ free;
  v_count : Z.of_nat (length l) <= target;
  v_cap : Z.of_nat (length l) < target ->
          free !! Z.to_nat (Z.of_nat (length free) - target + Z.of_nat (length l)) = Some cap /\
          Forall (fun p => p < cap) l;
}.

Lemma elem_free k : (k ∈ free) <-> (k ∉ s) /\ lo <= k <= hi.
Proof. unfold free. rewrite Reservation.elem_of_free_keys. unfold Bits.clamp. intuition lia. Qed.

Lemma free_width : Z.of_nat (length free) <= d.
Proof.
  clear Htarget. unfold free, Reservation.free_keys. pose proof (length_filter (fun k => k ∉ s) (seqZ lo (Bits.clamp d hi - lo + 1))) as Hl.
  rewrite length_seqZ in Hl. unfold Bits.clamp in *. lia.
Qed.

(** The key the reservation settles on. *)
Lemma reserve_key l cap r k : reserve_at l cap r -> Z.of_nat (length l) < target ->
  let lower := match last l with None => lo | Some p => Z.max lo (p + 1) end in
  let candidate := Z.max k lower in
  let k' := if decide (cap <= candidate) then cap else default cap (Reservation.NextFree candidate cap r) in
  (k' ∈ free) /\ k' <= cap /\ (k' ∉ l) /\ above l k'.
Proof.
  intros [Hm Hd Hf _ Hc] Hlt lower candidate k'. destruct (Hc Hlt) as [Hcap Hl]. rewrite Forall_forall in Hl.
  apply list_elem_of_lookup_2 in Hcap. pose proof (proj1 (elem_free cap) Hcap) as [Hcs Hcr].
  assert (cap ∉ (list_to_set l ∪ s : gset Z)) as Hcf.
  { intros [Hin|Hin]%elem_of_union; [|done]. apply elem_of_list_to_set, Hl in Hin. lia. }
  assert (lo <= lower) as Hlow by (unfold lower; destruct (last l); lia).
  assert (forall p, last l = Some p -> p < lower) as Hprev by (intros p Hp; unfold lower; rewrite Hp; lia).
  assert ((k' ∉ (list_to_set l ∪ s : gset Z)) /\ lo <= k' <= cap /\ above l k') as (K1 & K2 & K3).
  { unfold k'. destruct (decide _) as [Hge|Hge].
    - split_and!; try done; [lia|]. intros p Hp. apply Hl. by eapply last_Some_elem_of.
    - destruct (Reservation.queries_spec r _ candidate cap 0 Hm ltac:(lia) ltac:(by vm_compute)) as (_ & -> & _).
      destruct (Reservation.free_keys _ _ candidate cap) as [|x fl] eqn:E.
      + assert (cap ∈ []) as Hin; [|by apply elem_of_nil in Hin]. rewrite <- E. apply Reservation.elem_of_free_keys.
        split; [done|]. rewrite Hd. unfold Bits.clamp. lia.
      + cbn. assert (x ∈ x :: fl) as Hin by (by left). rewrite <- E in Hin. apply Reservation.elem_of_free_keys in Hin as [Hx Hxr].
        unfold Bits.clamp in Hxr. split_and!; [done|lia|lia|]. intros p Hp. specialize (Hprev p Hp). lia. }
  split_and!; [|lia| |done].
  - apply elem_free. split; [set_solver|lia].
  - intros Hin. apply K1, elem_of_union_l, elem_of_list_to_set, Hin.
Qed.

(** The free keys above the cap. *)
Lemma free_above j cap y : free !! j = Some cap -> y ∈ free -> cap < y ->
  exists x, free !! S j = Some x /\ cap < x <= y.
Proof.
  intros Hj Hy Hlt. apply list_elem_of_lookup in Hy as [i Hi]. pose proof (Reservation.free_keys_sorted s d lo hi) as Hs. fold free in Hs.
  assert (j < i)%nat as Hji.
  { destruct (decide (i = j)) as [->|Hne]; [rewrite Hj in Hi; injection Hi as ->; lia|].
    destruct (decide (i < j)%nat) as [Hl|Hl]; [|lia]. pose proof (StronglySorted_lookup _ _ _ _ _ _ Hs Hl Hi Hj). lia. }
  pose proof (lookup_lt_Some _ _ _ Hi) as Hlen. destruct (lookup_lt_is_Some_2 free (S j) ltac:(lia)) as [x Hx].
  exists x. split; [done|]. split; [by apply (StronglySorted_lookup _ _ j (S j) cap x Hs ltac:(lia))|].
  destruct (decide (i = S j)) as [->|Hne]; [rewrite Hx in Hi; injection Hi as ->; lia|].
  pose proof (StronglySorted_lookup _ _ (S j) i x y Hs ltac:(lia) Hx Hi). lia.
Qed.

Lemma reserve_spec l cap r k : reserve_at l cap r -> Z.of_nat (length l) < target ->
  exists r' cap' k', reserve lo hi target (Z.of_nat (length l)) (last l) k cap r = Some (r', cap', inr k') /\
    is_u64 k' /\ above l k' /\ reserve_at (l ++ [k']) cap' r'.
Proof.
  intros Hat Hlt. pose proof (reserve_key l cap r k Hat Hlt) as Hk. pose proof Hat as [Hm Hd Hf _ Hc]. destruct (Hc Hlt) as [Hcap Hl].
  set (lower := match last l with None => lo | Some p => Z.max lo (p + 1) end) in Hk. cbv zeta in Hk.
  assert (match last l with None => Some lo | Some p => if decide (p = u64_max) then None else Some (Z.max lo (p +% 1)) end = Some lower) as El.
  { unfold lower. destruct (last l) as [p|] eqn:Ep; [|done]. assert (p ∈ free) as Hp by (apply Hf; by eapply last_Some_elem_of).
    apply elem_free in Hp as [_ Hp]. rewrite decide_False by lia. by rewrite u64_small by solve_u64. }
  unfold reserve. rewrite El. set (k' := if decide _ then cap else _) in *. destruct Hk as (K1 & K2 & K3 & K4).
  pose proof (proj1 (elem_free k') K1) as [K5 K6].
  destruct (Reservation.Take_models k' r _ Hm ltac:(lia)) as (r' & -> & Hm' & Hd').
  rewrite bool_decide_true by set_solver. assert (is_u64 k') as Hu by (unfold is_u64; lia).
  assert (list_to_set (l ++ [k']) ∪ s = {[k']} ∪ (list_to_set l ∪ s) :> gset Z) as Eset by (rewrite list_to_set_app_L; set_solver).
  assert (l ++ [k'] ⊆ free) as Hf' by (intros x [Hx|Hx%list_elem_of_singleton]%elem_of_app; [by apply Hf|by subst x]).
  pose proof free_width as Hw. rewrite (u64_small (Z.of_nat (length l) + 1)) by (unfold is_u64; lia).
  destruct (decide (Z.of_nat (length l) + 1 < target)) as [Hmore|Hmore].
  - set (j := Z.to_nat (Z.of_nat (length free) - target + Z.of_nat (length l))) in Hcap.
    destruct (lookup_lt_is_Some_2 free (S j) ltac:(unfold j; lia)) as [c2 Hc2].
    pose proof (StronglySorted_lookup _ _ j (S j) cap c2 (Reservation.free_keys_sorted s d lo hi) ltac:(lia) Hcap Hc2) as Hcc.
    pose proof (proj1 (elem_free c2) (list_elem_of_lookup_2 _ _ _ Hc2)) as [C1 C2]. rewrite decide_False by lia.
    rewrite (u64_small (cap + 1)) by (unfold is_u64; lia).
    pose proof (proj1 (elem_free cap) (list_elem_of_lookup_2 _ _ _ Hcap)) as [_ C3].
    assert (forall x, x ∈ ({[k']} ∪ (list_to_set l ∪ s) : gset Z) -> x <= cap \/ x ∈ s) as Hbelow.
    { rewrite Forall_forall in Hl. intros x [->%elem_of_singleton|[Hx%elem_of_list_to_set|Hx]%elem_of_union]%elem_of_union; [by left| |by right].
      left. specialize (Hl x Hx). lia. }
    rewrite (Reservation.NextFree_least r' _ (cap + 1) hi c2 Hm').
    + exists r', c2, k'. split_and!; try done. split; [by rewrite Eset|congruence|done|rewrite length_app; cbn; lia|]. intros _.
      rewrite length_app. split; [|apply Forall_app; split; [eapply Forall_impl; [exact Hl|]; cbn; lia|repeat constructor; lia]].
      replace (Z.to_nat _) with (S j) by (unfold j; cbn; lia). done.
    + lia.
    + intros Hin%Hbelow. destruct Hin as [?|?]; [lia|done].
    + rewrite Hd', Hd. unfold Bits.clamp. lia.
    + rewrite Hd', Hd. unfold Bits.clamp. intros y Hy Hyr.
      destruct (free_above j cap y Hcap) as (x & Hx & Hxy); [apply elem_free; split; [set_solver|lia]|lia|]. rewrite Hc2 in Hx. injection Hx as <-. lia.
  - exists r', cap, k'. split_and!; try done. split; [by rewrite Eset|congruence|done|rewrite length_app; cbn; lia|].
    rewrite length_app. cbn. lia.
Qed.

Lemma reserve_loop t io n : (forall i, put_ok io i = true) -> task_wf t -> forall pos src snk r,
  reservation src = Some r -> members src = None -> sink_ok snk -> reserve_at (ids snk) (unique_cap src) r ->
  (seg_idx src < length (segments_ (plr_model (vsst t))))%nat -> 0 <= pos -> pos + Z.of_nat n <= u64_max ->
  target - Z.of_nat (length (ids snk)) <= Z.of_nat n ->
  exists src' snk' why, write_loop n t io None lo hi target pos src snk = Some (src', snk', why) /\ sink_ok snk' /\
    Z.of_nat (length (ids snk')) = target /\ members src' = None /\ why <> put_failed /\
    exists r' cap', reservation src' = Some r' /\ reserve_at (ids snk') cap' r'.
Proof.
  intros Hio Hwf. pose proof free_width as Hw. induction n as [|n IH]; intros pos src snk r Hr Hms Hs Hat Hi Hp Hn Hlen; cbn [write_loop].
  { exists src, snk, none. pose proof (v_count _ _ _ Hat). split_and!; try done; [lia|]. by exists r, (unique_cap src). }
  unfold choose. rewrite Hr, Hms, (s_count _ Hs). destruct (decide _) as [[_ Hge]|Hlt].
  { exists src, snk, unique_capacity_exhausted. pose proof (v_count _ _ _ Hat). split_and!; try done; [lia|]. by exists r, (unique_cap src). }
  assert (Z.of_nat (length (ids snk)) < target) as Hlt' by (apply Z.nle_gt; intros Hle; apply Hlt; by split; [eexists|]).
  destruct (model_pick_spec t pos (seg_idx src) Hwf Hi ltac:(lia)) as (k & idx & -> & Hidx & _).
  rewrite decide_False by done. cbn [reservation unique_cap seg_idx members]. rewrite (s_prev _ Hs).
  destruct (reserve_spec _ _ _ k Hat Hlt') as (r' & cap' & k' & -> & Hu & Hab & Hat').
  destruct (emit_ok io k' snk Hs Hu Hab Hio ltac:(lia)) as (snk' & -> & Hs' & Hids). rewrite <- Hids in Hat'.
  apply (IH (pos + 1) (mkSource idx cap' (Some r') None) snk' r'); try done; [lia|lia|]. rewrite Hids, length_app. cbn. lia.
Qed.

End reserve.

(** A file with a reservation: as many of the free keys of its range as planned. *)
Lemma reserve_file io t r s : io_ok io -> task_wf t -> Reservation.models r s ->
  let n := num_entries (vsst t) in
  let free := Reservation.free_keys s (Reservation.key_domain r) (materialize_key_min t) (materialize_key_max t) in
  exists res r' l, run_task io t (Some r) None = Some (res, Some r', None, l) /\ good_result t io l res /\ l ⊆ free /\
    Z.of_nat (length l) = Z.min n (Z.of_nat (length free)) /\ unique_shortfall res = n - Z.of_nat (length l) /\
    Reservation.key_domain r' = Reservation.key_domain r /\ Reservation.models r' (list_to_set l ∪ s).
Proof.
  intros Hio Hwf Hm n free. pose proof Hwf as [Hn Hmod Hr _]. pose proof Hio as (Hop & Hput & _).
  pose proof (Bits.h_domain _ _ _ Hm) as Hd. set (d := Reservation.key_domain r) in *.
  unfold run_task. rewrite (decide_False (P := num_entries (vsst t) = 0)) by lia. rewrite Hmod, decide_False by lia. cbn [reserve_range].
  fold d n. set (hi := if decide (d <= materialize_key_max t) then d -% 1 else materialize_key_max t).
  assert (hi = Z.min (materialize_key_max t) (d - 1)) as Hhi.
  { unfold hi. case_decide; [rewrite u64_small by solve_u64|]; lia. }
  assert (Reservation.free_keys s d (materialize_key_min t) hi = free) as Efree.
  { unfold free, Reservation.free_keys, Bits.clamp. rewrite Hhi. do 3 f_equal. lia. }
  assert ((if decide (hi < materialize_key_min t) then 0 else Reservation.CountFree (materialize_key_min t) hi r) = Z.of_nat (length free)) as ->.
  { destruct (decide (hi < materialize_key_min t)) as [Hlt|Hge].
    - replace (length free) with 0%nat; [done|]. symmetry. apply length_zero_iff_nil, elem_of_nil_inv. intros x Hx. rewrite <- Efree in Hx.
      apply Reservation.elem_of_free_keys in Hx as [_ Hx]. unfold Bits.clamp in Hx. lia.
    - destruct (Reservation.queries_spec r s (materialize_key_min t) hi 0 Hm ltac:(lia) ltac:(by vm_compute)) as (-> & _). fold d. by rewrite Efree. }
  destruct (decide (Z.min n (Z.of_nat (length free)) = 0)) as [H0|H0].
  { eexists _, r, []. split; [done|]. split_and!; try done.
    - apply no_file_good.
    - set_solver.
    - cbn. rewrite u64_small by solve_u64. lia.
    - cbn. by rewrite union_empty_l_L. }
  pose proof (free_width s d (materialize_key_min t) hi ltac:(lia) ltac:(lia)) as Hw. rewrite Efree in Hw.
  set (target := Z.min n (Z.of_nat (length free))) in *. rewrite (u64_small (Z.of_nat (length free) - target)) by (unfold is_u64; lia).
  destruct (Reservation.queries_spec r s (materialize_key_min t) hi (Z.of_nat (length free) - target) Hm ltac:(lia) ltac:(unfold is_u64; lia)) as (_ & _ & -> & _).
  fold d. rewrite Efree. destruct (lookup_lt_is_Some_2 free (Z.to_nat (Z.of_nat (length free) - target)) ltac:(lia)) as [cap Hcap]. rewrite Hcap.
  unfold write_file. destruct open_writing as [Hw0 Hs0]. rewrite Hop, Hw0. rewrite (u64_small (n - target)) by (unfold is_u64; lia).
  destruct (reserve_loop s d (materialize_key_min t) hi target ltac:(lia) ltac:(lia) ltac:(rewrite Efree; lia) t io (Z.to_nat n) Hput Hwf 0
    (mkSource 0 cap (Some r) None) (start_sink (Writer.mk true OK 0 [] [] [])) r eq_refl eq_refl Hs0) as (src & snk & why & W1 & W2 & W3 & W4 & W5 & r' & cap' & W6 & W7).
  - split; cbn; try done; [by rewrite union_empty_l_L|set_solver|lia|]. intros _. rewrite Z.add_0_r, Efree. by split; [|constructor].
  - cbn. by apply segments_nonempty.
  - lia.
  - cbn. lia.
  - cbn. lia.
  - fold n. rewrite W1. destruct (close_ok t io None None (Z.of_nat (length free)) (n - target) src snk why W2 Hio W5) as (res & Hcf & Hg & Hsh & _).
    + intros _. rewrite W3. fold n. rewrite u64_small by solve_u64. lia.
    + done.
    + intros _. by destruct (members src).
    + rewrite Hcf, W6. exists res, r', (ids snk). destruct W7 as [V1 V2 V3 _ _]. rewrite Efree in V3.
      split_and!; try done. rewrite Hsh, W3. done.
Qed.

(** ** Keys of the model *)

Lemma bump_spec t prev k : in_range k t -> materialize_key_max t <= u64_max -> 0 <= materialize_key_min t ->
  (forall p, prev = Some p -> in_range p t) ->
  match bump t prev k with
  | inr k' => in_range k' t /\ (forall p, prev = Some p -> p < k')
  | inl why => why <> put_failed /\ why <> none /\ prev = Some (materialize_key_max t)
  end.
Proof.
  unfold bump, in_range. intros Hk Hmax Hmin Hp. destruct prev as [p|].
  - specialize (Hp p eq_refl). destruct (decide (k <= p)) as [Hle|Hgt].
    + destruct (decide (p = u64_max)) as [->|Hne]; [split_and!; try done; f_equal; lia|].
      rewrite u64_small by solve_u64. destruct (decide _); [split_and!; try done; f_equal; lia|].
      split; [lia|]. intros ? [= <-]. lia.
    + rewrite decide_False by lia. split; [lia|]. intros ? [= <-]. lia.
  - rewrite decide_False by lia. split; [lia|done].
Qed.

Lemma plain_loop t io n : (forall i, put_ok io i = true) -> task_wf t -> forall pos src snk lo hi target,
  reservation src = None -> members src = None -> sink_ok snk -> Forall (fun k => in_range k t) (ids snk) ->
  (seg_idx src < length (segments_ (plr_model (vsst t))))%nat -> 0 <= pos -> pos + Z.of_nat n <= u64_max ->
  Z.of_nat (length (ids snk) + n) < u64_max ->
  exists src' snk' why l, write_loop n t io None lo hi target pos src snk = Some (src', snk', why) /\ sink_ok snk' /\
    ids snk' = ids snk ++ l /\ Forall (fun k => in_range k t) (ids snk') /\ members src' = None /\ reservation src' = None /\
    why <> put_failed /\ (length l = n \/ last (ids snk') = Some (materialize_key_max t)).
Proof.
  intros Hio Hwf. pose proof Hwf as [_ _ Hr _].
  induction n as [|n IH]; intros pos src snk lo hi target Hrv Hms Hs Hin Hi Hp Hn Hlen; cbn [write_loop].
  { exists src, snk, none, []. rewrite app_nil_r. split_and!; try done. by left. }
  unfold choose. rewrite Hrv, Hms. rewrite decide_False by (intros [[? ?] _]; done).
  destruct (model_pick_spec t pos (seg_idx src) Hwf Hi ltac:(lia)) as (k & idx & -> & Hidx & Hk).
  rewrite decide_True by done. cbn [reservation].
  pose proof (bump_spec t (prev_materialized_key snk) k Hk ltac:(lia) ltac:(lia)) as Hb.
  rewrite (s_prev _ Hs) in *. destruct (bump t (last (ids snk)) k) as [why|k'].
  - destruct Hb as (B1 & _ & B3).
    { intros p Hl. rewrite Forall_forall in Hin. by eapply Hin, last_Some_elem_of. }
    exists (mkSource idx (unique_cap src) None None), snk, why, []. rewrite app_nil_r. split_and!; try done. by right.
  - destruct Hb as (B1 & B2).
    { intros p Hl. rewrite Forall_forall in Hin. by eapply Hin, last_Some_elem_of. }
    assert (is_u64 k') as Hu by (unfold is_u64, in_range in *; lia).
    destruct (emit_ok io k' snk Hs Hu B2 Hio ltac:(lia)) as (snk' & -> & Hs' & Hids).
    destruct (IH (pos + 1) (mkSource idx (unique_cap src) None None) snk' lo hi target) as (src2 & snk2 & why & l & W1 & W2 & W3 & W4 & W5 & W6 & W7 & W8);
      try done; [rewrite Hids; apply Forall_app; split; [done|by constructor]|lia|lia|rewrite Hids, length_app; cbn; lia|].
    exists src2, snk2, why, (k' :: l). rewrite W3, Hids, <- app_assoc. split_and!; try done; [by rewrite W3, Hids, <- app_assoc in W4|].
    destruct W8 as [W8|W8]; [left; cbn; lia|right]. by rewrite W3, Hids, <- app_assoc in W8.
Qed.

(** A file drawn from the model alone. *)
Lemma plain_file io t (Hio : io_ok io) (Hwf : task_wf t) :
  exists res l, run_task io t None None = Some (res, None, None, l) /\ good_result t io l res /\ l <> [] /\
    Forall (fun k => in_range k t) l /\
    (Z.of_nat (length l) = num_entries (vsst t) \/ last l = Some (materialize_key_max t)).
Proof.
  pose proof Hwf as [Hn Hmod Hr _]. pose proof Hio as (Hop & Hput & _). set (n := num_entries (vsst t)) in *.
  unfold run_task. fold n. rewrite (decide_False (P := n = 0)) by lia. rewrite Hmod, decide_False by lia. cbn [reserve_range].
  unfold write_file. destruct open_writing as [Hw0 Hs0]. rewrite Hop, Hw0. fold n.
  destruct (plain_loop t io (Z.to_nat n) Hput Hwf 0 (mkSource 0 0 None None) (start_sink (Writer.mk true OK 0 [] [] []))
    (materialize_key_min t) (materialize_key_max t) n eq_refl eq_refl Hs0) as (src & snk & why & l & W1 & W2 & W3 & W4 & W5 & W6 & W7 & W8);
    [constructor|by apply segments_nonempty|lia|lia|cbn; lia|].
  rewrite W1. cbn in W3. rewrite W3 in *. destruct (close_ok t io None None 0 0 src snk why W2 Hio W7) as (res & Hcf & Hg & _ & _).
  - rewrite W6. by intros [[? ?]|[? ?]].
  - done.
  - intros _. by destruct (members src).
  - rewrite Hcf, W6, W3 in *. exists res, l. split_and!; try done.
    + intros ->. destruct W8 as [W8|W8]; [cbn in W8; lia|done].
    + destruct W8 as [W8|W8]; [left; lia|by right].
Qed.


End worker.

(** ** Instances *)

Definition sample_opts : Writer.KeyOptions := Writer.mkKeyOptions 16 0 0.
Definition sample_io : Io := mkIo true (fun _ => true) true 4096 (Some 3000).
Definition model_vsst (keys : list Z) : VirtualSST :=
  mkVSST (GreedyPLRFit keys (F64.of_Z 1)) [] (hd 0 keys) (List.last keys 0) (Z.of_nat (length keys)) 0.
Definition sample_task : SSTTask := mkTask 7 100 1 10 50 (model_vsst [10; 20; 30; 35; 50]).

Lemma sample_task_wf : task_wf sample_task.
Proof.
  split; [by vm_compute|by vm_compute|by vm_compute|]. apply (bool_decide_unpack _). by vm_compute.
Qed.

Lemma sample_io_ok : io_ok sample_io.
Proof. done. Qed.


(** Two files of level 1 that share a key, as two adjacent outputs of a split can:
    when the second one has no other key, the pass over the ranges leaves it an
    empty range, and the file, hence the whole materialization, fails. *)
Definition boundary_tasks : list SSTTask :=
  disjoint_ranges [0; 1]%nat start_walk
    (build_tasks {[7 := 1; 8 := 1]} [(7, model_vsst [5; 9; 20]); (8, model_vsst [20])] 100).

Lemma boundary_file_fails :
  exists t res, boundary_tasks !! 1%nat = Some t /\
    run_task sample_opts 100 sample_io t None None = Some (res, None, None, []) /\
    ok res = false /\ stop_reason res = empty_materialize_range.
Proof. eexists _, _. split; [vm_compute; reflexivity|]. split; [vm_compute; reflexivity|]. done. Qed.

End Worker.
