(* ===== verification/Phase2.v ===== *)
(** * Writing all the files

    Phase 2a of [FillVirtual] in [tools/db_bench_tool.cc]: the groups of tasks, the
    shared reservation or membership bitmaps, and the results.  Between two barriers
    the tasks run here one after the other, in the order of the group; with a
    reservation [Interleave] shows that no schedule of tasks with disjoint ranges gives
    another outcome, and level-0 groups of the exact modes have one worker. *)

From Stdlib Require Import ZArith Lia Sorted SpecFloat.
From stdpp Require Import base numbers list option gmap.
From S2P Require Import Prelude FloatModel SizeModel Plr Kmv Registry Version Install Bitmap Reservation Membership Tasks Writer Worker.

Local Open Scope Z_scope.

Module Phase2.
Import Tasks Worker.

(** ** Materialization *)

(** The shared bitmaps, and the results by task; [outputs] are the key ids each
    file holds. *)
Record State := mkState {
  unique_reservation : option Reservation.t;
  membership : option Membership.t;
  results : list SSTResult;
  outputs : list (list Z);
}.

(** The fields of a result before its task runs. *)
Definition unstarted : SSTResult := mkResult 0 0 0 0 [] [] false 0 0 0 false 0 0 not_started none.

Definition start_state (n : nat) (r : option Reservation.t) (m : option Membership.t) : State :=
  mkState r m (replicate n unstarted) (replicate n []).

Section phase2.
Context (opts : Writer.KeyOptions) (key_domain : Z) (ios : nat -> Io).

Definition run_index (tasks : list SSTTask) (idx : nat) (st : State) : option State :=
  match tasks !! idx with
  | None => None
  | Some t =>
      match run_task opts key_domain (ios idx) t (unique_reservation st) (membership st) with
      | None => None
      | Some (res, r, m, l) => Some (mkState r m (<[idx := res]> (results st)) (<[idx := l]> (outputs st)))
      end
  end.

Fixpoint run_group (tasks : list SSTTask) (group : list nat) (st : State) : option State :=
  match group with
  | [] => Some st
  | idx :: group => run_index tasks idx st ≫= run_group tasks group
  end.

Fixpoint run_groups (tasks : list SSTTask) (groups : list (list nat)) (st : State) : option State :=
  match groups with
  | [] => Some st
  | g :: groups => run_group tasks g st ≫= run_groups tasks groups
  end.

(** [FLAGS_vcomp_global_unique_keys_deep_first] is [deep_first]. *)
Definition materialize (deep_first : bool) (tasks : list SSTTask) (order : list nat)
    (r : option Reservation.t) (m : option Membership.t) : option State :=
  run_groups tasks
    (task_groups (bool_decide (is_Some r)) (bool_decide (is_Some m)) deep_first tasks order)
    (start_state (length tasks) r m).

Definition materialize_ok (st : State) : bool := forallb ok (results st).

(** The sums over the results that the reports compare. *)
Definition sum_of (f : SSTResult -> Z) (rs : list SSTResult) : Z := foldl (fun n r => n +% f r) 0 rs.

(** ** Lemmas *)

Hypothesis (Hplain : Writer.keys_per_prefix_ opts = 0).
Hypothesis (Hsize : (8 <= Writer.key_size_ opts)%nat).
Hypothesis (Hios : forall i, io_ok (ios i)).

Lemma run_groups_concat tasks groups : forall st, run_groups tasks groups st = run_group tasks (mjoin groups) st.
Proof.
  assert (forall a b st, run_group tasks (a ++ b) st = run_group tasks a st ≫= run_group tasks b) as Happ.
  { induction a as [|i a IH]; intros b st; [done|]. cbn [app run_group]. destruct (run_index tasks i st); [|done]. apply IH. }
  induction groups as [|g groups IH]; intros st; [done|]. cbn [run_groups]. change (mjoin (g :: groups)) with (g ++ mjoin groups).
  rewrite Happ. destruct (run_group tasks g st); [|done]. apply IH.
Qed.

Lemma concat_insert_nil {A} (ls : list (list A)) i l : ls !! i = Some [] -> mjoin (<[i := l]> ls) ≡ₚ l ++ mjoin ls.
Proof.
  revert i. induction ls as [|x ls IH]; intros [|i] Hi; try done; cbn in Hi.
  - by injection Hi as ->.
  - change (mjoin (<[S i := l]> (x :: ls))) with (x ++ mjoin (<[i := l]> ls)). change (mjoin (x :: ls)) with (x ++ mjoin ls).
    rewrite (IH i Hi). rewrite !app_assoc. by rewrite (Permutation_app_comm x l).
Qed.

(** What has happened to a task: nothing, or a file that satisfies [P]. *)
Record progress (tasks : list SSTTask) (P : nat -> SSTTask -> SSTResult -> list Z -> Prop) (done : list nat) (st : State) : Prop := {
  p_results : length (results st) = length tasks;
  p_outputs : length (outputs st) = length tasks;
  p_done : forall i t, i ∈ done -> tasks !! i = Some t ->
             exists res l, results st !! i = Some res /\ outputs st !! i = Some l /\ P i t res l;
  p_todo : forall i, (i < length tasks)%nat -> i ∉ done -> outputs st !! i = Some [];
}.

Lemma start_progress tasks P r m : progress tasks P [] (start_state (length tasks) r m).
Proof.
  split; cbn; rewrite ?length_replicate; try done; [by intros i t ?%elem_of_nil|].
  intros i Hi _. by apply lookup_replicate_2.
Qed.

(** One more task. *)
Lemma progress_step tasks P done st i t res r m l : progress tasks P done st -> tasks !! i = Some t -> i ∉ done -> P i t res l ->
  let st' := mkState r m (<[i := res]> (results st)) (<[i := l]> (outputs st)) in
  progress tasks P (i :: done) st' /\ mjoin (outputs st') ≡ₚ l ++ mjoin (outputs st).
Proof.
  intros [H1 H2 H3 H4] Ht Hi HP st'. pose proof (lookup_lt_Some _ _ _ Ht) as Hlt. split.
  - split; cbn; rewrite ?length_insert; try done.
    + intros j t' [->|Hj]%elem_of_cons Ht'.
      * rewrite Ht in Ht'. injection Ht' as <-. exists res, l. rewrite !list_lookup_insert_eq by lia. done.
      * assert (i <> j) by congruence. rewrite !list_lookup_insert_ne by done. by apply H3.
    + intros j Hj [Hne Hj']%not_elem_of_cons. rewrite list_lookup_insert_ne by done. by apply H4.
  - cbn. apply concat_insert_nil. by apply H4.
Qed.

(** ** Globally unique keys *)

Lemma lt_sorted_NoDup l : StronglySorted Z.lt l -> NoDup l.
Proof.
  induction 1 as [|x l _ IH Hall]; constructor; [|done]. intros Hx. rewrite Forall_forall in Hall. specialize (Hall x Hx). lia.
Qed.

(** A list without repetitions that is as long as one that contains it. *)
Lemma subset_full (l l' : list Z) : NoDup l -> l ⊆ l' -> (length l' <= length l)%nat -> l' ⊆ l.
Proof.
  intros Hnd Hs Hlen k Hk. assert (l ⊆+ l') as Hsub by (by apply NoDup_submseteq).
  pose proof (submseteq_length_Permutation _ _ Hsub Hlen) as Hp. by rewrite Hp.
Qed.

Definition unique_file (i : nat) (t : SSTTask) (res : SSTResult) (l : list Z) : Prop :=
  good_result opts t (ios i) l res /\ Forall (fun k => in_range k t) l /\
  unique_shortfall res = num_entries (vsst t) - Z.of_nat (length l).

Record unique_inv (tasks : list SSTTask) (d : Z) (done : list nat) (st : State) : Prop := {
  u_progress : progress tasks unique_file done st;
  u_models : exists r, unique_reservation st = Some r /\ Reservation.key_domain r = d /\
               Reservation.models r (list_to_set (mjoin (outputs st)));
  u_members : membership st = None;
  u_nodup : NoDup (mjoin (outputs st));
  u_full : forall i t l k, i ∈ done -> tasks !! i = Some t -> outputs st !! i = Some l ->
             Z.of_nat (length l) < num_entries (vsst t) -> in_range k t -> k < d -> k ∈ mjoin (outputs st);
}.

Lemma unique_step tasks d done i st : Forall task_wf tasks -> (i < length tasks)%nat -> i ∉ done -> unique_inv tasks d done st ->
  exists st', run_index tasks i st = Some st' /\ unique_inv tasks d (i :: done) st'.
Proof.
  intros Hwf Hlt Hi [Hp (r & Hr & Hd & Hm) Hmem Hnd Hfull]. destruct (lookup_lt_is_Some_2 tasks i Hlt) as [t Ht].
  rewrite Forall_forall in Hwf. pose proof (Hwf t (list_elem_of_lookup_2 _ _ _ Ht)) as Hwt.
  destruct (reserve_file opts key_domain Hplain Hsize (ios i) t r _ (Hios i) Hwt Hm) as (res & r' & l & E & R1 & R2 & R3 & R4 & R5 & R6).
  rewrite Hd in R2, R3. set (free := Reservation.free_keys _ d _ _) in *.
  assert (Forall (fun k => in_range k t) l) as Hran.
  { apply Forall_forall. intros k Hk%R2. apply Reservation.elem_of_free_keys in Hk as [_ Hk]. unfold in_range, Bits.clamp in *. lia. }
  pose proof (g_sorted _ _ _ _ _ R1) as Hs. pose proof (lt_sorted_NoDup l Hs) as Hnl.
  destruct (progress_step tasks unique_file done st i t res (Some r') None l Hp Ht Hi) as [Hp' Hperm]; [by split_and!|].
  exists (mkState (Some r') None (<[i := res]> (results st)) (<[i := l]> (outputs st))). split.
  { unfold run_index. by rewrite Ht, Hr, Hmem, E. }
  split; cbn [unique_reservation membership outputs]; try done.
  - exists r'. split_and!; [done|congruence|]. cbn [outputs] in Hperm. rewrite Hperm, list_to_set_app_L. exact R6.
  - rewrite Hperm. apply NoDup_app. split_and!; [done| |done]. intros k Hk%R2 Hin. apply Reservation.elem_of_free_keys in Hk as [Hk _].
    by apply Hk, elem_of_list_to_set.
  - intros j tj lj k Hj Htj Hlj Hsh Hk Hkd. rewrite Hperm, elem_of_app. apply elem_of_cons in Hj as [->|Hj].
    + rewrite Ht in Htj. injection Htj as <-. rewrite list_lookup_insert_eq in Hlj by (rewrite (p_outputs _ _ _ _ Hp); done).
      injection Hlj as <-. destruct (decide (k ∈ mjoin (outputs st))) as [|Hn]; [by right|left].
      apply (subset_full l free Hnl R2); [lia|]. apply Reservation.elem_of_free_keys.
      split; [by rewrite elem_of_list_to_set|]. unfold in_range, Bits.clamp in *. lia.
    + assert (i <> j) by congruence. rewrite list_lookup_insert_ne in Hlj by done. right. by eapply Hfull.
Qed.

Lemma run_group_inv tasks (Q : list nat -> State -> Prop) :
  (forall done i st, (i < length tasks)%nat -> i ∉ done -> Q done st -> exists st', run_index tasks i st = Some st' /\ Q (i :: done) st') ->
  forall group done st, Forall (fun i => (i < length tasks)%nat) group -> NoDup (group ++ done) -> Q done st ->
  exists st', run_group tasks group st = Some st' /\ Q (reverse group ++ done) st'.
Proof.
  intros Hstep. induction group as [|i group IH]; intros done st Hlt Hnd HQ; cbn [run_group]; [by exists st|].
  apply Forall_cons in Hlt as [Hi Hlt]. cbn [app] in Hnd. apply NoDup_cons in Hnd as [Hni Hnd].
  destruct (Hstep done i st Hi) as (st1 & -> & HQ1); [set_solver|done|]. cbn [mbind option_bind].
  destruct (IH (i :: done) st1 Hlt) as (st2 & -> & HQ2); [|done|].
  - rewrite <- Permutation_middle. constructor; [done|done].
  - exists st2. split; [done|]. by rewrite reverse_cons, <- app_assoc.
Qed.

(** Running all the tasks, whatever the groups. *)
Lemma materialize_inv (Q : list nat -> State -> Prop) deep tasks order r m :
  (forall done i st, (i < length tasks)%nat -> i ∉ done -> Q done st -> exists st', run_index tasks i st = Some st' /\ Q (i :: done) st') ->
  order ≡ₚ seq 0 (length tasks) -> Q [] (start_state (length tasks) r m) ->
  exists st done, materialize deep tasks order r m = Some st /\ (forall i, (i < length tasks)%nat -> i ∈ done) /\ Q done st.
Proof.
  intros Hstep Hord HQ. unfold materialize. rewrite run_groups_concat. set (g := mjoin _).
  assert (g ≡ₚ seq 0 (length tasks)) as Hg by (by apply task_groups_perm).
  destruct (run_group_inv tasks Q Hstep g [] (start_state (length tasks) r m)) as (st & Hrun & HQ'); [| |done|].
  - apply Forall_forall. intros i Hi. rewrite Hg in Hi. apply elem_of_seq in Hi. lia.
  - rewrite app_nil_r, Hg. apply NoDup_seq.
  - exists st, (reverse g ++ []). split_and!; [done| |done]. intros i Hi. rewrite app_nil_r. apply elem_of_reverse.
    rewrite Hg. apply elem_of_seq. lia.
Qed.

Lemma sum_of_outputs f rs ls : Forall2 (fun r (l : list Z) => f r = Z.of_nat (length l)) rs ls ->
  Z.of_nat (length (mjoin ls)) <= u64_max -> sum_of f rs = Z.of_nat (length (mjoin ls)).
Proof.
  intros HF Hb. unfold sum_of.
  assert (forall z, 0 <= z -> z + Z.of_nat (length (mjoin ls)) <= u64_max ->
    foldl (fun n r => n +% f r) z rs = z + Z.of_nat (length (mjoin ls))) as Hacc; [|rewrite Hacc; lia]. clear Hb.
  induction HF as [|r l rs ls Hr _ IH]; intros z Hz Hb; cbn [foldl]; [cbn; lia|].
  change (mjoin (l :: ls)) with (l ++ mjoin ls) in *. rewrite length_app in *.
  rewrite Hr, u64_small by (unfold is_u64; unfold u64_max in *; lia). rewrite IH by lia. lia.
Qed.

(** Every task has its result and its keys. *)
Lemma progress_Forall2 tasks P done st (R : SSTResult -> list Z -> Prop) : progress tasks P done st ->
  (forall i, (i < length tasks)%nat -> i ∈ done) -> (forall i t res l, P i t res l -> R res l) ->
  Forall2 R (results st) (outputs st).
Proof.
  intros [H1 H2 H3 _] Hall HR. apply Forall2_same_length_lookup_2; [congruence|]. intros i res l Hres Hl.
  pose proof (lookup_lt_Some _ _ _ Hres) as Hlt. destruct (lookup_lt_is_Some_2 tasks i ltac:(lia)) as [t Ht].
  destruct (H3 i t (Hall i ltac:(lia)) Ht) as (res' & l' & E1 & E2 & HP). apply (HR i t). congruence.
Qed.

Lemma progress_ok tasks P done st : progress tasks P done st -> (forall i, (i < length tasks)%nat -> i ∈ done) ->
  (forall i t res l, P i t res l -> ok res = true) -> materialize_ok st = true.
Proof.
  intros Hp Hall HR. unfold materialize_ok. apply forallb_forall. intros res Hres%list_elem_of_In.
  apply list_elem_of_lookup in Hres as [i Hi]. pose proof (progress_Forall2 tasks P done st (fun r _ => ok r = true) Hp Hall HR) as HF.
  destruct (Forall2_lookup_l _ _ _ _ _ HF Hi) as (l & _ & Hok). done.
Qed.

Lemma mjoin_start n : mjoin (replicate n ([] : list Z)) = [].
Proof. by induction n. Qed.

Lemma unique_run deep tasks order r : Forall task_wf tasks -> order ≡ₚ seq 0 (length tasks) -> Reservation.models r ∅ ->
  exists st done, materialize deep tasks order (Some r) None = Some st /\ (forall i, (i < length tasks)%nat -> i ∈ done) /\
    unique_inv tasks (Reservation.key_domain r) done st.
Proof.
  intros Hwf Hord Hr. apply materialize_inv; [|done|].
  - intros done i st Hi Hn HQ. by apply unique_step.
  - split; cbn; rewrite ?mjoin_start; [apply start_progress|by exists r|done|constructor|by intros i t l k ?%elem_of_nil].
Qed.

(** C14: With a reservation no key is written twice: every file of Phase 2 is
    written, with ascending keys of its range; over all files, whatever the group
    order, no key id repeats, and the taken bits number exactly the written
    entries, which is the check the reports make.  A file holds fewer entries than
    planned only if every key id of its range was handed out. *)
Theorem unique_materialization deep tasks order r (Hwf : Forall task_wf tasks) (Hord : order ≡ₚ seq 0 (length tasks))
    (Hr : Reservation.models r ∅) :
  exists st r', materialize deep tasks order (Some r) None = Some st /\ materialize_ok st = true /\
    unique_reservation st = Some r' /\ NoDup (mjoin (outputs st)) /\
    Reservation.TakenTotal r' = sum_of put_successes (results st) /\
    forall i t, tasks !! i = Some t -> exists res l, results st !! i = Some res /\ outputs st !! i = Some l /\
      good_result opts t (ios i) l res /\ Forall (fun k => in_range k t) l /\
      unique_shortfall res = num_entries (vsst t) - Z.of_nat (length l) /\
      (0 < unique_shortfall res -> forall k, in_range k t -> k < Reservation.key_domain r -> k ∈ mjoin (outputs st)).
Proof.
  destruct (unique_run deep tasks order r Hwf Hord Hr) as (st & done & E & Hall & [Hp (r' & Hr' & Hd & Hm) _ Hnd Hfull]).
  exists st, r'. split_and!; try done.
  - apply (progress_ok tasks unique_file done); try done. intros i t res l (Hg & _). by destruct Hg.
  - rewrite (sum_of_outputs _ _ (outputs st)).
    + destruct (Reservation.queries_spec r' _ 0 0 0 Hm ltac:(done) ltac:(by vm_compute)) as (_ & _ & _ & ->).
      by rewrite size_list_to_set.
    + apply (progress_Forall2 tasks unique_file done); try done. intros i t res l (Hg & _). by destruct Hg.
    + pose proof (Bits.holds_size _ _ _ Hm) as Hsz. rewrite size_list_to_set in Hsz by done. lia.
  - intros i t Ht. destruct (p_done _ _ _ _ Hp i t (Hall i (lookup_lt_Some _ _ _ Ht)) Ht) as (res & l & H1 & H2 & H3 & H4 & H5).
    exists res, l. split_and!; try done. intros Hsh k Hk Hkd. eapply Hfull; [|done|done| |done|done]; [|lia].
    by apply Hall, (lookup_lt_Some _ _ _ Ht).
Qed.

(** ** Exact membership *)

(** The products of [SpreadBatch] stay within 64 bits. *)
Definition spread_fits (t : SSTTask) : Prop :=
  num_entries (vsst t) * (materialize_key_max t - materialize_key_min t + 1) <= u64_max.

(** A file of ingested keys, [f] of which it is the first to hold. *)
Definition member_file (s : gset Z) (i : nat) (t : SSTTask) (res : SSTResult) (l f : list Z) : Prop :=
  good_result opts t (ios i) l res /\ f ⊆ l /\ Forall (fun k => in_range k t /\ k ∈ s) l /\
  Z.of_nat (length f) <= num_entries (vsst t) /\
  unique_shortfall res = num_entries (vsst t) - Z.of_nat (length l).

Record members_inv (tasks : list SSTTask) (s : gset Z) (d : Z) (done : list nat) (fs : list (list Z)) (st : State) : Prop := {
  i_progress : progress tasks (fun i t res l => exists f, fs !! i = Some f /\ member_file s i t res l f) done st;
  i_length : length fs = length tasks;
  i_todo : forall i, (i < length tasks)%nat -> i ∉ done -> fs !! i = Some [];
  i_reservation : unique_reservation st = None;
  i_models : exists m, membership st = Some m /\ Membership.key_domain m = d /\ Membership.claims_enabled m = true /\
               Membership.models m s (list_to_set (mjoin fs));
  i_nodup : NoDup (mjoin fs);
  i_full : forall i t f k, i ∈ done -> tasks !! i = Some t -> fs !! i = Some f ->
             Z.of_nat (length f) < num_entries (vsst t) -> in_range k t -> k < d -> k ∈ s -> k ∈ mjoin fs;
}.

Lemma members_step tasks s d done i fs st : Forall task_wf tasks -> Forall spread_fits tasks -> (i < length tasks)%nat -> i ∉ done ->
  members_inv tasks s d done fs st ->
  exists st' f, run_index tasks i st = Some st' /\ members_inv tasks s d (i :: done) (<[i := f]> fs) st'.
Proof.
  intros Hwf Hfit Hlt Hi [Hp Hlen Htodo Hres (m & Hm & Hd & He & HM) Hnd Hfull]. destruct (lookup_lt_is_Some_2 tasks i Hlt) as [t Ht].
  rewrite Forall_forall in Hwf, Hfit. pose proof (list_elem_of_lookup_2 _ _ _ Ht) as Hin.
  destruct (members_file opts key_domain Hplain Hsize (ios i) t m s _ (Hios i) (Hwf t Hin) HM He (Hfit t Hin))
    as (res & m' & f & g & l & E & R1 & R2 & R3 & R4 & R5 & R6 & R7 & R8 & R9 & R10 & R11).
  exists (mkState None (Some m') (<[i := res]> (results st)) (<[i := l]> (outputs st))), f. split.
  { unfold run_index. by rewrite Ht, Hres, Hm, E. }
  assert (mjoin (<[i := f]> fs) ≡ₚ f ++ mjoin fs) as Hperm by (apply concat_insert_nil; by apply Htodo).
  assert (forall k, k ∈ fresh_keys t m s (list_to_set (mjoin fs)) <->
    (k ∈ s /\ k ∉ mjoin fs) /\ materialize_key_min t <= k <= Bits.clamp d (materialize_key_max t)) as Hfresh.
  { intros k. unfold fresh_keys. rewrite elem_keys_of, He, Hd. unfold Membership.in_mode. 
    assert ((k ∈ (list_to_set (mjoin fs) : gset Z)) <-> k ∈ mjoin fs) as Hset by apply elem_of_list_to_set. tauto. }
  assert (forall k, k ∈ l -> in_range k t /\ k ∈ s) as Hl.
  { intros k Hk. rewrite R2, elem_of_app in Hk. unfold in_range. destruct Hk as [Hk%R3|Hk%R4].
    - apply Hfresh in Hk. unfold Bits.clamp in Hk. intuition lia.
    - unfold stale_keys in Hk. apply elem_keys_of in Hk. unfold Membership.in_mode, Bits.clamp in Hk. intuition lia. }
  assert (NoDup f) as Hnf by (pose proof (lt_sorted_NoDup l (g_sorted _ _ _ _ _ R1)) as Hn; rewrite R2 in Hn; by apply NoDup_app in Hn as (? & _)).
  split; cbn [unique_reservation membership outputs]; try done.
  - apply (progress_step _ _ done st i t res None (Some m') l); try done.
    + destruct Hp as [H1 H2 H3 H4]. split; try done. intros j tj Hj Htj. destruct (H3 j tj Hj Htj) as (rj & lj & Q1 & Q2 & fj & Q3 & Q4).
      exists rj, lj. split_and!; try done. exists fj. rewrite list_lookup_insert_ne by congruence. done.
    + exists f. rewrite list_lookup_insert_eq by lia. split; [done|]. split_and!; try done; [|by apply Forall_forall|lia].
      intros k Hk. rewrite R2, elem_of_app. by left.
  - by rewrite length_insert.
  - intros j Hj [Hne Hj']%not_elem_of_cons. rewrite list_lookup_insert_ne by done. by apply Htodo.
  - exists m'. split_and!; [done|congruence|done|]. by rewrite Hperm, list_to_set_app_L.
  - rewrite Hperm. apply NoDup_app. split_and!; [done| |done]. intros k Hk%R3%Hfresh. tauto.
  - intros j tj fj k Hj Htj Hfj Hsh Hk Hkd Hks. rewrite Hperm, elem_of_app. apply elem_of_cons in Hj as [->|Hj].
    + rewrite Ht in Htj. injection Htj as <-. rewrite list_lookup_insert_eq in Hfj by lia. injection Hfj as <-.
      destruct (decide (k ∈ mjoin fs)) as [|Hn]; [by right|left]. rewrite (R7 ltac:(lia)). apply Hfresh. unfold in_range, Bits.clamp in *. split; [done|lia].
    + rewrite list_lookup_insert_ne in Hfj by congruence. right. by eapply Hfull.
Qed.

Lemma members_run deep tasks order m s : Forall task_wf tasks -> Forall spread_fits tasks -> order ≡ₚ seq 0 (length tasks) ->
  Membership.models m s ∅ -> Membership.claims_enabled m = true ->
  exists st done, materialize deep tasks order None (Some m) = Some st /\ (forall i, (i < length tasks)%nat -> i ∈ done) /\
    exists fs, members_inv tasks s (Membership.key_domain m) done fs st.
Proof.
  intros Hwf Hfit Hord Hm He.
  apply (materialize_inv (fun done st => exists fs, members_inv tasks s (Membership.key_domain m) done fs st)); [|done|].
  - intros done i st Hi Hn [fs HQ]. destruct (members_step tasks s _ done i fs st Hwf Hfit Hi Hn HQ) as (st' & f & ? & ?). eauto.
  - exists (replicate (length tasks) []). split; cbn; rewrite ?mjoin_start; [apply start_progress|by rewrite length_replicate
      |intros i Hi _; by apply lookup_replicate_2|done|by exists m|constructor|by intros i t l k ?%elem_of_nil].
Qed.

(** C20: With the exact membership every materialized file holds ingested keys
    of its range only, in ascending order.  Each key is claimed once, by the first
    file that holds it; the claimed count is the number of distinct keys claimed,
    and a file leaves an ingested key of its range unclaimed only when it is itself
    full of keys it claimed, so no room for fresh keys is spent on stale copies. *)
Theorem membership_materialization deep tasks order m s (Hwf : Forall task_wf tasks) (Hfit : Forall spread_fits tasks)
    (Hord : order ≡ₚ seq 0 (length tasks)) (Hm : Membership.models m s ∅) (He : Membership.claims_enabled m = true) :
  exists st m' fs, materialize deep tasks order None (Some m) = Some st /\ materialize_ok st = true /\
    membership st = Some m' /\ Membership.models m' s (list_to_set (mjoin fs)) /\ NoDup (mjoin fs) /\
    Membership.ClaimedTotal m' = Z.of_nat (length (mjoin fs)) /\
    forall i t, tasks !! i = Some t -> exists res l f, results st !! i = Some res /\ outputs st !! i = Some l /\ fs !! i = Some f /\
      good_result opts t (ios i) l res /\ f ⊆ l /\ Forall (fun k => in_range k t /\ k ∈ s) l /\
      unique_shortfall res = num_entries (vsst t) - Z.of_nat (length l) /\
      forall k, in_range k t -> k < Membership.key_domain m -> k ∈ s -> k ∉ mjoin fs -> Z.of_nat (length f) = num_entries (vsst t).
Proof.
  destruct (members_run deep tasks order m s Hwf Hfit Hord Hm He)
    as (st & done & E & Hall & fs & [Hp Hlen _ _ (m' & Hm' & Hd & He' & HM) Hnd Hfull]).
  exists st, m', fs. split_and!; try done.
  - eapply progress_ok; [done|done|]. intros i t res l (f & _ & Hg & _). by destruct Hg.
  - pose proof (Membership.m_claimed _ _ _ HM) as Hc. unfold Membership.ClaimedTotal, Membership.claims_enabled in *.
    destruct (Membership.claimed_ m') as [ws|]; [|done]. cbn [from_option]. erewrite Bits.total_holds by done. by rewrite size_list_to_set.
  - intros i t Ht. pose proof (Hall i (lookup_lt_Some _ _ _ Ht)) as Hi.
    destruct (p_done _ _ _ _ Hp i t Hi Ht) as (res & l & H1 & H2 & f & H3 & H4 & H5 & H6 & H7 & H8).
    exists res, l, f. split_and!; try done. intros k Hk Hkd Hks Hkn.
    destruct (decide (Z.of_nat (length f) < num_entries (vsst t))) as [Hsh|]; [|lia]. destruct Hkn. by eapply Hfull.
Qed.

(** ** All the modes *)

Record plain_inv (tasks : list SSTTask) (done : list nat) (st : State) : Prop := {
  l_progress : progress tasks (fun i t res l => good_result opts t (ios i) l res) done st;
  l_reservation : unique_reservation st = None;
  l_members : membership st = None;
}.

Lemma plain_run deep tasks order : Forall task_wf tasks -> order ≡ₚ seq 0 (length tasks) ->
  exists st done, materialize deep tasks order None None = Some st /\ (forall i, (i < length tasks)%nat -> i ∈ done) /\ plain_inv tasks done st.
Proof.
  intros Hwf Hord. apply materialize_inv; [|done|split; [apply start_progress|done|done]].
  intros done i st Hi Hn [Hp Hr Hm]. destruct (lookup_lt_is_Some_2 tasks i Hi) as [t Ht].
  rewrite Forall_forall in Hwf. pose proof (Hwf t (list_elem_of_lookup_2 _ _ _ Ht)) as Hwt.
  destruct (plain_file opts key_domain Hplain Hsize (ios i) t (Hios i) Hwt) as (res & l & E & Hg & _).
  exists (mkState None None (<[i := res]> (results st)) (<[i := l]> (outputs st))). split.
  - unfold run_index. by rewrite Ht, Hr, Hm, E.
  - split; [|done|done]. by apply (progress_step _ _ done st i t).
Qed.

(** Every task has a file, written as its result says. *)
Record materialized (tasks : list SSTTask) (st : State) : Prop := {
  d_length : length (results st) = length tasks;
  d_file : forall i t, tasks !! i = Some t ->
             exists res l, results st !! i = Some res /\ outputs st !! i = Some l /\ good_result opts t (ios i) l res;
}.

Lemma progress_materialized tasks P done st : progress tasks P done st -> (forall i, (i < length tasks)%nat -> i ∈ done) ->
  (forall i t res l, P i t res l -> good_result opts t (ios i) l res) -> materialize_ok st = true /\ materialized tasks st.
Proof.
  intros Hp Hall HP. split; [eapply progress_ok; [done|done|]; intros i t res l Hg%HP; by destruct Hg|].
  split; [by apply Hp|]. intros i t Ht. destruct (p_done _ _ _ _ Hp i t (Hall i (lookup_lt_Some _ _ _ Ht)) Ht) as (res & l & H1 & H2 & H3).
  exists res, l. split_and!; [done|done|]. by apply HP.
Qed.

(** The bitmaps Phase 2 may start with. *)
Definition mode_ok (tasks : list SSTTask) (r : option Reservation.t) (m : option Membership.t) : Prop :=
  match r, m with
  | None, None => True
  | Some r, None => Reservation.models r ∅
  | None, Some m => Forall spread_fits tasks /\ Membership.claims_enabled m = true /\ exists s, Membership.models m s ∅
  | Some _, Some _ => False
  end.

(** In every mode all the files are written. *)
Lemma materialize_total deep tasks order r m : Forall task_wf tasks -> order ≡ₚ seq 0 (length tasks) -> mode_ok tasks r m ->
  exists st, materialize deep tasks order r m = Some st /\ materialize_ok st = true /\ materialized tasks st.
Proof.
  intros Hwf Hord Hmode. destruct r as [r|], m as [m|]; cbn in Hmode; [done|..].
  - destruct (unique_run deep tasks order r Hwf Hord Hmode) as (st & done & E & Hall & [Hp _ _ _ _]). exists st. split; [done|].
    apply (progress_materialized _ _ _ _ Hp Hall). by intros i t res l (? & _).
  - destruct Hmode as (Hfit & He & s & Hm). destruct (members_run deep tasks order m s Hwf Hfit Hord Hm He) as (st & done & E & Hall & fs & [Hp _ _ _ _ _ _]).
    exists st. split; [done|]. apply (progress_materialized _ _ _ _ Hp Hall). by intros i t res l (f & _ & ? & _).
  - destruct (plain_run deep tasks order Hwf Hord) as (st & done & E & Hall & [Hp _ _]). exists st. split; [done|].
    by apply (progress_materialized _ _ _ _ Hp Hall).
Qed.

End phase2.

(** ** Instances *)

(** Two files on top of each other; the deeper one shares the range of the first. *)
Definition sample_tasks : list SSTTask := 
  [mkTask 7 100 1 0 70 (model_vsst [0; 30; 70]); mkTask 8 101 2 5 99 (model_vsst [5; 30; 60; 99])].

Lemma sample_tasks_wf : Forall task_wf sample_tasks.
Proof.
  repeat (apply Forall_cons; split); [..|constructor];
  (split; [by vm_compute|by vm_compute|by vm_compute|apply (bool_decide_unpack _); by vm_compute]).
Qed.

Lemma sample_tasks_fit : Forall spread_fits sample_tasks.
Proof. repeat (apply Forall_cons; split); [..|constructor]; by vm_compute. Qed.

Definition sample_reservation : Reservation.t := default (Reservation.mk [] 0) (Reservation.Create 100 1000).

Lemma sample_reservation_empty : Reservation.models sample_reservation ∅.
Proof. apply (Reservation.Create_models 100 1000); by vm_compute. Qed.

Lemma unique_materialization_witness :
  outputs <$> materialize sample_opts 100 (fun _ => sample_io) false sample_tasks [0; 1]%nat (Some sample_reservation) None =
    Some [[0; 35; 70]; [5; 36; 68; 99]] /\
  exists st r', materialize sample_opts 100 (fun _ => sample_io) false sample_tasks [0; 1]%nat (Some sample_reservation) None = Some st /\
    unique_reservation st = Some r' /\ NoDup (mjoin (outputs st)) /\
    Reservation.TakenTotal r' = sum_of put_successes (results st).
Proof.
  split; [by vm_compute|].
  destruct (unique_materialization sample_opts 100 (fun _ => sample_io) eq_refl ltac:(cbn; lia) (fun _ => sample_io_ok)
    false sample_tasks [0; 1]%nat sample_reservation sample_tasks_wf (Permutation_refl _) sample_reservation_empty)
    as (st & r' & H1 & _ & H2 & H3 & H4 & _).
  exists st, r'. exact (conj H1 (conj H2 (conj H3 H4))).
Defined.

Lemma membership_materialization_witness :
  outputs <$> materialize sample_opts 100 (fun _ => sample_io) false sample_tasks [0; 1]%nat None (Some Membership.sample) =
    Some [[1; 5; 64]; [5; 63; 70; 90]] /\
  exists st m' (fs : list (list Z)), materialize sample_opts 100 (fun _ => sample_io) false sample_tasks [0; 1]%nat None (Some Membership.sample) = Some st /\
    membership st = Some m' /\ NoDup (mjoin fs) /\ Membership.ClaimedTotal m' = Z.of_nat (length (mjoin fs)).
Proof.
  split; [by vm_compute|].
  destruct (membership_materialization sample_opts 100 (fun _ => sample_io) eq_refl ltac:(cbn; lia) (fun _ => sample_io_ok)
    false sample_tasks [0; 1]%nat Membership.sample (list_to_set Membership.sample_keys) sample_tasks_wf
    sample_tasks_fit (Permutation_refl _) Membership.membership_sample eq_refl)
    as (st & m' & fs & H1 & _ & H2 & _ & H3 & H4 & _).
  exists st, m', fs. exact (conj H1 (conj H2 (conj H3 H4))).
Defined.

End Phase2.
