(* ===== verification/Interleave.v ===== *)
(** * Workers side by side

    The threads of one group of Phase 2 in [FillVirtual] of [tools/db_bench_tool.cc]
    with a key reservation: each file is a job that advances one iteration of its
    writing loop at a time, on the one shared bitmap, and the steps of different jobs
    come in any order.  A worker takes the next index of the group and runs that file
    to its end, so every execution of the threads is one of these interleavings.  One
    iteration is one step: what it reads of the bitmap are bits of its own range, which
    no other job of the group changes. *)

From Stdlib Require Import ZArith Lia Sorted SpecFloat.
From stdpp Require Import base numbers list option gmap relations.
From S2P Require Import Prelude FloatModel SizeModel Plr Kmv Version Bitmap Reservation Membership Tasks Writer Worker Phase2.

Local Open Scope Z_scope.

Module Interleave.
Import Tasks Worker Phase2.

(** ** Jobs *)

(** A file that waits, is being written, or is done. *)
Inductive Job :=
| JStart
| JLoop (n : nat) (pos hi target free short : Z) (seg : nat) (cap : Z) (snk : Sink)
| JDone (res : SSTResult) (l : list Z).

Section interleave.
Context (opts : Writer.KeyOptions) (key_domain : Z).

(** Up to the opening of the file. *)
Definition jstart (io : Io) (t : SSTTask) (r : Reservation.t) : Job :=
  let planned := num_entries (vsst t) in
  if decide (planned = 0) then JDone (no_file t true 0 0 skipped zero_planned_entries) []
  else if Empty (plr_model (vsst t)) then JDone (no_file t false 0 0 invalid_model empty_plr) []
  else if decide (materialize_key_max t < materialize_key_min t)
  then JDone (no_file t false 0 0 invalid_model empty_materialize_range) []
  else
    match reserve_range t (Some r) with
    | inl res => JDone res []
    | inr (hi, target, free, cap) =>
        match Writer.Open (open_ok io) Writer.unopened with
        | (OK, w) => JLoop (Z.to_nat planned) 0 hi target free (planned -% target) 0 cap (start_sink w)
        | (_, _) => JDone (no_file t false free (planned -% target) open_failed none) []
        end
    end.

(** The end of the file. *)
Definition jclose (io : Io) (t : SSTTask) (free short : Z) (src : Source) (snk : Sink) (why : Reason)
    : option (Job * Reservation.t) :=
  match reservation src, close_file t io None free short src snk why with
  | Some r, Some (res, _) => Some (JDone res (ids snk), r)
  | _, _ => None
  end.

Definition jstep (io : Io) (t : SSTTask) (j : Job) (r : Reservation.t) : option (Job * Reservation.t) :=
  match j with
  | JStart => Some (jstart io t r, r)
  | JLoop O pos hi target free short seg cap snk =>
      jclose io t free short (mkSource seg cap (Some r) None) snk none
  | JLoop (S n) pos hi target free short seg cap snk =>
      match choose t None (materialize_key_min t) hi target pos (mkSource seg cap (Some r) None) snk with
      | None => None
      | Some (src, inl why) => jclose io t free short src snk why
      | Some (src, inr k) =>
          match emit opts key_domain io k snk with
          | None => None
          | Some (snk, Some why) => jclose io t free short src snk why
          | Some (snk, None) =>
              match reservation src with
              | Some r => Some (JLoop n (pos + 1) hi target free short (seg_idx src) (unique_cap src) snk, r)
              | None => None
              end
          end
      end
  | JDone _ _ => None
  end.

(** One job on its own. *)
Definition alone (io : Io) (t : SSTTask) (x y : Job * Reservation.t) : Prop := jstep io t x.1 x.2 = Some y.

(** A group of task indices: some job that is not done takes a step on the shared
    bitmap. *)
Inductive gstep (ios : nat -> Io) (tasks : list SSTTask) (group : list nat)
    : list Job * Reservation.t -> list Job * Reservation.t -> Prop :=
| gstep_job p idx t j j' js r r' : group !! p = Some idx -> tasks !! idx = Some t -> js !! p = Some j ->
    jstep (ios idx) t j r = Some (j', r') -> gstep ios tasks group (js, r) (<[p := j']> js, r').

(** ** A job alone is the task *)

Lemma choose_source t lo hi target pos seg cap r snk src c :
  choose t None lo hi target pos (mkSource seg cap (Some r) None) snk = Some (src, c) ->
  exists r', src = mkSource (seg_idx src) (unique_cap src) (Some r') None.
Proof.
  unfold choose. cbn [reservation members]. destruct (decide _); [intros [= <- <-]; by exists r|].
  cbn [seg_idx unique_cap]. destruct (model_pick _ _ _) as [[k idx]|]; [|done]. rewrite decide_False by done. cbn [reservation members].
  destruct (reserve _ _ _ _ _ _ _ _) as [[[r' cap'] c']|]; [|done]. intros [= <- <-]. by exists r'.
Qed.

Lemma loop_alone io t hi target free short n : forall pos seg cap r snk src snk' why res m,
  write_loop opts key_domain n t io None (materialize_key_min t) hi target pos (mkSource seg cap (Some r) None) snk = Some (src, snk', why) ->
  close_file t io None free short src snk' why = Some (res, m) ->
  exists r', reservation src = Some r' /\
    rtc (alone io t) (JLoop n pos hi target free short seg cap snk, r) (JDone res (ids snk'), r').
Proof.
  induction n as [|n IH]; intros pos seg cap r snk src snk' why res m Hw Hc; cbn [write_loop] in Hw.
  - injection Hw as <- <- <-. exists r. split; [done|]. apply rtc_once. unfold alone. cbn. unfold jclose. cbn [reservation]. by rewrite Hc.
  - destruct (choose _ _ _ _ _ _ _ _) as [[src1 [why1|k]]|] eqn:Ech; [| |done]; pose proof (choose_source _ _ _ _ _ _ _ _ _ _ _ Ech) as [r1 E1].
    + injection Hw as <- <- <-. exists r1. split; [by rewrite E1|]. apply rtc_once. unfold alone. cbn. rewrite Ech. unfold jclose. by rewrite Hc, E1.
    + destruct (emit _ _ _ _ _) as [[snk1 [why1|]]|] eqn:Eem; [| |done].
      * injection Hw as <- <- <-. exists r1. split; [by rewrite E1|]. apply rtc_once. unfold alone. cbn. rewrite Ech, Eem. unfold jclose. by rewrite Hc, E1.
      * rewrite E1 in Hw. destruct (IH _ _ _ _ _ _ _ _ _ _ Hw Hc) as (r' & Hr' & Hrun). exists r'. split; [done|].
        eapply rtc_l; [|exact Hrun]. unfold alone. cbn. rewrite Ech, Eem. by rewrite E1.
Qed.

Lemma task_alone io t r res r' l : run_task opts key_domain io t (Some r) None = Some (res, Some r', None, l) ->
  rtc (alone io t) (JStart, r) (JDone res l, r').
Proof.
  unfold run_task. intros H. eapply rtc_l; [done|]. cbn [fst snd]. unfold jstart. cbv zeta.
  destruct (decide (num_entries (vsst t) = 0)); [by injection H as <- <- <-|].
  destruct (Empty (plr_model (vsst t))); [by injection H as <- <- <-|].
  destruct (decide (materialize_key_max t < materialize_key_min t)); [by injection H as <- <- <-|].
  destruct (reserve_range t (Some r)) as [res0|[[[hi target] free] cap]]; [by injection H as <- <- <-|].
  unfold write_file in H. destruct (Writer.Open (open_ok io) Writer.unopened) as [s w]. destruct s; try by injection H as <- <- <-.
  destruct (write_loop _ _ _ _ _ _ _ _ _ _ _ _) as [[[src snk] why]|] eqn:Hw; [|done].
  destruct (close_file _ _ _ _ _ _ _ _) as [[res1 m1]|] eqn:Hc; [|done]. injection H as <- Hr Hm <-.
  destruct (loop_alone _ _ _ _ _ _ _ _ _ _ _ _ _ _ _ _ _ Hw Hc) as (r1 & Hr1 & Hrun). rewrite Hr1 in Hr. by injection Hr as <-.
Qed.

(** ** What a job reads and writes *)

(** Two sets of taken keys that a file with the range [lo, hi] cannot tell apart. *)
Definition agree (lo hi : Z) (s1 s2 : gset Z) : Prop := forall k, lo <= k <= hi -> k ∈ s1 <-> k ∈ s2.

Lemma agree_union lo hi s1 s2 f : agree lo hi s1 s2 -> agree lo hi (f ∪ s1) (f ∪ s2).
Proof. intros Ha k Hk. specialize (Ha k Hk). set_solver. Qed.

Lemma free_keys_agree lo hi s1 s2 d first last : agree lo hi s1 s2 -> lo <= first -> last <= hi ->
  Reservation.free_keys s1 d first last = Reservation.free_keys s2 d first last.
Proof.
  intros Ha Hf Hl. unfold Reservation.free_keys. apply list_filter_ext_in. intros k Hk. apply elem_of_seqZ in Hk.
  unfold Bits.clamp in Hk. rewrite (Ha k); [done|lia].
Qed.

(** Two bitmaps over one domain that agree on a range. *)
Record similar (lo hi : Z) (r1 r2 : Reservation.t) (s1 s2 : gset Z) : Prop := {
  m_left : Reservation.models r1 s1;
  m_right : Reservation.models r2 s2;
  m_domain : Reservation.key_domain r1 = Reservation.key_domain r2;
  m_agree : agree lo hi s1 s2;
}.

Lemma queries_local lo hi r1 r2 s1 s2 first last rank : similar lo hi r1 r2 s1 s2 -> 0 <= lo <= first -> last <= hi -> is_u64 rank ->
  Reservation.CountFree first last r1 = Reservation.CountFree first last r2 /\
  Reservation.NextFree first last r1 = Reservation.NextFree first last r2 /\
  Reservation.SelectFree first last rank r1 = Reservation.SelectFree first last rank r2.
Proof.
  intros [H1 H2 Hd Ha] Hf Hl Hrank.
  destruct (Reservation.queries_spec r1 s1 first last rank H1 ltac:(lia) Hrank) as (-> & -> & -> & _).
  destruct (Reservation.queries_spec r2 s2 first last rank H2 ltac:(lia) Hrank) as (-> & -> & -> & _).
  rewrite Hd, (free_keys_agree lo hi s1 s2) by (done || lia). done.
Qed.

Lemma NextFree_range r s first last k : Reservation.models r s -> 0 <= first -> Reservation.NextFree first last r = Some k -> first <= k <= last.
Proof.
  intros Hr Hf. destruct (Reservation.queries_spec r s first last 0 Hr Hf ltac:(by vm_compute)) as (_ & -> & _).
  intros Hk%head_Some_elem_of%Reservation.elem_of_free_keys. unfold Bits.clamp in Hk. lia.
Qed.

Lemma Take_local lo hi r1 r2 s1 s2 k : similar lo hi r1 r2 s1 s2 -> 0 <= lo <= k -> k <= hi -> k < Reservation.key_domain r1 ->
  exists b r1' r2', Reservation.Take k r1 = Some (b, r1') /\ Reservation.Take k r2 = Some (b, r2') /\
    similar lo hi r1' r2' ({[k]} ∪ s1) ({[k]} ∪ s2) /\ Reservation.key_domain r1' = Reservation.key_domain r1.
Proof.
  intros [H1 H2 Hd Ha] Hk Hkh Hkd.
  destruct (Reservation.Take_models k r1 s1 H1 ltac:(lia)) as (r1' & E1 & M1 & D1).
  destruct (Reservation.Take_models k r2 s2 H2 ltac:(lia)) as (r2' & E2 & M2 & D2).
  exists (bool_decide (k ∉ s1)), r1', r2'. rewrite E1, E2. split_and!; [done| |split; [done|done|congruence|by apply agree_union]|done].
  do 2 f_equal. apply bool_decide_ext. by rewrite (Ha k) by lia.
Qed.

(** Taking a key of the range: the outcome depends on the bits of the range, and the
    only bit that changes is one of them. *)
Lemma reserve_local lo hi target count prev k cap r1 r2 s1 s2 : similar lo hi r1 r2 s1 s2 ->
  0 <= lo <= cap -> cap <= hi -> hi < Reservation.key_domain r1 -> forall r1' cap' c,
  reserve lo hi target count prev k cap r1 = Some (r1', cap', c) ->
  exists r2' f, reserve lo hi target count prev k cap r2 = Some (r2', cap', c) /\ similar lo hi r1' r2' (f ∪ s1) (f ∪ s2) /\
    (forall x, x ∈ f -> lo <= x <= hi) /\ Reservation.key_domain r1' = Reservation.key_domain r1 /\ lo <= cap' <= hi.
Proof.
  intros Hsim Hlo Hcap Hhi r1' cap' c. unfold reserve. set (low := match prev with None => _ | Some _ => _ end).
  assert (forall l, low = Some l -> lo <= l) as Hlow.
  { intros l. unfold low. destruct prev as [p|]; [destruct (decide (p = u64_max)); [done|]|]; intros [= <-]; lia. }
  destruct low as [l|]; cbn zeta; [|].
  - specialize (Hlow l eq_refl). set (cand := Z.max k l).
    assert (forall r s, Reservation.models r s ->
      lo <= (if decide (cap <= cand) then cap else default cap (Reservation.NextFree cand cap r)) <= cap) as Hkr.
    { intros r s Hr. destruct (decide (cap <= cand)); [lia|]. destruct (Reservation.NextFree cand cap r) as [x|] eqn:En; cbn; [|lia].
      apply (NextFree_range r s) in En; [lia|done|lia]. }
    assert ((if decide (cap <= cand) then cap else default cap (Reservation.NextFree cand cap r2)) =
      (if decide (cap <= cand) then cap else default cap (Reservation.NextFree cand cap r1))) as ->.
    { destruct (decide (cap <= cand)); [done|].
      destruct (queries_local lo hi r1 r2 s1 s2 cand cap 0 Hsim) as (_ & -> & _); [lia|lia|by vm_compute|done]. }
    specialize (Hkr r1 s1 (m_left _ _ _ _ _ _ Hsim)). set (x := if decide (cap <= cand) then _ else _) in *. clearbody x. clear Hlow.
    destruct (Take_local lo hi r1 r2 s1 s2 x Hsim) as (b & r1'' & r2'' & -> & -> & Hsim' & Hd); [lia|lia|lia|].
    assert (forall y, y ∈ ({[x]} : gset Z) -> lo <= y <= hi) as Hf by (intros y ->%elem_of_singleton; lia).
    destruct b; [|intros [= <- <- <-]; exists r2'', {[x]}; split_and!; try done; lia].
    destruct (decide (count +% 1 < target)); [|intros [= <- <- <-]; exists r2'', {[x]}; split_and!; try done; lia].
    destruct (decide (hi <= cap)); [intros [= <- <- <-]; exists r2'', {[x]}; split_and!; try done; lia|].
    assert (cap +% 1 = cap + 1) as ->.
    { apply u64_small. pose proof (Bits.h_domain _ _ _ (m_left _ _ _ _ _ _ Hsim)). unfold is_u64. lia. }
    destruct (queries_local lo hi r1'' r2'' _ _ (cap + 1) hi 0 Hsim') as (_ & <- & _); [lia|lia|by vm_compute|].
    destruct (Reservation.NextFree (cap + 1) hi r1'') as [cap1|] eqn:En; intros [= <- <- <-]; exists r2'', {[x]}; split_and!; try done; try lia;
      apply (NextFree_range _ _ _ _ _ (m_left _ _ _ _ _ _ Hsim')) in En; lia.
  - intros [= <- <- <-]. exists r2, ∅. rewrite !union_empty_l_L. split_and!; try done; lia.
Qed.

(** The cap of a job stays in its range. *)
Definition job_ok (t : SSTTask) (d : Z) (j : Job) : Prop :=
  match j with
  | JLoop _ _ hi _ _ _ _ cap _ => materialize_key_min t <= cap <= hi /\ hi < d /\ hi <= materialize_key_max t
  | _ => True
  end.

Local Abbreviation alike t := (similar (materialize_key_min t) (materialize_key_max t)).

Lemma choose_local t hi target pos seg cap snk r1 r2 s1 s2 src c : alike t r1 r2 s1 s2 -> 0 <= materialize_key_min t ->
  job_ok t (Reservation.key_domain r1) (JLoop 0 pos hi target 0 0 seg cap snk) ->
  choose t None (materialize_key_min t) hi target pos (mkSource seg cap (Some r1) None) snk = Some (src, c) ->
  exists seg' cap' r1' r2' f, src = mkSource seg' cap' (Some r1') None /\
    choose t None (materialize_key_min t) hi target pos (mkSource seg cap (Some r2) None) snk = Some (mkSource seg' cap' (Some r2') None, c) /\
    alike t r1' r2' (f ∪ s1) (f ∪ s2) /\ (forall x, x ∈ f -> materialize_key_min t <= x <= materialize_key_max t) /\
    Reservation.key_domain r1' = Reservation.key_domain r1 /\ materialize_key_min t <= cap' <= hi.
Proof.
  intros Hsim Hlo (Hcap & Hhi & Hmax). unfold choose. cbn [reservation members].
  destruct (decide (target <= keys_in_file snk)) as [Ht|Ht].
  - rewrite !decide_True by (split; [by eexists|done]). intros [= <- <-]. exists seg, cap, r1, r2, ∅. rewrite !union_empty_l_L.
    split_and!; try done; lia.
  - rewrite !(decide_False (P := _ /\ target <= keys_in_file snk)) by tauto. cbn [seg_idx unique_cap].
    destruct (model_pick _ _ _) as [[k idx]|]; [|done]. rewrite !(decide_False (P := Some _ = None)) by done. cbn [reservation members seg_idx unique_cap].
    assert (similar (materialize_key_min t) hi r1 r2 s1 s2) as Hsim'.
    { destruct Hsim as [H1 H2 H3 H4]. split; try done. intros x Hx. apply H4. lia. }
    destruct (reserve _ _ _ _ _ _ _ r1) as [[[r1' cap'] c']|] eqn:E; [|done]. intros [= <- <-].
    destruct (reserve_local _ _ _ _ _ _ _ r1 r2 s1 s2 Hsim' (conj Hlo (proj1 Hcap)) (proj2 Hcap) Hhi _ _ _ E) as (r2' & f & -> & [G1 G2 G3 G4] & Hf & Hd & Hc).
    exists idx, cap', r1', r2', f. split_and!; try done; try lia.
    + split; try done. apply agree_union. apply Hsim.
    + intros x Hx. specialize (Hf x Hx). lia.
Qed.

Lemma jclose_local io t free short seg cap r1 r2 snk why j r : jclose io t free short (mkSource seg cap (Some r1) None) snk why = Some (j, r) ->
  r = r1 /\ jclose io t free short (mkSource seg cap (Some r2) None) snk why = Some (j, r2) /\ exists res l, j = JDone res l.
Proof.
  unfold jclose. cbn [reservation]. assert (forall r, close_file t io None free short (mkSource seg cap (Some r) None) snk why =
    close_file t io None free short (mkSource seg cap (Some r1) None) snk why) as Heq.
  { intros r'. unfold close_file. cbn [reservation members]. apply decide_ext.
    assert (is_Some (Some r')) by (by eexists). assert (is_Some (Some r1)) by (by eexists). tauto. }
  rewrite (Heq r2). destruct (close_file _ _ _ _ _ _ _ _) as [[res m]|]; [|done]. intros [= <- <-]. split_and!; try done. by eexists _, _.
Qed.

(** The first step. *)
Lemma jstart_local io t r1 r2 s1 s2 : alike t r1 r2 s1 s2 -> task_wf t ->
  jstart io t r1 = jstart io t r2 /\ job_ok t (Reservation.key_domain r1) (jstart io t r1).
Proof.
  intros Hsim Hwf. pose proof (t_range _ Hwf) as Hran. pose proof (t_entries _ Hwf) as Hent.
  pose proof (Bits.h_domain _ _ _ (m_left _ _ _ _ _ _ Hsim)) as Hdom. fold (Reservation.key_domain r1) in Hdom.
  unfold jstart. rewrite !(decide_False (P := num_entries (vsst t) = 0)) by lia. rewrite (t_model _ Hwf).
  rewrite !(decide_False (P := materialize_key_max t < materialize_key_min t)) by lia. unfold reserve_range. rewrite <- (m_domain _ _ _ _ _ _ Hsim).
  set (d := Reservation.key_domain r1) in *. set (hi := if decide (d <= materialize_key_max t) then _ else _).
  assert (hi <= materialize_key_max t /\ hi < d) as [Hh1 Hh2].
  { unfold hi. destruct (decide (d <= materialize_key_max t)); [|lia]. rewrite u64_small by solve_u64. lia. }
  clearbody hi. set (free := fun r => if decide (hi < materialize_key_min t) then 0 else Reservation.CountFree (materialize_key_min t) hi r).
  fold (free r1) (free r2).
  assert (free r2 = free r1) as ->.
  { unfold free. destruct (decide (hi < materialize_key_min t)); [done|].
    destruct (queries_local _ _ r1 r2 s1 s2 (materialize_key_min t) hi 0 Hsim) as (-> & _); [lia|lia|by vm_compute|done]. }
  destruct (decide (Z.min (num_entries (vsst t)) (free r1) = 0)); [split; [done|exact I]|].
  destruct (queries_local _ _ r1 r2 s1 s2 (materialize_key_min t) hi (free r1 -% Z.min (num_entries (vsst t)) (free r1)) Hsim) as (_ & _ & <-);
    [lia|lia|apply u64_range|].
  destruct (Reservation.SelectFree _ _ _ r1) as [cap|] eqn:Es; [|split; [done|exact I]]. split; [done|].
  destruct (Writer.Open (open_ok io) Writer.unopened) as [[] w]; cbn; try done.
  rewrite (proj1 (proj2 (proj2 (Reservation.queries_spec r1 s1 (materialize_key_min t) hi _ (m_left _ _ _ _ _ _ Hsim) ltac:(lia) (u64_range _))))) in Es.
  apply list_elem_of_lookup_2, Reservation.elem_of_free_keys in Es. unfold Bits.clamp in Es. lia.
Qed.

(** A step of a job reads only the bits of its range and sets only such bits. *)
Lemma jstep_local io t j r1 r2 s1 s2 j' r1' : alike t r1 r2 s1 s2 -> task_wf t -> job_ok t (Reservation.key_domain r1) j ->
  jstep io t j r1 = Some (j', r1') ->
  exists r2' f, jstep io t j r2 = Some (j', r2') /\ alike t r1' r2' (f ∪ s1) (f ∪ s2) /\
    (forall x, x ∈ f -> materialize_key_min t <= x <= materialize_key_max t) /\
    Reservation.key_domain r1' = Reservation.key_domain r1 /\ job_ok t (Reservation.key_domain r1') j'.
Proof.
  intros Hsim Hwf Hok. pose proof (t_range _ Hwf) as Hran. destruct j as [|[|n] pos hi target free short seg cap snk|]; cbn [jstep]; [| | |done].
  - intros [= <- <-]. destruct (jstart_local io t r1 r2 s1 s2 Hsim Hwf) as [<- Hj]. exists r2, ∅. rewrite !union_empty_l_L. by split_and!.
  - intros Hc. destruct (jclose_local _ _ _ _ _ _ _ r2 _ _ _ _ Hc) as (-> & -> & res & l & ->). exists r2, ∅. rewrite !union_empty_l_L. by split_and!.
  - destruct (choose _ _ _ _ _ _ (mkSource seg cap (Some r1) None) _) as [[src c]|] eqn:Ech; [|done].
    destruct (choose_local t hi target pos seg cap snk r1 r2 s1 s2 src c Hsim ltac:(lia) Hok Ech) as (seg' & cap' & q1 & q2 & f & -> & -> & G1 & G2 & G3 & G4).
    assert (forall snk why, jclose io t free short (mkSource seg' cap' (Some q1) None) snk why = Some (j', r1') ->
      exists r2' f, jclose io t free short (mkSource seg' cap' (Some q2) None) snk why = Some (j', r2') /\ alike t r1' r2' (f ∪ s1) (f ∪ s2) /\
      (forall x, x ∈ f -> materialize_key_min t <= x <= materialize_key_max t) /\
      Reservation.key_domain r1' = Reservation.key_domain r1 /\ job_ok t (Reservation.key_domain r1') j') as Hclose.
    { intros snk' why Hc. destruct (jclose_local _ _ _ _ _ _ _ q2 _ _ _ _ Hc) as (-> & -> & res & l & ->). exists q2, f. by split_and!. }
    destruct c as [why|k]; [apply Hclose|]. destruct (emit _ _ _ _ _) as [[snk' [why|]]|]; [apply Hclose| |done].
    cbn [reservation seg_idx unique_cap]. intros [= <- <-]. exists q2, f. split_and!; try done. cbn in Hok |- *. rewrite G3. lia.
Qed.

(** ** Runs of one job *)

Lemma similar_sym lo hi r1 r2 s1 s2 : similar lo hi r1 r2 s1 s2 -> similar lo hi r2 r1 s2 s1.
Proof. intros [H1 H2 H3 H4]. split; try done. intros k Hk. symmetry. by apply H4. Qed.

Lemma models_set r s s' : Reservation.models r s -> Reservation.models r s' -> s = s'.
Proof.
  intros H H'. apply set_eq. intros k. pose proof (Bits.h_words _ _ _ H) as Hw.
  assert (forall s, Reservation.models r s -> k ∈ s -> 0 <= k < 64 * Z.of_nat (length (Reservation.bits_ r))) as Hran.
  { intros s0 H0 Hk. pose proof (Bits.h_in _ _ _ H0 k Hk). Z.to_euclidean_division_equations; lia. }
  split; intros Hk; [pose proof (Hran s H Hk) as Hr|pose proof (Hran s' H' Hk) as Hr];
    pose proof (Bits.h_bits _ _ _ H k Hr); pose proof (Bits.h_bits _ _ _ H' k Hr); tauto.
Qed.

(** A job is deterministic: every run is a prefix of the one that ends. *)
Lemma alone_prefix io t x y z : rtc (alone io t) x y -> rtc (alone io t) x z -> (forall w, ~ alone io t z w) -> rtc (alone io t) y z.
Proof.
  intros Hy Hz Hend. induction Hy as [x|x y y' Hxy _ IH]; [done|]. apply IH.
  inversion Hz as [|x' w z' Hxw Hwz]; subst; [by destruct (Hend y)|]. unfold alone in *. congruence.
Qed.

Lemma done_final io t res l r w : ~ alone io t (JDone res l, r) w.
Proof. done. Qed.

Definition work (t : SSTTask) (j : Job) : nat :=
  match j with JStart => Z.to_nat (num_entries (vsst t)) + 2 | JLoop n _ _ _ _ _ _ _ _ => n + 1 | JDone _ _ => 0 end.

Lemma jclose_done io t free short src snk why j r : jclose io t free short src snk why = Some (j, r) -> exists res l, j = JDone res l.
Proof. unfold jclose. destruct (reservation src), (close_file t io None free short src snk why) as [[res m]|]; try done. intros [= <- <-]. by eexists _, _. Qed.

Lemma jstep_work io t j r j' r' : jstep io t j r = Some (j', r') -> (work t j' < work t j)%nat.
Proof.
  destruct j as [|[|n] pos hi target free short seg cap snk|]; cbn [jstep]; [| | |done].
  - intros [= <- <-]. unfold jstart. destruct (decide (num_entries (vsst t) = 0)); [cbn; lia|].
    destruct (Empty _); [cbn; lia|]. destruct (decide (materialize_key_max t < materialize_key_min t)); [cbn; lia|].
    destruct (reserve_range _ _) as [|[[[? ?] ?] ?]]; [cbn; lia|]. destruct (Writer.Open _ _) as [[] ?]; cbn; lia.
  - intros (res & l & ->)%jclose_done. cbn. lia.
  - destruct (choose _ _ _ _ _ _ _ _) as [[src [why|k]]|]; [intros (res & l & ->)%jclose_done; cbn; lia| |done].
    destruct (emit _ _ _ _ _) as [[snk' [why|]]|]; [intros (res & l & ->)%jclose_done; cbn; lia| |done].
    destruct (reservation src); [|done]. intros [= <- <-]. cbn. lia.
Qed.

(** ** A group *)

Section group.
Context (ios : nat -> Io) (tasks : list SSTTask) (group : list nat) (r0 : Reservation.t) (s0 : gset Z).
Hypothesis (Hplain : Writer.keys_per_prefix_ opts = 0).
Hypothesis (Hsize : (8 <= Writer.key_size_ opts)%nat).
Hypothesis (Hios : forall i, io_ok (ios i)).
Hypothesis (Hr0 : Reservation.models r0 s0).
(** The indices are those of usable tasks, no two of which share a key. *)
Hypothesis (Hgroup : forall idx, idx ∈ group -> exists t, tasks !! idx = Some t /\ task_wf t).
Hypothesis (Hdisj : forall p q i j a b k, p <> q -> group !! p = Some i -> group !! q = Some j ->
  tasks !! i = Some a -> tasks !! j = Some b -> ~ (in_range k a /\ in_range k b)).

Lemma group_task p idx t : group !! p = Some idx -> tasks !! idx = Some t -> task_wf t.
Proof. intros Hp Ht. destruct (Hgroup idx (list_elem_of_lookup_2 _ _ _ Hp)) as (t' & Ht' & Hwf). congruence. Qed.

(** Each job is where it would be had it run alone from the start of the group. *)
Record ginv (js : list Job) (r : Reservation.t) (s : gset Z) : Prop := {
  v_length : length js = length group;
  v_models : Reservation.models r s;
  v_domain : Reservation.key_domain r = Reservation.key_domain r0;
  v_job : forall p idx t j, group !! p = Some idx -> tasks !! idx = Some t -> js !! p = Some j ->
            exists r' s', rtc (alone (ios idx) t) (JStart, r0) (j, r') /\ alike t r r' s s' /\ job_ok t (Reservation.key_domain r0) j;
  v_outside : forall k, (forall p idx t, group !! p = Some idx -> tasks !! idx = Some t -> ~ in_range k t) -> k ∈ s <-> k ∈ s0;
}.

Lemma ginv_start : ginv (replicate (length group) JStart) r0 s0.
Proof.
  split; [by rewrite length_replicate|done|done| |done]. intros p idx t j Hp Ht Hj. apply lookup_replicate in Hj as [-> _].
  exists r0, s0. split_and!; [done| |done]. by split.
Qed.

Lemma ginv_step js r s js' r' : ginv js r s -> gstep ios tasks group (js, r) (js', r') -> exists s', ginv js' r' s'.
Proof.
  intros [Hlen Hm Hd Hjob Hout] Hstep. inversion Hstep as [p idx t j j' js0 q q' Hp Ht Hj Hs]; subst.
  pose proof (group_task p idx t Hp Ht) as Hwf. destruct (Hjob p idx t j Hp Ht Hj) as (ra & sa & Hrun & Hsim & Hok).
  rewrite <- Hd in Hok. destruct (jstep_local _ _ _ _ _ _ _ _ _ Hsim Hwf Hok Hs) as (ra' & f & Hsa & Hsim' & Hf & Hd' & Hok').
  exists (f ∪ s). split.
  - by rewrite length_insert.
  - apply Hsim'.
  - congruence.
  - intros p' idx' t' j2 Hp' Ht' Hj2. destruct (decide (p' = p)) as [->|Hne].
    + assert (idx' = idx) as -> by congruence. assert (t' = t) as -> by congruence.
      rewrite list_lookup_insert_eq in Hj2 by (by eapply lookup_lt_Some). injection Hj2 as <-.
      exists ra', (f ∪ sa). split_and!; [|done|by rewrite <- Hd, <- Hd']. eapply rtc_r; [exact Hrun|]. done.
    + rewrite list_lookup_insert_ne in Hj2 by done. destruct (Hjob p' idx' t' j2 Hp' Ht' Hj2) as (rb & sb & Hrunb & [B1 B2 B3 B4] & Hokb).
      exists rb, sb. split_and!; [done| |done]. split; [apply Hsim'|done|congruence|]. intros k Hk. rewrite <- (B4 k Hk).
      assert (k ∉ f) as Hkf; [|set_solver]. intros Hkf. apply (Hdisj p p' idx idx' t t' k); try done. split; [by apply Hf|done].
  - intros k Hk. rewrite <- (Hout k Hk). assert (k ∉ f) as Hkf; [|set_solver]. intros Hkf. apply (Hk p idx t Hp Ht). by apply Hf.
Qed.

Lemma ginv_reachable x y : rtc (gstep ios tasks group) x y -> forall s, ginv x.1 x.2 s -> exists s', ginv y.1 y.2 s'.
Proof.
  induction 1 as [x|[js r] [js' r'] z Hxy _ IH]; intros s Hs; [by exists s|]. destruct (ginv_step _ _ _ _ _ Hs Hxy) as [s' Hs']. by apply (IH s').
Qed.

(** The end of a job that runs alone. *)
Lemma alone_end p idx t : group !! p = Some idx -> tasks !! idx = Some t ->
  exists res l r', run_task opts key_domain (ios idx) t (Some r0) None = Some (res, Some r', None, l) /\
    rtc (alone (ios idx) t) (JStart, r0) (JDone res l, r') /\ Reservation.models r' (list_to_set l ∪ s0) /\
    (forall k, k ∈ l -> in_range k t).
Proof.
  intros Hp Ht. destruct (reserve_file opts key_domain Hplain Hsize (ios idx) t r0 s0 (Hios idx) (group_task p idx t Hp Ht) Hr0)
    as (res & r' & l & E & _ & Hl & _ & _ & _ & Hm).
  exists res, l, r'. split_and!; [done|by apply task_alone|done|]. intros k Hk%Hl. apply Reservation.elem_of_free_keys in Hk.
  unfold in_range, Bits.clamp in *. lia.
Qed.

(** Every job that is not done can move. *)
Lemma ginv_progress js r s p idx t j : ginv js r s -> group !! p = Some idx -> tasks !! idx = Some t -> js !! p = Some j ->
  (exists x, gstep ios tasks group (js, r) x) \/
  exists res l r', j = JDone res l /\ run_task opts key_domain (ios idx) t (Some r0) None = Some (res, Some r', None, l) /\
    (forall k, in_range k t -> k ∈ s <-> k ∈ l \/ k ∈ s0) /\ (forall k, k ∈ l -> in_range k t).
Proof.
  intros [_ Hm Hd Hjob _] Hp Ht Hj. destruct (Hjob p idx t j Hp Ht Hj) as (ra & sa & Hrun & Hsim & Hok).
  destruct (alone_end p idx t Hp Ht) as (res & l & r' & E & Hend & Hmend & Hl).
  pose proof (alone_prefix _ _ _ _ _ Hrun Hend (done_final _ _ _ _ _)) as Hrest. apply rtc_inv in Hrest as [Heq|([j' ra'] & Hstep & _)].
  - right. injection Heq as -> ->. exists res, l, r'. split_and!; try done. intros k Hk.
    rewrite (m_agree _ _ _ _ _ _ Hsim k Hk), (models_set _ _ _ (m_right _ _ _ _ _ _ Hsim) Hmend), elem_of_union, elem_of_list_to_set. done.
  - left. assert (job_ok t (Reservation.key_domain ra) j) as Hok' by (by rewrite <- (m_domain _ _ _ _ _ _ Hsim), Hd).
    destruct (jstep_local _ _ _ _ _ _ _ _ _ (similar_sym _ _ _ _ _ _ Hsim) (group_task p idx t Hp Ht) Hok' Hstep) as (rb & f & Hs & _).
    eexists. by eapply gstep_job.
Qed.

(** ** The end of a group *)

Definition ended (x : list Job * Reservation.t) : Prop := forall y, ~ gstep ios tasks group x y.

Lemma ended_outcome js r s p idx t : ginv js r s -> ended (js, r) -> group !! p = Some idx -> tasks !! idx = Some t ->
  exists res l r', js !! p = Some (JDone res l) /\ run_task opts key_domain (ios idx) t (Some r0) None = Some (res, Some r', None, l) /\
    (forall k, in_range k t -> k ∈ s <-> k ∈ l \/ k ∈ s0).
Proof.
  intros Hinv Hend Hp Ht. destruct (lookup_lt_is_Some_2 js p) as [j Hj].
  { rewrite (v_length _ _ _ Hinv). by eapply lookup_lt_Some. }
  destruct (ginv_progress js r s p idx t j Hinv Hp Ht Hj) as [[x Hx]|(res & l & r' & -> & E & Hs & _)]; [by destruct (Hend x)|].
  by exists res, l, r'.
Qed.

(** A key is in the range of a file of the group, or of none. *)
Lemma range_dec k : (exists p idx t, group !! p = Some idx /\ tasks !! idx = Some t /\ in_range k t) \/
  (forall p idx t, group !! p = Some idx -> tasks !! idx = Some t -> ~ in_range k t).
Proof.
  destruct (decide (Exists (fun t => materialize_key_min t <= k <= materialize_key_max t) (omap (fun idx => tasks !! idx) group))) as [He|He].
  - apply Exists_exists in He as (t & (idx & [p Hp]%list_elem_of_lookup & Ht)%list_elem_of_omap & Hk). left. by exists p, idx, t.
  - right. intros p idx t Hp Ht Hk. apply He, Exists_exists. exists t. split; [|done]. apply list_elem_of_omap. exists idx.
    split; [by eapply list_elem_of_lookup_2|done].
Qed.

Lemma ended_unique js1 r1 s1 js2 r2 s2 : ginv js1 r1 s1 -> ended (js1, r1) -> ginv js2 r2 s2 -> ended (js2, r2) -> js1 = js2 /\ r1 = r2.
Proof.
  intros I1 E1 I2 E2. split.
  - apply list_eq_same_length with (n := length group); [by rewrite (v_length _ _ _ I2)|by rewrite (v_length _ _ _ I1)|].
    intros p j1 j2 Hlt H1 H2. destruct (lookup_lt_is_Some_2 group p Hlt) as [idx Hp].
    destruct (Hgroup idx (list_elem_of_lookup_2 _ _ _ Hp)) as (t & Ht & _).
    destruct (ended_outcome js1 r1 s1 p idx t I1 E1 Hp Ht) as (res1 & l1 & q1 & J1 & R1 & _).
    destruct (ended_outcome js2 r2 s2 p idx t I2 E2 Hp Ht) as (res2 & l2 & q2 & J2 & R2 & _). congruence.
  - assert (s1 = s2) as ->.
    { apply set_eq. intros k. destruct (range_dec k) as [(p & idx & t & Hp & Ht & Hk)|Hk].
      - destruct (ended_outcome js1 r1 s1 p idx t I1 E1 Hp Ht) as (res1 & l1 & q1 & _ & R1 & ->); [|done].
        destruct (ended_outcome js2 r2 s2 p idx t I2 E2 Hp Ht) as (res2 & l2 & q2 & _ & R2 & ->); [|done]. assert (l1 = l2) as -> by congruence. done.
      - by rewrite (v_outside _ _ _ I1 k Hk), (v_outside _ _ _ I2 k Hk). }
    pose proof (v_models _ _ _ I1) as M1. pose proof (v_models _ _ _ I2) as M2. pose proof (v_domain _ _ _ I1) as D1. pose proof (v_domain _ _ _ I2) as D2.
    destruct r1 as [b1 d1], r2 as [b2 d2]. cbn in *. unfold Reservation.models in *. cbn in *. subst d1 d2. f_equal. by eapply Bits.holds_unique.
Qed.

(** One job after the other is one of the schedules. *)
Lemma lift_alone p idx t : group !! p = Some idx -> tasks !! idx = Some t -> forall x y, rtc (alone (ios idx) t) x y ->
  forall js, js !! p = Some x.1 -> rtc (gstep ios tasks group) (js, x.2) (<[p := y.1]> js, y.2).
Proof.
  intros Hp Ht x y. induction 1 as [[j r]|[j r] [j' r'] z Hxy _ IH]; intros js Hj; cbn [fst snd] in *.
  - by rewrite list_insert_id.
  - eapply rtc_l; [by eapply gstep_job|]. rewrite <- (list_insert_insert_eq js p z.1 j'). apply IH.
    apply list_lookup_insert_eq. by eapply lookup_lt_Some.
Qed.

Lemma group_NoDup : NoDup group.
Proof.
  apply NoDup_alt. intros p q idx Hp Hq. destruct (decide (p = q)) as [|Hne]; [done|].
  destruct (Hgroup idx (list_elem_of_lookup_2 _ _ _ Hp)) as (t & Ht & Hwf). pose proof (t_range _ Hwf).
  destruct (Hdisj p q idx idx t t (materialize_key_min t) Hne Hp Hq Ht Ht). unfold in_range. lia.
Qed.

(** What a job and the state of Phase 2 say of one task. *)
Definition reported (st : State) (idx : nat) (j : Job) : Prop :=
  exists res l, j = JDone res l /\ results st !! idx = Some res /\ outputs st !! idx = Some l.

Lemma sequential rest : forall pre js st r s, group = pre ++ rest -> length js = length pre -> Reservation.models r s ->
  unique_reservation st = Some r -> membership st = None -> length (results st) = length tasks -> length (outputs st) = length tasks ->
  exists st' js' r', run_group opts key_domain ios tasks rest st = Some st' /\ unique_reservation st' = Some r' /\
    rtc (gstep ios tasks group) (js ++ replicate (length rest) JStart, r) (js ++ js', r') /\ Forall2 (reported st') rest js' /\
    (forall idx, idx ∉ rest -> results st' !! idx = results st !! idx /\ outputs st' !! idx = outputs st !! idx).
Proof.
  induction rest as [|idx rest IH]; intros pre js st r s Hg Hlen Hr Hst Hmem Hl1 Hl2; cbn [run_group].
  { exists st, [], r. split_and!; try done; constructor. }
  assert (group !! length js = Some idx) as Hp by (rewrite Hg, Hlen; by apply list_lookup_middle).
  destruct (Hgroup idx (list_elem_of_lookup_2 _ _ _ Hp)) as (t & Ht & Hwf). pose proof (lookup_lt_Some _ _ _ Ht) as Hlt.
  destruct (reserve_file opts key_domain Hplain Hsize (ios idx) t r s (Hios idx) Hwf Hr) as (res & r1 & l & E & _ & _ & _ & _ & _ & Hr1).
  unfold run_index. rewrite Ht, Hst, Hmem, E. cbn [mbind option_bind].
  destruct (IH (pre ++ [idx]) (js ++ [JDone res l]) (mkState (Some r1) None (<[idx := res]> (results st)) (<[idx := l]> (outputs st))) r1 (list_to_set l ∪ s))
    as (st' & js' & r' & Hrun & Hr' & Hsteps & Hrep & Hother); cbn [unique_reservation membership results outputs]; rewrite ?length_insert; try done.
  { by rewrite <- app_assoc. } { rewrite !length_app. cbn. lia. }
  assert (idx ∉ rest) as Hni.
  { pose proof group_NoDup as Hnd. rewrite Hg in Hnd. apply NoDup_app in Hnd as (_ & _ & Hnd). by apply NoDup_cons in Hnd as [? _]. }
  exists st', (JDone res l :: js'), r'. split_and!; try done.
  - etrans; [|rewrite <- !app_assoc in Hsteps; exact Hsteps].
    pose proof (lift_alone (length js) idx t Hp Ht _ _ (task_alone _ _ _ _ _ _ E) (js ++ JStart :: replicate (length rest) JStart)) as Hlift.
    cbn [fst snd] in Hlift. rewrite insert_app_r_alt, Nat.sub_diag in Hlift by lia. apply Hlift. by apply list_lookup_middle.
  - constructor; [|done]. exists res, l. destruct (Hother idx Hni) as [-> ->]. cbn. rewrite !list_lookup_insert_eq by lia. done.
  - intros i [Hne Hi]%not_elem_of_cons. destruct (Hother i Hi) as [-> ->]. cbn. by rewrite !list_lookup_insert_ne by done.
Qed.

(** The steps that are left. *)
Definition left_of (idx : nat) (j : Job) : nat := from_option (fun t => work t j) 0%nat (tasks !! idx).
Definition total_left (js : list Job) : nat := sum_list (zip_with left_of group js).
Definition budget : nat := sum_list ((fun idx => left_of idx JStart) <$> group).

Lemma zip_sum_insert (g : list nat) js p idx j j' : g !! p = Some idx -> js !! p = Some j -> (left_of idx j' < left_of idx j)%nat ->
  (sum_list (zip_with left_of g (<[p := j']> js)) < sum_list (zip_with left_of g js))%nat.
Proof.
  revert js p. induction g as [|i g IH]; intros [|x js] [|p] Hi Hj Hlt; try done; cbn [zip_with insert list_insert sum_list_with lookup list_lookup id] in *.
  - injection Hi as ->. injection Hj as ->. lia.
  - apply Nat.add_lt_mono_l. by apply IH.
Qed.

Lemma steps_bounded n x y : nsteps (gstep ios tasks group) n x y -> (n + total_left y.1 <= total_left x.1)%nat.
Proof.
  induction 1 as [x|n x y z Hxy _ IH]; [lia|]. enough (total_left y.1 < total_left x.1)%nat by lia.
  destruct Hxy as [p idx t j j' js r r' Hp Ht Hj Hs]. apply (zip_sum_insert group js p idx j j' Hp Hj).
  unfold left_of. rewrite Ht. cbn. by eapply jstep_work.
Qed.

Lemma total_start : total_left (replicate (length group) JStart) = budget.
Proof. unfold total_left, budget. clear. induction group as [|i g IH]; cbn; [done|]. by rewrite IH. Qed.

Definition is_done (j : Job) : bool := match j with JDone _ _ => true | _ => false end.

(** All the jobs are done, or one can move. *)
Lemma ended_or_step js r s : ginv js r s -> ended (js, r) \/ exists y, gstep ios tasks group (js, r) y.
Proof.
  intros Hinv. destruct (decide (Forall (fun j => is_done j = true) js)) as [Hall|Hnot].
  - left. intros y Hy. inversion Hy as [p idx t j j' js0 q q' Hp Ht Hj Hs]; subst. rewrite Forall_lookup in Hall. specialize (Hall p j Hj). by destruct j.
  - right. apply not_Forall_Exists in Hnot; [|apply _]. apply Exists_exists in Hnot as (j & [p Hj]%list_elem_of_lookup & Hd).
    destruct (lookup_lt_is_Some_2 group p) as [idx Hp]; [rewrite <- (v_length _ _ _ Hinv); by eapply lookup_lt_Some|].
    destruct (Hgroup idx (list_elem_of_lookup_2 _ _ _ Hp)) as (t & Ht & _).
    destruct (ginv_progress js r s p idx t j Hinv Hp Ht Hj) as [|(res & l & r' & -> & _)]; [done|]. by destruct Hd.
Qed.

(** C5: The order in which the threads of a group run makes no difference.  From
    any state of Phase 2 with a reservation, take the files of one group, no two of
    which share a key of their ranges, and let their loops advance in any order on the
    shared bitmap: no more steps than planned entries plus two per file are possible, no
    file gets stuck, and when none can move every file has the result and the keys,
    and the bitmap the bits, that running the files one after the other gives. *)
Theorem schedule_independent st (Hst : unique_reservation st = Some r0) (Hmem : membership st = None)
    (Hlen : length (results st) = length tasks /\ length (outputs st) = length tasks) :
  exists st', run_group opts key_domain ios tasks group st = Some st' /\
    forall n x, nsteps (gstep ios tasks group) n (replicate (length group) JStart, r0) x ->
      (n <= budget)%nat /\
      ((exists y, gstep ios tasks group x y) \/
       unique_reservation st' = Some x.2 /\ Forall2 (reported st') group x.1).
Proof.
  destruct Hlen as [Hl1 Hl2]. destruct (sequential group [] [] st r0 s0) as (st' & js' & r' & Hrun & Hr' & Hsteps & Hrep & _); try done.
  exists st'. split; [done|]. cbn [app] in Hsteps. destruct (ginv_reachable _ _ Hsteps s0 ginv_start) as [s' Hinv']. cbn [fst snd] in Hinv'.
  assert (ended (js', r')) as Hended.
  { intros y Hy. inversion Hy as [p idx t j j' js0 q q' Hp Ht Hj Hs]; subst.
    destruct (Forall2_lookup_lr _ _ _ _ _ _ Hrep Hp Hj) as (res & l & -> & _). done. }
  intros n [js r] Hn. split.
  - apply steps_bounded in Hn. cbn [fst] in Hn. rewrite total_start in Hn. lia.
  - apply rtc_nsteps_2 in Hn. destruct (ginv_reachable _ _ Hn s0 ginv_start) as [s Hinv]. cbn [fst snd] in Hinv.
    destruct (ended_or_step js r s Hinv) as [Hend|]; [right|by left].
    destruct (ended_unique js r s js' r' s' Hinv Hend Hinv' Hended) as [-> ->]. done.
Qed.

End group.

End interleave.

(** ** Instances *)

(** Two files of one level. *)
Definition level_tasks : list SSTTask :=
  [mkTask 7 100 1 0 30 (model_vsst [0; 10; 30]); mkTask 8 101 1 31 99 (model_vsst [31; 60; 99])].
Definition level_start : State := start_state 2 (Some sample_reservation) None.

Lemma level_tasks_wf t : t ∈ level_tasks -> task_wf t.
Proof.
  intros [->|[->|[]%elem_of_nil]%elem_of_cons]%elem_of_cons;
  (split; [by vm_compute|by vm_compute|by vm_compute|apply (bool_decide_unpack _); by vm_compute]).
Qed.

Lemma level_tasks_disjoint p q i j a b k : p <> q -> [0; 1]%nat !! p = Some i -> [0; 1]%nat !! q = Some j ->
  level_tasks !! i = Some a -> level_tasks !! j = Some b -> ~ (in_range k a /\ in_range k b).
Proof.
  intros Hne Hi Hj Ha Hb [Ka Kb].
  destruct p as [|[|p]], q as [|[|q]]; try done; injection Hi as <-; injection Hj as <-; injection Ha as <-; injection Hb as <-;
    unfold in_range in *; cbn in *; lia.
Qed.

Lemma schedule_independent_witness :
  outputs <$> run_group sample_opts 100 (fun _ => sample_io) level_tasks [0; 1]%nat level_start = Some [[0; 15; 30]; [31; 65; 99]] /\
  exists st', run_group sample_opts 100 (fun _ => sample_io) level_tasks [0; 1]%nat level_start = Some st' /\
    forall n x, nsteps (gstep sample_opts 100 (fun _ => sample_io) level_tasks [0; 1]%nat) n (replicate 2 JStart, sample_reservation) x ->
      (n <= 10)%nat /\
      ((exists y, gstep sample_opts 100 (fun _ => sample_io) level_tasks [0; 1]%nat x y) \/
       unique_reservation st' = Some x.2 /\ Forall2 (reported st') [0; 1]%nat x.1).
Proof.
  split; [vm_compute; reflexivity|].
  apply (schedule_independent sample_opts 100 (fun _ => sample_io) level_tasks [0; 1]%nat sample_reservation ∅ eq_refl
    ltac:(cbn; lia) (fun _ => sample_io_ok) sample_reservation_empty) with (st := level_start).
  - intros idx Hidx. destruct (lookup_lt_is_Some_2 level_tasks idx) as [t Ht].
    + apply elem_of_cons in Hidx as [->|[->|[]%elem_of_nil]%elem_of_cons]; cbn; lia.
    + exists t. split; [done|]. apply level_tasks_wf. by eapply list_elem_of_lookup_2.
  - apply level_tasks_disjoint.
  - done.
  - done.
  - done.
Defined.

End Interleave.
