(* ===== verification/Replace.v ===== *)
(** * Replacing the virtual files

    The end of Phase 2 of [FillVirtual] in [tools/db_bench_tool.cc]: the version edit
    that deletes every virtual file and adds every table that was written, its
    installation, the snapshot of the MANIFEST, and the removal of the virtual files
    from the registry; and the whole of Phase 2, from the snapshot of the registry to
    a version that holds real files only. *)

From Stdlib Require Import ZArith Lia Sorted SpecFloat.
From stdpp Require Import base numbers list option gmap.
From S2P Require Import Prelude FloatModel SizeModel Plr Kmv Registry Version Install Bitmap Reservation Membership Tasks Writer Worker Phase2.

Local Open Scope Z_scope.

Module Replace.
Import Version Install Tasks Worker Phase2.

(** ** The edit *)

Definition delete_all (tasks : list SSTTask) (e : VersionEdit) : VersionEdit :=
  foldl (fun e t => DeleteFile (level t) (virtual_fnum t) e) e tasks.

(** The metadata of a written table, with the epoch it gets. *)
Definition meta_of (epoch : Z) (res : SSTResult) : FileMetaData :=
  mkMeta (file_number res) (file_size res) (InternalKey (first_key res) 0 kTypeValue)
    (InternalKey (last_key res) 0 kTypeValue) 0 0 epoch.

(** The loop over the results; the counter is the one [NewEpochNumber] advances. *)
Fixpoint add_results (rs : list SSTResult) (epoch : Z) (e : VersionEdit) : VersionEdit * Z :=
  match rs with
  | [] => (e, epoch)
  | res :: rs =>
      if negb (ok res) || bool_decide (keys_written res = 0) then add_results rs epoch e
      else add_results rs (epoch +% 1) (AddFile (result_level res) (meta_of epoch res) e)
  end.

Definition build_edit (tasks : list SSTTask) (rs : list SSTResult) (epoch : Z) : VersionEdit * Z :=
  add_results rs epoch (delete_all tasks empty_edit).

(** ** Installation *)

(** [fidelity_version_applied], [fidelity_manifest_ok], and what is left behind. *)
Record Outcome := mkOutcome {
  version_applied : bool;
  manifest_ok : bool;
  out_db : Db;
  out_registry : Registry.t;
  next_epoch : Z;
}.

Definition remove_all (tasks : list SSTTask) (r : Registry.t) : Registry.t :=
  foldl (fun r t => Registry.Remove (virtual_fnum t) r) r tasks.

(** From the check of the results on.  [io_ok] and [snapshot_ok] are the outcomes of
    the two writes of the MANIFEST, [order] the result of the sort of the
    installation. *)
Definition finish_materialization (io_ok snapshot_ok : bool) (order : list nat) (tasks : list SSTTask) (st : State)
    (epoch : Z) (db : Db) (reg : Registry.t) : Outcome :=
  if negb (materialize_ok st) then mkOutcome false false db reg epoch
  else
    let '(edit, epoch) := build_edit tasks (results st) epoch in
    let '(s, db, _) := InstallVirtualCompactionMaterialization io_ok 0 order (Some edit) db in
    match s with
    | OK =>
        match log_status snapshot_ok [empty_edit] (ver db) with
        | OK => mkOutcome true true db (remove_all tasks reg) epoch
        | _ => mkOutcome true false db reg epoch
        end
    | _ => mkOutcome false false db reg epoch
    end.

(** The tasks of Phase 2, from a snapshot of the registry. *)
Definition plan (v : Version.t) (all_vssts : list (Z * VirtualSST)) (next_file : Z) (task_order : list nat) : list SSTTask :=
  disjoint_ranges task_order start_walk (build_tasks (file_level_map v) all_vssts next_file).

(** Phase 2. *)
Definition phase2 (opts : Writer.KeyOptions) (key_domain : Z) (ios : nat -> Io) (deep_first io_ok snapshot_ok : bool)
    (all_vssts : list (Z * VirtualSST)) (next_file : Z) (task_order install_order : list nat)
    (r : option Reservation.t) (m : option Membership.t) (epoch : Z) (db : Db) (reg : Registry.t) : option (State * Outcome) :=
  let tasks := plan (ver db) all_vssts next_file task_order in
  match materialize opts key_domain ios deep_first tasks task_order r m with
  | None => None
  | Some st => Some (st, finish_materialization io_ok snapshot_ok install_order tasks st epoch db reg)
  end.

(** ** Lemmas on the edit *)

Definition pair_of (t : SSTTask) : Z * Z := (level t, virtual_fnum t).
Definition number_of (lf : Z * FileMetaData) : Z := fd_number lf.2.
Definition written (res : SSTResult) : Prop := ok res = true /\ keys_written res <> 0.

Lemma delete_all_spec tasks : forall e, NoDup (deleted_files e ++ (pair_of <$> tasks)) ->
  deleted_files (delete_all tasks e) = deleted_files e ++ (pair_of <$> tasks) /\
  new_files (delete_all tasks e) = new_files e /\ last_sequence (delete_all tasks e) = last_sequence e.
Proof.
  induction tasks as [|t tasks IH]; intros e Hnd; cbn [delete_all foldl]; [by rewrite app_nil_r|].
  cbn [fmap list_fmap] in Hnd. apply NoDup_app in Hnd as Hsplit. destruct Hsplit as (_ & Hdis & _).
  assert (deleted_files (DeleteFile (level t) (virtual_fnum t) e) = deleted_files e ++ [pair_of t]) as Hd.
  { unfold DeleteFile. cbn. rewrite decide_False; [done|]. intros Hin. apply (Hdis _ Hin). by left. }
  destruct (IH (DeleteFile (level t) (virtual_fnum t) e)) as (H1 & H2 & H3); rewrite Hd in *.
  - by rewrite <- app_assoc.
  - fold delete_all. unfold delete_all in *. rewrite H1, H2, H3, <- app_assoc. done.
Qed.

(** The files the results add, with ascending epochs. *)
Lemma add_results_spec rs : forall epoch e, 0 <= epoch -> epoch + Z.of_nat (length rs) <= u64_max ->
  exists fs, deleted_files (add_results rs epoch e).1 = deleted_files e /\
    new_files (add_results rs epoch e).1 = new_files e ++ fs /\
    sublist (number_of <$> fs) (file_number <$> rs) /\ (length fs <= length rs)%nat /\
    Forall (fun lf => epoch <= meta_epoch lf.2) fs /\ StronglySorted Z.lt ((fun lf => meta_epoch lf.2) <$> fs) /\
    Forall (fun lf => exists res ep, res ∈ rs /\ written res /\ lf = (result_level res, meta_of ep res)) fs /\
    forall res, res ∈ rs -> written res -> file_number res ∈ number_of <$> fs.
Proof.
  induction rs as [|res rs IH]; intros epoch e H0 Hb; cbn [add_results].
  { exists []. rewrite app_nil_r. split_and!; try done; try constructor. by intros res ?%elem_of_nil. }
  cbn [length] in Hb. destruct (decide (written res)) as [[Hok Hw]|Hw].
  - rewrite Hok, bool_decide_false by done. cbn [negb orb].
    assert (epoch +% 1 = epoch + 1) as -> by (apply u64_small; solve_u64).
    destruct (IH (epoch + 1) (AddFile (result_level res) (meta_of epoch res) e) ltac:(lia) ltac:(lia))
      as (fs & F1 & F2 & F3 & F4 & F5 & F6 & F7 & F8).
    exists ((result_level res, meta_of epoch res) :: fs). cbn [fmap list_fmap length]. rewrite F1, F2. cbn [AddFile new_files deleted_files].
    rewrite <- app_assoc. split_and!; try done; try lia.
    + by apply sublist_skip.
    + constructor; [cbn; lia|]. eapply Forall_impl; [exact F5|]. cbn. lia.
    + constructor; [done|]. apply Forall_fmap. eapply Forall_impl; [exact F5|]. cbn. lia.
    + constructor; [exists res, epoch; repeat split; [by left|done|done]|]. eapply Forall_impl; [exact F7|].
      intros lf (res' & ep & ? & ? & ?). exists res', ep. split_and!; try done. by right.
    + intros res' [->|Hin]%elem_of_cons Hw'; [by left|right; by apply F8].
  - assert (negb (ok res) || bool_decide (keys_written res = 0) = true) as ->.
    { unfold written in Hw. destruct (ok res); [|done]. cbn. apply bool_decide_eq_true. lia. }
    destruct (IH epoch e H0 ltac:(lia)) as (fs & F1 & F2 & F3 & F4 & F5 & F6 & F7 & F8). exists fs. split_and!; try done; try (cbn; lia).
    + by apply sublist_cons.
    + eapply Forall_impl; [exact F7|]. intros lf (res' & ep & ? & ? & ?). exists res', ep. split_and!; try done. by right.
    + intros res' [->|Hin]%elem_of_cons Hw'; [done|by apply F8].
Qed.

(** A file of the edit is the table of a written result. *)
Lemma add_results_number rs n : forall epoch e, n ∈ number_of <$> new_files (add_results rs epoch e).1 ->
  n ∈ number_of <$> new_files e \/ exists res, res ∈ rs /\ written res /\ n = file_number res.
Proof.
  induction rs as [|res rs IH]; intros epoch e; cbn [add_results]; [by left|].
  destruct (negb (ok res) || _) eqn:Hw; intros [Hin|(res' & Hres & Hw' & Hn)]%IH;
    try (right; exists res'; split; [by right|done]); [by left|].
  cbn [AddFile new_files] in Hin. rewrite fmap_app, elem_of_app in Hin. destruct Hin as [Hin|Hin]; [by left|right].
  apply list_elem_of_singleton in Hin as ->. apply orb_false_iff in Hw as [Hok Hk].
  exists res. split_and!; [by left| |done]. split; [by destruct (ok res)|by apply bool_decide_eq_false in Hk].
Qed.

Lemma delete_all_new tasks : forall e, new_files (delete_all tasks e) = new_files e.
Proof. induction tasks as [|t tasks IH]; intros e; [done|]. unfold delete_all in *. cbn [foldl]. by rewrite IH. Qed.

(** ** The tasks and the version *)

(** One task per file of the version, each with a file number of its own. *)
Record matches (tasks : list SSTTask) (v : Version.t) : Prop := {
  a_pairs : forall level n, (level, n) ∈ pair_of <$> tasks <-> GetFileLocation n v = Some level;
  a_virtual : NoDup (virtual_fnum <$> tasks);
  a_real : NoDup (real_fnum <$> tasks);
}.

Lemma pair_of_snd (tasks : list SSTTask) : snd <$> (pair_of <$> tasks) = virtual_fnum <$> tasks.
Proof. by rewrite <- list_fmap_compose. Qed.

Lemma remove_all_registry tasks : forall r, dom (Registry.registry_ (remove_all tasks r)) =
  dom (Registry.registry_ r) ∖ list_to_set (virtual_fnum <$> tasks).
Proof.
  induction tasks as [|t tasks IH]; intros r; cbn [remove_all foldl fmap list_fmap list_to_set]; [set_solver|].
  fold (remove_all tasks (Registry.Remove (virtual_fnum t) r)). rewrite IH. unfold Registry.Remove.
  destruct (Registry.registry_ r !! virtual_fnum t) eqn:E; cbn [Registry.registry_ Registry.with_files].
  - rewrite dom_delete_L. set_solver.
  - apply not_elem_of_dom in E. set_solver.
Qed.

(** The pass over the ranges changes nothing but the ranges. *)
Lemma walk_task_same w t : let t' := (walk_task w t).2 in
  level t' = level t /\ virtual_fnum t' = virtual_fnum t /\ real_fnum t' = real_fnum t.
Proof. unfold walk_task. destruct (decide _); [done|]. by destruct (_ && _). Qed.

Lemma disjoint_ranges_same {A} (f : SSTTask -> A) order : (forall w t, f (walk_task w t).2 = f t) -> forall w tasks,
  f <$> disjoint_ranges order w tasks = f <$> tasks.
Proof.
  intros Hf. induction order as [|i order IH]; intros w tasks; cbn [disjoint_ranges]; [done|].
  destruct (tasks !! i) as [t|] eqn:Ht; [|done]. pose proof (Hf w t) as Ht'. destruct (walk_task w t) as [w' t']. cbn in Ht'.
  rewrite IH, list_fmap_insert, Ht'. apply list_insert_id. by rewrite list_lookup_fmap, Ht.
Qed.

Lemma build_tasks_spec levels all : forall next, 0 <= next -> next + Z.of_nat (length all) <= u64_max ->
  virtual_fnum <$> build_tasks levels all next = fst <$> all /\
  real_fnum <$> build_tasks levels all next = seqZ next (Z.of_nat (length all)) /\
  level <$> build_tasks levels all next = (fun nv => default 0 (levels !! nv.1)) <$> all.
Proof.
  induction all as [|[n v] all IH]; intros next H0 Hb; [done|]. cbn [build_tasks fmap list_fmap length] in *.
  assert (next +% 1 = next + 1) as -> by (apply u64_small; solve_u64).
  destruct (IH (next + 1) ltac:(lia) ltac:(lia)) as (I1 & I2 & I3). rewrite I1, I2, I3. split_and!; [done| |done].
  rewrite (seqZ_cons next (Z.of_nat (S (length all)))) by lia. cbn. do 2 f_equal; lia.
Qed.

(** The plan of a registry whose files are those of the version. *)
Lemma plan_matches v reg all next order : Registry.is_snapshot reg all -> dom (Registry.registry_ reg) = dom v ->
  0 <= next -> next + Z.of_nat (length all) <= u64_max ->
  let tasks := plan v all next order in
  matches tasks v /\ length tasks = length all /\ dom (Registry.registry_ reg) = list_to_set (virtual_fnum <$> tasks) /\
  forall t, t ∈ tasks -> exists f, v !! virtual_fnum t = Some (level t, f).
Proof.
  intros Hs Hdom H0 Hb tasks. destruct (build_tasks_spec (file_level_map v) all next H0 Hb) as (B1 & B2 & B3).
  assert (forall n, n ∈ fst <$> all <-> n ∈ dom v) as Hn.
  { intros n. rewrite <- Hdom, Hs, elem_of_dom, list_elem_of_fmap. split.
    - intros ([n' x] & -> & Hin%elem_of_map_to_list). by exists x.
    - intros [x Hx]. exists (n, x). split; [done|]. by apply elem_of_map_to_list. }
  assert (NoDup (fst <$> all)) as Hnd by (rewrite Hs; apply NoDup_fst_map_to_list).
  assert (pair_of <$> tasks = (fun nv => (default 0 (file_level_map v !! nv.1), nv.1)) <$> all) as Hp.
  { unfold tasks, plan. rewrite disjoint_ranges_same by (intros w t; destruct (walk_task_same w t) as (E1 & E2 & _); unfold pair_of; by rewrite E1, E2).
    apply list_eq. intros i. apply (f_equal (.!! i)) in B1, B3. rewrite !list_lookup_fmap in *.
    destruct (build_tasks _ _ _ !! i), (all !! i); cbn in *; try done. unfold pair_of. congruence. }
  assert (virtual_fnum <$> tasks = fst <$> all) as Hv by (unfold tasks, plan; rewrite disjoint_ranges_same; [done|]; intros w t; apply walk_task_same).
  assert (forall t, t ∈ tasks -> exists f, v !! virtual_fnum t = Some (level t, f)) as Hlook.
  { intros t Ht. assert (pair_of t ∈ pair_of <$> tasks) as Hin by (apply list_elem_of_fmap; by exists t). rewrite Hp in Hin.
    apply list_elem_of_fmap in Hin as ([n x] & [= -> ->] & Hin). assert (n ∈ dom v) as [[lv f] Hf]%elem_of_dom.
    { apply Hn, list_elem_of_fmap. by exists (n, x). }
    exists f. unfold file_level_map. cbn. by rewrite lookup_fmap, Hf. }
  split_and!; [split| | |done].
  - intros lv n. unfold GetFileLocation. rewrite Hp, list_elem_of_fmap. split.
    + intros ([n' x] & [= -> ->] & Hin). unfold file_level_map. assert (n' ∈ dom v) as [[lv f] Hf]%elem_of_dom.
      { apply Hn, list_elem_of_fmap. by exists (n', x). }
      by rewrite lookup_fmap, Hf.
    + intros Hloc. destruct (v !! n) as [[lv' f]|] eqn:Hf; [|done]. injection Hloc as <-.
      assert (n ∈ fst <$> all) as ([n' x] & -> & Hin)%list_elem_of_fmap by (apply Hn, elem_of_dom; by eexists).
      exists (n', x). split; [|done]. unfold file_level_map. cbn in *. by rewrite lookup_fmap, Hf.
  - by rewrite Hv.
  - unfold tasks, plan. rewrite disjoint_ranges_same by (intros w t; apply walk_task_same). rewrite B2. apply NoDup_seqZ.
  - apply (f_equal length) in Hv. by rewrite !length_fmap in Hv.
  - rewrite Hv. apply set_eq. intros n. rewrite elem_of_list_to_set, Hn. by rewrite Hdom.
Qed.

(** The conditions of the installation that do not depend on the edit. *)
Record ready (n : nat) (db : Db) : Prop := {
  y_paused : bg_work_paused db <> 0;
  y_mem : mem_empty db = true;
  y_imm : imm_not_flushed db = 0;
  y_cf : cf_id db = 0;
  y_table : block_based db = true;
  y_timestamp : timestamp_size db = 0;
  y_sequence : 0 <= LastSequence db;
  y_room : max_sequence db + Z.of_nat n < kMaxSequenceNumber;
}.

Section replace.
Context (opts : Writer.KeyOptions) (ios : nat -> Io).
Hypothesis (Hsize : (8 <= Writer.key_size_ opts)%nat).

(** A written table passes the checks of the installation. *)
Lemma written_check levels t io l res ep : 0 <= level t < levels -> good_result opts t io l res -> written res ->
  check_file levels (result_level res, meta_of ep res) = OK /\ l <> [].
Proof.
  intros Hlev [_ _ Hlevel _ Hwr _ Hfirst Hlast Hs Hu] [_ Hw]. assert (l <> []) as Hl by (intros ->; cbn in *; lia). split; [|done].
  destruct l as [|lo l]; [done|]. destruct (last (lo :: l)) as [hi|] eqn:Ehi; [|by apply last_None in Ehi].
  unfold check_file, meta_of. cbn [smallest largest smallest_seqno largest_seqno].
  rewrite !Parse_InternalKey by (done || (unfold kMaxSequenceNumber; lia) || by vm_compute). cbn [sequence type user_key].
  rewrite decide_False; [done|]. rewrite Hlevel, Hfirst, Hlast. cbn [head from_option].
  rewrite Forall_forall in Hu. assert (hi ∈ lo :: l) as Hin by (by apply last_Some_elem_of).
  rewrite key_of_compare by (done || (apply Hu; done || by left)).
  assert (lo <= hi) as Hle.
  { apply StronglySorted_inv in Hs as [_ Hall]. rewrite Forall_forall in Hall.
    apply elem_of_cons in Hin as [->|Hin]; [lia|]. specialize (Hall hi Hin). lia. }
  rewrite Z.compare_gt_iff. lia.
Qed.

(** The edit of a finished materialization. *)
Lemma build_edit_spec tasks st epoch v levels : matches tasks v -> materialized opts ios tasks st ->
  Forall (fun t => 0 <= level t < levels) tasks -> 0 <= epoch -> epoch + Z.of_nat (length tasks) <= u64_max ->
  let e := (build_edit tasks (results st) epoch).1 in
  (forall level n, (level, n) ∈ deleted_files e <-> GetFileLocation n v = Some level) /\
  NoDup (removed e) /\ NoDup (added e) /\ (length (new_files e) <= length tasks)%nat /\
  StronglySorted Z.lt ((fun lf => meta_epoch lf.2) <$> new_files e) /\
  Forall (fun lf => check_file levels lf = OK /\ exists i t res l ep, tasks !! i = Some t /\ outputs st !! i = Some l /\
    good_result opts t (ios i) l res /\ l <> [] /\ lf = (level t, meta_of ep res)) (new_files e) /\
  (forall i t l, tasks !! i = Some t -> outputs st !! i = Some l -> l <> [] -> real_fnum t ∈ added e).
Proof.
  intros [Hpairs Hvn Hrn] [Hlen Hfile] Hlev H0 Hb e. unfold build_edit in e.
  assert (NoDup (pair_of <$> tasks)) as Hnp by (rewrite <- pair_of_snd in Hvn; by apply NoDup_fmap_1 in Hvn).
  destruct (delete_all_spec tasks empty_edit Hnp) as (D1 & D2 & _). cbn in D1, D2.
  destruct (add_results_spec (results st) epoch (delete_all tasks empty_edit) H0 ltac:(lia)) as (fs & F1 & F2 & F3 & F4 & _ & F6 & F7 & F8).
  fold e in F1, F2. rewrite D1 in F1. rewrite D2 in F2. cbn in F2.
  assert (file_number <$> results st = real_fnum <$> tasks) as Hnum.
  { apply list_eq_same_length with (n := length tasks); [by rewrite length_fmap|by rewrite length_fmap|].
    intros i x y Hi. rewrite !list_lookup_fmap. destruct (tasks !! i) as [t|] eqn:Ht; [|done].
    destruct (Hfile i t Ht) as (res & l & -> & _ & [_ Hn _ _ _ _ _ _ _ _]). cbn. congruence. }
  unfold removed, added. rewrite F1, F2. split_and!.
  - apply Hpairs.
  - by rewrite pair_of_snd.
  - eapply (sublist_NoDup _ (file_number <$> results st)); [by rewrite Hnum|exact F3].
  - lia.
  - done.
  - eapply Forall_impl; [exact F7|]. intros lf (res & ep & Hin & Hw & ->). apply list_elem_of_lookup in Hin as [i Hi].
    destruct (lookup_lt_is_Some_2 tasks i) as [t Ht]; [rewrite <- Hlen; by eapply lookup_lt_Some|].
    destruct (Hfile i t Ht) as (res' & l & Hres & Hl & Hg). assert (res' = res) as -> by congruence.
    rewrite Forall_forall in Hlev. destruct (written_check levels t (ios i) l res ep (Hlev t (list_elem_of_lookup_2 _ _ _ Ht)) Hg Hw) as [Hc Hne].
    split; [done|]. exists i, t, res, l, ep. split_and!; try done. by rewrite (g_level _ _ _ _ _ Hg).
  - intros i t l Ht Hl Hne. destruct (Hfile i t Ht) as (res & l' & Hres & Hl' & Hg). assert (l' = l) as -> by congruence.
    rewrite <- (g_number _ _ _ _ _ Hg). apply F8; [by eapply list_elem_of_lookup_2|]. split; [by apply Hg|].
    rewrite (g_written _ _ _ _ _ Hg). by destruct l.
Qed.

(** A real file of the version: the table of the task [t], which holds the keys [l]. *)
Definition real_file (t : SSTTask) (l : list Z) (lf : Z * FileMetaData) : Prop :=
  lf.1 = level t /\ fd_number lf.2 = real_fnum t /\ largest_seqno lf.2 = smallest_seqno lf.2 /\
  exists lo hi, head l = Some lo /\ last l = Some hi /\
    smallest lf.2 = InternalKey (key_of opts lo) (smallest_seqno lf.2) kTypeValue /\
    largest lf.2 = InternalKey (key_of opts hi) (smallest_seqno lf.2) kTypeValue.

Lemma set_sequence_real t io l res ep s : good_result opts t io l res -> l <> [] -> real_file t l (set_sequence s (level t, meta_of ep res)).
Proof.
  intros Hg Hl. unfold real_file, meta_of. cbn [fst snd set_sequence fd_number smallest largest smallest_seqno largest_seqno]. split_and!; try done; [by apply Hg|]. destruct l as [|lo l]; [done|].
  destruct (last (lo :: l)) as [hi|] eqn:Ehi; [|by apply last_None in Ehi]. exists lo, hi. split_and!; try done; rewrite Update_InternalKey.
  - by rewrite (g_first _ _ _ _ _ Hg).
  - by rewrite (g_last _ _ _ _ _ Hg), Ehi.
Qed.

(** What the version looks like afterwards. *)
Record replaced (tasks : list SSTTask) (st : State) (db db' : Db) : Prop := {
  r_file : forall n lf, ver db' !! n = Some lf -> exists i t l, tasks !! i = Some t /\ outputs st !! i = Some l /\ l <> [] /\
             n = real_fnum t /\ real_file t l lf /\ max_sequence db < smallest_seqno lf.2 <= LastSequence db';
  r_all : forall i t l, tasks !! i = Some t -> outputs st !! i = Some l -> l <> [] -> is_Some (ver db' !! real_fnum t);
  r_level : forall n n' a b, ver db' !! n = Some a -> ver db' !! n' = Some b -> a.1 < b.1 -> smallest_seqno b.2 < smallest_seqno a.2;
  r_epoch : forall n n' a b, ver db' !! n = Some a -> ver db' !! n' = Some b -> n <> n' -> meta_epoch a.2 <> meta_epoch b.2;
}.

Lemma epochs_distinct (files files' : list (Z * FileMetaData)) i j a b : StronglySorted Z.lt ((fun lf => meta_epoch lf.2) <$> files) ->
  (forall i lf, files' !! i = Some lf -> exists s lf0, files !! i = Some lf0 /\ lf = set_sequence s lf0) ->
  files' !! i = Some a -> files' !! j = Some b -> i <> j -> meta_epoch a.2 <> meta_epoch b.2.
Proof.
  intros Hs Hf Ha Hb Hij. destruct (Hf i a Ha) as (sa & [la fa] & Ea & ->). destruct (Hf j b Hb) as (sb & [lb fb] & Eb & ->). cbn.
  assert (forall i j x y, (i < j)%nat -> files !! i = Some x -> files !! j = Some y -> meta_epoch x.2 < meta_epoch y.2) as Hlt.
  { intros i' j' x y Hlt Hx Hy. eapply (StronglySorted_lookup _ _ i' j'); [exact Hs|done|by rewrite list_lookup_fmap, Hx|by rewrite list_lookup_fmap, Hy]. }
  destruct (decide (i < j)%nat) as [H|H].
  - specialize (Hlt i j _ _ H Ea Eb). cbn in Hlt. lia.
  - specialize (Hlt j i _ _ ltac:(lia) Eb Ea). cbn in Hlt. lia.
Qed.

Lemma finish_spec tasks st epoch db reg order : matches tasks (ver db) -> materialized opts ios tasks st -> materialize_ok st = true ->
  Forall (fun t => 0 <= level t < num_levels db) tasks -> 0 <= epoch -> epoch + Z.of_nat (length tasks) <= u64_max ->
  ready (length tasks) db -> is_install_order (new_files (build_edit tasks (results st) epoch).1) order ->
  dom (Registry.registry_ reg) = list_to_set (virtual_fnum <$> tasks) ->
  let o := finish_materialization true true order tasks st epoch db reg in
  version_applied o = true /\ manifest_ok o = true /\ Registry.registry_ (out_registry o) = ∅ /\ replaced tasks st db (out_db o).
Proof.
  intros Hm Hmat Hok Hlev He0 He [Y1 Y2 Y3 Y4 Y5 Y6 Y7 Y8] Hord Hreg. unfold finish_materialization. rewrite Hok. cbn [negb].
  destruct (build_edit_spec tasks st epoch (ver db) (num_levels db) Hm Hmat Hlev He0 He) as (E1 & E2 & E3 & E4 & E5 & E6 & E7).
  destruct (build_edit tasks (results st) epoch) as [e epoch']. cbn [fst] in *.
  destruct (Install_succeeds order e db) as (db' & e' & Hi); try done; [|lia|].
  { eapply Forall_impl; [exact E6|]. by intros lf [? _]. }
  rewrite Y4 in Hi. rewrite Hi. change (log_status true [empty_edit] (ver db')) with OK. cbn [version_applied manifest_ok out_registry out_db].
  split; [done|]. split; [done|]. split.
  { apply dom_empty_inv_L. rewrite remove_all_registry, Hreg. set_solver. }
  destruct (Install_spec true 0 order e db db' e' Hord Y7 Hi) as (S1 & S2 & _ & S4 & _).
  assert (forall i lf, new_files e' !! i = Some lf -> exists s lf0, new_files e !! i = Some lf0 /\ lf = set_sequence s lf0) as Hfiles.
  { intros i lf Hl. destruct (S2 i lf Hl) as (lf0 & _ & _ & H1 & H2 & _). by exists (smallest_seqno lf.2), lf0. }
  split.
  - intros n lf [[j Hj]%list_elem_of_lookup <-]%S1. destruct (S2 j lf Hj) as (lf0 & _ & _ & H1 & H2 & _ & _ & _ & _ & Hs).
    rewrite Forall_forall in E6. destruct (E6 lf0 (list_elem_of_lookup_2 _ _ _ H1)) as (_ & i & t & res & l & ep & Ht & Hl & Hg & Hne & ->).
    pose proof (set_sequence_real t (ios i) l res ep (smallest_seqno lf.2) Hg Hne) as Hr. rewrite <- H2 in Hr.
    exists i, t, l. split_and!; try done; [by destruct Hr as (_ & -> & _)|lia|lia].
  - intros i t l Ht Hl Hne. pose proof (E7 i t l Ht Hl Hne) as Hin. unfold added in Hin. apply list_elem_of_fmap in Hin as (lf0 & -> & Hin).
    apply list_elem_of_lookup in Hin as [j Hj].
    assert (number_of <$> new_files e' = number_of <$> new_files e) as Hnum.
    { apply Install_OK_inv in Hi as (e0 & files & sq & v & [= <-] & _ & _ & _ & Ha & [= ->] & _). pose proof (assign_numbers order (max_sequence db) (new_files e)) as Hn.
      by rewrite Ha in Hn. }
    assert (number_of lf0 ∈ number_of <$> new_files e') as Hin by (rewrite Hnum; apply list_elem_of_fmap; eexists; split; [done|]; by eapply list_elem_of_lookup_2).
    apply list_elem_of_fmap in Hin as (lf & Hn & Hin). exists lf. apply S1. split; [done|by symmetry].
  - intros n n' a b [Ha _]%S1 [Hb _]%S1 Hlt. apply (S4 a b Ha Hb). by left.
  - intros n n' a b [[i Ha]%list_elem_of_lookup <-]%S1 [[j Hb]%list_elem_of_lookup <-]%S1 Hne.
    apply (epochs_distinct (new_files e) (new_files e') i j); try done. intros ->. congruence.
Qed.


End replace.

(** Errors of Phase 2 leave a consistent state.  If a file failed, or the
    installation did, the version and the sequence counters are as before and every
    virtual file is still registered; if only the MANIFEST snapshot failed, the version
    is the new one and the registry still keeps the virtual files.  The registry is
    cleared only after both writes, of results that are all in order. *)
Theorem finish_errors io_ok snapshot_ok order tasks st epoch db reg :
  let o := finish_materialization io_ok snapshot_ok order tasks st epoch db reg in
  (version_applied o = false -> out_db o = db) /\
  (manifest_ok o = false -> out_registry o = reg) /\
  (version_applied o = true -> materialize_ok st = true /\ io_ok = true /\
     forall n lf, ver (out_db o) !! n = Some lf -> exists res, res ∈ results st /\ written res /\ n = file_number res) /\
  (manifest_ok o = true <-> version_applied o = true /\ snapshot_ok = true).
Proof.
  unfold finish_materialization. destruct (materialize_ok st) eqn:Hm; cbn [negb]; [|cbn; intuition congruence].
  destruct (build_edit tasks (results st) epoch) as [e epoch'] eqn:Eb.
  destruct (InstallVirtualCompactionMaterialization io_ok 0 order (Some e) db) as [[s db'] e'] eqn:Ei.
  pose proof (Install_unchanged _ _ _ _ _ _ _ _ Ei) as Hun.
  destruct s; try (rewrite Hun by done; cbn; intuition congruence).
  pose proof (Install_write _ _ _ _ _ _ _ Ei) as Hw.
  apply Install_OK_inv in Ei as (e0 & files & sq & v & [= <-] & _ & Hrep & _ & Ha & _ & Hv & Ever & _).
  assert (forall n lf, ver db' !! n = Some lf -> exists res, res ∈ results st /\ written res /\ n = file_number res) as Hfiles.
  { rewrite Ever. intros n lf [Hin <-]%(replaces_all_version e files (Some sq) (ver db) v Hrep Hv).
    destruct (add_results_number (results st) (number_of lf) epoch (delete_all tasks empty_edit)) as [Hn|?]; [|rewrite delete_all_new in Hn; by apply elem_of_nil in Hn|done].
    unfold build_edit in Eb. rewrite Eb. cbn [fst]. pose proof (assign_numbers order (max_sequence db) (new_files e)) as Hn. rewrite Ha in Hn.
    cbn [fst] in Hn. unfold number_of. rewrite <- Hn. apply list_elem_of_fmap. by exists lf. }
  unfold log_status. cbn. destruct snapshot_ok; cbn; intuition congruence.
Qed.

(** ** Instances *)

(** Two virtual files, 7 at level 1 and 8 at level 2. *)
Definition sample_registry : Registry.t :=
  Registry.Register 8 (model_vsst [5; 30; 60; 99]) (Registry.Register 7 (model_vsst [0; 30; 70]) Registry.init).
Definition sample_all : list (Z * VirtualSST) := map_to_list (Registry.registry_ sample_registry).
Definition virtual_db : Db :=
  mkDb {[7 := (1, sample_meta 7 1); 8 := (2, sample_meta 8 2)]} 5 5 5 1 true 0 7 0 true 0.

Lemma sample_plan_wf : Forall task_wf (plan (ver virtual_db) sample_all 100 [0; 1]%nat).
Proof.
  let l := eval vm_compute in (plan (ver virtual_db) sample_all 100 [0; 1]%nat) in
  change (plan (ver virtual_db) sample_all 100 [0; 1]%nat) with l.
  repeat (apply Forall_cons; split); [..|constructor];
  (split; [by vm_compute|by vm_compute|by vm_compute|apply (bool_decide_unpack _); by vm_compute]).
Qed.

Lemma virtual_db_ready : ready (length sample_all) virtual_db.
Proof. by split; vm_compute. Qed.


End Replace.
