(* ===== verification/Setup.v ===== *)
(** * Setting up a virtual load

    The beginning of [FillVirtual] in [tools/db_bench_tool.cc]: the checks of the
    flags and of the trace header, the bitmap of the chosen key mode, and the sizes the
    loading loops work with; and the composition of the parts: a generated trace, read
    by the loader, and materialized with the exact membership. *)

From Stdlib Require Import ZArith Lia SpecFloat.
From stdpp Require Import base numbers list option gmap.
From S2P Require Import Prelude FloatModel FloatTheory SizeModel Plr Kmv Version Window RunVirtual Bitmap Reservation Membership TraceGen TraceFile Flush Load Tasks Writer Worker Phase2.

Local Open Scope Z_scope.

Module Setup.

(** ** Data *)

(** The flags, and the trace file: its name is set, and its bytes if it opens. *)
Record Flags := mkFlags {
  threads : Z;
  flag_num : Z;
  bench_num : Z;
  use_load_trace : bool;
  trace_bytes : option (list Z);
  num_column_families : Z;
  use_blob_db : bool;
  load_trace_max_ops : Z;
  global_unique_keys : bool;
  global_unique_keys_max_mb : Z;
  exact_membership : bool;
  exact_membership_max_mb : Z;
  key_size : Z;
  value_size : Z;
  memtable_flush_size : Z;
  target_file_size_base : Z;
}.

(** A plain return, or an exit of the process with status 1. *)
Inductive Refusal := Returned | Exited.

Record Config := mkConfig {
  avg_entry_size : Z;
  target_sst_size : Z;
  records : Z;
  unique_count : Z;
  key_domain_for_keys : Z;
  body : list Z;
  ops : Z;
  unique_reservation : option Reservation.t;
  membership : option Membership.t;
}.

(** ** Operations *)

(** The trace header, with the values without a trace as defaults: records, domain,
    unique count, body. *)
Definition read_trace (f : Flags) : option (Z * Z * Z * list Z) :=
  if negb (use_load_trace f) then Some (0, u64 (bench_num f), 0, [])
  else if decide (1 < num_column_families f) then None
  else if use_blob_db f then None
  else
    match trace_bytes f with
    | None => None
    | Some file => TraceFile.load_header (key_size f) (value_size f) file
    end.

(** [--vcomp_global_unique_keys]. *)
Definition make_reservation (f : Flags) (n d u : Z) : Refusal + option Reservation.t :=
  if negb (global_unique_keys f) then inr None
  else if negb (use_load_trace f) then inl Exited
  else if decide (u <> n \/ d < n) then inl Exited
  else
    match Reservation.Create d (global_unique_keys_max_mb f *% 1024 *% 1024) with
    | None => inl Exited
    | Some r => inr (Some r)
    end.

(** [--vcomp_exact_membership]. *)
Definition make_membership (f : Flags) (d : Z) : Refusal + option Membership.t :=
  if negb (exact_membership f) then inr None
  else if global_unique_keys f then inl Exited
  else
    match Membership.Create d (exact_membership_max_mb f *% 1024 *% 1024 / 2) with
    | None => inl Exited
    | Some m => inr (Some (Membership.EnableClaims m))
    end.

Definition setup (f : Flags) : Refusal + Config :=
  if decide (threads f <> 1) then inl Exited
  else
    match read_trace f with
    | None => inl Returned
    | Some (n, trace_domain, u, rest) =>
        let num_ops := if use_load_trace f then TraceFile.num_ops (load_trace_max_ops f) n else bench_num f in
        let d := if use_load_trace f then trace_domain else u64 (flag_num f) in
        match make_reservation f n d u with
        | inl e => inl e
        | inr r =>
            match make_membership f d with
            | inl e => inl e
            | inr m =>
                if decide (is_Some m /\ use_load_trace f = false /\ threads f <> 1) then inl Exited
                else
                  inr (mkConfig (u64 (key_size f) +% u64 (value_size f))
                         (if decide (0 < target_file_size_base f) then target_file_size_base f else 64 * 1024 * 1024)
                         n u d rest num_ops r m)
            end
        end
    end.

(** The size of a batch; [None]: a division by zero. *)
Definition memtable_capacity (f : Flags) (c : Config) : option Z :=
  if decide (avg_entry_size c = 0) then None
  else Some (u64 (memtable_flush_size f) *% 1024 *% 1024 / avg_entry_size c).

(** ** Properties *)

(** What a setup that succeeds has established. *)
Lemma setup_spec f c : setup f = inr c -> key_domain_for_keys c <= u64_max - 63 -> 0 <= key_domain_for_keys c ->
  threads f = 1 /\
  match unique_reservation c, membership c with
  | None, None => global_unique_keys f = false /\ exact_membership f = false
  | Some r, None => Reservation.models r ∅ /\ Reservation.key_domain r = key_domain_for_keys c /\
      use_load_trace f = true /\ unique_count c = records c /\ records c <= key_domain_for_keys c
  | None, Some m => Membership.models m ∅ ∅ /\ Membership.claims_enabled m = true /\
      Membership.key_domain m = key_domain_for_keys c
  | Some _, Some _ => False
  end.
Proof.
  unfold setup. destruct (decide (threads f <> 1)) as [|Ht]; [done|]. destruct (read_trace f) as [[[[n td] u] rest]|]; [|done].
  set (d := if use_load_trace f then td else _). unfold make_reservation, make_membership. intros Hs Hmax H0.
  destruct (global_unique_keys f) eqn:Hg; cbn [negb] in Hs.
  - destruct (use_load_trace f) eqn:Hu; cbn [negb] in Hs; [|done]. destruct (decide (u <> n \/ d < n)) as [|Hnu]; [done|].
    destruct (Reservation.Create _ _) as [r|] eqn:Hr; [|done]. destruct (exact_membership f); cbn [negb] in Hs; [done|].
    destruct (decide _); [done|]. injection Hs as <-. cbn [key_domain_for_keys unique_reservation membership unique_count records] in *.
    split; [lia|]. split_and!; try lia; [|].
    + eapply Reservation.Create_models; [|exact Hmax|exact Hr]. unfold is_u64. lia.
    + unfold Reservation.Create in Hr. destruct (decide _); [done|]. destruct (decide _); [done|]. by injection Hr as <-.
  - destruct (exact_membership f) eqn:He; cbn [negb] in Hs.
    + destruct (Membership.Create _ _) as [m|] eqn:Hm; [|done]. destruct (decide _); [done|]. injection Hs as <-.
      cbn [key_domain_for_keys unique_reservation membership] in *. split; [lia|].
      assert (Membership.claims_enabled m = false /\ Membership.key_domain m = d) as [Hc Hd].
      { unfold Membership.Create in Hm. destruct (decide _); [done|]. destruct (decide _); [done|]. by injection Hm as <-. }
      pose proof (Membership.membership_Create d _ m ltac:(unfold is_u64; lia) Hmax Hm) as Hmod.
      split_and!; [by apply Membership.EnableClaims_models| |]; unfold Membership.EnableClaims, Membership.claims_enabled in *;
        by destruct (Membership.claimed_ m).
    + destruct (decide _); [done|]. injection Hs as <-. cbn. split; [lia|done].
Qed.

(** ** From a generated trace to the files *)

Section pipeline.
Context `{HeapOps} (env : Env) (sst_size_model : SSTSizeModel.t) (plr_error_bound : spec_float).
Context (capacity register_batch_max : nat).
Context {E : Type} (enqueue : list Window.WindowFile -> E -> bool * E).
Context (opts : Writer.KeyOptions) (ios : nat -> Worker.Io).
Hypothesis (Hcap : (1 <= capacity)%nat).
Hypothesis (Hok : forall files w, (enqueue files w).1 = true).
Hypothesis (Hplain : Writer.keys_per_prefix_ opts = 0).
Hypothesis (Hsize : (8 <= Writer.key_size_ opts)%nat).
Hypothesis (Hios : forall i, Worker.io_ok (ios i)).

Local Abbreviation load c := (Load.load_trace env sst_size_model plr_error_bound (key_domain_for_keys c) capacity register_batch_max enqueue).

(** The bitmap of a trace load that had an empty one. *)
Lemma load_bitmap c m0 base keys w : membership c = Some m0 -> Membership.models m0 ∅ ∅ -> Membership.claims_enabled m0 = true ->
  is_u64 base -> Forall (fun k => 0 <= k < Membership.key_domain m0) keys ->
  exists l m, load c base (length keys) keys (membership c) w = Some l /\ Flush.membership l = Some m /\
    Membership.models m (list_to_set keys) ∅ /\ Membership.claims_enabled m = true /\
    Membership.Total m = Z.of_nat (size (list_to_set keys : gset Z)).
Proof.
  intros Hc Hm He Hb Hk. destruct (Load.load_trace_spec env sst_size_model plr_error_bound (key_domain_for_keys c) capacity register_batch_max enqueue Hcap
    base (length keys) keys (membership c) w Hok Hb) as (l & El & _ & Hin & _).
  { rewrite Hc. by exists ∅, ∅. }
  { eapply Forall_impl; [exact Hk|]. cbn. lia. }
  rewrite firstn_all, Hc in Hin. unfold Flush.ingested in Hin. destruct (Flush.membership l) as [m|] eqn:Em; [|done].
  destruct Hin as (Hd & He' & Hmod). specialize (Hmod ∅ ∅ Hm). rewrite union_empty_r_L in Hmod.
  assert (filter (fun k => k < Membership.key_domain m0) keys = keys) as Hf.
  { clear -Hk. induction Hk as [|k keys [_ Hk] _ IH]; [done|]. rewrite filter_cons_True by done. by rewrite IH. }
  rewrite Hf in Hmod. exists l, m. split_and!; try done; [congruence|]. by eapply Bits.total_holds, (Membership.m_bits _ _ _ Hmod).
Qed.

(** What the files of the exact membership hold. *)
Lemma exact_files key_domain deep tasks order m s : Forall Worker.task_wf tasks -> Forall Phase2.spread_fits tasks ->
  order ≡ₚ seq 0 (length tasks) -> Membership.models m s ∅ -> Membership.claims_enabled m = true ->
  exists st m', Phase2.materialize opts key_domain ios deep tasks order None (Some m) = Some st /\ Phase2.membership st = Some m' /\
    (forall i l k, Phase2.outputs st !! i = Some l -> k ∈ l -> k ∈ s) /\ Membership.ClaimedTotal m' <= Z.of_nat (size s).
Proof.
  intros Hwf Hfit Hord Hm He. destruct (Phase2.members_run opts key_domain ios Hplain Hsize Hios deep tasks order m s Hwf Hfit Hord Hm He)
    as (st & done & Est & Hall & fs & [Hp Hlen _ _ (m' & Hm' & _ & He' & HM) Hnd _]).
  assert (forall i l k, Phase2.outputs st !! i = Some l -> k ∈ l -> k ∈ s) as Hin.
  { intros i l k Hl Hk. pose proof (lookup_lt_Some _ _ _ Hl) as Hlt. rewrite (Phase2.p_outputs _ _ _ _ Hp) in Hlt.
    destruct (lookup_lt_is_Some_2 tasks i Hlt) as [t Ht]. destruct (Phase2.p_done _ _ _ _ Hp i t (Hall i Hlt) Ht) as (res & l' & _ & Hl' & f & _ & Hmf).
    assert (l' = l) as -> by congruence. destruct Hmf as (_ & _ & HF & _). rewrite Forall_forall in HF. by apply HF. }
  exists st, m'. split_and!; try done. pose proof (Membership.m_claimed _ _ _ HM) as Hc. unfold Membership.ClaimedTotal, Membership.claims_enabled in *.
  destruct (Membership.claimed_ m') as [ws|]; [|done]. cbn [from_option]. erewrite Bits.total_holds by done. apply inj_le, subseteq_size.
  intros k Hk. apply elem_of_list_to_set, list_elem_of_join in Hk as (f & Hkf & Hf). apply list_elem_of_lookup in Hf as [i Hf].
  pose proof (lookup_lt_Some _ _ _ Hf) as Hlt. rewrite Hlen in Hlt. destruct (lookup_lt_is_Some_2 tasks i Hlt) as [t Ht].
  destruct (Phase2.p_done _ _ _ _ Hp i t (Hall i Hlt) Ht) as (res & l & _ & Hl & f' & Hf' & _ & Hfl & _).
  assert (f' = f) as -> by congruence. apply (Hin i l); [done|]. by apply Hfl.
Qed.


End pipeline.

(** ** Instances *)

Definition sample_flags : Flags :=
  mkFlags 1 1000 1000 true (Some (TraceFile.file_of TraceFile.sample_run.1 TraceFile.sample_run.2)) 1 false 0 false 1024 true 1024
    24 100 64 0.


End Setup.
